(* ===== verification/_CoqProject ===== *)
-Q . S2P
Prelude.v
Bytes.v
Backing.v
StateFields.v
IoBus.v
PhysMemory.v
Mcb.v
Pic.v
Pit.v
Scancodes.v
KeyboardController.v
Keyboard.v
KeyboardSystem.v
KeyboardFacts.v
KeyboardTheorems.v
KeyboardParks.v
KeyboardStream.v
BiosKeyboard.v
BiosKeyboardTheorems.v
Types.v
Val.v
Flags.v
Alu.v
AluFacts.v
AluBits.v
AluBitsFacts.v
DivideFacts.v
CpuFlags.v
CpuFlagsFacts.v
FlagImage.v
FlagTracker.v
FlagTrackerFacts.v
LazyFlags.v
Floating.v
Expr.v
Evaluate.v
Values.v
Facts.v
Fold.v
Model.v
Carrier.v
Bounds.v
Table.v
Valuations.v
FoldBase.v
FactsInfer.v
FactsBits.v
FactsPath.v
FactsUse.v
FactsTheorems.v
Graph.v
Prune.v
GraphRun.v
GraphCheck.v
PruneLive.v
PruneShape.v
PruneControl.v
PruneCompact.v
PruneTheorems.v
Effects.v
EffectsTheorems.v
Dominance.v
DominanceTree.v
DominanceIterate.v
DominanceTheorems.v
Vga.v
VgaRaster.v
VgaMemory.v
VgaDevice.v
VgaState.v
VgaFrames.v
VgaTheorems.v
FoldArith.v
FoldCompare.v
FoldBits.v
Lanes.v
FoldLanes.v
FoldLayout.v
FoldSound.v
Theorems.v
