(* ===== verification/Prelude.v ===== *)
(** * relocade: a verification library

    relocade runs x86 programs in WebAssembly. A compiler (crates/compiler)
    builds typed, guest-independent functions out of pure expressions and lowers
    them to Wasm; an x86 front end (crates/x86) decodes instructions into that
    compiler and keeps the CPU state in SSA values along a path; a machine
    (crates/machine, crates/pc) executes the generated modules over guest memory
    beside PC devices (crates/pic, crates/pit, crates/vga and others), BIOS and DOS
    services.
    This library models the compiler's expression core, the x86 arithmetic unit
    with its lazily evaluated flags, guest memory and its device bus, the DOS
    memory allocator, the BIOS keyboard services and the interrupt, timer, keyboard and
    display hardware.

    ** The compiler's expression core

    A function body interns pure expressions into one table of values; folding
    rewrites an expression on WebAssembly carriers before it is emitted.

    - Types.v: src/crates/compiler/src/types.rs, literal.rs, integer.rs,
      bitwise.rs. A u64 or u128 is a [Z]; a [Literal] is its two u64 words;
      integer operations return [None] where the source returns None (a trapping
      division).
    - Floating.v: floating.rs, floating/vector.rs, over the Standard Library's
      [SpecFloat]; a NaN result is [None], as in the source.
    - Expr.v: expression.rs, expression/operators.rs, expression/shuffle.rs.
      [Expression A] over any operand type; [operands] is the traversal order,
      [try_map] the fallible one.
    - Evaluate.v: expression/evaluate.rs, evaluate/vector.rs: [constant_result]
      at logical widths, [carrier_result] on carriers.
    - Values.v: the values of body.rs, body/values.rs and body/values/bounds.rs.
      A [ValueTable] is the vector of values with the intern map; ids are [nat];
      an id out of range is [None], the panic of the source's indexing.
    - Fold.v: expression/fold.rs and fold/*.rs. The methods of [Folder] are
      written over the recursive call they make; [fold_result] closes the
      recursion with fuel, in a state monad with panics over the table.

    The meaning of a table is in Model.v: typing of carrier expressions, and
    valuations [model t rho], which give every stored value a carrier encoding
    that agrees with its definition; [wf] is the invariant of the table. Carrier.v,
    Bounds.v, Table.v and Valuations.v develop the operators' carrier equations,
    the soundness of the bit bounds, the contracts of the table operations and
    the existence and uniqueness of valuations. FoldBase.v states the contract of
    the recursion; FoldArith.v, FoldCompare.v, FoldBits.v, Lanes.v, FoldLanes.v
    and FoldLayout.v prove every rewrite against it; FoldSound.v joins them.

    Theorems.v states the results: folding terminates, keeps the table
    well-formed and preserves the value of the expression for every valuation
    (an expression that traps or has an unspecified NaN is left unfolded);
    bounds hold for every value; interning and representation are canonical;
    bitwise results, rotations, divisions, lanes, shuffle masks and float bits
    agree with their reference definitions.

    ** Facts of a path

    Before placement, flow reduction (crates/compiler/src/place) collects what the
    branches on the way to a block say of scalar values.

    - Facts.v: place/facts.rs and place/facts/*.rs. [ScalarFacts] holds known bits,
      64-bit lane words, ranges, comparison outcomes, tracked constraints and the
      inference cache. Operations that change the facts are in the state monad
      [FM] with panics; the explicit work stacks of the source are loop states.
    - FactsInfer.v: the meaning of facts: [sat t rho f] says that the facts hold of
      the valuation [rho], [facts_ok] is the invariant, and [constructed] states
      what expression construction promises of stored expressions: operands are
      sign-extended where an operation reads signs, selectors and tested
      predicates are normalized, and bounds stay within carriers.
      It also holds, with FactsBits.v, the inference of bits, that its loop ends within
      [visit_fuel], and its soundness. Evaluation at logical widths agrees there
      with carriers (Section Logical).
    - FactsPath.v: [learning] is the contract of an operation that
      cannot panic and adds only what a predicate on valuations implies; every
      assumption, propagation and observation satisfies it.
    - FactsUse.v: joins, exclusion of blocks, identities and case
      analysis over selects. FactsTheorems.v states the results.

    ** Function graphs and pruning

    A body is a graph of blocks over the value table; placement prunes it, schedules
    its values and compacts what is left.

    - Graph.v: body.rs, body/operation.rs, body/producer.rs and the attributes of
      memory.rs and memory/atomic.rs: blocks, effects, exits, layouts, traversal.
    - Prune.v: body/prune.rs, prune/liveness.rs, prune/control.rs, prune/storage.rs
      and the compaction of body/values.rs.
    - GraphRun.v: the meaning of a graph. [execute] runs blocks over an effect of
      operations on a world, which is a parameter; pure values are read from their
      definitions before placement and computed by items after it. [graph_wf] is the
      invariant of a graph.
    - PruneLive.v: the search for reachable blocks, and liveness against the rule
      induction [needed]. PruneShape.v: what pruning leaves, and a simulation.
      PruneControl.v: resolved exits. PruneCompact.v: the renaming and its simulation. PruneTheorems.v states the
      results on runs; GraphCheck.v checks the sample graphs.

    ** Memory effects

    Placement moves a read past an operation, or drops an operation, by footprints.

    - Effects.v: place/effects.rs, effects/ranges.rs and effects/operations.rs: the
      byte ranges of an operation, relative to the value its address starts from,
      the summaries of the functions of a program, and the test that keeps a read
      after a write. A program is its list of functions, without a body for what
      is not built.
    - EffectsTheorems.v: [may_do], the accesses a function makes through any calls, as
      an inductive relation over the valuations of its bodies, and the lemmas that
      ranges, descriptions and summaries allow what is done; the results, and their
      runs on a program of three functions.

    ** Dominance

    - Dominance.v: place/dominance.rs over successor and predecessor lists: search,
      iteration in reverse postorder, intervals, ancestors at powers of two, queries.
    - DominanceTree.v: the search against [path_to], the paths from the root, and the
      tree of provisional parents as a function changed at one block at a time, with
      the invariant of a round. DominanceIterate.v carries it to the vectors, and
      relates intervals and lifting to ancestors. DominanceTheorems.v states the results against domination by paths.

    ** The x86 arithmetic unit and its flags

    The front end builds expressions; the definitions here give the values those
    expressions have when the generated code runs. Between the front end and the
    compiler stands the class [Expressions] of Backing.v: what a [Val<T>] is worth,
    when two are the same expression, and nothing about how they are folded.

    - Val.v: crates/compiler/src/value.rs, one definition per operation, each
      proved to be what integer.rs (Types.v) computes.
    - Backing.v: linear memory, little-endian loads and stores, the class
      [Expressions] and the body under construction; [shared_expressions] and
      [fresh_expressions] are its two extreme instances.
    - StateFields.v: crates/x86/src/ssa: [StateFields] retains the fields of a
      record as values and writes changed ones back. [represents] relates a set
      of definitions to the memory direct accesses would have produced.
    - Flags.v: flags.rs, flags/mask.rs (Module [FlagMask]), flags/condition.rs.
    - Alu.v, AluBits.v: alu.rs, alu/*.rs and flags/changes.rs. AluFacts.v proves
      the flag equations and the condition shortcuts, AluBitsFacts.v that rotations
      and shifts are iterated one-bit steps, DivideFacts.v that #DE is raised
      exactly when the quotient does not exist.
    - CpuFlags.v: the stored flag record of crates/x86/src/state, with its three
      clients: the generated writer (flags/record.rs), the generated readers
      (cpu/flags.rs) and the host (layout/flags.rs). CpuFlagsFacts.v and
      FlagImage.v (flags/image.rs) prove that the two decoders agree.
    - FlagTracker.v: state/flags.rs, flags/queries.rs, flags/publication.rs: the
      tracker over [StateFields] and the stored record. FlagTrackerFacts.v and
      LazyFlags.v prove that it refines a machine with twelve eager flags.

    ** Guest memory and services

    - Bytes.v: little-endian byte strings.
    - IoBus.v: crates/machine/src/io.rs. The class [Device] is the trait; the
      bus routes over any device type, and devices are shared by handle.
    - PhysMemory.v: x86/src/memory/physical_map.rs, machine/src/memory/view and
      config/machine.rs, pc/src/configuration.rs: pages, ROM, holes, A20 and
      device windows. Transfers by spans equal bytewise transfers.
    - Mcb.v: crates/dos/src/memory.rs and error.rs: the memory control blocks,
      over the interface [ConventionalMemory] that the physical view implements.

    ** Devices

    - Pic.v: src/crates/pic: the master 8259A. A [Waker] is the number of the task
      it wakes. Theorems: the priority resolver, initialization, nested service,
      level and edge requests, no lost wakeup, the polled vector.
    - Pit.v: src/crates/pit: the 8254 counter, its clock arithmetic and the timer
      device with IRQ0 on the Pic model. A Duration is its number of
      nanoseconds; [None] is a Rust panic (overflow checks on). Theorems: the
      arithmetic [advance] refines one-tick steps, clock conversions are a Galois
      connection, deadlines are exact and edges reach the interrupt line.
    - Scancodes.v: crates/at-keyboard/src/scancodes.rs: key sequences in both scan
      sets and the translation, which is proved to give the set-1 sequence.
    - KeyboardController.v, Keyboard.v: controller.rs and keyboard.rs. Each
      asynchronous task is a state machine: a state per await ([Firmware], [Task]),
      a step from one await to the next, [None] while the awaited condition does
      not hold. [iterate] is the order in which a BTreeSet is traversed; the
      theorems assume only that it lists each element once.
    - KeyboardSystem.v: lib.rs: both tasks beside the guest's port accesses, the
      host's events, the clock and the rest of the PIC, as a list of actions.
      KeyboardFacts.v has the lemmas of each operation, KeyboardTheorems.v the
      invariant and that no wakeup is lost, KeyboardParks.v that the tasks park
      within 100 polls per queued event plus 900, KeyboardStream.v that the bytes
      the guest reads are the set-1 sequences of the host's key transitions.

    ** BIOS keyboard

    crates/bios/src/keyboard translates the controller's bytes at IRQ1, keeps flags
    and a ring of keystrokes in guest memory, and serves INT 16h.

    - BiosKeyboard.v: keyboard.rs, keyboard/*.rs and the pointers of
      crates/x86/src/real_mode.rs, over the interface [ConventionalMemory]. An
      operation threads the memory and gives the waker it wakes; [read_key] is a
      state between polls; the interrupt is split at its callback of INT 1Bh.
      [peek_loop] discards entries a mode cannot express.
    - BiosKeyboardTheorems.v: the operations refine a bounded queue beside plain
      flags, wherever the guest puts the ring; a parked reader is woken; and the bytes
      of Scancodes.v decode to the keystrokes the native translator gives.

    ** The VGA

    crates/vga is programmed through ports and memory apertures, captures what it
    displays at each vertical retrace, and hands captures to renderers, which upload
    only what changed.

    - Vga.v: registers/*.rs, svga.rs, state/vga_core.rs and the encodings of state.rs:
      the register banks and their ports, the packed modes with their layouts
      ([None] where a layout refuses a pitch or an origin), the adapter's setup and
      the encodings that save the programming and restore it.
    - VgaRaster.v: timing.rs, timing/*.rs, raster.rs. An instant is its number of
      nanoseconds; [update_to] carries the fraction of a dot and gives the latest
      retrace passed, or [None] for a subtraction or a counter that overflows.
    - VgaMemory.v: memory.rs, memory/*.rs, snapshot.rs, scanout.rs and
      renderer/memory.rs. A block is an Arc: an id into a heap of bytes that outlives
      it. [storage_write] has the list of the snapshots that are held, which decides
      whether make_mut copies; a captured block is then never written. The buffer of
      the graphics card is a function from offsets to bytes.
    - VgaDevice.v: lib.rs, state.rs, capture.rs, retrace.rs, scanout/vga.rs and
      geometry.rs. A [World] is the device, a capture on its way to publication,
      the captures readers hold and the renderers. Every handler begins with
      [sync_to_clock], which other threads can interleave with: a handler is the
      transitions [Capture], [Publish] and its effect, in that order, so a [run] of
      actions holds the schedules in which a reader takes a capture between them.
      The clock is the argument of [Capture]; ArcSwap and Event are the atomic
      exchange and the wakeup they document.
    - VgaState.v: the invariant of the banks and the round trips of their encodings;
      VgaFrames.v: the evolution of shared memory, ranges of dirty pages, the mirror an
      upload keeps and the invariant [world_ok]; VgaTheorems.v: uploads by dirty pages
      equal full uploads, captures never change, no sequence of accesses panics, the
      encodings of every reachable state decode, updates of the raster compose, the
      deadline of a retrace is exact, and 256-color memory is linear.

    ** Fuel

    [fold_result] runs with [fold_fuel], the length of the table plus eight: a
    rewrite recurses only on expressions whose operands are earlier in the table
    or whose shape is lower by a fixed measure ([depth] in FoldBase.v), and
    [fold_carrier_spec] proves that this fuel always yields a result.
    [representation] follows conversions to strictly earlier ids, so the id
    itself plus one is enough. [read_chain] takes the number of paragraphs of the
    arena, of which every block uses at least one; the walk over spans takes the
    length of the transfer, of which every span takes at least one byte; a device
    transfer takes eight, the widest access. Inference and assumption visit a
    value [id] in at most 8^(id+1) rounds, since a round pushes at most five
    entries for strictly earlier values; [visit_fuel] is that number, written as a
    binary number and run by [repeat_until], so it costs nothing to execute. The
    worklists of reachability and liveness pop one entry a round; a block pushes its
    targets once, and a value what computes it once, so the sum of those pushes and
    the first entries bounds the rounds ([repeat_times_measure]). Every round of
    the inference of effects but the last resolves a function, and every round of
    the iteration of dominance lowers the rank of a parent. The ranges of a block's
    64 dirty pages take at most 64 rounds. [peek_loop] has 65536 rounds: a round moves
    the head, which has no more values, and over a ring as services keep it the queue
    is shorter. Euclid's algorithm on the sides of a display takes at most one round
    more than its second number, which falls every round.

    ** Not modelled

    - Host floating-point: payloads of NaNs and the engine's choices for
      operations that evaluation leaves unfolded.
    - Async executors: a task is polled in any order after it is woken; of the
      PIT's run loop the synchronization and the deadline are modelled.
    - Admission of values to a body (a value of another function is a build
      error) and the placement of expressions: both belong to construction.
    - The rest of the compiler (construction at logical widths, placement,
      emission through wasm-encoder), decoding, instruction definitions,
      segments, x87 and SIMD, the BIOS's video and clock services, the other DOS services, the rendering of a VGA
      capture (shaders, pipelines and display adapters of the graphics card), the
      speaker and the host runtimes. Of the VGA's activity and its waits for a
      retrace the parts between two awaits are modelled.

    ** Reading order

    This file holds the notations, tactics and generic lemmas on machine words,
    lists and options. Then Types, Expr, Evaluate, Values, Fold and Model for the
    compiler's definitions, Theorems for the results; Facts, FactsInfer and
    FactsTheorems for path facts; Graph, Prune, GraphRun and PruneTheorems for graphs;
    Effects and EffectsTheorems for memory effects; Dominance and
    DominanceTheorems for dominators; Backing, StateFields, Flags,
    Alu, CpuFlags, FlagTracker and LazyFlags for the flags. IoBus, PhysMemory, Mcb,
    Pic, Pit and, after Pic, the keyboard files can be read on their own, as can the
    VGA files, which use only bytes and the bit lemmas of Bounds. BiosKeyboard needs
    PhysMemory and Scancodes. *)

From Stdlib Require Export ZArith Bool Sorted Lia.
From Stdlib Require Export Btauto.
From stdpp Require Export base tactics option strings numbers relations gmap list.

#[export] Set Default Proof Using "Type".

Local Open Scope Z_scope.

(** ** Machine words

    A [w]-bit Rust integer is the [Z] it denotes; operations that wrap are
    written with [wrap]. *)

Definition wrap (w z : Z) : Z := z mod 2 ^ w.

(** [fits w z]: [z] is the value of an unsigned [w]-bit integer. *)
Definition fits (w z : Z) : Prop := 0 <= z < 2 ^ w.

#[export] Instance fits_dec w z : Decision (fits w z).
Proof. unfold fits. apply _. Defined.

(** Two's-complement reading of the low [w] bits. *)
Definition to_signed (w z : Z) : Z :=
  let u := wrap w z in if u <? 2 ^ (w - 1) then u else u - 2 ^ w.

(** [bits & mask != 0], the flag test of the sources. *)
Definition has (bits mask : Z) : bool := negb (Z.land bits mask =? 0).

(** [!bits] at width [w]. *)
Definition bnot (w bits : Z) : Z := Z.lxor bits (Z.ones w).

#[global] Arguments Z.testbit : simpl never.

Create HintDb word discriminated.

Lemma pow2_pos w : 0 <= w -> 0 < 2 ^ w.
Proof. intros; apply Z.pow_pos_nonneg; lia. Qed.

Lemma wrap_fits w z : 0 <= w -> fits w (wrap w z).
Proof. intros Hw. apply Z.mod_pos_bound, pow2_pos, Hw. Qed.

Lemma wrap_small w z : fits w z -> wrap w z = z.
Proof. intros H. apply Z.mod_small, H. Qed.

Lemma pow2_half w : 0 < w -> 2 ^ w = 2 * 2 ^ (w - 1).
Proof. intros. rewrite <- Z.pow_succ_r by lia. f_equal. lia. Qed.

Lemma to_signed_range w z : 0 < w -> - 2 ^ (w - 1) <= to_signed w z < 2 ^ (w - 1).
Proof.
  intros Hw. pose proof (wrap_fits w z ltac:(lia)) as [H0 H1]. unfold to_signed. cbv zeta.
  rewrite (pow2_half w Hw) in *. destruct (Z.ltb_spec (wrap w z) (2 ^ (w - 1))); lia.
Qed.

Lemma wrap_wrap w z : wrap w (wrap w z) = wrap w z.
Proof. apply Z.mod_mod_divide, Z.divide_refl. Qed.

Lemma wrap_idem_le v w z : 0 <= v <= w -> wrap v (wrap w z) = wrap v z.
Proof.
  intros [Hv Hw]. apply Z.mod_mod_divide.
  exists (2 ^ (w - v)). rewrite <- Z.pow_add_r by lia. f_equal; lia.
Qed.

Lemma wrap_land w z : 0 <= w -> wrap w z = Z.land z (Z.ones w).
Proof. intros. unfold wrap. symmetry. by apply Z.land_ones. Qed.

Lemma wrap_add_l w a b : wrap w (wrap w a + b) = wrap w (a + b).
Proof. apply Zplus_mod_idemp_l. Qed.
Lemma wrap_add_r w a b : wrap w (a + wrap w b) = wrap w (a + b).
Proof. apply Zplus_mod_idemp_r. Qed.
Lemma wrap_sub_l w a b : wrap w (wrap w a - b) = wrap w (a - b).
Proof. apply Zminus_mod_idemp_l. Qed.
Lemma wrap_sub_r w a b : wrap w (a - wrap w b) = wrap w (a - b).
Proof. apply Zminus_mod_idemp_r. Qed.
Lemma wrap_mul_l w a b : wrap w (wrap w a * b) = wrap w (a * b).
Proof. apply Zmult_mod_idemp_l. Qed.
Lemma wrap_mul_r w a b : wrap w (a * wrap w b) = wrap w (a * b).
Proof. apply Zmult_mod_idemp_r. Qed.

Lemma fits_0 w : 0 <= w -> fits w 0.
Proof. intros. split; [lia | by apply pow2_pos]. Qed.

Lemma fits_mono v w z : v <= w -> fits v z -> fits w z.
Proof.
  intros Hvw [H0 H1]. split; [done|].
  destruct (decide (v < 0)).
  - rewrite Z.pow_neg_r in H1 by lia. lia.
  - eapply Z.lt_le_trans; [exact H1|]. apply Z.pow_le_mono_r; lia.
Qed.

#[export] Hint Resolve wrap_fits fits_0 : word.

(** ** Bits *)

Lemma testbit_wrap w z i : 0 <= w ->
  Z.testbit (wrap w z) i = (i <? w) && Z.testbit z i.
Proof.
  intros Hw. unfold wrap. destruct (Z.ltb_spec i w).
  - destruct (decide (0 <= i)); [rewrite Z.mod_pow2_bits_low by lia; done|].
    rewrite !Z.testbit_neg_r by lia. done.
  - rewrite Z.mod_pow2_bits_high by lia. done.
Qed.

Lemma testbit_ones w i : 0 <= w ->
  Z.testbit (Z.ones w) i = (0 <=? i) && (i <? w).
Proof.
  intros Hw. destruct (Z.leb_spec 0 i), (Z.ltb_spec i w); simpl;
    rewrite ?Z.testbit_neg_r, ?Z.ones_spec_low, ?Z.ones_spec_high by lia; done.
Qed.

Lemma testbit_shiftl a n i : 0 <= n ->
  Z.testbit (Z.shiftl a n) i = (n <=? i) && Z.testbit a (i - n).
Proof.
  intros Hn. destruct (Z.leb_spec n i); simpl.
  - apply Z.shiftl_spec; lia.
  - destruct (decide (0 <= i)).
    + rewrite Z.shiftl_spec by lia. apply Z.testbit_neg_r. lia.
    + apply Z.testbit_neg_r. lia.
Qed.

Lemma testbit_shiftr a n i : 0 <= n ->
  Z.testbit (Z.shiftr a n) i = (0 <=? i) && Z.testbit a (i + n).
Proof.
  intros Hn. destruct (Z.leb_spec 0 i); simpl.
  - apply Z.shiftr_spec; lia.
  - apply Z.testbit_neg_r. lia.
Qed.

Lemma testbit_bnot w a i : 0 <= w -> 0 <= i ->
  Z.testbit (bnot w a) i = xorb (Z.testbit a i) (i <? w).
Proof.
  intros. unfold bnot. rewrite Z.lxor_spec, testbit_ones by lia.
  destruct (Z.leb_spec 0 i); [done|lia].
Qed.

Lemma fits_testbit w z i : fits w z -> w <= i -> Z.testbit z i = false.
Proof.
  intros H Hi. rewrite <- (wrap_small w z H). unfold wrap.
  destruct (decide (0 <= w)); [apply Z.mod_pow2_bits_high; lia|].
  destruct H. rewrite Z.pow_neg_r in * by lia. lia.
Qed.

Lemma fits_of_bits w z : 0 <= w -> (forall i, w <= i -> Z.testbit z i = false) -> fits w z.
Proof.
  intros Hw H. replace z with (wrap w z); [by apply wrap_fits|].
  apply Z.bits_inj'. intros i Hi. rewrite testbit_wrap by lia.
  destruct (Z.ltb_spec i w); [done|]. simpl. symmetry. apply H. lia.
Qed.

Lemma fits_land_l w a b : 0 <= w -> fits w a -> fits w (Z.land a b).
Proof.
  intros Hw H. apply fits_of_bits; [done|]. intros i Hi.
  by rewrite Z.land_spec, (fits_testbit w a).
Qed.
Lemma fits_land_r w a b : 0 <= w -> fits w b -> fits w (Z.land a b).
Proof. intros. rewrite Z.land_comm. by apply fits_land_l. Qed.
Lemma fits_lor w a b : 0 <= w -> fits w a -> fits w b -> fits w (Z.lor a b).
Proof.
  intros Hw Ha Hb. apply fits_of_bits; [done|]. intros i Hi.
  by rewrite Z.lor_spec, (fits_testbit w a), (fits_testbit w b).
Qed.
Lemma fits_lxor w a b : 0 <= w -> fits w a -> fits w b -> fits w (Z.lxor a b).
Proof.
  intros Hw Ha Hb. apply fits_of_bits; [done|]. intros i Hi.
  by rewrite Z.lxor_spec, (fits_testbit w a), (fits_testbit w b).
Qed.
Lemma fits_ones w : 0 <= w -> fits w (Z.ones w).
Proof.
  intros. rewrite Z.ones_equiv. pose proof (pow2_pos w ltac:(done)). unfold fits. lia.
Qed.
Lemma fits_bnot w a : 0 <= w -> fits w a -> fits w (bnot w a).
Proof. intros. unfold bnot. apply fits_lxor; auto using fits_ones. Qed.

#[export] Hint Resolve fits_lor fits_lxor fits_ones fits_bnot : word.

(** Rewriting [Z.testbit] through every operation, side conditions by [lia]. *)
Create HintDb testbit discriminated.
#[export] Hint Rewrite Z.land_spec Z.lor_spec Z.lxor_spec Z.ldiff_spec Z.testbit_0_l : testbit.
#[export] Hint Rewrite testbit_wrap testbit_ones testbit_shiftl testbit_shiftr
  testbit_bnot Z.lnot_spec using lia : testbit.

Ltac split_tests :=
  repeat match goal with
  | |- context [?a <? ?b] => destruct (Z.ltb_spec a b)
  | |- context [?a <=? ?b] => destruct (Z.leb_spec a b)
  | |- context [?a =? ?b] => destruct (Z.eqb_spec a b)
  end.

(** Bits at or above the width of a value known to [fits] are false. *)
Ltac high_bits :=
  repeat match goal with
  | H : fits ?w ?z |- context [Z.testbit ?z ?i] =>
      rewrite (fits_testbit w z i H) by lia
  | |- context [Z.testbit ?z ?i] => rewrite (Z.testbit_neg_r z i) by lia
  end.

(** Align syntactically different but equal bit positions. *)
Ltac align_bits :=
  repeat match goal with
  | |- context [Z.testbit ?z ?i] =>
      match goal with
      | |- context [Z.testbit z ?j] =>
          assert_fails (constr_eq i j); replace j with i by lia
      end
  end.

(** Equality of integers bit by bit. *)
Ltac bitwise_core :=
  autorewrite with testbit; split_tests; simpl;
  autorewrite with testbit; high_bits; align_bits;
  try (exfalso; lia); try done; try btauto.
Ltac bitwise := apply Z.bits_inj'; intros ? ?; bitwise_core.

Lemma land_wrap_l w a b : 0 <= w -> Z.land (wrap w a) b = wrap w (Z.land a b).
Proof. intros. bitwise. Qed.
Lemma lor_wrap w a b : 0 <= w -> Z.lor (wrap w a) (wrap w b) = wrap w (Z.lor a b).
Proof. intros. bitwise. Qed.
Lemma lxor_wrap w a b : 0 <= w -> Z.lxor (wrap w a) (wrap w b) = wrap w (Z.lxor a b).
Proof. intros. bitwise. Qed.

Lemma wrap_land_distr w a b : 0 <= w -> wrap w (Z.land a b) = Z.land (wrap w a) (wrap w b).
Proof. intros. bitwise. Qed.
Lemma wrap_shiftr v w a n : 0 <= v -> 0 <= n -> v + n <= w ->
  wrap v (Z.shiftr (wrap w a) n) = wrap v (Z.shiftr a n).
Proof. intros. bitwise. Qed.

Lemma lor_add a b : Z.land a b = 0 -> Z.lor a b = a + b.
Proof.
  intros H. rewrite <- Z.lxor_lor by done. symmetry. by apply Z.add_nocarry_lxor.
Qed.

(** A single-bit mask tests one bit. *)
Lemma has_bit v n : 0 <= n -> has v (Z.shiftl 1 n) = Z.testbit v n.
Proof.
  intros Hn. unfold has. rewrite Z.shiftl_1_l.
  destruct (Z.testbit v n) eqn:E.
  - destruct (Z.eqb_spec (Z.land v (2 ^ n)) 0) as [H|]; [|done].
    assert (Z.testbit (Z.land v (2 ^ n)) n = false) as Hb by (by rewrite H, Z.testbit_0_l).
    rewrite Z.land_spec, E, Z.pow2_bits_true in Hb by done. done.
  - destruct (Z.eqb_spec (Z.land v (2 ^ n)) 0) as [|H]; [done|]. destruct H.
    apply Z.bits_inj'. intros i Hi. rewrite Z.land_spec, Z.testbit_0_l.
    destruct (decide (i = n)) as [->|]; [by rewrite E|].
    rewrite Z.pow2_bits_false by done. btauto.
Qed.

(** ** Results: [Result<A, E>] of the sources *)

Inductive result (E A : Type) : Type :=
| Ok (a : A)
| Err (e : E).
Arguments Ok {E A} a.
Arguments Err {E A} e.

#[export] Instance result_ret {E} : MRet (result E) := fun _ a => Ok a.
#[export] Instance result_bind {E} : MBind (result E) := fun _ _ f m =>
  match m with Ok a => f a | Err e => Err e end.

(** [ok_or]. *)
Definition ok_or {E A} (o : option A) (e : E) : result E A :=
  match o with Some a => Ok a | None => Err e end.

Lemma result_bind_ok {E A B} (m : result E A) (f : A -> result E B) b :
  (m ≫= f) = Ok b -> exists a, m = Ok a /\ f a = Ok b.
Proof. destruct m; simpl; [eauto | done]. Qed.

(** ** Operations that can panic

    [x] gives a value with [P], and is the panic [None] only if [E]. *)
Definition panics_only {A} (E : Prop) (P : A -> Prop) (x : option A) : Prop := match x with Some a => P a | None => E end.
Lemma panics_only_bind {A B} (E : Prop) (P : A -> Prop) (Q : B -> Prop) (x : option A) (f : A -> option B) :
  panics_only E P x -> (forall a, P a -> panics_only E Q (f a)) -> panics_only E Q (a ← x; f a).
Proof. destruct x as [a|]; cbn; auto. Qed.
Lemma panics_only_guard {A} (E C : Prop) `{Decision C} (P : A -> Prop) (x : option A) :
  (~ C -> E) -> (C -> panics_only E P x) -> panics_only E P (guard C;; x).
Proof. intros HE Hx. case_guard; cbn; auto. Qed.
Lemma panics_only_mono {A} (E E' : Prop) (P P' : A -> Prop) (x : option A) :
  (E -> E') -> (forall a, P a -> P' a) -> panics_only E P x -> panics_only E' P' x.
Proof. destruct x; cbn; auto. Qed.
Lemma panics_only_if {A} (E E' : Prop) (P : A -> Prop) (x : option A) : panics_only E P x -> (E -> E') -> panics_only E' P x.
Proof. intros H HE. by eapply panics_only_mono. Qed.
Lemma never_panics_some {A} (P : A -> Prop) (x : option A) : panics_only False P x -> exists a, x = Some a /\ P a.
Proof. destruct x as [a|]; cbn; [by exists a|done]. Qed.

(** ** Loops

    [repeat_until step p s] runs a loop body at most [p] times, stopping at its
    first result. The binary bound makes generous fuel executable. *)

Fixpoint repeat_until {S R} (step : S -> S + R) (p : positive) (s : S) : S + R :=
  match p with
  | xH => step s
  | xO p =>
      match repeat_until step p s with
      | inl s => repeat_until step p s
      | inr r => inr r
      end
  | xI p =>
      match step s with
      | inl s =>
          match repeat_until step p s with
          | inl s => repeat_until step p s
          | inr r => inr r
          end
      | inr r => inr r
      end
  end.

Fixpoint repeat_times {S R} (step : S -> S + R) (n : nat) (s : S) : S + R :=
  match n with
  | O => inl s
  | S n => match step s with inl s => repeat_times step n s | inr r => inr r end
  end.

Lemma repeat_times_add {S R} (step : S -> S + R) n m s :
  repeat_times step (n + m) s =
  match repeat_times step n s with inl s => repeat_times step m s | inr r => inr r end.
Proof. revert s. induction n as [|n IH]; intros s; simpl; [done|]. by destruct (step s). Qed.

Lemma repeat_until_times {S R} (step : S -> S + R) p s :
  repeat_until step p s = repeat_times step (Pos.to_nat p) s.
Proof.
  revert s. induction p as [p IH|p IH|]; intros s; cbn [repeat_until].
  - rewrite Pos2Nat.inj_xI. cbn [repeat_times]. destruct (step s) as [s'|r]; [|done].
    rewrite Nat.mul_succ_l, Nat.mul_1_l, repeat_times_add, IH. by destruct (repeat_times _ _ _).
  - rewrite Pos2Nat.inj_xO, Nat.mul_succ_l, Nat.mul_1_l, repeat_times_add, IH.
    by destruct (repeat_times _ _ _).
  - simpl. by destruct (step s).
Qed.

Lemma repeat_times_mono {S R} (step : S -> S + R) n m s r : (n <= m)%nat ->
  repeat_times step n s = inr r -> repeat_times step m s = inr r.
Proof. intros Hle H. replace m with (n + (m - n))%nat by lia. by rewrite repeat_times_add, H. Qed.

Lemma rev_reverse {A} (l : list A) : rev l = reverse l.
Proof. apply rev_alt. Qed.

Lemma existsb_none {A} (f : A -> bool) l x : existsb f l = false -> x ∈ l -> f x = false.
Proof.
  induction l as [|y l IH]; cbn; [by intros _ ?%elem_of_nil|].
  intros [Hy Hl]%orb_false_iff [->|Hx]%elem_of_cons; auto.
Qed.

(** A loop whose measure falls ends within its fuel, in a result of its invariant. *)
Lemma repeat_times_measure {S R} (step : S -> S + R) (I : S -> Prop) (Q : R -> Prop) (measure : S -> nat) :
  (forall s, I s -> match step s with inl s' => I s' /\ (measure s' < measure s)%nat | inr r => Q r end) ->
  forall n s, I s -> (measure s < n)%nat -> exists r, repeat_times step n s = inr r /\ Q r.
Proof.
  intros Hstep n. induction n as [|n IH]; intros s Hs Hn; [lia|]. cbn [repeat_times].
  specialize (Hstep s Hs). destruct (step s) as [s'|r]; [|by exists r].
  destruct Hstep as [Hs' Hlt]. apply IH; [done|lia].
Qed.

(** The weight of the indices whose flag is not set, from [i] on. *)
Fixpoint unset_weight (w : nat -> nat) (i : nat) (flags : list bool) : nat :=
  match flags with
  | [] => 0
  | flag :: flags => (if flag : bool then 0 else w i) + unset_weight w (S i) flags
  end.

Lemma unset_weight_set w flags id i : flags !! id = Some false ->
  unset_weight w i flags = (w (i + id)%nat + unset_weight w i (<[id := true]> flags))%nat.
Proof.
  revert id i. induction flags as [|flag flags IH]; intros [|id] i; intros H; [done|done|..].
  - injection H as ->. cbn. by rewrite Nat.add_0_r.
  - change (<[S id:=true]> (flag :: flags)) with (flag :: <[id:=true]> flags). cbn [unset_weight].
    rewrite (IH id (S i) H), Nat.add_succ_comm. lia.
Qed.

Lemma unset_weight_replicate w n i : unset_weight w i (replicate n false) = sum_list (w <$> seq i n).
Proof. revert i. induction n as [|n IH]; intros i; cbn; [done|]. by rewrite IH. Qed.

(** Case analysis on the scrutinees of [match] and [if], keeping equations. *)
Ltac cases :=
  repeat match goal with
  | |- context [match ?x with _ => _ end] => destruct x eqn:?; simpl
  | H : context [match ?x with _ => _ end] |- _ => destruct x eqn:?; simpl in H
  end.

(** Boolean comparisons in hypotheses become propositions. *)
Ltac breflect :=
  repeat match goal with
  | H : (_ =? _) = true |- _ => apply Z.eqb_eq in H
  | H : (_ =? _) = false |- _ => apply Z.eqb_neq in H
  | H : (_ <? _) = true |- _ => apply Z.ltb_lt in H
  | H : (_ <? _) = false |- _ => apply Z.ltb_ge in H
  | H : (_ <=? _) = true |- _ => apply Z.leb_le in H
  | H : (_ <=? _) = false |- _ => apply Z.leb_gt in H
  | H : negb _ = true |- _ => apply negb_true_iff in H
  | H : negb _ = false |- _ => apply negb_false_iff in H
  | H : _ && _ = true |- _ => apply andb_true_iff in H as [? ?]
  | H : _ || _ = false |- _ => apply orb_false_iff in H as [? ?]
  end.
