(* ===== verification/Bytes.v ===== *)
(** * Byte arrays

    Little-endian byte arrays, [u16::to_le_bytes] and its relatives in the
    sources: lists of u8 and the integers they encode. *)

From S2P Require Import Prelude.
Local Open Scope Z_scope.

Fixpoint from_le_bytes (bytes : list Z) : Z :=
  match bytes with [] => 0 | b :: bytes => Z.lor b (Z.shiftl (from_le_bytes bytes) 8) end.

Definition byte_of (v : Z) (i : nat) : Z := Z.land (Z.shiftr v (8 * Z.of_nat i)) 255.
Definition to_le_bytes (n : nat) (v : Z) : list Z := byte_of v <$> seq 0 n.

Lemma testbit_byte_of v i j : 0 <= j ->
  Z.testbit (byte_of v i) j = (j <? 8) && Z.testbit v (8 * Z.of_nat i + j).
Proof.
  intros Hj. unfold byte_of. change 255 with (Z.ones 8).
  rewrite Z.land_spec, testbit_ones, testbit_shiftr by lia.
  rewrite (proj2 (Z.leb_le 0 j) Hj). cbn [andb].
  replace (j + 8 * Z.of_nat i) with (8 * Z.of_nat i + j) by lia. apply andb_comm.
Qed.

Lemma byte_of_fits v i : fits 8 (byte_of v i).
Proof.
  apply fits_of_bits; [lia|]. intros j Hj. rewrite testbit_byte_of by lia.
  by destruct (Z.ltb_spec j 8); [lia|].
Qed.

Definition bytes_ok (bs : list Z) : Prop := Forall (fits 8) bs.

Lemma to_le_bytes_ok n v : bytes_ok (to_le_bytes n v).
Proof. apply Forall_fmap, Forall_true. intros. apply byte_of_fits. Qed.
Lemma length_to_le_bytes n v : length (to_le_bytes n v) = n.
Proof. unfold to_le_bytes. by rewrite length_fmap, length_seq. Qed.
Lemma lookup_to_le_bytes n v i : (i < n)%nat -> to_le_bytes n v !! i = Some (byte_of v i).
Proof. intros. unfold to_le_bytes. by rewrite list_lookup_fmap, lookup_seq_lt. Qed.

Lemma testbit_from_le_bytes bs i : bytes_ok bs -> 0 <= i ->
  Z.testbit (from_le_bytes bs) i = Z.testbit (default 0 (bs !! Z.to_nat (i / 8))) (i mod 8).
Proof.
  intros Hbs. revert i. induction Hbs as [|b bs Hb _ IH]; intros i Hi; cbn [from_le_bytes].
  - by rewrite lookup_nil, !Z.testbit_0_l.
  - rewrite Z.lor_spec, testbit_shiftl by lia. destruct (Z.leb_spec 8 i) as [H|H].
    + rewrite (fits_testbit 8 b i) by done. cbn [orb andb]. rewrite IH by lia.
      replace (Z.to_nat (i / 8)) with (S (Z.to_nat ((i - 8) / 8)))
        by (replace i with (i - 8 + 1 * 8) at 2 by lia; rewrite Z.div_add by lia;
            pose proof (Z.div_pos (i - 8) 8 ltac:(lia) ltac:(lia)); lia).
      cbn [lookup list_lookup]. f_equal. replace i with (i - 8 + 1 * 8) at 2 by lia.
      by rewrite Z.mod_add.
    + rewrite orb_false_r, Z.div_small, Z.mod_small by lia. done.
Qed.

Lemma byte_of_from_le_bytes bs i : bytes_ok bs -> byte_of (from_le_bytes bs) i = default 0 (bs !! i).
Proof.
  intros Hbs. apply Z.bits_inj'. intros j Hj. rewrite testbit_byte_of, testbit_from_le_bytes by (done || lia).
  destruct (Z.ltb_spec j 8); cbn [andb].
  - replace (8 * Z.of_nat i + j) with (j + Z.of_nat i * 8) by lia.
    rewrite Z.div_add, Z.mod_add, Z.div_small, Z.mod_small, Z.add_0_l, Nat2Z.id by lia. done.
  - symmetry. destruct (bs !! i) as [b|] eqn:Hb; cbn; [|apply Z.testbit_0_l].
    apply (fits_testbit 8); [|done]. eapply Forall_lookup_1 in Hb; [|exact Hbs]. done.
Qed.

Lemma from_le_bytes_fits bs n : bytes_ok bs -> (length bs <= n)%nat -> fits (8 * Z.of_nat n) (from_le_bytes bs).
Proof.
  intros Hbs Hn. apply fits_of_bits; [lia|]. intros i Hi. rewrite testbit_from_le_bytes by (done || lia).
  rewrite lookup_ge_None_2; [apply Z.testbit_0_l|].
  assert (Z.of_nat n <= i / 8) by (apply Z.div_le_lower_bound; lia). lia.
Qed.

Lemma testbit_byte v i : 0 <= i -> Z.testbit v i = Z.testbit (byte_of v (Z.to_nat (i / 8))) (i mod 8).
Proof.
  intros Hi. pose proof (Z.mod_pos_bound i 8 ltac:(lia)). pose proof (Z.div_pos i 8 Hi ltac:(lia)).
  rewrite testbit_byte_of by lia. rewrite (proj2 (Z.ltb_lt _ _)) by lia. cbn [andb].
  f_equal. rewrite Z2Nat.id by done. pose proof (Z.div_mod i 8 ltac:(lia)). lia.
Qed.

(** Vectors are equal when their bytes are. *)
Lemma bytes_ext a b : fits 128 a -> fits 128 b ->
  (forall i, (i < 16)%nat -> byte_of a i = byte_of b i) -> a = b.
Proof.
  intros Ha Hb H. apply Z.bits_inj'. intros i Hi. destruct (decide (i < 128)).
  - rewrite (testbit_byte a), (testbit_byte b) by done. rewrite H; [done|].
    assert (i / 8 < 16) by (apply Z.div_lt_upper_bound; lia). pose proof (Z.div_pos i 8 Hi). lia.
  - rewrite (fits_testbit 128 a), (fits_testbit 128 b) by (done || lia). done.
Qed.

Lemma from_to_le_bytes n v : fits (8 * Z.of_nat n) v -> from_le_bytes (to_le_bytes n v) = v.
Proof.
  intros Hv. apply Z.bits_inj'. intros i Hi. rewrite testbit_from_le_bytes by (apply to_le_bytes_ok || done).
  destruct (decide (i < 8 * Z.of_nat n)).
  - assert (i / 8 < Z.of_nat n) by (apply Z.div_lt_upper_bound; lia). pose proof (Z.div_pos i 8 Hi).
    rewrite lookup_to_le_bytes by lia. cbn [from_option id]. by rewrite <- testbit_byte.
  - rewrite (fits_testbit _ v i) by (done || lia). rewrite lookup_ge_None_2; [apply Z.testbit_0_l|].
    rewrite length_to_le_bytes. assert (Z.of_nat n <= i / 8) by (apply Z.div_le_lower_bound; lia). lia.
Qed.

Lemma byte_of_0 i : byte_of 0 i = 0.
Proof. unfold byte_of. by rewrite Z.shiftr_0_l, Z.land_0_l. Qed.

(** ** Address ranges *)

(** The [n] addresses from [a] on. *)
Definition addresses (a n : Z) : list Z := (fun k => a + Z.of_nat k) <$> seq 0 (Z.to_nat n).

Lemma length_addresses a n : length (addresses a n) = Z.to_nat n.
Proof. unfold addresses. by rewrite length_fmap, length_seq. Qed.

Lemma lookup_addresses a n i : (i < Z.to_nat n)%nat -> addresses a n !! i = Some (a + Z.of_nat i).
Proof. intros. unfold addresses. by rewrite list_lookup_fmap, lookup_seq_lt. Qed.

Lemma addresses_nil a n : n <= 0 -> addresses a n = [].
Proof. intros. unfold addresses. by rewrite Z2Nat.nonpos. Qed.

Lemma addresses_split a n m : 0 <= m <= n -> addresses a n = addresses a m ++ addresses (a + m) (n - m).
Proof.
  intros. unfold addresses. replace (Z.to_nat n) with (Z.to_nat m + Z.to_nat (n - m))%nat by lia.
  rewrite seq_app, fmap_app, Nat.add_0_l. f_equal.
  rewrite <- (Nat.add_0_r (Z.to_nat m)) at 1. rewrite <- fmap_add_seq, <- list_fmap_compose.
  apply list_fmap_ext. intros i k Hk. cbn. lia.
Qed.

Lemma elem_of_addresses a n x : x ∈ addresses a n <-> a <= x < a + n.
Proof.
  unfold addresses. rewrite list_elem_of_fmap. split.
  - intros (k & -> & Hk%elem_of_seq). lia.
  - intros. exists (Z.to_nat (x - a)). rewrite elem_of_seq. lia.
Qed.

Lemma take_to_le_bytes_from_le_bytes n m bs : bytes_ok bs -> length bs = n -> (n <= m)%nat ->
  take n (to_le_bytes m (from_le_bytes bs)) = bs.
Proof.
  intros Hbs Hlen Hm. apply list_eq. intros i. destruct (decide (i < n)%nat).
  - rewrite lookup_take_lt, lookup_to_le_bytes, byte_of_from_le_bytes by (done || lia).
    destruct (lookup_lt_is_Some_2 bs i) as [b ->]; [lia|done].
  - rewrite !lookup_ge_None_2; [done| lia |rewrite length_take, length_to_le_bytes; lia].
Qed.

#[export] Hint Resolve byte_of_fits to_le_bytes_ok : word.
