(* ===== verification/Backing.v ===== *)
(** * Backing memory of generated code

    The linear memory that code built with crates/compiler reads and writes
    ([BlockBuilder::load_at] and [store_at]), little endian, and what the
    builder's expressions promise to the state owners of crates/x86: a value at
    run time and an identity at construction time.

    A memory gives the byte at each address; [≡] is equality at every address.
    Accesses stay inside the memory: every owner of this development works in a
    record the host has allocated. *)

From S2P Require Import Prelude Bytes.
Local Open Scope Z_scope.

(** ** Memory *)

Definition Memory : Type := Z -> Z.

#[export] Instance memory_equiv : Equiv Memory := fun m m' => forall x, m x = m' x.
#[export] Instance memory_equivalence : Equivalence (≡@{Memory}).
Proof.
  split; [done | by intros m m' H x | intros m m' m'' H H' x].
  etrans; [apply H | apply H'].
Qed.

Definition mem_ok (m : Memory) : Prop := forall x, fits 8 (m x).

Definition load (m : Memory) (a n : Z) : Z := from_le_bytes (m <$> addresses a n).

Definition store (m : Memory) (a n v : Z) : Memory :=
  fun x => if (a <=? x) && (x <? a + n) then byte_of v (Z.to_nat (x - a)) else m x.

#[export] Instance load_proper : Proper ((≡) ==> (=) ==> (=) ==> (=)) load.
Proof. intros m m' H a ? <- n ? <-. unfold load. f_equal. by apply list_fmap_ext. Qed.

#[export] Instance store_proper : Proper ((≡) ==> (=) ==> (=) ==> (=) ==> (≡)) store.
Proof. intros m m' H a ? <- n ? <- v ? <- x. unfold store. by destruct (_ && _). Qed.

Lemma store_inside m a n v x : a <= x < a + n -> store m a n v x = byte_of v (Z.to_nat (x - a)).
Proof.
  intros. unfold store. rewrite (proj2 (Z.leb_le a x)), (proj2 (Z.ltb_lt x (a + n))) by lia. done.
Qed.

Lemma store_outside m a n v x : ~ a <= x < a + n -> store m a n v x = m x.
Proof.
  intros. unfold store. destruct (Z.leb_spec a x), (Z.ltb_spec x (a + n)); simpl; done || lia.
Qed.

Lemma mem_ok_store m a n v : mem_ok m -> mem_ok (store m a n v).
Proof. intros Hm x. unfold store. destruct (_ && _); [apply byte_of_fits | apply Hm]. Qed.

Lemma load_ext m m' a n : (forall x, a <= x < a + n -> m x = m' x) -> load m a n = load m' a n.
Proof.
  intros H. unfold load. f_equal. apply list_fmap_ext. intros i x Hx.
  apply H, elem_of_addresses. by eapply list_elem_of_lookup_2.
Qed.

Lemma load_bytes_ok m a n : mem_ok m -> bytes_ok (m <$> addresses a n).
Proof. intros Hm. apply Forall_fmap, Forall_true. intros x. apply Hm. Qed.

Lemma load_fits m a n : 0 <= n -> mem_ok m -> fits (8 * n) (load m a n).
Proof.
  intros Hn Hm. replace n with (Z.of_nat (Z.to_nat n)) at 1 by lia.
  apply from_le_bytes_fits; [by apply load_bytes_ok|]. by rewrite length_fmap, length_addresses.
Qed.

(** The bytes of a loaded value are the bytes of memory. *)
Lemma byte_of_load m a n x : mem_ok m -> a <= x < a + n ->
  byte_of (load m a n) (Z.to_nat (x - a)) = m x.
Proof.
  intros Hm Hx. unfold load. rewrite byte_of_from_le_bytes by (by apply load_bytes_ok).
  rewrite list_lookup_fmap, lookup_addresses by lia. simpl. f_equal. lia.
Qed.

(** A value whose bytes memory holds is what a load returns. *)
Lemma load_of_bytes m a n v : 0 <= n -> fits (8 * n) v ->
  (forall x, a <= x < a + n -> m x = byte_of v (Z.to_nat (x - a))) -> load m a n = v.
Proof.
  intros Hn Hv H. transitivity (from_le_bytes (to_le_bytes (Z.to_nat n) v)).
  - unfold load, to_le_bytes. f_equal. unfold addresses. rewrite <- list_fmap_compose.
    apply list_fmap_ext. intros i k Hk. pose proof (list_elem_of_lookup_2 _ _ _ Hk) as Hi%elem_of_seq.
    simpl. rewrite H by lia. f_equal. lia.
  - apply from_to_le_bytes. by replace (Z.of_nat (Z.to_nat n)) with n by lia.
Qed.

Lemma load_store m a n v : 0 <= n -> fits (8 * n) v -> load (store m a n v) a n = v.
Proof. intros Hn Hv. apply load_of_bytes; [done..|]. intros x Hx. by apply store_inside. Qed.

Lemma load_store_disjoint m a n v b k : b + k <= a \/ a + n <= b ->
  load (store m a n v) b k = load m b k.
Proof. intros. apply load_ext. intros x Hx. apply store_outside. lia. Qed.

(** Storing what memory already holds changes nothing. *)
Lemma store_same m a n v : (forall x, a <= x < a + n -> m x = byte_of v (Z.to_nat (x - a))) ->
  store m a n v ≡ m.
Proof.
  intros H x. destruct (decide (a <= x < a + n)).
  - rewrite store_inside by done. symmetry. by apply H.
  - by apply store_outside.
Qed.

(** ** Expressions

    [Val<T>] of crates/compiler: [bits] is the value an expression has when the
    generated code runs. [same_expression] compares identities and may answer
    [false] for equal values; it never equates different ones. [derived k z] is
    the expression the builder returns for the [k]-th one it is asked for, of
    value [z]: folding and sharing choose its identity, not its value.
    [constant k] tells whether that expression is a literal. *)
Class Expressions (V : Type) := {
  bits_of : V -> Z;
  same_expression : V -> V -> bool;
  derived : nat -> Z -> V;
  constant : nat -> bool;
  same_expression_sound : forall a b, same_expression a b = true -> bits_of a = bits_of b;
  bits_derived : forall k z, bits_of (derived k z) = z;
}.
#[export] Hint Rewrite @bits_derived : expressions.

(** The body under construction: the memory its effects have reached and the
    number of expressions built. *)
Record Body := mkBody { memory : Memory; built : nat }.

Definition set_memory (b : Body) (m : Memory) : Body := mkBody m (built b).

Section Builder.
Context {V : Type} `{Expressions V}.

(** [body.value] of an expression with the run-time value [z]. *)
Definition build (b : Body) (z : Z) : V * Body :=
  (derived (built b) z, mkBody (memory b) (S (built b))).

Definition load_at (b : Body) (base n offset : Z) : V * Body :=
  build b (load (memory b) (base + offset) n).

Definition store_at (b : Body) (base n offset : Z) (v : V) : Body :=
  set_memory b (store (memory b) (base + offset) n (bits_of v)).

Lemma bits_build b z : bits_of (build b z).1 = z.
Proof. apply bits_derived. Qed.

End Builder.

(** An instance that shares every equal value, and one that shares none: the
    extremes between which the builder's value table lies. *)
#[global, program] Instance shared_expressions : Expressions Z := {
  bits_of z := z;
  same_expression := Z.eqb;
  derived _ z := z;
  constant _ := false;
}.
Next Obligation. intros a b. apply Z.eqb_eq. Qed.
Next Obligation. done. Qed.

Definition FreshVal : Type := nat * Z.
#[global, program] Instance fresh_expressions : Expressions FreshVal := {
  bits_of v := v.2;
  same_expression v w := bool_decide (v = w);
  derived k z := (k, z);
  constant _ := false;
}.
Next Obligation. intros a b ->%bool_decide_eq_true. done. Qed.
Next Obligation. done. Qed.
