(* ===== verification/StateFields.v ===== *)
(** * Retained state fields

    crates/x86/src/ssa: [TrackedValue] (tracked_value.rs) and [StateFields]
    (state_fields.rs), the write-back cache that keeps the fields of a CPU record
    in SSA values while a path is built, flushes them when an access overlaps
    them, and publishes the changed ones at the end of the path.

    The contract is that of direct access to the record: [represents] relates a
    set of retained definitions and the memory under it to the memory a direct
    implementation would have, and every operation keeps the relation. *)

From S2P Require Import Prelude Bytes Backing.
From stdpp Require Import sorting.
Local Open Scope Z_scope.

(** ** tracked_value.rs *)

Record TrackedValue (V : Type) := mkTracked { tv_value : V; tv_dirty : bool }.
Arguments mkTracked {V} _ _.
Arguments tv_value {V} _.
Arguments tv_dirty {V} _.

Section Tracked.
Context {V : Type} `{Expressions V}.

Definition tracked_new (value : V) : TrackedValue V := mkTracked value false.
Definition tracked_defined (value : V) : TrackedValue V := mkTracked value true.
Definition tracked_read (t : TrackedValue V) : V := tv_value t.
Definition dirty_value (t : TrackedValue V) : option V :=
  if tv_dirty t then Some (tv_value t) else None.

(** Returns whether the definition changed the value. *)
Definition tracked_define (t : TrackedValue V) (value : V) : bool * TrackedValue V :=
  if same_expression (tracked_read t) value then (false, t) else (true, mkTracked value true).

Definition mark_clean (t : TrackedValue V) : TrackedValue V := mkTracked (tv_value t) false.

End Tracked.

(** ** Locations and spans *)

Record Span := mkSpan { start : Z; end_ : Z }.

(** [u64] sums of u32 operands do not wrap. *)
Definition span_new (offset bytes : Z) : Span := mkSpan offset (offset + bytes).
Definition overlaps (s o : Span) : bool := (start s <? end_ o) && (start o <? end_ s).
Definition covers (s o : Span) : bool := (start s <=? start o) && (end_ o <=? end_ s).

Inductive Address (V : Type) : Type :=
| Fixed (offset : Z)
| Indexed (span : Span) (displacement : V).
Arguments Fixed {V} offset.
Arguments Indexed {V} span displacement.

(** The field type's [T::BYTES] travels with the location. *)
Record Location (V : Type) := mkLocation { address : Address V; width : Z }.
Arguments mkLocation {V} _ _.
Arguments address {V} _.
Arguments width {V} _.

Definition location_new {V} (offset bytes : Z) : Location V := mkLocation (Fixed offset) bytes.
Definition location_indexed {V} (base bytes : Z) (displacement : V) (width : Z) : Location V :=
  mkLocation (Indexed (span_new base bytes) displacement) width.

Record LocationKey := mkKey { key_offset : Z; key_bytes : Z }.
#[export] Instance LocationKey_eq_dec : EqDecision LocationKey.
Proof. solve_decision. Defined.

Definition key_span (k : LocationKey) : Span := span_new (key_offset k) (key_bytes k).

(** [Definition] of the sources: [DefinitionValue]'s variant is the location's
    width. *)
Record Entry (V : Type) := mkEntry {
  location : LocationKey;
  value : TrackedValue V;
  first_write : option nat }.
Arguments mkEntry {V} _ _ _.
Arguments location {V} _.
Arguments value {V} _.
Arguments first_write {V} _.

Definition is_dirty {V} (e : Entry V) : bool := tv_dirty (value e).
Definition entry_span {V} (e : Entry V) : Span := key_span (location e).

(** ** state_fields.rs *)

Record StateFields (V : Type) := mkFields {
  base : V;
  definitions : list (Entry V);
  writes : nat }.
Arguments mkFields {V} _ _ _.
Arguments base {V} _.
Arguments definitions {V} _.
Arguments writes {V} _.

Section Fields.
Context {V : Type} `{Expressions V}.

Definition fields_with_base (base : V) : StateFields V := mkFields base [] 0.
Definition fields_new : StateFields V := fields_with_base (derived 0 0).

(** [sort_by_key] on [first_write]: [None] before every index. *)
Definition write_key (e : option (Entry V)) : nat :=
  match e ≫= first_write with Some n => S n | None => O end.
Definition written_before (ds : list (Entry V)) (i j : nat) : Prop :=
  (write_key (ds !! i) <= write_key (ds !! j))%nat.
#[export] Instance written_before_dec ds i j : Decision (written_before ds i j).
Proof. unfold written_before. apply _. Defined.

Definition dirty (ds : list (Entry V)) : list nat :=
  merge_sort (written_before ds)
    (filter (fun i => default false (is_dirty <$> ds !! i) = true) (seq 0 (length ds))).

Definition store_entry (base : V) (b : Body) (e : Entry V) : Body :=
  store_at b (bits_of base) (key_bytes (location e)) (key_offset (location e)) (tv_value (value e)).

Definition clean_entry (e : Entry V) : Entry V :=
  mkEntry (location e) (mark_clean (value e)) (first_write e).

(** One step of the loop of [flush], at an index of [dirty]. *)
Definition flush_entry (base : V) (span : Span) (replacing : bool)
    (acc : Body * list (Entry V)) (index : nat) : Body * list (Entry V) :=
  let '(b, ds) := acc in
  match ds !! index with
  | Some entry =>
      let overlap := entry_span entry in
      if overlaps span overlap && negb (replacing && covers span overlap) then
        (store_entry base b entry, <[index := clean_entry entry]> ds)
      else (b, ds)
  | None => (b, ds)
  end.

Definition flush (f : StateFields V) (b : Body) (span : Span) (replacing : bool)
    : StateFields V * Body :=
  let '(b, ds) := foldl (flush_entry (base f) span replacing) (b, definitions f)
                        (dirty (definitions f)) in
  (mkFields (base f) ds (writes f), b).

(** [definitions.retain(|entry| !span.overlaps(..))]. *)
Definition retain_disjoint (span : Span) (f : StateFields V) : StateFields V :=
  mkFields (base f) (filter (fun e => negb (overlaps span (entry_span e)) = true) (definitions f))
           (writes f).

Definition push_entry (f : StateFields V) (e : Entry V) : StateFields V :=
  mkFields (base f) (definitions f ++ [e]) (writes f).

Definition at_key (key : LocationKey) (e : Entry V) : Prop := location e = key.
#[export] Instance at_key_dec key e : Decision (at_key key e).
Proof. unfold at_key. apply _. Defined.

(** [self.base.add(displacement)] on I32. *)
Definition displaced (f : StateFields V) (b : Body) (displacement : V) : V * Body :=
  build b (wrap 32 (bits_of (base f) + bits_of displacement)).

Definition fields_read (f : StateFields V) (b : Body) (l : Location V) : V * StateFields V * Body :=
  match address l with
  | Indexed span displacement =>
      let '(displacement, b) := displaced f b displacement in
      let '(f, b) := flush f b span false in
      let '(v, b) := load_at b (bits_of displacement) (width l) (start span) in
      (v, f, b)
  | Fixed offset =>
      let key := mkKey offset (width l) in
      match list_find (at_key key) (definitions f) with
      | Some (_, entry) => (tracked_read (value entry), f, b)
      | None =>
          let '(f, b) := flush f b (key_span key) false in
          let f := retain_disjoint (key_span key) f in
          let '(v, b) := load_at b (bits_of (base f)) (width l) offset in
          (v, push_entry f (mkEntry key (tracked_new v) None), b)
      end
  end.

(** The arm of [define] that finds the location's definition. *)
Definition redefine (f : StateFields V) (index : nat) (entry : Entry V) (v : V) : StateFields V :=
  let '(changed, value) := tracked_define (value entry) v in
  let first := changed && bool_decide (first_write entry = None) in
  mkFields (base f)
    (<[index := mkEntry (location entry) value
                  (if first then Some (writes f) else first_write entry)]> (definitions f))
    (if first then S (writes f) else writes f).

Definition fields_define (f : StateFields V) (b : Body) (l : Location V) (v : V)
    : StateFields V * Body :=
  match address l with
  | Indexed span displacement =>
      let '(displacement, b) := displaced f b displacement in
      let '(f, b) := flush f b span false in
      let b := store_at b (bits_of displacement) (width l) (start span) v in
      (retain_disjoint span f, b)
  | Fixed offset =>
      let key := mkKey offset (width l) in
      match list_find (at_key key) (definitions f) with
      | Some (index, entry) => (redefine f index entry v, b)
      | None =>
          let '(f, b) := flush f b (key_span key) true in
          let f := retain_disjoint (key_span key) f in
          (mkFields (base f)
             (definitions f ++ [mkEntry key (tracked_defined v) (Some (writes f))])
             (S (writes f)), b)
      end
  end.

(** Stores the dirty definitions in the order of their first write. *)
Definition fields_publish (f : StateFields V) (b : Body) : Body :=
  foldl (fun b index => match definitions f !! index with
                        | Some entry => store_entry (base f) b entry
                        | None => b
                        end) b (dirty (definitions f)).

End Fields.

(** ** The memory a set of definitions stands for *)

Section Represents.
Context {V : Type} `{Expressions V}.
#[local] Set Default Proof Using "All".

Definition bits_at (e : Entry V) : Z := bits_of (tv_value (value e)).

Definition occupies (base : Z) (e : Entry V) (x : Z) : Prop :=
  base + start (entry_span e) <= x < base + end_ (entry_span e).

(** Live definitions have distinct, disjoint locations. *)
Definition keys_disjoint (ks : list LocationKey) : Prop :=
  NoDup ks /\ forall k k', k ∈ ks -> k' ∈ ks -> k <> k' -> overlaps (key_span k) (key_span k') = false.

(** [m] is the memory under the definitions, [spec] the one direct accesses
    would have produced. *)
Record represents (base : Z) (ds : list (Entry V)) (m spec : Memory) : Prop := {
  rep_disjoint : keys_disjoint (location <$> ds);
  rep_fits : forall d, d ∈ ds -> 0 < key_bytes (location d) /\ fits (8 * key_bytes (location d)) (bits_at d);
  rep_bytes : forall d x, d ∈ ds -> occupies base d x ->
    spec x = byte_of (bits_at d) (Z.to_nat (x - (base + key_offset (location d))));
  rep_clean : forall x, (forall d, d ∈ ds -> is_dirty d = true -> ~ occupies base d x) -> spec x = m x;
  rep_ok : mem_ok m;
}.

Lemma represents_ok base ds m spec : represents base ds m spec -> mem_ok spec.
Proof.
  intros Hr x. destruct (decide (Exists (fun d => is_dirty d = true /\ occupies base d x) ds)) as [He|Hn].
  - apply Exists_exists in He as (d & Hd & _ & Ho). rewrite (rep_bytes _ _ _ _ Hr d) by done.
    apply byte_of_fits.
  - rewrite (rep_clean _ _ _ _ Hr); [apply (rep_ok _ _ _ _ Hr)|].
    intros d Hd Hdirty Ho. apply Hn, Exists_exists. eauto.
Qed.

(** A retained value is what a direct load returns. *)
Lemma represents_load base ds m spec d : represents base ds m spec -> d ∈ ds ->
  load spec (base + key_offset (location d)) (key_bytes (location d)) = bits_at d.
Proof.
  intros Hr Hd. pose proof (rep_fits _ _ _ _ Hr d Hd) as [Hw Hf].
  apply load_of_bytes; [lia|done|]. intros x Hx. apply (rep_bytes _ _ _ _ Hr); [done|].
  unfold occupies, entry_span, key_span, span_new; cbn [start end_]. lia.
Qed.

Lemma not_overlaps_occupies base (s : Span) e x : overlaps s (entry_span e) = false ->
  start s < end_ s -> base + start s <= x < base + end_ s ->
  start (entry_span e) < end_ (entry_span e) -> ~ occupies base e x.
Proof.
  unfold overlaps, occupies. intros Ho Hs Hx He [H1 H2].
  apply andb_false_iff in Ho as [Ho%Z.ltb_ge|Ho%Z.ltb_ge]; lia.
Qed.

(** Storing a retained value and marking it clean keeps the relation. *)
Lemma represents_store base ds m spec i d : represents base ds m spec -> ds !! i = Some d ->
  represents base (<[i := clean_entry d]> ds)
    (store m (base + key_offset (location d)) (key_bytes (location d)) (bits_at d)) spec.
Proof.
  intros Hr Hi. pose proof (list_elem_of_lookup_2 _ _ _ Hi) as Hd.
  assert (forall e, e ∈ <[i := clean_entry d]> ds ->
    exists e', e' ∈ ds /\ location e = location e' /\ bits_at e = bits_at e'
               /\ (is_dirty e = true -> e = e')) as Hin.
  { intros e He. apply list_elem_of_lookup in He as [j Hj].
    apply list_lookup_insert_Some in Hj as [(-> & <- & _)|[_ Hj]].
    - exists d. done.
    - exists e. split; [by eapply list_elem_of_lookup_2|done]. }
  split.
  - rewrite list_fmap_insert, list_insert_id; [apply (rep_disjoint _ _ _ _ Hr)|].
    by rewrite list_lookup_fmap, Hi.
  - intros e He. destruct (Hin e He) as (e' & He' & -> & -> & _). by apply (rep_fits _ _ _ _ Hr).
  - intros e x He. destruct (Hin e He) as (e' & He' & Hl & -> & _).
    unfold occupies, entry_span. rewrite Hl. by apply (rep_bytes _ _ _ _ Hr).
  - intros x Hx. destruct (decide (occupies base d x)) as [Ho|Ho].
    + rewrite store_inside.
      * by apply (rep_bytes _ _ _ _ Hr).
      * unfold occupies, entry_span, key_span, span_new in Ho; cbn [start end_] in Ho. lia.
    + rewrite store_outside.
      * apply (rep_clean _ _ _ _ Hr). intros e He Hdirty Hoe.
        apply list_elem_of_lookup in He as [j Hj].
        destruct (decide (j = i)) as [->|]; [congruence|].
        apply (Hx e); [|done..]. apply (list_elem_of_lookup_2 _ j). by rewrite list_lookup_insert_ne.
      * contradict Ho. unfold occupies, entry_span, key_span, span_new; cbn [start end_]. lia.
  - apply mem_ok_store, (rep_ok _ _ _ _ Hr).
Qed.

Lemma represents_proper base ds m spec spec' : spec ≡ spec' ->
  represents base ds m spec -> represents base ds m spec'.
Proof.
  intros He Hr. split; [apply Hr..| | |apply Hr].
  - intros d x Hd Ho. rewrite <- (He x). by apply (rep_bytes _ _ _ _ Hr).
  - intros x Hx. rewrite <- (He x). by apply (rep_clean _ _ _ _ Hr).
Qed.

(** ** Flushing *)

Definition flushes (span : Span) (replacing : bool) (e : Entry V) : bool :=
  overlaps span (entry_span e) && negb (replacing && covers span (entry_span e)).

(** What flushing does to the definitions: some become clean, all of them at
    the visited indices that qualify. *)
Definition flushed (span : Span) (replacing : bool) (visited : list nat) (ds ds' : list (Entry V)) : Prop :=
  forall i d', ds' !! i = Some d' -> exists d, ds !! i = Some d
    /\ (d' = d \/ d' = clean_entry d)
    /\ (i ∈ visited -> flushes span replacing d = true -> is_dirty d' = false).

Lemma flush_entry_step base span replacing b ds i spec b' ds' :
  flush_entry base span replacing (b, ds) i = (b', ds') ->
  represents (bits_of base) ds (memory b) spec ->
  represents (bits_of base) ds' (memory b') spec /\ flushed span replacing [i] ds ds'.
Proof.
  unfold flush_entry. intros He Hr. destruct (ds !! i) as [d|] eqn:Hi.
  - fold (flushes span replacing d) in He. destruct (flushes span replacing d) eqn:Hf; simplify_eq.
    + split; [by apply represents_store|]. intros j d' Hj.
      apply list_lookup_insert_Some in Hj as [(-> & <- & _)|[Hne Hj]].
      * exists d. eauto.
      * exists d'. repeat split; eauto. intros ->%list_elem_of_singleton. done.
    + split; [done|]. intros j d' Hj. exists d'. repeat split; eauto.
      intros ->%list_elem_of_singleton. congruence.
  - simplify_eq. split; [done|]. intros j d' Hj. exists d'. repeat split; eauto.
    intros ->%list_elem_of_singleton. congruence.
Qed.

Lemma flushes_clean span replacing e : flushes span replacing (clean_entry e) = flushes span replacing e.
Proof. done. Qed.

Lemma flushed_trans span replacing xs ys ds ds' ds'' :
  flushed span replacing xs ds ds' -> flushed span replacing ys ds' ds'' ->
  flushed span replacing (xs ++ ys) ds ds''.
Proof.
  intros H1 H2 i d'' Hi. destruct (H2 i d'' Hi) as (d' & Hi' & Hc' & Hq').
  destruct (H1 i d' Hi') as (d & Hi0 & Hc & Hq). exists d. split; [done|]. split.
  - destruct Hc as [->| ->], Hc' as [->| ->]; auto.
  - intros [Hx|Hy]%elem_of_app Hf.
    + destruct Hc' as [->| ->]; [by apply Hq|done].
    + apply Hq'; [done|]. by destruct Hc as [->| ->].
Qed.

Lemma flushed_refl span replacing ds : flushed span replacing [] ds ds.
Proof. intros i d Hi. exists d. split; [done|]. split; [by left|]. by intros ?%not_elem_of_nil. Qed.

Lemma flush_fold base span replacing idx b ds spec b' ds' :
  foldl (flush_entry base span replacing) (b, ds) idx = (b', ds') ->
  represents (bits_of base) ds (memory b) spec ->
  represents (bits_of base) ds' (memory b') spec /\ flushed span replacing idx ds ds'.
Proof.
  revert b ds. induction idx as [|i idx IH]; intros b ds; cbn [foldl].
  - intros ? Hr. simplify_eq. split; [done | apply flushed_refl].
  - destruct (flush_entry base span replacing (b, ds) i) as [b1 ds1] eqn:Hs. intros Hf Hr.
    destruct (flush_entry_step _ _ _ _ _ _ _ _ _ Hs Hr) as [Hr1 Hd1].
    destruct (IH _ _ Hf Hr1) as [Hr2 Hd2]. split; [done|].
    change (i :: idx) with ([i] ++ idx). by eapply flushed_trans.
Qed.

Lemma elem_of_dirty (ds : list (Entry V)) i :
  i ∈ dirty ds <-> exists d, ds !! i = Some d /\ is_dirty d = true.
Proof.
  unfold dirty. rewrite (merge_sort_Permutation _ _), list_elem_of_filter, elem_of_seq. split.
  - intros [Hd Hi]. destruct (ds !! i) as [d|]; [|done]. eauto.
  - intros (d & Hi & Hd). rewrite Hi. simpl. split; [done|].
    apply lookup_lt_Some in Hi. lia.
Qed.

(** After a flush, a dirty definition that overlaps the span is one the new
    definition replaces whole. *)
Lemma flush_spec f b span replacing spec f' b' :
  flush f b span replacing = (f', b') ->
  represents (bits_of (base f)) (definitions f) (memory b) spec ->
  base f' = base f /\ represents (bits_of (base f)) (definitions f') (memory b') spec
  /\ forall d, d ∈ definitions f' -> is_dirty d = true -> flushes span replacing d = false.
Proof.
  unfold flush. destruct (foldl _ _ _) as [b1 ds] eqn:Hf. intros ? Hr. simplify_eq. cbn [base definitions].
  destruct (flush_fold _ _ _ _ _ _ _ _ _ Hf Hr) as [Hr' Hd]. split; [done|]. split; [done|].
  intros d [i Hi]%list_elem_of_lookup Hdirty.
  destruct (Hd i d Hi) as (d0 & Hi0 & Hc & Hq).
  destruct Hc as [->| ->]; [|done].
  destruct (flushes span replacing d0) eqn:Hfl; [|done].
  rewrite Hq in Hdirty; [done| |done]. apply elem_of_dirty. eauto.
Qed.

(** ** The operations against direct access *)

Lemma represents_retain base (s : Span) f m spec :
  represents base (definitions f) m spec ->
  (forall d, d ∈ definitions f -> is_dirty d = true -> overlaps s (entry_span d) = false) ->
  represents base (definitions (retain_disjoint s f)) m spec.
Proof.
  intros Hr Hd. unfold retain_disjoint; cbn [definitions].
  set (P := fun e : Entry V => negb (overlaps s (entry_span e)) = true).
  assert (forall e, e ∈ filter P (definitions f) -> e ∈ definitions f) as Hin
    by (intros e He; by apply list_elem_of_filter in He as [_ He]).
  split; [| |by intros; apply (rep_bytes _ _ _ _ Hr); auto| |apply Hr].
  - destruct (rep_disjoint _ _ _ _ Hr) as [Hn Hp]. split.
    + eapply sublist_NoDup; [exact Hn|]. apply fmap_sublist, sublist_filter.
    + intros k k' (e & -> & He)%list_elem_of_fmap (e' & -> & He')%list_elem_of_fmap.
      apply Hp; apply list_elem_of_fmap_2; auto.
  - intros d Hi. apply (rep_fits _ _ _ _ Hr). auto.
  - intros x Hx. apply (rep_clean _ _ _ _ Hr). intros d Hi Hdirty. apply Hx; [|done].
    apply list_elem_of_filter. split; [|done]. unfold P. by rewrite Hd.
Qed.

Lemma occupies_key base e x : occupies base e x <->
  base + key_offset (location e) <= x < base + key_offset (location e) + key_bytes (location e).
Proof. unfold occupies, entry_span, key_span, span_new; cbn [start end_]. lia. Qed.

Lemma overlaps_sym s o : overlaps s o = overlaps o s.
Proof. unfold overlaps. apply andb_comm. Qed.

Lemma not_overlaps_point (s o : Span) x : overlaps s o = false ->
  start s <= x < end_ s -> start o <= x < end_ o -> False.
Proof. unfold overlaps. intros [Ho%Z.ltb_ge|Ho%Z.ltb_ge]%andb_false_iff; lia. Qed.

Lemma covers_point (s o : Span) x : covers s o = true -> start o <= x < end_ o -> start s <= x < end_ s.
Proof. unfold covers. intros [H1%Z.leb_le H2%Z.leb_le]%andb_true_iff. lia. Qed.

Lemma keys_disjoint_snoc ks k : keys_disjoint ks ->
  0 < key_bytes k -> (forall k', k' ∈ ks -> overlaps (key_span k) (key_span k') = false) ->
  keys_disjoint (ks ++ [k]).
Proof.
  intros [Hn Hp] Hk Hd. split.
  - apply NoDup_app. split; [done|]. split; [|apply NoDup_singleton].
    intros k' Hk' ->%list_elem_of_singleton. specialize (Hd k Hk').
    apply (not_overlaps_point _ _ (key_offset k)) in Hd; [done| |];
      unfold key_span, span_new; cbn [start end_]; lia.
  - intros k1 k2 [H1| ->%list_elem_of_singleton]%elem_of_app [H2| ->%list_elem_of_singleton]%elem_of_app Hne;
      [by apply Hp| |by apply Hd|done].
    rewrite overlaps_sym. by apply Hd.
Qed.

(** A definition pushed over its disjoint neighbours; clean ones repeat memory. *)
Lemma represents_replace base f m spec (e : Entry V) :
  represents base (definitions f) m spec ->
  0 < key_bytes (location e) -> fits (8 * key_bytes (location e)) (bits_at e) ->
  (forall d, d ∈ definitions f -> is_dirty d = true -> flushes (entry_span e) true d = false) ->
  (is_dirty e = false -> forall x, occupies base e x ->
     m x = byte_of (bits_at e) (Z.to_nat (x - (base + key_offset (location e))))) ->
  represents base (definitions (push_entry (retain_disjoint (entry_span e) f) e)) m
    (store spec (base + key_offset (location e)) (key_bytes (location e)) (bits_at e)).
Proof.
  intros Hr Hw Hf Hd Hc. unfold push_entry, retain_disjoint; cbn [definitions].
  set (P := fun d : Entry V => negb (overlaps (entry_span e) (entry_span d)) = true).
  assert (forall d, d ∈ filter P (definitions f) ->
    d ∈ definitions f /\ overlaps (entry_span e) (entry_span d) = false) as Hin.
  { intros d [HP Hi]%list_elem_of_filter. split; [done|]. by apply negb_true_iff. }
  split.
  - rewrite fmap_app. apply keys_disjoint_snoc; [|done|].
    + destruct (rep_disjoint _ _ _ _ Hr) as [Hn Hp]. split.
      * eapply sublist_NoDup; [exact Hn|]. apply fmap_sublist, sublist_filter.
      * intros k k' (d & -> & [Hi _]%Hin)%list_elem_of_fmap (d' & -> & [Hi' _]%Hin)%list_elem_of_fmap.
        apply Hp; by apply list_elem_of_fmap_2.
    + intros k (d & -> & [_ Hi]%Hin)%list_elem_of_fmap. exact Hi.
  - intros d [[Hi _]%Hin| ->%list_elem_of_singleton]%elem_of_app; [by apply (rep_fits _ _ _ _ Hr)|done].
  - intros d x [[Hi Ho]%Hin| ->%list_elem_of_singleton]%elem_of_app Hx.
    + rewrite store_outside; [by apply (rep_bytes _ _ _ _ Hr)|]. rewrite <- occupies_key. intros Hx'.
      unfold occupies in Hx, Hx'. by eapply (not_overlaps_point _ _ (x - base)) in Ho; [|lia..].
    + apply store_inside. by rewrite <- occupies_key.
  - intros x Hx. destruct (decide (occupies base e x)) as [Ho|Ho].
    + destruct (is_dirty e) eqn:He.
      * exfalso. apply (Hx e); [|done..]. apply elem_of_app. right. by apply list_elem_of_singleton.
      * rewrite Hc by done. apply store_inside. by rewrite <- occupies_key.
    + rewrite store_outside by (by rewrite <- occupies_key). apply (rep_clean _ _ _ _ Hr).
      intros d Hi Hdirty Hod. destruct (overlaps (entry_span e) (entry_span d)) eqn:Hov.
      * specialize (Hd d Hi Hdirty). unfold flushes in Hd. rewrite Hov in Hd. cbn [andb] in Hd.
        apply negb_false_iff in Hd. unfold occupies in *.
        apply Ho. eapply (covers_point _ _ (x - base)) in Hd; lia.
      * apply (Hx d); [|done..]. apply elem_of_app. left. apply list_elem_of_filter.
        split; [|done]. unfold P. by rewrite Hov.
  - apply (rep_ok _ _ _ _ Hr).
Qed.

(** A store outside every definition reaches both memories. *)
Lemma represents_store_both base ds m spec (s : Span) a n v :
  represents base ds m spec -> (forall d, d ∈ ds -> overlaps s (entry_span d) = false) ->
  base + start s <= a -> a + n <= base + end_ s ->
  represents base ds (store m a n v) (store spec a n v).
Proof.
  intros Hr Hd Ha Hn. split; [apply Hr..| | |apply mem_ok_store, Hr].
  - intros d x Hi Hx. rewrite store_outside; [by apply (rep_bytes _ _ _ _ Hr)|]. intros Hx'.
    specialize (Hd d Hi). unfold occupies in Hx.
    by eapply (not_overlaps_point _ _ (x - base)) in Hd; [|lia..].
  - intros x Hx. unfold store. destruct (_ && _); [done|]. by apply (rep_clean _ _ _ _ Hr).
Qed.

Lemma represents_redefine f m spec i e v :
  represents (bits_of (base f)) (definitions f) m spec -> definitions f !! i = Some e ->
  fits (8 * key_bytes (location e)) (bits_of v) ->
  represents (bits_of (base f)) (definitions (redefine f i e v)) m
    (store spec (bits_of (base f) + key_offset (location e)) (key_bytes (location e)) (bits_of v)).
Proof.
  intros Hr Hi Hf. pose proof (list_elem_of_lookup_2 _ _ _ Hi) as Hin.
  unfold redefine, tracked_define, tracked_read. destruct (same_expression _ _) eqn:Hs.
  - cbn [andb definitions]. rewrite list_insert_id by (rewrite Hi; by destruct e).
    eapply represents_proper; [|exact Hr]. symmetry. apply store_same. intros x Hx.
    rewrite <- (same_expression_sound _ _ Hs). apply (rep_bytes _ _ _ _ Hr); [done|].
    by apply occupies_key.
  - cbn [definitions]. set (e' := mkEntry _ _ _).
    assert (location e' = location e) as Hl by done.
    assert (forall d, d ∈ <[i := e']> (definitions f) -> d = e' \/
      d ∈ definitions f /\ overlaps (entry_span e) (entry_span d) = false) as Hcase.
    { intros d [j Hj]%list_elem_of_lookup.
      apply list_lookup_insert_Some in Hj as [(-> & <- & _)|[Hne Hj]]; [by left|right].
      split; [by eapply list_elem_of_lookup_2|]. destruct (rep_disjoint _ _ _ _ Hr) as [Hn Hp].
      apply Hp; [by apply list_elem_of_fmap_2|apply list_elem_of_fmap_2; by eapply list_elem_of_lookup_2|].
      intros Heq. apply Hne. eapply NoDup_lookup; [exact Hn|by rewrite list_lookup_fmap, Hi|].
      rewrite list_lookup_fmap, Hj. simpl. by rewrite Heq. }
    assert (e' ∈ <[i := e']> (definitions f)) as He'
      by (eapply list_elem_of_lookup_2, list_lookup_insert_eq; by eapply lookup_lt_Some).
    assert (forall x, occupies (bits_of (base f)) e' x <-> occupies (bits_of (base f)) e x) as Hocc
      by (intros x; by rewrite !occupies_key, Hl).
    split.
    + rewrite list_fmap_insert, list_insert_id; [apply (rep_disjoint _ _ _ _ Hr)|].
      by rewrite list_lookup_fmap, Hi.
    + intros d [->|[Hd _]]%Hcase; [|by apply (rep_fits _ _ _ _ Hr)].
      split; [apply (rep_fits _ _ _ _ Hr e Hin)|exact Hf].
    + intros d x [->|[Hd Ho]]%Hcase Hx.
      * apply store_inside. exact (proj1 (occupies_key _ _ _) (proj1 (Hocc x) Hx)).
      * rewrite store_outside; [by apply (rep_bytes _ _ _ _ Hr)|]. rewrite <- occupies_key. intros Hx'.
        unfold occupies in Hx, Hx'. by eapply (not_overlaps_point _ _ (x - bits_of (base f))) in Ho; [|lia..].
    + intros x Hx. rewrite store_outside; [|rewrite <- occupies_key, <- Hocc; by apply (Hx e')].
      apply (rep_clean _ _ _ _ Hr). intros d [j Hj]%list_elem_of_lookup Hdirty Ho.
      destruct (decide (j = i)) as [->|]; [simplify_eq; by apply (Hx e'), Hocc|].
      apply (Hx d); [|done..]. apply (list_elem_of_lookup_2 _ j). by rewrite list_lookup_insert_ne.
    + apply (rep_ok _ _ _ _ Hr).
Qed.

(** ** The locations retained *)

Lemma flush_locations f b span replacing f' b' : flush f b span replacing = (f', b') ->
  location <$> definitions f' = location <$> definitions f.
Proof.
  unfold flush. destruct (foldl _ _ _) as [b1 ds] eqn:Hf. intros. simplify_eq. cbn [definitions].
  revert b Hf. generalize (dirty (definitions f)). generalize (definitions f). intros ds0 idx. revert ds0.
  induction idx as [|i idx IH]; intros ds0 b Hf; cbn [foldl] in Hf; [by simplify_eq|].
  destruct (flush_entry (base f) span replacing (b, ds0) i) as [b2 ds2] eqn:Hs. rewrite (IH _ _ Hf).
  unfold flush_entry in Hs. destruct (ds0 !! i) as [e|] eqn:Hi; [|by simplify_eq].
  destruct (_ && _); simplify_eq; [|done].
  rewrite list_fmap_insert. apply list_insert_id. by rewrite list_lookup_fmap, Hi.
Qed.

Definition key_of (l : Location V) : LocationKey :=
  match address l with
  | Fixed offset => mkKey offset (width l)
  | Indexed span _ => mkKey (start span) (width l)
  end.

Lemma retain_locations s (f : StateFields V) e : e ∈ definitions (retain_disjoint s f) -> location e ∈ location <$> definitions f.
Proof. intros [_ He]%list_elem_of_filter. by apply list_elem_of_fmap_2. Qed.

Lemma read_locations f b l v f' b' : fields_read f b l = (v, f', b') ->
  forall k, k ∈ location <$> definitions f' -> k ∈ location <$> definitions f \/ k = key_of l.
Proof.
  unfold fields_read, key_of. intros He. destruct (address l) as [offset|span displacement].
  - destruct (list_find _ _) as [[i e]|].
    + simplify_eq. auto.
    + destruct (flush f b _ false) as [f1 b1] eqn:Hfl. apply flush_locations in Hfl.
      unfold load_at, build in He. simplify_eq. intros k.
      unfold push_entry; cbn [definitions]. rewrite fmap_app. intros [(e & -> & Hk)%list_elem_of_fmap|Hk]%elem_of_app.
      * left. rewrite <- Hfl. by eapply retain_locations.
      * right. by apply list_elem_of_singleton in Hk.
  - unfold displaced, load_at, build in He. cbv beta iota in He.
    destruct (flush f _ span false) as [f1 b1] eqn:Hfl. apply flush_locations in Hfl.
    simplify_eq. rewrite Hfl. auto.
Qed.

Lemma define_locations f b l v f' b' : fields_define f b l v = (f', b') ->
  forall k, k ∈ location <$> definitions f' -> k ∈ location <$> definitions f \/ k = key_of l.
Proof.
  unfold fields_define, key_of. intros He. destruct (address l) as [offset|span displacement].
  - destruct (list_find _ _) as [[i e]|] eqn:Hfind.
    + simplify_eq. unfold redefine. destruct (tracked_define _ _) as [changed tv].
      cbn [definitions]. apply list_find_Some in Hfind as (Hi & _).
      rewrite list_fmap_insert, list_insert_id; [auto|]. by rewrite list_lookup_fmap, Hi.
    + destruct (flush f b _ true) as [f1 b1] eqn:Hfl. apply flush_locations in Hfl.
      simplify_eq. intros k. cbn [definitions]. rewrite fmap_app.
      intros [(e & -> & Hk)%list_elem_of_fmap|Hk]%elem_of_app.
      * left. rewrite <- Hfl. by eapply retain_locations.
      * right. by apply list_elem_of_singleton in Hk.
  - unfold displaced, store_at, build in He. cbv beta iota zeta in He.
    destruct (flush f _ span false) as [f1 b1] eqn:Hfl. apply flush_locations in Hfl.
    simplify_eq. intros k (e & -> & Hk)%list_elem_of_fmap. left. rewrite <- Hfl. by eapply retain_locations.
Qed.

(** The direct implementation. *)

Definition direct_address (base : V) (l : Location V) : Z :=
  match address l with
  | Fixed offset => bits_of base + offset
  | Indexed span displacement => wrap 32 (bits_of base + bits_of displacement) + start span
  end.
Definition direct_read (base : V) (spec : Memory) (l : Location V) : Z :=
  load spec (direct_address base l) (width l).
Definition direct_write (base : V) (spec : Memory) (l : Location V) (v : V) : Memory :=
  store spec (direct_address base l) (width l) (bits_of v).

(** What the owner promises of an indexed location: the span covers every
    access, and the address does not wrap. *)
Definition location_ok (base : V) (l : Location V) : Prop :=
  0 < width l /\
  match address l with
  | Fixed _ => True
  | Indexed span displacement =>
      0 <= bits_of displacement /\ bits_of displacement + width l <= end_ span - start span
      /\ fits 32 (bits_of base + bits_of displacement)
  end.

#[export] Instance location_ok_dec base l : Decision (location_ok base l).
Proof. unfold location_ok. destruct (address l); apply _. Defined.

Notation represented f b := (represents (bits_of (base f)) (definitions f) (memory b)).

(** Where no dirty definition overlaps, memory is up to date. *)
Lemma represents_synced base ds m spec (s : Span) x : represents base ds m spec ->
  (forall d, d ∈ ds -> is_dirty d = true -> overlaps s (entry_span d) = false) ->
  base + start s <= x < base + end_ s -> spec x = m x.
Proof.
  intros Hr Hd Hx. apply (rep_clean _ _ _ _ Hr). intros d Hi Hdirty Ho. unfold occupies in Ho.
  specialize (Hd d Hi Hdirty). by apply (not_overlaps_point _ _ (x - base)) in Hd; [|lia..].
Qed.

Lemma not_flushes_not_overlaps span e : flushes span false e = false -> overlaps span (entry_span e) = false.
Proof. unfold flushes. cbn [andb negb]. by rewrite andb_true_r. Qed.

Lemma read_refines f b l spec v f' b' :
  fields_read f b l = (v, f', b') -> location_ok (base f) l -> represented f b spec ->
  base f' = base f /\ represented f' b' spec /\ bits_of v = direct_read (base f) spec l.
Proof.
  unfold fields_read, direct_read, direct_address, location_ok. intros He [Hw Hl] Hr.
  destruct (address l) as [offset|span displacement].
  - set (key := mkKey offset (width l)) in *.
    destruct (list_find (at_key key) (definitions f)) as [[i e]|] eqn:Hfind.
    + apply list_find_Some in Hfind as (Hi & Hk & _). simplify_eq. split; [done|]. split; [done|].
      unfold tracked_read. change offset with (key_offset key). change (width l) with (key_bytes key).
      rewrite <- Hk. symmetry. apply (represents_load _ _ _ _ e Hr). by eapply list_elem_of_lookup_2.
    + destruct (flush f b (key_span key) false) as [f1 b1] eqn:Hfl.
      destruct (flush_spec _ _ _ _ _ _ _ Hfl Hr) as (Hb & Hr1 & Hd).
      assert (forall d, d ∈ definitions f1 -> is_dirty d = true ->
        overlaps (key_span key) (entry_span d) = false) as Ho
        by (intros; by apply not_flushes_not_overlaps, Hd).
      pose proof (fun x => represents_synced _ _ _ _ (key_span key) x Hr1 Ho) as Hsync.
      unfold key_span, span_new in Hsync; cbn [start end_ key key_offset key_bytes] in Hsync.
      unfold load_at, build in He. simplify_eq. cbn [memory]. rewrite bits_derived.
      rewrite <- Hb in Hr1, Hsync |- *. split; [done|].
      assert (load (memory b1) (bits_of (base f1) + offset) (width l)
              = load spec (bits_of (base f1) + offset) (width l)) as Hload
        by (apply load_ext; intros x Hx; symmetry; apply Hsync; lia).
      split; [|done]. set (e := mkEntry _ _ _).
      pose proof (rep_ok _ _ _ _ Hr1) as Hok.
      eapply represents_proper; [|apply (represents_replace _ f1 _ _ e Hr1)].
      * cbn [e location key key_offset key_bytes]. unfold bits_at; cbn [e value tracked_new tv_value].
        rewrite bits_derived. apply store_same. intros x Hx. rewrite byte_of_load by done. apply Hsync. lia.
      * done.
      * unfold bits_at; cbn [e value tracked_new tv_value location key key_bytes]. rewrite bits_derived.
        apply load_fits; [lia|done].
      * intros d Hi Hdirty. unfold flushes. by rewrite Ho.
      * intros _ x Hx. apply occupies_key in Hx. cbn [e location key key_offset key_bytes] in *.
        unfold bits_at; cbn [e value tracked_new tv_value]. rewrite bits_derived. symmetry.
        by apply byte_of_load.
  - destruct Hl as (H0 & Hle & Hfit).
    unfold displaced, load_at, build in He. cbv beta iota in He.
    destruct (flush f (mkBody (memory b) (S (built b))) span false) as [f1 b1] eqn:Hfl.
    destruct (flush_spec _ _ _ _ _ _ _ Hfl Hr) as (Hb & Hr1 & Hd).
    simplify_eq. cbn [memory]. rewrite !bits_derived.
    split; [done|]. split; [by rewrite Hb|]. apply load_ext. intros x Hx. symmetry.
    eapply represents_synced; [exact Hr1|intros; by apply not_flushes_not_overlaps, Hd|].
    rewrite wrap_small in Hx by done. lia.
Qed.

Lemma define_refines f b l v spec f' b' :
  fields_define f b l v = (f', b') -> location_ok (base f) l -> fits (8 * width l) (bits_of v) ->
  represented f b spec ->
  base f' = base f /\ represents (bits_of (base f)) (definitions f') (memory b') (direct_write (base f) spec l v).
Proof.
  unfold fields_define, direct_write, direct_address, location_ok. intros He [Hw Hl] Hf Hr.
  destruct (address l) as [offset|span displacement].
  - set (key := mkKey offset (width l)) in *.
    destruct (list_find (at_key key) (definitions f)) as [[i e]|] eqn:Hfind.
    + apply list_find_Some in Hfind as (Hi & Hk & _). unfold at_key in Hk. simplify_eq. split.
      * unfold redefine. by destruct (tracked_define _ _).
      * pose proof (represents_redefine f (memory b') spec i e v Hr Hi) as H0. rewrite Hk in H0. by apply H0.
    + destruct (flush f b (key_span key) true) as [f1 b1] eqn:Hfl.
      destruct (flush_spec _ _ _ _ _ _ _ Hfl Hr) as (Hb & Hr1 & Hd). simplify_eq. split; [done|].
      rewrite <- Hb in Hr1 |- *.
      apply (represents_replace _ f1 _ _ (mkEntry key (tracked_defined v) (Some (writes f1))) Hr1); done.
  - destruct Hl as (H0 & Hle & Hfit).
    unfold displaced, store_at, build in He. cbv beta iota zeta in He.
    destruct (flush f (mkBody (memory b) (S (built b))) span false) as [f1 b1] eqn:Hfl.
    destruct (flush_spec _ _ _ _ _ _ _ Hfl Hr) as (Hb & Hr1 & Hd). simplify_eq. split; [done|].
    cbn [memory set_memory]. rewrite bits_derived, wrap_small by done.
    eapply (represents_store_both _ _ _ _ span); [| |lia|lia].
    + apply represents_retain; [done|]. intros d Hi Hdirty. by apply not_flushes_not_overlaps, Hd.
    + intros d [Hov _]%list_elem_of_filter. by apply negb_true_iff.
Qed.

Lemma publish_fold (base : V) (ds : list (Entry V)) idx b spec :
  (forall d x, d ∈ ds -> occupies (bits_of base) d x ->
     spec x = byte_of (bits_at d) (Z.to_nat (x - (bits_of base + key_offset (location d))))) ->
  (forall x, (forall i d, i ∈ idx -> ds !! i = Some d -> ~ occupies (bits_of base) d x) -> spec x = memory b x) ->
  memory (foldl (fun b i => match ds !! i with Some e => store_entry base b e | None => b end) b idx) ≡ spec.
Proof.
  intros Hb. revert b. induction idx as [|i idx IH]; intros b Hx; cbn [foldl].
  - intros x. symmetry. apply Hx. intros i d Hi. by apply not_elem_of_nil in Hi.
  - apply IH. intros x Hx'. destruct (ds !! i) as [e|] eqn:Hi.
    + pose proof (list_elem_of_lookup_2 _ _ _ Hi) as He. unfold store_entry, store_at; cbn [memory set_memory].
      destruct (decide (occupies (bits_of base) e x)) as [Ho|Ho].
      * rewrite store_inside by (by apply occupies_key). by apply Hb.
      * rewrite store_outside by (by rewrite <- occupies_key). apply Hx.
        intros j d [->|Hj]%elem_of_cons Hd; [by simplify_eq|by eapply Hx'].
    + apply Hx. intros j d [->|Hj]%elem_of_cons Hd; [congruence|by eapply Hx'].
Qed.

Lemma publish_refines f b spec : represented f b spec -> memory (fields_publish f b) ≡ spec.
Proof.
  intros Hr. unfold fields_publish. apply publish_fold; [apply (rep_bytes _ _ _ _ Hr)|].
  intros x Hx. apply (rep_clean _ _ _ _ Hr). intros d [i Hi]%list_elem_of_lookup Hdirty.
  apply (Hx i d); [|done]. apply elem_of_dirty. eauto.
Qed.

Lemma represents_new base b : mem_ok (memory b) ->
  represented (fields_with_base base) b (memory b).
Proof.
  intros Hm. split; cbn [fields_with_base definitions].
  - split; [constructor|]. by intros k k' ?%not_elem_of_nil.
  - by intros d ?%not_elem_of_nil.
  - by intros d x ?%not_elem_of_nil.
  - done.
  - done.
Qed.

End Represents.

(** ** Paths of accesses *)

Inductive Access (V : Type) : Type :=
| Reads (l : Location V)
| Defines (l : Location V) (v : V).
Arguments Reads {V} l.
Arguments Defines {V} l v.

Section Paths.
Context {V : Type} `{Expressions V}.
#[local] Set Default Proof Using "All".

(** The values a path reads, through the retained fields and directly. *)
Fixpoint run_fields (f : StateFields V) (b : Body) (path : list (Access V))
    : list Z * StateFields V * Body :=
  match path with
  | [] => ([], f, b)
  | Reads l :: path =>
      let '(v, f, b) := fields_read f b l in
      let '(out, f, b) := run_fields f b path in
      (bits_of v :: out, f, b)
  | Defines l v :: path =>
      let '(f, b) := fields_define f b l v in
      run_fields f b path
  end.

Fixpoint run_direct (base : V) (m : Memory) (path : list (Access V)) : list Z * Memory :=
  match path with
  | [] => ([], m)
  | Reads l :: path =>
      let '(out, m') := run_direct base m path in (direct_read base m l :: out, m')
  | Defines l v :: path => run_direct base (direct_write base m l v) path
  end.

Definition access_ok (base : V) (a : Access V) : Prop :=
  match a with
  | Reads l => location_ok base l
  | Defines l v => location_ok base l /\ fits (8 * width l) (bits_of v)
  end.

#[export] Instance access_ok_dec base a : Decision (access_ok base a).
Proof. destruct a; unfold access_ok; apply _. Defined.

Lemma run_refines path f b spec out f' b' :
  run_fields f b path = (out, f', b') -> Forall (access_ok (base f)) path ->
  represents (bits_of (base f)) (definitions f) (memory b) spec ->
  exists spec', run_direct (base f) spec path = (out, spec') /\ base f' = base f
    /\ represents (bits_of (base f)) (definitions f') (memory b') spec'.
Proof.
  revert f b spec out. induction path as [|a path IH]; intros f b spec out He Hok Hr;
    cbn [run_fields run_direct] in *.
  - simplify_eq. eauto.
  - apply Forall_cons in Hok as [Ha Hok]. destruct a as [l|l v]; cbn [access_ok] in Ha.
    + destruct (fields_read f b l) as [[v f1] b1] eqn:Hs.
      destruct (run_fields f1 b1 path) as [[out1 f2] b2] eqn:Hrun. simplify_eq.
      destruct (read_refines _ _ _ _ _ _ _ Hs Ha Hr) as (Hb & Hr1 & Hv). rewrite <- Hb in Hok.
      destruct (IH _ _ _ _ Hrun Hok Hr1) as (spec' & Hd & Hb' & Hr'). rewrite Hb in *.
      exists spec'. rewrite Hd, Hv. done.
    + destruct (fields_define f b l v) as [f1 b1] eqn:Hs. destruct Ha as [Ha Hf].
      destruct (define_refines _ _ _ _ _ _ _ Hs Ha Hf Hr) as (Hb & Hr1). rewrite <- Hb in Hr1, Hok.
      destruct (IH _ _ _ _ He Hok Hr1) as (spec' & Hd & Hb' & Hr'). rewrite Hb in *. eauto.
Qed.

(** C23 Retaining a record's fields in SSA values is invisible: along any path of
    reads and definitions, at fixed locations that may overlap partly or wholly
    and at indexed ones inside their span, every read yields what a direct load
    of the record would, whatever identities the builder gives expressions, and
    publishing the changed definitions leaves the memory that direct stores
    would have left. *)
Theorem state_fields_refine_direct (base : V) (b : Body) (path : list (Access V)) :
  mem_ok (memory b) -> Forall (access_ok base) path ->
  let '(out, f, b') := run_fields (fields_with_base base) b path in
  let '(direct, m) := run_direct base (memory b) path in
  out = direct /\ memory (fields_publish f b') ≡ m.
Proof.
  intros Hm Hok. destruct (run_fields _ _ _) as [[out f] b'] eqn:Hrun.
  destruct (run_refines _ _ _ (memory b) _ _ _ Hrun Hok (represents_new _ _ Hm)) as (m & Hd & Hb & Hr).
  change (run_direct base (memory b) path = (out, m)) in Hd. rewrite Hd. split; [done|]. apply publish_refines.
  by rewrite Hb.
Qed.

End Paths.

Module Sample.

(** A record at address 64: a dword definition, a word read inside it, a byte
    over it, an indexed store across it, and the dword read back. *)
Definition record : Body := mkBody (fun x => x mod 251) 0.
Definition accesses : list (Access FreshVal) :=
  [ Defines (location_new 4 4) (0%nat, 305419896); Reads (location_new 6 2);
    Defines (location_new 5 1) (0%nat, 255); Reads (location_new 4 4);
    Defines (location_indexed 0 12 (0%nat, 6) 2) (0%nat, 43981); Reads (location_new 4 4) ].

Example state_fields_witness :
  (let '(out, f, b') := run_fields (fields_with_base (0%nat, 64)) record accesses in
   let '(direct, m) := run_direct (0%nat, 64) (memory record) accesses in
   out = direct /\ memory (fields_publish f b') ≡ m) /\
  (run_fields (fields_with_base (0%nat, 64)) record accesses).1.1 = [4660; 305463160; 2882404216].
Proof.
  split; [|vm_compute; reflexivity]. apply (state_fields_refine_direct (0%nat, 64) record accesses).
  - intros x. cbn [record memory]. split; [apply Z.mod_pos_bound; lia|].
    pose proof (Z.mod_pos_bound x 251 ltac:(lia)). change (2 ^ 8) with 256. lia.
  - apply (bool_decide_unpack _). vm_compute. exact I.
Defined.

End Sample.
