(* ===== verification/IoBus.v ===== *)
(** * The device bus

    src/crates/machine/src/io.rs: devices with their memory and port ranges, and
    the routing of transfers to them. A device is any type of the class
    [Device]; its callbacks return the device after the call. Connections hold
    shared handles of devices: the routing names them by their place in the
    store of devices, which the transfers thread. A transfer whose assertion
    fails is [None]. *)

From stdpp Require Import sorting.
From S2P Require Import Prelude Bytes.
Local Open Scope Z_scope.

(** The trait [Device]. A waker is the number of the task it wakes; [run] is an
    activity of its own and not part of the bus. *)
Class Device (D : Type) := {
  dev_read_mmio : D -> Z -> Z -> Z * D;
  dev_write_mmio : D -> Z -> Z -> Z -> D;
  dev_read_port : D -> Z -> Z -> Z * D;
  dev_write_port : D -> Z -> Z -> Z -> D;
  dev_poll_interrupt : D -> nat -> option Z * D;
}.

(** An inclusive range. *)
Definition Range : Type := Z * Z.
Definition range_is_empty (r : Range) : bool := r.2 <? r.1.
Definition range_contains (r : Range) (a : Z) : bool := (r.1 <=? a) && (a <=? r.2).

(** [device] is the handle [Rc<RefCell<dyn Device>>]. *)
Record Connection := mkConnection {
  device : nat;
  mmio : list Range;
  ports : list Range;
}.

(** Routing is immutable and shared. *)
Definition IoBus : Type := list Connection.

Definition U32_MAX : Z := 2 ^ 32 - 1.

(** ** Validation *)

(** Adjacent ranges of the sorted list are disjoint. *)
Fixpoint windows_disjoint (ranges : list Range) : bool :=
  match ranges with
  | r :: ((r' :: _) as rest) => (r.2 <? r'.1) && windows_disjoint rest
  | _ => true
  end.

Definition start_le (r r' : Range) : Prop := r.1 <= r'.1.
#[export] Instance start_le_dec : RelDecision start_le.
Proof. unfold start_le. intros r r'. apply _. Defined.

Definition ranges_valid (ranges : list Range) : bool :=
  forallb (fun r => negb (range_is_empty r)) ranges &&
  windows_disjoint (merge_sort start_le ranges).

Definition bus_new (connections : list Connection) : option IoBus :=
  if ranges_valid (connections ≫= mmio) && ranges_valid (connections ≫= ports)
  then Some connections else None.

(** ** Routing *)

(** The ranges in the order of the two loops of [mmio_span]. *)
Definition mmio_ranges (bus : IoBus) : list (nat * Range) :=
  bus ≫= (fun c => pair (device c) <$> mmio c).

Fixpoint mmio_scan (ranges : list (nat * Range)) (address count : Z) : option nat * Z :=
  match ranges with
  | [] => (None, count)
  | (d, r) :: ranges =>
      if range_contains r address then (Some d, Z.min count (r.2 - address + 1))
      else mmio_scan ranges address (if address <? r.1 then Z.min count (r.1 - address) else count)
  end.

Definition mmio_span (bus : IoBus) (address bytes : Z) : option nat * Z :=
  mmio_scan (mmio_ranges bus) address bytes.

Definition port_device (bus : IoBus) (port : Z) : option nat :=
  '(_, c) ← list_find (fun c => existsb (fun r => range_contains r port) (ports c) = true) bus;
  Some (device c).

Definition check_mmio_range (address bytes : Z) : bool :=
  (1 <=? bytes) && (bytes <=? 8) && (address + bytes <=? 2 ^ 32).

Definition port_width (bytes : Z) : bool := (bytes =? 1) || (bytes =? 2) || (bytes =? 4).
Definition port_mask (bytes : Z) : Z := Z.shiftr U32_MAX ((4 - bytes) * 8).

(** ** Transfers *)

Section Transfers.
Context {D : Type} `{!Device D}.
Implicit Types (bus : IoBus) (devices : list D).

(** [device.borrow_mut()] and a call on it. *)
Definition borrow_mut {A} devices (i : nat) (f : D -> A * D) : option (A * list D) :=
  d ← devices !! i;
  let '(result, d) := f d in
  Some (result, <[i := d]> devices).

(** The first ready request in connection order. *)
Fixpoint bus_poll_interrupt bus devices (waker : nat) : option (option Z * list D) :=
  match bus with
  | [] => Some (None, devices)
  | c :: bus =>
      '(ready, devices) ← borrow_mut devices (device c) (fun d => dev_poll_interrupt d waker);
      match ready with
      | Some vector => Some (Some vector, devices)
      | None => bus_poll_interrupt bus devices waker
      end
  end.

(** The loop of [read_mmio] from [done] on, with the bytes it stores in [result]. *)
Fixpoint read_mmio_loop (fuel : nat) bus devices (address bytes done : Z) : option (list Z * list D) :=
  if bytes <=? done then Some ([], devices) else
  match fuel with
  | O => None
  | S fuel =>
      let current := address + done in
      let '(owner, count) := mmio_span bus current (bytes - done) in
      '(part, devices) ← match owner with
        | Some i =>
            '(value, devices) ← borrow_mut devices i (fun d => dev_read_mmio d current count);
            Some (take (Z.to_nat count) (to_le_bytes 8 value), devices)
        | None => Some (replicate (Z.to_nat count) 0xff, devices)
        end;
      '(rest, devices) ← read_mmio_loop fuel bus devices address bytes (done + count);
      Some (part ++ rest, devices)
  end.

Definition bus_read_mmio bus devices (address bytes : Z) : option (Z * list D) :=
  if check_mmio_range address bytes then
    '(result, devices) ← read_mmio_loop 8 bus devices address bytes 0;
    Some (from_le_bytes result, devices)
  else None.

Fixpoint write_mmio_loop (fuel : nat) bus devices (address bytes : Z) (value : list Z) (done : Z) : option (list D) :=
  if bytes <=? done then Some devices else
  match fuel with
  | O => None
  | S fuel =>
      let current := address + done in
      let '(owner, count) := mmio_span bus current (bytes - done) in
      devices ← match owner with
        | Some i =>
            let part := take (Z.to_nat count) (drop (Z.to_nat done) value) in
            '(_, devices) ← borrow_mut devices i (fun d => (tt, dev_write_mmio d current count (from_le_bytes part)));
            Some devices
        | None => Some devices
        end;
      write_mmio_loop fuel bus devices address bytes value (done + count)
  end.

Definition bus_write_mmio bus devices (address bytes value : Z) : option (list D) :=
  if check_mmio_range address bytes
  then write_mmio_loop 8 bus devices address bytes (to_le_bytes 8 value) 0 else None.

Definition bus_read_port bus devices (port bytes : Z) : option (Z * list D) :=
  if port_width bytes then
    '(value, devices) ← match port_device bus port with
      | Some i => borrow_mut devices i (fun d => dev_read_port d port bytes)
      | None => Some (U32_MAX, devices)
      end;
    Some (Z.land value (port_mask bytes), devices)
  else None.

Definition bus_write_port bus devices (port bytes value : Z) : option (list D) :=
  if port_width bytes then
    match port_device bus port with
    | Some i =>
        '(_, devices) ← borrow_mut devices i (fun d => (tt, dev_write_port d port bytes (Z.land value (port_mask bytes))));
        Some devices
    | None => Some devices
    end
  else None.
End Transfers.

(** ** Ranges *)

Definition in_range (r : Range) (a : Z) : Prop := r.1 <= a <= r.2.

Lemma range_contains_spec r a : range_contains r a = true <-> in_range r a.
Proof. unfold range_contains, in_range. rewrite andb_true_iff, !Z.leb_le. done. Qed.

Lemma range_contains_false r a : range_contains r a = false <-> ~ in_range r a.
Proof. rewrite <- range_contains_spec. by destruct (range_contains r a). Qed.

(** No address is in two ranges of the list. *)
Definition disjoint_ranges (ranges : list Range) : Prop :=
  forall i j r r' a, ranges !! i = Some r -> ranges !! j = Some r' ->
    in_range r a -> in_range r' a -> i = j.

Lemma windows_disjoint_after ranges : forall r j r', Sorted start_le (r :: ranges) ->
  windows_disjoint (r :: ranges) = true -> ranges !! j = Some r' -> r.2 < r'.1.
Proof.
  destruct ranges as [|x ranges]; intros r j r' Hs Hw Hj; [done|].
  cbn [windows_disjoint] in Hw. apply andb_true_iff in Hw as [Hlt%Z.ltb_lt Hw].
  apply Sorted_inv in Hs as [Hs _].
  destruct j as [|j]; cbn in Hj; [by simplify_eq|].
  assert (start_le x r') as Hle.
  { apply Sorted_StronglySorted in Hs; [|intros ???; unfold start_le; lia].
    apply StronglySorted_inv in Hs as [_ Hall]. by eapply Forall_lookup_1 in Hall. }
  unfold start_le in Hle. lia.
Qed.

Lemma windows_disjoint_spec ranges : Sorted start_le ranges -> windows_disjoint ranges = true ->
  disjoint_ranges ranges.
Proof.
  induction ranges as [|r ranges IH]; intros Hs Hw i j x y a Hi Hj Hx Hy; [done|].
  assert (windows_disjoint ranges = true) as Hw'.
  { cbn [windows_disjoint] in Hw. destruct ranges; [done|]. by apply andb_true_iff in Hw as [_ ?]. }
  pose proof (Sorted_inv Hs) as [Hs' _]. unfold in_range in *.
  destruct i as [|i], j as [|j]; cbn in Hi, Hj; simplify_eq; [done| | |].
  - pose proof (windows_disjoint_after _ _ _ _ Hs Hw Hj). lia.
  - pose proof (windows_disjoint_after _ _ _ _ Hs Hw Hi). lia.
  - f_equal. eapply IH; eauto.
Qed.

Lemma disjoint_ranges_perm l l' : l ≡ₚ l' -> disjoint_ranges l -> disjoint_ranges l'.
Proof.
  intros Hp Hd i j r r' a Hi Hj Hr Hr'.
  symmetry in Hp. apply Permutation_inj in Hp as [_ (f & Hinj & Hf)].
  rewrite Hf in Hi, Hj. apply (inj f). by eapply Hd.
Qed.

Lemma ranges_valid_disjoint ranges : ranges_valid ranges = true -> disjoint_ranges ranges.
Proof.
  intros H. apply andb_true_iff in H as [_ H].
  eapply (disjoint_ranges_perm (merge_sort start_le ranges)); [apply merge_sort_Permutation|].
  apply windows_disjoint_spec; [|done]. apply Sorted_merge_sort. intros r r'. unfold start_le. lia.
Qed.

(** ** Decoding *)

(** The device that decodes an address. *)
Fixpoint decode (ranges : list (nat * Range)) (a : Z) : option nat :=
  match ranges with
  | [] => None
  | (d, r) :: ranges => if range_contains r a then Some d else decode ranges a
  end.

(** A span belongs as a whole to one device, or to none. *)
Lemma mmio_scan_decode ranges address : forall count o n, 0 < count ->
  mmio_scan ranges address count = (o, n) ->
  0 < n <= count /\ forall k, 0 <= k < n -> decode ranges (address + k) = o.
Proof.
  induction ranges as [|[d r] ranges IH]; intros count o n Hc H; cbn [mmio_scan] in H; [simplify_eq; split; [lia|done]|].
  destruct (range_contains r address) eqn:Hr; cbn [decode].
  - simplify_eq. apply range_contains_spec in Hr as Hin. unfold in_range in Hin. split; [lia|].
    intros k Hk. rewrite (proj2 (range_contains_spec r (address + k))); [done|]. unfold in_range. lia.
  - apply range_contains_false in Hr. unfold in_range in Hr.
    destruct (Z.ltb_spec address r.1); apply IH in H as [? H]; try lia; (split; [lia|]);
      intros k Hk; rewrite (proj2 (range_contains_false r (address + k))); auto; unfold in_range; lia.
Qed.

(** A span ends with the transfer or at the boundary of a range. *)
Lemma mmio_scan_boundary ranges address : forall count o n, mmio_scan ranges address count = (o, n) ->
  n = count \/ exists d r, (d, r) ∈ ranges /\ (address + n = r.1 \/ address + n = r.2 + 1).
Proof.
  induction ranges as [|[d r] ranges IH]; intros count o n H; cbn [mmio_scan] in H; [simplify_eq; auto|].
  destruct (range_contains r address) eqn:Hr; simplify_eq.
  - destruct (Z.min_spec count (r.2 - address + 1)) as [[? ->]|[? ->]]; [by left|].
    right. exists d, r. split; [by left|lia].
  - apply IH in H as [->|(d' & r' & Hin & Hb)].
    + destruct (address <? r.1); [|by left].
      destruct (Z.min_spec count (r.1 - address)) as [[? ->]|[? ->]]; [by left|].
      right. exists d, r. split; [by left|lia].
    + right. exists d', r'. split; [by right|done].
Qed.

Lemma decode_elem ranges a d : decode ranges a = Some d -> exists r, (d, r) ∈ ranges /\ in_range r a.
Proof.
  induction ranges as [|[d' r'] ranges IH]; cbn [decode]; [done|].
  destruct (range_contains r' a) eqn:Hr.
  - intros [= ->]. exists r'. split; [by left|by apply range_contains_spec].
  - intros (r & ? & ?)%IH. exists r. split; [by right|done].
Qed.

(** Every connection names a device of the store. *)
Definition handles_ok {D} (bus : IoBus) (devices : list D) : Prop :=
  Forall (fun c => (device c < length devices)%nat) bus.

Lemma decode_handle {D} (bus : IoBus) (devices : list D) a d : handles_ok bus devices ->
  decode (mmio_ranges bus) a = Some d -> is_Some (devices !! d).
Proof.
  intros Hh (r & Hin & _)%decode_elem. unfold mmio_ranges in Hin.
  apply list_elem_of_bind in Hin as (c & Hin & Hc).
  apply list_elem_of_fmap in Hin as (r' & [= -> ->] & _). unfold handles_ok in Hh. rewrite Forall_forall in Hh.
  apply lookup_lt_is_Some_2. by apply Hh.
Qed.

Section Reads.
Context {D : Type} `{!Device D}.

(** Devices whose wide reads are the little-endian bytes of one-byte reads,
    without side effects: video memory, not a register file. *)
Class ByteDevice (peek : D -> Z -> Z) : Prop := {
  peek_fits d a : fits 8 (peek d a);
  read_is_peek d a n : 1 <= n <= 8 -> dev_read_mmio d a n = (from_le_bytes (peek d <$> addresses a n), d);
}.

Definition bus_byte (peek : D -> Z -> Z) (bus : IoBus) (devices : list D) (a : Z) : Z :=
  match i ← decode (mmio_ranges bus) a; devices !! i with Some d => peek d a | None => 0xff end.

Context (peek : D -> Z -> Z) `{!ByteDevice peek}.
#[local] Set Default Proof Using "All".

Lemma peeks_ok d a n : bytes_ok (peek d <$> addresses a n).
Proof. apply Forall_fmap, Forall_true. intros. apply peek_fits. Qed.

Lemma bus_byte_fits bus devices a : fits 8 (bus_byte peek bus devices a).
Proof. unfold bus_byte. case_match; [apply peek_fits|done]. Qed.

(** One span: the bytes it stores are those of the reference. *)
Lemma span_bytes bus devices current count o n : handles_ok bus devices -> 0 < count <= 8 ->
  mmio_span bus current count = (o, n) ->
  match o with
  | Some i => '(value, devices) ← borrow_mut devices i (fun d => dev_read_mmio d current n);
      Some (take (Z.to_nat n) (to_le_bytes 8 value), devices)
  | None => Some (replicate (Z.to_nat n) 0xff, devices)
  end = Some (bus_byte peek bus devices <$> addresses current n, devices).
Proof.
  intros Hh Hc H. apply mmio_scan_decode in H as [Hn Hd]; [|lia].
  assert (forall x, x ∈ addresses current n -> decode (mmio_ranges bus) x = o) as Hdec.
  { intros x Hx%elem_of_addresses. rewrite <- (Hd (x - current)) by lia. f_equal. lia. }
  destruct o as [i|].
  - assert (is_Some (devices !! i)) as [d Hi].
    { eapply decode_handle; [done|]. apply (Hd 0). lia. }
    unfold borrow_mut. rewrite Hi. cbn [mbind option_bind]. rewrite read_is_peek by lia. cbn [mbind option_bind].
    rewrite list_insert_id by done. do 2 f_equal.
    rewrite take_to_le_bytes_from_le_bytes by
      first [apply peeks_ok | by rewrite length_fmap, length_addresses | lia].
    apply list_fmap_ext. intros k x Hx%list_elem_of_lookup_2. unfold bus_byte.
    rewrite Hdec by done. cbn. by rewrite Hi.
  - do 2 f_equal. apply list_eq. intros k. rewrite list_lookup_fmap.
    destruct (decide (k < Z.to_nat n)%nat).
    + rewrite lookup_replicate_2, lookup_addresses by done. cbn. f_equal. unfold bus_byte.
      rewrite Hdec by (apply elem_of_addresses; lia). done.
    + rewrite !lookup_ge_None_2; [done|rewrite length_addresses; lia|rewrite length_replicate; lia].
Qed.

Lemma read_mmio_loop_bytes bus devices address bytes fuel : forall done,
  handles_ok bus devices -> bytes <= 8 -> 0 <= done -> bytes - done <= Z.of_nat fuel ->
  read_mmio_loop fuel bus devices address bytes done =
  Some (bus_byte peek bus devices <$> addresses (address + done) (bytes - done), devices).
Proof.
  induction fuel as [|fuel IH]; intros dn Hh Hb Hd Hf; cbn [read_mmio_loop];
    destruct (Z.leb_spec bytes dn); try (rewrite addresses_nil by lia; done); [lia|].
  destruct (mmio_span bus (address + dn) (bytes - dn)) as [o n] eqn:Hs.
  apply mmio_scan_decode in Hs as Hn; [|lia]. destruct Hn as [Hn _].
  rewrite (span_bytes bus devices (address + dn) (bytes - dn) o n Hh) by (done || lia). cbn [mbind option_bind].
  rewrite IH by (done || lia). cbn [mbind option_bind]. do 2 f_equal.
  rewrite (addresses_split (address + dn) (bytes - dn) n), fmap_app by lia.
  by replace (address + (dn + n)) with (address + dn + n) by lia;
     replace (bytes - (dn + n)) with (bytes - dn - n) by lia.
Qed.

(** A memory-mapped read of one through eight bytes within the address space
    never panics, and returns in every byte what the device decoding that address
    holds there, and FF where no device decodes it, however the transfer is split
    at device boundaries. *)
Theorem bus_read_decodes bus devices address bytes :
  handles_ok bus devices -> 1 <= bytes <= 8 -> address + bytes <= 2 ^ 32 ->
  bus_read_mmio bus devices address bytes =
  Some (from_le_bytes (bus_byte peek bus devices <$> addresses address bytes), devices).
Proof.
  intros Hh Hb Ha. unfold bus_read_mmio, check_mmio_range.
  rewrite !(proj2 (Z.leb_le _ _)) by lia. cbn [andb].
  rewrite read_mmio_loop_bytes by (done || lia). cbn [mbind option_bind].
  by rewrite Z.add_0_r, Z.sub_0_r.
Qed.
End Reads.

(** ** Example *)

Module Sample.

(** A device whose byte at [a] is [a] plus its state. *)
Definition ramp_byte (d a : Z) : Z := wrap 8 (d + a).

#[local] Instance ramp : Device Z := {
  dev_read_mmio d a n := (from_le_bytes (ramp_byte d <$> addresses a n), d);
  dev_write_mmio d _ _ _ := d;
  dev_read_port d _ _ := (0, d); dev_write_port d _ _ _ := d;
  dev_poll_interrupt d _ := (None, d) }.

#[local] Instance ramp_bytes : ByteDevice ramp_byte.
Proof. split; [intros; by apply wrap_fits|done]. Qed.

Definition two_devices : IoBus := [mkConnection 0 [(0x10, 0x13)] []; mkConnection 1 [(0x16, 0x20)] []].

(** Three bytes of the first device, two of none, three of the second. *)
Lemma bus_read_decodes_witness :
  bus_new two_devices = Some two_devices /\
  bus_read_mmio two_devices [0; 0x80] 0x11 8 = Some (from_le_bytes [0x11; 0x12; 0x13; 0xff; 0xff; 0x96; 0x97; 0x98], [0; 0x80]).
Proof.
  split; [by vm_compute|].
  rewrite (bus_read_decodes ramp_byte two_devices [0; 0x80] 0x11 8); [by vm_compute| |lia|lia].
  repeat constructor.
Defined.
End Sample.
