(* ===== verification/PhysMemory.v ===== *)
(** * Guest physical memory

    src/crates/x86/src/memory/physical_map.rs: the routing of physical pages to
    backing memory, ROM and devices, with the A20 gate. src/crates/machine/src/
    memory/view.rs and view/*.rs: transfers of byte ranges through the map.
    src/crates/machine/src/config/machine.rs: the validated configuration.
    The backing bytes are those of a Wasm memory, of a fixed size here; an
    access outside them is [None], the panic of the slice. *)

From S2P Require Import Prelude Bytes IoBus.
Local Open Scope Z_scope.

(** ** physical_map.rs *)

Definition PAGE_SHIFT : Z := 12.
Definition PAGE_BYTES : Z := Z.shiftl 1 PAGE_SHIFT.
Definition PAGE_MASK : Z := PAGE_BYTES - 1.
Definition PAGE_COUNT : Z := 272.
Definition A20_MASK_OFFSET : Z := PAGE_COUNT * 8.
Definition BYTE_LEN : Z := A20_MASK_OFFSET + 4.

Inductive PhysicalMapping : Set :=
| Unmapped
| Ram (backing_offset : Z)
| Rom (backing_offset : Z)
| Mmio.

#[export] Instance PhysicalMapping_eq_dec : EqDecision PhysicalMapping.
Proof. solve_decision. Defined.

Definition backing_offset (m : PhysicalMapping) : option Z :=
  match m with Unmapped | Mmio => None | Ram b | Rom b => Some b end.

(** The sums stay in u32: see [map_backing]. *)
Definition advance (m : PhysicalMapping) (bytes : Z) : PhysicalMapping :=
  match m with
  | Unmapped | Mmio => m
  | Ram b => Ram (b + bytes)
  | Rom b => Rom (b + bytes)
  end.

Record PhysicalMemoryMap := mkMap { pages : list PhysicalMapping; a20_enabled : bool }.

Inductive PhysicalMapError : Set :=
| EmptyRange | UnalignedRange | RangeOutOfBounds | UnalignedBacking | BackingOverflow.

Definition fits_backing (m : PhysicalMemoryMap) (memory_size : Z) : bool :=
  forallb (fun offset => offset + PAGE_BYTES <=? memory_size) (omap backing_offset (pages m)).

(** One region of the loop of [new]. *)
Definition map_region (pages : list PhysicalMapping) (region : Range * PhysicalMapping) :
    result PhysicalMapError (list PhysicalMapping) :=
  let '(range, mapping) := region in
  if range_is_empty range then Err EmptyRange else
  let '(start, stop) := range in
  if negb (Z.land start PAGE_MASK =? 0) || negb (Z.land stop PAGE_MASK =? PAGE_MASK)
  then Err UnalignedRange else
  let first_page := Z.shiftr start PAGE_SHIFT in
  let end_page := Z.shiftr stop PAGE_SHIFT + 1 in
  if PAGE_COUNT <? end_page then Err RangeOutOfBounds else
  let write := imap (fun page old =>
    if (first_page <=? Z.of_nat page) && (Z.of_nat page <? end_page)
    then advance mapping (Z.shiftl (Z.of_nat page - first_page) PAGE_SHIFT) else old) pages in
  match backing_offset mapping with
  | Some backing =>
      if negb (Z.land backing PAGE_MASK =? 0) then Err UnalignedBacking
      else if 2 ^ 32 <? backing + (stop - start + 1) then Err BackingOverflow
      else Ok write
  | None => Ok write
  end.

Fixpoint map_regions (pages : list PhysicalMapping) (regions : list (Range * PhysicalMapping)) :
    result PhysicalMapError (list PhysicalMapping) :=
  match regions with
  | [] => Ok pages
  | region :: regions => pages ← map_region pages region; map_regions pages regions
  end.

Definition map_new (regions : list (Range * PhysicalMapping)) : result PhysicalMapError PhysicalMemoryMap :=
  pages ← map_regions (replicate (Z.to_nat PAGE_COUNT) Unmapped) regions;
  Ok (mkMap pages false).

Definition set_a20_enabled (m : PhysicalMemoryMap) (enabled : bool) : PhysicalMemoryMap :=
  mkMap (pages m) enabled.

Definition address_mask (m : PhysicalMemoryMap) : Z :=
  if a20_enabled m then U32_MAX else bnot 32 (Z.shiftl 1 20).

Definition bus_address (m : PhysicalMemoryMap) (address : Z) : Z := Z.land address (address_mask m).

Definition map_get (m : PhysicalMemoryMap) (address : Z) : PhysicalMapping :=
  if PAGE_COUNT * PAGE_BYTES <=? address then Unmapped else
  let address := bus_address m address in
  advance (default Unmapped (pages m !! Z.to_nat (Z.shiftr address PAGE_SHIFT))) (Z.land address PAGE_MASK).

Definition page_entry (page : PhysicalMapping) : Z * Z :=
  match page with
  | Unmapped => (0, 0)
  | Ram b => (1, b)
  | Rom b => (2, b)
  | Mmio => (3, 0)
  end.

Definition map_to_bytes (m : PhysicalMemoryMap) : list Z :=
  (pages m ≫= (fun page => let '(kind, backing) := page_entry page in to_le_bytes 4 kind ++ to_le_bytes 4 backing))
  ++ to_le_bytes 4 (address_mask m).

(** ** config/machine.rs *)

Record MachineConfig := mkMachineConfig { memory_size : Z; memory_map : PhysicalMemoryMap }.

Inductive ConfigurationError : Set := InvalidMemorySize | InsufficientMemory.

Definition config_new (size : Z) (m : PhysicalMemoryMap) : result ConfigurationError MachineConfig :=
  if 2 ^ 32 <? size then Err InvalidMemorySize
  else if negb (fits_backing m size) then Err InsufficientMemory
  else Ok (mkMachineConfig size m).

(** ** Backing storage *)

Record Storage := mkStorage { storage_size : Z; cell : Z -> Z }.

Definition storage_read (s : Storage) (offset len : Z) : option (list Z) :=
  if offset + len <=? storage_size s then Some (cell s <$> addresses offset len) else None.

Definition cells_write (c : Z -> Z) (offset : Z) (bytes : list Z) : Z -> Z := fun a =>
  if (offset <=? a) && (a <? offset + Z.of_nat (length bytes))
  then default 0 (bytes !! Z.to_nat (a - offset)) else c a.

Definition storage_write (s : Storage) (offset : Z) (bytes : list Z) : option Storage :=
  if offset + Z.of_nat (length bytes) <=? storage_size s
  then Some (mkStorage (storage_size s) (cells_write (cell s) offset bytes)) else None.

(** ** memory/view.rs *)

Inductive MemoryError : Set := AddressRange | BackingRange | SegmentRange.

(** [checked_add] in u64 cannot overflow for the lengths of slices. *)
Definition range_fits (address len limit : Z) : bool := address + len <=? limit.

(** The configuration and storage of a view, with the bus it may carry and the
    devices behind it. *)
Record MemoryView (D : Type) := mkView {
  config : MachineConfig;
  storage : Storage;
  io : option IoBus;
  devices : list D;
}.
Arguments mkView {D} config storage io devices.
Arguments config {D} m.
Arguments storage {D} m.
Arguments io {D} m.
Arguments devices {D} m.

Definition with_io {D} (v : MemoryView D) (bus : IoBus) : MemoryView D :=
  mkView (config v) (storage v) (Some bus) (devices v).
Definition with_storage {D} (v : MemoryView D) (s : Storage) : MemoryView D :=
  mkView (config v) s (io v) (devices v).
Definition with_devices {D} (v : MemoryView D) (ds : list D) : MemoryView D :=
  mkView (config v) (storage v) (io v) ds.

Definition backing_size {D} (v : MemoryView D) : Z := memory_size (config v).

(** ** view/resolve.rs *)

Record Span := mkSpan { mapping : PhysicalMapping; span_address : Z; span_len : Z }.

Definition page_rest (address : Z) : Z := PAGE_BYTES - address mod PAGE_BYTES.

(** The loop that keeps an access across adjacent MMIO pages together. *)
Fixpoint extend_mmio (fuel : nat) (m : PhysicalMemoryMap) (bus address remaining len : Z) : option Z :=
  if remaining <=? len then Some len else
  match fuel with
  | O => None
  | S fuel =>
      let next := address + len in
      if negb (bool_decide (map_get m next = Mmio)) || negb (bus_address m next =? bus + len) then Some len
      else extend_mmio fuel m bus address remaining (len + Z.min (remaining - len) (page_rest next))
  end.

(** [Spans::next]. *)
Definition spans_next (m : PhysicalMemoryMap) (address remaining : Z) : option (option (Span * Z * Z)) :=
  if remaining =? 0 then Some None else
  let len := Z.min remaining (page_rest address) in
  let mapping := map_get m address in
  let bus := bus_address m address in
  len ← if bool_decide (mapping = Mmio) then extend_mmio (Z.to_nat remaining) m bus address remaining len else Some len;
  Some (Some (mkSpan mapping bus len, wrap 32 (address + len), remaining - len)).

Fixpoint spans (fuel : nat) (m : PhysicalMemoryMap) (address remaining : Z) : option (list Span) :=
  next ← spans_next m address remaining;
  match next with
  | None => Some []
  | Some (span, address, remaining) =>
      match fuel with
      | O => None
      | S fuel => rest ← spans fuel m address remaining; Some (span :: rest)
      end
  end.

(** [MemoryView::resolve], collected. *)
Definition resolve {D} (v : MemoryView D) (address len : Z) : option (result MemoryError (list Span)) :=
  if negb (range_fits address len (2 ^ 32)) then Some (Err AddressRange) else
  spans ← spans (Z.to_nat len) (memory_map (config v)) address len;
  Some (Ok spans).

(** ** view/read.rs and view/write.rs *)

Definition lift_result {E A B} (r : result E A) (f : A -> option (result E B)) : option (result E B) :=
  match r with Ok a => f a | Err e => Some (Err e) end.

Section Transfers.
Context {D : Type} `{!Device D}.
Implicit Types (v : MemoryView D).

(** The eight-byte chunks of a device span. *)
Fixpoint read_chunks (fuel : nat) (bus : IoBus) (ds : list D) (address len : Z) : option (list Z * list D) :=
  if len <=? 0 then Some ([], ds) else
  match fuel with
  | O => None
  | S fuel =>
      let count := Z.min 8 len in
      '(value, ds) ← bus_read_mmio bus ds address count;
      '(rest, ds) ← read_chunks fuel bus ds (address + 8) (len - count);
      Some (take (Z.to_nat count) (to_le_bytes 8 value) ++ rest, ds)
  end.

Fixpoint write_chunks (fuel : nat) (bus : IoBus) (ds : list D) (address : Z) (bytes : list Z) : option (list D) :=
  match bytes with
  | [] => Some ds
  | _ =>
      match fuel with
      | O => None
      | S fuel =>
          let chunk := take 8 bytes in
          ds ← bus_write_mmio bus ds address (Z.of_nat (length chunk)) (from_le_bytes chunk);
          write_chunks fuel bus ds (address + 8) (drop 8 bytes)
      end
  end.

Definition read_span v (s : Span) : option (list Z * MemoryView D) :=
  match mapping s with
  | Ram offset | Rom offset => part ← storage_read (storage v) offset (span_len s); Some (part, v)
  | Mmio =>
      bus ← io v;
      '(part, ds) ← read_chunks (Z.to_nat (span_len s)) bus (devices v) (span_address s) (span_len s);
      Some (part, with_devices v ds)
  | Unmapped => Some (replicate (Z.to_nat (span_len s)) 0xff, v)
  end.

Fixpoint read_spans v (l : list Span) : option (list Z * MemoryView D) :=
  match l with
  | [] => Some ([], v)
  | s :: l =>
      '(part, v) ← read_span v s;
      '(rest, v) ← read_spans v l;
      Some (part ++ rest, v)
  end.

Definition view_read v (address len : Z) : option (result MemoryError (list Z * MemoryView D)) :=
  r ← resolve v address len;
  lift_result r (fun l => r ← read_spans v l; Some (Ok r)).

Definition write_span v (s : Span) (part : list Z) : option (MemoryView D) :=
  match mapping s with
  | Ram offset => st ← storage_write (storage v) offset part; Some (with_storage v st)
  | Mmio =>
      bus ← io v;
      ds ← write_chunks (length part) bus (devices v) (span_address s) part;
      Some (with_devices v ds)
  | Rom _ | Unmapped => Some v
  end.

Fixpoint write_spans v (l : list Span) (bytes : list Z) : option (MemoryView D) :=
  match l with
  | [] => Some v
  | s :: l =>
      v ← write_span v s (take (Z.to_nat (span_len s)) bytes);
      write_spans v l (drop (Z.to_nat (span_len s)) bytes)
  end.

Definition view_write v (address : Z) (bytes : list Z) : option (result MemoryError (MemoryView D)) :=
  r ← resolve v address (Z.of_nat (length bytes));
  lift_result r (fun l => v ← write_spans v l bytes; Some (Ok v)).

(** [load] and [store]: a little-endian value of [n] bytes. *)
Definition view_load v (n : nat) (address : Z) : option (result MemoryError (Z * MemoryView D)) :=
  r ← view_read v address (Z.of_nat n);
  lift_result r (fun '(bytes, v) => Some (Ok (from_le_bytes bytes, v))).

Definition view_store v (n : nat) (address value : Z) : option (result MemoryError (MemoryView D)) :=
  view_write v address (to_le_bytes n value).

Definition read_backing v (offset len : Z) : option (result MemoryError (list Z)) :=
  if negb (range_fits offset len (backing_size v)) then Some (Err BackingRange) else
  bytes ← storage_read (storage v) offset len; Some (Ok bytes).

Definition write_backing v (offset : Z) (bytes : list Z) : option (result MemoryError (MemoryView D)) :=
  if negb (range_fits offset (Z.of_nat (length bytes)) (backing_size v)) then Some (Err BackingRange) else
  s ← storage_write (storage v) offset bytes; Some (Ok (with_storage v s)).
End Transfers.

(** ** What a transfer means byte by byte *)

(** A map whose pages name backing memory of [size] bytes. *)
Definition map_backing (size : Z) (m : PhysicalMemoryMap) : Prop :=
  length (pages m) = Z.to_nat PAGE_COUNT /\
  forall i p b, pages m !! i = Some p -> backing_offset p = Some b -> 0 <= b /\ b + PAGE_BYTES <= size.

(** A view of a validated configuration. *)
Definition view_ok {D} (v : MemoryView D) : Prop :=
  memory_size (config v) <= storage_size (storage v) /\ map_backing (memory_size (config v)) (memory_map (config v)).

(** The byte read at an address without devices. *)
Definition view_byte (m : PhysicalMemoryMap) (c : Z -> Z) (address : Z) : Z :=
  match map_get m address with
  | Ram b | Rom b => c b
  | Unmapped | Mmio => 0xff
  end.

(** The cells after one byte is written. *)
Definition write_byte (m : PhysicalMemoryMap) (c : Z -> Z) (address byte : Z) : Z -> Z :=
  match map_get m address with
  | Ram b => fun a => if a =? b then byte else c a
  | Rom _ | Unmapped | Mmio => c
  end.

Fixpoint write_bytes (m : PhysicalMemoryMap) (c : Z -> Z) (address : Z) (bytes : list Z) : Z -> Z :=
  match bytes with
  | [] => c
  | b :: bytes => write_bytes m (write_byte m c address b) (address + 1) bytes
  end.

(** No address of the range is routed to a device. *)
Definition no_mmio (m : PhysicalMemoryMap) (address len : Z) : Prop :=
  forall a, address <= a < address + len -> map_get m a <> Mmio.

(** ** Pages and the A20 gate *)

Lemma page_rest_bounds a : 0 < page_rest a <= PAGE_BYTES.
Proof. unfold page_rest. pose proof (Z.mod_pos_bound a PAGE_BYTES eq_refl). lia. Qed.

(** The gate never changes the offset within a page. *)
Lemma bus_address_split m a : bus_address m a =
  PAGE_BYTES * Z.land (Z.shiftr a PAGE_SHIFT) (Z.shiftr (address_mask m) PAGE_SHIFT) + a mod PAGE_BYTES.
Proof.
  unfold bus_address. change PAGE_BYTES with (2 ^ 12). change PAGE_SHIFT with 12.
  rewrite <- Z.shiftr_land, Z.shiftr_div_pow2 by lia.
  rewrite (Z.div_mod (Z.land a (address_mask m)) (2 ^ 12)) at 1 by lia. f_equal.
  rewrite <- !Z.land_ones, <- Z.land_assoc by lia. f_equal. unfold address_mask. by destruct (a20_enabled m).
Qed.

Lemma page_split q r : 0 <= r < PAGE_BYTES -> (PAGE_BYTES * q + r) / PAGE_BYTES = q /\ (PAGE_BYTES * q + r) mod PAGE_BYTES = r.
Proof.
  intros. split; symmetry; [eapply Z.div_unique_pos|eapply Z.mod_unique_pos]; done.
Qed.

Lemma same_page a k : 0 <= k < page_rest a ->
  (a + k) / PAGE_BYTES = a / PAGE_BYTES /\ (a + k) mod PAGE_BYTES = a mod PAGE_BYTES + k.
Proof.
  unfold page_rest. intros Hk. pose proof (Z.mod_pos_bound a PAGE_BYTES eq_refl).
  assert (a + k = PAGE_BYTES * (a / PAGE_BYTES) + (a mod PAGE_BYTES + k)) as ->
    by (rewrite (Z.div_mod a PAGE_BYTES) at 1 by done; lia).
  apply page_split. lia.
Qed.

Lemma bus_address_page m a k : 0 <= k < page_rest a -> bus_address m (a + k) = bus_address m a + k.
Proof.
  intros [Hd Hm]%same_page. rewrite !bus_address_split, Hm.
  change PAGE_SHIFT with 12. rewrite !Z.shiftr_div_pow2 by lia. change (2 ^ 12) with PAGE_BYTES. rewrite Hd. lia.
Qed.

Lemma advance_advance p x y : advance (advance p x) y = advance p (x + y).
Proof. destruct p; cbn; f_equal; lia. Qed.

Lemma map_get_page m a k : 0 <= k < page_rest a -> map_get m (a + k) = advance (map_get m a) k.
Proof.
  intros Hk. pose proof (same_page a k Hk) as [Hd Hm].
  assert (PAGE_COUNT * PAGE_BYTES <=? a + k = (PAGE_COUNT * PAGE_BYTES <=? a)) as Hb.
  { pose proof (Z.mod_pos_bound a PAGE_BYTES eq_refl). pose proof (Z.div_mod a PAGE_BYTES ltac:(done)).
    unfold page_rest in Hk. change PAGE_BYTES with 4096 in *. unfold PAGE_COUNT.
    destruct (Z.leb_spec (272 * 4096) (a + k)), (Z.leb_spec (272 * 4096) a); lia. }
  unfold map_get. rewrite Hb. destruct (_ <=? a); [done|].
  rewrite advance_advance. rewrite !bus_address_split, Hm.
  change PAGE_SHIFT with 12. change PAGE_MASK with (Z.ones 12). rewrite !Z.land_ones by lia.
  rewrite !Z.shiftr_div_pow2 by lia. change (2 ^ 12) with PAGE_BYTES. rewrite Hd.
  set (q := Z.land _ _). pose proof (Z.mod_pos_bound a PAGE_BYTES eq_refl). unfold page_rest in Hk.
  destruct (page_split q (a mod PAGE_BYTES)) as [-> ->]; [lia|].
  by destruct (page_split q (a mod PAGE_BYTES + k)) as [-> ->]; [lia|].
Qed.

(** ** Spans *)

(** The spans of a range: maximal runs, each within one page unless it is a run
    of device pages. *)
Fixpoint spans_of (m : PhysicalMemoryMap) (address remaining : Z) (l : list Span) : Prop :=
  match l with
  | [] => remaining = 0
  | s :: l =>
      0 < span_len s <= remaining /\ mapping s = map_get m address /\ span_address s = bus_address m address /\
      (mapping s <> Mmio -> span_len s <= page_rest address) /\
      spans_of m (address + span_len s) (remaining - span_len s) l
  end.

Lemma extend_mmio_total m bus address remaining fuel : forall len,
  remaining - len <= Z.of_nat fuel -> len <= remaining ->
  exists len', extend_mmio fuel m bus address remaining len = Some len' /\ len <= len' <= remaining.
Proof.
  induction fuel as [|fuel IH]; intros len Hf Hl; cbn [extend_mmio];
    destruct (Z.leb_spec remaining len); try (exists len; split; [done|lia]); [lia|].
  destruct (_ || _); [exists len; split; [done|lia]|].
  pose proof (page_rest_bounds (address + len)).
  destruct (IH (len + Z.min (remaining - len) (page_rest (address + len)))) as (len' & -> & ?); [lia..|].
  exists len'. split; [done|lia].
Qed.

Lemma spans_total m fuel : forall address remaining, 0 <= remaining <= Z.of_nat fuel -> 0 <= address ->
  address + remaining <= 2 ^ 32 -> exists l, spans fuel m address remaining = Some l /\ spans_of m address remaining l.
Proof.
  induction fuel as [|fuel IH]; intros address remaining Hr Ha Hb; cbn [spans]; unfold spans_next.
  { replace remaining with 0 by lia. by exists []. }
  destruct (Z.eqb_spec remaining 0) as [->|Hne]; [by exists []|]. cbn [mbind option_bind].
  pose proof (page_rest_bounds address).
  assert (exists len, (if bool_decide (map_get m address = Mmio)
      then extend_mmio (Z.to_nat remaining) m (bus_address m address) address remaining (Z.min remaining (page_rest address))
      else Some (Z.min remaining (page_rest address))) = Some len /\ 0 < len <= remaining /\
      (map_get m address <> Mmio -> len <= page_rest address)) as (len & -> & Hlen & Hpage).
  { case_bool_decide as Hm.
    - edestruct extend_mmio_total as (len & -> & ?); [| |exists len; split_and!; [done|lia|lia|done]]; lia.
    - eexists. split_and!; [done|lia|lia|lia]. }
  cbn [mbind option_bind].
  assert (exists l, spans fuel m (wrap 32 (address + len)) (remaining - len) = Some l /\
    spans_of m (address + len) (remaining - len) l) as (l & -> & Hl).
  { destruct (decide (remaining = len)) as [<-|].
    - rewrite Z.sub_diag. exists []. split; [|done]. by destruct fuel.
    - rewrite wrap_small by (unfold fits; lia). apply IH; lia. }
  cbn [mbind option_bind]. eexists. split; [done|]. cbn. split_and!; [lia|lia|done|done|done|done].
Qed.

Lemma resolve_total {D} (v : MemoryView D) address len : 0 <= address -> 0 <= len -> address + len <= 2 ^ 32 ->
  exists l, resolve v address len = Some (Ok l) /\ spans_of (memory_map (config v)) address len l.
Proof.
  intros. unfold resolve, range_fits. rewrite (proj2 (Z.leb_le _ _)) by done. cbn [negb].
  edestruct (spans_total (memory_map (config v)) (Z.to_nat len) address len) as (l & -> & Hl); [lia..|].
  by exists l.
Qed.

(** ** Transfers are bytewise *)

Lemma map_get_backing size m a b : map_backing size m -> 0 <= a -> backing_offset (map_get m a) = Some b ->
  0 <= b /\ b + page_rest a <= size.
Proof.
  intros [_ Hp] Ha. unfold map_get. destruct (_ <=? a); [done|].
  set (q := Z.to_nat _). intros H.
  assert (Z.land (bus_address m a) PAGE_MASK = a mod PAGE_BYTES) as Hr.
  { rewrite bus_address_split. change PAGE_MASK with (Z.ones 12). rewrite Z.land_ones by lia.
    change (2 ^ 12) with PAGE_BYTES. apply page_split, Z.mod_pos_bound. done. }
  rewrite Hr in H. unfold page_rest. pose proof (Z.mod_pos_bound a PAGE_BYTES eq_refl).
  destruct (pages m !! q) as [p|] eqn:Hq; cbn in H; [|done].
  destruct p as [|o|o|]; cbn in H; simplify_eq;
    destruct (Hp _ _ _ Hq eq_refl); lia.
Qed.

Section Bytewise.
Context {D : Type} `{!Device D}.
#[local] Set Default Proof Using "All".
Implicit Types (v : MemoryView D).

Lemma read_span_bytes v s address : view_ok v -> 0 <= address ->
  0 < span_len s -> mapping s = map_get (memory_map (config v)) address -> mapping s <> Mmio ->
  span_len s <= page_rest address ->
  read_span v s = Some (view_byte (memory_map (config v)) (cell (storage v)) <$> addresses address (span_len s), v).
Proof.
  intros [Hsize Hok] Ha Hlen Hm Hmmio Hpage. unfold read_span.
  assert (forall k, 0 <= k < span_len s -> map_get (memory_map (config v)) (address + k) = advance (mapping s) k) as Hget.
  { intros. rewrite Hm. apply map_get_page. lia. }
  assert (forall b, backing_offset (mapping s) = Some b ->
    storage_read (storage v) b (span_len s) =
    Some (view_byte (memory_map (config v)) (cell (storage v)) <$> addresses address (span_len s))) as Hread.
  { intros b Hb. pose proof Hb as Hb'. rewrite Hm in Hb'. apply (map_get_backing _ _ _ _ Hok Ha) in Hb' as [? ?].
    unfold storage_read. rewrite (proj2 (Z.leb_le _ _)) by lia. f_equal.
    apply list_eq. intros i. rewrite !list_lookup_fmap. destruct (decide (i < Z.to_nat (span_len s))%nat).
    - rewrite !lookup_addresses by done. cbn. f_equal. unfold view_byte. rewrite Hget by lia.
      destruct (mapping s); cbn in Hb; by simplify_eq.
    - rewrite !lookup_ge_None_2; [done|rewrite length_addresses; lia..]. }
  destruct (mapping s) as [|b|b|] eqn:Hs; try (by rewrite (Hread b)); [|done].
  do 2 f_equal. apply list_eq. intros i. rewrite list_lookup_fmap. destruct (decide (i < Z.to_nat (span_len s))%nat).
  - rewrite lookup_replicate_2, lookup_addresses by done. cbn. unfold view_byte. by rewrite Hget by lia.
  - rewrite !lookup_ge_None_2; [done|rewrite length_addresses; lia|rewrite length_replicate; lia].
Qed.

Lemma no_mmio_span m address remaining s l : spans_of m address remaining (s :: l) -> no_mmio m address remaining ->
  mapping s <> Mmio /\ no_mmio m (address + span_len s) (remaining - span_len s).
Proof.
  intros (Hlen & Hm & _) Hno. split; [rewrite Hm; apply Hno; lia|]. intros a Ha. apply Hno. lia.
Qed.

Lemma read_spans_bytes v l : forall address remaining, view_ok v -> 0 <= address ->
  spans_of (memory_map (config v)) address remaining l -> no_mmio (memory_map (config v)) address remaining ->
  read_spans v l = Some (view_byte (memory_map (config v)) (cell (storage v)) <$> addresses address remaining, v).
Proof.
  induction l as [|s l IH]; intros address remaining Hok Ha Hs Hno; cbn [read_spans].
  { cbn in Hs. subst. by rewrite addresses_nil. }
  pose proof (no_mmio_span _ _ _ _ _ Hs Hno) as [Hn Hno']. destruct Hs as (Hlen & Hm & _ & Hpage & Hs).
  rewrite (read_span_bytes v s address) by (done || lia || auto). cbn [mbind option_bind].
  rewrite (IH (address + span_len s) (remaining - span_len s)) by (done || lia). cbn [mbind option_bind].
  by rewrite (addresses_split address remaining (span_len s)), fmap_app by lia.
Qed.

Lemma cells_write_run m part : forall c address b, (forall k, 0 <= k < Z.of_nat (length part) -> map_get m (address + k) = Ram (b + k)) ->
  forall x, cells_write c b part x = write_bytes m c address part x.
Proof.
  induction part as [|y part IH]; intros c address b Hram x; cbn [write_bytes].
  { unfold cells_write. cbn [length]. destruct (Z.leb_spec b x), (Z.ltb_spec x (b + Z.of_nat 0)); cbn [andb]; lia || done. }
  rewrite <- (IH _ (address + 1) (b + 1)).
  - unfold write_byte. rewrite <- (Z.add_0_r address), (Hram 0) by (cbn; lia). unfold cells_write. cbn [length].
    destruct (Z.leb_spec b x), (Z.leb_spec (b + 1) x), (Z.ltb_spec x (b + Z.of_nat (S (length part)))),
      (Z.ltb_spec x (b + 1 + Z.of_nat (length part))), (Z.eqb_spec x (b + 0)); cbn [andb]; try lia; try done.
    + replace (Z.to_nat (x - b)) with (S (Z.to_nat (x - (b + 1)))) by lia. done.
    + replace (x - b) with 0 by lia. done.
  - intros k Hk. rewrite <- !Z.add_assoc. apply Hram. cbn. lia.
Qed.

Lemma write_bytes_ext m bytes : forall c c' address, (forall x, c x = c' x) ->
  forall x, write_bytes m c address bytes x = write_bytes m c' address bytes x.
Proof.
  induction bytes as [|b bytes IH]; intros c c' address Hc x; cbn; [done|].
  apply IH. intros y. unfold write_byte. case_match; auto. by rewrite Hc.
Qed.

Lemma write_bytes_app m b1 : forall c address b2,
  write_bytes m c address (b1 ++ b2) = write_bytes m (write_bytes m c address b1) (address + Z.of_nat (length b1)) b2.
Proof.
  induction b1 as [|b b1 IH]; intros; cbn; [by rewrite Z.add_0_r|]. rewrite IH. f_equal. lia.
Qed.

Lemma write_bytes_frozen m bytes : forall c address,
  (forall k, 0 <= k < Z.of_nat (length bytes) -> forall b, map_get m (address + k) <> Ram b) ->
  write_bytes m c address bytes = c.
Proof.
  induction bytes as [|b bytes IH]; intros c address H; cbn; [done|]. rewrite IH.
  - unfold write_byte. specialize (H 0 ltac:(cbn; lia)). rewrite Z.add_0_r in H. case_match; naive_solver.
  - intros k Hk. rewrite <- Z.add_assoc. apply H. cbn. lia.
Qed.

Definition with_cells v (c : Z -> Z) : MemoryView D := with_storage v (mkStorage (storage_size (storage v)) c).

Lemma write_span_bytes v s address part : view_ok v -> 0 <= address ->
  0 < span_len s -> mapping s = map_get (memory_map (config v)) address -> mapping s <> Mmio ->
  span_len s <= page_rest address -> Z.of_nat (length part) = span_len s ->
  exists c, write_span v s part = Some (with_cells v c) /\
    forall x, c x = write_bytes (memory_map (config v)) (cell (storage v)) address part x.
Proof.
  intros [Hsize Hok] Ha Hlen Hm Hmmio Hpage Hpart. unfold write_span, with_cells.
  assert (forall k, 0 <= k < span_len s -> map_get (memory_map (config v)) (address + k) = advance (mapping s) k) as Hget.
  { intros. rewrite Hm. apply map_get_page. lia. }
  assert (with_storage v (mkStorage (storage_size (storage v)) (cell (storage v))) = v) as Hv
    by (by destruct v as [? []]).
  destruct (mapping s) as [|b|b|] eqn:Hs; [|..|done].
  2: { assert (backing_offset (map_get (memory_map (config v)) address) = Some b) as Hb by (by rewrite <- Hm).
    apply (map_get_backing _ _ _ _ Hok Ha) in Hb as [? ?].
    unfold storage_write. rewrite (proj2 (Z.leb_le _ _)) by lia. eexists. split; [done|]. intros x.
    apply cells_write_run. intros k Hk. rewrite Hget by lia. done. }
  all: exists (cell (storage v)); split; [by rewrite Hv|]; intros x;
    rewrite write_bytes_frozen; [done|]; intros k Hk b'; rewrite Hget by lia; done.
Qed.

Lemma view_ok_with_cells v c : view_ok v -> view_ok (with_cells v c).
Proof. done. Qed.

Lemma write_spans_bytes l : forall v address remaining bytes, view_ok v -> 0 <= address ->
  spans_of (memory_map (config v)) address remaining l -> no_mmio (memory_map (config v)) address remaining ->
  Z.of_nat (length bytes) = remaining ->
  exists c, write_spans v l bytes = Some (with_cells v c) /\
    forall x, c x = write_bytes (memory_map (config v)) (cell (storage v)) address bytes x.
Proof.
  induction l as [|s l IH]; intros v address remaining bytes Hok Ha Hs Hno Hb; cbn [write_spans].
  { cbn in Hs. subst. destruct bytes; [|cbn in *; lia]. exists (cell (storage v)). split; [|done]. by destruct v as [? []]. }
  pose proof (no_mmio_span _ _ _ _ _ Hs Hno) as [Hn Hno']. destruct Hs as (Hlen & Hm & _ & Hpage & Hs).
  set (n := Z.to_nat (span_len s)).
  assert (Z.of_nat (length (take n bytes)) = span_len s) as Hpart by (rewrite length_take; lia).
  destruct (write_span_bytes v s address (take n bytes)) as (c & -> & Hc); try (done || lia); [auto|].
  cbn [mbind option_bind].
  destruct (IH (with_cells v c) (address + span_len s) (remaining - span_len s) (drop n bytes)) as (c' & -> & Hc');
    try done; [lia|rewrite length_drop; lia|].
  exists c'. split; [by destruct v as [? []]|]. intros x. rewrite Hc'. cbn [with_cells storage cell config with_storage].
  rewrite <- (take_drop n bytes) at 2. rewrite write_bytes_app, Hpart. by apply write_bytes_ext.
Qed.
End Bytewise.

(** Reading a byte range outside device pages never leaves the backing memory
    and returns, at every address, what the map resolves that address to: the page
    walk is a bytewise lookup, with FF in holes and with the A20 gate applied. *)
Theorem view_read_bytewise {D} `{!Device D} (v : MemoryView D) address len :
  view_ok v -> 0 <= address -> 0 <= len -> address + len <= 2 ^ 32 ->
  no_mmio (memory_map (config v)) address len ->
  view_read v address len =
  Some (Ok (view_byte (memory_map (config v)) (cell (storage v)) <$> addresses address len, v)).
Proof.
  intros Hok Ha Hl Hb Hno. unfold view_read.
  destruct (resolve_total v address len) as (l & -> & Hs); [done..|]. cbn [mbind option_bind lift_result].
  by rewrite (read_spans_bytes v l address len).
Qed.

(** Writing a byte range outside device pages is writing its bytes one by one:
    ROM and holes ignore them, and where two addresses share backing memory the
    later byte stays. Nothing but the backing cells changes. *)
Theorem view_write_bytewise {D} `{!Device D} (v : MemoryView D) address bytes :
  view_ok v -> 0 <= address -> address + Z.of_nat (length bytes) <= 2 ^ 32 ->
  no_mmio (memory_map (config v)) address (Z.of_nat (length bytes)) ->
  exists c, view_write v address bytes = Some (Ok (with_cells v c)) /\
    forall x, c x = write_bytes (memory_map (config v)) (cell (storage v)) address bytes x.
Proof.
  intros Hok Ha Hb Hno. unfold view_write.
  destruct (resolve_total v address (Z.of_nat (length bytes))) as (l & -> & Hs); [done|lia|done|].
  cbn [mbind option_bind lift_result].
  destruct (write_spans_bytes l v address (Z.of_nat (length bytes)) bytes) as (c & -> & Hc); [done..|]. by exists c.
Qed.

(** A range beyond the address space is an error, before any access. *)
Lemma view_out_of_range {D} `{!Device D} (v : MemoryView D) address len : 2 ^ 32 < address + len ->
  view_read v address len = Some (Err AddressRange).
Proof. intros. unfold view_read, resolve, range_fits. by rewrite (proj2 (Z.leb_gt _ _)). Qed.

(** ** Conventional memory

    What DOS and BIOS services rely on: a low range of plain RAM. *)

Class ConventionalMemory (V : Type) (limit : Z) := {
  ram_ok : V -> Prop;
  ram_byte : V -> Z -> Z;
  ram_read : V -> Z -> Z -> option (list Z);
  ram_write : V -> Z -> list Z -> option V;
  ram_byte_fits v a : ram_ok v -> 0 <= a < limit -> fits 8 (ram_byte v a);
  ram_read_spec v a n : ram_ok v -> 0 <= a -> 0 <= n -> a + n <= limit ->
    ram_read v a n = Some (ram_byte v <$> addresses a n);
  ram_write_spec v a bytes : ram_ok v -> 0 <= a -> a + Z.of_nat (length bytes) <= limit -> bytes_ok bytes ->
    exists v', ram_write v a bytes = Some v' /\ ram_ok v' /\
      forall x, 0 <= x < limit -> ram_byte v' x =
        if (a <=? x) && (x <? a + Z.of_nat (length bytes)) then default 0 (bytes !! Z.to_nat (x - a)) else ram_byte v x;
}.

(** The map routes the low addresses to the same cells. *)
Definition low_ram (limit : Z) (m : PhysicalMemoryMap) : Prop :=
  forall a, 0 <= a < limit -> map_get m a = Ram a.

Definition cells_ok (c : Z -> Z) : Prop := forall a, fits 8 (c a).

(** [expect]: an error is a panic. *)
Definition expect {E A} (r : option (result E A)) : option A :=
  match r with Some (Ok a) => Some a | _ => None end.

Lemma low_ram_no_mmio limit m a n : low_ram limit m -> 0 <= a -> a + n <= limit -> no_mmio m a n.
Proof. intros H ???? . rewrite H by lia. done. Qed.

#[export] Instance view_conventional {D} `{!Device D} limit (Hlimit : limit <= 2 ^ 32) :
  ConventionalMemory (MemoryView D) limit.
Proof.
  refine {|
    ram_ok v := view_ok v /\ low_ram limit (memory_map (config v)) /\ cells_ok (cell (storage v));
    ram_byte v := cell (storage v);
    ram_read v a n := fst <$> expect (view_read v a n);
    ram_write v a bytes := expect (view_write v a bytes) |}.
  - intros v a (_ & _ & H) _. apply H.
  - intros v a n (Hok & Hlow & _) ???. rewrite view_read_bytewise by (done || lia || by eapply low_ram_no_mmio).
    cbn. f_equal. apply list_fmap_ext. intros i x Hx%list_elem_of_lookup_2%elem_of_addresses.
    unfold view_byte. rewrite Hlow by lia. done.
  - intros v a bytes (Hok & Hlow & Hc) ? Hb Hbytes.
    destruct (view_write_bytewise v a bytes) as (c & -> & Hw); [done..|lia|by eapply low_ram_no_mmio|].
    assert (forall x, c x = cells_write (cell (storage v)) a bytes x) as Hcells.
    { intros x. rewrite Hw. symmetry. apply cells_write_run. intros k Hk. apply Hlow. lia. }
    exists (with_cells v c). split_and!; [done|done|done| |].
    + intros x. cbn. rewrite Hcells. unfold cells_write. destruct (_ && _) eqn:E; [|done].
      destruct (bytes !! _) as [b|] eqn:Hl; cbn; [|done]. by eapply Forall_lookup_1 in Hbytes.
    + intros x Hx. cbn. by rewrite Hcells.
Defined.

(** ** The PC's memory map

    src/crates/pc/src/configuration.rs *)

Definition CONVENTIONAL_MEMORY_SIZE : Z := 640 * 1024.
Definition MEMORY_RANGE : Range := (0xa0000, 0xbffff).

Definition pc_memory : option MachineConfig :=
  let size := 1024 * 1024 in
  let bios_rom_start := 0xf0000 in
  match map_new [((0, CONVENTIONAL_MEMORY_SIZE - 1), Ram 0);
                 (MEMORY_RANGE, Mmio);
                 ((bios_rom_start, size - 1), Rom bios_rom_start)] with
  | Ok m => match config_new size m with Ok c => Some c | Err _ => None end
  | Err _ => None
  end.

(** Pages of the map that route a low range to itself. *)
Definition identity_pages (n : nat) (m : PhysicalMemoryMap) : bool :=
  forallb (fun i => bool_decide (pages m !! i = Some (Ram (PAGE_BYTES * Z.of_nat i)))) (seq 0 n).

Lemma identity_pages_low_ram n m : identity_pages n m = true -> (n <= 256)%nat ->
  low_ram (PAGE_BYTES * Z.of_nat n) m.
Proof.
  intros H Hn a Ha. unfold map_get.
  rewrite (proj2 (Z.leb_gt _ _)) by (change PAGE_BYTES with 4096 in *; unfold PAGE_COUNT; lia).
  assert (bus_address m a = a) as ->.
  { unfold bus_address, address_mask.
    assert (fits 20 a) by (unfold fits; change PAGE_BYTES with 4096 in *; change (2 ^ 20) with (4096 * 256); lia).
    destruct (a20_enabled m).
    - change U32_MAX with (Z.ones 32). rewrite Z.land_ones by lia. apply wrap_small. by eapply (fits_mono 20).
    - unfold bnot. bitwise. }
  unfold identity_pages in H. rewrite forallb_forall in H.
  assert (Z.shiftr a PAGE_SHIFT = a / PAGE_BYTES) as -> by (by rewrite Z.shiftr_div_pow2).
  assert (0 <= a / PAGE_BYTES < Z.of_nat n) as Hq
    by (split; [apply Z.div_pos; done || lia|apply Z.div_lt_upper_bound; done || lia]).
  specialize (H (Z.to_nat (a / PAGE_BYTES))). rewrite in_seq in H.
  apply bool_decide_eq_true in H; [|lia]. rewrite H. cbn. f_equal.
  change PAGE_MASK with (Z.ones 12). rewrite Z.land_ones, Z2Nat.id by lia. symmetry. by apply Z.div_mod.
Qed.

Definition backing_pages (size : Z) (m : PhysicalMemoryMap) : bool :=
  (Z.of_nat (length (pages m)) =? PAGE_COUNT) &&
  forallb (fun b => (0 <=? b) && (b + PAGE_BYTES <=? size)) (omap backing_offset (pages m)).

Lemma backing_pages_spec size m : backing_pages size m = true -> map_backing size m.
Proof.
  intros [Hl%Z.eqb_eq Hb]%andb_true_iff. split; [lia|]. intros i p b Hi Hp.
  rewrite forallb_forall in Hb. specialize (Hb b).
  rewrite <- list_elem_of_In, list_elem_of_omap, andb_true_iff, !Z.leb_le in Hb. apply Hb.
  exists p. split; [by eapply list_elem_of_lookup_2|done].
Qed.

Definition pc_config : MachineConfig := default (mkMachineConfig 0 (mkMap [] false)) pc_memory.

Lemma pc_memory_ok : pc_memory = Some pc_config /\ memory_size pc_config = 1024 * 1024 /\
  map_backing (memory_size pc_config) (memory_map pc_config) /\
  low_ram CONVENTIONAL_MEMORY_SIZE (memory_map pc_config).
Proof.
  split_and!; [by vm_compute|by vm_compute|apply backing_pages_spec; by vm_compute|].
  apply (identity_pages_low_ram 160); [by vm_compute|lia].
Qed.

(** A PC's memory, with zeroed backing. *)
Definition pc_view {D} (devices : list D) : MemoryView D :=
  mkView pc_config (mkStorage (1024 * 1024) (fun _ => 0)) None devices.

Lemma pc_view_ok {D} `{!Device D} (devices : list D) : ram_ok (ConventionalMemory := view_conventional CONVENTIONAL_MEMORY_SIZE ltac:(done)) (pc_view devices).
Proof.
  destruct pc_memory_ok as (_ & Hs & Hb & Hl). split_and!; [split; [|done]| |].
  - change (memory_size pc_config <= 1024 * 1024). lia.
  - apply Hl.
  - intros a. apply fits_0. lia.
Qed.

(** ** Examples *)

Module Sample.

#[local] Instance no_device : Device unit := {
  dev_read_mmio d _ _ := (0, d); dev_write_mmio d _ _ _ := d;
  dev_read_port d _ _ := (0, d); dev_write_port d _ _ _ := d;
  dev_poll_interrupt d _ := (None, d) }.

Definition view : MemoryView unit := pc_view [].

(** Two bytes across the top of the first megabyte: ROM, then the low RAM behind
    the closed A20 gate. *)
Lemma top_no_mmio : no_mmio (memory_map (config view)) 0xfffff 2.
Proof.
  intros a Ha%elem_of_addresses. revert a Ha. apply Forall_forall.
  apply (bool_decide_unpack _). by vm_compute.
Defined.

Lemma sample_view_ok : view_ok view.
Proof. exact (proj1 (pc_view_ok (D := unit) [])). Qed.

Lemma view_read_bytewise_witness : view_read view 0xfffff 2 = Some (Ok ([0; 0], view)).
Proof.
  rewrite (view_read_bytewise view 0xfffff 2 sample_view_ok); [by vm_compute|lia|lia|lia|exact top_no_mmio].
Defined.

(** ROM ignores the first byte; the second wraps to address 0. *)
Lemma view_write_bytewise_witness : exists c,
  view_write view 0xfffff [0x55; 0x66] = Some (Ok (with_cells view c)) /\ c 0 = 0x66 /\ c 0xfffff = 0.
Proof.
  destruct (view_write_bytewise view 0xfffff [0x55; 0x66] sample_view_ok) as (c & Hw & Hc);
    [lia|by vm_compute|exact top_no_mmio|].
  exists c. split; [exact Hw|]. rewrite !Hc. split; by vm_compute.
Defined.
End Sample.
