(* ===== verification/Mcb.v ===== *)
(** * DOS paragraph allocation

    src/crates/dos/src/memory.rs: the arena of memory control blocks, kept in
    guest memory, and src/crates/dos/src/error.rs ([DosError]). The functions run
    on any conventional memory ([ConventionalMemory] of PhysMemory.v) and thread
    it; [None] is a panic. Sums of u16 fields are sums of [Z]: every chain the
    code builds tiles the arena ([chain_ok]), so that they stay below [END_SEGMENT]
    ([chain_fits]). *)

From S2P Require Import Prelude Bytes IoBus PhysMemory.
Local Open Scope Z_scope.

Inductive DosError : Set :=
| InvalidFunction | FileNotFound | PathNotFound | TooManyOpenFiles | AccessDenied
| InvalidHandle | MemoryCorrupted | InsufficientMemory (available : Z) | InvalidMemoryBlock
| InvalidAccess | InvalidData | InvalidDrive | CurrentDirectory | NotSameDevice
| NoMoreFiles | WriteFault | FileExists | LongFilenameNotSupported.

Definition error_code (e : DosError) : Z :=
  match e with
  | InvalidFunction => 1 | FileNotFound => 2 | PathNotFound => 3 | TooManyOpenFiles => 4
  | AccessDenied => 5 | InvalidHandle => 6 | MemoryCorrupted => 7 | InsufficientMemory _ => 8
  | InvalidMemoryBlock => 9 | InvalidAccess => 12 | InvalidData => 13 | InvalidDrive => 15
  | CurrentDirectory => 16 | NotSameDevice => 17 | NoMoreFiles => 18 | WriteFault => 29
  | FileExists => 80 | LongFilenameNotSupported => 0x7100
  end.

Definition PARAGRAPH_BYTES : Z := 16.
Definition FIRST_SEGMENT : Z := 0x1000.
Definition FIRST_MCB : Z := FIRST_SEGMENT - 1.
Definition END_SEGMENT : Z := CONVENTIONAL_MEMORY_SIZE / PARAGRAPH_BYTES.
Definition AVAILABLE_PARAGRAPHS : Z := END_SEGMENT - FIRST_SEGMENT.

Record Block := mkBlock { mcb : Z; owner : Z; paragraphs : Z }.

#[export] Instance Block_eq_dec : EqDecision Block.
Proof. solve_decision. Defined.

Definition is_free (b : Block) : bool := owner b =? 0.
Definition with_owner (o : Z) (b : Block) : Block := mkBlock (mcb b) o (paragraphs b).
Definition with_paragraphs (p : Z) (b : Block) : Block := mkBlock (mcb b) (owner b) p.

(** [blocks[index].paragraphs += 1 + next.paragraphs]. *)
Definition absorb (b next : Block) : Block := with_paragraphs (paragraphs b + (1 + paragraphs next)) b.

(** [coalesce]: the loop at block [b], with the blocks after it. *)
Fixpoint coalesce_from (b : Block) (rest : list Block) : list Block :=
  match rest with
  | [] => [b]
  | next :: rest =>
      if is_free b && is_free next then coalesce_from (absorb b next) rest
      else b :: coalesce_from next rest
  end.
Definition coalesce (blocks : list Block) : list Block :=
  match blocks with [] => [] | b :: rest => coalesce_from b rest end.

Definition split_block (b : Block) (p : Z) : list Block :=
  if p <? paragraphs b
  then [with_paragraphs p b; mkBlock (mcb b + 1 + p) 0 (paragraphs b - p - 1)]
  else [b].

Definition split (blocks : list Block) (index : nat) (p : Z) : option (list Block) :=
  b ← blocks !! index;
  Some (take index blocks ++ split_block b p ++ drop (S index) blocks).

(** [Iterator::position]. *)
Definition position {A} (f : A -> bool) (l : list A) : option nat :=
  fst <$> list_find (fun x => f x = true) l.

Definition allocated_block (blocks : list Block) (segment : Z) : result DosError nat :=
  ok_or (position (fun b => (mcb b + 1 =? segment) && negb (is_free b)) blocks) InvalidMemoryBlock.

(** [Vec::remove]. *)
Definition vec_remove {A} (l : list A) (i : nat) : option (A * list A) :=
  a ← l !! i; Some (a, delete i l).

Definition MARKER_MORE : Z := 0x4d.
Definition MARKER_LAST : Z := 0x5a.

Section Arena.
Context {V : Type} `{CM : !ConventionalMemory V CONVENTIONAL_MEMORY_SIZE}.

(** ** The chain in memory *)

Fixpoint read_chain_from (fuel : nat) (v : V) (mcb : Z) : option (result DosError (list Block)) :=
  match fuel with
  | O => None
  | S fuel =>
      header ← ram_read v (mcb * PARAGRAPH_BYTES) 5;
      let byte i := default 0 (header !! i) in
      let p := from_le_bytes [byte 3%nat; byte 4%nat] in
      let next := mcb + 1 + p in
      let last := byte 0%nat =? MARKER_LAST in
      if negb ((byte 0%nat =? MARKER_MORE) || (byte 0%nat =? MARKER_LAST)) || (END_SEGMENT <? next)
         || negb (eqb last (next =? END_SEGMENT))
      then Some (Err MemoryCorrupted) else
      let block := mkBlock mcb (from_le_bytes [byte 1%nat; byte 2%nat]) p in
      if last then Some (Ok [block]) else
      rest ← read_chain_from fuel v next;
      Some (blocks ← rest; Ok (block :: blocks))
  end.

(** Every step moves on, so the paragraphs of the arena bound the steps. *)
Definition read_chain (v : V) : option (result DosError (list Block)) :=
  read_chain_from (Z.to_nat (END_SEGMENT - FIRST_MCB)) v FIRST_MCB.

Fixpoint write_chain (v : V) (blocks : list Block) : option V :=
  match blocks with
  | [] => Some v
  | b :: rest =>
      let marker := match rest with [] => MARKER_LAST | _ => MARKER_MORE end in
      v ← ram_write v (mcb b * PARAGRAPH_BYTES)
        (marker :: to_le_bytes 2 (owner b) ++ to_le_bytes 2 (paragraphs b));
      write_chain v rest
  end.

(** ** Operations *)

Definition reset (v : V) : option V :=
  write_chain v [mkBlock FIRST_MCB 0 AVAILABLE_PARAGRAPHS].

(** [max().unwrap_or(0)] of the free sizes. *)
Definition largest_free (blocks : list Block) : Z :=
  foldr Z.max 0 (paragraphs <$> filter (fun b => is_free b = true) blocks).

Definition allocate (v : V) (p o : Z) : option (result DosError Z * V) :=
  chain ← read_chain v;
  match chain with
  | Err e => Some (Err e, v)
  | Ok blocks =>
      let blocks := coalesce blocks in
      match position (fun b => is_free b && (p <=? paragraphs b)) blocks with
      | None => Some (Err (InsufficientMemory (largest_free blocks)), v)
      | Some index =>
          blocks ← split blocks index p;
          let blocks := alter (with_owner o) index blocks in
          b ← blocks !! index;
          v ← write_chain v blocks;
          Some (Ok (mcb b + 1), v)
      end
  end.

Definition free (v : V) (segment : Z) : option (result DosError unit * V) :=
  chain ← read_chain v;
  match blocks ← chain; index ← allocated_block blocks segment; Ok (blocks, index) with
  | Err e => Some (Err e, v)
  | Ok (blocks, index) =>
      let blocks := coalesce (alter (with_owner 0) index blocks) in
      v ← write_chain v blocks;
      Some (Ok tt, v)
  end.

Definition resize (v : V) (segment p : Z) : option (result DosError unit * V) :=
  chain ← read_chain v;
  match blocks ← chain;
        let blocks := coalesce blocks in
        index ← allocated_block blocks segment; Ok (blocks, index) with
  | Err e => Some (Err e, v)
  | Ok (blocks, index) =>
      b ← blocks !! index;
      blocks ← (if (paragraphs b <? p) && match blocks !! S index with Some next => is_free next | None => false end
        then '(next, blocks) ← vec_remove blocks (S index);
             Some (alter (fun b => absorb b next) index blocks)
        else Some blocks);
      b ← blocks !! index;
      let available := paragraphs b in
      '(result, blocks) ← (if available <? p then Some (Err (InsufficientMemory available), blocks)
        else blocks ← split blocks index p; Some (Ok tt, blocks));
      v ← write_chain v (coalesce blocks);
      Some (result, v)
  end.
End Arena.

(** ** Chains that tile the arena *)

Fixpoint tiles (a : Z) (blocks : list Block) : Prop :=
  match blocks with
  | [] => a = END_SEGMENT
  | b :: rest => mcb b = a /\ 0 <= paragraphs b /\ fits 16 (owner b) /\ tiles (a + 1 + paragraphs b) rest
  end.

Definition chain_ok (blocks : list Block) : Prop := tiles FIRST_MCB blocks.

Lemma tiles_end a blocks : tiles a blocks -> a <= END_SEGMENT.
Proof.
  revert a. induction blocks as [|b blocks IH]; cbn; intros a; [lia|]. intros (_ & ? & _ & H%IH). lia.
Qed.

Lemma tiles_app l : forall a r, tiles a (l ++ r) <->
  exists m, tiles m r /\ a <= m /\ forall r', tiles m r' -> tiles a (l ++ r').
Proof.
  induction l as [|b l IH]; intros a r; cbn.
  - split; [intros; exists a; split_and!; [done|lia|done]|intros (m & ? & ? & H); by apply H].
  - rewrite IH. split.
    + intros (? & ? & ? & m & ? & ? & H). exists m. split_and!; [done|lia|]. intros. split_and!; auto.
    + intros (m & Hr & Hle & H). destruct (H r Hr) as (? & ? & ? & Hl%IH). destruct Hl as (m' & ? & ? & ?).
      split_and!; [done..|]. by exists m'.
Qed.

Lemma tiles_elem a blocks b : tiles a blocks -> b ∈ blocks ->
  a <= mcb b /\ 0 <= paragraphs b /\ fits 16 (owner b) /\ mcb b + 1 + paragraphs b <= END_SEGMENT.
Proof.
  revert a. induction blocks as [|x blocks IH]; intros a Ht Hin; [by apply not_elem_of_nil in Hin|].
  destruct Ht as (Hm & Hp & Ho & Ht). apply elem_of_cons in Hin as [->|Hin].
  - apply tiles_end in Ht. split_and!; [lia|done..|lia].
  - apply (IH _ Ht) in Hin as (? & ? & ? & ?). split_and!; [lia|done..].
Qed.

(** Every field of a chain is a u16, and no sum of the code overflows one. *)
Lemma chain_fits blocks b : chain_ok blocks -> b ∈ blocks ->
  fits 16 (mcb b) /\ fits 16 (owner b) /\ fits 16 (paragraphs b) /\ fits 16 (mcb b + 1 + paragraphs b).
Proof.
  intros Hc Hin. destruct (tiles_elem _ _ _ Hc Hin) as (? & ? & ? & ?).
  assert (END_SEGMENT = 0xa000) as HE by done. assert (FIRST_MCB = 0xfff) as HF by done.
  unfold fits in *. change (2 ^ 16) with 65536 in *. rewrite HE, HF in *. split_and!; lia.
Qed.

(** ** Chains in memory *)

Section Memory.
Context {V : Type} `{CM : !ConventionalMemory V CONVENTIONAL_MEMORY_SIZE}.
#[local] Set Default Proof Using "All".

Definition header_bytes (b : Block) (last : bool) : list Z :=
  (if last then MARKER_LAST else MARKER_MORE) :: to_le_bytes 2 (owner b) ++ to_le_bytes 2 (paragraphs b).

Definition header_of (v : V) (m : Z) : list Z := ram_byte v <$> addresses (m * PARAGRAPH_BYTES) 5.

Fixpoint stored (v : V) (blocks : list Block) : Prop :=
  match blocks with
  | [] => True
  | b :: rest => header_of v (mcb b) = header_bytes b (bool_decide (rest = [])) /\ stored v rest
  end.

Definition in_header (b : Block) (x : Z) : Prop :=
  mcb b * PARAGRAPH_BYTES <= x < mcb b * PARAGRAPH_BYTES + 5.

Lemma header_bytes_ok b last : bytes_ok (header_bytes b last).
Proof. constructor; [by destruct last|]. apply Forall_app; split; apply to_le_bytes_ok. Qed.

Lemma length_header_bytes b last : length (header_bytes b last) = 5%nat.
Proof. done. Qed.

Lemma arena_in_ram m : FIRST_MCB <= m -> m + 1 <= END_SEGMENT ->
  0 <= m * PARAGRAPH_BYTES /\ m * PARAGRAPH_BYTES + 5 <= CONVENTIONAL_MEMORY_SIZE.
Proof.
  assert (END_SEGMENT = 0xa000) as -> by done. assert (FIRST_MCB = 0xfff) as -> by done.
  unfold PARAGRAPH_BYTES, CONVENTIONAL_MEMORY_SIZE. lia.
Qed.

Lemma stored_frame v v' blocks : (forall b x, b ∈ blocks -> in_header b x -> ram_byte v' x = ram_byte v x) ->
  stored v blocks -> stored v' blocks.
Proof.
  induction blocks as [|b blocks IH]; intros Hf Hs; [done|]. destruct Hs as [Hh Hs]. split.
  - rewrite <- Hh. apply list_fmap_ext. intros i x Hx%list_elem_of_lookup_2%elem_of_addresses.
    apply (Hf b); [by left|]. unfold in_header. lia.
  - apply IH; [|done]. intros b' x Hb'. apply Hf. by right.
Qed.

Lemma write_chain_spec blocks : forall v a, ram_ok v -> FIRST_MCB <= a -> tiles a blocks ->
  exists v', write_chain v blocks = Some v' /\ ram_ok v' /\ stored v' blocks /\
    forall x, 0 <= x < CONVENTIONAL_MEMORY_SIZE -> (forall b, b ∈ blocks -> ~ in_header b x) -> ram_byte v' x = ram_byte v x.
Proof.
  induction blocks as [|b blocks IH]; intros v a Hv Ha Ht; [by exists v|].
  destruct Ht as (Hm & Hp & Ho & Ht). pose proof (tiles_end _ _ Ht) as Hend.
  destruct (arena_in_ram a) as [Hlo Hhi]; [lia..|]. cbn [write_chain].
  assert ((match blocks with [] => MARKER_LAST | _ => MARKER_MORE end :: to_le_bytes 2 (owner b) ++ to_le_bytes 2 (paragraphs b))
    = header_bytes b (bool_decide (blocks = []))) as -> by (by destruct blocks).
  destruct (ram_write_spec v (mcb b * PARAGRAPH_BYTES) (header_bytes b (bool_decide (blocks = []))))
    as (v1 & -> & Hv1 & Hw); [done|lia|rewrite length_header_bytes; lia|apply header_bytes_ok|].
  rewrite length_header_bytes in Hw. cbn [mbind option_bind].
  destruct (IH v1 (a + 1 + paragraphs b)) as (v2 & -> & Hv2 & Hs & Hf); [done|lia|done|].
  assert (forall x, in_header b x -> forall b', b' ∈ blocks -> ~ in_header b' x) as Hdisj.
  { intros x Hx b' Hb' Hx'. apply (tiles_elem _ _ _ Ht) in Hb' as (? & _). unfold in_header, PARAGRAPH_BYTES in *. lia. }
  exists v2. split_and!; [done..| |].
  - split; [|done]. apply list_eq. intros i. unfold header_of. rewrite list_lookup_fmap.
    destruct (decide (i < 5)%nat) as [Hi|].
    + rewrite lookup_addresses by done. cbn [fmap option_fmap option_map].
      rewrite Hf by first [lia | apply Hdisj; unfold in_header; lia]. rewrite Hw by lia.
      rewrite (proj2 (Z.leb_le _ _)), (proj2 (Z.ltb_lt _ _)) by lia. cbn [andb].
      replace (Z.to_nat _) with i by lia.
      by destruct (lookup_lt_is_Some_2 (header_bytes b (bool_decide (blocks = []))) i) as [y ->].
    + rewrite !lookup_ge_None_2; [done|rewrite length_header_bytes; lia|rewrite length_addresses; lia].
  - intros x Hx Hn. rewrite Hf by (done || (intros b' Hb'; apply Hn; by right)). rewrite Hw by done.
    specialize (Hn b ltac:(by left)). unfold in_header in Hn.
    destruct (Z.leb_spec (mcb b * PARAGRAPH_BYTES) x), (Z.ltb_spec x (mcb b * PARAGRAPH_BYTES + Z.of_nat 5)); cbn [andb]; (lia || done).
Qed.

Lemma read_header v a : ram_ok v -> FIRST_MCB <= a -> a + 1 <= END_SEGMENT ->
  ram_read v (a * PARAGRAPH_BYTES) 5 = Some (header_of v a) /\ bytes_ok (header_of v a).
Proof.
  intros Hv Ha He. destruct (arena_in_ram a) as [? ?]; [lia..|]. split; [by apply ram_read_spec|].
  apply Forall_fmap, Forall_forall. intros x Hx%elem_of_addresses. cbn. apply ram_byte_fits; [done|lia].
Qed.

Lemma read_chain_stored v blocks : forall fuel a, ram_ok v -> FIRST_MCB <= a -> a < END_SEGMENT ->
  END_SEGMENT - a <= Z.of_nat fuel -> tiles a blocks -> stored v blocks -> read_chain_from fuel v a = Some (Ok blocks).
Proof.
  induction blocks as [|b blocks IH]; intros fuel a Hv Ha Hlt Hf Ht Hs; [cbn in Ht; lia|].
  destruct Ht as (<- & Hp & Ho & Ht), Hs as [Hh Hs]. pose proof (tiles_end _ _ Ht) as Hend.
  destruct fuel as [|fuel]; [lia|]. cbn [read_chain_from].
  destruct (read_header v (mcb b)) as [-> _]; [done|lia..|]. rewrite Hh. cbn [mbind option_bind].
  assert (fits 16 (paragraphs b)) as Hp16.
  { assert (FIRST_MCB = 0xfff /\ END_SEGMENT = 0xa000) as [? ?] by done. split; [lia|]. change (2 ^ 16) with 65536. lia. }
  assert (forall l, let h := header_bytes b l in
    from_le_bytes [default 0 (h !! 3%nat); default 0 (h !! 4%nat)] = paragraphs b /\
    from_le_bytes [default 0 (h !! 1%nat); default 0 (h !! 2%nat)] = owner b) as Hfields.
  { intros l. split; by apply (from_to_le_bytes 2). }
  cbv zeta in *. destruct (Hfields (bool_decide (blocks = []))) as [-> ->].
  rewrite (proj2 (Z.ltb_ge _ _)) by lia.
  destruct blocks as [|b' blocks].
  - cbn in Ht. rewrite Ht, Z.eqb_refl. cbn. by destruct b.
  - assert (mcb b + 1 + paragraphs b < END_SEGMENT) as Hnext.
    { destruct Ht as (? & ? & _ & Ht'%tiles_end). lia. }
    rewrite (proj2 (Z.eqb_neq (mcb b + 1 + paragraphs b) END_SEGMENT)) by lia. cbn -[read_chain_from].
    rewrite IH by (done || lia). by destruct b.
Qed.

Lemma read_chain_total v fuel : forall a, ram_ok v -> FIRST_MCB <= a -> a < END_SEGMENT -> END_SEGMENT - a <= Z.of_nat fuel ->
  exists r, read_chain_from fuel v a = Some r /\ forall blocks, r = Ok blocks -> tiles a blocks.
Proof.
  induction fuel as [|fuel IH]; intros a Hv Ha Hlt Hf; [lia|]. cbn [read_chain_from].
  destruct (read_header v a) as [-> Hok]; [done|lia..|]. cbn [mbind option_bind].
  assert (forall i, fits 8 (default 0 (header_of v a !! i))) as Hbyte.
  { intros i. destruct (header_of v a !! i) as [x|] eqn:E; cbn; [by eapply Forall_lookup_1 in Hok|done]. }
  set (p := from_le_bytes _). assert (fits 16 p) as Hp.
  { apply (from_le_bytes_fits _ 2); [|done]. repeat constructor; apply Hbyte. }
  set (o := from_le_bytes _). assert (fits 16 o) as Ho.
  { apply (from_le_bytes_fits _ 2); [|done]. repeat constructor; apply Hbyte. }
  cbv zeta. destruct (_ || _ || _) eqn:E; [by eexists|]. destruct Hp as [Hp _].
  apply orb_false_iff in E as [[_ Hle]%orb_false_iff Heq]. apply Z.ltb_ge in Hle. apply negb_false_iff, eqb_prop in Heq.
  rewrite Heq. destruct (Z.eqb_spec (a + 1 + p) END_SEGMENT) as [Hlast|].
  - eexists. split; [done|]. intros blocks [= <-]. cbn [tiles mcb owner paragraphs]. by split_and!.
  - destruct (IH (a + 1 + p)) as (r & -> & Hr); [done|lia..|]. cbn [mbind option_bind].
    eexists. split; [done|]. intros blocks. destruct r as [rest|]; cbn; [|done]. intros [= <-].
    cbn [tiles mcb owner paragraphs]. split_and!; auto.
Qed.

Lemma ok_cons_inj (b b' : Block) l l' : Some (Ok (E := DosError) (b :: l)) = Some (Ok (b' :: l')) -> b = b' /\ l = l'.
Proof. intros H. by injection H. Qed.

(** Reading depends on the headers of the chain only. *)
Lemma read_chain_frame v v' fuel : forall a blocks, ram_ok v -> ram_ok v' -> FIRST_MCB <= a ->
  read_chain_from fuel v a = Some (Ok blocks) -> tiles a blocks ->
  (forall b x, b ∈ blocks -> in_header b x -> ram_byte v' x = ram_byte v x) ->
  read_chain_from fuel v' a = read_chain_from fuel v a.
Proof.
  induction fuel as [|fuel IH]; intros a blocks Hv Hv' Ha Hread Ht Hf; [done|].
  destruct blocks as [|b blocks].
  { exfalso. cbn [read_chain_from] in Hread. destruct (ram_read v _ 5) as [h|]; [|done].
    cbn [mbind option_bind] in Hread. cbv zeta in Hread. destruct (_ || _ || _); [done|].
    destruct (_ =? MARKER_LAST); [done|]. by destruct (read_chain_from fuel v _) as [[]|]. }
  pose proof Ht as (Hm & Hp & _ & Ht'). pose proof (tiles_end _ _ Ht').
  cbn [read_chain_from] in *. destruct (read_header v a) as [Hr _]; [done|lia..|].
  destruct (read_header v' a) as [Hr' _]; [done|lia..|]. rewrite Hr'. rewrite Hr in Hread |- *.
  assert (header_of v' a = header_of v a) as ->.
  { apply list_fmap_ext. intros i x Hx%list_elem_of_lookup_2%elem_of_addresses. apply (Hf b); [by left|].
    unfold in_header. lia. }
  cbn [mbind option_bind] in *. cbv zeta in *. destruct (_ || _ || _); [done|].
  destruct (_ =? MARKER_LAST); [done|].
  destruct (read_chain_from fuel v _) as [[rest|]|] eqn:E; [|done..].
  cbn [mbind option_bind result_bind] in Hread. apply ok_cons_inj in Hread as [<- ->].
  cbn [paragraphs] in *. rewrite (IH _ blocks); [by rewrite E|done|done|lia|done|done|].
  intros b' x Hb'. apply Hf. by right.
Qed.

Definition chain_at (v : V) (blocks : list Block) : Prop := read_chain v = Some (Ok blocks).

Lemma chain_at_ok v blocks : ram_ok v -> chain_at v blocks -> chain_ok blocks.
Proof.
  intros Hv H. destruct (read_chain_total v (Z.to_nat (END_SEGMENT - FIRST_MCB)) FIRST_MCB) as (r & Hr & Ht); [done..|].
  unfold chain_at, read_chain in H. rewrite Hr in H. simplify_eq. by apply Ht.
Qed.

(** Writing a tiling stores it and leaves everything but its headers. *)
Lemma write_chain_at v blocks : ram_ok v -> chain_ok blocks ->
  exists v', write_chain v blocks = Some v' /\ ram_ok v' /\ chain_at v' blocks /\
    forall x, 0 <= x < CONVENTIONAL_MEMORY_SIZE -> (forall b, b ∈ blocks -> ~ in_header b x) -> ram_byte v' x = ram_byte v x.
Proof.
  intros Hv Hc. destruct (write_chain_spec blocks v FIRST_MCB) as (v' & ? & ? & ? & ?); [done..|].
  exists v'. split_and!; [done..| |done]. by apply read_chain_stored.
Qed.
End Memory.

(** ** The abstract arena

    The allocated blocks in address order; every gap between them is free. *)

Definition allocated (blocks : list Block) : list Block := filter (fun b => is_free b = false) blocks.

Fixpoint arena_ok (a : Z) (A : list Block) : Prop :=
  match A with
  | [] => a <= END_SEGMENT
  | b :: A => a <= mcb b /\ 0 <= paragraphs b /\ fits 16 (owner b) /\ owner b <> 0 /\ arena_ok (mcb b + 1 + paragraphs b) A
  end.

(** The free block of a gap [a, e). *)
Definition gap (a e : Z) : list Block := if a <? e then [mkBlock a 0 (e - a - 1)] else [].
Definition gap_size (a e : Z) : Z := e - a - 1.

(** The chain with one block per gap. *)
Fixpoint canonical (a : Z) (A : list Block) : list Block :=
  match A with
  | [] => gap a END_SEGMENT
  | b :: A => gap a (mcb b) ++ b :: canonical (mcb b + 1 + paragraphs b) A
  end.

Lemma is_free_owner b : is_free b = true -> b = mkBlock (mcb b) 0 (paragraphs b).
Proof. unfold is_free. intros H%Z.eqb_eq. destruct b; cbn in *. by subst. Qed.

Lemma allocated_cons b l : allocated (b :: l) = (if is_free b then [] else [b]) ++ allocated l.
Proof. unfold allocated. rewrite filter_cons. destruct (is_free b) eqn:E; by rewrite ?decide_True, ?decide_False by done. Qed.

Lemma allocated_app l r : allocated (l ++ r) = allocated l ++ allocated r.
Proof. unfold allocated. by rewrite filter_app. Qed.

Lemma allocated_gap a e : allocated (gap a e) = [].
Proof. unfold gap. by destruct (a <? e). Qed.

Lemma allocated_canonical A : forall a, arena_ok a A -> allocated (canonical a A) = A.
Proof.
  induction A as [|b A IH]; intros a H; cbn [canonical]; [apply allocated_gap|].
  destruct H as (_ & _ & _ & Ho & H). rewrite allocated_app, allocated_gap, allocated_cons, IH by done.
  unfold is_free. by rewrite (proj2 (Z.eqb_neq _ _)).
Qed.

Lemma arena_weaken a a' A : a' <= a -> arena_ok a A -> arena_ok a' A.
Proof. destruct A; cbn; [lia|]. intros ? (? & ?). split; [lia|done]. Qed.

Lemma tiles_arena blocks : forall a, tiles a blocks -> arena_ok a (allocated blocks).
Proof.
  induction blocks as [|b blocks IH]; intros a H; [cbn in *; lia|]. rewrite allocated_cons.
  destruct H as (Hm & Hp & Ho & H%IH). destruct (is_free b) eqn:E; cbn.
  - eapply arena_weaken; [|done]. lia.
  - unfold is_free in E. apply Z.eqb_neq in E. split_and!; [lia|done..|by rewrite Hm].
Qed.

Lemma tiles_gap a e rest : a <= e -> tiles e rest -> tiles a (gap a e ++ rest).
Proof.
  intros Hle H. unfold gap. destruct (Z.ltb_spec a e); cbn.
  - split_and!; [done|lia|done|]. by replace (a + 1 + (e - a - 1)) with e by lia.
  - by replace a with e by lia.
Qed.

Lemma tiles_canonical A : forall a, arena_ok a A -> tiles a (canonical a A).
Proof.
  induction A as [|b A IH]; intros a H; cbn [canonical].
  - rewrite <- (app_nil_r (gap _ _)). by apply tiles_gap.
  - destruct H as (? & ? & ? & ? & H). apply tiles_gap; [done|]. cbn. split_and!; [done..|]. by apply IH.
Qed.

Lemma gap_refl a : gap a a = [].
Proof. unfold gap. by rewrite Z.ltb_irrefl. Qed.

Lemma gap_lt a e : a < e -> gap a e = [mkBlock a 0 (gap_size a e)].
Proof. intros H%Z.ltb_lt. unfold gap. by rewrite H. Qed.

(** Coalescing keeps what is allocated and makes every gap one block. *)
Lemma coalesce_from_canonical rest : forall b, tiles (mcb b) (b :: rest) ->
  coalesce_from b rest = canonical (mcb b) (allocated (b :: rest)).
Proof.
  induction rest as [|next rest IH]; intros b Ht; cbn [coalesce_from]; rewrite !allocated_cons.
  - destruct Ht as (_ & Hp & _ & Ht). cbn in Ht. destruct (is_free b) eqn:E; cbn.
    + rewrite gap_lt by lia. rewrite (is_free_owner b) at 1 by done. repeat f_equal. unfold gap_size. lia.
    + by rewrite gap_refl, Ht, gap_refl.
  - destruct Ht as (_ & Hp & Ho & Hm' & Hp' & Ho' & Ht).
    destruct (is_free b) eqn:E; cbn [andb].
    + destruct (is_free next) eqn:E'; cbn [app].
      * rewrite IH.
        2: { cbn [tiles absorb with_paragraphs mcb paragraphs owner]. split_and!; [done|lia|done|].
          by replace (mcb b + 1 + (paragraphs b + (1 + paragraphs next)))
            with (mcb b + 1 + paragraphs b + 1 + paragraphs next) by lia. }
        rewrite allocated_cons. change (is_free (absorb b next)) with (is_free b). by rewrite E.
      * rewrite IH by (rewrite Hm'; done). rewrite allocated_cons, E'. cbn [app canonical].
        rewrite gap_refl, (gap_lt (mcb b)) by lia. cbn [app]. rewrite (is_free_owner b) at 1 by done.
        repeat f_equal. unfold gap_size. lia.
    + rewrite IH by (rewrite Hm'; done). rewrite allocated_cons. cbn [app canonical].
      by rewrite gap_refl, Hm'.
Qed.

Lemma coalesce_canonical blocks : chain_ok blocks -> coalesce blocks = canonical FIRST_MCB (allocated blocks).
Proof.
  intros H. destruct blocks as [|b rest]; [done|]. pose proof H as [Hm _]. unfold chain_ok in H.
  rewrite <- Hm in H |- *. by apply coalesce_from_canonical.
Qed.

Definition data_of (b : Block) (x : Z) : Prop :=
  (mcb b + 1) * PARAGRAPH_BYTES <= x < (mcb b + 1 + paragraphs b) * PARAGRAPH_BYTES.

(** Headers and data of one chain are apart. *)
Lemma header_not_data blocks : forall a b b' x, tiles a blocks -> b ∈ blocks -> b' ∈ blocks ->
  data_of b x -> ~ in_header b' x.
Proof.
  induction blocks as [|y blocks IH]; intros a b b' x Ht Hb Hb' Hd Hh; [by apply not_elem_of_nil in Hb|].
  destruct Ht as (Hm & Hp & Ho & Ht). unfold data_of, in_header, PARAGRAPH_BYTES in *.
  apply elem_of_cons in Hb as [->|Hb], Hb' as [->|Hb'].
  - lia.
  - apply (tiles_elem _ _ _ Ht) in Hb' as (? & _). lia.
  - apply (tiles_elem _ _ _ Ht) in Hb as (? & _). lia.
  - by eapply (IH _ b b' x).
Qed.

(** ** Specification of the operations on the abstract arena *)

(** The first gap that fits. *)
Fixpoint spec_allocate (a : Z) (A : list Block) (p o : Z) : option (Z * list Block) :=
  match A with
  | [] => if (a <? END_SEGMENT) && (p <=? gap_size a END_SEGMENT) then Some (a + 1, [mkBlock a o p]) else None
  | b :: A =>
      if (a <? mcb b) && (p <=? gap_size a (mcb b)) then Some (a + 1, mkBlock a o p :: b :: A) else
      '(segment, A) ← spec_allocate (mcb b + 1 + paragraphs b) A p o; Some (segment, b :: A)
  end.

(** The largest gap, zero if there is none. *)
Fixpoint spec_largest (a : Z) (A : list Block) : Z :=
  match A with
  | [] => if a <? END_SEGMENT then Z.max (gap_size a END_SEGMENT) 0 else 0
  | b :: A => let rest := spec_largest (mcb b + 1 + paragraphs b) A in
      if a <? mcb b then Z.max (gap_size a (mcb b)) rest else rest
  end.

(** The block of a segment, with its neighbours. *)
Fixpoint spec_find (A : list Block) (segment : Z) : option (list Block * Block * list Block) :=
  match A with
  | [] => None
  | b :: A =>
      if mcb b + 1 =? segment then Some ([], b, A)
      else '(l, x, r) ← spec_find A segment; Some (b :: l, x, r)
  end.

(** What a block may grow to: up to the next allocated block. *)
Definition spec_room (b : Block) (r : list Block) : Z :=
  match r with [] => END_SEGMENT | next :: _ => mcb next end - mcb b - 1.

Definition spec_free (A : list Block) (segment : Z) : result DosError (list Block) :=
  match spec_find A segment with
  | Some (l, _, r) => Ok (l ++ r)
  | None => Err InvalidMemoryBlock
  end.

(** The outcome, and the arena after it. *)
Definition spec_resize (A : list Block) (segment p : Z) : result DosError unit * list Block :=
  match spec_find A segment with
  | Some (l, b, r) =>
      let room := spec_room b r in
      if p <=? room then (Ok tt, l ++ with_paragraphs p b :: r)
      else (Err (InsufficientMemory room), l ++ with_paragraphs room b :: r)
  | None => (Err InvalidMemoryBlock, A)
  end.

(** ** The code on canonical chains *)

Lemma position_cons {A} (f : A -> bool) x l :
  position f (x :: l) = if f x then Some 0%nat else S <$> position f l.
Proof.
  unfold position. cbn [list_find]. destruct (f x) eqn:E.
  - by rewrite decide_True.
  - rewrite decide_False by done. by destruct (list_find _ l) as [[]|].
Qed.

(** [position], [split] and the assignment of the owner in one traversal. *)
Fixpoint place (blocks : list Block) (p o : Z) : option (Z * list Block) :=
  match blocks with
  | [] => None
  | b :: rest =>
      if is_free b && (p <=? paragraphs b)
      then Some (mcb b + 1, alter (with_owner o) 0%nat (split_block b p) ++ rest)
      else '(segment, rest) ← place rest p o; Some (segment, b :: rest)
  end.

Lemma split_cons b blocks i p : split (b :: blocks) (S i) p = cons b <$> split blocks i p.
Proof. unfold split. cbn. by destruct (blocks !! i). Qed.

Lemma place_position blocks p o :
  match position (fun b => is_free b && (p <=? paragraphs b)) blocks with
  | None => place blocks p o = None
  | Some i => exists chain b, split blocks i p = Some chain /\ alter (with_owner o) i chain !! i = Some b /\
      place blocks p o = Some (mcb b + 1, alter (with_owner o) i chain)
  end.
Proof.
  induction blocks as [|b blocks IH]; [done|]. rewrite position_cons. cbn [place].
  destruct (is_free b && (p <=? paragraphs b)).
  - unfold split. cbn. rewrite drop_0. unfold split_block. destruct (p <? paragraphs b); eexists _, _; by split_and!.
  - destruct (position _ blocks) as [i|]; cbn [fmap option_fmap option_map].
    + destruct IH as (chain & x & Hs & Hx & Hp). exists (b :: chain), x.
      rewrite split_cons, Hs, Hp. by split_and!.
    + by rewrite IH.
Qed.

Lemma place_free b rest p o : is_free b = true ->
  place (b :: rest) p o = if p <=? paragraphs b
    then Some (mcb b + 1, alter (with_owner o) 0%nat (split_block b p) ++ rest)
    else '(segment, rest) ← place rest p o; Some (segment, b :: rest).
Proof. intros H. cbn [place]. by rewrite H. Qed.

(** The chain that placing in a gap leaves. *)
Lemma split_gap a e p o : a < e -> 0 <= p <= gap_size a e ->
  alter (with_owner o) 0%nat (split_block (mkBlock a 0 (gap_size a e)) p) = mkBlock a o p :: gap (a + 1 + p) e.
Proof.
  unfold gap_size, split_block. intros H Hp. cbn [paragraphs]. destruct (Z.ltb_spec p (e - a - 1)).
  - rewrite gap_lt by lia. unfold gap_size. by replace (e - (a + 1 + p) - 1) with (e - a - 1 - p - 1) by lia.
  - replace (a + 1 + p) with e by lia. rewrite gap_refl. by replace (e - a - 1) with p by lia.
Qed.

Lemma allocated_placed a e p o rest : o <> 0 ->
  allocated ((mkBlock a o p :: gap (a + 1 + p) e) ++ rest) = mkBlock a o p :: allocated rest.
Proof.
  intros Ho. cbn [app]. rewrite allocated_cons, allocated_app, allocated_gap.
  unfold is_free. cbn [owner]. by rewrite (proj2 (Z.eqb_neq _ _)).
Qed.

Lemma tiles_placed a e p o rest : fits 16 o -> a < e -> 0 <= p <= gap_size a e -> tiles e rest ->
  tiles a ((mkBlock a o p :: gap (a + 1 + p) e) ++ rest).
Proof.
  unfold gap_size. intros Ho He Hp Ht. cbn [app tiles mcb owner paragraphs]. split_and!; [done|lia|done|].
  apply tiles_gap; [lia|done].
Qed.

(** What an insertion does to the arena. *)
Definition placed (a : Z) (A : list Block) (p o : Z) (r : option (Z * list Block)) : Prop :=
  match r with
  | None => spec_allocate a A p o = None
  | Some (segment, chain) => spec_allocate a A p o = Some (segment, allocated chain) /\ tiles a chain
  end.

Lemma place_gap a e p o rest A : fits 16 o -> o <> 0 -> 0 <= p -> a <= e -> tiles e rest -> allocated rest = A ->
  place (gap a e ++ rest) p o =
  if (a <? e) && (p <=? gap_size a e) then Some (a + 1, (mkBlock a o p :: gap (a + 1 + p) e) ++ rest)
  else '(segment, rest) ← place rest p o; Some (segment, gap a e ++ rest).
Proof.
  intros Ho Hn Hp Hle Ht HA. destruct (Z.ltb_spec a e).
  - rewrite (gap_lt a e) by done. cbn [app andb]. rewrite place_free by done. cbn [mcb paragraphs].
    destruct (Z.leb_spec p (gap_size a e)); [|done]. by rewrite split_gap.
  - unfold gap. rewrite (proj2 (Z.ltb_ge a e)) by done. cbn [app andb]. by destruct (place rest p o) as [[]|].
Qed.

Lemma place_canonical A p o : fits 16 o -> o <> 0 -> 0 <= p -> forall a, arena_ok a A ->
  placed a A p o (place (canonical a A) p o).
Proof.
  intros Ho Hn Hp. induction A as [|b A IH]; intros a H; cbn [canonical spec_allocate].
  - rewrite <- (app_nil_r (gap _ _)), (place_gap a END_SEGMENT p o [] []) by done. unfold placed. cbn [spec_allocate].
    destruct (Z.ltb_spec a END_SEGMENT); cbn [andb]; [|done]. destruct (Z.leb_spec p (gap_size a END_SEGMENT)); [|done].
    split; [by rewrite allocated_placed|by apply tiles_placed].
  - destruct H as (Ha & Hpb & Hob & Hnb & H).
    assert (tiles (mcb b) (b :: canonical (mcb b + 1 + paragraphs b) A)) as Ht.
    { cbn. split_and!; [done..|]. by apply tiles_canonical. }
    assert (allocated (b :: canonical (mcb b + 1 + paragraphs b) A) = b :: A) as HA.
    { rewrite allocated_cons, allocated_canonical by done. unfold is_free. by rewrite (proj2 (Z.eqb_neq _ _)). }
    rewrite (place_gap a (mcb b) p o _ (b :: A)) by done. unfold placed. cbn [spec_allocate].
    destruct (Z.ltb_spec a (mcb b)), (Z.leb_spec p (gap_size a (mcb b))); cbn [andb].
    1: { split; [by rewrite allocated_placed, HA|by apply tiles_placed]. }
    all: specialize (IH _ H); cbn [place]; unfold is_free at 1; rewrite (proj2 (Z.eqb_neq _ _)) by done; cbn [andb];
      destruct (place (canonical _ A) p o) as [[segment chain]|]; cbn [mbind option_bind] in *;
      [|by unfold placed in IH; rewrite IH]; destruct IH as [-> Hchain]; cbn [mbind option_bind];
      (split; [|apply tiles_gap; [done|]; cbn; by split_and!]);
      rewrite allocated_app, allocated_gap, allocated_cons; unfold is_free; by rewrite (proj2 (Z.eqb_neq _ _)).
Qed.

Lemma largest_free_cons b l :
  largest_free (b :: l) = if is_free b then Z.max (paragraphs b) (largest_free l) else largest_free l.
Proof. unfold largest_free. rewrite filter_cons. destruct (is_free b); by rewrite ?decide_True, ?decide_False by done. Qed.

Lemma largest_free_gap a e l :
  largest_free (gap a e ++ l) = if a <? e then Z.max (gap_size a e) (largest_free l) else largest_free l.
Proof. unfold gap. destruct (a <? e); [|done]. cbn [app]. by rewrite largest_free_cons. Qed.

Lemma largest_free_canonical A : forall a, arena_ok a A -> largest_free (canonical a A) = spec_largest a A.
Proof.
  induction A as [|b A IH]; intros a H; cbn [canonical spec_largest].
  - rewrite <- (app_nil_r (gap _ _)), largest_free_gap. done.
  - destruct H as (_ & _ & _ & Hn & H). rewrite largest_free_gap, largest_free_cons, IH by done.
    unfold is_free. by rewrite (proj2 (Z.eqb_neq _ _)).
Qed.

Lemma allocated_block_find blocks segment :
  match allocated_block blocks segment with
  | Err e => e = InvalidMemoryBlock /\ spec_find (allocated blocks) segment = None
  | Ok i => exists l b r, blocks = l ++ b :: r /\ i = length l /\ is_free b = false /\
      spec_find (allocated blocks) segment = Some (allocated l, b, allocated r)
  end.
Proof.
  unfold allocated_block. induction blocks as [|b blocks IH]; [by split|].
  rewrite position_cons, allocated_cons. destruct (is_free b) eqn:Hb; cbn [negb app].
  - rewrite andb_false_r. destruct (position _ blocks) as [i|]; cbn in *; [|done].
    destruct IH as (l & x & r & -> & -> & Hx & Hf). exists (b :: l), x, r.
    rewrite allocated_cons, Hb. by split_and!.
  - rewrite andb_true_r. cbn [spec_find]. destruct (mcb b + 1 =? segment).
    + exists [], b, blocks. by split_and!.
    + destruct (position _ blocks) as [i|]; cbn in *.
      * destruct IH as (l & x & r & -> & -> & Hx & Hf). exists (b :: l), x, r.
        rewrite Hf, allocated_cons, Hb. by split_and!.
      * destruct IH as [? ->]. done.
Qed.

Lemma alter_middle {A} (f : A -> A) l x r : alter f (length l) (l ++ x :: r) = l ++ f x :: r.
Proof. induction l; cbn; [done|]. by f_equal. Qed.

Lemma lookup_middle {A} (l : list A) x r : (l ++ x :: r) !! length l = Some x.
Proof. by apply list_lookup_middle. Qed.

Lemma lookup_after {A} (l : list A) x r : (l ++ x :: r) !! S (length l) = r !! 0%nat.
Proof. induction l; [done|]. done. Qed.

Lemma split_middle l b r p : split (l ++ b :: r) (length l) p = Some (l ++ split_block b p ++ r).
Proof.
  unfold split. rewrite lookup_middle. cbn [mbind option_bind]. rewrite take_app_length.
  rewrite <- Nat.add_1_r, drop_app_add. cbn. by rewrite drop_0.
Qed.

Definition next_mcb (r : list Block) : Z := match r with [] => END_SEGMENT | b :: _ => mcb b end.
Definition canonical_tail (r : list Block) : list Block :=
  match r with [] => [] | b :: r => b :: canonical (mcb b + 1 + paragraphs b) r end.

Lemma canonical_tail_spec e r : canonical e r = gap e (next_mcb r) ++ canonical_tail r.
Proof. destruct r; cbn; [by rewrite app_nil_r|done]. Qed.

Lemma tail_ok e r : arena_ok e r ->
  e <= next_mcb r /\ tiles (next_mcb r) (canonical_tail r) /\ allocated (canonical_tail r) = r.
Proof.
  destruct r as [|b r]; [intros; by split_and!|]. intros (? & ? & ? & Hn & H). cbn [canonical_tail next_mcb tiles]. split_and!; try done.
  - by apply tiles_canonical.
  - rewrite allocated_cons, allocated_canonical by done. unfold is_free. by rewrite (proj2 (Z.eqb_neq _ _)).
Qed.

(** What follows an allocated block of a canonical chain is canonical. *)
Lemma canonical_middle A : forall a l b r, arena_ok a A -> canonical a A = l ++ b :: r -> is_free b = false ->
  r = canonical (mcb b + 1 + paragraphs b) (allocated r) /\ arena_ok (mcb b + 1 + paragraphs b) (allocated r).
Proof.
  assert (forall a e l b r rest, is_free b = false -> gap a e ++ rest = l ++ b :: r -> exists l', rest = l' ++ b :: r) as Hgap.
  { intros a e l b r rest Hb H. unfold gap in H. destruct (a <? e); [|by exists l].
    destruct l as [|x l]; cbn in H; [by injection H as <- ?|]. injection H as _ H. by exists l. }
  induction A as [|x A IH]; intros a l b r H Heq Hb; cbn [canonical] in Heq.
  - rewrite <- (app_nil_r (gap _ _)) in Heq. by apply Hgap in Heq as ([|] & ?).
  - apply Hgap in Heq as ([|y l'] & Heq); [..|done]; destruct H as (_ & _ & _ & _ & H).
    + injection Heq as <- <-. by rewrite allocated_canonical.
    + injection Heq as <- Heq. by eapply IH.
Qed.

Lemma allocated_split b p : is_free b = false -> p <= paragraphs b -> allocated (split_block b p) = [with_paragraphs p b].
Proof.
  intros Hb Hp. unfold split_block. destruct (Z.ltb_spec p (paragraphs b)); rewrite !allocated_cons.
  - change (is_free (with_paragraphs p b)) with (is_free b). by rewrite Hb.
  - rewrite Hb. replace p with (paragraphs b) by lia. by destruct b.
Qed.

Lemma tiles_split b p r : 0 <= p -> fits 16 (owner b) -> p <= paragraphs b -> tiles (mcb b + 1 + paragraphs b) r ->
  tiles (mcb b) (split_block b p ++ r).
Proof.
  intros Hp Ho Hle Ht. unfold split_block. destruct (Z.ltb_spec p (paragraphs b)); cbn; [|by split_and!; [|lia|..]].
  split_and!; try done; [lia|]. by replace (mcb b + 1 + p + 1 + (paragraphs b - p - 1)) with (mcb b + 1 + paragraphs b) by lia.
Qed.

(** Placing keeps the tiling, whoever the owner. *)
Lemma tiles_place p o : fits 16 o -> 0 <= p -> forall blocks a segment chain, tiles a blocks -> place blocks p o = Some (segment, chain) ->
  tiles a chain.
Proof.
  intros Ho Hp. induction blocks as [|b blocks IH]; intros a segment chain Ht; cbn [place]; [done|].
  destruct Ht as (<- & Hb & Hbo & Ht). destruct (is_free b && (p <=? paragraphs b)) eqn:E.
  - intros [= _ <-]. apply andb_true_iff in E as [_ E]. apply Z.leb_le in E. pose proof (tiles_split b p blocks Hp Hbo E Ht) as H.
    revert H. unfold split_block. case_match; cbn; intuition.
  - intros H. apply bind_Some in H as ([segment' rest] & Hrest & [= _ <-]). cbn. split_and!; try done. by eapply IH.
Qed.

(** ** The code implements the specification *)

Section Refinement.
Context {V : Type} `{CM : !ConventionalMemory V CONVENTIONAL_MEMORY_SIZE}.
#[local] Set Default Proof Using "All".

(** Memory [v] holds the arena [A]. *)
Definition represents (v : V) (A : list Block) : Prop :=
  ram_ok v /\ exists blocks, chain_at v blocks /\ allocated blocks = A.

(** The contents of the blocks of [A] are untouched. *)
Definition kept (v v' : V) (A : list Block) : Prop :=
  forall b x, b ∈ A -> data_of b x -> ram_byte v' x = ram_byte v x.

Lemma kept_refl v A : kept v v A.
Proof. done. Qed.

Lemma store_chain v chain : ram_ok v -> chain_ok chain ->
  exists v', write_chain v chain = Some v' /\ represents v' (allocated chain) /\ kept v v' (allocated chain).
Proof.
  intros Hv Hc. destruct (write_chain_at v chain Hv Hc) as (v' & Hw & Hv' & Ha & Hf).
  exists v'. split; [done|]. split; [split; [done|by exists chain]|].
  intros b x Hb Hx. apply list_elem_of_filter in Hb as [_ Hb]. apply Hf.
  - destruct (tiles_elem _ _ _ Hc Hb) as (? & ? & _ & ?). unfold data_of, PARAGRAPH_BYTES in Hx.
    assert (FIRST_MCB = 0xfff) by done. assert (END_SEGMENT = 0xa000) by done. unfold CONVENTIONAL_MEMORY_SIZE. lia.
  - intros b' Hb'. by apply (header_not_data chain FIRST_MCB b b' x).
Qed.

Lemma represents_chain v A : represents v A -> ram_ok v /\ arena_ok FIRST_MCB A /\
  exists blocks, read_chain v = Some (Ok blocks) /\ chain_ok blocks /\ allocated blocks = A /\ coalesce blocks = canonical FIRST_MCB A.
Proof.
  intros (Hv & blocks & Ha & <-). pose proof (chain_at_ok _ _ Hv Ha) as Hc. split_and!; [done|by apply tiles_arena|].
  exists blocks. split_and!; try done. by apply coalesce_canonical.
Qed.

(** [reset] leaves one free block: an empty arena. *)
Lemma reset_refines v : ram_ok v -> exists v', reset v = Some v' /\ represents v' [].
Proof.
  intros Hv. destruct (store_chain v [mkBlock FIRST_MCB 0 AVAILABLE_PARAGRAPHS]) as (v' & Hw & Hr & _); [done|by cbn|].
  by exists v'.
Qed.

(** The branches of [allocate] against allocated blocks. *)
Lemma allocate_spec v A p o : represents v A -> fits 16 p -> fits 16 o -> o <> 0 ->
  match spec_allocate FIRST_MCB A p o with
  | None => allocate v p o = Some (Err (InsufficientMemory (spec_largest FIRST_MCB A)), v)
  | Some (segment, A') => exists v', allocate v p o = Some (Ok segment, v') /\ represents v' A' /\ kept v v' A'
  end.
Proof.
  intros Hr [Hp _] Ho Hn. apply represents_chain in Hr as (Hv & HA & blocks & Hread & _ & _ & Hc).
  unfold allocate. rewrite Hread. cbn [mbind option_bind]. rewrite Hc, largest_free_canonical by done.
  pose proof (place_position (canonical FIRST_MCB A) p o) as Hpos.
  pose proof (place_canonical A p o Ho Hn Hp _ HA) as Hplace.
  destruct (position _ _) as [i|].
  - destruct Hpos as (chain & b & Hs & Hb & Hpl). rewrite Hpl in Hplace. destruct Hplace as [-> Hchain].
    rewrite Hs. cbn [mbind option_bind]. rewrite Hb. cbn [mbind option_bind].
    destruct (store_chain v _ Hv Hchain) as (v' & -> & ? & ?). by exists v'.
  - rewrite Hpos in Hplace. by rewrite Hplace.
Qed.

(** C24 Allocation takes the first gap that fits, for the given owner; when none
    does it reports the largest gap and changes nothing. It never panics, and the
    contents of every allocated block are preserved. *)
Theorem allocate_refines v A p o : represents v A -> fits 16 p -> fits 16 o -> o <> 0 ->
  match spec_allocate FIRST_MCB A p o with
  | None => allocate v p o = Some (Err (InsufficientMemory (spec_largest FIRST_MCB A)), v)
  | Some (segment, A') => exists v', allocate v p o = Some (Ok segment, v') /\ represents v' A' /\ kept v v' A'
  end.
Proof. by apply allocate_spec. Qed.

(** Freeing releases exactly the block of the segment, and is refused when no
    allocated block starts there; every other block keeps its contents. *)
Theorem free_refines v A segment : represents v A ->
  match spec_free A segment with
  | Err e => free v segment = Some (Err e, v)
  | Ok A' => exists v', free v segment = Some (Ok tt, v') /\ represents v' A' /\ kept v v' A'
  end.
Proof.
  intros Hr. apply represents_chain in Hr as (Hv & HA & blocks & Hread & Hc & HAb & _).
  unfold free, spec_free. rewrite Hread. cbn [mbind option_bind result_bind].
  pose proof (allocated_block_find blocks segment) as Hf. rewrite HAb in Hf.
  destruct (allocated_block blocks segment) as [i|e]; cbn [mbind result_bind]; [|by destruct Hf as [-> ->]].
  destruct Hf as (l & b & r & -> & -> & Hb & ->). rewrite alter_middle.
  assert (chain_ok (l ++ with_owner 0 b :: r)) as Hc'.
  { unfold chain_ok in *. apply tiles_app in Hc as (m & (? & ? & ? & ?) & ? & Hm). apply Hm. cbn. by split_and!. }
  rewrite coalesce_canonical by done.
  assert (allocated (l ++ with_owner 0 b :: r) = allocated l ++ allocated r) as ->.
  { by rewrite allocated_app, allocated_cons. }
  assert (arena_ok FIRST_MCB (allocated l ++ allocated r)) as HA'.
  { apply tiles_arena in Hc'. by rewrite allocated_app, allocated_cons in Hc'. }
  destruct (store_chain v (canonical FIRST_MCB (allocated l ++ allocated r)) Hv) as (v' & -> & Hr & Hk); [by apply tiles_canonical|].
  rewrite allocated_canonical in Hr, Hk by done. by exists v'.
Qed.

(** Splitting a block that was given room, and storing the coalesced chain. *)
Lemma resize_store v L b p q r : ram_ok v -> is_free b = false -> chain_ok (L ++ with_paragraphs q b :: r) -> 0 <= p <= q ->
  exists v', write_chain v (coalesce (L ++ split_block (with_paragraphs q b) p ++ r)) = Some v' /\
    represents v' (allocated L ++ with_paragraphs p b :: allocated r) /\
    kept v v' (allocated L ++ with_paragraphs p b :: allocated r).
Proof.
  intros Hv Hb Hc Hp. set (b' := with_paragraphs q b) in *.
  assert (chain_ok (L ++ split_block b' p ++ r)) as Hc'.
  { unfold chain_ok in *. apply tiles_app in Hc as (m & (Hm & ? & ? & ?) & ? & Hr). apply Hr. subst m.
    apply tiles_split; [lia|done|cbn; lia|done]. }
  assert (allocated (L ++ split_block b' p ++ r) = allocated L ++ with_paragraphs p b :: allocated r) as HA.
  { rewrite !allocated_app, allocated_split; [done| |cbn; lia]. done. }
  rewrite coalesce_canonical, HA by done.
  assert (arena_ok FIRST_MCB (allocated L ++ with_paragraphs p b :: allocated r)) as Hok
    by (rewrite <- HA; by apply tiles_arena).
  destruct (store_chain v (canonical FIRST_MCB (allocated L ++ with_paragraphs p b :: allocated r)) Hv) as (v' & -> & Hr & Hk);
    [by apply tiles_canonical|].
  rewrite allocated_canonical in Hr, Hk by done. by exists v'.
Qed.

Lemma split_whole b p : paragraphs b <= p -> split_block b p = [b].
Proof. intros H. unfold split_block. by rewrite (proj2 (Z.ltb_ge _ _)). Qed.

Lemma resize_tail v L b r p : ram_ok v -> is_free b = false -> 0 <= p -> chain_ok (L ++ b :: r) ->
  exists v', ('(result, blocks) ← (if paragraphs b <? p then Some (Err (InsufficientMemory (paragraphs b)), L ++ b :: r)
        else blocks ← split (L ++ b :: r) (length L) p; Some (Ok tt, blocks));
      v ← write_chain v (coalesce blocks); Some (result, v))
    = Some (if p <=? paragraphs b then Ok tt else Err (InsufficientMemory (paragraphs b)), v') /\
    represents v' (allocated L ++ with_paragraphs (Z.min p (paragraphs b)) b :: allocated r) /\
    kept v v' (allocated L ++ with_paragraphs (Z.min p (paragraphs b)) b :: allocated r).
Proof.
  intros Hv Hb Hp Hc. assert (with_paragraphs (paragraphs b) b = b) as Hwp by (by destruct b).
  assert (0 <= paragraphs b) as Hp0.
  { unfold chain_ok in Hc. destruct (tiles_elem _ _ b Hc) as (_ & ? & _); [set_solver|done]. }
  destruct (resize_store v L b (Z.min p (paragraphs b)) (paragraphs b) r) as (v' & Hw & Hr & Hk);
    [done..|by rewrite Hwp|lia|]. rewrite Hwp in Hw. exists v'.
  destruct (Z.ltb_spec (paragraphs b) p).
  - rewrite (proj2 (Z.leb_gt _ _)) by done. rewrite split_whole in Hw by lia. cbn [app] in Hw.
    cbn [mbind option_bind]. by rewrite Hw.
  - rewrite (proj2 (Z.leb_le _ _)) by done. rewrite split_middle. cbn [mbind option_bind].
    rewrite Z.min_l in * by done. by rewrite Hw.
Qed.
(** Growing the block before a gap over the whole gap. *)
Lemma chain_grow L b R r : chain_ok (L ++ b :: R) -> mcb b + 1 + paragraphs b < next_mcb r ->
  tiles (next_mcb r) (canonical_tail r) -> chain_ok (L ++ with_paragraphs (next_mcb r - mcb b - 1) b :: canonical_tail r).
Proof.
  unfold chain_ok. intros Hc Hgap Ht. apply tiles_app in Hc as (m & (? & ? & ? & ?) & ? & Hm). apply Hm. cbn.
  split_and!; try done; [lia|]. by replace (m + 1 + (next_mcb r - mcb b - 1)) with (next_mcb r) by lia.
Qed.

(** The branches of [resize] against allocated blocks. *)
Lemma resize_spec v A segment p : represents v A -> fits 16 p ->
  exists v', resize v segment p = Some ((spec_resize A segment p).1, v') /\
    represents v' (spec_resize A segment p).2 /\ kept v v' (spec_resize A segment p).2.
Proof.
  intros Hrep [Hp _]. pose proof Hrep as Hrep'. apply represents_chain in Hrep as (Hv & HA & blocks & Hread & Hc & _ & Hco).
  unfold resize, spec_resize. rewrite Hread. cbn [mbind option_bind result_bind]. rewrite Hco.
  pose proof (allocated_block_find (canonical FIRST_MCB A) segment) as Hf. rewrite allocated_canonical in Hf by done.
  destruct (allocated_block (canonical FIRST_MCB A) segment) as [i|e]; cbn [mbind result_bind];
    [|destruct Hf as [-> ->]; exists v; by split_and!].
  destruct Hf as (L & b & R & Heq & -> & Hb & ->).
  pose proof (canonical_middle A _ L b R HA Heq Hb) as [HR Hr].
  assert (chain_ok (L ++ b :: R)) as HcLR by (rewrite <- Heq; by apply tiles_canonical).
  rewrite Heq, lookup_middle, lookup_after. cbn [mbind option_bind].
  set (r := allocated R) in *. destruct (tail_ok _ _ Hr) as (Hle & Ht & Hat). rewrite canonical_tail_spec in HR.
  assert (spec_room b r = next_mcb r - mcb b - 1) as -> by done.
  assert (0 <= paragraphs b) as Hp0 by (unfold chain_ok in HcLR; apply (tiles_elem _ _ b HcLR); set_solver).
  destruct (Z.ltb_spec (mcb b + 1 + paragraphs b) (next_mcb r)) as [Hgap|Hgap].
  - (* a free block follows *)
    rewrite gap_lt in HR by done. cbn [app] in HR. rewrite HR. cbn [lookup list_lookup is_free owner Z.eqb].
    rewrite andb_true_r.
    assert (chain_ok (L ++ with_paragraphs (next_mcb r - mcb b - 1) b :: canonical_tail r)) as Hc' by (by eapply chain_grow).
    destruct (Z.ltb_spec (paragraphs b) p).
    + unfold vec_remove. rewrite lookup_after. cbn [lookup list_lookup mbind option_bind].
      replace (delete (S (length L)) _) with (L ++ b :: canonical_tail r)
        by (clear; induction L as [|x L IH]; [done|cbn; by rewrite IH]).
      rewrite alter_middle, lookup_middle. cbn [mbind option_bind].
      assert (absorb b (mkBlock (mcb b + 1 + paragraphs b) 0 (gap_size (mcb b + 1 + paragraphs b) (next_mcb r))) =
        with_paragraphs (next_mcb r - mcb b - 1) b) as ->
        by (unfold absorb, gap_size; cbn [paragraphs]; f_equal; lia).
      destruct (resize_tail v L (with_paragraphs (next_mcb r - mcb b - 1) b) (canonical_tail r) p Hv Hb Hp Hc') as (v' & -> & Hr' & Hk). exists v'.
      rewrite Hat in Hr', Hk. cbn [paragraphs with_paragraphs] in *.
      destruct (Z.leb_spec p (next_mcb r - mcb b - 1)); [rewrite Z.min_l in * by done|rewrite Z.min_r in * by lia]; by split_and!.
    + cbn [mbind option_bind]. rewrite lookup_middle. cbn [mbind option_bind].
      rewrite <- HR. destruct (resize_tail v L b R p Hv Hb Hp HcLR) as (v' & -> & Hr' & Hk). exists v'.
      rewrite !(proj2 (Z.leb_le _ _)) by lia. rewrite Z.min_l in * by done. by split_and!.
  - assert (next_mcb r = mcb b + 1 + paragraphs b) as Hn by lia.
    assert (match R !! 0%nat with Some next => is_free next | None => false end = false) as ->.
    { rewrite HR, Hn, gap_refl. cbn [app]. subst r. destruct (allocated R) as [|x r]; [done|]. cbn.
      destruct Hr as (_ & _ & _ & Hnz & _). by apply Z.eqb_neq. }
    rewrite andb_false_r. cbn [mbind option_bind]. rewrite lookup_middle. cbn [mbind option_bind].
    destruct (resize_tail v L b R p Hv Hb Hp HcLR) as (v' & -> & Hr' & Hk). exists v'.
    replace (next_mcb r - mcb b - 1) with (paragraphs b) by lia. fold r in Hr', Hk.
    destruct (Z.leb_spec p (paragraphs b)); [rewrite Z.min_l in * by done|rewrite Z.min_r in * by lia]; by split_and!.
Qed.

(** C26 Resizing gives a block the paragraphs it asks for when the next allocated
    block leaves them; otherwise it grows the block as far as possible and
    reports that size. A segment without an allocated block changes nothing. *)
Theorem resize_refines v A segment p : represents v A -> fits 16 p ->
  exists v', resize v segment p = Some ((spec_resize A segment p).1, v') /\
    represents v' (spec_resize A segment p).2 /\ kept v v' (spec_resize A segment p).2.
Proof. by apply resize_spec. Qed.

(** ** Running programs *)

(** A DOS service call on 16-bit arguments, or a guest write into an allocated block. *)
Inductive arena_step (v v' : V) : Prop :=
| StepAllocate p o r : fits 16 p -> fits 16 o -> allocate v p o = Some (r, v') -> arena_step v v'
| StepFree segment r : free v segment = Some (r, v') -> arena_step v v'
| StepResize segment p r : fits 16 p -> resize v segment p = Some (r, v') -> arena_step v v'
| StepWrite A b a bytes : represents v A -> b ∈ A ->
    (mcb b + 1) * PARAGRAPH_BYTES <= a -> a + Z.of_nat (length bytes) <= (mcb b + 1 + paragraphs b) * PARAGRAPH_BYTES ->
    bytes_ok bytes -> ram_write v a bytes = Some v' -> arena_step v v'.

(** A guest write outside the headers keeps the chain. *)
Lemma write_represents v A b a bytes v' : represents v A -> b ∈ A ->
  (mcb b + 1) * PARAGRAPH_BYTES <= a -> a + Z.of_nat (length bytes) <= (mcb b + 1 + paragraphs b) * PARAGRAPH_BYTES ->
  bytes_ok bytes -> ram_write v a bytes = Some v' -> represents v' A.
Proof.
  intros Hrep Hb Ha He Hok Hw. destruct Hrep as (Hv & blocks & Hc & <-).
  pose proof (chain_at_ok _ _ Hv Hc) as Hok'. apply list_elem_of_filter in Hb as [_ Hb].
  destruct (tiles_elem _ _ _ Hok' Hb) as (Hlo & Hp & _ & Hhi).
  assert (END_SEGMENT = 0xa000) as HE by done. assert (FIRST_MCB = 0xfff) as HF by done.
  destruct (ram_write_spec v a bytes) as (v1 & Hw' & Hv' & Hbytes);
    [done|unfold PARAGRAPH_BYTES in *; lia|unfold PARAGRAPH_BYTES, CONVENTIONAL_MEMORY_SIZE in *; lia|done|].
  rewrite Hw in Hw'. injection Hw' as <-. split; [done|]. exists blocks. split; [|done].
  (** The headers the chain was read from are still there. *)
  unfold chain_at, read_chain in *. rewrite <- Hc. apply read_chain_frame with (blocks := blocks); [done..|].
  intros b' x Hb' Hx. destruct (tiles_elem _ _ _ Hok' Hb') as (? & ? & _ & ?).
  rewrite Hbytes by (unfold in_header, PARAGRAPH_BYTES, CONVENTIONAL_MEMORY_SIZE in *; lia).
  destruct (Z.leb_spec a x), (Z.ltb_spec x (a + Z.of_nat (length bytes))); cbn [andb]; try done.
  exfalso. apply (header_not_data blocks FIRST_MCB b b' x); try done. unfold data_of. lia.
Qed.

(** Even a block given to nobody leaves a chain. *)
Lemma allocate_any v A p o : represents v A -> fits 16 p -> fits 16 o ->
  exists r v' A', allocate v p o = Some (r, v') /\ represents v' A'.
Proof.
  intros Hrep [Hp _] Ho. pose proof Hrep as (Hv & HA & blocks & Hread & _ & _ & Hc)%represents_chain.
  unfold allocate. rewrite Hread. cbn [mbind option_bind]. rewrite Hc.
  pose proof (place_position (canonical FIRST_MCB A) p o) as Hpos. destruct (position _ _) as [i|]; [|by eauto].
  destruct Hpos as (chain & b & Hs & Hb & Hplace). rewrite Hs. cbn [mbind option_bind]. rewrite Hb. cbn [mbind option_bind].
  apply (tiles_place p o Ho Hp _ FIRST_MCB) in Hplace; [|by apply tiles_canonical].
  destruct (store_chain v _ Hv Hplace) as (v' & -> & Hr' & _). by eauto.
Qed.
Lemma free_any v A segment : represents v A -> exists r v' A', free v segment = Some (r, v') /\ represents v' A'.
Proof.
  intros Hr. pose proof (free_refines v A segment Hr) as H. destruct (spec_free _ _) as [A'|e]; [|by eauto].
  destruct H as (v' & -> & ? & _). by eauto.
Qed.

Lemma step_represents v v' A : represents v A -> arena_step v v' -> exists A', represents v' A'.
Proof.
  intros Hr [p o r Hp Ho Ha|segment r Hf|segment p r Hp Hrs|A' b a bytes Hr' ? ? ? ? ?].
  - destruct (allocate_any v A p o Hr Hp Ho) as (? & ? & A' & H & ?). rewrite Ha in H. injection H as _ ->. eauto.
  - destruct (free_any v A segment Hr) as (? & ? & A' & H & ?). rewrite Hf in H. injection H as _ ->. eauto.
  - destruct (resize_spec v A segment p Hr Hp) as (v1 & H & ? & _). rewrite Hrs in H. injection H as _ ->. eauto.
  - exists A'. by eapply write_represents.
Qed.

(** Allocated blocks do not overlap. *)
Lemma arena_disjoint A : forall a i j b b' x, arena_ok a A -> A !! i = Some b -> A !! j = Some b' ->
  data_of b x -> data_of b' x -> i = j.
Proof.
  assert (forall A a j b, arena_ok a A -> A !! j = Some b -> a <= mcb b) as Hle.
  { intros B. induction B as [|y B IH]; intros a j b H Hj; [done|]. destruct H as (? & ? & _ & _ & H).
    destruct j; cbn in Hj; [by simplify_eq|]. apply (IH _ _ _ H) in Hj. lia. }
  unfold data_of, PARAGRAPH_BYTES. induction A as [|y A IH]; intros a i j b b' x H Hi Hj Hx Hx'; [done|].
  destruct H as (? & ? & _ & _ & H). destruct i as [|i], j as [|j]; cbn in Hi, Hj; simplify_eq; [done| | |].
  - apply (Hle _ _ _ _ H) in Hj. lia.
  - apply (Hle _ _ _ _ H) in Hi. lia.
  - f_equal. by eapply (IH _ _ _ b b' x).
Qed.

(** C28 After a reset, whatever services a program calls with whatever 16-bit
    arguments, and whatever it writes into its own blocks, the arena is never
    reported corrupted, no two allocated blocks overlap, and every service still
    returns instead of panicking. *)
Theorem arena_safe v0 v1 v : ram_ok v0 -> reset v0 = Some v1 -> rtc arena_step v1 v ->
  exists blocks, read_chain v = Some (Ok blocks) /\ chain_ok blocks /\
    (forall i j b b' x, allocated blocks !! i = Some b -> allocated blocks !! j = Some b' ->
      data_of b x -> data_of b' x -> i = j) /\
    forall segment p o, fits 16 p -> fits 16 o ->
      is_Some (allocate v p o) /\ is_Some (free v segment) /\ is_Some (resize v segment p).
Proof.
  intros Hv Hreset Hsteps.
  assert (exists A, represents v A) as (A & Hr).
  { destruct (reset_refines v0 Hv) as (v1' & Hreset' & Hr). rewrite Hreset in Hreset'. injection Hreset' as <-.
    assert (exists A, represents v1 A) as H by eauto. clear Hr Hreset. induction Hsteps as [|v v' v'' Hs _ IH]; [done|].
    destruct H as (A & H). apply IH. by eapply step_represents. }
  pose proof Hr as (_ & HA & blocks & Hread & Hc & <- & _)%represents_chain. exists blocks. split_and!; [done..| |].
  - intros i j b b' x Hi Hj. by eapply arena_disjoint.
  - intros segment p o Hp Ho. destruct (allocate_any _ _ p o Hr Hp Ho) as (? & ? & ? & -> & _), (free_any _ _ segment Hr) as (? & ? & ? & -> & _),
      (resize_spec _ _ segment p Hr Hp) as (? & -> & _). by eauto.
Qed.
End Refinement.

(** ** Examples *)

Module Sample.

#[local] Instance no_device : Device unit := {
  dev_read_mmio d _ _ := (0, d); dev_write_mmio d _ _ _ := d;
  dev_read_port d _ _ := (0, d); dev_write_port d _ _ _ := d;
  dev_poll_interrupt d _ := (None, d) }.

#[local] Instance pc_conventional : ConventionalMemory (MemoryView unit) CONVENTIONAL_MEMORY_SIZE :=
  view_conventional CONVENTIONAL_MEMORY_SIZE ltac:(done).

Definition blank : MemoryView unit := pc_view [].

(** A process block, then its environment block. *)
Example allocation_layout :
  spec_allocate FIRST_MCB [mkBlock 0xfff 0x1000 0x20] 0x10 0x1000 =
  Some (0x1021, [mkBlock 0xfff 0x1000 0x20; mkBlock 0x1020 0x1000 0x10]).
Proof. reflexivity. Qed.

Lemma allocate_refines_witness : exists v, represents v [] /\
  exists v', allocate v 0x20 0x1000 = Some (Ok 0x1000, v') /\ represents v' [mkBlock 0xfff 0x1000 0x20].
Proof.
  destruct (reset_refines blank (pc_view_ok [])) as (v & _ & Hr). exists v. split; [exact Hr|].
  destruct (allocate_refines v [] 0x20 0x1000 Hr) as (v' & H & Hr' & _); [by split|by split|done|]. by exists v'.
Defined.

Lemma resize_refines_witness : exists v A, represents v A /\
  exists v', resize v 0x1000 0xffff = Some (Err (InsufficientMemory 0x9000), v').
Proof.
  destruct (reset_refines blank (pc_view_ok [])) as (v & _ & Hr).
  pose proof (allocate_spec v [] 0x20 0x1000 Hr ltac:(by split) ltac:(by split) ltac:(done)) as (v' & _ & Hr' & _).
  exists v', [mkBlock 0xfff 0x1000 0x20]. split; [exact Hr'|].
  destruct (resize_refines v' [mkBlock 0xfff 0x1000 0x20] 0x1000 0xffff Hr' ltac:(by split)) as (v2 & H & _). by exists v2.
Defined.

(** A process block and a block of another owner, a write into the first, and the
    second one freed, shrunk away and taken again: two blocks are allocated. *)
Lemma arena_safe_witness : exists v1 v, reset blank = Some v1 /\ rtc arena_step v1 v /\ v <> v1 /\
  exists blocks, read_chain v = Some (Ok blocks) /\ chain_ok blocks /\
    allocated blocks = [mkBlock 0xfff 0x1000 0x18; mkBlock 0x1018 0x1234 0x40] /\
    (forall x, data_of (mkBlock 0xfff 0x1000 0x18) x -> ~ data_of (mkBlock 0x1018 0x1234 0x40) x) /\
    is_Some (resize v 0x1000 0xffff).
Proof.
  set (A := mkBlock 0xfff 0x1000 0x20). set (B := mkBlock 0x1020 0x1234 0x10).
  destruct (reset_refines blank (pc_view_ok [])) as (v1 & Hv1 & Hr1).
  destruct (allocate_spec v1 [] 0x20 0x1000 Hr1 ltac:(by split) ltac:(by split) ltac:(done)) as (v2 & H2 & Hr2 & _).
  destruct (allocate_spec v2 [A] 0x10 0x1234 Hr2 ltac:(by split) ltac:(by split) ltac:(done)) as (v3 & H3 & Hr3 & _).
  assert (bytes_ok [1; 2; 3]) as Hbytes by (by repeat constructor).
  destruct (ram_write_spec v3 0x10000 [1; 2; 3]) as (v4 & H4 & _); [apply Hr3|lia|by cbn|done|].
  pose proof (StepWrite _ _ [A; B] A 0x10000 [1; 2; 3] Hr3 ltac:(set_solver) ltac:(done) ltac:(done) Hbytes H4) as Hw.
  pose proof (write_represents v3 [A; B] A 0x10000 [1; 2; 3] v4 Hr3 ltac:(set_solver) ltac:(done) ltac:(done) Hbytes H4) as Hr4.
  destruct (free_refines v4 [A; B] 0x1021 Hr4) as (v5 & H5 & Hr5 & _).
  destruct (resize_spec v5 [A] 0x1000 0x18 Hr5 ltac:(by split)) as (v6 & H6 & Hr6 & _).
  destruct (allocate_spec v6 _ 0x40 0x1234 Hr6 ltac:(by split) ltac:(by split) ltac:(done)) as (v7 & H7 & Hr7 & _).
  assert (rtc arena_step v1 v7) as Hsteps.
  { eapply rtc_l; [by eapply StepAllocate, H2|]. eapply rtc_l; [by eapply StepAllocate, H3|]. eapply rtc_l; [exact Hw|].
    eapply rtc_l; [by eapply StepFree|]. eapply rtc_l; [by eapply StepResize, H6|]. eapply rtc_l; [by eapply StepAllocate, H7|]. done. }
  destruct (arena_safe blank v1 v7 (pc_view_ok []) Hv1 Hsteps) as (blocks & Hread & Hc & Hd & Ht).
  assert (allocated blocks = [mkBlock 0xfff 0x1000 0x18; mkBlock 0x1018 0x1234 0x40]) as Ha.
  { destruct Hr7 as (_ & blocks' & Hread' & Hb). pose proof (eq_trans (eq_sym Hread) Hread') as E. injection E as <-. exact Hb. }
  exists v1, v7. split; [exact Hv1|]. split; [exact Hsteps|]. split.
  - intros E. rewrite E in Hread. destruct Hr1 as (_ & blocks1 & Hread1 & Hb1). pose proof (eq_trans (eq_sym Hread) Hread1) as E1.
    injection E1 as <-. by rewrite Ha in Hb1.
  - exists blocks. split; [exact Hread|]. split; [exact Hc|]. split; [exact Ha|]. split; [|by apply (Ht 0x1000 0xffff 0)].
    intros x H0 H1. rewrite Ha in Hd. by specialize (Hd 0%nat 1%nat _ _ x eq_refl eq_refl H0 H1).
Defined.
End Sample.
