(* ===== verification/Pic.v ===== *)
(** * The master 8259A interrupt controller

    Models [src/crates/pic/src/controller.rs] (the [Controller] record and its
    methods) and [src/crates/pic/src/lib.rs] (the [Pic] device, [IrqLine]).
    Registers are [Z] values of 8-bit unsigned integers; a [Waker] is the
    number of the task it wakes.  [Pic::update] returns the waker it wakes. *)

From S2P Require Import Prelude.

Local Open Scope Z_scope.

Definition IRQ_COUNT : Z := 8.
Definition IRQ_NUMBER_MASK : Z := IRQ_COUNT - 1.

Definition ICW1_INITIALIZE : Z := Z.shiftl 1 4.
Definition ICW1_LEVEL_TRIGGERED : Z := Z.shiftl 1 3.
Definition ICW1_SINGLE_CONTROLLER : Z := Z.shiftl 1 1.
Definition ICW1_EXPECT_ICW4 : Z := 1.
Definition ICW4_AUTO_EOI : Z := Z.shiftl 1 1.

Definition OCW2_EOI : Z := Z.shiftl 1 5.
Definition OCW2_SPECIFIC_IRQ : Z := Z.shiftl 1 6.
Definition OCW2_ROTATE : Z := Z.shiftl 1 7.

Definition OCW3_SELECT : Z := Z.shiftl 1 3.
Definition OCW3_SELECT_READ_REGISTER : Z := Z.shiftl 1 1.
Definition OCW3_READ_IN_SERVICE : Z := 1.
Definition OCW3_POLL : Z := Z.shiftl 1 2.
Definition OCW3_CHANGE_SPECIAL_MASK : Z := Z.shiftl 1 6.
Definition OCW3_SPECIAL_MASK : Z := Z.shiftl 1 5.
Definition POLL_HAS_INTERRUPT : Z := Z.shiftl 1 7.

Definition COMMAND_PORT : Z := 0x20.
Definition MASK_PORT : Z := 0x21.
Definition TIMER_IRQ : Z := 0.
Definition KEYBOARD_IRQ : Z := 1.
Definition BIOS_VECTOR_BASE : Z := 0x08.

Inductive Initialization : Type :=
| Ready
| VectorBase (needs_cascade needs_icw4 : bool)
| Cascade (needs_icw4 : bool)
| Mode.

Definition waker_id : Type := nat.

Record Controller : Type := mkController {
  vector_base : Z;
  mask : Z;
  requests : Z;
  in_service : Z;
  levels : Z;
  highest_priority_irq : Z;
  level_triggered : bool;
  auto_eoi : bool;
  rotate_on_auto_eoi : bool;
  special_mask : bool;
  read_in_service : bool;
  poll_pending : bool;
  initialization : Initialization;
  waker : option waker_id;
}.

(** Field updates, in the order of the record. *)
Definition set_vector_base (x : Z) (c : Controller) : Controller :=
  mkController x (mask c) (requests c) (in_service c) (levels c) (highest_priority_irq c)
    (level_triggered c) (auto_eoi c) (rotate_on_auto_eoi c) (special_mask c)
    (read_in_service c) (poll_pending c) (initialization c) (waker c).
Definition set_mask (x : Z) (c : Controller) : Controller :=
  mkController (vector_base c) x (requests c) (in_service c) (levels c) (highest_priority_irq c)
    (level_triggered c) (auto_eoi c) (rotate_on_auto_eoi c) (special_mask c)
    (read_in_service c) (poll_pending c) (initialization c) (waker c).
Definition set_requests (x : Z) (c : Controller) : Controller :=
  mkController (vector_base c) (mask c) x (in_service c) (levels c) (highest_priority_irq c)
    (level_triggered c) (auto_eoi c) (rotate_on_auto_eoi c) (special_mask c)
    (read_in_service c) (poll_pending c) (initialization c) (waker c).
Definition set_in_service (x : Z) (c : Controller) : Controller :=
  mkController (vector_base c) (mask c) (requests c) x (levels c) (highest_priority_irq c)
    (level_triggered c) (auto_eoi c) (rotate_on_auto_eoi c) (special_mask c)
    (read_in_service c) (poll_pending c) (initialization c) (waker c).
Definition set_levels (x : Z) (c : Controller) : Controller :=
  mkController (vector_base c) (mask c) (requests c) (in_service c) x (highest_priority_irq c)
    (level_triggered c) (auto_eoi c) (rotate_on_auto_eoi c) (special_mask c)
    (read_in_service c) (poll_pending c) (initialization c) (waker c).
Definition set_highest_priority_irq (x : Z) (c : Controller) : Controller :=
  mkController (vector_base c) (mask c) (requests c) (in_service c) (levels c) x
    (level_triggered c) (auto_eoi c) (rotate_on_auto_eoi c) (special_mask c)
    (read_in_service c) (poll_pending c) (initialization c) (waker c).
Definition set_level_triggered (x : bool) (c : Controller) : Controller :=
  mkController (vector_base c) (mask c) (requests c) (in_service c) (levels c)
    (highest_priority_irq c) x (auto_eoi c) (rotate_on_auto_eoi c) (special_mask c)
    (read_in_service c) (poll_pending c) (initialization c) (waker c).
Definition set_auto_eoi (x : bool) (c : Controller) : Controller :=
  mkController (vector_base c) (mask c) (requests c) (in_service c) (levels c)
    (highest_priority_irq c) (level_triggered c) x (rotate_on_auto_eoi c) (special_mask c)
    (read_in_service c) (poll_pending c) (initialization c) (waker c).
Definition set_rotate_on_auto_eoi (x : bool) (c : Controller) : Controller :=
  mkController (vector_base c) (mask c) (requests c) (in_service c) (levels c)
    (highest_priority_irq c) (level_triggered c) (auto_eoi c) x (special_mask c)
    (read_in_service c) (poll_pending c) (initialization c) (waker c).
Definition set_special_mask (x : bool) (c : Controller) : Controller :=
  mkController (vector_base c) (mask c) (requests c) (in_service c) (levels c)
    (highest_priority_irq c) (level_triggered c) (auto_eoi c) (rotate_on_auto_eoi c) x
    (read_in_service c) (poll_pending c) (initialization c) (waker c).
Definition set_read_in_service (x : bool) (c : Controller) : Controller :=
  mkController (vector_base c) (mask c) (requests c) (in_service c) (levels c)
    (highest_priority_irq c) (level_triggered c) (auto_eoi c) (rotate_on_auto_eoi c)
    (special_mask c) x (poll_pending c) (initialization c) (waker c).
Definition set_poll_pending (x : bool) (c : Controller) : Controller :=
  mkController (vector_base c) (mask c) (requests c) (in_service c) (levels c)
    (highest_priority_irq c) (level_triggered c) (auto_eoi c) (rotate_on_auto_eoi c)
    (special_mask c) (read_in_service c) x (initialization c) (waker c).
Definition set_initialization (x : Initialization) (c : Controller) : Controller :=
  mkController (vector_base c) (mask c) (requests c) (in_service c) (levels c)
    (highest_priority_irq c) (level_triggered c) (auto_eoi c) (rotate_on_auto_eoi c)
    (special_mask c) (read_in_service c) (poll_pending c) x (waker c).
Definition set_waker (x : option waker_id) (c : Controller) : Controller :=
  mkController (vector_base c) (mask c) (requests c) (in_service c) (levels c)
    (highest_priority_irq c) (level_triggered c) (auto_eoi c) (rotate_on_auto_eoi c)
    (special_mask c) (read_in_service c) (poll_pending c) (initialization c) x.

(** [Controller::new]. *)
Definition new (base : Z) : Controller :=
  mkController base 0xff 0 0 0 0 false false false false false false Ready None.

(** ** Arbitration *)

Definition highest_priority (c : Controller) (bits : Z) : option Z :=
  List.find (fun irq => has bits (Z.shiftl 1 irq))
    (map (fun offset => (highest_priority_irq c + offset) mod IRQ_COUNT) (seqZ 0 IRQ_COUNT)).

Definition priority_rank (c : Controller) (irq : Z) : Z :=
  Z.land (wrap 8 (irq - highest_priority_irq c)) IRQ_NUMBER_MASK.

Definition set_lowest_priority (irq : Z) (c : Controller) : Controller :=
  set_highest_priority_irq ((irq + 1) mod IRQ_COUNT) c.

Definition blocking_service (c : Controller) : Z :=
  if special_mask c then Z.land (in_service c) (bnot 8 (mask c)) else in_service c.

Definition next_irq (c : Controller) : option Z :=
  match initialization c with
  | Ready =>
      match highest_priority c (Z.land (requests c) (bnot 8 (mask c))) with
      | None => None
      | Some pending =>
          match highest_priority c (blocking_service c) with
          | Some active =>
              if priority_rank c pending >=? priority_rank c active then None else Some pending
          | None => Some pending
          end
      end
  | _ => None
  end.

Definition refresh_levels (c : Controller) : Controller :=
  if level_triggered c then set_requests (levels c) c else c.

Definition acknowledge (c : Controller) : option Z * Controller :=
  match next_irq c with
  | None => (None, c)
  | Some irq =>
      let c := set_requests (Z.land (requests c) (bnot 8 (Z.shiftl 1 irq))) c in
      let c :=
        if auto_eoi c then
          if rotate_on_auto_eoi c then set_lowest_priority irq c else c
        else set_in_service (Z.lor (in_service c) (Z.shiftl 1 irq)) c in
      (Some irq, refresh_levels c)
  end.

Definition record_level (irq : Z) (high : bool) (c : Controller) : Controller :=
  let bit := Z.shiftl 1 irq in
  let c := if high then set_levels (Z.lor (levels c) bit) c
           else set_levels (Z.land (levels c) (bnot 8 bit)) c in
  refresh_levels c.

Definition set_level (irq : Z) (high : bool) (c : Controller) : Controller :=
  let bit := Z.shiftl 1 irq in
  let c := if high && (Z.land (levels c) bit =? 0)
           then set_requests (Z.lor (requests c) bit) c else c in
  record_level irq high c.

(** ** Commands *)

Definition read_command (c : Controller) : Z * Controller :=
  if poll_pending c then
    let c := set_poll_pending false c in
    match acknowledge c with
    | (Some irq, c) => (Z.lor POLL_HAS_INTERRUPT irq, c)
    | (None, c) => (0, c)
    end
  else if read_in_service c then (in_service c, c)
  else (requests c, c).

Definition initialize (value : Z) (c : Controller) : Controller :=
  let w := waker c in
  let l := levels c in
  let c := new 0 in
  let c := set_waker w c in
  let c := set_levels l c in
  let c := set_mask 0 c in
  let c := set_level_triggered (has value ICW1_LEVEL_TRIGGERED) c in
  set_initialization
    (VectorBase (negb (has value ICW1_SINGLE_CONTROLLER)) (has value ICW1_EXPECT_ICW4)) c.

Definition write_ocw2 (value : Z) (c : Controller) : Controller :=
  let specific := has value OCW2_SPECIFIC_IRQ in
  let rotate := has value OCW2_ROTATE in
  if has value OCW2_EOI then
    let irq := if specific then Some (Z.land value IRQ_NUMBER_MASK)
               else highest_priority c (blocking_service c) in
    match irq with
    | Some irq =>
        let c := set_in_service (Z.land (in_service c) (bnot 8 (Z.shiftl 1 irq))) c in
        if rotate then set_lowest_priority irq c else c
    | None => c
    end
  else if negb specific then set_rotate_on_auto_eoi rotate c
  else if rotate then set_lowest_priority (Z.land value IRQ_NUMBER_MASK) c
  else c.

Definition write_ocw3 (value : Z) (c : Controller) : Controller :=
  let c := if has value OCW3_SELECT_READ_REGISTER
           then set_read_in_service (has value OCW3_READ_IN_SERVICE) c else c in
  let c := if has value OCW3_CHANGE_SPECIAL_MASK
           then set_special_mask (has value OCW3_SPECIAL_MASK) c else c in
  set_poll_pending (has value OCW3_POLL) c.

Definition command (value : Z) (c : Controller) : Controller :=
  if has value ICW1_INITIALIZE then initialize value c
  else if has value OCW3_SELECT then write_ocw3 value c
  else write_ocw2 value c.

Definition data (value : Z) (c : Controller) : Controller :=
  let c :=
    match initialization c with
    | Ready => set_initialization Ready (set_mask value c)
    | VectorBase needs_cascade needs_icw4 =>
        let c := set_vector_base (Z.land value (bnot 8 IRQ_NUMBER_MASK)) c in
        set_initialization
          (if needs_cascade then Cascade needs_icw4 else if needs_icw4 then Mode else Ready) c
    | Cascade needs_icw4 => set_initialization (if needs_icw4 then Mode else Ready) c
    | Mode => set_initialization Ready (set_auto_eoi (has value ICW4_AUTO_EOI) c)
    end in
  refresh_levels c.

(** ** The device

    [update] applies a change and takes the waker when an interrupt is then
    deliverable; the second component is the waker it wakes. *)

Definition update (change : Controller -> Controller) (c : Controller)
    : Controller * option waker_id :=
  let c := change c in
  match next_irq c with
  | Some _ => (set_waker None c, waker c)
  | None => (c, None)
  end.

(** The assertions on the line number and the vector base panic ([None]). *)
Definition Pic_new (base : Z) : option Controller :=
  if base mod IRQ_COUNT =? 0 then Some (new base) else None.

Definition unmask_irq (number : Z) (c : Controller) : option (Controller * option waker_id) :=
  if number <? IRQ_COUNT then
    Some (update (fun c => set_mask (Z.land (mask c) (bnot 8 (Z.shiftl 1 number))) c) c)
  else None.

(** [Pic::irq]: the line is its number. *)
Definition connect_irq (number : Z) (initial_high : bool) (c : Controller)
    : option (Controller * option waker_id) :=
  if number <? IRQ_COUNT then Some (update (record_level number initial_high) c) else None.

(** [IrqLine::set_level]. *)
Definition line_set_level (number : Z) (high : bool) (c : Controller)
    : Controller * option waker_id :=
  update (set_level number high) c.

(** [IrqLine::pulse]: the wakers of the three updates, in order. *)
Definition line_pulse (number : Z) (c : Controller) : Controller * list waker_id :=
  let '(c, w1) := line_set_level number false c in
  let '(c, w2) := line_set_level number true c in
  let '(c, w3) := line_set_level number false c in
  (c, omap id [w1; w2; w3]).

Definition read_port (port bytes : Z) (c : Controller) : Z * Controller :=
  if negb (bytes =? 1) then (0xffffffff, c)
  else if port =? COMMAND_PORT then read_command c
  else if port =? MASK_PORT then (mask c, c)
  else (0xffffffff, c).

Definition write_port (port bytes value : Z) (c : Controller) : Controller * option waker_id :=
  if negb (bytes =? 1) then (c, None)
  else update (fun c =>
    if port =? COMMAND_PORT then command (wrap 8 value) c
    else if port =? MASK_PORT then data (wrap 8 value) c
    else c) c.

(** [poll_interrupt]: [Some vector] is [Poll::Ready], [None] is [Poll::Pending]. *)
Definition poll_interrupt (task : waker_id) (c : Controller) : option Z * Controller :=
  let c := set_waker (Some task) c in
  match acknowledge c with
  | (Some irq, c) => (Some (Z.lor (vector_base c) irq), c)
  | (None, c) => (None, c)
  end.

(** ** Arbitration, characterised

    [rank hp irq] is the distance of [irq] below the highest-priority line. *)

Definition rank (hp irq : Z) : Z := (irq - hp) mod 8.

Lemma rank_inj hp i j : 0 <= i < 8 -> 0 <= j < 8 -> rank hp i = rank hp j -> i = j.
Proof. unfold rank. intros. Z.div_mod_to_equations. lia. Qed.

Lemma irq_cases i : 0 <= i < 8 ->
  i = 0 \/ i = 1 \/ i = 2 \/ i = 3 \/ i = 4 \/ i = 5 \/ i = 6 \/ i = 7.
Proof. lia. Qed.

Ltac irq_cases H := destruct (irq_cases _ H) as [->|[->|[->|[->|[->|[->|[->| ->]]]]]]].

Definition irqs_from (hp : Z) : list Z :=
  map (fun offset => (hp + offset) mod IRQ_COUNT) (seqZ 0 IRQ_COUNT).

Lemma irqs_from_ranks hp : 0 <= hp < 8 ->
  map (rank hp) (irqs_from hp) = [0; 1; 2; 3; 4; 5; 6; 7].
Proof. intros H. irq_cases H; reflexivity. Qed.

Lemma irqs_from_complete hp i : 0 <= hp < 8 -> i ∈ irqs_from hp <-> 0 <= i < 8.
Proof.
  intros H. split.
  - intros Hi. irq_cases H; vm_compute in Hi;
      repeat (apply elem_of_cons in Hi as [->|Hi]; [lia|]); by apply elem_of_nil in Hi.
  - intros Hi. irq_cases H; irq_cases Hi; apply (bool_decide_unpack _); reflexivity.
Qed.

(** [List.find] on a list whose keys increase finds the least key. *)
Lemma find_least (f : Z -> bool) (key : Z -> Z) l x :
  StronglySorted Z.lt (map key l) ->
  List.find f l = Some x -> x ∈ l /\ f x = true /\ forall y, y ∈ l -> f y = true -> key x <= key y.
Proof.
  induction l as [|a l IH]; intros Hs Hf; simpl in *; [done|].
  apply StronglySorted_inv in Hs as [Hs Hall].
  destruct (f a) eqn:Ha.
  - injection Hf as <-. split_and!; [by constructor | done |].
    intros y [->|Hy]%elem_of_cons _; [lia|].
    rewrite Forall_forall in Hall. apply Z.lt_le_incl, Hall, list_elem_of_fmap. eauto.
  - destruct (IH Hs Hf) as (Hin & Hfx & Hmin). split_and!; [by constructor | done |].
    intros y [->|Hy]%elem_of_cons Hfy; [congruence | auto].
Qed.

Lemma highest_priority_some c bits irq : 0 <= highest_priority_irq c < 8 ->
  highest_priority c bits = Some irq ->
  0 <= irq < 8 /\ Z.testbit bits irq = true /\
  forall j, 0 <= j < 8 -> Z.testbit bits j = true ->
    rank (highest_priority_irq c) irq <= rank (highest_priority_irq c) j.
Proof.
  intros Hhp Hf. unfold highest_priority in Hf. fold (irqs_from (highest_priority_irq c)) in Hf.
  apply (find_least _ (rank (highest_priority_irq c))) in Hf as (Hin & Hbit & Hmin).
  - apply irqs_from_complete in Hin; [|done]. rewrite has_bit in Hbit by lia.
    split_and!; [lia | lia | done |]. intros j Hj Hb. apply Hmin.
    + by apply irqs_from_complete.
    + by rewrite has_bit by lia.
  - rewrite irqs_from_ranks by done. repeat constructor; lia.
Qed.

Lemma highest_priority_none c bits : 0 <= highest_priority_irq c < 8 ->
  highest_priority c bits = None <-> forall j, 0 <= j < 8 -> Z.testbit bits j = false.
Proof.
  intros Hhp. unfold highest_priority. fold (irqs_from (highest_priority_irq c)). split.
  - intros Hf j Hj. rewrite <- has_bit by lia.
    apply (List.find_none _ _ Hf). apply list_elem_of_In. by apply irqs_from_complete.
  - intros Hb. destruct (List.find _ _) as [x|] eqn:E; [|done].
    apply List.find_some in E as [Hin Hx]. apply list_elem_of_In in Hin.
    apply irqs_from_complete in Hin; [|done]. rewrite has_bit, Hb in Hx by lia. done.
Qed.

Lemma highest_priority_unique c bits irq : 0 <= highest_priority_irq c < 8 ->
  0 <= irq < 8 -> Z.testbit bits irq = true ->
  (forall j, 0 <= j < 8 -> Z.testbit bits j = true ->
    rank (highest_priority_irq c) irq <= rank (highest_priority_irq c) j) ->
  highest_priority c bits = Some irq.
Proof.
  intros Hhp Hi Hb Hmin. destruct (highest_priority c bits) as [x|] eqn:E.
  - apply highest_priority_some in E as (Hx & Hbx & Hmx); [|done].
    f_equal. apply (rank_inj (highest_priority_irq c)); [lia | lia |].
    apply Z.le_antisymm; auto.
  - rewrite highest_priority_none in E by done. rewrite E in Hb by lia. done.
Qed.

Lemma priority_rank_eq c irq : 0 <= highest_priority_irq c < 8 -> 0 <= irq < 8 ->
  priority_rank c irq = rank (highest_priority_irq c) irq.
Proof.
  intros Hhp Hi. unfold priority_rank. set (hp := highest_priority_irq c) in *.
  clearbody hp. irq_cases Hhp; irq_cases Hi; reflexivity.
Qed.

(** ** Invariant *)

Record wf (c : Controller) : Prop := {
  wf_vector : fits 8 (vector_base c);
  wf_aligned : vector_base c mod 8 = 0;
  wf_mask : fits 8 (mask c);
  wf_requests : fits 8 (requests c);
  wf_in_service : fits 8 (in_service c);
  wf_levels : fits 8 (levels c);
  wf_priority : 0 <= highest_priority_irq c < 8;
  (* a level-triggered controller past ICW1 requests exactly its asserted lines *)
  wf_level_mode : level_triggered c = true ->
    (forall a b, initialization c <> VectorBase a b) -> requests c = levels c;
}.

Create HintDb pic discriminated.
#[export] Hint Resolve wf_vector wf_aligned wf_mask wf_requests wf_in_service wf_levels
  wf_priority : pic.

Lemma fits_irq_bit irq : 0 <= irq < 8 -> fits 8 (Z.shiftl 1 irq).
Proof. intros H. irq_cases H; by apply (bool_decide_unpack _). Qed.

Lemma fits8_land_l a b : fits 8 a -> fits 8 (Z.land a b).
Proof. by apply fits_land_l. Qed.
Lemma fits8_lor a b : fits 8 a -> fits 8 b -> fits 8 (Z.lor a b).
Proof. by apply fits_lor. Qed.
Lemma fits8_0 : fits 8 0. Proof. by apply (bool_decide_unpack _). Qed.
Lemma fits8_ff : fits 8 255. Proof. by apply (bool_decide_unpack _). Qed.
#[export] Hint Resolve fits_irq_bit fits8_land_l fits8_lor fits8_0 fits8_ff : pic.

Lemma next_irq_in_range c irq : wf c -> next_irq c = Some irq ->
  0 <= irq < 8 /\ Z.testbit (requests c) irq = true /\ Z.testbit (mask c) irq = false.
Proof.
  intros Hwf Hn. unfold next_irq in Hn.
  destruct (initialization c); try done.
  destruct (highest_priority c (Z.land _ _)) as [p|] eqn:Hp; [|done].
  apply highest_priority_some in Hp as (Hr & Hb & _); [|auto with pic].
  assert (p = irq) as ->.
  { destruct (highest_priority c (blocking_service c)); [|congruence].
    destruct (_ >=? _); congruence. }
  rewrite Z.land_spec, testbit_bnot in Hb by lia.
  destruct (Z.ltb_spec irq 8); [|lia]. split_and!; [lia | lia | |].
  - by destruct (Z.testbit (requests c) irq).
  - by destruct (Z.testbit (requests c) irq), (Z.testbit (mask c) irq).
Qed.

Lemma wf_refresh c :
  fits 8 (vector_base c) -> vector_base c mod 8 = 0 -> fits 8 (mask c) -> fits 8 (requests c) ->
  fits 8 (in_service c) -> fits 8 (levels c) -> 0 <= highest_priority_irq c < 8 ->
  wf (refresh_levels c).
Proof.
  intros. unfold refresh_levels. destruct (level_triggered c) eqn:E.
  - split; simpl; auto.
  - split; simpl; auto. congruence.
Qed.

Lemma wf_acknowledge c : wf c -> wf (acknowledge c).2.
Proof.
  intros Hwf. unfold acknowledge. destruct (next_irq c) as [irq|] eqn:E; [|done].
  apply next_irq_in_range in E as (Hr & _); [|done]. simpl.
  destruct (auto_eoi c); [destruct (rotate_on_auto_eoi c)|];
    apply wf_refresh; simpl; auto with pic.
  apply Z.mod_pos_bound. done.
Qed.

Lemma wf_record_level irq high c : 0 <= irq < 8 -> wf c -> wf (record_level irq high c).
Proof.
  intros Hr Hwf. unfold record_level. destruct high; apply wf_refresh; simpl; auto with pic.
Qed.

Lemma wf_set_level irq high c : 0 <= irq < 8 -> wf c -> wf (set_level irq high c).
Proof.
  intros Hr Hwf. unfold set_level, record_level.
  destruct (high && _), high; apply wf_refresh; simpl; auto with pic.
Qed.

Lemma wf_new base : fits 8 base -> base mod 8 = 0 -> wf (new base).
Proof. intros. split; simpl; auto with pic; lia. Qed.

(** Changing a field the invariant does not read. *)
Lemma wf_same c d :
  vector_base d = vector_base c -> mask d = mask c -> requests d = requests c ->
  in_service d = in_service c -> levels d = levels c ->
  highest_priority_irq d = highest_priority_irq c ->
  level_triggered d = level_triggered c -> initialization d = initialization c ->
  wf c -> wf d.
Proof.
  intros E1 E2 E3 E4 E5 E6 E7 E8 [].
  split; rewrite ?E1, ?E2, ?E3, ?E4, ?E5, ?E6, ?E7, ?E8; auto.
Qed.

Lemma wf_set_waker w c : wf c -> wf (set_waker w c).
Proof. by apply wf_same. Qed.
Lemma wf_set_poll b c : wf c -> wf (set_poll_pending b c).
Proof. by apply wf_same. Qed.
#[export] Hint Resolve wf_set_waker wf_set_poll : pic.

Lemma wf_set_mask m c : fits 8 m -> wf c -> wf (set_mask m c).
Proof. intros Hm []. split; simpl; auto. Qed.

Lemma wf_set_in_service m c : fits 8 m -> wf c -> wf (set_in_service m c).
Proof. intros Hm []. split; simpl; auto. Qed.

Lemma wf_set_lowest i c : wf c -> wf (set_lowest_priority i c).
Proof. intros []. split; simpl; auto. apply Z.mod_pos_bound. done. Qed.
#[export] Hint Resolve wf_set_mask wf_set_in_service wf_set_lowest : pic.

Lemma wf_initialize v c : wf c -> wf (initialize v c).
Proof.
  intros Hwf. split; simpl; auto with pic; try lia.
  intros _ Hinit. exfalso. by eapply Hinit.
Qed.

Lemma wf_ocw2 v c : wf c -> wf (write_ocw2 v c).
Proof.
  intros Hwf. unfold write_ocw2.
  destruct (has v OCW2_EOI).
  - destruct (if has v OCW2_SPECIFIC_IRQ then _ else _) as [irq|]; [|done].
    destruct (has v OCW2_ROTATE); auto 6 with pic.
  - destruct (has v OCW2_SPECIFIC_IRQ), (has v OCW2_ROTATE); simpl; auto with pic;
      by apply (wf_same c).
Qed.

Lemma wf_ocw3 v c : wf c -> wf (write_ocw3 v c).
Proof.
  intros Hwf. unfold write_ocw3. apply wf_set_poll.
  destruct (has v OCW3_SELECT_READ_REGISTER), (has v OCW3_CHANGE_SPECIAL_MASK);
    by apply (wf_same c).
Qed.

Lemma wf_command v c : wf c -> wf (command v c).
Proof.
  intros. unfold command.
  destruct (has v ICW1_INITIALIZE); [by apply wf_initialize|].
  destruct (has v OCW3_SELECT); [by apply wf_ocw3 | by apply wf_ocw2].
Qed.

Lemma aligned_base v : Z.land v (bnot 8 IRQ_NUMBER_MASK) mod 8 = 0.
Proof.
  change 8 with (2 ^ 3) at 2. change (wrap 3 (Z.land v (bnot 8 IRQ_NUMBER_MASK)) = 0).
  change IRQ_NUMBER_MASK with (Z.ones 3). bitwise.
Qed.

Lemma wf_data v c : fits 8 v -> wf c -> wf (data v c).
Proof.
  intros Hv Hwf. unfold data.
  destruct (initialization c); apply wf_refresh; simpl; auto using aligned_base with pic.
Qed.

Lemma wf_update change c : (forall d, wf d -> wf (change d)) -> wf c -> wf (update change c).1.
Proof.
  intros Hc Hwf. unfold update. destruct (next_irq _); simpl; auto with pic.
Qed.

(** ** What the controller delivers *)

(** Unmasked requests that no interrupt in service blocks. *)
Definition deliverable (c : Controller) (irq : Z) : Prop :=
  0 <= irq < 8 /\ Z.testbit (requests c) irq = true /\ Z.testbit (mask c) irq = false /\
  (forall j, 0 <= j < 8 -> Z.testbit (blocking_service c) j = true ->
    rank (highest_priority_irq c) irq < rank (highest_priority_irq c) j).

Lemma pending_bit c j : 0 <= j < 8 ->
  Z.testbit (Z.land (requests c) (bnot 8 (mask c))) j
  = Z.testbit (requests c) j && negb (Z.testbit (mask c) j).
Proof.
  intros Hj. rewrite Z.land_spec, testbit_bnot by lia.
  destruct (Z.ltb_spec j 8); [|lia]. by rewrite xorb_true_r.
Qed.

Lemma geb_ltb a b : (a >=? b) = negb (a <? b).
Proof. rewrite Z.geb_leb. destruct (Z.leb_spec b a), (Z.ltb_spec a b); lia || done. Qed.

(** What [next_irq] answers, of a well-formed controller. *)
Lemma next_irq_arbitrates c irq : wf c ->
  next_irq c = Some irq <->
  initialization c = Ready /\ deliverable c irq /\
  (forall j, deliverable c j ->
    rank (highest_priority_irq c) irq <= rank (highest_priority_irq c) j).
Proof.
  intros Hwf. pose proof (wf_priority c Hwf) as Hhp. unfold next_irq. split.
  - intros Hn. destruct (initialization c); try done. split; [done|].
    destruct (highest_priority c (Z.land _ _)) as [p|] eqn:Hp; [|done].
    apply highest_priority_some in Hp as (Hr & Hb & Hmin); [|done].
    rewrite pending_bit in Hb by lia. apply andb_true_iff in Hb as [Hreq Hm%negb_true_iff].
    assert (p = irq /\ forall j, 0 <= j < 8 -> Z.testbit (blocking_service c) j = true ->
      rank (highest_priority_irq c) p < rank (highest_priority_irq c) j) as [-> Hblock].
    { destruct (highest_priority c (blocking_service c)) as [a|] eqn:Ha.
      - apply highest_priority_some in Ha as (Har & Hab & Hamin); [|done].
        rewrite geb_ltb, !priority_rank_eq in Hn by done.
        destruct (Z.ltb_spec (rank (highest_priority_irq c) p) (rank (highest_priority_irq c) a));
          simpl in Hn; [|done].
        split; [congruence|]. intros j Hj Hbj. specialize (Hamin j Hj Hbj). lia.
      - rewrite highest_priority_none in Ha by done. split; [congruence|].
        intros j Hj Hbj. rewrite Ha in Hbj by done. done. }
    split; [by split_and!; try lia|]. intros j (Hj & Hjr & Hjm & _). apply Hmin; [done|].
    rewrite pending_bit, Hjr, Hjm by lia. done.
  - intros (-> & (Hr & Hreq & Hm & Hblock) & Hmin).
    destruct (highest_priority c (Z.land _ _)) as [p|] eqn:Hp.
    2:{ rewrite highest_priority_none in Hp by done. specialize (Hp irq Hr).
        rewrite pending_bit, Hreq, Hm in Hp by done. done. }
    apply highest_priority_some in Hp as (Hpr & Hpb & Hpmin); [|done].
    rewrite pending_bit in Hpb by lia. apply andb_true_iff in Hpb as [Hpq Hpm%negb_true_iff].
    assert (rank (highest_priority_irq c) p <= rank (highest_priority_irq c) irq) as Hle.
    { apply Hpmin; [done|]. by rewrite pending_bit, Hreq, Hm by lia. }
    assert (p = irq) as ->.
    { apply (rank_inj (highest_priority_irq c)); [done | done |]. apply Z.le_antisymm; [done|].
      apply Hmin. split_and!; try done; try lia. intros j Hj Hbj. specialize (Hblock j Hj Hbj). lia. }
    destruct (highest_priority c (blocking_service c)) as [a|] eqn:Ha; [|done].
    apply highest_priority_some in Ha as (Har & Hab & _); [|done].
    rewrite geb_ltb, !priority_rank_eq by done. specialize (Hblock a Har Hab).
    destruct (Z.ltb_spec (rank (highest_priority_irq c) irq) (rank (highest_priority_irq c) a));
      [done | lia].
Qed.

(** C39 Arbitration: outside an initialization sequence [next_irq] returns
    [irq] exactly when [irq] is deliverable and every other deliverable line
    ranks below it; during initialization it returns nothing. *)
Theorem next_irq_spec c irq : wf c ->
  next_irq c = Some irq <->
  initialization c = Ready /\ deliverable c irq /\
  (forall j, deliverable c j ->
    rank (highest_priority_irq c) irq <= rank (highest_priority_irq c) j).
Proof. by apply next_irq_arbitrates. Qed.

(** ** Wake-ups *)

(** What the bus and the peripherals can do between two polls. *)
Inductive event : Type :=
| Line (irq : Z) (high : bool)
| Unmask (irq : Z)
| ReadPort (port bytes : Z)
| WritePort (port bytes value : Z).

Definition valid_event (e : event) : Prop :=
  match e with
  | Line irq _ | Unmask irq => 0 <= irq < 8
  | ReadPort _ _ | WritePort _ _ _ => True
  end.

(** The controller after an event and the waker it woke. *)
Definition on_event (e : event) (c : Controller) : Controller * option waker_id :=
  match e with
  | Line irq high => line_set_level irq high c
  | Unmask irq => default (c, None) (unmask_irq irq c)
  | ReadPort port bytes => ((read_port port bytes c).2, None)
  | WritePort port bytes value => write_port port bytes value c
  end.

Fixpoint run_events (es : list event) (c : Controller) : Controller * list waker_id :=
  match es with
  | [] => (c, [])
  | e :: es =>
      let '(c, w) := on_event e c in
      let '(c, ws) := run_events es c in
      (c, option_list w ++ ws)
  end.

(** [idle task c]: [task] is registered and nothing is deliverable. *)
Definition idle (task : waker_id) (c : Controller) : Prop :=
  waker c = Some task /\ next_irq c = None.

Lemma next_irq_waker w c : next_irq (set_waker w c) = next_irq c.
Proof. reflexivity. Qed.

Lemma update_idle task change c :
  waker (change c) = waker c -> idle task c ->
  let '(c', w) := update change c in
  (w = None /\ idle task c') \/ (w = Some task /\ waker c' = None).
Proof.
  intros Hw [Ht Hn]. unfold update. destruct (next_irq (change c)) eqn:E; simpl.
  - right. rewrite Hw, Ht. done.
  - left. split; [done|]. split; congruence.
Qed.

Lemma update_woken change c :
  waker (change c) = waker c -> waker c = None ->
  (update change c).2 = None /\ waker (update change c).1 = None.
Proof. intros Hw Hn. unfold update. destruct (next_irq _); simpl; rewrite ?Hw; done. Qed.

Lemma waker_refresh c : waker (refresh_levels c) = waker c.
Proof. unfold refresh_levels. by destruct (level_triggered c). Qed.

Lemma waker_record_level irq high c : waker (record_level irq high c) = waker c.
Proof. unfold record_level. rewrite waker_refresh. by destruct high. Qed.

Lemma waker_set_level irq high c : waker (set_level irq high c) = waker c.
Proof. unfold set_level. rewrite waker_record_level. by destruct (_ && _). Qed.

Lemma waker_command v c : waker (command v c) = waker c.
Proof.
  unfold command, write_ocw2, write_ocw3.
  destruct (has v ICW1_INITIALIZE); [done|]. destruct (has v OCW3_SELECT).
  - destruct (has v OCW3_SELECT_READ_REGISTER), (has v OCW3_CHANGE_SPECIAL_MASK); done.
  - destruct (has v OCW2_EOI); [|by destruct (has v OCW2_SPECIFIC_IRQ), (has v OCW2_ROTATE)].
    destruct (if has v OCW2_SPECIFIC_IRQ then _ else _); [|done].
    by destruct (has v OCW2_ROTATE).
Qed.

Lemma waker_data v c : waker (data v c) = waker c.
Proof. unfold data. rewrite waker_refresh. by destruct (initialization c). Qed.

Lemma read_port_none port bytes c : next_irq c = None ->
  waker (read_port port bytes c).2 = waker c /\ next_irq (read_port port bytes c).2 = None.
Proof.
  intros Hn. unfold read_port, read_command, acknowledge.
  destruct (negb _); [done|]. destruct (port =? COMMAND_PORT); [|by destruct (port =? MASK_PORT)].
  destruct (poll_pending c); [|by destruct (read_in_service c)].
  change (next_irq (set_poll_pending false c)) with (next_irq c). by rewrite Hn.
Qed.

Lemma waker_acknowledge c : waker (acknowledge c).2 = waker c.
Proof.
  unfold acknowledge. destruct (next_irq c); [|done]. simpl. rewrite waker_refresh.
  by destruct (auto_eoi c), (rotate_on_auto_eoi c).
Qed.

Lemma waker_read_port port bytes c : waker (read_port port bytes c).2 = waker c.
Proof.
  unfold read_port, read_command.
  destruct (negb _); [done|]. destruct (port =? COMMAND_PORT); [|by destruct (port =? MASK_PORT)].
  destruct (poll_pending c); [|by destruct (read_in_service c)].
  pose proof (waker_acknowledge (set_poll_pending false c)) as H.
  by destruct (acknowledge _) as [[irq|] d].
Qed.

(** Every event is an [update] of a change that keeps the waker, or a read. *)
Lemma event_cases e c : valid_event e ->
  (exists change, (forall d, waker (change d) = waker d) /\ on_event e c = update change c) \/
  (exists port bytes, e = ReadPort port bytes) \/ on_event e c = (c, None).
Proof.
  destruct e as [irq high|irq|port bytes|port bytes value]; simpl; intros Hv.
  - left. exists (set_level irq high). split; [intros; apply waker_set_level | done].
  - left. unfold unmask_irq. destruct (Z.ltb_spec irq IRQ_COUNT) as [|Hge].
    + eexists. split; [|done]. done.
    + unfold IRQ_COUNT in Hge. lia.
  - eauto.
  - unfold write_port. destruct (negb _); [auto|]. left.
    eexists. split; [|done]. intros d. simpl.
    destruct (port =? COMMAND_PORT); [apply waker_command|].
    destruct (port =? MASK_PORT); [apply waker_data | done].
Qed.

Lemma run_events_woken es c : Forall valid_event es -> waker c = None ->
  (run_events es c).2 = [].
Proof.
  revert c. induction es as [|e es IH]; intros c Hes Hw; [done|]. simpl.
  apply Forall_cons in Hes as [He Hes].
  assert ((on_event e c).2 = None /\ waker (on_event e c).1 = None) as [H1 H2].
  { destruct (event_cases e c He) as [(ch & Hch & ->)|[(p & b & ->)| ->]].
    - by apply update_woken.
    - simpl. rewrite waker_read_port. done.
    - done. }
  destruct (on_event e c) as [d w]. simpl in *. subst w. simpl.
  specialize (IH d Hes H2). destruct (run_events es d). done.
Qed.

(** C40 No lost wake-up: after a poll that returned [Pending], whatever the
    peripherals, the guest and other port reads do, either the polling task has
    been woken exactly once, or it is still registered and nothing is
    deliverable. *)
Theorem no_lost_wakeup task es c :
  (poll_interrupt task c).1 = None -> Forall valid_event es ->
  let '(c', woken) := run_events es (poll_interrupt task c).2 in
  (woken = [task]) \/ (woken = [] /\ waker c' = Some task /\ next_irq c' = None).
Proof.
  intros Hp Hes.
  assert (idle task (poll_interrupt task c).2) as Hidle.
  { unfold poll_interrupt, acknowledge in *.
    destruct (next_irq (set_waker (Some task) c)) eqn:E; [done|]. simpl. split; [done|].
    exact E. }
  clear Hp. revert Hidle. generalize (poll_interrupt task c).2. clear c.
  induction es as [|e es IH]; intros c Hidle; simpl; [by right|].
  apply Forall_cons in Hes as [He Hes]. specialize (IH Hes).
  assert (let '(c', w) := on_event e c in
    (w = None /\ idle task c') \/ (w = Some task /\ waker c' = None)) as Hstep.
  { destruct (event_cases e c He) as [(ch & Hch & ->)|[(p & b & ->)| ->]].
    - by apply update_idle.
    - simpl. left. split; [done|]. destruct Hidle as [H1 H2].
      destruct (read_port_none p b c H2) as [E1 E2]. split; congruence.
    - by left. }
  destruct (on_event e c) as [d w]. destruct Hstep as [[-> Hd]|[-> Hd]].
  - specialize (IH d Hd). destruct (run_events es d). done.
  - pose proof (run_events_woken es d Hes Hd). destruct (run_events es d). simpl in *.
    left. by subst.
Qed.

Definition demo_pic : Controller := set_mask 0xfc (new BIOS_VECTOR_BASE).

Lemma no_lost_wakeup_witness :
  (poll_interrupt 7%nat demo_pic).1 = None /\
  let '(c', woken) :=
    run_events [ReadPort COMMAND_PORT 1; Line 1 true; Line 0 true] (poll_interrupt 7%nat demo_pic).2 in
  (woken = [7%nat]) \/ (woken = [] /\ waker c' = Some 7%nat /\ next_irq c' = None).
Proof.
  split; [reflexivity|].
  apply (no_lost_wakeup 7%nat [ReadPort COMMAND_PORT 1; Line 1 true; Line 0 true] demo_pic).
  - reflexivity.
  - repeat (apply Forall_cons; split; [simpl; lia || exact I|]). by apply Forall_nil.
Defined.

(** ** Fully nested mode

    The configuration the BIOS and DOS use: no special mask, no rotation and no
    automatic end of interrupt.  [stack] is the history of acknowledged
    interrupts the guest has not finished, most recent first. *)

Definition nested_mode (c : Controller) : Prop :=
  wf c /\ initialization c = Ready /\ special_mask c = false /\ auto_eoi c = false.

Inductive nested_step : Controller * list Z -> Controller * list Z -> Prop :=
| ns_acknowledge c st irq c' :
    acknowledge c = (Some irq, c') -> nested_step (c, st) (c', irq :: st)
| ns_line c st irq high :
    0 <= irq < 8 -> nested_step (c, st) (set_level irq high c, st)
| ns_mask c st m :
    fits 8 m -> nested_step (c, st) (data m c, st)
| ns_eoi c st :
    nested_step (c, st) (command OCW2_EOI c, tail st).

(** The in-service register is the stack, and ranks grow from its top. *)
Definition nested_inv (s : Controller * list Z) : Prop :=
  let '(c, st) := s in
  nested_mode c /\ Forall (fun i => 0 <= i < 8) st /\
  (forall j, 0 <= j < 8 -> Z.testbit (in_service c) j = true <-> j ∈ st) /\
  StronglySorted Z.lt (map (rank (highest_priority_irq c)) st).

Lemma shiftl_1_bit i j : 0 <= i -> 0 <= j -> Z.testbit (Z.shiftl 1 i) j = (i =? j).
Proof.
  intros. rewrite Z.shiftl_1_l. destruct (Z.eqb_spec i j) as [->|].
  - by apply Z.pow2_bits_true.
  - by apply Z.pow2_bits_false.
Qed.

Lemma clear_bit v i j : 0 <= i < 8 -> 0 <= j < 8 ->
  Z.testbit (Z.land v (bnot 8 (Z.shiftl 1 i))) j = Z.testbit v j && negb (i =? j).
Proof.
  intros. rewrite Z.land_spec, testbit_bnot, shiftl_1_bit by lia.
  destruct (Z.ltb_spec j 8); [|lia]. by rewrite xorb_true_r.
Qed.

Lemma nested_top c irq st : nested_inv (c, irq :: st) ->
  highest_priority c (blocking_service c) = Some irq.
Proof.
  intros (Hm & Hr & Hbits & Hs). destruct Hm as (Hwf & _ & Hsp & _).
  unfold blocking_service. rewrite Hsp. apply Forall_cons in Hr as [Hi Hr].
  apply highest_priority_unique; auto with pic.
  - apply Hbits; [done|]. by constructor.
  - intros j Hj Hb. apply Hbits in Hb; [|done]. simpl in Hs.
    apply StronglySorted_inv in Hs as [_ Hall]. rewrite Forall_forall in Hall.
    apply elem_of_cons in Hb as [->|Hb]; [lia|].
    apply Z.lt_le_incl, Hall, list_elem_of_fmap. eauto.
Qed.

Lemma nested_empty c : nested_inv (c, []) -> highest_priority c (blocking_service c) = None.
Proof.
  intros (Hm & _ & Hbits & _). destruct Hm as (Hwf & _ & Hsp & _).
  unfold blocking_service. rewrite Hsp. apply highest_priority_none; [auto with pic|].
  intros j Hj. destruct (Z.testbit _ j) eqn:E; [|done].
  apply Hbits in E; [|done]. by apply elem_of_nil in E.
Qed.

(** Operations that keep the in-service register and the arbitration mode. *)
Lemma nested_inv_frame c d st : nested_inv (c, st) -> wf d ->
  initialization d = Ready -> special_mask d = special_mask c -> auto_eoi d = auto_eoi c ->
  in_service d = in_service c -> highest_priority_irq d = highest_priority_irq c ->
  nested_inv (d, st).
Proof.
  intros (Hm & Hr & Hb & Hs) Hwf E1 E2 E3 E4 E5. destruct Hm as (_ & _ & Hsp & Hae).
  unfold nested_inv, nested_mode. rewrite E2, E3, E4, E5. auto.
Qed.

Lemma refresh_frame c :
  initialization (refresh_levels c) = initialization c /\
  special_mask (refresh_levels c) = special_mask c /\
  auto_eoi (refresh_levels c) = auto_eoi c /\
  in_service (refresh_levels c) = in_service c /\
  highest_priority_irq (refresh_levels c) = highest_priority_irq c.
Proof. unfold refresh_levels. by destruct (level_triggered c). Qed.

Lemma nested_acknowledge c st irq c' : nested_inv (c, st) ->
  acknowledge c = (Some irq, c') -> nested_inv (c', irq :: st).
Proof.
  intros Hinv Hack. pose proof Hinv as ((Hwf & Hi & Hsp & Hae) & Hr & Hb & Hs).
  pose proof (wf_acknowledge c Hwf) as Hwf'. rewrite Hack in Hwf'. simpl in Hwf'.
  unfold acknowledge in Hack. destruct (next_irq c) as [n|] eqn:Hn; [|done].
  cbn [auto_eoi set_requests] in Hack. rewrite Hae in Hack. injection Hack as -> <-.
  apply next_irq_arbitrates in Hn as (_ & (Hirq & _ & _ & Hblock) & _); [|done].
  unfold blocking_service in Hblock. rewrite Hsp in Hblock.
  destruct (refresh_frame (set_in_service (Z.lor (in_service c) (Z.shiftl 1 irq))
    (set_requests (Z.land (requests c) (bnot 8 (Z.shiftl 1 irq))) c))) as (E1 & E2 & E3 & E4 & E5).
  unfold nested_inv, nested_mode.
  split_and!; [done | by rewrite E1 | by rewrite E2 | by rewrite E3 | | |].
  - by constructor.
  - intros j Hj. rewrite E4. simpl. rewrite Z.lor_spec, shiftl_1_bit by lia.
    rewrite elem_of_cons, <- Hb, orb_true_iff, Z.eqb_eq by done. naive_solver.
  - rewrite E5. simpl. constructor; [exact Hs|]. rewrite Forall_fmap, Forall_forall.
    intros j Hj. apply Hblock; [rewrite Forall_forall in Hr; auto|].
    apply Hb; [rewrite Forall_forall in Hr; auto | done].
Qed.

Lemma command_eoi c :
  command OCW2_EOI c =
  match highest_priority c (blocking_service c) with
  | Some irq => set_in_service (Z.land (in_service c) (bnot 8 (Z.shiftl 1 irq))) c
  | None => c
  end.
Proof. reflexivity. Qed.

Lemma nested_eoi c st : nested_inv (c, st) -> nested_inv (command OCW2_EOI c, tail st).
Proof.
  intros Hinv. rewrite command_eoi. destruct st as [|irq st]; [by rewrite nested_empty|].
  rewrite (nested_top c irq st Hinv).
  destruct Hinv as ((Hwf & Hi & Hsp & Hae) & Hr & Hb & Hs).
  apply Forall_cons in Hr as [Hirq Hr]. simpl in Hs.
  apply StronglySorted_inv in Hs as [Hs Hall].
  split; [split_and!; simpl; auto 6 with pic|]. split_and!; simpl; [done | | done].
  intros j Hj. rewrite clear_bit, andb_true_iff, Hb, elem_of_cons by done.
  rewrite negb_true_iff, Z.eqb_neq. split; [naive_solver|].
  intros Hin. split; [auto|]. intros ->. rewrite Forall_fmap, Forall_forall in Hall.
  specialize (Hall j Hin). simpl in Hall. lia.
Qed.

Lemma nested_step_inv s s' : nested_step s s' -> nested_inv s -> nested_inv s'.
Proof.
  destruct 1 as [c st irq c' Hack|c st irq high Hirq|c st m Hm|c st]; intros Hinv.
  - by eapply nested_acknowledge.
  - pose proof Hinv as ((Hwf & Hi & _) & _).
    apply (nested_inv_frame c); auto using wf_set_level;
      unfold set_level, record_level; destruct (high && _), high;
      unfold refresh_levels; simpl; by destruct (level_triggered c).
  - pose proof Hinv as ((Hwf & Hi & _) & _).
    apply (nested_inv_frame c); auto using wf_data; unfold data; rewrite Hi;
      unfold refresh_levels; simpl; by destruct (level_triggered c).
  - by apply nested_eoi.
Qed.

(** Nesting discipline: from a ready controller with nothing in service, in
    every reachable state the in-service register holds exactly the interrupts
    acknowledged and not yet finished, each acknowledged one outranks those
    below it, and the next non-specific EOI finishes exactly the most recently
    acknowledged one. *)
Theorem nested_service_lifo c0 c st :
  nested_mode c0 -> in_service c0 = 0 -> rtc nested_step (c0, []) (c, st) ->
  (forall j, 0 <= j < 8 -> Z.testbit (in_service c) j = true <-> j ∈ st) /\
  StronglySorted Z.lt (map (rank (highest_priority_irq c)) st) /\
  (forall j, 0 <= j < 8 ->
     Z.testbit (in_service (command OCW2_EOI c)) j = true <-> j ∈ tail st).
Proof.
  intros Hm H0 Hsteps.
  assert (nested_inv (c, st)) as Hinv.
  { assert (nested_inv (c0, [])) as Hinit.
    { split_and!; [done | by constructor | | by constructor].
      intros j _. rewrite H0, Z.testbit_0_l. split; [done|]. by intros ?%elem_of_nil. }
    revert Hinit. generalize (c0, @nil Z) (c, st) Hsteps. clear.
    induction 1; eauto using nested_step_inv. }
  pose proof (nested_eoi c st Hinv) as (_ & _ & Hb' & _).
  destruct Hinv as (_ & _ & Hb & Hs). auto.
Qed.

Lemma nested_service_lifo_witness :
  exists c, rtc nested_step (set_mask 0 (new 8), []) (c, [0; 1]) /\
    (forall j, 0 <= j < 8 ->
       Z.testbit (in_service (command OCW2_EOI c)) j = true <-> j ∈ [1]).
Proof.
  set (c0 := set_mask 0 (new 8)).
  set (c1 := set_level 1 true c0). set (c2 := (acknowledge c1).2).
  set (c3 := set_level 0 true c2). set (c4 := (acknowledge c3).2).
  assert (rtc nested_step (c0, []) (c4, [0; 1])) as Hs.
  { apply rtc_l with (c1, []); [apply ns_line; lia|].
    apply rtc_l with (c2, [1]); [by apply ns_acknowledge|].
    apply rtc_l with (c3, [1]); [apply ns_line; lia|].
    apply rtc_l with (c4, [0; 1]); [by apply ns_acknowledge|]. apply rtc_refl. }
  exists c4. split; [exact Hs|].
  refine (proj2 (proj2 (nested_service_lifo c0 c4 [0; 1] _ _ Hs))).
  - split_and!; [|reflexivity|reflexivity|reflexivity].
    apply wf_set_mask; [apply fits8_0|]. apply wf_new; [by apply (bool_decide_unpack _)|reflexivity].
  - reflexivity.
Defined.

(** ** Initialization sequence *)

(** The data writes ICW1 [v] asks for after ICW2: ICW3 unless single, ICW4 if
    requested. *)
Definition icw_writes (v icw2 icw3 icw4 : Z) : list Z :=
  [icw2] ++ (if has v ICW1_SINGLE_CONTROLLER then [] else [icw3])
         ++ (if has v ICW1_EXPECT_ICW4 then [icw4] else []).

(** Initialization: from any state, ICW1 followed by the words it announces
    leaves the controller ready with the ICW2 vector base, everything unmasked,
    nothing in service, the lines' levels kept, automatic EOI as ICW4 says and
    requests equal to the asserted lines in level mode and empty in edge mode. *)
Theorem initialization_sequence c v icw2 icw3 icw4 :
  has v ICW1_INITIALIZE = true ->
  let c' := fold_left (fun c b => data b c) (icw_writes v icw2 icw3 icw4) (command v c) in
  initialization c' = Ready /\ vector_base c' = Z.land icw2 (bnot 8 IRQ_NUMBER_MASK) /\
  mask c' = 0 /\ in_service c' = 0 /\ levels c' = levels c /\ highest_priority_irq c' = 0 /\
  level_triggered c' = has v ICW1_LEVEL_TRIGGERED /\
  auto_eoi c' = (has v ICW1_EXPECT_ICW4 && has icw4 ICW4_AUTO_EOI) /\
  requests c' = (if has v ICW1_LEVEL_TRIGGERED then levels c else 0) /\
  waker c' = waker c.
Proof.
  intros Hv c'. subst c'. unfold command. rewrite Hv. unfold icw_writes, initialize.
  destruct (has v ICW1_SINGLE_CONTROLLER), (has v ICW1_EXPECT_ICW4),
    (has v ICW1_LEVEL_TRIGGERED); simpl; split_and!; reflexivity.
Qed.

Lemma initialization_sequence_witness :
  has 0x11 ICW1_INITIALIZE = true /\
  vector_base (fold_left (fun c b => data b c) (icw_writes 0x11 0x43 4 1) (command 0x11 demo_pic))
  = 0x40.
Proof.
  split; [reflexivity|].
  etransitivity; [exact (proj1 (proj2 (initialization_sequence demo_pic 0x11 0x43 4 1 eq_refl)))|].
  reflexivity.
Defined.

(** ** Edges and vectors *)

(** Edge detection: in edge mode a line latches a request exactly on its
    low-to-high transition and never drops one; in level mode the request
    register is the set of asserted lines. *)
Theorem set_level_requests c irq high j : wf c -> 0 <= irq < 8 -> 0 <= j < 8 ->
  Z.testbit (requests (set_level irq high c)) j =
  if level_triggered c then (if irq =? j then high else Z.testbit (levels c) j)
  else Z.testbit (requests c) j || ((irq =? j) && high && negb (Z.testbit (levels c) j)).
Proof.
  intros Hwf Hirq Hj. unfold set_level, record_level, refresh_levels.
  assert ((Z.land (levels c) (Z.shiftl 1 irq) =? 0) = negb (Z.testbit (levels c) irq)) as ->.
  { rewrite <- (has_bit (levels c) irq) by lia. unfold has. by rewrite negb_involutive. }
  destruct high, (Z.testbit (levels c) irq) eqn:El, (level_triggered c) eqn:Et; simpl;
    rewrite ?Et; simpl; rewrite ?Z.lor_spec, ?clear_bit, ?shiftl_1_bit by lia;
    destruct (Z.eqb_spec irq j) as [<-|]; rewrite ?El; simpl; btauto.
Qed.

Lemma set_level_requests_witness :
  Z.testbit (requests (set_level 1 true demo_pic)) 1 = true.
Proof.
  etransitivity; [apply (set_level_requests demo_pic 1 true 1)|].
  - apply wf_set_mask; [by apply (bool_decide_unpack _)|].
    apply wf_new; [by apply (bool_decide_unpack _)|reflexivity].
  - lia.
  - lia.
  - reflexivity.
Defined.

Lemma vector_no_carry base irq : base mod 8 = 0 -> 0 <= irq < 8 ->
  Z.lor base irq = base + irq.
Proof.
  intros Ha Hr. apply lor_add. apply Z.bits_inj'. intros i Hi.
  rewrite Z.land_spec, Z.testbit_0_l. destruct (decide (i < 3)).
  - assert (Z.testbit base i = false) as ->; [|done].
    rewrite <- (Z.mod_pow2_bits_low base 3 i) by lia.
    change (2 ^ 3) with 8. rewrite Ha. apply Z.testbit_0_l.
  - rewrite (fits_testbit 3 irq) by (unfold fits; lia). btauto.
Qed.

Lemma acknowledge_frame c irq d : wf c -> acknowledge c = (Some irq, d) ->
  next_irq c = Some irq /\ vector_base d = vector_base c /\
  Z.testbit (requests d) irq = (level_triggered c && Z.testbit (levels c) irq).
Proof.
  intros Hwf Hack. unfold acknowledge in Hack.
  destruct (next_irq c) as [n|] eqn:Hn; [|done]. injection Hack as -> <-.
  pose proof (next_irq_in_range c irq Hwf Hn) as (Hr & _). split; [done|].
  unfold refresh_levels.
  destruct (auto_eoi c), (rotate_on_auto_eoi c); simpl; destruct (level_triggered c); simpl;
    try done; split; try done; rewrite clear_bit by lia; rewrite Z.eqb_refl; btauto.
Qed.

(** Delivery to the CPU: a poll that is ready returns the vector of the
    arbitrated line, [vector_base + irq] with [irq] below 8 (the bitwise or
    never carries), and leaves a well-formed controller that requests the line
    again only if it is level-triggered and still asserted. *)
Theorem poll_vector c task v c' : wf c -> poll_interrupt task c = (Some v, c') ->
  exists irq, next_irq c = Some irq /\ 0 <= irq < 8 /\
    v = vector_base c + irq /\ v / 8 = vector_base c / 8 /\ fits 8 v /\ wf c' /\
    Z.testbit (requests c') irq = (level_triggered c && Z.testbit (levels c) irq).
Proof.
  intros Hwf Hp. unfold poll_interrupt in Hp.
  pose proof (wf_acknowledge (set_waker (Some task) c) ltac:(auto with pic)) as Hwf'.
  destruct (acknowledge (set_waker (Some task) c)) as [[irq|] d] eqn:Hack; [|done].
  destruct (acknowledge_frame _ _ _ (wf_set_waker _ _ Hwf) Hack) as (Hn & Hvb & Hreq).
  simpl in *.
  rewrite next_irq_waker in Hn. pose proof (next_irq_in_range c irq Hwf Hn) as (Hr & _).
  injection Hp as Hv <-. exists irq. rewrite Hvb in Hv.
  pose proof (wf_aligned c Hwf) as Ha. pose proof (wf_vector c Hwf) as Hvf.
  assert (v = vector_base c + irq) as Hsum by (rewrite <- Hv; by apply vector_no_carry).
  split_and!; try done; try lia.
  - Z.div_mod_to_equations. lia.
  - unfold fits in *. change (2 ^ 8) with 256 in *. Z.div_mod_to_equations. lia.
Qed.

Lemma poll_vector_witness :
  exists v c', poll_interrupt 7%nat (set_level 1 true demo_pic) = (Some v, c') /\ v = 9.
Proof.
  eexists _, _. split; [reflexivity|].
  edestruct (poll_vector (set_level 1 true demo_pic) 7%nat) as (irq & Hn & _ & Hv & _).
  - apply wf_set_level; [lia|]. apply wf_set_mask; [by apply (bool_decide_unpack _)|].
    apply wf_new; [by apply (bool_decide_unpack _)|reflexivity].
  - reflexivity.
  - vm_compute in Hn. injection Hn as <-. exact Hv.
Defined.

Lemma next_irq_spec_witness :
  wf (set_level 1 true demo_pic) /\ deliverable (set_level 1 true demo_pic) 1.
Proof.
  assert (wf (set_level 1 true demo_pic)) as Hwf.
  { apply wf_set_level; [lia|]. apply wf_set_mask; [by apply (bool_decide_unpack _)|].
    apply wf_new; [by apply (bool_decide_unpack _)|reflexivity]. }
  split; [exact Hwf|].
  exact (proj1 (proj2 (proj1 (next_irq_spec _ 1 Hwf) eq_refl))).
Defined.

(** ** Frames for the devices on its lines *)

Lemma line_fields irq high c :
  let d := (line_set_level irq high c).1 in
  requests d = requests (set_level irq high c) /\ levels d = levels (set_level irq high c) /\
  level_triggered d = level_triggered c /\ (0 <= irq < 8 -> wf c -> wf d).
Proof.
  unfold line_set_level, update. assert (level_triggered (set_level irq high c) = level_triggered c).
  { unfold set_level, record_level, refresh_levels.
    destruct (high && _), high; simpl; destruct (level_triggered c) eqn:E; by rewrite ?E. }
  destruct (next_irq _); simpl; split_and!; try done; intros; auto using wf_set_waker, wf_set_level.
Qed.

Lemma set_level_levels c irq high j : 0 <= irq < 8 -> 0 <= j < 8 ->
  Z.testbit (levels (set_level irq high c)) j = if irq =? j then high else Z.testbit (levels c) j.
Proof.
  intros Hi Hj. unfold set_level, record_level, refresh_levels.
  destruct (high && _), high; simpl; destruct (level_triggered c); simpl;
    rewrite ?Z.lor_spec, ?clear_bit, ?shiftl_1_bit by lia; destruct (irq =? j); simpl; btauto.
Qed.

Lemma levels_refresh c : levels (refresh_levels c) = levels c.
Proof. unfold refresh_levels. by destruct (level_triggered c). Qed.

Lemma levels_update change c : levels (update change c).1 = levels (change c).
Proof. unfold update. by destruct (next_irq _). Qed.

Lemma levels_command v c : levels (command v c) = levels c.
Proof.
  unfold command, write_ocw2, write_ocw3.
  destruct (has v ICW1_INITIALIZE); [done|]. destruct (has v OCW3_SELECT).
  - destruct (has v OCW3_SELECT_READ_REGISTER), (has v OCW3_CHANGE_SPECIAL_MASK); done.
  - destruct (has v OCW2_EOI); [|by destruct (has v OCW2_SPECIFIC_IRQ), (has v OCW2_ROTATE)].
    destruct (if has v OCW2_SPECIFIC_IRQ then _ else _); [|done].
    by destruct (has v OCW2_ROTATE).
Qed.

Lemma levels_data v c : levels (data v c) = levels c.
Proof. unfold data. rewrite levels_refresh. by destruct (initialization c). Qed.

Lemma levels_acknowledge c : levels (acknowledge c).2 = levels c.
Proof.
  unfold acknowledge. destruct (next_irq c); [|done]. simpl. rewrite levels_refresh.
  by destruct (auto_eoi c), (rotate_on_auto_eoi c).
Qed.

Lemma pic_read_frame port bytes c :
  levels (read_port port bytes c).2 = levels c /\ (wf c -> wf (read_port port bytes c).2).
Proof.
  unfold read_port, read_command.
  destruct (negb _); [done|]. destruct (port =? COMMAND_PORT); [|by destruct (port =? MASK_PORT)].
  destruct (poll_pending c); [|by destruct (read_in_service c)].
  pose proof (levels_acknowledge (set_poll_pending false c)) as H.
  pose proof (wf_acknowledge (set_poll_pending false c)) as Hw.
  destruct (acknowledge _) as [[irq|] d]; simpl in *; auto with pic.
Qed.

(** PIC events of other devices keep a line's recorded level. *)
Lemma pic_event_frame line e c : 0 <= line < 8 -> valid_event e -> (forall h, e <> Line line h) -> wf c ->
  wf (on_event e c).1 /\
  Z.testbit (levels (on_event e c).1) line = Z.testbit (levels c) line.
Proof.
  intros Hline Hv Hne Hwf. destruct e as [irq high|irq|port bytes|port bytes value]; simpl in *.
  - pose proof (line_fields irq high c) as (_ & -> & _ & W). split; [auto|].
    rewrite set_level_levels by done.
    destruct (Z.eqb_spec irq line) as [->|]; [by destruct (Hne high) | done].
  - unfold unmask_irq. destruct (irq <? IRQ_COUNT); simpl; [|done]. rewrite levels_update.
    split; [|done]. apply wf_update; [|done]. intros d Hd. apply wf_set_mask; [|done].
    apply fits8_land_l. auto with pic.
  - destruct (pic_read_frame port bytes c) as [-> H]. auto.
  - unfold write_port. destruct (negb _); [done|]. rewrite levels_update. split.
    + apply wf_update; [|done]. intros d Hd.
      destruct (port =? COMMAND_PORT); [by apply wf_command|].
      destruct (port =? MASK_PORT); [|done]. apply wf_data; [apply wrap_fits; lia | done].
    + destruct (port =? COMMAND_PORT); [by rewrite levels_command|].
      destruct (port =? MASK_PORT); [by rewrite levels_data | done].
Qed.
