(* ===== verification/Pit.v ===== *)
(** * The 8254 interval timer

    Models [src/crates/pit/src/lib.rs] ([Counter]), [src/crates/pit/src/clock.rs]
    and [src/crates/pit/src/timer.rs] ([Pit], with the interrupt line of [Pic]).
    Counter fields are the [Z] values of their unsigned Rust types; a [Duration]
    is its number of nanoseconds.  [None] is a panic of the Rust code. *)

From S2P Require Import Prelude Pic.

Local Open Scope Z_scope.

Definition CHANNEL_0_PORT : Z := 0x40.
Definition CHANNEL_2_PORT : Z := 0x42.
Definition CONTROL_PORT : Z := 0x43.

Record Counter : Type := mkCounter {
  control : Z;
  gate : bool;
  reload : Z;
  active : Z;
  phase : Z;
  loading : bool;
  null_count : bool;
  write_low : option Z;
  read_high : bool;
  latched_count : option Z;
  latched_status : option Z;
}.

Definition counter_default : Counter :=
  mkCounter 0 false 0 0 0 false false None false None None.

Definition set_phase (x : Z) (c : Counter) : Counter :=
  mkCounter (control c) (gate c) (reload c) (active c) x (loading c) (null_count c)
    (write_low c) (read_high c) (latched_count c) (latched_status c).
Definition set_loading (x : bool) (c : Counter) : Counter :=
  mkCounter (control c) (gate c) (reload c) (active c) (phase c) x (null_count c)
    (write_low c) (read_high c) (latched_count c) (latched_status c).
Definition set_gate_field (x : bool) (c : Counter) : Counter :=
  mkCounter (control c) x (reload c) (active c) (phase c) (loading c) (null_count c)
    (write_low c) (read_high c) (latched_count c) (latched_status c).
Definition set_write_low (x : option Z) (c : Counter) : Counter :=
  mkCounter (control c) (gate c) (reload c) (active c) (phase c) (loading c) (null_count c)
    x (read_high c) (latched_count c) (latched_status c).
Definition set_reload (x : Z) (c : Counter) : Counter :=
  mkCounter (control c) (gate c) x (active c) (phase c) (loading c) (null_count c)
    (write_low c) (read_high c) (latched_count c) (latched_status c).
Definition set_null_count (x : bool) (c : Counter) : Counter :=
  mkCounter (control c) (gate c) (reload c) (active c) (phase c) (loading c) x
    (write_low c) (read_high c) (latched_count c) (latched_status c).
Definition set_read_high (x : bool) (c : Counter) : Counter :=
  mkCounter (control c) (gate c) (reload c) (active c) (phase c) (loading c) (null_count c)
    (write_low c) x (latched_count c) (latched_status c).
Definition set_latched_count (x : option Z) (c : Counter) : Counter :=
  mkCounter (control c) (gate c) (reload c) (active c) (phase c) (loading c) (null_count c)
    (write_low c) (read_high c) x (latched_status c).
Definition set_latched_status (x : option Z) (c : Counter) : Counter :=
  mkCounter (control c) (gate c) (reload c) (active c) (phase c) (loading c) (null_count c)
    (write_low c) (read_high c) (latched_count c) x.

(** ** Counter state *)

Definition mode (c : Counter) : option Z :=
  let mode := Z.land (Z.shiftr (control c) 1) 3 in
  if (Z.land (control c) 1 =? 0) && ((mode =? 2) || (mode =? 3)) then Some mode else None.

Definition is_mode (c : Counter) (m : Z) : bool :=
  match mode c with Some x => x =? m | None => false end.

(** [div_ceil] and the saturating subtraction of the Rust integers. *)
Definition div_ceil (a b : Z) : Z := (a + b - 1) / b.
Definition saturating_sub (a b : Z) : Z := Z.max 0 (a - b).

Definition high_clocks (c : Counter) : Z :=
  if is_mode c 3 then div_ceil (active c) 2 else saturating_sub (active c) 1.

Definition output (c : Counter) : bool :=
  match mode c with
  | Some _ => negb (gate c) || loading c || (active c =? 0) || (phase c <? high_clocks c)
  | None => false
  end.

Definition load (c : Counter) : Counter :=
  mkCounter (control c) (gate c) (reload c) (if 2 <=? reload c then reload c else 0) (phase c)
    (loading c) false (write_low c) (read_high c) (latched_count c) (latched_status c).

Definition count (c : Counter) : Z :=
  let count :=
    if is_mode c 2 then active c - phase c
    else if active c =? 0 then 0
    else
      let half_phase :=
        if phase c <? high_clocks c then phase c else phase c - high_clocks c in
      saturating_sub (Z.land (active c) (bnot 32 1)) (2 * half_phase) in
  wrap 16 count.

Definition latch (want_count status : bool) (c : Counter) : Counter :=
  let c := match latched_count c with
           | None => if want_count then set_latched_count (Some (count c)) c else c
           | Some _ => c
           end in
  match latched_status c with
  | None =>
      if status then
        set_latched_status
          (Some (Z.lor (Z.lor (control c) (Z.shiftl (Z.b2z (null_count c)) 6))
                       (Z.shiftl (Z.b2z (output c)) 7))) c
      else c
  | Some _ => c
  end.

Definition counter_control (value : Z) (c : Counter) : Counter :=
  if Z.land value 0x30 =? 0 then latch true false c
  else mkCounter (Z.land value 0x3f) (gate c) 0 0 0 false true None false None None.

Definition write (value : Z) (c : Counter) : Counter :=
  let accept count c :=
    let c := set_null_count true (set_reload (if count =? 0 then 65536 else count) c) in
    if active c =? 0 then set_loading true c else c in
  let access := Z.land (control c) 0x30 in
  if access =? 0x10 then accept value c
  else if access =? 0x20 then accept (wrap 16 (Z.shiftl value 8)) c
  else if access =? 0x30 then
    match write_low c with
    | Some low => accept (low + 256 * value) (set_write_low None c)
    | None => set_write_low (Some value) c
    end
  else c.

Definition read (c : Counter) : Z * Counter :=
  match latched_status c with
  | Some status => (status, set_latched_status None c)
  | None =>
      let count := default (count c) (latched_count c) in
      let access := Z.land (control c) 0x30 in
      let high := (access =? 0x20) || ((access =? 0x30) && read_high c) in
      let c := set_read_high ((access =? 0x30) && negb (read_high c)) c in
      let c := if read_high c then c else set_latched_count None c in
      (if high then wrap 8 (Z.shiftr count 8) else wrap 8 count, c)
  end.

Definition set_gate (high : bool) (c : Counter) : Counter :=
  let c := if high && negb (gate c) && negb (reload c =? 0) then set_loading true c else c in
  set_gate_field high c.

(** ** Advancing *)

Definition advance_periodic (clocks : Z) (c : Counter) : Z * Counter :=
  let period := active c in
  let high := high_clocks c in
  let end_ := phase c + clocks in
  let integral := end_ / period * high + Z.min (end_ mod period) high - Z.min (phase c) high in
  (wrap 64 integral, set_phase (wrap 32 (end_ mod period)) c).

(** The elapsed part of a running counter with a pending reload, up to its next
    boundary: the remaining clocks, the high clocks and the counter. *)
Definition advance_reload (clocks : Z) (c : Counter) : Z * Z * Counter :=
  if null_count c then
    let boundary := if is_mode c 3 && (phase c <? high_clocks c) then high_clocks c
                    else active c in
    let until_reload := boundary - phase c in
    if until_reload <=? clocks then
      let next_high := boundary =? active c in
      let '(high, c) := advance_periodic until_reload c in
      let c := load c in
      (clocks - until_reload, high, set_phase (if next_high then 0 else high_clocks c) c)
    else (clocks, 0, c)
  else (clocks, 0, c).

Definition advance (clocks : Z) (c : Counter) : Z * Counter :=
  let '(clocks, high, c) :=
    if loading c && negb (clocks =? 0) then
      (clocks - 1, Z.b2z (output c), set_loading false (set_phase 0 (load c)))
    else (clocks, 0, c) in
  if negb (match mode c with Some _ => true | None => false end) || (active c =? 0) || negb (gate c)
  then (high + clocks * Z.b2z (output c), c)
  else
    let '(clocks, more, c) := advance_reload clocks c in
    let high := high + more in
    if active c =? 0 then (high + clocks * Z.b2z (output c), c)
    else let '(more, c) := advance_periodic clocks c in (high + more, c).

Definition next_transition (c : Counter) : option Z :=
  if negb (match mode c with Some _ => true | None => false end) || negb (gate c) then None
  else if loading c then Some 1
  else if active c =? 0 then None
  else
    let boundary := if phase c <? high_clocks c then high_clocks c else active c in
    Some (boundary - phase c).

(** The [while let] loop of [next_rising_edge]; the outer [None] is a loop
    still running after [fuel] iterations. *)
Fixpoint rising_edge_loop (fuel : nat) (clocks : Z) (c : Counter) : option (option Z) :=
  match next_transition c with
  | None => Some None
  | Some until =>
      match fuel with
      | O => None
      | S fuel =>
          let high := output c in
          let c := (advance until c).2 in
          if negb high && output c then Some (Some (clocks + until))
          else rising_edge_loop fuel (clocks + until) c
      end
  end.

Definition next_rising_edge (c : Counter) : option Z := default None (rising_edge_loop 3 0 c).

(** ** Invariant and the one-clock reference

    [tick] is one input clock of the counter, written without any batching. *)

Record cwf (c : Counter) : Prop := {
  cwf_control : fits 6 (control c);
  cwf_reload : reload c = 0 \/ 1 <= reload c <= 65536;
  cwf_active : active c = 0 /\ phase c = 0 \/ 2 <= active c <= 65536 /\ 0 <= phase c < active c;
  cwf_latch : forall n, latched_count c = Some n -> fits 16 n;
  cwf_status : forall n, latched_status c = Some n -> fits 8 n;
  cwf_low : forall n, write_low c = Some n -> fits 8 n;
}.

Definition running (c : Counter) : Prop := mode c <> None /\ gate c = true /\ active c <> 0.

Definition boundary (c : Counter) : Z :=
  if is_mode c 3 && (phase c <? high_clocks c) then high_clocks c else active c.

Definition tick (c : Counter) : Counter :=
  if loading c then set_loading false (set_phase 0 (load c))
  else if negb (match mode c with Some _ => true | None => false end) || (active c =? 0)
          || negb (gate c) then c
  else if null_count c && (phase c + 1 =? boundary c) then
    let next_high := boundary c =? active c in
    set_phase (if next_high then 0 else high_clocks (load c)) (load c)
  else set_phase ((phase c + 1) mod active c) c.

Fixpoint ticks (n : nat) (c : Counter) : Counter :=
  match n with O => c | S n => ticks n (tick c) end.

(** The number of the first [n] clock intervals during which OUT is high. *)
Fixpoint high_intervals (n : nat) (c : Counter) : Z :=
  match n with O => 0 | S n => Z.b2z (output c) + high_intervals n (tick c) end.

(** High clocks of a periodic output in [0, e), for period [p] and high part [h]. *)
Definition integral (p h e : Z) : Z := e / p * h + Z.min (e mod p) h.

Lemma integral_succ p h e : 0 < p -> 0 <= h < p ->
  integral p h (e + 1) = integral p h e + Z.b2z (e mod p <? h).
Proof.
  intros Hp Hh. unfold integral.
  pose proof (Z.mod_pos_bound e p Hp). pose proof (Z.div_mod e p ltac:(lia)).
  destruct (decide (e mod p + 1 < p)).
  - assert ((e + 1) / p = e / p /\ (e + 1) mod p = e mod p + 1) as [-> ->].
    { split; symmetry; [apply Z.div_unique with (e mod p + 1) |
        apply Z.mod_unique with (e / p)]; lia. }
    destruct (Z.ltb_spec (e mod p) h); simpl; lia.
  - assert ((e + 1) / p = e / p + 1 /\ (e + 1) mod p = 0) as [-> ->].
    { split; symmetry; [apply Z.div_unique with 0 | apply Z.mod_unique with (e / p + 1)]; lia. }
    destruct (Z.ltb_spec (e mod p) h); simpl; lia.
Qed.

Lemma integral_period p h e : 0 < p -> integral p h (p + e) = h + integral p h e.
Proof.
  intros Hp. unfold integral.
  replace (p + e) with (e + 1 * p) by lia. rewrite Z.div_add, Z.mod_add by lia. lia.
Qed.

Lemma integral_small p h e : 0 <= e < p -> integral p h e = Z.min e h.
Proof. intros H. unfold integral. rewrite Z.div_small, Z.mod_small by lia. lia. Qed.

Lemma integral_bound p h e n : 0 < p -> 0 <= h < p -> 0 <= e -> 0 <= n ->
  0 <= integral p h (e + n) - integral p h e <= n.
Proof.
  intros Hp Hh He Hn. revert n Hn. apply natlike_ind.
  - rewrite Z.add_0_r. lia.
  - intros n Hn IH. rewrite Z.add_succ_r, <- Z.add_1_r, integral_succ by done.
    destruct (_ <? _); simpl; lia.
Qed.

Lemma high_clocks_bound c : cwf c -> active c <> 0 -> 0 < high_clocks c < active c.
Proof.
  intros Hc Ha. destruct (cwf_active c Hc) as [|[? ?]]; [lia|].
  unfold high_clocks, div_ceil, saturating_sub. destruct (is_mode c 3); [|lia].
  Z.div_mod_to_equations. lia.
Qed.

Lemma advance_periodic_eq c n : cwf c -> active c <> 0 -> 0 <= n < 2 ^ 64 ->
  advance_periodic n c =
  (integral (active c) (high_clocks c) (phase c + n) -
   integral (active c) (high_clocks c) (phase c), set_phase ((phase c + n) mod active c) c).
Proof.
  intros Hc Ha Hn. pose proof (high_clocks_bound c Hc Ha) as Hh.
  destruct (cwf_active c Hc) as [|[Hact Hph]]; [lia|].
  unfold advance_periodic. f_equal.
  - rewrite (integral_small _ _ (phase c)) by lia.
    rewrite wrap_small.
    + unfold integral. lia.
    + pose proof (integral_bound (active c) (high_clocks c) (phase c) n) as Hb.
      rewrite (integral_small _ _ (phase c)) in Hb by lia. unfold integral in Hb.
      unfold fits. lia.
  - rewrite wrap_small; [done|].
    pose proof (Z.mod_pos_bound (phase c + n) (active c) ltac:(lia)).
    unfold fits. change (2 ^ 32) with 4294967296. lia.
Qed.

Lemma high_clocks_set_phase x c : high_clocks (set_phase x c) = high_clocks c.
Proof. reflexivity. Qed.

Lemma running_output c : cwf c -> running c -> loading c = false ->
  output c = (phase c <? high_clocks c).
Proof.
  intros Hc (Hm & Hg & Ha) Hl. unfold output. destruct (mode c); [|done].
  rewrite Hg, Hl. destruct (Z.eqb_spec (active c) 0); done.
Qed.

(** One clock of a running counter without a reload at the next boundary. *)
Definition next_phase (c : Counter) : Counter := set_phase ((phase c + 1) mod active c) c.

Lemma cwf_set_phase c x : cwf c -> active c <> 0 -> 0 <= x < active c -> cwf (set_phase x c).
Proof. intros [] Ha Hx. split; simpl; auto. right. lia. Qed.

Lemma cwf_next_phase c : cwf c -> active c <> 0 -> cwf (next_phase c).
Proof.
  intros Hc Ha. apply cwf_set_phase; [done | done |].
  destruct (cwf_active c Hc) as [|[? ?]]; [lia|]. apply Z.mod_pos_bound. lia.
Qed.

Lemma periodic_succ c n : cwf c -> running c -> loading c = false -> 0 <= n -> n + 1 < 2 ^ 64 ->
  advance_periodic (n + 1) c =
  (Z.b2z (output c) + (advance_periodic n (next_phase c)).1, (advance_periodic n (next_phase c)).2).
Proof.
  intros Hc Hr Hl Hn Hlt. pose proof Hr as (_ & _ & Ha).
  rewrite running_output by done. pose proof (high_clocks_bound c Hc Ha) as Hh.
  destruct (cwf_active c Hc) as [|[Hact Hph]]; [lia|].
  rewrite advance_periodic_eq, (advance_periodic_eq (next_phase c)) by
    (try apply cwf_next_phase; simpl; lia || done).
  unfold next_phase at 1 2 3 4 5 6. simpl. rewrite high_clocks_set_phase. f_equal.
  - rewrite !(integral_small _ _ (phase c)), (integral_small _ _ ((phase c + 1) mod _)) by
      (lia || (apply Z.mod_pos_bound; lia)).
    destruct (decide (phase c + 1 = active c)) as [E|].
    + rewrite E, Z.mod_same by lia. replace (phase c + (n + 1)) with (active c + n) by lia.
      rewrite integral_period, Z.add_0_l by lia.
      destruct (Z.ltb_spec (phase c) (high_clocks c)); simpl; lia.
    + rewrite Z.mod_small by lia. replace (phase c + (n + 1)) with (phase c + 1 + n) by lia.
      destruct (Z.ltb_spec (phase c) (high_clocks c)); simpl; lia.
  - unfold next_phase, set_phase. simpl. f_equal.
    rewrite Zplus_mod_idemp_l. f_equal. lia.
Qed.

Definition is_running (c : Counter) : bool :=
  negb (negb (match mode c with Some _ => true | None => false end) || (active c =? 0)
        || negb (gate c)).

Lemma is_running_spec c : is_running c = true <-> running c.
Proof.
  unfold is_running, running. destruct (mode c), (gate c), (Z.eqb_spec (active c) 0);
    simpl; naive_solver.
Qed.

Lemma cwf_load c : cwf c -> (active c = 0 -> phase c = 0) ->
  phase c = 0 -> cwf (load c).
Proof.
  intros [Hct Hr Ha Hl Hs Hw] _ Hp. split; simpl; auto.
  destruct (Z.leb_spec 2 (reload c)); [right; lia | left; lia].
Qed.

Lemma cwf_load_phase c x : cwf c -> (active (load c) = 0 -> x = 0) ->
  (active (load c) <> 0 -> 0 <= x < active (load c)) -> cwf (set_phase x (load c)).
Proof.
  intros [Hct Hr Ha Hl Hs Hw] H0 H1. split; simpl; auto.
  revert H0 H1. simpl. destruct (Z.leb_spec 2 (reload c)); intros H0 H1; [right | left]; auto.
  split; [lia|]. apply H1. lia.
Qed.

Lemma cwf_set_loading b c : cwf c -> cwf (set_loading b c).
Proof. intros []. by split. Qed.

Lemma high_clocks_zero c : active c = 0 -> high_clocks c = 0.
Proof. intros H. unfold high_clocks. rewrite H. by destruct (is_mode c 3). Qed.

Lemma is_mode_load c m : is_mode (load c) m = is_mode c m.
Proof. reflexivity. Qed.

Lemma active_load_pos c : active (load c) <> 0 -> 2 <= active (load c).
Proof. simpl. destruct (Z.leb_spec 2 (reload c)); lia. Qed.

Lemma high_clocks_load_bound c : cwf c -> active (load c) <> 0 ->
  0 < high_clocks (load c) < active (load c).
Proof.
  intros Hc Ha%active_load_pos. unfold high_clocks, div_ceil, saturating_sub. rewrite is_mode_load.
  destruct (is_mode c 3); [|lia]. Z.div_mod_to_equations. lia.
Qed.

Lemma cwf_tick c : cwf c -> cwf (tick c).
Proof.
  intros Hc. unfold tick. destruct (loading c).
  - apply cwf_set_loading, cwf_load_phase; [done | done |].
    intros H%active_load_pos. lia.
  - destruct (negb _ || _ || _) eqn:Hr; [done|].
    assert (running c) as (Hm & Hg & Ha) by (apply is_running_spec; unfold is_running; by rewrite Hr).
    destruct (null_count c && _) eqn:Hn.
    + apply cwf_load_phase; [done | |]; destruct (boundary c =? active c); try done.
      * intros H. by rewrite high_clocks_zero.
      * intros H%active_load_pos. lia.
      * intros H. pose proof (high_clocks_load_bound c Hc H). lia.
    + by apply cwf_next_phase.
Qed.

Lemma set_phase_id c : set_phase (phase c) c = c.
Proof. by destruct c. Qed.

Lemma boundary_bound c : cwf c -> active c <> 0 -> phase c < boundary c <= active c.
Proof.
  intros Hc Ha. pose proof (high_clocks_bound c Hc Ha). unfold boundary.
  destruct (cwf_active c Hc) as [|[? ?]]; [lia|].
  destruct (is_mode c 3); simpl; [|lia]. destruct (Z.ltb_spec (phase c) (high_clocks c)); lia.
Qed.

(** [advance] of a counter that is not loading, by the state it is in. *)
Lemma advance_idle c n : loading c = false -> is_running c = false ->
  advance n c = (n * Z.b2z (output c), c).
Proof.
  intros Hl Hr. unfold advance. rewrite Hl. simpl.
  unfold is_running in Hr. apply negb_false_iff in Hr. by rewrite Hr.
Qed.

Lemma advance_running c n : loading c = false -> is_running c = true ->
  advance n c =
  (let '(clocks, more, c) := advance_reload n c in
   if active c =? 0 then (more + clocks * Z.b2z (output c), c)
   else let '(m, c) := advance_periodic clocks c in (more + m, c)).
Proof.
  intros Hl Hr. unfold advance. rewrite Hl. simpl.
  unfold is_running in Hr. apply negb_true_iff in Hr. rewrite Hr.
  destruct (advance_reload n c) as [[clocks more] d]. done.
Qed.

Lemma advance_reload_eq c n : advance_reload n c =
  if null_count c && (boundary c - phase c <=? n) then
    let '(high, d) := advance_periodic (boundary c - phase c) c in
    (n - (boundary c - phase c), high,
     set_phase (if boundary c =? active c then 0 else high_clocks (load d)) (load d))
  else (n, 0, c).
Proof.
  unfold advance_reload. fold (boundary c). destruct (null_count c); [|done]. simpl.
  destruct (_ <=? n); [|done]. by destruct (advance_periodic (boundary c - phase c) c).
Qed.

Lemma advance_zero c : cwf c -> advance 0 c = (0, c).
Proof.
  intros Hc. destruct (is_running c) eqn:Hr.
  - pose proof Hr as Hr'. apply is_running_spec in Hr' as (Hm & Hg & Ha).
    pose proof (boundary_bound c Hc Ha) as Hb.
    destruct (cwf_active c Hc) as [|[? ?]]; [lia|].
    assert (advance 0 c = let '(clocks, more, c) := advance_reload 0 c in
      if active c =? 0 then (more + clocks * Z.b2z (output c), c)
      else let '(m, c) := advance_periodic clocks c in (more + m, c)) as ->.
    { unfold advance. rewrite andb_false_r. unfold is_running in Hr.
      apply negb_true_iff in Hr. rewrite Hr. by destruct (advance_reload 0 c) as [[? ?] ?]. }
    rewrite advance_reload_eq. destruct (Z.leb_spec (boundary c - phase c) 0); [lia|].
    rewrite andb_false_r. destruct (Z.eqb_spec (active c) 0); [done|].
    rewrite advance_periodic_eq by (done || lia).
    rewrite !Z.add_0_r, Z.mod_small, set_phase_id by lia. f_equal. lia.
  - unfold advance. rewrite andb_false_r. unfold is_running in Hr.
    apply negb_false_iff in Hr. by rewrite Hr.
Qed.

Lemma tick_running c : loading c = false -> is_running c = true ->
  tick c = if null_count c && (phase c + 1 =? boundary c) then
             set_phase (if boundary c =? active c then 0 else high_clocks (load c)) (load c)
           else next_phase c.
Proof.
  intros Hl Hr. unfold tick, next_phase. rewrite Hl.
  unfold is_running in Hr. apply negb_true_iff in Hr. by rewrite Hr.
Qed.

(** [tick] before the boundary of a running counter only moves the phase. *)
Lemma boundary_next_phase c : cwf c -> running c -> phase c + 1 < boundary c ->
  boundary (next_phase c) = boundary c /\ phase (next_phase c) = phase c + 1.
Proof.
  intros Hc (_ & _ & Ha) Hlt. pose proof (boundary_bound c Hc Ha).
  pose proof (high_clocks_bound c Hc Ha).
  destruct (cwf_active c Hc) as [|[? ?]]; [lia|].
  assert (phase (next_phase c) = phase c + 1) as Hp by (simpl; apply Z.mod_small; lia).
  split; [|done]. unfold boundary in *. change (is_mode (next_phase c) 3) with (is_mode c 3).
  change (high_clocks (next_phase c)) with (high_clocks c).
  change (active (next_phase c)) with (active c). rewrite Hp.
  destruct (is_mode c 3); simpl in *; [|done].
  destruct (Z.ltb_spec (phase c) (high_clocks c)), (Z.ltb_spec (phase c + 1) (high_clocks c)); lia.
Qed.

Lemma advance_reloading c n : cwf c -> loading c = false -> is_running c = true ->
  null_count c = true -> boundary c = phase c + 1 -> 0 <= n -> n + 1 < 2 ^ 64 ->
  advance (n + 1) c = (Z.b2z (output c) + (advance n (tick c)).1, (advance n (tick c)).2).
Proof.
  intros Hc Hl Hr Hnull Hb Hn Hlt. pose proof Hr as Hrun. apply is_running_spec in Hrun.
  pose proof Hrun as (Hm & Hg & Ha).
  rewrite tick_running, Hnull, Hb, Z.eqb_refl by done. simpl (true && true).
  rewrite advance_running, advance_reload_eq, Hnull, Hb by done.
  replace (phase c + 1 - phase c) with 1 by lia.
  destruct (Z.leb_spec 1 (n + 1)); [|lia]. cbn [andb].
  pose proof (periodic_succ c 0 Hc Hrun Hl ltac:(lia) ltac:(lia)) as Hone.
  rewrite Z.add_0_l in Hone. rewrite Hone.
  rewrite advance_periodic_eq by (try apply cwf_next_phase; simpl; done || lia).
  rewrite !Z.add_0_r, Z.sub_diag, Z.add_0_r.
  set (x := if phase c + 1 =? active c then 0 else high_clocks (load c)).
  set (d := set_phase x (load c)).
  assert (forall e, e = set_phase (phase e) c ->
    set_phase (if phase c + 1 =? active c then 0 else high_clocks (load e)) (load e) = d) as Hd.
  { intros e ->. done. }
  cbn [fst snd]. cbv beta iota. rewrite Hd by done. clear Hd.
  replace (n + 1 - 1) with n by lia.
  assert (loading d = false) as Hld by done.
  assert (null_count d = false) as Hnd by done.
  assert (mode d <> None) as Hmd by done. assert (gate d = true) as Hgd by done.
  destruct (Z.eqb_spec (active d) 0) as [Had|Had].
  - rewrite (advance_idle d); [done | done |]. destruct (is_running d) eqn:E; [|done].
    apply is_running_spec in E as (_ & _ & ?). done.
  - rewrite (advance_running d); [| done | by apply is_running_spec].
    rewrite advance_reload_eq, Hnd. simpl (false && _). cbv iota beta.
    destruct (Z.eqb_spec (active d) 0); [done|].
    destruct (advance_periodic n d) as [m e]. done.
Qed.

Lemma advance_succ c n : cwf c -> 0 <= n -> n + 1 < 2 ^ 64 ->
  advance (n + 1) c = (Z.b2z (output c) + (advance n (tick c)).1, (advance n (tick c)).2).
Proof.
  intros Hc Hn Hlt. destruct (loading c) eqn:Hl.
  - unfold tick. rewrite Hl. unfold advance at 1. rewrite Hl.
    destruct (Z.eqb_spec (n + 1) 0); [lia|]. cbn [andb negb].
    replace (n + 1 - 1) with n by lia. set (d := set_loading false _).
    unfold advance. change (loading d) with false. cbn [andb].
    destruct (_ || _ || _); [simpl; f_equal; lia|].
    destruct (advance_reload n d) as [[clocks more] e].
    destruct (active e =? 0); [simpl; f_equal; lia|].
    destruct (advance_periodic clocks e). simpl. f_equal; lia.
  - destruct (is_running c) eqn:Hr.
    2:{ rewrite advance_idle by done. unfold tick. rewrite Hl.
        pose proof Hr as Hr'. unfold is_running in Hr'. apply negb_false_iff in Hr'. rewrite Hr'.
        rewrite advance_idle by done. simpl. f_equal. lia. }
    pose proof Hr as Hrun. apply is_running_spec in Hrun. pose proof Hrun as (Hm & Hg & Ha).
    pose proof (boundary_bound c Hc Ha) as Hbb.
    destruct (decide (null_count c = true /\ boundary c = phase c + 1)) as [[? ?]|Hnb];
      [by apply advance_reloading|].
    rewrite tick_running by done.
    replace (null_count c && (phase c + 1 =? boundary c)) with false.
    2:{ destruct (null_count c), (Z.eqb_spec (phase c + 1) (boundary c)); try done.
        exfalso. apply Hnb. split; [done | lia]. }
    assert (is_running (next_phase c) = true) as Hr' by (by apply is_running_spec).
    rewrite !advance_running, !advance_reload_eq by done.
    change (null_count (next_phase c)) with (null_count c).
    change (active (next_phase c)) with (active c).
    destruct (null_count c) eqn:Hnull; cbn [andb].
    + destruct (boundary_next_phase c Hc Hrun) as [Hb1 Hp1]; [lia|]. rewrite Hb1, Hp1.
      replace (boundary c - (phase c + 1) <=? n) with (boundary c - phase c <=? n + 1) by
        (destruct (Z.leb_spec (boundary c - phase c) (n + 1)),
                  (Z.leb_spec (boundary c - (phase c + 1)) n); lia || done).
      destruct (Z.leb_spec (boundary c - phase c) (n + 1)).
      * replace (boundary c - phase c) with (boundary c - (phase c + 1) + 1) at 1 by lia.
        rewrite periodic_succ by (done || lia).
        destruct (advance_periodic (boundary c - (phase c + 1)) (next_phase c)) as [m e].
        cbn [fst snd]. cbv beta iota.
        replace (n + 1 - (boundary c - phase c)) with (n - (boundary c - (phase c + 1))) by lia.
        destruct (Z.eqb_spec (active (set_phase (if boundary c =? active c then 0
          else high_clocks (load e)) (load e))) 0); [cbn [fst snd]; f_equal; lia|].
        match goal with |- context [advance_periodic ?a ?b] => destruct (advance_periodic a b) end.
        cbn [fst snd]. f_equal; lia.
      * cbv beta iota. change (active (next_phase c)) with (active c).
        destruct (Z.eqb_spec (active c) 0); [done|]. rewrite periodic_succ by (done || lia).
        destruct (advance_periodic n (next_phase c)). cbn [fst snd]. f_equal; lia.
    + cbv beta iota. change (active (next_phase c)) with (active c).
      destruct (Z.eqb_spec (active c) 0); [done|]. rewrite periodic_succ by (done || lia).
      destruct (advance_periodic n (next_phase c)). cbn [fst snd]. f_equal; lia.
Qed.

(** ** Advancing is ticking *)

Lemma cwf_ticks n c : cwf c -> cwf (ticks n c).
Proof. revert c. induction n; simpl; eauto using cwf_tick. Qed.

Lemma ticks_add m n c : ticks (m + n) c = ticks n (ticks m c).
Proof. revert c. induction m; simpl; auto. Qed.

Lemma advance_ticks n c : cwf c -> Z.of_nat n < 2 ^ 64 ->
  advance (Z.of_nat n) c = (high_intervals n c, ticks n c).
Proof.
  revert c. induction n as [|n IH]; intros c Hc Hn; [by apply advance_zero|].
  rewrite Nat2Z.inj_succ, <- Z.add_1_r in *.
  rewrite advance_succ, IH by (auto using cwf_tick; lia). done.
Qed.

Lemma high_intervals_bound n c : 0 <= high_intervals n c <= Z.of_nat n.
Proof.
  revert c. induction n as [|n IH]; intros c; simpl high_intervals; [lia|].
  specialize (IH (tick c)). destruct (output c); simpl Z.b2z; lia.
Qed.

Lemma high_intervals_add m n c :
  high_intervals (m + n) c = high_intervals m c + high_intervals n (ticks m c).
Proof. revert c. induction m as [|m IH]; intros c; simpl; [done|]. rewrite IH. lia. Qed.

(** Clocks at once are clocks one by one; the theorem below and the device rely on it. *)
Lemma advance_clocks c clocks : cwf c -> 0 <= clocks < 2 ^ 64 ->
  advance clocks c =
    (high_intervals (Z.to_nat clocks) c, ticks (Z.to_nat clocks) c) /\
  0 <= (advance clocks c).1 <= clocks /\ cwf (advance clocks c).2.
Proof.
  intros Hc Hn. pose proof (high_intervals_bound (Z.to_nat clocks) c) as Hb.
  pose proof (advance_ticks (Z.to_nat clocks) c Hc) as H. rewrite Z2Nat.id in * by lia.
  rewrite H by lia. split_and!; simpl; try done; try lia. by apply cwf_ticks.
Qed.

(** C37 Batched timing: advancing any number of input clocks at once gives the
    state of that many single clocks, and the returned integral is the number
    of those clock intervals with OUT high (so it never exceeds the clocks). *)
Theorem advance_refines_ticks c clocks : cwf c -> 0 <= clocks < 2 ^ 64 ->
  advance clocks c =
    (high_intervals (Z.to_nat clocks) c, ticks (Z.to_nat clocks) c) /\
  0 <= (advance clocks c).1 <= clocks /\ cwf (advance clocks c).2.
Proof. by apply advance_clocks. Qed.

(** Splitting a pause: synchronizing twice is synchronizing once, whatever
    programming is pending, and the high clocks add up. *)
Theorem advance_split c m n : cwf c -> 0 <= m -> 0 <= n -> m + n < 2 ^ 64 ->
  advance (m + n) c =
    ((advance m c).1 + (advance n (advance m c).2).1, (advance n (advance m c).2).2).
Proof.
  intros Hc Hm Hn Hlt. rewrite <- (Z2Nat.id m), <- (Z2Nat.id n), <- Nat2Z.inj_add by done.
  rewrite !advance_ticks by (rewrite ?Nat2Z.inj_add, ?Z2Nat.id by lia; auto using cwf_ticks; lia).
  simpl. rewrite advance_ticks by (auto using cwf_ticks; lia). simpl.
  by rewrite high_intervals_add, ticks_add.
Qed.

(** ** Transitions of the output *)

Lemma mode_tick c : mode (tick c) = mode c.
Proof. unfold tick. destruct (loading c); [done|]. destruct (_ || _ || _); [done|]. by destruct (_ && _). Qed.

Lemma gate_tick c : gate (tick c) = gate c.
Proof. unfold tick. destruct (loading c); [done|]. destruct (_ || _ || _); [done|]. by destruct (_ && _). Qed.

Lemma mode_ticks n c : mode (ticks n c) = mode c.
Proof. revert c. induction n as [|n IH]; intros c; simpl; [done|]. by rewrite IH, mode_tick. Qed.

Lemma gate_ticks n c : gate (ticks n c) = gate c.
Proof. revert c. induction n as [|n IH]; intros c; simpl; [done|]. by rewrite IH, gate_tick. Qed.

(** The end of the half-period a running counter is in. *)
Definition half_end (c : Counter) : Z :=
  if phase c <? high_clocks c then high_clocks c else active c.

Lemma half_end_bound c : cwf c -> active c <> 0 -> phase c < half_end c <= boundary c.
Proof.
  intros Hc Ha. pose proof (high_clocks_bound c Hc Ha). unfold half_end, boundary.
  destruct (cwf_active c Hc) as [|[? ?]]; [lia|].
  destruct (Z.ltb_spec (phase c) (high_clocks c)), (is_mode c 3); simpl; lia.
Qed.

Lemma ticks_half k c : cwf c -> running c -> loading c = false ->
  phase c + Z.of_nat k < half_end c -> ticks k c = set_phase (phase c + Z.of_nat k) c.
Proof.
  revert c. induction k as [|k IH]; intros c Hc Hr Hl Hk.
  { simpl. by rewrite Z.add_0_r, set_phase_id. }
  pose proof Hr as (_ & _ & Ha). pose proof (half_end_bound c Hc Ha).
  pose proof (boundary_bound c Hc Ha).
  destruct (cwf_active c Hc) as [|[? ?]]; [lia|].
  simpl ticks. rewrite tick_running by (done || by apply is_running_spec).
  destruct (Z.eqb_spec (phase c + 1) (boundary c)); [lia|]. rewrite andb_false_r.
  assert (phase (next_phase c) = phase c + 1) as Hp by (simpl; apply Z.mod_small; lia).
  rewrite IH; [| by apply cwf_next_phase | done | done |].
  - rewrite Hp. unfold next_phase, set_phase. simpl. f_equal. lia.
  - rewrite Hp. unfold half_end in *. change (high_clocks (next_phase c)) with (high_clocks c).
    rewrite Hp. change (active (next_phase c)) with (active c).
    destruct (Z.ltb_spec (phase c) (high_clocks c)), (Z.ltb_spec (phase c + 1) (high_clocks c)); lia.
Qed.

Lemma next_transition_running c : running c -> loading c = false ->
  next_transition c = Some (half_end c - phase c).
Proof.
  intros (Hm & Hg & Ha) Hl. unfold next_transition. destruct (mode c); [|done].
  rewrite Hg, Hl. simpl. destruct (Z.eqb_spec (active c) 0); done.
Qed.

Lemma next_transition_cases c t : next_transition c = Some t ->
  mode c <> None /\ gate c = true /\
  (loading c = true /\ t = 1 \/ loading c = false /\ running c /\ t = half_end c - phase c).
Proof.
  unfold next_transition, running. destruct (mode c); [|done].
  destruct (gate c); [|done]. destruct (loading c); simpl; [intros [= <-]; auto|].
  destruct (Z.eqb_spec (active c) 0); [done|]. intros [= <-].
  split_and!; auto. right. auto.
Qed.

Lemma next_transition_pos c t : cwf c -> next_transition c = Some t -> 0 < t <= 65536.
Proof.
  intros Hc (_ & _ & [[_ ->]|(_ & (_ & _ & Ha) & ->)])%next_transition_cases; [lia|].
  pose proof (half_end_bound c Hc Ha). pose proof (boundary_bound c Hc Ha).
  destruct (cwf_active c Hc) as [|[? ?]]; lia.
Qed.

Lemma output_before_transition c t k : cwf c -> next_transition c = Some t ->
  Z.of_nat k < t -> output (ticks k c) = output c.
Proof.
  intros Hc (Hm & Hg & [[Hl ->]|(Hl & Hr & ->)])%next_transition_cases Hk.
  - by replace k with O by lia.
  - rewrite ticks_half by (done || lia). pose proof Hr as (_ & _ & Ha).
    pose proof (half_end_bound c Hc Ha). pose proof (boundary_bound c Hc Ha).
    destruct (cwf_active c Hc) as [|[? ?]]; [lia|].
    rewrite !running_output; try done; [|apply cwf_set_phase; [done | done | lia]].
    change (high_clocks (set_phase _ c)) with (high_clocks c).
    change (phase (set_phase (phase c + Z.of_nat k) c)) with (phase c + Z.of_nat k).
    unfold half_end in *.
    destruct (Z.ltb_spec (phase c) (high_clocks c)), (Z.ltb_spec (phase c + Z.of_nat k) (high_clocks c)); lia || done.
Qed.

Lemma output_no_transition c k : next_transition c = None -> output (ticks k c) = output c.
Proof.
  intros Hn. destruct (mode c) as [m|] eqn:Hm.
  2:{ unfold output. by rewrite mode_ticks, Hm. }
  destruct (gate c) eqn:Hg.
  2:{ unfold output. by rewrite mode_ticks, gate_ticks, Hm, Hg. }
  assert (tick c = c) as Htick.
  { unfold next_transition in Hn. rewrite Hm, Hg in Hn. simpl in Hn.
    unfold tick. destruct (loading c); [done|]. destruct (Z.eqb_spec (active c) 0) as [->|]; [|done].
    by rewrite Hm, Hg. }
  induction k as [|k IH]; [done|]. simpl. by rewrite Htick.
Qed.

(** ** The state after a transition *)

Definition low (c : Counter) : Prop :=
  running c /\ loading c = false /\ high_clocks c <= phase c.
Definition high_running (c : Counter) : Prop :=
  running c /\ loading c = false /\ phase c < high_clocks c.
(** A counter whose output never changes again, and is high. *)
Definition stuck_high (c : Counter) : Prop := next_transition c = None /\ output c = true.

Lemma loaded_cases c : mode c <> None -> gate c = true -> loading c = false -> cwf c ->
  phase c = 0 -> active c = 0 \/ 2 <= active c -> stuck_high c \/ high_running c.
Proof.
  intros Hm Hg Hl Hc Hp [Ha|Ha].
  - left. unfold stuck_high, next_transition, output. rewrite Hg, Hl, Ha.
    destruct (mode c); [done|]. done.
  - right. assert (active c <> 0) as Hne by lia. pose proof (high_clocks_bound c Hc Hne).
    unfold high_running, running. split_and!; try done. lia.
Qed.

Lemma active_load_cases c : active (load c) = 0 \/ 2 <= active (load c).
Proof. simpl. destruct (Z.leb_spec 2 (reload c)); auto. Qed.

Lemma ticks_pred t c : 0 < t -> ticks (Z.to_nat t) c = tick (ticks (Z.to_nat (t - 1)) c).
Proof.
  intros Ht. replace (Z.to_nat t) with (Z.to_nat (t - 1) + 1)%nat by lia.
  by rewrite ticks_add.
Qed.

Lemma after_loading c : cwf c -> mode c <> None -> gate c = true -> loading c = true ->
  stuck_high (tick c) \/ high_running (tick c).
Proof.
  intros Hc Hm Hg Hl. pose proof (cwf_tick c Hc) as Hc'. revert Hc'.
  unfold tick. rewrite Hl. intros Hc'.
  apply loaded_cases; try done. apply active_load_cases.
Qed.

(** The tick that ends a half-period. *)
Lemma half_end_tick c : cwf c -> running c -> loading c = false ->
  ticks (Z.to_nat (half_end c - phase c)) c = tick (set_phase (half_end c - 1) c).
Proof.
  intros Hc Hr Hl. pose proof Hr as (_ & _ & Ha).
  pose proof (half_end_bound c Hc Ha).
  rewrite ticks_pred by lia. rewrite ticks_half by (done || lia). do 2 f_equal. lia.
Qed.

Lemma after_high c : cwf c -> high_running c ->
  let d := ticks (Z.to_nat (half_end c - phase c)) c in stuck_high d \/ low d.
Proof.
  intros Hc (Hr & Hl & Hph) d. subst d. pose proof Hr as (Hm & Hg & Ha).
  rewrite half_end_tick by done.
  pose proof (high_clocks_bound c Hc Ha) as Hh.
  assert (half_end c = high_clocks c) as He
    by (unfold half_end; destruct (Z.ltb_spec (phase c) (high_clocks c)); lia).
  rewrite He. set (e := set_phase (high_clocks c - 1) c).
  assert (cwf e) as Hce by (apply cwf_set_phase; done || lia).
  assert (phase e + 1 = high_clocks c) as Hpe by (simpl; lia).
  assert (boundary e = if is_mode c 3 then high_clocks c else active c) as Hbe.
  { unfold boundary. change (high_clocks e) with (high_clocks c).
    change (is_mode e 3) with (is_mode c 3). change (phase e) with (high_clocks c - 1).
    destruct (Z.ltb_spec (high_clocks c - 1) (high_clocks c)); [|lia]. by rewrite andb_true_r. }
  rewrite tick_running by (done || by apply is_running_spec).
  rewrite Hpe, Hbe. change (null_count e) with (null_count c). change (active e) with (active c).
  destruct (null_count c && _) eqn:Hn.
  - apply andb_true_iff in Hn as [_ Hn%Z.eqb_eq]. rewrite <- Hn.
    destruct (Z.eqb_spec (high_clocks c) (active c)); [lia|].
    set (l := set_phase (high_clocks (load e)) (load e)).
    change (active (load e)) with (active l) in *.
    destruct (active_load_cases e) as [H0|H2].
    + left. unfold stuck_high, next_transition, output.
      change (active l) with (active (load e)). rewrite H0.
      change (mode l) with (mode c). change (gate l) with (gate c).
      change (loading l) with (loading c). rewrite Hg, Hl. destruct (mode c); done.
    + right. assert (active l <> 0) by (change (active l) with (active (load e)); lia).
      unfold low, running. by split_and!.
  - right. unfold low, running. split_and!; try done.
    change (high_clocks (next_phase e)) with (high_clocks c). unfold next_phase. simpl.
    rewrite Z.mod_small by lia. lia.
Qed.

Lemma after_low c : cwf c -> low c ->
  let d := ticks (Z.to_nat (half_end c - phase c)) c in output d = true.
Proof.
  intros Hc (Hr & Hl & Hph) d. subst d. pose proof Hr as (Hm & Hg & Ha).
  rewrite half_end_tick by done. pose proof (high_clocks_bound c Hc Ha) as Hh.
  assert (half_end c = active c) as He
    by (unfold half_end; destruct (Z.ltb_spec (phase c) (high_clocks c)); lia).
  rewrite He. set (e := set_phase (active c - 1) c).
  assert (cwf e) as Hce by (apply cwf_set_phase; done || lia).
  assert (boundary e = active c) as Hbe.
  { unfold boundary. change (high_clocks e) with (high_clocks c).
    change (phase e) with (active c - 1).
    destruct (Z.ltb_spec (active c - 1) (high_clocks c)); [lia|]. by rewrite andb_false_r. }
  rewrite tick_running by (done || by apply is_running_spec).
  rewrite Hbe. change (active e) with (active c). rewrite Z.eqb_refl.
  replace (phase e + 1 =? active c) with true by (simpl; symmetry; apply Z.eqb_eq; lia).
  rewrite andb_true_r. destruct (null_count e).
  - assert (cwf (set_phase 0 (load e))) as Hcl.
    { apply cwf_load_phase; [done | done |]. intros H%active_load_pos. lia. }
    destruct (loaded_cases (set_phase 0 (load e))) as [[_ H]|(Hr' & Hl' & Hp')]; try done.
    + apply active_load_cases.
    + rewrite running_output by done. apply Z.ltb_lt. lia.
  - rewrite running_output; [| by apply cwf_next_phase | done | done].
    apply Z.ltb_lt. simpl. replace (active c - 1 + 1) with (active c) by lia.
    rewrite Z.mod_same by lia. change (high_clocks (next_phase e)) with (high_clocks c). lia.
Qed.

(** ** The rising-edge search *)

(** OUT rises at clock [n]: low before it, high after it. *)
Definition rises (c : Counter) (n : nat) : Prop :=
  exists k, n = S k /\ output (ticks k c) = false /\ output (ticks n c) = true.

Lemma advance_transition c t : cwf c -> next_transition c = Some t ->
  (advance t c).2 = ticks (Z.to_nat t) c.
Proof.
  intros Hc Ht. pose proof (next_transition_pos c t Hc Ht).
  destruct (advance_clocks c t Hc ltac:(lia)) as [-> _]. done.
Qed.

Lemma rises_shift t k c : rises (ticks t c) k <-> (0 < k)%nat /\ rises c (t + k).
Proof.
  unfold rises. split.
  - intros (j & -> & H0 & H1). split; [lia|]. exists (t + j)%nat.
    rewrite !ticks_add. split_and!; [lia | done | done].
  - intros (Hk & j & Hj & H0 & H1). exists (k - 1)%nat.
    rewrite <- !ticks_add. split_and!; [lia | | done]. by replace (t + (k - 1))%nat with j by lia.
Qed.

Lemma rises_until c t k : cwf c -> next_transition c = Some t -> (k <= Z.to_nat t)%nat ->
  rises c k -> k = Z.to_nat t /\ output c = false /\ output (ticks (Z.to_nat t) c) = true.
Proof.
  intros Hc Ht Hk (j & -> & H0 & H1). pose proof (next_transition_pos c t Hc Ht).
  rewrite (output_before_transition c t j) in H0 by (done || lia).
  destruct (decide (S j = Z.to_nat t)) as [<-|]; [done|].
  rewrite (output_before_transition c t (S j)) in H1 by (done || lia). congruence.
Qed.

Lemma rising_edge_loop_sound fuel clocks c r : cwf c ->
  rising_edge_loop fuel clocks c = Some r ->
  match r with
  | Some n => exists m, n = clocks + Z.of_nat m /\ rises c m /\ forall k, rises c k -> (m <= k)%nat
  | None => forall k, ~ rises c k
  end.
Proof.
  revert clocks c. induction fuel as [|fuel IH]; intros clocks c Hc Hloop; simpl in Hloop;
    destruct (next_transition c) as [t|] eqn:Ht; try done.
  1, 3: injection Hloop as <-; intros k (j & -> & H0 & H1);
        rewrite output_no_transition in H0, H1 by done; congruence.
  rewrite (advance_transition c t Hc Ht) in Hloop.
  pose proof (next_transition_pos c t Hc Ht) as Htp.
  destruct (negb (output c) && output (ticks (Z.to_nat t) c)) eqn:Hrise.
  - injection Hloop as <-. apply andb_true_iff in Hrise as [H0%negb_true_iff H1].
    exists (Z.to_nat t). split_and!; [lia | |].
    + exists (Z.to_nat (t - 1)). split_and!; [lia | | done].
      rewrite (output_before_transition c t) by (done || lia). done.
    + intros k Hk. destruct (decide (k <= Z.to_nat t)%nat); [|lia].
      destruct (rises_until c t k) as [-> _]; done.
  - assert (forall k, rises c k -> (Z.to_nat t < k)%nat) as Hafter.
    { intros k Hk. destruct (decide (k <= Z.to_nat t)%nat); [|lia].
      destruct (rises_until c t k) as (_ & H0 & H1); try done.
      by rewrite H0, H1 in Hrise. }
    specialize (IH (clocks + t) (ticks (Z.to_nat t) c) (cwf_ticks _ _ Hc) Hloop).
    destruct r as [n|].
    + destruct IH as (m & -> & Hm & Hmin). apply rises_shift in Hm as [Hm0 Hm].
      exists (Z.to_nat t + m)%nat. split_and!; [lia | done |].
      intros k Hk. pose proof (Hafter k Hk).
      specialize (Hmin (k - Z.to_nat t)%nat). rewrite rises_shift in Hmin.
      replace (Z.to_nat t + (k - Z.to_nat t))%nat with k in Hmin by lia.
      specialize (Hmin ltac:(split; [lia | done])). lia.
    + intros k Hk. pose proof (Hafter k Hk). apply (IH (k - Z.to_nat t)%nat).
      apply rises_shift. split; [lia|].
      by replace (Z.to_nat t + (k - Z.to_nat t))%nat with k by lia.
Qed.

Lemma loop_stuck fuel clocks c : stuck_high c -> is_Some (rising_edge_loop fuel clocks c).
Proof. intros [H _]. destruct fuel; simpl; rewrite H; eauto. Qed.

Lemma loop_low fuel clocks c : cwf c -> low c -> is_Some (rising_edge_loop (S fuel) clocks c).
Proof.
  intros Hc Hlow. pose proof Hlow as (Hr & Hl & Hp).
  pose proof (next_transition_running c Hr Hl) as Ht. cbn [rising_edge_loop]. rewrite Ht.
  rewrite (advance_transition c _ Hc Ht), (after_low c Hc Hlow).
  rewrite running_output by done. destruct (Z.ltb_spec (phase c) (high_clocks c)); [lia|].
  simpl. eauto.
Qed.

Lemma loop_high fuel clocks c : cwf c -> high_running c ->
  is_Some (rising_edge_loop (S (S fuel)) clocks c).
Proof.
  intros Hc Hhigh. pose proof Hhigh as (Hr & Hl & Hp).
  pose proof (next_transition_running c Hr Hl) as Ht.
  change (rising_edge_loop (S (S fuel)) clocks c) with
    (match next_transition c with
     | None => Some None
     | Some until =>
         let d := (advance until c).2 in
         if negb (output c) && output d then Some (Some (clocks + until))
         else rising_edge_loop (S fuel) (clocks + until) d
     end).
  rewrite Ht. cbv zeta. rewrite (advance_transition c _ Hc Ht).
  destruct (_ && _); [eauto|].
  destruct (after_high c Hc Hhigh); [by apply loop_stuck | apply loop_low; auto using cwf_ticks].
Qed.

(** Three iterations always suffice: an initial load, a falling edge and a
    rising edge. *)
Lemma loop_terminates clocks c : cwf c -> is_Some (rising_edge_loop 3 clocks c).
Proof.
  intros Hc. destruct (next_transition c) as [t|] eqn:Ht;
    [|cbn [rising_edge_loop]; rewrite Ht; eauto].
  pose proof (next_transition_cases c t Ht) as (Hm & Hg & [[Hl ->]|(Hl & Hr & ->)]).
  - change (rising_edge_loop 3 clocks c) with
      (match next_transition c with
       | None => Some None
       | Some until =>
           let d := (advance until c).2 in
           if negb (output c) && output d then Some (Some (clocks + until))
           else rising_edge_loop 2 (clocks + until) d
       end).
    rewrite Ht. cbv zeta. rewrite (advance_transition c _ Hc Ht).
    destruct (_ && _); [eauto|]. change (ticks (Z.to_nat 1) c) with (tick c).
    destruct (after_loading c Hc Hm Hg Hl);
      [by apply loop_stuck | apply loop_high; auto using cwf_tick].
  - destruct (decide (phase c < high_clocks c)).
    + by apply loop_high.
    + apply loop_low; [done|]. unfold low. split_and!; [done | done | lia].
Qed.

(** The next rising edge: [next_rising_edge] always terminates; it returns the
    first clock at which OUT rises, and nothing exactly when OUT never rises
    without reprogramming, including across pending reloads. *)
Theorem next_rising_edge_spec c : cwf c ->
  match next_rising_edge c with
  | Some n => exists m, n = Z.of_nat m /\ rises c m /\ forall k, rises c k -> (m <= k)%nat
  | None => forall k, ~ rises c k
  end.
Proof.
  intros Hc. unfold next_rising_edge.
  destruct (loop_terminates 0 c Hc) as [r Hr]. rewrite Hr. simpl.
  by apply rising_edge_loop_sound in Hr.
Qed.

(** BIOS mode 3 with divisor 65536, and a mode-2 reload pending on top of it. *)
Definition bios_counter : Counter :=
  (advance 1 (write 0 (write 0 (counter_control 0x36 (set_gate true counter_default))))).2.

Lemma cwf_bios : cwf bios_counter.
Proof.
  assert (bios_counter = mkCounter 0x36 true 65536 65536 0 false false None false None None) as ->
    by (vm_compute; reflexivity).
  split; simpl; try done; try lia.
Qed.

Lemma next_rising_edge_spec_witness :
  next_rising_edge bios_counter = Some 65536 /\
  exists m, 65536 = Z.of_nat m /\ rises bios_counter m /\
    forall k, rises bios_counter k -> (m <= k)%nat.
Proof.
  assert (next_rising_edge bios_counter = Some 65536) as E by (vm_compute; reflexivity).
  split; [exact E|]. pose proof (next_rising_edge_spec bios_counter cwf_bios) as H.
  rewrite E in H. exact H.
Defined.

Lemma advance_refines_ticks_witness :
  cwf bios_counter /\ 0 <= (advance 100000 bios_counter).1 <= 100000.
Proof.
  split; [exact cwf_bios|].
  refine (proj1 (proj2 (advance_refines_ticks bios_counter 100000 cwf_bios _))).
  split; vm_compute; congruence.
Defined.

Lemma advance_split_witness :
  (advance (40000 + 60000) bios_counter).1 =
  (advance 40000 bios_counter).1 + (advance 60000 (advance 40000 bios_counter).2).1.
Proof.
  rewrite (advance_split bios_counter 40000 60000 cwf_bios);
    [reflexivity | vm_compute; congruence | vm_compute; congruence | vm_compute; reflexivity].
Defined.

(** ** The input clock *)

Definition INPUT_HZ : Z := 1193182.
Definition NANOS : Z := 1000000000.

(** [clocks_at]: the [try_into] panics past [u64]. *)
Definition clocks_at (time : Z) : option Z :=
  let clocks := time * INPUT_HZ / NANOS in
  if clocks <? 2 ^ 64 then Some clocks else None.

Definition time_at (clocks : Z) : Z :=
  (clocks / INPUT_HZ) * NANOS + wrap 32 (div_ceil ((clocks mod INPUT_HZ) * NANOS) INPUT_HZ).

Lemma time_at_eq clocks : 0 <= clocks -> time_at clocks = div_ceil (clocks * NANOS) INPUT_HZ.
Proof.
  intros Hc. unfold time_at, div_ceil. rewrite wrap_small.
  - unfold NANOS, INPUT_HZ. pose proof (Z.div_mod clocks 1193182 ltac:(lia)) as Hd.
    rewrite Hd at 3.
    replace ((1193182 * (clocks / 1193182) + clocks mod 1193182) * 1000000000 + 1193182 - 1) with
      ((clocks / 1193182 * 1000000000) * 1193182 +
        (clocks mod 1193182 * 1000000000 + 1193182 - 1)) by ring.
    rewrite Z.div_add_l by lia. done.
  - pose proof (Z.mod_pos_bound clocks INPUT_HZ ltac:(done)).
    unfold fits, NANOS, INPUT_HZ in *. change (2 ^ 32) with 4294967296.
    Z.div_mod_to_equations. lia.
Qed.

(** Clock conversion: a time has reached input clock [c] exactly when it is at
    or after [time_at c]; deadlines are neither early nor late by a clock, with no
    error accumulated over the origin. *)
Theorem clock_galois c t n : 0 <= c -> 0 <= t -> clocks_at t = Some n ->
  c <= n <-> time_at c <= t.
Proof.
  intros Hc Ht Hn. unfold clocks_at in Hn. destruct (_ <? _); [|done]. injection Hn as <-.
  rewrite time_at_eq by done. unfold div_ceil, NANOS, INPUT_HZ.
  split; intros H; Z.div_mod_to_equations; lia.
Qed.

Lemma clock_galois_witness : clocks_at 54925402 = Some 65536 /\
  (65536 <= 65536 <-> time_at 65536 <= 54925402).
Proof.
  split; [vm_compute; reflexivity|].
  apply (clock_galois 65536 54925402 65536); [lia | lia | vm_compute; reflexivity].
Defined.

(** ** The device *)

Record Pit : Type := mkPit {
  at_ : Z;
  channel0 : Counter;
  channel2 : Counter;
  channel2_update : option Counter;
}.

(** The PIT drives line [TIMER_IRQ] of the PIC: operations carry the PIC state
    and return the wakers their line changes woke. *)
Definition machine : Type := Pit * Controller.

Definition with_clock (now : Z) (pic : Controller) : option (Pit * Controller * list waker_id) :=
  let c0 := set_gate true counter_default in
  let c0 := counter_control 0x36 c0 in
  let c0 := write 0 (write 0 c0) in
  let c0 := (advance 1 c0).2 in
  '(pic, w) ← connect_irq TIMER_IRQ (output c0) pic;
  Some (mkPit now c0 counter_default None, pic, option_list w).

Definition sync_to_clock (now : Z) (m : machine) : option (machine * list waker_id) :=
  let '(pit, pic) := m in
  n1 ← clocks_at now;
  n0 ← clocks_at (at_ pit);
  let clocks := n1 - n0 in
  if clocks <? 0 then None (* unsigned subtraction overflow *)
  else
    let '(pic, w1) :=
      match next_rising_edge (channel0 pit) with
      | Some edge => if edge <=? clocks then line_pulse TIMER_IRQ pic else (pic, [])
      | None => (pic, [])
      end in
    let c0 := (advance clocks (channel0 pit)).2 in
    let '(pic, w2) := line_set_level TIMER_IRQ (output c0) pic in
    let c2 := (advance clocks (channel2 pit)).2 in
    Some (mkPit now c0 c2 (channel2_update pit), pic, w1 ++ option_list w2).

Definition channel2_output (now : Z) (m : machine) : option (bool * machine * list waker_id) :=
  '(m, w) ← sync_to_clock now m; Some (output (channel2 m.1), m, w).

Definition set_channel2_gate (now : Z) (high : bool) (m : machine)
    : option (machine * list waker_id) :=
  '(m, w) ← sync_to_clock now m;
  let c2 := set_gate high (channel2 m.1) in
  Some (mkPit (at_ m.1) (channel0 m.1) c2 (Some c2), m.2, w).

Definition take_channel2_update (pit : Pit) : option Counter * Pit :=
  (channel2_update pit, mkPit (at_ pit) (channel0 pit) (channel2 pit) None).

(** The wait deadline of [run]: [None] waits for reprogramming only. *)
Definition deadline (pit : Pit) : option Z :=
  clocks ← next_transition (channel0 pit);
  n ← clocks_at (at_ pit);
  Some (time_at (n + clocks)).

Definition pit_read_port (now port bytes : Z) (m : machine)
    : option (Z * machine * list waker_id) :=
  '(m, w) ← sync_to_clock now m;
  let '(pit, pic) := m in
  if negb (bytes =? 1) then Some (0xffffffff, m, w)
  else if port =? CHANNEL_0_PORT then
    let '(v, c0) := read (channel0 pit) in
    Some (v, (mkPit (at_ pit) c0 (channel2 pit) (channel2_update pit), pic), w)
  else if port =? CHANNEL_2_PORT then
    let '(v, c2) := read (channel2 pit) in
    Some (v, (mkPit (at_ pit) (channel0 pit) c2 (channel2_update pit), pic), w)
  else Some (0xffffffff, m, w).

(** The read-back command: selection bits are high-active, requests low-active. *)
Definition read_back (value : Z) (pit : Pit) : Pit :=
  if Z.land value 1 =? 0 then
    let latch := latch (Z.land value 0x20 =? 0) (Z.land value 0x10 =? 0) in
    mkPit (at_ pit)
      (if negb (Z.land value 2 =? 0) then latch (channel0 pit) else channel0 pit)
      (if negb (Z.land value 8 =? 0) then latch (channel2 pit) else channel2 pit)
      (channel2_update pit)
  else pit.

(** A count or control write to [channel]: the new state, the wakers and whether
    the [changed] event is notified. *)
Definition program (channel : Z) (control_port : bool) (value : Z) (m : machine)
    : machine * list waker_id * bool :=
  let '(pit, pic) := m in
  let change := if control_port then counter_control value else write value in
  let latches := control_port && (Z.land value 0x30 =? 0) in
  if channel =? 0 then
    let c0 := change (channel0 pit) in
    let pit := mkPit (at_ pit) c0 (channel2 pit) (channel2_update pit) in
    if latches then ((pit, pic), [], false)
    else let '(pic, w) := line_set_level TIMER_IRQ (output c0) pic in
         ((pit, pic), option_list w, true)
  else if channel =? 2 then
    let c2 := change (channel2 pit) in
    ((mkPit (at_ pit) (channel0 pit) c2 (if latches then channel2_update pit else Some c2), pic),
     [], false)
  else (m, [], false).

Definition pit_write_port (now port bytes value : Z) (m : machine)
    : option (machine * list waker_id * bool) :=
  '(m, w) ← sync_to_clock now m;
  if negb (bytes =? 1) then Some (m, w, false)
  else
    let value := wrap 8 value in
    if port =? CHANNEL_0_PORT then
      let '(m, w', n) := program 0 false value m in Some (m, w ++ w', n)
    else if port =? CHANNEL_2_PORT then
      let '(m, w', n) := program 2 false value m in Some (m, w ++ w', n)
    else if port =? CONTROL_PORT then
      if Z.shiftr value 6 =? 3 then Some ((read_back value m.1, m.2), w, false)
      else let '(m, w', n) := program (Z.shiftr value 6) true value m in Some (m, w ++ w', n)
    else Some (m, w, false).

(** [channel2]: the current channel-2 state for starting playback. *)
Definition channel2_state (now : Z) (m : machine) : option (Counter * machine * list waker_id) :=
  '(m, w) ← sync_to_clock now m; Some (channel2 m.1, m, w).

(** ** The interrupt line *)

(** PIT and PIC agree: well-formed counters and controller, and the recorded level
    of IRQ0 is channel 0's output. *)
Record coupled (m : machine) : Prop := {
  coupled_at : 0 <= at_ m.1;
  coupled_c0 : cwf (channel0 m.1);
  coupled_c2 : cwf (channel2 m.1);
  coupled_pic : Pic.wf m.2;
  coupled_level : Z.testbit (levels m.2) TIMER_IRQ = output (channel0 m.1);
}.

Lemma clocks_at_mono t0 t1 n0 n1 : 0 <= t0 -> t0 <= t1 ->
  clocks_at t0 = Some n0 -> clocks_at t1 = Some n1 -> 0 <= n0 <= n1 /\ n1 < 2 ^ 64.
Proof.
  intros H0 H1 Hn0 Hn1. unfold clocks_at in *.
  destruct (_ <? _) in Hn0; [|done].
  destruct (Z.ltb_spec (t1 * INPUT_HZ / NANOS) (2 ^ 64)); [|done].
  injection Hn0 as <-. injection Hn1 as <-. split; [|done].
  unfold INPUT_HZ, NANOS. split; Z.div_mod_to_equations; lia.
Qed.

(** Edge-mode effect of one line change on requests, and of a pulse. *)
Lemma set_level_edge c irq high j : Pic.wf c -> level_triggered c = false ->
  0 <= irq < 8 -> 0 <= j < 8 ->
  Z.testbit (requests (set_level irq high c)) j =
  Z.testbit (requests c) j || ((irq =? j) && high && negb (Z.testbit (levels c) j)).
Proof.
  intros Hwf Hl Hi Hj. unfold set_level, record_level, refresh_levels.
  assert ((Z.land (levels c) (Z.shiftl 1 irq) =? 0) = negb (Z.testbit (levels c) irq)) as ->.
  { rewrite <- (has_bit (levels c) irq) by lia. unfold has. by rewrite negb_involutive. }
  destruct high, (Z.testbit (levels c) irq) eqn:El; simpl; rewrite ?Hl; simpl; rewrite ?Hl; simpl;
    rewrite ?Z.lor_spec, ?shiftl_1_bit by lia; destruct (Z.eqb_spec irq j) as [<-|];
    rewrite ?El; btauto.
Qed.

Lemma pulse_fields irq c : Pic.wf c -> level_triggered c = false -> 0 <= irq < 8 ->
  let d := (line_pulse irq c).1 in
  Pic.wf d /\ level_triggered d = false /\ Z.testbit (levels d) irq = false /\
  (forall j, 0 <= j < 8 -> Z.testbit (requests d) j = Z.testbit (requests c) j || (irq =? j)).
Proof.
  intros Hwf Hl Hi. unfold line_pulse.
  pose proof (line_fields irq false c) as (R1 & L1 & T1 & W1).
  destruct (line_set_level irq false c) as [c1 w1]. simpl in *.
  pose proof (line_fields irq true c1) as (R2 & L2 & T2 & W2).
  destruct (line_set_level irq true c1) as [c2 w2]. simpl in *.
  pose proof (line_fields irq false c2) as (R3 & L3 & T3 & W3).
  destruct (line_set_level irq false c2) as [c3 w3]. simpl in *.
  assert (Pic.wf c1) by auto. assert (Pic.wf c2) by auto.
  split_and!; [auto | congruence | by rewrite L3, set_level_levels, Z.eqb_refl by lia |].
  intros j Hj. rewrite R3, set_level_edge, R2, set_level_edge, R1, set_level_edge by (done || congruence).
  rewrite L1, set_level_levels by done. destruct (irq =? j); simpl; btauto.
Qed.

Lemma no_rise_low c n : output c = false -> (forall k, (k <= n)%nat -> ~ rises c k) ->
  output (ticks n c) = false.
Proof.
  intros H0. induction n as [|n IH]; intros Hn; [done|].
  destruct (output (ticks (S n) c)) eqn:E; [|done]. exfalso.
  apply (Hn (S n)); [done|]. exists n. split_and!; [done | apply IH; auto | done].
Qed.

Lemma edge_within c n : cwf c ->
  (match next_rising_edge c with Some e => e <=? n | None => false end) = true <->
  exists k, rises c k /\ Z.of_nat k <= n.
Proof.
  intros Hc. pose proof (loop_terminates 0 c Hc) as [r Hr].
  unfold next_rising_edge. rewrite Hr. simpl. apply rising_edge_loop_sound in Hr; [|done].
  destruct r as [e|].
  - destruct Hr as (m & -> & Hm & Hmin). rewrite Z.leb_le. simpl. split; [eauto|].
    intros (k & Hk & Hle). specialize (Hmin k Hk). lia.
  - split; [done|]. intros (k & Hk & _). by destruct (Hr k).
Qed.

(** IRQ0 delivery: synchronizing to a later time (an edge-triggered PIC)
    leaves request 0 pending exactly if it was pending or OUT0 rose during the
    elapsed clocks, however many periods were skipped; every other request is
    unchanged, channel 0 has ticked the elapsed clocks, and the line keeps
    following the output. *)
Theorem sync_latches_edges now pit pic n1 n0 : coupled (pit, pic) ->
  level_triggered pic = false ->
  clocks_at now = Some n1 -> clocks_at (at_ pit) = Some n0 -> at_ pit <= now ->
  exists pit' pic' w, sync_to_clock now (pit, pic) = Some (pit', pic', w) /\
    coupled (pit', pic') /\ at_ pit' = now /\
    channel0 pit' = ticks (Z.to_nat (n1 - n0)) (channel0 pit) /\
    (forall j, 0 <= j < 8 -> Z.testbit (requests pic') j = true <->
       Z.testbit (requests pic) j = true \/
       j = TIMER_IRQ /\ exists k, rises (channel0 pit) k /\ Z.of_nat k <= n1 - n0).
Proof.
  intros [Hat Hc0 Hc2 Hpic Hlev] Hedge Hn1 Hn0 Hle'. simpl in *. unfold sync_to_clock.
  pose proof (clocks_at_mono _ _ _ _ Hat Hle' Hn0 Hn1) as [Hle Hlt].
  rewrite Hn1, Hn0. simpl. destruct (Z.ltb_spec (n1 - n0) 0); [lia|].
  set (clocks := n1 - n0) in *. set (c0 := channel0 pit) in *.
  destruct (advance_clocks c0 clocks Hc0 ltac:(lia)) as (Ha0 & _ & Hc0').
  destruct (advance_clocks (channel2 pit) clocks Hc2 ltac:(lia)) as (_ & _ & Hc2').
  rewrite Ha0 in *. simpl in Hc0'. cbn [snd].
  pose proof (edge_within c0 clocks Hc0) as Hedges.
  set (d := ticks (Z.to_nat clocks) c0) in *.
  assert (exists pic1 w1,
    (match next_rising_edge c0 with
     | Some edge => if edge <=? clocks then line_pulse TIMER_IRQ pic else (pic, [])
     | None => (pic, [])
     end) = (pic1, w1) /\ Pic.wf pic1 /\ level_triggered pic1 = false /\
    (forall j, 0 <= j < 8 -> Z.testbit (requests pic1) j =
       Z.testbit (requests pic) j || ((TIMER_IRQ =? j) &&
         match next_rising_edge c0 with Some e => e <=? clocks | None => false end)) /\
    (output d = true -> Z.testbit (levels pic1) TIMER_IRQ = false ->
      exists k, rises c0 k /\ Z.of_nat k <= clocks))
    as (pic1 & w1 & -> & Hwf1 & Hl1 & Hreq1 & Hout1).
  { assert (output d = true -> output c0 = false ->
      (match next_rising_edge c0 with Some e => e <=? clocks | None => false end) = true) as Hrise.
    { intros Hd Hcl. destruct (match next_rising_edge c0 with Some _ => _ | None => _ end) eqn:E;
        [done|]. exfalso. assert (output d = false); [|congruence].
      apply no_rise_low; [done|]. intros k Hk Hr.
      assert (false = true); [|done]. apply Hedges. exists k. split; [done | lia]. }
    destruct (next_rising_edge c0) as [e|]; [destruct (e <=? clocks)|].
    - pose proof (pulse_fields TIMER_IRQ pic Hpic Hedge ltac:(unfold TIMER_IRQ; lia)) as (W & T & L & R).
      destruct (line_pulse TIMER_IRQ pic) as [p w]. exists p, w. simpl in *.
      split_and!; try done. intros j Hj. by rewrite R, andb_true_r by done. by intros; apply Hedges.
    - exists pic, []. split_and!; try done. intros j Hj. by rewrite andb_false_r, orb_false_r.
      intros Hd Hl. rewrite Hlev in Hl. by specialize (Hrise Hd Hl).
    - exists pic, []. split_and!; try done. intros j Hj. by rewrite andb_false_r, orb_false_r.
      intros Hd Hl. rewrite Hlev in Hl. by specialize (Hrise Hd Hl). }
  pose proof (line_fields TIMER_IRQ (output d) pic1) as (R2 & L2 & T2 & W2).
  destruct (line_set_level TIMER_IRQ (output d) pic1) as [pic2 w2]. simpl in R2, L2, T2, W2.
  eexists _, pic2, _. split; [reflexivity|]. split_and!; try done.
  - split; simpl; [lia | done | done | apply W2; [unfold TIMER_IRQ; lia | done] |].
    by rewrite L2, set_level_levels, Z.eqb_refl by (unfold TIMER_IRQ; lia).
  - intros j Hj. rewrite R2, set_level_edge, Hreq1 by (done || (unfold TIMER_IRQ; lia)).
    rewrite !orb_true_iff, !andb_true_iff, Z.eqb_eq, negb_true_iff, Hedges.
    split; [|naive_solver]. intros [[?|[<- ?]]|[[<- Hd] Hl]]; eauto.
Qed.

Lemma sync_latches_edges_witness :
  exists pit pic pit' pic' w,
    with_clock 0 (set_mask 0xfe (new 8)) = Some (pit, pic, []) /\ coupled (pit, pic) /\
    sync_to_clock 200000000 (pit, pic) = Some (pit', pic', w) /\
    (Z.testbit (requests pic') 0 = true <->
       Z.testbit (requests pic) 0 = true \/
       0 = TIMER_IRQ /\ exists k, rises (channel0 pit) k /\ Z.of_nat k <= 238636 - 0).
Proof.
  set (pic := (update (record_level 0 true) (set_mask 0xfe (new 8))).1).
  set (pit := mkPit 0 bios_counter counter_default None).
  assert (coupled (pit, pic)) as Hco.
  { split; simpl.
    - lia.
    - exact cwf_bios.
    - split; simpl; try done; lia.
    - apply wf_update; [intros; apply wf_record_level; [lia | done]|].
      apply wf_set_mask; [by apply (bool_decide_unpack _)|].
      apply wf_new; [by apply (bool_decide_unpack _)|reflexivity].
    - vm_compute. reflexivity. }
  destruct (sync_latches_edges 200000000 pit pic 238636 0 Hco eq_refl) as
    (pit' & pic' & w & Hs & _ & _ & _ & Hreq).
  - vm_compute. reflexivity.
  - vm_compute. reflexivity.
  - simpl. lia.
  - exists pit, pic, pit', pic', w. split_and!; [vm_compute; reflexivity | exact Hco | exact Hs |].
    apply Hreq. lia.
Defined.

(** Wait deadline: until the deadline the device waits for, channel 0's output
    does not change; at the deadline its next transition has been reached. *)
Theorem deadline_exact pit d n0 now n1 t : cwf (channel0 pit) -> 0 <= at_ pit ->
  deadline pit = Some d -> next_transition (channel0 pit) = Some t ->
  clocks_at (at_ pit) = Some n0 -> clocks_at now = Some n1 -> at_ pit <= now ->
  (now < d -> forall k, Z.of_nat k <= n1 - n0 ->
     output (ticks k (channel0 pit)) = output (channel0 pit)) /\
  (d <= now -> t <= n1 - n0).
Proof.
  intros Hc Hat Hd Ht Hn0 Hn1 Hle. unfold deadline in Hd. rewrite Ht, Hn0 in Hd. simpl in Hd.
  injection Hd as <-. pose proof (next_transition_pos _ _ Hc Ht).
  assert (0 <= n0) as Hpos.
  { unfold clocks_at in Hn0. destruct (_ <? _); [|done]. injection Hn0 as <-.
    unfold INPUT_HZ, NANOS. Z.div_mod_to_equations. lia. }
  pose proof (clock_galois (n0 + t) now n1 ltac:(lia) ltac:(lia) Hn1) as Hg.
  split; intros Hlt.
  - intros k Hk. apply (output_before_transition _ t); [done | done |].
    destruct (decide (n0 + t <= n1)) as [Hge|]; [|lia]. apply Hg in Hge. lia.
  - apply Hg in Hlt. lia.
Qed.

Lemma deadline_exact_witness :
  let pit := mkPit 0 bios_counter counter_default None in
  deadline pit = Some 27462701 /\ (27462701 <= 27462701 -> 32768 <= 32768 - 0).
Proof.
  split; [vm_compute; reflexivity|].
  refine (proj2 (deadline_exact (mkPit 0 bios_counter counter_default None)
    27462701 0 27462701 32768 32768 cwf_bios _ _ _ _ _ _));
    [simpl; lia | vm_compute; reflexivity | vm_compute; reflexivity | vm_compute; reflexivity |
     vm_compute; reflexivity | simpl; lia].
Defined.

(** ** Programming *)

Lemma lor_bytes lo hi : fits 8 lo -> fits 8 hi ->
  wrap 8 (lo + 256 * hi) = lo /\ wrap 8 (Z.shiftr (lo + 256 * hi) 8) = hi.
Proof.
  unfold fits, wrap. change (2 ^ 8) with 256. intros Hlo Hhi.
  rewrite Z.shiftr_div_pow2 by lia. change (2 ^ 8) with 256.
  split; Z.div_mod_to_equations; lia.
Qed.

Lemma latched_reads c n : latched_status c = None -> Z.land (control c) 0x30 = 0x30 ->
  read_high c = false ->
  let '(b1, c2) := read (set_latched_count (Some n) c) in
  let '(b2, _) := read c2 in b1 = wrap 8 n /\ b2 = wrap 8 (Z.shiftr n 8).
Proof.
  intros Hs Hc Hr. destruct c as [ct g r a p l nc wl rh lc ls]. simpl in *. subst.
  unfold read. simpl. rewrite Hc. simpl. rewrite Hc. done.
Qed.

(** Programming round trip: after a low/high mode-2 or mode-3 control word,
    writing a divisor other than 1 and one clock of load, the latched count reads
    back byte by byte as the divisor (0 for 65536), with its low bit cleared in
    mode 3. *)
Theorem program_readback c square lo hi : fits 8 lo -> fits 8 hi -> lo + 256 * hi <> 1 ->
  let word := if square : bool then 0x36 else 0x34 in
  let c1 := (advance 1 (write hi (write lo (counter_control word c)))).2 in
  let '(b1, c2) := read (latch true false c1) in
  let '(b2, _) := read c2 in
  b1 = (if square then Z.land lo 0xfe else lo) /\ b2 = hi.
Proof.
  intros Hlo Hhi Hne word c1. destruct (lor_bytes lo hi Hlo Hhi) as [Hb1 Hb2].
  set (v := lo + 256 * hi) in *. set (r := if v =? 0 then 65536 else v).
  assert (0 <= v < 65536) as Hv by (unfold v, fits in *; change (2 ^ 8) with 256 in *; lia).
  assert (2 <= r <= 65536) as Hr by (unfold r; destruct (Z.eqb_spec v 0); lia).
  assert (wrap 16 r = v) as Hrv.
  { unfold r. destruct (Z.eqb_spec v 0) as [->|]; [done|]. apply wrap_small. unfold fits. lia. }
  assert (c1 = mkCounter word (gate c) r r 0 false false None false None None) as ->.
  { set (c0 := mkCounter word (gate c) r 0 0 true true None false None None).
    assert (write hi (write lo (counter_control word c)) = c0) as Hw by (by destruct square).
    subst c1. rewrite Hw. change 1 with (Z.of_nat 1). rewrite advance_ticks.
    - simpl. unfold tick. simpl. unfold load, set_phase, set_loading. simpl.
      destruct (Z.leb_spec 2 r); [done | lia].
    - subst c0 word. split; simpl; try done; try lia.
      destruct square; by apply (bool_decide_unpack _).
    - lia. }
  set (d := mkCounter _ _ _ _ _ _ _ _ _ _ _).
  change (latch true false d) with (set_latched_count (Some (count d)) d).
  assert (wrap 8 (count d) = (if square then Z.land lo 0xfe else lo) /\
          wrap 8 (Z.shiftr (count d) 8) = hi) as [H1 H2].
  { unfold count. destruct square.
    - change (is_mode d 2) with false. cbn [active phase d]. destruct (Z.eqb_spec r 0); [lia|].
      pose proof (high_clocks_bound d) as Hh. replace (0 <? high_clocks d) with true.
      2:{ symmetry. apply Z.ltb_lt. unfold high_clocks, div_ceil. simpl.
          Z.div_mod_to_equations. lia. }
      unfold saturating_sub. rewrite Z.mul_0_r. rewrite (Z.sub_0_r (Z.land r _)).
      rewrite Z.max_r by (apply Z.land_nonneg; left; lia).
      rewrite wrap_idem_le, wrap_shiftr by lia. split.
      + rewrite wrap_land_distr, <- (wrap_idem_le 8 16 r), Hrv, Hb1 by lia. done.
      + rewrite Z.shiftr_land, wrap_land_distr, <- (wrap_shiftr 8 16 r), Hrv, Hb2 by lia.
        change (wrap 8 (Z.shiftr (bnot 32 1) 8)) with (Z.ones 8).
        rewrite <- wrap_land by lia. by apply wrap_small.
    - change (is_mode d 2) with true. cbn [active phase d]. rewrite Z.sub_0_r, Hrv. done. }
  rewrite <- H1, <- H2. apply latched_reads; try done. by destruct square.
Qed.

Lemma program_readback_witness :
  let c1 := (advance 1 (write 0x12 (write 0x35 (counter_control 0x36 bios_counter)))).2 in
  let '(b1, c2) := read (latch true false c1) in
  let '(b2, _) := read c2 in b1 = Z.land 0x35 0xfe /\ b2 = 0x12.
Proof.
  apply (program_readback bios_counter true 0x35 0x12);
    [by apply (bool_decide_unpack _) | by apply (bool_decide_unpack _) | lia].
Defined.

(** ** Every access keeps the device and its line consistent *)

Lemma cwf_latch_op a b c : cwf c -> cwf (latch a b c).
Proof.
  intros Hc. unfold latch.
  assert (forall d, cwf d -> fits 16 (count d)) as Hcount by (intros; apply wrap_fits; lia).
  assert (forall d, cwf d -> cwf (if a then set_latched_count (Some (count d)) d else d)) as H1.
  { intros d Hd. destruct a; [|done]. destruct Hd. split; simpl; auto.
    intros n [= <-]. apply Hcount. by split. }
  assert (cwf (match latched_count c with
    | None => if a then set_latched_count (Some (count c)) c else c | Some _ => c end)) as H2
    by (destruct (latched_count c); auto).
  revert H2. set (d := match latched_count c with Some _ => _ | None => _ end). intros Hd.
  destruct (latched_status d); [done|]. destruct b; [|done].
  destruct Hd as [Hct Hr Ha Hl Hs Hw]. split; simpl; auto. intros n [= <-].
  apply fits8_lor; [apply fits8_lor|].
  - by apply (fits_mono 6 8).
  - by destruct (null_count d); apply (bool_decide_unpack _).
  - by destruct (output d); apply (bool_decide_unpack _).
Qed.

Lemma cwf_control_op v c : cwf c -> cwf (counter_control v c).
Proof.
  intros Hc. unfold counter_control. destruct (_ =? 0); [by apply cwf_latch_op|].
  split; simpl; auto; try done. change 63 with (Z.ones 6). rewrite <- wrap_land by lia.
  by apply wrap_fits.
Qed.

Lemma cwf_write v c : fits 8 v -> cwf c -> cwf (write v c).
Proof.
  intros Hv [Hct Hr Ha Hl Hs Hw]. unfold write.
  assert (forall n d, 0 <= n < 65536 -> cwf d ->
    cwf (let d := set_null_count true (set_reload (if n =? 0 then 65536 else n) d) in
         if active d =? 0 then set_loading true d else d)) as Hacc.
  { intros n d Hn []. cbv zeta. destruct (_ =? 0); split; simpl; auto;
      destruct (Z.eqb_spec n 0); lia. }
  unfold fits in Hv. change (2 ^ 8) with 256 in Hv.
  destruct (_ =? 0x10); [apply Hacc; [lia | by split]|].
  destruct (_ =? 0x20).
  { apply Hacc; [|by split]. pose proof (wrap_fits 16 (Z.shiftl v 8) ltac:(lia)). unfold fits in *. lia. }
  destruct (_ =? 0x30); [|by split]. destruct (write_low c) as [low|] eqn:El.
  - apply Hacc; [|split; simpl; auto; done]. specialize (Hw low eq_refl). unfold fits in Hw. lia.
  - split; simpl; auto. intros n [= <-]. by unfold fits.
Qed.

Lemma cwf_read c : cwf c -> cwf (read c).2.
Proof.
  intros [Hct Hr Ha Hl Hs Hw]. destruct c as [ct g r a p l nc wl rh lc ls]. simpl in *.
  unfold read. simpl. destruct ls; simpl.
  - split; simpl; auto. done.
  - destruct (_ && negb _); split; simpl; auto; done.
Qed.

Lemma cwf_set_gate b c : cwf c -> cwf (set_gate b c).
Proof. intros []. unfold set_gate. destruct (_ && _ && _); by split. Qed.

Lemma output_read c : output (read c).2 = output c.
Proof.
  unfold read. destruct (latched_status c); [done|]. simpl. by destruct (_ && negb _).
Qed.

Lemma output_latch a b c : output (latch a b c) = output c.
Proof.
  unfold latch.
  set (d := match latched_count c with Some _ => _ | None => _ end).
  assert (output d = output c) by (subst d; by destruct (latched_count c), a).
  destruct (latched_status d); [done|]. by destruct b.
Qed.

Inductive pit_op : Type :=
| PitRead (port bytes : Z)
| PitWrite (port bytes value : Z)
| SpeakerGate (high : bool)
| PicEvent (e : event).

(** PIC events of other devices: any but a change of line 0. *)
Definition pit_op_ok (o : pit_op) : Prop :=
  match o with
  | PicEvent e => valid_event e /\ forall h, e <> Line TIMER_IRQ h
  | _ => True
  end.

Definition pit_step (now : Z) (o : pit_op) (m : machine) : option machine :=
  match o with
  | PitRead port bytes => '(_, m, _) ← pit_read_port now port bytes m; Some m
  | PitWrite port bytes value => '(m, _, _) ← pit_write_port now port bytes value m; Some m
  | SpeakerGate high => '(m, _) ← set_channel2_gate now high m; Some m
  | PicEvent e => Some (m.1, (on_event e m.2).1)
  end.

Lemma coupled_line m c0 now c2 u high :
  coupled m -> 0 <= now -> cwf c0 -> cwf c2 -> high = output c0 ->
  coupled (mkPit now c0 c2 u, (line_set_level TIMER_IRQ high m.2).1).
Proof.
  intros [Hat Hc0 Hc2 Hpic Hlev] Hnow H0 H2 ->.
  pose proof (line_fields TIMER_IRQ (output c0) m.2) as (_ & L & _ & W).
  split; simpl; try done.
  - apply W; [unfold TIMER_IRQ; lia | done].
  - by rewrite L, set_level_levels, Z.eqb_refl by (unfold TIMER_IRQ; lia).
Qed.

Lemma wf_pulse irq c : 0 <= irq < 8 -> Pic.wf c -> Pic.wf (line_pulse irq c).1.
Proof.
  intros Hi Hwf. unfold line_pulse.
  pose proof (line_fields irq false c) as (_ & _ & _ & W1).
  destruct (line_set_level irq false c) as [c1 w1].
  pose proof (line_fields irq true c1) as (_ & _ & _ & W2).
  destruct (line_set_level irq true c1) as [c2 w2].
  pose proof (line_fields irq false c2) as (_ & _ & _ & W3).
  destruct (line_set_level irq false c2) as [c3 w3]. simpl in *. auto.
Qed.

Lemma sync_coupled now m m' w : coupled m -> at_ m.1 <= now ->
  sync_to_clock now m = Some (m', w) -> coupled m' /\ at_ m'.1 = now.
Proof.
  intros [Hat Hc0 Hc2 Hpic Hlev] Hle Hs. destruct m as [pit pic]. simpl in *.
  unfold sync_to_clock in Hs.
  destruct (clocks_at now) as [n1|] eqn:Hn1; [|done].
  destruct (clocks_at (at_ pit)) as [n0|] eqn:Hn0; [|done]. simpl in Hs.
  pose proof (clocks_at_mono _ _ _ _ Hat Hle Hn0 Hn1) as [Hn Hlt].
  destruct (Z.ltb_spec (n1 - n0) 0); [done|].
  assert (0 <= n1 - n0 < 2 ^ 64) as Hclk by lia.
  pose proof (advance_clocks _ _ Hc0 Hclk) as (_ & _ & Hc0').
  pose proof (advance_clocks _ _ Hc2 Hclk) as (_ & _ & Hc2').
  set (p1 := match next_rising_edge (channel0 pit) with Some _ => _ | None => _ end) in Hs.
  assert (Pic.wf p1.1) as Hp1.
  { subst p1. destruct (next_rising_edge _); [|done]. destruct (_ <=? _); [|done].
    apply wf_pulse; [unfold TIMER_IRQ; lia | done]. }
  destruct p1 as [pic1 w1]. simpl in Hp1.
  pose proof (line_fields TIMER_IRQ (output (advance (n1 - n0) (channel0 pit)).2) pic1)
    as (_ & L & _ & W).
  destruct (line_set_level TIMER_IRQ _ pic1) as [pic2 w2]. injection Hs as <- <-.
  split; [|done]. split; simpl in *; try done; [lia | apply W; [unfold TIMER_IRQ; lia | done] |].
  by rewrite L, set_level_levels, Z.eqb_refl by (unfold TIMER_IRQ; lia).
Qed.

(** Replacing a counter without changing channel 0's output. *)
Lemma coupled_counters m c0 c2 u : coupled m -> cwf c0 -> cwf c2 ->
  output c0 = output (channel0 m.1) -> coupled (mkPit (at_ m.1) c0 c2 u, m.2).
Proof. intros [Hat Hc0 Hc2 Hpic Hlev] H0 H2 Ho. split; simpl; try done. by rewrite Hlev. Qed.

Lemma program_coupled ch ctl v m : fits 8 v -> coupled m -> coupled (program ch ctl v m).1.1.
Proof.
  intros Hv Hm. pose proof Hm as [Hat Hc0 Hc2 Hpic Hlev]. destruct m as [pit pic]. simpl in *.
  assert (forall c, cwf c -> cwf ((if ctl : bool then counter_control v else write v) c)) as Hch
    by (intros; destruct ctl; [by apply cwf_control_op | by apply cwf_write]).
  unfold program. destruct (ch =? 0).
  - destruct (ctl && (Z.land v 0x30 =? 0)) eqn:El.
    + simpl. apply (coupled_counters (pit, pic)); auto.
      apply andb_true_iff in El as [-> El]. unfold counter_control. rewrite El. apply output_latch.
    + pose proof (coupled_line (pit, pic) ((if ctl then counter_control v else write v)
        (channel0 pit)) (at_ pit) (channel2 pit) (channel2_update pit) _ Hm Hat
        (Hch _ Hc0) Hc2 eq_refl) as H.
      cbn [snd] in H. by destruct (line_set_level _ _ pic).
  - destruct (ch =? 2); [|done]. simpl. apply (coupled_counters (pit, pic)); auto.
Qed.

(** C38 Device invariant: starting the timer couples it to its line, and every port
    access, speaker gate change and foreign PIC event keeps counters and
    controller well-formed and the recorded IRQ0 level equal to channel 0's
    output. *)
Theorem pit_invariant now o m m' : coupled m -> at_ m.1 <= now -> pit_op_ok o ->
  pit_step now o m = Some m' -> coupled m' /\ at_ m'.1 <= now.
Proof.
  intros Hm Hnow Hok Hs. destruct o as [port bytes|port bytes value|high|e]; simpl in Hs.
  - unfold pit_read_port in Hs. destruct (sync_to_clock now m) as [[m1 w]|] eqn:E; [|done].
    simpl in Hs. apply sync_coupled in E as [Hm1 Hat1]; [|done | done]. destruct m1 as [pit pic].
    pose proof Hm1 as [_ Hc0 Hc2 _ _]. cbn [fst snd] in Hc0, Hc2.
    destruct (negb _); [injection Hs as <-; split; [done | simpl in *; lia]|].
    destruct (_ =? CHANNEL_0_PORT); [|destruct (_ =? CHANNEL_2_PORT)].
    + pose proof (cwf_read _ Hc0). pose proof (output_read (channel0 pit)).
      destruct (read (channel0 pit)) as [x d]. injection Hs as <-.
      simpl in *. split; [by apply (coupled_counters (pit, pic)) | simpl; lia].
    + pose proof (cwf_read _ Hc2). destruct (read (channel2 pit)) as [x d]. injection Hs as <-.
      simpl in *. split; [by apply (coupled_counters (pit, pic)) | simpl; lia].
    + injection Hs as <-. split; [done | simpl in *; lia].
  - unfold pit_write_port in Hs. destruct (sync_to_clock now m) as [[m1 w]|] eqn:E; [|done].
    simpl in Hs. apply sync_coupled in E as [Hm1 Hat1]; [|done | done].
    assert (forall ch ctl v, fits 8 v -> coupled (program ch ctl v m1).1.1 /\
      at_ (program ch ctl v m1).1.1.1 <= now) as Hprog.
    { intros ch ctl v Hv. split; [by apply program_coupled|]. destruct m1 as [pit pic].
      unfold program. simpl in *. destruct (ch =? 0); [destruct (ctl && _); [simpl; lia|]|].
      - match goal with |- context [line_set_level ?a ?b ?c] => destruct (line_set_level a b c) end.
        simpl. lia.
      - destruct (ch =? 2); simpl; lia. }
    pose proof (wrap_fits 8 value ltac:(lia)) as Hv.
    destruct (negb _); [injection Hs as <-; split; [done | lia]|].
    destruct (port =? CHANNEL_0_PORT); [|destruct (port =? CHANNEL_2_PORT);
      [|destruct (port =? CONTROL_PORT); [destruct (_ =? 3)|]]].
    1, 2, 4: match goal with |- context [coupled] =>
        match type of Hs with context [program ?a ?b ?c ?d] =>
          specialize (Hprog a b c Hv); destruct (program a b c d) as [[m2 w2] n] end end;
      injection Hs as <-; exact Hprog.
    + injection Hs as <-. pose proof Hm1 as [_ Hc0 Hc2 _ _]. destruct m1 as [pit pic].
      unfold read_back. simpl in *. destruct (_ =? 0); [|split; [done | simpl; lia]].
      split; [|simpl; lia]. apply (coupled_counters (pit, pic)); [done | | |];
        destruct (negb _); auto using cwf_latch_op, output_latch.
    + injection Hs as <-. split; [done | lia].
  - unfold set_channel2_gate in Hs. destruct (sync_to_clock now m) as [[m1 w]|] eqn:E; [|done].
    simpl in Hs. apply sync_coupled in E as [Hm1 Hat1]; [|done | done]. injection Hs as <-.
    split; [|simpl; lia]. pose proof Hm1 as [_ Hc0 Hc2 _ _].
    apply (coupled_counters m1); auto using cwf_set_gate.
  - injection Hs as <-. destruct Hok as [Hv Hne]. destruct Hm as [Hat Hc0 Hc2 Hpic Hlev].
    destruct (pic_event_frame TIMER_IRQ e m.2 ltac:(done) Hv Hne Hpic) as [Hw Hl].
    split; [|done]. split; simpl; try done. by rewrite Hl.
Qed.

Lemma pit_invariant_witness :
  exists m', pit_step 5000 (PitWrite CONTROL_PORT 1 0x34)
    (mkPit 0 bios_counter counter_default None,
     (update (record_level 0 true) (set_mask 0xfe (new 8))).1) = Some m' /\ coupled m'.
Proof.
  eexists. split; [vm_compute; reflexivity|].
  refine (proj1 (pit_invariant 5000 (PitWrite CONTROL_PORT 1 0x34)
    (mkPit 0 bios_counter counter_default None,
     (update (record_level 0 true) (set_mask 0xfe (new 8))).1) _ _ _ I _)).
  - split; cbn [fst snd].
    + simpl. lia.
    + exact cwf_bios.
    + split; simpl; try done; lia.
    + apply wf_update; [intros; apply wf_record_level; [lia | done]|].
      apply wf_set_mask; [by apply (bool_decide_unpack _)|].
      apply wf_new; [by apply (bool_decide_unpack _)|reflexivity].
    + vm_compute. reflexivity.
  - simpl. lia.
  - vm_compute. reflexivity.
Defined.
