(* ===== verification/Scancodes.v ===== *)
(** * Scan codes

    crates/at-keyboard/src/scancodes.rs: the byte sequences of key transitions in
    scan sets 1 and 2, and the controller's translation of one to the other.

    [KeyCode] is winit's. The source names the constructors below; [Unnamed]
    stands for every other one. *)

From S2P Require Import Prelude.
Local Open Scope Z_scope.

Inductive KeyCode : Set :=
| Escape | Digit1 | Digit2 | Digit3 | Digit4 | Digit5 | Digit6 | Digit7 | Digit8 | Digit9 |
  Digit0 | Minus | Equal | Backspace | Tab | KeyQ | KeyW | KeyE | KeyR | KeyT | KeyY | KeyU |
  KeyI | KeyO | KeyP | BracketLeft | BracketRight | Enter | NumpadEnter | KeyA | KeyS | KeyD |
  KeyF | KeyG | KeyH | KeyJ | KeyK | KeyL | Semicolon | Quote | Backquote | Backslash | KeyZ |
  KeyX | KeyC | KeyV | KeyB | KeyN | KeyM | Comma | Period | Slash | NumpadDivide |
  NumpadMultiply | Space | F1 | F2 | F3 | F4 | F5 | F6 | F7 | F8 | F9 | F10 | Home | Numpad7 |
  ArrowUp | Numpad8 | PageUp | Numpad9 | NumpadSubtract | ArrowLeft | Numpad4 | Numpad5 |
  ArrowRight | Numpad6 | NumpadAdd | End_ | Numpad1 | ArrowDown | Numpad2 | PageDown |
  Numpad3 | Insert | Numpad0 | Delete | NumpadDecimal | F11 | F12 | ShiftLeft | ShiftRight |
  ControlLeft | ControlRight | AltLeft | AltRight | CapsLock | NumLock | ScrollLock |
  IntlBackslash | SuperLeft | SuperRight | ContextMenu | PrintScreen | Pause
| Unnamed (index : nat).

(** ** Decidable equality and sets of keys, by numbering *)

Definition named_keys : list KeyCode :=
  [ Escape; Digit1; Digit2; Digit3; Digit4; Digit5; Digit6; Digit7; Digit8; Digit9; Digit0;
    Minus; Equal; Backspace; Tab; KeyQ; KeyW; KeyE; KeyR; KeyT; KeyY; KeyU; KeyI; KeyO; KeyP;
    BracketLeft; BracketRight; Enter; NumpadEnter; KeyA; KeyS; KeyD; KeyF; KeyG; KeyH; KeyJ;
    KeyK; KeyL; Semicolon; Quote; Backquote; Backslash; KeyZ; KeyX; KeyC; KeyV; KeyB; KeyN;
    KeyM; Comma; Period; Slash; NumpadDivide; NumpadMultiply; Space; F1; F2; F3; F4; F5; F6;
    F7; F8; F9; F10; Home; Numpad7; ArrowUp; Numpad8; PageUp; Numpad9; NumpadSubtract;
    ArrowLeft; Numpad4; Numpad5; ArrowRight; Numpad6; NumpadAdd; End_; Numpad1; ArrowDown;
    Numpad2; PageDown; Numpad3; Insert; Numpad0; Delete; NumpadDecimal; F11; F12; ShiftLeft;
    ShiftRight; ControlLeft; ControlRight; AltLeft; AltRight; CapsLock; NumLock; ScrollLock;
    IntlBackslash; SuperLeft; SuperRight; ContextMenu; PrintScreen; Pause ].

Definition key_number (key : KeyCode) : nat :=
  match key with
  | Escape => 0 | Digit1 => 1 | Digit2 => 2 | Digit3 => 3 | Digit4 => 4 | Digit5 => 5
  | Digit6 => 6 | Digit7 => 7 | Digit8 => 8 | Digit9 => 9 | Digit0 => 10 | Minus => 11
  | Equal => 12 | Backspace => 13 | Tab => 14 | KeyQ => 15 | KeyW => 16 | KeyE => 17
  | KeyR => 18 | KeyT => 19 | KeyY => 20 | KeyU => 21 | KeyI => 22 | KeyO => 23 | KeyP => 24
  | BracketLeft => 25 | BracketRight => 26 | Enter => 27 | NumpadEnter => 28 | KeyA => 29
  | KeyS => 30 | KeyD => 31 | KeyF => 32 | KeyG => 33 | KeyH => 34 | KeyJ => 35 | KeyK => 36
  | KeyL => 37 | Semicolon => 38 | Quote => 39 | Backquote => 40 | Backslash => 41 | KeyZ => 42
  | KeyX => 43 | KeyC => 44 | KeyV => 45 | KeyB => 46 | KeyN => 47 | KeyM => 48 | Comma => 49
  | Period => 50 | Slash => 51 | NumpadDivide => 52 | NumpadMultiply => 53 | Space => 54
  | F1 => 55 | F2 => 56 | F3 => 57 | F4 => 58 | F5 => 59 | F6 => 60 | F7 => 61 | F8 => 62
  | F9 => 63 | F10 => 64 | Home => 65 | Numpad7 => 66 | ArrowUp => 67 | Numpad8 => 68
  | PageUp => 69 | Numpad9 => 70 | NumpadSubtract => 71 | ArrowLeft => 72 | Numpad4 => 73
  | Numpad5 => 74 | ArrowRight => 75 | Numpad6 => 76 | NumpadAdd => 77 | End_ => 78
  | Numpad1 => 79 | ArrowDown => 80 | Numpad2 => 81 | PageDown => 82 | Numpad3 => 83
  | Insert => 84 | Numpad0 => 85 | Delete => 86 | NumpadDecimal => 87 | F11 => 88 | F12 => 89
  | ShiftLeft => 90 | ShiftRight => 91 | ControlLeft => 92 | ControlRight => 93 | AltLeft => 94
  | AltRight => 95 | CapsLock => 96 | NumLock => 97 | ScrollLock => 98 | IntlBackslash => 99
  | SuperLeft => 100 | SuperRight => 101 | ContextMenu => 102 | PrintScreen => 103
  | Pause => 104
  | Unnamed index => 105 + index
  end.
Definition key_of_number (n : nat) : KeyCode := nth n named_keys (Unnamed (n - 105)).

Lemma key_of_number_of key : key_of_number (key_number key) = key.
Proof.
  destruct key as [ |  |  |  |  |  |  |  |  |  |  |  |  |  |  |  |  |  |  |  |  |  |  |  |  |  |  |  |  |  |  |  |  |  |  |  |  |  |  |  |  |  |  |  |  |  |  |  |  |  |  |  |  |  |  |  |  |  |  |  |  |  |  |  |  |  |  |  |  |  |  |  |  |  |  |  |  |  |  |  |  |  |  |  |  |  |  |  |  |  |  |  |  |  |  |  |  |  |  |  |  |  |  |  |  | index]; try reflexivity.
  unfold key_of_number, key_number. rewrite nth_overflow by (cbn; lia). f_equal. lia.
Qed.

#[export] Instance KeyCode_eq_dec : EqDecision KeyCode.
Proof.
  intros a b. refine (cast_if (decide (key_number a = key_number b))).
  - rewrite <- (key_of_number_of a), <- (key_of_number_of b). by f_equal.
  - intros ->. done.
Defined.
#[export] Instance KeyCode_countable : Countable KeyCode :=
  inj_countable' key_number key_of_number key_of_number_of.

(** ** The table *)

Definition KEYS : list (KeyCode * Z * Z * bool) :=
  [ (Escape, 0x01, 0x76, false); (Digit1, 0x02, 0x16, false); (Digit2, 0x03, 0x1e, false);
    (Digit3, 0x04, 0x26, false); (Digit4, 0x05, 0x25, false); (Digit5, 0x06, 0x2e, false);
    (Digit6, 0x07, 0x36, false); (Digit7, 0x08, 0x3d, false); (Digit8, 0x09, 0x3e, false);
    (Digit9, 0x0a, 0x46, false); (Digit0, 0x0b, 0x45, false); (Minus, 0x0c, 0x4e, false);
    (Equal, 0x0d, 0x55, false); (Backspace, 0x0e, 0x66, false); (Tab, 0x0f, 0x0d, false);
    (KeyQ, 0x10, 0x15, false); (KeyW, 0x11, 0x1d, false); (KeyE, 0x12, 0x24, false);
    (KeyR, 0x13, 0x2d, false); (KeyT, 0x14, 0x2c, false); (KeyY, 0x15, 0x35, false);
    (KeyU, 0x16, 0x3c, false); (KeyI, 0x17, 0x43, false); (KeyO, 0x18, 0x44, false);
    (KeyP, 0x19, 0x4d, false); (BracketLeft, 0x1a, 0x54, false);
    (BracketRight, 0x1b, 0x56, false); (Enter, 0x1c, 0x5a, false);
    (NumpadEnter, 0x1c, 0x5a, true); (KeyA, 0x1e, 0x1c, false); (KeyS, 0x1f, 0x1b, false);
    (KeyD, 0x20, 0x23, false); (KeyF, 0x21, 0x2b, false); (KeyG, 0x22, 0x34, false);
    (KeyH, 0x23, 0x33, false); (KeyJ, 0x24, 0x3b, false); (KeyK, 0x25, 0x42, false);
    (KeyL, 0x26, 0x4b, false); (Semicolon, 0x27, 0x4c, false); (Quote, 0x28, 0x52, false);
    (Backquote, 0x29, 0x0e, false); (Backslash, 0x2b, 0x5d, false); (KeyZ, 0x2c, 0x1a, false);
    (KeyX, 0x2d, 0x22, false); (KeyC, 0x2e, 0x21, false); (KeyV, 0x2f, 0x2a, false);
    (KeyB, 0x30, 0x32, false); (KeyN, 0x31, 0x31, false); (KeyM, 0x32, 0x3a, false);
    (Comma, 0x33, 0x41, false); (Period, 0x34, 0x49, false); (Slash, 0x35, 0x4a, false);
    (NumpadDivide, 0x35, 0x4a, true); (NumpadMultiply, 0x37, 0x7c, false);
    (Space, 0x39, 0x29, false); (F1, 0x3b, 0x05, false); (F2, 0x3c, 0x06, false);
    (F3, 0x3d, 0x04, false); (F4, 0x3e, 0x0c, false); (F5, 0x3f, 0x03, false);
    (F6, 0x40, 0x0b, false); (F7, 0x41, 0x83, false); (F8, 0x42, 0x0a, false);
    (F9, 0x43, 0x01, false); (F10, 0x44, 0x09, false); (Home, 0x47, 0x6c, true);
    (Numpad7, 0x47, 0x6c, false); (ArrowUp, 0x48, 0x75, true); (Numpad8, 0x48, 0x75, false);
    (PageUp, 0x49, 0x7d, true); (Numpad9, 0x49, 0x7d, false);
    (NumpadSubtract, 0x4a, 0x7b, false); (ArrowLeft, 0x4b, 0x6b, true);
    (Numpad4, 0x4b, 0x6b, false); (Numpad5, 0x4c, 0x73, false); (ArrowRight, 0x4d, 0x74, true);
    (Numpad6, 0x4d, 0x74, false); (NumpadAdd, 0x4e, 0x79, false); (End_, 0x4f, 0x69, true);
    (Numpad1, 0x4f, 0x69, false); (ArrowDown, 0x50, 0x72, true); (Numpad2, 0x50, 0x72, false);
    (PageDown, 0x51, 0x7a, true); (Numpad3, 0x51, 0x7a, false); (Insert, 0x52, 0x70, true);
    (Numpad0, 0x52, 0x70, false); (Delete, 0x53, 0x71, true);
    (NumpadDecimal, 0x53, 0x71, false); (F11, 0x57, 0x78, false); (F12, 0x58, 0x07, false);
    (ShiftLeft, 0x2a, 0x12, false); (ShiftRight, 0x36, 0x59, false);
    (ControlLeft, 0x1d, 0x14, false); (ControlRight, 0x1d, 0x14, true);
    (AltLeft, 0x38, 0x11, false); (AltRight, 0x38, 0x11, true); (CapsLock, 0x3a, 0x58, false);
    (NumLock, 0x45, 0x77, false); (ScrollLock, 0x46, 0x7e, false);
    (IntlBackslash, 0x56, 0x61, false); (SuperLeft, 0x5b, 0x1f, true);
    (SuperRight, 0x5c, 0x27, true); (ContextMenu, 0x5d, 0x2f, true) ].

Definition find_key (key : KeyCode) : option (KeyCode * Z * Z * bool) :=
  List.find (fun '(code, _, _, _) => bool_decide (code = key)) KEYS.

Definition supported (key : KeyCode) : bool :=
  bool_decide (key = PrintScreen) || bool_decide (key = Pause)
  || existsb (fun '(code, _, _, _) => bool_decide (code = key)) KEYS.

Definition repeatable (key : KeyCode) : bool := negb (bool_decide (key = Pause)).

Definition code_bytes (code : Z) (extended pressed : bool) (set : Z) : list Z :=
  (if extended then [0xe0] else [])
  ++ (if negb pressed && (set =? 2) then [0xf0] else [])
  ++ [if negb pressed && (set =? 1) then Z.lor code 0x80 else code].

Definition sequence (key : KeyCode) (pressed : bool) (set : Z) (held : gset KeyCode) : list Z :=
  let control := bool_decide (ControlLeft ∈ held) || bool_decide (ControlRight ∈ held) in
  let alt := bool_decide (AltLeft ∈ held) || bool_decide (AltRight ∈ held) in
  let shift := bool_decide (ShiftLeft ∈ held) || bool_decide (ShiftRight ∈ held) in
  if bool_decide (key = Pause) then
    if negb pressed then []
    else if control then
      if set =? 1 then [0xe0; 0x46; 0xe0; 0xc6] else [0xe0; 0x7e; 0xe0; 0xf0; 0x7e]
    else if set =? 1 then [0xe1; 0x1d; 0x45; 0xe1; 0x9d; 0xc5]
    else [0xe1; 0x14; 0x77; 0xe1; 0xf0; 0x14; 0xf0; 0x77]
  else if bool_decide (key = PrintScreen) then
    if alt then code_bytes (if set =? 1 then 0x54 else 0x84) false pressed set
    else
      let bytes := code_bytes (if set =? 1 then 0x37 else 0x7c) true pressed set in
      if negb control && negb shift then
        let fake_shift := code_bytes (if set =? 1 then 0x2a else 0x12) true pressed set in
        if pressed then fake_shift ++ bytes else bytes ++ fake_shift
      else bytes
  else
    match find_key key with
    | Some (_, set1, set2, extended) => code_bytes (if set =? 1 then set1 else set2) extended pressed set
    | None => []
    end.

Definition translate (byte : Z) : Z :=
  if byte =? 0 then 0xff
  else if byte =? 2 then 0x41
  else if byte =? 0x84 then 0x54
  else
    match List.find (fun '(_, _, set2, _) => set2 =? byte) KEYS with
    | Some (_, set1, _, _) => set1
    | None => byte
    end.

(** ** What the controller's translation makes of a byte stream

    F0 announces a break: it produces nothing and sets the high bit of the next
    translated byte. *)

Definition wire_byte (break_prefix : bool) (byte : Z) : option Z * bool :=
  if byte =? 0xf0 then (None, true)
  else (Some (if break_prefix then Z.lor (translate byte) 0x80 else translate byte), false).

Fixpoint wire (break_prefix : bool) (bytes : list Z) : list Z * bool :=
  match bytes with
  | [] => ([], break_prefix)
  | byte :: bytes =>
      let '(out, break_prefix) := wire_byte break_prefix byte in
      let '(outs, break_prefix) := wire break_prefix bytes in
      (match out with Some out => out :: outs | None => outs end, break_prefix)
  end.

Lemma wire_app p l l' : wire p (l ++ l') = ((wire p l).1 ++ (wire (wire p l).2 l').1, (wire (wire p l).2 l').2).
Proof.
  revert p. induction l as [|b l IH]; intros p; cbn [app wire fst snd]; [by destruct (wire p l')|].
  destruct (wire_byte p b) as [out p']. rewrite IH. destruct (wire p' l) as [o q]; cbn [fst snd].
  destruct (wire q l') as [o' q']; cbn [fst snd]. by destruct out.
Qed.

(** The set-2 and set-1 sequences of a key outside the special cases. *)
Lemma code_bytes_wire set1 set2 extended pressed :
  translate set2 = set1 -> set2 <> 0xf0 ->
  wire false (code_bytes set2 extended pressed 2) = (code_bytes set1 extended pressed 1, false).
Proof.
  intros Ht Hne. unfold code_bytes.
  change (2 =? 2) with true. change (1 =? 1) with true. change (1 =? 2) with false. change (2 =? 1) with false.
  destruct extended, pressed; cbn [negb andb app wire]; unfold wire_byte;
    rewrite (proj2 (Z.eqb_neq set2 0xf0)) by done; by rewrite Ht.
Qed.

(** Set-1 translation is faithful: whatever keys are held, the set-2 sequence of
    any key transition, Print Screen and Pause with their special sequences
    included, translates byte by byte to its set-1 sequence and leaves no break
    prefix pending. *)
Theorem translation_is_set1 (key : KeyCode) (pressed : bool) (held : gset KeyCode) :
  wire false (sequence key pressed 2 held) = (sequence key pressed 1 held, false).
Proof.
  unfold sequence. cbv zeta. cbn [Z.eqb Pos.eqb].
  generalize (bool_decide (ControlLeft ∈ held) || bool_decide (ControlRight ∈ held)),
    (bool_decide (AltLeft ∈ held) || bool_decide (AltRight ∈ held)),
    (bool_decide (ShiftLeft ∈ held) || bool_decide (ShiftRight ∈ held)).
  intros control alt shift. case_bool_decide as Hp.
  { by destruct pressed, control. }
  case_bool_decide as Hs.
  { by destruct pressed, control, alt, shift. }
  destruct (find_key key) as [[[[k set1] set2] extended]|] eqn:Hk; [|done].
  apply find_some in Hk as [Hin _]. apply list_elem_of_In in Hin.
  assert (Forall (fun '(_, set1, set2, _) => translate set2 = set1 /\ set2 <> 0xf0) KEYS) as Hall
    by (apply (bool_decide_unpack _); vm_compute; exact I).
  rewrite Forall_forall in Hall. destruct (Hall _ Hin). by apply code_bytes_wire.
Qed.
