(* ===== verification/KeyboardController.v ===== *)
(** * The 8042 keyboard controller

    crates/at-keyboard/src/controller.rs: the registers behind ports 60h and 64h
    and the firmware task that serves them. Its interrupt line is line 1 of the
    PIC model (Pic.v).

    An [async fn] is a state machine over its awaits. [receive] and [send] listen
    to [changed] before they check their condition, so the event is a counter of
    notifications: a listener made at count [n] is notified once the count
    exceeds [n]. [woken] records the wakers the PIC has invoked. *)

From S2P Require Import Prelude Pic Scancodes.
Local Open Scope Z_scope.

Definition DATA_PORT : Z := 0x60.
Definition STATUS_COMMAND_PORT : Z := 0x64.
Definition OUTPUT_BUFFER_FULL : Z := 1.
Definition INPUT_BUFFER_FULL : Z := 2.

Definition IRQ_ENABLED : Z := 1.
Definition SYSTEM_INITIALIZED : Z := 4.
Definition COMMAND_INPUT : Z := 8.
Definition KEYBOARD_UNLOCKED : Z := 16.
Definition INTERFACE_DISABLED : Z := 16.
Definition TRANSLATE_SET_2 : Z := 64.

Definition READ_COMMAND_BYTE : Z := 0x20.
Definition WRITE_COMMAND_BYTE : Z := 0x60.
Definition SELF_TEST : Z := 0xaa.
Definition INTERFACE_TEST : Z := 0xab.
Definition DISABLE_INTERFACE : Z := 0xad.
Definition ENABLE_INTERFACE : Z := 0xae.
Definition WRITE_OUTPUT_BUFFER : Z := 0xd2.

(** ** Registers *)

Inductive Input : Set := ICommand (byte : Z) | IData (byte : Z).

Record Registers := mkRegisters {
  input : option Input;
  output : Z;
  output_full : bool;
  command_byte : Z;
  last_command : bool;
  break_prefix : bool;
}.

Record Controller := mkController {
  registers : Registers;
  irq : Pic.Controller;
  changed : nat;
  woken : list waker_id;
}.

Definition set_registers (r : Registers) (c : Controller) : Controller :=
  mkController r (irq c) (changed c) (woken c).
Definition notify (c : Controller) : Controller :=
  mkController (registers c) (irq c) (S (changed c)) (woken c).
Definition irq_set_level (high : bool) (c : Controller) : Controller :=
  let '(pic, woke) := line_set_level KEYBOARD_IRQ high (irq c) in
  mkController (registers c) pic (changed c) (woken c ++ option_list woke).

(** [Controller::new]: [None] is the assertion on the line number. *)
Definition controller_new (pic : Pic.Controller) : option Controller :=
  '(pic, woke) ← connect_irq KEYBOARD_IRQ false pic;
  Some (mkController
    (mkRegisters None 0xff false (Z.lor (Z.lor IRQ_ENABLED SYSTEM_INITIALIZED) TRANSLATE_SET_2) false false)
    pic 0 (option_list woke)).

(** ** Port callbacks *)

Definition status (c : Controller) : Z :=
  let r := registers c in
  Z.lor (Z.lor (Z.lor (Z.lor KEYBOARD_UNLOCKED (Z.land (command_byte r) SYSTEM_INITIALIZED))
    (if last_command r then COMMAND_INPUT else 0))
    (if bool_decide (is_Some (input r)) then INPUT_BUFFER_FULL else 0))
    (if output_full r then OUTPUT_BUFFER_FULL else 0).

Definition read_data (c : Controller) : Z * Controller :=
  let r := registers c in
  let c := set_registers (mkRegisters (input r) (output r) false (command_byte r) (last_command r) (break_prefix r)) c in
  (output r, notify (irq_set_level false c)).

Definition write (port value : Z) (c : Controller) : Controller :=
  let input' := if port =? DATA_PORT then Some (IData value)
                else if port =? STATUS_COMMAND_PORT then Some (ICommand value)
                else None in
  match input' with
  | None => c
  | Some i =>
      let r := registers c in
      match input r with
      | Some _ => c
      | None =>
          let last := match i with ICommand _ => true | IData _ => false end in
          notify (set_registers (mkRegisters (Some i) (output r) (output_full r) (command_byte r) last (break_prefix r)) c)
      end
  end.

(** The device's callbacks over both ports (lib.rs). *)
Definition keyboard_read_port (port bytes : Z) (c : Controller) : Z * Controller :=
  if negb (bytes =? 1) then (0xffffffff, c)
  else if port =? DATA_PORT then read_data c
  else if port =? STATUS_COMMAND_PORT then (status c, c)
  else (0xffffffff, c).
Definition keyboard_write_port (port bytes value : Z) (c : Controller) : Controller :=
  if bytes =? 1 then write port (wrap 8 value) c else c.

(** [read_scan_code], on a bus whose keyboard ports reach this device. *)
Definition read_scan_code (c : Controller) : option Z * Controller :=
  let '(status, c) := keyboard_read_port STATUS_COMMAND_PORT 1 c in
  if has status OUTPUT_BUFFER_FULL then
    let '(byte, c) := keyboard_read_port DATA_PORT 1 c in (Some (wrap 8 byte), c)
  else (None, c).

Definition inhibited (c : Controller) : bool :=
  output_full (registers c) || has (command_byte (registers c)) INTERFACE_DISABLED.

(** ** Transmission *)

Definition update_irq (c : Controller) : Controller :=
  irq_set_level (output_full (registers c) && has (command_byte (registers c)) IRQ_ENABLED) c.

Definition set_command_byte (value : Z) (c : Controller) : Controller :=
  let r := registers c in
  set_registers (mkRegisters (input r) (output r) (output_full r) value (last_command r) (break_prefix r)) c.
Definition set_break_prefix (value : bool) (c : Controller) : Controller :=
  let r := registers c in
  set_registers (mkRegisters (input r) (output r) (output_full r) (command_byte r) (last_command r) value) c.
Definition put_output (byte : Z) (c : Controller) : Controller :=
  let r := registers c in
  update_irq (set_registers (mkRegisters (input r) byte true (command_byte r) (last_command r) (break_prefix r)) c).
Definition take_input (c : Controller) : Controller :=
  let r := registers c in
  set_registers (mkRegisters None (output r) (output_full r) (command_byte r) (last_command r) (break_prefix r)) c.

Inductive Source : Set := FromController | FromKeyboard.
#[export] Instance Source_eq_dec : EqDecision Source.
Proof. solve_decision. Defined.

(** One pass of the loop of [send]; [None] awaits [changed]. *)
Definition send (byte : Z) (source : Source) (c : Controller) : option Controller :=
  let r := registers c in
  if negb (output_full r)
     && (bool_decide (source = FromController) || negb (has (command_byte r) INTERFACE_DISABLED)) then
    if bool_decide (source = FromKeyboard) && has (command_byte r) TRANSLATE_SET_2 then
      if byte =? 0xf0 then Some (set_break_prefix true c)
      else
        let byte := translate byte in
        let byte := if break_prefix r then Z.lor byte 0x80 else byte in
        Some (put_output byte (set_break_prefix false c))
    else Some (put_output byte c)
  else None.

(** ** The firmware task

    Where [Controller::run] awaits: a byte in the input register, room in the
    channel to the keyboard (one byte), the parameter of a command, or room in
    the output register. *)
Inductive Firmware : Set :=
| Receiving
| Forwarding (value : Z)
| Parameter_ (command : Z)
| Sending (byte : Z).

(** The end of a command. *)
Definition finish (c : Controller) : Firmware * Controller := (Receiving, notify (update_irq c)).

(** The match on [command]; a replacing command comes back to it. *)
Definition dispatch (command : Z) (c : Controller) : Firmware * Controller :=
  let r := registers c in
  if command =? READ_COMMAND_BYTE then (Sending (command_byte r), c)
  else if (command =? WRITE_COMMAND_BYTE) || (command =? WRITE_OUTPUT_BUFFER) then (Parameter_ command, c)
  else if command =? SELF_TEST then
    (Sending 0x55, set_command_byte (Z.lor (command_byte r) SYSTEM_INITIALIZED) c)
  else if command =? INTERFACE_TEST then (Sending 0, c)
  else if command =? DISABLE_INTERFACE then
    finish (set_command_byte (Z.lor (command_byte r) INTERFACE_DISABLED) c)
  else if command =? ENABLE_INTERFACE then
    finish (set_command_byte (Z.land (command_byte r) (bnot 8 INTERFACE_DISABLED)) c)
  else finish c.

Definition write_command_byte (value : Z) (c : Controller) : Controller :=
  let r := registers c in
  let c := if has (Z.lxor (command_byte r) value) TRANSLATE_SET_2 then set_break_prefix false c else c in
  set_command_byte value c.

(** From one await to the next; [None] when the awaited condition does not hold. *)
Definition firmware_step (f : Firmware) (c : Controller) (channel : option Z)
    : option (Firmware * Controller * option Z) :=
  match f with
  | Receiving =>
      match input (registers c) with
      | None => None
      | Some (ICommand command) => let '(f, c) := dispatch command (take_input c) in Some (f, c, channel)
      | Some (IData value) =>
          match channel with
          | None => Some (Receiving, take_input c, Some value)
          | Some _ => Some (Forwarding value, take_input c, channel)
          end
      end
  | Forwarding value =>
      match channel with
      | None => Some (Receiving, c, Some value)
      | Some _ => None
      end
  | Parameter_ command =>
      match input (registers c) with
      | None => None
      | Some (IData value) =>
          let c := take_input c in
          if command =? WRITE_COMMAND_BYTE then
            let '(f, c) := finish (write_command_byte value c) in Some (f, c, channel)
          else Some (Sending value, c, channel)
      | Some (ICommand replacement) => let '(f, c) := dispatch replacement (take_input c) in Some (f, c, channel)
      end
  | Sending byte =>
      c ← send byte FromController c;
      let '(f, c) := finish c in Some (f, c, channel)
  end.
