(* ===== verification/Keyboard.v ===== *)
(** * The AT keyboard

    crates/at-keyboard/src/keyboard.rs: physical scanning, the sixteen-byte scan
    buffer, typematic repeat and the command exchanges, over the controller of
    KeyboardController.v.

    A Duration is its number of nanoseconds. [iterate] is the ascending order in
    which a BTreeSet of winit's key codes yields its keys. *)

From S2P Require Import Prelude Pic Scancodes KeyboardController.
Local Open Scope Z_scope.

Definition SET_LEDS : Z := 0xed.
Definition ECHO : Z := 0xee.
Definition SCAN_SET : Z := 0xf0.
Definition IDENTIFY : Z := 0xf2.
Definition SET_TYPEMATIC : Z := 0xf3.
Definition ENABLE_SCANNING : Z := 0xf4.
Definition DEFAULT_DISABLE : Z := 0xf5.
Definition DEFAULTS : Z := 0xf6.
Definition ACK : Z := 0xfa.
Definition RESEND : Z := 0xfe.
Definition RESET : Z := 0xff.

Definition DURATION_MAX : Z := 2 ^ 64 * 1000000000 - 1.
Definition saturating_add (a b : Z) : Z := Z.min (a + b) DURATION_MAX.

(** ** Host events, of winit *)

Record ModifiersState := mkModifiers { shift_key : bool; control_key : bool; alt_key : bool; super_key : bool }.

(** [Unidentified] is a key event whose physical key is not a code. *)
Inductive KeyboardEvent :=
| Key (physical_key : KeyCode) (pressed : bool)
| Unidentified
| Modifiers (modifiers : ModifiersState)
| FocusLost.

(** ** State *)

Record Repeat := mkRepeat { key_repeated : KeyCode; deadline : Z }.

(** The receiver, the command channel and the controller are the task's
    environment; [events_open] tells whether [events] is still [Some]. *)
Record Keyboard := mkKeyboard {
  events_open : bool;
  last_sent : Z;
  held : gset KeyCode;
  scans : list Z;
  overflow : bool;
  paused : option (gset KeyCode);
  scanning : bool;
  set : Z;
  leds : Z;
  typematic : Z;
  repeat : option Repeat;
}.

Definition keyboard_new : Keyboard :=
  mkKeyboard true RESEND ∅ [] false None true 2 0 0x2b None.

Definition set_events_open (x : bool) (k : Keyboard) : Keyboard :=
  mkKeyboard x (last_sent k) (held k) (scans k) (overflow k) (paused k) (scanning k) (set k) (leds k) (typematic k) (repeat k).
Definition set_last_sent (x : Z) (k : Keyboard) : Keyboard :=
  mkKeyboard (events_open k) x (held k) (scans k) (overflow k) (paused k) (scanning k) (set k) (leds k) (typematic k) (repeat k).
Definition set_held (x : gset KeyCode) (k : Keyboard) : Keyboard :=
  mkKeyboard (events_open k) (last_sent k) x (scans k) (overflow k) (paused k) (scanning k) (set k) (leds k) (typematic k) (repeat k).
Definition set_scans (x : list Z) (k : Keyboard) : Keyboard :=
  mkKeyboard (events_open k) (last_sent k) (held k) x (overflow k) (paused k) (scanning k) (set k) (leds k) (typematic k) (repeat k).
Definition set_overflow (x : bool) (k : Keyboard) : Keyboard :=
  mkKeyboard (events_open k) (last_sent k) (held k) (scans k) x (paused k) (scanning k) (set k) (leds k) (typematic k) (repeat k).
Definition set_paused (x : option (gset KeyCode)) (k : Keyboard) : Keyboard :=
  mkKeyboard (events_open k) (last_sent k) (held k) (scans k) (overflow k) x (scanning k) (set k) (leds k) (typematic k) (repeat k).
Definition set_scanning (x : bool) (k : Keyboard) : Keyboard :=
  mkKeyboard (events_open k) (last_sent k) (held k) (scans k) (overflow k) (paused k) x (set k) (leds k) (typematic k) (repeat k).
Definition set_set (x : Z) (k : Keyboard) : Keyboard :=
  mkKeyboard (events_open k) (last_sent k) (held k) (scans k) (overflow k) (paused k) (scanning k) x (leds k) (typematic k) (repeat k).
Definition set_leds (x : Z) (k : Keyboard) : Keyboard :=
  mkKeyboard (events_open k) (last_sent k) (held k) (scans k) (overflow k) (paused k) (scanning k) (set k) x (typematic k) (repeat k).
Definition set_typematic (x : Z) (k : Keyboard) : Keyboard :=
  mkKeyboard (events_open k) (last_sent k) (held k) (scans k) (overflow k) (paused k) (scanning k) (set k) (leds k) x (repeat k).
Definition set_repeat (x : option Repeat) (k : Keyboard) : Keyboard :=
  mkKeyboard (events_open k) (last_sent k) (held k) (scans k) (overflow k) (paused k) (scanning k) (set k) (leds k) (typematic k) x.

(** ** Scanning *)

Definition emit (key : KeyCode) (pressed : bool) (k : Keyboard) : Keyboard :=
  let bytes := sequence key pressed (set k) (held k) in
  if Z.of_nat (length (scans k)) + Z.of_nat (length bytes) <=? 16 then set_scans (scans k ++ bytes) k
  else set_overflow true k.

(** Milliseconds in nanoseconds. *)
Definition delay (k : Keyboard) : Z := 250 * (Z.land (Z.shiftr (typematic k) 5) 3 + 1) * 1000000.

Definition scan (key : KeyCode) (pressed : bool) (now : Z) (k : Keyboard) : Keyboard :=
  let k := emit key pressed k in
  if pressed && repeatable key then set_repeat (Some (mkRepeat key (saturating_add now (delay k)))) k
  else k.

Definition key_event (key : KeyCode) (pressed : bool) (now : Z) (k : Keyboard) : Keyboard :=
  if negb (supported key) then k
  else
    let changed := if pressed then bool_decide (key ∉ held k) else bool_decide (key ∈ held k) in
    let k := set_held (if pressed then held k ∪ {[key]} else held k ∖ {[key]}) k in
    if negb changed then k
    else
      let k := if scanning k && bool_decide (paused k = None) then scan key pressed now k else k in
      if negb pressed && bool_decide (key_repeated <$> repeat k = Some key) then set_repeat None k else k.

Definition pause (k : Keyboard) : Keyboard :=
  let k := match paused k with None => set_paused (Some (held k)) k | Some _ => k end in
  set_repeat None k.

Definition clear_scans (k : Keyboard) : Keyboard := set_repeat None (set_overflow false (set_scans [] k)).

Definition defaults (scanning : bool) (k : Keyboard) : Keyboard :=
  set_leds 0 (set_typematic 0x2b (set_set 2 (set_scanning scanning (clear_scans k)))).

Definition peek_byte (k : Keyboard) : option Z :=
  match scans k with
  | byte :: _ => Some byte
  | [] => if overflow k then Some (if set k =? 1 then 0xff else 0) else None
  end.

Definition consume_byte (k : Keyboard) : Keyboard :=
  match scans k with
  | _ :: rest => set_scans rest k
  | [] => set_overflow false k
  end.

(** The programmed repeat period in nanoseconds. *)
Definition period (k : Keyboard) : Z :=
  let clocks := Z.shiftl (8 + Z.land (typematic k) 7) (Z.land (Z.shiftr (typematic k) 3) 3) in
  (clocks * 1000000000 + 239) / 240.

Definition repeat_key (inhibited : bool) (now : Z) (k : Keyboard) : Keyboard :=
  match repeat k with
  | Some r =>
      if deadline r <=? now then
        let k := if negb inhibited then emit (key_repeated r) true k else k in
        set_repeat (Some (mkRepeat (key_repeated r) (saturating_add now (period k)))) k
      else k
  | None => k
  end.

Section Iteration.
Context (iterate : gset KeyCode -> list KeyCode).

Definition modifier_keys (m : ModifiersState) : list (bool * KeyCode * KeyCode) :=
  [ (shift_key m, ShiftLeft, ShiftRight); (control_key m, ControlLeft, ControlRight);
    (alt_key m, AltLeft, AltRight); (super_key m, SuperLeft, SuperRight) ].

Definition event (e : KeyboardEvent) (now : Z) (k : Keyboard) : Keyboard :=
  match e with
  | Key key pressed => key_event key pressed now k
  | FocusLost => foldl (fun k key => key_event key false now k) k (iterate (held k))
  | Modifiers modifiers =>
      foldl (fun k '(active, left_key, right_key) =>
        if negb active then key_event right_key false now (key_event left_key false now k)
        else if bool_decide (left_key ∉ held k) && bool_decide (right_key ∉ held k) then key_event left_key true now k
        else k) k (modifier_keys modifiers)
  | Unidentified => k
  end.

(** [difference] yields the first set's keys in order. *)
Definition difference (a b : gset KeyCode) : list KeyCode := filter (fun key => key ∉ b) (iterate a).

Definition resume (now : Z) (k : Keyboard) : Keyboard :=
  match paused k with
  | None => k
  | Some before =>
      let k := set_paused None k in
      if scanning k then
        let held := held k in
        let k := foldl (fun k key => scan key false now k) k (difference before held) in
        foldl (fun k key => scan key true now k) k (difference held before)
      else k
  end.

(** ** The keyboard task

    [run], [execute], [configure] and [reply] await only in [transfer]: the task
    is what [transfer] sends and what follows it. *)
Inductive Next : Set :=
| Finish
| Then_ (rest : list Z)
| ResetDefaults
| AwaitOption (command : Z)
| ReportSet.

Inductive Task : Set :=
| Commands
| Option_ (command : Z)
| Replying (byte : Z) (next : Next).

(** [execute], up to its first await. *)
Definition execute (command : Z) (k : Keyboard) : Keyboard * Task :=
  if (command =? SET_LEDS) || (command =? SCAN_SET) || (command =? SET_TYPEMATIC) then
    let k := pause k in
    let k := if command =? SCAN_SET then clear_scans k else k in
    (k, Replying ACK (AwaitOption command))
  else if command =? ECHO then (k, Replying ECHO Finish)
  else if command =? IDENTIFY then (pause k, Replying ACK (Then_ [0xab; 0x83]))
  else if command =? ENABLE_SCANNING then (set_scanning true (clear_scans k), Replying ACK Finish)
  else if (command =? DEFAULT_DISABLE) || (command =? DEFAULTS) then
    (defaults (negb (command =? DEFAULT_DISABLE)) k, Replying ACK Finish)
  else if command =? RESET then (pause k, Replying ACK ResetDefaults)
  else if command =? RESEND then (k, Replying (last_sent k) Finish)
  else (k, Replying RESEND Finish).

(** What follows a completed reply. *)
Definition continue (next : Next) (now : Z) (k : Keyboard) : Keyboard * Task :=
  match next with
  | Finish | Then_ [] => (resume now k, Commands)
  | Then_ (byte :: rest) => (k, Replying byte (Then_ rest))
  | ResetDefaults => (defaults true k, Replying 0xaa Finish)
  | AwaitOption command => (k, Option_ command)
  | ReportSet => (k, Replying (set k) Finish)
  end.

(** The loop of [configure] on an option byte. *)
Definition option_byte (command value now : Z) (k : Keyboard) : Keyboard * Task :=
  if value =? RESEND then (k, Replying (last_sent k) (AwaitOption command))
  else if SET_LEDS <=? value then execute value (resume now k)
  else if (command =? SET_LEDS) && (value <? 8) then (set_leds value k, Replying ACK Finish)
  else if (command =? SET_TYPEMATIC) && (value <? 128) then (set_typematic value k, Replying ACK Finish)
  else if (command =? SCAN_SET) && (value =? 0) then (k, Replying ACK ReportSet)
  else if (command =? SCAN_SET) && (value <=? 2) then (set_set value k, Replying ACK Finish)
  else (k, Replying RESEND (AwaitOption command)).

(** A command byte, wherever the task awaits: it is the awaited command or
    option, or it replaces an unfinished exchange. *)
Definition receive_byte (task : Task) (value now : Z) (k : Keyboard) : Keyboard * Task :=
  match task with
  | Commands => execute value k
  | Option_ command => option_byte command value now k
  | Replying _ _ => execute value (resume now k)
  end.

Definition outgoing (task : Task) (k : Keyboard) : option Z :=
  match task with
  | Replying byte _ => Some byte
  | _ => match paused k with None => peek_byte k | Some _ => None end
  end.

(** A byte has reached the controller. *)
Definition sent (task : Task) (byte now : Z) (k : Keyboard) : Keyboard * Task :=
  let k := if negb (byte =? RESEND) then set_last_sent byte k else k in
  match task with
  | Replying _ next => continue next now k
  | task => (consume_byte k, task)
  end.

(** The task's environment. *)
Record Environment := mkEnvironment {
  controller : Controller;
  channel : option Z;
  queue : list KeyboardEvent;
  closed : bool;
  now : Z;
}.

(** The timer of [transfer]. *)
Definition timer_step (k : Keyboard) (task : Task) (env : Environment) : option (Keyboard * Task * Environment) :=
  r ← repeat k;
  if deadline r <=? now env then Some (repeat_key (inhibited (controller env)) (now env) k, task, env) else None.

(** The event stream of [transfer]: the next event, the end of the stream once
    its sender is gone, or nothing. *)
Definition event_step (k : Keyboard) (task : Task) (env : Environment) : option (Keyboard * Task * Environment) :=
  if negb (events_open k) then None
  else
    match queue env with
    | e :: queue => Some (event e (now env) k, task, mkEnvironment (controller env) (channel env) queue (closed env) (now env))
    | [] => if closed env then Some (event FocusLost (now env) (set_events_open false k), task, env) else None
    end.

Definition output_step (k : Keyboard) (task : Task) (env : Environment) : option (Keyboard * Task * Environment) :=
  byte ← outgoing task k;
  c ← send byte FromKeyboard (controller env);
  let '(k, task) := sent task byte (now env) k in
  Some (k, task, mkEnvironment c (channel env) (queue env) (closed env) (now env)).

Definition command_step (k : Keyboard) (task : Task) (env : Environment) : option (Keyboard * Task * Environment) :=
  value ← channel env;
  let '(k, task) := receive_byte task value (now env) k in
  Some (k, task, mkEnvironment (controller env) None (queue env) (closed env) (now env)).

(** One pass of the loop of [transfer]: the first ready of the four futures, in
    the order of the select. [None] awaits them all. *)
Definition keyboard_step (k : Keyboard) (task : Task) (env : Environment) : option (Keyboard * Task * Environment) :=
  match command_step k task env with
  | Some next => Some next
  | None =>
      match output_step k task env with
      | Some next => Some next
      | None =>
          match event_step k task env with
          | Some next => Some next
          | None => timer_step k task env
          end
      end
  end.

End Iteration.
