(* ===== verification/KeyboardSystem.v ===== *)
(** * The keyboard device

    crates/at-keyboard/src/lib.rs: the firmware of the controller and the keyboard
    as the two futures of one device activity, beside the guest's port accesses,
    the host's events, the clock and the other users of the PIC.

    A task that cannot proceed parks and is polled again once it is woken: by a
    notification of [changed], by the command channel, by the host's event
    channel or by the timer it awaits. *)

From S2P Require Import Prelude Pic Scancodes KeyboardController Keyboard.
Local Open Scope Z_scope.

(** ** State *)

Record System := mkSystem {
  environment : Environment;
  firmware : Firmware;
  keyboard : Keyboard;
  task : Task;
  firmware_woken : bool;
  keyboard_woken : bool;
}.

(** [connect] on a session's PIC; [None] is the assertion on the line number. *)
Definition power_on (pic : Pic.Controller) : option System :=
  c ← controller_new pic;
  Some (mkSystem (mkEnvironment c None [] false 0) Receiving keyboard_new Commands true true).

Definition with_controller (c : Controller) (env : Environment) : Environment :=
  mkEnvironment c (channel env) (queue env) (closed env) (now env).

(** The tasks' wakes after a change of the controller. *)
Definition notified (c c' : Controller) : bool := (changed c <? changed c')%nat.

Definition callback (c : Controller) (s : System) : System :=
  let woke := notified (controller (environment s)) c in
  mkSystem (with_controller c (environment s)) (firmware s) (keyboard s) (task s)
    (firmware_woken s || woke) (keyboard_woken s || woke).

(** ** Steps *)

Section Steps.
Context (iterate : gset KeyCode -> list KeyCode).

Definition poll_firmware (s : System) : option System :=
  let env := environment s in
  '(f, c, ch) ← firmware_step (firmware s) (controller env) (channel env);
  Some (mkSystem (mkEnvironment c ch (queue env) (closed env) (now env)) f (keyboard s) (task s) true
    (keyboard_woken s || notified (controller env) c || bool_decide (channel env = None /\ ch <> None))).

Definition poll_keyboard (s : System) : option System :=
  let env := environment s in
  '(k, t, env') ← keyboard_step iterate (keyboard s) (task s) env;
  Some (mkSystem env' (firmware s) k t
    (firmware_woken s || notified (controller env) (controller env') || bool_decide (channel env <> None /\ channel env' = None))
    true).

Definition park_firmware (s : System) : System :=
  mkSystem (environment s) (firmware s) (keyboard s) (task s) false (keyboard_woken s).
Definition park_keyboard (s : System) : System :=
  mkSystem (environment s) (firmware s) (keyboard s) (task s) (firmware_woken s) false.

Inductive Action :=
| PollFirmware
| PollKeyboard
| ReadPort (port bytes : Z)
| WritePort (port bytes value : Z)
| ReadScanCode
| HostEvent (e : KeyboardEvent)
| HostClose
| Advance (elapsed : Z)
| OtherPic (e : Pic.event).

(** The timer a parked keyboard awaits. *)
Definition timer_due (s : System) (now : Z) : bool :=
  match repeat (keyboard s) with Some r => deadline r <=? now | None => false end.

(** The bytes an action delivers to the guest, and the state after it. *)
Definition act (a : Action) (s : System) : list Z * System :=
  let env := environment s in
  match a with
  | PollFirmware => ([], default (park_firmware s) (poll_firmware s))
  | PollKeyboard => ([], default (park_keyboard s) (poll_keyboard s))
  | ReadPort port bytes => ([], callback (keyboard_read_port port bytes (controller env)).2 s)
  | WritePort port bytes value => ([], callback (keyboard_write_port port bytes value (controller env)) s)
  | ReadScanCode =>
      let '(byte, c) := read_scan_code (controller env) in (option_list byte, callback c s)
  | HostEvent e =>
      if closed env then ([], s)
      else ([], mkSystem (mkEnvironment (controller env) (channel env) (queue env ++ [e]) (closed env) (now env))
                  (firmware s) (keyboard s) (task s) (firmware_woken s) true)
  | HostClose =>
      ([], mkSystem (mkEnvironment (controller env) (channel env) (queue env) true (now env))
             (firmware s) (keyboard s) (task s) (firmware_woken s) true)
  | Advance elapsed =>
      let now := now env + elapsed in
      ([], mkSystem (mkEnvironment (controller env) (channel env) (queue env) (closed env) now)
             (firmware s) (keyboard s) (task s) (firmware_woken s) (keyboard_woken s || timer_due s now))
  | OtherPic e =>
      let c := controller env in
      let '(pic, woke) := on_event e (irq c) in
      ([], mkSystem (with_controller (mkController (registers c) pic (changed c) (woken c ++ option_list woke)) env)
             (firmware s) (keyboard s) (task s) (firmware_woken s) (keyboard_woken s))
  end.

Fixpoint run (actions : list Action) (s : System) : list Z * System :=
  match actions with
  | [] => ([], s)
  | a :: actions =>
      let '(out, s) := act a s in
      let '(outs, s) := run actions s in
      (out ++ outs, s)
  end.

End Steps.
