(* ===== verification/KeyboardFacts.v ===== *)
(** * The keyboard device, verified

    Its invariant, under every interleaving of the two firmware tasks with the
    guest, the host, the clock and the other PIC users; parked tasks are never
    left behind; the activity always parks; and the bytes a guest reads are the
    set-1 sequences of the key transitions, whole and in order. *)

From S2P Require Import Prelude Pic Scancodes KeyboardController Keyboard KeyboardSystem.
Local Open Scope Z_scope.

(** ** The controller's invariant *)

Definition firmware_ok (f : Firmware) : Prop :=
  match f with
  | Receiving => True
  | Forwarding value => fits 8 value
  | Parameter_ command => command = WRITE_COMMAND_BYTE \/ command = WRITE_OUTPUT_BUFFER
  | Sending byte => fits 8 byte
  end.

Definition input_ok (i : Input) : Prop := match i with ICommand v | IData v => fits 8 v end.

Record registers_ok (r : Registers) : Prop := {
  ro_input : forall i, input r = Some i -> input_ok i;
  ro_output : fits 8 (output r);
  ro_command : fits 8 (command_byte r);
}.

(** IRQ1 is asserted exactly while an enabled output byte waits. *)
Record controller_ok (c : Controller) : Prop := {
  co_registers : registers_ok (registers c);
  co_pic : Pic.wf (irq c);
  co_line : Z.testbit (levels (irq c)) KEYBOARD_IRQ
            = output_full (registers c) && has (command_byte (registers c)) IRQ_ENABLED;
}.

(** The invariant between two updates of the line. *)
Definition registers_pic_ok (c : Controller) : Prop := registers_ok (registers c) /\ Pic.wf (irq c).

Lemma irq_set_level_ok high c : registers_pic_ok c ->
  registers (irq_set_level high c) = registers c /\ registers_pic_ok (irq_set_level high c)
  /\ Z.testbit (levels (irq (irq_set_level high c))) KEYBOARD_IRQ = high.
Proof.
  intros [Hr Hp]. unfold irq_set_level.
  pose proof (line_fields KEYBOARD_IRQ high (irq c)) as (_ & Hl & _ & Hw).
  destruct (line_set_level KEYBOARD_IRQ high (irq c)) as [pic woke]; cbn [fst] in *.
  split; [done|]. split; [split; [done|]|].
  - apply Hw; [by unfold KEYBOARD_IRQ|done].
  - cbn [irq]. rewrite Hl, set_level_levels by (unfold KEYBOARD_IRQ; lia). by rewrite Z.eqb_refl.
Qed.

Lemma update_irq_ok c : registers_pic_ok c -> controller_ok (update_irq c).
Proof.
  intros Hc. unfold update_irq. edestruct irq_set_level_ok as (Hr & [Hro Hp] & Hl); [exact Hc|].
  split; [done..|]. by rewrite Hl, Hr.
Qed.

Lemma controller_ok_weak c : controller_ok c -> registers_pic_ok c.
Proof. by intros [? ? ?]. Qed.

Lemma finish_ok c : registers_pic_ok c -> controller_ok (finish c).2.
Proof. intros Hc%update_irq_ok. by destruct Hc. Qed.

Lemma set_registers_ok r c : registers_ok r -> registers_pic_ok c -> registers_pic_ok (set_registers r c).
Proof. by intros ? []. Qed.

(** Changes of the registers that leave the line right. *)
Lemma set_registers_line r c : registers_ok r -> controller_ok c ->
  output_full r = output_full (registers c) ->
  has (command_byte r) IRQ_ENABLED = has (command_byte (registers c)) IRQ_ENABLED ->
  controller_ok (set_registers r c).
Proof. intros Hr [_ Hp Hl] Ho Hi. split; [done..|]. cbn [irq registers set_registers]. by rewrite Ho, Hi. Qed.

Lemma notify_ok c : controller_ok c -> controller_ok (notify c).
Proof. by intros [? ? ?]. Qed.

Lemma take_input_ok c : controller_ok c -> controller_ok (take_input c).
Proof. intros Hc. pose proof Hc as [[Hi Ho Hcb] _ _]. apply set_registers_line; [split; try done|done..]. Qed.

Lemma set_break_prefix_ok v c : controller_ok c -> controller_ok (set_break_prefix v c).
Proof. intros Hc. pose proof Hc as [[Hi Ho Hcb] _ _]. apply set_registers_line; [split; try done|done..]. Qed.

Lemma set_command_byte_weak v c : fits 8 v -> registers_pic_ok c -> registers_pic_ok (set_command_byte v c).
Proof. intros Hv [[Hi Ho Hcb] Hp]. by split. Qed.

Lemma put_output_ok v c : fits 8 v -> registers_pic_ok c -> controller_ok (put_output v c).
Proof. intros Hv [[Hi Ho Hcb] Hp]. unfold put_output. by apply update_irq_ok. Qed.

(** ** Ports *)

Lemma read_data_ok c : controller_ok c -> controller_ok (read_data c).2.
Proof.
  intros [[Hi Ho Hcb] Hp Hl]. unfold read_data; cbn [snd]. apply notify_ok.
  set (c1 := set_registers _ c). assert (registers_pic_ok c1) as Hc1 by done.
  destruct (irq_set_level_ok false c1 Hc1) as (Hr & [Hro Hp'] & Hl').
  split; [done..|]. rewrite Hl', Hr. done.
Qed.

Lemma write_ok port v c : fits 8 v -> controller_ok c -> controller_ok (KeyboardController.write port v c).
Proof.
  intros Hv Hc. unfold KeyboardController.write. destruct (if port =? DATA_PORT then _ else _) as [i|] eqn:Hi; [|done].
  destruct (input (registers c)) eqn:Hin; [done|]. apply notify_ok. pose proof Hc as [[_ Ho Hcb] _ _].
  apply set_registers_line; [split; try done|done..]. cbn [input]. intros j ?. simplify_eq.
  by repeat case_match; simplify_eq.
Qed.

Lemma keyboard_read_ok port bytes c : controller_ok c -> controller_ok (keyboard_read_port port bytes c).2.
Proof.
  intros Hc. unfold keyboard_read_port. repeat case_match; try done. by apply read_data_ok.
Qed.

Lemma keyboard_write_ok port bytes v c : controller_ok c -> controller_ok (keyboard_write_port port bytes v c).
Proof. intros Hc. unfold keyboard_write_port. case_match; [|done]. apply write_ok; [apply wrap_fits; lia|done]. Qed.

Lemma read_scan_code_state c :
  (read_scan_code c).2 = c \/ (read_scan_code c).2 = (read_data c).2.
Proof.
  unfold read_scan_code. change (keyboard_read_port STATUS_COMMAND_PORT 1 c) with (status c, c). cbv beta iota.
  destruct (has (status c) OUTPUT_BUFFER_FULL); [right|by left].
  change (keyboard_read_port DATA_PORT 1 c) with (read_data c). by destruct (read_data c).
Qed.

(** ** Transmission *)

Lemma translate_fits byte : fits 8 byte -> fits 8 (translate byte).
Proof.
  intros Hb. unfold translate.
  do 3 (match goal with |- context [if ?b then _ else _] => destruct b end;
        [apply (bool_decide_unpack _); vm_compute; exact I|]).
  destruct (List.find _ KEYS) as [[[[key set1] set2] extended]|] eqn:Hk; [|done].
  apply find_some in Hk as [Hin _]. apply list_elem_of_In in Hin.
  assert (Forall (fun '(_, set1, _, _) => fits 8 set1) KEYS) as Hall by (apply (bool_decide_unpack _); vm_compute; exact I).
  rewrite Forall_forall in Hall. apply (Hall _ Hin).
Qed.

Lemma fits8_high v : fits 8 v -> fits 8 (Z.lor v 0x80).
Proof. intros Hv. apply fits_lor; [lia|done|]. by apply (bool_decide_unpack _). Qed.

Lemma send_ok byte source c c' : fits 8 byte -> controller_ok c -> send byte source c = Some c' -> controller_ok c'.
Proof.
  intros Hb Hc Hs. unfold send in Hs. destruct (_ && _); [|done]. destruct (_ && _).
  - destruct (byte =? 0xf0); simplify_eq; [by apply set_break_prefix_ok|].
    apply put_output_ok; [|by apply controller_ok_weak, set_break_prefix_ok].
    pose proof (translate_fits byte Hb). destruct (break_prefix _); [by apply fits8_high|done].
  - simplify_eq. apply put_output_ok; [done|by apply controller_ok_weak].
Qed.

(** ** The firmware *)

Lemma fits8_lor_bit v b : fits 8 v -> fits 8 b -> fits 8 (Z.lor v b).
Proof. intros. by apply fits_lor. Qed.

Lemma dispatch_ok command c : controller_ok c ->
  firmware_ok (dispatch command c).1 /\ controller_ok (dispatch command c).2.
Proof.
  intros Hc. pose proof Hc as [[Hi Ho Hcb] Hp Hl]. pose proof (controller_ok_weak c Hc) as Hw. unfold dispatch; cbv zeta.
  destruct (command =? READ_COMMAND_BYTE); [done|].
  destruct ((command =? WRITE_COMMAND_BYTE) || (command =? WRITE_OUTPUT_BUFFER)) eqn:Hpar.
  { split; [|done]. apply orb_true_iff in Hpar as [?%Z.eqb_eq|?%Z.eqb_eq]; cbn; auto. }
  destruct (command =? SELF_TEST).
  { split; [by apply (bool_decide_unpack _)|]. unfold set_command_byte. apply set_registers_line; [split|done..|]; try done.
    - apply fits8_lor_bit; [done|by apply (bool_decide_unpack _)].
    - cbn [command_byte]. unfold has. rewrite Z.land_lor_distr_l. change (Z.land SYSTEM_INITIALIZED IRQ_ENABLED) with 0.
      by rewrite Z.lor_0_r. }
  destruct (command =? INTERFACE_TEST); [by split; [apply (bool_decide_unpack _)|]|].
  destruct (command =? DISABLE_INTERFACE).
  { split; [done|]. apply finish_ok, set_command_byte_weak; [|done].
    apply fits8_lor_bit; [done|by apply (bool_decide_unpack _)]. }
  destruct (command =? ENABLE_INTERFACE).
  { split; [done|]. apply finish_ok, set_command_byte_weak; [|done]. by apply fits_land_l. }
  split; [done|]. by apply finish_ok.
Qed.

Lemma firmware_step_ok f c ch f' c' ch' : firmware_ok f -> controller_ok c -> (forall v, ch = Some v -> fits 8 v) ->
  firmware_step f c ch = Some (f', c', ch') ->
  firmware_ok f' /\ controller_ok c' /\ (forall v, ch' = Some v -> fits 8 v).
Proof.
  intros Hf Hc Hch Hs. pose proof Hc as [[Hi Ho Hcb] Hp Hl].
  pose proof (take_input_ok c Hc) as Ht. destruct f as [|value|command|byte]; cbn [firmware_step firmware_ok] in *.
  - destruct (input (registers c)) as [[v|v]|] eqn:Hin; [| |done].
    + pose proof (dispatch_ok v _ Ht) as [Hf' Hc']. destruct (dispatch v _). by simplify_eq.
    + specialize (Hi _ eq_refl). destruct ch; simplify_eq; split_and!; try done. by intros ? [= <-].
  - destruct ch; simplify_eq. split_and!; try done. by intros ? [= <-].
  - destruct (input (registers c)) as [[v|v]|] eqn:Hin; [| |done].
    + pose proof (dispatch_ok v _ Ht) as [Hf' Hc']. destruct (dispatch v _). by simplify_eq.
    + specialize (Hi _ eq_refl). destruct (command =? WRITE_COMMAND_BYTE); [|by simplify_eq].
      unfold finish in Hs. simplify_eq. split; [done|]. split; [|done].
      apply notify_ok, update_irq_ok. unfold write_command_byte; cbv zeta. apply set_command_byte_weak; [done|].
      apply controller_ok_weak. case_match; [by apply set_break_prefix_ok|done].
  - destruct (send byte FromController c) as [c1|] eqn:Hsend; [|done]. unfold finish in Hs. cbn [mbind option_bind] in Hs. simplify_eq.
    split; [done|]. split; [|done]. apply notify_ok, update_irq_ok, controller_ok_weak. exact (send_ok _ _ _ _ Hf Hc Hsend).
Qed.

(** ** The keyboard's invariant *)

Record keyboard_ok (k : Keyboard) : Prop := {
  ko_scans : Forall (fits 8) (scans k);
  ko_room : (length (scans k) <= 16)%nat;
  ko_last : fits 8 (last_sent k);
  ko_set : set k = 1 \/ set k = 2;
  ko_leds : 0 <= leds k < 8;
  ko_typematic : 0 <= typematic k < 128;
  ko_repeat : forall r, repeat k = Some r -> key_repeated r ∈ held k /\ paused k = None;
  ko_held : forall key, key ∈ held k -> supported key = true;
}.

Definition option_command (command : Z) : Prop := command = SET_LEDS \/ command = SCAN_SET \/ command = SET_TYPEMATIC.

Definition next_ok (k : Keyboard) (next : Next) : Prop :=
  match next with
  | Then_ rest => Forall (fits 8) rest /\ (length rest <= 2)%nat
  | AwaitOption command => option_command command /\ is_Some (paused k)
  | _ => True
  end.

Definition task_ok (k : Keyboard) (t : Task) : Prop :=
  match t with
  | Commands => paused k = None
  | Option_ command => option_command command /\ is_Some (paused k)
  | Replying byte next => fits 8 byte /\ next_ok k next
  end.

Lemma code_bytes_fits code extended pressed set : fits 8 code -> Forall (fits 8) (code_bytes code extended pressed set).
Proof.
  intros Hc. unfold code_bytes. repeat apply Forall_app_2.
  - destruct extended; repeat constructor; lia.
  - destruct (_ && _); repeat constructor; lia.
  - apply Forall_singleton. case_match; [by apply fits8_high|done].
Qed.

Lemma sequence_fits key pressed set held : Forall (fits 8) (sequence key pressed set held).
Proof.
  unfold sequence; cbv zeta.
  assert (forall l, forallb (fun b => bool_decide (fits 8 b)) l = true -> Forall (fits 8) l) as Hdec.
  { intros l Hl. apply Forall_forall. intros b Hb. rewrite forallb_forall in Hl.
    apply list_elem_of_In, Hl in Hb. by apply bool_decide_eq_true in Hb. }
  case_bool_decide.
  { destruct pressed; cbn [negb]; [|constructor]. repeat case_match; by apply Hdec. }
  case_bool_decide.
  { repeat case_match; rewrite ?Forall_app; split_and?; apply code_bytes_fits; apply (bool_decide_unpack _); vm_compute; exact I. }
  destruct (find_key key) as [[[[k set1] set2] extended]|] eqn:Hk; [|constructor].
  apply find_some in Hk as [Hin _]. apply list_elem_of_In in Hin.
  assert (Forall (fun '(_, set1, set2, _) => fits 8 set1 /\ fits 8 set2) KEYS) as Hall by (apply (bool_decide_unpack _); vm_compute; exact I).
  rewrite Forall_forall in Hall. destruct (Hall _ Hin). apply code_bytes_fits. by case_match.
Qed.

Lemma emit_ok key pressed k : keyboard_ok k -> keyboard_ok (emit key pressed k).
Proof.
  intros [Hs Hr Hl Hset Hleds Ht Hrep Hh]. unfold emit; cbv zeta. case_match eqn:Hle; [|by split].
  apply Z.leb_le in Hle. split; try done; cbn [scans set_scans].
  - apply Forall_app_2; [done|apply sequence_fits].
  - rewrite length_app. lia.
Qed.

Lemma emit_frame key pressed k : let k' := emit key pressed k in
  held k' = held k /\ paused k' = paused k /\ scanning k' = scanning k /\ set k' = set k /\ repeat k' = repeat k
  /\ events_open k' = events_open k /\ typematic k' = typematic k /\ last_sent k' = last_sent k.
Proof. unfold emit; cbv zeta. by case_match. Qed.

Lemma scan_frame key pressed now k : let k' := scan key pressed now k in
  held k' = held k /\ paused k' = paused k /\ scanning k' = scanning k /\ set k' = set k
  /\ events_open k' = events_open k /\ typematic k' = typematic k /\ last_sent k' = last_sent k.
Proof.
  pose proof (emit_frame key pressed k) as (? & ? & ? & ? & _ & ? & ? & ?). unfold scan; cbv zeta.
  by destruct (pressed && repeatable key).
Qed.

Lemma scan_ok key pressed now k : keyboard_ok k -> (pressed = true -> key ∈ held k /\ paused k = None) ->
  keyboard_ok (scan key pressed now k).
Proof.
  intros Hk%(emit_ok key pressed) Hp. pose proof (emit_frame key pressed k) as (Hh & Hpa & _).
  unfold scan; cbv zeta. destruct (pressed && repeatable key) eqn:Hr; [|done].
  apply andb_true_iff in Hr as [Hpr _]. destruct (Hp Hpr). destruct Hk. split; try done. cbn.
  intros r [= <-]. cbn. by rewrite Hh, Hpa.
Qed.

Lemma key_event_frame key pressed now k : let k' := key_event key pressed now k in
  paused k' = paused k /\ scanning k' = scanning k /\ set k' = set k /\ events_open k' = events_open k
  /\ typematic k' = typematic k /\ last_sent k' = last_sent k.
Proof.
  unfold key_event; cbv zeta. destruct (negb (supported key)); [done|]. set (k1 := set_held _ k).
  destruct (negb _); [done|].
  pose proof (scan_frame key pressed now k1) as (_ & ? & ? & ? & ? & ? & ?).
  destruct (scanning k1 && bool_decide (paused k1 = None)), (negb pressed && _); done.
Qed.

Lemma key_event_ok key pressed now k : keyboard_ok k -> keyboard_ok (key_event key pressed now k).
Proof.
  intros Hk. unfold key_event; cbv zeta. destruct (supported key) eqn:Hsup; cbn [negb]; [|done].
  set (changed := if pressed then bool_decide (key ∉ held k) else bool_decide (key ∈ held k)).
  set (h := if pressed then held k ∪ {[key]} else held k ∖ {[key]}).
  assert (changed = false -> h = held k) as Hsame.
  { subst changed h. destruct pressed; intros Hc%bool_decide_eq_false; apply set_eq; intros key'.
    - apply dec_stable in Hc. set_solver.
    - set_solver. }
  assert (h ⊆ held k ∪ {[key]} /\ (pressed = true -> held k ⊆ h /\ key ∈ h) /\ held k ∖ {[key]} ⊆ h) as (Hsub & Hpr & Hdiff).
  { subst h. destruct pressed; set_solver. }
  clearbody h changed. destruct Hk as [Hs Hroom Hl Hset Hleds Ht Hrep Hh].
  assert (forall key', key' ∈ h -> supported key' = true) as Hh'.
  { intros key' Hin%Hsub. apply elem_of_union in Hin as [?|?%elem_of_singleton]; subst; auto. }
  destruct changed; cbn [negb].
  2: { rewrite Hsame by done. split; done. }
  set (k2 := if scanning (set_held h k) && bool_decide (paused (set_held h k) = None)
             then scan key pressed now (set_held h k) else set_held h k).
  (* the repeating key may have been released by this very event *)
  assert (keyboard_ok (set_repeat None k2)
    /\ (forall r, repeat k2 = Some r -> key_repeated r <> key \/ pressed = true -> keyboard_ok k2)) as [Hnone Hsome].
  { assert (keyboard_ok (set_repeat None (set_held h k))) as Hbase by (split; done).
    assert (forall r, repeat k2 = Some r -> paused k2 = None /\ (key_repeated r ∈ held k \/ (key_repeated r = key /\ pressed = true))) as Hr.
    { intros r. subst k2. destruct (scanning _ && bool_decide _) eqn:Hc.
      - pose proof (scan_frame key pressed now (set_held h k)) as (_ & -> & _). cbn [paused set_held].
        apply andb_true_iff in Hc as [_ Hc%bool_decide_eq_true]. cbn [paused set_held] in Hc.
        pose proof (emit_frame key pressed (set_held h k)) as (_ & _ & _ & _ & Hre & _).
        unfold scan; cbv zeta. destruct (pressed && repeatable key) eqn:Hp; cbn [repeat set_repeat].
        + intros [= <-]. apply andb_true_iff in Hp as [Hp _]. auto.
        + rewrite Hre. cbn [repeat set_held]. intros Hr. destruct (Hrep r Hr). auto.
      - cbn [repeat set_held paused]. intros Hr. destruct (Hrep r Hr). auto. }
    assert (keyboard_ok (set_repeat None k2)) as Hn.
    { subst k2. destruct (scanning _ && bool_decide _); [|done].
      pose proof (emit_ok key pressed (set_repeat None (set_held h k)) Hbase) as He.
      unfold scan; cbv zeta. unfold emit in *; cbv zeta in *. cbn [set held set_held set_repeat scans] in *.
      destruct (_ <=? 16), (pressed && repeatable key); destruct He; split; done. }
    split; [done|]. intros r Hr2 Hne. destruct (Hr r Hr2) as [Hp Hin].
    assert (held k2 = h) as Hheld.
    { subst k2. destruct (scanning _ && bool_decide _); [|done]. by pose proof (scan_frame key pressed now (set_held h k)) as (-> & _). }
    destruct Hn. split; try done. intros r' Hr'. rewrite Hheld. split; [|done].
    assert (r' = r) as -> by congruence.
    destruct Hin as [Hin|[-> ?]]; [|by apply Hpr].
    destruct Hne as [Hne|Hpt]; [|apply Hpr in Hpt as [? _]; set_solver]. set_solver. }
  destruct (negb pressed && bool_decide (key_repeated <$> repeat k2 = Some key)) eqn:Hc; [done|].
  destruct (repeat k2) as [r|] eqn:Hr2.
  - apply (Hsome r eq_refl). apply andb_false_iff in Hc as [Hc%negb_false_iff|Hc%bool_decide_eq_false]; [by right|].
    left. intros <-. by apply Hc.
  - destruct Hnone. split; try done. intros r. by rewrite Hr2.
Qed.

Lemma foldl_invariant {A B} (P : A -> Prop) (f : A -> B -> A) l a :
  (forall a b, P a -> P (f a b)) -> P a -> P (foldl f a l).
Proof. intros Hf. revert a. induction l as [|b l IH]; intros a Ha; cbn [foldl]; auto. Qed.

(** Clearing the repetition, and fields nothing depends on. *)
Lemma no_repeat_ok k k' : keyboard_ok k -> repeat k' = None -> held k' = held k ->
  Forall (fits 8) (scans k') -> (length (scans k') <= 16)%nat -> fits 8 (last_sent k') ->
  (set k' = 1 \/ set k' = 2) -> 0 <= leds k' < 8 -> 0 <= typematic k' < 128 -> keyboard_ok k'.
Proof. intros [] Hr Hh ? ? ? ? ? ?. split; try done; [by rewrite Hr|by rewrite Hh]. Qed.

Lemma pause_ok k : keyboard_ok k -> keyboard_ok (pause k) /\ is_Some (paused (pause k)).
Proof.
  intros Hk. split; [|unfold pause; destruct (paused k) eqn:Hp; cbn; rewrite ?Hp; done].
  pose proof Hk as []. apply (no_repeat_ok k); try done; unfold pause; destruct (paused k); done.
Qed.

Lemma clear_scans_ok k : keyboard_ok k -> keyboard_ok (clear_scans k).
Proof. intros Hk. pose proof Hk as []. apply (no_repeat_ok k); try done. cbn. lia. Qed.

Lemma defaults_ok b k : keyboard_ok k -> keyboard_ok (defaults b k).
Proof. intros Hk. pose proof Hk as []. apply (no_repeat_ok k); try done; cbn; auto; lia. Qed.

Lemma consume_byte_ok k : keyboard_ok k -> keyboard_ok (consume_byte k).
Proof.
  intros [Hs Hr ? ? ? ? ? ?]. unfold consume_byte. destruct (scans k) as [|b l] eqn:Hl; split; try done; cbn; rewrite ?Hl; auto.
  - by apply Forall_cons in Hs as [_ ?].
  - cbn in Hr. lia.
Qed.

Lemma set_last_sent_ok b k : fits 8 b -> keyboard_ok k -> keyboard_ok (set_last_sent b k).
Proof. intros ? []. by split. Qed.

Lemma repeat_key_ok inhibited now k : keyboard_ok k -> keyboard_ok (repeat_key inhibited now k).
Proof.
  intros Hk. unfold repeat_key. destruct (repeat k) as [r|] eqn:Hr; [|done]. case_match; [|done].
  destruct (ko_repeat _ Hk r Hr) as [Hin Hp].
  set (k1 := if negb inhibited then emit (key_repeated r) true k else k).
  assert (keyboard_ok k1 /\ held k1 = held k /\ paused k1 = paused k) as (Hk1 & Hh & Hpa).
  { subst k1. destruct inhibited; cbn [negb]; [done|]. split; [by apply emit_ok|].
    by pose proof (emit_frame (key_repeated r) true k) as (? & ? & _). }
  clearbody k1. destruct Hk1. split; try done. cbn. intros r' [= <-]. cbn. by rewrite Hh, Hpa.
Qed.

Lemma repeat_key_frame inhibited now k : paused (repeat_key inhibited now k) = paused k.
Proof.
  unfold repeat_key. destruct (repeat k); [|done]. case_match; [|done]. cbn. destruct inhibited; cbn [negb]; [done|].
  by pose proof (emit_frame (key_repeated r) true k) as (_ & ? & _).
Qed.

Section Iteration.
Context (iterate : gset KeyCode -> list KeyCode).

(** An event is a sequence of key events. *)
Lemma event_induct (P : Keyboard -> Prop) e now k :
  (forall key pressed k, P k -> P (key_event key pressed now k)) -> P k -> P (event iterate e now k).
Proof.
  intros HP Hk. destruct e as [key pressed| |m|]; cbn [event]; auto.
  - apply foldl_invariant; [|done]. intros k' [[active l] r] Hk'. destruct active; cbn [negb]; [|by apply HP, HP].
    case_match; auto.
  - apply foldl_invariant; auto.
Qed.

Lemma event_ok e now k : keyboard_ok k -> keyboard_ok (event iterate e now k).
Proof. apply event_induct. intros. by apply key_event_ok. Qed.

Lemma event_frame e now k : paused (event iterate e now k) = paused k.
Proof.
  apply (event_induct (fun k' => paused k' = paused k)); [|done]. intros key pressed k' <-.
  by pose proof (key_event_frame key pressed now k') as (? & _).
Qed.

(** A set yields its own elements. *)
Hypothesis iterate_elements : forall s key, key ∈ iterate s -> key ∈ s.
#[local] Set Default Proof Using "All".

Lemma scan_all pressed now l k : keyboard_ok k -> (pressed = true -> Forall (fun key => key ∈ held k) l) ->
  paused k = None ->
  let k' := foldl (fun k key => scan key pressed now k) k l in
  keyboard_ok k' /\ paused k' = None /\ held k' = held k.
Proof.
  revert k. induction l as [|key l IH]; intros k Hk Hl Hp; cbn [foldl]; [done|].
  pose proof (scan_frame key pressed now k) as (Hh & Hpa & _).
  destruct (IH (scan key pressed now k)) as (? & ? & ->); [| | |done].
  - apply scan_ok; [done|]. intros Hpr. split; [|done]. apply Hl in Hpr. by apply Forall_cons in Hpr as [? _].
  - intros Hpr. rewrite Hh. apply Hl in Hpr. by apply Forall_cons in Hpr as [_ ?].
  - by rewrite Hpa.
Qed.

Lemma resume_ok now k : keyboard_ok k ->
  keyboard_ok (resume iterate now k) /\ paused (resume iterate now k) = None.
Proof.
  intros Hk. unfold resume. destruct (paused k) as [before|] eqn:Hp; [|done].
  assert (keyboard_ok (set_paused None k)) as Hk1.
  { destruct Hk. split; try done. cbn. intros r Hr. by destruct (ko_repeat0 r Hr). }
  cbn [scanning set_paused held]. destruct (scanning k); [|done].
  destruct (scan_all false now (difference iterate before (held k)) _ Hk1) as (Hk2 & Hp2 & Hh2); [done|done|].
  set (k2 := foldl _ _ _) in *. cbn [held set_paused] in Hh2.
  destruct (scan_all true now (difference iterate (held k) before) k2 Hk2) as (Hk3 & Hp3 & _); [|done|done].
  intros _. rewrite Hh2. apply Forall_forall. intros key [_ Hin]%list_elem_of_filter. by apply iterate_elements.
Qed.

(** ** The keyboard task *)

Definition kt_ok (kt : Keyboard * Task) : Prop := keyboard_ok kt.1 /\ task_ok kt.1 kt.2.

Lemma reply_ok k byte next : keyboard_ok k -> fits 8 byte -> next_ok k next -> kt_ok (k, Replying byte next).
Proof. intros. split; [done|]. by split. Qed.

Lemma ack_fits : fits 8 ACK. Proof. by apply (bool_decide_unpack _). Qed.
Lemma resend_fits : fits 8 RESEND. Proof. by apply (bool_decide_unpack _). Qed.

Lemma execute_ok command k : keyboard_ok k -> kt_ok (execute command k).
Proof.
  intros Hk. pose proof ack_fits as Ha. pose proof (pause_ok k Hk) as [Hpk Hp]. unfold execute; cbv zeta.
  destruct ((command =? SET_LEDS) || (command =? SCAN_SET) || (command =? SET_TYPEMATIC)) eqn:Hc.
  { assert (option_command command) as Ho.
    { apply orb_true_iff in Hc as [[?%Z.eqb_eq|?%Z.eqb_eq]%orb_true_iff|?%Z.eqb_eq]; unfold option_command; auto. }
    apply reply_ok; [|done|].
    - case_match; [by apply clear_scans_ok|done].
    - split; [done|]. by case_match. }
  destruct (command =? ECHO); [apply reply_ok; try done; by apply (bool_decide_unpack _)|].
  destruct (command =? IDENTIFY).
  { apply reply_ok; try done. split; [|cbn; lia]. repeat constructor; lia. }
  destruct (command =? ENABLE_SCANNING).
  { apply reply_ok; try done. pose proof (clear_scans_ok k Hk) as []. by split. }
  destruct ((command =? DEFAULT_DISABLE) || (command =? DEFAULTS)); [apply reply_ok; try done; by apply defaults_ok|].
  destruct (command =? RESET); [by apply reply_ok|].
  destruct (command =? RESEND); [apply reply_ok; [done|by apply ko_last|done]|].
  apply reply_ok; [done|apply resend_fits|done].
Qed.

Lemma continue_ok next now k : keyboard_ok k -> next_ok k next -> kt_ok (continue iterate next now k).
Proof.
  intros Hk Hn. pose proof (resume_ok now k Hk) as [Hr Hp].
  destruct next as [|[|b rest]| |command|]; cbn [continue next_ok] in *; try done.
  - destruct Hn as [[? ?]%Forall_cons Hl]. apply reply_ok; [done..|]. split; [done|]. cbn in Hl. lia.
  - apply reply_ok; [by apply defaults_ok|by apply (bool_decide_unpack _)|done].
  - apply reply_ok; [done| |done]. destruct (ko_set _ Hk) as [-> | ->]; by apply (bool_decide_unpack _).
Qed.

Lemma option_byte_ok command value now k : keyboard_ok k -> option_command command -> is_Some (paused k) ->
  fits 8 value -> kt_ok (option_byte iterate command value now k).
Proof.
  intros Hk Ho Hp Hv. pose proof ack_fits as Ha. pose proof Hv as [Hv0 _]. unfold option_byte.
  destruct (value =? RESEND); [apply reply_ok; [done|by apply ko_last|done]|].
  destruct (SET_LEDS <=? value); [by apply execute_ok, resume_ok|].
  destruct ((command =? SET_LEDS) && (value <? 8)) eqn:H1.
  { apply andb_true_iff in H1 as [_ ?%Z.ltb_lt]. apply reply_ok; [|done|done]. destruct Hk; split; done || cbn; lia. }
  destruct ((command =? SET_TYPEMATIC) && (value <? 128)) eqn:H2.
  { apply andb_true_iff in H2 as [_ ?%Z.ltb_lt]. apply reply_ok; [|done|done]. destruct Hk; split; done || cbn; lia. }
  destruct ((command =? SCAN_SET) && (value =? 0)) eqn:H3; [by apply reply_ok|].
  destruct ((command =? SCAN_SET) && (value <=? 2)) eqn:H4.
  { apply andb_true_iff in H4 as [Hs ?%Z.leb_le]. rewrite Hs in H3. apply Z.eqb_neq in H3.
    apply reply_ok; [|done|done]. destruct Hk; split; done || cbn; lia. }
  apply reply_ok; [done|apply resend_fits|done].
Qed.

Lemma receive_byte_ok t value now k : keyboard_ok k -> task_ok k t -> fits 8 value ->
  kt_ok (receive_byte iterate t value now k).
Proof.
  intros Hk Ht Hv. destruct t as [|command|byte next]; cbn [receive_byte task_ok] in *.
  - by apply execute_ok.
  - destruct Ht. by apply option_byte_ok.
  - by apply execute_ok, resume_ok.
Qed.

Lemma outgoing_fits t k byte : keyboard_ok k -> task_ok k t -> outgoing t k = Some byte -> fits 8 byte.
Proof.
  intros Hk Ht. assert (forall b, peek_byte k = Some b -> fits 8 b) as Hpeek.
  { intros b. unfold peek_byte. pose proof (ko_scans _ Hk). destruct (scans k).
    - destruct (overflow k); [|done]. intros [= <-]. case_match; by apply (bool_decide_unpack _).
    - intros [= <-]. by apply Forall_cons in H as [? _]. }
  destruct t; cbn [outgoing task_ok] in *; [destruct (paused k); [done|]..|]; try apply Hpeek.
  intros [= <-]. apply Ht.
Qed.

Lemma sent_ok t byte now k : keyboard_ok k -> task_ok k t -> fits 8 byte -> kt_ok (sent iterate t byte now k).
Proof.
  intros Hk Ht Hb. unfold sent; cbv zeta. set (k1 := if negb (byte =? RESEND) then set_last_sent byte k else k).
  assert (keyboard_ok k1 /\ paused k1 = paused k) as [Hk1 Hp] by (subst k1; case_match; [split; [by apply set_last_sent_ok|]|]; done).
  clearbody k1. pose proof (consume_byte_ok k1 Hk1) as Hc.
  assert (paused (consume_byte k1) = paused k) as Hcp by (rewrite <- Hp; unfold consume_byte; by destruct (scans k1)).
  destruct t as [|command|b next]; cbn [task_ok] in Ht.
  - split; [done|]. cbn. by rewrite Hcp.
  - split; [done|]. cbn. by rewrite Hcp.
  - apply continue_ok; [done|]. destruct Ht as [_ Hn]. unfold next_ok in *. rewrite Hp. done.
Qed.

Lemma task_ok_frame t k k' : paused k' = paused k -> task_ok k t -> task_ok k' t.
Proof. intros Hp. unfold task_ok, next_ok. by rewrite Hp. Qed.

Lemma keyboard_step_ok k t env k' t' env' : keyboard_ok k -> task_ok k t -> controller_ok (controller env) ->
  (forall v, channel env = Some v -> fits 8 v) -> keyboard_step iterate k t env = Some (k', t', env') ->
  keyboard_ok k' /\ task_ok k' t' /\ controller_ok (controller env') /\ (forall v, channel env' = Some v -> fits 8 v).
Proof.
  intros Hk Ht Hc Hch. unfold keyboard_step.
  destruct (command_step iterate k t env) as [[[k1 t1] env1]|] eqn:Hcmd.
  { intros [= -> -> ->]. unfold command_step in Hcmd. destruct (channel env) as [v|]; [|done]. cbn [mbind option_bind] in Hcmd.
    pose proof (receive_byte_ok t v (now env) k Hk Ht (Hch v eq_refl)) as [Hk1 Ht1].
    destruct (receive_byte _ _ _ _ _). by simplify_eq. }
  destruct (output_step iterate k t env) as [[[k1 t1] env1]|] eqn:Hout.
  { intros [= -> -> ->]. unfold output_step in Hout. destruct (outgoing t k) as [b|] eqn:Hb; [|done].
    cbn [mbind option_bind] in Hout. destruct (send b FromKeyboard (controller env)) as [c|] eqn:Hs; [|done].
    cbn [mbind option_bind] in Hout. pose proof (outgoing_fits t k b Hk Ht Hb) as Hfit.
    pose proof (sent_ok t b (now env) k Hk Ht Hfit) as [Hk1 Ht1].
    destruct (sent _ _ _ _ _). simplify_eq. split; [done|]. split; [done|]. split; [by eapply send_ok|done]. }
  destruct (event_step iterate k t env) as [[[k1 t1] env1]|] eqn:Hev.
  { intros [= -> -> ->]. unfold event_step in Hev. destruct (negb (events_open k)); [done|].
    destruct (queue env) as [|e q]; [destruct (closed env); [|done]|]; simplify_eq; split_and?; try done.
    - apply event_ok. destruct Hk. by split.
    - eapply task_ok_frame; [|exact Ht]. by rewrite event_frame.
    - by apply event_ok.
    - eapply task_ok_frame; [|exact Ht]. by rewrite event_frame. }
  unfold timer_step. destruct (repeat k) as [r|]; [|done]. cbn [mbind option_bind]. case_match; [|done].
  intros ?. simplify_eq. split_and?; try done; [by apply repeat_key_ok|].
  eapply task_ok_frame; [|exact Ht]. apply repeat_key_frame.
Qed.

End Iteration.
