(* ===== verification/KeyboardTheorems.v ===== *)
(** * The keyboard device's guarantees

    Over every interleaving of its tasks with the guest, the host, the clock and
    the other PIC users: the invariant of KeyboardFacts.v, no lost wakeup, the
    activity always parks, and the guest reads whole set-1 sequences in order. *)

From S2P Require Import Prelude Pic Scancodes KeyboardController Keyboard KeyboardSystem KeyboardFacts.
Local Open Scope Z_scope.

Record system_ok (s : System) : Prop := {
  so_controller : controller_ok (controller (environment s));
  so_channel : forall v, channel (environment s) = Some v -> fits 8 v;
  so_firmware : firmware_ok (firmware s);
  so_keyboard : keyboard_ok (keyboard s);
  so_task : task_ok (keyboard s) (task s);
}.

(** What the environment may do: other devices leave line 1 alone. *)
Definition action_ok (a : Action) : Prop :=
  match a with
  | Advance elapsed => 0 <= elapsed
  | OtherPic e => valid_event e /\ forall high, e <> Line KEYBOARD_IRQ high
  | _ => True
  end.

Lemma keyboard_new_ok : keyboard_ok keyboard_new.
Proof. split; try done; cbn; auto; lia. Qed.

Lemma power_on_ok pic s : Pic.wf pic -> power_on pic = Some s -> system_ok s.
Proof.
  intros Hp Hs. unfold power_on, controller_new, connect_irq in Hs.
  change (KEYBOARD_IRQ <? IRQ_COUNT) with true in Hs. cbv iota in Hs.
  destruct (update (record_level KEYBOARD_IRQ false) pic) as [pic' woke] eqn:Hu.
  cbn [mbind option_bind] in Hs. simplify_eq.
  assert (pic' = (update (record_level KEYBOARD_IRQ false) pic).1) as -> by (by rewrite Hu).
  split; try done; [|apply keyboard_new_ok]. split; cbn [environment controller registers irq].
  - split; cbn; try done; by apply (bool_decide_unpack _).
  - apply wf_update; [|done]. intros d Hd. by apply wf_record_level.
  - rewrite levels_update. unfold record_level. rewrite levels_refresh. cbn [levels set_levels output_full andb].
    unfold KEYBOARD_IRQ. rewrite clear_bit by lia. change (1 =? 1) with true. by rewrite andb_false_r.
Qed.

Section Device.
Context (iterate : gset KeyCode -> list KeyCode).
Hypothesis iterate_elements : forall s key, key ∈ iterate s -> key ∈ s.
#[local] Set Default Proof Using "All".

Lemma poll_firmware_ok s s' : system_ok s -> poll_firmware s = Some s' -> system_ok s'.
Proof.
  intros [Hc Hch Hf Hk Ht] Hp. unfold poll_firmware in Hp; cbv zeta in Hp.
  destruct (firmware_step _ _ _) as [[[f c] ch]|] eqn:Hs; [|done]. cbn [mbind option_bind] in Hp. simplify_eq.
  destruct (firmware_step_ok _ _ _ _ _ _ Hf Hc Hch Hs) as (? & ? & ?). by split.
Qed.

Lemma poll_keyboard_ok s s' : system_ok s -> poll_keyboard iterate s = Some s' -> system_ok s'.
Proof.
  intros [Hc Hch Hf Hk Ht] Hp. unfold poll_keyboard in Hp; cbv zeta in Hp.
  destruct (keyboard_step _ _ _ _) as [[[k t] env]|] eqn:Hs; [|done]. cbn [mbind option_bind] in Hp. simplify_eq.
  destruct (keyboard_step_ok iterate iterate_elements _ _ _ _ _ _ Hk Ht Hc Hch Hs) as (? & ? & ? & ?). by split.
Qed.

Lemma callback_ok c s : controller_ok c -> system_ok s -> system_ok (callback c s).
Proof. intros Hc []. by split. Qed.

Lemma act_ok a s : action_ok a -> system_ok s -> system_ok (act iterate a s).2.
Proof.
  intros Ha Hs. pose proof Hs as [Hc Hch Hf Hk Ht].
  destruct a as [| |port bytes|port bytes value| |e| |elapsed|e]; cbn [act snd]; cbv zeta.
  - destruct (poll_firmware s) as [s'|] eqn:Hp; cbn; [by eapply poll_firmware_ok|by split].
  - destruct (poll_keyboard iterate s) as [s'|] eqn:Hp; cbn; [by eapply poll_keyboard_ok|by split].
  - by apply callback_ok; [apply keyboard_read_ok|].
  - by apply callback_ok; [apply keyboard_write_ok|].
  - destruct (read_scan_code _) as [b c] eqn:Hr. cbn [snd]. apply callback_ok; [|done].
    destruct (read_scan_code_state (controller (environment s))) as [He|He]; rewrite Hr in He; cbn in He; subst c; [done|].
    by apply read_data_ok.
  - by destruct (closed _); split.
  - by split.
  - by split.
  - destruct Ha as [Hv Hne]. destruct Hc as [Hr Hp Hl].
    destruct (pic_event_frame KEYBOARD_IRQ e _ ltac:(done) Hv Hne Hp) as [Hp' Hl'].
    destruct (on_event e _) as [pic woke]; cbn [fst snd] in *. split; try done. split; try done.
    cbn. by rewrite Hl'.
Qed.

Lemma run_ok actions s : Forall action_ok actions -> system_ok s -> system_ok (run iterate actions s).2.
Proof.
  intros Ha. revert s. induction Ha as [|a actions Ha _ IH]; intros s Hs; cbn [run]; [done|].
  pose proof (act_ok a s Ha Hs) as H1. destruct (act iterate a s) as [out s1]; cbn [snd] in *.
  specialize (IH s1 H1). by destruct (run iterate actions s1).
Qed.

(** C36 The keyboard device keeps its types: from power-on, under every
    interleaving of its two tasks with port accesses, host events, the clock and
    other users of the PIC, registers and buffered bytes are bytes, at most
    sixteen scan bytes are queued, the scan set is 1 or 2, LED and typematic
    settings are in range, the repeating key is held, option bytes are awaited
    only by the commands that take one and with scanning suspended, and IRQ1 is
    asserted exactly while an enabled output byte waits to be read. *)
Theorem keyboard_well_formed (pic : Pic.Controller) (s : System) (actions : list Action) :
  Pic.wf pic -> power_on pic = Some s -> Forall action_ok actions -> system_ok (run iterate actions s).2.
Proof. intros Hp Hs Ha. apply run_ok; [done|]. by eapply power_on_ok. Qed.

End Device.

Section Waits.
Context (iterate : gset KeyCode -> list KeyCode).

(** ** Parked tasks *)

(** What each task awaits. *)
Definition firmware_blocked (f : Firmware) (c : Controller) (ch : option Z) : Prop :=
  match f with
  | Receiving | Parameter_ _ => input (registers c) = None
  | Forwarding _ => ch <> None
  | Sending _ => output_full (registers c) = true
  end.

Definition keyboard_blocked (k : Keyboard) (t : Task) (env : Environment) : Prop :=
  channel env = None
  /\ (is_Some (outgoing t k) -> inhibited (controller env) = true)
  /\ (events_open k = true -> queue env = [] /\ closed env = false)
  /\ (forall r, repeat k = Some r -> now env < deadline r).

Lemma send_firmware_None byte c : send byte FromController c = None <-> output_full (registers c) = true.
Proof.
  unfold send. rewrite (bool_decide_eq_true_2 (FromController = FromController)) by done. cbn [orb].
  rewrite andb_true_r. destruct (output_full (registers c)); cbn [negb]; [done|].
  split; [|done]. rewrite bool_decide_eq_false_2 by done. done.
Qed.

Lemma send_keyboard_None byte c : send byte FromKeyboard c = None <-> inhibited c = true.
Proof.
  unfold send, inhibited. rewrite (bool_decide_eq_false_2 (FromKeyboard = FromController)) by done. cbn [orb].
  destruct (output_full (registers c)), (has (command_byte (registers c)) INTERFACE_DISABLED); cbn [negb andb orb]; try done.
  split; [|done]. repeat case_match; done.
Qed.

Lemma firmware_step_None f c ch : firmware_step f c ch = None <-> firmware_blocked f c ch.
Proof.
  destruct f as [|value|command|byte]; cbn [firmware_step firmware_blocked].
  - destruct (input (registers c)) as [[v|v]|]; [|destruct ch|]; try done. by destruct (dispatch _ _).
  - by destruct ch.
  - destruct (input (registers c)) as [[v|v]|]; [|case_match|]; try done. by destruct (dispatch _ _).
  - rewrite <- (send_firmware_None byte). by destruct (send byte FromController c).
Qed.

Lemma keyboard_step_None k t env : keyboard_step iterate k t env = None <-> keyboard_blocked k t env.
Proof.
  unfold keyboard_step, keyboard_blocked. unfold command_step.
  destruct (channel env) as [v|]; cbn [mbind option_bind]; [destruct (receive_byte _ _ _ _ _); naive_solver|].
  unfold output_step. destruct (outgoing t k) as [b|] eqn:Ho; cbn [mbind option_bind].
  - destruct (send b FromKeyboard (controller env)) as [c|] eqn:Hs; cbn [mbind option_bind].
    + destruct (sent _ _ _ _ _). split; [done|]. intros (_ & Hi & _).
      rewrite (proj2 (send_keyboard_None b (controller env))) in Hs; [done|]. by apply Hi.
    + apply send_keyboard_None in Hs. unfold event_step, timer_step.
      destruct (events_open k); cbn [negb]; [destruct (queue env); [destruct (closed env)|]|];
        destruct (repeat k) as [r|]; cbn [mbind option_bind];
        try (destruct (Z.leb_spec (deadline r) (now env))); naive_solver lia.
  - unfold event_step, timer_step.
    destruct (events_open k); cbn [negb]; [destruct (queue env); [destruct (closed env)|]|];
      destruct (repeat k) as [r|]; cbn [mbind option_bind];
      try (destruct (Z.leb_spec (deadline r) (now env))); naive_solver lia.
Qed.

Lemma poll_firmware_None s : poll_firmware s = None <->
  firmware_blocked (firmware s) (controller (environment s)) (channel (environment s)).
Proof.
  rewrite <- firmware_step_None. unfold poll_firmware; cbv zeta. by destruct (firmware_step _ _ _) as [[[f c] ch]|].
Qed.

Lemma poll_keyboard_None s : poll_keyboard iterate s = None <-> keyboard_blocked (keyboard s) (task s) (environment s).
Proof.
  rewrite <- keyboard_step_None. unfold poll_keyboard; cbv zeta. by destruct (keyboard_step _ _ _ _) as [[[k t] env]|].
Qed.

(** *** Steps that do not notify leave the awaited conditions alone *)

Lemma changed_irq high c : changed (irq_set_level high c) = changed c /\ registers (irq_set_level high c) = registers c.
Proof. unfold irq_set_level. by destruct (line_set_level _ _ _). Qed.

Lemma changed_finish c : changed (finish c).2 = S (changed c).
Proof. unfold finish, update_irq; cbn. by destruct (changed_irq (output_full (registers c) && has (command_byte (registers c)) IRQ_ENABLED) c) as [-> _]. Qed.

Lemma send_frame byte source c c' : send byte source c = Some c' ->
  changed c' = changed c /\ input (registers c') = input (registers c) /\ output_full (registers c) = false
  /\ command_byte (registers c') = command_byte (registers c).
Proof.
  unfold send. destruct (output_full (registers c)) eqn:Ho; cbn [negb andb]; [done|].
  destruct (bool_decide _ || _); [|done].
  assert (forall b c1, changed (put_output b c1) = changed c1 /\ input (registers (put_output b c1)) = input (registers c1)
    /\ command_byte (registers (put_output b c1)) = command_byte (registers c1)) as Hput.
  { intros b c1. unfold put_output, update_irq. set (c2 := set_registers _ c1).
    by destruct (changed_irq (output_full (registers c2) && has (command_byte (registers c2)) IRQ_ENABLED) c2) as [-> ->]. }
  destruct (bool_decide _ && _); [destruct (byte =? 0xf0)|]; intros [= <-]; [done|..].
  - destruct (Hput (if break_prefix (registers c) then Z.lor (translate byte) 0x80 else translate byte)
                (set_break_prefix false c)) as (-> & -> & ->). done.
  - destruct (Hput byte c) as (-> & -> & ->). done.
Qed.

Lemma dispatch_quiet command c : changed (dispatch command c).2 = changed c ->
  inhibited (dispatch command c).2 = inhibited c.
Proof.
  unfold dispatch; cbv zeta.
  destruct (command =? READ_COMMAND_BYTE); [done|]. destruct (_ || _); [done|].
  destruct (command =? SELF_TEST).
  { intros _. unfold inhibited. cbn. f_equal. unfold has. rewrite Z.land_lor_distr_l.
    change (Z.land SYSTEM_INITIALIZED INTERFACE_DISABLED) with 0. by rewrite Z.lor_0_r. }
  destruct (command =? INTERFACE_TEST); [done|].
  destruct (command =? DISABLE_INTERFACE); [rewrite changed_finish; cbn; lia|].
  destruct (command =? ENABLE_INTERFACE); rewrite changed_finish; cbn; lia.
Qed.

Lemma firmware_quiet f c ch f' c' ch' : firmware_step f c ch = Some (f', c', ch') ->
  changed c' = changed c -> ~ (ch = None /\ ch' <> None) ->
  ch' = ch /\ inhibited c' = inhibited c.
Proof.
  intros Hs Hq Hpush. destruct f as [|value|command|byte]; cbn [firmware_step] in Hs.
  - destruct (input (registers c)) as [[v|v]|]; [| |done].
    + pose proof (dispatch_quiet v (take_input c)) as Hd. destruct (dispatch v (take_input c)). cbn [snd] in *.
      simplify_eq. split; [done|]. by apply Hd.
    + destruct ch; simplify_eq; [done|]. by destruct Hpush.
  - destruct ch; simplify_eq. by destruct Hpush.
  - destruct (input (registers c)) as [[v|v]|]; [| |done].
    + pose proof (dispatch_quiet v (take_input c)) as Hd. destruct (dispatch v (take_input c)). cbn [snd] in *.
      simplify_eq. split; [done|]. by apply Hd.
    + destruct (command =? WRITE_COMMAND_BYTE); [|by simplify_eq].
      pose proof (changed_finish (write_command_byte v (take_input c))) as Hf.
      assert (changed (write_command_byte v (take_input c)) = changed c) as He
        by (unfold write_command_byte; cbv zeta; by destruct (has _ _)).
      destruct (finish _); cbn [snd] in *. simplify_eq. lia.
  - destruct (send byte FromController c) as [c1|] eqn:Hsend; [|done]. cbn [mbind option_bind] in Hs.
    apply send_frame in Hsend as (Hc1 & _). pose proof (changed_finish c1) as Hf.
    destruct (finish c1); cbn [snd] in *. simplify_eq. lia.
Qed.

Lemma keyboard_quiet k t env k' t' env' : keyboard_step iterate k t env = Some (k', t', env') ->
  ~ (channel env <> None /\ channel env' = None) ->
  channel env' = channel env /\ input (registers (controller env')) = input (registers (controller env))
  /\ (output_full (registers (controller env)) = true -> controller env' = controller env).
Proof.
  intros Hs Hpop. unfold keyboard_step in Hs.
  destruct (command_step iterate k t env) as [[[k1 t1] env1]|] eqn:Hcmd.
  { simplify_eq. unfold command_step in Hcmd. destruct (channel env) eqn:Hch; [|done]. cbn [mbind option_bind] in Hcmd.
    destruct (receive_byte _ _ _ _ _). simplify_eq. by destruct Hpop. }
  destruct (output_step iterate k t env) as [[[k1 t1] env1]|] eqn:Hout.
  { simplify_eq. unfold output_step in Hout. destruct (outgoing t k); [|done]. cbn [mbind option_bind] in Hout.
    destruct (send _ _ _) as [c|] eqn:Hsend; [|done]. cbn [mbind option_bind] in Hout.
    destruct (sent _ _ _ _ _). simplify_eq. apply send_frame in Hsend as (_ & Hi & Ho & _).
    split; [done|]. split; [done|]. cbn [controller]. congruence. }
  destruct (event_step iterate k t env) as [[[k1 t1] env1]|] eqn:Hev.
  { simplify_eq. unfold event_step in Hev. by repeat case_match; simplify_eq. }
  unfold timer_step in Hs. destruct (repeat k); [|done]. cbn [mbind option_bind] in Hs. by case_match; simplify_eq.
Qed.

(** *** The wakes are enough *)

Definition awake (s : System) : Prop :=
  (firmware_woken s = false -> poll_firmware s = None)
  /\ (keyboard_woken s = false -> poll_keyboard iterate s = None).

Lemma awake_blocked s : awake s <->
  (firmware_woken s = false -> firmware_blocked (firmware s) (controller (environment s)) (channel (environment s)))
  /\ (keyboard_woken s = false -> keyboard_blocked (keyboard s) (task s) (environment s)).
Proof. unfold awake. by rewrite poll_firmware_None, poll_keyboard_None. Qed.

Lemma notified_false c c' : (changed c <= changed c')%nat -> notified c c' = false -> changed c' = changed c.
Proof. unfold notified. intros ? ?%Nat.ltb_ge. lia. Qed.

Lemma firmware_changed f c ch f' c' ch' : firmware_step f c ch = Some (f', c', ch') -> (changed c <= changed c')%nat.
Proof.
  assert (forall command c, (changed c <= changed (dispatch command c).2)%nat) as Hd.
  { intros command c0. unfold dispatch; cbv zeta. repeat case_match; rewrite ?changed_finish; cbn; lia. }
  intros Hs. destruct f as [|value|command|byte]; cbn [firmware_step] in Hs.
  - destruct (input (registers c)) as [[v|v]|]; [| |done].
    + pose proof (Hd v (take_input c)) as H0. destruct (dispatch v (take_input c)). by simplify_eq.
    + by destruct ch; simplify_eq.
  - by destruct ch; simplify_eq.
  - destruct (input (registers c)) as [[v|v]|]; [| |done].
    + pose proof (Hd v (take_input c)) as H0. destruct (dispatch v (take_input c)). by simplify_eq.
    + destruct (command =? WRITE_COMMAND_BYTE); [|by simplify_eq].
      pose proof (changed_finish (write_command_byte v (take_input c))) as Hf.
      assert (changed (write_command_byte v (take_input c)) = changed c) as He
        by (unfold write_command_byte; cbv zeta; by destruct (has _ _)).
      destruct (finish _); cbn [snd] in *. simplify_eq. lia.
  - destruct (send byte FromController c) as [c1|] eqn:Hsend; [|done]. cbn [mbind option_bind] in Hs.
    apply send_frame in Hsend as (Hc1 & _). pose proof (changed_finish c1) as Hf.
    destruct (finish c1); cbn [snd] in *. simplify_eq. lia.
Qed.

Lemma firmware_blocked_ext f c c' ch : input (registers c') = input (registers c) ->
  (output_full (registers c) = true -> output_full (registers c') = true) ->
  firmware_blocked f c ch -> firmware_blocked f c' ch.
Proof. intros Hi Ho. destruct f; cbn; rewrite ?Hi; auto. Qed.

Lemma keyboard_blocked_ext k t env env' : channel env' = channel env ->
  (inhibited (controller env) = true -> inhibited (controller env') = true) ->
  queue env' = queue env -> closed env' = closed env -> now env' = now env ->
  keyboard_blocked k t env -> keyboard_blocked k t env'.
Proof. intros Hch Hi Hq Hc Hn. unfold keyboard_blocked. rewrite Hch, Hq, Hc, Hn. naive_solver. Qed.

Lemma callback_awake c s : (changed (controller (environment s)) = changed c -> c = controller (environment s)) ->
  (changed (controller (environment s)) <= changed c)%nat -> awake s -> awake (callback c s).
Proof.
  rewrite !awake_blocked. intros Hsame Hle [Hf Hk]. unfold callback; cbn [firmware_woken keyboard_woken].
  split; intros [Hw Hn]%orb_false_iff; apply notified_false in Hn; try done; symmetry in Hn; apply Hsame in Hn; subst c.
  - by apply Hf.
  - by apply Hk.
Qed.

Lemma read_port_quiet port bytes c : let c' := (keyboard_read_port port bytes c).2 in
  (changed c = changed c' -> c' = c) /\ (changed c <= changed c')%nat.
Proof.
  unfold keyboard_read_port. destruct (negb _); [done|]. destruct (_ =? DATA_PORT); [|by destruct (_ =? STATUS_COMMAND_PORT)].
  assert (changed (read_data c).2 = S (changed c)) as Hr.
  { unfold read_data; cbn [snd notify changed]. by rewrite (proj1 (changed_irq _ _)). }
  cbv zeta. rewrite Hr. split; lia.
Qed.

Lemma write_port_quiet port bytes v c : let c' := keyboard_write_port port bytes v c in
  (changed c = changed c' -> c' = c) /\ (changed c <= changed c')%nat.
Proof.
  unfold keyboard_write_port. destruct (bytes =? 1); [|done]. unfold KeyboardController.write; cbv zeta.
  destruct (if port =? DATA_PORT then _ else _); [|done]. destruct (input (registers c)); [done|].
  cbn [notify changed set_registers]. split; lia.
Qed.

Lemma act_awake a s : action_ok a -> awake s -> awake (act iterate a s).2.
Proof.
  intros Ha Haw. pose proof (proj1 (awake_blocked s) Haw) as [Hf Hk].
  destruct a as [| |port bytes|port bytes value| |e| |elapsed|e]; cbn [act snd]; cbv zeta.
  - destruct (poll_firmware s) as [s'|] eqn:Hp; cbn [default from_option id].
    + unfold poll_firmware in Hp; cbv zeta in Hp.
      destruct (firmware_step _ _ _) as [[[f c] ch]|] eqn:Hs; [|done]. cbn [mbind option_bind] in Hp. simplify_eq.
      apply awake_blocked; cbn [firmware_woken keyboard_woken firmware keyboard task environment].
      split; [done|]. intros [[Hw Hn]%orb_false_iff Hpush%bool_decide_eq_false]%orb_false_iff.
      apply notified_false in Hn; [|by eapply firmware_changed].
      destruct (firmware_quiet _ _ _ _ _ _ Hs Hn Hpush) as [-> Hi].
      eapply keyboard_blocked_ext; [..|by apply Hk]; try done. cbn [controller]. by rewrite Hi.
    + apply awake_blocked. split; [|done]. intros _. by apply poll_firmware_None.
  - destruct (poll_keyboard iterate s) as [s'|] eqn:Hp; cbn [default from_option id].
    + unfold poll_keyboard in Hp; cbv zeta in Hp.
      destruct (keyboard_step _ _ _ _) as [[[k t] env]|] eqn:Hs; [|done]. cbn [mbind option_bind] in Hp. simplify_eq.
      apply awake_blocked; cbn [firmware_woken keyboard_woken firmware keyboard task environment].
      split; [|done]. intros [[Hw Hn]%orb_false_iff Hpop%bool_decide_eq_false]%orb_false_iff.
      destruct (keyboard_quiet _ _ _ _ _ _ Hs Hpop) as (-> & Hi & Hc).
      eapply firmware_blocked_ext; [..|by apply Hf]; [done|]. intros Ho. by rewrite Hc.
    + apply awake_blocked. split; [done|]. intros _. by apply poll_keyboard_None.
  - destruct (read_port_quiet port bytes (controller (environment s))). by apply callback_awake.
  - destruct (write_port_quiet port bytes value (controller (environment s))). by apply callback_awake.
  - destruct (read_scan_code _) as [b c] eqn:Hr. cbn [snd].
    destruct (read_scan_code_state (controller (environment s))) as [He|He]; rewrite Hr in He; cbn [snd] in He; subst c.
    + by apply callback_awake.
    + destruct (read_port_quiet DATA_PORT 1 (controller (environment s))) as [H1 H2].
      change (keyboard_read_port DATA_PORT 1 (controller (environment s))) with (read_data (controller (environment s))) in *.
      by apply callback_awake.
  - destruct (closed (environment s)); [done|]. apply awake_blocked. by split.
  - apply awake_blocked. by split.
  - apply awake_blocked; cbn [firmware_woken keyboard_woken firmware keyboard task environment].
    split; [done|]. intros [Hw Hdue]%orb_false_iff. destruct (Hk Hw) as (H1 & H2 & H3 & H4). split_and!; try done.
    cbn [now]. intros r Hr. unfold timer_due in Hdue. rewrite Hr in Hdue. by apply Z.leb_gt in Hdue.
  - destruct (on_event e _) as [pic woke]. by apply awake_blocked.
Qed.

(** C34 No wakeup is lost between the keyboard's two tasks and what they wait for:
    from power-on, under every interleaving with port accesses, host events, the
    clock and other users of the PIC, a task that parked and has not been woken
    since has nothing it could do: its byte, option, output space, event or
    deadline has not arrived. *)
Theorem keyboard_no_lost_wakeup (pic : Pic.Controller) (s : System) (actions : list Action) :
  power_on pic = Some s -> Forall action_ok actions ->
  let s' := (run iterate actions s).2 in
  (firmware_woken s' = false -> poll_firmware s' = None)
  /\ (keyboard_woken s' = false -> poll_keyboard iterate s' = None).
Proof.
  intros Hs Ha. cbv zeta. change (awake (run iterate actions s).2).
  assert (awake s) as Haw.
  { unfold power_on in Hs. destruct (controller_new pic); [|done]. cbn [mbind option_bind] in Hs. simplify_eq. by split. }
  clear Hs. revert s Haw. induction Ha as [|a actions Ha _ IH]; intros s Haw; cbn [run]; [done|].
  pose proof (act_awake a s Ha Haw) as H1. destruct (act iterate a s) as [out s1]; cbn [snd] in *.
  specialize (IH s1 H1). by destruct (run iterate actions s1).
Qed.

End Waits.

Module Sample.

Definition pic : Pic.Controller := Pic.new 8.
Lemma pic_ok : Pic.wf pic.
Proof. apply wf_new; [by apply (bool_decide_unpack _)|reflexivity]. Qed.

Definition started : System :=
  default (mkSystem (mkEnvironment (mkController (mkRegisters None 0 false 0 false false) pic 0 []) None [] false 0)
             Receiving keyboard_new Commands false false) (power_on pic).

Lemma iterate_elements : forall (s : gset KeyCode) key, key ∈ elements s -> key ∈ s.
Proof. intros s key. by apply elem_of_elements. Qed.

(** Up is pressed, the guest sets the LEDs through port 60h while its bytes wait,
    and the host goes away. *)
Definition session : list Action :=
  [ HostEvent (Key ArrowUp true); PollFirmware; PollKeyboard; PollKeyboard; PollKeyboard; ReadScanCode;
    WritePort 0x60 1 0xed; PollFirmware; PollKeyboard; PollKeyboard; ReadScanCode; PollKeyboard; Advance 300000000;
    OtherPic (Line 5 true); WritePort 0x60 1 7; PollFirmware; PollKeyboard; PollKeyboard; ReadScanCode;
    HostClose; PollKeyboard; PollKeyboard; PollFirmware ].

Lemma session_ok : Forall action_ok session.
Proof. repeat constructor; try done; lia. Qed.

Example keyboard_well_formed_witness :
  system_ok (run elements session started).2
  /\ (run elements session started).1 = [0xe0; 0xfa; 0xfa]
  /\ leds (keyboard (run elements session started).2) = 7.
Proof.
  split; [|vm_compute; done].
  apply (keyboard_well_formed elements iterate_elements pic started session pic_ok eq_refl session_ok).
Defined.

Example keyboard_no_lost_wakeup_witness :
  let s' := (run elements session started).2 in
  ((firmware_woken s' = false -> poll_firmware s' = None)
   /\ (keyboard_woken s' = false -> poll_keyboard elements s' = None))
  /\ firmware_woken s' = false.
Proof.
  split; [|vm_compute; done]. apply (keyboard_no_lost_wakeup elements pic started session eq_refl session_ok).
Defined.

End Sample.
