(* ===== verification/KeyboardParks.v ===== *)
(** * The keyboard's activity parks

    Left to itself the activity always comes to rest: every poll that makes
    progress lowers a measure, whose upper part counts the bytes, events and
    deadlines still to be taken and whose lower part the bytes still to be sent. *)

From S2P Require Import Prelude Pic Scancodes KeyboardController Keyboard KeyboardSystem KeyboardFacts KeyboardTheorems.
Local Open Scope Z_scope.

Definition due (now : Z) (k : Keyboard) : bool :=
  match repeat k with Some r => deadline r <=? now | None => false end.

Definition next_weight (next : Next) : nat :=
  match next with
  | Finish | AwaitOption _ => 1
  | Then_ rest => 1 + length rest
  | ResetDefaults | ReportSet => 2
  end.
Definition task_weight (t : Task) : nat :=
  match t with Replying _ next => 20 * next_weight next | _ => 0 end.
Definition buffered (k : Keyboard) : nat := length (scans k) + Nat.b2n (overflow k).

Definition firmware_weight (f : Firmware) : nat :=
  match f with Forwarding _ => 2 | Sending _ => 1 | _ => 0 end.
Definition tokens (f : Firmware) (c : Controller) (ch : option Z) : nat :=
  firmware_weight f + 3 * Nat.b2n (bool_decide (is_Some (input (registers c)))) + Nat.b2n (bool_decide (is_Some ch)).

Definition keyboard_measure (k : Keyboard) (t : Task) (env : Environment) : nat :=
  100 * (length (queue env) + Nat.b2n (events_open k) + Nat.b2n (due (now env) k))
  + (task_weight t + buffered k).

Definition measure (s : System) : nat :=
  100 * tokens (firmware s) (controller (environment s)) (channel (environment s))
  + keyboard_measure (keyboard s) (task s) (environment s).

(** ** The lower part is bounded *)

Lemma lower_bound k t : keyboard_ok k -> task_ok k t -> (task_weight t + buffered k <= 77)%nat.
Proof.
  intros Hk Ht. pose proof (ko_room _ Hk) as Hr. unfold buffered. assert (Nat.b2n (overflow k) <= 1)%nat by (by destruct (overflow k); cbn; lia).
  destruct t as [| |b next]; cbn [task_weight task_ok] in *; [lia..|].
  assert (next_weight next <= 3)%nat; [|lia]. destruct Ht as [_ Hn]. destruct next as [|rest| | |]; cbn in *; lia.
Qed.

(** ** Deadlines set now are in the future *)

Section Deadlines.
Context (now : Z) (Hnow : now < DURATION_MAX).
#[local] Set Default Proof Using "All".

Lemma delay_pos k : 0 < delay k.
Proof.
  unfold delay. assert (0 <= Z.land (Z.shiftr (typematic k) 5) 3) by (apply Z.land_nonneg; right; lia). lia.
Qed.
Lemma period_pos k : 0 < period k.
Proof.
  unfold period. cbv zeta.
  assert (0 <= Z.land (typematic k) 7 /\ 0 <= Z.land (Z.shiftr (typematic k) 3) 3) as [H1 H2]
    by (split; apply Z.land_nonneg; right; lia).
  rewrite Z.shiftl_mul_pow2 by done. pose proof (pow2_pos _ H2). apply Z.div_str_pos. nia.
Qed.
Lemma saturating_future d : 0 < d -> now < saturating_add now d.
Proof. unfold saturating_add. lia. Qed.

Lemma emit_due key pressed k : due now (emit key pressed k) = due now k.
Proof. pose proof (emit_frame key pressed k) as (_ & _ & _ & _ & H & _). unfold due. by rewrite H. Qed.

Lemma scan_due key pressed k : due now (scan key pressed now k) = true -> due now k = true.
Proof.
  unfold scan; cbv zeta. destruct (pressed && repeatable key); [|by rewrite emit_due].
  unfold due; cbn [repeat set_repeat deadline]. intros ?%Z.leb_le.
  pose proof (saturating_future (delay (emit key pressed k)) (delay_pos _)). lia.
Qed.

Lemma key_event_due key pressed k : due now (key_event key pressed now k) = true -> due now k = true.
Proof.
  unfold key_event; cbv zeta. destruct (negb (supported key)); [done|]. set (k1 := set_held _ k).
  destruct (negb _); [done|]. change (due now k) with (due now k1).
  destruct (scanning k1 && _), (negb pressed && _); try done; intros; by eapply scan_due.
Qed.

Lemma event_due iterate e k : due now (event iterate e now k) = true -> due now k = true.
Proof.
  apply (event_induct iterate (fun k' => due now k' = true -> due now k = true)); [|done].
  intros key pressed k' Hk' H. by apply key_event_due, Hk' in H.
Qed.

Lemma resume_due iterate k : due now (resume iterate now k) = true -> due now k = true.
Proof.
  unfold resume. destruct (paused k); [|done]. cbn [scanning set_paused held]. destruct (scanning k); [|done].
  apply (foldl_invariant (fun k' => due now k' = true -> due now k = true)); [intros k' key Hk' H; by apply scan_due, Hk' in H|].
  apply (foldl_invariant (fun k' => due now k' = true -> due now k = true)); [intros k' key Hk' H; by apply scan_due, Hk' in H|done].
Qed.

Lemma repeat_key_due inhibited k : due now (repeat_key inhibited now k) = false.
Proof.
  unfold repeat_key, due. destruct (repeat k) as [r|] eqn:Hr; [|by rewrite Hr].
  destruct (Z.leb_spec (deadline r) now); [|rewrite Hr; by apply Z.leb_gt].
  cbn [repeat set_repeat deadline]. apply Z.leb_gt, saturating_future, period_pos.
Qed.

Lemma execute_due command k : due now (execute command k).1 = true -> due now k = true.
Proof.
  unfold execute; cbv zeta.
  assert (due now (pause k) = false) as Hp by (unfold pause; by destruct (paused k)).
  destruct (_ || _); cbn [fst].
  { destruct (command =? SCAN_SET); [done|]. by rewrite Hp. }
  destruct (command =? ECHO); [done|]. destruct (command =? IDENTIFY); [cbn [fst]; by rewrite Hp|].
  destruct (command =? ENABLE_SCANNING); [done|]. destruct (_ || _); [done|].
  destruct (command =? RESET); [cbn [fst]; by rewrite Hp|]. by destruct (command =? RESEND).
Qed.

Lemma continue_due iterate next k : due now (continue iterate next now k).1 = true -> due now k = true.
Proof. destruct next as [|[|b rest]| | |]; cbn [continue fst]; try done; apply resume_due. Qed.

Lemma receive_byte_due iterate t value k : due now (receive_byte iterate t value now k).1 = true -> due now k = true.
Proof.
  destruct t as [|command|b next]; cbn [receive_byte].
  - apply execute_due.
  - unfold option_byte. destruct (value =? RESEND); [done|].
    destruct (SET_LEDS <=? value); [intros H; by apply execute_due, resume_due in H|].
    by repeat case_match.
  - intros H. by apply execute_due, resume_due in H.
Qed.

Lemma sent_due iterate t byte k : due now (sent iterate t byte now k).1 = true -> due now k = true.
Proof.
  unfold sent; cbv zeta. set (k1 := if negb (byte =? RESEND) then set_last_sent byte k else k).
  assert (due now k1 = due now k) as <- by (subst k1; by destruct (negb _)).
  destruct t; cbn [fst].
  - unfold consume_byte. by destruct (scans k1).
  - unfold consume_byte. by destruct (scans k1).
  - apply continue_due.
Qed.

End Deadlines.

(** ** Frames *)

Section Frames.
Context (iterate : gset KeyCode -> list KeyCode).

Lemma event_open e now k : events_open (event iterate e now k) = events_open k.
Proof.
  apply (event_induct iterate (fun k' => events_open k' = events_open k)); [|done]. intros key pressed k' <-.
  by pose proof (key_event_frame key pressed now k') as (_ & _ & _ & ? & _).
Qed.

Lemma resume_open now k : events_open (resume iterate now k) = events_open k.
Proof.
  unfold resume. destruct (paused k); [|done]. cbn [scanning set_paused held]. destruct (scanning k); [|done].
  assert (forall k' key pressed, events_open k' = events_open k -> events_open (scan key pressed now k') = events_open k) as Hs.
  { intros k' key pressed <-. by pose proof (scan_frame key pressed now k') as (_ & _ & _ & _ & ? & _). }
  apply (foldl_invariant (fun k' => events_open k' = events_open k)); [auto|].
  apply (foldl_invariant (fun k' => events_open k' = events_open k)); auto.
Qed.

Lemma execute_open command k : events_open (execute command k).1 = events_open k.
Proof.
  assert (events_open (pause k) = events_open k) as Hp by (unfold pause; by destruct (paused k)).
  unfold execute; cbv zeta. repeat (match goal with |- context [if ?b then _ else _] => destruct b end); done.
Qed.

Lemma receive_byte_open t value now k : events_open (receive_byte iterate t value now k).1 = events_open k.
Proof.
  destruct t as [|command|b next]; cbn [receive_byte].
  - apply execute_open.
  - unfold option_byte. destruct (value =? RESEND); [done|].
    destruct (SET_LEDS <=? value); [by rewrite execute_open, resume_open|]. by repeat case_match.
  - by rewrite execute_open, resume_open.
Qed.

Lemma sent_open t byte now k : events_open (sent iterate t byte now k).1 = events_open k.
Proof.
  unfold sent; cbv zeta. set (k1 := if negb (byte =? RESEND) then set_last_sent byte k else k).
  assert (events_open k1 = events_open k) as <- by (subst k1; by destruct (negb _)).
  destruct t as [| |b next]; cbn [fst]; [unfold consume_byte; by destruct (scans k1)..|].
  destruct next as [|[|b' rest]| | |]; cbn [continue fst]; try done; apply resume_open.
Qed.

Hypothesis iterate_elements : forall s key, key ∈ iterate s -> key ∈ s.

(** Sending a byte leaves fewer to send. *)
Lemma sent_lower t byte now k : keyboard_ok k -> task_ok k t -> outgoing t k = Some byte ->
  (task_weight (sent iterate t byte now k).2 + buffered (sent iterate t byte now k).1 < task_weight t + buffered k)%nat.
Proof using All.
  intros Hk Ht Ho.
  pose proof (sent_ok iterate iterate_elements t byte now k Hk Ht (outgoing_fits iterate iterate_elements t k byte Hk Ht Ho)) as [Hk' Ht'].
  revert Hk'. unfold sent; cbv zeta. set (k1 := if negb (byte =? RESEND) then set_last_sent byte k else k).
  assert (scans k1 = scans k /\ overflow k1 = overflow k) as [Hs Hv] by (subst k1; by destruct (negb _)).
  assert (buffered k1 = buffered k) as Hb by (unfold buffered; by rewrite Hs, Hv).
  assert (forall b, peek_byte k = Some b -> (buffered (consume_byte k1) < buffered k)%nat) as Hpeek.
  { intros b. unfold peek_byte, consume_byte, buffered. rewrite Hs.
    destruct (scans k) as [|x l]; cbn [scans set_scans overflow set_overflow length].
    - rewrite Hs. destruct (overflow k); [cbn; lia|done].
    - rewrite Hv. lia. }
  assert (buffered (resume iterate now k1) <= 17 -> 17 < 20 -> buffered (resume iterate now k1) < 20 + buffered k)%nat as Hres by lia.
  assert (forall k', keyboard_ok k' -> (buffered k' <= 17)%nat) as Hroom.
  { intros k' Hk'. pose proof (ko_room _ Hk'). unfold buffered. destruct (overflow k'); cbn; lia. }
  destruct t as [|command|b next]; cbn [outgoing task_ok fst snd task_weight] in *.
  - destruct (paused k); [done|]. intros _. by apply Hpeek in Ho.
  - intros _. destruct (paused k); [done|]. by apply Hpeek in Ho.
  - destruct next as [|[|b' rest]| |command|]; cbn [continue fst snd task_weight next_weight length]; intros Hk'%Hroom; lia.
Qed.

End Frames.

#[local] Arguments event : simpl never.

(** ** Progress lowers the measure *)

Section Progress.
Context (iterate : gset KeyCode -> list KeyCode).
Hypothesis iterate_elements : forall s key, key ∈ iterate s -> key ∈ s.
#[local] Set Default Proof Using "All".

Lemma dispatch_tokens command c ch : input (registers c) = None ->
  (tokens (dispatch command c).1 (dispatch command c).2 ch <= 1 + Nat.b2n (bool_decide (is_Some ch)))%nat.
Proof.
  intros Hi. assert (forall c', input (registers c') = None -> input (registers (finish c').2) = None) as Hf.
  { intros c' Hc'. unfold finish, update_irq; cbn [snd notify registers]. by rewrite (proj2 (changed_irq _ _)). }
  assert (forall f c', input (registers c') = None -> (firmware_weight f <= 1)%nat ->
    (tokens f c' ch <= 1 + Nat.b2n (bool_decide (is_Some ch)))%nat) as Ht.
  { intros f c' Hc' Hw. unfold tokens. rewrite Hc', (bool_decide_eq_false_2 (is_Some None)) by (by intros []). cbn [Nat.b2n]. lia. }
  unfold dispatch; cbv zeta.
  repeat (match goal with |- context [if ?b then _ else _] => destruct b end);
    (apply Ht; [first [done|by apply Hf]|cbn; lia]).
Qed.

Lemma input_taken c : input (registers (take_input c)) = None.
Proof. done. Qed.

Lemma poll_firmware_measure s s' : poll_firmware s = Some s' -> (measure s' < measure s)%nat.
Proof.
  intros Hp. unfold poll_firmware in Hp; cbv zeta in Hp.
  destruct (firmware_step _ _ _) as [[[f c] ch]|] eqn:Hs; [|done]. cbn [mbind option_bind] in Hp. simplify_eq.
  set (env := environment s) in *.
  assert (tokens f c ch < tokens (firmware s) (controller env) (channel env))%nat as Hlt; [|unfold measure; cbn; fold env; unfold keyboard_measure; cbn; lia].
  destruct (firmware s) as [|value|command|byte] eqn:Hf; cbn [firmware_step] in Hs.
  - destruct (input (registers (controller env))) as [[v|v]|] eqn:Hin; [| |done].
    + pose proof (dispatch_tokens v (take_input (controller env)) (channel env) (input_taken _)) as Hd.
      destruct (dispatch v _). simplify_eq. cbn [fst snd] in Hd.
      unfold tokens at 2. rewrite Hin. cbn. lia.
    + unfold tokens. rewrite Hin. destruct (channel env) as [w|] eqn:Hch; simplify_eq; cbn; lia.
  - destruct (channel env) as [w|] eqn:Hch; simplify_eq. unfold tokens. cbn. lia.
  - destruct (input (registers (controller env))) as [[v|v]|] eqn:Hin; [| |done].
    + pose proof (dispatch_tokens v (take_input (controller env)) (channel env) (input_taken _)) as Hd.
      destruct (dispatch v _). simplify_eq. cbn [fst snd] in Hd. unfold tokens at 2. rewrite Hin. cbn. lia.
    + assert (forall c0, input (registers (finish c0).2) = input (registers c0)) as Hfin
        by (intros c0; unfold finish, update_irq; cbn [snd notify registers]; by rewrite (proj2 (changed_irq _ _))).
      assert (input (registers (write_command_byte v (take_input (controller env)))) = None) as Hw
        by (unfold write_command_byte; cbv zeta; by destruct (has _ _)).
      destruct (command =? WRITE_COMMAND_BYTE).
      * specialize (Hfin (write_command_byte v (take_input (controller env)))). rewrite Hw in Hfin.
        unfold finish in *. cbn [snd] in Hfin. simplify_eq. unfold tokens. rewrite Hfin, Hin. cbn. lia.
      * simplify_eq. unfold tokens. rewrite Hin. cbn. lia.
  - destruct (send byte FromController (controller env)) as [c1|] eqn:Hsend; [|done]. cbn [mbind option_bind] in Hs.
    apply send_frame in Hsend as (_ & Hi & _).
    assert (input (registers (finish c1).2) = input (registers c1)) as Hfin
      by (unfold finish, update_irq; cbn [snd notify registers]; by rewrite (proj2 (changed_irq _ _))).
    rewrite Hi in Hfin. unfold finish in *. cbn [snd] in Hfin. simplify_eq. unfold tokens. rewrite Hfin. cbn. lia.
Qed.

Lemma b2n_due now k k' : (due now k' = true -> due now k = true) -> (Nat.b2n (due now k') <= Nat.b2n (due now k))%nat.
Proof. destruct (due now k'), (due now k); cbn; intros H; lia. Qed.

Lemma poll_keyboard_measure s s' : system_ok s -> now (environment s) < DURATION_MAX ->
  poll_keyboard iterate s = Some s' -> (measure s' < measure s)%nat.
Proof.
  intros [Hc Hch Hf Hk Ht] Hnow Hp. unfold poll_keyboard in Hp; cbv zeta in Hp.
  destruct (keyboard_step _ _ _ _) as [[[k t] env']|] eqn:Hs; [|done]. cbn [mbind option_bind] in Hp. simplify_eq.
  destruct (keyboard_step_ok iterate iterate_elements _ _ _ _ _ _ Hk Ht Hc Hch Hs) as (Hk' & Ht' & _).
  pose proof (lower_bound k t Hk' Ht') as Hlow. pose proof (lower_bound _ _ Hk Ht) as Hlow0.
  destruct s as [env f k0 t0 w1 w2]; cbn [firmware environment keyboard task] in *.
  unfold measure; cbn [firmware environment keyboard task]. unfold keyboard_measure.
  unfold keyboard_step in Hs.
  destruct (command_step iterate k0 t0 env) as [[[k1 t1] env1]|] eqn:Hcmd.
  { simplify_eq. unfold command_step in Hcmd. destruct (channel env) as [v|] eqn:Hce; [|done]. cbn [mbind option_bind] in Hcmd.
    pose proof (receive_byte_due (now env) Hnow iterate t0 v k0) as Hd%b2n_due.
    pose proof (receive_byte_open iterate t0 v (now env) k0) as Ho.
    destruct (receive_byte _ _ _ _ _). simplify_eq. cbn [fst] in *. rewrite Ho. unfold tokens. cbn. lia. }
  destruct (output_step iterate k0 t0 env) as [[[k1 t1] env1]|] eqn:Hout.
  { simplify_eq. unfold output_step in Hout. destruct (outgoing t0 k0) as [b|] eqn:Hb; [|done].
    cbn [mbind option_bind] in Hout. destruct (send b FromKeyboard (controller env)) as [c|] eqn:Hsend; [|done].
    cbn [mbind option_bind] in Hout. apply send_frame in Hsend as (_ & Hi & _).
    pose proof (sent_due (now env) Hnow iterate t0 b k0) as Hd%b2n_due.
    pose proof (sent_open iterate t0 b (now env) k0) as Ho.
    pose proof (sent_lower iterate iterate_elements t0 b (now env) k0 Hk Ht Hb) as Hl.
    destruct (sent _ _ _ _ _). simplify_eq. cbn [fst snd] in *. rewrite Ho. unfold tokens. cbn. rewrite Hi. lia. }
  destruct (event_step iterate k0 t0 env) as [[[k1 t1] env1]|] eqn:Hev.
  { injection Hs as -> -> ->. unfold event_step in Hev. destruct (events_open k0) eqn:Hopen; [|done]. cbn [negb] in Hev.
    destruct (queue env) as [|e q] eqn:Hq; [destruct (closed env); [|done]|]; injection Hev as <- <- <-.
    - pose proof (event_due (now env) Hnow iterate FocusLost (set_events_open false k0)) as Hd%b2n_due.
      rewrite event_open, Hq. change (due (now env) (set_events_open false k0)) with (due (now env) k0) in Hd.
      cbn [events_open set_events_open Nat.b2n length]. lia.
    - pose proof (event_due (now env) Hnow iterate e k0) as Hd%b2n_due.
      rewrite event_open, Hopen. unfold tokens. cbn. lia. }
  unfold timer_step in Hs. destruct (repeat k0) as [r|] eqn:Hr; [|done]. cbn [mbind option_bind] in Hs.
  destruct (deadline r <=? now env) eqn:Hdl; [|done]. injection Hs as <- <- <-.
  rewrite repeat_key_due by done. assert (due (now env) k0 = true) as -> by (unfold due; by rewrite Hr).
  assert (events_open (repeat_key (inhibited (controller env)) (now env) k0) = events_open k0) as ->.
  { unfold repeat_key. rewrite Hr, Hdl. destruct (inhibited _); cbn [negb]; [done|].
    by pose proof (emit_frame (key_repeated r) true k0) as (_ & _ & _ & _ & _ & ? & _). }
  cbn [Nat.b2n]. lia.
Qed.

(** ** Polling *)

(** [polls s n s']: [n] polls of either task that made progress. *)
Inductive polls : System -> nat -> System -> Prop :=
| polls_none s : polls s 0 s
| polls_firmware s s1 n s' : poll_firmware s = Some s1 -> polls s1 n s' -> polls s (S n) s'
| polls_keyboard s s1 n s' : poll_keyboard iterate s = Some s1 -> polls s1 n s' -> polls s (S n) s'.

Lemma poll_keyboard_now s s' : poll_keyboard iterate s = Some s' -> now (environment s') = now (environment s).
Proof.
  unfold poll_keyboard; cbv zeta. destruct (keyboard_step _ _ _ _) as [[[k t] env]|] eqn:Hs; [|done].
  cbn [mbind option_bind]. intros ?. simplify_eq. cbn [environment]. revert Hs.
  unfold keyboard_step, command_step, output_step, event_step, timer_step.
  repeat (case_match || (cbn [mbind option_bind]; intros ?); simplify_option_eq); done.
Qed.

Lemma polls_measure s n s' : polls s n s' -> system_ok s -> now (environment s) < DURATION_MAX ->
  (n + measure s' <= measure s)%nat.
Proof.
  induction 1 as [s|s s1 n s' Hp Hps IH|s s1 n s' Hp Hps IH]; intros Hs Hnow; [lia|..].
  - pose proof (poll_firmware_measure _ _ Hp).
    assert (now (environment s1) = now (environment s)) as Hn.
    { unfold poll_firmware in Hp; cbv zeta in Hp. destruct (firmware_step _ _ _) as [[[f c] ch]|]; [|done].
      cbn [mbind option_bind] in Hp. by simplify_eq. }
    assert (system_ok s1) as Hs1 by (by eapply poll_firmware_ok).
    rewrite <- Hn in Hnow. specialize (IH Hs1 Hnow). lia.
  - pose proof (poll_keyboard_measure _ _ Hs Hnow Hp). pose proof (poll_keyboard_now _ _ Hp) as Hn.
    assert (system_ok s1) as Hs1 by (by eapply poll_keyboard_ok).
    rewrite <- Hn in Hnow. specialize (IH Hs1 Hnow). lia.
Qed.

Lemma measure_bound s : system_ok s -> (measure s <= 100 * (length (queue (environment s)) + 9))%nat.
Proof.
  intros [_ _ _ Hk Ht]. pose proof (lower_bound _ _ Hk Ht). unfold measure, keyboard_measure, tokens.
  assert (firmware_weight (firmware s) <= 2)%nat by (destruct (firmware s); cbn; lia).
  assert (forall b : bool, (Nat.b2n b <= 1)%nat) as Hb by (intros []; cbn; lia).
  pose proof (Hb (bool_decide (is_Some (input (registers (controller (environment s))))))).
  pose proof (Hb (bool_decide (is_Some (channel (environment s))))).
  pose proof (Hb (events_open (keyboard s))). pose proof (Hb (due (now (environment s)) (keyboard s))). lia.
Qed.

(** C35 The keyboard's activity always parks: in every state reachable from power-on
    before the end of time, however its two tasks are polled, at most a hundred
    polls per queued host event plus nine hundred make progress before neither
    task can. *)
Theorem keyboard_activity_parks (pic : Pic.Controller) (s0 : System) (actions : list Action) (n : nat) (s' : System) :
  Pic.wf pic -> power_on pic = Some s0 -> Forall action_ok actions ->
  let s := (run iterate actions s0).2 in
  now (environment s) < DURATION_MAX -> polls s n s' -> (n <= 100 * (length (queue (environment s)) + 9))%nat.
Proof.
  intros Hp Hs Ha. cbv zeta. intros Hnow Hpolls.
  assert (system_ok (run iterate actions s0).2) as Hok.
  { apply run_ok; [done..|]. by eapply power_on_ok. }
  pose proof (polls_measure _ _ _ Hpolls Hok Hnow). pose proof (measure_bound _ Hok). lia.
Qed.

End Progress.

Module Sample.
Import KeyboardTheorems.Sample.

(** A controller command is waiting when the host presses a key: two polls of
    progress are within the bound. *)
Definition busy : list Action := [ WritePort 0x64 1 0x20; HostEvent (Key KeyA true) ].
Definition polled_once : System := default started (poll_firmware (run elements busy started).2).
Definition polled_twice : System := default started (poll_keyboard elements polled_once).

Example keyboard_parks_witness :
  (2 <= 100 * (length (queue (environment (run elements busy started).2)) + 9))%nat
  /\ scans (keyboard polled_twice) = [0x1c].
Proof.
  split; [|vm_compute; done].
  apply (keyboard_activity_parks elements iterate_elements pic started busy 2 polled_twice pic_ok eq_refl).
  - repeat constructor.
  - vm_compute. done.
  - apply (polls_firmware _ _ polled_once); [vm_compute; done|].
    apply (polls_keyboard _ _ polled_twice); [vm_compute; done|constructor].
Defined.

End Sample.
