(* ===== verification/KeyboardStream.v ===== *)
(** * What the guest reads

    With the controller and the keyboard in their power-on modes, the bytes a
    guest takes from port 60h are the set-1 sequences of the key transitions the
    keyboard admitted, whole and in order, with FF where it dropped some; and
    replaying them gives the keys held. *)

From S2P Require Import Prelude Pic Scancodes KeyboardController Keyboard KeyboardSystem KeyboardFacts KeyboardTheorems.
Local Open Scope Z_scope.

(** ** Items of the stream *)

Inductive Item := Transition (key : KeyCode) (pressed : bool) (held : gset KeyCode) | Overrun.

Definition encode (i : Item) : list Z :=
  match i with Transition key pressed held => sequence key pressed 1 held | Overrun => [0xff] end.

(** The guest's view of the held keys after an item. *)
Definition reported (keys : gset KeyCode) (i : Item) : gset KeyCode :=
  match i with
  | Transition key true _ => keys ∪ {[key]}
  | Transition key false _ => keys ∖ {[key]}
  | Overrun => keys
  end.

Definition latch (c : Controller) : list Z := if output_full (registers c) then [output (registers c)] else [].

(** The bytes under way: the output register, then the scan buffer as the
    controller will translate it. *)
Definition pending (s : System) : list Z :=
  latch (controller (environment s))
  ++ (wire (break_prefix (registers (controller (environment s)))) (scans (keyboard s))).1.

(** Guest actions that leave the modes alone. *)
Definition only_reads (a : Action) : Prop :=
  match a with ReadPort _ _ | WritePort _ _ _ => False | _ => True end.

(** ** The keyboard's part *)

(** After [sent] bytes and with a break prefix or not, the buffer completes the
    items, which report the keys [keys]. *)
Record buffers (prefix : bool) (sent : list Z) (k : Keyboard) (items : list Item) (keys : gset KeyCode) : Prop := {
  bu_set : set k = 2;
  bu_prefix : (wire prefix (scans k)).2 = false;
  bu_bytes : sent ++ (wire prefix (scans k)).1 = concat (encode <$> items);
  bu_keys : overflow k = false -> Overrun ∉ items -> foldl reported ∅ items = keys;
}.

Lemma buffers_emit prefix sent k items keys key pressed : buffers prefix sent k items keys ->
  exists items', buffers prefix sent (emit key pressed k) items' (reported keys (Transition key pressed (held k))).
Proof.
  intros [Hset Hp Hb Hk]. unfold emit; cbv zeta. rewrite Hset. case_match.
  - exists (items ++ [Transition key pressed (held k)]). split; cbn [set set_scans scans overflow]; [done|..].
    + by rewrite wire_app, Hp, translation_is_set1.
    + rewrite wire_app, Hp, translation_is_set1. cbn [fst snd].
      by rewrite fmap_app, concat_app, app_assoc, Hb; cbn [fmap list_fmap concat encode]; rewrite app_nil_r.
    + intros Ho Hin. rewrite foldl_app, Hk; [done|done|]. set_solver.
  - exists items. split; cbn [set set_overflow scans overflow]; done.
Qed.

Record streams (prefix : bool) (sent : list Z) (k : Keyboard) (items : list Item) : Prop := {
  st_buffers : buffers prefix sent k items (held k);
  st_scanning : scanning k = true;
  st_paused : paused k = None;
  st_repeat : forall r, repeat k = Some r -> key_repeated r ∈ held k;
}.

Lemma buffers_fields prefix sent k k' items keys : set k' = set k -> scans k' = scans k -> overflow k' = overflow k ->
  buffers prefix sent k items keys -> buffers prefix sent k' items keys.
Proof. intros Hs Hc Ho [H1 H2 H3 H4]. split; rewrite ?Hs, ?Hc, ?Ho; auto. Qed.

Lemma streams_key_event prefix sent k items key pressed now : streams prefix sent k items ->
  keyboard_ok (key_event key pressed now k) ->
  exists items', streams prefix sent (key_event key pressed now k) items'.
Proof.
  intros [Hb Hsc Hp Hr] Hok.
  assert (exists items', buffers prefix sent (key_event key pressed now k) items' (held (key_event key pressed now k))) as [items' Hb'].
  { unfold key_event; cbv zeta. destruct (supported key); cbn [negb]; [|eauto].
    set (h := if pressed then held k ∪ {[key]} else held k ∖ {[key]}).
    set (k1 := set_held h k). cbn [scanning set_held paused k1]. rewrite Hsc, Hp.
    rewrite (bool_decide_eq_true_2 (None = None)) by done. cbn [andb].
    destruct (buffers_emit prefix sent k1 items (held k) key pressed) as [items' Hb'].
    { by eapply buffers_fields; [..|exact Hb]. }
    assert (reported (held k) (Transition key pressed (held k1)) = h) as Hh by (subst h; by destruct pressed).
    rewrite Hh in Hb'.
    assert (buffers prefix sent (scan key pressed now k1) items' h /\ held (scan key pressed now k1) = h) as [Hs Hhs].
    { pose proof (scan_frame key pressed now k1) as (-> & _). split; [|done]. unfold scan; cbv zeta.
      destruct (pressed && repeatable key); [|done]. by eapply buffers_fields; [..|exact Hb']. }
    destruct (if pressed then bool_decide (key ∉ held k) else bool_decide (key ∈ held k)) eqn:Hc; cbn [negb].
    - exists items'. destruct (negb pressed && _); [|by rewrite Hhs].
      cbn [held set_repeat]. rewrite Hhs. by eapply buffers_fields; [..|exact Hs].
    - exists items. cbn [held set_held k1].
      assert (h = held k) as ->; [|by eapply buffers_fields; [..|exact Hb]].
      subst h. destruct pressed; apply bool_decide_eq_false in Hc; apply set_eq; intros x; [apply dec_stable in Hc|]; set_solver. }
  exists items'. pose proof (key_event_frame key pressed now k) as (Hp' & Hs' & _).
  split; [done|by rewrite Hs'|by rewrite Hp'|]. intros r Hr'. by destruct (ko_repeat _ Hok r Hr').
Qed.

Lemma streams_fields prefix sent k k' items : set k' = set k -> scans k' = scans k -> overflow k' = overflow k ->
  held k' = held k -> scanning k' = scanning k -> paused k' = paused k -> repeat k' = repeat k ->
  streams prefix sent k items -> streams prefix sent k' items.
Proof.
  intros H1 H2 H3 H4 H5 H6 H7 [Hb Hs Hp Hr]. split; rewrite ?H4, ?H5, ?H6, ?H7; try done.
  by eapply buffers_fields; [..|exact Hb].
Qed.

Lemma streams_event iterate prefix sent k items e now : streams prefix sent k items -> keyboard_ok k ->
  exists items', streams prefix sent (event iterate e now k) items'.
Proof.
  intros Hs Hk. enough (keyboard_ok (event iterate e now k) /\ exists items', streams prefix sent (event iterate e now k) items') by naive_solver.
  apply (event_induct iterate (fun k' => keyboard_ok k' /\ exists items', streams prefix sent k' items')); [|eauto].
  intros key pressed k' [Hk' [items' Hs']]. pose proof (key_event_ok key pressed now k' Hk') as Hok.
  split; [done|]. by eapply streams_key_event.
Qed.

Lemma streams_repeat prefix sent k items inhibited now : streams prefix sent k items ->
  exists items', streams prefix sent (repeat_key inhibited now k) items'.
Proof.
  intros Hst. pose proof Hst as [Hb Hsc Hp Hr]. unfold repeat_key. destruct (repeat k) as [r|] eqn:Hre; [|eauto].
  case_match; [|eauto]. specialize (Hr r eq_refl).
  assert (exists items', let k1 := if negb inhibited then emit (key_repeated r) true k else k in
    buffers prefix sent k1 items' (held k) /\ held k1 = held k /\ paused k1 = None /\ scanning k1 = true) as (items' & Hb' & Hh & Hpa & Hsc').
  { cbv zeta. destruct inhibited; cbn [negb]; [by exists items|].
    destruct (buffers_emit prefix sent k items (held k) (key_repeated r) true Hb) as [items' Hb'].
    exists items'. pose proof (emit_frame (key_repeated r) true k) as (-> & -> & -> & _).
    assert (reported (held k) (Transition (key_repeated r) true (held k)) = held k) as He by (apply set_eq; cbn; set_solver).
    by rewrite He in Hb'. }
  set (k1 := if negb inhibited then _ else _) in *. exists items'. split; cbn [held set_repeat scanning paused repeat].
  - rewrite Hh. by eapply buffers_fields; [..|exact Hb'].
  - done.
  - done.
  - intros r' [= <-]. cbn. by rewrite Hh.
Qed.

(** ** The controller's part *)

(** Power-on modes, no byte from the guest. *)
Record quiet (c : Controller) : Prop := {
  qu_command : command_byte (registers c) = 0x45;
  qu_input : input (registers c) = None;
}.

Lemma has_quiet c : quiet c ->
  has (command_byte (registers c)) INTERFACE_DISABLED = false /\ has (command_byte (registers c)) TRANSLATE_SET_2 = true.
Proof. by intros [-> _]. Qed.

(** A scan byte sent to a quiet controller goes on the wire. *)
Lemma send_wire byte c c' : quiet c -> send byte FromKeyboard c = Some c' ->
  quiet c' /\ latch c = [] /\ break_prefix (registers c') = (wire_byte (break_prefix (registers c)) byte).2
  /\ latch c' = option_list (wire_byte (break_prefix (registers c)) byte).1.
Proof.
  intros Hq Hs. pose proof (has_quiet c Hq) as [Hd Ht]. pose proof Hq as [Hc Hi].
  unfold send in Hs. rewrite Hd, Ht in Hs.
  rewrite (bool_decide_eq_false_2 (FromKeyboard = FromController)), (bool_decide_eq_true_2 (FromKeyboard = FromKeyboard)) in Hs by done.
  cbn [orb andb negb] in Hs. rewrite andb_true_r in Hs. unfold latch at 1.
  destruct (output_full (registers c)) eqn:Ho; cbn [negb] in Hs; [done|].
  unfold wire_byte. destruct (byte =? 0xf0); cbn [fst snd option_list].
  - simplify_eq. split; [done|]. split; [done|]. split; [done|]. unfold latch. cbn. by rewrite Ho.
  - cbv zeta in Hs. set (b := if break_prefix (registers c) then _ else _) in *. injection Hs as <-.
    unfold put_output, update_irq. set (c1 := set_registers _ _).
    assert (registers (irq_set_level (output_full (registers c1) && has (command_byte (registers c1)) IRQ_ENABLED) c1) = registers c1)
      as Hr by apply changed_irq.
    unfold latch. rewrite Hr. split; [|done]. by split; rewrite Hr.
Qed.

Lemma read_quiet c : quiet c -> fits 8 (output (registers c)) ->
  let '(byte, c') := read_scan_code c in
  option_list byte = latch c /\ latch c' = [] /\ quiet c' /\ break_prefix (registers c') = break_prefix (registers c).
Proof.
  intros [Hc Hi] Hf. unfold read_scan_code.
  change (keyboard_read_port STATUS_COMMAND_PORT 1 c) with (status c, c). cbv beta iota.
  assert (has (status c) OUTPUT_BUFFER_FULL = output_full (registers c)) as ->.
  { unfold status. rewrite Hc, Hi. by destruct (last_command (registers c)), (output_full (registers c)). }
  unfold latch. destruct (output_full (registers c)) eqn:Ho; [|by rewrite Ho].
  change (keyboard_read_port DATA_PORT 1 c) with (read_data c). unfold read_data. set (c1 := set_registers _ c).
  assert (registers (irq_set_level false c1) = registers c1) as Hr by apply changed_irq.
  cbn [notify registers]. rewrite Hr, wrap_small by done. split; [done|]. split; [done|]. split; [|done].
  by split; cbn [notify registers]; rewrite Hr.
Qed.

(** ** The device *)

Record delivers (out : list Z) (s : System) (items : list Item) : Prop := {
  de_quiet : quiet (controller (environment s));
  de_firmware : firmware s = Receiving;
  de_channel : channel (environment s) = None;
  de_task : task s = Commands;
  de_streams : streams (break_prefix (registers (controller (environment s))))
                 (out ++ latch (controller (environment s))) (keyboard s) items;
}.

Lemma streams_send prefix sent k items byte : streams prefix sent k items -> peek_byte k = Some byte ->
  exists items', streams (wire_byte prefix byte).2 (sent ++ option_list (wire_byte prefix byte).1) (consume_byte k) items'.
Proof.
  intros [[Hset Hp Hb Hk] Hsc Hpa Hr]. unfold peek_byte, consume_byte.
  destruct (scans k) as [|x l] eqn:Hs.
  - destruct (overflow k) eqn:Ho; [|done]. rewrite Hset. intros [= <-]. cbn in Hp. subst prefix.
    exists (items ++ [Overrun]). cbn in Hb. rewrite app_nil_r in Hb.
    split; [split|done..]; cbn [set set_overflow scans overflow held]; rewrite ?Hs; try done.
    + cbn. by rewrite app_nil_r, fmap_app, concat_app, Hb.
    + intros _ Hin. set_solver.
  - intros [= <-]. exists items. cbn [wire] in Hp, Hb. destruct (wire_byte prefix x) as [o p] eqn:Hw; cbn [fst snd] in *.
    destruct (wire p l) as [os q] eqn:Hwl; cbn [fst snd] in *.
    split; [split|done..]; cbn [set set_scans scans overflow held]; rewrite ?Hwl; try done.
    rewrite <- Hb. cbn [fst]. destruct o; cbn [option_list]; by rewrite <- app_assoc.
Qed.

Section Stream.
Context (iterate : gset KeyCode -> list KeyCode).

Lemma poll_keyboard_delivers out s items s' : delivers out s items -> keyboard_ok (keyboard s) ->
  poll_keyboard iterate s = Some s' -> exists items', delivers out s' items'.
Proof.
  intros [Hq Hf Hch Ht Hs] Hk Hp. unfold poll_keyboard in Hp; cbv zeta in Hp.
  destruct (keyboard_step _ _ _ _) as [[[k t] env]|] eqn:Hstep; [|done]. cbn [mbind option_bind] in Hp. simplify_eq.
  unfold keyboard_step in Hstep. unfold command_step in Hstep. rewrite Hch in Hstep. cbn [mbind option_bind] in Hstep.
  destruct (output_step _ _ _ _) as [[[k1 t1] env1]|] eqn:Hout.
  { simplify_eq. unfold output_step in Hout. rewrite Ht in Hout. cbn [outgoing] in Hout.
    rewrite (st_paused _ _ _ _ Hs) in Hout. destruct (peek_byte (keyboard s)) as [b|] eqn:Hpk; [|done].
    cbn [mbind option_bind] in Hout. destruct (send b FromKeyboard _) as [c|] eqn:Hsend; [|done].
    cbn [mbind option_bind sent] in Hout. cbv zeta in Hout. simplify_eq.
    destruct (send_wire _ _ _ Hq Hsend) as (Hq' & Hl & Hpre & Hl').
    rewrite Hl, app_nil_r in Hs.
    set (k1 := if negb (b =? RESEND) then set_last_sent b (keyboard s) else keyboard s).
    assert (streams (break_prefix (registers (controller (environment s)))) out k1 items) as Hs1.
    { subst k1. destruct (negb _); [|done]. by eapply streams_fields; [..|exact Hs]. }
    assert (peek_byte k1 = Some b) as Hpk1 by (subst k1; by destruct (negb _)).
    destruct (streams_send _ _ _ _ _ Hs1 Hpk1) as [items' Hs'].
    exists items'. split; try done. cbn [environment controller keyboard]. by rewrite Hpre, Hl'. }
  destruct (event_step _ _ _ _) as [[[k1 t1] env1]|] eqn:Hev.
  { simplify_eq. unfold event_step in Hev. destruct (negb (events_open (keyboard s))); [done|].
    destruct (queue (environment s)) as [|e q].
    - destruct (closed (environment s)); [|done]. injection Hev as <- <- <-.
      assert (keyboard_ok (set_events_open false (keyboard s))) as Hk1 by (destruct Hk; by split).
      assert (streams (break_prefix (registers (controller (environment s)))) (out ++ latch (controller (environment s)))
                (set_events_open false (keyboard s)) items) as Hs1 by (by eapply streams_fields; [..|exact Hs]).
      destruct (streams_event iterate _ _ _ _ FocusLost (now (environment s)) Hs1 Hk1) as [items' Hs'].
      exists items'. by split.
    - injection Hev as <- <- <-.
      destruct (streams_event iterate _ _ _ _ e (now (environment s)) Hs Hk) as [items' Hs']. exists items'. by split. }
  unfold timer_step in Hstep. destruct (repeat (keyboard s)) as [r|] eqn:Hr; [|done]. cbn [mbind option_bind] in Hstep.
  destruct (deadline r <=? _); [|done]. injection Hstep as <- <- <-.
  destruct (streams_repeat _ _ _ items (inhibited (controller (environment s))) (now (environment s)) Hs) as [items' Hs'].
  exists items'. by split.
Qed.

Lemma act_delivers out s items a : delivers out s items -> system_ok s -> only_reads a ->
  exists items', delivers (out ++ (act iterate a s).1) (act iterate a s).2 items'.
Proof.
  intros Hd Hok Ha. pose proof Hd as [Hq Hf Hch Ht Hs].
  destruct a as [| |port bytes|port bytes value| |e| |elapsed|e]; try done; cbn [act fst snd]; cbv zeta; rewrite ?app_nil_r.
  - exists items. unfold poll_firmware; cbv zeta. rewrite Hf. cbn [firmware_step]. rewrite (qu_input _ Hq). by split.
  - destruct (poll_keyboard iterate s) as [s'|] eqn:Hp; cbn [default from_option id].
    + eapply poll_keyboard_delivers; [done|by apply so_keyboard|done].
    + exists items. by split.
  - pose proof (read_quiet _ Hq (ro_output _ (co_registers _ (so_controller _ Hok)))) as Hr.
    destruct (read_scan_code _) as [b c]. destruct Hr as (Hb & Hl & Hq' & Hp).
    exists items. cbn [fst snd]. split; try done. cbn [callback with_controller environment controller keyboard].
    by rewrite Hb, Hl, Hp, app_nil_r.
  - exists items. destruct (closed _); cbn [fst snd]; rewrite app_nil_r; by split.
  - exists items. by split.
  - exists items. by split.
  - exists items. destruct (on_event e _) as [pic woke]. cbn [fst snd]. rewrite app_nil_r. split; try done. by destruct Hq.
Qed.

Hypothesis iterate_elements : forall s key, key ∈ iterate s -> key ∈ s.
#[local] Set Default Proof Using "All".

Lemma run_delivers actions out s items : Forall action_ok actions -> Forall only_reads actions -> system_ok s ->
  delivers out s items ->
  let '(o, s') := run iterate actions s in
  exists items', (out ++ o) ++ pending s' = concat (encode <$> items')
    /\ (overflow (keyboard s') = false -> Overrun ∉ items' -> foldl reported ∅ items' = held (keyboard s')).
Proof.
  intros Ha. revert out s items. induction Ha as [|a actions Ha _ IH]; intros out s items Hr Hok Hd; cbn [run].
  - exists items. rewrite app_nil_r. destruct Hd as [_ _ _ _ [[Hset Hpre Hb Hk] _ _ _]]. split; [|done].
    unfold pending. by rewrite app_assoc.
  - apply Forall_cons in Hr as [Hra Hr]. destruct (act_delivers out s items a Hd Hok Hra) as [items' Hd'].
    pose proof (act_ok iterate iterate_elements a s Ha Hok) as Hok'.
    destruct (act iterate a s) as [o s1]; cbn [fst snd] in *.
    specialize (IH (out ++ o) s1 items' Hr Hok' Hd'). destruct (run iterate actions s1) as [os s2].
    by rewrite app_assoc.
Qed.

(** C33 With the keyboard in its power-on modes and a guest that only takes output
    bytes, every byte it has read or is still to read, in the output register or
    in the scan buffer as the controller translates it, belongs to the set-1
    sequence of a key transition or is FF for an overrun; sequences come whole
    and in order, and unless keys were dropped, replaying the transitions gives
    exactly the keys the host holds, however the tasks, the host, the clock and
    the guest interleave. *)
Theorem keyboard_stream (pic : Pic.Controller) (s0 : System) (actions : list Action) :
  Pic.wf pic -> power_on pic = Some s0 -> Forall action_ok actions -> Forall only_reads actions ->
  let '(out, s) := run iterate actions s0 in
  exists items, out ++ pending s = concat (encode <$> items)
    /\ (overflow (keyboard s) = false -> Overrun ∉ items -> foldl reported ∅ items = held (keyboard s)).
Proof.
  intros Hp Hs0 Ha Hr. assert (system_ok s0) as Hok by (by eapply power_on_ok).
  assert (exists items, delivers [] s0 items) as [items Hd].
  { exists []. unfold power_on, controller_new in Hs0. destruct (connect_irq _ _ _) as [[pic' woke]|]; [|done].
    cbn [mbind option_bind] in Hs0. simplify_eq. by split. }
  exact (run_delivers actions [] s0 items Ha Hr Hok Hd).
Qed.

End Stream.

Module Sample.
Import KeyboardTheorems.Sample.

(** Right Ctrl down and up and F7 down, with the guest reading in between. *)
Definition typing : list Action :=
  [ HostEvent (Key ControlRight true); HostEvent (Key ControlRight false); PollKeyboard; PollKeyboard; PollKeyboard;
    ReadScanCode; PollKeyboard; ReadScanCode; PollKeyboard; ReadScanCode; PollKeyboard; PollKeyboard;
    HostEvent (Key F7 true); ReadScanCode; PollKeyboard ].

Example keyboard_stream_witness :
  (let '(out, s) := run elements typing started in
   exists items, out ++ pending s = concat (encode <$> items)
     /\ (overflow (keyboard s) = false -> Overrun ∉ items -> foldl reported ∅ items = held (keyboard s)))
  /\ (run elements typing started).1 = [0xe0; 0x1d; 0xe0; 0x9d]
  /\ pending (run elements typing started).2 = [0x41].
Proof.
  split; [|vm_compute; done].
  apply (keyboard_stream elements iterate_elements pic started typing pic_ok eq_refl); repeat constructor.
Defined.

End Sample.
