(* ===== verification/BiosKeyboard.v ===== *)
(** * BIOS keyboard services

    crates/bios/src/keyboard.rs and keyboard/*.rs over crates/x86/src/real_mode.rs:
    the flags and the ring of keystrokes in the BIOS data area, the decoder of set-1
    bytes, the US layout, the INT 16h operations with their pending reader, and the
    translator of native applications. The guest's memory is any conventional
    memory, which operations thread; [None] is a panic. The task that waits for a
    key is the number of its waker. *)

From S2P Require Import Prelude Bytes IoBus PhysMemory Scancodes Keyboard.
Local Open Scope Z_scope.

(** ** real_mode.rs *)

Record FarPointer := mkPointer { segment : Z; offset : Z }.
Definition wrapping_add (p : FarPointer) (bytes : Z) : FarPointer := mkPointer (segment p) (wrap 16 (offset p + bytes)).
Definition segment_base (p : FarPointer) : Z := Z.shiftl (segment p) 4.
Definition address (p : FarPointer) : Z := segment_base p + offset p.

(** ** encoding.rs *)

Definition EXTENDED_MARKER : Z := 0xe0.
Definition ENHANCED_ONLY_MARKER : Z := 0xf0.
Definition LAST_LEGACY_SCAN_CODE : Z := 0x84.

Record KeyStroke := mkStroke { character : Z; scan_code : Z }.
Inductive KeyMode : Set := Legacy | Enhanced.

Definition mode_translate (mode : KeyMode) (key : KeyStroke) : option KeyStroke :=
  let marked := (character key =? ENHANCED_ONLY_MARKER) && negb (scan_code key =? 0) in
  match mode with
  | Enhanced => Some (if marked then mkStroke 0 (scan_code key) else key)
  | Legacy =>
      if scan_code key =? EXTENDED_MARKER then
        Some (mkStroke (character key) (if (character key =? 13) || (character key =? 10) then 0x1c else 0x35))
      else if (LAST_LEGACY_SCAN_CODE <? scan_code key) || marked then None
      else if (character key =? EXTENDED_MARKER) && negb (scan_code key =? 0) then Some (mkStroke 0 (scan_code key))
      else Some key
  end.

(** ** keyboard.rs: modifiers and toggles *)

Record ShiftState := mkShifts {
  right_shift : bool; left_shift : bool; control : bool; alt : bool; scroll_lock : bool; num_lock : bool; caps_lock : bool; insert_ : bool }.

Definition ShiftFlags_RIGHT_SHIFT : Z := 1.
Definition ShiftFlags_LEFT_SHIFT : Z := 2.
Definition ShiftFlags_CONTROL : Z := 4.
Definition ShiftFlags_ALT : Z := 8.
Definition ShiftFlags_SCROLL_LOCK : Z := 16.
Definition ShiftFlags_NUM_LOCK : Z := 32.
Definition ShiftFlags_CAPS_LOCK : Z := 64.
Definition ShiftFlags_INSERT : Z := 128.
Definition HeldKeys_LEFT_CONTROL : Z := 1.
Definition HeldKeys_LEFT_ALT : Z := 2.
Definition HeldKeys_SYS_REQUEST : Z := 4.
Definition HeldKeys_SCROLL_LOCK : Z := 16.
Definition HeldKeys_NUM_LOCK : Z := 32.
Definition HeldKeys_CAPS_LOCK : Z := 64.
Definition HeldKeys_INSERT : Z := 128.
Definition KeyboardStatus_PAUSE_PREFIX : Z := 1.
Definition KeyboardStatus_EXTENDED_PREFIX : Z := 2.
Definition KeyboardStatus_RIGHT_CONTROL : Z := 4.
Definition KeyboardStatus_RIGHT_ALT : Z := 8.
Definition KeyboardStatus_ENHANCED_KEYBOARD : Z := 16.

(** [contains] of one flag and [set] of the bitflags package. *)
Definition contains (bits flag : Z) : bool := Z.land bits flag =? flag.
Definition set_flag (flag : Z) (value : bool) (bits : Z) : Z := if value then Z.lor bits flag else Z.land bits (bnot 8 flag).

Definition shifts_from_bits (bits : Z) : ShiftState :=
  mkShifts (contains bits ShiftFlags_RIGHT_SHIFT) (contains bits ShiftFlags_LEFT_SHIFT) (contains bits ShiftFlags_CONTROL)
    (contains bits ShiftFlags_ALT) (contains bits ShiftFlags_SCROLL_LOCK) (contains bits ShiftFlags_NUM_LOCK)
    (contains bits ShiftFlags_CAPS_LOCK) (contains bits ShiftFlags_INSERT).
Definition shifts_bits (s : ShiftState) : Z :=
  set_flag ShiftFlags_INSERT (insert_ s) (set_flag ShiftFlags_CAPS_LOCK (caps_lock s) (set_flag ShiftFlags_NUM_LOCK (num_lock s)
    (set_flag ShiftFlags_SCROLL_LOCK (scroll_lock s) (set_flag ShiftFlags_ALT (alt s) (set_flag ShiftFlags_CONTROL (control s)
      (set_flag ShiftFlags_LEFT_SHIFT (left_shift s) (set_flag ShiftFlags_RIGHT_SHIFT (right_shift s) 0))))))).
Definition shift_pressed (s : ShiftState) : bool := left_shift s || right_shift s.
Definition numeric_keypad (s : ShiftState) : bool := xorb (num_lock s) (shift_pressed s).

Definition no_shifts : ShiftState := mkShifts false false false false false false false false.
Definition with_left_shift b s := mkShifts (right_shift s) b (control s) (alt s) (scroll_lock s) (num_lock s) (caps_lock s) (insert_ s).
Definition with_right_shift b s := mkShifts b (left_shift s) (control s) (alt s) (scroll_lock s) (num_lock s) (caps_lock s) (insert_ s).
Definition with_control b s := mkShifts (right_shift s) (left_shift s) b (alt s) (scroll_lock s) (num_lock s) (caps_lock s) (insert_ s).
Definition with_alt b s := mkShifts (right_shift s) (left_shift s) (control s) b (scroll_lock s) (num_lock s) (caps_lock s) (insert_ s).
Definition with_scroll_lock b s := mkShifts (right_shift s) (left_shift s) (control s) (alt s) b (num_lock s) (caps_lock s) (insert_ s).
Definition with_num_lock b s := mkShifts (right_shift s) (left_shift s) (control s) (alt s) (scroll_lock s) b (caps_lock s) (insert_ s).
Definition with_caps_lock b s := mkShifts (right_shift s) (left_shift s) (control s) (alt s) (scroll_lock s) (num_lock s) b (insert_ s).
Definition with_insert b s := mkShifts (right_shift s) (left_shift s) (control s) (alt s) (scroll_lock s) (num_lock s) (caps_lock s) b.
(** ** layout.rs

    The letters' keys are named as in [KeyCode]. *)

Module Layout.

Inductive Key : Set :=
  | Escape | Digit1 | Digit2 | Digit3 | Digit4 | Digit5 | Digit6 | Digit7 | Digit8 | Digit9 | Digit0 | Minus | Equal
  | Backspace | Tab | KeyQ | KeyW | KeyE | KeyR | KeyT | KeyY | KeyU | KeyI | KeyO | KeyP | LeftBracket
  | RightBracket | Enter | LeftControl | KeyA | KeyS | KeyD | KeyF | KeyG | KeyH | KeyJ | KeyK | KeyL | Semicolon
  | Quote | Backquote | LeftShift | Backslash | KeyZ | KeyX | KeyC | KeyV | KeyB | KeyN | KeyM | Comma | Period
  | Slash | RightShift | KeypadMultiply | LeftAlt | Space | CapsLock | F1 | F2 | F3 | F4 | F5 | F6 | F7 | F8 | F9
  | F10 | NumLock | ScrollLock | Keypad7 | Keypad8 | Keypad9 | KeypadSubtract | Keypad4 | Keypad5 | Keypad6
  | KeypadAdd | Keypad1 | Keypad2 | Keypad3 | Keypad0 | KeypadDecimal | IntlBackslash | F11 | F12 | KeypadEnter
  | RightControl | KeypadDivide | RightAlt | Home | Up | PageUp | Left | Right | End_ | Down | PageDown | Insert
  | Delete.

(** The rows of the macro: name, wire number with the prefix in the high byte, physical key. *)
Definition keys : list (Key * Z * KeyCode) :=
  [ (Escape, 0x01, Scancodes.Escape); (Digit1, 0x02, Scancodes.Digit1); (Digit2, 0x03, Scancodes.Digit2);
    (Digit3, 0x04, Scancodes.Digit3); (Digit4, 0x05, Scancodes.Digit4); (Digit5, 0x06, Scancodes.Digit5);
    (Digit6, 0x07, Scancodes.Digit6); (Digit7, 0x08, Scancodes.Digit7); (Digit8, 0x09, Scancodes.Digit8);
    (Digit9, 0x0a, Scancodes.Digit9); (Digit0, 0x0b, Scancodes.Digit0); (Minus, 0x0c, Scancodes.Minus);
    (Equal, 0x0d, Scancodes.Equal); (Backspace, 0x0e, Scancodes.Backspace); (Tab, 0x0f, Scancodes.Tab);
    (KeyQ, 0x10, Scancodes.KeyQ); (KeyW, 0x11, Scancodes.KeyW); (KeyE, 0x12, Scancodes.KeyE);
    (KeyR, 0x13, Scancodes.KeyR); (KeyT, 0x14, Scancodes.KeyT); (KeyY, 0x15, Scancodes.KeyY);
    (KeyU, 0x16, Scancodes.KeyU); (KeyI, 0x17, Scancodes.KeyI); (KeyO, 0x18, Scancodes.KeyO);
    (KeyP, 0x19, Scancodes.KeyP); (LeftBracket, 0x1a, Scancodes.BracketLeft);
    (RightBracket, 0x1b, Scancodes.BracketRight); (Enter, 0x1c, Scancodes.Enter);
    (LeftControl, 0x1d, Scancodes.ControlLeft); (KeyA, 0x1e, Scancodes.KeyA); (KeyS, 0x1f, Scancodes.KeyS);
    (KeyD, 0x20, Scancodes.KeyD); (KeyF, 0x21, Scancodes.KeyF); (KeyG, 0x22, Scancodes.KeyG);
    (KeyH, 0x23, Scancodes.KeyH); (KeyJ, 0x24, Scancodes.KeyJ); (KeyK, 0x25, Scancodes.KeyK);
    (KeyL, 0x26, Scancodes.KeyL); (Semicolon, 0x27, Scancodes.Semicolon); (Quote, 0x28, Scancodes.Quote);
    (Backquote, 0x29, Scancodes.Backquote); (LeftShift, 0x2a, Scancodes.ShiftLeft);
    (Backslash, 0x2b, Scancodes.Backslash); (KeyZ, 0x2c, Scancodes.KeyZ); (KeyX, 0x2d, Scancodes.KeyX);
    (KeyC, 0x2e, Scancodes.KeyC); (KeyV, 0x2f, Scancodes.KeyV); (KeyB, 0x30, Scancodes.KeyB);
    (KeyN, 0x31, Scancodes.KeyN); (KeyM, 0x32, Scancodes.KeyM); (Comma, 0x33, Scancodes.Comma);
    (Period, 0x34, Scancodes.Period); (Slash, 0x35, Scancodes.Slash); (RightShift, 0x36, Scancodes.ShiftRight);
    (KeypadMultiply, 0x37, Scancodes.NumpadMultiply); (LeftAlt, 0x38, Scancodes.AltLeft);
    (Space, 0x39, Scancodes.Space); (CapsLock, 0x3a, Scancodes.CapsLock); (F1, 0x3b, Scancodes.F1);
    (F2, 0x3c, Scancodes.F2); (F3, 0x3d, Scancodes.F3); (F4, 0x3e, Scancodes.F4); (F5, 0x3f, Scancodes.F5);
    (F6, 0x40, Scancodes.F6); (F7, 0x41, Scancodes.F7); (F8, 0x42, Scancodes.F8); (F9, 0x43, Scancodes.F9);
    (F10, 0x44, Scancodes.F10); (NumLock, 0x45, Scancodes.NumLock); (ScrollLock, 0x46, Scancodes.ScrollLock);
    (Keypad7, 0x47, Scancodes.Numpad7); (Keypad8, 0x48, Scancodes.Numpad8); (Keypad9, 0x49, Scancodes.Numpad9);
    (KeypadSubtract, 0x4a, Scancodes.NumpadSubtract); (Keypad4, 0x4b, Scancodes.Numpad4);
    (Keypad5, 0x4c, Scancodes.Numpad5); (Keypad6, 0x4d, Scancodes.Numpad6); (KeypadAdd, 0x4e, Scancodes.NumpadAdd);
    (Keypad1, 0x4f, Scancodes.Numpad1); (Keypad2, 0x50, Scancodes.Numpad2); (Keypad3, 0x51, Scancodes.Numpad3);
    (Keypad0, 0x52, Scancodes.Numpad0); (KeypadDecimal, 0x53, Scancodes.NumpadDecimal);
    (IntlBackslash, 0x56, Scancodes.IntlBackslash); (F11, 0x57, Scancodes.F11); (F12, 0x58, Scancodes.F12);
    (KeypadEnter, 0xe01c, Scancodes.NumpadEnter); (RightControl, 0xe01d, Scancodes.ControlRight);
    (KeypadDivide, 0xe035, Scancodes.NumpadDivide); (RightAlt, 0xe038, Scancodes.AltRight);
    (Home, 0xe047, Scancodes.Home); (Up, 0xe048, Scancodes.ArrowUp); (PageUp, 0xe049, Scancodes.PageUp);
    (Left, 0xe04b, Scancodes.ArrowLeft); (Right, 0xe04d, Scancodes.ArrowRight); (End_, 0xe04f, Scancodes.End_);
    (Down, 0xe050, Scancodes.ArrowDown); (PageDown, 0xe051, Scancodes.PageDown); (Insert, 0xe052, Scancodes.Insert);
    (Delete, 0xe053, Scancodes.Delete) ].

Definition EXTENDED_KEY : Z := 0xe000.
Definition from_scan (code : Z) (extended : bool) : option Key :=
  let code := Z.lor code (if extended then EXTENDED_KEY else 0) in
  (fun row => row.1.1) <$> List.find (fun row => row.1.2 =? code) keys.
Definition from_physical (code : KeyCode) : option Key := (fun row => row.1.1) <$> List.find (fun row => bool_decide (row.2 = code)) keys.

Definition key_code (key : Key) : Z :=
  match key with
  | Escape => 0x01 | Digit1 => 0x02 | Digit2 => 0x03 | Digit3 => 0x04 | Digit4 => 0x05 | Digit5 => 0x06
  | Digit6 => 0x07 | Digit7 => 0x08 | Digit8 => 0x09 | Digit9 => 0x0a | Digit0 => 0x0b | Minus => 0x0c
  | Equal => 0x0d | Backspace => 0x0e | Tab => 0x0f | KeyQ => 0x10 | KeyW => 0x11 | KeyE => 0x12 | KeyR => 0x13
  | KeyT => 0x14 | KeyY => 0x15 | KeyU => 0x16 | KeyI => 0x17 | KeyO => 0x18 | KeyP => 0x19 | LeftBracket => 0x1a
  | RightBracket => 0x1b | Enter => 0x1c | LeftControl => 0x1d | KeyA => 0x1e | KeyS => 0x1f | KeyD => 0x20
  | KeyF => 0x21 | KeyG => 0x22 | KeyH => 0x23 | KeyJ => 0x24 | KeyK => 0x25 | KeyL => 0x26 | Semicolon => 0x27
  | Quote => 0x28 | Backquote => 0x29 | LeftShift => 0x2a | Backslash => 0x2b | KeyZ => 0x2c | KeyX => 0x2d
  | KeyC => 0x2e | KeyV => 0x2f | KeyB => 0x30 | KeyN => 0x31 | KeyM => 0x32 | Comma => 0x33 | Period => 0x34
  | Slash => 0x35 | RightShift => 0x36 | KeypadMultiply => 0x37 | LeftAlt => 0x38 | Space => 0x39 | CapsLock => 0x3a
  | F1 => 0x3b | F2 => 0x3c | F3 => 0x3d | F4 => 0x3e | F5 => 0x3f | F6 => 0x40 | F7 => 0x41 | F8 => 0x42
  | F9 => 0x43 | F10 => 0x44 | NumLock => 0x45 | ScrollLock => 0x46 | Keypad7 => 0x47 | Keypad8 => 0x48
  | Keypad9 => 0x49 | KeypadSubtract => 0x4a | Keypad4 => 0x4b | Keypad5 => 0x4c | Keypad6 => 0x4d
  | KeypadAdd => 0x4e | Keypad1 => 0x4f | Keypad2 => 0x50 | Keypad3 => 0x51 | Keypad0 => 0x52 | KeypadDecimal => 0x53
  | IntlBackslash => 0x56 | F11 => 0x57 | F12 => 0x58 | KeypadEnter => 0xe01c | RightControl => 0xe01d
  | KeypadDivide => 0xe035 | RightAlt => 0xe038 | Home => 0xe047 | Up => 0xe048 | PageUp => 0xe049 | Left => 0xe04b
  | Right => 0xe04d | End_ => 0xe04f | Down => 0xe050 | PageDown => 0xe051 | Insert => 0xe052 | Delete => 0xe053
  end.
Definition make_code (key : Key) : Z := wrap 8 (key_code key).

Definition special_key (scan_code : Z) : KeyStroke := mkStroke 0 scan_code.
Definition character_key (key : Key) (character : Z) : KeyStroke :=
  mkStroke character (match key with KeypadEnter | KeypadDivide => EXTENDED_MARKER | _ => make_code key end).
Definition function_key (codes : Z * Z * Z * Z) (shifts : ShiftState) : KeyStroke :=
  let '(plain, shift, control', alt') := codes in
  special_key (if alt shifts then alt' else if control shifts then control' else if shift_pressed shifts then shift else plain).

(** BIOS scan codes: unmodified, Shift, Ctrl, Alt. *)
Definition function_codes (key : Key) : option (Z * Z * Z * Z) :=
  match key with
  | F1 => Some (0x3b, 0x54, 0x5e, 0x68) | F2 => Some (0x3c, 0x55, 0x5f, 0x69) | F3 => Some (0x3d, 0x56, 0x60, 0x6a)
  | F4 => Some (0x3e, 0x57, 0x61, 0x6b) | F5 => Some (0x3f, 0x58, 0x62, 0x6c) | F6 => Some (0x40, 0x59, 0x63, 0x6d)
  | F7 => Some (0x41, 0x5a, 0x64, 0x6e) | F8 => Some (0x42, 0x5b, 0x65, 0x6f) | F9 => Some (0x43, 0x5c, 0x66, 0x70)
  | F10 => Some (0x44, 0x5d, 0x67, 0x71) | F11 => Some (0x85, 0x87, 0x89, 0x8b)
  | F12 => Some (0x86, 0x88, 0x8a, 0x8c)
  | _ => None
  end.
Definition navigation_codes (key : Key) : option (Z * Z * Z * Z) :=
  match key with
  | Home | Keypad7 => Some (0x47, 0x47, 0x77, 0x97) | Up | Keypad8 => Some (0x48, 0x48, 0x8d, 0x98)
  | PageUp | Keypad9 => Some (0x49, 0x49, 0x84, 0x99) | Left | Keypad4 => Some (0x4b, 0x4b, 0x73, 0x9b)
  | Keypad5 => Some (0x4c, 0x4c, 0x8f, 0) | Right | Keypad6 => Some (0x4d, 0x4d, 0x74, 0x9d)
  | End_ | Keypad1 => Some (0x4f, 0x4f, 0x75, 0x9f) | Down | Keypad2 => Some (0x50, 0x50, 0x91, 0xa0)
  | PageDown | Keypad3 => Some (0x51, 0x51, 0x76, 0xa1) | Insert | Keypad0 => Some (0x52, 0x52, 0x92, 0xa2)
  | Delete | KeypadDecimal => Some (0x53, 0x53, 0x93, 0xa3)
  | _ => None
  end.
Definition keypad_digit (key : Key) : option Z :=
  match key with
  | Keypad7 => Some 55 | Keypad8 => Some 56 | Keypad9 => Some 57 | Keypad4 => Some 52 | Keypad5 => Some 53
  | Keypad6 => Some 54 | Keypad1 => Some 49 | Keypad2 => Some 50 | Keypad3 => Some 51 | Keypad0 => Some 48
  | KeypadDecimal => Some 46
  | _ => None
  end.

(** Characters: unmodified, Shift. *)
Definition characters (key : Key) : option (Z * Z) :=
  match key with
  | Escape => Some (27, 27) | Digit1 => Some (49, 33) | Digit2 => Some (50, 64) | Digit3 => Some (51, 35)
  | Digit4 => Some (52, 36) | Digit5 => Some (53, 37) | Digit6 => Some (54, 94) | Digit7 => Some (55, 38)
  | Digit8 => Some (56, 42) | Digit9 => Some (57, 40) | Digit0 => Some (48, 41) | Minus => Some (45, 95)
  | Equal => Some (61, 43) | Backspace => Some (8, 8) | Tab => Some (9, 0) | KeyQ => Some (113, 81)
  | KeyW => Some (119, 87) | KeyE => Some (101, 69) | KeyR => Some (114, 82) | KeyT => Some (116, 84)
  | KeyY => Some (121, 89) | KeyU => Some (117, 85) | KeyI => Some (105, 73) | KeyO => Some (111, 79)
  | KeyP => Some (112, 80) | LeftBracket => Some (91, 123) | RightBracket => Some (93, 125)
  | Enter | KeypadEnter => Some (13, 13) | KeyA => Some (97, 65) | KeyS => Some (115, 83) | KeyD => Some (100, 68)
  | KeyF => Some (102, 70) | KeyG => Some (103, 71) | KeyH => Some (104, 72) | KeyJ => Some (106, 74)
  | KeyK => Some (107, 75) | KeyL => Some (108, 76) | Semicolon => Some (59, 58) | Quote => Some (39, 34)
  | Backquote => Some (96, 126) | Backslash | IntlBackslash => Some (92, 124) | KeyZ => Some (122, 90)
  | KeyX => Some (120, 88) | KeyC => Some (99, 67) | KeyV => Some (118, 86) | KeyB => Some (98, 66)
  | KeyN => Some (110, 78) | KeyM => Some (109, 77) | Comma => Some (44, 60) | Period => Some (46, 62)
  | Slash => Some (47, 63) | KeypadDivide => Some (47, 47) | KeypadMultiply => Some (42, 42)
  | KeypadSubtract => Some (45, 45) | KeypadAdd => Some (43, 43) | Space => Some (32, 32)
  | _ => None
  end.

Definition is_ascii_alphabetic (c : Z) : bool := ((65 <=? c) && (c <=? 90)) || ((97 <=? c) && (c <=? 122)).
Definition to_ascii_uppercase (c : Z) : Z := if (97 <=? c) && (c <=? 122) then c - 32 else c.

Definition alt_codes (key : Key) : option Z :=
  match key with
  | Digit1 => Some 0x78 | Digit2 => Some 0x79 | Digit3 => Some 0x7a | Digit4 => Some 0x7b | Digit5 => Some 0x7c
  | Digit6 => Some 0x7d | Digit7 => Some 0x7e | Digit8 => Some 0x7f | Digit9 => Some 0x80 | Digit0 => Some 0x81
  | Minus => Some 0x82 | Equal => Some 0x83 | Tab => Some 0xa5 | KeypadEnter => Some 0xa6 | KeypadDivide => Some 0xa4
  | _ => None
  end.
Definition control_codes (key : Key) : option Z :=
  match key with
  | Tab => Some 0x94 | KeypadDivide => Some 0x95 | KeypadMultiply => Some 0x96 | KeypadSubtract => Some 0x8e
  | KeypadAdd => Some 0x90
  | _ => None
  end.
Definition control_character (key : Key) (plain : Z) : option Z :=
  match key with
  | Escape => Some 0x1b | Backspace => Some 0x7f | Enter | KeypadEnter => Some 10 | Digit2 => Some 0 | Digit6 => Some 0x1e
  | Minus => Some 0x1f | Space => Some 32
  | _ =>
      if is_ascii_alphabetic plain || match key with LeftBracket | Backslash | RightBracket => true | _ => false end
      then Some (to_ascii_uppercase plain - 64) else None
  end.

Definition navigation_key (key : Key) (codes : Z * Z * Z * Z) (shifts : ShiftState) : option KeyStroke :=
  let digit := keypad_digit key in
  if alt shifts && bool_decide (is_Some digit) then None
  else
    match (if negb (alt shifts) && negb (control shifts) && numeric_keypad shifts then digit else None) with
    | Some character => Some (character_key key character)
    | None =>
        let result := function_key codes shifts in
        Some (if negb (alt shifts) && bool_decide (digit = None) then mkStroke EXTENDED_MARKER (scan_code result)
              else match key with
                   | Keypad5 => if negb (control shifts) then mkStroke ENHANCED_ONLY_MARKER (scan_code result) else result
                   | _ => result
                   end)
    end.

Definition text_key (key : Key) (plain shifted : Z) (shifts : ShiftState) : option KeyStroke :=
  if alt shifts then
    Some match key with
         | Space => character_key key 32
         | _ =>
             match alt_codes key with
             | Some scan_code => special_key scan_code
             | None =>
                 if is_ascii_alphabetic plain then special_key (make_code key) else mkStroke ENHANCED_ONLY_MARKER (make_code key)
             end
         end
  else if control shifts then
    match control_codes key with
    | Some scan_code => Some (special_key scan_code)
    | None => character_key key <$> control_character key plain
    end
  else
    let uppercase := xorb (shift_pressed shifts) (caps_lock shifts && is_ascii_alphabetic plain) in
    Some (character_key key (if uppercase then shifted else plain)).

Definition keystroke (key : Key) (shifts : ShiftState) : option KeyStroke :=
  match function_codes key with
  | Some codes => Some (function_key codes shifts)
  | None =>
      match navigation_codes key with
      | Some codes => navigation_key key codes shifts
      | None => match characters key with Some (plain, shifted) => text_key key plain shifted shifts | None => None end
      end
  end.
End Layout.

(** ** data.rs *)

Definition BDA : FarPointer := mkPointer 0x40 0.
Definition SHIFT_FLAGS : FarPointer := wrapping_add BDA 0x17.
Definition HELD_KEYS : FarPointer := wrapping_add BDA 0x18.
Definition HEAD : FarPointer := wrapping_add BDA 0x1a.
Definition TAIL : FarPointer := wrapping_add BDA 0x1c.
Definition BREAK_FLAG : FarPointer := wrapping_add BDA 0x71.
Definition BREAK_DETECTED : Z := 128.
Definition BUFFER_START : FarPointer := wrapping_add BDA 0x80.
Definition BUFFER_END : FarPointer := wrapping_add BDA 0x82.
Definition KEYBOARD_STATUS : FarPointer := wrapping_add BDA 0x96.
Definition DEFAULT_BUFFER_START : Z := 0x1e.
Definition DEFAULT_BUFFER_END : Z := 0x3e.
Definition KEYSTROKE_BYTES : Z := 2.

Record Flags := mkFlags { shifts : ShiftState; held_keys : Z; status : Z }.

Inductive Scan : Set := ScanNone | ScanKey | ControlBreak.
Definition EXTENDED_PREFIX : Z := 0xe0.
Definition PAUSE_PREFIX : Z := 0xe1.
Definition BREAK_BIT : Z := 0x80.
Definition SCROLL_LOCK_SCAN : Z := 0x46.
Definition PAUSE_SUFFIX : list Z := [0x1d; 0x45; 0xe1; 0x9d; 0xc5].

(** [&mut] arguments are results. *)
Definition toggle (state : bool) (held key : Z) (pressed : bool) : bool * Z :=
  (if pressed && negb (contains held key) then negb state else state, set_flag key pressed held).

(** What a key does to the flags, before Ctrl and Alt are gathered from their sides. *)
Definition key_flags (key : Layout.Key) (pressed : bool) (f : Flags) : Flags :=
  let s := shifts f in
  match key with
  | Layout.LeftShift => mkFlags (with_left_shift pressed s) (held_keys f) (status f)
  | Layout.RightShift => mkFlags (with_right_shift pressed s) (held_keys f) (status f)
  | Layout.LeftControl => mkFlags s (set_flag HeldKeys_LEFT_CONTROL pressed (held_keys f)) (status f)
  | Layout.RightControl => mkFlags s (held_keys f) (set_flag KeyboardStatus_RIGHT_CONTROL pressed (status f))
  | Layout.LeftAlt => mkFlags s (set_flag HeldKeys_LEFT_ALT pressed (held_keys f)) (status f)
  | Layout.RightAlt => mkFlags s (held_keys f) (set_flag KeyboardStatus_RIGHT_ALT pressed (status f))
  | Layout.CapsLock =>
      let '(b, held) := toggle (caps_lock s) (held_keys f) HeldKeys_CAPS_LOCK pressed in mkFlags (with_caps_lock b s) held (status f)
  | Layout.NumLock =>
      let '(b, held) := toggle (num_lock s) (held_keys f) HeldKeys_NUM_LOCK pressed in mkFlags (with_num_lock b s) held (status f)
  | Layout.ScrollLock =>
      let '(b, held) := toggle (scroll_lock s) (held_keys f) HeldKeys_SCROLL_LOCK pressed in mkFlags (with_scroll_lock b s) held (status f)
  | Layout.Insert | Layout.Keypad0 =>
      if match key with Layout.Keypad0 => true | _ => false end && numeric_keypad s
      then mkFlags s (set_flag HeldKeys_INSERT pressed (held_keys f)) (status f)
      else let '(b, held) := toggle (insert_ s) (held_keys f) HeldKeys_INSERT pressed in mkFlags (with_insert b s) held (status f)
  | _ => f
  end.

(** Either side keeps Ctrl and Alt active. *)
Definition gather_sides (key : Layout.Key) (f : Flags) : Flags :=
  match key with
  | Layout.LeftControl | Layout.RightControl =>
      mkFlags (with_control (contains (held_keys f) HeldKeys_LEFT_CONTROL || contains (status f) KeyboardStatus_RIGHT_CONTROL) (shifts f))
        (held_keys f) (status f)
  | Layout.LeftAlt | Layout.RightAlt =>
      mkFlags (with_alt (contains (held_keys f) HeldKeys_LEFT_ALT || contains (status f) KeyboardStatus_RIGHT_ALT) (shifts f))
        (held_keys f) (status f)
  | _ => f
  end.

Section Keyboard.
Context {V : Type} `{CM : !ConventionalMemory V CONVENTIONAL_MEMORY_SIZE}.

Definition read_u8 (v : V) (address : Z) : option Z := bytes ← ram_read v address 1; bytes !! 0%nat.
Definition read_u16 (v : V) (address : Z) : option Z := from_le_bytes <$> ram_read v address 2.
Definition write_u8 (v : V) (address value : Z) : option V := ram_write v address [value].
Definition write_u16 (v : V) (address value : Z) : option V := ram_write v address (to_le_bytes 2 value).

Definition data_new (v : V) : option V :=
  v ← write_u16 v (address HEAD) DEFAULT_BUFFER_START;
  v ← write_u16 v (address TAIL) DEFAULT_BUFFER_START;
  v ← write_u16 v (address BUFFER_START) DEFAULT_BUFFER_START;
  v ← write_u16 v (address BUFFER_END) DEFAULT_BUFFER_END;
  v ← write_u8 v (address SHIFT_FLAGS) 0;
  v ← write_u8 v (address HELD_KEYS) 0;
  v ← write_u8 v (address BREAK_FLAG) 0;
  write_u8 v (address KEYBOARD_STATUS) KeyboardStatus_ENHANCED_KEYBOARD.

Definition advance (v : V) (offset : Z) : option Z :=
  let next := wrap 16 (offset + KEYSTROKE_BYTES) in
  stop ← read_u16 v (address BUFFER_END);
  if next =? stop then read_u16 v (address BUFFER_START) else Some next.

Definition data_push (key : KeyStroke) (v : V) : option (bool * V) :=
  tail ← read_u16 v (address TAIL);
  next ← advance v tail;
  head ← read_u16 v (address HEAD);
  if next =? head then Some (false, v)
  else
    v ← ram_write v (address (wrapping_add BDA tail)) [character key; scan_code key];
    v ← write_u16 v (address TAIL) next;
    Some (true, v).

Definition data_peek (v : V) : option (option KeyStroke) :=
  head ← read_u16 v (address HEAD);
  tail ← read_u16 v (address TAIL);
  if head =? tail then Some None
  else
    word ← read_u16 v (address (wrapping_add BDA head));
    Some (Some (mkStroke (byte_of word 0) (byte_of word 1))).

Definition data_read (v : V) : option (option KeyStroke * V) :=
  key ← data_peek v;
  match key with
  | None => Some (None, v)
  | Some key =>
      head ← read_u16 v (address HEAD);
      next ← advance v head;
      v ← write_u16 v (address HEAD) next;
      Some (Some key, v)
  end.

Definition data_discard (v : V) : option V := tail ← read_u16 v (address TAIL); write_u16 v (address HEAD) tail.
Definition data_control_break (v : V) : option V :=
  head ← read_u16 v (address HEAD);
  v ← write_u16 v (address TAIL) head;
  write_u8 v (address BREAK_FLAG) BREAK_DETECTED.

Definition data_flags (v : V) : option Flags :=
  s ← read_u8 v (address SHIFT_FLAGS);
  held ← read_u8 v (address HELD_KEYS);
  status ← read_u8 v (address KEYBOARD_STATUS);
  Some (mkFlags (shifts_from_bits s) held status).
Definition data_set_flags (f : Flags) (v : V) : option V :=
  v ← write_u8 v (address SHIFT_FLAGS) (shifts_bits (shifts f));
  v ← write_u8 v (address HELD_KEYS) (held_keys f);
  write_u8 v (address KEYBOARD_STATUS) (status f).
Definition data_set_shift_state (s : ShiftState) (v : V) : option V :=
  f ← data_flags v;
  data_set_flags
    (mkFlags s (set_flag HeldKeys_LEFT_ALT (alt s) (set_flag HeldKeys_LEFT_CONTROL (control s) (held_keys f)))
      (set_flag (Z.lor KeyboardStatus_RIGHT_CONTROL KeyboardStatus_RIGHT_ALT) false (status f))) v.

(** ** scan.rs

    [Decoder] is the count of bytes left of a Pause sequence. *)

Definition scan (pause_remaining : Z) (byte : Z) (v : V) : option (Scan * Z * V) :=
  f ← data_flags v;
  if negb (pause_remaining =? 0) then
    let pause_remaining := pause_remaining - 1 in
    if pause_remaining =? 0 then
      v ← data_set_flags (mkFlags (shifts f) (held_keys f) (set_flag KeyboardStatus_PAUSE_PREFIX false (status f))) v;
      Some (ScanNone, pause_remaining, v)
    else Some (ScanNone, pause_remaining, v)
  else if byte =? PAUSE_PREFIX then
    v ← data_set_flags (mkFlags (shifts f) (held_keys f)
      (set_flag KeyboardStatus_PAUSE_PREFIX true (set_flag KeyboardStatus_EXTENDED_PREFIX false (status f)))) v;
    Some (ScanNone, Z.of_nat (length PAUSE_SUFFIX), v)
  else if byte =? EXTENDED_PREFIX then
    v ← data_set_flags (mkFlags (shifts f) (held_keys f) (set_flag KeyboardStatus_EXTENDED_PREFIX true (status f))) v;
    Some (ScanNone, pause_remaining, v)
  else
    let extended := contains (status f) KeyboardStatus_EXTENDED_PREFIX in
    let f := mkFlags (shifts f) (held_keys f) (set_flag KeyboardStatus_EXTENDED_PREFIX false (status f)) in
    let pressed := Z.land byte BREAK_BIT =? 0 in
    if extended && (byte =? SCROLL_LOCK_SCAN) && control (shifts f) && negb (alt (shifts f)) then
      v ← data_set_flags f v; Some (ControlBreak, pause_remaining, v)
    else
      match Layout.from_scan (Z.land byte (bnot 8 BREAK_BIT)) extended with
      | None => v ← data_set_flags f v; Some (ScanNone, pause_remaining, v)
      | Some key =>
          let f := gather_sides key (key_flags key pressed f) in
          v ← data_set_flags f v;
          match (if pressed then Layout.keystroke key (shifts f) else None) with
          | None => Some (ScanNone, pause_remaining, v)
          | Some stroke =>
              '(pushed, v) ← data_push stroke v;
              Some (if (pushed : bool) then ScanKey else ScanNone, pause_remaining, v)
          end
      end.

(** ** keyboard.rs

    An operation gives the waker it wakes, after its state is released. *)

Record Input := mkInput { data : V; pause_remaining : Z; waker : option nat }.
Definition keyboard_new (v : V) : option Input := v ← data_new v; Some (mkInput v 0 None).
Definition with_data (v : V) (k : Input) : Input := mkInput v (pause_remaining k) (waker k).

Definition keyboard_scan_code (byte : Z) (k : Input) : option (Scan * option nat * Input) :=
  '(s, remaining, v) ← scan (pause_remaining k) byte (data k);
  Some match s with
       | ScanKey => (s, waker k, mkInput v remaining None)
       | _ => (s, None, mkInput v remaining (waker k))
       end.

Definition store_key (key : KeyStroke) (k : Input) : option (bool * option nat * Input) :=
  '(pushed, v) ← data_push key (data k);
  Some (if pushed : bool then (true, waker k, mkInput v (pause_remaining k) None) else (false, None, with_data v k)).

Definition shift_state (k : Input) : option ShiftState := shifts <$> data_flags (data k).
Definition enhanced_shift_state (k : Input) : option Z :=
  f ← data_flags (data k);
  let held := Z.land (held_keys f)
    (Z.lor (Z.lor (Z.lor (Z.lor HeldKeys_LEFT_CONTROL HeldKeys_LEFT_ALT) HeldKeys_SCROLL_LOCK) HeldKeys_NUM_LOCK) HeldKeys_CAPS_LOCK) in
  let right := Z.land (status f) (Z.lor KeyboardStatus_RIGHT_CONTROL KeyboardStatus_RIGHT_ALT) in
  let sys_request := Z.shiftl (Z.b2z (contains (held_keys f) HeldKeys_SYS_REQUEST)) 7 in
  Some (from_le_bytes [shifts_bits (shifts f); Z.lor (Z.lor held right) sys_request]).
Definition set_shift_state (s : ShiftState) (k : Input) : option Input := v ← data_set_shift_state s (data k); Some (with_data v k).
Definition discard_queued (k : Input) : option Input := v ← data_discard (data k); Some (with_data v k).

(** Rounds discard entries that [mode] cannot express. A round changes the head
    alone, of which there are 65536: a loop of more rounds never ends. *)
Fixpoint peek_loop (fuel : nat) (mode : KeyMode) (v : V) : option (option KeyStroke * V) :=
  match fuel with
  | O => None
  | S fuel =>
      key ← data_peek v;
      match key with
      | None => Some (None, v)
      | Some key =>
          match mode_translate mode key with
          | Some key => Some (Some key, v)
          | None => '(_, v) ← data_read v; peek_loop fuel mode v
          end
      end
  end.
Definition peek_key (mode : KeyMode) (k : Input) : option (option KeyStroke * Input) :=
  '(key, v) ← peek_loop (Z.to_nat 65536) mode (data k); Some (key, with_data v k).
Definition try_read_key (mode : KeyMode) (k : Input) : option (option KeyStroke * Input) :=
  '(key, k) ← peek_key mode k;
  match key with
  | None => Some (None, k)
  | Some key => '(_, v) ← data_read (data k); Some (Some key, with_data v k)
  end.

(** [read_key] between polls: not yet polled, or waiting in [wait_for_key]. A poll
    of the task [task] gives the key or parks in [Waiting]. *)
Inductive Read : Set := Start | Waiting.
Definition wait_for_key (task : nat) (k : Input) : option (bool * Input) :=
  key ← data_peek (data k);
  Some match key with None => (false, mkInput (data k) (pause_remaining k) (Some task)) | Some _ => (true, k) end.
Definition drop_wait (k : Input) : Input := mkInput (data k) (pause_remaining k) None.

(** Rounds of the loop of [read_key] within one poll. *)
Fixpoint read_loop (fuel : nat) (mode : KeyMode) (task : nat) (k : Input) : option (option KeyStroke * Input) :=
  match fuel with
  | O => None
  | S fuel =>
      '(key, k) ← try_read_key mode k;
      match key with
      | Some key => Some (Some key, k)
      | None =>
          '(ready, k) ← wait_for_key task k;
          if ready : bool then read_loop fuel mode task (drop_wait k) else Some (None, k)
      end
  end.
Definition poll_read_key (r : Read) (mode : KeyMode) (task : nat) (k : Input) : option (option KeyStroke * Input) :=
  match r with
  | Start => read_loop 2 mode task k
  | Waiting =>
      '(ready, k) ← wait_for_key task k;
      if ready : bool then read_loop 2 mode task (drop_wait k) else Some (None, k)
  end.

(** [write] of the keyboard: bytes become keystrokes with scan code zero; the
    number of them stored, or [None] for WouldBlock, and the wakers woken. *)
Fixpoint write_from (written : nat) (bytes : list Z) (k : Input) : option (option nat * list nat * Input) :=
  match bytes with
  | [] => Some (Some written, [], k)
  | character :: bytes =>
      '(stored, woken, k) ← store_key (mkStroke character 0) k;
      if stored : bool then
        '(result, woken', k) ← write_from (S written) bytes k; Some (result, option_list woken ++ woken', k)
      else Some (match written with O => None | S _ => Some written end, [], k)
  end.
Definition keyboard_write (bytes : list Z) (k : Input) : option (option nat * list nat * Input) := write_from 0 bytes k.

(** ** irq.rs

    The handler up to the callback of INT 1Bh, and from its return: the byte is what
    the controller has ready, and the result whether the callback is due. *)
Definition interrupt (byte : option Z) (k : Input) : option (bool * option nat * Input) :=
  match byte with
  | None => Some (false, None, k)
  | Some byte =>
      '(s, woken, k) ← keyboard_scan_code byte k;
      match s with
      | ControlBreak => v ← data_control_break (data k); Some (true, woken, with_data v k)
      | _ => Some (false, woken, k)
      end
  end.
Definition interrupt_return (k : Input) : option (bool * option nat * Input) := store_key (mkStroke 0 0) k.
End Keyboard.
Arguments Input : clear implicits.

(** ** physical.rs *)

Record PhysicalKeyboard := mkPhysical { physical_shifts : ShiftState; physical_held : gset KeyCode }.
Definition physical_default : PhysicalKeyboard := mkPhysical no_shifts ∅.

Definition snapshot_sides (active : bool) (left right : KeyCode) (held : gset KeyCode) : gset KeyCode :=
  if negb active then held ∖ {[left]} ∖ {[right]}
  else if bool_decide (left ∉ held) && bool_decide (right ∉ held) then {[left]} ∪ held else held.

Definition toggled (code : KeyCode) (fresh : bool) (s : ShiftState) : ShiftState :=
  if negb fresh then s
  else
    match code with
    | Scancodes.CapsLock => with_caps_lock (negb (caps_lock s)) s
    | Scancodes.NumLock => with_num_lock (negb (num_lock s)) s
    | Scancodes.ScrollLock => with_scroll_lock (negb (scroll_lock s)) s
    | Scancodes.Insert => with_insert (negb (insert_ s)) s
    | Numpad0 => if negb (numeric_keypad s) then with_insert (negb (insert_ s)) s else s
    | _ => s
    end.

Definition held_shifts (held : gset KeyCode) (s : ShiftState) : ShiftState :=
  mkShifts (bool_decide (ShiftRight ∈ held)) (bool_decide (ShiftLeft ∈ held))
    (bool_decide (ControlLeft ∈ held) || bool_decide (ControlRight ∈ held))
    (bool_decide (AltLeft ∈ held) || bool_decide (AltRight ∈ held))
    (scroll_lock s) (num_lock s) (caps_lock s) (insert_ s).

Definition physical_translate (event : KeyboardEvent) (p : PhysicalKeyboard) : option KeyStroke * PhysicalKeyboard :=
  let finish (key : option KeyCode) (shifts : ShiftState) (held : gset KeyCode) :=
    let shifts := held_shifts held shifts in
    (key ← key; key ← Layout.from_physical key; stroke ← Layout.keystroke key shifts; mode_translate Enhanced stroke,
     mkPhysical shifts held) in
  match event with
  | Modifiers m =>
      finish None (physical_shifts p)
        (snapshot_sides (alt_key m) AltLeft AltRight
          (snapshot_sides (control_key m) ControlLeft ControlRight
            (snapshot_sides (shift_key m) ShiftLeft ShiftRight (physical_held p))))
  | FocusLost => finish None (physical_shifts p) ∅
  | Unidentified => (None, p)
  | Key code pressed =>
      let fresh := pressed && bool_decide (code ∉ physical_held p) in
      finish (if pressed then Some code else None) (toggled code fresh (physical_shifts p))
        (if pressed then {[code]} ∪ physical_held p else physical_held p ∖ {[code]})
  end.
