(* ===== verification/BiosKeyboardTheorems.v ===== *)
(** * BIOS keyboard: properties

    The operations on guest memory refine a bounded queue of keystrokes beside
    plain flags; a parked reader is woken; the bytes of a key decode to the keystroke
    the native translator gives. *)

From S2P Require Import Prelude Bytes IoBus PhysMemory Scancodes Keyboard BiosKeyboard.
Local Open Scope Z_scope.

#[local] Arguments set_flag : simpl never.

(** ** Flags *)

Lemma contains_flag i bits : 0 <= i -> contains bits (2 ^ i) = Z.testbit bits i.
Proof.
  intros Hi. unfold contains. destruct (Z.testbit bits i) eqn:E; [apply Z.eqb_eq|apply Z.eqb_neq].
  - apply Z.bits_inj'. intros j Hj. rewrite Z.land_spec, Z.pow2_bits_eqb by lia.
    destruct (Z.eqb_spec i j) as [<-|]; [by rewrite E|apply andb_false_r].
  - intros H. assert (Z.testbit (2 ^ i) i = true) as Hb by (by apply Z.pow2_bits_true). by rewrite <- H, Z.land_spec, E in Hb.
Qed.
Lemma set_flag_bit i j value bits : 0 <= i < 8 -> 0 <= j < 8 ->
  Z.testbit (set_flag (2 ^ i) value bits) j = if i =? j then value else Z.testbit bits j.
Proof.
  intros Hi Hj. unfold set_flag. destruct value; rewrite ?Z.lor_spec, ?Z.land_spec, ?testbit_bnot, Z.pow2_bits_eqb by lia;
    destruct (Z.eqb_spec i j), (Z.ltb_spec j 8), (Z.testbit bits j); done || lia.
Qed.
Lemma set_flag_fits flag value bits : fits 8 flag -> fits 8 bits -> fits 8 (set_flag flag value bits).
Proof. intros. unfold set_flag. destruct value; [by apply fits_lor|by apply fits_land_l]. Qed.
Lemma shifts_roundtrip s : shifts_from_bits (shifts_bits s) = s.
Proof. by destruct s as [[] [] [] [] [] [] [] []]. Qed.
Lemma shifts_bits_fits s : fits 8 (shifts_bits s).
Proof. destruct s as [[] [] [] [] [] [] [] []]; by split. Qed.

(** ** Words of the data area *)

Lemma addresses_1 a : addresses a 1 = [a].
Proof. unfold addresses. change (seq 0 (Z.to_nat 1)) with [0%nat]. rewrite !fmap_cons, fmap_nil. f_equal. lia. Qed.
Lemma addresses_2 a : addresses a 2 = [a; a + 1].
Proof. unfold addresses. change (seq 0 (Z.to_nat 2)) with [0%nat; 1%nat]. rewrite !fmap_cons, fmap_nil. f_equal. lia. Qed.

Section Memory.
Context {V : Type} `{CM : !ConventionalMemory V CONVENTIONAL_MEMORY_SIZE}.
#[local] Set Default Proof Using "All".

(** The byte and the word at an offset of segment 40h. *)
Definition bda_byte (v : V) (o : Z) : Z := ram_byte v (0x400 + o).
Definition bda_word (v : V) (o : Z) : Z := from_le_bytes [bda_byte v o; bda_byte v (o + 1)].

Definition in_bda (o : Z) : Prop := 0 <= o < 2 ^ 16.
Lemma bda_address o : in_bda o -> address (wrapping_add BDA o) = 0x400 + o.
Proof. intros H. unfold address, wrapping_add, BDA, segment_base. cbn [segment offset]. rewrite Z.add_0_l, wrap_small by done. done. Qed.

Lemma bda_byte_fits v o : ram_ok v -> 0 <= o <= 2 ^ 16 -> fits 8 (bda_byte v o).
Proof. intros Hok Ho. apply ram_byte_fits; [done|]. change CONVENTIONAL_MEMORY_SIZE with 655360. lia. Qed.
Lemma bda_word_fits v o : ram_ok v -> in_bda o -> fits 16 (bda_word v o).
Proof. intros Hok [? ?]. apply (from_le_bytes_fits _ 2); [|done]. repeat constructor; apply bda_byte_fits; done || lia. Qed.

Lemma read_u8_bda v o : ram_ok v -> in_bda o -> read_u8 v (0x400 + o) = Some (bda_byte v o).
Proof.
  intros Hok [? ?]. unfold read_u8. rewrite ram_read_spec by (done || change CONVENTIONAL_MEMORY_SIZE with 655360; lia).
  by rewrite addresses_1.
Qed.
Lemma read_u16_bda v o : ram_ok v -> in_bda o -> read_u16 v (0x400 + o) = Some (bda_word v o).
Proof.
  intros Hok [? ?]. unfold read_u16. rewrite ram_read_spec by (done || change CONVENTIONAL_MEMORY_SIZE with 655360; lia).
  rewrite addresses_2. unfold bda_word, bda_byte. by rewrite Z.add_assoc.
Qed.

(** [v'] is [v] with [bytes] from the offset [o] on. *)
Definition written (v v' : V) (o : Z) (bytes : list Z) : Prop :=
  ram_ok v' /\ forall p, 0 <= p <= 2 ^ 16 ->
    bda_byte v' p = if (o <=? p) && (p <? o + Z.of_nat (length bytes)) then default 0 (bytes !! Z.to_nat (p - o)) else bda_byte v p.
Lemma write_bda v o bytes : ram_ok v -> in_bda o -> (length bytes <= 2)%nat -> bytes_ok bytes ->
  exists v', ram_write v (0x400 + o) bytes = Some v' /\ written v v' o bytes.
Proof.
  intros Hok [? ?] Hl Hb. destruct (ram_write_spec v (0x400 + o) bytes) as (v' & Hw & Hok' & Hv'); [done|lia| |done|].
  { change CONVENTIONAL_MEMORY_SIZE with 655360. lia. }
  exists v'. split; [done|]. split; [done|]. intros p Hp. unfold bda_byte.
  rewrite Hv' by (change CONVENTIONAL_MEMORY_SIZE with 655360; lia).
  replace (0x400 + p - (0x400 + o)) with (p - o) by lia.
  destruct (Z.leb_spec o p), (Z.ltb_spec p (o + Z.of_nat (length bytes))), (Z.leb_spec (0x400 + o) (0x400 + p)),
    (Z.ltb_spec (0x400 + p) (0x400 + o + Z.of_nat (length bytes))); done || lia.
Qed.

Lemma write_u16_bda v o x : ram_ok v -> in_bda o -> exists v', ram_write v (0x400 + o) (to_le_bytes 2 x) = Some v' /\ written v v' o (to_le_bytes 2 x).
Proof. intros. apply write_bda; [done..|apply to_le_bytes_ok]. Qed.
Lemma write_u8_bda v o x : ram_ok v -> in_bda o -> fits 8 x -> exists v', ram_write v (0x400 + o) [x] = Some v' /\ written v v' o [x].
Proof. intros. apply write_bda; [done..|cbn; lia|]. by constructor; [|constructor]. Qed.

(** Bytes outside a write stay, and so do words. *)
Lemma written_other v v' o bytes p : written v v' o bytes -> 0 <= p <= 2 ^ 16 -> p < o \/ o + Z.of_nat (length bytes) <= p ->
  bda_byte v' p = bda_byte v p.
Proof. intros [_ H] Hp Ho. rewrite H by done. destruct (Z.leb_spec o p), (Z.ltb_spec p (o + Z.of_nat (length bytes))); done || lia. Qed.
Lemma written_other_word v v' o bytes p : written v v' o bytes -> in_bda p -> p + 1 < o \/ o + Z.of_nat (length bytes) <= p ->
  bda_word v' p = bda_word v p.
Proof. intros H [? ?] Ho. unfold bda_word. by rewrite !(written_other _ _ _ _ _ H) by lia. Qed.
Lemma written_first v v' o a bytes : written v v' o (a :: bytes) -> in_bda o -> bda_byte v' o = a.
Proof.
  intros [_ H] [? ?]. rewrite H by lia. cbn [length]. rewrite Z.leb_refl, Z.sub_diag.
  by destruct (Z.ltb_spec o (o + Z.of_nat (S (length bytes)))); [|lia].
Qed.
Lemma written_second v v' o a b : written v v' o [a; b] -> in_bda o -> bda_byte v' (o + 1) = b.
Proof.
  intros [_ H] [? ?]. rewrite H by lia. cbn [length]. replace (o + 1 - o) with 1 by lia.
  by destruct (Z.leb_spec o (o + 1)), (Z.ltb_spec (o + 1) (o + Z.of_nat 2)); [|lia..].
Qed.
Lemma written_word v v' o x : written v v' o (to_le_bytes 2 x) -> in_bda o -> fits 16 x -> bda_word v' o = x.
Proof.
  intros H Ho Hx. change (to_le_bytes 2 x) with [byte_of x 0; byte_of x 1] in H. unfold bda_word.
  rewrite (written_first _ _ _ _ _ H Ho), (written_second _ _ _ _ _ H Ho). by apply (from_to_le_bytes 2).
Qed.
End Memory.

Lemma bytes_1 a : fits 8 a -> bytes_ok [a].
Proof. intros. constructor; [done|constructor]. Qed.
Lemma bytes_2 a b : fits 8 a -> fits 8 b -> bytes_ok [a; b].
Proof. intros. constructor; [done|by apply bytes_1]. Qed.

(** ** The ring *)

(** Bytes with a meaning of their own, and a ring of [n] words at [s] beside them. *)
Definition field (o : Z) : Prop := o = 0x17 \/ o = 0x18 \/ 0x1a <= o <= 0x1d \/ o = 0x71 \/ 0x80 <= o <= 0x83 \/ o = 0x96.
Definition placed (s n : Z) : Prop := 0 <= s /\ 0 < n /\ s + 2 * n < 2 ^ 16 /\ forall o, field o -> o < s \/ s + 2 * n <= o.

Definition slot (s n i : Z) : Z := s + 2 * (i mod n).

Lemma slot_range s n i : placed s n -> s <= slot s n i /\ slot s n i + 1 < s + 2 * n.
Proof. intros (_ & Hn & _). unfold slot. pose proof (Z.mod_pos_bound i n Hn). lia. Qed.
Lemma slot_small s n i : 0 <= i < n -> slot s n i = s + 2 * i.
Proof. intros. unfold slot. by rewrite Z.mod_small. Qed.
Lemma slot_succ s n i : 0 < n -> slot s n (i mod n + 1) = slot s n (i + 1).
Proof. intros. unfold slot. by rewrite Zplus_mod_idemp_l. Qed.
Lemma slot_apart s n i j : 0 < n -> i <= j < i + n -> slot s n i = slot s n j -> i = j.
Proof.
  unfold slot. intros Hn Hij H. assert (i mod n = j mod n) as E by lia.
  pose proof (Z.div_mod i n ltac:(lia)). pose proof (Z.div_mod j n ltac:(lia)). rewrite E in *.
  assert (n * (j / n - i / n) = j - i) by lia. assert (j / n - i / n = 0) by nia. lia.
Qed.

Section Ring.
Context {V : Type} `{CM : !ConventionalMemory V CONVENTIONAL_MEMORY_SIZE}.
#[local] Set Default Proof Using "All".

(** The words from the head hold the queue. *)
Record Ring (v : V) (s n h : Z) (q : list KeyStroke) : Prop := {
  ring_start : bda_word v 0x80 = s;
  ring_end : bda_word v 0x82 = s + 2 * n;
  ring_head : bda_word v 0x1a = slot s n h;
  ring_tail : bda_word v 0x1c = slot s n (h + Z.of_nat (length q));
  ring_room : Z.of_nat (length q) < n;
  ring_stored : forall i key, q !! i = Some key ->
    bda_byte v (slot s n (h + Z.of_nat i)) = character key /\ bda_byte v (slot s n (h + Z.of_nat i) + 1) = scan_code key }.

(** The flags are as they were. *)
Definition kept (v v' : V) : Prop :=
  ram_ok v' /\ bda_byte v' 0x17 = bda_byte v 0x17 /\ bda_byte v' 0x18 = bda_byte v 0x18 /\ bda_byte v' 0x96 = bda_byte v 0x96.
Lemma kept_trans v1 v2 v3 : kept v1 v2 -> kept v2 v3 -> kept v1 v3.
Proof. intros (_ & ? & ? & ?) (? & ? & ? & ?). split_and!; congruence. Qed.

Definition ring_byte (s n p : Z) : Prop := s <= p < s + 2 * n \/ 0x1a <= p <= 0x1d \/ 0x80 <= p <= 0x83.
Lemma ring_same v v' s n h q : placed s n -> (forall p, ring_byte s n p -> bda_byte v' p = bda_byte v p) -> Ring v s n h q -> Ring v' s n h q.
Proof.
  intros Hp Hs [Hst He Hh Ht Hr Hk]. assert (forall p, 0x1a <= p <= 0x1c \/ 0x80 <= p <= 0x82 -> bda_word v' p = bda_word v p) as Hw.
  { intros p Hb. unfold bda_word. rewrite !Hs by (unfold ring_byte; lia). done. }
  split; rewrite ?Hw by lia; try done. intros i key Hi. destruct (slot_range s n (h + Z.of_nat i) Hp).
  rewrite !Hs by (unfold ring_byte; lia). by apply Hk.
Qed.

Lemma written_kept v v' o bytes : written v v' o bytes -> in_bda o ->
  (forall p, o <= p < o + Z.of_nat (length bytes) -> p <> 0x17 /\ p <> 0x18 /\ p <> 0x96) -> kept v v'.
Proof.
  intros Hw Ho Hp. split; [apply Hw|]. split_and!; apply (written_other _ _ _ _ _ Hw); try lia.
  - destruct (Z.lt_ge_cases 0x17 o); [by left|]. right. destruct (Z.lt_ge_cases 0x17 (o + Z.of_nat (length bytes))); [|done].
    by destruct (Hp 0x17 ltac:(lia)).
  - destruct (Z.lt_ge_cases 0x18 o); [by left|]. right. destruct (Z.lt_ge_cases 0x18 (o + Z.of_nat (length bytes))); [|done].
    by destruct (Hp 0x18 ltac:(lia)) as (_ & ? & _).
  - destruct (Z.lt_ge_cases 0x96 o); [by left|]. right. destruct (Z.lt_ge_cases 0x96 (o + Z.of_nat (length bytes))); [|done].
    by destruct (Hp 0x96 ltac:(lia)) as (_ & _ & ?).
Qed.

Lemma ring_advance v s n h q i : ram_ok v -> placed s n -> Ring v s n h q -> advance v (slot s n i) = Some (slot s n (i + 1)).
Proof.
  intros Hok (Hs & Hn & Hb & _) [Hst He _ _ _ _]. rewrite <- (slot_succ s n i) by done. unfold slot at 1.
  pose proof (Z.mod_pos_bound i n Hn). set (j := i mod n) in *. unfold advance, KEYSTROKE_BYTES.
  change (address BUFFER_END) with (0x400 + 0x82). change (address BUFFER_START) with (0x400 + 0x80).
  rewrite !read_u16_bda by done. rewrite He, Hst. cbn [mbind option_bind]. rewrite wrap_small by (unfold fits; lia).
  destruct (Z.eqb_spec (s + 2 * j + 2) (s + 2 * n)); f_equal.
  - replace (j + 1) with n by lia. unfold slot. rewrite Z.mod_same by lia. lia.
  - rewrite slot_small by lia. lia.
Qed.

Lemma slot_in_bda s n i : placed s n -> in_bda (slot s n i).
Proof. intros Hp. destruct (slot_range s n i Hp), Hp as (? & ? & ? & _). unfold in_bda. lia. Qed.
Lemma slot_fits s n i : placed s n -> fits 16 (slot s n i).
Proof. apply slot_in_bda. Qed.
Lemma slot_not_field s n i p : placed s n -> slot s n i <= p <= slot s n i + 1 -> ~ field p.
Proof. intros Hp Hr Hf. destruct (slot_range s n i Hp), Hp as (_ & _ & _ & Haway). destruct (Haway p Hf); lia. Qed.

(** Moving the head or the tail. *)
Lemma write_pointer v s n h q o i : ram_ok v -> placed s n -> Ring v s n h q -> o = 0x1a \/ o = 0x1c ->
  exists v', write_u16 v (0x400 + o) (slot s n i) = Some v' /\ kept v v' /\ bda_word v' o = slot s n i /\
    (forall p, p <> o -> p <> o + 1 -> 0 <= p <= 2 ^ 16 -> bda_byte v' p = bda_byte v p).
Proof.
  intros Hok Hp Hr Ho. assert (in_bda o) as Hin by (unfold in_bda; lia).
  destruct (write_bda v o (to_le_bytes 2 (slot s n i)) Hok Hin) as (v' & Hw & Hv'); [done|apply to_le_bytes_ok|].
  exists v'. split; [done|]. split; [|split].
  - apply (written_kept _ _ _ _ Hv' Hin). rewrite length_to_le_bytes. lia.
  - apply (written_word _ _ _ _ Hv' Hin). by apply slot_fits.
  - intros p ???. apply (written_other _ _ _ _ _ Hv'); [done|]. rewrite length_to_le_bytes. lia.
Qed.

(** *** The operations on the ring *)

Definition bounded_push (n : Z) (key : KeyStroke) (q : list KeyStroke) : bool * list KeyStroke :=
  if Z.of_nat (length q) + 1 <? n then (true, q ++ [key]) else (false, q).
Definition stroke_ok (key : KeyStroke) : Prop := fits 8 (character key) /\ fits 8 (scan_code key).

Lemma ring_push v s n h q key : ram_ok v -> placed s n -> Ring v s n h q -> stroke_ok key ->
  exists v', data_push key v = Some ((bounded_push n key q).1, v') /\ kept v v' /\ Ring v' s n h (bounded_push n key q).2.
Proof.
  intros Hok Hp Hr Hkey. pose proof Hr as [Hst He Hh Ht Hroom Hstored]. assert (0 < n) as Hn by apply Hp.
  unfold data_push. change (address TAIL) with (0x400 + 0x1c). change (address HEAD) with (0x400 + 0x1a).
  rewrite !read_u16_bda by done. cbn [mbind option_bind]. rewrite Ht, (ring_advance v s n h q) by done. cbn [mbind option_bind].
  rewrite Hh. unfold bounded_push. destruct (Z.ltb_spec (Z.of_nat (length q) + 1) n) as [Hl|Hl]; cbn [fst snd].
  2:{ exists v. assert (slot s n (h + Z.of_nat (length q) + 1) = slot s n h) as ->.
      { replace (h + Z.of_nat (length q) + 1) with (h + 1 * n) by lia. unfold slot. by rewrite Z.mod_add by lia. }
      rewrite Z.eqb_refl. split; [done|]. by split_and!. }
  destruct (Z.eqb_spec (slot s n (h + Z.of_nat (length q) + 1)) (slot s n h)) as [E|_].
  { symmetry in E. apply slot_apart in E; lia. }
  rewrite bda_address by (by apply slot_in_bda).
  destruct (write_bda v (slot s n (h + Z.of_nat (length q))) [character key; scan_code key] Hok) as (v1 & -> & Hv1);
    [by apply slot_in_bda|done|by apply bytes_2; apply Hkey|].
  pose proof (slot_in_bda s n (h + Z.of_nat (length q)) Hp) as Hin.
  assert (kept v v1) as Hk1.
  { apply (written_kept _ _ _ _ Hv1 Hin). cbn [length]. intros p Hb. pose proof (slot_not_field s n (h + Z.of_nat (length q)) p Hp ltac:(lia)) as Hf. unfold field in Hf. lia. }
  assert (forall p, field p -> 0 <= p -> bda_byte v1 p = bda_byte v p) as Hfield.
  { intros p Hf Hpos. apply (written_other _ _ _ _ _ Hv1); [unfold field in Hf; lia|]. cbn [length].
    destruct (decide (slot s n (h + Z.of_nat (length q)) <= p <= slot s n (h + Z.of_nat (length q)) + 1)); [|lia].
    by destruct (slot_not_field s n (h + Z.of_nat (length q)) p Hp). }
  assert (Ring v1 s n h q) as Hr1.
  { split; unfold bda_word; rewrite ?Hfield by (unfold field; lia); try done. intros i k Hi.
    pose proof (lookup_lt_Some _ _ _ Hi). rewrite !(written_other _ _ _ _ _ Hv1); [by apply Hstored|..];
      destruct (slot_in_bda s n (h + Z.of_nat i) Hp); try lia; cbn [length];
      assert (slot s n (h + Z.of_nat i) <> slot s n (h + Z.of_nat (length q))) by (intros E; apply slot_apart in E; lia);
      unfold slot in *; lia. }
  cbn [mbind option_bind]. destruct (write_pointer v1 s n h q 0x1c (h + Z.of_nat (length q) + 1)) as (v2 & -> & Hk2 & Hw2 & Ho2); [apply Hk1|done..|by right|].
  exists v2. split; [done|]. split; [by eapply kept_trans|].
  assert (forall p, ring_byte s n p -> p <> 0x1c -> p <> 0x1d -> bda_byte v2 p = bda_byte v1 p) as Hsame.
  { intros p Hb ??. apply Ho2; try lia. destruct Hp as (? & ? & ? & _). unfold ring_byte in Hb. lia. }
  destruct Hr1 as [Hst1 He1 Hh1 _ _ Hk1']. split.
  - unfold bda_word in *. by rewrite !Hsame by (unfold ring_byte; lia).
  - unfold bda_word in *. by rewrite !Hsame by (unfold ring_byte; lia).
  - unfold bda_word in *. by rewrite !Hsame by (unfold ring_byte; lia).
  - rewrite Hw2, length_app. f_equal. cbn [length]. lia.
  - rewrite length_app. cbn [length]. lia.
  - intros i k Hi.
    assert (forall j, bda_byte v2 (slot s n j) = bda_byte v1 (slot s n j) /\ bda_byte v2 (slot s n j + 1) = bda_byte v1 (slot s n j + 1)) as Hslot.
    { intros j. destruct (slot_range s n j Hp).
      assert (forall p, slot s n j <= p <= slot s n j + 1 -> p <> 0x1c /\ p <> 0x1d).
      { intros p Hb. pose proof (slot_not_field s n j p Hp Hb) as Hf. unfold field in Hf. lia. }
      split; apply Hsame; try (left; lia); match goal with H : forall p, _ |- ?x <> _ => destruct (H x ltac:(lia)); done end. }
    destruct (Hslot (h + Z.of_nat i)) as [-> ->]. apply lookup_app_Some in Hi as [Hi|[Hge Hi]]; [by apply Hk1'|].
    destruct (i - length q)%nat eqn:E; [|done]. injection Hi as <-. replace i with (length q) by lia.
    split; [by apply (written_first _ _ _ _ _ Hv1)|by apply (written_second _ _ _ _ _ Hv1)].
Qed.

Lemma ring_peek v s n h q : ram_ok v -> placed s n -> Ring v s n h q -> Forall stroke_ok q -> data_peek v = Some (head q).
Proof.
  intros Hok Hp [Hst He Hh Ht Hroom Hstored] Hq. assert (0 < n) as Hn by apply Hp. unfold data_peek.
  change (address TAIL) with (0x400 + 0x1c). change (address HEAD) with (0x400 + 0x1a).
  rewrite !read_u16_bda by done. cbn [mbind option_bind]. rewrite Hh, Ht. destruct q as [|key q].
  { cbn [length]. by rewrite Z.add_0_r, Z.eqb_refl. }
  destruct (Z.eqb_spec (slot s n h) (slot s n (h + Z.of_nat (length (key :: q))))) as [E|_].
  { apply slot_apart in E; cbn [length] in *; lia. }
  rewrite bda_address, read_u16_bda by (done || by apply slot_in_bda). cbn [mbind option_bind head].
  destruct (Hstored 0%nat key eq_refl) as [Hc Hs]. rewrite Z.add_0_r in Hc, Hs. inversion_clear Hq as [|?? [Hck Hsk] _].
  unfold bda_word. rewrite Hc, Hs, !byte_of_from_le_bytes by (by apply bytes_2). by destruct key.
Qed.

Lemma ring_read v s n h q : ram_ok v -> placed s n -> Ring v s n h q -> Forall stroke_ok q ->
  exists v' h', data_read v = Some (head q, v') /\ kept v v' /\ Ring v' s n h' (tail q).
Proof.
  intros Hok Hp Hr Hq. pose proof Hr as [Hst He Hh Ht Hroom Hstored]. unfold data_read. rewrite (ring_peek v s n h q) by done.
  cbn [mbind option_bind]. destruct q as [|key q]; cbn [head tail]; [by exists v, h|].
  change (address HEAD) with (0x400 + 0x1a). rewrite read_u16_bda by done. cbn [mbind option_bind].
  rewrite Hh, (ring_advance v s n h (key :: q)) by done. cbn [mbind option_bind].
  destruct (write_pointer v s n h (key :: q) 0x1a (h + 1)) as (v2 & -> & Hk2 & Hw2 & Ho2); [done..|by left|].
  exists v2, (h + 1). split; [done|]. split; [done|]. cbn [length] in *.
  assert (forall p, ring_byte s n p -> p <> 0x1a -> p <> 0x1b -> bda_byte v2 p = bda_byte v p) as Hsame.
  { intros p Hb ??. apply Ho2; try lia. destruct Hp as (? & ? & ? & _). unfold ring_byte in Hb. lia. }
  split; [by unfold bda_word in *; rewrite !Hsame by (unfold ring_byte; lia)..|done| | |].
  - replace (h + 1 + Z.of_nat (length q)) with (h + Z.of_nat (S (length q))) by lia. rewrite <- Ht.
    unfold bda_word. by rewrite !Hsame by (unfold ring_byte; lia).
  - lia.
  - intros i k Hi. replace (h + 1 + Z.of_nat i) with (h + Z.of_nat (S i)) by lia. destruct (slot_range s n (h + Z.of_nat (S i)) Hp).
    assert (forall p, slot s n (h + Z.of_nat (S i)) <= p <= slot s n (h + Z.of_nat (S i)) + 1 -> p <> 0x1a /\ p <> 0x1b) as Hne.
    { intros p Hb. pose proof (slot_not_field s n (h + Z.of_nat (S i)) p Hp Hb) as Hf. unfold field in Hf. lia. }
    rewrite !Hsame; [by apply (Hstored (S i))|..]; try (left; lia); match goal with |- ?x <> _ => destruct (Hne x ltac:(lia)); done end.
Qed.

(** Emptying the ring from either end. *)
Lemma ring_empty v s n h q o i : ram_ok v -> placed s n -> Ring v s n h q -> o = 0x1a /\ i = h + Z.of_nat (length q) \/ o = 0x1c /\ i = h ->
  exists v', write_u16 v (0x400 + o) (slot s n i) = Some v' /\ kept v v' /\ Ring v' s n i [].
Proof.
  intros Hok Hp Hr Ho. destruct (write_pointer v s n h q o i) as (v2 & Hw & Hk2 & Hw2 & Ho2); [done..|lia|].
  exists v2. split; [done|]. split; [done|]. destruct Hr as [Hst He Hh Ht _ _].
  assert (forall p, 0x1a <= p <= 0x1d \/ 0x80 <= p <= 0x83 -> p <> o -> p <> o + 1 -> bda_byte v2 p = bda_byte v p) as Hsame.
  { intros. apply Ho2; lia. }
  split; cbn [length]; rewrite ?Z.add_0_r; [..|apply Hp|done].
  - unfold bda_word. by rewrite !Hsame by lia.
  - unfold bda_word. by rewrite !Hsame by lia.
  - destruct Ho as [[-> ->]|[-> ->]]; [done|]. rewrite <- Hh. unfold bda_word. by rewrite !Hsame by lia.
  - destruct Ho as [[-> ->]|[-> ->]]; [|done]. rewrite <- Ht. unfold bda_word. by rewrite !Hsame by lia.
Qed.
Lemma ring_discard v s n h q : ram_ok v -> placed s n -> Ring v s n h q ->
  exists v' h', data_discard v = Some v' /\ kept v v' /\ Ring v' s n h' [].
Proof.
  intros Hok Hp Hr. unfold data_discard. change (address TAIL) with (0x400 + 0x1c). change (address HEAD) with (0x400 + 0x1a).
  rewrite read_u16_bda by done. cbn [mbind option_bind]. rewrite (ring_tail _ _ _ _ _ Hr).
  destruct (ring_empty v s n h q 0x1a (h + Z.of_nat (length q))) as (v' & ? & ? & ?); [done..|lia|]. by exists v', (h + Z.of_nat (length q)).
Qed.
Lemma ring_control_break v s n h q : ram_ok v -> placed s n -> Ring v s n h q ->
  exists v', data_control_break v = Some v' /\ kept v v' /\ Ring v' s n h [].
Proof.
  intros Hok Hp Hr. unfold data_control_break. change (address TAIL) with (0x400 + 0x1c). change (address HEAD) with (0x400 + 0x1a).
  rewrite read_u16_bda by done. cbn [mbind option_bind]. rewrite (ring_head _ _ _ _ _ Hr).
  destruct (ring_empty v s n h q 0x1c h) as (v1 & -> & Hk1 & Hr1); [done..|lia|]. cbn [mbind option_bind].
  change (address BREAK_FLAG) with (0x400 + 0x71). unfold write_u8.
  destruct (write_bda v1 0x71 [BREAK_DETECTED] (proj1 Hk1)) as (v2 & -> & Hv2); [done|cbn; lia|by apply bytes_1|].
  exists v2. split; [done|]. split.
  - eapply kept_trans; [done|]. apply (written_kept _ _ _ _ Hv2); [done|]. cbn [length]. lia.
  - apply (ring_same v1); [done| |done]. intros p Hb. apply (written_other _ _ _ _ _ Hv2);
      destruct Hp as (? & ? & ? & Haway); pose proof (Haway 0x71 ltac:(unfold field; lia)); unfold ring_byte in Hb; cbn [length]; lia.
Qed.
End Ring.

(** ** The queue and the flags a memory holds *)

Definition flags_ok (f : Flags) : Prop := fits 8 (held_keys f) /\ fits 8 (status f).

Section Holds.
Context {V : Type} `{CM : !ConventionalMemory V CONVENTIONAL_MEMORY_SIZE} (s n : Z) (Hplaced : placed s n).
#[local] Set Default Proof Using "All".

Record holds (v : V) (f : Flags) (q : list KeyStroke) : Prop := {
  held_ok : ram_ok v;
  held_ring : exists h, Ring v s n h q;
  held_strokes : Forall stroke_ok q;
  held_flags : data_flags v = Some f }.

Lemma data_flags_bda v : ram_ok v ->
  data_flags v = Some (mkFlags (shifts_from_bits (bda_byte v 0x17)) (bda_byte v 0x18) (bda_byte v 0x96)).
Proof.
  intros Hok. unfold data_flags. change (address SHIFT_FLAGS) with (0x400 + 0x17). change (address HELD_KEYS) with (0x400 + 0x18).
  change (address KEYBOARD_STATUS) with (0x400 + 0x96). by rewrite !read_u8_bda by done.
Qed.
Lemma kept_flags v v' : ram_ok v -> kept v v' -> data_flags v' = data_flags v.
Proof. intros Hok (Hok' & H1 & H2 & H3). by rewrite !data_flags_bda, H1, H2, H3 by done. Qed.
Lemma holds_flags_ok v f q : holds v f q -> flags_ok f.
Proof.
  intros [Hok _ _ Hf]. rewrite data_flags_bda in Hf by done. injection Hf as <-. split; cbn; by apply bda_byte_fits.
Qed.
Lemma holds_kept v v' f q h' q' : holds v f q -> kept v v' -> Ring v' s n h' q' -> Forall stroke_ok q' -> holds v' f q'.
Proof. intros [Hok _ _ Hf] Hk Hr Hq. split; [apply Hk|by exists h'|done|]. by rewrite (kept_flags v v'). Qed.

Lemma bounded_push_ok key q : stroke_ok key -> Forall stroke_ok q -> Forall stroke_ok (bounded_push n key q).2.
Proof. intros Hk Hq. unfold bounded_push. case_match; cbn; [|done]. apply Forall_app. by repeat constructor; try apply Hk. Qed.

Lemma holds_push v f q key : holds v f q -> stroke_ok key ->
  exists v', data_push key v = Some ((bounded_push n key q).1, v') /\ holds v' f (bounded_push n key q).2.
Proof.
  intros Hh Hk. pose proof Hh as [Hok [h Hr] Hq _]. destruct (ring_push v s n h q key) as (v' & Hp & Hkept & Hr'); [done..|].
  exists v'. split; [done|]. eapply holds_kept; [done..|]. by apply bounded_push_ok.
Qed.
Lemma holds_peek v f q : holds v f q -> data_peek v = Some (head q).
Proof. intros [Hok [h Hr] Hq _]. by apply (ring_peek v s n h). Qed.
Lemma holds_read v f q : holds v f q -> exists v', data_read v = Some (head q, v') /\ holds v' f (tail q).
Proof.
  intros Hh. pose proof Hh as [Hok [h Hr] Hq _]. destruct (ring_read v s n h q) as (v' & h' & Hp & Hkept & Hr'); [done..|].
  exists v'. split; [done|]. eapply holds_kept; [done..|]. by inversion Hq.
Qed.
Lemma holds_discard v f q : holds v f q -> exists v', data_discard v = Some v' /\ holds v' f [].
Proof.
  intros Hh. pose proof Hh as [Hok [h Hr] Hq _]. destruct (ring_discard v s n h q) as (v' & h' & Hp & Hkept & Hr'); [done..|].
  exists v'. split; [done|]. eapply holds_kept; [done..|constructor].
Qed.
Lemma holds_control_break v f q : holds v f q -> exists v', data_control_break v = Some v' /\ holds v' f [].
Proof.
  intros Hh. pose proof Hh as [Hok [h Hr] Hq _]. destruct (ring_control_break v s n h q) as (v' & Hp & Hkept & Hr'); [done..|].
  exists v'. split; [done|]. eapply holds_kept; [done..|constructor].
Qed.

(** Flags lie outside the ring. *)
Lemma flag_write v h q o x : ram_ok v -> Ring v s n h q -> o = 0x17 \/ o = 0x18 \/ o = 0x96 -> fits 8 x ->
  exists v', write_u8 v (0x400 + o) x = Some v' /\ ram_ok v' /\ Ring v' s n h q /\
    forall p, p = 0x17 \/ p = 0x18 \/ p = 0x96 -> bda_byte v' p = if p =? o then x else bda_byte v p.
Proof.
  intros Hok Hr Ho Hx. assert (in_bda o) as Hin by (unfold in_bda; lia). unfold write_u8.
  destruct (write_bda v o [x] Hok Hin) as (v' & -> & Hw); [cbn; lia|by apply bytes_1|]. exists v'. split; [done|]. split; [apply Hw|]. split.
  - apply (ring_same v); [done| |done]. intros p Hb. apply (written_other _ _ _ _ _ Hw);
      destruct Hplaced as (? & ? & ? & Haway); pose proof (Haway o ltac:(unfold field; lia)); unfold ring_byte in Hb; cbn [length]; lia.
  - intros p Hp. destruct (Z.eqb_spec p o) as [->|]; [by apply (written_first _ _ _ _ _ Hw)|].
    apply (written_other _ _ _ _ _ Hw); cbn [length]; lia.
Qed.
Lemma holds_set_flags v f q f' : holds v f q -> flags_ok f' -> exists v', data_set_flags f' v = Some v' /\ holds v' f' q.
Proof.
  intros [Hok [h Hr] Hq _] [Hheld Hst]. unfold data_set_flags. change (address SHIFT_FLAGS) with (0x400 + 0x17).
  change (address HELD_KEYS) with (0x400 + 0x18). change (address KEYBOARD_STATUS) with (0x400 + 0x96).
  destruct (flag_write v h q 0x17 (shifts_bits (shifts f'))) as (v1 & -> & Hok1 & Hr1 & H1); [done..|lia|apply shifts_bits_fits|].
  cbn [mbind option_bind]. destruct (flag_write v1 h q 0x18 (held_keys f')) as (v2 & -> & Hok2 & Hr2 & H2); [done..|lia|done|].
  cbn [mbind option_bind]. destruct (flag_write v2 h q 0x96 (status f')) as (v3 & -> & Hok3 & Hr3 & H3); [done..|lia|done|].
  exists v3. split; [done|]. split; [done|by exists h|done|]. rewrite data_flags_bda by done.
  rewrite (H3 0x17), (H3 0x18), (H3 0x96), (H2 0x17), (H2 0x18), (H1 0x17) by lia. cbn. rewrite shifts_roundtrip. by destruct f'.
Qed.
End Holds.

(** ** The specification: a bounded queue beside the flags *)

Inductive Event : Set := NoKey | Stroke (key : KeyStroke) | Break.

(** What a byte does to the flags and to the Pause sequence, and the key it completes. *)
Definition decode (f : Flags) (pause : Z) (byte : Z) : Flags * Z * Event :=
  let with_status st := mkFlags (shifts f) (held_keys f) st in
  if negb (pause =? 0) then
    (if pause - 1 =? 0 then with_status (set_flag KeyboardStatus_PAUSE_PREFIX false (status f)) else f, pause - 1, NoKey)
  else if byte =? PAUSE_PREFIX then
    (with_status (set_flag KeyboardStatus_PAUSE_PREFIX true (set_flag KeyboardStatus_EXTENDED_PREFIX false (status f))), 5, NoKey)
  else if byte =? EXTENDED_PREFIX then (with_status (set_flag KeyboardStatus_EXTENDED_PREFIX true (status f)), 0, NoKey)
  else
    let extended := contains (status f) KeyboardStatus_EXTENDED_PREFIX in
    let f := with_status (set_flag KeyboardStatus_EXTENDED_PREFIX false (status f)) in
    let pressed := Z.land byte BREAK_BIT =? 0 in
    if extended && (byte =? SCROLL_LOCK_SCAN) && control (shifts f) && negb (alt (shifts f)) then (f, 0, Break)
    else
      match Layout.from_scan (Z.land byte (bnot 8 BREAK_BIT)) extended with
      | None => (f, 0, NoKey)
      | Some key =>
          let f := gather_sides key (key_flags key pressed f) in
          (f, 0, match (if pressed then Layout.keystroke key (shifts f) else None) with Some stroke => Stroke stroke | None => NoKey end)
      end.

(** The first key [mode] can express, and the queue from it on. *)
Fixpoint readable (mode : KeyMode) (q : list KeyStroke) : option KeyStroke * list KeyStroke :=
  match q with
  | [] => (None, [])
  | key :: q' => match mode_translate mode key with Some key' => (Some key', q) | None => readable mode q' end
  end.

Record Bios := mkBios { queue : list KeyStroke; bios_flags : Flags; pausing : Z; reader : option nat }.

Inductive Command : Type :=
  | Interrupt (byte : option Z) | InterruptReturn | StoreKey (key : KeyStroke) | WriteKeys (bytes : list Z)
  | PeekKey (mode : KeyMode) | TryReadKey (mode : KeyMode) | PollRead (r : Read) (mode : KeyMode) (task : nat) | DropRead
  | DiscardQueued | GetShifts | GetEnhancedShifts | SetShifts (s : ShiftState) | GuestWrite (a : Z) (bytes : list Z).
Inductive Reply : Type :=
  | Done | Due (callback : bool) | Stored (stored : bool) | Got (key : option KeyStroke) | ShiftsAre (s : ShiftState) | WordIs (flags : Z) | Wrote (count : option nat).

(** The word of AH=12h: the modifiers below; above, the held left modifiers and locks in
    their places, the right modifiers between them, and SysRq for the held Insert. *)
Definition enhanced_word (f : Flags) : Z :=
  let above i := match i with 2 | 3 => Z.testbit (status f) i | 7 => Z.testbit (held_keys f) 2 | _ => Z.testbit (held_keys f) i end in
  from_le_bytes [shifts_bits (shifts f); foldr (fun i byte => Z.b2z (above i) * 2 ^ i + byte) 0 [0; 1; 2; 3; 4; 5; 6; 7]].

Section Spec.
Context (n : Z).

Definition spec_store (key : KeyStroke) (b : Bios) : bool * list nat * Bios :=
  let '(stored, q) := bounded_push n key (queue b) in
  if stored : bool then (true, option_list (reader b), mkBios q (bios_flags b) (pausing b) None) else (false, [], b).
Fixpoint spec_write (written : nat) (bytes : list Z) (b : Bios) : option nat * list nat * Bios :=
  match bytes with
  | [] => (Some written, [], b)
  | character :: bytes =>
      let '(stored, woken, b) := spec_store (mkStroke character 0) b in
      if stored : bool then let '(result, woken', b) := spec_write (S written) bytes b in (result, woken ++ woken', b)
      else (match written with O => None | S _ => Some written end, [], b)
  end.
Definition spec_try (mode : KeyMode) (b : Bios) : option KeyStroke * Bios :=
  let '(key, q) := readable mode (queue b) in
  (key, mkBios (match key with Some _ => tail q | None => q end) (bios_flags b) (pausing b) (reader b)).
Definition spec_interrupt (byte : Z) (b : Bios) : bool * list nat * Bios :=
  let '(f, pause, event) := decode (bios_flags b) (pausing b) byte in
  let b := mkBios (queue b) f pause (reader b) in
  match event with
  | NoKey => (false, [], b)
  | Stroke key => let '(_, woken, b) := spec_store key b in (false, woken, b)
  | Break => (true, [], mkBios [] f pause (reader b))
  end.

Definition spec_exec (c : Command) (b : Bios) : Reply * list nat * Bios :=
  match c with
  | Interrupt None => (Due false, [], b)
  | Interrupt (Some byte) => let '(due, woken, b) := spec_interrupt byte b in (Due due, woken, b)
  | InterruptReturn => let '(stored, woken, b) := spec_store (mkStroke 0 0) b in (Stored stored, woken, b)
  | StoreKey key => let '(stored, woken, b) := spec_store key b in (Stored stored, woken, b)
  | WriteKeys bytes => let '(count, woken, b) := spec_write 0 bytes b in (Wrote count, woken, b)
  | PeekKey mode => let '(key, q) := readable mode (queue b) in (Got key, [], mkBios q (bios_flags b) (pausing b) (reader b))
  | TryReadKey mode => let '(key, b) := spec_try mode b in (Got key, [], b)
  | PollRead r mode task =>
      let b' := match r, queue b with Waiting, _ :: _ => mkBios (queue b) (bios_flags b) (pausing b) None | _, _ => b end in
      let '(key, b') := spec_try mode b' in
      (Got key, [], match key with Some _ => b' | None => mkBios (queue b') (bios_flags b') (pausing b') (Some task) end)
  | DropRead => (Done, [], mkBios (queue b) (bios_flags b) (pausing b) None)
  | DiscardQueued => (Done, [], mkBios [] (bios_flags b) (pausing b) (reader b))
  | GetShifts => (ShiftsAre (shifts (bios_flags b)), [], b)
  | GetEnhancedShifts => (WordIs (enhanced_word (bios_flags b)), [], b)
  | SetShifts s =>
      let f := bios_flags b in
      (Done, [], mkBios (queue b)
        (mkFlags s (set_flag HeldKeys_LEFT_ALT (alt s) (set_flag HeldKeys_LEFT_CONTROL (control s) (held_keys f)))
          (set_flag (Z.lor KeyboardStatus_RIGHT_CONTROL KeyboardStatus_RIGHT_ALT) false (status f))) (pausing b) (reader b))
  | GuestWrite _ _ => (Done, [], b)
  end.
Fixpoint spec_run (cs : list Command) (b : Bios) : list (Reply * list nat) * Bios :=
  match cs with
  | [] => ([], b)
  | c :: cs => let '(reply, woken, b) := spec_exec c b in let '(replies, b) := spec_run cs b in ((reply, woken) :: replies, b)
  end.
End Spec.

Section Commands.
Context {V : Type} `{CM : !ConventionalMemory V CONVENTIONAL_MEMORY_SIZE}.

Definition exec (c : Command) (k : Input V) : option (Reply * list nat * Input V) :=
  match c with
  | Interrupt byte => '(due, woken, k) ← interrupt byte k; Some (Due due, option_list woken, k)
  | InterruptReturn => '(stored, woken, k) ← interrupt_return k; Some (Stored stored, option_list woken, k)
  | StoreKey key => '(stored, woken, k) ← store_key key k; Some (Stored stored, option_list woken, k)
  | WriteKeys bytes => '(count, woken, k) ← keyboard_write bytes k; Some (Wrote count, woken, k)
  | PeekKey mode => '(key, k) ← peek_key mode k; Some (Got key, [], k)
  | TryReadKey mode => '(key, k) ← try_read_key mode k; Some (Got key, [], k)
  | PollRead r mode task => '(key, k) ← poll_read_key r mode task k; Some (Got key, [], k)
  | DropRead => Some (Done, [], drop_wait k)
  | DiscardQueued => k ← discard_queued k; Some (Done, [], k)
  | GetShifts => s ← shift_state k; Some (ShiftsAre s, [], k)
  | GetEnhancedShifts => w ← enhanced_shift_state k; Some (WordIs w, [], k)
  | SetShifts s => k ← set_shift_state s k; Some (Done, [], k)
  | GuestWrite a bytes => v ← ram_write (data k) a bytes; Some (Done, [], with_data v k)
  end.
Fixpoint run (cs : list Command) (k : Input V) : option (list (Reply * list nat) * Input V) :=
  match cs with
  | [] => Some ([], k)
  | c :: cs => '(reply, woken, k) ← exec c k; '(replies, k) ← run cs k; Some ((reply, woken) :: replies, k)
  end.
End Commands.

(** ** The operations refine the specification *)

(** Every keystroke of the layout is a pair of bytes. *)
Definition all_shifts : list ShiftState :=
  a ← [false; true]; b ← [false; true]; c ← [false; true]; d ← [false; true]; e ← [false; true]; f ← [false; true];
  g ← [false; true]; h ← [false; true]; [mkShifts a b c d e f g h].
Lemma elem_of_all_shifts s : s ∈ all_shifts.
Proof.
  destruct s as [a b c d e f g h]. apply (list_elem_of_lookup_2 _ (foldl (fun i (bit : bool) => 2 * i + Nat.b2n bit) 0 [a; b; c; d; e; f; g; h])%nat).
  by destruct a, b, c, d, e, f, g, h.
Qed.
Lemma elem_of_keys key : key ∈ (fun row => row.1.1) <$> Layout.keys.
Proof. apply list_elem_of_In. destruct key; vm_compute; repeat first [left; reflexivity|right]. Qed.
#[export] Instance stroke_ok_dec key : Decision (stroke_ok key).
Proof. unfold stroke_ok. apply _. Defined.
Lemma keystroke_ok key s stroke : Layout.keystroke key s = Some stroke -> stroke_ok stroke.
Proof.
  assert (Forall (fun key => Forall (fun s => from_option (fun k => bool_decide (stroke_ok k)) true (Layout.keystroke key s) = true) all_shifts)
    ((fun row => row.1.1) <$> Layout.keys)) as Hall by (apply (bool_decide_unpack _); vm_compute; exact I).
  rewrite Forall_forall in Hall. specialize (Hall key (elem_of_keys key)). rewrite Forall_forall in Hall.
  specialize (Hall s (elem_of_all_shifts s)). intros E. rewrite E in Hall. cbn in Hall. by apply bool_decide_eq_true in Hall.
Qed.

Lemma toggle_ok state held i pressed : 0 <= i < 8 -> fits 8 held -> fits 8 (toggle state held (2 ^ i) pressed).2.
Proof. intros Hi Hh. cbn. apply set_flag_fits; [|done]. split; [lia|]. apply Z.pow_lt_mono_r; lia. Qed.
Lemma key_flags_ok key pressed f : flags_ok f -> flags_ok (gather_sides key (key_flags key pressed f)).
Proof.
  intros [Hh Hs]. assert (flags_ok (key_flags key pressed f)) as Hk.
  { unfold key_flags, toggle. repeat (case_match; simplify_eq); split; cbn [held_keys status]; try done; by apply set_flag_fits. }
  unfold gather_sides. destruct key; try done; by split; apply Hk.
Qed.
Lemma decode_ok f pause byte : flags_ok f -> flags_ok (decode f pause byte).1.1.
Proof.
  intros Hf. assert (forall flag v st, fits 8 flag -> fits 8 st -> flags_ok (mkFlags (shifts f) (held_keys f) (set_flag flag v st))) as Hst.
  { intros. split; [apply Hf|by apply set_flag_fits]. }
  unfold decode. cbv zeta. repeat case_match; cbn [fst]; try apply key_flags_ok; try apply Hst; try apply set_flag_fits; done || apply Hf.
Qed.
Lemma decode_stroke_ok f pause byte key : (decode f pause byte).2 = Stroke key -> stroke_ok key.
Proof. unfold decode. cbv zeta. repeat case_match; cbn; intros; simplify_eq; by eapply keystroke_ok. Qed.

Lemma readable_none mode q : (readable mode q).1 = None -> (readable mode q).2 = [].
Proof. induction q as [|k q IH]; cbn; [done|]. by destruct (mode_translate mode k). Qed.

Section Refinement.
Context {V : Type} `{CM : !ConventionalMemory V CONVENTIONAL_MEMORY_SIZE} (s n : Z) (Hplaced : placed s n).
#[local] Set Default Proof Using "All".

(** The keyboard [k] is in the state [b], with a ring of [n] words at [s]. *)
Definition represents (k : Input V) (b : Bios) : Prop :=
  holds s n (data k) (bios_flags b) (queue b) /\ pause_remaining k = pausing b /\ waker k = reader b.

(** Keystrokes are bytes, and the guest's own writes leave the ring and the fields alone. *)
Definition command_ok (c : Command) : Prop :=
  match c with
  | StoreKey key => stroke_ok key
  | WriteKeys bytes => bytes_ok bytes
  | GuestWrite a bytes =>
      0 <= a /\ a + Z.of_nat (length bytes) <= CONVENTIONAL_MEMORY_SIZE /\ bytes_ok bytes /\
      forall x, a <= x < a + Z.of_nat (length bytes) -> ~ field (x - 0x400) /\ ~ (s <= x - 0x400 < s + 2 * n)
  | _ => True
  end.

Lemma bios_scan v f q pause byte : holds s n v f q ->
  let '(f', pause', event) := decode f pause byte in
  exists v', scan pause byte v =
      Some (match event with
            | NoKey => ScanNone | Break => ControlBreak | Stroke key => if (bounded_push n key q).1 then ScanKey else ScanNone end, pause', v')
    /\ holds s n v' f' match event with Stroke key => (bounded_push n key q).2 | _ => q end.
Proof.
  intros Hh. pose proof (decode_ok f pause byte ltac:(by eapply holds_flags_ok)) as Hok. revert Hok.
  destruct (decode f pause byte) as [[f' pause'] event] eqn:E. cbn [fst]. intros Hok. revert E.
  assert (flags_ok f' -> exists v', data_set_flags f' v = Some v' /\ holds s n v' f' q) as Hset by (by intros; eapply holds_set_flags).
  destruct (Hset Hok) as (v' & Hv' & Hh'). unfold decode, scan. rewrite (held_flags _ _ _ _ _ Hh). cbn [mbind option_bind]. cbv zeta.
  destruct (Z.eqb_spec pause 0) as [->|]; cbn [negb].
  2:{ case_match; intros; simplify_eq; rewrite ?Hv'; cbn [mbind option_bind]; [by exists v'|by exists v]. }
  repeat (case_match; [intros; simplify_eq; rewrite Hv'; cbn [mbind option_bind]; by exists v'|]).
  destruct (Layout.from_scan _ _) as [key|]; [|intros; simplify_eq; rewrite Hv'; cbn [mbind option_bind]; by exists v'].
  intros [= <- <- Hevent]. rewrite Hv'. cbn [mbind option_bind]. destruct (if _ : bool then Layout.keystroke _ _ else None) as [stroke|] eqn:Hs;
    subst event; [|by exists v'].
  destruct (holds_push s n Hplaced v' _ q stroke Hh') as (v2 & -> & Hh2); [|by exists v2].
  case_match; [by eapply keystroke_ok|done].
Qed.

Lemma peek_loop_spec mode fuel : forall v f q, holds s n v f q -> (length q < fuel)%nat ->
  exists v', peek_loop fuel mode v = Some ((readable mode q).1, v') /\ holds s n v' f (readable mode q).2.
Proof.
  induction fuel as [|fuel IH]; intros v f q Hh Hl; [lia|]. cbn [peek_loop]. rewrite (holds_peek s n Hplaced v f q Hh).
  cbn [mbind option_bind]. destruct q as [|key q]; cbn [head readable]; [by exists v|].
  destruct (mode_translate mode key) as [key'|]; [by exists v|].
  destruct (holds_read s n Hplaced v f (key :: q) Hh) as (v1 & -> & Hh1). cbn [mbind option_bind]. apply (IH v1 f q Hh1). cbn in Hl. lia.
Qed.
Lemma queue_short k b : represents k b -> (length (queue b) < Z.to_nat 65536)%nat.
Proof. intros ([_ [h Hr] _ _] & _). pose proof (ring_room _ _ _ _ _ Hr). destruct Hplaced as (? & ? & ? & _). lia. Qed.

Lemma bios_store k b key : represents k b -> stroke_ok key ->
  let '(stored, woken, b') := spec_store n key b in
  exists w k', store_key key k = Some (stored, w, k') /\ option_list w = woken /\ represents k' b'.
Proof.
  intros (Hh & Hp & Hw) Hk. destruct (holds_push s n Hplaced _ _ _ key Hh Hk) as (v' & Hv' & Hh'). unfold spec_store, store_key. rewrite Hv'.
  destruct (bounded_push n key (queue b)) as [stored q] eqn:E. cbn [mbind option_bind fst snd] in *. destruct stored.
  - eexists _, _. split; [done|]. split; [by rewrite Hw|done].
  - eexists _, _. split; [done|]. split; [done|]. split; [|done]. unfold bounded_push in E. case_match; by simplify_eq.
Qed.

Lemma bios_write bytes : forall written k b, represents k b -> bytes_ok bytes ->
  exists k', write_from written bytes k = Some ((spec_write n written bytes b).1.1, (spec_write n written bytes b).1.2, k') /\
    represents k' (spec_write n written bytes b).2.
Proof.
  induction bytes as [|c bytes IH]; intros written k b Hr Hb; cbn [write_from spec_write]; [by exists k|].
  apply Forall_cons in Hb as [Hc Hb]. pose proof (bios_store k b (mkStroke c 0) Hr ltac:(by split)) as Hs.
  destruct (spec_store n (mkStroke c 0) b) as [[stored woken] b1]. destruct Hs as (w & k1 & -> & <- & Hr1). cbn [mbind option_bind].
  destruct stored; [|by exists k1]. destruct (IH (S written) k1 b1 Hr1 Hb) as (k2 & -> & Hr2). exists k2.
  destruct (spec_write n (S written) bytes b1) as [[]]. by split.
Qed.

Lemma bios_try mode k b : represents k b ->
  exists k', try_read_key mode k = Some ((spec_try mode b).1, k') /\ represents k' (spec_try mode b).2.
Proof.
  intros Hr. pose proof (queue_short k b Hr) as Hl. destruct Hr as (Hh & Hp & Hw).
  destruct (peek_loop_spec mode _ _ _ _ Hh Hl) as (v' & Hv' & Hh'). unfold try_read_key, peek_key, spec_try. rewrite Hv'.
  destruct (readable mode (queue b)) as [key q]. cbn [mbind option_bind fst snd] in *. destruct key as [key|]; [|by eexists].
  cbn [data with_data]. destruct (holds_read s n Hplaced v' _ q Hh') as (v2 & -> & Hh2). by eexists.
Qed.

Lemma bios_poll r mode task k b : represents k b ->
  exists k', poll_read_key r mode task k = Some (match (spec_exec n (PollRead r mode task) b).1.1 with Got key => key | _ => None end, k')
    /\ represents k' (spec_exec n (PollRead r mode task) b).2.
Proof.
  intros Hr.
  assert (forall k b, represents k b -> exists k', read_loop 2 mode task k = Some ((spec_try mode b).1, k') /\ represents k'
    match (spec_try mode b).1 with
    | Some _ => (spec_try mode b).2
    | None => mkBios (queue (spec_try mode b).2) (bios_flags (spec_try mode b).2) (pausing (spec_try mode b).2) (Some task) end) as Hloop.
  { clear k b Hr. intros k b Hr. cbn [read_loop]. destruct (bios_try mode k b Hr) as (k1 & -> & Hr1). cbn [mbind option_bind].
    destruct (spec_try mode b).1 as [key|] eqn:E; [by exists k1|]. unfold wait_for_key. destruct Hr1 as (Hh & Hp & Hw).
    rewrite (holds_peek s n Hplaced _ _ _ Hh). cbn [mbind option_bind].
    assert (queue (spec_try mode b).2 = []) as Hq; [|rewrite Hq in *; eexists; split; [done|by split_and!]].
    unfold spec_try in *. pose proof (readable_none mode (queue b)) as Hn. destruct (readable mode (queue b)) as [[] q]; [done|]. by apply Hn. }
  unfold poll_read_key. cbn [spec_exec]. destruct r.
  - destruct (Hloop k b Hr) as (k' & -> & Hr'). exists k'. destruct (spec_try mode b) as [[key|] b']; by split.
  - unfold wait_for_key. rewrite (holds_peek s n Hplaced _ _ _ (proj1 Hr)). cbn [mbind option_bind]. destruct (queue b) as [|key q] eqn:Eq; cbn [head].
    + unfold spec_try. rewrite Eq. cbn. eexists. split; [done|]. destruct Hr as (Hh & Hp & Hw). rewrite Eq in Hh. by split_and!.
    + destruct (Hloop (drop_wait k) (mkBios (key :: q) (bios_flags b) (pausing b) None)) as (k' & -> & Hr').
      { destruct Hr as (Hh & Hp & Hw). rewrite Eq in Hh. by split_and!. }
      exists k'. destruct (spec_try mode _) as [[key'|] b']; by split.
Qed.

Lemma interrupt_spec byte k b : represents k b ->
  let '(due, woken, b') := spec_interrupt n byte b in
  exists w k', interrupt (Some byte) k = Some (due, w, k') /\ option_list w = woken /\ represents k' b'.
Proof.
  intros (Hh & Hp & Hw). unfold spec_interrupt, interrupt, keyboard_scan_code. rewrite Hp.
  pose proof (bios_scan _ _ _ (pausing b) byte Hh) as Hs. destruct (decode (bios_flags b) (pausing b) byte) as [[f' pause'] event].
  destruct Hs as (v' & -> & Hh'). cbn [mbind option_bind]. destruct event as [|key|].
  - eexists _, _. by split.
  - unfold spec_store. cbn [queue bios_flags pausing reader]. unfold bounded_push in *. case_match; cbn [fst snd] in *.
    + eexists _, _. split; [done|]. split; [by rewrite Hw|done].
    + eexists _, _. by split.
  - cbn [data]. destruct (holds_control_break s n Hplaced v' f' (queue b) Hh') as (v2 & -> & Hh2). eexists _, _. by split.
Qed.

Lemma guest_write_spec a bytes v f q : holds s n v f q -> command_ok (GuestWrite a bytes) ->
  exists v', ram_write v a bytes = Some v' /\ holds s n v' f q.
Proof.
  intros Hh (Ha & Hl & Hb & Haway). pose proof Hh as [Hok [h Hr] Hq _].
  destruct (ram_write_spec v a bytes) as (v' & Hw & Hok' & Hv'); [done..|]. exists v'. split; [done|].
  assert (forall p, 0 <= p <= 2 ^ 16 -> field p \/ s <= p < s + 2 * n -> bda_byte v' p = bda_byte v p) as Hsame.
  { intros p Hp Hin. unfold bda_byte. rewrite Hv' by (change CONVENTIONAL_MEMORY_SIZE with 655360; lia).
    destruct (Z.leb_spec a (0x400 + p)), (Z.ltb_spec (0x400 + p) (a + Z.of_nat (length bytes))); cbn [andb]; try done.
    destruct (Haway (0x400 + p)) as [H1 H2]; [lia|]. replace (0x400 + p - 0x400) with p in * by lia. tauto. }
  eapply (holds_kept s n Hplaced v v'); [done| |apply (ring_same v v' s n h q); [done| |done]|done].
  - split; [done|]. split_and!; apply Hsame; unfold field; lia.
  - intros p Hp. destruct Hplaced as (? & ? & ? & _). apply Hsame; unfold ring_byte, field in *; lia.
Qed.

Lemma byte_tests x : fits 8 x -> foldr (fun i byte => Z.b2z (Z.testbit x i) * 2 ^ i + byte) 0 [0; 1; 2; 3; 4; 5; 6; 7] = x.
Proof.
  intros Hx. assert (Forall (fun x => foldr (fun i byte => Z.b2z (Z.testbit x i) * 2 ^ i + byte) 0 [0; 1; 2; 3; 4; 5; 6; 7] = x) (addresses 0 256)) as Hall
    by (apply (bool_decide_unpack _); vm_compute; exact I).
  rewrite Forall_forall in Hall. apply Hall, elem_of_addresses. unfold fits in Hx. lia.
Qed.
Lemma enhanced_state k f q : holds s n (data k) f q -> enhanced_shift_state k = Some (enhanced_word f).
Proof.
  intros Hh. unfold enhanced_shift_state. rewrite (held_flags _ _ _ _ _ Hh). cbn [mbind option_bind]. f_equal.
  destruct (holds_flags_ok s n Hplaced _ _ _ Hh) as [Hheld Hst]. change HeldKeys_SYS_REQUEST with (2 ^ 2). rewrite contains_flag by lia.
  unfold enhanced_word. f_equal. f_equal. f_equal. set (above := Z.lor _ _). assert (fits 8 above) as Ha.
  { unfold above. repeat (apply fits_lor; [lia|..]); try (by apply fits_land_l). destruct (Z.testbit (held_keys f) 2); by split. }
  rewrite <- (byte_tests above Ha). cbn [foldr]. unfold above. rewrite !Z.lor_spec, !Z.land_spec, !Z.shiftl_spec by lia.
  repeat match goal with |- context [Z.testbit ?m ?i] => let b := eval vm_compute in (Z.testbit m i) in
    match b with true => idtac | false => idtac end; change (Z.testbit m i) with b end.
  by destruct (Z.testbit (held_keys f) 2); rewrite ?andb_true_r, ?andb_false_r, ?orb_false_r.
Qed.

Lemma bios_exec c k b : represents k b -> command_ok c ->
  exists k', exec c k = Some ((spec_exec n c b).1.1, (spec_exec n c b).1.2, k') /\ represents k' (spec_exec n c b).2.
Proof.
  intros Hr Hc. pose proof Hr as (Hh & Hp & Hw). destruct c as [[byte|]| |key|bytes|mode|mode|r mode task| | | | |sh|a bytes]; cbn [exec spec_exec].
  - pose proof (interrupt_spec byte k b Hr) as H. destruct (spec_interrupt n byte b) as [[due woken] b']. destruct H as (w & k' & -> & <- & Hr'). by exists k'.
  - by exists k.
  - pose proof (bios_store k b (mkStroke 0 0) Hr ltac:(split; by split)) as H. unfold interrupt_return.
    destruct (spec_store n _ b) as [[stored woken] b']. destruct H as (w & k' & -> & <- & Hr'). by exists k'.
  - pose proof (bios_store k b key Hr Hc) as H. destruct (spec_store n key b) as [[stored woken] b']. destruct H as (w & k' & -> & <- & Hr'). by exists k'.
  - unfold keyboard_write. destruct (bios_write bytes 0 k b Hr Hc) as (k' & -> & Hr'). exists k'. by destruct (spec_write n 0 bytes b) as [[]].
  - unfold peek_key. destruct (peek_loop_spec mode _ _ _ _ Hh (queue_short k b Hr)) as (v' & -> & Hh').
    destruct (readable mode (queue b)) as [key q]. by eexists.
  - destruct (bios_try mode k b Hr) as (k' & -> & Hr'). exists k'. by destruct (spec_try mode b).
  - destruct (bios_poll r mode task k b Hr) as (k' & -> & Hr'). exists k'. revert Hr'. cbn [spec_exec]. by destruct (spec_try mode _).
  - by eexists.
  - unfold discard_queued. destruct (holds_discard s n Hplaced _ _ _ Hh) as (v' & -> & Hh'). by eexists.
  - unfold shift_state. rewrite (held_flags _ _ _ _ _ Hh). by eexists.
  - rewrite (enhanced_state _ _ _ Hh). by eexists.
  - unfold set_shift_state, data_set_shift_state. rewrite (held_flags _ _ _ _ _ Hh). cbn [mbind option_bind].
    pose proof (holds_flags_ok s n Hplaced _ _ _ Hh) as [Hf1 Hf2].
    destruct (holds_set_flags s n Hplaced _ _ _ (mkFlags sh (set_flag HeldKeys_LEFT_ALT (alt sh) (set_flag HeldKeys_LEFT_CONTROL (control sh) (held_keys (bios_flags b))))
      (set_flag (Z.lor KeyboardStatus_RIGHT_CONTROL KeyboardStatus_RIGHT_ALT) false (status (bios_flags b)))) Hh) as (v' & -> & Hh'); [|by eexists].
    split; cbn [held_keys status]; repeat (apply set_flag_fits; [done|]); done.
  - destruct (guest_write_spec a bytes _ _ _ Hh Hc) as (v' & -> & Hh'). by eexists.
Qed.
Lemma bios_run cs : forall k b, represents k b -> Forall command_ok cs ->
  exists k', run cs k = Some ((spec_run n cs b).1, k') /\ represents k' (spec_run n cs b).2.
Proof.
  induction cs as [|c cs IH]; intros k b Hr Hc; cbn [run spec_run]; [by exists k|]. apply Forall_cons in Hc as [Hc Hcs].
  destruct (bios_exec c k b Hr Hc) as (k1 & -> & Hr1). destruct (spec_exec n c b) as [[reply woken] b1]. cbn [mbind option_bind fst snd] in *.
  destruct (IH k1 b1 Hr1 Hcs) as (k2 & -> & Hr2). exists k2. destruct (spec_run n cs b1). by split.
Qed.
End Refinement.

(** ** A new keyboard *)

Definition fresh : Bios := mkBios [] (mkFlags no_shifts 0 KeyboardStatus_ENHANCED_KEYBOARD) 0 None.
Lemma default_placed : placed 0x1e 16.
Proof. unfold placed, field. split_and!; try lia. Qed.

Section New.
Context {V : Type} `{CM : !ConventionalMemory V CONVENTIONAL_MEMORY_SIZE}.

Lemma keyboard_new_spec v : ram_ok v -> exists k, keyboard_new v = Some k /\ represents 0x1e 16 k fresh.
Proof.
  intros Hok. unfold keyboard_new, data_new, write_u16, write_u8, DEFAULT_BUFFER_START, DEFAULT_BUFFER_END.
  change (address HEAD) with (0x400 + 0x1a). change (address TAIL) with (0x400 + 0x1c). change (address BUFFER_START) with (0x400 + 0x80).
  change (address BUFFER_END) with (0x400 + 0x82). change (address SHIFT_FLAGS) with (0x400 + 0x17).
  change (address HELD_KEYS) with (0x400 + 0x18). change (address BREAK_FLAG) with (0x400 + 0x71). change (address KEYBOARD_STATUS) with (0x400 + 0x96).
  destruct (write_u16_bda v 0x1a 0x1e Hok) as (v1 & -> & W1); [done|]. cbn [mbind option_bind].
  destruct (write_u16_bda v1 0x1c 0x1e (proj1 W1)) as (v2 & -> & W2); [done|]. cbn [mbind option_bind].
  destruct (write_u16_bda v2 0x80 0x1e (proj1 W2)) as (v3 & -> & W3); [done|]. cbn [mbind option_bind].
  destruct (write_u16_bda v3 0x82 0x3e (proj1 W3)) as (v4 & -> & W4); [done|]. cbn [mbind option_bind].
  destruct (write_u8_bda v4 0x17 0 (proj1 W4)) as (v5 & -> & W5); [done|by split|]. cbn [mbind option_bind].
  destruct (write_u8_bda v5 0x18 0 (proj1 W5)) as (v6 & -> & W6); [done|by split|]. cbn [mbind option_bind].
  destruct (write_u8_bda v6 0x71 0 (proj1 W6)) as (v7 & -> & W7); [done|by split|]. cbn [mbind option_bind].
  destruct (write_u8_bda v7 0x96 KeyboardStatus_ENHANCED_KEYBOARD (proj1 W7)) as (v8 & -> & W8); [done|by split|].
  eexists. split; [done|]. split; [|done]. cbn [data]. split; [apply W8| |constructor|].
  - exists 0. split; cbn [length]; try done.
    + rewrite (written_other_word _ _ _ _ _ W8), (written_other_word _ _ _ _ _ W7), (written_other_word _ _ _ _ _ W6), (written_other_word _ _ _ _ _ W5),
        (written_other_word _ _ _ _ _ W4) by (done || cbn; lia). by apply (written_word _ _ _ _ W3).
    + rewrite (written_other_word _ _ _ _ _ W8), (written_other_word _ _ _ _ _ W7), (written_other_word _ _ _ _ _ W6), (written_other_word _ _ _ _ _ W5)
        by (done || cbn; lia). by apply (written_word _ _ _ _ W4).
    + rewrite (written_other_word _ _ _ _ _ W8), (written_other_word _ _ _ _ _ W7), (written_other_word _ _ _ _ _ W6), (written_other_word _ _ _ _ _ W5),
        (written_other_word _ _ _ _ _ W4), (written_other_word _ _ _ _ _ W3), (written_other_word _ _ _ _ _ W2) by (done || cbn; lia). by apply (written_word _ _ _ _ W1).
    + rewrite (written_other_word _ _ _ _ _ W8), (written_other_word _ _ _ _ _ W7), (written_other_word _ _ _ _ _ W6), (written_other_word _ _ _ _ _ W5),
        (written_other_word _ _ _ _ _ W4), (written_other_word _ _ _ _ _ W3) by (done || cbn; lia). by apply (written_word _ _ _ _ W2).
  - rewrite (data_flags_bda 0x1e 16 default_placed) by apply W8. rewrite (written_first _ _ _ _ _ W8) by done.
    rewrite (written_other _ _ _ _ 0x18 W8), (written_other _ _ _ _ 0x18 W7), (written_first _ _ _ _ _ W6) by (done || cbn; lia).
    rewrite (written_other _ _ _ _ 0x17 W8), (written_other _ _ _ _ 0x17 W7), (written_other _ _ _ _ 0x17 W6), (written_first _ _ _ _ _ W5) by (done || cbn; lia).
    done.
Qed.
End New.

(** ** Decoding the sequences of the scan codes *)

Fixpoint decode_all (f : Flags) (pause : Z) (bytes : list Z) : Flags * Z * list Event :=
  match bytes with
  | [] => (f, pause, [])
  | byte :: bytes =>
      let '(f, pause, event) := decode f pause byte in
      let '(f, pause, events) := decode_all f pause bytes in
      (f, pause, match event with NoKey => events | _ => event :: events end)
  end.

Definition without_prefix (extended : bool) (f : Flags) : Flags :=
  mkFlags (shifts f) (held_keys f)
    (set_flag KeyboardStatus_EXTENDED_PREFIX false
      (if extended then set_flag KeyboardStatus_EXTENDED_PREFIX true (status f) else status f)).

Lemma extended_bit st : contains st KeyboardStatus_EXTENDED_PREFIX = Z.testbit st 1.
Proof. by apply (contains_flag 1). Qed.

Lemma decode_all_prefix f bytes : decode_all f 0 (EXTENDED_PREFIX :: bytes) =
  decode_all (mkFlags (shifts f) (held_keys f) (set_flag KeyboardStatus_EXTENDED_PREFIX true (status f))) 0 bytes.
Proof. cbn [decode_all]. unfold decode at 1. cbn. by destruct (decode_all _ 0 bytes) as [[]]. Qed.

Definition code_byte (code : Z) (pressed : bool) : Z := if pressed then code else Z.lor code 0x80.
Lemma code_byte_spec code pressed : 0 <= code < 128 -> code <> 0x60 -> code <> 0x61 ->
  (Z.land (code_byte code pressed) BREAK_BIT =? 0) = pressed /\ Z.land (code_byte code pressed) (bnot 8 BREAK_BIT) = code /\
  code_byte code pressed =? EXTENDED_PREFIX = false /\ code_byte code pressed =? PAUSE_PREFIX = false.
Proof.
  intros Hc H60 H61.
  assert (Forall (fun c => c = 0x60 \/ c = 0x61 \/ forall pressed : bool,
    (Z.land (code_byte c pressed) BREAK_BIT =? 0) = pressed /\ Z.land (code_byte c pressed) (bnot 8 BREAK_BIT) = c /\
    code_byte c pressed =? EXTENDED_PREFIX = false /\ code_byte c pressed =? PAUSE_PREFIX = false) (addresses 0 128)) as Hall
    by (apply (bool_decide_unpack _); vm_compute; exact I).
  rewrite Forall_forall in Hall. destruct (Hall code) as [|[|H]]; [by apply elem_of_addresses|done..|apply H].
Qed.

Lemma decode_code f code extended pressed : 0 <= code < 128 -> code <> 0x60 -> code <> 0x61 -> (extended = true -> code <> 0x46) ->
  Z.testbit (status f) 1 = false ->
  decode_all f 0 (code_bytes code extended pressed 1) =
    match Layout.from_scan code extended with
    | None => (without_prefix extended f, 0, [])
    | Some key =>
        let f' := gather_sides key (key_flags key pressed (without_prefix extended f)) in
        (f', 0, if pressed then Stroke <$> option_list (Layout.keystroke key (shifts f')) else [])
    end.
Proof.
  intros Hc H60 H61 H46 Hbit. destruct (code_byte_spec code pressed Hc H60 H61) as (Hbreak & Hcode & Hne0 & Hne1).
  assert (code_bytes code extended pressed 1 = (if extended then [EXTENDED_PREFIX] else []) ++ [code_byte code pressed]) as ->
    by (by destruct extended, pressed).
  assert (forall f, Z.testbit (status f) 1 = extended -> decode f 0 (code_byte code pressed) =
    match Layout.from_scan code extended with
    | None => (mkFlags (shifts f) (held_keys f) (set_flag KeyboardStatus_EXTENDED_PREFIX false (status f)), 0, NoKey)
    | Some key =>
        let f' := gather_sides key (key_flags key pressed (mkFlags (shifts f) (held_keys f) (set_flag KeyboardStatus_EXTENDED_PREFIX false (status f)))) in
        (f', 0, match (if pressed then Layout.keystroke key (shifts f') else None) with Some stroke => Stroke stroke | None => NoKey end)
    end) as Hlast.
  { intros f1 Hf1. unfold decode. cbv zeta. rewrite Hne0, Hne1, Hcode, Hbreak, extended_bit, Hf1. cbn [Z.eqb negb].
    assert (extended && (code_byte code pressed =? SCROLL_LOCK_SCAN) = false) as Hscroll.
    { destruct extended; [|done]. cbn [andb]. apply Z.eqb_neq. specialize (H46 eq_refl). intros E.
      rewrite E in Hcode. change (Z.land SCROLL_LOCK_SCAN (bnot 8 BREAK_BIT)) with 0x46 in Hcode. congruence. }
    rewrite Hscroll. cbn [andb]. by destruct (Layout.from_scan code extended). }
  assert (forall f, Z.testbit (status f) 1 = extended -> decode_all f 0 [code_byte code pressed] =
    match Layout.from_scan code extended with
    | None => (mkFlags (shifts f) (held_keys f) (set_flag KeyboardStatus_EXTENDED_PREFIX false (status f)), 0, [])
    | Some key =>
        let f' := gather_sides key (key_flags key pressed (mkFlags (shifts f) (held_keys f) (set_flag KeyboardStatus_EXTENDED_PREFIX false (status f)))) in
        (f', 0, if pressed then Stroke <$> option_list (Layout.keystroke key (shifts f')) else [])
    end) as Hone.
  { intros f1 Hf1. cbn [decode_all]. rewrite (Hlast f1 Hf1). destruct (Layout.from_scan code extended); [|done]. cbv zeta.
    destruct pressed; [|done]. by destruct (Layout.keystroke _ _). }
  destruct extended; cbn [app]; [|by apply Hone].
  rewrite (decode_all_prefix f [code_byte code pressed]), Hone by (cbn; by apply (set_flag_bit 1 1)). unfold without_prefix. cbn [shifts held_keys status].
  by destruct (Layout.from_scan code true).
Qed.

(** ** The BIOS and the native translator *)

#[export] Instance Key_eq_dec : EqDecision Layout.Key.
Proof.
  intros a b. refine (cast_if (decide (Layout.key_code a = Layout.key_code b))); [|by intros ->].
  assert (forall key, (fun row => row.1.1) <$> List.find (fun row => row.1.2 =? Layout.key_code key) Layout.keys = Some key) as Hkey
    by (intros []; reflexivity).
  apply (inj Some). by rewrite <- (Hkey a), <- (Hkey b), e.
Defined.

(** Keys that change flags. *)
Definition special (code : KeyCode) : bool :=
  bool_decide (code ∈ [ShiftLeft; ShiftRight; ControlLeft; ControlRight; AltLeft; AltRight; CapsLock; NumLock; ScrollLock; Insert; Numpad0]).
Definition plain_key (key : Layout.Key) : bool :=
  match key with
  | Layout.LeftShift | Layout.RightShift | Layout.LeftControl | Layout.RightControl | Layout.LeftAlt | Layout.RightAlt
  | Layout.CapsLock | Layout.NumLock | Layout.ScrollLock | Layout.Insert | Layout.Keypad0 => false
  | _ => true
  end.
Lemma plain_key_flags key pressed f : plain_key key = true -> gather_sides key (key_flags key pressed f) = f.
Proof. by destruct key. Qed.

Lemma from_physical_plain code key : Layout.from_physical code = Some key -> plain_key key = negb (special code).
Proof.
  unfold Layout.from_physical. intros H. apply fmap_Some in H as ([[k c] code'] & Hf & ->).
  apply find_some in Hf as [Hin Heq]. apply bool_decide_eq_true in Heq as <-. apply list_elem_of_In in Hin. cbn in *.
  assert (Forall (fun row : Layout.Key * Z * KeyCode => plain_key row.1.1 = negb (special row.2)) Layout.keys) as Hall
    by (apply (bool_decide_unpack _); vm_compute; exact I).
  rewrite Forall_forall in Hall. by apply (Hall (k, c, code')).
Qed.

(** The wire codes of both tables name the same keys. *)
Lemma find_key_scan code code' set1 set2 extended : find_key code = Some (code', set1, set2, extended) ->
  Layout.from_scan set1 extended = Layout.from_physical code /\
  0 <= set1 < 128 /\ set1 <> 0x60 /\ set1 <> 0x61 /\ (extended = true -> set1 <> 0x46).
Proof.
  intros H. apply find_some in H as [Hin Heq]. apply bool_decide_eq_true in Heq as ->. apply list_elem_of_In in Hin.
  assert (Forall (fun '(code, set1, _, extended) => Layout.from_scan set1 extended = Layout.from_physical code /\
    0 <= set1 < 128 /\ set1 <> 0x60 /\ set1 <> 0x61 /\ (extended = true -> set1 <> 0x46)) KEYS) as Hall
    by (apply (bool_decide_unpack _); vm_compute; exact I).
  rewrite Forall_forall in Hall. exact (Hall _ Hin).
Qed.
(** A key without a code has no name. *)
Lemma find_key_none code : find_key code = None -> Layout.from_physical code = None.
Proof.
  intros H. destruct (Layout.from_physical code) as [key|] eqn:E; [|done]. unfold Layout.from_physical in E.
  apply fmap_Some in E as ([[k c] code'] & Hf & ->). apply find_some in Hf as [Hin Heq]. apply bool_decide_eq_true in Heq as <-.
  apply list_elem_of_In in Hin. cbn in *.
  assert (Forall (fun row : Layout.Key * Z * KeyCode => is_Some (find_key row.2)) Layout.keys) as Hall
    by (apply (bool_decide_unpack _); vm_compute; exact I).
  rewrite Forall_forall in Hall. destruct (Hall (k, c, code') Hin) as [? Hk]. cbn in Hk. by rewrite Hk in H.
Qed.

(** The flags say what the host's keys are; of the Insert state only while [same]. *)
Definition on (p : PhysicalKeyboard) (code : KeyCode) : bool := bool_decide (code ∈ physical_held p).
Record agrees (same : Prop) (f : Flags) (p : PhysicalKeyboard) : Prop := {
  agree_shifts : with_insert false (shifts f) = with_insert false (physical_shifts p);
  agree_held : held_shifts (physical_held p) (physical_shifts p) = physical_shifts p;
  agree_left_control : Z.testbit (held_keys f) 0 = on p ControlLeft;
  agree_left_alt : Z.testbit (held_keys f) 1 = on p AltLeft;
  agree_scroll : Z.testbit (held_keys f) 4 = on p ScrollLock;
  agree_num : Z.testbit (held_keys f) 5 = on p NumLock;
  agree_caps : Z.testbit (held_keys f) 6 = on p CapsLock;
  agree_insert : same -> insert_ (shifts f) = insert_ (physical_shifts p) /\ Z.testbit (held_keys f) 7 = on p Insert || on p Numpad0;
  agree_right_control : Z.testbit (status f) 2 = on p ControlRight;
  agree_right_alt : Z.testbit (status f) 3 = on p AltRight;
  agree_prefix : Z.testbit (status f) 1 = false }.

Definition next_held (code : KeyCode) (pressed : bool) (held : gset KeyCode) : gset KeyCode :=
  if pressed then {[code]} ∪ held else held ∖ {[code]}.
Lemma next_held_in code pressed held x :
  bool_decide (x ∈ next_held code pressed held) = if decide (x = code) then pressed else bool_decide (x ∈ held).
Proof. unfold next_held. destruct (decide (x = code)) as [->|], pressed; (apply bool_decide_ext || (apply bool_decide_eq_true || apply bool_decide_eq_false)); set_solver. Qed.

Lemma next_held_this code pressed held : bool_decide (code ∈ next_held code pressed held) = pressed.
Proof. rewrite next_held_in. by rewrite decide_True. Qed.
Lemma next_held_same code pressed held x : x <> code -> bool_decide (x ∈ next_held code pressed held) = bool_decide (x ∈ held).
Proof. intros. rewrite next_held_in. by rewrite decide_False. Qed.

(** Insert selects no keystroke. *)
Lemma keystroke_insert key s s' : with_insert false s = with_insert false s' -> Layout.keystroke key s = Layout.keystroke key s'.
Proof. destruct s, s'. cbn. intros [=]. subst. reflexivity. Qed.

(** Status bits other than the prefix stay through a sequence. *)
Lemma without_prefix_agrees same extended f p : agrees same f p -> agrees same (without_prefix extended f) p.
Proof.
  intros [? ? ? ? ? ? ? ? H2 H3 H1]. unfold without_prefix. change KeyboardStatus_EXTENDED_PREFIX with (2 ^ 1).
  split; cbn [shifts held_keys status]; try done; destruct extended; rewrite ?set_flag_bit by lia; cbn [Z.eqb Pos.eqb]; done.
Qed.

(** A key that changes no flags leaves both sides as they were. *)
Lemma plain_agrees same f p code pressed : agrees same f p -> special code = false ->
  agrees same f (physical_translate (Key code pressed) p).2.
Proof.
  intros Ha Hs. unfold special in Hs. apply bool_decide_eq_false in Hs. rewrite !elem_of_cons in Hs.
  assert (forall x, x ∈ [ShiftLeft; ShiftRight; ControlLeft; ControlRight; AltLeft; AltRight; CapsLock; NumLock; ScrollLock; Insert; Numpad0] ->
    bool_decide (x ∈ next_held code pressed (physical_held p)) = on p x) as Hon.
  { intros x Hx. rewrite next_held_in. destruct (decide (x = code)) as [->|]; [|done]. rewrite !elem_of_cons in Hx. tauto. }
  assert (toggled code (pressed && bool_decide (code ∉ physical_held p)) (physical_shifts p) = physical_shifts p) as Ht.
  { unfold toggled. case_match; [done|]. destruct code; done || (exfalso; tauto). }
  destruct Ha as [Hsh Hh ? ? ? ? ? ? ? ? ?]. cbn [physical_translate snd]. rewrite Ht. fold (next_held code pressed (physical_held p)).
  assert (held_shifts (next_held code pressed (physical_held p)) (physical_shifts p) = physical_shifts p) as Hheld.
  { rewrite <- Hh at 2. unfold held_shifts. rewrite !Hon by set_solver. done. }
  split; cbn [physical_shifts physical_held]; unfold on; cbn [physical_held]; rewrite ?Hheld, ?Hon by set_solver; done.
Qed.

(** Insert and keypad 0 share one held flag: the Insert state follows them while they
    are not held together. *)
Definition alone (code : KeyCode) (held : gset KeyCode) : Prop :=
  (code = Insert -> Numpad0 ∉ held) /\ (code = Numpad0 -> Insert ∉ held).

Ltac flag_bits :=
  change HeldKeys_LEFT_CONTROL with (2 ^ 0) in *; change HeldKeys_LEFT_ALT with (2 ^ 1) in *;
  change HeldKeys_SCROLL_LOCK with (2 ^ 4) in *; change HeldKeys_NUM_LOCK with (2 ^ 5) in *;
  change HeldKeys_CAPS_LOCK with (2 ^ 6) in *; change HeldKeys_INSERT with (2 ^ 7) in *;
  change KeyboardStatus_RIGHT_CONTROL with (2 ^ 2) in *; change KeyboardStatus_RIGHT_ALT with (2 ^ 3) in *;
  rewrite ?contains_flag, ?set_flag_bit by lia; cbn [Z.eqb Pos.eqb].

Ltac bool_cases :=
  first [reflexivity
        |match goal with |- context [?b] => is_var b; match type of b with bool => destruct b end end; cbn; bool_cases].

Lemma special_agrees same f p code key pressed : agrees same f p -> special code = true -> Layout.from_physical code = Some key ->
  agrees (alone code (physical_held p) /\ same) (gather_sides key (key_flags key pressed f)) (physical_translate (Key code pressed) p).2.
Proof.
  intros Ha Hs Hk. destruct f as [s held st], p as [s' hs]. destruct Ha as [Hsh Hh H0 H1 H4 H5 H6 H7 S2 S3 S1].
  cbn [shifts held_keys status physical_shifts physical_held] in *. destruct s as [rs ls ct al sl nl cl ins], s' as [rs' ls' ct' al' sl' nl' cl' ins'].
  cbn in Hsh. injection Hsh as <- <- <- <- <- <- <-.
  unfold held_shifts in Hh. cbn in Hh. injection Hh as Hrs Hls Hct Hal. unfold on in *. cbn [physical_held insert_] in *.
  unfold special in Hs. apply bool_decide_eq_true in Hs. rewrite !elem_of_cons, elem_of_nil in Hs.
  assert (code = Insert -> alone code hs -> bool_decide (Numpad0 ∈ hs) = false) as Hi by (intros ? [Hal1 _]; by apply bool_decide_false, Hal1).
  assert (code = Numpad0 -> alone code hs -> bool_decide (Insert ∈ hs) = false) as Hn by (intros ? [_ Hal2]; by apply bool_decide_false, Hal2).
  cbn [physical_translate snd physical_shifts physical_held]. fold (next_held code pressed hs).
  assert (forall b, pressed && bool_decide (code ∉ hs) = b -> b = pressed && negb (bool_decide (code ∈ hs))) as Hfresh
    by (intros b <-; by rewrite bool_decide_not).
  specialize (Hfresh _ eq_refl). rewrite Hfresh. clear Hfresh.
  destruct_or? Hs; try done; subst code; vm_compute in Hk; injection Hk as <-; cbn [gather_sides key_flags]; cbn [shifts held_keys status].
  all: first [specialize (Hi eq_refl)|clear Hi; assert True as Hi by done]; first [specialize (Hn eq_refl)|clear Hn; assert True as Hn by done].
  all: unfold toggle, held_shifts, toggled, numeric_keypad, shift_pressed; cbn [num_lock left_shift right_shift]; subst rs ls ct al.
  all: try match goal with |- context [xorb ?a ?b] => destruct (xorb a b) end.
  all: split; unfold on, held_shifts; cbn [physical_held physical_shifts].
  all: try (intros [Hal Hsame]; destruct (H7 Hsame) as [<- Hins]; try specialize (Hi Hal); try specialize (Hn Hal); split).
  all: rewrite ?next_held_this, ?next_held_same by done; cbn; flag_bits; rewrite ?H0, ?H1, ?H4, ?H5, ?H6, ?S1, ?S2, ?S3.
  all: try rewrite Hins; try rewrite Hi; try rewrite Hn.
  all: repeat match goal with |- context [bool_decide (?x ∈ ?h)] => generalize (bool_decide (x ∈ h)); intro end.
  all: clear.
  all: first [solve [f_equal; bool_cases]|bool_cases].
Qed.

(** ** A key transition on both sides *)

Lemma decode_all_app a b : forall f pause, decode_all f pause (a ++ b) =
  let '(f1, pause1, events1) := decode_all f pause a in let '(f2, pause2, events2) := decode_all f1 pause1 b in (f2, pause2, events1 ++ events2).
Proof.
  induction a as [|byte a IH]; intros f pause; cbn [app decode_all]; [by destruct (decode_all f pause b) as [[]]|].
  destruct (decode f pause byte) as [[f1 pause1] event]. rewrite IH. destruct (decode_all f1 pause1 a) as [[f2 pause2] events].
  destruct (decode_all f2 pause2 b) as [[f3 pause3] events3]. by destruct event.
Qed.

(** A code no key has: its bytes leave the state of the keys alone. *)
Lemma decode_nameless f code extended pressed : 0 <= code < 128 -> code <> 0x60 -> code <> 0x61 -> (extended = true -> code <> 0x46) ->
  Layout.from_scan code extended = None -> Z.testbit (status f) 1 = false ->
  decode_all f 0 (code_bytes code extended pressed 1) = (without_prefix extended f, 0, []).
Proof. intros ???? Hn ?. rewrite decode_code by done. by rewrite Hn. Qed.

(** The keystroke a transition makes when the host's keys are [p] after it. *)
Definition transition_stroke (code : KeyCode) (pressed : bool) (p : PhysicalKeyboard) : option KeyStroke :=
  if pressed then key ← Layout.from_physical code; Layout.keystroke key (physical_shifts p) else None.
Lemma physical_stroke code pressed p :
  (physical_translate (Key code pressed) p).1 = transition_stroke code pressed (physical_translate (Key code pressed) p).2 ≫= mode_translate Enhanced.
Proof. unfold transition_stroke. cbn [physical_translate fst snd physical_shifts]. destruct pressed; [|done]. cbn [mbind option_bind]. by destruct (Layout.from_physical code). Qed.

(** Ctrl-Break, which the interrupt handler answers with INT 1Bh: the keyboard sends
    it for Pause with Ctrl, and the handler takes it with Ctrl and without Alt. *)
Definition breaks (code : KeyCode) (pressed : bool) (held : gset KeyCode) (p : PhysicalKeyboard) : bool :=
  bool_decide (code = Pause) && pressed && (bool_decide (ControlLeft ∈ held) || bool_decide (ControlRight ∈ held))
  && control (physical_shifts p) && negb (alt (physical_shifts p)).

Lemma decode_break f : Z.testbit (status f) 1 = true -> decode_all f 0 [0x46] =
  (mkFlags (shifts f) (held_keys f) (set_flag KeyboardStatus_EXTENDED_PREFIX false (status f)), 0,
   if control (shifts f) && negb (alt (shifts f)) then [Break] else []).
Proof. intros H. cbn [decode_all]. unfold decode. cbv zeta. rewrite extended_bit, H. cbn. by destruct (control (shifts f)), (alt (shifts f)). Qed.
Lemma decode_break_release f : Z.testbit (status f) 1 = true -> decode_all f 0 [0xc6] =
  (mkFlags (shifts f) (held_keys f) (set_flag KeyboardStatus_EXTENDED_PREFIX false (status f)), 0, []).
Proof. intros H. cbn [decode_all]. unfold decode. cbv zeta. rewrite extended_bit, H. done. Qed.

Lemma pause_decodes same f p pressed held : agrees same f p ->
  exists f', decode_all f 0 (sequence Pause pressed 1 held) = (f', 0, if breaks Pause pressed held p then [Break] else []) /\ agrees same f' p.
Proof.
  intros Ha. destruct pressed; [|by exists f]. unfold sequence, breaks. rewrite bool_decide_true by done. cbn [negb andb].
  destruct (bool_decide (ControlLeft ∈ held) || bool_decide (ControlRight ∈ held)); cbn [andb].
  - assert (control (shifts f) = control (physical_shifts p) /\ alt (shifts f) = alt (physical_shifts p)) as [Hc Ht].
    { pose proof (agree_shifts _ _ _ Ha) as E. destruct (shifts f), (physical_shifts p). cbn in *. by injection E. }
    eexists. split; [|exact (without_prefix_agrees same true _ _ (without_prefix_agrees same true _ _ Ha))].
    change [224; 70; 224; 198] with (EXTENDED_PREFIX :: [0x46] ++ EXTENDED_PREFIX :: [0xc6]).
    change (1 =? 1) with true. cbv iota. rewrite decode_all_prefix, decode_all_app, decode_break by (by apply (set_flag_bit 1 1)).
    cbn [shifts]. rewrite Hc, Ht. rewrite decode_all_prefix, decode_break_release by (by apply (set_flag_bit 1 1)).
    by destruct (control (physical_shifts p) && negb (alt (physical_shifts p))).
  - exists (mkFlags (shifts f) (held_keys f) (set_flag KeyboardStatus_PAUSE_PREFIX false (set_flag KeyboardStatus_PAUSE_PREFIX true
      (set_flag KeyboardStatus_EXTENDED_PREFIX false (status f))))). split; [reflexivity|].
    destruct Ha as [? ? ? ? ? ? ? ? H2 H3 H1]. change KeyboardStatus_PAUSE_PREFIX with (2 ^ 0). change KeyboardStatus_EXTENDED_PREFIX with (2 ^ 1).
    split; cbn [shifts held_keys status]; try done; rewrite ?set_flag_bit by lia; done.
Qed.

Lemma print_screen_decodes same f p pressed held : agrees same f p ->
  exists f', decode_all f 0 (sequence PrintScreen pressed 1 held) = (f', 0, []) /\ agrees same f' p.
Proof.
  intros Ha. unfold sequence. rewrite bool_decide_false by done. rewrite bool_decide_true by done. cbv zeta.
  assert (forall extended f, agrees same f p -> agrees same (without_prefix extended f) p) as Hw by (intros; by apply without_prefix_agrees).
  assert (forall code extended f, Layout.from_scan code extended = None -> 0 <= code < 128 -> code <> 0x60 -> code <> 0x61 -> (extended = true -> code <> 0x46) ->
    agrees same f p -> decode_all f 0 (code_bytes code extended pressed 1) = (without_prefix extended f, 0, [])) as Hd.
  { intros. apply decode_nameless; try done. by apply (agree_prefix same _ p). }
  change (1 =? 1) with true. cbv iota. case_match; [exists (without_prefix false f); split; [by apply Hd|by apply Hw]|].
  destruct (negb _ && negb _); [|exists (without_prefix true f); split; [by apply Hd|by apply Hw]].
  exists (without_prefix true (without_prefix true f)). split; [|by apply Hw, Hw].
  destruct pressed; rewrite decode_all_app, !Hd by (done || by apply Hw); done.
Qed.

(** Keys that change flags have names. *)
Lemma nameless_plain code : Layout.from_physical code = None -> special code = false.
Proof.
  intros Hkey. unfold special. apply bool_decide_eq_false. intros Hin.
  assert (Forall (fun code => is_Some (Layout.from_physical code))
    [ShiftLeft; ShiftRight; ControlLeft; ControlRight; AltLeft; AltRight; CapsLock; NumLock; ScrollLock; Insert; Numpad0]) as Hall
    by (apply (bool_decide_unpack _); vm_compute; exact I).
  rewrite Forall_forall in Hall. destruct (Hall code Hin) as [? Hx]. by rewrite Hx in Hkey.
Qed.

(** What a transition makes the interrupt handler do. *)
Definition transition_events (code : KeyCode) (pressed : bool) (held : gset KeyCode) (p : PhysicalKeyboard) : list Event :=
  let p' := (physical_translate (Key code pressed) p).2 in
  if breaks code pressed held p' then [Break] else Stroke <$> option_list (transition_stroke code pressed p').

Lemma agrees_less (same same' : Prop) f p : (same' -> same) -> agrees same f p -> agrees same' f p.
Proof. intros Hs []. split; auto. Qed.
Lemma breaks_pause code pressed held p : code <> Pause -> breaks code pressed held p = false.
Proof. intros. unfold breaks. by rewrite bool_decide_false. Qed.

Lemma transition_decodes same f p code pressed held : agrees same f p ->
  exists f', decode_all f 0 (sequence code pressed 1 held) = (f', 0, transition_events code pressed held p)
    /\ agrees (alone code (physical_held p) /\ same) f' (physical_translate (Key code pressed) p).2.
Proof.
  intros Ha. unfold transition_events. set (p' := (physical_translate (Key code pressed) p).2).
  assert (forall c, Layout.from_physical c = None -> transition_stroke c pressed p' = None) as Hnone.
  { intros c Hc. unfold transition_stroke. rewrite Hc. by destruct pressed. }
  assert (forall f, agrees same f p' -> agrees (alone code (physical_held p) /\ same) f p') as Hless by (intros g; by apply agrees_less; intros []).
  destruct (decide (code = Pause)) as [->|Hp].
  { rewrite Hnone by reflexivity. destruct (pause_decodes same f p' pressed held) as (f' & -> & Ha'); [by apply plain_agrees|].
    exists f'. split; [by destruct (breaks _ _ _ _)|by apply Hless]. }
  rewrite breaks_pause by done. destruct (decide (code = PrintScreen)) as [->|Hs].
  { rewrite Hnone by reflexivity. destruct (print_screen_decodes same f p' pressed held) as (f' & -> & Ha'); [by apply plain_agrees|]. eauto. }
  unfold sequence. rewrite !(bool_decide_false (code = _)) by done. cbv zeta. cbn [Z.eqb Pos.eqb].
  destruct (find_key code) as [[[[code' set1] set2] extended]|] eqn:Hf.
  2:{ apply find_key_none in Hf. rewrite Hnone by done. exists f. split; [done|]. by apply Hless, plain_agrees, nameless_plain. }
  destruct (find_key_scan _ _ _ _ _ Hf) as (Hscan & Hrange & H60 & H61 & H46).
  rewrite decode_code by (done || by eapply agree_prefix). rewrite Hscan.
  pose proof (without_prefix_agrees same extended f p Ha) as Hw. unfold transition_stroke.
  destruct (Layout.from_physical code) as [key|] eqn:Hkey.
  - assert (agrees (alone code (physical_held p) /\ same) (gather_sides key (key_flags key pressed (without_prefix extended f))) p') as Hagree.
    { pose proof (from_physical_plain code key Hkey) as Hplain. destruct (special code) eqn:Hspec.
      - by apply special_agrees.
      - rewrite plain_key_flags by done. by apply Hless, plain_agrees. }
    eexists. split; [|exact Hagree]. cbv zeta. rewrite (keystroke_insert key _ _ (agree_shifts _ _ _ Hagree)). by destruct pressed.
  - eexists. split; [by destruct pressed|]. by apply Hless, plain_agrees, nameless_plain.
Qed.

(** ** Typing *)

(** A transition of a key, with the keys the keyboard takes as held. *)
Definition Transition : Type := KeyCode * bool * gset KeyCode.

Section Typing.
Context {V : Type} `{CM : !ConventionalMemory V CONVENTIONAL_MEMORY_SIZE}.

(** The interrupt of a byte, with a callback of INT 1Bh that leaves the keyboard alone. *)
Definition irq (byte : Z) (k : Input V) : option (Input V) :=
  '(due, _, k) ← interrupt (Some byte) k;
  if due : bool then '(_, _, k) ← interrupt_return k; Some k else Some k.
Fixpoint irqs (bytes : list Z) (k : Input V) : option (Input V) :=
  match bytes with [] => Some k | byte :: bytes => k ← irq byte k; irqs bytes k end.

(** The interrupts of every transition, and a read that takes what it typed. *)
Fixpoint type_keys (ts : list Transition) (k : Input V) : option (list (option KeyStroke) * Input V) :=
  match ts with
  | [] => Some ([], k)
  | (code, pressed, held) :: ts =>
      k ← irqs (sequence code pressed 1 held) k;
      '(key, k) ← try_read_key Enhanced k;
      '(keys, k) ← type_keys ts k; Some (key :: keys, k)
  end.
End Typing.

(** What the native translator makes of them; Ctrl-Break, which it does not know, is
    the zero keystroke that follows INT 1Bh. *)
Fixpoint host_keys (ts : list Transition) (p : PhysicalKeyboard) : list (option KeyStroke) * PhysicalKeyboard :=
  match ts with
  | [] => ([], p)
  | (code, pressed, held) :: ts =>
      let '(key, p) := physical_translate (Key code pressed) p in
      let '(keys, p') := host_keys ts p in
      ((if breaks code pressed held p then Some (mkStroke 0 0) else key) :: keys, p')
  end.

(** Insert and keypad 0 are never held together. *)
Fixpoint insert_alone (ts : list Transition) (p : PhysicalKeyboard) : Prop :=
  match ts with
  | [] => True
  | (code, pressed, _) :: ts => alone code (physical_held p) /\ insert_alone ts (physical_translate (Key code pressed) p).2
  end.

(** The queue after the events of some bytes, while the ring has room. *)
Definition event_queue (q : list KeyStroke) (event : Event) : list KeyStroke :=
  match event with NoKey => q | Stroke key => q ++ [key] | Break => [mkStroke 0 0] end.

Section TypingFacts.
Context {V : Type} `{CM : !ConventionalMemory V CONVENTIONAL_MEMORY_SIZE}.
#[local] Notation keyboard := (represents 0x1e 16).

Lemma irq_spec byte (k : Input V) b : keyboard k b -> Z.of_nat (length (queue b)) + 1 < 16 ->
  let '(f, pause, event) := decode (bios_flags b) (pausing b) byte in
  exists k' r, irq byte k = Some k' /\ keyboard k' (mkBios (event_queue (queue b) event) f pause r).
Proof.
  intros Hr Hl. pose proof (interrupt_spec 0x1e 16 default_placed byte k b Hr) as H. unfold spec_interrupt, irq in *.
  destruct (decode (bios_flags b) (pausing b) byte) as [[f pause] event]. destruct event as [|key|].
  - destruct H as (w & k' & -> & _ & Hr'). by eexists k', _.
  - unfold spec_store, bounded_push in H. cbn [queue bios_flags pausing reader] in H. rewrite (proj2 (Z.ltb_lt _ _)) in H by lia.
    destruct H as (w & k' & -> & _ & Hr'). by eexists k', _.
  - destruct H as (w & k' & -> & _ & Hr'). cbn [mbind option_bind]. unfold interrupt_return.
    pose proof (bios_store 0x1e 16 default_placed k' _ (mkStroke 0 0) Hr' ltac:(by split)) as Hs. cbn in Hs.
    destruct Hs as (w' & k2 & -> & _ & Hr2). by eexists k2, _.
Qed.
Lemma irqs_spec bytes : forall (k : Input V) b f pause events, keyboard k b ->
  decode_all (bios_flags b) (pausing b) bytes = (f, pause, events) -> Z.of_nat (length (queue b) + length events) < 15 ->
  exists k' r, irqs bytes k = Some k' /\ keyboard k' (mkBios (foldl event_queue (queue b) events) f pause r).
Proof.
  induction bytes as [|byte bytes IH]; intros k b f pause events Hr Hd Hl; cbn [decode_all irqs] in *.
  { injection Hd as <- <- <-. exists k, (reader b). by destruct b. }
  pose proof (irq_spec byte k b Hr ltac:(lia)) as Hi. destruct (decode (bios_flags b) (pausing b) byte) as [[f1 pause1] event].
  destruct Hi as (k1 & r & -> & Hr1). cbn [mbind option_bind]. destruct (decode_all f1 pause1 bytes) as [[f2 pause2] events'] eqn:Hrest.
  injection Hd as <- <- <-. destruct (IH k1 _ f2 pause2 events' Hr1 Hrest) as (k2 & r2 & -> & Hr2).
  - cbn [queue]. destruct event; cbn [event_queue length] in *; rewrite ?length_app; cbn [length]; lia.
  - exists k2, r2. split; [done|]. by destruct event.
Qed.

Lemma type_one same (k : Input V) b p code pressed held : keyboard k b -> queue b = [] -> pausing b = 0 -> agrees same (bios_flags b) p ->
  let p' := (physical_translate (Key code pressed) p).2 in
  exists k1 k2 b2, irqs (sequence code pressed 1 held) k = Some k1
    /\ try_read_key Enhanced k1 = Some (if breaks code pressed held p' then Some (mkStroke 0 0) else (physical_translate (Key code pressed) p).1, k2)
    /\ keyboard k2 b2 /\ queue b2 = [] /\ pausing b2 = 0 /\ agrees (alone code (physical_held p) /\ same) (bios_flags b2) p'.
Proof.
  intros Hr Hq Hp Ha p'. destruct (transition_decodes same _ p code pressed held Ha) as (f' & Hd & Ha'). fold p' in Ha'.
  destruct (irqs_spec _ k b f' 0 _ Hr ltac:(by rewrite Hp)) as (k1 & r & Hk1 & Hr1).
  { rewrite Hq. unfold transition_events. case_match; [done|]. by destruct (transition_stroke _ _ _). }
  destruct (bios_try 0x1e 16 default_placed Enhanced k1 _ Hr1) as (k2 & Hk2 & Hr2). exists k1, k2.
  eexists. split; [done|]. split; [|split; [exact Hr2|]].
  - rewrite Hk2. rewrite physical_stroke. fold p'. rewrite Hq. unfold transition_events. fold p'. destruct (breaks code pressed held p'); [done|].
    by destruct (transition_stroke code pressed p').
  - rewrite Hq. unfold transition_events. fold p'. destruct (breaks code pressed held p'); [by split_and!|].
    by destruct (transition_stroke code pressed p'); split_and!.
Qed.

Lemma type_keys_cons code pressed held ts (k k1 k2 k' : Input V) key keys :
  irqs (sequence code pressed 1 held) k = Some k1 -> try_read_key Enhanced k1 = Some (key, k2) -> type_keys ts k2 = Some (keys, k') ->
  type_keys ((code, pressed, held) :: ts) k = Some (key :: keys, k').
Proof.
  intros H1 H2 H3. cbn [type_keys]. apply bind_Some. exists k1. split; [exact H1|]. apply bind_Some. exists (key, k2).
  split; [exact H2|]. apply bind_Some. exists (keys, k'). split; [exact H3|reflexivity].
Qed.

Lemma typing_spec ts : forall same (k : Input V) b p, keyboard k b -> queue b = [] -> pausing b = 0 -> agrees same (bios_flags b) p ->
  exists k' b', type_keys ts k = Some ((host_keys ts p).1, k') /\ keyboard k' b'
    /\ agrees (insert_alone ts p /\ same) (bios_flags b') (host_keys ts p).2.
Proof.
  induction ts as [|[[code pressed] held] ts IH]; intros same k b p Hr Hq Hp Ha; cbn [host_keys insert_alone].
  { exists k, b. split; [done|]. split; [done|]. by apply (agrees_less same); [intros []|]. }
  destruct (type_one same k b p code pressed held Hr Hq Hp Ha) as (k1 & k2 & b2 & Hk1 & Hk2 & Hr2 & Hq2 & Hp2 & Ha2).
  destruct (IH _ k2 b2 _ Hr2 Hq2 Hp2 Ha2) as (k' & b' & Hk' & Hr' & Ha'). exists k', b'.
  pose proof (type_keys_cons _ _ _ _ _ _ _ _ _ _ Hk1 Hk2 Hk') as Htype. clear Hk1 Hk2 Hk'.
  destruct (physical_translate (Key code pressed) p) as [key p']. cbn [fst snd] in *. destruct (host_keys ts p') as [keys p2]. cbn [fst snd] in *.
  split; [exact Htype|]. split; [exact Hr'|]. revert Ha'. apply agrees_less. tauto.
Qed.
End TypingFacts.

Lemma fresh_agrees : agrees True (bios_flags fresh) physical_default.
Proof. split; try reflexivity; intros _; split; reflexivity. Qed.

(** ** A parked reader *)

(** Commands that leave the pending read to its task: no read is dropped, and no other
    task's read is polled, which would take over the one registration. *)
Definition leaves_read (task : nat) (c : Command) : bool :=
  match c with PollRead _ _ other => (other =? task)%nat | DropRead => false | _ => true end.

Lemma spec_store_wakes n key b task : reader b = Some task -> queue b = [] ->
  task ∈ (spec_store n key b).1.2 \/ (reader (spec_store n key b).2 = Some task /\ queue (spec_store n key b).2 = []).
Proof.
  intros Hr Hq. unfold spec_store, bounded_push. rewrite Hq. destruct (_ <? n); cbn; [left; rewrite Hr; by left|by right].
Qed.
Lemma spec_write_wakes n bytes : forall written b task, reader b = Some task -> queue b = [] ->
  task ∈ (spec_write n written bytes b).1.2 \/ (reader (spec_write n written bytes b).2 = Some task /\ queue (spec_write n written bytes b).2 = []).
Proof.
  induction bytes as [|c bytes IH]; intros written b task Hr Hq; cbn [spec_write]; [by right|].
  pose proof (spec_store_wakes n (mkStroke c 0) b task Hr Hq) as Hs. destruct (spec_store n _ b) as [[stored woken] b1] eqn:E. cbn [fst snd] in Hs.
  destruct stored.
  - destruct (spec_write n (S written) bytes b1) as [[result woken'] b2] eqn:E2. cbn [fst snd]. rewrite elem_of_app.
    destruct Hs as [?|[Hr1 Hq1]]; [by left; left|]. specialize (IH (S written) b1 task Hr1 Hq1). rewrite E2 in IH. destruct IH; [left; by right|by right].
  - right. unfold spec_store, bounded_push in E. by destruct (_ <? n); simplify_eq/=.
Qed.
Lemma spec_exec_wakes n c b task : leaves_read task c = true -> reader b = Some task -> queue b = [] ->
  task ∈ (spec_exec n c b).1.2 \/ (reader (spec_exec n c b).2 = Some task /\ queue (spec_exec n c b).2 = []).
Proof.
  intros Hc Hr Hq. destruct c as [[byte|]| |key|bytes|mode|mode|r mode task'| | | | |sh|a bytes]; try done; cbn [spec_exec]; try (by right).
  - unfold spec_interrupt. destruct (decode (bios_flags b) (pausing b) byte) as [[f pause] [|key|]]; [by right| |by right].
    pose proof (spec_store_wakes n key (mkBios (queue b) f pause (reader b)) task Hr Hq). by destruct (spec_store n key _) as [[]].
  - pose proof (spec_store_wakes n (mkStroke 0 0) b task Hr Hq). by destruct (spec_store n _ b) as [[]].
  - pose proof (spec_store_wakes n key b task Hr Hq). by destruct (spec_store n _ b) as [[]].
  - pose proof (spec_write_wakes n bytes 0 b task Hr Hq). by destruct (spec_write n 0 bytes b) as [[]].
  - right. by rewrite Hq.
  - right. unfold spec_try. by rewrite Hq.
  - right. apply Nat.eqb_eq in Hc as ->. unfold spec_try. rewrite Hq. destruct r; by rewrite Hq.
Qed.
Lemma spec_run_wakes n cs : forall b task, forallb (leaves_read task) cs = true -> reader b = Some task -> queue b = [] ->
  task ∈ concat (snd <$> (spec_run n cs b).1) \/ queue (spec_run n cs b).2 = [].
Proof.
  induction cs as [|c cs IH]; intros b task Hc Hr Hq; cbn [spec_run]; [by right|]. apply andb_true_iff in Hc as [Hc Hcs].
  pose proof (spec_exec_wakes n c b task Hc Hr Hq) as He. destruct (spec_exec n c b) as [[reply woken] b1]. cbn [fst snd] in He.
  destruct (spec_run n cs b1) as [replies b2] eqn:E. cbn [fst snd fmap list_fmap concat]. rewrite elem_of_app.
  destruct He as [?|[Hr1 Hq1]]; [by left; left|]. specialize (IH b1 task Hcs Hr1 Hq1). rewrite E in IH. destruct IH; [left; by right|by right].
Qed.

(** ** The properties *)

(** C30 The keyboard services on guest memory are a bounded queue beside plain
    flags. Wherever the guest has put the ring, and whatever it writes elsewhere,
    every sequence of interrupts, stores, reads, polls and flag updates answers and
    wakes as the queue does: keys come out in order, whole and once, a full ring drops
    the new key alone, and no service panics or loops. *)
Theorem bios_refines_queue {V} `{CM : !ConventionalMemory V CONVENTIONAL_MEMORY_SIZE} (s n : Z) (cs : list Command) (k : Input V) (b : Bios) :
  placed s n -> represents s n k b -> Forall (command_ok s n) cs ->
  exists k', run cs k = Some ((spec_run n cs b).1, k') /\ represents s n k' (spec_run n cs b).2.
Proof. intros Hp. by apply bios_run. Qed.

(** C31 Two translators agree on every sequence of key transitions: feeding the BIOS
    interrupt the set-1 bytes, repeats and special sequences included, and reading after
    each transition gives the keystrokes, and at last the modifiers and locks, that the
    native translator computes from the transitions themselves. Ctrl-Break alone types
    what the native side does not: the zero keystroke after INT 1Bh. The Insert state,
    which selects no keystroke, agrees unless Insert and keypad 0 were held together,
    since they share one held flag of the data area. *)
Theorem bios_types_like_host {V} `{CM : !ConventionalMemory V CONVENTIONAL_MEMORY_SIZE} (v : V) (ts : list Transition) : ram_ok v ->
  exists k k' s, keyboard_new v = Some k /\ type_keys ts k = Some ((host_keys ts physical_default).1, k') /\ shift_state k' = Some s
    /\ with_insert false s = with_insert false (physical_shifts (host_keys ts physical_default).2)
    /\ (insert_alone ts physical_default -> s = physical_shifts (host_keys ts physical_default).2).
Proof.
  intros Hok. destruct (keyboard_new_spec v Hok) as (k & Hk & Hr).
  destruct (typing_spec ts True k fresh physical_default) as (k' & b' & Hkeys & Hr' & Ha); [done|done|done|apply fresh_agrees|].
  exists k, k', (shifts (bios_flags b')). split; [exact Hk|]. split; [exact Hkeys|]. unfold shift_state. rewrite (held_flags _ _ _ _ _ (proj1 Hr')). split; [done|].
  pose proof (agree_shifts _ _ _ Ha) as Hs. split; [done|]. intros Halone. destruct (agree_insert _ _ _ Ha) as [Hi _]; [done|].
  destruct (shifts (bios_flags b')), (physical_shifts (host_keys ts physical_default).2). cbn in *. injection Hs. congruence.
Qed.

(** C32 A reader that parked is woken by the key that lets it go on: if a key is in
    the ring at the end of any sequence of services and interrupts, its own further
    polls included, its task was woken. The services keep one registration, so the
    sequence polls no other reader and drops no read: another reader that parks is
    the one to be woken, and a dropped read, whoever's, clears the registration. *)
Theorem parked_reader_woken {V} `{CM : !ConventionalMemory V CONVENTIONAL_MEMORY_SIZE} (s n : Z) (k k1 k2 : Input V) (b : Bios)
    (r : Read) (mode : KeyMode) (task : nat) (cs : list Command) (replies : list (Reply * list nat)) (key : KeyStroke) :
  placed s n -> represents s n k b -> poll_read_key r mode task k = Some (None, k1) ->
  Forall (command_ok s n) cs -> forallb (leaves_read task) cs = true -> run cs k1 = Some (replies, k2) -> data_peek (data k2) = Some (Some key) ->
  task ∈ concat (snd <$> replies).
Proof.
  intros Hp Hr Hpoll Hc Hq Hrun Hkey. destruct (bios_poll s n Hp r mode task k b Hr) as (k1' & Hpoll' & Hr1).
  rewrite Hpoll in Hpoll'. injection Hpoll' as Hnone <-.
  assert (queue (spec_exec n (PollRead r mode task) b).2 = [] /\ reader (spec_exec n (PollRead r mode task) b).2 = Some task) as [Hempty Hreader].
  { revert Hnone. cbn [spec_exec]. unfold spec_try. set (b' := match r with Start => b | Waiting => _ end).
    pose proof (readable_none mode (queue b')) as Hn. destruct (readable mode (queue b')) as [[stroke|] q]; [done|]. specialize (Hn eq_refl). cbn in *. by subst. }
  destruct (bios_run s n Hp cs k1 _ Hr1 Hc) as (k2' & Hrun' & Hr2). rewrite Hrun in Hrun'. injection Hrun' as -> <-.
  destruct (spec_run_wakes n cs _ task Hq Hreader Hempty) as [?|Hend]; [done|]. exfalso.
  rewrite (holds_peek s n Hp _ _ _ (proj1 Hr2)), Hend in Hkey. done.
Qed.

(** ** Examples *)

Module Sample.

#[local] Instance no_device : Device unit := {
  dev_read_mmio d _ _ := (0, d); dev_write_mmio d _ _ _ := d;
  dev_read_port d _ _ := (0, d); dev_write_port d _ _ _ := d;
  dev_poll_interrupt d _ := (None, d) }.
#[local] Instance pc_conventional : ConventionalMemory (MemoryView unit) CONVENTIONAL_MEMORY_SIZE :=
  view_conventional CONVENTIONAL_MEMORY_SIZE ltac:(done).

Definition blank : MemoryView unit := pc_view [].
Definition stroke_a : KeyStroke := mkStroke 97 30.

(** Shift, A and its repeat, Ctrl+F1, keypad 5 and a released Shift, as bytes. *)
Definition hello : list Transition :=
  [(ShiftLeft, true, ∅); (KeyA, true, ∅); (KeyA, true, ∅); (ShiftLeft, false, ∅); (ControlRight, true, ∅); (F1, true, ∅); (ControlRight, false, ∅);
   (Numpad5, true, ∅); (PrintScreen, true, ∅); (Pause, true, ∅)].
Example hello_keys : (host_keys hello physical_default).1 =
  [None; Some (mkStroke 65 30); Some (mkStroke 65 30); None; None; Some (mkStroke 0 0x5e); None; Some (mkStroke 0 0x4c); None; None].
Proof. vm_compute. reflexivity. Qed.

Lemma hello_alone : insert_alone hello physical_default.
Proof. repeat split; intros; done || set_solver. Qed.

(** Ctrl-Break, and Insert under keypad 0: the native side toggles twice, the BIOS once. *)
Definition awkward : list Transition :=
  [(ControlLeft, true, ∅); (Pause, true, {[ControlLeft]}); (ControlLeft, false, ∅); (Insert, true, ∅); (Numpad0, true, ∅)].
Example awkward_keys : (host_keys awkward physical_default).1 =
  [None; Some (mkStroke 0 0); None; Some (mkStroke 0xe0 0x52); Some (mkStroke 0 0x52)].
Proof. vm_compute. reflexivity. Qed.

Lemma bios_types_like_host_witness :
  (exists k k', keyboard_new blank = Some k /\ type_keys hello k = Some ((host_keys hello physical_default).1, k') /\ shift_state k' = Some no_shifts)
  /\ exists k k' s, keyboard_new blank = Some k /\ type_keys awkward k = Some ((host_keys awkward physical_default).1, k')
    /\ shift_state k' = Some s /\ with_insert false s = no_shifts.
Proof.
  split.
  - destruct (bios_types_like_host blank hello (pc_view_ok [])) as (k & k' & s & Hk & Ht & Hs & _ & Hsame).
    exists k, k'. split; [exact Hk|]. split; [exact Ht|]. rewrite (Hsame hello_alone) in Hs. refine (eq_trans Hs _). vm_compute. reflexivity.
  - destruct (bios_types_like_host blank awkward (pc_view_ok [])) as (k & k' & s & Hk & Ht & Hs & Hw & _).
    exists k, k', s. split; [exact Hk|]. split; [exact Ht|]. split; [exact Hs|]. refine (eq_trans Hw _). vm_compute. reflexivity.
Defined.

(** Sixteen stores fill the ring with fifteen keys; a read makes room. *)
Definition crowded : list Command := replicate 16 (StoreKey stroke_a) ++ [TryReadKey Legacy; StoreKey (mkStroke 0xf0 0x1c); TryReadKey Enhanced].
Lemma crowded_ok : Forall (command_ok 0x1e 16) crowded.
Proof. unfold crowded. repeat constructor; cbn; lia. Qed.

Lemma bios_refines_queue_witness : exists k k', keyboard_new blank = Some k /\ run crowded k = Some ((spec_run 16 crowded fresh).1, k') /\
  (spec_run 16 crowded fresh).1 = replicate 15 (Stored true, []) ++ [(Stored false, []); (Got (Some stroke_a), []); (Stored true, []); (Got (Some stroke_a), [])].
Proof.
  destruct (keyboard_new_spec blank (pc_view_ok [])) as (k & Hk & Hr).
  destruct (bios_refines_queue 0x1e 16 crowded k fresh default_placed Hr crowded_ok) as (k' & Hrun & _).
  exists k, k'. split; [exact Hk|]. split; [exact Hrun|]. vm_compute. reflexivity.
Defined.

(** A legacy reader parks over an empty ring, polls once more for nothing, and an
    interrupt's key wakes it. *)
Lemma parked_reader_woken_witness : exists k k1 replies k2, keyboard_new blank = Some k /\ poll_read_key Start Legacy 7 k = Some (None, k1) /\
  run [PollRead Waiting Legacy 7; Interrupt (Some 0x2a); Interrupt (Some 0x1e)] k1 = Some (replies, k2) /\ 7%nat ∈ concat (snd <$> replies).
Proof.
  destruct (keyboard_new_spec blank (pc_view_ok [])) as (k & Hk & Hr).
  destruct (bios_poll 0x1e 16 default_placed Start Legacy 7 k fresh Hr) as (k1 & Hpoll & Hr1).
  assert (Forall (command_ok 0x1e 16) [PollRead Waiting Legacy 7; Interrupt (Some 0x2a); Interrupt (Some 0x1e)]) as Hc by (by repeat constructor).
  destruct (bios_run 0x1e 16 default_placed _ k1 _ Hr1 Hc) as (k2 & Hrun & Hr2).
  eexists k, k1, _, k2. split; [exact Hk|]. split; [exact Hpoll|]. split; [exact Hrun|].
  refine (parked_reader_woken 0x1e 16 k k1 k2 fresh Start Legacy 7 _ _ (mkStroke 65 30) default_placed Hr Hpoll Hc eq_refl Hrun _).
  rewrite (holds_peek 0x1e 16 default_placed _ _ _ (proj1 Hr2)). vm_compute. reflexivity.
Defined.
End Sample.
