(* ===== verification/Types.v ===== *)
(** * Logical types, literals and integer operations

    crates/compiler/src/types.rs, literal.rs, integer.rs and bitwise.rs: the
    logical value types with their WebAssembly carriers, the two-word literals
    and the integer operations on u64 encodings that literal evaluation uses. *)

From S2P Require Import Prelude.
Local Open Scope Z_scope.

(** ** types.rs *)

Inductive Ty : Set := I1 | I8 | I16 | I32 | I64 | F64 | V64 | V128.

#[export] Instance Ty_eq_dec : EqDecision Ty.
Proof. solve_decision. Defined.

Definition carrier (ty : Ty) : Ty :=
  match ty with
  | I1 | I8 | I16 | I32 => I32
  | V64 => V128
  | I64 | F64 | V128 => ty
  end.

Definition is_integer (ty : Ty) : bool :=
  match ty with I1 | I8 | I16 | I32 | I64 => true | _ => false end.

Definition is_scalar (ty : Ty) : bool :=
  match ty with
  | I1 | I8 | I16 | I32 | I64 | F64 => true
  | V64 | V128 => false
  end.

Definition bits (ty : Ty) : Z :=
  match ty with
  | I1 => 1
  | I8 => 8
  | I16 => 16
  | I32 => 32
  | I64 | F64 | V64 => 64
  | V128 => 128
  end.

(** integer.rs: [low_mask]. The subtraction of the source is on u32, where a
    count above 64 leaves the range [checked_shr] accepts. *)
Definition low_mask (bits : Z) : Z :=
  let count := 64 - bits in
  if (0 <=? count) && (count <? 64) then Z.shiftr (Z.ones 64) count else 0.

Definition mask (ty : Ty) : Z := low_mask (bits ty).
Definition normalize (ty : Ty) (b : Z) : Z := Z.land b (mask ty).

(** ** literal.rs *)

Record Literal := mkLiteral { low : Z; high : Z }.

#[export] Instance Literal_eq_dec : EqDecision Literal.
Proof. solve_decision. Defined.

(** Position of the highest set bit plus one: [w - leading_zeros] of a [w]-bit
    value. *)
Definition bit_length (z : Z) : Z := if z <=? 0 then 0 else Z.log2 z + 1.
Definition leading_zeros (w z : Z) : Z := w - bit_length z.

(** [From<u64>], [From<u128>] and the conversions back. [u64::from] asserts in
    debug builds that the high word is zero; [lit_ok] below states it. *)
Definition lit (b : Z) : Literal := mkLiteral b 0.
Definition lit128 (b : Z) : Literal := mkLiteral (wrap 64 b) (wrap 64 (Z.shiftr b 64)).
Definition lit_u64 (l : Literal) : Z := low l.
Definition lit_u128 (l : Literal) : Z := Z.lor (low l) (Z.shiftl (high l) 64).

Definition unsigned_bits_of (l : Literal) : Z :=
  if high l =? 0 then 64 - leading_zeros 64 (low l)
  else 128 - leading_zeros 64 (high l).

Definition lit_normalize (l : Literal) (ty : Ty) : Literal :=
  if decide (ty = V64) then lit (low l)
  else if is_scalar ty then lit (normalize ty (lit_u64 l))
  else l.

Definition scalar (l : Literal) (ty : Ty) : option Z :=
  if is_scalar ty then Some (lit_u64 l) else None.

(** ** integer.rs *)

Inductive BinaryOp : Set :=
  Add | Sub | Mul | DivUnsigned | DivSigned | RemUnsigned | RemSigned.
Inductive ShiftOp : Set := ShlLeft | RightUnsigned | RightSigned.
Inductive RotateOp : Set := RotLeft | RotRight.
Inductive BitCountOp : Set := Ones | LeadingZeros | TrailingZeros.
Inductive CompareOp : Set := CEq | CNe | LtUnsigned | GeUnsigned | LtSigned | GeSigned.

#[export] Instance BinaryOp_eq_dec : EqDecision BinaryOp.
Proof. solve_decision. Defined.
#[export] Instance ShiftOp_eq_dec : EqDecision ShiftOp.
Proof. solve_decision. Defined.
#[export] Instance RotateOp_eq_dec : EqDecision RotateOp.
Proof. solve_decision. Defined.
#[export] Instance BitCountOp_eq_dec : EqDecision BitCountOp.
Proof. solve_decision. Defined.
#[export] Instance CompareOp_eq_dec : EqDecision CompareOp.
Proof. solve_decision. Defined.

(** i64 results; [as u64] is [wrap 64]. *)
Definition signed_value (ty : Ty) (b : Z) : Z :=
  let shift := 64 - bits ty in
  Z.shiftr (to_signed 64 (Z.shiftl b shift)) shift.

Definition shift_count (ty : Ty) (count : Z) : Z :=
  Z.land count (if decide (ty = I64) then 63 else 31).

Definition rotate_count (ty : Ty) (count : Z) : Z := Z.land count (bits ty - 1).

(** [checked_div] and [checked_rem] on u64 and i64. *)
Definition checked_udiv (a b : Z) : option Z := if b =? 0 then None else Some (a / b).
Definition checked_urem (a b : Z) : option Z := if b =? 0 then None else Some (a mod b).
Definition i64_overflows (a b : Z) : bool := (a =? - 2 ^ 63) && (b =? -1).
Definition checked_sdiv (a b : Z) : option Z :=
  if (b =? 0) || i64_overflows a b then None else Some (Z.quot a b).
Definition checked_srem (a b : Z) : option Z :=
  if (b =? 0) || i64_overflows a b then None else Some (Z.rem a b).

Definition int_binary (ty : Ty) (operator : BinaryOp) (left right : Z) : option Z :=
  match operator with
  | Add => Some (wrap 64 (left + right))
  | Sub => Some (wrap 64 (left - right))
  | Mul => Some (wrap 64 (left * right))
  | DivUnsigned => checked_udiv left right
  | RemUnsigned => checked_urem left right
  | DivSigned =>
      let left := signed_value ty left in
      let right := signed_value ty right in
      if bool_decide (ty = I32) && (left =? - 2 ^ 31) && (right =? -1) then None
      else wrap 64 <$> checked_sdiv left right
  | RemSigned =>
      let left := signed_value ty left in
      let right := signed_value ty right in
      if (left =? - 2 ^ 63) && (right =? -1) then Some 0
      else wrap 64 <$> checked_srem left right
  end.

Definition int_compare (ty : Ty) (operator : CompareOp) (left right : Z) : bool :=
  match operator with
  | CEq => left =? right
  | CNe => negb (left =? right)
  | LtUnsigned => left <? right
  | GeUnsigned => right <=? left
  | LtSigned => signed_value ty left <? signed_value ty right
  | GeSigned => signed_value ty right <=? signed_value ty left
  end.

Definition int_shift (ty : Ty) (operator : ShiftOp) (value count : Z) : Z :=
  let count := shift_count ty count in
  match operator with
  | ShlLeft => wrap 64 (Z.shiftl value count)
  | RightUnsigned => Z.shiftr value count
  | RightSigned => wrap 64 (Z.shiftr (signed_value ty value) count)
  end.

Definition int_rotate (ty : Ty) (operator : RotateOp) (value count : Z) : Z :=
  let count := rotate_count ty count in
  if count =? 0 then value
  else
    let remaining := bits ty - count in
    match operator with
    | RotLeft => Z.lor (wrap 64 (Z.shiftl value count)) (Z.shiftr value remaining)
    | RotRight => Z.lor (Z.shiftr value count) (wrap 64 (Z.shiftl value remaining))
    end.

(** [count_ones], [trailing_zeros] and [trailing_ones] of the standard library. *)
Fixpoint popcount_pos (p : positive) : Z :=
  match p with
  | xH => 1
  | xO p => popcount_pos p
  | xI p => 1 + popcount_pos p
  end.
Definition count_ones (z : Z) : Z := match z with Zpos p => popcount_pos p | _ => 0 end.

Fixpoint ctz_pos (p : positive) : Z :=
  match p with xO p => 1 + ctz_pos p | _ => 0 end.
Definition trailing_zeros (w z : Z) : Z := match z with Zpos p => ctz_pos p | _ => w end.
Definition trailing_ones (w z : Z) : Z := trailing_zeros w (bnot w z).

Definition int_bit_count (ty : Ty) (operator : BitCountOp) (value : Z) : Z :=
  let width := bits ty in
  match operator with
  | Ones => count_ones value
  | LeadingZeros => leading_zeros 64 value - (64 - width)
  | TrailingZeros => Z.min (trailing_zeros 64 value) width
  end.

Definition is_power_of_two (z : Z) : bool := count_ones z =? 1.

(** ** bitwise.rs *)

Inductive BitwiseOp : Set := And | Or | Xor.
#[export] Instance BitwiseOp_eq_dec : EqDecision BitwiseOp.
Proof. solve_decision. Defined.

Definition bit_fn (operator : BitwiseOp) : Z -> Z -> Z :=
  match operator with And => Z.land | Or => Z.lor | Xor => Z.lxor end.

Definition bitwise_apply (operator : BitwiseOp) (left right : Literal) : Literal :=
  lit128 (bit_fn operator (lit_u128 left) (lit_u128 right)).

(** ** Facts about widths and masks *)

Lemma bits_pos ty : 1 <= bits ty <= 128.
Proof. destruct ty; simpl; lia. Qed.

Lemma scalar_bits ty : is_scalar ty = true -> 1 <= bits ty <= 64.
Proof. destruct ty; simpl; done || lia. Qed.

Lemma integer_scalar ty : is_integer ty = true -> is_scalar ty = true.
Proof. by destruct ty. Qed.

Lemma carrier_idemp ty : carrier (carrier ty) = carrier ty.
Proof. by destruct ty. Qed.
Lemma carrier_scalar ty : is_scalar (carrier ty) = is_scalar ty.
Proof. by destruct ty. Qed.
Lemma carrier_integer ty : is_integer (carrier ty) = is_integer ty.
Proof. by destruct ty. Qed.
Lemma bits_carrier ty : bits ty <= bits (carrier ty).
Proof. destruct ty; simpl; lia. Qed.
Lemma carrier_not_V64 ty : carrier ty <> V64.
Proof. by destruct ty. Qed.

Lemma low_mask_ones b : 0 <= b <= 64 -> low_mask b = Z.ones b.
Proof.
  intros H. unfold low_mask.
  destruct (Z.leb_spec 0 (64 - b)); [|lia].
  destruct (Z.ltb_spec (64 - b) 64); simpl.
  - bitwise.
  - assert (b = 0) as -> by lia. done.
Qed.

Lemma mask_ones ty : is_scalar ty = true -> mask ty = Z.ones (bits ty).
Proof. intros H. apply low_mask_ones. pose proof (scalar_bits ty H). lia. Qed.

Lemma normalize_wrap ty b : is_scalar ty = true -> normalize ty b = wrap (bits ty) b.
Proof.
  intros H. unfold normalize. rewrite mask_ones by done.
  pose proof (bits_pos ty). by rewrite wrap_land by lia.
Qed.

Lemma to_signed_shift w n z : 0 < n -> n <= w ->
  Z.shiftr (to_signed w (Z.shiftl z (w - n))) (w - n) = to_signed n z.
Proof.
  intros Hn Hw. unfold to_signed.
  assert (wrap w (Z.shiftl z (w - n)) = wrap n z * 2 ^ (w - n)) as ->.
  { unfold wrap. rewrite Z.shiftl_mul_pow2 by lia.
    replace (2 ^ w) with (2 ^ n * 2 ^ (w - n)) by (rewrite <- Z.pow_add_r by lia; f_equal; lia).
    rewrite Z.mul_mod_distr_r; [done| |]; apply Z.pow_nonzero; lia. }
  pose proof (pow2_pos (w - n) ltac:(lia)) as Hp.
  assert (2 ^ (w - 1) = 2 ^ (n - 1) * 2 ^ (w - n)) as Hs
    by (rewrite <- Z.pow_add_r by lia; f_equal; lia).
  assert (2 ^ w = 2 ^ n * 2 ^ (w - n)) as Hw2
    by (rewrite <- Z.pow_add_r by lia; f_equal; lia).
  rewrite Z.shiftr_div_pow2 by lia. rewrite Hs, Hw2. cbv zeta.
  destruct (Z.ltb_spec (wrap n z * 2 ^ (w - n)) (2 ^ (n - 1) * 2 ^ (w - n))) as [H|H];
  destruct (Z.ltb_spec (wrap n z) (2 ^ (n - 1))) as [H'|H']; try nia.
  - rewrite Z.div_mul by lia. done.
  - replace (wrap n z * 2 ^ (w - n) - 2 ^ n * 2 ^ (w - n))
      with ((wrap n z - 2 ^ n) * 2 ^ (w - n)) by ring.
    rewrite Z.div_mul by lia. done.
Qed.

Lemma signed_value_spec ty b : is_scalar ty = true ->
  signed_value ty b = to_signed (bits ty) b.
Proof.
  intros H. pose proof (scalar_bits ty H). unfold signed_value.
  apply (to_signed_shift 64 (bits ty) b); lia.
Qed.

(** ** Literals as words *)

(** Both fields are u64 words. *)
Definition lit_words (l : Literal) : Prop := fits 64 (low l) /\ fits 64 (high l).

(** A literal that is its own encoding at [ty]: what [Literal::normalize] returns. *)
Definition lit_ok (ty : Ty) (l : Literal) : Prop := lit_words l /\ lit_normalize l ty = l.

Lemma lit_ext l l' : low l = low l' -> high l = high l' -> l = l'.
Proof. destruct l, l'; simpl; congruence. Qed.

Lemma lit128_words z : lit_words (lit128 z).
Proof. split; apply wrap_fits; lia. Qed.
Lemma lit_words_lit z : fits 64 z -> lit_words (lit z).
Proof. intros. split; [done | by apply fits_0]. Qed.

Lemma lit_u128_fits l : lit_words l -> fits 128 (lit_u128 l).
Proof.
  intros [Hl Hh]. apply fits_of_bits; [lia|]. intros i Hi. unfold lit_u128.
  rewrite Z.lor_spec, testbit_shiftl by lia.
  rewrite (fits_testbit 64 (low l)), (fits_testbit 64 (high l)) by (done || lia). btauto.
Qed.

Lemma lit128_u128 l : lit_words l -> lit128 (lit_u128 l) = l.
Proof.
  intros [Hl Hh]. unfold lit128, lit_u128. apply lit_ext; cbn [low high];
    apply Z.bits_inj'; intros i Hi; autorewrite with testbit.
  - destruct (Z.ltb_spec i 64); cbn [andb]; [|by rewrite (fits_testbit 64)].
    destruct (Z.leb_spec 64 i); [lia|]. apply orb_false_r.
  - destruct (Z.ltb_spec i 64); cbn [andb]; [|by rewrite (fits_testbit 64)].
    rewrite (fits_testbit 64 (low l)) by (done || lia).
    destruct (Z.leb_spec 0 i), (Z.leb_spec 64 (i + 64)); [|lia..]. cbn [andb orb].
    f_equal; lia.
Qed.

Lemma u128_lit128 z : fits 128 z -> lit_u128 (lit128 z) = z.
Proof.
  intros H. unfold lit_u128, lit128; cbn [low high].
  apply Z.bits_inj'; intros i Hi; autorewrite with testbit.
  destruct (Z.ltb_spec i 64), (Z.leb_spec 64 i); try lia; cbn [andb orb].
  - apply orb_false_r.
  - destruct (Z.ltb_spec (i - 64) 64), (Z.leb_spec 0 (i - 64)); try lia; cbn [andb].
    + f_equal; lia.
    + rewrite (fits_testbit 128) by (done || lia). done.
Qed.

Lemma u128_lit z : lit_u128 (lit z) = z.
Proof. unfold lit_u128, lit; cbn [low high]. rewrite Z.shiftl_0_l. apply Z.lor_0_r. Qed.

Lemma lit_u128_inj l l' : lit_words l -> lit_words l' -> lit_u128 l = lit_u128 l' -> l = l'.
Proof. intros H H' E. rewrite <- (lit128_u128 l), <- (lit128_u128 l') by done. by rewrite E. Qed.

Lemma lit128_small z : fits 64 z -> lit128 z = lit z.
Proof.
  intros H. apply lit_u128_inj; [apply lit128_words | by apply lit_words_lit |].
  rewrite u128_lit, u128_lit128; [done|]. eapply fits_mono; [|exact H]. lia.
Qed.

Lemma lit_normalize_scalar l ty : is_scalar ty = true ->
  lit_normalize l ty = lit (wrap (bits ty) (low l)).
Proof.
  intros H. unfold lit_normalize. destruct (decide (ty = V64)) as [->|]; [done|].
  rewrite H. unfold lit_u64. by rewrite normalize_wrap.
Qed.

Lemma lit_normalize_V128 l : lit_normalize l V128 = l.
Proof. done. Qed.

Lemma lit_normalize_words l ty : lit_words l -> lit_words (lit_normalize l ty).
Proof.
  intros Hw. destruct (is_scalar ty) eqn:Hs.
  - rewrite lit_normalize_scalar by done. apply lit_words_lit.
    pose proof (scalar_bits ty Hs). eapply fits_mono; [|apply wrap_fits; lia]. lia.
  - destruct ty; try done. apply lit_words_lit, Hw.
Qed.

Lemma lit_normalize_idemp l ty : lit_normalize (lit_normalize l ty) ty = lit_normalize l ty.
Proof.
  destruct (is_scalar ty) eqn:Hs.
  - rewrite !lit_normalize_scalar by done. cbn [lit low]. by rewrite wrap_wrap.
  - by destruct ty.
Qed.

Lemma lit_normalize_ok l ty : lit_words l -> lit_ok ty (lit_normalize l ty).
Proof. split; [by apply lit_normalize_words | apply lit_normalize_idemp]. Qed.

(** Carrier normalization is absorbed by logical normalization. *)
Lemma lit_normalize_carrier l ty : lit_words l ->
  lit_normalize (lit_normalize l (carrier ty)) ty = lit_normalize l ty.
Proof.
  intros Hw. destruct (is_scalar ty) eqn:Hs.
  - rewrite !lit_normalize_scalar by (rewrite ?carrier_scalar; done). cbn [lit low].
    f_equal. apply wrap_idem_le. pose proof (bits_pos ty). pose proof (bits_carrier ty). lia.
  - by destruct ty.
Qed.

Lemma lit_ok_scalar ty l : is_scalar ty = true ->
  lit_ok ty l <-> fits (bits ty) (low l) /\ l = lit (low l).
Proof.
  intros Hs. pose proof (scalar_bits ty Hs). split.
  - intros [_ Hn]. rewrite lit_normalize_scalar in Hn by done.
    rewrite <- Hn. cbn [lit low]. split; [apply wrap_fits; lia | done].
  - intros [Hf ->]. split.
    + apply lit_words_lit. eapply fits_mono; [|exact Hf]. lia.
    + rewrite lit_normalize_scalar by done. cbn [lit low] in *. by rewrite wrap_small.
Qed.

Lemma lit_ok_lit ty z : is_scalar ty = true -> fits (bits ty) z -> lit_ok ty (lit z).
Proof. intros. by apply lit_ok_scalar. Qed.

Lemma lit_ok_carrier ty l : lit_ok ty l -> lit_ok (carrier ty) l.
Proof.
  intros [Hw Hn]. destruct (is_scalar ty) eqn:Hs.
  - apply lit_ok_scalar; [by rewrite carrier_scalar|].
    destruct (proj1 (lit_ok_scalar ty l Hs) (conj Hw Hn)) as [Hf He].
    split; [|done]. eapply fits_mono; [apply bits_carrier | done].
  - by destruct ty.
Qed.

Lemma rotate_count_mod ty c : is_integer ty = true -> rotate_count ty c = c mod bits ty.
Proof.
  intros Hi. unfold rotate_count.
  assert (exists k, 0 <= k /\ bits ty = 2 ^ k) as (k & Hk & ->).
  { destruct ty; try done; [exists 0|exists 3|exists 4|exists 5|exists 6]; done. }
  rewrite <- Z.land_ones by done. by rewrite Z.ones_equiv, Z.sub_1_r.
Qed.
