(* ===== verification/Val.v ===== *)
(** * Integer values of generated code

    crates/compiler/src/value.rs as its clients read it: what each operation of
    [Val<T>] yields when the built code runs, on the logical bits of the
    operands. The definitions follow integer.rs (Types.v), which the compiler's
    folding and lowering agree on; the agreement lemmas are at the end of the
    first section. An I1 is a [bool]. *)

From S2P Require Import Prelude Types.
Local Open Scope Z_scope.

Definition vadd (t : Ty) (a b : Z) : Z := wrap (bits t) (a + b).
Definition vsub (t : Ty) (a b : Z) : Z := wrap (bits t) (a - b).
Definition vmul (t : Ty) (a b : Z) : Z := wrap (bits t) (a * b).

(** Division traps on a zero divisor and on signed overflow. *)
Definition vdiv (t : Ty) (signed : bool) (a b : Z) : option Z :=
  normalize t <$> int_binary t (if signed then DivSigned else DivUnsigned) a b.
Definition vrem (t : Ty) (signed : bool) (a b : Z) : option Z :=
  normalize t <$> int_binary t (if signed then RemSigned else RemUnsigned) a b.

Definition vshl (t : Ty) (v count : Z) : Z := wrap (bits t) (Z.shiftl v (shift_count t count)).
Definition vshr (t : Ty) (v count : Z) : Z := Z.shiftr v (shift_count t count).
Definition vsar (t : Ty) (v count : Z) : Z :=
  wrap (bits t) (Z.shiftr (signed_value t v) (shift_count t count)).
Definition vrotl (t : Ty) (v count : Z) : Z := normalize t (int_rotate t RotLeft v count).
Definition vrotr (t : Ty) (v count : Z) : Z := normalize t (int_rotate t RotRight v count).

Definition vpopcnt (t : Ty) (v : Z) : Z := int_bit_count t Ones v.
Definition vclz (t : Ty) (v : Z) : Z := int_bit_count t LeadingZeros v.
Definition vctz (t : Ty) (v : Z) : Z := int_bit_count t TrailingZeros v.

(** Conversions keep low bits; [sign_extend] widens from [from]. *)
Definition truncate (t : Ty) (v : Z) : Z := wrap (bits t) v.
Definition truncate1 (v : Z) : bool := Z.testbit v 0.
Definition sign_extend (from t : Ty) (v : Z) : Z := wrap (bits t) (signed_value from v).

Definition select {A} (c : bool) (a b : A) : A := if c then a else b.

(** Literals: an i32 sign-extends, a u32 zero-extends, to the type's low bits. *)
Definition literal (t : Ty) (z : Z) : Z := wrap (bits t) z.

(** ** Agreement with integer.rs *)

Lemma shift_count_lt_64 t c : 0 <= shift_count t c < 64.
Proof.
  unfold shift_count. destruct (decide _).
  - change 63 with (Z.ones 6). rewrite Z.land_ones by lia. apply (Z.mod_pos_bound c 64). lia.
  - change 31 with (Z.ones 5). rewrite Z.land_ones by lia.
    pose proof (Z.mod_pos_bound c (2 ^ 5) ltac:(lia)). change (2 ^ 5) with 32 in *. lia.
Qed.

Section Agreement.
#[local] Set Default Proof Using "All".
Context (t : Ty) (Ht : is_integer t = true).

Local Lemma width_bound : 1 <= bits t <= 64.
Proof. apply scalar_bits, integer_scalar, Ht. Qed.

Lemma normalize_wrap64 z : normalize t (wrap 64 z) = wrap (bits t) z.
Proof.
  rewrite normalize_wrap by (by apply integer_scalar). apply wrap_idem_le.
  pose proof width_bound. lia.
Qed.

Lemma vadd_integer a b : normalize t <$> int_binary t Add a b = Some (vadd t a b).
Proof. cbn [int_binary fmap option_fmap option_map]. by rewrite normalize_wrap64. Qed.
Lemma vsub_integer a b : normalize t <$> int_binary t Sub a b = Some (vsub t a b).
Proof. cbn [int_binary fmap option_fmap option_map]. by rewrite normalize_wrap64. Qed.
Lemma vmul_integer a b : normalize t <$> int_binary t Mul a b = Some (vmul t a b).
Proof. cbn [int_binary fmap option_fmap option_map]. by rewrite normalize_wrap64. Qed.
Lemma vshl_integer v c : normalize t (int_shift t ShlLeft v c) = vshl t v c.
Proof. unfold int_shift; cbv zeta. by rewrite normalize_wrap64. Qed.
Lemma vsar_integer v c : normalize t (int_shift t RightSigned v c) = vsar t v c.
Proof. unfold int_shift; cbv zeta. by rewrite normalize_wrap64. Qed.
Lemma vshr_fits v c : fits (bits t) v -> fits (bits t) (vshr t v c).
Proof.
  intros [H0 H1]. pose proof (shift_count_lt_64 t c). unfold vshr. split; [by apply Z.shiftr_nonneg|].
  rewrite Z.shiftr_div_pow2 by lia. eapply Z.le_lt_trans; [|exact H1].
  apply Z.div_le_upper_bound; [apply pow2_pos; lia|]. pose proof (pow2_pos (shift_count t c)). nia.
Qed.
Lemma vshr_integer v c : fits (bits t) v -> normalize t (int_shift t RightUnsigned v c) = vshr t v c.
Proof.
  intros Hv. unfold int_shift; cbv zeta. rewrite normalize_wrap by (by apply integer_scalar).
  apply wrap_small. by apply vshr_fits.
Qed.

End Agreement.

(** Counts below 32 shift by themselves. *)
Lemma shift_count_small t c : 0 <= c < 32 -> shift_count t c = c.
Proof.
  intros H. unfold shift_count. destruct (decide _).
  - change 63 with (Z.ones 6). rewrite Z.land_ones by lia. apply Z.mod_small. change (2 ^ 6) with 64. lia.
  - change 31 with (Z.ones 5). rewrite Z.land_ones by lia. apply Z.mod_small. change (2 ^ 5) with 32. lia.
Qed.
Lemma shift_count_64 c : 0 <= c < 64 -> shift_count I64 c = c.
Proof.
  intros H. unfold shift_count. rewrite decide_True by done. change 63 with (Z.ones 6).
  rewrite Z.land_ones by lia. apply Z.mod_small. change (2 ^ 6) with 64. lia.
Qed.

#[export] Hint Unfold vadd vsub vmul vshl vshr vsar truncate truncate1 sign_extend select literal : val.
