(* ===== verification/Flags.v ===== *)
(** * x86 flags and conditions

    crates/x86/src/flags.rs, flags/mask.rs and flags/condition.rs: the logical
    flags, sets of them, and the sixteen conditions with the status bits each
    reads. Storage of the flags is CpuFlags.v, changes to them Alu.v. *)

From S2P Require Import Prelude Types.
Local Open Scope Z_scope.

(** ** flags.rs *)

Inductive StatusFlag : Set := CF | PF | AF | ZF | SF | OF.
#[export] Instance StatusFlag_eq_dec : EqDecision StatusFlag.
Proof. solve_decision. Defined.

Definition status_all : list StatusFlag := [CF; PF; AF; ZF; SF; OF].
(** [flag as usize]. *)
Definition status_index (flag : StatusFlag) : nat :=
  match flag with CF => 0 | PF => 1 | AF => 2 | ZF => 3 | SF => 4 | OF => 5 end%nat.

Inductive Flag : Set := Status (flag : StatusFlag) | TF | DF | NT | AC | ID | IF.
#[export] Instance Flag_eq_dec : EqDecision Flag.
Proof. solve_decision. Defined.

Definition flag_all : list Flag :=
  [Status CF; Status PF; Status AF; Status ZF; Status SF; Status OF; TF; DF; NT; AC; ID; IF].

Definition flag_index (flag : Flag) : nat :=
  match flag with
  | Status flag => status_index flag
  | TF => 6 | DF => 7 | NT => 8 | AC => 9 | ID => 10 | IF => 11
  end%nat.

Lemma elem_of_status_all f : f ∈ status_all.
Proof. destruct f; set_solver. Qed.
Lemma elem_of_flag_all f : f ∈ flag_all.
Proof. destruct f as [[]| | | | | |]; unfold flag_all; set_solver. Qed.
Lemma status_index_lookup f : status_all !! status_index f = Some f.
Proof. by destruct f. Qed.
Lemma flag_index_lookup f : flag_all !! flag_index f = Some f.
Proof. by destruct f as [[]| | | | | |]. Qed.
Lemma status_index_lt f : (status_index f < 6)%nat.
Proof. destruct f; simpl; lia. Qed.

(** ** flags/mask.rs: a u16 with a bit per flag *)

Module FlagMask.

Definition EMPTY : Z := 0.
Definition STATUS : Z := Z.shiftl 1 6 - 1.
Definition ALL : Z := Z.shiftl 1 12 - 1.
Definition of_flag (flag : Flag) : Z := Z.shiftl 1 (Z.of_nat (flag_index flag)).
Definition union (m o : Z) : Z := Z.lor m o.
Definition intersection (m o : Z) : Z := Z.land m o.
Definition intersects (m o : Z) : bool := negb (Z.land m o =? 0).
Definition covers (m o : Z) : bool := Z.land m o =? o.
Definition contains (m : Z) (flag : Flag) : bool := intersects m (of_flag flag).
Definition without (m : Z) (flag : Flag) : Z := Z.land m (bnot 16 (of_flag flag)).
Definition flags (m : Z) : list Flag := filter (fun f => contains m f = true) flag_all.
Definition status_flags (m : Z) : list StatusFlag :=
  filter (fun f => contains m (Status f) = true) status_all.

(** The bit of a flag in a mask. *)
Definition bit (flag : Flag) : Z := Z.of_nat (flag_index flag).

Lemma bit_range f : 0 <= bit f < 12.
Proof. unfold bit. destruct f as [[]| | | | | |]; simpl; lia. Qed.

Lemma bit_inj f g : bit f = bit g -> f = g.
Proof.
  unfold bit. intros H%Nat2Z.inj. apply (f_equal (fun i => flag_all !! i)) in H.
  rewrite !flag_index_lookup in H. congruence.
Qed.

Lemma contains_bit m f : contains m f = Z.testbit m (bit f).
Proof. unfold contains, intersects, of_flag. apply (has_bit m (bit f)). unfold bit. lia. Qed.

Lemma testbit_of f i : 0 <= i -> Z.testbit (of_flag f) i = (i =? bit f).
Proof.
  intros Hi. unfold of_flag. fold (bit f). pose proof (bit_range f).
  rewrite Z.shiftl_1_l, Z.pow2_bits_eqb by lia. apply Z.eqb_sym.
Qed.

Lemma contains_of f g : contains (of_flag f) g = bool_decide (f = g).
Proof.
  rewrite contains_bit, testbit_of by apply bit_range.
  destruct (Z.eqb_spec (bit g) (bit f)) as [H|H].
  - symmetry. apply bool_decide_eq_true. symmetry. by apply bit_inj.
  - symmetry. apply bool_decide_eq_false. by intros ->.
Qed.

Lemma contains_union m o f : contains (union m o) f = contains m f || contains o f.
Proof. rewrite !contains_bit. apply Z.lor_spec. Qed.
Lemma contains_intersection m o f : contains (intersection m o) f = contains m f && contains o f.
Proof. rewrite !contains_bit. apply Z.land_spec. Qed.
Lemma contains_empty f : contains EMPTY f = false.
Proof. rewrite contains_bit. apply Z.testbit_0_l. Qed.
Lemma contains_all f : contains ALL f = true.
Proof. by destruct f as [[]| | | | | |]. Qed.
Lemma contains_status f : contains STATUS f = match f with Status _ => true | _ => false end.
Proof. by destruct f as [[]| | | | | |]. Qed.
Lemma contains_without m f g : contains (without m f) g = contains m g && negb (bool_decide (f = g)).
Proof.
  unfold without. rewrite contains_bit, Z.land_spec, <- contains_bit. f_equal.
  pose proof (bit_range g). rewrite testbit_bnot, testbit_of by lia.
  rewrite (proj2 (Z.ltb_lt (bit g) 16)), xorb_true_r by lia. f_equal.
  rewrite <- (testbit_of f), <- contains_bit by lia. apply contains_of.
Qed.

(** Masks are sets of flags: what [covers] and [intersects] mean. *)
Definition mask_ok (m : Z) : Prop := fits 12 m.

Lemma covers_spec m o : mask_ok o -> covers m o = true <->
  forall f, contains o f = true -> contains m f = true.
Proof.
  intros Ho. unfold covers. rewrite Z.eqb_eq. split.
  - intros H f. rewrite !contains_bit, <- H, Z.land_spec. intros [? _]%andb_true_iff. done.
  - intros H. apply Z.bits_inj'. intros i Hi. rewrite Z.land_spec.
    destruct (Z.testbit o i) eqn:E; [|btauto]. rewrite andb_true_r.
    assert (i < 12) as Hlt.
    { destruct (decide (i < 12)); [done|]. rewrite (fits_testbit 12 o) in E by (done || lia). done. }
    assert (exists f, bit f = i) as [f <-].
    { destruct (flag_all !! Z.to_nat i) as [f|] eqn:Hf.
      - exists f. unfold bit. rewrite <- (Z2Nat.id i) by done. f_equal.
        eapply (NoDup_lookup flag_all); [|apply flag_index_lookup|done].
        apply (bool_decide_unpack _). vm_compute. exact I.
      - apply lookup_ge_None in Hf. simpl in Hf. lia. }
    rewrite <- contains_bit in *. by apply H.
Qed.

Lemma not_intersects_spec m o f : intersects m o = false -> contains m f = true -> contains o f = false.
Proof.
  unfold intersects. rewrite negb_false_iff, Z.eqb_eq, !contains_bit. intros H Hm.
  apply (f_equal (fun z => Z.testbit z (bit f))) in H. rewrite Z.land_spec, Hm, Z.testbit_0_l in H. done.
Qed.

Lemma elem_of_status_flags m f : f ∈ status_flags m <-> contains m (Status f) = true.
Proof. unfold status_flags. rewrite list_elem_of_filter. pose proof (elem_of_status_all f). naive_solver. Qed.

Lemma of_ok f : mask_ok (of_flag f).
Proof. destruct f as [[]| | | | | |]; apply (bool_decide_unpack _); vm_compute; exact I. Qed.
Lemma union_ok m o : mask_ok m -> mask_ok o -> mask_ok (union m o).
Proof. apply fits_lor. lia. Qed.
Lemma intersection_ok m o : mask_ok m -> mask_ok (intersection m o).
Proof. apply fits_land_l. lia. Qed.

End FlagMask.

(** ** flags/condition.rs *)

Inductive Condition : Set :=
  O_ | NO | B | AE | E | NE | BE | A | S_ | NS | P | NP | L | GE | LE | G.
#[export] Instance Condition_eq_dec : EqDecision Condition.
Proof. solve_decision. Defined.

(** [self as u8]: the low four opcode bits. *)
Definition condition_code (c : Condition) : Z :=
  match c with
  | O_ => 0 | NO => 1 | B => 2 | AE => 3 | E => 4 | NE => 5 | BE => 6 | A => 7
  | S_ => 8 | NS => 9 | P => 10 | NP => 11 | L => 12 | GE => 13 | LE => 14 | G => 15
  end.

Definition CANONICAL : list Condition := [O_; B; E; BE; S_; P; L; LE].

Definition canonical (c : Condition) : Condition :=
  nth (Z.to_nat (Z.shiftr (condition_code c) 1)) CANONICAL O_.

Definition is_inverted (c : Condition) : bool := has (condition_code c) 1.

Definition from_code (code : Z) : Condition :=
  match Z.land code 15 with
  | 0 => O_ | 1 => NO | 2 => B | 3 => AE | 4 => E | 5 => NE | 6 => BE | 7 => A
  | 8 => S_ | 9 => NS | 10 => P | 11 => NP | 12 => L | 13 => GE | 14 => LE
  | _ => G
  end.

(** [None] is the unreachable arm: [canonical] gives no other condition. *)
Definition canonical_flags (c : Condition) : option Z :=
  let one f := FlagMask.of_flag (Status f) in
  match c with
  | O_ => Some (one OF)
  | B => Some (one CF)
  | E => Some (one ZF)
  | BE => Some (FlagMask.union (one CF) (one ZF))
  | S_ => Some (one SF)
  | P => Some (one PF)
  | L => Some (FlagMask.union (one SF) (one OF))
  | LE => Some (FlagMask.union (FlagMask.union (one ZF) (one SF)) (one OF))
  | _ => None
  end.
Definition condition_flags (c : Condition) : Z :=
  default FlagMask.EMPTY (canonical_flags (canonical c)).

(** [StatusFlag::condition] of flags.rs. *)
Definition flag_condition (flag : StatusFlag) : option Condition :=
  match flag with
  | CF => Some B
  | PF => Some P
  | AF => None
  | ZF => Some E
  | SF => Some S_
  | OF => Some O_
  end.

(** The comparisons of value.rs on a type's logical bits. *)
Definition ult (a b : Z) : bool := a <? b.
Definition uge (a b : Z) : bool := b <=? a.
Definition slt (t : Ty) (a b : Z) : bool := signed_value t a <? signed_value t b.
Definition sge (t : Ty) (a b : Z) : bool := signed_value t b <=? signed_value t a.

Definition operand_comparison (t : Ty) (c : Condition) : option (Z -> Z -> bool) :=
  match c with
  | B => Some (fun left right => ult left right)
  | AE => Some (fun left right => uge left right)
  | E => Some (fun left right => left =? right)
  | NE => Some (fun left right => negb (left =? right))
  | BE => Some (fun left right => uge right left)
  | A => Some (fun left right => ult right left)
  | L => Some (fun left right => slt t left right)
  | GE => Some (fun left right => sge t left right)
  | LE => Some (fun left right => sge t right left)
  | G => Some (fun left right => slt t right left)
  | _ => None
  end.

Definition logic_result_comparison (c : Condition) : option (Z -> bool) :=
  match c with
  | E => Some (fun result => result =? 0)
  | NE => Some (fun result => negb (result =? 0))
  | _ => None
  end.

(** [evaluate] with its fallible callback; [x.eq(0)] of an I1 is [negb]. *)
Definition evaluate (c : Condition) (read : StatusFlag -> option bool) : option bool :=
  match c with
  | O_ => read OF
  | NO => negb <$> read OF
  | B => read CF
  | AE => negb <$> read CF
  | E => read ZF
  | NE => negb <$> read ZF
  | BE => cf ← read CF; zf ← read ZF; Some (cf || zf)
  | A => cf ← read CF; zf ← read ZF; Some (negb (cf || zf))
  | S_ => read SF
  | NS => negb <$> read SF
  | P => read PF
  | NP => negb <$> read PF
  | L => sf ← read SF; o ← read OF; Some (xorb sf o)
  | GE => sf ← read SF; o ← read OF; Some (negb (xorb sf o))
  | LE => zf ← read ZF; sf ← read SF; o ← read OF; Some (zf || xorb sf o)
  | G => zf ← read ZF; sf ← read SF; o ← read OF; Some (negb (zf || xorb sf o))
  end.

(** The condition of six known flags. *)
Definition holds (c : Condition) (flags : StatusFlag -> bool) : bool :=
  match c with
  | O_ => flags OF
  | NO => negb (flags OF)
  | B => flags CF
  | AE => negb (flags CF)
  | E => flags ZF
  | NE => negb (flags ZF)
  | BE => flags CF || flags ZF
  | A => negb (flags CF || flags ZF)
  | S_ => flags SF
  | NS => negb (flags SF)
  | P => flags PF
  | NP => negb (flags PF)
  | L => xorb (flags SF) (flags OF)
  | GE => negb (xorb (flags SF) (flags OF))
  | LE => flags ZF || xorb (flags SF) (flags OF)
  | G => negb (flags ZF || xorb (flags SF) (flags OF))
  end.

Lemma evaluate_total c flags : evaluate c (fun f => Some (flags f)) = Some (holds c flags).
Proof. by destruct c. Qed.

(** [evaluate] reads only the condition's flags. *)
Lemma evaluate_reads c read flags :
  (forall f, FlagMask.contains (condition_flags c) (Status f) = true -> read f = Some (flags f)) ->
  evaluate c read = Some (holds c flags).
Proof.
  intros H. destruct c; cbn [evaluate holds]; rewrite ?H by reflexivity; reflexivity.
Qed.

Lemma holds_inverted c flags :
  holds c flags = if is_inverted c then negb (holds (canonical c) flags) else holds (canonical c) flags.
Proof. by destruct c. Qed.

Lemma canonical_idemp c : canonical (canonical c) = canonical c.
Proof. by destruct c. Qed.
Lemma canonical_not_inverted c : is_inverted (canonical c) = false.
Proof. by destruct c. Qed.
Lemma condition_flags_canonical c : condition_flags (canonical c) = condition_flags c.
Proof. by destruct c. Qed.
Lemma condition_flags_ok c : FlagMask.mask_ok (condition_flags c).
Proof. destruct c; apply (bool_decide_unpack _); vm_compute; exact I. Qed.
Lemma from_condition_code c : from_code (condition_code c) = c.
Proof. by destruct c. Qed.
Lemma flag_condition_holds f c flags : flag_condition f = Some c -> holds c flags = flags f.
Proof. destruct f; cbn [flag_condition]; intros; by simplify_eq. Qed.
Lemma flag_condition_flags f c : flag_condition f = Some c -> condition_flags c = FlagMask.of_flag (Status f).
Proof. destruct f; cbn [flag_condition]; intros; by simplify_eq. Qed.

Lemma holds_ext c flags flags' :
  (forall f, FlagMask.contains (condition_flags c) (Status f) = true -> flags f = flags' f) ->
  holds c flags = holds c flags'.
Proof. intros H. destruct c; cbn [holds]; by rewrite ?H by reflexivity. Qed.
