(* ===== verification/Alu.v ===== *)
(** * The x86 arithmetic unit

    crates/x86/src/alu.rs, alu/*.rs and flags/changes.rs: results of the scalar
    integer operations, the flags each defines, and the numeric conditions that
    fault. The sources build expressions; the definitions give the values those
    expressions have when the code runs (Val.v), for an operand type [t] that is
    the sources' [T]: [bits t] is [T::BYTES * 8]. *)

From S2P Require Import Prelude Types Val Flags.
Local Open Scope Z_scope.

(** ** alu.rs *)

Definition bit (t : Ty) (value index : Z) : bool := truncate1 (vshr t value index).

(** [result_flag]; the other flags do not depend on the result alone. *)
Definition parity (t : Ty) (result : Z) : bool :=
  Z.land (vpopcnt t (Z.land result (literal t 255))) 1 =? 0.
Definition result_flag (t : Ty) (result : Z) (flag : StatusFlag) : bool :=
  match flag with
  | PF => parity t result
  | ZF => result =? 0
  | SF => bit t result (bits t - 1)
  | _ => false
  end.

(** ** alu/arithmetic.rs and alu/logic.rs: flag equations *)

Inductive ArithmeticOp : Set := Add | Subtract.
#[export] Instance ArithmeticOp_eq_dec : EqDecision ArithmeticOp.
Proof. solve_decision. Defined.

Definition arith_result (op : ArithmeticOp) (t : Ty) (left right : Z) : Z :=
  match op with Add => vadd t left right | Subtract => vsub t left right end.

Definition arith_result_with_carry (op : ArithmeticOp) (t : Ty) (left right : Z) (carry : bool) : Z :=
  arith_result op t (arith_result op t left right) (Z.b2z carry).

Definition arith_flag (op : ArithmeticOp) (t : Ty) (left right result : Z) (carry_in : bool)
    (flag : StatusFlag) : bool :=
  match flag with
  | CF =>
      let '(l, r) := match op with Add => (result, left) | Subtract => (left, right) end in
      select carry_in (uge r l) (ult l r)
  | AF => bit t (Z.lxor (Z.lxor left right) result) 4
  | OF =>
      let left_xor_result := Z.lxor left result in
      let overflow_pair := match op with Add => Z.lxor right result | Subtract => Z.lxor left right end in
      bit t (Z.land left_xor_result overflow_pair) (bits t - 1)
  | PF | ZF | SF => result_flag t result flag
  end.

Definition logic_flag (t : Ty) (result : Z) (flag : StatusFlag) : bool :=
  match flag with
  | CF | OF | AF => false
  | PF | ZF | SF => result_flag t result flag
  end.

(** ** alu/status.rs *)

Inductive StatusSource : Set :=
| Arithmetic (operation : ArithmeticOp) (left right result : Z)
| Logic (result : Z)
| Explicit (flags : list bool).

Definition source_flag (t : Ty) (s : StatusSource) (flag : StatusFlag) : bool :=
  match s with
  | Arithmetic operation l r result => arith_flag operation t l r result false flag
  | Logic result => logic_flag t result flag
  | Explicit flags => nth (status_index flag) flags false
  end.

(** The shortcuts of [condition], and its fall back on the flags. *)
Definition source_shortcut (t : Ty) (s : StatusSource) (c : Condition) : option bool :=
  match s with
  | Arithmetic Subtract l r _ =>
      (fun compare => compare l r) <$> operand_comparison t c
  | Logic result => (fun compare => compare result) <$> logic_result_comparison c
  | _ => None
  end.
Definition source_condition (t : Ty) (s : StatusSource) (c : Condition) : bool :=
  match source_shortcut t s c with
  | Some value => value
  | None => default false (evaluate c (fun flag => Some (source_flag t s flag)))
  end.

Inductive AnyStatusSource : Set :=
| Byte (source : StatusSource)
| Word (source : StatusSource)
| Dword (source : StatusSource).

(** [Into<AnyStatusSource>], implemented for I8, I16 and I32. *)
Definition into_any (t : Ty) (s : StatusSource) : AnyStatusSource :=
  match t with I8 => Byte s | I16 => Word s | _ => Dword s end.

Definition any_flag (s : AnyStatusSource) (flag : StatusFlag) : bool :=
  match s with
  | Byte s => source_flag I8 s flag
  | Word s => source_flag I16 s flag
  | Dword s => source_flag I32 s flag
  end.
Definition any_condition (s : AnyStatusSource) (c : Condition) : bool :=
  match s with
  | Byte s => source_condition I8 s c
  | Word s => source_condition I16 s c
  | Dword s => source_condition I32 s c
  end.

(** ** flags/changes.rs *)

Inductive FlagValues : Set :=
| FromStatus (source : AnyStatusSource)
| Values (flags : list (option bool)).

Record FlagChange : Set := mkChange {
  condition : option bool;
  values : FlagValues;
  writes : Z }.

Definition partial (flags : list (Flag * bool)) : FlagChange :=
  let '(vs, ws) := foldl (fun '(vs, ws) '(flag, value) =>
      (<[flag_index flag := Some value]> vs, FlagMask.union ws (FlagMask.of_flag flag)))
    (replicate 12 None, FlagMask.EMPTY) flags in
  mkChange None (Values vs) ws.

Definition when (c : FlagChange) (cond : bool) : FlagChange :=
  mkChange (Some match condition c with Some previous => previous && cond | None => cond end)
           (values c) (writes c).

(** [None]: the assertion that the change defines the flag, or a missing value. *)
Definition change_flag (c : FlagChange) (flag : Flag) : option bool :=
  if FlagMask.contains (writes c) flag then
    match values c, flag with
    | FromStatus source, Status flag => Some (any_flag source flag)
    | FromStatus _, _ => None
    | Values flags, _ => mjoin (flags !! flag_index flag)
    end
  else None.

Definition retaining (c : FlagChange) (m : Z) : FlagChange :=
  let ws := FlagMask.intersection (writes c) m in
  mkChange (condition c)
    match values c with
    | FromStatus source => FromStatus source
    | Values flags =>
        Values (imap (fun i v => match flag_all !! i with
                                 | Some flag => if FlagMask.contains ws flag then v else None
                                 | None => v
                                 end) flags)
    end ws.

Definition preserving (c : FlagChange) (flag : Flag) : FlagChange :=
  retaining c (FlagMask.without FlagMask.ALL flag).

Definition status_source (c : FlagChange) (needed : Z) : option AnyStatusSource :=
  match values c with
  | FromStatus source => if FlagMask.covers (writes c) needed then Some source else None
  | Values _ => None
  end.

Definition from_source (t : Ty) (s : StatusSource) : FlagChange :=
  mkChange None (FromStatus (into_any t s)) FlagMask.STATUS.

(** The flags after a change, from the flags before it. *)
Definition updated (c : FlagChange) (old : Flag -> bool) (flag : Flag) : bool :=
  if default true (condition c) then default (old flag) (change_flag c flag) else old flag.

Record AluResult : Set := mkAlu { result : Z; flags : FlagChange }.

(** ** alu/arithmetic.rs: the operations *)

Definition arith_apply (op : ArithmeticOp) (t : Ty) (left right : Z) : AluResult :=
  let result := arith_result op t left right in
  mkAlu result (from_source t (Arithmetic op left right result)).

Definition arith_apply_with_carry (op : ArithmeticOp) (t : Ty) (left right : Z) (carry_in : bool)
    : AluResult :=
  let result := arith_result_with_carry op t left right carry_in in
  mkAlu result
    (from_source t (Explicit (arith_flag op t left right result carry_in <$> status_all))).

(** ** alu/logic.rs *)

Inductive LogicOp : Set := And | Or | Xor.
Definition logic_apply (op : LogicOp) (t : Ty) (left right : Z) : AluResult :=
  let result :=
    match op with And => Z.land left right | Or => Z.lor left right | Xor => Z.lxor left right end in
  mkAlu result (from_source t (Logic result)).

(** ** alu/unary.rs *)

Inductive UnaryOp : Set := Increment | Decrement | Negate | Not | ByteSwap.

Definition byte_swap (t : Ty) (input : Z) : option Z :=
  match t with
  | I16 => Some 0
  | I32 => Some (Z.lor (Z.land (vrotl t input 8) (literal t 16711935))
                       (Z.land (vrotr t input 8) (literal t 4278255360)))
  | _ => None
  end.

(** [None]: BSWAP at a width it does not have. *)
Definition unary_apply (op : UnaryOp) (t : Ty) (input : Z) : option AluResult :=
  let step op :=
    let outcome := arith_apply op t input (literal t 1) in
    Some (mkAlu (result outcome) (preserving (flags outcome) (Status CF))) in
  match op with
  | Increment => step Add
  | Decrement => step Subtract
  | Negate => Some (arith_apply Subtract t (literal t 0) input)
  | Not => Some (mkAlu (Z.lxor input (literal t (-1))) (partial []))
  | ByteSwap => (fun result => mkAlu result (partial [])) <$> byte_swap t input
  end.

(** ** alu/update.rs *)

Inductive OperandUpdate : Set :=
| UAdd (value : Z)
| UAddWithCarry (source : Z) (carry : bool)
| USubtract (value : Z)
| USubtractWithBorrow (source : Z) (borrow : bool)
| UAnd (value : Z)
| UOr (value : Z)
| UXor (value : Z)
| UNegate
| UExchange (value : Z)
| UCompareExchange (expected replacement : Z).

Definition update_apply (t : Ty) (u : OperandUpdate) (previous : Z) : Z :=
  match u with
  | UAdd value => arith_result Add t previous value
  | UAddWithCarry source carry => arith_result_with_carry Add t previous source carry
  | USubtract value => arith_result Subtract t previous value
  | USubtractWithBorrow source borrow => arith_result_with_carry Subtract t previous source borrow
  | UAnd value => Z.land previous value
  | UOr value => Z.lor previous value
  | UXor value => Z.lxor previous value
  | UNegate => vsub t (literal t 0) previous
  | UExchange value => value
  | UCompareExchange expected replacement => select (expected =? previous) replacement previous
  end.
