(* ===== verification/AluFacts.v ===== *)
(** * What the arithmetic flags mean

    The flag equations of alu/arithmetic.rs against the integers they describe,
    and the conditions of alu/status.rs against the six flags. *)

From S2P Require Import Prelude Types Val Flags Alu.
Local Open Scope Z_scope.

(** The operand types of [AnyStatusSource]. *)
Definition operand_type (t : Ty) : Prop := t = I8 \/ t = I16 \/ t = I32.
#[export] Instance operand_type_dec t : Decision (operand_type t).
Proof. unfold operand_type. apply _. Defined.

Lemma operand_type_bits t : operand_type t -> 8 <= bits t <= 32.
Proof. intros [->|[->| ->]]; simpl; lia. Qed.
Lemma operand_type_integer t : operand_type t -> is_integer t = true.
Proof. by intros [->|[->| ->]]. Qed.

(** ** Bits *)

Lemma bit_testbit t v i : 0 <= i < 32 -> bit t v i = Z.testbit v i.
Proof.
  intros Hi. unfold bit, truncate1, vshr. rewrite shift_count_small by done.
  rewrite Z.shiftr_spec by lia. f_equal.
Qed.

Lemma testbit_ge z n : 0 <= n -> fits (n + 1) z -> Z.testbit z n = (2 ^ n <=? z).
Proof.
  intros Hn [H0 H1]. rewrite Z.pow_add_r, Z.pow_1_r in H1 by lia.
  pose proof (pow2_pos n Hn) as Hp. rewrite Z.testbit_eqb by done.
  destruct (Z.leb_spec (2 ^ n) z).
  - replace (z / 2 ^ n) with 1; [done|]. apply (Z.div_unique z (2 ^ n) 1 (z - 2 ^ n)); lia.
  - rewrite Z.div_small by lia. done.
Qed.

Lemma to_signed_fits w z : 0 < w -> fits w z ->
  to_signed w z = if 2 ^ (w - 1) <=? z then z - 2 ^ w else z.
Proof.
  intros Hw Hz. unfold to_signed. rewrite wrap_small by done. cbv zeta.
  destruct (Z.ltb_spec z (2 ^ (w - 1))), (Z.leb_spec (2 ^ (w - 1)) z); done || lia.
Qed.

Lemma bool_decide_iff b P `{Decision P} : (b = true <-> P) -> b = bool_decide P.
Proof. intros Hb. destruct b; symmetry; [apply bool_decide_eq_true | apply bool_decide_eq_false]; naive_solver. Qed.

(** A bit of a sum or difference is the operands' bits and the carry into it. *)
Lemma testbit_add_carry a b c k : 0 <= k -> 0 <= c <= 1 ->
  Z.testbit (a + b + c) k
  = xorb (xorb (Z.testbit a k) (Z.testbit b k)) (2 ^ k <=? a mod 2 ^ k + b mod 2 ^ k + c).
Proof.
  intros Hk Hc. pose proof (pow2_pos k Hk) as Hp. rewrite !Z.testbit_odd, !Z.shiftr_div_pow2 by done.
  pose proof (Z.mod_pos_bound a (2 ^ k) Hp). pose proof (Z.mod_pos_bound b (2 ^ k) Hp).
  pose proof (Z.div_mod a (2 ^ k) ltac:(lia)) as Ha. pose proof (Z.div_mod b (2 ^ k) ltac:(lia)) as Hb.
  destruct (Z.leb_spec (2 ^ k) (a mod 2 ^ k + b mod 2 ^ k + c)).
  - replace ((a + b + c) / 2 ^ k) with (a / 2 ^ k + b / 2 ^ k + 1).
    + by rewrite !Z.odd_add.
    + apply (Z.div_unique _ _ _ (a mod 2 ^ k + b mod 2 ^ k + c - 2 ^ k)); [lia|].
      rewrite Ha at 1. rewrite Hb at 1. ring.
  - replace ((a + b + c) / 2 ^ k) with (a / 2 ^ k + b / 2 ^ k).
    + rewrite !Z.odd_add. by rewrite xorb_false_r.
    + apply (Z.div_unique _ _ _ (a mod 2 ^ k + b mod 2 ^ k + c)); [lia|].
      rewrite Ha at 1. rewrite Hb at 1. ring.
Qed.

Lemma testbit_sub_borrow a b c k : 0 <= k -> 0 <= c <= 1 ->
  Z.testbit (a - b - c) k
  = xorb (xorb (Z.testbit a k) (Z.testbit b k)) (a mod 2 ^ k <? b mod 2 ^ k + c).
Proof.
  intros Hk Hc. pose proof (pow2_pos k Hk) as Hp. rewrite !Z.testbit_odd, !Z.shiftr_div_pow2 by done.
  pose proof (Z.mod_pos_bound a (2 ^ k) Hp). pose proof (Z.mod_pos_bound b (2 ^ k) Hp).
  pose proof (Z.div_mod a (2 ^ k) ltac:(lia)) as Ha. pose proof (Z.div_mod b (2 ^ k) ltac:(lia)) as Hb.
  destruct (Z.ltb_spec (a mod 2 ^ k) (b mod 2 ^ k + c)).
  - replace ((a - b - c) / 2 ^ k) with (a / 2 ^ k - b / 2 ^ k - 1).
    + by rewrite !Z.odd_sub.
    + apply (Z.div_unique _ _ _ (a mod 2 ^ k - b mod 2 ^ k - c + 2 ^ k)); [lia|].
      rewrite Ha at 1. rewrite Hb at 1. ring.
  - replace ((a - b - c) / 2 ^ k) with (a / 2 ^ k - b / 2 ^ k).
    + rewrite !Z.odd_sub. by rewrite xorb_false_r.
    + apply (Z.div_unique _ _ _ (a mod 2 ^ k - b mod 2 ^ k - c)); [lia|].
      rewrite Ha at 1. rewrite Hb at 1. ring.
Qed.

(** ** Two's complement *)

Lemma to_signed_in_range n z : 0 < n -> - 2 ^ (n - 1) <= z < 2 ^ (n - 1) -> to_signed n z = z.
Proof.
  intros Hn Hz. pose proof (pow2_half n Hn) as Hh. pose proof (pow2_pos (n - 1) ltac:(lia)).
  unfold to_signed. cbv zeta. destruct (decide (0 <= z)).
  - rewrite wrap_small by (split; lia). destruct (Z.ltb_spec z (2 ^ (n - 1))); lia.
  - assert (wrap n z = z + 2 ^ n) as ->.
    { unfold wrap. symmetry. apply (Z.mod_unique z (2 ^ n) (-1)); lia. }
    destruct (Z.ltb_spec (z + 2 ^ n) (2 ^ (n - 1))); lia.
Qed.

Lemma to_signed_wrap_le n m z : 0 < n <= m -> to_signed n (wrap m z) = to_signed n z.
Proof. intros. unfold to_signed. by rewrite wrap_idem_le by lia. Qed.

Lemma wrap_to_signed n z : 0 < n -> wrap n (to_signed n z) = wrap n z.
Proof.
  intros. unfold to_signed. cbv zeta. destruct (_ <? _); [by apply wrap_wrap|].
  replace (wrap n z - 2 ^ n) with (wrap n z + (-1) * 2 ^ n) by lia. unfold wrap at 1.
  rewrite Z.mod_add by (pose proof (pow2_pos n); lia). apply wrap_wrap.
Qed.

Lemma to_signed_eq_literal n z k : 0 < n -> fits n z -> - 2 ^ (n - 1) <= k < 2 ^ (n - 1) ->
  z = wrap n k <-> to_signed n z = k.
Proof.
  intros Hn Hz Hk. split.
  - intros ->. rewrite to_signed_wrap_le by lia. by apply to_signed_in_range.
  - intros <-. rewrite wrap_to_signed by done. symmetry. by apply wrap_small.
Qed.

Lemma to_signed_zero_iff n z : 0 < n -> fits n z -> to_signed n z = 0 <-> z = 0.
Proof.
  intros Hn Hz. rewrite <- (to_signed_eq_literal n z 0); [by rewrite wrap_small by (apply fits_0; lia)|done..|].
  pose proof (pow2_pos (n - 1) ltac:(lia)). lia.
Qed.

Lemma quot_bound a b m : b <> 0 -> - m <= a <= m -> - m <= Z.quot a b <= m.
Proof.
  intros Hb Ha. assert (Z.abs (Z.quot a b) <= m); [|lia].
  rewrite <- Z.quot_abs by done. rewrite Z.quot_div_nonneg by lia. apply Z.div_le_upper_bound; nia.
Qed.

(** ** The integers the flags describe *)

(** [left op right] with a carry or borrow, unbounded. *)
Definition exact (op : ArithmeticOp) (left right : Z) (carry : bool) : Z :=
  match op with
  | Add => left + right + Z.b2z carry
  | Subtract => left - right - Z.b2z carry
  end.

(** The flags of an operation on [w]-bit words, from the integers alone. *)
Definition arith_meaning (op : ArithmeticOp) (w left right : Z) (carry : bool) (flag : StatusFlag) : bool :=
  let unsigned := exact op left right carry in
  let signed := exact op (to_signed w left) (to_signed w right) carry in
  match flag with
  | CF => bool_decide (~ fits w unsigned)
  | PF => Z.even (count_ones (wrap 8 unsigned))
  | AF => bool_decide (~ fits 4 (exact op (wrap 4 left) (wrap 4 right) carry))
  | ZF => bool_decide (wrap w unsigned = 0)
  | SF => bool_decide (to_signed w unsigned < 0)
  | OF => bool_decide (~ - 2 ^ (w - 1) <= signed < 2 ^ (w - 1))
  end.

Lemma arith_result_exact op t l r carry : arith_result_with_carry op t l r carry
  = wrap (bits t) (exact op l r carry).
Proof.
  unfold arith_result_with_carry, exact. destruct op; cbn [arith_result]; unfold vadd, vsub;
    by rewrite ?wrap_add_l, ?wrap_sub_l.
Qed.

Lemma arith_result_no_carry op t l r : arith_result op t l r = wrap (bits t) (exact op l r false).
Proof. destruct op; cbn; unfold vadd, vsub; f_equal; lia. Qed.

Section Meaning.
Context (t : Ty) (Ht : operand_type t).
#[local] Set Default Proof Using "All".
Notation w := (bits t).

Lemma parity_meaning z : parity t (wrap w z) = Z.even (count_ones (wrap 8 z)).
Proof.
  pose proof (operand_type_bits t Ht). unfold parity, vpopcnt, int_bit_count, literal.
  rewrite (wrap_small w 255); [|split; [lia|]; apply Z.lt_le_trans with (2 ^ 8); [done|];
    apply Z.pow_le_mono_r; lia].
  change 255 with (Z.ones 8). rewrite <- wrap_land, wrap_idem_le by lia.
  set (n := count_ones _). change 1 with (Z.ones 1). rewrite Z.land_ones by lia. change (2 ^ 1) with 2.
  rewrite Zmod_even. by destruct (Z.even n).
Qed.

Lemma wrap_range op l r carry : fits w l -> fits w r ->
  exists k, wrap w (exact op l r carry) = exact op l r carry + k * 2 ^ w
    /\ match op with Add => k = -1 \/ k = 0 | Subtract => k = 0 \/ k = 1 end
    /\ fits w (wrap w (exact op l r carry)).
Proof.
  intros [Hl0 Hl1] [Hr0 Hr1]. pose proof (operand_type_bits t Ht).
  pose proof (pow2_pos w ltac:(lia)) as Hp. unfold exact.
  assert (0 <= Z.b2z carry <= 1) as Hc by (destruct carry; simpl; lia).
  set (z := match op with Add => _ | Subtract => _ end).
  exists (- (z / 2 ^ w)). split; [unfold wrap; rewrite Z.mod_eq by lia; ring|].
  split; [|apply wrap_fits; lia].
  assert (match op with Add => 0 <= z / 2 ^ w < 2 | Subtract => -1 <= z / 2 ^ w < 1 end).
  { destruct op; split; (apply Z.div_le_lower_bound || apply Z.div_lt_upper_bound); unfold z; lia. }
  destruct op; lia.
Qed.

(** The equations of [ArithmeticOp::flag] compute the meaning. *)
Lemma arith_flag_meaning op l r carry flag : fits w l -> fits w r ->
  arith_flag op t l r (wrap w (exact op l r carry)) carry flag = arith_meaning op w l r carry flag.
Proof.
  intros Hl Hr. pose proof (operand_type_bits t Ht) as Hw.
  destruct (wrap_range op l r carry Hl Hr) as (k & Hk & Hkr & Hf).
  pose proof (pow2_pos w ltac:(lia)) as Hp. pose proof (pow2_half w ltac:(lia)) as Hhalf.
  assert (0 <= Z.b2z carry <= 1) as Hc by (destruct carry; simpl; lia).
  set (res := wrap w (exact op l r carry)) in *.
  assert (forall z, fits w z -> Z.testbit z (w - 1) = (2 ^ (w - 1) <=? z)) as Hmsb
    by (intros z Hz; apply testbit_ge; [lia|]; by replace (w - 1 + 1) with w by lia).
  destruct flag; cbn [arith_flag arith_meaning].
  - apply bool_decide_iff. unfold fits in *. unfold uge, ult, select.
    destruct op, carry, Hkr as [->| ->]; cbn [exact Z.b2z] in *; rewrite ?Z.leb_le, ?Z.ltb_lt; lia.
  - apply parity_meaning.
  - rewrite bit_testbit, !Z.lxor_spec by lia. unfold res. rewrite testbit_wrap by lia.
    rewrite (proj2 (Z.ltb_lt 4 w)) by lia. cbn [andb]. apply bool_decide_iff.
    pose proof (wrap_fits 4 l ltac:(lia)). pose proof (wrap_fits 4 r ltac:(lia)).
    unfold fits in *. destruct op; cbn [exact];
      [rewrite testbit_add_carry by lia|rewrite testbit_sub_borrow by lia];
      fold (wrap 4 l) (wrap 4 r); change (2 ^ 4) with 16 in *;
      destruct (Z.testbit l 4), (Z.testbit r 4); cbn [xorb]; rewrite ?Z.leb_le, ?Z.ltb_lt;
      try (destruct (Z.leb_spec 16 (wrap 4 l + wrap 4 r + Z.b2z carry)); cbn; lia);
      try (destruct (Z.ltb_spec (wrap 4 l) (wrap 4 r + Z.b2z carry)); cbn; lia).
  - unfold result_flag. fold res. apply bool_decide_iff. apply Z.eqb_eq.
  - unfold result_flag. rewrite bit_testbit, Hmsb by (done || lia). apply bool_decide_iff.
    rewrite Z.leb_le. unfold to_signed. fold res. cbv zeta. unfold fits in Hf.
    destruct (Z.ltb_spec res (2 ^ (w - 1))); lia.
  - rewrite bit_testbit, Z.land_spec by lia. apply bool_decide_iff.
    rewrite !to_signed_fits by (done || lia). unfold fits in *.
    destruct op, Hkr as [->| ->]; rewrite !Z.lxor_spec, !Hmsb by done; cbn [exact] in *;
      destruct (Z.leb_spec (2 ^ (w - 1)) l), (Z.leb_spec (2 ^ (w - 1)) r),
        (Z.leb_spec (2 ^ (w - 1)) res); cbn [xorb andb]; lia.
Qed.

End Meaning.

Lemma nth_status_all (f : StatusFlag -> bool) flag : nth (status_index flag) (f <$> status_all) false = f flag.
Proof. by destruct flag. Qed.

Lemma any_flag_into t s flag : operand_type t -> any_flag (into_any t s) flag = source_flag t s flag.
Proof. by intros [->|[->| ->]]. Qed.
Lemma any_condition_into t s c : operand_type t -> any_condition (into_any t s) c = source_condition t s c.
Proof. by intros [->|[->| ->]]. Qed.

Lemma change_flag_from_source t s flag : operand_type t ->
  change_flag (from_source t s) (Status flag) = Some (source_flag t s flag).
Proof.
  intros Ht. unfold change_flag, from_source; cbn [writes values].
  rewrite FlagMask.contains_status. f_equal. by apply any_flag_into.
Qed.

(** C27 Addition and subtraction at byte, word and dword width, with an incoming
    carry or borrow or without one, give the wrapped result and the flags of the
    unbounded integers: CF and OF report an unsigned and a signed result out of
    range, AF a carry or borrow out of the low digit, ZF, SF and PF the result's
    zero, sign and low-byte parity. *)
Theorem arithmetic_flags_correct (t : Ty) (op : ArithmeticOp) (l r : Z) (carry : bool) (flag : StatusFlag) :
  operand_type t -> fits (bits t) l -> fits (bits t) r ->
  let with_carry := arith_apply_with_carry op t l r carry in
  let plain := arith_apply op t l r in
  result with_carry = wrap (bits t) (exact op l r carry)
  /\ change_flag (flags with_carry) (Status flag) = Some (arith_meaning op (bits t) l r carry flag)
  /\ result plain = wrap (bits t) (exact op l r false)
  /\ change_flag (flags plain) (Status flag) = Some (arith_meaning op (bits t) l r false flag).
Proof.
  intros Ht Hl Hr. cbv zeta. unfold arith_apply_with_carry, arith_apply; cbn [result flags].
  rewrite !change_flag_from_source by done. cbn [source_flag].
  rewrite nth_status_all, arith_result_exact, arith_result_no_carry, !arith_flag_meaning by done. done.
Qed.

(** A source as the arithmetic unit builds it. *)
Definition source_ok (t : Ty) (s : StatusSource) : Prop :=
  match s with
  | Arithmetic op l r res => fits (bits t) l /\ fits (bits t) r /\ res = arith_result op t l r
  | Logic res => fits (bits t) res
  | Explicit flags => length flags = 6%nat
  end.
#[export] Instance source_ok_dec t s : Decision (source_ok t s).
Proof. unfold source_ok. destruct s; apply _. Defined.

Definition any_ok (s : AnyStatusSource) : Prop :=
  match s with Byte s => source_ok I8 s | Word s => source_ok I16 s | Dword s => source_ok I32 s end.
#[export] Instance any_ok_dec s : Decision (any_ok s).
Proof. unfold any_ok. destruct s; apply _. Defined.

(** Comparing the operands answers what their difference's flags answer. *)
Lemma operand_comparison_correct t c compare l r : operand_type t ->
  fits (bits t) l -> fits (bits t) r -> operand_comparison t c = Some compare ->
  compare l r = holds c (arith_meaning Subtract (bits t) l r false).
Proof.
  intros Ht Hl Hr Hc. pose proof (operand_type_bits t Ht) as Hw.
  pose proof (pow2_half (bits t) ltac:(lia)) as Hhalf.
  pose proof (integer_scalar t (operand_type_integer t Ht)) as Hs.
  destruct (wrap_range t Ht Subtract l r false Hl Hr) as (k & Hk & Hkr & Hf).
  assert (slt t l r = (to_signed (bits t) l <? to_signed (bits t) r)
    /\ slt t r l = (to_signed (bits t) r <? to_signed (bits t) l)
    /\ sge t l r = (to_signed (bits t) r <=? to_signed (bits t) l)
    /\ sge t r l = (to_signed (bits t) l <=? to_signed (bits t) r)) as (E1 & E2 & E3 & E4)
    by (unfold slt, sge; by rewrite !signed_value_spec).
  destruct c; cbn [operand_comparison] in Hc; simplify_eq; rewrite ?E1, ?E2, ?E3, ?E4;
    cbn [holds arith_meaning]; unfold ult, uge, to_signed; rewrite ?(wrap_small (bits t) l), ?(wrap_small (bits t) r) by done;
    set (res := wrap (bits t) (exact Subtract l r false)) in *; unfold fits in *; cbn [exact Z.b2z] in *; cbv zeta;
    destruct (Z.ltb_spec l (2 ^ (bits t - 1))), (Z.ltb_spec r (2 ^ (bits t - 1))),
      (Z.ltb_spec res (2 ^ (bits t - 1))), Hkr as [->| ->];
    repeat case_bool_decide; split_tests; cbn [xorb negb orb]; try done; exfalso; lia.
Qed.

Lemma source_condition_holds t s c : operand_type t -> source_ok t s ->
  source_condition t s c = holds c (source_flag t s).
Proof.
  intros Ht Hs. unfold source_condition. destruct (source_shortcut t s c) as [value|] eqn:Hshort.
  - destruct s as [op l r res|res|fl]; cbn [source_shortcut] in Hshort; [destruct op| |]; try done.
    + destruct Hs as (Hl & Hr & ->). destruct (operand_comparison t c) as [compare|] eqn:Hc; [|done].
      cbn in Hshort. simplify_eq. rewrite (operand_comparison_correct t c compare) by done.
      apply holds_ext. intros f _. cbn [source_flag].
      by rewrite arith_result_no_carry, arith_flag_meaning.
    + destruct c; cbn in Hshort; by simplify_eq.
  - by rewrite evaluate_total.
Qed.

Lemma condition_from_operands_any s c : any_ok s -> any_condition s c = holds c (any_flag s).
Proof.
  intros Hs. destruct s as [s|s|s]; apply source_condition_holds; done || (unfold operand_type; auto).
Qed.

(** A condition answered from the operands of a subtraction, or from a logical
    result, is the condition of the six flags that the same source defines; all
    sixteen conditions at byte, word and dword width, with the signed ones
    including the differences that overflow. *)
Theorem condition_from_operands (s : AnyStatusSource) (c : Condition) : any_ok s ->
  any_condition s c = holds c (any_flag s).
Proof. apply condition_from_operands_any. Qed.

Module Sample.

Example arithmetic_flags_witness :
  result (arith_apply_with_carry Subtract I8 128 127 true) = 0
  /\ change_flag (flags (arith_apply_with_carry Subtract I8 128 127 true)) (Status OF) = Some true.
Proof.
  destruct (arithmetic_flags_correct I8 Subtract 128 127 true OF) as (Hr & Hf & _).
  - left. reflexivity.
  - apply (bool_decide_unpack _). vm_compute. exact I.
  - apply (bool_decide_unpack _). vm_compute. exact I.
  - split; [rewrite Hr; vm_compute; reflexivity | rewrite Hf; vm_compute; reflexivity].
Defined.

(** [-128 < 1] is signed although the byte difference 127 is positive. *)
Example condition_witness :
  any_condition (Byte (Arithmetic Subtract 128 1 127)) L = true
  /\ holds L (any_flag (Byte (Arithmetic Subtract 128 1 127))) = true.
Proof.
  rewrite (condition_from_operands (Byte (Arithmetic Subtract 128 1 127)) L).
  - split; vm_compute; reflexivity.
  - apply (bool_decide_unpack _). vm_compute. exact I.
Defined.

End Sample.
