(* ===== verification/AluBits.v ===== *)
(** * Shifts, rotations, products and quotients of the x86 arithmetic unit

    crates/x86/src/alu: shifts.rs, rotates.rs, multiply.rs, divide.rs,
    bit_scans.rs, bit_tests.rs and adjust.rs. Counts are I32 values the callers
    have masked to five bits. *)

From S2P Require Import Prelude Types Val Flags Alu.
Local Open Scope Z_scope.

(** ** alu/shifts.rs *)

Inductive ShiftOp : Set := Left | RightLogical | RightArithmetic.
#[export] Instance ShiftOp_eq_dec : EqDecision ShiftOp.
Proof. solve_decision. Defined.
Inductive DoubleShiftOp : Set := DLeft | DRight.

Definition result_with_flags (t : Ty) (result : Z) (carry overflow : bool) (count : Z) : AluResult :=
  let overflow := overflow && (count =? 1) in
  let flags := (fun flag => match flag with
                            | CF => carry
                            | OF => overflow
                            | AF => false
                            | PF | ZF | SF => result_flag t result flag
                            end) <$> status_all in
  mkAlu result (when (from_source t (Explicit flags)) (negb (count =? 0))).

Definition shift_result (op : ShiftOp) (t : Ty) (input count : Z) : Z :=
  match op with
  | Left => vshl t input count
  | RightLogical => vshr t input count
  | RightArithmetic => vsar t input count
  end.
Definition shift_carry (op : ShiftOp) (t : Ty) (input count : Z) : bool :=
  match op with
  | Left => truncate1 (vshr t input (vsub I32 (bits t) count)) && ult count (bits t)
  | RightLogical => truncate1 (vshr t input (vsub I32 count 1)) && ult count (bits t)
  | RightArithmetic => truncate1 (vsar t input (vsub I32 count 1))
  end.
Definition shift_overflow (op : ShiftOp) (t : Ty) (input result : Z) (carry : bool) : bool :=
  match op with
  | Left => xorb (bit t result (bits t - 1)) carry
  | RightLogical => bit t input (bits t - 1)
  | RightArithmetic => false
  end.
Definition shift_apply (op : ShiftOp) (t : Ty) (input count : Z) : AluResult :=
  let result := shift_result op t input count in
  let carry := shift_carry op t input count in
  result_with_flags t result carry (shift_overflow op t input result carry) count.

Definition double_shift_result (op : DoubleShiftOp) (t : Ty) (input source count : Z) : Z :=
  let wrap_count := vsub I32 (bits t) count in
  let shifted := match op with
                 | DLeft => Z.lor (vshl I32 input count) (vshr I32 source wrap_count)
                 | DRight => Z.lor (vshr I32 input count) (vshl I32 source wrap_count)
                 end in
  select (negb (count =? 0)) (truncate t shifted) input.
Definition double_shift_carry (op : DoubleShiftOp) (t : Ty) (input count : Z) : bool :=
  match op with
  | DLeft => truncate1 (vshr t input (vsub I32 (bits t) count))
  | DRight => truncate1 (vshr t input (vsub I32 count 1))
  end && ult count (bits t + 1).
Definition double_shift_apply (op : DoubleShiftOp) (t : Ty) (input source count : Z) : AluResult :=
  let result := double_shift_result op t input source count in
  let overflow := xorb (bit t input (bits t - 1)) (bit t result (bits t - 1)) in
  result_with_flags t result (double_shift_carry op t input count) overflow count.

(** ** alu/rotates.rs *)

Inductive RotateDirection : Set := RotateLeft | RotateRight.

Definition rotate_flags (d : RotateDirection) (t : Ty) (result : Z) (carry : bool) (count : Z)
    : FlagChange :=
  let overflow :=
    match d with
    | RotateLeft => xorb (bit t result (bits t - 1)) carry
    | RotateRight => xorb (bit t result (bits t - 1)) (bit t result (bits t - 2))
    end && (count =? 1) in
  partial [(Status CF, carry); (Status OF, overflow)].

Definition rotate (d : RotateDirection) (t : Ty) (input count : Z) : AluResult :=
  let result := match d with RotateLeft => vrotl t input count | RotateRight => vrotr t input count end in
  let carry := match d with RotateLeft => bit t result 0 | RotateRight => bit t result (bits t - 1) end in
  mkAlu result (when (rotate_flags d t result carry count) (negb (count =? 0))).

(** The loop over [2 * ring_width] and [ring_width]. *)
Definition reduce_step (count multiple : Z) : Z :=
  if multiple <? 32 then select (uge count multiple) (vsub I32 count multiple) count else count.
Definition reduce_carry_count (count ring_width : Z) : Z :=
  foldl reduce_step count [2 * ring_width; ring_width].

Definition rotate_ring (d : RotateDirection) (t : Ty) (ring width count : Z) : Z :=
  let wrap_count := vsub I32 width count in
  match d with
  | RotateLeft => Z.lor (vshl t ring count) (vshr t ring wrap_count)
  | RotateRight => Z.lor (vshr t ring count) (vshl t ring wrap_count)
  end.

(** The ring is the operand below the carry, in I64 for a dword and I32 else. *)
Definition carrier_of_ring (t : Ty) : Ty := if bits t =? 32 then I64 else I32.
Definition rotate_through_carry (d : RotateDirection) (t : Ty) (input count : Z) (carry : bool)
    : AluResult :=
  let width := bits t in
  let c := carrier_of_ring t in
  let effective := reduce_carry_count count (width + 1) in
  let ring := Z.lor input (vshl c (Z.b2z carry) width) in
  let rotated := rotate_ring d c ring (width + 1) effective in
  let has_rotation := negb (effective =? 0) in
  let result := select has_rotation (truncate t rotated) input in
  let carry := select has_rotation (bit c rotated width) carry in
  mkAlu result (when (rotate_flags d t result carry count) has_rotation).

(** ** alu/multiply.rs *)

Inductive MultiplyOp : Set := MSigned | MUnsigned.

(** [DoubleWidth]. *)
Definition double (t : Ty) : Ty := match t with I8 => I16 | I16 => I32 | _ => I64 end.

(** [mul_wide] of value.rs. *)
Definition mul_wide (signed : bool) (t : Ty) (left right : Z) : Z :=
  if signed then vmul (double t) (sign_extend t (double t) left) (sign_extend t (double t) right)
  else vmul (double t) left right.

Definition multiply_result (op : MultiplyOp) (t : Ty) (left right : Z) : Z :=
  match op with MSigned => mul_wide true t left right | MUnsigned => mul_wide false t left right end.
Definition multiply_overflow (op : MultiplyOp) (t : Ty) (result : Z) : bool :=
  match op with
  | MSigned => negb (result =? sign_extend t (double t) (truncate t result))
  | MUnsigned => negb (vshr (double t) result (bits t) =? 0)
  end.
Definition multiply_apply (op : MultiplyOp) (t : Ty) (left right : Z) : AluResult :=
  let result := multiply_result op t left right in
  let overflow := multiply_overflow op t result in
  mkAlu result (from_source t (Explicit [overflow; true; false; false; false; overflow])).

(** ** alu/divide.rs *)

Inductive DivideOp : Set := DUnsigned | DSigned.

Record DivisionResult : Set := mkDivision { quotient : Z; remainder : Z; div_overflow : option bool }.

Definition input_fault (op : DivideOp) (t : Ty) (dividend divisor : Z) : bool :=
  match op with
  | DUnsigned => uge (truncate t (vshr (double t) dividend (bits t))) divisor
  | DSigned =>
      let zero := divisor =? 0 in
      if bits t =? 8 then zero
      else
        let minimum := vshl (double t) 1 (bits t * 2 - 1) in
        zero || ((dividend =? minimum) && (divisor =? literal t (-1)))
  end.

(** [None]: the division traps. Guards evaluate [input_fault] first. *)
Definition divide_apply (op : DivideOp) (t : Ty) (dividend divisor : Z) : option DivisionResult :=
  let d := double t in
  let signed := match op with DUnsigned => false | DSigned => true end in
  let divisor := if signed then sign_extend t d divisor else divisor in
  q ← vdiv d signed dividend divisor;
  let overflow :=
    match op with DUnsigned => None | DSigned => Some (negb (q =? sign_extend t d (truncate t q))) end in
  r ← vrem d signed dividend divisor;
  Some (mkDivision (truncate t q) (truncate t r) overflow).

(** ** alu/bit_scans.rs *)

Inductive BitScanOp : Set := Forward | Reverse.
Definition bit_scan_apply (op : BitScanOp) (t : Ty) (source previous : Z) : AluResult :=
  let zero := source =? 0 in
  let index := match op with
               | Forward => vctz t source
               | Reverse => vsub t (literal t (bits t - 1)) (vclz t source)
               end in
  mkAlu (select zero previous index)
    (from_source t (Explicit
      [false; Z.land (vpopcnt t source) 1 =? 0; false; zero; false; false])).

(** ** alu/bit_tests.rs *)

Inductive BitTestOp : Set := BTest | BSet | BReset | BComplement.
Definition bit_test_mask (t : Ty) (offset : Z) : Z := vshl t (literal t 1) (Z.land offset (bits t - 1)).
Definition bit_test_apply (op : BitTestOp) (t : Ty) (input offset : Z) : AluResult :=
  let index := Z.land offset (bits t - 1) in
  let carry := truncate1 (vshr t input index) in
  let mask := bit_test_mask t offset in
  let result := match op with
                | BTest => input
                | BSet => Z.lor input mask
                | BReset => Z.land input (Z.lxor mask (literal t (-1)))
                | BComplement => Z.lxor input mask
                end in
  mkAlu result (partial [(Status CF, carry)]).

(** ** alu/adjust.rs *)

Definition adjust_unpacked (op : ArithmeticOp) (accumulator : Z) (auxiliary : bool) : AluResult :=
  let adjust := uge (Z.land accumulator 15) 10 || auxiliary in
  let correction := select adjust 262 0 in
  let result := Z.land (arith_result op I16 accumulator correction) 65295 in
  mkAlu result (partial [(Status AF, adjust); (Status CF, adjust)]).

Definition adjust_packed (op : ArithmeticOp) (accumulator : Z) (auxiliary carry : bool) : AluResult :=
  let adjust_low := uge (Z.land accumulator 15) 10 || auxiliary in
  let adjust_high := uge accumulator 154 || carry in
  let correction := vadd I8 (select adjust_low 6 0) (select adjust_high 96 0) in
  let result := arith_result op I8 accumulator correction in
  let carry := match op with
               | Add => adjust_high
               | Subtract => adjust_high || (adjust_low && ult accumulator 6)
               end in
  mkAlu result (partial [(Status AF, adjust_low); (Status CF, carry);
                         (Status PF, result_flag I8 result PF); (Status ZF, result_flag I8 result ZF);
                         (Status SF, result_flag I8 result SF)]).

Definition digit_flags (result : Z) : FlagChange :=
  partial ((fun flag => (Status flag, result_flag I8 result flag)) <$> [PF; ZF; SF]).

(** [None]: a zero base traps; the caller raises #DE first. *)
Definition adjust_after_multiply (accumulator base : Z) : option AluResult :=
  high ← vdiv I8 false accumulator base;
  low ← vrem I8 false accumulator base;
  Some (mkAlu (Z.lor (vshl I16 high 8) low) (digit_flags low)).

Definition adjust_before_division (accumulator base : Z) : AluResult :=
  let high := truncate I8 (vshr I16 accumulator 8) in
  let low := vadd I8 (truncate I8 accumulator) (vmul I8 high base) in
  mkAlu low (digit_flags low).

(** ** instruction/definitions/divide.rs: the guards around a division

    [fault_if] ends the instruction with #DE when its condition holds, so the
    division runs only past the input guard. [None] would be a trap of the
    generated code; [Err] is the guest's divide error. *)
Inductive Exception : Set :=
| DivideError
| BoundRangeExceeded
| InvalidOpcode
| SegmentNotPresent (error_code : Z)
| StackFault (error_code : Z)
| GeneralProtection (error_code : Z)
| PageFault (linear_address error_code : Z)
| FloatingPoint
| SimdFloatingPoint.

Definition divide_guarded (op : DivideOp) (t : Ty) (dividend divisor : Z)
    : option (Prelude.result Exception (Z * Z)) :=
  if input_fault op t dividend divisor then Some (Err DivideError)
  else
    d ← divide_apply op t dividend divisor;
    Some (if default false (div_overflow d) then Err DivideError
          else Ok (quotient d, remainder d)).
