(* ===== verification/AluBitsFacts.v ===== *)
(** * What shifts, rotations and quotients mean

    Rotations and shifts by a count against that many one-bit steps, and the
    division guards of alu/divide.rs against exact division. *)

From S2P Require Import Prelude Types Val Flags Alu AluFacts AluBits.
Local Open Scope Z_scope.

(** ** One-bit steps on a [w]-bit operand and the carry *)

Definition rotate_step (d : RotateDirection) (w : Z) (s : Z * bool) : Z * bool :=
  let '(v, _) := s in
  match d with
  | RotateLeft => let c := Z.testbit v (w - 1) in (wrap w (2 * v + Z.b2z c), c)
  | RotateRight => let c := Z.odd v in (v / 2 + Z.b2z c * 2 ^ (w - 1), c)
  end.

Definition rotate_carry_step (d : RotateDirection) (w : Z) (s : Z * bool) : Z * bool :=
  let '(v, c) := s in
  match d with
  | RotateLeft => (wrap w (2 * v + Z.b2z c), Z.testbit v (w - 1))
  | RotateRight => (v / 2 + Z.b2z c * 2 ^ (w - 1), Z.odd v)
  end.

Lemma testbit_double v (c : bool) i : 0 <= i ->
  Z.testbit (2 * v + Z.b2z c) i = if i =? 0 then c else Z.testbit v (i - 1).
Proof.
  intros Hi. destruct (Z.eqb_spec i 0) as [->|].
  - rewrite Z.add_comm. apply Z.add_b2z_double_bit0.
  - replace i with (Z.succ (i - 1)) at 1 by lia. apply Z.testbit_succ_r. lia.
Qed.

Lemma testbit_half w v (c : bool) i : 0 < w -> fits w v -> 0 <= i ->
  Z.testbit (v / 2 + Z.b2z c * 2 ^ (w - 1)) i = if i =? w - 1 then c else Z.testbit v (i + 1).
Proof.
  intros Hw Hv Hi. change 2 with (2 ^ 1) at 1.
  rewrite <- Z.shiftr_div_pow2, <- Z.shiftl_mul_pow2 by lia.
  rewrite <- lor_add.
  - rewrite Z.lor_spec, Z.shiftr_spec, testbit_shiftl by lia.
    destruct (Z.eqb_spec i (w - 1)) as [->|].
    + rewrite Z.sub_diag, Z.b2z_bit0, (fits_testbit w v) by (done || lia).
      destruct (Z.leb_spec (w - 1) (w - 1)); [done|lia].
    + destruct (Z.leb_spec (w - 1) i); cbn [andb]; [|by rewrite orb_false_r].
      replace (Z.testbit (Z.b2z c) (i - (w - 1))) with false; [by rewrite orb_false_r|].
      destruct c; cbn [Z.b2z]; [|by rewrite Z.testbit_0_l].
      symmetry. apply (fits_testbit 1); [split; [lia|reflexivity]|lia].
  - apply Z.bits_inj'. intros j Hj. rewrite Z.land_spec, Z.shiftr_spec, testbit_shiftl, Z.testbit_0_l by lia.
    destruct (Z.leb_spec (w - 1) j); [|btauto]. rewrite (fits_testbit w v) by (done || lia). done.
Qed.

(** ** Rings: the bits of [y] are those of [x] moved up by [k], modulo [n] *)

Definition moved (n k x y : Z) : Prop :=
  fits n y /\ forall i, 0 <= i < n -> Z.testbit y i = Z.testbit x ((i - k) mod n).

Lemma moved_0 n x : 0 < n -> fits n x -> moved n 0 x x.
Proof. intros Hn Hx. split; [done|]. intros i Hi. rewrite Z.sub_0_r, Z.mod_small by done. done. Qed.

Lemma moved_trans n j k x y z : 0 < n -> moved n j x y -> moved n k y z -> moved n (j + k) x z.
Proof.
  intros Hn [_ Hy] [Hz H]. split; [done|]. intros i Hi. rewrite H by done.
  rewrite Hy by (apply Z.mod_pos_bound; lia). f_equal.
  rewrite Zminus_mod_idemp_l. f_equal. lia.
Qed.

Lemma moved_unique n k x y z : moved n k x y -> moved n k x z -> y = z.
Proof.
  intros [Hy Hb] [Hz Hb']. apply Z.bits_inj'. intros i Hi. destruct (decide (i < n)).
  - rewrite Hb, Hb' by lia. done.
  - rewrite (fits_testbit n y), (fits_testbit n z) by (done || lia). done.
Qed.

Lemma moved_mod n j k x y : 0 < n -> j mod n = k mod n -> moved n j x y -> moved n k x y.
Proof.
  intros Hn He [Hy Hb]. split; [done|]. intros i Hi. rewrite Hb by done. f_equal.
  rewrite <- (Zminus_mod_idemp_r i j), <- (Zminus_mod_idemp_r i k), He. done.
Qed.

Lemma iter_S {A} m (f : A -> A) s : Nat.iter (S m) f s = f (Nat.iter m f s).
Proof. done. Qed.

Lemma moved_iter {A} (enc : A -> Z) (step : A -> A) n k s m : 0 < n ->
  (forall s, fits n (enc s) -> moved n k (enc s) (enc (step s))) -> fits n (enc s) ->
  moved n (Z.of_nat m * k) (enc s) (enc (Nat.iter m step s)).
Proof.
  intros Hn Hstep Hs. induction m as [|m IH]; cbn [Nat.iter].
  - by apply moved_0.
  - replace (Z.of_nat (S m) * k) with (Z.of_nat m * k + k) by lia.
    eapply moved_trans; [done|exact IH|]. apply Hstep, IH.
Qed.

(** The two halves of a rotation within [n] bits. *)
Lemma moved_halves n e x y : 0 < n -> 0 <= e <= n -> fits n x ->
  (forall i, 0 <= i < n -> Z.testbit y i = (e <=? i) && Z.testbit x (i - e) || Z.testbit x (i + (n - e))) ->
  moved n e x (wrap n y).
Proof.
  intros Hn He Hx Hy. split; [apply wrap_fits; lia|]. intros i Hi.
  rewrite testbit_wrap by lia. rewrite (proj2 (Z.ltb_lt i n)) by lia. cbn [andb]. rewrite Hy by done.
  destruct (Z.leb_spec e i); cbn [andb].
  - rewrite (fits_testbit n x (i + (n - e))), orb_false_r, Z.mod_small by (done || lia). done.
  - cbn [orb]. f_equal. symmetry. replace (i - e) with (i + (n - e) + (-1) * n) by lia.
    rewrite Z.mod_add by lia. apply Z.mod_small. lia.
Qed.

(** ** ROL and ROR *)

Definition direction (d : RotateDirection) : Z := match d with RotateLeft => 1 | RotateRight => -1 end.

Lemma rotate_step_moved d w s : 0 < w -> fits w s.1 -> moved w (direction d) s.1 (rotate_step d w s).1.
Proof.
  intros Hw Hs. destruct s as [v c]; cbn [fst] in *. destruct d; cbn [rotate_step fst direction].
  - split; [apply wrap_fits; lia|]. intros i Hi. rewrite testbit_wrap, testbit_double by lia.
    rewrite (proj2 (Z.ltb_lt i w)) by lia. cbn [andb]. destruct (Z.eqb_spec i 0) as [->|].
    + f_equal. replace (0 - 1) with (w - 1 + (-1) * w) by lia. rewrite Z.mod_add by lia.
      symmetry. apply Z.mod_small. lia.
    + f_equal. symmetry. apply Z.mod_small. lia.
  - split.
    + apply fits_of_bits; [lia|]. intros i Hi. rewrite (testbit_half w) by (done || lia).
      destruct (Z.eqb_spec i (w - 1)); [lia|]. apply (fits_testbit w); [done|lia].
    + intros i Hi. rewrite (testbit_half w) by (done || lia). destruct (Z.eqb_spec i (w - 1)) as [->|].
      * rewrite <- Z.bit0_odd. f_equal. replace (w - 1 - -1) with (1 * w) by lia. symmetry. by apply Z.mod_mul; lia.
      * f_equal. replace (i - -1) with (i + 1) by lia. symmetry. apply Z.mod_small. lia.
Qed.

(** The carry after a step is the bit that went round. *)
Lemma rotate_step_carry d w s : 0 < w -> fits w s.1 ->
  (rotate_step d w s).2 = Z.testbit (rotate_step d w s).1 (match d with RotateLeft => 0 | RotateRight => w - 1 end).
Proof.
  intros Hw Hs. destruct s as [v c]; cbn [fst] in *. destruct d; cbn [rotate_step fst snd].
  - rewrite testbit_wrap, testbit_double by lia. rewrite (proj2 (Z.ltb_lt 0 w)) by lia. done.
  - rewrite (testbit_half w) by (done || lia). destruct (Z.eqb_spec (w - 1) (w - 1)); done || lia.
Qed.

Lemma land_pow2_mod c k : 0 <= k -> Z.land c (2 ^ k - 1) = c mod 2 ^ k.
Proof. intros. rewrite <- Z.land_ones by done. f_equal. rewrite Z.ones_equiv. lia. Qed.

Lemma vrot_moved d t v count : operand_type t -> fits (bits t) v ->
  moved (bits t) (count * direction d) v
    (match d with RotateLeft => vrotl t v count | RotateRight => vrotr t v count end).
Proof.
  intros Ht Hv. pose proof (operand_type_bits t Ht) as Hw.
  pose proof (integer_scalar t (operand_type_integer t Ht)) as Hs.
  assert (forall e, rotate_count t count = e -> e mod bits t = count mod bits t) as He.
  { intros e <-. rewrite rotate_count_mod by (by apply operand_type_integer). apply Z.mod_mod. lia. }
  pose proof (rotate_count_mod t count (operand_type_integer t Ht)) as Hc.
  pose proof (Z.mod_pos_bound count (bits t) ltac:(lia)) as Hr. rewrite <- Hc in Hr.
  destruct d; unfold vrotl, vrotr; rewrite normalize_wrap by done; unfold int_rotate; cbv zeta;
    set (e := rotate_count t count) in *; specialize (He e eq_refl); cbn [direction];
    destruct (Z.eqb_spec e 0) as [H0|H0].
  - rewrite wrap_small by done. apply (moved_mod _ 0); [lia| |apply moved_0; [lia|done]].
    rewrite H0 in He. by rewrite Z.mul_1_r.
  - apply (moved_mod _ e); [lia|by rewrite Z.mul_1_r|].
    apply moved_halves; [lia|lia|done|]. intros i Hi.
    rewrite Z.lor_spec, testbit_wrap, testbit_shiftl, Z.shiftr_spec by lia.
    rewrite (proj2 (Z.ltb_lt i 64)) by lia. done.
  - rewrite wrap_small by done. apply (moved_mod _ 0); [lia| |apply moved_0; [lia|done]].
    replace (count * -1) with (- count) by lia. rewrite Z.mod_0_l by lia. symmetry.
    apply Z.mod_opp_l_z; [lia|]. by rewrite <- He, H0, Z.mod_0_l by lia.
  - apply (moved_mod _ (bits t - e)); [lia| |].
    + rewrite <- (Zminus_mod_idemp_r _ e), He, Zminus_mod_idemp_r.
      replace (bits t - count) with (count * -1 + 1 * bits t) by lia. apply Z.mod_add. lia.
    + apply moved_halves; [lia|lia|done|]. intros i Hi.
      rewrite Z.lor_spec, testbit_wrap, testbit_shiftl, Z.shiftr_spec by lia.
      rewrite (proj2 (Z.ltb_lt i 64)), orb_comm by lia. cbn [andb]. do 2 f_equal. lia.
Qed.

Lemma rotate_iter_fits d w s m : 0 < w -> fits w s.1 -> fits w (Nat.iter m (rotate_step d w) s).1.
Proof.
  intros Hw Hs. apply (moved_iter fst (rotate_step d w) w (direction d) s m); [lia| |done].
  intros s' Hs'. by apply rotate_step_moved.
Qed.

Lemma rotate_value d t v carry count : operand_type t -> fits (bits t) v -> 0 <= count ->
  result (rotate d t v count) = (Nat.iter (Z.to_nat count) (rotate_step d (bits t)) (v, carry)).1.
Proof.
  intros Ht Hv Hc. pose proof (operand_type_bits t Ht) as Hw. unfold rotate; cbn [result].
  eapply moved_unique; [by apply vrot_moved|].
  rewrite <- (Z2Nat.id count Hc) at 1.
  apply (moved_iter fst (rotate_step d (bits t)) _ _ (v, carry)); [lia| |done].
  intros s Hs. by apply rotate_step_moved; [lia|].
Qed.

Lemma rotate_carry_out d t v carry count : operand_type t -> fits (bits t) v -> 0 < count ->
  match d with
  | RotateLeft => bit t (result (rotate d t v count)) 0
  | RotateRight => bit t (result (rotate d t v count)) (bits t - 1)
  end = (Nat.iter (Z.to_nat count) (rotate_step d (bits t)) (v, carry)).2.
Proof.
  intros Ht Hv Hc. pose proof (operand_type_bits t Ht) as Hw.
  rewrite (rotate_value d t v carry) by (done || lia).
  replace (Z.to_nat count) with (S (Z.to_nat (count - 1))) by lia. rewrite iter_S.
  rewrite rotate_step_carry by (lia || (apply rotate_iter_fits; [lia|done])).
  destruct d; rewrite bit_testbit by lia; done.
Qed.

(** ** RCL and RCR: the carry is the top bit of a ring one bit wider *)

Definition ring_of (w : Z) (s : Z * bool) : Z := Z.lor s.1 (Z.shiftl (Z.b2z s.2) w).

Lemma testbit_ring w s i : 0 < w -> fits w s.1 -> 0 <= i ->
  Z.testbit (ring_of w s) i = if i <? w then Z.testbit s.1 i else (i =? w) && s.2.
Proof.
  intros Hw Hs Hi. unfold ring_of. rewrite Z.lor_spec, testbit_shiftl by lia.
  destruct (Z.ltb_spec i w), (Z.leb_spec w i); try lia; cbn [andb]; [by rewrite orb_false_r|].
  rewrite (fits_testbit w) by (done || lia). cbn [orb]. destruct (Z.eqb_spec i w) as [->|]; cbn [andb].
  - by rewrite Z.sub_diag, Z.b2z_bit0.
  - apply (fits_testbit 1); [|lia]. destruct s.2; split; simpl; lia.
Qed.

Lemma ring_fits w s : 0 < w -> fits w s.1 -> fits (w + 1) (ring_of w s).
Proof.
  intros Hw Hs. apply fits_of_bits; [lia|]. intros i Hi. rewrite testbit_ring by (done || lia).
  destruct (Z.ltb_spec i w), (Z.eqb_spec i w); done || lia.
Qed.

Lemma ring_inj w s s' : 0 < w -> fits w s.1 -> fits w s'.1 -> ring_of w s = ring_of w s' -> s = s'.
Proof.
  intros Hw Hs Hs' He. assert (forall i, 0 <= i -> Z.testbit (ring_of w s) i = Z.testbit (ring_of w s') i) as Hb
    by (intros; by rewrite He).
  destruct s as [v c], s' as [v' c']; cbn [fst snd] in *. f_equal.
  - apply Z.bits_inj'. intros i Hi. specialize (Hb i Hi). rewrite !testbit_ring in Hb by done.
    cbn [fst snd] in Hb. destruct (Z.ltb_spec i w); [done|].
    rewrite (fits_testbit w v), (fits_testbit w v') by (done || lia). done.
  - specialize (Hb w ltac:(lia)). rewrite !testbit_ring in Hb by (done || lia).
    by rewrite Z.ltb_irrefl, Z.eqb_refl in Hb.
Qed.

Lemma rotate_carry_step_fits d w s : 0 < w -> fits w s.1 -> fits w (rotate_carry_step d w s).1.
Proof.
  intros Hw Hs. destruct s as [v c]; cbn [fst] in *. destruct d; cbn [rotate_carry_step fst].
  - apply wrap_fits. lia.
  - apply fits_of_bits; [lia|]. intros i Hi. rewrite (testbit_half w) by (done || lia).
    destruct (Z.eqb_spec i (w - 1)); [lia|]. apply (fits_testbit w); [done|lia].
Qed.

Lemma rotate_carry_step_moved d w s : 0 < w -> fits w s.1 ->
  moved (w + 1) (direction d) (ring_of w s) (ring_of w (rotate_carry_step d w s)).
Proof.
  intros Hw Hs. pose proof (rotate_carry_step_fits d w s Hw Hs) as Hf.
  split; [by apply ring_fits|]. intros i Hi.
  pose proof (Z.mod_pos_bound (i - direction d) (w + 1) ltac:(lia)) as Hm.
  rewrite !testbit_ring by (done || lia). clear Hf. destruct s as [v c]; cbn [fst snd] in *.
  destruct d; cbn [rotate_carry_step fst snd direction] in *.
  - assert ((i - 1) mod (w + 1) = if i =? 0 then w else i - 1) as ->.
    { destruct (Z.eqb_spec i 0) as [->|]; [|by apply Z.mod_small; lia].
      replace (0 - 1) with (w + (-1) * (w + 1)) by lia. rewrite Z.mod_add by lia. apply Z.mod_small. lia. }
    rewrite testbit_wrap, testbit_double by lia.
    destruct (Z.eqb_spec i 0) as [->|].
    + destruct (Z.ltb_spec 0 w); [|lia]. by rewrite Z.ltb_irrefl, Z.eqb_refl.
    + destruct (Z.ltb_spec i w), (Z.ltb_spec (i - 1) w); try lia; cbn [andb]; [done|].
      assert (i = w) as -> by lia. by rewrite Z.eqb_refl.
  - assert ((i - -1) mod (w + 1) = if i =? w then 0 else i + 1) as ->.
    { destruct (Z.eqb_spec i w) as [->|].
      - replace (w - -1) with (1 * (w + 1)) by lia. apply Z.mod_mul. lia.
      - replace (i - -1) with (i + 1) by lia. apply Z.mod_small. lia. }
    rewrite (testbit_half w) by (done || lia). destruct (Z.eqb_spec i w) as [->|].
    + rewrite Z.ltb_irrefl. destruct (Z.ltb_spec 0 w); [|lia]. by rewrite Z.bit0_odd.
    + destruct (Z.ltb_spec i w); [|lia]. destruct (Z.eqb_spec i (w - 1)) as [->|].
      * replace (w - 1 + 1) with w by lia. by rewrite Z.ltb_irrefl, Z.eqb_refl.
      * destruct (Z.ltb_spec (i + 1) w); [done|lia].
Qed.

Lemma rotate_carry_iter d w s m : 0 < w -> fits w s.1 ->
  fits w (Nat.iter m (rotate_carry_step d w) s).1
  /\ moved (w + 1) (Z.of_nat m * direction d) (ring_of w s) (ring_of w (Nat.iter m (rotate_carry_step d w) s)).
Proof.
  intros Hw Hs. induction m as [|m [Hf Hm]]; cbn [Nat.iter].
  - split; [done|]. apply moved_0; [lia|]. by apply ring_fits.
  - split; [by apply rotate_carry_step_fits|].
    replace (Z.of_nat (S m) * direction d) with (Z.of_nat m * direction d + direction d) by lia.
    eapply moved_trans; [lia|exact Hm|]. by apply rotate_carry_step_moved.
Qed.

(** The subtractions of [reduce_carry_count] take a masked count modulo the ring. *)
Lemma reduce_carry_count_mod t count : operand_type t -> 0 <= count < 32 ->
  reduce_carry_count count (bits t + 1) = count mod (bits t + 1).
Proof.
  intros Ht Hc. assert (forall n, n = 9 \/ n = 17 \/ n = 33 ->
    forallb (fun k => reduce_carry_count k n =? k mod n) (seqZ 0 32) = true) as Hall
    by (intros n [->|[->| ->]]; vm_compute; reflexivity).
  assert (bits t + 1 = 9 \/ bits t + 1 = 17 \/ bits t + 1 = 33) as Hn
    by (destruct Ht as [->|[->| ->]]; simpl; auto).
  specialize (Hall _ Hn). rewrite forallb_forall in Hall. apply Z.eqb_eq, Hall.
  apply list_elem_of_In, elem_of_seqZ. lia.
Qed.

Lemma carrier_of_ring_bits t : operand_type t ->
  bits t + 1 <= bits (carrier_of_ring t) /\ (bits t + 1 < 32 \/ carrier_of_ring t = I64 /\ bits t + 1 < 64).
Proof. intros [->|[->| ->]]; split; simpl; auto with lia. Qed.

Lemma ring_shift_count t c : operand_type t -> 0 <= c <= bits t + 1 -> shift_count (carrier_of_ring t) c = c.
Proof.
  intros Ht Hc. destruct (carrier_of_ring_bits t Ht) as [_ [Hb|[-> Hb]]].
  - apply shift_count_small. lia.
  - apply shift_count_64. lia.
Qed.

Lemma rotate_ring_moved d t x e : operand_type t -> fits (bits t + 1) x -> 0 <= e <= bits t + 1 ->
  moved (bits t + 1) (e * direction d) x
    (wrap (bits t + 1) (rotate_ring d (carrier_of_ring t) x (bits t + 1) e)).
Proof.
  intros Ht Hx He. pose proof (operand_type_bits t Ht) as Hw.
  destruct (carrier_of_ring_bits t Ht) as [Hb _].
  assert (vsub I32 (bits t + 1) e = bits t + 1 - e) as Hsub.
  { unfold vsub. apply wrap_small. split; [lia|]. cbn [bits]. lia. }
  unfold rotate_ring. rewrite Hsub. cbv zeta. unfold vshl, vshr.
  rewrite !ring_shift_count by (done || lia). destruct d; cbn [direction].
  - rewrite Z.mul_1_r. apply moved_halves; [lia|lia|done|]. intros i Hi.
    rewrite Z.lor_spec, testbit_wrap, testbit_shiftl, Z.shiftr_spec by lia.
    rewrite (proj2 (Z.ltb_lt i (bits (carrier_of_ring t)))) by lia. done.
  - apply (moved_mod _ (bits t + 1 - e)); [lia| |].
    + replace (bits t + 1 - e) with (e * -1 + 1 * (bits t + 1)) by lia. apply Z.mod_add. lia.
    + apply moved_halves; [lia|lia|done|]. intros i Hi.
      rewrite Z.lor_spec, testbit_wrap, testbit_shiftl, Z.shiftr_spec by lia.
      rewrite (proj2 (Z.ltb_lt i (bits (carrier_of_ring t)))), orb_comm by lia. cbn [andb]. do 2 f_equal. lia.
Qed.

Definition rotate_overflow (d : RotateDirection) (t : Ty) (result : Z) (carry : bool) : bool :=
  match d with
  | RotateLeft => xorb (Z.testbit result (bits t - 1)) carry
  | RotateRight => xorb (Z.testbit result (bits t - 1)) (Z.testbit result (bits t - 2))
  end.

Lemma updated_rotate_flags d t res carry count cond old flag : operand_type t ->
  updated (when (rotate_flags d t res carry count) cond) old flag
  = if cond then match flag with
                 | Status CF => carry
                 | Status OF => rotate_overflow d t res carry && (count =? 1)
                 | flag => old flag
                 end
    else old flag.
Proof.
  intros Ht. pose proof (operand_type_bits t Ht). unfold rotate_flags, rotate_overflow.
  rewrite !bit_testbit by lia. destruct cond; [|done].
  destruct flag as [[]| | | | | |]; reflexivity.
Qed.

Lemma rotate_through_carry_ring d t v count carry : operand_type t -> fits (bits t) v -> 0 <= count < 32 ->
  let r := rotate_through_carry d t v count carry in
  (result r, updated (flags r) (fun _ => carry) (Status CF))
  = Nat.iter (Z.to_nat count) (rotate_carry_step d (bits t)) (v, carry).
Proof.
  intros Ht Hv Hc. cbv zeta. pose proof (operand_type_bits t Ht) as Hw.
  destruct (carrier_of_ring_bits t Ht) as [Hcb _].
  unfold rotate_through_carry; cbv zeta. cbn [result flags]. rewrite updated_rotate_flags by done.
  rewrite reduce_carry_count_mod by done. set (e := count mod (bits t + 1)).
  assert (0 <= e < bits t + 1) as He by (apply Z.mod_pos_bound; lia).
  set (s := (v, carry)). assert (fits (bits t) s.1) as Hs by done.
  assert (Z.lor v (vshl (carrier_of_ring t) (Z.b2z carry) (bits t)) = ring_of (bits t) s) as ->.
  { unfold vshl, ring_of; cbn [s fst snd]. rewrite ring_shift_count by (done || lia). f_equal.
    apply wrap_small, (fits_mono (bits t + 1)); [lia|]. rewrite Z.shiftl_mul_pow2 by lia.
    unfold fits. rewrite Z.pow_add_r by lia. pose proof (pow2_pos (bits t)). destruct carry; simpl; lia. }
  set (rotated := rotate_ring d _ _ _ e).
  destruct (rotate_carry_iter d (bits t) s (Z.to_nat count) ltac:(lia) Hs) as [Hf Hm].
  assert (moved (bits t + 1) (Z.of_nat (Z.to_nat count) * direction d) (ring_of (bits t) s)
            (wrap (bits t + 1) rotated)) as Hr.
  { apply (moved_mod _ (e * direction d)); [lia| |apply rotate_ring_moved; [done|apply ring_fits; [lia|done]|lia]].
    rewrite Z2Nat.id by lia. unfold e. apply Zmult_mod_idemp_l. }
  set (s' := Nat.iter _ _ s) in *. pose proof (moved_unique _ _ _ _ _ Hr Hm) as Heq.
  destruct (Z.eqb_spec e 0) as [H0|H0]; cbn [negb select].
  - apply (ring_inj (bits t)); [lia|done|done|]. eapply moved_unique; [|exact Hm].
    apply (moved_mod _ 0); [lia| |apply moved_0; [lia|apply ring_fits; [lia|done]]].
    rewrite Z2Nat.id, Z.mod_0_l by lia. rewrite <- Zmult_mod_idemp_l. fold e. by rewrite H0.
  - assert (forall i, 0 <= i <= bits t -> Z.testbit rotated i = Z.testbit (ring_of (bits t) s') i) as Hb.
    { intros i Hi. rewrite <- Heq, testbit_wrap by lia. by rewrite (proj2 (Z.ltb_lt i (bits t + 1))) by lia. }
    rewrite (surjective_pairing s'). f_equal.
    + unfold truncate. apply Z.bits_inj'. intros i Hi. rewrite testbit_wrap by lia.
      destruct (Z.ltb_spec i (bits t)); cbn [andb].
      * rewrite Hb, testbit_ring by (done || lia). by rewrite (proj2 (Z.ltb_lt i (bits t))).
      * symmetry. apply (fits_testbit (bits t)); [done|lia].
    + unfold bit, truncate1, vshr. rewrite ring_shift_count, Z.shiftr_spec, Z.add_0_l by (done || lia).
      rewrite Hb, testbit_ring by (done || lia). by rewrite Z.ltb_irrefl, Z.eqb_refl.
Qed.

(** A one-bit rotation overflows when it changes the sign, whatever it shifts in. *)
Definition sign_changed (t : Ty) (v r : Z) : bool := xorb (Z.testbit v (bits t - 1)) (Z.testbit r (bits t - 1)).

Lemma rotate_carry_step_sign d t s : operand_type t -> fits (bits t) s.1 ->
  let s' := rotate_carry_step d (bits t) s in rotate_overflow d t s'.1 s'.2 = sign_changed t s.1 s'.1.
Proof.
  intros Ht Hs. pose proof (operand_type_bits t Ht). destruct s as [v c]; cbn [fst] in *. unfold rotate_overflow, sign_changed.
  destruct d; cbn [rotate_carry_step fst snd]; [apply xorb_comm|]. rewrite xorb_comm. f_equal.
  rewrite (testbit_half (bits t)) by (done || lia). rewrite (proj2 (Z.eqb_neq _ _)) by lia. f_equal. lia.
Qed.
Lemma rotate_step_sign d t s : operand_type t -> fits (bits t) s.1 ->
  let s' := rotate_step d (bits t) s in rotate_overflow d t s'.1 s'.2 = sign_changed t s.1 s'.1.
Proof.
  intros Ht Hs. destruct s as [v c].
  pose proof (rotate_carry_step_sign d t (v, match d with RotateLeft => Z.testbit v (bits t - 1) | RotateRight => Z.odd v end) Ht Hs) as H.
  by destruct d.
Qed.

(** OF of a rotation whose result and carry are those of its one-bit steps. *)
Lemma rotated_overflow d t v carry res c count cond old step : operand_type t -> fits (bits t) v ->
  (forall s, fits (bits t) s.1 -> rotate_overflow d t (step s).1 (step s).2 = sign_changed t s.1 (step s).1) ->
  (cond = true -> (res, c) = Nat.iter (Z.to_nat count) step (v, carry)) ->
  updated (when (rotate_flags d t res c count) cond) old (Status OF)
  = if cond then (count =? 1) && sign_changed t v res else old (Status OF).
Proof.
  intros Ht Hv Hstep Hiter. rewrite updated_rotate_flags by done. destruct cond; [|done]. specialize (Hiter eq_refl).
  destruct (Z.eqb_spec count 1) as [->|]; [|by rewrite andb_false_r]. rewrite andb_true_r. cbn [andb].
  pose proof (Hstep (v, carry) Hv) as H. change (Nat.iter (Z.to_nat 1) step (v, carry)) with (step (v, carry)) in Hiter.
  by rewrite <- Hiter in H.
Qed.

(** C29 A rotation by a count masked to five bits, of the operand alone or through
    the carry, is that many one-bit rotations: the operand and CF it leaves are
    theirs at byte, word and dword width, with counts at and past the width (and
    past the nine- or seventeen-bit ring) and with a zero count, which leaves CF
    alone. OF is defined for a rotation by a single bit alone: a count of one sets it
    when the sign changes and clears it otherwise, a greater count clears it, and it
    stays when nothing rotates, which through the carry is any multiple of the ring's width.
    No other flag changes. *)
Theorem rotations_are_iterated_steps (d : RotateDirection) (t : Ty) (v count : Z) (old : Flag -> bool) :
  operand_type t -> fits (bits t) v -> 0 <= count < 32 ->
  let carry := old (Status CF) in
  let plain := rotate d t v count in
  let through := rotate_through_carry d t v count carry in
  (result plain, updated (flags plain) old (Status CF))
    = Nat.iter (Z.to_nat count) (rotate_step d (bits t)) (v, carry)
  /\ (result through, updated (flags through) old (Status CF))
    = Nat.iter (Z.to_nat count) (rotate_carry_step d (bits t)) (v, carry)
  /\ updated (flags plain) old (Status OF)
    = (if count =? 0 then old (Status OF) else (count =? 1) && sign_changed t v (result plain))
  /\ updated (flags through) old (Status OF)
    = (if count mod (bits t + 1) =? 0 then old (Status OF) else (count =? 1) && sign_changed t v (result through))
  /\ forall flag, flag <> Status CF -> flag <> Status OF ->
       updated (flags plain) old flag = old flag /\ updated (flags through) old flag = old flag.
Proof.
  intros Ht Hv Hc. cbv zeta.
  assert ((result (rotate d t v count), updated (flags (rotate d t v count)) old (Status CF))
    = Nat.iter (Z.to_nat count) (rotate_step d (bits t)) (v, old (Status CF))) as Hplain.
  { rewrite (surjective_pairing (Nat.iter _ _ _)), <- rotate_value by (done || lia). f_equal.
    destruct (Z.eqb_spec count 0) as [->|Hne].
    - unfold rotate; cbn [flags]. by rewrite updated_rotate_flags.
    - rewrite <- rotate_carry_out by (done || lia). unfold rotate; cbn [flags result].
      rewrite updated_rotate_flags by done. destruct (Z.eqb_spec count 0); [lia|]. by destruct d. }
  pose proof (rotate_through_carry_ring d t v count (old (Status CF)) Ht Hv Hc) as Hthrough.
  split_and!; [done| | | |].
  - by rewrite <- rotate_through_carry_ring.
  - unfold rotate in *; cbn [flags result] in *. rewrite (rotated_overflow d t v (old (Status CF)) _ _ _ _ _ (rotate_step d (bits t))); [|done..| |].
    + by destruct (count =? 0).
    + intros. by apply rotate_step_sign.
    + intros Hcond. rewrite updated_rotate_flags in Hplain by done. by rewrite Hcond in Hplain.
  - unfold rotate_through_carry in *; cbv zeta in *; cbn [flags result] in *. rewrite <- reduce_carry_count_mod by done.
    rewrite (rotated_overflow d t v (old (Status CF)) _ _ _ _ _ (rotate_carry_step d (bits t))); [|done..| |].
    + by destruct (reduce_carry_count _ _ =? 0).
    + intros. by apply rotate_carry_step_sign.
    + intros Hcond. rewrite updated_rotate_flags in Hthrough by done. by rewrite Hcond in Hthrough |- *.
  - intros flag H1 H2. unfold rotate, rotate_through_carry; cbv zeta. cbn [flags].
    rewrite !updated_rotate_flags by done. split; (destruct (negb _); [|done]); by destruct flag as [[]| | | | | |].
Qed.

(** ** Shifts *)

Definition shift_step (op : ShiftOp) (w : Z) (s : Z * bool) : Z * bool :=
  let '(v, _) := s in
  match op with
  | Left => (wrap w (2 * v), Z.testbit v (w - 1))
  | RightLogical => (v / 2, Z.odd v)
  | RightArithmetic => (v / 2 + Z.b2z (Z.testbit v (w - 1)) * 2 ^ (w - 1), Z.odd v)
  end.

Definition shifted (op : ShiftOp) (w v : Z) (m : Z) : Z :=
  match op with
  | Left => wrap w (v * 2 ^ m)
  | RightLogical => v / 2 ^ m
  | RightArithmetic => wrap w (to_signed w v / 2 ^ m)
  end.

Lemma sar_step w v : 0 < w -> fits w v ->
  v / 2 + Z.b2z (Z.testbit v (w - 1)) * 2 ^ (w - 1) = wrap w (to_signed w v / 2).
Proof.
  intros Hw Hv. rewrite to_signed_fits, testbit_ge by (done || lia || by replace (w - 1 + 1) with w by lia).
  pose proof (pow2_half w Hw) as Hh. pose proof (pow2_pos (w - 1) ltac:(lia)). destruct Hv as [H0 H1].
  pose proof (Z.div_mod v 2 ltac:(lia)). pose proof (Z.mod_pos_bound v 2 ltac:(lia)).
  destruct (Z.leb_spec (2 ^ (w - 1)) v); cbn [Z.b2z].
  - replace (v - 2 ^ w) with (v + (- 2 ^ (w - 1)) * 2) by lia. rewrite Z.div_add by lia.
    unfold wrap. apply (Z.mod_unique _ _ (-1)); lia.
  - rewrite wrap_small by (split; lia). lia.
Qed.

Lemma sar_range w v m : 0 < w -> 0 <= m -> - 2 ^ (w - 1) <= to_signed w v / 2 ^ m < 2 ^ (w - 1).
Proof.
  intros Hw Hm. pose proof (to_signed_range w v Hw). pose proof (pow2_pos m Hm).
  pose proof (pow2_pos (w - 1) ltac:(lia)).
  split; [apply Z.div_le_lower_bound; [done|nia]|apply Z.div_lt_upper_bound; [done|nia]].
Qed.

Lemma shift_iter op w v c m : 0 < w -> fits w v ->
  (Nat.iter m (shift_step op w) (v, c)).1 = shifted op w v (Z.of_nat m).
Proof.
  intros Hw Hv. induction m as [|m IH].
  - cbn [Nat.iter nat_rect fst]. destruct op; cbn [shifted Z.of_nat]; change (2 ^ 0) with 1.
    + by rewrite Z.mul_1_r, wrap_small.
    + by rewrite Z.div_1_r.
    + by rewrite Z.div_1_r, wrap_to_signed, wrap_small.
  - rewrite iter_S. destruct (Nat.iter m _ _) as [v' c'] eqn:Hi. cbn [fst] in IH. subst v'.
    replace (Z.of_nat (S m)) with (Z.of_nat m + 1) by lia.
    destruct op; cbn [shift_step shifted fst]; rewrite Z.pow_add_r, Z.pow_1_r by lia.
    + rewrite wrap_mul_r. f_equal. ring.
    + by rewrite Z.div_div by (pose proof (pow2_pos (Z.of_nat m)); lia).
    + rewrite sar_step by (lia || apply wrap_fits; lia).
      rewrite to_signed_wrap_le, to_signed_in_range by (lia || apply sar_range; lia).
      by rewrite Z.div_div by (pose proof (pow2_pos (Z.of_nat m)); lia).
Qed.

(** A shift by a masked nonzero count is that many one-bit shifts, and CF the
    last bit out of them, which SHL and SHR clear from the operand width on. *)
Lemma shifts_are_iterated_steps op t v count carry : operand_type t -> fits (bits t) v -> 0 < count < 32 ->
  let '(v', c) := Nat.iter (Z.to_nat count) (shift_step op (bits t)) (v, carry) in
  result (shift_apply op t v count) = v'
  /\ shift_carry op t v count = (c && (bool_decide (op = RightArithmetic) || (count <? bits t)))%bool.
Proof.
  intros Ht Hv Hc. pose proof (operand_type_bits t Ht) as Hw.
  pose proof (integer_scalar t (operand_type_integer t Ht)) as Hs.
  assert (exists v', v' = shifted op (bits t) v (count - 1) /\
    Nat.iter (Z.to_nat count) (shift_step op (bits t)) (v, carry)
    = (shifted op (bits t) v count, (shift_step op (bits t) (v', carry)).2)) as (v' & Hv' & Hit).
  { pose proof (shift_iter op (bits t) v carry (Z.to_nat (count - 1)) ltac:(lia) Hv) as H1.
    pose proof (shift_iter op (bits t) v carry (Z.to_nat count) ltac:(lia) Hv) as H2.
    rewrite Z2Nat.id in H1, H2 by lia. exists (shifted op (bits t) v (count - 1)). split; [done|].
    rewrite <- H2, <- H1.
    replace (Z.to_nat count) with (S (Z.to_nat (count - 1))) by lia. rewrite iter_S.
    destruct (Nat.iter _ _ _) as [v1 c1]. by destruct op. }
  rewrite Hit. clear Hit.
  assert (vsub I32 count 1 = count - 1) as Hsub by (apply wrap_small; split; [|cbn [bits]]; lia).
  split.
  - cbn [shift_apply result_with_flags result]. unfold shift_result, vshl, vshr, vsar.
    rewrite shift_count_small by lia.
    destruct op; cbn [shifted].
    + by rewrite Z.shiftl_mul_pow2 by lia.
    + by rewrite Z.shiftr_div_pow2 by lia.
    + by rewrite signed_value_spec, Z.shiftr_div_pow2 by (done || lia).
  - subst v'. unfold shift_carry, truncate1, ult. rewrite Hsub.
    destruct op; cbn [shift_step shifted snd]; unfold vshr, vsar;
      rewrite ?(shift_count_small t (count - 1)) by lia; case_bool_decide; try done; cbn [orb].
    + destruct (Z.ltb_spec count (bits t)); [|by rewrite !andb_false_r].
      rewrite !andb_true_r.
      assert (vsub I32 (bits t) count = bits t - count) as -> by (apply wrap_small; split; [|cbn [bits]]; lia).
      rewrite shift_count_small, Z.shiftr_spec, testbit_wrap, <- Z.shiftl_mul_pow2, testbit_shiftl by lia.
      rewrite (proj2 (Z.ltb_lt _ _)), (proj2 (Z.leb_le _ _)) by lia. cbn [andb]. f_equal. lia.
    + f_equal. by rewrite Z.shiftr_div_pow2, Z.bit0_odd by lia.
    + rewrite andb_true_r, Z.bit0_odd, signed_value_spec, Z.shiftr_div_pow2 by (done || lia). done.
Qed.

Module Sample.

(** RCL by eleven is two steps past the ring of nine bits and clears OF; ROR by one
    changes the sign and sets it; RCL by nine leaves it. *)
Example rotations_witness :
  (result (rotate_through_carry RotateLeft I8 129 11 true), rotate_carry_step RotateLeft 8 (129, true))
  = (7, (3, true))
  /\ updated (flags (rotate_through_carry RotateLeft I8 129 11 true)) (fun _ => true) (Status OF) = false
  /\ updated (flags (rotate RotateRight I16 1 1)) (fun _ => false) (Status OF) = true
  /\ updated (flags (rotate_through_carry RotateLeft I8 129 9 true)) (fun _ => true) (Status OF) = true.
Proof.
  assert (fits 8 129 /\ fits 16 1) as [H8 H16] by (unfold fits; lia).
  destruct (rotations_are_iterated_steps RotateLeft I8 129 11 (fun _ => true)) as (_ & Hr & _ & Ho & _); [by left|exact H8|lia|].
  destruct (rotations_are_iterated_steps RotateRight I16 1 1 (fun _ => false)) as (_ & _ & Ho1 & _); [by right; left|exact H16|lia|].
  destruct (rotations_are_iterated_steps RotateLeft I8 129 9 (fun _ => true)) as (_ & _ & _ & Ho9 & _); [by left|exact H8|lia|].
  split; [|split; [exact (eq_trans Ho eq_refl)|split; [exact (eq_trans Ho1 eq_refl)|exact (eq_trans Ho9 eq_refl)]]].
  apply (f_equal fst) in Hr. cbn [fst] in Hr. rewrite Hr. vm_compute. reflexivity.
Defined.

End Sample.
