(* ===== verification/DivideFacts.v ===== *)
(** * Products and quotients of the x86 arithmetic unit

    The guards and results of alu/divide.rs and alu/multiply.rs against exact
    integer division and multiplication. *)

From S2P Require Import Prelude Types Val Flags Alu AluFacts AluBits.
Local Open Scope Z_scope.

(** The exact quotient and remainder, and whether the quotient is representable. *)
Definition exact_division (t : Ty) (op : DivideOp) (dividend divisor : Z) : Z * Z :=
  match op with
  | DUnsigned => (dividend / divisor, dividend mod divisor)
  | DSigned =>
      (Z.quot (to_signed (2 * bits t) dividend) (to_signed (bits t) divisor),
       Z.rem (to_signed (2 * bits t) dividend) (to_signed (bits t) divisor))
  end.

Definition representable (t : Ty) (op : DivideOp) (q : Z) : Prop :=
  match op with DUnsigned => fits (bits t) q | DSigned => - 2 ^ (bits t - 1) <= q < 2 ^ (bits t - 1) end.
#[export] Instance representable_dec t op q : Decision (representable t op q).
Proof. destruct op; unfold representable; apply _. Defined.

(** ** Widths *)

Section Double.
Context (t : Ty) (Ht : operand_type t).
#[local] Set Default Proof Using "All".
Notation w := (bits t).
Notation d := (double t).

Lemma bits_double : bits d = 2 * w.
Proof. destruct Ht as [->|[->| ->]]; reflexivity. Qed.
Lemma scalar_double : is_scalar d = true.
Proof. destruct Ht as [->|[->| ->]]; reflexivity. Qed.
Lemma bits_double_64 : bits d <= 64.
Proof. rewrite bits_double. pose proof (operand_type_bits t Ht). lia. Qed.

Lemma normalize_double z : normalize d z = wrap (2 * w) z.
Proof. by rewrite normalize_wrap, bits_double by apply scalar_double. Qed.

Lemma signed_double z : signed_value d z = to_signed (2 * w) z.
Proof. by rewrite signed_value_spec, bits_double by apply scalar_double. Qed.

(** Truncating and sign-extending back keeps exactly the values that fit. *)
Lemma sign_extend_fits q : - 2 ^ (2 * w - 1) <= q <= 2 ^ (2 * w - 1) ->
  (wrap (2 * w) q =? sign_extend t d (truncate t (wrap (2 * w) q)))
  = bool_decide (- 2 ^ (w - 1) <= q < 2 ^ (w - 1)).
Proof.
  intros Hq. pose proof (operand_type_bits t Ht) as Hw.
  pose proof (integer_scalar t (operand_type_integer t Ht)) as Hs.
  unfold sign_extend, truncate. rewrite bits_double, signed_value_spec, !wrap_idem_le by (done || lia).
  rewrite to_signed_wrap_le by lia. pose proof (to_signed_range w q ltac:(lia)) as Hr.
  pose proof (pow2_half (2 * w) ltac:(lia)) as Hh.
  assert (2 ^ (2 * w - 1) >= 2 * 2 ^ (w - 1)) as Hbig.
  { pose proof (Z.pow_le_mono_r 2 w (2 * w - 1) ltac:(lia) ltac:(lia)). rewrite (pow2_half w) in * by lia. lia. }
  pose proof (pow2_pos (w - 1) ltac:(lia)).
  case_bool_decide as Hfit.
  - apply Z.eqb_eq. by rewrite to_signed_in_range by (done || lia).
  - apply Z.eqb_neq. intros He. apply Hfit. replace q with (to_signed w q); [done|].
    assert (to_signed (2 * w) q = to_signed w q) as Hts.
    { rewrite <- (to_signed_wrap_le _ (2 * w)), He, to_signed_wrap_le by lia. apply to_signed_in_range; lia. }
    destruct (decide (q = 2 ^ (2 * w - 1))) as [->|].
    + exfalso. unfold to_signed at 1 in Hts. cbv zeta in Hts.
      rewrite wrap_small in Hts by (split; lia).
      destruct (Z.ltb_spec (2 ^ (2 * w - 1)) (2 ^ (2 * w - 1))); lia.
    + rewrite <- Hts. apply to_signed_in_range; lia.
Qed.

(** ** Unsigned division *)

Lemma unsigned_fault dividend divisor : fits (2 * w) dividend -> fits w divisor ->
  input_fault DUnsigned t dividend divisor = negb (bool_decide (divisor <> 0 /\ dividend / divisor < 2 ^ w)).
Proof.
  intros [Hd0 Hd1] [Hv0 Hv1]. pose proof (operand_type_bits t Ht) as Hw. pose proof (pow2_pos w ltac:(lia)) as Hp.
  replace (2 * w) with (w + w) in Hd1 by lia. rewrite Z.pow_add_r in Hd1 by lia.
  unfold input_fault, uge, truncate, vshr.
  assert (shift_count d w = w) as ->.
  { destruct Ht as [->|[->| ->]]; reflexivity. }
  rewrite Z.shiftr_div_pow2 by lia.
  assert (fits w (dividend / 2 ^ w)) as Hhigh.
  { split; [apply Z.div_pos; lia|apply Z.div_lt_upper_bound; lia]. }
  rewrite wrap_small by done.
  assert (dividend / 2 ^ w < divisor <-> divisor <> 0 /\ dividend / divisor < 2 ^ w) as Hiff.
  { split.
    - intros H. destruct Hhigh. split; [lia|]. apply Z.div_lt_upper_bound; [lia|].
      pose proof (Z.mul_succ_div_gt dividend (2 ^ w) ltac:(lia)). nia.
    - intros [H0 H]. apply Z.div_lt_upper_bound; [lia|].
      pose proof (Z.mul_succ_div_gt dividend divisor ltac:(lia)). nia. }
  case_bool_decide as H; cbn [negb].
  - apply Z.leb_gt. by apply Hiff.
  - apply Z.leb_le. apply Z.nlt_ge. by rewrite Hiff.
Qed.

Lemma unsigned_divide dividend divisor : fits (2 * w) dividend -> fits w divisor ->
  divisor <> 0 -> dividend / divisor < 2 ^ w ->
  divide_apply DUnsigned t dividend divisor
  = Some (mkDivision (dividend / divisor) (dividend mod divisor) None).
Proof.
  intros [Hd0 Hd1] [Hv0 Hv1] H0 Hq. pose proof (operand_type_bits t Ht) as Hw.
  assert (fits w (dividend / divisor)) as Hfq by (split; [apply Z.div_pos; lia|done]).
  assert (fits w (dividend mod divisor)) as Hfr
    by (pose proof (Z.mod_pos_bound dividend divisor ltac:(lia)); split; lia).
  unfold divide_apply, vdiv, vrem; cbv zeta iota. cbn [int_binary]. unfold checked_udiv, checked_urem.
  destruct (Z.eqb_spec divisor 0); [done|]. cbn [fmap option_fmap option_map mbind option_bind].
  rewrite !normalize_double. unfold truncate. rewrite !wrap_idem_le by lia.
  by rewrite !wrap_small.
Qed.

(** ** Signed division *)

Definition most_negative (dividend divisor : Z) : Prop :=
  to_signed (2 * w) dividend = - 2 ^ (2 * w - 1) /\ to_signed w divisor = -1.

Lemma signed_fault dividend divisor : fits (2 * w) dividend -> fits w divisor ->
  input_fault DSigned t dividend divisor = true <->
  divisor = 0 \/ w <> 8 /\ most_negative dividend divisor.
Proof.
  intros Hd Hv. pose proof (operand_type_bits t Ht) as Hw. unfold input_fault, most_negative.
  pose proof (pow2_pos (2 * w - 1) ltac:(lia)). pose proof (pow2_pos (w - 1) ltac:(lia)).
  rewrite <- (to_signed_eq_literal (2 * w) dividend) by (done || lia).
  rewrite <- (to_signed_eq_literal w divisor (-1)) by (done || lia).
  assert (wrap (2 * w) (- 2 ^ (2 * w - 1)) = vshl d 1 (w * 2 - 1)) as ->.
  { destruct Ht as [->|[->| ->]]; reflexivity. }
  fold (literal t (-1)). destruct (Z.eqb_spec w 8) as [->|Hne].
  - rewrite Z.eqb_eq. naive_solver.
  - rewrite orb_true_iff, andb_true_iff, !Z.eqb_eq. naive_solver.
Qed.

(** Past the input guard the signed quotient exists, and the only one outside
    the carrier's range is the byte form's, which wraps. *)
Lemma signed_divide dividend divisor : fits (2 * w) dividend -> fits w divisor ->
  input_fault DSigned t dividend divisor = false ->
  let q := Z.quot (to_signed (2 * w) dividend) (to_signed w divisor) in
  let r := Z.rem (to_signed (2 * w) dividend) (to_signed w divisor) in
  divide_apply DSigned t dividend divisor
  = Some (mkDivision (wrap w q) (wrap w r)
            (Some (negb (bool_decide (- 2 ^ (w - 1) <= q < 2 ^ (w - 1))))))
  /\ to_signed w divisor <> 0.
Proof.
  intros Hd Hv Hfault. cbv zeta. pose proof (operand_type_bits t Ht) as Hw.
  assert (divisor <> 0 /\ ~ (w <> 8 /\ most_negative dividend divisor)) as [H0 Hmn].
  { pose proof (signed_fault dividend divisor Hd Hv) as Hiff. rewrite Hfault in Hiff. naive_solver. }
  assert (to_signed w divisor <> 0) as Hv0 by (rewrite to_signed_zero_iff by (done || lia); done).
  split; [|done]. pose proof (to_signed_range (2 * w) dividend ltac:(lia)) as Hdr.
  pose proof (to_signed_range w divisor ltac:(lia)) as Hvr.
  assert (2 ^ (2 * w - 1) <= 2 ^ 63) as H63 by (apply Z.pow_le_mono_r; pose proof bits_double_64; rewrite bits_double in *; lia).
  assert (2 ^ (w - 1) <= 2 ^ (2 * w - 1)) as Hww by (apply Z.pow_le_mono_r; lia).
  unfold divide_apply, vdiv, vrem; cbv zeta iota. cbn [int_binary].
  assert (signed_value d (sign_extend t d divisor) = to_signed w divisor) as ->.
  { unfold sign_extend. rewrite signed_double, bits_double, to_signed_wrap_le by lia.
    rewrite signed_value_spec by (apply integer_scalar, operand_type_integer, Ht). apply to_signed_in_range; lia. }
  rewrite signed_double. set (sd := to_signed (2 * w) dividend) in *. set (sv := to_signed w divisor) in *.
  assert (((sd =? - 2 ^ 63) && (sv =? -1)) = false) as H64.
  { apply andb_false_iff. destruct (Z.eqb_spec sd (- 2 ^ 63)) as [E|]; [right|by left]. apply Z.eqb_neq. intros E1.
    apply Hmn. unfold most_negative. fold sd sv. split; [|lia].
    intros E8. assert (2 ^ (2 * w - 1) = 2 ^ 15) by (by rewrite E8). lia. }
  assert ((bool_decide (d = I32) && (sd =? - 2 ^ 31) && (sv =? -1)) = false) as H32.
  { case_bool_decide as Hd32; [|done]. cbn [andb]. apply andb_false_iff.
    destruct (Z.eqb_spec sd (- 2 ^ 31)) as [E|]; [right|by left]. apply Z.eqb_neq. intros E1.
    pose proof bits_double as Hbd. rewrite Hd32 in Hbd. cbn [bits] in Hbd.
    apply Hmn. unfold most_negative. fold sd sv. split; [lia|]. split; [|done]. rewrite E. do 2 f_equal. lia. }
  unfold checked_sdiv, checked_srem, i64_overflows. rewrite H32, H64.
  destruct (Z.eqb_spec sv 0); [done|]. cbn [orb fmap option_fmap option_map mbind option_bind].
  rewrite !normalize_double, !(wrap_idem_le _ 64) by (rewrite <- bits_double; pose proof bits_double_64;
    pose proof (bits_pos d); lia).
  rewrite sign_extend_fits.
  - unfold truncate. by rewrite !wrap_idem_le by lia.
  - apply quot_bound; [done|lia].
Qed.

(** ** The guest's division *)

Lemma divide_guarded_correct op dividend divisor : fits (2 * w) dividend -> fits w divisor ->
  divide_guarded op t dividend divisor
  = Some (let '(q, r) := exact_division t op dividend divisor in
          if decide (divisor <> 0 /\ representable t op q) then Ok (wrap w q, wrap w r)
          else Err DivideError).
Proof.
  intros Hd Hv. pose proof (operand_type_bits t Ht) as Hw. unfold divide_guarded, exact_division, representable.
  destruct op.
  - rewrite unsigned_fault by done. case_bool_decide as Hok; cbn [negb].
    + destruct Hok as [H0 Hq]. rewrite unsigned_divide by done. cbn.
      assert (fits w (dividend / divisor)) as Hfq.
      { destruct Hd, Hv. split; [apply Z.div_pos; lia|done]. }
      assert (fits w (dividend mod divisor)) as Hfr.
      { destruct Hd, Hv. pose proof (Z.mod_pos_bound dividend divisor ltac:(lia)). split; lia. }
      rewrite decide_True by done. by rewrite !wrap_small.
    + rewrite decide_False; [done|]. intros [H0 [_ Hq]]. by apply Hok.
  - destruct (input_fault DSigned t dividend divisor) eqn:Hfault.
    + rewrite decide_False; [done|]. intros [H0 Hq]. apply signed_fault in Hfault as [?|[Hne [Hn H1]]]; [done| |done..].
      rewrite Hn, H1 in Hq. change (-1) with (- (1)) in Hq at 2.
      rewrite Z.quot_opp_opp, Z.quot_1_r in Hq by lia.
      assert (2 ^ (w - 1) <= 2 ^ (2 * w - 1)) by (apply Z.pow_le_mono_r; lia). lia.
    + destruct (signed_divide dividend divisor Hd Hv Hfault) as [-> Hnz]. cbn [mbind option_bind div_overflow quotient remainder default from_option id].
      assert (divisor <> 0) as H0 by (rewrite <- (to_signed_zero_iff w) by (done || lia); done).
      case_bool_decide as Hq; cbn [negb]; [by rewrite decide_True|].
      rewrite decide_False; [done|]. intros [_ ?]. done.
Qed.

End Double.

(** C25 DIV and IDIV at byte, word and dword width: the generated code never
    traps; it raises the divide error exactly when the divisor is zero or the
    exact quotient does not fit the operand, and otherwise leaves the exact
    quotient, rounded toward zero when signed, and remainder. The most negative
    dividend over minus one, which wraps in the byte form's carrier, is caught. *)
Theorem division_faults_exactly (t : Ty) (op : DivideOp) (dividend divisor : Z) :
  operand_type t -> fits (2 * bits t) dividend -> fits (bits t) divisor ->
  divide_guarded op t dividend divisor
  = Some (let '(q, r) := exact_division t op dividend divisor in
          if decide (divisor <> 0 /\ representable t op q) then Ok (wrap (bits t) q, wrap (bits t) r)
          else Err DivideError).
Proof. intros Ht. by apply divide_guarded_correct. Qed.

(** ** Products *)

(** The wide product is exact, and overflow is reported exactly when it does not
    fit the operand. *)
Lemma multiply_exact t op left right : operand_type t -> fits (bits t) left -> fits (bits t) right ->
  let product := match op with
                 | MSigned => to_signed (bits t) left * to_signed (bits t) right
                 | MUnsigned => left * right
                 end in
  multiply_result op t left right = wrap (2 * bits t) product
  /\ multiply_overflow op t (multiply_result op t left right)
     = negb match op with
            | MSigned => bool_decide (- 2 ^ (bits t - 1) <= product < 2 ^ (bits t - 1))
            | MUnsigned => bool_decide (fits (bits t) product)
            end.
Proof.
  intros Ht Hl Hr. cbv zeta. pose proof (operand_type_bits t Ht) as Hw.
  pose proof (integer_scalar t (operand_type_integer t Ht)) as Hs.
  assert (multiply_result op t left right = wrap (2 * bits t)
    match op with
    | MSigned => to_signed (bits t) left * to_signed (bits t) right
    | MUnsigned => left * right
    end) as Hres.
  { destruct op; cbn [multiply_result mul_wide]; unfold vmul; rewrite bits_double by done; [|done].
    unfold sign_extend. rewrite bits_double, !signed_value_spec, wrap_mul_l, wrap_mul_r by done. done. }
  split; [done|]. rewrite Hres. destruct op; cbn [multiply_overflow]; f_equal.
  - apply sign_extend_fits; [done|].
    pose proof (to_signed_range (bits t) left ltac:(lia)). pose proof (to_signed_range (bits t) right ltac:(lia)).
    replace (2 * bits t - 1) with ((bits t - 1) + (bits t - 1) + 1) by lia.
    rewrite !Z.pow_add_r by lia. pose proof (pow2_pos (bits t - 1) ltac:(lia)). nia.
  - destruct Hl as [Hl0 Hl1], Hr as [Hr0 Hr1]. unfold vshr.
    assert (shift_count (double t) (bits t) = bits t) as -> by (destruct Ht as [->|[->| ->]]; reflexivity).
    pose proof (pow2_pos (bits t) ltac:(lia)). rewrite wrap_small, Z.shiftr_div_pow2 by
      (lia || (replace (2 * bits t) with (bits t + bits t) by lia; unfold fits; rewrite Z.pow_add_r by lia; nia)).
    apply bool_decide_iff. rewrite Z.eqb_eq. unfold fits. split.
    + intros H0. apply Z.div_small_iff in H0; [|lia]. destruct H0; [done|lia].
    + intros H0. by apply Z.div_small.
Qed.

Module Sample.

Example division_witness :
  divide_guarded DSigned I8 65408 1 = Some (Ok (128, 0))
  /\ divide_guarded DSigned I8 32768 255 = Some (Err DivideError).
Proof.
  split.
  - rewrite (division_faults_exactly I8 DSigned 65408 1); [vm_compute; reflexivity|by left| |];
      apply (bool_decide_unpack _); vm_compute; exact I.
  - rewrite (division_faults_exactly I8 DSigned 32768 255); [vm_compute; reflexivity|by left| |];
      apply (bool_decide_unpack _); vm_compute; exact I.
Defined.

End Sample.
