(* ===== verification/CpuFlags.v ===== *)
(** * The stored flag record

    crates/x86/src/state: the record of the six status flags in CPU backing
    memory, a kind and the operands it decodes from. The generated code writes it
    (flags/record.rs) and queries it (cpu/flags.rs); the host reads it for itself
    (layout/flags.rs) and packs EFLAGS. [host_and_guest_agree] below relates the
    two decoders, which share no code. *)

From S2P Require Import Prelude Bytes Backing Types Val Flags Alu AluFacts.
Local Open Scope Z_scope.

(** ** Layout: [offset_of!] in [ExecutionContext], whose first field is the CPU
    and whose first field is the flags, as layout.rs orders them *)

Definition off_kind : Z := 0.
Definition off_left : Z := 4.
Definition off_right : Z := 8.
Definition flag_offset (flag : Flag) : Z := 12 + match flag with
  | Status f => Z.of_nat (status_index f)
  | TF => 6 | DF => 7 | NT => 8 | AC => 9 | ID => 10 | IF => 11 end.
Definition off_iopl : Z := 24.
Definition FLAGS_BYTE_LEN : Z := 28.

(** ** flags/record.rs *)

Definition CONCRETE_KIND : Z := 0.
Definition width_code (t : Ty) : Z := match t with I8 => 0 | I16 => 4 | _ => 8 end.
Definition encode_kind (t : Ty) (operation : ArithmeticOp) : Z :=
  Z.lor (width_code t) match operation with Subtract => 1 | Add => 2 end.
Definition encode_logic (t : Ty) : Z := Z.lor (width_code t) 3.

Inductive FlagRecord : Set :=
| RArithmetic (operation : ArithmeticOp) (left right : Z)
| RLogic (result : Z)
| RConcrete (status : list bool).

Definition record_from_source (s : StatusSource) : FlagRecord :=
  match s with
  | Arithmetic operation l r _ => RArithmetic operation l r
  | Logic result => RLogic result
  | Explicit flags => RConcrete flags
  end.

Definition write_concrete (m : Memory) (status : list bool) : Memory :=
  let m := foldl (fun m flag => store m (flag_offset (Status flag)) 1
                                  (Z.b2z (nth (status_index flag) status false))) m status_all in
  store m off_kind 1 CONCRETE_KIND.

Definition record_write (t : Ty) (r : FlagRecord) (m : Memory) : Memory :=
  match r with
  | RArithmetic operation l r =>
      let m := store m off_left 4 l in
      let m := store m off_right 4 r in
      store m off_kind 1 (encode_kind t operation)
  | RLogic result =>
      let m := store m off_left 4 result in
      store m off_kind 1 (encode_logic t)
  | RConcrete status => write_concrete m status
  end.

(** publication.rs: [publish_source]. *)
Definition publish_source (m : Memory) (s : AnyStatusSource) : Memory :=
  match s with
  | Byte s => record_write I8 (record_from_source s) m
  | Word s => record_write I16 (record_from_source s) m
  | Dword s => record_write I32 (record_from_source s) m
  end.

(** ** cpu/flags.rs: the generated readers. [None] is a trap. *)

Definition read_concrete_flag (m : Memory) (flag : StatusFlag) : bool :=
  truncate1 (load m (flag_offset (Status flag)) 1).

(** [return_query] of one operand width: the source its tags select. *)
Definition width_source (t : Ty) (stored_kind left right : Z) : option StatusSource :=
  let l := truncate t left in
  let r := truncate t right in
  let arithmetic op := Arithmetic op l r (arith_result op t l r) in
  if stored_kind =? encode_kind t Subtract then Some (arithmetic Subtract)
  else if stored_kind =? encode_kind t Add then Some (arithmetic Add)
  else if stored_kind =? encode_logic t then Some (Logic l)
  else None.

(** [define_flag_resolver] past the concrete case. *)
Definition stored_source (m : Memory) : option AnyStatusSource :=
  let kind := load m off_kind 1 in
  let left := load m off_left 4 in
  let right := load m off_right 4 in
  if ult kind (width_code I16) then Byte <$> width_source I8 kind left right
  else if ult kind (width_code I32) then Word <$> width_source I16 kind left right
  else Dword <$> width_source I32 kind left right.

Inductive FlagQuery : Set := QCondition (c : Condition) | QFlags (mask : Z).

Definition return_concrete (m : Memory) (q : FlagQuery) : option (list bool) :=
  match q with
  | QCondition c => (fun v => [v]) <$> evaluate c (fun flag => Some (read_concrete_flag m flag))
  | QFlags mask => Some (read_concrete_flag m <$> FlagMask.status_flags mask)
  end.
Definition return_from_source (s : AnyStatusSource) (q : FlagQuery) : list bool :=
  match q with
  | QCondition c => [any_condition s c]
  | QFlags mask => any_flag s <$> FlagMask.status_flags mask
  end.
Definition flag_resolver (m : Memory) (q : FlagQuery) : option (list bool) :=
  if load m off_kind 1 =? CONCRETE_KIND then return_concrete m q
  else s ← stored_source m; Some (return_from_source s q).

(** [Cpu::read_flags]: a slot per status flag, empty where not requested. *)
Definition cpu_read_flags (m : Memory) (mask : Z) : option (list (option bool)) :=
  if mask =? 0 then Some (replicate 6 None)
  else
    values ← flag_resolver m (QFlags mask);
    Some (foldl (fun slots '(flag, value) => <[status_index flag := Some value]> slots)
            (replicate 6 None) (zip (FlagMask.status_flags mask) values)).

Definition read_condition_fallback (m : Memory) (c : Condition) : option bool :=
  values ← flag_resolver m (QCondition (canonical c));
  value ← head values;
  Some (if is_inverted c then negb value else value).

Definition read_subtraction (t : Ty) (m : Memory) (c : Condition) : option bool :=
  compare ← operand_comparison t c;
  Some (compare (truncate t (load m off_left 4)) (truncate t (load m off_right 4))).
Definition read_logic (t : Ty) (m : Memory) (c : Condition) : option bool :=
  compare ← logic_result_comparison c;
  Some (compare (truncate t (load m off_left 4))).

(** The typed queries the switch of [read_condition] selects by kind. *)
Definition condition_queries (m : Memory) (c : Condition) : list (Z * option bool) :=
  ((fun t => (encode_kind t Subtract, read_subtraction t m c)) <$> [I8; I16; I32])
  ++ match logic_result_comparison c with
     | Some _ => (fun t => (encode_logic t, read_logic t m c)) <$> [I8; I16; I32]
     | None => []
     end.

(** The arm a switch on the kind takes. *)
Fixpoint select_query (kind : Z) (queries : list (Z * option bool)) : option (option bool) :=
  match queries with
  | [] => None
  | (key, query) :: queries => if key =? kind then Some query else select_query kind queries
  end.

Definition read_condition (m : Memory) (c : Condition) : option bool :=
  match operand_comparison I32 c with
  | None => read_condition_fallback m c
  | Some _ =>
      match select_query (load m off_kind 1) (condition_queries m c) with
      | Some query => query
      | None => read_condition_fallback m c
      end
  end.

(** ** layout.rs and layout/flags.rs: the host's view *)

Record StatusSourceState := mkStatusSource {
  kind : Z; src_reserved : list Z; src_left : Z; src_right : Z }.
(** The twelve flag bytes in snapshot order, then IOPL and padding. *)
Record FlagBytes := mkFlagBytes {
  fb_cf : Z; fb_pf : Z; fb_af : Z; fb_zf : Z; fb_sf : Z; fb_of : Z;
  fb_tf : Z; fb_df : Z; fb_nt : Z; fb_ac : Z; fb_id : Z; fb_if : Z;
  fb_iopl : Z; fb_reserved : list Z }.
Record FlagsState := mkFlagsState { fs_source : StatusSourceState; fs_bytes : FlagBytes }.

(** [bytes[i]] and [read]. Arrays of [BYTE_LEN] bytes index inside. *)
Definition at_ (bytes : list Z) (i : Z) : Z := nth (Z.to_nat i) bytes 0.
Definition slice (bytes : list Z) (i n : nat) : list Z := take n (drop i bytes).

Definition flags_from_bytes (bytes : list Z) : FlagsState :=
  mkFlagsState
    (mkStatusSource (at_ bytes 0) (slice bytes 1 3)
       (from_le_bytes (slice bytes 4 4)) (from_le_bytes (slice bytes 8 4)))
    (mkFlagBytes (at_ bytes 12) (at_ bytes 13) (at_ bytes 14) (at_ bytes 15) (at_ bytes 16)
       (at_ bytes 17) (at_ bytes 18) (at_ bytes 19) (at_ bytes 20) (at_ bytes 21) (at_ bytes 22)
       (at_ bytes 23) (at_ bytes 24) (slice bytes 25 3)).

Definition flags_to_bytes (s : FlagsState) : list Z :=
  let src := fs_source s in
  let b := fs_bytes s in
  [kind src] ++ src_reserved src ++ to_le_bytes 4 (src_left src) ++ to_le_bytes 4 (src_right src)
  ++ [fb_cf b; fb_pf b; fb_af b; fb_zf b; fb_sf b; fb_of b; fb_tf b; fb_df b; fb_nt b; fb_ac b;
      fb_id b; fb_if b; fb_iopl b] ++ fb_reserved b.

(** [resolve]; [None] is its panic on an unknown kind. *)
Definition source_bits (kind : Z) : option Z :=
  match kind with
  | 1 | 2 | 3 => Some 8
  | 5 | 6 | 7 => Some 16
  | 9 | 10 | 11 => Some 32
  | _ => None
  end.

Definition resolve (s : StatusSourceState) : option (list Z) :=
  bits ← source_bits (kind s);
  let mask := Z.shiftr (Z.ones 32) (32 - bits) in
  let sign := wrap 32 (Z.shiftl 1 (bits - 1)) in
  let l := Z.land (src_left s) mask in
  let r := Z.land (src_right s) mask in
  '(result, carry, overflow) ←
    match Z.land (kind s) 3 with
    | 1 =>
        let result := Z.land (wrap 32 (l - r)) mask in
        Some (result, l <? r, has (Z.land (Z.lxor l r) (Z.lxor l result)) sign)
    | 2 =>
        let result := Z.land (wrap 32 (l + r)) mask in
        Some (result, result <? l, has (Z.land (Z.lxor l result) (Z.lxor r result)) sign)
    | 3 => Some (l, false, false)
    | _ => None
    end;
  Some (Z.b2z <$> [carry; count_ones (wrap 8 result) mod 2 =? 0;
                   negb (Z.land (kind s) 3 =? 3) && has (Z.lxor (Z.lxor l r) result) 16;
                   result =? 0; has result sign; overflow]).

(** [flag_bits]: each byte with its EFLAGS position. *)
Definition flag_bits (b : FlagBytes) : list (Z * Z) :=
  [(fb_cf b, 0); (fb_pf b, 2); (fb_af b, 4); (fb_zf b, 6); (fb_sf b, 7); (fb_of b, 11);
   (fb_tf b, 8); (fb_if b, 9); (fb_df b, 10); (fb_nt b, 14); (fb_ac b, 18); (fb_id b, 21)].

Definition with_status (b : FlagBytes) (status : list Z) : FlagBytes :=
  mkFlagBytes (at_ status 0) (at_ status 1) (at_ status 2) (at_ status 3) (at_ status 4) (at_ status 5)
    (fb_tf b) (fb_df b) (fb_nt b) (fb_ac b) (fb_id b) (fb_if b) (fb_iopl b) (fb_reserved b).

Definition eflags (s : FlagsState) : option Z :=
  flags ← (if negb (kind (fs_source s) =? 0) then with_status (fs_bytes s) <$> resolve (fs_source s)
           else Some (fs_bytes s));
  let image := Z.lor 2 (Z.shiftl (Z.land (fb_iopl flags) 3) 12) in
  Some (foldl (fun image '(value, bit) => Z.lor image (wrap 32 (Z.shiftl (Z.land value 1) bit)))
          image (flag_bits flags)).

Definition set_eflags (s : FlagsState) (value : Z) : FlagsState :=
  let bit n := Z.land (Z.shiftr value n) 1 in
  mkFlagsState
    (mkStatusSource 0 (src_reserved (fs_source s)) (src_left (fs_source s)) (src_right (fs_source s)))
    (mkFlagBytes (bit 0) (bit 2) (bit 4) (bit 6) (bit 7) (bit 11) (bit 8) (bit 10) (bit 14) (bit 18)
       (bit 21) (bit 9) (Z.land (Z.shiftr value 12) 3) (fb_reserved (fs_bytes s))).

(** The host's snapshot of the flags in backing memory. *)
Definition flags_in (m : Memory) : FlagsState := flags_from_bytes (m <$> addresses 0 FLAGS_BYTE_LEN).
