(* ===== verification/CpuFlagsFacts.v ===== *)
(** * Reading, writing and packing the stored flags *)

From S2P Require Import Prelude Bytes Backing Types Val Flags Alu AluFacts CpuFlags.
Local Open Scope Z_scope.

(** The six flags the record stands for. *)
Definition stored_flags (m : Memory) : option (StatusFlag -> bool) :=
  if load m off_kind 1 =? CONCRETE_KIND then Some (read_concrete_flag m)
  else any_flag <$> stored_source m.

(** ** Record kinds *)

Definition kind_source (kind left right : Z) : option AnyStatusSource :=
  if ult kind (width_code I16) then Byte <$> width_source I8 kind left right
  else if ult kind (width_code I32) then Word <$> width_source I16 kind left right
  else Dword <$> width_source I32 kind left right.

Lemma stored_source_kind m :
  stored_source m = kind_source (load m off_kind 1) (load m off_left 4) (load m off_right 4).
Proof. done. Qed.

Definition valid_kind (kind : Z) : Prop := kind ∈ [1; 2; 3; 5; 6; 7; 9; 10; 11].
#[export] Instance valid_kind_dec kind : Decision (valid_kind kind).
Proof. unfold valid_kind. apply _. Defined.

(** Each valid kind and what it selects. *)
Lemma kind_source_valid kind left right s : kind_source kind left right = Some s -> valid_kind kind.
Proof.
  unfold kind_source, width_source, ult, valid_kind. intros H. cbn in H.
  repeat match goal with
  | H : context [?a =? ?b] |- _ => destruct (Z.eqb_spec a b); [subst; set_solver|]
  | H : context [?a <? ?b] |- _ => destruct (Z.ltb_spec a b)
  end; done.
Qed.

Lemma truncate_fits t z : fits (bits t) (truncate t z).
Proof. apply wrap_fits. pose proof (bits_pos t). lia. Qed.

Lemma width_source_ok t kind left right s : width_source t kind left right = Some s -> source_ok t s.
Proof.
  unfold width_source. intros H.
  repeat match goal with H : context [?a =? ?b] |- _ => destruct (a =? b) end; simplify_eq;
    cbn [source_ok]; auto using truncate_fits.
Qed.

Lemma kind_source_ok kind left right s : kind_source kind left right = Some s -> any_ok s.
Proof.
  unfold kind_source. intros H.
  repeat match goal with H : context [ult ?a ?b] |- _ => destruct (ult a b) end;
    apply fmap_Some in H as (s' & H & ->); by apply width_source_ok in H.
Qed.

Lemma stored_source_ok m s : stored_source m = Some s -> any_ok s.
Proof. rewrite stored_source_kind. apply kind_source_ok. Qed.

(** ** Queries of the generated code *)

Lemma flag_resolver_condition m c fl : stored_flags m = Some fl ->
  flag_resolver m (QCondition c) = Some [holds c fl].
Proof.
  unfold stored_flags, flag_resolver. destruct (_ =? _).
  - intros H. simplify_eq. cbn [return_concrete]. by rewrite evaluate_total.
  - intros (s & Hs & ->)%fmap_Some. rewrite Hs. cbn. f_equal. f_equal.
    apply condition_from_operands_any. by apply stored_source_ok in Hs.
Qed.

Lemma flag_resolver_flags m mask fl : stored_flags m = Some fl ->
  flag_resolver m (QFlags mask) = Some (fl <$> FlagMask.status_flags mask).
Proof.
  unfold stored_flags, flag_resolver. destruct (_ =? _).
  - intros H. by simplify_eq.
  - intros (s & Hs & ->)%fmap_Some. by rewrite Hs.
Qed.

Lemma read_condition_fallback_correct m c fl : stored_flags m = Some fl ->
  read_condition_fallback m c = Some (holds c fl).
Proof.
  intros Hfl. unfold read_condition_fallback. rewrite (flag_resolver_condition m _ fl Hfl). cbn.
  by rewrite (holds_inverted c).
Qed.

(** Every arm of the switch answers for the source of its kind. *)
Lemma condition_query_correct m c query : operand_comparison I32 c <> None ->
  select_query (load m off_kind 1) (condition_queries m c) = Some query ->
  exists s, stored_source m = Some s /\ query = Some (any_condition s c).
Proof.
  intros Hc. rewrite stored_source_kind.
  unfold condition_queries, read_subtraction, read_logic.
  generalize (load m off_kind 1) (load m off_left 4) (load m off_right 4). intros kind left right.
  destruct c; cbn [operand_comparison] in Hc; try done;
    cbn [logic_result_comparison operand_comparison fmap list_fmap app mbind option_bind select_query];
    repeat match goal with
    | |- context [?a =? kind] => destruct (Z.eqb_spec a kind) as [<-|]
    end; intros; simplify_eq; eexists; (split; [reflexivity|]); reflexivity.
Qed.

Lemma read_condition_correct m c fl : stored_flags m = Some fl -> read_condition m c = Some (holds c fl).
Proof.
  intros Hfl. unfold read_condition. destruct (operand_comparison I32 c) as [compare|] eqn:Hc;
    [|by apply read_condition_fallback_correct].
  destruct (select_query _ _) as [query|] eqn:Hq; [|by apply read_condition_fallback_correct].
  apply condition_query_correct in Hq as (s & Hs & ->); [|by rewrite Hc].
  rewrite condition_from_operands_any by (by eapply stored_source_ok). f_equal.
  unfold stored_flags in Hfl. destruct (Z.eqb_spec (load m off_kind 1) CONCRETE_KIND) as [Hk|].
  - rewrite stored_source_kind, Hk in Hs. apply kind_source_valid in Hs.
    exfalso. revert Hs. apply (bool_decide_unpack _). vm_compute. exact I.
  - rewrite Hs in Hfl. by simplify_eq/=.
Qed.

(** The slot of a flag in the six results of a query. *)
Definition slot (flags : list (option bool)) (f : StatusFlag) : option bool :=
  mjoin (flags !! status_index f).

Lemma status_index_inj f g : status_index f = status_index g -> f = g.
Proof. by destruct f, g. Qed.

Lemma fill_slots (fl : StatusFlag -> bool) l slots f : length slots = 6%nat ->
  slot (foldl (fun slots '(flag, value) => <[status_index flag := Some value]> slots) slots (zip l (fl <$> l))) f
  = if decide (f ∈ l) then Some (fl f) else slot slots f.
Proof.
  revert slots. induction l as [|g l IH]; intros slots Hlen; cbn [fmap list_fmap zip zip_with foldl].
  - by rewrite decide_False by apply not_elem_of_nil.
  - fold (fmap (M := list) fl l). rewrite IH by (by rewrite length_insert).
    destruct (decide (f ∈ l)) as [Hin|Hin]; [by rewrite decide_True by set_solver|].
    unfold slot. destruct (decide (f = g)) as [->|Hne].
    + rewrite list_lookup_insert_eq by (pose proof (status_index_lt g); lia).
      by rewrite decide_True by set_solver.
    + rewrite list_lookup_insert_ne by (by intros ?%status_index_inj).
      by rewrite decide_False by set_solver.
Qed.

Lemma cpu_read_flags_correct m mask fl : stored_flags m = Some fl -> 0 <= mask ->
  exists slots, cpu_read_flags m mask = Some slots /\ length slots = 6%nat
    /\ forall f, slot slots f = if FlagMask.contains mask (Status f) then Some (fl f) else None.
Proof.
  intros Hfl Hm. unfold cpu_read_flags. destruct (Z.eqb_spec mask 0) as [->|].
  - eexists. split; [done|]. split; [done|]. intros f.
    change 0 with FlagMask.EMPTY. rewrite FlagMask.contains_empty. by destruct f.
  - rewrite (flag_resolver_flags m mask fl Hfl). cbn [mbind option_bind]. eexists. split; [done|].
    split.
    + generalize (FlagMask.status_flags mask). intros l.
      assert (forall slots, length slots = 6%nat ->
        length (foldl (fun slots '(flag, value) => <[status_index flag := Some value]> slots) slots
                  (zip l (fl <$> l))) = 6%nat) as Hgen; [|by apply Hgen].
      induction l as [|g l IH]; intros slots Hlen; cbn [fmap list_fmap zip zip_with foldl]; [done|].
      apply IH. by rewrite length_insert.
    + intros f. rewrite fill_slots by done.
      destruct (decide _) as [Hin|Hin]; rewrite FlagMask.elem_of_status_flags in Hin.
      * by rewrite Hin.
      * destruct (FlagMask.contains mask (Status f)); [done|]. by destruct f.
Qed.

(** ** Publication *)

Lemma encode_kind_fits t op : operand_type t -> fits 8 (encode_kind t op).
Proof. intros [->|[->| ->]]; destruct op; apply (bool_decide_unpack _); vm_compute; exact I. Qed.
Lemma encode_logic_fits t : operand_type t -> fits 8 (encode_logic t).
Proof. intros [->|[->| ->]]; apply (bool_decide_unpack _); vm_compute; exact I. Qed.

Lemma operand_fits_32 t z : operand_type t -> fits (bits t) z -> fits (8 * 4) z.
Proof. intros Ht. pose proof (operand_type_bits t Ht). apply fits_mono. lia. Qed.

Lemma flag_byte_fits b : fits 8 (Z.b2z b).
Proof. destruct b; split; cbn; lia. Qed.

Lemma truncate1_b2z b : truncate1 (Z.b2z b) = b.
Proof. by destruct b. Qed.

Lemma write_concrete_flags m status f :
  load (write_concrete m status) off_kind 1 = CONCRETE_KIND
  /\ read_concrete_flag (write_concrete m status) f = nth (status_index f) status false.
Proof.
  unfold write_concrete, read_concrete_flag. cbn [status_all foldl status_index]. split.
  - apply load_store; [lia|]. apply fits_0. lia.
  - rewrite load_store_disjoint by (unfold off_kind, flag_offset; lia).
    destruct f; cbn [status_index];
      repeat first [ rewrite load_store by (lia || apply flag_byte_fits); apply truncate1_b2z
                   | rewrite load_store_disjoint by (unfold flag_offset; cbn; lia) ].
Qed.

(** A source of width [t] written to memory is read back as its flags. *)
Lemma record_write_flags t s m : operand_type t -> source_ok t s ->
  exists fl, stored_flags (record_write t (record_from_source s) m) = Some fl
    /\ forall f, fl f = source_flag t s f.
Proof.
  intros Ht Hs. unfold stored_flags. rewrite stored_source_kind.
  destruct s as [op l r res|res|status]; cbn [record_from_source record_write]; cbv zeta.
  - destruct Hs as (Hl & Hr & ->).
    pose proof (operand_fits_32 t l Ht Hl). pose proof (operand_fits_32 t r Ht Hr).
    pose proof (encode_kind_fits t op Ht).
    rewrite (load_store _ off_kind 1), !(load_store_disjoint _ off_kind 1) by
      (lia || done || (unfold off_kind, off_left, off_right; lia)).
    rewrite load_store_disjoint, load_store by (lia || done || (unfold off_left, off_right; lia)).
    rewrite load_store by (lia || done).
    assert (kind_source (encode_kind t op) l r = Some (into_any t (Arithmetic op l r (arith_result op t l r)))
      /\ (encode_kind t op =? CONCRETE_KIND) = false) as [-> ->].
    { assert (truncate t l = l /\ truncate t r = r) as [El Er] by (split; by apply wrap_small).
      destruct Ht as [->|[->| ->]], op; (split; [|reflexivity]);
        unfold kind_source; cbn [ult width_code encode_kind Z.lor Pos.lor Z.ltb Z.compare Pos.compare Pos.compare_cont];
        unfold width_source; cbn [encode_kind width_code Z.lor Pos.lor Z.eqb Pos.eqb fmap option_fmap option_map];
        by rewrite El, Er. }
    cbn. eexists. split; [done|]. intros f. by apply any_flag_into.
  - pose proof (operand_fits_32 t res Ht Hs). pose proof (encode_logic_fits t Ht).
    rewrite (load_store _ off_kind 1), !(load_store_disjoint _ off_kind 1) by
      (lia || done || (unfold off_kind, off_left, off_right; lia)).
    rewrite load_store by (lia || done).
    assert (forall r, kind_source (encode_logic t) res r = Some (into_any t (Logic res))) as ->.
    { intros r. assert (truncate t res = res) as El by (by apply wrap_small).
      destruct Ht as [->|[->| ->]];
        unfold kind_source; cbn [ult width_code encode_logic Z.lor Pos.lor Z.ltb Z.compare Pos.compare Pos.compare_cont];
        unfold width_source; cbn [encode_kind encode_logic width_code Z.lor Pos.lor Z.eqb Pos.eqb fmap option_fmap option_map];
        by rewrite El. }
    assert ((encode_logic t =? CONCRETE_KIND) = false) as -> by (by destruct Ht as [->|[->| ->]]).
    cbn. eexists. split; [done|]. intros f. by apply any_flag_into.
  - destruct (write_concrete_flags m status CF) as [-> _]. cbn. eexists. split; [done|].
    intros f. cbn [source_flag]. apply (write_concrete_flags m status f).
Qed.

Lemma publish_source_flags s m : any_ok s ->
  exists fl, stored_flags (publish_source m s) = Some fl /\ forall f, fl f = any_flag s f.
Proof. intros Hs. destruct s as [s|s|s]; apply record_write_flags; (done || (unfold operand_type; auto)). Qed.

(** Only the record's bytes are written. *)
Definition status_end : Z := 18.

Lemma write_concrete_frame m status x : status_end <= x -> write_concrete m status x = m x.
Proof.
  unfold status_end. intros Hx. unfold write_concrete. cbn [status_all foldl].
  rewrite !store_outside; [done|unfold flag_offset, off_kind; cbn; lia..].
Qed.

Lemma publish_source_frame s m x : status_end <= x -> publish_source m s x = m x.
Proof.
  intros Hx. assert (forall t r, record_write t r m x = m x) as Hr.
  { intros t [op l r|res|status]; cbn [record_write]; cbv zeta; [| |by apply write_concrete_frame];
      rewrite !store_outside; (done || (unfold off_kind, off_left, off_right, status_end in *; lia)). }
  destruct s; apply Hr.
Qed.

Lemma write_concrete_mem_ok m status : mem_ok m -> mem_ok (write_concrete m status).
Proof. intros Hm. unfold write_concrete. cbn [status_all foldl]. by repeat apply mem_ok_store. Qed.

Lemma publish_source_mem_ok s m : mem_ok m -> mem_ok (publish_source m s).
Proof.
  intros Hm. assert (forall t r, mem_ok (record_write t r m)) as Hr.
  { intros t [op l r|res|status]; cbn [record_write]; cbv zeta; [| |by apply write_concrete_mem_ok];
      by repeat apply mem_ok_store. }
  destruct s; apply Hr.
Qed.

(** The flags depend on the record's bytes alone. *)
Lemma stored_flags_ext m m' : (forall x, 0 <= x < status_end -> m x = m' x) ->
  match stored_flags m, stored_flags m' with
  | Some fl, Some fl' => forall f, fl f = fl' f
  | None, None => True
  | _, _ => False
  end.
Proof.
  unfold status_end. intros H. unfold stored_flags. rewrite !stored_source_kind.
  assert (forall a n, 0 <= a -> a + n <= 18 -> load m a n = load m' a n) as Hl
    by (intros; apply load_ext; intros; apply H; lia).
  rewrite (Hl off_kind 1), (Hl off_left 4), (Hl off_right 4) by (unfold off_kind, off_left, off_right; lia).
  destruct (_ =? _).
  - intros f. unfold read_concrete_flag. f_equal. apply Hl; unfold flag_offset; destruct f; cbn; lia.
  - destruct (kind_source _ _ _); cbn; done.
Qed.

(** ** The host's decoder *)

Lemma source_bits_invalid kind : source_bits kind = None -> forall left right, kind_source kind left right = None.
Proof.
  intros Hk left right. destruct (kind_source kind left right) as [s|] eqn:Hs; [|done].
  apply kind_source_valid in Hs. exfalso. unfold valid_kind in Hs.
  repeat (apply elem_of_cons in Hs as [->|Hs]; [done|]). by apply not_elem_of_nil in Hs.
Qed.

Lemma source_bits_valid kind bits' : source_bits kind = Some bits' -> valid_kind kind.
Proof.
  intros Hk. destruct (decide (valid_kind kind)) as [|Hn]; [done|exfalso].
  unfold source_bits in Hk. unfold valid_kind in Hn.
  repeat match type of Hk with context [match ?x with _ => _ end] => destruct x; try done end; set_solver.
Qed.

Section Decode.
Context (t : Ty) (Ht : operand_type t) (left right : Z) (Hl : fits 32 left) (Hr : fits 32 right).
#[local] Set Default Proof Using "All".
Notation l := (truncate t left).
Notation r := (truncate t right).

Lemma mask_truncate z : Z.land z (Z.shiftr (Z.ones 32) (32 - bits t)) = truncate t z.
Proof.
  pose proof (operand_type_bits t Ht). unfold truncate. rewrite wrap_land by lia. f_equal.
  apply Z.bits_inj'. intros i Hi. rewrite Z.shiftr_spec, !testbit_ones by lia.
  destruct (Z.leb_spec 0 i), (Z.leb_spec 0 (i + (32 - bits t))), (Z.ltb_spec i (bits t)),
    (Z.ltb_spec (i + (32 - bits t)) 32); simpl; done || lia.
Qed.

Lemma truncate_wrap32 z : truncate t (wrap 32 z) = wrap (bits t) z.
Proof. pose proof (operand_type_bits t Ht). apply wrap_idem_le. lia. Qed.

Lemma sign_bit z : has z (wrap 32 (Z.shiftl 1 (bits t - 1))) = bit t z (bits t - 1).
Proof.
  pose proof (operand_type_bits t Ht). rewrite bit_testbit by lia. rewrite <- has_bit by lia. f_equal.
  apply wrap_small. rewrite Z.shiftl_1_l. split; [apply Z.pow_nonneg; lia|apply Z.pow_lt_mono_r; lia].
Qed.

Lemma parity_even z : fits (bits t) z -> (count_ones (wrap 8 z) mod 2 =? 0) = parity t z.
Proof.
  intros Hz. rewrite <- (wrap_small _ z Hz) at 2. rewrite parity_meaning by done.
  rewrite Zmod_even. by destruct (Z.even _).
Qed.

Lemma nibble_bit z : has z 16 = bit t z 4.
Proof. rewrite bit_testbit by lia. change 16 with (Z.shiftl 1 4). by apply has_bit. Qed.
Definition flag_bytes (fl : StatusFlag -> bool) : list Z := Z.b2z <$> (fl <$> status_all).

Lemma resolve_arithmetic op res :
  resolve (mkStatusSource (encode_kind t op) res left right)
  = Some (flag_bytes (source_flag t (Arithmetic op l r (arith_result op t l r)))).
Proof.
  assert (source_bits (encode_kind t op) = Some (bits t)
    /\ Z.land (encode_kind t op) 3 = match op with Subtract => 1 | Add => 2 end) as [Hb Hk]
    by (destruct Ht as [->|[->| ->]], op; done).
  assert (fits (bits t) (arith_result op t l r)) as Hf
    by (destruct op; apply truncate_fits).
  unfold resolve; cbn [kind src_left src_right]. rewrite Hb. cbn [mbind option_bind]. cbv zeta.
  rewrite Hk. rewrite !mask_truncate. unfold flag_bytes; cbn [fmap list_fmap status_all source_flag arith_flag result_flag].
  destruct op; cbn [mbind option_bind Z.eqb Pos.eqb negb andb arith_result select] in *;
    rewrite !truncate_wrap32; [fold (vadd t l r)|fold (vsub t l r)];
    rewrite !sign_bit, nibble_bit, parity_even by done; [done|].
  by rewrite (Z.land_comm (Z.lxor l r)).
Qed.

Lemma resolve_logic res :
  resolve (mkStatusSource (encode_logic t) res left right) = Some (flag_bytes (source_flag t (Logic l))).
Proof.
  assert (source_bits (encode_logic t) = Some (bits t) /\ Z.land (encode_logic t) 3 = 3) as [Hb Hk]
    by (destruct Ht as [->|[->| ->]]; done).
  unfold resolve; cbn [kind src_left src_right]. rewrite Hb. cbn [mbind option_bind]. cbv zeta.
  rewrite Hk. rewrite !mask_truncate. cbn [mbind option_bind Z.eqb Pos.eqb negb andb].
  rewrite !sign_bit, parity_even by apply truncate_fits. done.
Qed.

End Decode.

Lemma resolve_agrees kind res left right : fits 32 left -> fits 32 right ->
  resolve (mkStatusSource kind res left right)
  = (fun s => flag_bytes (any_flag s)) <$> kind_source kind left right.
Proof.
  intros Hl Hr. destruct (source_bits kind) as [b|] eqn:Hb.
  - apply source_bits_valid in Hb. unfold valid_kind in Hb.
    assert (operand_type I8 /\ operand_type I16 /\ operand_type I32) as (H8 & H16 & H32)
      by (unfold operand_type; auto).
    repeat (apply elem_of_cons in Hb as [->|Hb];
      [ first [ exact (resolve_arithmetic I8 H8 left right Hl Hr Subtract res)
              | exact (resolve_arithmetic I8 H8 left right Hl Hr Add res)
              | exact (resolve_logic I8 H8 left right Hl Hr res)
              | exact (resolve_arithmetic I16 H16 left right Hl Hr Subtract res)
              | exact (resolve_arithmetic I16 H16 left right Hl Hr Add res)
              | exact (resolve_logic I16 H16 left right Hl Hr res)
              | exact (resolve_arithmetic I32 H32 left right Hl Hr Subtract res)
              | exact (resolve_arithmetic I32 H32 left right Hl Hr Add res)
              | exact (resolve_logic I32 H32 left right Hl Hr res) ] |]).
    by apply not_elem_of_nil in Hb.
  - rewrite source_bits_invalid by done. unfold resolve; cbn [CpuFlags.kind]. by rewrite Hb.
Qed.
