(* ===== verification/FlagImage.v ===== *)
(** * Architectural flag images

    crates/x86/src/flags/image.rs: the FLAGS and EFLAGS words that PUSHF, POPF,
    LAHF and SAHF transfer, and the host's packing of the stored record
    ([FlagsState::eflags], CpuFlags.v) as the same word. *)

From S2P Require Import Prelude Bytes Backing Types Val Flags Alu CpuFlags CpuFlagsFacts.
Local Open Scope Z_scope.

Record FlagImage := mkImage { image_flags : list Flag; fixed : Z }.

Definition AH : FlagImage := mkImage [Status CF; Status PF; Status AF; Status ZF; Status SF] 2.
Definition WORD : FlagImage :=
  mkImage [Status CF; Status PF; Status AF; Status ZF; Status SF; Status OF; TF; DF; NT] 2.
Definition DWORD : FlagImage :=
  mkImage [Status CF; Status PF; Status AF; Status ZF; Status SF; Status OF; TF; DF; NT; AC; ID] 2.

Definition image_bit (flag : Flag) : Z :=
  match flag with
  | Status CF => 0 | Status PF => 2 | Status AF => 4 | Status ZF => 6 | Status SF => 7
  | Status OF => 11 | TF => 8 | IF => 9 | DF => 10 | NT => 14 | AC => 18 | ID => 21
  end.

Definition pack (image : FlagImage) (values : list bool) : Z :=
  foldl (fun acc '(flag, value) => Z.lor acc (vshl I32 (Z.b2z value) (image_bit flag)))
    (literal I32 (fixed image)) (zip (image_flags image) values).

Definition image_change (image : FlagImage) (word : Z) : FlagChange :=
  partial ((fun flag => (flag, truncate1 (vshr I32 word (image_bit flag)))) <$> image_flags image).

Inductive ExecutionProfile : Set := Protected | Real16.

Definition image_of_type (t : Ty) : option FlagImage :=
  match t with I16 => Some WORD | I32 => Some DWORD | _ => None end.

(** [read_stack_image] over the flags and IOPL the execution reads. *)
Definition read_stack_image (t : Ty) (profile : ExecutionProfile) (read : Flag -> bool) (iopl : Z)
    : option Z :=
  image ← image_of_type t;
  let word := pack image (read <$> image_flags image) in
  let word := match profile with
              | Protected => Z.lor word 512
              | Real16 => Z.lor (Z.lor word (vshl I32 (Z.b2z (read IF)) (image_bit IF))) (vshl I32 iopl 12)
              end in
  Some (truncate t word).

(** [write_stack_image]: the change, and in real mode IF, IOPL and whether IF
    went from clear to set. *)
Definition write_stack_image (t : Ty) (profile : ExecutionProfile) (read : Flag -> bool) (iopl : Z)
    (word : Z) : option ((Flag -> bool) * Z * bool) :=
  image ← image_of_type t;
  let flags := updated (image_change image word) read in
  match profile with
  | Protected => Some (flags, iopl, false)
  | Real16 =>
      let before := flags IF in
      let enabled := truncate1 (vshr I32 word (image_bit IF)) in
      let flags flag := if decide (flag = IF) then enabled else flags flag in
      Some (flags, Z.land (truncate I8 (vshr I32 word 12)) 3, negb before && enabled)
  end.

(** ** Bits of an image *)

Lemma testbit_flag b n i : 0 <= n -> Z.testbit (Z.shiftl (Z.b2z b) n) i = b && (i =? n).
Proof.
  intros Hn. rewrite testbit_shiftl by done. destruct (Z.eqb_spec i n) as [->|Hne].
  - rewrite Z.sub_diag, Z.b2z_bit0. destruct (Z.leb_spec n n); [|lia]. by destruct b.
  - rewrite andb_false_r. destruct (Z.leb_spec n i); [|done]. cbn [andb].
    destruct b; cbn [Z.b2z]; [|apply Z.testbit_0_l]. apply (fits_testbit 1); [split; lia|lia].
Qed.

Lemma image_bit_range f : 0 <= image_bit f < 22.
Proof. destruct f as [[]| | | | | |]; simpl; lia. Qed.

Lemma vshl_flag b n : 0 <= n < 31 -> vshl I32 (Z.b2z b) n = Z.shiftl (Z.b2z b) n.
Proof.
  intros Hn. unfold vshl. rewrite shift_count_small by lia. apply wrap_small. cbn [bits].
  rewrite Z.shiftl_mul_pow2 by lia. pose proof (Z.pow_lt_mono_r 2 n 31 ltac:(lia) ltac:(lia) ltac:(lia)).
  pose proof (pow2_pos n ltac:(lia)). change (2 ^ 31) with 2147483648 in *. unfold fits.
  change (2 ^ 32) with 4294967296. destruct b; cbn; lia.
Qed.

Lemma host_bit v n : 0 <= n < 31 -> wrap 32 (Z.shiftl (Z.land v 1) n) = Z.shiftl (Z.b2z (Z.testbit v 0)) n.
Proof.
  intros Hn. assert (Z.land v 1 = Z.b2z (Z.testbit v 0)) as ->.
  { rewrite Z.bit0_mod. change 1 with (Z.ones 1). rewrite Z.land_ones by lia. reflexivity. }
  pose proof (vshl_flag (Z.testbit v 0) n Hn) as H. unfold vshl in H.
  by rewrite shift_count_small in H by lia.
Qed.

(** The dword image with every represented flag: what real-mode PUSHFD stores. *)
Definition eflags_image (read : Flag -> bool) (iopl : Z) : Z :=
  default 0 (read_stack_image I32 Real16 read iopl).

(** ** The host's packing *)

Lemma load_byte m a : load m a 1 = m a.
Proof. transitivity (Z.lor (m (a + 0)) 0); [reflexivity|]. by rewrite Z.add_0_r, Z.lor_0_r. Qed.

(** The flags and IOPL in backing memory. *)
Definition machine_flags (m : Memory) : option (Flag -> bool) :=
  (fun fl flag => match flag with
                  | Status f => fl f
                  | flag => truncate1 (m (flag_offset flag))
                  end) <$> stored_flags m.
Definition machine_iopl (m : Memory) : Z := Z.land (m off_iopl) 3.

#[local] Notation "a '.|' b '@' n" := (Z.lor a (Z.shiftl (Z.b2z b) n)) (at level 50, left associativity, b at level 0).

Lemma eflags_fold a x0 x2 x4 x6 x7 x11 x8 x9 x10 x14 x18 x21 iopl : fits 2 iopl ->
  (forall i, Z.testbit a i = Z.testbit (Z.lor 2 (Z.shiftl iopl 12)) i) ->
  a .| x0 @ 0 .| x2 @ 2 .| x4 @ 4 .| x6 @ 6 .| x7 @ 7 .| x11 @ 11 .| x8 @ 8 .| x9 @ 9 .| x10 @ 10
    .| x14 @ 14 .| x18 @ 18 .| x21 @ 21
  = truncate I32 (Z.lor (2 .| x0 @ 0 .| x2 @ 2 .| x4 @ 4 .| x6 @ 6 .| x7 @ 7 .| x11 @ 11 .| x8 @ 8
      .| x10 @ 10 .| x14 @ 14 .| x18 @ 18 .| x21 @ 21 .| x9 @ 9) (Z.shiftl iopl 12)).
Proof.
  intros Hi Ha. apply Z.bits_inj'. intros i Hge. unfold truncate. cbn [bits].
  rewrite testbit_wrap by lia. rewrite !Z.lor_spec, Ha, !testbit_flag by lia. rewrite Z.lor_spec.
  destruct (Z.ltb_spec i 32); cbn [andb].
  { generalize (x9 && (i =? 9)), (Z.testbit (Z.shiftl iopl 12) i). intros [] [];
      by rewrite ?orb_true_r, ?orb_true_l, ?orb_false_r, ?orb_true_r. }
  rewrite (fits_testbit 2 2), testbit_shiftl by (lia || done).
  rewrite (fits_testbit 2 iopl) by (done || lia).
  repeat match goal with |- context [i =? ?n] => rewrite (proj2 (Z.eqb_neq i n)) by lia end.
  by rewrite !andb_false_r.
Qed.

(** The twelve bytes the host packs, as booleans of the flags. *)
Lemma eflags_of_flags (s : FlagsState) (b : FlagBytes) (read : Flag -> bool) iopl :
  (if negb (kind (fs_source s) =? 0) then with_status (fs_bytes s) <$> resolve (fs_source s)
   else Some (fs_bytes s)) = Some b ->
  Z.land (fb_iopl b) 3 = iopl ->
  (fun v => Z.testbit v.1 0) <$> flag_bits b
    = read <$> [Status CF; Status PF; Status AF; Status ZF; Status SF; Status OF; TF; IF; DF; NT; AC; ID] ->
  eflags s = Some (eflags_image read iopl).
Proof.
  intros Hb Hi Hread. unfold eflags. rewrite Hb. cbn [mbind option_bind]. rewrite Hi. f_equal.
  assert (fits 2 iopl) as Hfit by (subst iopl; change 3 with (Z.ones 2); apply fits_land_r; [lia|apply fits_ones; lia]).
  unfold flag_bits in *. cbn [fmap list_fmap fst] in Hread.
  injection Hread as E0 E1 E2 E3 E4 E5 E6 E7 E8 E9 E10 E11.
  cbn [foldl]. rewrite !host_bit, E0, E1, E2, E3, E4, E5, E6, E7, E8, E9, E10, E11 by lia.
  unfold eflags_image, read_stack_image; cbn [image_of_type mbind option_bind default from_option id].
  unfold pack, DWORD; cbn [image_flags fixed fmap list_fmap zip zip_with foldl image_bit].
  rewrite !vshl_flag by lia.
  assert (vshl I32 iopl 12 = Z.shiftl iopl 12) as ->.
  { unfold vshl. rewrite shift_count_small by lia. apply wrap_small. rewrite Z.shiftl_mul_pow2 by lia.
    cbn [bits]. unfold fits in *. lia. }
  change (literal I32 2) with 2.
  by apply eflags_fold.
Qed.

Lemma flags_in_fields m : flags_in m =
  mkFlagsState
    (mkStatusSource (m 0) [m 1; m 2; m 3] (load m 4 4) (load m 8 4))
    (mkFlagBytes (m 12) (m 13) (m 14) (m 15) (m 16) (m 17) (m 18) (m 19) (m 20) (m 21) (m 22) (m 23)
       (m 24) [m 25; m 26; m 27]).
Proof. reflexivity. Qed.

(** What the two decoders see of one image. *)
Lemma host_packs (m : Memory) read : mem_ok m -> machine_flags m = Some read ->
  eflags (flags_in m) = Some (eflags_image read (machine_iopl m)).
Proof.
  intros Hm Hread. unfold machine_flags, stored_flags in Hread. rewrite stored_source_kind in Hread.
  unfold off_kind, off_left, off_right in Hread. rewrite load_byte in Hread. rewrite flags_in_fields.
  assert (fits 32 (load m 4 4) /\ fits 32 (load m 8 4)) as [Hl Hr] by (split; by apply (load_fits m _ 4)).
  destruct (Z.eqb_spec (m 0) CONCRETE_KIND) as [Hk|Hk].
  - cbn [fmap option_fmap option_map] in Hread. injection Hread as <-.
    eapply eflags_of_flags; cbn [fs_source fs_bytes kind].
    + unfold CONCRETE_KIND in Hk. rewrite Hk. reflexivity.
    + reflexivity.
    + unfold read_concrete_flag, truncate1, flag_offset, flag_bits.
      cbn [fmap list_fmap fst fb_cf fb_pf fb_af fb_zf fb_sf fb_of fb_tf fb_df fb_nt fb_ac fb_id fb_if].
      by rewrite !load_byte.
  - pose proof (resolve_agrees (m 0) [m 1; m 2; m 3] _ _ Hl Hr) as Hres. unfold CONCRETE_KIND in Hk.
    destruct (kind_source (m 0) (load m 4 4) (load m 8 4)) as [s|] eqn:Hs; [|done].
    cbn [fmap option_fmap option_map] in *. injection Hread as <-.
    eapply eflags_of_flags; cbn [fs_source fs_bytes kind].
    + rewrite (proj2 (Z.eqb_neq (m 0) 0)) by done. cbn [negb]. rewrite Hres. reflexivity.
    + reflexivity.
    + unfold flag_bits, with_status, flag_bytes, at_, truncate1, flag_offset.
      cbn [fmap list_fmap status_all nth Z.to_nat Pos.to_nat Pos.iter_op Nat.add fst
           fb_cf fb_pf fb_af fb_zf fb_sf fb_of fb_tf fb_df fb_nt fb_ac fb_id fb_if].
      cbv [Z.to_nat Pos.to_nat Pos.iter_op Nat.add]. rewrite !Z.b2z_bit0. reflexivity.
Qed.

Lemma host_rejects (m : Memory) : mem_ok m -> machine_flags m = None -> eflags (flags_in m) = None.
Proof.
  intros Hm Hread. unfold machine_flags, stored_flags in Hread. rewrite stored_source_kind in Hread.
  unfold off_kind, off_left, off_right in Hread. rewrite load_byte in Hread. rewrite flags_in_fields.
  destruct (Z.eqb_spec (m 0) CONCRETE_KIND) as [Hk|Hk]; [done|].
  pose proof (resolve_agrees (m 0) [m 1; m 2; m 3] _ _ (load_fits m 4 4 ltac:(lia) Hm) (load_fits m 8 4 ltac:(lia) Hm)) as Hres.
  unfold CONCRETE_KIND in Hk. destruct (kind_source (m 0) (load m 4 4) (load m 8 4)) as [s|] eqn:Hs; [done|].
  cbn [fmap option_fmap option_map] in *. unfold eflags; cbn [fs_source fs_bytes kind].
  rewrite (proj2 (Z.eqb_neq (m 0) 0)) by done. cbn [negb]. by rewrite Hres.
Qed.

Lemma eflags_image_ext read read' iopl : (forall flag, read flag = read' flag) ->
  eflags_image read iopl = eflags_image read' iopl.
Proof. intros H. unfold eflags_image, read_stack_image; cbn [image_of_type mbind option_bind image_flags DWORD fmap list_fmap]. by rewrite !H. Qed.

(** The host's decoder of a CPU snapshot and the generated code's own readers
    agree on every image of the record: on the ten known kinds the host's EFLAGS
    is the word a real-mode PUSHFD of the flags the generated code reads would
    store, and the host rejects a kind exactly when the generated code traps. *)
Theorem host_and_guest_agree (m : Memory) : mem_ok m ->
  eflags (flags_in m) = (fun read => eflags_image read (machine_iopl m)) <$> machine_flags m.
Proof.
  intros Hm. destruct (machine_flags m) as [read|] eqn:Hread; cbn [fmap option_fmap option_map].
  - exact (host_packs m read Hm Hread).
  - exact (host_rejects m Hm Hread).
Qed.

(** ** Replacing the flags *)

Lemma testbit_land1 v n i : 0 <= n -> 0 <= i -> Z.testbit (Z.land (Z.shiftr v n) 1) i = (i =? 0) && Z.testbit v n.
Proof.
  intros Hn Hi. change 1 with (Z.ones 1). rewrite Z.land_spec, testbit_ones, Z.shiftr_spec by lia.
  destruct (Z.eqb_spec i 0) as [->|]; cbn [andb Z.add]; [by rewrite andb_true_r|].
  destruct (Z.ltb_spec i 1); [lia|]. by rewrite andb_false_r, andb_false_r.
Qed.

(** The bits a 32-bit image represents. *)
Definition represented_bits : Z := 2392021.

Lemma testbit_iopl v i : 0 <= i ->
  Z.testbit (Z.shiftl (Z.land (Z.land (Z.shiftr v 12) 3) 3) 12) i = Z.testbit v i && ((i =? 12) || (i =? 13)).
Proof.
  intros Hi. change 3 with (Z.ones 2). rewrite testbit_shiftl, !Z.land_spec, !testbit_ones by lia.
  destruct (Z.leb_spec 12 i); cbn [andb].
  - rewrite Z.shiftr_spec by lia. replace (i - 12 + 12) with i by lia.
    destruct (Z.leb_spec 0 (i - 12)), (Z.ltb_spec (i - 12) 2), (Z.eqb_spec i 12), (Z.eqb_spec i 13);
      try lia; cbn [andb orb]; by rewrite ?andb_true_r, ?andb_false_r.
  - destruct (Z.eqb_spec i 12), (Z.eqb_spec i 13); try lia; by rewrite andb_false_r.
Qed.

Lemma testbit_represented i : 0 <= i -> Z.testbit represented_bits i =
  (i =? 0) || (i =? 2) || (i =? 4) || (i =? 6) || (i =? 7) || (i =? 11) || (i =? 8) || (i =? 9)
  || (i =? 10) || (i =? 14) || (i =? 18) || (i =? 21) || (i =? 12) || (i =? 13).
Proof.
  intros Hi. destruct (decide (i < 22)).
  - assert (forallb (fun i => Bool.eqb (Z.testbit represented_bits i)
      ((i =? 0) || (i =? 2) || (i =? 4) || (i =? 6) || (i =? 7) || (i =? 11) || (i =? 8) || (i =? 9)
       || (i =? 10) || (i =? 14) || (i =? 18) || (i =? 21) || (i =? 12) || (i =? 13))) (seqZ 0 22) = true)
      as Hall by (vm_compute; reflexivity).
    rewrite forallb_forall in Hall. apply eqb_prop, Hall, list_elem_of_In, elem_of_seqZ. lia.
  - rewrite (fits_testbit 22 represented_bits) by (lia || (apply (bool_decide_unpack _); vm_compute; exact I)).
    repeat match goal with |- context [i =? ?n] => rewrite (proj2 (Z.eqb_neq i n)) by lia end. done.
Qed.

Lemma flag_at_bit v i n : Z.testbit v n && (i =? n) = Z.testbit v i && (i =? n).
Proof. destruct (Z.eqb_spec i n) as [->|]; [done|by rewrite !andb_false_r]. Qed.

(** Replacing the flags of a snapshot installs the represented bits of the image
    over the fixed one, whatever source was active. *)
Lemma set_eflags_eflags s v : eflags (set_eflags s v) = Some (Z.lor 2 (Z.land v represented_bits)).
Proof.
  unfold eflags, set_eflags; cbn [fs_source kind Z.eqb negb mbind option_bind fb_iopl fs_bytes flag_bits
    fb_cf fb_pf fb_af fb_zf fb_sf fb_of fb_tf fb_df fb_nt fb_ac fb_id fb_if foldl].
  f_equal. apply Z.bits_inj'. intros i Hi. rewrite !host_bit, !testbit_land1 by lia. cbn [Z.eqb andb].
  rewrite !Z.lor_spec, !testbit_flag, testbit_iopl, Z.land_spec, testbit_represented by lia.
  rewrite !(flag_at_bit v i). destruct (Z.testbit 2 i); [by rewrite ?orb_true_l|cbn [orb]].
  destruct (Z.testbit v i); cbn [andb]; [|done].
  rewrite <- !orb_assoc. btauto.
Qed.

(** A snapshot's fields at their Rust types. *)
Definition flags_state_ok (s : FlagsState) : Prop :=
  length (src_reserved (fs_source s)) = 3%nat /\ length (fb_reserved (fs_bytes s)) = 3%nat
  /\ fits 32 (src_left (fs_source s)) /\ fits 32 (src_right (fs_source s)).
#[export] Instance flags_state_ok_dec s : Decision (flags_state_ok s).
Proof. unfold flags_state_ok. apply _. Defined.

Lemma flags_from_to_bytes s : flags_state_ok s -> flags_from_bytes (flags_to_bytes s) = s.
Proof.
  intros (H3 & H3' & Hl & Hr). destruct s as [[k res left right] b]; cbn [fs_source fs_bytes src_reserved src_left src_right] in *.
  destruct b as [cf pf af zf sf o tf df nt ac id_ if_ iopl res']; cbn [fb_reserved] in *.
  destruct res as [|a0 [|a1 [|a2 [|]]]]; try done. destruct res' as [|c0 [|c1 [|c2 [|]]]]; try done.
  unfold flags_from_bytes, flags_to_bytes. do 2 f_equal.
  - exact (from_to_le_bytes 4 left Hl).
  - exact (from_to_le_bytes 4 right Hr).
Qed.

(** Installing an EFLAGS image in a CPU snapshot and encoding it gives memory
    from which the generated code reads exactly that image's flags, and from which
    the host reads its represented bits back, whatever source was active before. *)
Theorem set_eflags_roundtrip (s : FlagsState) (v : Z) (m : Memory) :
  flags_state_ok s -> m <$> addresses 0 FLAGS_BYTE_LEN = flags_to_bytes (set_eflags s v) ->
  eflags (flags_in m) = Some (Z.lor 2 (Z.land v represented_bits))
  /\ exists read, machine_flags m = Some read
     /\ forall flag, read flag = Z.testbit v (image_bit flag).
Proof.
  intros Hs Hm. assert (flags_in m = set_eflags s v) as Hin.
  { unfold flags_in. rewrite Hm. by apply flags_from_to_bytes. }
  split; [rewrite Hin; apply set_eflags_eflags|].
  rewrite flags_in_fields in Hin. unfold set_eflags in Hin.
  injection Hin as E0 _ _ _ E1 E2 E3 E4 E5 E6 E7 E8 E9 E10 E11 E12 _ _.
  unfold machine_flags, stored_flags, off_kind. rewrite load_byte, E0. cbn [CONCRETE_KIND Z.eqb fmap option_fmap option_map].
  eexists. split; [done|]. intros flag.
  assert (forall n, 0 <= n -> Z.testbit (Z.land (Z.shiftr v n) 1) 0 = Z.testbit v n) as Hb
    by (intros n Hn; rewrite testbit_land1 by lia; done).
  unfold read_concrete_flag, truncate1, flag_offset.
  destruct flag as [[]| | | | | |]; cbn [status_index image_bit]; rewrite ?load_byte;
    match goal with |- context [m ?a] => let a' := eval vm_compute in a in change a with a' end;
    rewrite ?E1, ?E2, ?E3, ?E4, ?E5, ?E6, ?E7, ?E8, ?E9, ?E10, ?E11, ?E12; apply Hb; lia.
Qed.

Module Sample.

(** A word subtraction 3 - 5 with the direct flags TF, IF and NT set and IOPL 2. *)
Definition subtraction : Memory := fun x =>
  match x with 0 => 5 | 4 => 3 | 8 => 5 | 18 => 1 | 20 => 255 | 23 => 1 | 24 => 2 | _ => 0 end.

Lemma subtraction_ok : mem_ok subtraction.
Proof.
  intros x. unfold subtraction.
  repeat match goal with |- context [match ?y with _ => _ end] => destruct y end;
    apply (bool_decide_unpack _); vm_compute; exact I.
Qed.

Example host_and_guest_witness :
  eflags (flags_in subtraction)
    = (fun read => eflags_image read (machine_iopl subtraction)) <$> machine_flags subtraction
  /\ eflags (flags_in subtraction) = Some 25491.
Proof. split; [exact (host_and_guest_agree subtraction subtraction_ok)|vm_compute; reflexivity]. Defined.

(** Replacing that snapshot's flags by the image of CF, ZF, IF and ID. *)
Definition replaced : FlagsState := flags_in subtraction.
Definition word : Z := 2097729.
Definition encoded : Memory := fun x => nth (Z.to_nat x) (flags_to_bytes (set_eflags replaced word)) 0.

Example set_eflags_witness :
  (eflags (flags_in encoded) = Some (Z.lor 2 (Z.land word represented_bits))
   /\ exists read, machine_flags encoded = Some read /\ forall flag, read flag = Z.testbit word (image_bit flag))
  /\ eflags (flags_in encoded) = Some 2097731.
Proof.
  split; [|vm_compute; reflexivity]. apply (set_eflags_roundtrip replaced word encoded).
  - apply (bool_decide_unpack _). vm_compute. exact I.
  - vm_compute. reflexivity.
Defined.

End Sample.
