(* ===== verification/FlagTracker.v ===== *)
(** * Lazy flags along a path

    crates/x86/src/state/flags.rs, flags/queries.rs and flags/publication.rs: the
    tracker that follows the flags while a path of instructions is built. The six
    status flags stay a source and a list of pending changes, queried on demand
    and published as one record at the end; the other flags are retained fields
    of the CPU record (StateFields.v). Values are those the expressions have when
    the code runs; [None] is a trap of that code or a panic of the builder. *)

From S2P Require Import Prelude Bytes Backing StateFields Types Val Flags Alu AluFacts CpuFlags CpuFlagsFacts FlagImage.
Local Open Scope Z_scope.

(** ** Locations *)

Definition direct_location {V} (flag : Flag) : option (Location V) :=
  match flag with Status _ => None | flag => Some (location_new (flag_offset flag) 1) end.
Definition iopl_location {V} : Location V := location_new off_iopl 1.

(** [position] of a canonical condition. *)
Definition condition_index (c : Condition) : nat :=
  match list_find (fun d => d = c) CANONICAL with Some (i, _) => i | None => O end.

(** [rposition]: the last index whose element satisfies the predicate. *)
Fixpoint rposition {A} (p : A -> bool) (l : list A) : option nat :=
  match l with
  | [] => None
  | x :: l =>
      match rposition p l with
      | Some i => Some (S i)
      | None => if p x then Some O else None
      end
  end.

(** ** State *)

Record CpuFlagCache := mkCache { cached_conditions : list (option bool); auxiliary : option bool }.
Definition cache_default : CpuFlagCache := mkCache (replicate 8 None) None.

Inductive StatusBase : Type := Stored (cache : CpuFlagCache) | Local (source : AnyStatusSource).
Record StatusState := mkStatus { st_base : StatusBase; st_updates : list FlagChange }.
Definition status_default : StatusState := mkStatus (Stored cache_default) [].

Definition flag_slot (cache : CpuFlagCache) (f : StatusFlag) : option bool :=
  match flag_condition f with
  | Some c => mjoin (cached_conditions cache !! condition_index c)
  | None => auxiliary cache
  end.
Definition set_flag_slot (cache : CpuFlagCache) (f : StatusFlag) (value : option bool) : CpuFlagCache :=
  match flag_condition f with
  | Some c => mkCache (<[condition_index c := value]> (cached_conditions cache)) (auxiliary cache)
  | None => mkCache (cached_conditions cache) value
  end.

(** ** flags.rs: [StatusState::apply] *)

Definition status_apply (s : StatusState) (change : FlagChange) : StatusState :=
  let push := mkStatus (st_base s) (st_updates s ++ [change]) in
  match condition change, values change with
  | None, FromStatus source =>
      if writes change =? FlagMask.STATUS then mkStatus (Local source) [] else push
  | _, _ => push
  end.

(** ** queries.rs *)

Definition base_condition (m : Memory) (base : StatusBase) (c : Condition) : option (bool * StatusBase) :=
  match base with
  | Local source => Some (any_condition source c, base)
  | Stored cache =>
      let index := condition_index (canonical c) in
      '(value, cache) ←
        match mjoin (cached_conditions cache !! index) with
        | Some value => Some (value, cache)
        | None =>
            value ← read_condition m (canonical c);
            Some (value, mkCache (<[index := Some value]> (cached_conditions cache)) (auxiliary cache))
        end;
      Some (if is_inverted c then negb value else value, Stored cache)
  end.

(** The flags of [status_all] satisfying a predicate, as a mask. *)
Definition mask_where (p : StatusFlag -> bool) : Z :=
  foldl (fun mask flag => if p flag then FlagMask.union mask (FlagMask.of_flag (Status flag)) else mask)
    FlagMask.EMPTY status_all.

Definition base_read_flags (m : Memory) (base : StatusBase) (needed : Z)
    : option (list (option bool) * StatusBase) :=
  let wanted flag value := if FlagMask.contains needed (Status flag) then value else None in
  match base with
  | Local source => Some ((fun flag => wanted flag (Some (any_flag source flag))) <$> status_all, base)
  | Stored cache =>
      let missing := mask_where (fun flag =>
        FlagMask.contains needed (Status flag) && bool_decide (flag_slot cache flag = None)) in
      cache ←
        (if negb (missing =? FlagMask.EMPTY) then
           flags ← cpu_read_flags m missing;
           Some (foldl (fun cache flag =>
                   match slot flags flag with
                   | Some value => set_flag_slot cache flag (Some value)
                   | None => cache
                   end) cache status_all)
         else Some cache);
      Some ((fun flag => wanted flag (flag_slot cache flag)) <$> status_all, Stored cache)
  end.

(** One update over a flag's value, where it writes the flag. *)
Definition update_flag (flag : StatusFlag) (value : option bool) (update : FlagChange) : option bool :=
  if FlagMask.contains (writes update) (Status flag) then
    value ← value;
    changed ← change_flag update (Status flag);
    Some match condition update with Some c => select c changed value | None => changed end
  else value.

Definition flag_start (updates : list FlagChange) (flag : StatusFlag) : option nat :=
  rposition (fun update => bool_decide (condition update = None) && FlagMask.contains (writes update) (Status flag))
    updates.

Definition resolve_flag (updates : list FlagChange) (inherited : list (option bool)) (flag : StatusFlag)
    : option bool :=
  match flag_start updates flag with
  | Some index =>
      update ← updates !! index;
      foldl (update_flag flag) (change_flag update (Status flag)) (drop (S index) updates)
  | None => foldl (update_flag flag) (slot inherited flag) updates
  end.

Definition resolve_flags (m : Memory) (base : StatusBase) (updates : list FlagChange) (needed : Z)
    : option (list (option bool) * StatusBase) :=
  let inherited := mask_where (fun flag =>
    FlagMask.contains needed (Status flag) && bool_decide (flag_start updates flag = None)) in
  '(flags, base) ← base_read_flags m base inherited;
  Some ((fun flag => if FlagMask.contains needed (Status flag) then resolve_flag updates flags flag
                     else slot flags flag) <$> status_all, base).

(** The arms of [StatusState::condition] that choose where to start. *)
Definition condition_start (m : Memory) (s : StatusState) (c : Condition)
    : option (bool * StatusBase * list FlagChange) :=
  let needed := condition_flags c in
  let updates := st_updates s in
  let replacement := rposition (fun update =>
    bool_decide (condition update = None) && bool_decide (is_Some (status_source update needed))) updates in
  let partial := rposition (fun update =>
    FlagMask.intersects (writes update) needed && bool_decide (status_source update needed = None)) updates in
  let partial := index ← partial;
                 match replacement with
                 | Some r => if (r <? index)%nat then Some index else None
                 | None => Some index
                 end in
  match partial, replacement with
  | Some index, _ =>
      '(flags, base) ← resolve_flags m (st_base s) (take (S index) updates) needed;
      value ← evaluate c (fun flag => slot flags flag);
      Some (value, base, drop (S index) updates)
  | None, Some index =>
      update ← updates !! index;
      source ← status_source update needed;
      Some (any_condition source c, st_base s, drop (S index) updates)
  | None, None =>
      '(value, base) ← base_condition m (st_base s) c;
      Some (value, base, updates)
  end.

Definition condition_update (c : Condition) (value : bool) (update : FlagChange) : bool :=
  match status_source update (condition_flags c) with
  | Some source =>
      let changed := any_condition source c in
      match condition update with Some predicate => select predicate changed value | None => changed end
  | None => value
  end.

Definition status_condition (m : Memory) (s : StatusState) (c : Condition) : option (bool * StatusState) :=
  '(value, base, following) ← condition_start m s c;
  Some (foldl (condition_update c) value following, mkStatus base (st_updates s)).

Definition status_read_flag (m : Memory) (s : StatusState) (flag : StatusFlag) : option (bool * StatusState) :=
  match flag_condition flag with
  | Some c => status_condition m s c
  | None =>
      '(flags, base) ← resolve_flags m (st_base s) (st_updates s) (FlagMask.of_flag (Status flag));
      value ← slot flags flag;
      Some (value, mkStatus base (st_updates s))
  end.

(** ** publication.rs: the status record *)

Definition base_publish (m : Memory) (base : StatusBase) : Memory :=
  match base with Stored _ => m | Local source => publish_source m source end.

Definition publish_concrete (m : Memory) (s : StatusState) : option Memory :=
  '(flags, _) ← resolve_flags m (st_base s) (st_updates s) FlagMask.STATUS;
  status ← mapM id flags;
  Some (write_concrete m status).

Definition is_partial (update : FlagChange) : bool :=
  bool_decide (status_source update FlagMask.STATUS = None).

Definition needs_concrete (updates : list FlagChange) : bool :=
  foldl (fun needs update =>
           match condition update with
           | Some c => select c (is_partial update) needs
           | None => is_partial update
           end) false updates.

(** The block over the updates in reverse: the last active replacement. *)
Fixpoint publish_last (m : Memory) (base : StatusBase) (rev_updates : list FlagChange) : option Memory :=
  match rev_updates with
  | [] => Some (base_publish m base)
  | update :: rest =>
      match status_source update FlagMask.STATUS with
      | Some source =>
          match condition update with
          | Some true => Some (publish_source m source)
          | Some false => publish_last m base rest
          | None => None
          end
      | None => publish_last m base rest
      end
  end.

(** [known]: the builder found [needs_concrete] to be a literal. *)
Definition status_publish (known : bool) (m : Memory) (s : StatusState) : option Memory :=
  if bool_decide (st_updates s = []) then Some (base_publish m (st_base s))
  else
    let has_partial := existsb is_partial (st_updates s) in
    let needs := needs_concrete (st_updates s) in
    if has_partial && known && needs then publish_concrete m s
    else
      let partial_condition := if has_partial && negb known then Some needs else None in
      match partial_condition with
      | Some true => publish_concrete m s
      | _ => publish_last m (st_base s) (reverse (st_updates s))
      end.

(** ** flags.rs: the tracker *)

Section Tracker.
Context {V : Type} `{Expressions V}.

Record FlagTracker := mkTracker { tr_status : StatusState; tr_direct : StateFields V }.

Definition tracker_new : FlagTracker := mkTracker status_default fields_new.

(** The loop over the direct flags a change writes. *)
Definition apply_direct (change : FlagChange) (acc : option (StateFields V * Body)) (flag : Flag)
    : option (StateFields V * Body) :=
  '(direct, b) ← acc;
  match direct_location flag with
  | None => Some (direct, b)
  | Some location =>
      value ← Z.b2z <$> change_flag change flag;
      match condition change with
      | Some c =>
          let '(old, direct, b) := fields_read direct b location in
          let '(value, b) := build b (select c value (bits_of old)) in
          Some (fields_define direct b location value)
      | None =>
          let '(value, b) := build b value in
          Some (fields_define direct b location value)
      end
  end.

(** Admission checks that every value belongs to the body; the values here do. *)
Definition tracker_apply (t : FlagTracker) (b : Body) (change : FlagChange) : option (FlagTracker * Body) :=
  let known := constant (built b) in
  let b := mkBody (memory b) (S (built b)) in
  if writes change =? FlagMask.EMPTY then Some (t, b)
  else if bool_decide (condition change = Some false) && known then Some (t, b)
  else
    let change := if bool_decide (condition change = Some true) && known
                  then mkChange None (values change) (writes change) else change in
    '(direct, b) ← foldl (apply_direct change) (Some (tr_direct t, b)) (FlagMask.flags (writes change));
    let change := retaining change FlagMask.STATUS in
    let status := if negb (writes change =? FlagMask.EMPTY) then status_apply (tr_status t) change
                  else tr_status t in
    Some (mkTracker status direct, b).

Definition tracker_read (t : FlagTracker) (b : Body) (flag : Flag) : option (bool * FlagTracker * Body) :=
  match flag with
  | Status f =>
      '(value, status) ← status_read_flag (memory b) (tr_status t) f;
      Some (value, mkTracker status (tr_direct t), b)
  | flag =>
      location ← direct_location flag;
      let '(value, direct, b) := fields_read (tr_direct t) b location in
      Some (truncate1 (bits_of value), mkTracker (tr_status t) direct, b)
  end.

Definition tracker_condition (t : FlagTracker) (b : Body) (c : Condition) : option (bool * FlagTracker * Body) :=
  '(value, status) ← status_condition (memory b) (tr_status t) c;
  Some (value, mkTracker status (tr_direct t), b).

(** The direct flags of [read_flags], after its one status query. *)
Fixpoint read_direct (t : FlagTracker) (b : Body) (flags : list Flag)
    : option (list (Flag * bool) * FlagTracker * Body) :=
  match flags with
  | [] => Some ([], t, b)
  | Status _ :: flags => read_direct t b flags
  | flag :: flags =>
      '(value, t, b) ← tracker_read t b flag;
      '(rest, t, b) ← read_direct t b flags;
      Some ((flag, value) :: rest, t, b)
  end.

Definition mask_of (requested : list Flag) : Z :=
  foldl (fun mask flag => FlagMask.union mask (FlagMask.of_flag flag)) FlagMask.EMPTY requested.

Definition tracker_read_flags (t : FlagTracker) (b : Body) (requested : list Flag)
    : option (list bool * FlagTracker * Body) :=
  let needed := mask_of requested in
  '(status, base) ← resolve_flags (memory b) (st_base (tr_status t)) (st_updates (tr_status t))
                      (FlagMask.intersection needed FlagMask.STATUS);
  let t := mkTracker (mkStatus base (st_updates (tr_status t))) (tr_direct t) in
  '(direct, t, b) ← read_direct t b (FlagMask.flags needed);
  values ← mapM (fun flag => match flag with
                             | Status f => slot status f
                             | flag => snd <$> find (fun p => bool_decide (p.1 = flag)) direct
                             end) requested;
  Some (values, t, b).

Definition tracker_read_iopl (t : FlagTracker) (b : Body) : Z * FlagTracker * Body :=
  let '(value, direct, b) := fields_read (tr_direct t) b iopl_location in
  (Z.land (bits_of value) 3, mkTracker (tr_status t) direct, b).

Definition tracker_write_iopl (t : FlagTracker) (b : Body) (value : Z) : FlagTracker * Body :=
  let '(value, b) := build b (Z.land value 3) in
  let '(direct, b) := fields_define (tr_direct t) b iopl_location value in
  (mkTracker (tr_status t) direct, b).

Definition tracker_publish (t : FlagTracker) (b : Body) : option Body :=
  m ← status_publish (constant (built b)) (memory b) (tr_status t);
  Some (fields_publish (tr_direct t) (set_memory b m)).

End Tracker.
Arguments FlagTracker V : clear implicits.
