(* ===== verification/FlagTrackerFacts.v ===== *)
(** * Lazy flags against eager flags

    Status state stands for six flags: those of its base, changed by each update
    in turn. Queries, whatever they cache and wherever they start, return them,
    and publication leaves a record that decodes to them. *)

From S2P Require Import Prelude Bytes Backing StateFields Types Val Flags Alu AluFacts CpuFlags CpuFlagsFacts FlagImage FlagTracker.
Local Open Scope Z_scope.

(** ** Changes *)

(** A change as the arithmetic unit and the flag images build it. *)
Definition change_ok (u : FlagChange) : Prop :=
  FlagMask.mask_ok (writes u)
  /\ Forall (fun flag => FlagMask.contains (writes u) flag = true -> is_Some (change_flag u flag)) flag_all
  /\ match values u with FromStatus s => any_ok s | Values _ => True end.
#[export] Instance change_ok_dec u : Decision (change_ok u).
Proof. unfold change_ok. destruct (values u); apply _. Defined.

Lemma change_ok_flag u flag : change_ok u -> FlagMask.contains (writes u) flag = true ->
  is_Some (change_flag u flag).
Proof. intros (_ & Hf & _). rewrite Forall_forall in Hf. apply Hf, elem_of_flag_all. Qed.

(** A change over the six flags. *)
Definition status_updated (u : FlagChange) (fl : StatusFlag -> bool) (f : StatusFlag) : bool :=
  if default true (condition u) then default (fl f) (change_flag u (Status f)) else fl f.

(** The flags after a list of changes. *)
Definition flow (us : list FlagChange) (fl : StatusFlag -> bool) : StatusFlag -> bool :=
  foldl (fun fl u => status_updated u fl) fl us.

Lemma flow_snoc us u fl : flow (us ++ [u]) fl = status_updated u (flow us fl).
Proof. unfold flow. by rewrite foldl_app. Qed.
Lemma flow_app us vs fl : flow (us ++ vs) fl = flow vs (flow us fl).
Proof. unfold flow. by rewrite foldl_app. Qed.

Lemma flow_pointwise us fl fl' f : fl f = fl' f -> flow us fl f = flow us fl' f.
Proof.
  revert fl fl'. induction us as [|u us IH]; intros fl fl' Hf; [done|]. unfold flow; cbn [foldl].
  apply IH. unfold status_updated. by rewrite Hf.
Qed.

Lemma change_flag_not_written u flag : FlagMask.contains (writes u) flag = false -> change_flag u flag = None.
Proof. intros Hw. unfold change_flag. by rewrite Hw. Qed.

Lemma status_updated_not_written u fl f : FlagMask.contains (writes u) (Status f) = false ->
  status_updated u fl f = fl f.
Proof. intros Hw. unfold status_updated. rewrite change_flag_not_written by done. by destruct (default _ _). Qed.

Lemma update_flag_ok u fl f : change_ok u ->
  update_flag f (Some (fl f)) u = Some (status_updated u fl f).
Proof.
  intros Hu. unfold update_flag, status_updated.
  destruct (FlagMask.contains (writes u) (Status f)) eqn:Hw.
  - destruct (change_ok_flag u (Status f) Hu Hw) as [v ->]. cbn.
    by destruct (condition u) as [[]|].
  - rewrite change_flag_not_written by done. cbn. by destruct (default _ _).
Qed.

Lemma update_flags_ok us fl f : Forall change_ok us ->
  foldl (update_flag f) (Some (fl f)) us = Some (flow us fl f).
Proof.
  intros Hus. revert fl. induction Hus as [|u us Hu _ IH]; intros fl; [done|]. cbn [foldl].
  rewrite update_flag_ok by done. apply IH.
Qed.

(** ** Positions *)

Lemma rposition_Some {A} (p : A -> bool) l i : rposition p l = Some i ->
  exists x, l !! i = Some x /\ p x = true /\ Forall (fun y => p y = false) (drop (S i) l).
Proof.
  revert i. induction l as [|x l IH]; intros i; cbn [rposition]; [done|].
  destruct (rposition p l) as [j|] eqn:Hl.
  - intros ?. simplify_eq. destruct (IH j eq_refl) as (y & Hy & Hp & Hd). eauto.
  - destruct (p x) eqn:Hx; [|done]. intros ?. simplify_eq. exists x. split; [done|]. split; [done|].
    clear IH. cbn [drop]. induction l as [|y l IH]; [constructor|]. cbn [rposition] in Hl.
    destruct (rposition p l); [done|]. destruct (p y) eqn:Hy; [done|]. constructor; auto.
Qed.

Lemma rposition_None {A} (p : A -> bool) l : rposition p l = None -> Forall (fun y => p y = false) l.
Proof.
  induction l as [|x l IH]; cbn [rposition]; [constructor|].
  destruct (rposition p l); [done|]. destruct (p x) eqn:Hx; [done|]. constructor; auto.
Qed.

Lemma split_at {A} (l : list A) i x : l !! i = Some x -> l = take i l ++ [x] ++ drop (S i) l.
Proof. intros Hi. by rewrite <- (take_drop_middle l i x Hi) at 1. Qed.

Lemma resolve_flag_ok us (inherited : list (option bool)) fl f : Forall change_ok us ->
  (flag_start us f = None -> slot inherited f = Some (fl f)) ->
  resolve_flag us inherited f = Some (flow us fl f).
Proof.
  intros Hus Hin. unfold resolve_flag. destruct (flag_start us f) as [i|] eqn:Hs.
  - unfold flag_start in Hs. apply rposition_Some in Hs as (u & Hi & Hp & _). rewrite Hi. cbn [mbind option_bind].
    apply andb_true_iff in Hp as [Hc%bool_decide_eq_true Hw].
    pose proof (proj1 (Forall_lookup _ _) Hus i u Hi) as Hu.
    destruct (change_ok_flag u (Status f) Hu Hw) as [v Hv]. rewrite Hv.
    rewrite (split_at us i u Hi) at 2. rewrite flow_app. cbn [app].
    set (fl1 := flow (take i us) fl). change (u :: drop (S i) us) with ([u] ++ drop (S i) us). rewrite flow_app.
    assert (v = flow [u] fl1 f) as ->.
    { unfold flow; cbn [foldl]. unfold status_updated. by rewrite Hc, Hv. }
    apply update_flags_ok. by apply Forall_drop.
  - rewrite Hin by done. by apply update_flags_ok.
Qed.

(** ** Masks *)

Lemma contains_mask_where p f : FlagMask.contains (mask_where p) (Status f) = p f.
Proof.
  unfold mask_where; cbn [status_all foldl].
  destruct f; destruct (p CF), (p PF), (p AF), (p ZF), (p SF), (p OF); reflexivity.
Qed.

Lemma mask_where_nonneg p : 0 <= mask_where p.
Proof.
  unfold mask_where; cbn [status_all foldl].
  destruct (p CF), (p PF), (p AF), (p ZF), (p SF), (p OF); apply (bool_decide_unpack _); vm_compute; exact I.
Qed.

Lemma slot_fmap (g : StatusFlag -> option bool) f : slot (g <$> status_all) f = g f.
Proof. by destruct f. Qed.

(** ** The base *)

Definition cache_ok (cache : CpuFlagCache) (fl : StatusFlag -> bool) : Prop :=
  length (cached_conditions cache) = 8%nat
  /\ (forall c v, mjoin (cached_conditions cache !! condition_index (canonical c)) = Some v -> v = holds (canonical c) fl)
  /\ (forall v, auxiliary cache = Some v -> v = fl AF).

Definition base_ok (m : Memory) (base : StatusBase) (fl : StatusFlag -> bool) : Prop :=
  match base with
  | Local s => any_ok s /\ forall f, fl f = any_flag s f
  | Stored cache =>
      cache_ok cache fl /\ exists stored, stored_flags m = Some stored /\ forall f, fl f = stored f
  end.

Lemma condition_index_lt c : (condition_index (canonical c) < 8)%nat.
Proof. destruct c; apply (bool_decide_unpack _); vm_compute; exact I. Qed.
Lemma condition_index_inj c d : condition_index (canonical c) = condition_index (canonical d) -> canonical c = canonical d.
Proof. by destruct c, d. Qed.

Lemma cache_ok_default fl : cache_ok cache_default fl.
Proof.
  split; [done|]. split; [|done]. intros c v. pose proof (condition_index_lt c).
  unfold cache_default; cbn [cached_conditions]. rewrite lookup_replicate_2 by done. done.
Qed.

Lemma cache_ok_insert cache fl c : cache_ok cache fl ->
  cache_ok (mkCache (<[condition_index (canonical c) := Some (holds (canonical c) fl)]> (cached_conditions cache))
              (auxiliary cache)) fl.
Proof.
  intros (Hlen & Hc & Ha). split; [cbn [cached_conditions]; by rewrite length_insert|]. split; [|done]. intros d v.
  cbn [cached_conditions]. destruct (decide (condition_index (canonical d) = condition_index (canonical c))) as [He|Hne].
  - rewrite He, list_lookup_insert_eq by (rewrite Hlen; apply condition_index_lt).
    apply condition_index_inj in He. rewrite He. cbn. congruence.
  - rewrite list_lookup_insert_ne by done. apply Hc.
Qed.

Lemma flag_condition_canonical f c : flag_condition f = Some c -> canonical c = c.
Proof. destruct f; cbn [flag_condition]; intros; by simplify_eq. Qed.

Lemma flag_slot_ok cache fl f v : cache_ok cache fl -> flag_slot cache f = Some v -> v = fl f.
Proof.
  intros (_ & Hc & Ha). unfold flag_slot. destruct (flag_condition f) as [c|] eqn:Hf.
  - rewrite <- (flag_condition_holds f c) by done. rewrite <- (flag_condition_canonical f c) by done. apply Hc.
  - intros ->%Ha. destruct f; done.
Qed.

Lemma set_flag_slot_ok cache fl f : cache_ok cache fl -> cache_ok (set_flag_slot cache f (Some (fl f))) fl.
Proof.
  intros Hok. unfold set_flag_slot. destruct (flag_condition f) as [c|] eqn:Hf.
  - rewrite <- (flag_condition_holds f c) by done. rewrite <- (flag_condition_canonical f c) by done.
    by apply cache_ok_insert.
  - destruct Hok as (Hlen & Hc & _). split; [done|]. split; [done|]. intros v. cbn. intros. simplify_eq.
    by destruct f.
Qed.

Lemma flag_slot_set cache f g v : length (cached_conditions cache) = 8%nat ->
  flag_slot (set_flag_slot cache f (Some v)) g = if decide (g = f) then Some v else flag_slot cache g.
Proof.
  intros Hlen. unfold flag_slot, set_flag_slot.
  destruct f, g; cbn [flag_condition cached_conditions auxiliary];
    match goal with |- context [decide ?P] => destruct (decide P); try done end;
    first [ rewrite list_lookup_insert_eq by (rewrite Hlen; apply (bool_decide_unpack _); vm_compute; exact I); done
          | rewrite list_lookup_insert_ne by (apply (bool_decide_unpack _); vm_compute; exact I); done ].
Qed.

Lemma holds_pointwise c fl fl' : (forall f, fl f = fl' f) -> holds c fl = holds c fl'.
Proof. intros Hf. apply holds_ext. auto. Qed.

Lemma base_condition_ok m base fl c : base_ok m base fl ->
  exists base', base_condition m base c = Some (holds c fl, base') /\ base_ok m base' fl.
Proof.
  destruct base as [cache|s]; cbn [base_ok base_condition].
  - intros (Hcache & stored & Hm & Hfl). pose proof Hcache as (_ & Hc & _).
    destruct (mjoin _) as [v|] eqn:Hv; cbn [mbind option_bind].
    + apply Hc in Hv as ->. eexists. rewrite (holds_inverted c fl). split; [done|]. split; eauto.
    + rewrite (read_condition_correct m _ stored) by done. cbn [mbind option_bind]. eexists.
      rewrite (holds_inverted c fl), <- (holds_pointwise (canonical c) fl stored) by done. split; [done|].
      split; [by apply cache_ok_insert|eauto].
  - intros [Hs Hfl]. exists (Local s). rewrite condition_from_operands_any by done.
    by rewrite (holds_pointwise c fl (any_flag s)).
Qed.

Definition wanted (needed : Z) (fl : StatusFlag -> bool) : list (option bool) :=
  (fun f => if FlagMask.contains needed (Status f) then Some (fl f) else None) <$> status_all.

Lemma slot_wanted needed fl f :
  slot (wanted needed fl) f = if FlagMask.contains needed (Status f) then Some (fl f) else None.
Proof. apply slot_fmap. Qed.

(** Filling the cache with the flags read for it. *)
Lemma fill_cache fl cache flags missing : cache_ok cache fl ->
  (forall f, slot flags f = if FlagMask.contains missing (Status f) then Some (fl f) else None) ->
  let cache' := foldl (fun cache flag => match slot flags flag with
                                         | Some value => set_flag_slot cache flag (Some value)
                                         | None => cache
                                         end) cache status_all in
  cache_ok cache' fl
  /\ forall f, flag_slot cache' f = if FlagMask.contains missing (Status f) then Some (fl f) else flag_slot cache f.
Proof.
  intros Hok Hslot. cbv zeta.
  set (step := fun cache flag => match slot flags flag with
                                 | Some value => set_flag_slot cache flag (Some value)
                                 | None => cache
                                 end).
  assert (forall l cache, cache_ok cache fl -> cache_ok (foldl step cache l) fl /\
    forall f, flag_slot (foldl step cache l) f
      = if decide (f ∈ l /\ FlagMask.contains missing (Status f) = true) then Some (fl f) else flag_slot cache f) as Hgen.
  { induction l as [|g l IH]; intros cache0 Hok0; cbn [foldl].
    - split; [done|]. intros f. rewrite decide_False; [done|]. intros [?%not_elem_of_nil _]. done.
    - assert (cache_ok (step cache0 g) fl /\ forall f, flag_slot (step cache0 g) f
        = if decide (f = g /\ FlagMask.contains missing (Status f) = true) then Some (fl f) else flag_slot cache0 f)
        as [Hok1 Hs1].
      { unfold step. rewrite Hslot. destruct (FlagMask.contains missing (Status g)) eqn:Hg.
        - split; [by apply set_flag_slot_ok|]. intros f. rewrite flag_slot_set by apply Hok0.
          destruct (decide (f = g)) as [->|]; [by rewrite decide_True by done|].
          by rewrite decide_False by naive_solver.
        - split; [done|]. intros f. rewrite decide_False; [done|]. intros [-> ?]. congruence. }
      destruct (IH _ Hok1) as [Hok2 Hs2]. split; [done|]. intros f. rewrite Hs2, Hs1.
      repeat case_decide; set_solver. }
  destruct (Hgen status_all cache Hok) as [Hok' Hs]. split; [done|]. intros f. rewrite Hs.
  pose proof (elem_of_status_all f). destruct (FlagMask.contains missing (Status f)); case_decide; naive_solver.
Qed.

Lemma base_read_flags_ok m base fl needed : base_ok m base fl ->
  exists base', base_read_flags m base needed = Some (wanted needed fl, base') /\ base_ok m base' fl.
Proof.
  destruct base as [cache|s]; cbn [base_ok].
  - intros (Hcache & stored & Hm & Hfl). unfold base_read_flags; cbv zeta.
    set (missing := mask_where _).
    assert (exists cache', (if negb (missing =? FlagMask.EMPTY) then
           flags ← cpu_read_flags m missing;
           Some (foldl (fun cache flag =>
                   match slot flags flag with
                   | Some value => set_flag_slot cache flag (Some value)
                   | None => cache
                   end) cache status_all)
         else Some cache) = Some cache' /\ cache_ok cache' fl /\
         forall f, FlagMask.contains needed (Status f) = true -> flag_slot cache' f = Some (fl f)) as (cache' & -> & Hok' & Hs).
    { assert (forall f, FlagMask.contains missing (Status f)
        = FlagMask.contains needed (Status f) && bool_decide (flag_slot cache f = None)) as Hmiss
        by (intros; apply contains_mask_where).
      assert (forall f, FlagMask.contains needed (Status f) = true -> FlagMask.contains missing (Status f) = false ->
        flag_slot cache f = Some (fl f)) as Hpresent.
      { intros f Hn Hf. rewrite Hmiss, Hn in Hf. cbn [andb] in Hf. apply bool_decide_eq_false in Hf.
        destruct (flag_slot cache f) as [v|] eqn:Hv; [|done]. f_equal. by eapply flag_slot_ok. }
      destruct (Z.eqb_spec missing FlagMask.EMPTY) as [He|]; cbn [negb].
      - exists cache. split; [done|]. split; [done|]. intros f Hn. apply Hpresent; [done|].
        rewrite He. apply FlagMask.contains_empty.
      - destruct (cpu_read_flags_correct m missing stored Hm (mask_where_nonneg _)) as (slots & -> & _ & Hslots).
        cbn [mbind option_bind]. eexists. split; [done|].
        destruct (fill_cache fl cache slots missing Hcache) as [Hok' Hs'].
        { intros f. by rewrite Hslots, Hfl. }
        split; [done|]. intros f Hn. rewrite Hs'.
        destruct (FlagMask.contains missing (Status f)) eqn:Hf; [done|]. by apply Hpresent. }
    cbn [mbind option_bind]. exists (Stored cache'). split; [|cbn; eauto]. do 2 f_equal.
    apply list_fmap_ext. intros i f _. destruct (FlagMask.contains needed (Status f)) eqn:Hn; [by apply Hs|done].
  - intros [Hs Hfl]. exists (Local s). split; [|done]. unfold base_read_flags; cbv zeta. do 2 f_equal.
    apply list_fmap_ext. intros i f _. by rewrite Hfl.
Qed.

Lemma resolve_flags_ok m base us bf needed : base_ok m base bf -> Forall change_ok us ->
  exists base', resolve_flags m base us needed = Some (wanted needed (flow us bf), base') /\ base_ok m base' bf.
Proof.
  intros Hb Hus. unfold resolve_flags; cbv zeta. set (inherited := mask_where _).
  destruct (base_read_flags_ok m base bf inherited Hb) as (base' & -> & Hb'). cbn [mbind option_bind].
  exists base'. split; [|done]. do 2 f_equal. apply list_fmap_ext. intros i f _.
  assert (FlagMask.contains inherited (Status f)
    = FlagMask.contains needed (Status f) && bool_decide (flag_start us f = None)) as Hinh
    by apply contains_mask_where.
  destruct (FlagMask.contains needed (Status f)) eqn:Hn.
  - apply resolve_flag_ok; [done|]. intros Hstart. rewrite slot_wanted, Hinh, Hstart. done.
  - by rewrite slot_wanted, Hinh.
Qed.

(** ** Conditions *)

Lemma status_source_updated u needed s fl f : status_source u needed = Some s -> change_ok u ->
  FlagMask.mask_ok needed -> FlagMask.contains needed (Status f) = true ->
  status_updated u fl f = if default true (condition u) then any_flag s f else fl f.
Proof.
  unfold status_source. intros Hs Hu Hn Hf. destruct (values u) as [s'|] eqn:Hv; [|done].
  destruct (FlagMask.covers (writes u) needed) eqn:Hc; [|done]. simplify_eq.
  pose proof (proj1 (FlagMask.covers_spec _ _ Hn) Hc _ Hf) as Hw.
  unfold status_updated, change_flag. by rewrite Hw, Hv.
Qed.

Lemma status_source_ok u needed s : status_source u needed = Some s -> change_ok u -> any_ok s.
Proof.
  unfold status_source. intros Hs (_ & _ & Hv). destruct (values u); [|done].
  by destruct (FlagMask.covers _ _); simplify_eq.
Qed.

(** An update that covers the condition, or misses it. *)
Definition whole (c : Condition) (u : FlagChange) : Prop :=
  is_Some (status_source u (condition_flags c)) \/ FlagMask.intersects (writes u) (condition_flags c) = false.

Lemma source_condition_updated c u s fl : status_source u (condition_flags c) = Some s -> change_ok u ->
  holds c (status_updated u fl) = if default true (condition u) then any_condition s c else holds c fl.
Proof.
  intros Hs Hu. pose proof (condition_flags_ok c) as Hm.
  rewrite condition_from_operands_any by (by eapply status_source_ok).
  destruct (default true (condition u)) eqn:Hc; apply holds_ext; intros f Hf;
    rewrite (status_source_updated u _ s fl f Hs Hu Hm Hf); by rewrite Hc.
Qed.

Lemma condition_update_ok c u fl : change_ok u -> whole c u ->
  condition_update c (holds c fl) u = holds c (status_updated u fl).
Proof.
  intros Hu [[s Hs]|Hi]; unfold condition_update.
  - rewrite Hs, (source_condition_updated c u s fl) by done. by destruct (condition u) as [[]|].
  - destruct (status_source u (condition_flags c)) as [s|] eqn:Hs.
    + rewrite (source_condition_updated c u s fl) by done. by destruct (condition u) as [[]|].
    + apply holds_ext. intros f Hf. symmetry. apply status_updated_not_written.
      destruct (FlagMask.contains (writes u) (Status f)) eqn:Hw; [|done].
      rewrite (FlagMask.not_intersects_spec _ _ _ Hi Hw) in Hf. done.
Qed.

Lemma condition_updates_ok c us fl : Forall change_ok us -> Forall (whole c) us ->
  foldl (condition_update c) (holds c fl) us = holds c (flow us fl).
Proof.
  intros Hus. revert fl. induction Hus as [|u us Hu _ IH]; intros fl Hw; [done|].
  apply Forall_cons in Hw as [Hw Hws]. cbn [foldl]. rewrite condition_update_ok by done. by apply IH.
Qed.

(** ** The state *)

Definition update_ok (u : FlagChange) : Prop :=
  change_ok u /\ (condition u = None -> is_partial u = true).

Definition status_ok (m : Memory) (s : StatusState) (fl : StatusFlag -> bool) : Prop :=
  Forall update_ok (st_updates s)
  /\ exists bf, base_ok m (st_base s) bf /\ forall f, fl f = flow (st_updates s) bf f.

Lemma update_ok_change us : Forall update_ok us -> Forall change_ok us.
Proof. intros H. eapply Forall_impl; [exact H|]. by intros u [? _]. Qed.

Lemma not_partial_whole c us :
  Forall (fun u => (FlagMask.intersects (writes u) (condition_flags c)
                    && bool_decide (status_source u (condition_flags c) = None)) = false) us ->
  Forall (whole c) us.
Proof.
  intros H. eapply Forall_impl; [exact H|]. intros u Hu. unfold whole. apply andb_false_iff in Hu as [Hu|Hu%bool_decide_eq_false]; [by right|].
  left. by apply not_eq_None_Some.
Qed.

Lemma condition_start_ok m s c fl : status_ok m s fl ->
  exists v base following, condition_start m s c = Some (v, base, following)
    /\ status_ok m (mkStatus base (st_updates s)) fl
    /\ foldl (condition_update c) v following = holds c fl.
Proof.
  intros (Hus & bf & Hb & Hfl). pose proof (update_ok_change _ Hus) as Hch.
  assert (holds c fl = holds c (flow (st_updates s) bf)) as -> by (by apply holds_pointwise).
  unfold condition_start; cbv zeta.
  set (us := st_updates s) in *. set (needed := condition_flags c).
  set (prt := fun u => FlagMask.intersects (writes u) needed && bool_decide (status_source u needed = None)).
  set (rep := fun u => bool_decide (condition u = None) && bool_decide (is_Some (status_source u needed))).
  assert (forall base', base_ok m base' bf -> status_ok m (mkStatus base' us) fl) as Hok'.
  { intros base' Hb'. split; [done|]. exists bf. done. }
  assert (forall p, Forall (fun u => prt u = false) (drop (S p) us) ->
    exists v base following,
      ('(flags, base) ← resolve_flags m (st_base s) (take (S p) us) needed;
       value ← evaluate c (fun flag => slot flags flag);
       Some (value, base, drop (S p) us)) = Some (v, base, following)
      /\ status_ok m (mkStatus base us) fl /\ foldl (condition_update c) v following = holds c (flow us bf)) as Hpartial.
  { intros p Hafter.
    destruct (resolve_flags_ok m (st_base s) (take (S p) us) bf needed Hb) as (base' & -> & Hb'); [by apply Forall_take|].
    cbn [mbind option_bind]. rewrite (evaluate_reads c _ (flow (take (S p) us) bf)).
    - cbn [mbind option_bind]. do 3 eexists. split; [done|]. split; [by apply Hok'|].
      rewrite condition_updates_ok; [|by apply Forall_drop|by apply not_partial_whole].
      by rewrite <- flow_app, take_drop.
    - intros f Hf. rewrite slot_wanted. unfold needed. by rewrite Hf. }
  assert (forall r, rposition rep us = Some r -> Forall (fun u => prt u = false) (drop (S r) us) ->
    exists v base following,
      (update ← us !! r; source ← status_source update needed;
       Some (any_condition source c, st_base s, drop (S r) us)) = Some (v, base, following)
      /\ status_ok m (mkStatus base us) fl /\ foldl (condition_update c) v following = holds c (flow us bf)) as Hreplace.
  { intros r Hr Hafter. apply rposition_Some in Hr as (u & Hu & [Hc [src Hs]%bool_decide_eq_true]%andb_true_iff & _).
    apply bool_decide_eq_true in Hc. rewrite Hu. cbn [mbind option_bind]. rewrite Hs. cbn [mbind option_bind].
    do 3 eexists. split; [done|]. split; [by apply Hok'|].
    pose proof (proj1 (Forall_lookup _ _) Hch r u Hu) as Huok.
    assert (any_condition src c = holds c (flow (take (S r) us) bf)) as ->.
    { rewrite (take_S_r _ _ u) by done. rewrite flow_snoc, (source_condition_updated c u src) by done. by rewrite Hc. }
    rewrite condition_updates_ok; [|by apply Forall_drop|by apply not_partial_whole].
    by rewrite <- flow_app, take_drop. }
  destruct (rposition prt us) as [p|] eqn:Hp.
  - apply rposition_Some in Hp as (_ & _ & _ & Hafter).
    destruct (rposition rep us) as [r|] eqn:Hr; cbn [mbind option_bind]; [|by apply Hpartial].
    destruct (Nat.ltb_spec r p); [by apply Hpartial|]. apply Hreplace; [done|].
    replace (S r) with (S p + (r - p))%nat by lia. rewrite <- drop_drop. by apply Forall_drop.
  - apply rposition_None in Hp. cbn [mbind option_bind].
    destruct (rposition rep us) as [r|] eqn:Hr; [apply Hreplace; [done|by apply Forall_drop]|].
    destruct (base_condition_ok m (st_base s) bf c Hb) as (base' & -> & Hb'). cbn [mbind option_bind].
    do 3 eexists. split; [done|]. split; [by apply Hok'|].
    apply condition_updates_ok; [done|by apply not_partial_whole].
Qed.

Lemma status_condition_ok m s c fl : status_ok m s fl ->
  exists s', status_condition m s c = Some (holds c fl, s') /\ status_ok m s' fl.
Proof.
  intros Hs. unfold status_condition. destruct (condition_start_ok m s c fl Hs) as (v & base & following & -> & Hok & Hv).
  cbn [mbind option_bind]. rewrite Hv. eauto.
Qed.

Lemma status_resolve_ok m s needed fl : status_ok m s fl ->
  exists base, resolve_flags m (st_base s) (st_updates s) needed = Some (wanted needed fl, base)
    /\ status_ok m (mkStatus base (st_updates s)) fl.
Proof.
  intros (Hus & bf & Hb & Hfl).
  destruct (resolve_flags_ok m (st_base s) (st_updates s) bf needed Hb (update_ok_change _ Hus)) as (base & Hr & Hb').
  exists base. rewrite Hr. split.
  - do 2 f_equal. apply list_fmap_ext. intros i f _. by rewrite Hfl.
  - split; [done|]. eauto.
Qed.

Lemma status_read_flag_ok m s f fl : status_ok m s fl ->
  exists s', status_read_flag m s f = Some (fl f, s') /\ status_ok m s' fl.
Proof.
  intros Hs. unfold status_read_flag. destruct (flag_condition f) as [c|] eqn:Hf.
  - rewrite <- (flag_condition_holds f c fl Hf). by apply status_condition_ok.
  - destruct (status_resolve_ok m s (FlagMask.of_flag (Status f)) fl Hs) as (base & -> & Hok).
    cbn [mbind option_bind]. rewrite slot_wanted, FlagMask.contains_of, bool_decide_eq_true_2 by done.
    cbn [mbind option_bind]. eauto.
Qed.

(** A change to status flags only, as [FlagTracker::apply] retains it. *)
Lemma status_apply_ok m s u fl : status_ok m s fl -> change_ok u ->
  FlagMask.intersection (writes u) FlagMask.STATUS = writes u ->
  status_ok m (status_apply s u) (status_updated u fl).
Proof.
  intros (Hus & bf & Hb & Hfl) Hu Hw.
  assert (update_ok u -> status_ok m (mkStatus (st_base s) (st_updates s ++ [u])) (status_updated u fl)) as Hpush.
  { intros Huok. split; [apply Forall_app; by rewrite Forall_singleton|]. exists bf. split; [done|]. intros f.
    cbn [st_updates]. rewrite flow_snoc. unfold status_updated. by rewrite Hfl. }
  unfold status_apply. destruct (condition u) as [cond|] eqn:Hc.
  - apply Hpush. split; [done|]. by rewrite Hc.
  - assert (is_partial u = true -> update_ok u) as Hpart by (intros; by split).
    unfold is_partial, status_source in Hpart. destruct (values u) as [src|vs] eqn:Hv; [|by apply Hpush, Hpart].
    destruct (Z.eqb_spec (writes u) FlagMask.STATUS) as [He|Hne].
    + split; [constructor|]. exists (any_flag src). split.
      * split; [|done]. destruct Hu as (_ & _ & Hok). by rewrite Hv in Hok.
      * intros f. cbn. unfold status_updated. rewrite Hc. cbn. unfold change_flag. rewrite He, Hv.
        by rewrite FlagMask.contains_status.
    + apply Hpush, Hpart. destruct (FlagMask.covers (writes u) FlagMask.STATUS) eqn:Hcov; [|done].
      exfalso. apply Hne. unfold FlagMask.covers in Hcov. apply Z.eqb_eq in Hcov.
      rewrite <- Hw. exact Hcov.
Qed.

(** ** Publication *)

(** A published record decodes to the flags and leaves the rest of memory. *)
Definition publishes (m m' : Memory) (fl : StatusFlag -> bool) : Prop :=
  (exists stored, stored_flags m' = Some stored /\ forall f, stored f = fl f)
  /\ (forall x, status_end <= x -> m' x = m x) /\ mem_ok m'.

Lemma base_publish_ok m base bf : mem_ok m -> base_ok m base bf -> publishes m (base_publish m base) bf.
Proof.
  intros Hm. destruct base as [cache|src]; cbn [base_ok base_publish].
  - intros (_ & stored & Hs & Hfl). split; [exists stored; split; [done|]|]; done.
  - intros [Hs Hfl]. split; [|split].
    + destruct (publish_source_flags src m Hs) as (stored & Hst & Hf). exists stored. split; [done|].
      intros f. by rewrite Hf.
    + intros x. apply publish_source_frame.
    + by apply publish_source_mem_ok.
Qed.

Lemma publishes_pointwise m m' fl fl' : (forall f, fl f = fl' f) -> publishes m m' fl -> publishes m m' fl'.
Proof. intros Hf ((stored & Hs & Hst) & H). split; [|done]. exists stored. split; [done|]. intros. by rewrite Hst. Qed.

Lemma publish_concrete_ok m s fl : mem_ok m -> status_ok m s fl ->
  exists m', publish_concrete m s = Some m' /\ publishes m m' fl.
Proof.
  intros Hm Hs. unfold publish_concrete. destruct (status_resolve_ok m s FlagMask.STATUS fl Hs) as (base & -> & _).
  cbn [mbind option_bind].
  assert (wanted FlagMask.STATUS fl = Some <$> (fl <$> status_all)) as -> by reflexivity.
  assert (mapM id (Some <$> (fl <$> status_all)) = Some (fl <$> status_all)) as ->.
  { reflexivity. }
  cbn [mbind option_bind]. eexists. split; [done|]. split; [|split].
  - unfold stored_flags. destruct (write_concrete_flags m (fl <$> status_all) CF) as [-> _].
    eexists. split; [done|]. intros f. destruct (write_concrete_flags m (fl <$> status_all) f) as [_ ->].
    apply nth_status_all.
  - intros x. apply write_concrete_frame.
  - by apply write_concrete_mem_ok.
Qed.

Lemma needs_concrete_snoc us u : needs_concrete (us ++ [u])
  = match condition u with Some c => select c (is_partial u) (needs_concrete us) | None => is_partial u end.
Proof. unfold needs_concrete. by rewrite foldl_app. Qed.

(** Unless a partial change is the last active one, the last active replacement
    decides, and the base when none is active. *)
Lemma publish_last_ok m base bf us : mem_ok m -> base_ok m base bf -> Forall update_ok us ->
  needs_concrete us = false ->
  exists m', publish_last m base (reverse us) = Some m' /\ publishes m m' (flow us bf).
Proof.
  intros Hm Hb. induction us as [|u us IH] using rev_ind; intros Hus Hneeds.
  - eexists. split; [done|]. by apply base_publish_ok.
  - apply Forall_app in Hus as [Hus [[Hu Hcond] _]%Forall_cons]. rewrite needs_concrete_snoc in Hneeds.
    rewrite reverse_snoc. cbn [publish_last]. rewrite flow_snoc.
    unfold is_partial in Hneeds, Hcond. destruct (condition u) as [[]|] eqn:Hc; cbn [select] in Hneeds.
    + apply bool_decide_eq_false in Hneeds. destruct (status_source u FlagMask.STATUS) as [src|] eqn:Hs; [|done].
      eexists. split; [done|]. pose proof (status_source_ok u _ src Hs Hu) as Hok.
      apply (publishes_pointwise _ _ (any_flag src)).
      * intros f. rewrite (status_source_updated u _ src _ f Hs Hu); [by rewrite Hc| |apply FlagMask.contains_status].
        apply (bool_decide_unpack _). vm_compute. exact I.
      * apply (base_publish_ok m (Local src) (any_flag src) Hm). done.
    + destruct (IH Hus Hneeds) as (m' & Hp & Hpub). exists m'. split.
      * by destruct (status_source u FlagMask.STATUS).
      * eapply publishes_pointwise; [|exact Hpub]. intros f. unfold status_updated. by rewrite Hc.
    + specialize (Hcond eq_refl). congruence.
Qed.

Lemma no_partial_needs us : Forall update_ok us -> existsb is_partial us = false -> needs_concrete us = false.
Proof.
  induction us as [|u us IH] using rev_ind; intros Hus Hp; [done|].
  rewrite existsb_app in Hp. apply orb_false_iff in Hp as [Hp Hu]. cbn [existsb] in Hu. rewrite orb_false_r in Hu.
  apply Forall_app in Hus as [Hus _]. rewrite needs_concrete_snoc, Hu, IH by done. by destruct (condition u) as [[]|].
Qed.

Lemma status_publish_ok known m s fl : mem_ok m -> status_ok m s fl ->
  exists m', status_publish known m s = Some m' /\ publishes m m' fl.
Proof.
  intros Hm Hs. pose proof Hs as (Hus & bf & Hb & Hfl). unfold status_publish; cbv zeta.
  case_bool_decide as He.
  - eexists. split; [done|]. apply (publishes_pointwise _ _ bf); [intros f; by rewrite Hfl, He|].
    by apply base_publish_ok.
  - assert (needs_concrete (st_updates s) = false ->
      exists m', publish_last m (st_base s) (reverse (st_updates s)) = Some m' /\ publishes m m' fl) as Hlast.
    { intros Hn. destruct (publish_last_ok m (st_base s) bf (st_updates s) Hm Hb Hus Hn) as (m' & Hp & Hpub).
      exists m'. split; [done|]. eapply publishes_pointwise; [|exact Hpub]. done. }
    pose proof (publish_concrete_ok m s fl Hm Hs) as Hconc.
    destruct (existsb is_partial (st_updates s)) eqn:Hp; cbn [andb].
    + destruct known, (needs_concrete (st_updates s)) eqn:Hn; cbn [andb negb]; auto.
    + apply Hlast. by apply no_partial_needs.
Qed.
