(* ===== verification/LazyFlags.v ===== *)
(** * The lazy flags refine eager ones

    The whole tracker of FlagTracker.v against a machine that keeps twelve flags
    and IOPL and applies every change at once: along any path of changes,
    queries and IOPL accesses both give the same answers, and what the tracker
    publishes is what the host reads as the eager machine's EFLAGS. *)

From S2P Require Import Prelude Bytes Backing StateFields Types Val Flags Alu AluFacts CpuFlags CpuFlagsFacts FlagImage FlagTracker FlagTrackerFacts.
Local Open Scope Z_scope.

(** ** The eager machine *)

Record Eager := mkEager { e_flags : Flag -> bool; e_iopl : Z }.

Inductive FlagOp : Type :=
| ApplyChange (change : FlagChange)
| ReadFlag (flag : Flag)
| ReadFlags (requested : list Flag)
| TestCondition (c : Condition)
| ReadIopl
| WriteIopl (value : Z).

(** The values an operation returns, as integers, and the state after it. *)
Definition eager_step (e : Eager) (op : FlagOp) : list Z * Eager :=
  match op with
  | ApplyChange change => ([], mkEager (updated change (e_flags e)) (e_iopl e))
  | ReadFlag flag => ([Z.b2z (e_flags e flag)], e)
  | ReadFlags requested => (Z.b2z <$> (e_flags e <$> requested), e)
  | TestCondition c => ([Z.b2z (holds c (fun f => e_flags e (Status f)))], e)
  | ReadIopl => ([e_iopl e], e)
  | WriteIopl value => ([], mkEager (e_flags e) (Z.land value 3))
  end.

Fixpoint run_eager (e : Eager) (path : list FlagOp) : list (list Z) * Eager :=
  match path with
  | [] => ([], e)
  | op :: path =>
      let '(out, e) := eager_step e op in
      let '(outs, e) := run_eager e path in
      (out :: outs, e)
  end.

Definition op_ok (op : FlagOp) : Prop :=
  match op with ApplyChange change => change_ok change | _ => True end.
#[export] Instance op_ok_dec op : Decision (op_ok op).
Proof. destruct op; unfold op_ok; apply _. Defined.

(** ** The tracker *)

Section Lazy.
Context {V : Type} `{Expressions V}.
#[local] Set Default Proof Using "All".

(** A query's answer as integers. *)
Definition answer {A} (f : A -> list Z) (r : option (A * FlagTracker V * Body))
    : option (list Z * FlagTracker V * Body) :=
  match r with Some (v, t, b) => Some (f v, t, b) | None => None end.

Definition lazy_step (t : FlagTracker V) (b : Body) (op : FlagOp)
    : option (list Z * FlagTracker V * Body) :=
  match op with
  | ApplyChange change =>
      match tracker_apply t b change with Some (t, b) => Some ([], t, b) | None => None end
  | ReadFlag flag => answer (fun v => [Z.b2z v]) (tracker_read t b flag)
  | ReadFlags requested => answer (fmap Z.b2z) (tracker_read_flags t b requested)
  | TestCondition c => answer (fun v => [Z.b2z v]) (tracker_condition t b c)
  | ReadIopl => answer (fun v => [v]) (Some (tracker_read_iopl t b))
  | WriteIopl value => let '(t, b) := tracker_write_iopl t b value in Some ([], t, b)
  end.

Fixpoint run_lazy (t : FlagTracker V) (b : Body) (path : list FlagOp)
    : option (list (list Z) * FlagTracker V * Body) :=
  match path with
  | [] => Some ([], t, b)
  | op :: path =>
      match lazy_step t b op with
      | Some (out, t, b) =>
          match run_lazy t b path with
          | Some (outs, t, b) => Some (out :: outs, t, b)
          | None => None
          end
      | None => None
      end
  end.

(** ** The direct fields *)

Definition direct_flag (flag : Flag) : Prop := match flag with Status _ => False | _ => True end.
#[export] Instance direct_flag_dec flag : Decision (direct_flag flag).
Proof. destruct flag; apply _. Defined.

Record direct_ok (d : StateFields V) (m : Memory) (spec : Memory) (e : Eager) : Prop := {
  do_base : bits_of (base d) = 0;
  do_represents : represents 0 (definitions d) m spec;
  do_high : forall k, k ∈ location <$> definitions d -> status_end <= key_offset k;
  do_flags : forall flag, direct_flag flag -> e_flags e flag = truncate1 (spec (flag_offset flag));
  do_iopl : e_iopl e = Z.land (spec off_iopl) 3;
}.

Definition tracker_ok (t : FlagTracker V) (b : Body) (e : Eager) : Prop :=
  (exists spec, direct_ok (tr_direct t) (memory b) spec e)
  /\ status_ok (memory b) (tr_status t) (fun f => e_flags e (Status f)).

(** The record's own bytes are never held back in the fields. *)
Lemma direct_low d m spec e x : direct_ok d m spec e -> x < status_end -> m x = spec x.
Proof.
  intros Hd Hx. symmetry. apply (rep_clean _ _ _ _ (do_represents _ _ _ _ Hd)).
  intros en Hen _ Ho. apply occupies_key in Ho.
  pose proof (do_high _ _ _ _ Hd (location en) ltac:(by apply list_elem_of_fmap_2)). lia.
Qed.

Lemma base_ok_ext m m' base fl : (forall x, x < status_end -> m x = m' x) -> base_ok m base fl -> base_ok m' base fl.
Proof.
  intros Hm. destruct base as [cache|s]; [|done]. intros (Hc & stored & Hs & Hfl). split; [done|].
  pose proof (stored_flags_ext m m' ltac:(intros; apply Hm; lia)) as Hext. rewrite Hs in Hext.
  destruct (stored_flags m') as [stored'|]; [|done]. exists stored'. split; [done|].
  intros f. by rewrite Hfl.
Qed.

Lemma status_ok_ext m m' s fl : (forall x, x < status_end -> m x = m' x) -> status_ok m s fl -> status_ok m' s fl.
Proof. intros Hm (Hus & bf & Hb & Hfl). split; [done|]. exists bf. split; [by eapply base_ok_ext|done]. Qed.

Lemma status_ok_pointwise m s fl fl' : (forall f, fl f = fl' f) -> status_ok m s fl -> status_ok m s fl'.
Proof. intros Hf (Hus & bf & Hb & Hfl). split; [done|]. exists bf. split; [done|]. intros f. by rewrite <- Hf. Qed.

Lemma flag_offset_high flag : direct_flag flag -> status_end <= flag_offset flag.
Proof. unfold flag_offset, status_end. destruct flag; cbn; [done|lia..]. Qed.

Lemma flag_offset_inj f g : flag_offset f = flag_offset g -> f = g.
Proof. by destruct f as [[]| | | | | |], g as [[]| | | | | |]. Qed.

Lemma flag_offset_iopl f : flag_offset f <> off_iopl.
Proof. by destruct f as [[]| | | | | |]. Qed.

(** Reading a retained byte. *)
Lemma direct_read_ok d b offset spec e v d' b' : status_end <= offset ->
  fields_read d b (location_new offset 1) = (v, d', b') -> direct_ok d (memory b) spec e ->
  direct_ok d' (memory b') spec e /\ bits_of v = spec offset
  /\ forall x, x < status_end -> memory b' x = memory b x.
Proof.
  intros Ho Hr Hd. pose proof Hd as [Hb Hrep Hhigh Hfl Hio].
  destruct (read_refines d b (location_new offset 1) spec v d' b' Hr) as (Hb' & Hrep' & Hv);
    [split; [done|exact I]|by rewrite Hb|]. rewrite Hb', Hb in Hrep'. apply (f_equal bits_of) in Hb'. rewrite Hb in Hb'.
  assert (direct_ok d' (memory b') spec e) as Hd'.
  { split; [done|done| |done|done]. intros k Hk. destruct (read_locations _ _ _ _ _ _ Hr k Hk) as [| ->]; [by apply Hhigh|done]. }
  split; [done|]. split.
  - rewrite Hv. unfold direct_read, direct_address; cbn [location_new address width]. by rewrite Hb, load_byte.
  - intros x Hx. rewrite (direct_low _ _ _ _ _ Hd' Hx). symmetry. by eapply direct_low.
Qed.

(** Defining one: the byte changes, and with it what it holds. *)
Lemma direct_define_ok d b offset spec e e' v d' b' : status_end <= offset -> fits 8 (bits_of v) ->
  fields_define d b (location_new offset 1) v = (d', b') -> direct_ok d (memory b) spec e ->
  (forall flag, direct_flag flag ->
     e_flags e' flag = if decide (flag_offset flag = offset) then truncate1 (bits_of v) else e_flags e flag) ->
  e_iopl e' = (if decide (off_iopl = offset) then Z.land (bits_of v) 3 else e_iopl e) ->
  (exists spec', direct_ok d' (memory b') spec' e')
  /\ forall x, x < status_end -> memory b' x = memory b x.
Proof.
  intros Ho Hf Hr Hd Hfl' Hio'. pose proof Hd as [Hb Hrep Hhigh Hfl Hio].
  destruct (define_refines d b (location_new offset 1) v spec d' b' Hr) as (Hb' & Hrep');
    [split; [done|exact I]|exact Hf|by rewrite Hb|]. rewrite Hb in Hrep'. apply (f_equal bits_of) in Hb'. rewrite Hb in Hb'.
  unfold direct_write, direct_address in Hrep'; cbn [location_new address width] in Hrep'.
  rewrite Hb, Z.add_0_l in Hrep'. set (spec' := store spec offset 1 (bits_of v)) in *.
  assert (forall x, spec' x = if decide (x = offset) then bits_of v else spec x) as Hspec.
  { intros x. unfold spec'. destruct (decide (x = offset)) as [->|Hx].
    - rewrite store_inside by lia. rewrite Z.sub_diag.
      rewrite <- (load_store (fun _ => 0) 0 1 (bits_of v)) at 2 by (done || lia).
      rewrite load_byte, store_inside by lia. done.
    - apply store_outside. lia. }
  assert (direct_ok d' (memory b') spec' e') as Hd'.
  { split; [done|done| | |].
    - intros k Hk. destruct (define_locations _ _ _ _ _ _ Hr k Hk) as [| ->]; [by apply Hhigh|done].
    - intros flag Hflag. rewrite Hfl', Hspec by done. repeat case_decide; done || by apply Hfl.
    - rewrite Hio', Hspec. by repeat case_decide. }
  split; [eauto|]. intros x Hx. rewrite (direct_low _ _ _ _ _ Hd' Hx), Hspec.
  rewrite decide_False by lia. symmetry. by eapply direct_low.
Qed.

(** ** Applying a change *)

Lemma direct_ok_pointwise d m spec e e' : (forall flag, direct_flag flag -> e_flags e' flag = e_flags e flag) ->
  e_iopl e' = e_iopl e -> direct_ok d m spec e -> direct_ok d m spec e'.
Proof. intros Hf Hi [? ? ? ? ?]. split; [done..| |by rewrite Hi]. intros flag Hd. rewrite Hf by done. auto. Qed.

Lemma updated_written u fl flag v : change_flag u flag = Some v ->
  updated u fl flag = if default true (condition u) then v else fl flag.
Proof. intros Hv. unfold updated. by rewrite Hv. Qed.

Lemma updated_not_written u fl flag : FlagMask.contains (writes u) flag = false -> updated u fl flag = fl flag.
Proof. intros Hw. unfold updated. rewrite change_flag_not_written by done. by destruct (default _ _). Qed.

Lemma truncate1_select c v old : truncate1 (select c (Z.b2z v) old) = select c v (truncate1 old).
Proof. destruct c; [apply truncate1_b2z|done]. Qed.

Lemma apply_direct_step u flag d b spec e : change_ok u -> FlagMask.contains (writes u) flag = true ->
  direct_ok d (memory b) spec e ->
  exists d' b', apply_direct u (Some (d, b)) flag = Some (d', b')
    /\ (exists spec', direct_ok d' (memory b') spec'
          (mkEager (fun x => if decide (x = flag /\ direct_flag x) then updated u (e_flags e) x else e_flags e x)
                   (e_iopl e)))
    /\ forall x, x < status_end -> memory b' x = memory b x.
Proof.
  intros Hu Hw Hd. destruct (decide (direct_flag flag)) as [Hdir|Hst].
  - destruct (change_ok_flag u flag Hu Hw) as [v Hv].
    assert (direct_location (V := V) flag = Some (location_new (flag_offset flag) 1)) as Hloc by (by destruct flag).
    unfold apply_direct. rewrite Hloc, Hv. cbn [mbind option_bind fmap option_fmap option_map].
    pose proof (flag_offset_high flag Hdir) as Hhigh.
    set (e' := mkEager _ _).
    assert (forall c, updated u (e_flags e) flag = select c v (e_flags e flag) ->
      forall x, direct_flag x -> e_flags e' x
        = if decide (flag_offset x = flag_offset flag) then select c v (truncate1 (spec (flag_offset flag)))
          else e_flags e x) as Hflags.
    { intros c Hc x Hx. cbn [e_flags e']. destruct (decide (flag_offset x = flag_offset flag)) as [He|Hne].
      - apply flag_offset_inj in He as ->. rewrite decide_True by done. rewrite Hc.
        by rewrite (do_flags _ _ _ _ Hd) by done.
      - rewrite decide_False; [done|]. by intros [-> _]. }
    pose proof (updated_written u (e_flags e) flag v Hv) as Hupd.
    destruct (condition u) as [c|] eqn:Hc; cbn [default from_option id] in Hupd.
    + destruct (fields_read d b (location_new (flag_offset flag) 1)) as [[old d1] b1] eqn:Hread.
      destruct (direct_read_ok _ _ _ _ _ _ _ _ Hhigh Hread Hd) as (Hd1 & Hold & Hlow1).
      unfold build. destruct (fields_define d1 _ _ _) as [d2 b2] eqn:Hdef.
      assert (direct_ok d1 (memory (mkBody (memory b1) (S (built b1)))) spec e) as Hd1' by done.
      assert ((exists spec', direct_ok d2 (memory b2) spec' e')
        /\ forall x, x < status_end -> memory b2 x = memory b1 x) as [Hd2 Hlow2].
      { eapply (direct_define_ok d1 (mkBody (memory b1) (S (built b1))) _ spec e);
          [exact Hhigh| |exact Hdef|exact Hd1'| |].
        - rewrite bits_derived, Hold. destruct c; [apply flag_byte_fits|].
          apply (represents_ok _ _ _ _ (do_represents _ _ _ _ Hd)).
        - intros x Hx. rewrite bits_derived, Hold, truncate1_select. by apply Hflags.
        - rewrite decide_False by (intros Heq; by apply (flag_offset_iopl flag)). done. }
      exists d2, b2. split; [done|]. split; [done|]. intros x Hx. rewrite Hlow2 by done. by apply Hlow1.
    + unfold build. destruct (fields_define d _ _ _) as [d2 b2] eqn:Hdef.
      assert (direct_ok d (memory (mkBody (memory b) (S (built b)))) spec e) as Hd1' by done.
      assert ((exists spec', direct_ok d2 (memory b2) spec' e')
        /\ forall x, x < status_end -> memory b2 x = memory b x) as [Hd2 Hlow2].
      { eapply (direct_define_ok d (mkBody (memory b) (S (built b))) _ spec e);
          [exact Hhigh| |exact Hdef|exact Hd1'| |].
        - rewrite bits_derived. apply flag_byte_fits.
        - intros x Hx. rewrite bits_derived, truncate1_b2z. by apply (Hflags true).
        - rewrite decide_False by (intros Heq; by apply (flag_offset_iopl flag)). done. }
      exists d2, b2. split; [done|]. split; done.
  - assert (direct_location (V := V) flag = None) as Hloc by (destruct flag; [done|by destruct Hst..]).
    unfold apply_direct. rewrite Hloc. exists d, b. split; [done|]. split; [|done]. exists spec.
    eapply direct_ok_pointwise; [| |exact Hd]; [|done]. intros x Hx. cbn [e_flags].
    rewrite decide_False; [done|]. intros [-> ?]. done.
Qed.

Lemma apply_direct_fold u l d b spec e : change_ok u ->
  Forall (fun flag => FlagMask.contains (writes u) flag = true) l -> direct_ok d (memory b) spec e ->
  exists d' b', foldl (apply_direct u) (Some (d, b)) l = Some (d', b')
    /\ (exists spec', direct_ok d' (memory b') spec'
          (mkEager (fun x => if decide (x ∈ l) then updated u (e_flags e) x else e_flags e x) (e_iopl e)))
    /\ forall x, x < status_end -> memory b' x = memory b x.
Proof.
  intros Hu. revert d b spec e. induction l as [|flag l IH]; intros d b spec e Hl Hd; cbn [foldl].
  - exists d, b. split; [done|]. split; [|done]. exists spec. eapply direct_ok_pointwise; [| |exact Hd]; [|done].
    intros x _. cbn [e_flags]. by rewrite decide_False by apply not_elem_of_nil.
  - apply Forall_cons in Hl as [Hflag Hl].
    destruct (apply_direct_step u flag d b spec e Hu Hflag Hd) as (d1 & b1 & -> & (spec1 & Hd1) & Hlow1).
    destruct (IH d1 b1 spec1 _ Hl Hd1) as (d2 & b2 & -> & (spec2 & Hd2) & Hlow2).
    exists d2, b2. split; [done|]. split.
    + exists spec2. eapply direct_ok_pointwise; [| |exact Hd2]; [|done]. intros x Hx. cbn [e_flags].
      unfold updated. destruct (decide (x = flag)) as [->|Hne].
      * rewrite (decide_True (P := flag ∈ flag :: l)) by set_solver.
        rewrite (decide_True (P := flag = flag /\ _)) by done.
        case_decide; destruct (default true (condition u)); try done; by destruct (change_flag u flag).
      * rewrite (decide_False (P := x = flag /\ _)) by naive_solver.
        repeat case_decide; set_solver.
    + intros x Hx. rewrite Hlow2 by done. by apply Hlow1.
Qed.

(** ** Restricting a change to the status flags *)

Lemma retaining_flag u m flag : change_flag (retaining u m) flag
  = if FlagMask.contains m flag then change_flag u flag else None.
Proof.
  unfold change_flag, retaining; cbn [writes values]. rewrite FlagMask.contains_intersection.
  destruct (FlagMask.contains (writes u) flag) eqn:Hw, (FlagMask.contains m flag) eqn:Hm; cbn [andb]; try done.
  destruct (values u) as [src|vs]; [done|]. rewrite list_lookup_imap.
  destruct (vs !! flag_index flag) as [v|]; [|done]. cbn [fmap option_fmap option_map].
  by rewrite flag_index_lookup, FlagMask.contains_intersection, Hw, Hm.
Qed.

Lemma change_ok_retaining u m : change_ok u -> change_ok (retaining u m).
Proof.
  intros (Hm & Hf & Hv). split; [|split].
  - by apply FlagMask.intersection_ok.
  - rewrite Forall_forall in Hf |- *. intros flag Hflag. cbn [retaining writes].
    rewrite FlagMask.contains_intersection. intros [Hw Hmf]%andb_true_iff. rewrite retaining_flag, Hmf. by apply Hf.
  - cbn [retaining values]. by destruct (values u).
Qed.

Lemma status_updated_retaining u fl f :
  status_updated (retaining u FlagMask.STATUS) (fun f => fl (Status f)) f = updated u fl (Status f).
Proof.
  unfold status_updated, updated. rewrite retaining_flag, FlagMask.contains_status. done.
Qed.

Lemma tracker_ok_pointwise t b e e' : (forall flag, e_flags e' flag = e_flags e flag) -> e_iopl e' = e_iopl e ->
  tracker_ok t b e -> tracker_ok t b e'.
Proof.
  intros Hf Hi [(spec & Hd) Hs]. split.
  - exists spec. eapply direct_ok_pointwise; [| |exact Hd]; auto.
  - eapply status_ok_pointwise; [|exact Hs]. intros f. by rewrite Hf.
Qed.

Definition unconditional (u : FlagChange) : FlagChange := mkChange None (values u) (writes u).

Lemma tracker_apply_ok t b u e : change_ok u -> tracker_ok t b e ->
  exists t' b', tracker_apply t b u = Some (t', b')
    /\ tracker_ok t' b' (mkEager (updated u (e_flags e)) (e_iopl e)).
Proof.
  intros Hu Ht. unfold tracker_apply; cbv zeta. set (b1 := mkBody _ _).
  assert (tracker_ok t b1 e) as Ht1 by done.
  destruct (Z.eqb_spec (writes u) FlagMask.EMPTY) as [He|Hne].
  { exists t, b1. split; [done|]. eapply tracker_ok_pointwise; [| |exact Ht1]; [|done]. intros flag. cbn [e_flags].
    apply updated_not_written. rewrite He. apply FlagMask.contains_empty. }
  destruct (bool_decide (condition u = Some false) && constant (built b)) eqn:Hfalse.
  { exists t, b1. split; [done|]. eapply tracker_ok_pointwise; [| |exact Ht1]; [|done]. intros flag. cbn [e_flags].
    apply andb_true_iff in Hfalse as [Hc%bool_decide_eq_true _]. unfold updated. by rewrite Hc. }
  clear Hfalse. set (u' := if bool_decide (condition u = Some true) && _ then _ else u).
  assert (change_ok u' /\ (forall fl flag, updated u' fl flag = updated u fl flag)) as [Hu' Hsame].
  { unfold u'. destruct (bool_decide (condition u = Some true) && constant (built b)) eqn:Hc; [|done].
    apply andb_true_iff in Hc as [Hc%bool_decide_eq_true _]. split; [exact Hu|].
    intros fl flag. unfold updated, change_flag. cbn [condition writes values]. by rewrite Hc. }
  assert (Forall (fun flag => FlagMask.contains (writes u') flag = true) (FlagMask.flags (writes u'))) as Hl.
  { apply Forall_forall. intros flag [Hw _]%list_elem_of_filter. done. }
  destruct Ht1 as [(spec & Hd) Hs].
  destruct (apply_direct_fold u' _ (tr_direct t) b1 spec e Hu' Hl Hd) as (d' & b' & -> & (spec' & Hd') & Hlow).
  cbn [mbind option_bind]. do 2 eexists. split; [done|]. split.
  - cbn [tr_direct]. exists spec'. eapply direct_ok_pointwise; [| |exact Hd']; [|done]. intros flag _. cbn [e_flags].
    rewrite <- Hsame. case_decide as Hin; [done|]. apply updated_not_written.
    destruct (FlagMask.contains (writes u') flag) eqn:Hw; [|done]. destruct Hin.
    apply list_elem_of_filter. split; [done|]. apply elem_of_flag_all.
  - cbn [tr_status]. apply (status_ok_ext (memory b1)); [intros; symmetry; by apply Hlow|].
    destruct (Z.eqb_spec (writes (retaining u' FlagMask.STATUS)) FlagMask.EMPTY) as [Hempty|]; cbn [negb].
    + eapply status_ok_pointwise; [|exact Hs]. intros f. cbn [e_flags].
      rewrite <- Hsame, <- status_updated_retaining. symmetry. apply status_updated_not_written.
      rewrite Hempty. apply FlagMask.contains_empty.
    + eapply status_ok_pointwise; [|apply status_apply_ok; [exact Hs|by apply change_ok_retaining|]].
      * intros f. cbn [e_flags]. by rewrite status_updated_retaining, Hsame.
      * cbn [retaining writes]. unfold FlagMask.intersection. by rewrite <- Z.land_assoc, Z.land_diag.
Qed.

(** ** Queries *)

Lemma tracker_ok_status t b e status : tracker_ok t b e ->
  status_ok (memory b) status (fun f => e_flags e (Status f)) -> tracker_ok (mkTracker status (tr_direct t)) b e.
Proof. by intros [Hd _] Hs. Qed.

Lemma tracker_read_direct t b e flag : direct_flag flag -> tracker_ok t b e ->
  exists t' b', tracker_read t b flag = Some (e_flags e flag, t', b') /\ tracker_ok t' b' e
    /\ tr_status t' = tr_status t.
Proof.
  intros Hdir [(spec & Hd) Hs].
  assert (tracker_read t b flag = let '(value, direct, b) := fields_read (tr_direct t) b (location_new (flag_offset flag) 1) in
      Some (truncate1 (bits_of value), mkTracker (tr_status t) direct, b)) as ->
    by (destruct flag; done).
  destruct (fields_read _ _ _) as [[v d'] b'] eqn:Hr.
  destruct (direct_read_ok _ _ _ _ _ _ _ _ (flag_offset_high flag Hdir) Hr Hd) as (Hd' & Hv & Hlow).
  do 2 eexists. split; [|split].
  - by rewrite Hv, (do_flags _ _ _ _ Hd).
  - split; [exists spec; exact Hd'|]. cbn [tr_status]. apply (status_ok_ext (memory b)); [|done].
    intros. symmetry. by apply Hlow.
  - done.
Qed.

Lemma tracker_read_ok t b e flag : tracker_ok t b e ->
  exists t' b', tracker_read t b flag = Some (e_flags e flag, t', b') /\ tracker_ok t' b' e.
Proof.
  intros Ht. destruct (decide (direct_flag flag)) as [Hdir|Hst].
  - destruct (tracker_read_direct t b e flag Hdir Ht) as (t' & b' & Hr & Ht' & _). eauto.
  - destruct flag as [f| | | | | |]; try by destruct Hst. cbn [tracker_read].
    destruct (status_read_flag_ok _ _ f _ (proj2 Ht)) as (s' & -> & Hs'). cbn [mbind option_bind].
    do 2 eexists. split; [done|]. by apply tracker_ok_status.
Qed.

Lemma tracker_condition_ok t b e c : tracker_ok t b e ->
  exists t' b', tracker_condition t b c = Some (holds c (fun f => e_flags e (Status f)), t', b') /\ tracker_ok t' b' e.
Proof.
  intros Ht. unfold tracker_condition. destruct (status_condition_ok _ _ c _ (proj2 Ht)) as (s' & -> & Hs').
  cbn [mbind option_bind]. do 2 eexists. split; [done|]. by apply tracker_ok_status.
Qed.

Lemma read_direct_ok l t b e : tracker_ok t b e ->
  exists values t' b', read_direct t b l = Some (values, t', b') /\ tracker_ok t' b' e
    /\ forall flag, direct_flag flag -> flag ∈ l ->
         snd <$> find (fun p => bool_decide (p.1 = flag)) values = Some (e_flags e flag).
Proof.
  revert t b. induction l as [|g l IH]; intros t b Ht.
  - exists [], t, b. split; [done|]. split; [done|]. by intros flag _ ?%not_elem_of_nil.
  - destruct (decide (direct_flag g)) as [Hdir|Hst].
    + assert (read_direct t b (g :: l) = ('(value, t, b) ← tracker_read t b g;
        '(rest, t, b) ← read_direct t b l; Some ((g, value) :: rest, t, b))) as -> by (by destruct g).
      destruct (tracker_read_direct t b e g Hdir Ht) as (t1 & b1 & -> & Ht1 & _). cbn [mbind option_bind].
      destruct (IH t1 b1 Ht1) as (values & t2 & b2 & -> & Ht2 & Hv). cbn [mbind option_bind].
      do 3 eexists. split; [done|]. split; [done|]. intros flag Hf Hin. cbn [find fst].
      case_bool_decide as He; [by subst|]. apply Hv; [done|]. set_solver.
    + assert (read_direct t b (g :: l) = read_direct t b l) as -> by (destruct g; [done|by destruct Hst..]).
      destruct (IH t b Ht) as (values & t2 & b2 & -> & Ht2 & Hv). do 3 eexists. split; [done|]. split; [done|].
      intros flag Hf Hin. apply Hv; [done|]. apply elem_of_cons in Hin as [->|]; done.
Qed.

Lemma contains_mask_of l flag : FlagMask.contains (mask_of l) flag = bool_decide (flag ∈ l).
Proof.
  assert (forall m, FlagMask.contains (foldl (fun mask flag => FlagMask.union mask (FlagMask.of_flag flag)) m l) flag
    = FlagMask.contains m flag || bool_decide (flag ∈ l)) as Hgen; [|by unfold mask_of; rewrite Hgen, FlagMask.contains_empty].
  induction l as [|g l IH]; intros m; cbn [foldl].
  - rewrite (bool_decide_eq_false_2 (flag ∈ [])) by apply not_elem_of_nil. by rewrite orb_false_r.
  - rewrite IH, FlagMask.contains_union, FlagMask.contains_of, <- orb_assoc. f_equal.
    repeat case_bool_decide; set_solver.
Qed.

Lemma tracker_read_flags_ok t b e requested : tracker_ok t b e ->
  exists t' b', tracker_read_flags t b requested = Some (e_flags e <$> requested, t', b') /\ tracker_ok t' b' e.
Proof.
  intros Ht. unfold tracker_read_flags; cbv zeta.
  destruct (status_resolve_ok _ _ (FlagMask.intersection (mask_of requested) FlagMask.STATUS) _ (proj2 Ht))
    as (base & -> & Hs). cbn [mbind option_bind].
  destruct (read_direct_ok (FlagMask.flags (mask_of requested)) _ b e (tracker_ok_status t b e _ Ht Hs))
    as (values & t' & b' & -> & Ht' & Hv). cbn [mbind option_bind].
  assert (forall f, f ∈ requested -> FlagMask.contains (mask_of requested) f = true) as Hin.
  { intros f Hf. rewrite contains_mask_of. by apply bool_decide_eq_true. }
  set (get := fun flag => match flag with
    | Status f => slot (wanted (FlagMask.intersection (mask_of requested) FlagMask.STATUS)
                          (fun f => e_flags e (Status f))) f
    | flag => snd <$> find (fun p => bool_decide (p.1 = flag)) values end).
  assert (mapM get requested = Some (e_flags e <$> requested)) as ->.
  { apply mapM_Some. apply Forall2_fmap_r, Forall_Forall2_diag, Forall_forall. intros flag Hf.
    specialize (Hin flag Hf). destruct (decide (direct_flag flag)) as [Hdir|Hst].
    - assert (get flag = snd <$> find (fun p => bool_decide (p.1 = flag)) values) as -> by (by destruct flag).
      apply Hv; [done|]. apply list_elem_of_filter. split; [done|]. apply elem_of_flag_all.
    - destruct flag as [f| | | | | |]; try by destruct Hst. cbn [get]. rewrite slot_wanted.
      rewrite FlagMask.contains_intersection, Hin, FlagMask.contains_status. done. }
  cbn [mbind option_bind]. eauto.
Qed.

(** ** IOPL *)

Lemma tracker_read_iopl_ok t b e : tracker_ok t b e ->
  let '(v, t', b') := tracker_read_iopl t b in v = e_iopl e /\ tracker_ok t' b' e.
Proof.
  intros [(spec & Hd) Hs]. unfold tracker_read_iopl.
  destruct (fields_read _ _ _) as [[v d'] b'] eqn:Hr.
  destruct (direct_read_ok _ _ off_iopl _ _ _ _ _ ltac:(done) Hr Hd) as (Hd' & Hv & Hlow).
  rewrite Hv. split; [by rewrite (do_iopl _ _ _ _ Hd)|]. split; [exists spec; exact Hd'|].
  cbn [tr_status]. apply (status_ok_ext (memory b)); [|done]. intros. symmetry. by apply Hlow.
Qed.

Lemma tracker_write_iopl_ok t b e value : tracker_ok t b e ->
  let '(t', b') := tracker_write_iopl t b value in tracker_ok t' b' (mkEager (e_flags e) (Z.land value 3)).
Proof.
  intros [(spec & Hd) Hs]. unfold tracker_write_iopl, build.
  destruct (fields_define _ _ _ _) as [d' b'] eqn:Hr.
  assert (fits 2 (Z.land value 3)) as Hfit by (change 3 with (Z.ones 2); apply fits_land_r; [lia|apply fits_ones; lia]).
  assert ((exists spec', direct_ok d' (memory b') spec' (mkEager (e_flags e) (Z.land value 3)))
    /\ forall x, x < status_end -> memory b' x = memory b x) as [Hd' Hlow].
  { eapply (direct_define_ok (tr_direct t) (mkBody (memory b) (S (built b))) off_iopl spec e);
      [done| |exact Hr|exact Hd| |].
    - rewrite bits_derived. eapply fits_mono; [|exact Hfit]. lia.
    - intros flag _. cbn [e_flags]. by rewrite decide_False by apply flag_offset_iopl.
    - cbn [e_iopl]. rewrite decide_True, bits_derived by done. by rewrite <- Z.land_assoc. }
  split; [done|]. cbn [tr_status e_flags]. apply (status_ok_ext (memory b)); [|done].
  intros. symmetry. by apply Hlow.
Qed.

(** ** Paths *)

Lemma lazy_step_ok t b e op : op_ok op -> tracker_ok t b e ->
  exists t' b', lazy_step t b op = Some ((eager_step e op).1, t', b') /\ tracker_ok t' b' (eager_step e op).2.
Proof.
  intros Hop Ht. destruct op as [u|flag|requested|c| |v]; cbn [lazy_step eager_step fst snd].
  - destruct (tracker_apply_ok t b u e Hop Ht) as (t' & b' & -> & Ht'). eauto.
  - destruct (tracker_read_ok t b e flag Ht) as (t' & b' & -> & Ht'). cbn [answer]. eauto.
  - destruct (tracker_read_flags_ok t b e requested Ht) as (t' & b' & -> & Ht'). cbn [answer]. eauto.
  - destruct (tracker_condition_ok t b e c Ht) as (t' & b' & -> & Ht'). cbn [answer]. eauto.
  - pose proof (tracker_read_iopl_ok t b e Ht) as Hr. destruct (tracker_read_iopl t b) as [[v t'] b'].
    destruct Hr as [-> Ht']. cbn [answer]. eauto.
  - pose proof (tracker_write_iopl_ok t b e v Ht) as Hr. destruct (tracker_write_iopl t b v) as [t' b']. eauto.
Qed.

Lemma run_lazy_ok path t b e : Forall op_ok path -> tracker_ok t b e ->
  exists t' b', run_lazy t b path = Some ((run_eager e path).1, t', b') /\ tracker_ok t' b' (run_eager e path).2.
Proof.
  intros Hp. revert t b e. induction Hp as [|op path Hop _ IH]; intros t b e Ht; cbn [run_lazy run_eager fst snd]; [eauto|].
  destruct (lazy_step_ok t b e op Hop Ht) as (t1 & b1 & -> & Ht1).
  destruct (eager_step e op) as [out e1]; cbn [fst snd] in *.
  destruct (IH t1 b1 e1 Ht1) as (t2 & b2 & -> & Ht2).
  destruct (run_eager e1 path) as [outs e2]; cbn [fst snd] in *. eauto.
Qed.

Lemma tracker_new_ok b fl : mem_ok (memory b) -> machine_flags (memory b) = Some fl ->
  tracker_ok tracker_new b (mkEager fl (machine_iopl (memory b))).
Proof.
  intros Hm Hfl. unfold machine_flags in Hfl. destruct (stored_flags (memory b)) as [stored|] eqn:Hs; [|done].
  cbn [fmap option_fmap option_map] in Hfl. simplify_eq. split.
  - exists (memory b). split; cbn [tracker_new tr_direct fields_new fields_with_base base definitions e_flags e_iopl].
    + apply bits_derived.
    + pose proof (represents_new (derived 0 0) b Hm) as Hr. cbn [fields_with_base base definitions] in Hr.
      by rewrite bits_derived in Hr.
    + by intros k ?%not_elem_of_nil.
    + by intros [] Hd.
    + done.
  - split; [constructor|]. exists stored. split; [|done]. cbn. split; [apply cache_ok_default|eauto].
Qed.

(** ** Publication *)

Lemma represents_low m m' ds spec : (forall k, k ∈ location <$> ds -> status_end <= key_offset k) ->
  (forall x, status_end <= x -> m' x = m x) -> mem_ok m' -> represents 0 ds m spec ->
  represents 0 ds m' (fun x => if x <? status_end then m' x else spec x).
Proof.
  intros Hhigh Hm Hm' [Hd Hf Hb Hc _]. split; [done..| | |done].
  - intros d x Hin Ho. pose proof (Hhigh (location d) ltac:(by apply list_elem_of_fmap_2)).
    destruct (Z.ltb_spec x status_end); [apply occupies_key in Ho; lia|by apply Hb].
  - intros x Hx. destruct (Z.ltb_spec x status_end); [done|]. rewrite Hm by done. by apply Hc.
Qed.

Lemma tracker_publish_ok t b e : tracker_ok t b e ->
  exists b', tracker_publish t b = Some b' /\ mem_ok (memory b') /\ machine_iopl (memory b') = e_iopl e
    /\ exists fl, machine_flags (memory b') = Some fl /\ forall flag, fl flag = e_flags e flag.
Proof.
  intros [[spec [Hbase Hrep Hhigh Hfl Hio]] Hs]. unfold tracker_publish.
  destruct (status_publish_ok (constant (built b)) (memory b) (tr_status t) _ (rep_ok _ _ _ _ Hrep) Hs)
    as (m' & -> & (stored & Hst & Hstf) & Hframe & Hm'). cbn [mbind option_bind].
  eexists. split; [done|]. pose proof (represents_low _ _ _ _ Hhigh Hframe Hm' Hrep) as Hrep'.
  set (spec' := fun x => _) in Hrep'.
  assert (memory (fields_publish (tr_direct t) (set_memory b m')) ≡ spec') as Hpub
    by (apply publish_refines; by rewrite Hbase).
  set (b' := fields_publish _ _) in *.
  assert (forall x, status_end <= x -> spec' x = spec x) as Hspec
    by (intros x Hx; unfold spec'; destruct (Z.ltb_spec x status_end); [lia|done]).
  split; [intros x; rewrite Hpub; apply (represents_ok _ _ _ _ Hrep')|]. split.
  - unfold machine_iopl. by rewrite Hpub, Hspec, Hio.
  - pose proof (stored_flags_ext m' (memory b')
      ltac:(intros x Hx; rewrite Hpub; unfold spec'; destruct (Z.ltb_spec x status_end); [done|lia])) as Hext.
    rewrite Hst in Hext. unfold machine_flags.
    destruct (stored_flags (memory b')) as [stored'|]; [|done]. eexists. split; [done|]. intros flag.
    destruct (decide (direct_flag flag)) as [Hd|Hd].
    + pose proof (flag_offset_high flag Hd). rewrite Hfl by done.
      destruct flag as [f| | | | | |]; [done|by rewrite Hpub, Hspec..].
    + destruct flag as [f| | | | | |]; try by destruct Hd. by rewrite <- Hstf, Hext.
Qed.

End Lazy.

(** C22 Tracking flags lazily is invisible: from any valid record, along any path
    of changes (whole or partial, unconditional or under a run-time condition),
    flag and condition queries and IOPL accesses, the tracker neither traps nor
    panics, every query returns what a machine that computes all twelve flags
    after every change returns, and the record the tracker publishes is one the
    host unpacks to that machine's EFLAGS, whatever identities and literals the
    builder gives expressions. *)
Theorem lazy_flags_refine_eager {V : Type} `{Expressions V} (b : Body) (path : list FlagOp)
    (read : Flag -> bool) :
  mem_ok (memory b) -> machine_flags (memory b) = Some read -> Forall op_ok path ->
  exists (t : FlagTracker V) b' published,
    run_lazy tracker_new b path = Some ((run_eager (mkEager read (machine_iopl (memory b))) path).1, t, b')
    /\ tracker_publish t b' = Some published
    /\ let final := (run_eager (mkEager read (machine_iopl (memory b))) path).2 in
       eflags (flags_in (memory published)) = Some (eflags_image (e_flags final) (e_iopl final)).
Proof.
  intros Hm Hread Hpath.
  destruct (run_lazy_ok path tracker_new b _ Hpath (tracker_new_ok b read Hm Hread)) as (t & b' & Hrun & Ht).
  destruct (tracker_publish_ok t b' _ Ht) as (published & Hpub & Hok & Hiopl & fl & Hfl & Hsame).
  exists t, b', published. split; [exact Hrun|]. split; [exact Hpub|]. cbv zeta. rewrite (host_packs _ fl Hok Hfl), Hiopl.
  f_equal. by apply eflags_image_ext.
Qed.

Module Sample.

(** From a stored word subtraction: a byte addition, a condition, INC's change of
    all but CF, a shift that may change nothing, STC under a run-time condition,
    STD, IOPL 1, and queries between them. *)
Definition started : Body := mkBody (fun x =>
  match x with 0 => 5 | 4 => 3 | 8 => 5 | 18 => 1 | 20 => 255 | 23 => 1 | 24 => 2 | _ => 0 end) 0.
Definition stored_read : Flag -> bool := default (fun _ => false) (machine_flags (memory started)).

Definition add_byte : FlagChange := from_source I8 (Arithmetic Add 255 1 0).
Definition instructions : list FlagOp :=
  [ TestCondition L; ReadFlags [Status CF; TF; Status AF];
    ApplyChange add_byte; TestCondition E;
    ApplyChange (preserving (from_source I16 (Arithmetic Add 32767 1 32768)) (Status CF)); TestCondition BE; ReadFlag (Status OF);
    ApplyChange (when (from_source I32 (Logic 0)) false); ReadFlag (Status ZF);
    ApplyChange (when (partial [(Status CF, false)]) true); TestCondition BE;
    ApplyChange (partial [(DF, true)]); ReadFlag DF; WriteIopl 13; ReadIopl; ReadFlags [DF; Status CF; Status PF] ].

Lemma started_ok : mem_ok (memory started).
Proof.
  intros x. unfold started; cbn [memory].
  repeat match goal with |- context [match ?y with _ => _ end] => destruct y end;
    apply (bool_decide_unpack _); vm_compute; exact I.
Qed.

Example lazy_flags_witness :
  (exists (t : FlagTracker FreshVal) b' published,
    run_lazy tracker_new started instructions
      = Some ((run_eager (mkEager stored_read (machine_iopl (memory started))) instructions).1, t, b')
    /\ tracker_publish t b' = Some published
    /\ let final := (run_eager (mkEager stored_read (machine_iopl (memory started))) instructions).2 in
       eflags (flags_in (memory published)) = Some (eflags_image (e_flags final) (e_iopl final)))
  /\ concat (run_eager (mkEager stored_read (machine_iopl (memory started))) instructions).1
     = [1; 1; 1; 1; 1; 1; 1; 0; 0; 1; 1; 1; 0; 1].
Proof.
  split.
  - apply (lazy_flags_refine_eager started instructions stored_read).
    + exact started_ok.
    + reflexivity.
    + apply (bool_decide_unpack _). vm_compute. exact I.
  - vm_compute. reflexivity.
Defined.

End Sample.
