(* ===== verification/Floating.v ===== *)
(** * Strict floating-point evaluation

    crates/compiler/src/floating.rs and floating/vector.rs: IEEE binary32 and
    binary64 operations on raw encodings. Host arithmetic is the Standard
    Library's [SpecFloat] (round to nearest, ties to even); a NaN result is
    [None], which leaves the operation to the destination engine. *)

From Stdlib Require Import SpecFloat.
From S2P Require Import Prelude Types.
Local Open Scope Z_scope.

Inductive Format : Set := Binary32 | Binary64.
Definition format_bits (f : Format) : Z := match f with Binary32 => 32 | Binary64 => 64 end.

Inductive FBinaryOp : Set := FAdd | FSub | FMul | FDiv.
Inductive FUnaryOp : Set := Abs | Neg | Ceil | Floor | Trunc | Nearest | Sqrt.
Inductive ConvertOp : Set :=
  PromoteBinary32 | DemoteBinary32 | FromSignedInteger | FromUnsignedInteger
| TruncateSaturatingI32.
Inductive FCompareOp : Set := FEq | FNe | FLt | FLe | FGt | FGe.
Inductive VectorConvertOp : Set :=
| PromoteLowBinary32
| DemoteBinary64Zero
| FromSignedI32 (format : Format)
| VTruncateSaturatingI32 (format : Format).

#[export] Instance Format_eq_dec : EqDecision Format.
Proof. solve_decision. Defined.
#[export] Instance FBinaryOp_eq_dec : EqDecision FBinaryOp.
Proof. solve_decision. Defined.
#[export] Instance FUnaryOp_eq_dec : EqDecision FUnaryOp.
Proof. solve_decision. Defined.
#[export] Instance ConvertOp_eq_dec : EqDecision ConvertOp.
Proof. solve_decision. Defined.
#[export] Instance FCompareOp_eq_dec : EqDecision FCompareOp.
Proof. solve_decision. Defined.
#[export] Instance VectorConvertOp_eq_dec : EqDecision VectorConvertOp.
Proof. solve_decision. Defined.

(** ** f32 and f64 values of an encoding *)

Definition prec (f : Format) : Z := match f with Binary32 => 24 | Binary64 => 53 end.
Definition emax (f : Format) : Z := match f with Binary32 => 128 | Binary64 => 1024 end.
Definition fraction (f : Format) : Z := prec f - 1.
Definition exponent_bits (f : Format) : Z := format_bits f - prec f.
Definition emin_of (f : Format) : Z := 3 - emax f - prec f.

Definition finite (s : bool) (m e : Z) : spec_float :=
  match m with Zpos p => S754_finite s p e | _ => S754_zero s end.

Definition is_nan (x : spec_float) : bool := match x with S754_nan => true | _ => false end.

Definition from_bits (f : Format) (b : Z) : spec_float :=
  let sign := Z.testbit b (format_bits f - 1) in
  let exponent := Z.land (Z.shiftr b (fraction f)) (Z.ones (exponent_bits f)) in
  let significand := Z.land b (Z.ones (fraction f)) in
  if exponent =? Z.ones (exponent_bits f) then
    if significand =? 0 then S754_infinity sign else S754_nan
  else if exponent =? 0 then finite sign significand (emin_of f)
  else finite sign (significand + 2 ^ fraction f) (exponent - 1 + emin_of f).

(** The encoding of a representable value; the NaN case is unused. *)
Definition to_bits (f : Format) (x : spec_float) : Z :=
  let signed (s : bool) (magnitude : Z) :=
    wrap (format_bits f) (magnitude + Z.b2z s * 2 ^ (format_bits f - 1)) in
  match x with
  | S754_zero s => signed s 0
  | S754_infinity s => signed s (Z.ones (exponent_bits f) * 2 ^ fraction f)
  | S754_nan => signed false (Z.ones (exponent_bits f) * 2 ^ fraction f + 2 ^ (fraction f - 1))
  | S754_finite s m e =>
      if Zpos m <? 2 ^ fraction f then signed s (Zpos m)
      else signed s ((e - emin_of f + 1) * 2 ^ fraction f + (Zpos m - 2 ^ fraction f))
  end.

(** ** Host arithmetic *)

Definition float_binary (f : Format) (operator : FBinaryOp) : spec_float -> spec_float -> spec_float :=
  match operator with
  | FAdd => SFadd (prec f) (emax f)
  | FSub => SFsub (prec f) (emax f)
  | FMul => SFmul (prec f) (emax f)
  | FDiv => SFdiv (prec f) (emax f)
  end.

(** Rounding of [m / 2 ^ n], the magnitude of a value with sign [s], to an integer. *)
Definition round_magnitude (operator : FUnaryOp) (s : bool) (m n : Z) : Z :=
  let q := Z.shiftr m n in
  let r := m - Z.shiftl q n in
  let half := 2 ^ (n - 1) in
  match operator with
  | Ceil => if (r =? 0) || s then q else q + 1
  | Floor => if (r =? 0) || negb s then q else q + 1
  | Nearest =>
      if (r <? half) || ((r =? half) && Z.even q) then q else q + 1
  | _ => q
  end.

(** [ceil], [floor], [trunc] and [round_ties_even]; the sign of zero is kept. *)
Definition float_round (f : Format) (operator : FUnaryOp) (x : spec_float) : spec_float :=
  match x with
  | S754_finite s m e =>
      if 0 <=? e then x
      else
        let q := round_magnitude operator s (Zpos m) (- e) in
        binary_normalize (prec f) (emax f) (cond_Zopp s q) 0 s
  | _ => x
  end.

Definition float_unary (f : Format) (operator : FUnaryOp) (x : spec_float) : spec_float :=
  match operator with
  | Sqrt => SFsqrt (prec f) (emax f) x
  | _ => float_round f operator x
  end.

(** [as f32], [as f64] and [f64::from(f32)]. *)
Definition float_cast (f : Format) (x : spec_float) : spec_float :=
  match x with
  | S754_finite s m e => binary_normalize (prec f) (emax f) (cond_Zopp s (Zpos m)) e s
  | _ => x
  end.

(** An integer [as f32] or [as f64]. *)
Definition float_of_int (f : Format) (z : Z) : spec_float :=
  binary_normalize (prec f) (emax f) z 0 false.

(** [as i32]: truncation toward zero, saturating, zero for a NaN. *)
Definition float_to_i32 (x : spec_float) : Z :=
  let clamp z := Z.max (- 2 ^ 31) (Z.min z (2 ^ 31 - 1)) in
  match x with
  | S754_zero _ | S754_nan => 0
  | S754_infinity s => if s then - 2 ^ 31 else 2 ^ 31 - 1
  | S754_finite s m e => clamp (cond_Zopp s (Z.shiftl (Zpos m) e))
  end.

Definition float_compare (operator : FCompareOp) (x y : spec_float) : bool :=
  match operator with
  | FEq => SFeqb x y
  | FNe => negb (SFeqb x y)
  | FLt => SFltb x y
  | FLe => SFleb x y
  | FGt => SFltb y x
  | FGe => SFleb y x
  end.

(** ** floating.rs *)

Definition unless_nan (f : Format) (x : spec_float) : option Z :=
  if is_nan x then None else Some (to_bits f x).

Definition convert (operator : ConvertOp) (input_type : Ty) (b : Z) : option Z :=
  match operator with
  | PromoteBinary32 => unless_nan Binary64 (float_cast Binary64 (from_bits Binary32 (wrap 32 b)))
  | DemoteBinary32 => unless_nan Binary32 (float_cast Binary32 (from_bits Binary64 b))
  | FromSignedInteger => unless_nan Binary64 (float_of_int Binary64 (signed_value input_type b))
  | FromUnsignedInteger => unless_nan Binary64 (float_of_int Binary64 (normalize input_type b))
  | TruncateSaturatingI32 => Some (wrap 32 (float_to_i32 (from_bits Binary64 b)))
  end.

Definition binary (f : Format) (operator : FBinaryOp) (left right : Z) : option Z :=
  unless_nan f (float_binary f operator
    (from_bits f (wrap (format_bits f) left)) (from_bits f (wrap (format_bits f) right))).

Definition unary (f : Format) (operator : FUnaryOp) (b : Z) : option Z :=
  let sign := Z.shiftl 1 (format_bits f - 1) in
  match operator with
  | Abs => Some (Z.land b (bnot 64 sign))
  | Neg => Some (Z.lxor b sign)
  | _ => unless_nan f (float_unary f operator (from_bits f (wrap (format_bits f) b)))
  end.

Definition compare (f : Format) (operator : FCompareOp) (left right : Z) : bool :=
  let value b :=
    match f with
    | Binary32 => float_cast Binary64 (from_bits Binary32 (wrap 32 b))
    | Binary64 => from_bits Binary64 b
    end in
  float_compare operator (value left) (value right).

(** ** floating/vector.rs *)

(** [map_lanes]: lane [i] of width [w] starts at bit [i * w]; stop at the first
    lane without a result. *)
Fixpoint map_lanes_from (calculate : Z -> option Z) (width : Z) (lanes : nat) (offset : Z)
    (acc : Z) : option Z :=
  match lanes with
  | O => Some acc
  | S lanes =>
      lane ← calculate offset;
      map_lanes_from calculate width lanes (offset + width)
        (Z.lor acc (wrap 128 (Z.shiftl lane offset)))
  end.
Definition map_lanes (f : Format) (calculate : Z -> option Z) : option Z :=
  map_lanes_from calculate (format_bits f) (Z.to_nat (128 / format_bits f)) 0 0.

Definition lane_at (v offset : Z) : Z := wrap 64 (Z.shiftr v offset).

Definition vbinary (f : Format) (operator : FBinaryOp) (left right : Z) : option Z :=
  map_lanes f (fun offset => binary f operator (lane_at left offset) (lane_at right offset)).

Definition vunary (f : Format) (operator : FUnaryOp) (input : Z) : option Z :=
  map_lanes f (fun offset =>
    unary f operator (Z.land (lane_at input offset) (Z.shiftr (Z.ones 64) (64 - format_bits f)))).

Definition vcompare (f : Format) (operator : FCompareOp) (left right : Z) : Z :=
  let mask := Z.shiftr (Z.ones 64) (64 - format_bits f) in
  default 0 (map_lanes f (fun offset =>
    Some (if compare f operator (lane_at left offset) (lane_at right offset) then mask else 0))).

(** Lane count, input width and output width of a conversion. *)
Definition vconvert_shape (operator : VectorConvertOp) : Z * Z * Z :=
  match operator with
  | PromoteLowBinary32 => (2, 32, 64)
  | DemoteBinary64Zero => (2, 64, 32)
  | FromSignedI32 f => (128 / format_bits f, 32, format_bits f)
  | VTruncateSaturatingI32 f => (128 / format_bits f, format_bits f, 32)
  end.

Definition vconvert_lane (operator : VectorConvertOp) (b : Z) : option Z :=
  match operator with
  | PromoteLowBinary32 => convert PromoteBinary32 I32 b
  | DemoteBinary64Zero => convert DemoteBinary32 F64 b
  | FromSignedI32 f => Some (to_bits f (float_of_int f (to_signed 32 b)))
  | VTruncateSaturatingI32 Binary32 =>
      Some (wrap 32 (float_to_i32 (from_bits Binary32 (wrap 32 b))))
  | VTruncateSaturatingI32 Binary64 => Some (wrap 32 (float_to_i32 (from_bits Binary64 b)))
  end.

Fixpoint vconvert_from (operator : VectorConvertOp) (input in_w out_w : Z) (lanes : nat)
    (lane : Z) (acc : Z) : option Z :=
  match lanes with
  | O => Some acc
  | S lanes =>
      b ← vconvert_lane operator (lane_at input (lane * in_w));
      vconvert_from operator input in_w out_w lanes (lane + 1)
        (Z.lor acc (wrap 128 (Z.shiftl b (lane * out_w))))
  end.

Definition vconvert (operator : VectorConvertOp) (input : Z) : option Z :=
  let '(count, in_w, out_w) := vconvert_shape operator in
  vconvert_from operator input in_w out_w (Z.to_nat count) 0 0.

Example add_doubles : binary Binary64 FAdd 4607182418800017408 4607182418800017408
  = Some 4611686018427387904.
Proof. vm_compute. reflexivity. Qed.
Example demote_third : convert DemoteBinary32 F64 4599676419421066581 = Some 1051372203.
Proof. vm_compute. reflexivity. Qed.
