(* ===== verification/Expr.v ===== *)
(** * Pure expressions

    crates/compiler/src/expression.rs, expression/operators.rs and
    expression/shuffle.rs: the operators of pure expressions, the expressions
    over any operand type with their traversal in stack order, and the packed
    shuffle masks. *)

From S2P Require Import Prelude Bytes Types Floating.
Local Open Scope Z_scope.

(** ** expression/shuffle.rs

    Sixteen five-bit indices in ten bytes. Byte arrays are lists of u8. *)

Record ShuffleMask := mkMask { mask_bytes : list Z }.
#[export] Instance ShuffleMask_eq_dec : EqDecision ShuffleMask.
Proof. solve_decision. Defined.

(** The packed bits of the indices from [position] on; [None] is the failed
    assertion of an index out of range. *)
Fixpoint pack_indices (indices : list Z) (position : Z) (acc : Z) : option Z :=
  match indices with
  | [] => Some acc
  | index :: indices =>
      if index <? 32 then
        pack_indices indices (position + 1) (Z.lor acc (Z.shiftl index (position * 5)))
      else None
  end.

Definition mask_new (indices : list Z) : option ShuffleMask :=
  packed ← pack_indices indices 0 0;
  Some (mkMask (to_le_bytes 10 packed)).

Definition mask_indices (m : ShuffleMask) : list Z :=
  let packed := from_le_bytes (mask_bytes m) in
  (fun position => Z.land (Z.shiftr packed (5 * Z.of_nat position)) 31) <$> seq 0 16.

(** ** expression/operators.rs *)

Inductive LaneBinaryOp : Set :=
| LAdd | LSub | LMul
| WideningMulLow (signed : bool)
| WideningMulHigh (signed : bool)
| DotI16Signed
| LEq | GtSigned
| MinSigned | MinUnsigned | MaxSigned | MaxUnsigned
| AverageUnsigned
| AddSatSigned | AddSatUnsigned | SubSatSigned | SubSatUnsigned.

Inductive ECompareOp : Set :=
| CmpInteger (op : CompareOp)
| CmpFloat (op : FCompareOp).

Inductive UnaryOp : Set :=
| UFloat (op : FUnaryOp)
| FloatConvert (op : ConvertOp)
| UFloatVector (op : FUnaryOp) (format : Format)
| FloatVectorConvert (op : VectorConvertOp)
| BitCount (op : BitCountOp) (input_type : Ty)
| ExtractLane (lane : Z)
| Bitmask (lane_type : Ty)
| Splat (lane_type : Ty)
| PairwiseAddUnsigned (lane_type : Ty)
| Reinterpret
| SignExtend (input_type : Ty)
| ZeroTest (nonzero : bool)
| Convert
| LowBits (count : Z).

Inductive EBinaryOp : Set :=
| Bitwise (op : BitwiseOp)
| Compare (op : ECompareOp)
| ShuffleImmediate (indices : ShuffleMask)
| Swizzle (input_type : Ty)
| ReplaceLane (lane_type : Ty) (lane : Z)
| Integer (op : BinaryOp)
| BFloat (op : FBinaryOp)
| BFloatVector (op : FBinaryOp) (format : Format)
| FloatVectorCompare (op : FCompareOp) (format : Format)
| Vector (op : LaneBinaryOp) (lane_type : Ty)
| Narrow (signed : bool) (result_lane : Ty).

Inductive TernaryOp : Set :=
| Select
| Bitselect
| Shuffle (input_type : Ty).

Inductive EShiftOp : Set :=
| ShScalar (op : ShiftOp)
| Rotate (op : RotateOp)
| Lanes (op : ShiftOp) (lane_type : Ty).

#[export] Instance LaneBinaryOp_eq_dec : EqDecision LaneBinaryOp.
Proof. solve_decision. Defined.
#[export] Instance ECompareOp_eq_dec : EqDecision ECompareOp.
Proof. solve_decision. Defined.
#[export] Instance UnaryOp_eq_dec : EqDecision UnaryOp.
Proof. solve_decision. Defined.
#[export] Instance EBinaryOp_eq_dec : EqDecision EBinaryOp.
Proof. solve_decision. Defined.
#[export] Instance TernaryOp_eq_dec : EqDecision TernaryOp.
Proof. solve_decision. Defined.
#[export] Instance EShiftOp_eq_dec : EqDecision EShiftOp.
Proof. solve_decision. Defined.

(** ** expression.rs *)

Inductive Expression (V : Type) : Type :=
| EUnary (operator : UnaryOp) (input : V)
| EBinary (operator : EBinaryOp) (left right : V)
| EShift (operator : EShiftOp) (value count : V)
| ETernary (operator : TernaryOp) (first second third : V)
| EMultiplyWide (signed : bool) (left right : V).
Arguments EUnary {V} operator input.
Arguments EBinary {V} operator left right.
Arguments EShift {V} operator value count.
Arguments ETernary {V} operator first second third.
Arguments EMultiplyWide {V} signed left right.

#[export] Instance Expression_eq_dec V `{EqDecision V} : EqDecision (Expression V).
Proof. solve_decision. Defined.

Definition result_types {V} (e : Expression V) (ty : Ty) : list Ty :=
  match e with EMultiplyWide _ _ _ => [I64; I64] | _ => [ty] end.

(** [try_map], stopping at the first input without a result. *)
Definition try_map {V U} (input : V -> option U) (e : Expression V) : option (Expression U) :=
  match e with
  | EUnary operator value => value ← input value; Some (EUnary operator value)
  | EBinary operator l r =>
      l ← input l; r ← input r; Some (EBinary operator l r)
  | EShift operator value count =>
      value ← input value; count ← input count; Some (EShift operator value count)
  | ETernary operator first second third =>
      first ← input first; second ← input second; third ← input third;
      Some (ETernary operator first second third)
  | EMultiplyWide signed l r =>
      l ← input l; r ← input r; Some (EMultiplyWide signed l r)
  end.

Definition map {V U} (input : V -> U) (e : Expression V) : Expression U :=
  match e with
  | EUnary operator value => EUnary operator (input value)
  | EBinary operator l r => EBinary operator (input l) (input r)
  | EShift operator value count => EShift operator (input value) (input count)
  | ETernary operator first second third =>
      ETernary operator (input first) (input second) (input third)
  | EMultiplyWide signed l r => EMultiplyWide signed (input l) (input r)
  end.

(** Inputs in stack order: a select's condition comes last. *)
Definition inputs {V} (e : Expression V) : list V :=
  match e with
  | EUnary _ input => [input]
  | EBinary _ l r => [l; r]
  | EShift _ value count => [value; count]
  | ETernary _ first second third => [first; second; third]
  | EMultiplyWide _ l r => [l; r]
  end.

(** ** Traversal *)

Lemma try_map_map {V U} (f : V -> U) (e : Expression V) :
  try_map (Some ∘ f) e = Some (map f e).
Proof. by destruct e. Qed.

Lemma map_map {V U W} (f : V -> U) (g : U -> W) (e : Expression V) :
  map g (map f e) = map (g ∘ f) e.
Proof. by destruct e. Qed.

Lemma inputs_map {V U} (f : V -> U) (e : Expression V) : inputs (map f e) = f <$> inputs e.
Proof. by destruct e. Qed.

Lemma map_ext_inputs {V U} (f g : V -> U) (e : Expression V) :
  Forall (fun x => f x = g x) (inputs e) -> map f e = map g e.
Proof.
  destruct e; simpl; intros H;
    repeat match goal with H : Forall _ (_ :: _) |- _ => inversion_clear H end; congruence.
Qed.

Lemma try_map_ext_inputs {V U} (f g : V -> option U) (e : Expression V) :
  Forall (fun x => f x = g x) (inputs e) -> try_map f e = try_map g e.
Proof.
  destruct e; simpl; intros H;
    repeat match goal with H : Forall _ (_ :: _) |- _ => inversion_clear H end;
    repeat match goal with H : f _ = _ |- _ => rewrite H; clear H end; done.
Qed.

(** Every input has a result exactly when the expression has one. *)
Lemma try_map_Some {V U} (f : V -> option U) (e : Expression V) (e' : Expression U) :
  try_map f e = Some e' ->
  Forall2 (fun x y => f x = Some y) (inputs e) (inputs e').
Proof.
  destruct e; simpl; intros H;
    repeat match type of H with (?m ≫= _) = Some _ =>
      destruct m eqn:?; simpl in H; [|done] end;
    simplify_eq; simpl; repeat constructor; done.
Qed.

Lemma try_map_is_Some {V U} (f : V -> option U) (e : Expression V) :
  Forall (fun x => is_Some (f x)) (inputs e) -> is_Some (try_map f e).
Proof.
  destruct e; simpl; intros H;
    repeat match goal with H : Forall _ (_ :: _) |- _ => inversion_clear H end;
    repeat match goal with H : is_Some _ |- _ => destruct H as [? H]; rewrite H; simpl; clear H end;
    eauto.
Qed.

Lemma try_map_compose {V U W} (f : V -> option U) (g : U -> option W) (h : V -> option W) e us ws :
  (forall x u w, f x = Some u -> g u = Some w -> h x = Some w) ->
  try_map f e = Some us -> try_map g us = Some ws -> try_map h e = Some ws.
Proof.
  intros Hfgh Hf Hg. destruct e; cbn [try_map] in *;
    repeat (apply bind_Some in Hf as (? & ? & Hf)); simplify_eq; cbn [try_map] in *;
    repeat (apply bind_Some in Hg as (? & ? & Hg)); simplify_eq;
    repeat (erewrite Hfgh by done; cbn [mbind option_bind]); done.
Qed.
