(* ===== verification/Evaluate.v ===== *)
(** * Literal evaluation

    crates/compiler/src/expression/evaluate.rs and evaluate/vector.rs: the value
    of an expression over literals, at logical widths ([constant_result]) and on
    WebAssembly carriers ([carrier_result]). [None] leaves the expression
    unevaluated: a trapping division or an unspecified NaN. *)

From S2P Require Import Prelude Bytes Types Floating Expr.
Local Open Scope Z_scope.

(** ** evaluate/vector.rs

    Vectors are u128; a lane is read as u64 and masked to its width. *)

(** [(0..128).step_by(width)]. *)
Definition offsets (width : Z) : list Z :=
  (fun i => Z.of_nat i * width) <$> seq 0 (Z.to_nat (128 / width)).

(** [bits |= u128::from(lane) << offset] over the offsets. *)
Definition gather (f : Z -> Z) (offs : list Z) : Z :=
  foldl (fun acc offset => Z.lor acc (wrap 128 (Z.shiftl (f offset) offset))) 0 offs.

Definition lane (v offset mask : Z) : Z := Z.land (wrap 64 (Z.shiftr v offset)) mask.

Definition clamp (lo hi z : Z) : Z := Z.max lo (Z.min z hi).

(** The loop body of [binary], before the final mask. The width-changing
    operations never reach it. *)
Definition lane_binary (operator : LaneBinaryOp) (lane_type : Ty) (l r : Z) : Z :=
  let mask := mask lane_type in
  let signed := signed_value lane_type in
  let limit := Z.shiftl 1 (bits lane_type - 1) in
  match operator with
  | LAdd => wrap 64 (l + r)
  | LSub => wrap 64 (l - r)
  | LMul => wrap 64 (l * r)
  | MinUnsigned => Z.min l r
  | MaxUnsigned => Z.max l r
  | AverageUnsigned => Z.shiftr (wrap 64 (l + r + 1)) 1
  | MinSigned => wrap 64 (Z.min (signed l) (signed r))
  | MaxSigned => wrap 64 (Z.max (signed l) (signed r))
  | LEq => if l =? r then mask else 0
  | GtSigned => if signed r <? signed l then mask else 0
  | AddSatUnsigned => Z.min (wrap 64 (l + r)) mask
  | SubSatUnsigned => Z.max 0 (l - r)
  | AddSatSigned => wrap 64 (clamp (- limit) (limit - 1) (signed l + signed r))
  | SubSatSigned => wrap 64 (clamp (- limit) (limit - 1) (signed l - signed r))
  | WideningMulLow _ | WideningMulHigh _ | DotI16Signed => 0
  end.

Definition widening_mul (lane_type : Ty) (left right : Z) (signed : bool) : Z :=
  let result_width := bits lane_type * 2 in
  let result_mask := Z.shiftr (Z.ones 64) (64 - result_width) in
  foldl (fun acc i =>
    let offset := Z.of_nat i * bits lane_type in
    let l := lane left offset (mask lane_type) in
    let r := lane right offset (mask lane_type) in
    let product :=
      if signed then wrap 64 (signed_value lane_type l * signed_value lane_type r)
      else wrap 64 (l * r) in
    Z.lor acc (wrap 128 (Z.shiftl (Z.land product result_mask) (Z.of_nat i * result_width))))
    0 (seq 0 (Z.to_nat (64 / bits lane_type))).

Definition dot_i16_pairs (left right : Z) : Z :=
  gather (fun offset =>
    let product offset :=
      signed_value I16 (wrap 64 (Z.shiftr left offset))
      * signed_value I16 (wrap 64 (Z.shiftr right offset)) in
    wrap 32 (product offset + product (offset + 16))) (offsets 32).

Definition vec_binary (operator : LaneBinaryOp) (lane_type : Ty) (left right : Z) : Z :=
  match operator with
  | WideningMulLow signed => widening_mul lane_type left right signed
  | WideningMulHigh signed =>
      widening_mul lane_type (Z.shiftr left 64) (Z.shiftr right 64) signed
  | DotI16Signed => dot_i16_pairs left right
  | _ =>
      let mask := mask lane_type in
      gather (fun offset =>
        Z.land (lane_binary operator lane_type (lane left offset mask) (lane right offset mask)) mask)
        (offsets (bits lane_type))
  end.

Definition vec_shift (operator : ShiftOp) (lane_type : Ty) (value count : Z) : Z :=
  let count := count mod bits lane_type in
  gather (fun offset =>
    let l := lane value offset (mask lane_type) in
    let l := match operator with
             | ShlLeft => wrap 64 (Z.shiftl l count)
             | RightUnsigned => Z.shiftr l count
             | RightSigned => wrap 64 (Z.shiftr (signed_value lane_type l) count)
             end in
    Z.land l (mask lane_type)) (offsets (bits lane_type)).

Definition pairwise_add_unsigned (lane_type : Ty) (input : Z) : Z :=
  let width := bits lane_type in
  gather (fun offset =>
    Z.land (Z.shiftr input offset) (mask lane_type)
    + Z.land (Z.shiftr input (offset + width)) (mask lane_type)) (offsets (width * 2)).

Definition shuffle (left right : Z) (lanes : list Z) : Z :=
  from_le_bytes ((fun index =>
    byte_of (if index / 16 =? 0 then left else right) (Z.to_nat (index mod 16))) <$> lanes).

(** [narrow]; only byte and word results have an input lane. *)
Definition narrow_input (result_lane : Ty) : option Ty :=
  match result_lane with I8 => Some I16 | I16 => Some I32 | _ => None end.

Definition narrow (signed : bool) (result_lane : Ty) (left right : Z) : option Z :=
  input_lane ← narrow_input result_lane;
  let limit := Z.shiftl 1 (bits result_lane - 1) in
  let '(minimum, maximum) :=
    if signed then (- limit, limit - 1) else (0, mask result_lane) in
  let half input base :=
    foldl (fun acc i =>
      let value := signed_value input_lane
                     (wrap 64 (Z.shiftr input (Z.of_nat i * bits input_lane))) in
      let result := Z.land (wrap 64 (clamp minimum maximum value)) (mask result_lane) in
      Z.lor acc (wrap 128 (Z.shiftl result (base + Z.of_nat i * bits result_lane))))
      0 (seq 0 (Z.to_nat (128 / bits input_lane))) in
  Some (Z.lor (half left 0) (half right 64)).

(** ** evaluate.rs *)

Record TypedLiteral := mkTyped { t_ty : Ty; t_value : Literal }.

Definition t_scalar (l : TypedLiteral) : option Z := scalar (t_value l) (t_ty l).
Definition t_u128 (l : TypedLiteral) : Z := lit_u128 (t_value l).

Definition eval_ternary (operator : TernaryOp) (first second third : TypedLiteral) (result : Ty)
    : option Literal :=
  b ← match operator with
      | Select =>
          condition ← t_scalar third;
          Some (if negb (condition =? 0) then t_value first else t_value second)
      | Bitselect =>
          let mask := t_u128 third in
          Some (lit128 (Z.lor (Z.land (t_u128 first) mask) (Z.ldiff (t_u128 second) mask)))
      | Shuffle input_type =>
          let width := bits input_type / 8 in
          Some (lit128 (from_le_bytes ((fun index =>
            if index <? width then byte_of (t_u128 first) (Z.to_nat index)
            else if index <? width * 2 then byte_of (t_u128 second) (Z.to_nat (index - width))
            else 0) <$> to_le_bytes 16 (t_u128 third))))
      end;
  Some (lit_normalize b result).

Definition eval_splat (lane_type : Ty) (bits_ : Z) : Z :=
  gather (fun _ => normalize lane_type bits_) (offsets (bits lane_type)).

Definition eval_bitmask (lane_type : Ty) (v : Z) : Z :=
  foldl (fun mask i =>
    Z.lor mask (Z.shiftl
      (Z.land (Z.shiftr v ((Z.of_nat i + 1) * bits lane_type - 1)) 1) (Z.of_nat i)))
    0 (seq 0 (Z.to_nat (128 / bits lane_type))).

Definition eval_unary (operator : UnaryOp) (input : TypedLiteral) (result : Ty) : option Literal :=
  let finish b := Some (lit (normalize result b)) in
  match operator with
  | UFloatVector operator format => lit128 <$> vunary format operator (t_u128 input)
  | FloatVectorConvert operator => lit128 <$> vconvert operator (t_u128 input)
  | PairwiseAddUnsigned lane_type =>
      Some (lit_normalize (lit128 (pairwise_add_unsigned lane_type (t_u128 input))) result)
  | Splat lane_type =>
      b ← t_scalar input;
      Some (lit_normalize (lit128 (eval_splat lane_type b)) result)
  | Reinterpret =>
      if negb (is_scalar result) then
        b ← t_scalar input;
        Some (lit_normalize (lit128 (Z.lor b (wrap 128 (Z.shiftl b 64)))) result)
      else if negb (is_scalar (t_ty input)) then finish (wrap 64 (t_u128 input))
      else b ← t_scalar input; finish b
  | Convert =>
      if negb (is_scalar (t_ty input)) then Some (lit_normalize (t_value input) result)
      else b ← t_scalar input; finish b
  | Bitmask lane_type => finish (eval_bitmask lane_type (t_u128 input))
  | ExtractLane lane => finish (wrap 64 (Z.shiftr (t_u128 input) (lane * bits result)))
  | UFloat operator =>
      b ← t_scalar input; r ← unary Binary64 operator b; finish r
  | FloatConvert operator =>
      b ← t_scalar input; r ← convert operator (t_ty input) b; finish r
  | BitCount operator input_type =>
      b ← t_scalar input; finish (int_bit_count input_type operator (normalize input_type b))
  | SignExtend input_type =>
      b ← t_scalar input; finish (wrap 64 (signed_value input_type b))
  | ZeroTest nonzero =>
      b ← t_scalar input; finish (Z.b2z (Bool.eqb (negb (b =? 0)) nonzero))
  | LowBits count =>
      b ← t_scalar input; finish (Z.land b (low_mask count))
  end.

Definition eval_binary (operator : EBinaryOp) (left right : TypedLiteral) (result : Ty)
    : option Literal :=
  let finish b := Some (lit (normalize result b)) in
  let finish128 b := Some (lit_normalize (lit128 b) result) in
  match operator with
  | BFloatVector operator format =>
      lit128 <$> vbinary format operator (t_u128 left) (t_u128 right)
  | FloatVectorCompare operator format =>
      Some (lit128 (vcompare format operator (t_u128 left) (t_u128 right)))
  | Swizzle input_type =>
      let width := bits input_type / 8 in
      finish128 (from_le_bytes ((fun index =>
        if index <? width then byte_of (t_u128 left) (Z.to_nat index) else 0)
        <$> to_le_bytes 16 (t_u128 right)))
  | Bitwise operator =>
      Some (lit_normalize (bitwise_apply operator (t_value left) (t_value right)) result)
  | Vector operator lane_type =>
      finish128 (vec_binary operator lane_type (t_u128 left) (t_u128 right))
  | Narrow signed result_lane =>
      b ← narrow signed result_lane (t_u128 left) (t_u128 right); finish128 b
  | ShuffleImmediate lanes =>
      finish128 (shuffle (t_u128 left) (t_u128 right) (mask_indices lanes))
  | ReplaceLane lane_type lane =>
      let shift := lane * bits lane_type in
      let m := wrap 128 (Z.shiftl (mask lane_type) shift) in
      b ← t_scalar right;
      finish128 (Z.lor (Z.ldiff (t_u128 left) m) (wrap 128 (Z.shiftl (normalize lane_type b) shift)))
  | Integer operator =>
      l ← t_scalar left; r ← t_scalar right;
      b ← int_binary (t_ty left) operator l r; finish b
  | BFloat operator =>
      l ← t_scalar left; r ← t_scalar right;
      b ← binary Binary64 operator l r; finish b
  | Compare (CmpInteger operator) =>
      l ← t_scalar left; r ← t_scalar right;
      finish (Z.b2z (int_compare (t_ty left) operator l r))
  | Compare (CmpFloat operator) =>
      l ← t_scalar left; r ← t_scalar right;
      finish (Z.b2z (compare Binary64 operator l r))
  end.

Definition eval_shift (operator : EShiftOp) (value count : TypedLiteral) (result : Ty)
    : option Literal :=
  count ← t_scalar count;
  let count := wrap 32 count in
  match operator with
  | Lanes operator lane_type =>
      Some (lit_normalize (lit128 (vec_shift operator lane_type (t_u128 value) count)) result)
  | ShScalar operator =>
      b ← t_scalar value;
      Some (lit (normalize result (int_shift (t_ty value) operator b count)))
  | Rotate operator =>
      b ← t_scalar value;
      Some (lit (normalize result (int_rotate (t_ty value) operator b count)))
  end.

Definition eval_multiply_wide (signed : bool) (left right : TypedLiteral) (result : Ty)
    (component : nat) : option Literal :=
  l ← t_scalar left; r ← t_scalar right;
  let product :=
    if signed then wrap 128 (to_signed 64 l * to_signed 64 r) else l * r in
  Some (lit (normalize result (wrap 64 (Z.shiftr product (Z.of_nat component * 64))))).

Definition constant_result (e : Expression TypedLiteral) (result : Ty) (component : nat)
    : option Literal :=
  match e with
  | EUnary operator input => eval_unary operator input result
  | EBinary operator l r => eval_binary operator l r result
  | EShift operator value count => eval_shift operator value count result
  | ETernary operator first second third => eval_ternary operator first second third result
  | EMultiplyWide signed l r => eval_multiply_wide signed l r result component
  end.

(** The carrier form of an operand. *)
Definition carrier_literal_of (l : TypedLiteral) : TypedLiteral :=
  mkTyped (carrier (t_ty l)) (lit_normalize (t_value l) (carrier (t_ty l))).

Definition carrier_result (e : Expression TypedLiteral) (result : Ty) (component : nat)
    : option Literal :=
  match e with
  | EUnary (ExtractLane _) _ => constant_result e result component
  | _ => constant_result (map carrier_literal_of e) (carrier result) component
  end.
