(* ===== verification/Values.v ===== *)
(** * Stored values, deduplication and bit bounds

    crates/compiler/src/body.rs (values and their definitions), body/values.rs
    and body/values/bounds.rs: the value table of one function, its interning
    and the conservative widths of the physical encodings. A vector index out
    of range is [None], the panic of the source. *)

From S2P Require Import Prelude Bytes Types Floating Expr Evaluate.
Local Open Scope Z_scope.

(** ** body.rs *)

Inductive BlockItem : Set :=
| Effect (effect : nat)
| Evaluate (value : nat).

Inductive ValueDefinition : Set :=
| DLiteral (literal : Literal)
| DExpression (expression : Expression nat)
| DParameter (block component : nat)
| DResult (producer : BlockItem) (component : nat).

Record Value := mkValue { ty : Ty; definition : ValueDefinition }.

#[export] Instance BlockItem_eq_dec : EqDecision BlockItem.
Proof. solve_decision. Defined.
#[export] Instance ValueDefinition_eq_dec : EqDecision ValueDefinition.
Proof. solve_decision. Defined.
#[export] Instance Value_eq_dec : EqDecision Value.
Proof. solve_decision. Defined.

Definition scalar_literal (v : Value) : option Z :=
  match definition v with DLiteral literal => scalar literal (ty v) | _ => None end.

(** ** body/values/bounds.rs *)

Record BitBounds := mkBounds { unsigned : Z; signed : Z }.

Definition sat8 (z : Z) : Z := Z.max 0 (Z.min z 255).

Definition union (a b : BitBounds) : BitBounds :=
  mkBounds (Z.max (unsigned a) (unsigned b)) (Z.max (signed a) (signed b)).

Definition unsigned_bits (value : Value) (values : list Value) (inputs : list BitBounds)
    : option Z :=
  let carrier_bits := bits (carrier (ty value)) in
  let u i := unsigned <$> inputs !! i in
  match definition value with
  | DParameter _ _ => Some carrier_bits
  | DLiteral literal => Some (unsigned_bits_of literal)
  | DResult (Effect _) _ => Some (bits (ty value))
  | DResult (Evaluate _) _ => Some carrier_bits
  | DExpression e =>
      match e with
      | EUnary operator input =>
          match operator with
          | BitCount operator input_type =>
              maximum ← match operator with
                        | Ones => u input
                        | LeadingZeros | TrailingZeros => Some (bits input_type)
                        end;
              Some (8 - leading_zeros 8 maximum)
          | LowBits count => b ← u input; Some (Z.min b count)
          | Reinterpret =>
              if decide (ty value = V64) then Some carrier_bits
              else b ← u input; Some (Z.min b carrier_bits)
          | Convert => b ← u input; Some (Z.min b carrier_bits)
          | ZeroTest _ => Some 1
          | Bitmask lane_type => Some (128 / bits lane_type)
          | ExtractLane _ => Some (bits (ty value))
          | _ => Some carrier_bits
          end
      | EBinary operator l r =>
          match operator with
          | Integer Add =>
              a ← u l; b ← u r; Some (Z.min (sat8 (Z.max a b + 1)) carrier_bits)
          | Integer Sub => Some carrier_bits
          | Integer Mul => a ← u l; b ← u r; Some (Z.min (sat8 (a + b)) carrier_bits)
          | Integer (DivUnsigned | RemUnsigned) => Some (bits (ty value))
          | Integer (DivSigned | RemSigned) => Some carrier_bits
          | Bitwise And => a ← u l; b ← u r; Some (Z.min a b)
          | Bitwise (Or | Xor) => a ← u l; b ← u r; Some (Z.max a b)
          | Compare _ => Some 1
          | _ => Some carrier_bits
          end
      | EShift (ShScalar operator) input count =>
          c ← values !! count;
          match scalar_literal c with
          | Some b =>
              let count := shift_count (ty value) (wrap 32 b) in
              match operator with
              | ShlLeft => b ← u input; Some (Z.min (sat8 (b + count)) carrier_bits)
              | RightUnsigned => b ← u input; Some (sat8 (b - count))
              | RightSigned => Some carrier_bits
              end
          | None =>
              match operator with
              | ShlLeft => Some carrier_bits
              | RightUnsigned => u input
              | RightSigned => Some carrier_bits
              end
          end
      | EShift _ _ _ => Some carrier_bits
      | ETernary Select when_true when_false _ =>
          a ← u when_true; b ← u when_false; Some (Z.max a b)
      | ETernary _ _ _ _ | EMultiplyWide _ _ _ => Some carrier_bits
      end
  end.

(** Width of a literal as a signed carrier. *)
Definition signed_literal_bits (carrier_bits b : Z) : Z :=
  let signed := if carrier_bits =? 64 then to_signed 64 b else to_signed 32 b in
  let magnitude := if signed <? 0 then Z.lnot signed else signed in
  65 - leading_zeros 64 magnitude.

Definition for_value (value : Value) (values : list Value) (inputs : list BitBounds)
    : option BitBounds :=
  let carrier_bits := bits (carrier (ty value)) in
  unsigned ← unsigned_bits value values inputs;
  let s i := signed <$> inputs !! i in
  let fallback := Z.min (sat8 (unsigned + 1)) carrier_bits in
  signed ← match definition value with
    | DLiteral literal =>
        Some (match scalar literal (ty value) with
              | Some b => signed_literal_bits carrier_bits b
              | None => fallback
              end)
    | DExpression (EUnary operator input) =>
        match operator with
        | SignExtend input_type => b ← s input; Some (Z.min b (bits input_type))
        | Convert =>
            source ← values !! input;
            if bool_decide (ty value = I64) && negb (bool_decide (ty source = I64)) then
              b ← inputs !! input; Some (Z.min (sat8 (Values.unsigned b + 1)) carrier_bits)
            else b ← s input; Some (Z.min b carrier_bits)
        | _ => Some fallback
        end
    | DExpression (EBinary (Integer Mul) l r) =>
        a ← s l; b ← s r; Some (Z.min (sat8 (a + b)) carrier_bits)
    | _ => Some fallback
    end;
  Some (mkBounds unsigned signed).

(** ** body/values.rs *)

Record ValueTable := mkTable {
  values : list Value;
  bounds : list BitBounds;
  (** The hash table maps each canonical value to its id; lookups compare the
      stored values, so the list of its ids is the table. *)
  interned : list nat;
}.

Definition empty_table : ValueTable := mkTable [] [] [].

(** Computations over the table: [None] is a panic (or, in the folder, fuel
    that ran out). *)
Definition T (A : Type) : Type := ValueTable -> option (A * ValueTable).
#[export] Instance T_ret : MRet T := fun _ a t => Some (a, t).
#[export] Instance T_bind : MBind T := fun _ _ f m t => '(a, t) ← m t; f a t.
#[export] Instance T_fmap : FMap T := fun _ _ f m t => '(a, t) ← m t; Some (f a, t).
Definition fail {A} : T A := fun _ => None.
(** A read of the table that panics when it has no result. *)
Definition reads {A} (f : ValueTable -> option A) : T A := fun t => a ← f t; Some (a, t).

Definition value_at (t : ValueTable) (id : nat) : option Value := values t !! id.
Definition bounds_at (t : ValueTable) (id : nat) : option BitBounds := bounds t !! id.
Definition type_at (t : ValueTable) (id : nat) : option Ty := ty <$> values t !! id.
Definition definition_at (t : ValueTable) (id : nat) : option ValueDefinition :=
  definition <$> values t !! id.
(** [values[id].scalar_literal()]. *)
Definition scalar_at (t : ValueTable) (id : nat) : option (option Z) :=
  scalar_literal <$> values t !! id.

Record ExpressionResult := mkResult {
  er_producer : nat; er_expression : Expression nat; er_component : nat }.

Definition expression_of (t : ValueTable) (id : nat) : option (option ExpressionResult) :=
  d ← definition_at t id;
  match d with
  | DExpression e => Some (Some (mkResult id e 0))
  | DResult (Evaluate producer) component =>
      d ← definition_at t producer;
      match d with DExpression e => Some (Some (mkResult producer e component)) | _ => None end
  | _ => Some None
  end.

(** The ids of an expression's results: the producer's slot and those after it. *)
Definition expression_results (t : ValueTable) (producer : nat) : option (list nat) :=
  v ← value_at t producer;
  match definition v with
  | DExpression e => Some (seq producer (length (result_types e (ty v))))
  | _ => None
  end.

Definition expression_result (t : ValueTable) (producer component : nat) : option nat :=
  results ← expression_results t producer; results !! component.

Definition retain_bounds (result original : nat) : T unit := fun t =>
  known ← bounds_at t original;
  old ← bounds_at t result;
  Some (tt, mkTable (values t)
    (<[result := mkBounds (Z.min (unsigned old) (unsigned known))
                          (Z.min (signed old) (signed known))]> (bounds t))
    (interned t)).

Definition carrier_bits (t : ValueTable) (id : nat) (logical_bits : Z) : option (option Z) :=
  v ← value_at t id;
  b ← bounds_at t id;
  let ty := ty v in
  Some match scalar_literal v with
  | Some bits_ => Some (normalize (carrier ty) bits_)
  | None =>
      if (bits ty <? unsigned b) && (bits ty <? signed b) then None
      else
        let bits_ := Z.land logical_bits (mask ty) in
        let bits_ :=
          if (bits ty <? 32) && (signed b <=? bits ty)
             && negb (Z.land bits_ (Z.shiftl 1 (bits ty - 1)) =? 0)
          then wrap 64 (signed_value ty bits_)
          else bits_ in
        Some (normalize (carrier ty) bits_)
  end.

(** [representation]: ids decrease along conversions, so [S id] rounds suffice. *)
Fixpoint representation_loop (fuel : nat) (t : ValueTable) (id : nat) : option nat :=
  match fuel with
  | O => None
  | S fuel =>
      v ← value_at t id;
      match definition v with
      | DExpression (EUnary Convert input) =>
          source ← type_at t input;
          if decide (carrier (ty v) = carrier source) then representation_loop fuel t input
          else Some id
      | _ => Some id
      end
  end.
Definition representation (t : ValueTable) (id : nat) : option nat :=
  representation_loop (S id) t id.

(** [push] and [push_with_bounds]: the further results of an expression follow
    its producer. Their definitions are not expressions, so they push nothing. *)
Definition push_one (value : Value) (b : BitBounds) : T nat := fun t =>
  Some (length (values t), mkTable (values t ++ [value]) (bounds t ++ [b]) (interned t)).

Definition push_plain (value : Value) : T nat := fun t =>
  b ← for_value value (values t) (bounds t);
  push_one value b t.

Fixpoint push_results (producer component : nat) (types : list Ty) : T unit :=
  match types with
  | [] => mret tt
  | ty :: types =>
      push_plain (mkValue ty (DResult (Evaluate producer) component)) ≫= fun _ =>
      push_results producer (S component) types
  end.

Definition push_with_bounds (value : Value) (b : BitBounds) : T nat :=
  index ← push_one value b;
  match definition value with
  | DExpression e => push_results index 1 (tail (result_types e (ty value))) ≫= fun _ => mret index
  | _ => mret index
  end.

Definition push (value : Value) : T nat := fun t =>
  b ← for_value value (values t) (bounds t);
  push_with_bounds value b t.

Definition find_interned (t : ValueTable) (value : Value) : option nat :=
  snd <$> list_find (fun id => values t !! id = Some value) (interned t).

Definition intern (value : Value) : T nat := fun t =>
  match find_interned t value with
  | Some index => Some (index, t)
  | None =>
      '(index, t) ← push value t;
      Some (index, mkTable (values t) (bounds t) (index :: interned t))
  end.

Definition carrier_literal (ty : Ty) (b : Literal) : T nat :=
  intern (mkValue ty (DLiteral (lit_normalize b (carrier ty)))).
Definition literal (ty : Ty) (b : Literal) : T nat :=
  carrier_literal ty (lit_normalize b ty).
