(* ===== verification/Facts.v ===== *)
(** * Path facts about scalar values

    crates/compiler/src/place/facts.rs and place/facts/*.rs: the known bits, lane
    words, ranges and comparison outcomes of one path, their inference through
    expressions, and what an assumed condition adds to them.

    A hash map is a [gmap]; the interior mutability of the inference cache is
    explicit state ([computed]), and a panic of the source is [None]. *)

From S2P Require Import Prelude Bytes Types Floating Expr Evaluate Values.
Local Open Scope Z_scope.

(** ** facts.rs: known bits *)

Record Bits := mkBits { bmask : Z; bvalue : Z }.
#[export] Instance Bits_eq_dec : EqDecision Bits.
Proof. solve_decision. Defined.

(** [Bits::default]. *)
Definition no_bits : Bits := mkBits 0 0.

Definition common (a b : Bits) : Bits :=
  let mask := Z.land (Z.land (bmask a) (bmask b)) (bnot 64 (Z.lxor (bvalue a) (bvalue b))) in
  mkBits mask (Z.land (bvalue a) mask).
Definition conflicts (a b : Bits) : bool :=
  negb (Z.land (Z.land (Z.lxor (bvalue a) (bvalue b)) (bmask a)) (bmask b) =? 0).
Definition bits_union (a b : Bits) : Bits :=
  mkBits (Z.lor (bmask a) (bmask b)) (Z.lor (bvalue a) (bvalue b)).
Definition restrict (a : Bits) (mask : Z) : Bits :=
  mkBits (Z.land (bmask a) mask) (Z.land (bvalue a) mask).

(** [a & !b != 0]. *)
Definition beyond (a b : Z) : bool := negb (Z.land a (bnot 64 b) =? 0).

(** ** range.rs *)

Record Range := mkRange { minimum : Z; maximum : Z }.
#[export] Instance Range_eq_dec : EqDecision Range.
Proof. solve_decision. Defined.

Definition intersect (a b : Range) : option Range :=
  let minimum := Z.max (minimum a) (minimum b) in
  let maximum := Z.min (maximum a) (maximum b) in
  if minimum <=? maximum then Some (mkRange minimum maximum) else None.

Definition range_compare (operator : CompareOp) (a b : Range) : option bool :=
  match operator with
  | CEq | CNe =>
      equal ← (if (maximum a <? minimum b) || (maximum b <? minimum a) then Some false
               else if (minimum a =? maximum a) && (minimum b =? maximum b) then Some true
               else None);
      Some (Bool.eqb equal (bool_decide (operator = CEq)))
  | LtUnsigned | GeUnsigned =>
      less ← (if maximum a <? minimum b then Some true
              else if maximum b <=? minimum a then Some false
              else None);
      Some (Bool.eqb less (bool_decide (operator = LtUnsigned)))
  | _ => None
  end.

(** ** lanes.rs: keys *)

Record VectorWord := mkWord { word_value : nat; half : Z }.
#[export] Instance VectorWord_eq_dec : EqDecision VectorWord.
Proof. solve_decision. Defined.
#[export] Instance VectorWord_countable : Countable VectorWord.
Proof.
  refine (inj_countable' (fun w => (word_value w, half w)) (fun p => mkWord p.1 p.2) _).
  by intros [].
Defined.

Definition word_new (t : ValueTable) (value : nat) (half : Z) : option VectorWord :=
  value ← representation t value; Some (mkWord value half).

Definition word_bits (t : ValueTable) (w : VectorWord) (words : option (gmap VectorWord Bits))
    : option Bits :=
  d ← definition_at t (word_value w);
  match d with
  | DLiteral literal =>
      Some (mkBits (Z.ones 64) (wrap 64 (Z.shiftr (lit_u128 literal) (half w * 64))))
  | _ => Some (default no_bits (words ≫= fun words => words !! w))
  end.

Record LaneObservation := mkObservation { word : VectorWord; offset : Z; lane_mask : Z }.

(** [LaneObservation::of]: [None] is a panic, [Some None] no observation. *)
Definition observation_of (t : ValueTable) (id : nat) : option (option LaneObservation) :=
  r ← representation t id;
  v ← value_at t r;
  match definition v with
  | DExpression (EUnary operator input) =>
      input_type ← type_at t input;
      let lane := match operator with
                  | ExtractLane lane => Some lane
                  | Reinterpret =>
                      if bool_decide (ty v = I64) && bool_decide (carrier input_type = V128)
                      then Some 0 else None
                  | _ => None
                  end in
      match lane with
      | None => Some None
      | Some lane =>
          let start := lane * bits (ty v) in
          w ← word_new t input (start / 64);
          Some (Some (mkObservation w (start mod 64) (mask (ty v))))
      end
  | _ => Some None
  end.

Definition observation_read (t : ValueTable) (o : LaneObservation) (words : gmap VectorWord Bits)
    : option Bits :=
  b ← word_bits t (word o) (Some words);
  Some (restrict (mkBits (Z.shiftr (bmask b) (offset o)) (Z.shiftr (bvalue b) (offset o))) (lane_mask o)).

(** [LaneFacts::record]; the entry is created before the conflict is tested. *)
Definition lane_record (words : gmap VectorWord Bits) (w : VectorWord) (b : Bits)
    : gmap VectorWord Bits :=
  if bmask b =? 0 then words
  else
    let previous := default no_bits (words !! w) in
    <[w := if conflicts previous b then previous else bits_union previous b]> words.

Definition observation_record (o : LaneObservation) (words : gmap VectorWord Bits) (b : Bits)
    : gmap VectorWord Bits :=
  let b := restrict b (lane_mask o) in
  lane_record words (word o)
    (mkBits (wrap 64 (Z.shiftl (bmask b) (offset o))) (wrap 64 (Z.shiftl (bvalue b) (offset o)))).

(** ** comparisons.rs *)

Record Comparison := mkComparison { c_operator : CompareOp; c_left : nat; c_right : nat }.
#[export] Instance Comparison_eq_dec : EqDecision Comparison.
Proof. solve_decision. Defined.

Definition operator_number (operator : CompareOp) : nat :=
  match operator with
  | CEq => 0 | CNe => 1 | LtUnsigned => 2 | GeUnsigned => 3 | LtSigned => 4 | GeSigned => 5
  end.
Definition operator_of_number (n : nat) : CompareOp :=
  match n with
  | 0 => CEq | 1 => CNe | 2 => LtUnsigned | 3 => GeUnsigned | 4 => LtSigned | _ => GeSigned
  end%nat.
#[export] Instance CompareOp_countable : Countable CompareOp.
Proof. refine (inj_countable' operator_number operator_of_number _). by intros []. Defined.
#[export] Instance Comparison_countable : Countable Comparison.
Proof.
  refine (inj_countable' (fun c => (c_operator c, c_left c, c_right c))
            (fun p => mkComparison p.1.1 p.1.2 p.2) _).
  by intros [].
Defined.

Definition canonical (t : ValueTable) (operator : CompareOp) (left right : nat)
    : option (Comparison * bool) :=
  let '(operator, inverted) :=
    match operator with
    | CNe => (CEq, true)
    | GeUnsigned => (LtUnsigned, true)
    | GeSigned => (LtSigned, true)
    | operator => (operator, false)
    end in
  l ← representation t left;
  r ← representation t right;
  let '(l, r) := if bool_decide (operator = CEq) && (r <? l)%nat then (r, l) else (l, r) in
  Some (mkComparison operator l r, inverted).

Definition comparisons_get (t : ValueTable) (outcomes : gmap Comparison bool)
    (operator : CompareOp) (left right : nat) : option (option bool) :=
  '(key, inverted) ← canonical t operator left right;
  Some ((fun truth => xorb truth inverted) <$> outcomes !! key).

(** ** constraints.rs: state *)

Definition MAX_CONSTRAINTS : nat := 16.
Definition MAX_CONSTRAINT_CHECKS : nat := 256.

(** [roots] shares its storage between forks; [revisit_from = None] is the
    sentinel usize::MAX. *)
Record Constraints := mkConstraints { roots : list nat; active : Z; revisit_from : option nat }.
Definition no_constraints : Constraints := mkConstraints [] 0 None.

Definition revisit_min (from : option nat) (id : nat) : option nat :=
  Some (match from with None => id | Some from => Nat.min from id end).

Definition constraints_track (t : ValueTable) (id : nat) (b : Bits) (c : Constraints)
    : option Constraints :=
  v ← value_at t id;
  if negb (bool_decide (ty v = I1)) || (Z.land (bmask b) 1 =? 0) then Some c
  else
    result ← expression_of t id;
    match er_expression <$> result with
    | Some (EBinary (Bitwise operator) _ _) =>
        if bool_decide (operator = And) && negb (Z.land (bvalue b) 1 =? 0)
           || bool_decide (operator = Or) && (Z.land (bvalue b) 1 =? 0)
        then Some c
        else
          let track roots index :=
            mkConstraints roots (Z.lor (active c) (Z.shiftl 1 (Z.of_nat index)))
              (revisit_min (revisit_from c) id) in
          match list_find (eq id) (roots c) with
          | Some (index, _) => Some (track (roots c) index)
          | None =>
              if Nat.eqb (length (roots c)) MAX_CONSTRAINTS then Some c
              else Some (track (roots c ++ [id]) (length (roots c)))
          end
    | _ => Some c
    end.

Definition constraints_changed (id : nat) (c : Constraints) : Constraints :=
  if active c =? 0 then c else mkConstraints (roots c) (active c) (revisit_min (revisit_from c) id).

Definition retain_known (known : gmap nat Bits) (c : Constraints) : Constraints :=
  match roots c with
  | [] => c
  | roots =>
      let active := foldl (fun mask index =>
        match roots !! index with
        | Some id => if bool_decide (is_Some (known !! id)) then Z.lor mask (Z.shiftl 1 (Z.of_nat index)) else mask
        | None => mask
        end) 0 (seq 0 (length roots)) in
      mkConstraints roots active (if active =? 0 then None else Some 0%nat)
  end.

(** ** facts.rs: state *)

Record ScalarFacts := mkFacts {
  known : gmap nat Bits;
  lanes : option (gmap VectorWord Bits);
  ranges : gmap nat Range;
  comparisons : gmap Comparison bool;
  constraints : Constraints;
  computed : gmap nat Bits;
}.

Definition no_facts : ScalarFacts := mkFacts ∅ None ∅ ∅ no_constraints ∅.

Inductive Assumption : Set :=
| Truth (condition : nat) (truth : bool)
| KnownBits (value : nat) (mask bits : Z).
#[export] Instance Assumption_eq_dec : EqDecision Assumption.
Proof. solve_decision. Defined.

(** [Clone]: the copy starts with an empty cache. *)
Definition facts_clone (f : ScalarFacts) : ScalarFacts :=
  mkFacts (known f) (lanes f) (ranges f) (comparisons f) (constraints f) ∅.

Definition set_known (x : gmap nat Bits) (f : ScalarFacts) : ScalarFacts :=
  mkFacts x (lanes f) (ranges f) (comparisons f) (constraints f) (computed f).
Definition set_lanes (x : option (gmap VectorWord Bits)) (f : ScalarFacts) : ScalarFacts :=
  mkFacts (known f) x (ranges f) (comparisons f) (constraints f) (computed f).
Definition set_ranges (x : gmap nat Range) (f : ScalarFacts) : ScalarFacts :=
  mkFacts (known f) (lanes f) x (comparisons f) (constraints f) (computed f).
Definition set_comparisons (x : gmap Comparison bool) (f : ScalarFacts) : ScalarFacts :=
  mkFacts (known f) (lanes f) (ranges f) x (constraints f) (computed f).
Definition set_constraints (x : Constraints) (f : ScalarFacts) : ScalarFacts :=
  mkFacts (known f) (lanes f) (ranges f) (comparisons f) x (computed f).
Definition set_computed (x : gmap nat Bits) (f : ScalarFacts) : ScalarFacts :=
  mkFacts (known f) (lanes f) (ranges f) (comparisons f) (constraints f) x.

(** Computations over the facts of a path; [None] is a panic. *)
Definition FM (A : Type) : Type := ScalarFacts -> option (A * ScalarFacts).
#[export] Instance FM_ret : MRet FM := fun _ a f => Some (a, f).
#[export] Instance FM_bind : MBind FM := fun _ _ k m f => '(a, f) ← m f; k a f.
Definition asks {A} (g : ScalarFacts -> option A) : FM A := fun f => a ← g f; Some (a, f).
Definition modify (g : ScalarFacts -> ScalarFacts) : FM unit := fun f => Some (tt, g f).

Section Facts.
Context (t : ValueTable).

Definition known_bits (f : ScalarFacts) (id : nat) : option Bits :=
  let b := default no_bits (known f !! id) in
  match lanes f with
  | None => Some b
  | Some words =>
      o ← observation_of t id;
      match o with
      | None => Some b
      | Some o =>
          r ← observation_read t o words;
          ty ← type_at t id;
          Some (restrict (bits_union b r) (mask ty))
      end
  end.

Definition changed (id : nat) (f : ScalarFacts) : ScalarFacts :=
  set_computed (filter (fun e => (e.1 < id)%nat) (computed f))
    (set_constraints (constraints_changed id (constraints f)) f).

Definition record (id : nat) (b : Bits) : FM unit := fun f =>
  o ← observation_of t id;
  let '(source, f) :=
    match o with
    | Some o => (word_value (word o), set_lanes (Some (observation_record o (default ∅ (lanes f)) b)) f)
    | None => (id, set_known (<[id := b]> (known f)) f)
    end in
  Some (tt, changed source f).

(** *** range.rs *)

Definition range (f : ScalarFacts) (id : nat) (b : Bits) : option (option Range) :=
  bb ← bounds_at t id;
  v ← value_at t id;
  if bits (ty v) <? unsigned bb then Some None
  else
    let logical := mkRange (bvalue b) (Z.lor (bvalue b) (Z.land (mask (ty v)) (bnot 64 (bmask b)))) in
    Some (Some (default logical (ranges f !! id ≫= intersect logical))).

Definition restrict_range (id : nat) (r : Range) : FM unit := fun f =>
  literal ← scalar_at t id;
  match literal with
  | Some _ => Some (tt, f)
  | None =>
      if maximum r <? minimum r then Some (tt, f)
      else
        match (match ranges f !! id with None => Some r | Some previous => intersect previous r end) with
        | None => Some (tt, f)
        | Some r =>
            let previous := ranges f !! id in
            let f := set_ranges (<[id := r]> (ranges f)) f in
            Some (tt, if decide (previous = Some r) then f else changed id f)
        end
  end.

(** *** shifts.rs *)

Definition shifted (input : nat) (operator : ShiftOp) (b count : Bits) : option Bits :=
  v ← value_at t input;
  bb ← bounds_at t input;
  let width := bits (carrier (ty v)) in
  let count_mask := width - 1 in
  if negb (Z.land (bmask count) count_mask =? count_mask) then Some no_bits
  else
    let count := Z.land (bvalue count) count_mask in
    let carrier_mask := low_mask width in
    let b := match scalar_literal v with
             | Some value => mkBits carrier_mask value
             | None => bits_union b (mkBits (Z.land carrier_mask (bnot 64 (low_mask (unsigned bb)))) 0)
             end in
    let shifted := match operator with
      | ShlLeft => mkBits (Z.lor (wrap 64 (Z.shiftl (bmask b) count)) (low_mask count))
                          (wrap 64 (Z.shiftl (bvalue b) count))
      | RightUnsigned => mkBits (Z.lor (Z.shiftr (bmask b) count)
                                       (Z.land carrier_mask (bnot 64 (low_mask (width - count)))))
                                (Z.shiftr (bvalue b) count)
      | RightSigned => no_bits
      end in
    Some (restrict shifted carrier_mask).

(** *** infer.rs *)

Definition bitwise_bits (operator : BitwiseOp) (a b : Bits) : Bits :=
  match operator with
  | And =>
      let zeros := Z.lor (Z.land (bmask a) (bnot 64 (bvalue a))) (Z.land (bmask b) (bnot 64 (bvalue b))) in
      let ones := Z.land (bvalue a) (bvalue b) in
      mkBits (Z.lor zeros ones) ones
  | Or =>
      let ones := Z.lor (bvalue a) (bvalue b) in
      mkBits (Z.lor (Z.land (Z.land (Z.land (bmask a) (bnot 64 (bvalue a))) (bmask b)) (bnot 64 (bvalue b))) ones) ones
  | Xor =>
      let mask := Z.land (bmask a) (bmask b) in
      mkBits mask (Z.land (Z.lxor (bvalue a) (bvalue b)) mask)
  end.

(** The first match of [bits], over inferred inputs. *)
Definition expression_bits (cache : gmap nat Bits) (result : Ty) (e : Expression nat) : option Bits :=
  match e with
  | EUnary operator input =>
      b ← cache !! input;
      match operator with
      | Convert =>
          bb ← bounds_at t input;
          Some (bits_union b (mkBits (Z.land (mask result) (bnot 64 (low_mask (unsigned bb)))) 0))
      | LowBits width =>
          let m := low_mask width in
          Some (bits_union (restrict b m) (mkBits (Z.land (mask result) (bnot 64 m)) 0))
      | ZeroTest nonzero =>
          Some (if negb (bvalue b =? 0) then mkBits 1 (Z.b2z nonzero) else no_bits)
      | _ => Some no_bits
      end
  | EBinary (Bitwise operator) l r =>
      a ← cache !! l; b ← cache !! r; Some (bitwise_bits operator a b)
  | EShift (ShScalar operator) input count =>
      b ← cache !! input; c ← cache !! count; shifted input operator b c
  | ETernary (Select | Bitselect) when_true when_false _ =>
      a ← cache !! when_true; b ← cache !! when_false; Some (common a b)
  | _ => Some no_bits
  end.

(** The comparison decided by ranges. *)
Definition expression_comparison (f : ScalarFacts) (cache : gmap nat Bits) (e : Expression nat)
    : option (option bool) :=
  match e with
  | EBinary (Compare (CmpInteger operator)) l r =>
      a ← cache !! l; a ← range f l a;
      match a with
      | None => Some None
      | Some a => b ← cache !! r; b ← range f r b; Some (b ≫= range_compare operator a)
      end
  | EUnary (ZeroTest nonzero) input =>
      b ← cache !! input;
      a ← range f input b;
      Some (a ≫= fun a => range_compare (if nonzero then CNe else CEq) a (mkRange 0 0))
  | _ => Some None
  end.

(** The operands as literals, when all are known; inputs outside the cache panic. *)
Definition known_literal (cache : gmap nat Bits) (input : nat) : option TypedLiteral :=
  b ← cache !! input;
  ty ← type_at t input;
  if negb (is_scalar ty) then None
  else if negb (Z.land (bmask b) (mask ty) =? mask ty) then None
  else value ← carrier_bits t input (bvalue b); value ← value; Some (mkTyped ty (lit value)).

Definition expression_constant (cache : gmap nat Bits) (result : Ty) (e : Expression nat)
    (component : nat) : option Z :=
  constants ← try_map (known_literal cache) e;
  literal ← constant_result constants result component;
  scalar literal result.

(** The last part of the loop: every input is in the cache. *)
Definition infer (f : ScalarFacts) (cache : gmap nat Bits) (result : Ty) (e : Expression nat)
    (component : nat) (known : Bits) : option Bits :=
  _ ← mapM (fun input => cache !! input) (inputs e);
  b ← expression_bits cache result e;
  comparison ← expression_comparison f cache e;
  let b := match comparison with Some truth => mkBits 1 (Z.b2z truth) | None => b end in
  let b := match expression_constant cache result e component with
           | Some value => mkBits (mask result) value
           | None => b
           end in
  Some (restrict (bits_union b known) (mask result)).

(** One pass of the loop on the entry [(id, ready)]: the cache and the entries
    pushed, the last one first. First, what it does for an expression. *)
Definition expression_visit (f : ScalarFacts) (cache : gmap nat Bits) (id : nat) (ready : bool)
    (result_type : Ty) (result : ExpressionResult) (known : Bits) : option (gmap nat Bits * list (nat * bool)) :=
  let insert b := Some (<[id := b]> cache, []) in
  let e := er_expression result in
  truth ← match e with
          | EBinary (Compare (CmpInteger operator)) l r => comparisons_get t (comparisons f) operator l r
          | _ => Some None
          end;
  let expand :=
    if ready then b ← infer f cache result_type e (er_component result) known; insert b
    else Some (cache, rev ((fun input => (input, false)) <$> inputs e) ++ [(id, true)]) in
  match truth with
  | Some truth => insert (mkBits 1 (Z.b2z truth))
  | None =>
      match e with
      | ETernary Select when_true when_false condition =>
          match cache !! condition with
          | None => Some (cache, [(condition, false); (id, false)])
          | Some c =>
              if negb (Z.land (bmask c) 1 =? 0) then
                let input := if negb (Z.land (bvalue c) 1 =? 0) then when_true else when_false in
                match cache !! input with
                | Some b => insert (restrict (bits_union b known) (mask result_type))
                | None => Some (cache, [(input, false); (id, false)])
                end
              else expand
          end
      | _ => expand
      end
  end.

Definition bits_visit (f : ScalarFacts) (cache : gmap nat Bits) (id : nat) (ready : bool)
    : option (gmap nat Bits * list (nat * bool)) :=
  let insert b := Some (<[id := b]> cache, []) in
  match cache !! id with
  | Some _ => Some (cache, [])
  | None =>
      v ← value_at t id;
      if negb (is_scalar (ty v)) then insert no_bits
      else
        known ← known_bits f id;
        match scalar_literal v with
        | Some b => insert (mkBits (mask (ty v)) (normalize (ty v) b))
        | None =>
            if bmask known =? mask (ty v) then insert known
            else
              result ← expression_of t id;
              match result with
              | None => insert known
              | Some result => expression_visit f cache id ready (ty v) result known
              end
        end
  end.

Definition bits_step (f : ScalarFacts) (s : gmap nat Bits * list (nat * bool))
    : (gmap nat Bits * list (nat * bool)) + option (gmap nat Bits) :=
  let '(cache, pending) := s in
  match pending with
  | [] => inr (Some cache)
  | (id, ready) :: pending =>
      match bits_visit f cache id ready with
      | None => inr None
      | Some (cache, pushed) => inl (cache, pushed ++ pending)
      end
  end.

(** Rounds that are enough to visit [id]: a round pushes at most five entries,
    and inputs are earlier values. *)
Definition visit_fuel (id : nat) : positive := Pos.pow 8 (Pos.of_succ_nat (S id)).

Definition bits_of (root : nat) : FM Bits := fun f =>
  match computed f !! root with
  | Some b => Some (b, f)
  | None =>
      match repeat_until (bits_step f) (visit_fuel root) (computed f, [(root, false)]) with
      | inr (Some cache) => b ← cache !! root; Some (b, set_computed cache f)
      | _ => None
      end
  end.

(** *** facts.rs: constants *)

Definition inferred_constant (id : nat) : FM (option Z) := fun f =>
  ty ← type_at t id;
  if negb (is_scalar ty) then Some (None, f)
  else
    '(b, f) ← bits_of id f;
    Some (if Z.land (bmask b) (mask ty) =? mask ty then Some (Z.land (bvalue b) (mask ty)) else None, f).

Definition constant (id : nat) : FM (option Z) := fun f =>
  v ← value_at t id;
  if negb (is_scalar (ty v)) then Some (None, f)
  else
    match scalar_literal v with
    | Some b => Some (Some b, f)
    | None =>
        if bool_decide (known f = ∅) && bool_decide (lanes f = None)
           && bool_decide (ranges f = ∅) && bool_decide (comparisons f = ∅)
        then Some (None, f)
        else inferred_constant id f
    end.

Definition bitwise_identity (id : nat) : FM (option nat) := fun f =>
  v ← value_at t id;
  match definition v with
  | DExpression (EBinary (Bitwise operator) l r) =>
      if negb (is_scalar (ty v)) || bool_decide (operator = Xor) then Some (None, f)
      else
        let m := mask (carrier (ty v)) in
        '(a, f) ← bits_of l f;
        '(b, f) ← bits_of r f;
        bl ← bounds_at t l;
        br ← bounds_at t r;
        let left_zeros := Z.lor (Z.land (bmask a) (bnot 64 (bvalue a)))
                                (Z.land m (bnot 64 (low_mask (unsigned bl)))) in
        let right_zeros := Z.lor (Z.land (bmask b) (bnot 64 (bvalue b)))
                                 (Z.land m (bnot 64 (low_mask (unsigned br)))) in
        let within x y := Z.land (Z.land m (bnot 64 x)) (bnot 64 y) =? 0 in
        Some (match operator with
              | Or => if within right_zeros (bvalue a) then Some l
                      else if within left_zeros (bvalue b) then Some r else None
              | _ => if within (bvalue b) left_zeros then Some l
                     else if within (bvalue a) right_zeros then Some r else None
              end, f)
  | _ => Some (None, f)
  end.

(** *** range.rs: assumptions *)

Definition assume_nonzero (input : nat) : FM unit := fun f =>
  '(b, f) ← bits_of input f;
  r ← range f input b;
  match r with
  | Some r => restrict_range input (mkRange 1 (maximum r)) f
  | None => Some (tt, f)
  end.

Definition assume_comparison (operator : CompareOp) (left right : nat) (truth : bool) : FM unit := fun f =>
  if negb (match operator with LtUnsigned | GeUnsigned => true | _ => false end) then Some (tt, f)
  else
    '(ba, f) ← bits_of left f;
    a ← range f left ba;
    '(bb, f) ← bits_of right f;
    b ← range f right bb;
    left_type ← type_at t left;
    right_type ← type_at t right;
    match a, b with
    | Some a, Some b =>
        if negb (Bool.eqb truth (bool_decide (operator = LtUnsigned))) then
          '(_, f) ← restrict_range left (mkRange (minimum b) (mask left_type)) f;
          restrict_range right (mkRange 0 (maximum a)) f
        else
          '(_, f) ← (if 1 <=? maximum b then restrict_range left (mkRange 0 (maximum b - 1)) f
                     else Some (tt, f));
          (if minimum a <? Z.ones 64 then restrict_range right (mkRange (minimum a + 1) (mask right_type)) f
           else Some (tt, f))
    | _, _ => Some (tt, f)
    end.

(** [Comparisons::assume]: a lower bound for the values it may change. *)
Definition comparisons_assume (operator : CompareOp) (left right : nat) (truth : bool)
    : FM (option nat) := fun f =>
  '(key, inverted) ← canonical t operator left right;
  match comparisons f !! key with
  | Some _ => Some (None, f)
  | None =>
      Some (Some (Nat.max (c_left key) (c_right key)),
            set_comparisons (<[key := xorb truth inverted]> (comparisons f)) f)
  end.

(** *** assume.rs *)

Definition assume_bits (id : nat) (m value : Z) : FM unit := fun f =>
  previous ← known_bits f id;
  let b := mkBits m (Z.land value m) in
  if negb (conflicts previous b) && beyond (bmask b) (bmask previous)
  then record id (bits_union previous b) f
  else Some (tt, f).

Definition truth_bits (truth : bool) : Bits := mkBits 1 (Z.b2z truth).

(** What learning [b] about an expression says of its inputs, in the order of
    the pushes. *)
Definition assume_expression (id : nat) (b : Bits) (e : Expression nat) : FM (list (nat * Bits)) := fun f =>
  match e with
  | EUnary operator input =>
      ty ← type_at t input;
      match operator with
      | Convert => Some ([(input, b)], f)
      | LowBits width => Some ([(input, restrict b (low_mask width))], f)
      | ZeroTest nonzero =>
          if Z.land (bmask b) 1 =? 0 then Some ([], f)
          else
            let is_zero := negb (Bool.eqb (negb (Z.land (bvalue b) 1 =? 0)) nonzero) in
            bb ← bounds_at t input;
            if is_zero then Some ([(input, mkBits (mask ty) 0)], f)
            else if bool_decide (ty = I1) || (unsigned bb <=? 1)
            then Some ([(input, mkBits (mask ty) 1)], f)
            else '(_, f) ← assume_nonzero input f; Some ([], f)
      | _ => Some ([], f)
      end
  | EBinary (Compare (CmpInteger operator)) l r =>
      let truth := negb (bvalue b =? 0) in
      '(first, f) ← comparisons_assume operator l r truth f;
      let f := match first with Some first => changed first f | None => f end in
      '(_, f) ← assume_comparison operator l r truth f;
      if (bool_decide (operator = CEq) || bool_decide (operator = CNe))
         && negb (Z.land (bmask b) 1 =? 0)
         && Bool.eqb (negb (Z.land (bvalue b) 1 =? 0)) (bool_decide (operator = CEq))
      then
        '(br, f) ← bits_of r f;
        '(bl, f) ← bits_of l f;
        Some ([(l, br); (r, bl)], f)
      else Some ([], f)
  | EBinary (Bitwise Or) l r =>
      let zeros := mkBits (Z.land (bmask b) (bnot 64 (bvalue b))) 0 in
      Some ([(l, zeros); (r, zeros)], f)
  | EBinary (Bitwise And) l r =>
      let ones := mkBits (bvalue b) (bvalue b) in
      '(br, f) ← bits_of r f;
      '(bl, f) ← bits_of l f;
      Some ([(l, ones); (r, ones); (l, restrict b (bvalue br)); (r, restrict b (bvalue bl))], f)
  | ETernary Select when_true when_false condition =>
      '(c, f) ← constant condition f;
      '(truth, f) ← match c with
                    | Some value => Some (Some (negb (value =? 0)), f)
                    | None =>
                        '(bt, f) ← bits_of when_true f;
                        if conflicts bt b then Some (Some false, f)
                        else
                          '(bf, f) ← bits_of when_false f;
                          Some (if conflicts bf b then Some true else None, f)
                    end;
      Some (match truth with
            | Some truth => [(condition, truth_bits truth); (if truth then when_true else when_false, b)]
            | None => []
            end, f)
  | _ => Some ([], f)
  end.

(** One pass of the loop of [assume]: the requests it pushes. *)
Definition assume_visit (id : nat) (b : Bits) : FM (list (nat * Bits)) := fun f =>
  v ← value_at t id;
  let b := restrict b (mask (ty v)) in
  if bmask b =? 0 then Some ([], f)
  else
    known ← known_bits f id;
    if conflicts known b || negb (beyond (bmask b) (bmask known)) then Some ([], f)
    else
      '(previous, f) ← bits_of id f;
      if conflicts previous b || negb (beyond (bmask b) (bmask previous)) then Some ([], f)
      else
        let b := bits_union previous b in
        '(_, f) ← record id b f;
        c ← constraints_track t id b (constraints f);
        let f := set_constraints c f in
        match definition v with
        | DExpression e => assume_expression id b e f
        | _ => Some ([], f)
        end.

Definition assume_step (s : ScalarFacts * list (nat * Bits))
    : (ScalarFacts * list (nat * Bits)) + option ScalarFacts :=
  let '(f, pending) := s in
  match pending with
  | [] => inr (Some f)
  | (id, b) :: pending =>
      match assume_visit id b f with
      | None => inr None
      | Some (pushed, f) => inl (f, rev pushed ++ pending)
      end
  end.

Definition assume (condition : nat) (truth : bool) : FM unit := fun f =>
  match repeat_until assume_step (visit_fuel condition) (f, [(condition, truth_bits truth)]) with
  | inr (Some f) => Some (tt, f)
  | _ => None
  end.

(** *** constraints.rs: propagation *)

(** What the other operand's value decides about one. *)
Definition constraint_infer (operator : BitwiseOp) (truth other : bool) : option bool :=
  match operator with
  | And => if other then Some truth else None
  | Or => if negb other then Some truth else None
  | Xor => Some (xorb truth other)
  end.

Definition clear_active (index : nat) (f : ScalarFacts) : ScalarFacts :=
  let c := constraints f in
  set_constraints (mkConstraints (roots c) (Z.land (active c) (bnot 64 (Z.shiftl 1 (Z.of_nat index)))) (revisit_from c)) f.

(** One tracked constraint. *)
Definition check_constraint (index id : nat) : FM unit := fun f =>
  result ← expression_of t id;
  match er_expression <$> result with
  | Some (EBinary (Bitwise operator) l r) =>
      b ← known f !! id;
      let truth := negb (Z.land (bvalue b) 1 =? 0) in
      '(a, f) ← constant l f;
      '(b, f) ← constant r f;
      let bit (v : Z) := negb (Z.land v 1 =? 0) in
      let a := bit <$> a in
      let b := bit <$> b in
      match a, b with
      | None, None => Some (tt, f)
      | _, _ =>
          let f := clear_active index f in
          let infer input (own other : option bool) : FM unit := fun f =>
            match own, other ≫= constraint_infer operator truth with
            | None, Some truth => assume input truth f
            | _, _ => Some (tt, f)
            end in
          '(_, f) ← infer l a b f;
          infer r b a f
      end
  | _ => None
  end.

(** The inner loop: the lowest pending root first. Each round removes one. *)
Fixpoint propagate_pass (fuel : nat) (from : nat) (pending : Z) (remaining : nat)
    : FM (Z * nat) := fun f =>
  match fuel with
  | O => Some ((pending, remaining), f)
  | S fuel =>
      if (pending =? 0) || Nat.eqb remaining 0 then Some ((pending, remaining), f)
      else
        let index := Z.to_nat (trailing_zeros 64 pending) in
        let pending := Z.land pending (pending - 1) in
        let remaining := pred remaining in
        id ← roots (constraints f) !! index;
        '(_, f) ← (if (id <? from)%nat then Some (tt, f) else check_constraint index id f);
        propagate_pass fuel from pending remaining f
  end.

(** The outer loop; a pass with active roots uses up at least one check. *)
Fixpoint propagate_loop (fuel : nat) (remaining : nat) : FM unit := fun f =>
  match fuel with
  | O => None
  | S fuel =>
      match revisit_from (constraints f) with
      | None => Some (tt, f)
      | Some from =>
          if Nat.eqb remaining 0 then Some (tt, f)
          else
            let c := constraints f in
            let f := set_constraints (mkConstraints (roots c) (active c) None) f in
            '(rest, f) ← propagate_pass remaining from (active c) remaining f;
            let '(pending, remaining) := rest in
            let c := constraints f in
            let f := if pending =? 0 then f
                     else set_constraints (mkConstraints (roots c) (active c) (Some 0%nat)) f in
            propagate_loop fuel remaining f
      end
  end.

Definition propagate_constraints : FM unit :=
  propagate_loop (S (S MAX_CONSTRAINT_CHECKS)) MAX_CONSTRAINT_CHECKS.

(** *** facts.rs: contexts *)

Definition observe (o : Assumption) : FM unit :=
  match o with
  | Truth condition truth => assume condition truth
  | KnownBits value m b => assume_bits value m b
  end.

Fixpoint observe_all (observations : list Assumption) : FM unit :=
  match observations with
  | [] => mret tt
  | o :: observations => observe o ≫= fun _ => observe_all observations
  end.

Definition with_assumptions (observations : list Assumption) : FM unit :=
  observe_all observations ≫= fun _ => propagate_constraints.

(** [a.conflicts_with(b)], over the state of [b]. The scalar facts are tried in
    the order of the map, which [entries] lists. *)
Fixpoint any_conflict (entries : list (nat * Bits)) : FM bool :=
  match entries with
  | [] => mret false
  | (id, b) :: entries =>
      bits_of id ≫= fun other => if conflicts b other then mret true else any_conflict entries
  end.

Definition lanes_conflict (a : gmap VectorWord Bits) (b : option (gmap VectorWord Bits)) : option bool :=
  results ← mapM (fun '(w, bits) => other ← word_bits t w b; Some (conflicts bits other)) (map_to_list a);
  Some (existsb id results).

Definition conflicts_with (entries : list (nat * Bits)) (a : ScalarFacts) : FM bool := fun f =>
  '(scalar, f) ← any_conflict entries f;
  if scalar : bool then Some (true, f)
  else
    lane ← match lanes a with Some words => lanes_conflict words (lanes f) | None => Some false end;
    Some (lane, f).

(** *** merge.rs *)

Definition retain_bits {K} `{Countable K} (other own : gmap K Bits) : gmap K Bits :=
  map_imap (fun key b =>
    let b := common b (default no_bits (other !! key)) in
    if bmask b =? 0 then None else Some b) own.

Definition retain_ranges (other own : gmap nat Range) : gmap nat Range :=
  map_imap (fun key r =>
    (fun o => mkRange (Z.min (minimum r) (minimum o)) (Z.max (maximum r) (maximum o))) <$> other !! key) own.

Definition retain_outcomes (other own : gmap Comparison bool) : gmap Comparison bool :=
  map_imap (fun key truth => if bool_decide (other !! key = Some truth) then Some truth else None) own.

Definition retain_common (other f : ScalarFacts) : ScalarFacts :=
  let known := retain_bits (known other) (known f) in
  let lanes :=
    match lanes f, lanes other with
    | Some own, Some other =>
        let words := retain_bits other own in
        if bool_decide (words = ∅) then None else Some words
    | _, _ => None
    end in
  mkFacts known lanes (retain_ranges (ranges other) (ranges f))
    (retain_outcomes (comparisons other) (comparisons f))
    (retain_known known (constraints f)) ∅.

(** [reduce(Bits::common).unwrap_or_default()]. *)
Definition common_all (l : list Bits) : Bits :=
  match l with [] => no_bits | b :: l => foldl common b l end.

(** What the incoming paths' own inference caches gain is not part of the result. *)
Definition argument_bits (incoming : list (ScalarFacts * nat)) : option (list Bits) :=
  mapM (fun '(f, argument) => fst <$> bits_of argument f) incoming.

Definition argument_words (half : Z) (incoming : list (ScalarFacts * nat)) : option (list Bits) :=
  mapM (fun '(f, argument) => w ← word_new t argument half; word_bits t w (lanes f)) incoming.

(** Whether a word was recorded. *)
Definition merge_word (parameter : nat) (half : Z) (incoming : list (ScalarFacts * nat)) : FM bool := fun f =>
  words ← argument_words half incoming;
  let b := common_all words in
  if bmask b =? 0 then Some (false, f)
  else
    w ← word_new t parameter half;
    Some (true, set_lanes (Some (lane_record (default ∅ (lanes f)) w b)) f).

Fixpoint merge_words (parameter : nat) (halves : list Z) (incoming : list (ScalarFacts * nat)) : FM bool :=
  match halves with
  | [] => mret false
  | half :: halves =>
      merge_word parameter half incoming ≫= fun recorded =>
      merge_words parameter halves incoming ≫= fun more => mret (recorded || more)
  end.

Definition merge_parameter (parameter : nat) (incoming : list (ScalarFacts * nat)) : FM unit := fun f =>
  ty ← type_at t parameter;
  if negb (is_scalar ty) then
    '(recorded, f) ← merge_words parameter (Z.of_nat <$> seq 0 (Z.to_nat (bits ty / 64))) incoming f;
    Some (tt, if recorded : bool then changed parameter f else f)
  else
    words ← argument_bits incoming;
    let b := restrict (common_all words) (mask ty) in
    if bmask b =? 0 then Some (tt, f) else assume_bits parameter (bmask b) (bvalue b) f.

(** The arguments one parameter takes on the incoming edges. *)
Definition component_arguments (incoming : list (ScalarFacts * list nat)) (component : nat)
    : option (list (ScalarFacts * nat)) :=
  mapM (fun '(f, arguments) => argument ← arguments !! component; Some (f, argument)) incoming.

Fixpoint merge_parameters (parameters : list nat) (component : nat)
    (incoming : list (ScalarFacts * list nat)) : FM unit := fun f =>
  match parameters with
  | [] => Some (tt, f)
  | parameter :: parameters =>
      arguments ← component_arguments incoming component;
      '(_, f) ← merge_parameter parameter arguments f;
      merge_parameters parameters (S component) incoming f
  end.

Definition join (parameters : list nat) (incoming : list (ScalarFacts * list nat)) : option ScalarFacts :=
  match incoming with
  | [] => Some no_facts
  | (first, _) :: rest =>
      let joined := foldl (fun joined '(f, _) => retain_common f joined) (facts_clone first) rest in
      '(_, joined) ← merge_parameters parameters 0 incoming joined;
      '(_, joined) ← propagate_constraints joined;
      Some joined
  end.

(** *** selects.rs *)

Definition MAX_VALUES : nat := 32.
Definition MAX_PROOF_STEPS : nat := 8.

Definition count_use (condition : nat) (conditions : list (nat * nat)) : list (nat * nat) :=
  match list_find (fun e => e.1 = condition) conditions with
  | Some (index, (id, uses)) => <[index := (id, S uses)]> conditions
  | None => conditions ++ [(condition, 1%nat)]
  end.

Record Discovery := mkDiscovery { pending : list nat; visited : list nat; found : list (nat * nat) }.

(** One pass of the search; [inr None] gives up. *)
Definition select_step (f : ScalarFacts) (s : Discovery) : Discovery + option (option (list (nat * nat))) :=
  match pending s with
  | [] => inr (Some (Some (found s)))
  | id :: rest =>
      if bool_decide (id ∈ visited s) then inl (mkDiscovery rest (visited s) (found s))
      else if Nat.eqb (length (visited s)) MAX_VALUES then inr (Some None)
      else
        match value_at t id, expression_of t id with
        | Some v, Some result =>
            let visited := visited s ++ [id] in
            let literal := match definition v with DLiteral _ => true | _ => false end in
            let settled := bool_decide (bmask <$> known f !! id = Some (mask (ty v))) in
            if literal || settled then inl (mkDiscovery rest visited (found s))
            else
              match er_expression <$> result with
              | None => inl (mkDiscovery rest visited (found s))
              | Some (ETernary Select when_true when_false condition) =>
                  inl (mkDiscovery ([when_false; when_true; condition] ++ rest) visited
                        (count_use condition (found s)))
              | Some e => inl (mkDiscovery (rev (inputs e) ++ rest) visited (found s))
              end
        | _, _ => inr None
        end
  end.

(** [sort_unstable_by_key(Reverse(uses), id)], by insertion; keys are distinct. *)
Definition before (a b : nat * nat) : bool := (b.2 <? a.2)%nat || ((a.2 =? b.2)%nat && (a.1 <? b.1)%nat).
Fixpoint insert_condition (e : nat * nat) (l : list (nat * nat)) : list (nat * nat) :=
  match l with
  | [] => [e]
  | x :: l => if before e x then e :: x :: l else x :: insert_condition e l
  end.
Definition sort_conditions (l : list (nat * nat)) : list (nat * nat) := foldr insert_condition [] l.

(** At most [MAX_VALUES] values are expanded, into three entries each. *)
Definition select_inputs (f : ScalarFacts) (root : nat) : option (option (list nat)) :=
  match repeat_until (select_step f) 128 (mkDiscovery [root] [] []) with
  | inr (Some (Some found)) =>
      Some (Some (fst <$> sort_conditions (filter (fun e => (1 < e.2)%nat) found)))
  | inr (Some None) => Some None
  | _ => None
  end.

(** The result and the proof steps that remain. *)
Fixpoint prove_select_cases (root : nat) (conditions : list nat) (remaining : nat)
    : FM (option Z * nat) := fun f =>
  match remaining with
  | O => Some ((None, O), f)
  | S remaining =>
      '(value, f) ← inferred_constant root f;
      match value with
      | Some value => Some ((Some value, remaining), f)
      | None =>
          match conditions with
          | [] => Some ((None, remaining), f)
          | condition :: rest =>
              '(c, f) ← inferred_constant condition f;
              match c with
              | Some _ => prove_select_cases root rest remaining f
              | None =>
                  let case truth remaining :=
                    '(_, g) ← with_assumptions [Truth condition truth] (facts_clone f);
                    fst <$> prove_select_cases root rest remaining g in
                  '(a, remaining) ← case false remaining;
                  match a with
                  | None => Some ((None, remaining), f)
                  | Some _ =>
                      '(b, remaining) ← case true remaining;
                      match b with
                      | None => Some ((None, remaining), f)
                      | Some _ => Some ((if decide (a = b) then a else None, remaining), f)
                      end
                  end
              end
          end
      end
  end.

Definition constant_across_selects (root : nat) : FM (option Z) := fun f =>
  v ← value_at t root;
  bb ← bounds_at t root;
  let combination := match definition v with DExpression (EBinary (Bitwise _) _ _) => true | _ => false end in
  if negb (bool_decide (ty v = I1)) || (1 <? unsigned bb) || negb combination then Some (None, f)
  else
    conditions ← select_inputs f root;
    match conditions with
    | None => Some (None, f)
    | Some conditions =>
        '(value, f) ← inferred_constant root f;
        match value with
        | Some value => Some (Some value, f)
        | None =>
            match conditions with
            | [] => Some (None, f)
            | _ => '(r, f) ← prove_select_cases root conditions MAX_PROOF_STEPS f; Some (fst r, f)
            end
        end
    end.

End Facts.
