(* ===== verification/Fold.v ===== *)
(** * Expression folding

    crates/compiler/src/expression/fold.rs and fold/*.rs: carrier-preserving
    rewrites over the stored values. The methods of [Folder] call [fold_result]
    recursively; they are written here over that call, [rec], and [fold_result]
    below closes the recursion with fuel. Methods on [&self] are functions of
    the table, methods on [&mut self] are table computations. *)

From S2P Require Import Prelude Bytes Types Floating Expr Evaluate Values.
Local Open Scope Z_scope.

Definition expr_literals (t : ValueTable) (e : Expression nat) : option (option (Expression TypedLiteral)) :=
  (** A panic on an id out of range, then [Err(())] on a value that is no literal. *)
  vs ← try_map (value_at t) e;
  Some (try_map (fun v => match definition v with
                          | DLiteral b => Some (mkTyped (ty v) b)
                          | _ => None
                          end) vs).

Definition vector_literal (t : ValueTable) (input : nat) : option (option Z) :=
  d ← definition_at t input;
  Some (match d with DLiteral b => Some (lit_u128 b) | _ => None end).

(** Scalar literal of an operand's representation, as most rewrites match it. *)
Definition literal_of (t : ValueTable) (id : nat) : T (option Z) := reads (fun t => scalar_at t id).

Definition read_type (id : nat) : T Ty := reads (fun t => type_at t id).
Definition read_definition (id : nat) : T ValueDefinition := reads (fun t => definition_at t id).
Definition read_bounds (id : nat) : T BitBounds := reads (fun t => bounds_at t id).
Definition read_scalar (id : nat) : T (option Z) := reads (fun t => scalar_at t id).
Definition read_representation (id : nat) : T nat := reads (fun t => representation t id).

(** [intern_result] and [intern]. *)
Definition intern_result (ty : Ty) (e : Expression nat) (component : nat) : T nat :=
  id ← intern (mkValue ty (DExpression e));
  id ← reads (fun t => expression_result t id component);
  b ← read_bounds id;
  if unsigned b =? 0 then literal ty (lit 0) else mret id.
Definition intern_expression (ty : Ty) (e : Expression nat) : T nat := intern_result ty e 0.

(** ** Read-only methods *)

(** fold/arithmetic.rs *)
Definition constant_offset (t : ValueTable) (input : nat) : option (option (nat * Z)) :=
  d ← definition_at t input;
  match d with
  | DExpression (EBinary (Integer Add) l r) =>
      s ← scalar_at t r; Some (option_map (fun offset => (l, offset)) s)
  | _ => Some None
  end.

(** fold/bits.rs *)
Record MaskedBits := mkMasked { mb_input : nat; mb_mask : Z }.

Definition masked_bits (t : ValueTable) (input : nat) : option MaskedBits :=
  input ← representation t input;
  v ← value_at t input;
  let whole := (input, mask (carrier (ty v))) in
  '(input, m) ← match definition v with
    | DExpression (EUnary (LowBits count) input) => Some (input, low_mask count)
    | DExpression (EBinary (Bitwise And) l r) =>
        a ← scalar_at t l;
        b ← scalar_at t r;
        Some match a, b with
             | _, Some mask => (l, mask)
             | Some mask, _ => (r, mask)
             | _, _ => whole
             end
    | _ => Some whole
    end;
  input ← representation t input;
  Some (mkMasked input m).

Definition restored_bits (t : ValueTable) (input : nat) : option MaskedBits :=
  kept ← masked_bits t input;
  d ← definition_at t (mb_input kept);
  match d with
  | DExpression (EShift (ShScalar ShlLeft) value count) =>
      ty ← type_at t (mb_input kept);
      let carrier_ := carrier ty in
      count ← scalar_at t count;
      match count with
      | None => Some kept
      | Some count =>
          let count := shift_count carrier_ (wrap 32 count) in
          shifted ← masked_bits t value;
          d ← definition_at t (mb_input shifted);
          match d with
          | DExpression (EShift (ShScalar RightUnsigned) value reverse) =>
              reverse ← scalar_at t reverse;
              match reverse with
              | None => Some kept
              | Some reverse =>
                  shifted_ty ← type_at t (mb_input shifted);
                  if negb (bool_decide (carrier shifted_ty = carrier_))
                     || negb (shift_count carrier_ (wrap 32 reverse) =? count)
                  then Some kept
                  else
                    source ← masked_bits t value;
                    Some (mkMasked (mb_input source)
                      (Z.land (mb_mask kept)
                         (Z.land (Z.land (wrap 64 (Z.shiftl (mb_mask shifted) count))
                                         (mb_mask source))
                                 (mask carrier_))))
              end
          | _ => Some kept
          end
      end
  | _ => Some kept
  end.

(** The loop of [fold_low_bits]: a literal base ends it with a value, otherwise
    the base and the accumulated offset remain. *)
Inductive LowBitsBase : Type :=
| LowLiteral (value offset : Z)
| LowBase (base : nat) (offset : Z).

Fixpoint low_bits_loop (fuel : nat) (t : ValueTable) (count : Z) (base : nat) (offset : Z)
    : option LowBitsBase :=
  match fuel with
  | O => None
  | S fuel =>
      let m := low_mask count in
      v ← value_at t base;
      let continue base := low_bits_loop fuel t count base offset in
      let break := Some (LowBase base offset) in
      let otherwise :=
        if bits (ty v) <? count then break
        else
          next ← constant_offset t base;
          match next with
          | None => break
          | Some (input, addend) =>
              low_bits_loop fuel t count input (Z.land (wrap 64 (offset + addend)) m)
          end in
      match scalar_literal v with
      | Some value => Some (LowLiteral value offset)
      | None =>
          match definition v with
          | DExpression (EUnary (LowBits kept) input) =>
              if count <=? kept then continue input else otherwise
          | DExpression (EUnary Convert input) =>
              source ← type_at t input;
              if (count <=? bits source) && bool_decide (carrier (ty v) = carrier source)
              then continue input else otherwise
          | DExpression (EBinary (Bitwise And) l r) =>
              a ← scalar_at t l;
              b ← scalar_at t r;
              match a, b with
              | _, Some mask => if trailing_ones 64 mask <? count then break else continue l
              | Some mask, _ => if trailing_ones 64 mask <? count then break else continue r
              | _, _ => break
              end
          | DExpression (EBinary (Bitwise (Or | Xor)) l r) =>
              a ← masked_bits t l;
              if Z.land (mb_mask a) m =? 0 then continue r
              else
                b ← masked_bits t r;
                if Z.land (mb_mask b) m =? 0 then continue l else break
          | _ => otherwise
          end
      end
  end.

(** fold/reinterpret.rs *)
Definition reinterpret_input (t : ValueTable) (input : nat) : option (option nat) :=
  d ← definition_at t input;
  Some (match d with DExpression (EUnary Reinterpret input) => Some input | _ => None end).

Definition common_reinterpret_type (t : ValueTable) (target : Ty) (e : Expression nat)
    : option (option Ty) :=
  match e with
  | EBinary (Bitwise _) l r =>
      a ← reinterpret_input t l;
      found ← match a with Some id => Some (Some id) | None => reinterpret_input t r end;
      match found with
      | None => Some None
      | Some id =>
          source ← type_at t id;
          if negb (is_integer source) || negb (bits source =? bits target) then Some None
          else
            let admits input :=
              d ← definition_at t input;
              match d with
              | DLiteral _ => Some true
              | _ =>
                  original ← reinterpret_input t input;
                  match original with
                  | None => Some false
                  | Some original => oty ← type_at t original; Some (bool_decide (oty = source))
                  end
              end in
            ok ← admits l;
            if ok : bool then ok ← admits r; Some (if ok : bool then Some source else None) else Some None
      end
  | _ => Some None
  end.

(** fold/comparisons.rs *)
Record ConstantComparison := mkComparison {
  cc_operator : CompareOp; cc_ty : Ty; cc_constant : Z; cc_first : bool }.

Definition cc_evaluate (c : ConstantComparison) (b : Z) : bool :=
  let b := normalize (cc_ty c) b in
  let constant := normalize (cc_ty c) (cc_constant c) in
  if cc_first c then int_compare (cc_ty c) (cc_operator c) constant b
  else int_compare (cc_ty c) (cc_operator c) b constant.

(** [compare_choices] threads the remaining work; [None] in the first component
    is [None] of the source, the outer [None] a panic. *)
Fixpoint compare_choices (fuel : nat) (t : ValueTable) (input : nat) (c : ConstantComparison)
    (remaining : nat) : option (option bool * nat) :=
  match fuel with
  | O => None
  | S fuel =>
      match remaining with
      | O => Some (None, O)
      | S remaining =>
          v ← value_at t input;
          match scalar_literal v with
          | Some b => Some (Some (cc_evaluate c b), remaining)
          | None =>
              match definition v with
              | DExpression (ETernary Select when_true when_false _) =>
                  '(a, remaining) ← compare_choices fuel t when_true c remaining;
                  match a with
                  | None => Some (None, remaining)
                  | Some a =>
                      '(b, remaining) ← compare_choices fuel t when_false c remaining;
                      match b with
                      | None => Some (None, remaining)
                      | Some b => Some (if Bool.eqb a b then Some a else None, remaining)
                      end
                  end
              | _ =>
                  b ← bounds_at t input;
                  if unsigned b <=? 1 then
                    let zero := cc_evaluate c 0 in
                    Some (if Bool.eqb zero (cc_evaluate c 1) then Some zero else None, remaining)
                  else Some (None, remaining)
              end
          end
      end
  end.

(** The budget of 32 values bounds the recursion. *)
Definition compare_budget : nat := 32.

Definition compare_constant_choices (t : ValueTable) (operator : CompareOp) (left right : nat)
    (ty : Ty) : option (option bool) :=
  a ← scalar_at t left;
  b ← scalar_at t right;
  let run input constant first :=
    fst <$> compare_choices (S compare_budget) t input (mkComparison operator ty constant first)
              compare_budget in
  match a, b with
  | _, Some constant => run left constant false
  | Some constant, _ => run right constant true
  | _, _ => Some None
  end.

Definition complementary_one (t : ValueTable) (predicate other : nat) : option bool :=
  d ← definition_at t predicate;
  match d with
  | DExpression (EUnary (ZeroTest nonzero) input) =>
      input ← representation t input;
      d ← definition_at t other;
      both ← match d with
             | DExpression (EUnary (ZeroTest other_nonzero) other_input) =>
                 other_input ← representation t other_input;
                 Some (Nat.eqb input other_input && negb (Bool.eqb nonzero other_nonzero))
             | _ => Some false
             end;
      if both : bool then Some true
      else
        b ← bounds_at t other;
        Some (negb nonzero && Nat.eqb input other && (unsigned b <=? 1))
  | _ => Some false
  end.

Definition complementary_predicates (t : ValueTable) (left right : nat) : option bool :=
  l ← representation t left;
  r ← representation t right;
  first ← complementary_one t l r;
  if first : bool then Some true else complementary_one t r l.

(** fold/shifts.rs *)
Definition fold_shift (t : ValueTable) (ty : Ty) (input count : nat) : option (option nat) :=
  c ← scalar_at t count;
  b ← bounds_at t input;
  let zero_count :=
    match c with Some bits_ => shift_count ty (wrap 32 bits_) =? 0 | None => false end in
  Some (if zero_count || (unsigned b =? 0) then Some input else None).

Definition fold_rotate (t : ValueTable) (ty : Ty) (input count : nat) : option (option nat) :=
  s ← scalar_at t input;
  let identity_input :=
    match s with
    | Some b => (b =? 0) || (b =? mask (carrier ty))
    | None => false
    end in
  folded ← fold_shift t ty input count;
  Some (match folded with
        | Some id => Some id
        | None => if identity_input : bool then Some input else None
        end).

(** fold/vector.rs; packed multiplication uses word or wider lanes. *)
Definition lane_ones (lane_type : Ty) : option Z :=
  match lane_type with
  | I16 => Some 0x00010001000100010001000100010001
  | I32 => Some 0x00000001000000010000000100000001
  | I64 => Some 0x00000000000000010000000000000001
  | _ => None
  end.

Definition fold_lane_shift (t : ValueTable) (value count : nat) (lane_type : Ty)
    : option (option nat) :=
  input ← representation t value;
  count ← representation t count;
  c ← scalar_at t count;
  x ← vector_literal t input;
  Some (if bool_decide (x = Some 0)
           || match c with Some c => c mod bits lane_type =? 0 | None => false end
        then Some value else None).

(** fold/lanes.rs *)
Definition shuffle_identity (t : ValueTable) (indices : list Z) (width : Z) (left right : nat)
    : option (option nat) :=
  l ← representation t left;
  r ← representation t right;
  let same := Nat.eqb l r in
  let identity half :=
    forallb (fun '(byte, index) =>
      (index <? width * 2) && (index mod width =? Z.of_nat byte)
      && ((index / width =? half) || same)) (imap (fun byte index => (byte, index)) indices) in
  Some (if identity 0 then Some left else if identity 1 then Some right else None).

(** The loop of [fold_extract_lane]. *)
Inductive ExtractBase : Type :=
| ExtractScalar (right : nat)
| ExtractFrom (lane : Z) (source : nat)
| ExtractBase_ (base : nat).

Fixpoint extract_lane_loop (fuel : nat) (t : ValueTable) (result : Ty) (lane : Z) (base : nat)
    : option ExtractBase :=
  match fuel with
  | O => None
  | S fuel =>
      let start := lane * bits result in
      d ← definition_at t base;
      match d with
      | DExpression (EBinary (ReplaceLane lane_type replaced) l r) =>
          let replaced_start := replaced * bits lane_type in
          if bool_decide (result = lane_type) && (lane =? replaced) then Some (ExtractScalar r)
          else if (start <? replaced_start + bits lane_type)
                  && (replaced_start <? start + bits result) then Some (ExtractBase_ base)
          else
            base ← representation t l; extract_lane_loop fuel t result lane base
      | DExpression (EBinary (ShuffleImmediate m) l r) =>
          let indices := mask_indices m in
          let width := bits result / 8 in
          let offset := Z.to_nat (lane * width) in
          first ← indices !! offset;
          if negb (first mod width =? 0)
             || negb (forallb (fun i => bool_decide (indices !! (offset + i)%nat = Some (first + Z.of_nat i)))
                              (seq 0 (Z.to_nat width)))
          then Some (ExtractBase_ base)
          else Some (ExtractFrom (first mod 16 / width) (if first <? 16 then l else r))
      | _ => Some (ExtractBase_ base)
      end
  end.

(** ** Rewrites

    [rec] is the recursive [fold_result]. *)

Section Folder.
Variable rec : Ty -> Expression nat -> nat -> T nat.

Definition fold (ty : Ty) (e : Expression nat) : T nat := rec ty e 0.

(** fold/arithmetic.rs: [add_constant]. Offsets are collected down the chain
    of constant additions; ids decrease along it. *)
Fixpoint offset_loop (fuel : nat) (t : ValueTable) (m : Z) (input : nat) (offset : Z)
    : option (nat * Z) :=
  match fuel with
  | O => None
  | S fuel =>
      next ← constant_offset t input;
      match next with
      | Some (base, previous) =>
          offset_loop fuel t m base (Z.land (wrap 64 (offset + previous)) m)
      | None => Some (input, offset)
      end
  end.

Definition add_constant (ty : Ty) (input : nat) (offset observed_bits : Z) : T nat :=
  let m := low_mask observed_bits in
  '(input, offset) ← reads (fun t => offset_loop (S input) t m input (Z.land offset m));
  if offset =? 0 then mret input
  else
    value ← read_scalar input;
    match value with
    | Some value => carrier_literal ty (lit (Z.land (wrap 64 (value + offset)) m))
    | None =>
        constant ← carrier_literal ty (lit offset);
        intern_expression ty (EBinary (Integer Add) input constant)
    end.

(** fold/bits.rs *)
Definition fold_low_bits (ty : Ty) (input : nat) (count : Z) : T nat :=
  if count =? 0 then literal ty (lit 0)
  else
    b ← read_bounds input;
    if unsigned b <=? count then mret input
    else
      let m := low_mask count in
      found ← reads (fun t => low_bits_loop (S input) t count input 0);
      match found with
      | LowLiteral value offset =>
          carrier_literal ty (lit (Z.land (wrap 64 (value + offset)) m))
      | LowBase base offset =>
          base_ty ← read_type base;
          base ← (if decide (base_ty = ty) then mret base else fold ty (EUnary Convert base));
          input ← add_constant ty base offset count;
          b ← read_bounds input;
          if unsigned b <=? count then mret input
          else intern_expression ty (EUnary (LowBits count) input)
      end.

Definition normalize_value (input : nat) : T nat :=
  ty ← read_type input;
  if decide (ty = V64) then
    b ← read_bounds input;
    if unsigned b <=? 64 then mret input
    else
      m ← literal ty (lit (Z.ones 64));
      fold ty (EBinary (Bitwise And) input m)
  else if negb (is_integer ty) then mret input
  else fold ty (EUnary (LowBits (bits ty)) input).

Definition convert_value (input : nat) (target : Ty) : T nat :=
  source ← read_type input;
  if decide (source = target) then mret input
  else
    input ← (if bits source <? bits target then normalize_value input else mret input);
    fold target (EUnary Convert input).

Definition sign_extend (input : nat) (input_type target : Ty) : T nat :=
  if decide (input_type = target) then
    ty ← read_type input;
    if decide (ty = target) then mret input else fold target (EUnary Convert input)
  else fold target (EUnary (SignExtend input_type) input).

Definition sign_extend_carrier (input : nat) : T nat :=
  ty ← read_type input;
  sign_extend input ty (carrier ty).

Definition fold_sign_extend (target input_type : Ty) (input : nat) : T (option nat) :=
  b ← read_bounds input;
  let canonical := signed b <=? bits input_type in
  if canonical && negb (bool_decide (target = I64)) then mret (Some input)
  else if canonical && negb (bool_decide (input_type = I32)) then
    alias ← fold I32 (EUnary Convert input);
    Some <$> fold target (EUnary (SignExtend I32) alias)
  else mret None.

Definition rejoin_bits (ty : Ty) (left right : nat) : T (option nat) :=
  l ← reads (fun t => restored_bits t left);
  r ← reads (fun t => restored_bits t right);
  if negb (Nat.eqb (mb_input l) (mb_input r)) then mret None
  else
    m ← carrier_literal ty (lit (Z.lor (mb_mask l) (mb_mask r)));
    Some <$> fold ty (EBinary (Bitwise And) (mb_input l) m).

(** fold/bitwise.rs *)
Definition and_constant (ty : Ty) (input : nat) (m : Z) : T (option nat) :=
  let count := trailing_ones 64 m in
  b ← read_bounds input;
  if unsigned b <=? count then mret (Some input)
  else if m =? low_mask count then Some <$> fold_low_bits ty input count
  else mret None.

(** One round of the loop of [fold_xor]; [None] continues it. *)
Definition xor_step (ty : Ty) (nested other : nat) : T (option nat) :=
  d ← read_definition nested;
  match d with
  | DExpression (EBinary (Bitwise Xor) inner_left inner_right) =>
      a ← read_representation inner_left;
      b ← read_representation inner_right;
      if Nat.eqb b other then mret (Some inner_left)
      else if Nat.eqb a other then mret (Some inner_right)
      else
        outer ← read_scalar other;
        match outer with
        | None => mret None
        | Some outer_mask =>
            x ← read_scalar a;
            y ← read_scalar b;
            let merge base inner_mask :=
              m ← carrier_literal ty (lit (Z.lxor inner_mask outer_mask));
              Some <$> fold ty (EBinary (Bitwise Xor) base m) in
            match x, y with
            | _, Some m => merge inner_left m
            | Some m, _ => merge inner_right m
            | _, _ => mret None
            end
        end
  | _ => mret None
  end.

Definition fold_xor (ty : Ty) (left right : nat) : T (option nat) :=
  first ← xor_step ty left right;
  match first with
  | Some r => mret (Some r)
  | None => xor_step ty right left
  end.

(** [x & (x & y)] and [x | (x | y)] keep the nested operand. *)
Definition absorbed (t : ValueTable) (operator : BitwiseOp) (input other : nat) : option bool :=
  r ← representation t input;
  d ← definition_at t r;
  match d with
  | DExpression (EBinary (Bitwise nested) inner_left inner_right) =>
      a ← representation t inner_left;
      b ← representation t inner_right;
      Some (bool_decide (nested = operator) && (Nat.eqb a other || Nat.eqb b other))
  | _ => Some false
  end.

Definition fold_bitwise (ty : Ty) (operator : BitwiseOp) (left right : nat) : T (option nat) :=
  a ← read_representation left;
  b ← read_representation right;
  x ← read_scalar a;
  y ← read_scalar b;
  masked ← (if decide (operator = And) then
              match x, y with
              | _, Some m => and_constant ty left m
              | Some m, _ => and_constant ty right m
              | _, _ => mret None
              end
            else mret None);
  if masked is Some id then mret (Some id) else
  rejoined ← (if bool_decide (operator = Or) && is_integer ty then rejoin_bits ty left right
              else mret None);
  if rejoined is Some id then mret (Some id) else
  complementary ← reads (fun t => complementary_predicates t left right);
  if complementary : bool then
    Some <$> carrier_literal ty (lit (Z.b2z (negb (bool_decide (operator = And)))))
  else
    let and_or :=
      if Nat.eqb a b then mret (Some left)
      else
        first ← reads (fun t => absorbed t operator left b);
        if first : bool then mret (Some left)
        else
          second ← reads (fun t => absorbed t operator right a);
          mret (if second : bool then Some right else None) in
    let full bits_ := bits_ =? mask (carrier ty) in
    match operator with
    | And => and_or
    | Or =>
        match x, y with
        | _, Some 0 => mret (Some left)
        | Some 0, _ => mret (Some right)
        | _, _ =>
            if from_option full false y then mret (Some right)
            else if from_option full false x then mret (Some left)
            else and_or
        end
    | Xor =>
        match x, y with
        | _, Some 0 => mret (Some left)
        | Some 0, _ => mret (Some right)
        | _, _ =>
            if Nat.eqb a b then Some <$> literal ty (lit 0) else fold_xor ty a b
        end
    end.

(** fold/arithmetic.rs *)
Definition fold_multiply_wide (is_signed : bool) (left right : nat) (component : nat)
    : T (option nat) :=
  lb ← read_bounds left;
  rb ← read_bounds right;
  let product_bits :=
    if is_signed then signed lb + signed rb else unsigned lb + unsigned rb in
  if (64 <? product_bits) && (1 <? unsigned lb) && (1 <? unsigned rb) then mret None
  else if Nat.eqb component 1 && negb is_signed then Some <$> literal I64 (lit 0)
  else
    low ← fold I64 (EBinary (Integer Mul) left right);
    if Nat.eqb component 0 then mret (Some low)
    else
      count ← literal I64 (lit 63);
      Some <$> fold I64 (EShift (ShScalar RightSigned) low count).

Definition fold_binary (ty : Ty) (operator : BinaryOp) (left right : nat) : T (option nat) :=
  a ← read_representation left;
  b ← read_representation right;
  x ← read_scalar a;
  y ← read_scalar b;
  let offset :=
    match operator, x, y with
    | Add, _, Some offset => Some (left, offset)
    | Add, Some offset, _ => Some (right, offset)
    | Sub, _, Some offset => Some (left, wrap 64 (0 - offset))
    | _, _, _ => None
    end in
  match offset with
  | Some (input, offset) => Some <$> add_constant ty input offset (bits (carrier ty))
  | None =>
      let otherwise :=
        match operator with
        | Mul =>
            if bool_decide (y = Some 1) then mret (Some left)
            else if bool_decide (x = Some 1) then mret (Some right)
            else if bool_decide (y = Some 0) || bool_decide (x = Some 0) then
              Some <$> literal ty (lit 0)
            else mret None
        | Sub => if Nat.eqb a b then Some <$> literal ty (lit 0) else mret None
        | _ => mret None
        end in
      match operator with
      | DivUnsigned | RemUnsigned =>
          lb ← read_bounds left;
          rb ← read_bounds right;
          if bool_decide (ty = I64) && (unsigned lb <=? 32) && (unsigned rb <=? 32) then
            l ← convert_value left I32;
            r ← convert_value right I32;
            Some <$> fold I32 (EBinary (Integer operator) l r)
          else otherwise
      | _ => otherwise
      end
  end.

(** fold/comparisons.rs *)
Definition fold_zero_test (input : nat) (nonzero : bool) : T (option nat) :=
  b ← read_bounds input;
  if nonzero && (unsigned b <=? 1) then mret (Some input)
  else
    d ← read_definition input;
    match d with
    | DExpression (EUnary (ZeroTest inner_nonzero) source) =>
        Some <$> fold I1 (EUnary (ZeroTest (if nonzero then inner_nonzero else negb inner_nonzero))
                            source)
    | DExpression (EUnary Convert source) =>
        sb ← read_bounds source;
        input_ty ← read_type input;
        if unsigned sb <=? bits (carrier input_ty) then
          Some <$> fold I1 (EUnary (ZeroTest nonzero) source)
        else mret None
    | _ => mret None
    end.

Definition is_ordered (operator : CompareOp) : bool :=
  match operator with CEq | GeUnsigned | GeSigned => true | _ => false end.

(** The equality test of [fold_compare] against a constant operand. *)
Definition fold_equality (operator : CompareOp) (input : nat) (m : Z) : T (option nat) :=
  let test nonzero := Some <$> fold I1 (EUnary (ZeroTest nonzero) input) in
  if m =? 0 then test (bool_decide (operator = CNe))
  else
    b ← read_bounds input;
    let one_bit := (m =? 1) && (unsigned b <=? 1) in
    r ← read_representation input;
    d ← read_definition r;
    masked_bit ← match d with
      | DExpression (EBinary (Bitwise And) l r) =>
          if is_power_of_two m then
            x ← read_scalar l;
            y ← read_scalar r;
            mret (bool_decide (x = Some m) || bool_decide (y = Some m))
          else mret false
      | _ => mret false
      end;
    if negb one_bit && negb masked_bit then mret None
    else test (bool_decide (operator = CEq)).

Definition fold_compare (operator : CompareOp) (left right : nat) : T (option nat) :=
  a ← read_representation left;
  b ← read_representation right;
  a_ty ← read_type a;
  choice ← reads (fun t => compare_constant_choices t operator a b (carrier a_ty));
  match choice with
  | Some result => Some <$> literal I1 (lit (Z.b2z result))
  | None =>
      if Nat.eqb a b then Some <$> literal I1 (lit (Z.b2z (is_ordered operator)))
      else
        x ← read_scalar a;
        y ← read_scalar b;
        let unsigned_order :=
          match operator with LtUnsigned | GeUnsigned => true | _ => false end in
        if unsigned_order && bool_decide (y = Some 0) then
          Some <$> literal I1 (lit (Z.b2z (bool_decide (operator = GeUnsigned))))
        else if unsigned_order && bool_decide (x = Some 0) then
          Some <$> fold I1 (EUnary (ZeroTest (bool_decide (operator = LtUnsigned))) right)
        else
          match operator with
          | CEq | CNe =>
              match x, y with
              | _, Some m => fold_equality operator left m
              | Some m, _ => fold_equality operator right m
              | _, _ => mret None
              end
          | _ => mret None
          end
  end.

(** fold/select.rs *)
Definition fold_select (condition when_true when_false : nat) : T (option nat) :=
  c ← read_scalar condition;
  match c with
  | Some 0 => mret (Some when_false)
  | Some _ => mret (Some when_true)
  | None =>
      a ← read_representation when_true;
      b ← read_representation when_false;
      if Nat.eqb a b then mret (Some when_true)
      else
        ty ← read_type when_true;
        if negb (is_integer ty) then mret None
        else
          x ← read_scalar when_true;
          y ← read_scalar when_false;
          let test nonzero := Some <$> fold I1 (EUnary (ZeroTest nonzero) condition) in
          if bool_decide (x = Some 1) && bool_decide (y = Some 0) then test true
          else if bool_decide (x = Some 0) && bool_decide (y = Some 1) then test false
          else mret None
  end.

(** fold/vector.rs *)
Definition fold_vector (ty : Ty) (operator : LaneBinaryOp) (lane_type : Ty) (left right : nat)
    : T (option nat) :=
  a ← read_representation left;
  b ← read_representation right;
  same ← (if Nat.eqb a b then
            match operator with
            | LSub | SubSatSigned | SubSatUnsigned | GtSigned => Some <$> literal ty (lit 0)
            | LEq => Some <$> carrier_literal ty (lit128 (Z.ones 128))
            | MinSigned | MinUnsigned | MaxSigned | MaxUnsigned | AverageUnsigned =>
                mret (Some left)
            | _ => mret None
            end
          else mret None);
  if same is Some id then mret (Some id) else
  x ← reads (fun t => vector_literal t a);
  y ← reads (fun t => vector_literal t b);
  let right_zero := if bool_decide (y = Some 0) then mret (Some left) else mret None in
  match operator with
  | LAdd | AddSatSigned | AddSatUnsigned =>
      if bool_decide (x = Some 0) then mret (Some right) else right_zero
  | LSub | SubSatSigned | SubSatUnsigned => right_zero
  | LMul | WideningMulLow _ | WideningMulHigh _ | DotI16Signed =>
      if bool_decide (x = Some 0) || bool_decide (y = Some 0) then Some <$> literal ty (lit 0)
      else if bool_decide (operator = LMul) && (bool_decide (is_Some x) || bool_decide (is_Some y))
      then
        ones ← reads (fun _ => lane_ones lane_type);
        if bool_decide (x = Some ones) then mret (Some right)
        else if bool_decide (y = Some ones) then mret (Some left)
        else mret None
      else mret None
  | _ => mret None
  end.

(** fold/lanes.rs *)
Definition fold_extract_lane (ty : Ty) (lane : Z) (input : nat) : T (option nat) :=
  start ← read_representation input;
  found ← reads (fun t => extract_lane_loop (S start) t ty lane start);
  match found with
  | ExtractScalar r => Some <$> fold_low_bits ty r (bits ty)
  | ExtractFrom lane source => Some <$> fold ty (EUnary (ExtractLane lane) source)
  | ExtractBase_ base =>
      if Nat.eqb base start then mret None
      else Some <$> fold ty (EUnary (ExtractLane lane) base)
  end.

Definition fold_replace_lane (ty lane_type : Ty) (lane : Z) (left right : nat) : T (option nat) :=
  scalar_ ← read_representation right;
  v ← reads (fun t => value_at t scalar_);
  restored ← match definition v with
    | DExpression (EUnary (ExtractLane extracted) input) =>
        if bool_decide (Values.ty v = lane_type) && (lane =? extracted) then
          a ← read_representation input;
          b ← read_representation left;
          mret (Nat.eqb a b)
        else mret false
    | _ => mret false
    end;
  if restored : bool then mret (Some left)
  else
    r ← read_representation left;
    d ← read_definition r;
    match d with
    | DExpression (EBinary (ReplaceLane previous_type previous) base _) =>
        if bool_decide (lane_type = previous_type) && (lane =? previous) then
          Some <$> fold ty (EBinary (ReplaceLane lane_type lane) base right)
        else mret None
    | _ => mret None
    end.

(** One operand of a shuffle: its two sources and the byte routing into them. *)
Definition shuffle_operand (input : nat) : T (bool * (nat * nat * list Z)) :=
  input ← read_representation input;
  d ← read_definition input;
  match d with
  | DExpression (EBinary (ShuffleImmediate inner) l r) =>
      a ← read_representation l;
      b ← read_representation r;
      mret (true, (a, b, mask_indices inner))
  | _ => mret (false, (input, input, Z.of_nat <$> seq 0 16))
  end.

(** Assign a slot to each source in order of use; [None] when a third appears. *)
Definition assign_slot (sources : option nat * option nat) (source : nat)
    : option (Z * (option nat * option nat)) :=
  match sources with
  | (Some a, b) =>
      if Nat.eqb a source then Some (0, sources)
      else match b with
           | Some b => if Nat.eqb b source then Some (1, sources) else None
           | None => Some (1, (Some a, Some source))
           end
  | (None, b) =>
      match b with
      | Some b => if Nat.eqb b source then Some (1, sources) else Some (0, (Some source, Some b))
      | None => Some (0, (Some source, None))
      end
  end.

Fixpoint compose_routes (first second : nat * nat * list Z) (indices : list Z)
    (sources : option nat * option nat) : option (option (list Z * (option nat * option nat))) :=
  match indices with
  | [] => Some (Some ([], sources))
  | index :: indices =>
      let '(a, b, inner) := if index / 16 =? 0 then first else second in
      byte ← inner !! Z.to_nat (index mod 16);
      match assign_slot sources (if byte / 16 =? 0 then a else b) with
      | None => Some None
      | Some (slot, sources) =>
          rest ← compose_routes first second indices sources;
          Some match rest with
               | None => None
               | Some (indices, sources) => Some (slot * 16 + byte mod 16 :: indices, sources)
               end
      end
  end.

Definition fold_shuffle (ty : Ty) (m : ShuffleMask) (left right : nat) : T (option nat) :=
  let indices := mask_indices m in
  whole ← reads (fun t => shuffle_identity t indices 16 left right);
  if whole is Some input then mret (Some input) else
  '(composed_l, l) ← shuffle_operand left;
  '(composed_r, r) ← shuffle_operand right;
  if negb (composed_l || composed_r) then mret None
  else
    routed ← reads (fun _ => compose_routes l r indices (None, None));
    match routed with
    | None => mret None
    | Some (indices, sources) =>
        first ← reads (fun _ => fst sources);
        let second := default first (snd sources) in
        whole ← reads (fun t => shuffle_identity t indices 16 first second);
        if whole is Some input then mret (Some input) else
        m ← reads (fun _ => mask_new indices);
        Some <$> intern_expression ty (EBinary (ShuffleImmediate m) first second)
    end.

(** fold/layout.rs *)
Definition fold_shuffle_bytes (ty input_type : Ty) (left right indices : nat) : T (option nat) :=
  selector ← reads (fun t => vector_literal t indices);
  match selector with
  | None => mret None
  | Some selector =>
      let indices := to_le_bytes 16 selector in
      let width := bits input_type / 8 in
      let has_left := existsb (fun index => index <? width) indices in
      let has_right := existsb (fun index => (width <=? index) && (index <? width * 2)) indices in
      let has_zero := existsb (fun index => width * 2 <=? index) indices in
      if negb has_left && negb has_right then Some <$> literal ty (lit 0)
      else
        l ← read_representation left;
        r ← read_representation right;
        let same := Nat.eqb l r in
        '(first, second, routed) ←
          (if negb has_left || negb has_right || same then
             let input := if has_left then left else right in
             other ← (if has_zero then literal V128 (lit 0) else mret input);
             mret (input, other,
                   (fun index => if index <? width * 2 then index mod width
                                 else Z.lor 16 (Z.land index 15)) <$> indices)
           else
             mret (left, right,
                   (fun index => if index <? width then index
                                 else if index <? width * 2 then 16 + index - width
                                 else 0) <$> indices));
        m ← reads (fun _ => mask_new routed);
        result ← fold ty (EBinary (ShuffleImmediate m) first second);
        if has_zero && has_left && has_right && negb same then
          let kept :=
            from_le_bytes ((fun index => if index <? width * 2 then 255 else 0) <$> indices) in
          m ← literal V128 (lit128 kept);
          Some <$> fold ty (EBinary (Bitwise And) result m)
        else mret (Some result)
  end.

Definition fold_swizzle (ty input_type : Ty) (input indices : nat) : T (option nat) :=
  x ← reads (fun t => vector_literal t input);
  if bool_decide (x = Some 0) then mret (Some input)
  else
    selector ← reads (fun t => vector_literal t indices);
    match selector with
    | None => mret None
    | Some selector =>
        let indices := to_le_bytes 16 selector in
        let width := bits input_type / 8 in
        if forallb (fun index => width <=? index) indices then Some <$> literal V128 (lit 0)
        else if (width =? 16) && bool_decide (indices = Z.of_nat <$> seq 0 16) then
          mret (Some input)
        else
          second ← (if existsb (fun index => width <=? index) indices then literal V128 (lit 0)
                    else mret input);
          m ← reads (fun _ => mask_new
                ((fun index => if index <? width then index else Z.lor 16 (Z.land index 15))
                 <$> indices));
          Some <$> fold ty (EBinary (ShuffleImmediate m) input second)
    end.

(** The lane a run of mask bits selects from a literal. *)
Definition run_type (run : Z) : option Ty :=
  if run =? 8 then Some I8
  else if run =? 16 then Some I16
  else if run =? 32 then Some I32
  else if run =? 64 then Some I64
  else None.

Definition fold_select_bits (ty : Ty) (m when_true when_false : nat) : T (option nat) :=
  if Nat.eqb when_true when_false then mret (Some when_true)
  else
    m ← reads (fun t => vector_literal t m);
    match m with
    | None => mret None
    | Some m =>
        if m =? 0 then mret (Some when_false)
        else if m =? Z.ones 128 then mret (Some when_true)
        else
          let offset := trailing_zeros 128 m in
          d ← read_definition when_true;
          selected ← match d with
            | DExpression (EUnary (Splat lane_type) input) => mret (Some (input, lane_type))
            | DLiteral b =>
                match run_type (trailing_ones 128 (Z.shiftr m offset)) with
                | None => mret None
                | Some lane_type =>
                    input ← literal lane_type (lit (wrap 64 (Z.shiftr (lit_u128 b) offset)));
                    mret (Some (input, lane_type))
                end
            | _ => mret None
            end;
          match selected with
          | None => mret None
          | Some (input, lane_type) =>
              if negb (offset mod bits lane_type =? 0)
                 || negb (m =? wrap 128 (Z.shiftl (mask lane_type) offset))
              then mret None
              else
                Some <$> fold ty (EBinary (ReplaceLane lane_type (offset / bits lane_type))
                                    when_false input)
          end
    end.

(** fold.rs: [fold_result] *)
Definition rewrite_unary (ty : Ty) (operator : UnaryOp) (input : nat) : T (option nat) :=
  match operator with
  | ZeroTest nonzero => fold_zero_test input nonzero
  | LowBits count => Some <$> fold_low_bits ty input count
  | SignExtend input_type => fold_sign_extend ty input_type input
  | ExtractLane lane => fold_extract_lane ty lane input
  | Convert =>
      v ← reads (fun t => value_at t input);
      if decide (Values.ty v = ty) then mret (Some input)
      else
        match definition v with
        | DExpression (EUnary Convert original) =>
            original_ty ← read_type original;
            if bool_decide (original_ty = ty)
               && (bits (carrier ty) <=? bits (carrier (Values.ty v)))
            then mret (Some original) else mret None
        | _ => mret None
        end
  | Reinterpret =>
      original ← reads (fun t => reinterpret_input t input);
      match original with
      | None => mret None
      | Some original =>
          original_ty ← read_type original;
          input_ty ← read_type input;
          if bool_decide (original_ty = ty) && (bits (carrier ty) <=? bits (carrier input_ty))
          then mret (Some original) else mret None
      end
  | _ => mret None
  end.

Definition rewrite (ty : Ty) (e : Expression nat) (component : nat) : T (option nat) :=
  match e with
  | EUnary operator input => rewrite_unary ty operator input
  | EBinary operator l r =>
      match operator with
      | Integer operator => fold_binary ty operator l r
      | Swizzle input_type => fold_swizzle ty input_type l r
      | Bitwise operator => fold_bitwise ty operator l r
      | Compare (CmpInteger operator) => fold_compare operator l r
      | Vector operator lane_type => fold_vector ty operator lane_type l r
      | ReplaceLane lane_type lane => fold_replace_lane ty lane_type lane l r
      | ShuffleImmediate m => fold_shuffle ty m l r
      | _ => mret None
      end
  | EShift operator value count =>
      reads (fun t => match operator with
        | ShScalar _ => fold_shift t ty value count
        | Rotate _ => fold_rotate t ty value count
        | Lanes _ lane_type => fold_lane_shift t value count lane_type
        end)
  | ETernary operator first second third =>
      match operator with
      | Select => fold_select third first second
      | Bitselect => fold_select_bits ty third first second
      | Shuffle input_type => fold_shuffle_bytes ty input_type first second third
      end
  | EMultiplyWide is_signed l r => fold_multiply_wide is_signed l r component
  end.

Definition fold_body (ty : Ty) (e : Expression nat) (component : nat) : T nat :=
  literals ← reads (fun t => expr_literals t e);
  match literals ≫= fun literals => carrier_result literals ty component with
  | Some b => carrier_literal ty b
  | None =>
      input ← rewrite ty e component;
      match input with
      | Some input =>
          input_ty ← read_type input;
          if decide (input_ty = ty) then mret input
          else intern_result ty (EUnary Convert input) component
      | None => intern_result ty e component
      end
  end.
End Folder.

(** [fold_result]: [None] is a panic or exhausted fuel. *)
Fixpoint fold_result (fuel : nat) : Ty -> Expression nat -> nat -> T nat :=
  match fuel with
  | O => fun _ _ _ => fail
  | S fuel => fold_body (fold_result fuel)
  end.

(** Every recursive call descends to an earlier value or to one of a few
    operations that do not recurse, so the table's size bounds the recursion. *)
Definition fold_fuel (t : ValueTable) : nat := length (values t) + 8.

(** [fold_carrier]. *)
Definition fold_carrier (ty : Ty) (e : Expression nat) (component : nat) : T nat :=
  fun t => fold_result (fold_fuel t) ty e component t.
