(* ===== verification/Model.v ===== *)
(** * The meaning of a value table

    Typing of carrier expressions, valuations of the stored values, and the
    well-formedness of a table: every stored definition is typed, refers to
    earlier values, and has bounds that every valuation respects. *)

From S2P Require Import Prelude Bytes Types Floating Expr Evaluate Values.
Local Open Scope Z_scope.

(** ** Typing

    The operand and result types an operator is defined for on carriers. *)

Definition is_vector (ty : Ty) : bool := negb (is_scalar ty).
Definition is_lane (ty : Ty) : bool := match ty with I8 | I16 | I32 | I64 => true | _ => false end.
Definition same_carrier (a b : Ty) : bool := bool_decide (carrier a = carrier b).

Definition lane_operator_ok (operator : LaneBinaryOp) (lane_type : Ty) : bool :=
  is_lane lane_type &&
  match operator with
  | LMul => negb (bool_decide (lane_type = I8))
  | WideningMulLow _ | WideningMulHigh _
  | MinSigned | MinUnsigned | MaxSigned | MaxUnsigned => negb (bool_decide (lane_type = I64))
  | DotI16Signed => bool_decide (lane_type = I16)
  | AverageUnsigned | AddSatSigned | AddSatUnsigned | SubSatSigned | SubSatUnsigned =>
      bits lane_type <=? 16
  | LAdd | LSub | LEq | GtSigned => true
  end.

Definition convertible (a ty : Ty) : bool :=
  bool_decide (a = ty) || (is_integer a && is_integer ty) || (is_vector a && is_vector ty).

Definition lane_in_vector (lane_type : Ty) (lane : Z) : bool :=
  (0 <=? lane) && ((lane + 1) * bits lane_type <=? 128).

Definition unary_typed (operator : UnaryOp) (a ty : Ty) : bool :=
  match operator with
  | UFloat _ => bool_decide (a = F64) && bool_decide (ty = F64)
  | FloatConvert _ => is_scalar a && is_scalar ty
  | UFloatVector _ _ | FloatVectorConvert _ => is_vector a && is_vector ty
  | PairwiseAddUnsigned lane_type => is_vector a && is_vector ty && (bits lane_type <=? 16) && is_lane lane_type
  | BitCount _ input_type =>
      is_integer a && is_integer ty && is_integer input_type
      && (bits input_type <=? bits (carrier a))
  | ExtractLane lane => is_vector a && is_lane ty && lane_in_vector ty lane
  | Bitmask lane_type => is_vector a && is_integer ty && is_lane lane_type
  | Splat lane_type => is_integer a && is_vector ty && is_lane lane_type && same_carrier a lane_type
  | Reinterpret =>
      match a, ty with
      | I64, F64 | F64, I64 | I64, V64 | V64, I64 => true
      | _, _ => false
      end
  | SignExtend input_type =>
      is_integer a && is_integer ty && is_integer input_type
      && (bits input_type <? bits ty) && (bits input_type <=? bits (carrier a))
  | ZeroTest _ => is_integer a && is_integer ty
  | Convert => convertible a ty
  | LowBits count =>
      is_integer a && is_integer ty && same_carrier a ty
      && (0 <=? count) && (count <=? bits (carrier ty))
  end.

Definition binary_typed (operator : EBinaryOp) (a b ty : Ty) : bool :=
  match operator with
  | Bitwise _ => same_carrier a ty && same_carrier b ty && negb (bool_decide (ty = F64))
  | Compare (CmpInteger _) => is_integer a && is_integer b && same_carrier a b && is_integer ty
  | Compare (CmpFloat _) => bool_decide (a = F64) && bool_decide (b = F64) && is_integer ty
  | ShuffleImmediate _ => is_vector a && is_vector b && is_vector ty
  | Swizzle input_type => is_vector a && is_vector b && is_vector ty && is_vector input_type
  | ReplaceLane lane_type lane =>
      is_vector a && is_integer b && is_vector ty && is_lane lane_type
      && same_carrier b lane_type && lane_in_vector lane_type lane
  | Integer (Add | Sub) => is_integer ty && bool_decide (a = ty) && bool_decide (b = ty)
  | Integer _ => is_integer ty && same_carrier a ty && same_carrier b ty
  | BFloat _ => bool_decide (a = F64) && bool_decide (b = F64) && bool_decide (ty = F64)
  | BFloatVector _ _ | FloatVectorCompare _ _ => is_vector a && is_vector b && is_vector ty
  | Vector operator lane_type =>
      is_vector a && is_vector b && is_vector ty && lane_operator_ok operator lane_type
  | Narrow _ result_lane =>
      is_vector a && is_vector b && is_vector ty
      && (bool_decide (result_lane = I8) || bool_decide (result_lane = I16))
  end.

Definition shift_typed (operator : EShiftOp) (a count ty : Ty) : bool :=
  is_integer count &&
  match operator with
  | ShScalar _ | Rotate _ => is_integer a && is_integer ty && same_carrier a ty
  | Lanes _ lane_type => is_vector a && is_vector ty && is_lane lane_type
  end.

Definition ternary_typed (operator : TernaryOp) (a b c ty : Ty) : bool :=
  match operator with
  | Select => same_carrier a ty && same_carrier b ty && is_integer c
  | Bitselect => is_vector a && is_vector b && is_vector c && is_vector ty
  | Shuffle input_type =>
      is_vector a && is_vector b && is_vector c && is_vector ty && is_vector input_type
  end.

Definition type_ok (ty : Ty) (e : Expression Ty) : bool :=
  match e with
  | EUnary operator a => unary_typed operator a ty
  | EBinary operator a b => binary_typed operator a b ty
  | EShift operator a count => shift_typed operator a count ty
  | ETernary operator a b c => ternary_typed operator a b c ty
  | EMultiplyWide _ a b => bool_decide (a = I64) && bool_decide (b = I64) && bool_decide (ty = I64)
  end.

(** The operands exist and have types the operator accepts. *)
Definition typed (t : ValueTable) (ty : Ty) (e : Expression nat) : Prop :=
  exists tys, try_map (type_at t) e = Some tys /\ type_ok ty tys = true.

(** ** Valuations *)

(** The carrier literal of every value. *)
Definition Valuation := nat -> Literal.

Definition operand (t : ValueTable) (rho : Valuation) (id : nat) : option TypedLiteral :=
  ty ← type_at t id; Some (mkTyped ty (rho id)).

(** The carrier result of an expression over stored values. *)
Definition eval (t : ValueTable) (rho : Valuation) (ty : Ty) (e : Expression nat) (component : nat)
    : option Literal :=
  e' ← try_map (operand t rho) e; carrier_result e' ty component.

(** Two's complement values of [s] bits in a carrier of [w] bits. *)
Definition sfits (w s z : Z) : Prop := - 2 ^ (s - 1) <= to_signed w z < 2 ^ (s - 1).

Definition bounded (ty : Ty) (b : BitBounds) (l : Literal) : Prop :=
  fits (unsigned b) (lit_u128 l) /\ sfits (bits (carrier ty)) (signed b) (lit_u128 l).

(** Values whose bits no definition determines: parameters, effect results, and
    operations without a result (a trap, or the NaN the engine chooses). *)
Definition determined (t : ValueTable) (rho : Valuation) (id : nat) (v : Value) : option Literal :=
  match definition v with
  | DLiteral l => Some l
  | DParameter _ _ | DResult (Effect _) _ => None
  | DExpression e => eval t rho (ty v) e 0
  | DResult (Evaluate producer) component =>
      match definition_at t producer with
      | Some (DExpression e) => eval t rho (ty v) e component
      | _ => None
      end
  end.

Record model (t : ValueTable) (rho : Valuation) : Prop := {
  m_ok : forall id v, values t !! id = Some v -> lit_ok (carrier (ty v)) (rho id);
  m_determined : forall id v l, values t !! id = Some v -> determined t rho id v = Some l -> rho id = l;
  m_free : forall id v b, values t !! id = Some v -> bounds t !! id = Some b ->
    determined t rho id v = None -> bounded (ty v) b (rho id);
}.

(** Unsigned division of a narrow type is exact only on a normalized dividend. *)
Definition premise (rho : Valuation) (ty : Ty) (e : Expression nat) : Prop :=
  match e with
  | EBinary (Integer (DivUnsigned | RemUnsigned)) l _ => fits (bits ty) (low (rho l))
  | _ => True
  end.

Definition admissible (t : ValueTable) (ty : Ty) (e : Expression nat) : Prop :=
  typed t ty e /\ forall rho, model t rho -> premise rho ty e.

Definition value_ok (t : ValueTable) (id : nat) (v : Value) : Prop :=
  match definition v with
  | DLiteral l => lit_ok (carrier (ty v)) l
  | DExpression e =>
      Forall (fun i => (i < id)%nat) (inputs e) /\ admissible t (ty v) e /\
      forall c ty', result_types e (ty v) !! S c = Some ty' ->
        values t !! (id + S c)%nat = Some (mkValue ty' (DResult (Evaluate id) (S c)))
  | DResult (Evaluate producer) component =>
      exists c pv e, component = S c /\ id = (producer + component)%nat /\
        values t !! producer = Some pv /\ definition pv = DExpression e /\
        result_types e (ty pv) !! component = Some (ty v)
  | DParameter _ _ | DResult (Effect _) _ => True
  end.

Record wf (t : ValueTable) : Prop := {
  wf_length : length (bounds t) = length (values t);
  wf_value : forall id v, values t !! id = Some v -> value_ok t id v;
  wf_range : forall id b, bounds t !! id = Some b ->
    0 <= unsigned b <= 128 /\ 1 <= signed b <= 128;
  wf_bounds : forall rho, model t rho -> forall id v b,
    values t !! id = Some v -> bounds t !! id = Some b -> bounded (ty v) b (rho id);
}.

(** [t'] keeps every stored value and its bounds. *)
Definition extends (t t' : ValueTable) : Prop :=
  values t `prefix_of` values t' /\ bounds t `prefix_of` bounds t'.

#[export] Instance extends_preorder : PreOrder extends.
Proof.
  split; [done|]. intros t1 t2 t3 [H1 H2] [H3 H4]. split; by etrans.
Qed.

Lemma extends_values t t' id v : extends t t' -> values t !! id = Some v -> values t' !! id = Some v.
Proof. intros [H _] Hv. by eapply prefix_lookup_Some. Qed.
Lemma extends_bounds t t' id b : extends t t' -> bounds t !! id = Some b -> bounds t' !! id = Some b.
Proof. intros [_ H] Hv. by eapply prefix_lookup_Some. Qed.
Lemma extends_type t t' id ty : extends t t' -> type_at t id = Some ty -> type_at t' id = Some ty.
Proof.
  unfold type_at. intros H (v & Hv & ->)%fmap_Some. by rewrite (extends_values _ _ _ _ H Hv).
Qed.
Lemma extends_length t t' : extends t t' -> (length (values t) <= length (values t'))%nat.
Proof. intros [H _]. by apply prefix_length. Qed.

Lemma type_at_lt t id ty : type_at t id = Some ty -> (id < length (values t))%nat.
Proof. unfold type_at. intros (v & Hv & _)%fmap_Some. by eapply lookup_lt_Some. Qed.

(** ** Expressions over a larger table *)

Lemma typed_inputs t ty e : typed t ty e ->
  Forall (fun i => exists tyi, type_at t i = Some tyi) (inputs e).
Proof.
  intros (tys & H & _). apply try_map_Some in H.
  induction H; constructor; eauto.
Qed.

Lemma typed_extends t t' ty e : extends t t' -> typed t ty e -> typed t' ty e.
Proof.
  intros He Ht. pose proof (typed_inputs _ _ _ Ht) as Hin. destruct Ht as (tys & H & Hok).
  exists tys. split; [|done]. rewrite <- H. apply try_map_ext_inputs.
  eapply Forall_impl; [exact Hin|]. intros i [tyi Hi]. simpl.
  by rewrite Hi, (extends_type _ _ _ _ He Hi).
Qed.

Lemma eval_extends t t' rho ty ty0 e c : extends t t' -> typed t ty0 e ->
  eval t' rho ty e c = eval t rho ty e c.
Proof.
  intros He Ht. pose proof (typed_inputs _ _ _ Ht) as Hin. unfold eval.
  f_equal. apply try_map_ext_inputs. eapply Forall_impl; [exact Hin|]. intros i [tyi Hi]. simpl.
  unfold operand. by rewrite Hi, (extends_type _ _ _ _ He Hi).
Qed.

(** A valuation of a larger table is one of the smaller table. *)
Lemma determined_extends t t' rho id v : wf t -> extends t t' ->
  values t !! id = Some v -> determined t' rho id v = determined t rho id v.
Proof.
  intros Hwf He Hv. pose proof (wf_value t Hwf id v Hv) as Hok. unfold determined, value_ok in *.
  destruct (definition v) as [l|e| |[|p] c]; try done.
  - destruct Hok as (_ & [Ht _] & _). by eapply eval_extends.
  - destruct Hok as (c' & pv & e & -> & -> & Hp & Hpd & _).
    unfold definition_at. rewrite Hp, (extends_values _ _ _ _ He Hp). simpl. rewrite Hpd.
    pose proof (wf_value t Hwf _ _ Hp) as Hok. unfold value_ok in Hok. rewrite Hpd in Hok.
    destruct Hok as (_ & [Ht _] & _). by eapply eval_extends.
Qed.

Lemma model_extends t t' rho : wf t -> extends t t' -> model t' rho -> model t rho.
Proof.
  intros Hwf He Hm. split.
  - intros id v Hv. eapply (m_ok t' rho Hm), extends_values; eauto.
  - intros id v l Hv Hd. eapply (m_determined t' rho Hm); [by eapply extends_values|].
    by rewrite determined_extends with (t := t).
  - intros id v b Hv Hb Hd. eapply (m_free t' rho Hm); [by eapply extends_values|by eapply extends_bounds|].
    by rewrite determined_extends with (t := t).
Qed.

Lemma admissible_extends t t' ty e : wf t -> extends t t' -> admissible t ty e -> admissible t' ty e.
Proof.
  intros Hwf He [Ht Hp]. split; [by eapply typed_extends|].
  intros rho Hm. by eapply Hp, model_extends.
Qed.

(** ** Total correctness of table computations *)

Definition wp {A} (m : T A) (Q : A -> ValueTable -> Prop) (t : ValueTable) : Prop :=
  exists a t', m t = Some (a, t') /\ Q a t'.

Lemma wp_ret {A} (a : A) Q t : Q a t -> wp (mret a) Q t.
Proof. intros H. by exists a, t. Qed.
Lemma wp_bind {A B} (m : T A) (f : A -> T B) Q t :
  wp m (fun a => wp (f a) Q) t -> wp (m ≫= f) Q t.
Proof.
  intros (a & t' & Hm & b & t'' & Hf & HQ). exists b, t''. split; [|done].
  unfold mbind, T_bind. rewrite Hm. done.
Qed.
Lemma wp_fmap {A B} (f : A -> B) (m : T A) Q t :
  wp m (fun a => Q (f a)) t -> wp (f <$> m) Q t.
Proof.
  intros (a & t' & Hm & HQ). exists (f a), t'. split; [|done].
  unfold fmap, T_fmap. rewrite Hm. done.
Qed.
Lemma wp_reads {A} (f : ValueTable -> option A) Q t a : f t = Some a -> Q a t -> wp (reads f) Q t.
Proof. intros Hf HQ. exists a, t. unfold reads. by rewrite Hf. Qed.
Lemma wp_mono {A} (m : T A) (Q Q' : A -> ValueTable -> Prop) t :
  wp m Q t -> (forall a t', Q a t' -> Q' a t') -> wp m Q' t.
Proof. intros (a & t' & Hm & HQ) H. exists a, t'. eauto. Qed.

(** What a rewrite keeps: an extension that is still well-formed. *)
Definition step (t t' : ValueTable) : Prop := extends t t' /\ wf t'.

Lemma step_trans t1 t2 t3 : step t1 t2 -> step t2 t3 -> step t1 t3.
Proof. intros [H1 _] [H2 H3]. split; [by etrans|done]. Qed.
Lemma step_refl t : wf t -> step t t.
Proof. by split. Qed.
