(* ===== verification/Carrier.v ===== *)
(** * Carrier equations

    What each operator computes on the carriers of typed operands: the
    equations the soundness proofs of bounds and rewrites compute with. *)

From S2P Require Import Prelude Bytes Types Floating Expr Evaluate Values Model.
Local Open Scope Z_scope.

(** The scalar and the vector reading of a value. *)
Definition val (rho : Valuation) (id : nat) : Z := low (rho id).
Definition vec (rho : Valuation) (id : nat) : Z := lit_u128 (rho id).

(** Width of a carrier. *)
Notation cbits ty := (bits (carrier ty)).

Lemma cbits_scalar ty : is_scalar ty = true -> cbits ty = 32 \/ cbits ty = 64.
Proof. destruct ty; simpl; auto; done. Qed.
Lemma cbits_integer ty : is_integer ty = true -> cbits ty = 32 \/ cbits ty = 64.
Proof. intros. by apply cbits_scalar, integer_scalar. Qed.
Lemma carrier_vector ty : is_vector ty = true -> carrier ty = V128.
Proof. by destruct ty. Qed.
Lemma carrier_integer_cases ty : is_integer ty = true ->
  (carrier ty = I32 /\ bits ty <= 32) \/ ty = I64.
Proof. destruct ty; simpl; try done; auto; intros _; left; split; done || lia. Qed.

Lemma low_mask_wrap b z : 0 <= b <= 64 -> Z.land z (low_mask b) = wrap b z.
Proof. intros. rewrite low_mask_ones by done. by rewrite wrap_land by lia. Qed.

Lemma normalize_carrier ty z : is_scalar ty = true -> normalize (carrier ty) z = wrap (cbits ty) z.
Proof. intros H. apply normalize_wrap. by rewrite carrier_scalar. Qed.

Lemma wrap_carrier_64 ty z : is_scalar ty = true -> wrap (cbits ty) (wrap 64 z) = wrap (cbits ty) z.
Proof.
  intros H. apply wrap_idem_le. destruct (cbits_scalar ty H) as [-> | ->]; lia.
Qed.

Lemma t_scalar_carrier rho x tx : is_scalar tx = true ->
  t_scalar (mkTyped (carrier tx) (rho x)) = Some (val rho x).
Proof. intros H. unfold t_scalar, scalar; cbn [t_ty t_value]. by rewrite carrier_scalar, H. Qed.

Section Carrier.
#[local] Set Default Proof Using "All".
Context (t : ValueTable) (rho : Valuation) (Hm : model t rho).

Lemma rho_ok x tx : type_at t x = Some tx -> lit_ok (carrier tx) (rho x).
Proof. intros (v & Hv & ->)%fmap_Some. by apply (m_ok t rho Hm). Qed.

Lemma rho_words x tx : type_at t x = Some tx -> lit_words (rho x).
Proof. intros H. apply (rho_ok x tx H). Qed.

Lemma rho_normalize x tx : type_at t x = Some tx -> lit_normalize (rho x) (carrier tx) = rho x.
Proof. intros H. apply (rho_ok x tx H). Qed.

Lemma rho_scalar x tx : type_at t x = Some tx -> is_scalar tx = true ->
  fits (cbits tx) (val rho x) /\ rho x = lit (val rho x).
Proof.
  intros H Hs. apply lit_ok_scalar; [by rewrite carrier_scalar|]. by apply rho_ok.
Qed.

Lemma val_fits x tx : type_at t x = Some tx -> is_scalar tx = true -> fits (cbits tx) (val rho x).
Proof. intros. by apply rho_scalar. Qed.
Lemma val_fits64 x tx : type_at t x = Some tx -> is_scalar tx = true -> fits 64 (val rho x).
Proof.
  intros H Hs. eapply fits_mono; [|by apply (val_fits x tx)].
  destruct (cbits_scalar tx Hs) as [-> | ->]; lia.
Qed.
Lemma vec_val x tx : type_at t x = Some tx -> is_scalar tx = true -> vec rho x = val rho x.
Proof.
  intros H Hs. unfold vec. destruct (rho_scalar x tx H Hs) as [_ ->]. by rewrite u128_lit.
Qed.
Lemma vec_fits x tx : type_at t x = Some tx -> fits (cbits tx) (vec rho x).
Proof.
  intros H. destruct (is_scalar tx) eqn:Hs.
  - rewrite (vec_val x tx) by done. by apply val_fits.
  - rewrite carrier_vector by (unfold is_vector; by rewrite Hs).
    apply lit_u128_fits. by eapply rho_words.
Qed.
Lemma vec_fits128 x tx : type_at t x = Some tx -> fits 128 (vec rho x).
Proof. intros H. eapply lit_u128_fits, rho_words, H. Qed.

Lemma rho_vec x y tx ty : type_at t x = Some tx -> type_at t y = Some ty ->
  vec rho x = vec rho y -> rho x = rho y.
Proof. intros Hx Hy. apply lit_u128_inj; by eapply rho_words. Qed.
Lemma rho_lit128 x tx : type_at t x = Some tx -> rho x = lit128 (vec rho x).
Proof. intros Hx. symmetry. apply lit128_u128. by eapply rho_words. Qed.

(** Operands are already carriers. *)
Lemma carrier_operand x tx : type_at t x = Some tx ->
  carrier_literal_of (mkTyped tx (rho x)) = mkTyped (carrier tx) (rho x).
Proof. intros H. unfold carrier_literal_of; simpl. by rewrite (rho_normalize x tx). Qed.

Lemma operand_eq x tx : type_at t x = Some tx -> operand t rho x = Some (mkTyped tx (rho x)).
Proof. intros H. unfold operand. by rewrite H. Qed.

Lemma ev_unary ty op x tx c : type_at t x = Some tx ->
  match op with ExtractLane _ => False | _ => True end ->
  eval t rho ty (EUnary op x) c = eval_unary op (mkTyped (carrier tx) (rho x)) (carrier ty).
Proof.
  intros H Hop. unfold eval, try_map. rewrite (operand_eq x tx H). cbn [mbind option_bind].
  rewrite <- (carrier_operand x tx H). by destruct op.
Qed.

Lemma ev_extract ty lane x tx c : type_at t x = Some tx ->
  eval t rho ty (EUnary (ExtractLane lane) x) c
  = Some (lit (normalize ty (wrap 64 (Z.shiftr (vec rho x) (lane * bits ty))))).
Proof. intros H. unfold eval, try_map. by rewrite (operand_eq x tx H). Qed.

Lemma ev_binary ty op x y tx ty' c : type_at t x = Some tx -> type_at t y = Some ty' ->
  eval t rho ty (EBinary op x y) c
  = eval_binary op (mkTyped (carrier tx) (rho x)) (mkTyped (carrier ty') (rho y)) (carrier ty).
Proof.
  intros Hx Hy. unfold eval, try_map. rewrite (operand_eq x tx Hx), (operand_eq y ty' Hy).
  cbn [mbind option_bind].
  by rewrite <- (carrier_operand x tx Hx), <- (carrier_operand y ty' Hy).
Qed.

Lemma ev_shift ty op x y tx ty' c : type_at t x = Some tx -> type_at t y = Some ty' ->
  eval t rho ty (EShift op x y) c
  = eval_shift op (mkTyped (carrier tx) (rho x)) (mkTyped (carrier ty') (rho y)) (carrier ty).
Proof.
  intros Hx Hy. unfold eval, try_map. rewrite (operand_eq x tx Hx), (operand_eq y ty' Hy).
  cbn [mbind option_bind].
  by rewrite <- (carrier_operand x tx Hx), <- (carrier_operand y ty' Hy).
Qed.

Lemma ev_ternary ty op x y z tx ty' tz c :
  type_at t x = Some tx -> type_at t y = Some ty' -> type_at t z = Some tz ->
  eval t rho ty (ETernary op x y z) c
  = eval_ternary op (mkTyped (carrier tx) (rho x)) (mkTyped (carrier ty') (rho y))
      (mkTyped (carrier tz) (rho z)) (carrier ty).
Proof.
  intros Hx Hy Hz. unfold eval, try_map.
  rewrite (operand_eq x tx Hx), (operand_eq y ty' Hy), (operand_eq z tz Hz).
  cbn [mbind option_bind].
  by rewrite <- (carrier_operand x tx Hx), <- (carrier_operand y ty' Hy), <- (carrier_operand z tz Hz).
Qed.

Lemma ev_multiply_wide ty s x y tx ty' c : type_at t x = Some tx -> type_at t y = Some ty' ->
  eval t rho ty (EMultiplyWide s x y) c
  = eval_multiply_wide s (mkTyped (carrier tx) (rho x)) (mkTyped (carrier ty') (rho y)) (carrier ty) c.
Proof.
  intros Hx Hy. unfold eval, try_map. rewrite (operand_eq x tx Hx), (operand_eq y ty' Hy).
  cbn [mbind option_bind].
  by rewrite <- (carrier_operand x tx Hx), <- (carrier_operand y ty' Hy).
Qed.

(** ** Scalars *)

Lemma ev_low_bits ty n x tx c : type_at t x = Some tx -> is_integer tx = true ->
  is_integer ty = true -> carrier tx = carrier ty -> 0 <= n <= cbits ty ->
  eval t rho ty (EUnary (LowBits n) x) c = Some (lit (wrap n (val rho x))).
Proof.
  intros H Hx Hi Hc Hn. rewrite (ev_unary _ _ x tx) by done. cbn [eval_unary].
  rewrite (t_scalar_carrier rho x tx) by by apply integer_scalar. cbn [mbind option_bind].
  rewrite normalize_carrier by by apply integer_scalar.
  destruct (cbits_integer ty Hi) as [Hw | Hw]; rewrite Hw in *;
    rewrite low_mask_wrap by lia; do 2 f_equal; apply wrap_small; eapply fits_mono;
    try (apply wrap_fits); lia.
Qed.

Lemma ev_convert ty x tx c : type_at t x = Some tx -> convertible tx ty = true ->
  eval t rho ty (EUnary Convert x) c = Some (lit_normalize (rho x) (carrier ty)).
Proof.
  intros H Hc. rewrite (ev_unary _ _ x tx) by done. cbn [eval_unary t_ty t_value].
  destruct (is_scalar tx) eqn:Hs.
  - rewrite carrier_scalar, Hs. cbn [negb]. rewrite (t_scalar_carrier rho x tx Hs). cbn [mbind option_bind].
    assert (is_scalar ty = true) as Hty.
    { unfold convertible, is_vector in Hc. rewrite Hs in Hc.
      destruct (bool_decide_reflect (tx = ty)) as [->|]; [done|]. simpl in Hc.
      rewrite orb_false_r in Hc. apply andb_true_iff in Hc as [_ ?]. by apply integer_scalar. }
    rewrite normalize_carrier by done. rewrite lit_normalize_scalar by by rewrite carrier_scalar. done.
  - rewrite carrier_scalar, Hs. done.
Qed.

Lemma ev_reinterpret ty x tx c : type_at t x = Some tx -> unary_typed Reinterpret tx ty = true ->
  eval t rho ty (EUnary Reinterpret x) c
  = Some (if decide (ty = V64) then lit128 (Z.lor (val rho x) (wrap 128 (Z.shiftl (val rho x) 64)))
          else lit (wrap 64 (vec rho x))).
Proof.
  intros H Hc. rewrite (ev_unary _ _ x tx) by done. unfold eval_unary. cbn [t_ty].
  destruct tx, ty; try done; cbn [is_scalar carrier negb];
    change (is_scalar F64) with true; change (is_scalar I64) with true;
    change (is_scalar V128) with false; cbn [negb]; try done.
  1,2: change (t_scalar _) with (Some (val rho x)); cbn [mbind option_bind];
    rewrite normalize_wrap by done; cbn [bits].
  - by rewrite (vec_val x I64).
  - by rewrite (vec_val x F64).
  - rewrite (normalize_wrap I64) by done. cbn [bits]. by rewrite wrap_wrap.
Qed.

Lemma convert_val x tx ty : type_at t x = Some tx -> is_integer tx = true -> is_integer ty = true ->
  lit_normalize (rho x) (carrier ty) = lit (wrap (cbits ty) (val rho x)).
Proof. intros. rewrite lit_normalize_scalar by (rewrite carrier_scalar; by apply integer_scalar). done. Qed.

Lemma ev_zero_test ty nz x tx c : type_at t x = Some tx -> is_integer tx = true ->
  is_integer ty = true ->
  eval t rho ty (EUnary (ZeroTest nz) x) c
  = Some (lit (Z.b2z (Bool.eqb (negb (val rho x =? 0)) nz))).
Proof.
  intros H Hx Hi. rewrite (ev_unary _ _ x tx) by done. cbn [eval_unary].
  rewrite (t_scalar_carrier rho x tx) by by apply integer_scalar. cbn [mbind option_bind].
  rewrite normalize_carrier by by apply integer_scalar.
  rewrite wrap_small; [done|]. destruct (cbits_integer ty Hi) as [-> | ->];
    destruct (Bool.eqb _ _); by apply (bool_decide_unpack _).
Qed.

Lemma ev_sign_extend ty n x tx c : type_at t x = Some tx -> is_integer tx = true ->
  is_integer ty = true -> is_integer n = true ->
  eval t rho ty (EUnary (SignExtend n) x) c
  = Some (lit (wrap (cbits ty) (to_signed (bits n) (val rho x)))).
Proof.
  intros H Hx Hi Hn. rewrite (ev_unary _ _ x tx) by done. cbn [eval_unary].
  rewrite (t_scalar_carrier rho x tx) by by apply integer_scalar. cbn [mbind option_bind].
  rewrite normalize_carrier by by apply integer_scalar.
  rewrite wrap_carrier_64 by by apply integer_scalar.
  by rewrite signed_value_spec by by apply integer_scalar.
Qed.

Lemma ev_integer ty op x y tx ty' c : type_at t x = Some tx -> type_at t y = Some ty' ->
  is_integer ty = true -> carrier tx = carrier ty -> carrier ty' = carrier ty ->
  eval t rho ty (EBinary (Integer op) x y) c
  = (fun b => lit (wrap (cbits ty) b)) <$> int_binary (carrier ty) op (val rho x) (val rho y).
Proof.
  intros Hx Hy Hi Hcx Hcy. rewrite (ev_binary _ _ x y tx ty') by done. cbn [eval_binary t_ty].
  rewrite Hcx, Hcy, !t_scalar_carrier by by apply integer_scalar. cbn [mbind option_bind].
  destruct (int_binary _ _ _ _) as [b|]; [|done]. simpl.
  by rewrite normalize_carrier by by apply integer_scalar.
Qed.

Lemma ev_compare ty op x y tx ty' c : type_at t x = Some tx -> type_at t y = Some ty' ->
  is_integer tx = true -> carrier ty' = carrier tx -> is_integer ty = true ->
  eval t rho ty (EBinary (Compare (CmpInteger op)) x y) c
  = Some (lit (Z.b2z (int_compare (carrier tx) op (val rho x) (val rho y)))).
Proof.
  intros Hx Hy Hi Hc Hty. rewrite (ev_binary _ _ x y tx ty') by done. cbn [eval_binary t_ty].
  rewrite Hc, !t_scalar_carrier by by apply integer_scalar. cbn [mbind option_bind].
  rewrite normalize_carrier by by apply integer_scalar. rewrite wrap_small; [done|].
  destruct (cbits_integer ty Hty) as [-> | ->]; destruct (int_compare _ _ _ _);
    by apply (bool_decide_unpack _).
Qed.

Lemma ev_bitwise ty op x y tx ty' c : type_at t x = Some tx -> type_at t y = Some ty' ->
  carrier tx = carrier ty -> carrier ty' = carrier ty ->
  exists l, eval t rho ty (EBinary (Bitwise op) x y) c = Some l /\
    lit_ok (carrier ty) l /\ lit_u128 l = bit_fn op (vec rho x) (vec rho y).
Proof.
  intros Hx Hy Hcx Hcy. rewrite (ev_binary _ _ x y tx ty') by done. cbn [eval_binary t_value].
  assert (fits (cbits ty) (bit_fn op (vec rho x) (vec rho y))) as Hf.
  { pose proof (vec_fits x tx Hx) as H1. pose proof (vec_fits y ty' Hy) as H2.
    rewrite Hcx in H1. rewrite Hcy in H2. pose proof (bits_pos (carrier ty)).
    destruct op; simpl; [apply fits_land_l | apply fits_lor | apply fits_lxor]; done || lia. }
  exists (bitwise_apply op (rho x) (rho y)). unfold bitwise_apply. fold (vec rho x) (vec rho y).
  assert (fits 128 (bit_fn op (vec rho x) (vec rho y))) as Hf128.
  { eapply fits_mono; [|exact Hf]. apply bits_pos. }
  assert (lit_ok (carrier ty) (lit128 (bit_fn op (vec rho x) (vec rho y)))) as Hok.
  { split; [apply lit128_words|]. destruct (is_scalar ty) eqn:Hs.
    - rewrite lit128_small by (eapply fits_mono; [|exact Hf]; destruct (cbits_scalar ty Hs); lia).
      rewrite lit_normalize_scalar by by rewrite carrier_scalar. cbn [lit low]. by rewrite wrap_small.
    - by rewrite carrier_vector by (unfold is_vector; by rewrite Hs). }
  split; [f_equal; apply Hok|]. split; [done|]. by apply u128_lit128.
Qed.

(** The scalar form. *)
Lemma ev_bitwise_scalar ty op x y tx ty' c : type_at t x = Some tx -> type_at t y = Some ty' ->
  carrier tx = carrier ty -> carrier ty' = carrier ty -> is_scalar ty = true ->
  eval t rho ty (EBinary (Bitwise op) x y) c = Some (lit (bit_fn op (val rho x) (val rho y))).
Proof.
  intros Hx Hy Hcx Hcy Hs.
  destruct (ev_bitwise ty op x y tx ty' c) as (l & -> & Hok & Hl); [done..|].
  assert (is_scalar tx = true) by by rewrite <- carrier_scalar, Hcx, carrier_scalar.
  assert (is_scalar ty' = true) by by rewrite <- carrier_scalar, Hcy, carrier_scalar.
  apply lit_ok_scalar in Hok as [_ Hok]; [|by rewrite carrier_scalar].
  rewrite Hok, u128_lit in Hl. rewrite Hok, Hl. by rewrite (vec_val x tx), (vec_val y ty').
Qed.

Lemma ev_shift_scalar ty op x y tx ty' c : type_at t x = Some tx -> type_at t y = Some ty' ->
  is_integer ty = true -> carrier tx = carrier ty -> is_integer ty' = true ->
  eval t rho ty (EShift (ShScalar op) x y) c
  = Some (lit (wrap (cbits ty) (int_shift (carrier ty) op (val rho x) (wrap 32 (val rho y))))).
Proof.
  intros Hx Hy Hi Hc Hi'. rewrite (ev_shift _ _ x y tx ty') by done.
  unfold eval_shift. rewrite (t_scalar_carrier rho y ty') by by apply integer_scalar.
  cbn [mbind option_bind t_ty]. rewrite Hc, t_scalar_carrier by by apply integer_scalar.
  cbn [mbind option_bind]. by rewrite normalize_carrier by by apply integer_scalar.
Qed.

Lemma ev_rotate ty op x y tx ty' c : type_at t x = Some tx -> type_at t y = Some ty' ->
  is_integer ty = true -> carrier tx = carrier ty -> is_integer ty' = true ->
  eval t rho ty (EShift (Rotate op) x y) c
  = Some (lit (wrap (cbits ty) (int_rotate (carrier ty) op (val rho x) (wrap 32 (val rho y))))).
Proof.
  intros Hx Hy Hi Hc Hi'. rewrite (ev_shift _ _ x y tx ty') by done.
  unfold eval_shift. rewrite (t_scalar_carrier rho y ty') by by apply integer_scalar.
  cbn [mbind option_bind t_ty]. rewrite Hc, t_scalar_carrier by by apply integer_scalar.
  cbn [mbind option_bind]. by rewrite normalize_carrier by by apply integer_scalar.
Qed.

Lemma ev_select ty x y z tx ty' tz c :
  type_at t x = Some tx -> type_at t y = Some ty' -> type_at t z = Some tz ->
  carrier tx = carrier ty -> carrier ty' = carrier ty -> is_integer tz = true ->
  eval t rho ty (ETernary Select x y z) c
  = Some (if negb (val rho z =? 0) then rho x else rho y).
Proof.
  intros Hx Hy Hz Hcx Hcy Hi. rewrite (ev_ternary _ _ x y z tx ty' tz) by done.
  unfold eval_ternary. rewrite (t_scalar_carrier rho z tz) by by apply integer_scalar.
  cbn [mbind option_bind t_value]. f_equal. rewrite <- Hcx at 1.
  destruct (negb (val rho z =? 0)); [by eapply rho_normalize|].
  rewrite Hcx, <- Hcy. by eapply rho_normalize.
Qed.

Lemma ev_multiply s x y c :
  type_at t x = Some I64 -> type_at t y = Some I64 ->
  eval t rho I64 (EMultiplyWide s x y) c
  = Some (lit (wrap 64 (Z.shiftr
      (if s then wrap 128 (to_signed 64 (val rho x) * to_signed 64 (val rho y))
       else val rho x * val rho y) (Z.of_nat c * 64)))).
Proof.
  intros Hx Hy. rewrite (ev_multiply_wide _ _ x y I64 I64) by done.
  unfold eval_multiply_wide. cbn [mbind option_bind t_scalar scalar is_scalar carrier t_ty t_value].
  rewrite (normalize_wrap I64) by done. cbn [bits]. rewrite wrap_wrap. done.
Qed.
End Carrier.
