(* ===== verification/Bounds.v ===== *)
(** * Soundness of the bit bounds

    body/values/bounds.rs: [BitBounds::for_value] bounds every value its
    definition can take, given sound bounds of its operands. *)

From S2P Require Import Prelude Bytes Types Floating Expr Evaluate Values Model Carrier.
Local Open Scope Z_scope.

(** ** Typing by operator *)

Lemma typed_unary t ty op x : typed t ty (EUnary op x) <->
  exists tx, type_at t x = Some tx /\ unary_typed op tx ty = true.
Proof.
  split.
  - intros (tys & H & Hok). simpl in H. destruct (type_at t x) as [tx|]; [|done].
    simplify_eq/=. eauto.
  - intros (tx & H & Hok). exists (EUnary op tx). simpl. by rewrite H.
Qed.
Lemma typed_binary t ty op x y : typed t ty (EBinary op x y) <->
  exists tx ty', type_at t x = Some tx /\ type_at t y = Some ty' /\ binary_typed op tx ty' ty = true.
Proof.
  split.
  - intros (tys & H & Hok). simpl in H. destruct (type_at t x) as [tx|], (type_at t y) as [ty'|];
      simplify_eq/=. eauto.
  - intros (tx & ty' & H & H' & Hok). exists (EBinary op tx ty'). simpl. by rewrite H, H'.
Qed.
Lemma typed_shift t ty op x y : typed t ty (EShift op x y) <->
  exists tx ty', type_at t x = Some tx /\ type_at t y = Some ty' /\ shift_typed op tx ty' ty = true.
Proof.
  split.
  - intros (tys & H & Hok). simpl in H. destruct (type_at t x) as [tx|], (type_at t y) as [ty'|];
      simplify_eq/=. eauto.
  - intros (tx & ty' & H & H' & Hok). exists (EShift op tx ty'). simpl. by rewrite H, H'.
Qed.
Lemma typed_ternary t ty op x y z : typed t ty (ETernary op x y z) <->
  exists tx ty' tz, type_at t x = Some tx /\ type_at t y = Some ty' /\ type_at t z = Some tz /\
    ternary_typed op tx ty' tz ty = true.
Proof.
  split.
  - intros (tys & H & Hok). simpl in H.
    destruct (type_at t x) as [tx|], (type_at t y) as [ty'|], (type_at t z) as [tz|];
      simplify_eq/=. eauto 7.
  - intros (tx & ty' & tz & H & H' & H'' & Hok). exists (ETernary op tx ty' tz). simpl.
    by rewrite H, H', H''.
Qed.
Lemma typed_multiply t ty s x y : typed t ty (EMultiplyWide s x y) <->
  type_at t x = Some I64 /\ type_at t y = Some I64 /\ ty = I64.
Proof.
  split.
  - intros (tys & H & Hok). simpl in H. destruct (type_at t x) as [tx|], (type_at t y) as [ty'|];
      simplify_eq/=. repeat (apply andb_true_iff in Hok as [Hok ?]).
    repeat match goal with H : bool_decide _ = true |- _ => apply bool_decide_eq_true in H end.
    by subst.
  - intros (H & H' & ->). exists (EMultiplyWide s I64 I64). simpl. by rewrite H, H'.
Qed.

(** Conjunctions of boolean typing conditions as hypotheses. *)
Ltac btyping :=
  repeat match goal with
  | H : _ && _ = true |- _ => apply andb_true_iff in H as [? ?]
  | H : bool_decide _ = true |- _ => apply bool_decide_eq_true in H
  | H : same_carrier _ _ = true |- _ => unfold same_carrier in H
  | H : (_ <=? _) = true |- _ => apply Z.leb_le in H
  | H : (_ <? _) = true |- _ => apply Z.ltb_lt in H
  | H : negb (bool_decide _) = true |- _ => apply negb_true_iff, bool_decide_eq_false in H
  end.
Ltac solve_scalar :=
  first [done | by apply integer_scalar | by rewrite ?carrier_scalar; apply integer_scalar].

(** ** Signed widths *)

Lemma to_signed_small w z : 0 < w -> fits w z ->
  to_signed w z = if z <? 2 ^ (w - 1) then z else z - 2 ^ w.
Proof. intros Hw H. unfold to_signed. by rewrite wrap_small. Qed.

(** Integers congruent modulo [2 ^ w] to a value in the signed range. *)
Lemma to_signed_wrap_range w z : 0 < w -> - 2 ^ (w - 1) <= z < 2 ^ (w - 1) ->
  to_signed w (wrap w z) = z.
Proof.
  intros Hw Hz. unfold to_signed. rewrite wrap_wrap. cbv zeta.
  pose proof (pow2_half w Hw) as Hp. pose proof (pow2_pos (w - 1) ltac:(lia)).
  destruct (decide (0 <= z)).
  - rewrite (wrap_small w z) by (unfold fits; lia). destruct (Z.ltb_spec z (2 ^ (w - 1))); lia.
  - assert (wrap w z = z + 2 ^ w) as ->.
    { unfold wrap. symmetry. apply (Z.mod_unique z (2 ^ w) (-1)); [left|]; lia. }
    destruct (Z.ltb_spec (z + 2 ^ w) (2 ^ (w - 1))); lia.
Qed.

Lemma to_signed_mod w z : 0 < w -> wrap w (to_signed w z) = wrap w z.
Proof.
  intros Hw. unfold to_signed. cbv zeta. destruct (_ <? _); [apply wrap_wrap|].
  rewrite <- (wrap_wrap w z) at 2. unfold wrap at 1 3.
  replace (wrap w z - 2 ^ w) with (wrap w z + (-1) * 2 ^ w) by lia.
  pose proof (pow2_pos w ltac:(lia)). by rewrite Z_mod_plus_full.
Qed.

Lemma to_signed_wrap w z : to_signed w (wrap w z) = to_signed w z.
Proof. unfold to_signed. by rewrite wrap_wrap. Qed.

Lemma to_signed_eq w a b : 0 < w -> wrap w a = wrap w b -> to_signed w a = to_signed w b.
Proof. intros _ H. unfold to_signed. by rewrite H. Qed.

Lemma to_signed_inj w a b : 0 < w -> fits w a -> fits w b -> to_signed w a = to_signed w b -> a = b.
Proof.
  intros Hw Ha Hb H. rewrite <- (wrap_small w a), <- (wrap_small w b) by done.
  rewrite <- (to_signed_mod w a), <- (to_signed_mod w b) by done. by rewrite H.
Qed.

Lemma sfits_full w z : 0 < w -> sfits w w z.
Proof. apply to_signed_range. Qed.

Lemma sfits_mono w s s' z : s <= s' -> sfits w s z -> sfits w s' z.
Proof.
  intros Hs [H1 H2]. assert (2 ^ (s - 1) <= 2 ^ (s' - 1)).
  { destruct (decide (0 <= s - 1)); [apply Z.pow_le_mono_r; lia|].
    rewrite (Z.pow_neg_r 2 (s - 1)) by lia. apply Z.pow_nonneg. lia. }
  unfold sfits. lia.
Qed.

Lemma sfits_min w a b z : sfits w a z -> sfits w b z -> sfits w (Z.min a b) z.
Proof. intros. destruct (Z.min_spec a b) as [[_ ->] | [_ ->]]; done. Qed.

Lemma sfits_of_fits w u z : 0 <= u < w -> fits u z -> sfits w (u + 1) z.
Proof.
  intros Hu H. assert (fits w z) as Hw by (eapply fits_mono; [|exact H]; lia).
  unfold sfits. rewrite to_signed_small by (done || lia). destruct H as [H0 H1].
  assert (2 ^ u <= 2 ^ (w - 1)) by (apply Z.pow_le_mono_r; lia).
  replace (u + 1 - 1) with u by lia. destruct (Z.ltb_spec z (2 ^ (w - 1))); lia.
Qed.

(** A value known signed and its two's complement encoding. *)
Lemma sfits_wrap w s x : 0 < s <= w -> - 2 ^ (s - 1) <= x < 2 ^ (s - 1) -> sfits w s (wrap w x).
Proof.
  intros Hs Hx. unfold sfits. rewrite to_signed_wrap_range; [done|lia|].
  assert (2 ^ (s - 1) <= 2 ^ (w - 1)) by (apply Z.pow_le_mono_r; lia). lia.
Qed.

Lemma sat8_spec z : 0 <= z <= 255 -> sat8 z = z.
Proof. unfold sat8. lia. Qed.

Lemma sfits_fallback w u z : 0 < w <= 128 -> 0 <= u -> fits u z -> fits w z ->
  sfits w (Z.min (sat8 (u + 1)) w) z.
Proof.
  intros Hw Hu H H'. apply sfits_min; [|apply sfits_full; lia].
  destruct (decide (u < w)).
  - rewrite sat8_spec by lia. by apply sfits_of_fits.
  - eapply (sfits_mono w w); [unfold sat8; lia|]. apply sfits_full. lia.
Qed.

Lemma fits_min a b z : fits a z -> fits b z -> fits (Z.min a b) z.
Proof. intros. destruct (Z.min_spec a b) as [[_ ->] | [_ ->]]; done. Qed.
Lemma fits_max_l a b z : fits a z -> fits (Z.max a b) z.
Proof. apply fits_mono. lia. Qed.
Lemma fits_max_r a b z : fits b z -> fits (Z.max a b) z.
Proof. apply fits_mono. lia. Qed.
Lemma fits_nonneg_width w z : fits w z -> 0 <= w.
Proof.
  intros [H0 H1]. destruct (decide (0 <= w)); [done|]. rewrite Z.pow_neg_r in H1 by lia. lia.
Qed.
Lemma fits_sat8 w z : w <= 255 -> fits w z -> fits (sat8 w) z.
Proof.
  intros. rewrite sat8_spec; [done|]. split; [by eapply fits_nonneg_width|done].
Qed.
Lemma fits_sat8_min c w z : c <= 255 -> fits c z -> fits w z -> fits (Z.min (sat8 w) c) z.
Proof.
  intros Hc H H'. pose proof (fits_nonneg_width w z H'). unfold sat8.
  eapply (fits_mono (Z.min w c)); [lia|]. by apply fits_min.
Qed.

Lemma fits_bit_length z : 0 <= z -> fits (bit_length z) z.
Proof.
  intros Hz. unfold bit_length, fits. destruct (Z.leb_spec z 0).
  - assert (z = 0) as -> by lia. simpl. lia.
  - split; [done|]. replace (Z.log2 z + 1) with (Z.succ (Z.log2 z)) by lia.
    apply Z.log2_spec. lia.
Qed.

Lemma bit_length_le w z : 0 <= w -> fits w z -> 0 <= bit_length z <= w.
Proof.
  intros Hw [H0 H1]. unfold bit_length. destruct (Z.leb_spec z 0); [lia|].
  pose proof (Z.log2_nonneg z). split; [lia|].
  enough (Z.log2 z < w) by lia. by apply Z.log2_lt_pow2.
Qed.

(** ** Literals *)

Lemma unsigned_bits_of_fits l : lit_words l -> fits (unsigned_bits_of l) (lit_u128 l).
Proof.
  intros [Hl Hh]. unfold unsigned_bits_of, leading_zeros.
  destruct (Z.eqb_spec (high l) 0) as [H0|H0].
  - unfold lit_u128. rewrite H0, Z.shiftl_0_l, Z.lor_0_r.
    replace (64 - _) with (bit_length (low l)) by lia. apply fits_bit_length, Hl.
  - pose proof (bit_length_le 64 (high l) ltac:(lia) Hh).
    replace (128 - _) with (64 + bit_length (high l)) by lia.
    apply fits_of_bits; [lia|]. intros i Hi. unfold lit_u128.
    rewrite Z.lor_spec, testbit_shiftl by lia. rewrite (fits_testbit 64) by (done || lia).
    rewrite (fits_testbit (bit_length (high l))); [btauto | apply fits_bit_length, Hh | lia].
Qed.

Lemma signed_literal_fits ty l : is_scalar ty = true -> lit_ok (carrier ty) l ->
  sfits (cbits ty) (signed_literal_bits (cbits ty) (low l)) (lit_u128 l).
Proof.
  intros Hs Hok. apply lit_ok_scalar in Hok as [Hf Hl]; [|by rewrite carrier_scalar].
  rewrite Hl, u128_lit. cbn [lit low]. unfold signed_literal_bits, leading_zeros.
  assert (forall w, let x := to_signed w (low l) in
    sfits w (65 - (64 - bit_length (if x <? 0 then Z.lnot x else x))) (low l)) as Hgen.
  { intros w x. unfold sfits. fold x.
    replace (65 - _ - 1) with (bit_length (if x <? 0 then Z.lnot x else x)) by lia.
    destruct (Z.ltb_spec x 0).
    - pose proof (fits_bit_length (Z.lnot x) ltac:(unfold Z.lnot; lia)) as [_ H1].
      unfold Z.lnot in *. lia.
    - pose proof (fits_bit_length x ltac:(lia)) as [_ H1]. lia. }
  destruct (cbits_scalar ty Hs) as [Hc|Hc]; rewrite Hc; cbn [Z.eqb Pos.eqb].
  - apply (Hgen 32).
  - apply (Hgen 64).
Qed.

(** ** Results are carrier literals *)

Lemma scalar_result_ok ty b : is_scalar ty = true -> lit_ok (carrier ty) (lit (normalize (carrier ty) b)).
Proof.
  intros Hs. rewrite normalize_carrier by done. apply lit_ok_lit; [by rewrite carrier_scalar|].
  apply wrap_fits. pose proof (bits_pos (carrier ty)). lia.
Qed.
Lemma vector_result_ok ty z : is_vector ty = true -> lit_ok (carrier ty) (lit128 z).
Proof. intros Hv. rewrite carrier_vector by done. split; [apply lit128_words|done]. Qed.
Lemma normalized_ok ty l : lit_words l -> lit_ok (carrier ty) (lit_normalize l (carrier ty)).
Proof. apply lit_normalize_ok. Qed.

Ltac result_ok :=
  repeat match goal with
  | H : (_ ≫= _) = Some _ |- _ => apply bind_Some in H as (? & ? & H)
  | H : _ <$> _ = Some _ |- _ => apply fmap_Some in H as (? & ? & H)
  end;
  repeat match goal with H : Some _ = Some _ |- _ => apply (inj Some) in H; subst end;
  subst;
  first [ apply scalar_result_ok; solve_scalar
        | by apply vector_result_ok
        | apply normalized_ok; first [apply lit128_words | eapply rho_words; eassumption] ].

Lemma extract_cases op : (exists lane, op = ExtractLane lane) \/
  match op with ExtractLane _ => False | _ => True end.
Proof. destruct op; eauto. Qed.

Lemma eval_ok t rho ty e c l : model t rho -> typed t ty e ->
  eval t rho ty e c = Some l -> lit_ok (carrier ty) l.
Proof.
  intros Hm Ht He. destruct e as [op x|op x y|op x y|op x y z|s x y].
  - apply typed_unary in Ht as (tx & Hx & Ht).
    destruct (extract_cases op) as [[lane ->]|Hne].
    { rewrite (ev_extract t rho Hm _ _ x tx) in He by done. simplify_eq. simpl in Ht. btyping.
      apply lit_ok_carrier, lit_ok_lit; [by destruct ty|]. rewrite normalize_wrap by by destruct ty.
      apply wrap_fits. pose proof (bits_pos ty). lia. }
    rewrite (ev_unary t rho Hm _ _ x tx) in He by done.
    destruct op; cbn [eval_unary unary_typed t_ty t_value] in Ht, He; btyping; try (result_ok; fail).
    + destruct tx, ty; try done; simpl in He; result_ok.
    + rewrite carrier_scalar in He. destruct (is_scalar tx) eqn:Hs; simpl in He; [|result_ok].
      assert (is_scalar ty = true); [|result_ok].
      unfold convertible, is_vector in Ht. rewrite Hs in Ht.
      destruct (bool_decide_reflect (tx = ty)) as [->|]; [done|]. simpl in Ht.
      rewrite orb_false_r in Ht. apply andb_true_iff in Ht as [_ ?]. by apply integer_scalar.
  - apply typed_binary in Ht as (tx & ty' & Hx & Hy & Ht).
    rewrite (ev_binary t rho Hm _ _ x y tx ty') in He by done.
    destruct op as [| [|] | | | | [] | | | | |]; cbn [eval_binary binary_typed] in Ht, He;
      btyping; subst; result_ok.
  - apply typed_shift in Ht as (tx & ty' & Hx & Hy & Ht).
    rewrite (ev_shift t rho Hm _ _ x y tx ty') in He by done. unfold eval_shift in He.
    apply bind_Some in He as (? & ? & He).
    unfold shift_typed in Ht. destruct op; btyping; result_ok.
  - apply typed_ternary in Ht as (tx & ty' & tz & Hx & Hy & Hz & Ht).
    rewrite (ev_ternary t rho Hm _ _ x y z tx ty' tz) in He by done. unfold eval_ternary in He.
    destruct op; cbn [ternary_typed] in Ht; btyping; try (result_ok; fail).
    apply bind_Some in He as (l' & He' & He). apply bind_Some in He' as (b & _ & He'). simplify_eq.
    apply normalized_ok. destruct (negb (b =? 0)); eapply rho_words; eassumption.
  - apply typed_multiply in Ht as (Hx & Hy & ->).
    rewrite (ev_multiply_wide t rho Hm _ _ x y I64 I64) in He by done. unfold eval_multiply_wide in He.
    result_ok.
Qed.

Lemma ok_fits ty l : lit_ok (carrier ty) l -> fits (cbits ty) (lit_u128 l).
Proof.
  intros Hok. destruct (is_scalar ty) eqn:Hs.
  - apply lit_ok_scalar in Hok as [Hf ->]; [|by rewrite carrier_scalar]. by rewrite u128_lit.
  - rewrite carrier_vector by (unfold is_vector; by rewrite Hs). apply lit_u128_fits, Hok.
Qed.

Lemma input_bounded t rho x tx b : wf t -> model t rho -> type_at t x = Some tx ->
  bounds t !! x = Some b -> bounded tx b (rho x).
Proof.
  intros Hwf Hm (v & Hv & ->)%fmap_Some Hb. by eapply wf_bounds.
Qed.

Lemma has_bounds t x tx : wf t -> type_at t x = Some tx -> exists b, bounds t !! x = Some b.
Proof.
  intros Hwf Hx%type_at_lt. rewrite <- (wf_length t Hwf) in Hx. by apply lookup_lt_is_Some_2 in Hx.
Qed.

Lemma unsigned_val t rho x tx b : wf t -> model t rho -> type_at t x = Some tx ->
  is_scalar tx = true -> bounds t !! x = Some b -> fits (unsigned b) (val rho x).
Proof.
  intros Hwf Hm Hx Hs Hb. rewrite <- (vec_val t rho Hm x tx) by done.
  by eapply input_bounded.
Qed.

Lemma signed_val t rho x tx b : wf t -> model t rho -> type_at t x = Some tx ->
  is_scalar tx = true -> bounds t !! x = Some b -> sfits (cbits tx) (signed b) (val rho x).
Proof.
  intros Hwf Hm Hx Hs Hb. rewrite <- (vec_val t rho Hm x tx) by done.
  by eapply input_bounded.
Qed.

(** A literal operand has its stored value. *)
Lemma scalar_at_val t rho x v b : model t rho -> values t !! x = Some v ->
  scalar_literal v = Some b -> val rho x = b.
Proof.
  intros Hm Hv Hs. unfold scalar_literal in Hs. destruct (definition v) eqn:Hd; try done.
  unfold scalar in Hs. destruct (is_scalar (ty v)); simplify_eq.
  unfold val. rewrite (m_determined t rho Hm x v literal) by (unfold determined; by rewrite ?Hd). done.
Qed.

(** ** Unsigned widths of each operator *)

Lemma count_ones_le n z : 0 <= n -> fits n z -> 0 <= count_ones z <= n.
Proof.
  intros Hn [H0 H1]. destruct z as [|p|]; [simpl; lia| |lia]. simpl.
  assert (forall p n, 0 <= n -> Zpos p < 2 ^ n -> 1 <= popcount_pos p <= n) as Hp.
  { clear. intros p. induction p as [p IH|p IH|]; intros n Hn Hlt; simpl.
    - assert (1 <= n) by (destruct (decide (n = 0)) as [->|]; [simpl in Hlt|]; lia).
      rewrite pow2_half in Hlt by lia. pose proof (IH (n - 1) ltac:(lia) ltac:(lia)). lia.
    - assert (1 <= n) by (destruct (decide (n = 0)) as [->|]; [simpl in Hlt|]; lia).
      rewrite pow2_half in Hlt by lia. pose proof (IH (n - 1) ltac:(lia) ltac:(lia)). lia.
    - destruct (decide (n = 0)) as [->|]; [simpl in Hlt|]; lia. }
  pose proof (Hp p n Hn H1). lia.
Qed.

Lemma ctz_nonneg p : 0 <= ctz_pos p.
Proof. induction p; simpl; lia. Qed.
Lemma trailing_zeros_nonneg w z : 0 <= w -> 0 <= trailing_zeros w z.
Proof. intros. destruct z; simpl; try lia. apply ctz_nonneg. Qed.

Lemma ctz_testbit p i : 0 <= i < ctz_pos p -> Z.testbit (Zpos p) i = false.
Proof.
  revert i. induction p as [p IH|p IH|]; intros i Hi; simpl in Hi; try lia.
  rewrite Pos2Z.inj_xO. destruct (decide (i = 0)) as [->|]; [apply Z.testbit_even_0|].
  replace i with (Z.succ (i - 1)) by lia. rewrite Z.testbit_even_succ by lia. apply IH. lia.
Qed.

Lemma trailing_zeros_testbit w z i : 0 <= z -> 0 <= i < trailing_zeros w z -> Z.testbit z i = false.
Proof.
  intros Hz Hi. destruct z as [|p|]; [apply Z.testbit_0_l|by apply ctz_testbit|lia].
Qed.

Lemma trailing_ones_testbit w m i : 0 <= w -> fits w m -> 0 <= i < trailing_ones w m -> i < w ->
  Z.testbit m i = true.
Proof.
  intros Hw Hm Hi Hiw. pose proof (fits_bnot w m Hw Hm) as [H0 _].
  pose proof (trailing_zeros_testbit w (bnot w m) i H0 Hi) as Hb.
  rewrite testbit_bnot in Hb by lia. destruct (Z.ltb_spec i w); [|lia]. by destruct (Z.testbit m i).
Qed.

Lemma trailing_zeros_set w z : 0 < z -> Z.testbit z (trailing_zeros w z) = true.
Proof.
  destruct z as [|p|p]; [lia| |lia]. intros _. cbn [trailing_zeros].
  induction p as [p IH|p IH|]; cbn [ctz_pos]; [done| |done].
  change (Zpos p~0) with (2 * Zpos p). by rewrite Z.add_comm, Z.add_1_r, Z.double_bits_succ.
Qed.

(** The bits of a count up to [m]. *)
Lemma fits_count m n : 0 <= n <= m -> m < 256 -> fits (8 - leading_zeros 8 m) n.
Proof.
  intros Hn Hm. unfold leading_zeros. replace (8 - _) with (bit_length m) by lia.
  pose proof (fits_bit_length m ltac:(lia)) as [_ H]. unfold fits. lia.
Qed.

Lemma bit_count_range it op b u : is_scalar it = true -> fits (bits it) b ->
  (op = Ones -> fits u b /\ 0 <= u) -> let m := if decide (op = Ones) then u else bits it in
  0 <= int_bit_count it op b <= m.
Proof.
  intros Hs Hb Hu m. subst m. pose proof (scalar_bits it Hs). destruct op; simpl.
  - destruct (Hu eq_refl). by apply count_ones_le.
  - unfold leading_zeros. pose proof (bit_length_le (bits it) b ltac:(lia) Hb). lia.
  - pose proof (trailing_zeros_nonneg 64 b ltac:(lia)). lia.
Qed.

Lemma fits_shiftl u n z : 0 <= n -> 0 <= u -> fits u z -> fits (u + n) (Z.shiftl z n).
Proof.
  intros Hn Hu [H0 H1]. rewrite Z.shiftl_mul_pow2 by lia. unfold fits.
  rewrite Z.pow_add_r by lia. pose proof (pow2_pos n Hn). nia.
Qed.
Lemma fits_shiftr u n z : 0 <= n -> u <= 255 -> fits u z -> fits (sat8 (u - n)) (Z.shiftr z n).
Proof.
  intros Hn Hu H. pose proof (fits_nonneg_width u z H). apply fits_of_bits; [unfold sat8; lia|].
  intros i Hi. rewrite testbit_shiftr by lia. rewrite (fits_testbit u); [btauto|done|].
  unfold sat8 in Hi. lia.
Qed.
Lemma fits_wrap_min u w z : 0 <= w -> fits u z -> fits (Z.min u w) (wrap w z).
Proof.
  intros Hw H. apply fits_min; [|by apply wrap_fits]. destruct H as [H0 H1].
  pose proof (pow2_pos w Hw). unfold wrap. split; [apply Z.mod_pos_bound; lia|].
  eapply Z.le_lt_trans; [apply Z.mod_le; lia | done].
Qed.
Lemma fits_add a b x y : fits a x -> fits b y -> fits (Z.max a b + 1) (x + y).
Proof.
  intros Hx Hy. apply (fits_max_l a b) in Hx as Hx'. apply (fits_max_r a b) in Hy as Hy'.
  pose proof (fits_nonneg_width _ _ Hx'). destruct Hx', Hy'. unfold fits.
  rewrite Z.pow_add_r by lia. lia.
Qed.
Lemma fits_mul a b x y : fits a x -> fits b y -> fits (a + b) (x * y).
Proof.
  intros Hx Hy. pose proof (fits_nonneg_width _ _ Hx). pose proof (fits_nonneg_width _ _ Hy).
  destruct Hx, Hy. unfold fits. rewrite Z.pow_add_r by lia. nia.
Qed.
Lemma fits_land_min a b x y : fits a x -> fits b y -> fits (Z.min a b) (Z.land x y).
Proof.
  intros Hx Hy. pose proof (fits_nonneg_width _ _ Hx). pose proof (fits_nonneg_width _ _ Hy).
  apply fits_min; [by apply fits_land_l | by apply fits_land_r].
Qed.
Lemma fits_lor_max a b x y : fits a x -> fits b y -> fits (Z.max a b) (Z.lor x y).
Proof.
  intros Hx Hy. pose proof (fits_nonneg_width _ _ Hx).
  apply fits_lor; [lia| |]; [by apply fits_max_l | by apply fits_max_r].
Qed.
Lemma fits_lxor_max a b x y : fits a x -> fits b y -> fits (Z.max a b) (Z.lxor x y).
Proof.
  intros Hx Hy. pose proof (fits_nonneg_width _ _ Hx).
  apply fits_lxor; [lia| |]; [by apply fits_max_l | by apply fits_max_r].
Qed.
Lemma fits_div u a b q : checked_udiv a b = Some q -> fits u a -> 0 <= b -> fits u q.
Proof.
  unfold checked_udiv. destruct (Z.eqb_spec b 0); [done|]. intros [= <-] [H0 H1] Hb.
  split; [apply Z.div_pos; lia|]. eapply Z.le_lt_trans; [|exact H1].
  apply Z.div_le_upper_bound; nia.
Qed.
Lemma fits_rem u a b r : checked_urem a b = Some r -> fits u a -> 0 <= b -> fits u r.
Proof.
  unfold checked_urem. destruct (Z.eqb_spec b 0); [done|]. intros [= <-] [H0 H1] Hb.
  pose proof (Z.mod_pos_bound a b ltac:(lia)). split; [lia|]. eapply Z.le_lt_trans; [|exact H1].
  apply Z.mod_le; lia.
Qed.

Lemma shift_count_range ty n : 0 <= shift_count ty n < (if decide (ty = I64) then 64 else 32).
Proof.
  unfold shift_count. destruct (decide (ty = I64)).
  - change 63 with (Z.ones 6). rewrite Z.land_ones by lia. apply Z.mod_pos_bound. lia.
  - change 31 with (Z.ones 5). rewrite Z.land_ones by lia. apply Z.mod_pos_bound. lia.
Qed.
Lemma shift_count_carrier ty n : is_integer ty = true -> shift_count (carrier ty) n = shift_count ty n.
Proof. by destruct ty. Qed.

(** The bounds of an operand, with what they say of its value. *)
Ltac operand_bounds :=
  repeat match goal with
  | H : (_ ≫= _) = Some _ |- _ => apply bind_Some in H as (? & ? & H)
  | H : _ <$> _ = Some _ |- _ => apply fmap_Some in H as (? & ? & H)
  | H : Some _ = Some _ |- _ => apply (inj Some) in H; subst
  end; subst.

Lemma scalar_of_carrier a b : carrier a = carrier b -> is_scalar b = true -> is_scalar a = true.
Proof. intros H Hb. by rewrite <- carrier_scalar, H, carrier_scalar. Qed.
Lemma integer_of_carrier a b : carrier a = carrier b -> is_integer b = true -> is_integer a = true.
Proof. intros H Hb. by rewrite <- carrier_integer, H, carrier_integer. Qed.

Section Sound.
Context (t : ValueTable) (rho : Valuation) (Hwf : wf t) (Hm : model t rho).
#[local] Set Default Proof Using "All".

Lemma lanes_fit lane_type v : is_lane lane_type = true ->
  fits (128 / bits lane_type) (eval_bitmask lane_type v).
Proof.
  intros Hl. unfold eval_bitmask.
  assert (forall n k acc, fits (Z.of_nat k) acc ->
    fits (Z.of_nat (k + n)) (foldl (fun mask i => Z.lor mask (Z.shiftl
      (Z.land (Z.shiftr v ((Z.of_nat i + 1) * bits lane_type - 1)) 1) (Z.of_nat i))) acc (seq k n)))
    as Hgen.
  { induction n as [|n IH]; intros k acc Hacc; simpl; [by rewrite Nat.add_0_r|].
    replace (k + S n)%nat with (S k + n)%nat by lia. apply IH. apply fits_lor; [lia| |].
    - eapply fits_mono; [|exact Hacc]. lia.
    - replace (Z.of_nat (S k)) with (1 + Z.of_nat k) by lia. apply fits_shiftl; [lia..|].
      apply fits_land_r; [lia|]. by apply (bool_decide_unpack _). }
  specialize (Hgen (Z.to_nat (128 / bits lane_type)) 0%nat 0 ltac:(by apply (bool_decide_unpack _))).
  by destruct lane_type.
Qed.

Lemma unsigned_unary_sound ty op x l u : typed t ty (EUnary op x) ->
  eval t rho ty (EUnary op x) 0 = Some l ->
  unsigned_bits (mkValue ty (DExpression (EUnary op x))) (values t) (bounds t) = Some u ->
  fits u (lit_u128 l).
Proof.
  intros Ht He Hu. pose proof (ok_fits _ _ (eval_ok _ _ _ _ _ _ Hm Ht He)) as Hfull.
  apply typed_unary in Ht as (tx & Hx & Ht). unfold unsigned_bits in Hu.
  cbn [definition Values.ty] in Hu.
  destruct op; cbn [unary_typed] in Ht; btyping; try (operand_bounds; done).
  - (* BitCount *)
    rewrite (ev_unary t rho Hm _ _ x tx) in He by done. cbn [eval_unary] in He.
    rewrite t_scalar_carrier in He by solve_scalar. cbn [mbind option_bind] in He. simplify_eq.
    rewrite (normalize_carrier ty), u128_lit, (normalize_wrap input_type) by solve_scalar.
    pose proof (has_bounds t x tx Hwf Hx) as [b Hb].
    pose proof (unsigned_val t rho x tx b Hwf Hm Hx ltac:(solve_scalar) Hb) as Hub.
    pose proof (wf_range t Hwf x b Hb) as Hr. pose proof (scalar_bits input_type ltac:(solve_scalar)).
    pose proof (bit_count_range input_type op (wrap (bits input_type) (val rho x)) (unsigned b)
      ltac:(solve_scalar) ltac:(apply wrap_fits; lia)) as Hbc.
    cbv zeta in Hbc. destruct Hbc as [Hb0 Hb1].
    { intros _. split; [|lia]. eapply fits_mono; [|apply fits_wrap_min; [|exact Hub]]; lia. }
    eapply fits_mono; [apply Z.le_min_l with (m := cbits ty)|]. apply fits_wrap_min.
    { pose proof (bits_pos (carrier ty)); lia. }
    rewrite Hb in Hu.
    destruct op; cbn in Hu; simplify_eq; apply fits_count; try lia; exact (conj Hb0 Hb1).
  - (* ExtractLane *)
    rewrite (ev_extract t rho Hm _ _ x tx) in He by done. simplify_eq. rewrite u128_lit.
    rewrite normalize_wrap by by destruct ty. apply wrap_fits. pose proof (bits_pos ty). lia.
  - (* Bitmask *)
    rewrite (ev_unary t rho Hm _ _ x tx) in He by done. cbn [eval_unary] in He. simplify_eq.
    rewrite u128_lit, normalize_carrier by solve_scalar.
    eapply fits_mono; [apply Z.le_min_l with (m := cbits ty)|].
    apply fits_wrap_min; [pose proof (bits_pos (carrier ty)); lia|]. by apply lanes_fit.
  - (* Reinterpret *)
    destruct (decide (ty = V64)); [by operand_bounds|]. operand_bounds.
    apply fits_min; [|done]. destruct (input_bounded _ _ _ _ _ Hwf Hm Hx ltac:(eassumption)) as [Hb _].
    rewrite (ev_reinterpret t rho Hm _ x tx) in He by done. rewrite decide_False in He by done.
    simplify_eq. rewrite u128_lit. eapply fits_mono; [apply Z.le_min_l with (m := 64)|].
    by apply fits_wrap_min.
  - (* ZeroTest *)
    rewrite (ev_zero_test t rho Hm _ _ x tx) in He by done. simplify_eq. rewrite u128_lit.
    destruct (Bool.eqb _ _); by apply (bool_decide_unpack _).
  - (* Convert *)
    operand_bounds. apply fits_min; [|done].
    destruct (input_bounded _ _ _ _ _ Hwf Hm Hx ltac:(eassumption)) as [Hb _].
    rewrite (ev_convert t rho Hm _ x tx) in He by done. simplify_eq.
    destruct (is_scalar ty) eqn:Hs.
    + rewrite lit_normalize_scalar by by rewrite carrier_scalar. rewrite u128_lit.
      eapply fits_mono; [apply Z.le_min_l with (m := cbits ty)|].
      apply fits_wrap_min; [pose proof (bits_pos (carrier ty)); lia|].
      fold (val rho x). rewrite <- (vec_val t rho Hm x tx); [done..|].
      unfold convertible, is_vector in Ht. rewrite Hs in Ht.
      destruct (bool_decide_reflect (tx = ty)) as [->|]; [done|].
      rewrite andb_false_r, orb_false_r in Ht. cbn [orb] in Ht.
      apply andb_true_iff in Ht as [? _]. solve_scalar.
    + by rewrite carrier_vector by (unfold is_vector; by rewrite Hs).
  - (* LowBits *)
    operand_bounds. rewrite (ev_low_bits t rho Hm _ _ x tx) in He by (done || lia). simplify_eq.
    rewrite u128_lit. apply fits_wrap_min; [lia|]. by eapply unsigned_val; [| |done|solve_scalar|].
Qed.

Lemma unsigned_binary_sound ty op x y l u : typed t ty (EBinary op x y) ->
  premise rho ty (EBinary op x y) ->
  eval t rho ty (EBinary op x y) 0 = Some l ->
  unsigned_bits (mkValue ty (DExpression (EBinary op x y))) (values t) (bounds t) = Some u ->
  fits u (lit_u128 l).
Proof.
  intros Ht Hp He Hu. pose proof (ok_fits _ _ (eval_ok _ _ _ _ _ _ Hm Ht He)) as Hfull.
  apply typed_binary in Ht as (tx & ty' & Hx & Hy & Ht). unfold unsigned_bits in Hu.
  cbn [definition Values.ty] in Hu. pose proof (bits_pos (carrier ty)) as Hc.
  destruct op as [op|op| | | |op| | | | |]; try (operand_bounds; done).
  - (* Bitwise *)
    cbn [binary_typed] in Ht. btyping.
    destruct (ev_bitwise t rho Hm ty op x y tx ty' 0) as (l' & He' & _ & Hl); [done..|].
    rewrite He in He'. simplify_eq. rewrite Hl.
    destruct op; operand_bounds;
      destruct (input_bounded _ _ _ _ _ Hwf Hm Hx ltac:(eassumption)) as [Hbx _];
      destruct (input_bounded _ _ _ _ _ Hwf Hm Hy ltac:(eassumption)) as [Hby _]; simpl.
    + by apply fits_land_min.
    + by apply fits_lor_max.
    + by apply fits_lxor_max.
  - (* Compare *)
    assert (exists b : bool, l = lit (Z.b2z b)) as [b ->].
    { rewrite (ev_binary t rho Hm _ _ x y tx ty') in He by done.
      destruct op as [op|op]; cbn [binary_typed eval_binary] in Ht, He; btyping;
        rewrite !t_scalar_carrier in He
          by first [solve_scalar | by subst | apply integer_scalar; by eapply integer_of_carrier];
        cbn [mbind option_bind] in He; simplify_eq;
        eexists; rewrite normalize_carrier by solve_scalar; rewrite wrap_small; [done| |done|];
        (destruct (cbits_integer ty ltac:(done)) as [-> | ->]);
        match goal with |- fits _ (Z.b2z ?b) => destruct b end; by apply (bool_decide_unpack _). }
    rewrite u128_lit. operand_bounds. destruct b; by apply (bool_decide_unpack _).
  - (* Integer *)
    assert (is_integer ty = true /\ carrier tx = carrier ty /\ carrier ty' = carrier ty) as (Hi & Hcx & Hcy).
    { destruct op; cbn [binary_typed] in Ht; btyping; subst; done. }
    assert (is_scalar tx = true) as Hsx by (eapply scalar_of_carrier; [done|solve_scalar]).
    assert (is_scalar ty' = true) as Hsy by (eapply scalar_of_carrier; [done|solve_scalar]).
    rewrite (ev_integer t rho Hm _ _ x y tx ty') in He by done.
    apply fmap_Some in He as (b & Hb & ->). rewrite u128_lit in *.
    destruct op; cbn [int_binary] in Hb; operand_bounds; try done.
    + rewrite wrap_carrier_64 by solve_scalar.
      apply fits_min; [|apply wrap_fits; lia].
      pose proof (unsigned_val _ _ _ _ _ Hwf Hm Hx Hsx ltac:(eassumption)) as HA.
      pose proof (unsigned_val _ _ _ _ _ Hwf Hm Hy Hsy ltac:(eassumption)) as HB.
      pose proof (fits_add _ _ _ _ HA HB) as HC.
      pose proof (wf_range t Hwf x _ ltac:(eassumption)). pose proof (wf_range t Hwf y _ ltac:(eassumption)).
      rewrite sat8_spec by lia. eapply fits_mono; [|apply fits_wrap_min; [|exact HC]]; lia.
    + rewrite wrap_carrier_64 by solve_scalar.
      apply fits_min; [|apply wrap_fits; lia].
      pose proof (unsigned_val _ _ _ _ _ Hwf Hm Hx Hsx ltac:(eassumption)) as HA.
      pose proof (unsigned_val _ _ _ _ _ Hwf Hm Hy Hsy ltac:(eassumption)) as HB.
      pose proof (fits_mul _ _ _ _ HA HB) as HC.
      pose proof (wf_range t Hwf x _ ltac:(eassumption)). pose proof (wf_range t Hwf y _ ltac:(eassumption)).
      match goal with |- fits (sat8 ?n) _ =>
        assert (sat8 n = n \/ cbits ty <= sat8 n) as [-> | Hge] by (unfold sat8; lia) end.
      * eapply fits_mono; [|apply fits_wrap_min; [|exact HC]]; lia.
      * eapply fits_mono; [exact Hge|]. apply wrap_fits. lia.
    + cbn [premise] in Hp. pose proof (val_fits t rho Hm y ty' Hy Hsy) as [H0 _].
      eapply fits_mono; [apply Z.le_min_l with (m := cbits ty)|].
      apply fits_wrap_min; [lia|]. by eapply fits_div.
    + cbn [premise] in Hp. pose proof (val_fits t rho Hm y ty' Hy Hsy) as [H0 _].
      eapply fits_mono; [apply Z.le_min_l with (m := cbits ty)|].
      apply fits_wrap_min; [lia|]. by eapply fits_rem.
Qed.

Lemma unsigned_shift_sound ty op x y l u : typed t ty (EShift op x y) ->
  eval t rho ty (EShift op x y) 0 = Some l ->
  unsigned_bits (mkValue ty (DExpression (EShift op x y))) (values t) (bounds t) = Some u ->
  fits u (lit_u128 l).
Proof.
  intros Ht He Hu. pose proof (ok_fits _ _ (eval_ok _ _ _ _ _ _ Hm Ht He)) as Hfull.
  apply typed_shift in Ht as (tx & ty' & Hx & Hy & Ht). unfold unsigned_bits in Hu.
  cbn [definition Values.ty] in Hu. pose proof (bits_pos (carrier ty)) as Hc.
  unfold shift_typed in Ht. destruct op as [op| |]; btyping; try (operand_bounds; done).
  assert (is_scalar tx = true) as Hsx by solve_scalar.
  rewrite (ev_shift_scalar t rho Hm _ _ x y tx ty') in He by done. simplify_eq. rewrite u128_lit in *.
  apply bind_Some in Hu as (cv & Hcv & Hu).
  pose proof (shift_count_range (carrier ty) (wrap 32 (val rho y))) as Hcr.
  destruct (scalar_literal cv) as [b|] eqn:Hsl.
  - pose proof (scalar_at_val t rho y cv b Hm Hcv Hsl) as Hyb. subst b.
    rewrite <- shift_count_carrier in Hu by done.
    destruct op; operand_bounds; try done.
    + pose proof (unsigned_val _ _ _ _ _ Hwf Hm Hx Hsx ltac:(eassumption)) as HA.
      pose proof (wf_range t Hwf x _ ltac:(eassumption)).
      cbn [int_shift] in *. rewrite wrap_carrier_64 in * by solve_scalar.
      assert (0 <= shift_count (carrier ty) (wrap 32 (val rho y)) < 64) as Hcr'
        by (destruct (decide _); lia).
      rewrite sat8_spec by lia. apply fits_min; [|apply wrap_fits; lia].
      eapply fits_mono; [|apply fits_wrap_min; [|apply fits_shiftl; [| |exact HA]]]; lia.
    + pose proof (unsigned_val _ _ _ _ _ Hwf Hm Hx Hsx ltac:(eassumption)) as HA.
      pose proof (wf_range t Hwf x _ ltac:(eassumption)). cbn [int_shift] in *.
      eapply fits_mono; [apply Z.le_min_l with (m := cbits ty)|].
      apply fits_wrap_min; [lia|]. apply fits_shiftr; [lia..|done].
  - destruct op; operand_bounds; try done.
    pose proof (unsigned_val _ _ _ _ _ Hwf Hm Hx Hsx ltac:(eassumption)) as HA.
    pose proof (wf_range t Hwf x _ ltac:(eassumption)). cbn [int_shift] in *.
    eapply fits_mono; [apply Z.le_min_l with (m := cbits ty)|]. apply fits_wrap_min; [lia|].
    eapply (fits_mono (sat8 (_ - shift_count (carrier ty) (wrap 32 (val rho y)))));
      [|apply fits_shiftr; [| |exact HA]; lia]. unfold sat8; lia.
Qed.

Lemma unsigned_ternary_sound ty op x y z l u : typed t ty (ETernary op x y z) ->
  eval t rho ty (ETernary op x y z) 0 = Some l ->
  unsigned_bits (mkValue ty (DExpression (ETernary op x y z))) (values t) (bounds t) = Some u ->
  fits u (lit_u128 l).
Proof.
  intros Ht He Hu. pose proof (ok_fits _ _ (eval_ok _ _ _ _ _ _ Hm Ht He)) as Hfull.
  apply typed_ternary in Ht as (tx & ty' & tz & Hx & Hy & Hz & Ht).
  destruct op; cbn [ternary_typed unsigned_bits definition Values.ty] in Ht, Hu; btyping;
    try (operand_bounds; done).
  rewrite (ev_select t rho Hm _ x y z tx ty' tz) in He by done. operand_bounds.
  destruct (input_bounded _ _ _ _ _ Hwf Hm Hx ltac:(eassumption)) as [Hbx _].
  destruct (input_bounded _ _ _ _ _ Hwf Hm Hy ltac:(eassumption)) as [Hby _].
  destruct (negb _); [by apply fits_max_l | by apply fits_max_r].
Qed.

Lemma unsigned_sound ty e l u : typed t ty e -> premise rho ty e -> eval t rho ty e 0 = Some l ->
  unsigned_bits (mkValue ty (DExpression e)) (values t) (bounds t) = Some u -> fits u (lit_u128 l).
Proof.
  intros Ht Hp He Hu. destruct e as [op x|op x y|op x y|op x y z|s x y].
  - by eapply unsigned_unary_sound.
  - by eapply unsigned_binary_sound.
  - by eapply unsigned_shift_sound.
  - by eapply unsigned_ternary_sound.
  - cbn in Hu. simplify_eq. by eapply ok_fits, eval_ok.
Qed.

(** ** Signed widths of each operator *)

Lemma sfits_mul w a b p q : 0 < w -> sfits w a p -> sfits w b q -> fits w p -> fits w q ->
  a + b <= w -> sfits w (a + b) (wrap w (p * q)).
Proof.
  intros Hw [HA HB] [HC HD] Hp Hq Hab.
  assert (0 < a) by (destruct (decide (0 < a)); [done|]; rewrite !Z.pow_neg_r in HA, HB by lia; lia).
  assert (0 < b) by (destruct (decide (0 < b)); [done|]; rewrite !Z.pow_neg_r in HC, HD by lia; lia).
  assert (wrap w (p * q) = wrap w (to_signed w p * to_signed w q)) as ->.
  { rewrite <- wrap_mul_l, <- wrap_mul_r. rewrite <- (to_signed_mod w p), <- (to_signed_mod w q) by done.
    by rewrite wrap_mul_l, wrap_mul_r. }
  apply sfits_wrap; [lia|].
  assert (2 ^ (a + b - 1) = 2 * (2 ^ (a - 1) * 2 ^ (b - 1))) as ->.
  { rewrite <- Z.pow_add_r, <- Z.pow_succ_r by lia. f_equal. lia. }
  set (P := 2 ^ (a - 1)) in *. set (Q := 2 ^ (b - 1)) in *.
  assert (0 < P) by (apply pow2_pos; lia). assert (0 < Q) by (apply pow2_pos; lia).
  set (p' := to_signed w p) in *. set (q' := to_signed w q) in *.
  assert (Z.abs (p' * q') <= P * Q) as Habs; [|lia].
  rewrite Z.abs_mul. apply Z.mul_le_mono_nonneg; lia.
Qed.

(** Sign extension from [n] bits keeps a narrower signed value. *)
Lemma sfits_sign_extend v w s n z : 0 < n <= v -> 0 < n <= w -> sfits v s z -> s <= n -> fits v z ->
  sfits w s (wrap w (to_signed n z)).
Proof.
  intros Hv Hw [HA HB] Hs Hz.
  assert (0 < s) by (destruct (decide (0 < s)); [done|]; rewrite !Z.pow_neg_r in HA, HB by lia; lia).
  assert (to_signed n z = to_signed v z) as ->.
  { rewrite <- (to_signed_wrap_range n (to_signed v z)).
    - apply to_signed_eq; [lia|]. rewrite wrap_wrap. rewrite <- (wrap_idem_le n v (to_signed v z)) by lia.
      rewrite to_signed_mod by lia. by rewrite wrap_idem_le by lia.
    - lia.
    - assert (2 ^ (s - 1) <= 2 ^ (n - 1)) by (apply Z.pow_le_mono_r; lia). lia. }
  apply sfits_wrap; lia.
Qed.

Lemma sfits_truncate v w s z : 0 < w <= v -> sfits v s z -> fits v z ->
  sfits w (Z.min s w) (wrap w z).
Proof.
  intros Hw Hs Hz. destruct (decide (s <= w)).
  - rewrite Z.min_l by done. rewrite <- (to_signed_mod w z) by lia.
    apply (sfits_sign_extend v w s w); lia || done.
  - rewrite Z.min_r by lia. apply sfits_full. lia.
Qed.

Lemma for_value_sound ty e l b : typed t ty e -> premise rho ty e -> eval t rho ty e 0 = Some l ->
  for_value (mkValue ty (DExpression e)) (values t) (bounds t) = Some b -> bounded ty b l.
Proof.
  intros Ht Hp He Hb. pose proof (eval_ok _ _ _ _ _ _ Hm Ht He) as Hok.
  pose proof (ok_fits _ _ Hok) as Hfull. pose proof (bits_pos (carrier ty)) as Hc.
  unfold for_value in Hb. apply bind_Some in Hb as (u & Hu & Hb).
  apply bind_Some in Hb as (s & Hs & Hb). apply (inj Some) in Hb as <-.
  pose proof (unsigned_sound _ _ _ _ Ht Hp He Hu) as Hunsigned.
  split; [done|]. cbn [signed definition Values.ty] in Hs |- *.
  pose proof (sfits_fallback (cbits ty) u (lit_u128 l) ltac:(lia) (fits_nonneg_width _ _ Hunsigned)
    Hunsigned Hfull) as Hfallback.
  destruct e as [op x|op x y|op x y|op x y z|sg x y]; try (operand_bounds; done).
  - apply typed_unary in Ht as (tx & Hx & Ht).
    destruct op; try (operand_bounds; done); cbn [unary_typed] in Ht; btyping.
    + (* SignExtend *)
      operand_bounds. rewrite (ev_sign_extend t rho Hm _ _ x tx) in He by done. simplify_eq.
      rewrite u128_lit.
      pose proof (signed_val _ _ _ _ _ Hwf Hm Hx ltac:(solve_scalar) ltac:(eassumption)) as Hsx.
      pose proof (val_fits t rho Hm x tx Hx ltac:(solve_scalar)) as Hfx.
      pose proof (bits_pos input_type). pose proof (bits_carrier ty).
      match goal with |- sfits _ (Z.min ?s _) _ => destruct (decide (s <= bits input_type)) end.
      * rewrite Z.min_l by done. eapply sfits_sign_extend; [| |exact Hsx|done|done]; lia.
      * rewrite Z.min_r by lia. apply sfits_wrap; [lia|]. apply to_signed_range. lia.
    + (* Convert *)
      apply bind_Some in Hs as (source & Hsource & Hs).
      assert (Values.ty source = tx) as Htx by (unfold type_at in Hx; rewrite Hsource in Hx; by simplify_eq/=).
      rewrite (ev_convert t rho Hm _ x tx) in He by done. simplify_eq.
      destruct (bool_decide (ty = I64) && negb (bool_decide (Values.ty source = I64))) eqn:Hwide; btyping.
      * subst ty. unfold convertible in Ht. operand_bounds.
        rewrite bool_decide_eq_false_2 in Ht by done. cbn [orb] in Ht.
        rewrite (andb_false_r (is_vector _)), orb_false_r in Ht. btyping.
        rewrite convert_val with (t := t) (tx := Values.ty source) in * by done. rewrite u128_lit in *.
        pose proof (unsigned_val _ _ _ _ _ Hwf Hm Hx ltac:(solve_scalar) ltac:(eassumption)) as HA.
        apply sfits_fallback; [lia|by eapply fits_nonneg_width| |done].
        eapply fits_mono; [|apply fits_wrap_min; [|exact HA]]; lia.
      * operand_bounds.
        destruct (input_bounded _ _ _ _ _ Hwf Hm Hx ltac:(eassumption)) as [_ Hsx].
        pose proof (vec_fits t rho Hm x _ Hx) as Hvx. fold (vec rho x) in Hsx.
        destruct (is_scalar ty) eqn:Hsc.
        -- assert (is_scalar (Values.ty source) = true) as Hss.
           { unfold convertible, is_vector in Ht. rewrite Hsc in Ht.
             destruct (bool_decide_reflect (Values.ty source = ty)) as [->|]; [done|].
             rewrite andb_false_r, orb_false_r in Ht. cbn [orb] in Ht. btyping. solve_scalar. }
           rewrite lit_normalize_scalar by by rewrite carrier_scalar. rewrite u128_lit.
           fold (val rho x). rewrite <- (vec_val t rho Hm x _ Hx Hss).
           destruct (decide (cbits ty <= cbits (Values.ty source))).
           ++ eapply sfits_truncate; [|exact Hsx|done]. lia.
           ++ exfalso. unfold convertible, is_vector in Ht. rewrite Hsc in Ht.
              destruct (bool_decide_reflect (Values.ty source = ty)); [subst; lia|].
              rewrite andb_false_r, orb_false_r in Ht. cbn [orb] in Ht. btyping.
              destruct (Values.ty source), ty; simpl in *; done || lia.
        -- assert (is_vector ty = true) as Hv by (unfold is_vector; by rewrite Hsc).
           assert (is_vector (Values.ty source) = true) as Hvs.
           { unfold convertible in Ht. destruct (bool_decide_reflect (Values.ty source = ty)) as [Heq|]; [by rewrite Heq|].
             assert (is_integer ty = false) as Hni by by destruct ty.
             rewrite Hni, andb_false_r in Ht. cbn [orb] in Ht. by btyping. }
           rewrite (carrier_vector ty) in * by done. rewrite lit_normalize_V128.
           rewrite (carrier_vector (Values.ty source)) in Hsx by done.
           apply sfits_min; [exact Hsx|]. apply sfits_full. simpl. lia.
  - destruct op as [| | | | |[]| | | | |]; try (operand_bounds; done).
    apply typed_binary in Ht as (tx & ty' & Hx & Hy & Ht). cbn [binary_typed] in Ht. btyping.
    assert (is_scalar tx = true) as Hsx by (eapply scalar_of_carrier; [done|solve_scalar]).
    assert (is_scalar ty' = true) as Hsy by (eapply scalar_of_carrier; [done|solve_scalar]).
    rewrite (ev_integer t rho Hm _ _ x y tx ty') in He by done. cbn [int_binary fmap option_fmap option_map] in He.
    apply (inj Some) in He as <-. rewrite u128_lit in *. rewrite wrap_carrier_64 in * by solve_scalar.
    operand_bounds.
    pose proof (signed_val _ _ _ _ _ Hwf Hm Hx Hsx ltac:(eassumption)) as HA.
    pose proof (signed_val _ _ _ _ _ Hwf Hm Hy Hsy ltac:(eassumption)) as HB.
    pose proof (val_fits t rho Hm x tx Hx Hsx). pose proof (val_fits t rho Hm y ty' Hy Hsy).
    pose proof (wf_range t Hwf x _ ltac:(eassumption)). pose proof (wf_range t Hwf y _ ltac:(eassumption)).
    assert (carrier tx = carrier ty) as Ecx by done. assert (carrier ty' = carrier ty) as Ecy by done.
    rewrite Ecx in *. rewrite Ecy in *.
    apply sfits_min; [|apply sfits_full; lia].
    match goal with |- sfits _ (sat8 ?n) _ => destruct (decide (n <= cbits ty)) end.
    + rewrite sat8_spec by lia. apply sfits_mul; done || lia.
    + eapply sfits_mono; [|apply sfits_full; lia]. unfold sat8; lia.
Qed.
End Sound.
