(* ===== verification/Table.v ===== *)
(** * Operations of the value table

    [push], [intern], [literal] and [representation] keep a table well-formed,
    extend it, and return values with the meaning of their definition. *)

From S2P Require Import Prelude Bytes Types Floating Expr Evaluate Values Model Carrier Bounds.
Local Open Scope Z_scope.

(** ** Bounds exist and are u8 widths of a carrier *)

Definition in_range (b : BitBounds) : Prop := 0 <= unsigned b <= 128 /\ 1 <= signed b <= 128.

Definition definable (t : ValueTable) (v : Value) : Prop :=
  match definition v with
  | DLiteral l => lit_ok (carrier (ty v)) l
  | DExpression e => typed t (ty v) e
  | _ => True
  end.

Lemma input_range t x tx : wf t -> type_at t x = Some tx ->
  exists b v, bounds t !! x = Some b /\ values t !! x = Some v /\ ty v = tx /\ in_range b.
Proof.
  intros Hwf Hx. destruct (has_bounds t x tx Hwf Hx) as [b Hb].
  apply fmap_Some in Hx as (v & Hv & ->). exists b, v. split_and!; try done; apply (wf_range t Hwf x b Hb).
Qed.

Lemma unsigned_literal_range l : lit_words l -> 0 <= unsigned_bits_of l <= 128.
Proof.
  intros [Hl Hh]. unfold unsigned_bits_of, leading_zeros.
  pose proof (bit_length_le 64 (low l) ltac:(lia) Hl). pose proof (bit_length_le 64 (high l) ltac:(lia) Hh).
  destruct (high l =? 0); lia.
Qed.

Lemma signed_literal_range c l : 1 <= signed_literal_bits c l <= 128.
Proof.
  unfold signed_literal_bits, leading_zeros. set (x := if c =? 64 then to_signed 64 l else to_signed 32 l).
  assert (- 2 ^ 63 <= x < 2 ^ 63) as Hx.
  { subst x. destruct (c =? 64).
    - apply (to_signed_range 64 l ltac:(lia)).
    - pose proof (to_signed_range 32 l ltac:(lia)). lia. }
  assert (fits 63 (if x <? 0 then Z.lnot x else x)) as Hf.
  { unfold fits, Z.lnot. destruct (Z.ltb_spec x 0); lia. }
  pose proof (bit_length_le 63 _ ltac:(lia) Hf). lia.
Qed.

Lemma count_range m : 0 <= m <= 128 -> 0 <= 8 - leading_zeros 8 m <= 128.
Proof.
  intros Hm. unfold leading_zeros.
  pose proof (bit_length_le 8 m ltac:(lia) ltac:(unfold fits; lia)). lia.
Qed.

Lemma unsigned_defined t v : wf t -> definable t v ->
  exists u, unsigned_bits v (values t) (bounds t) = Some u /\ 0 <= u <= 128.
Proof.
  intros Hwf Hd. unfold definable, unsigned_bits in *. pose proof (bits_pos (carrier (ty v))) as Hc.
  pose proof (bits_pos (ty v)) as Hb.
  destruct (definition v) as [l|e| |[|] ]; try (eexists; split; [done|]; lia).
  { eexists. split; [done|]. apply unsigned_literal_range, Hd. }
  destruct e as [op x|op x y|op x y|op x y z|s x y]; [| | | |eexists; split; [done|]; lia].
  - apply typed_unary in Hd as (tx & Hx & Ht).
    destruct (input_range t x tx Hwf Hx) as (b & w & -> & _ & _ & [Hr _]).
    destruct op; cbn [unary_typed] in Ht; btyping; try (eexists; split; [done|]; lia).
    + pose proof (bits_pos input_type).
      destruct op; eexists; (split; [done|]); apply count_range; cbn; lia.
    + eexists; split; [done|]. by destruct lane_type.
    + destruct (decide _); (eexists; split; [done|]); simpl; lia.
  - apply typed_binary in Hd as (tx & ty' & Hx & Hy & Ht).
    destruct (input_range t x tx Hwf Hx) as (b & w & -> & _ & _ & [Hr _]).
    destruct (input_range t y ty' Hwf Hy) as (b' & w' & -> & _ & _ & [Hr' _]).
    destruct op as [[]| | | | |[]| | | | |]; (eexists; split; [done|]); cbn; unfold sat8; lia.
  - apply typed_shift in Hd as (tx & ty' & Hx & Hy & Ht).
    destruct (input_range t x tx Hwf Hx) as (b & w & -> & _ & _ & [Hr _]).
    destruct (input_range t y ty' Hwf Hy) as (b' & w' & _ & -> & _ & _).
    destruct op as [op| |]; try (eexists; split; [done|]; lia). cbn [mbind option_bind].
    destruct (scalar_literal w') as [k|].
    + pose proof (shift_count_range (ty v) (wrap 32 k)).
      destruct op; (eexists; split; [done|]); cbn; unfold sat8; lia.
    + destruct op; (eexists; split; [done|]); cbn; lia.
  - apply typed_ternary in Hd as (tx & ty' & tz & Hx & Hy & Hz & Ht).
    destruct (input_range t x tx Hwf Hx) as (b & w & -> & _ & _ & [Hr _]).
    destruct (input_range t y ty' Hwf Hy) as (b' & w' & -> & _ & _ & [Hr' _]).
    destruct op; (eexists; split; [done|]); cbn; lia.
Qed.

Lemma for_value_defined t v : wf t -> definable t v ->
  exists b, for_value v (values t) (bounds t) = Some b /\ in_range b.
Proof.
  intros Hwf Hd. destruct (unsigned_defined t v Hwf Hd) as (u & Hu & Hur).
  unfold for_value. rewrite Hu. cbn [mbind option_bind]. unfold definable in Hd.
  pose proof (bits_pos (carrier (ty v))) as Hc.
  assert (1 <= Z.min (sat8 (u + 1)) (bits (carrier (ty v))) <= 128) as Hf by (unfold sat8; lia).
  destruct (definition v) as [l|e| |]; try (eexists; split; [done|]; split; done).
  { eexists; split; [done|]. split; [done|]. cbn [signed]. destruct (scalar l (ty v)); [|done].
    apply signed_literal_range. }
  destruct e as [op x|op x y|op x y|op x y z|s x y]; try (eexists; split; [done|]; split; done).
  - apply typed_unary in Hd as (tx & Hx & Ht).
    destruct (input_range t x tx Hwf Hx) as (b & w & -> & -> & _ & [Hr Hr']).
    destruct op; try (eexists; split; [done|]; split; done).
    + eexists; split; [done|]. split; [done|]. cbn. pose proof (bits_pos input_type). lia.
    + cbn [mbind option_bind]. destruct (_ && _); (eexists; split; [done|]); (split; [done|]); cbn;
        unfold sat8; lia.
  - apply typed_binary in Hd as (tx & ty' & Hx & Hy & Ht).
    destruct (input_range t x tx Hwf Hx) as (b & w & -> & _ & _ & [_ Hr]).
    destruct (input_range t y ty' Hwf Hy) as (b' & w' & -> & _ & _ & [_ Hr']).
    destruct op as [| | | | |[]| | | | |]; (eexists; split; [done|]); (split; [done|]); cbn; try done;
      unfold sat8; lia.
Qed.

(** ** Appending values *)

Lemma value_ok_extends t t' id v : wf t -> extends t t' -> value_ok t id v -> value_ok t' id v.
Proof.
  intros Hwf He Hok. unfold value_ok in *. destruct (definition v) as [l|e| |[|p] c]; try done.
  - destruct Hok as (Hin & Ha & Hres). split_and!; [done|by eapply admissible_extends|].
    intros c ty' Hc. by eapply extends_values, Hres.
  - destruct Hok as (c' & pv & e & -> & -> & Hp & Hrest). exists c', pv, e.
    split_and!; try done; [by eapply extends_values | apply Hrest | apply Hrest].
Qed.

Lemma wf_append t vs bs int : wf t ->
  let t' := mkTable (values t ++ vs) (bounds t ++ bs) int in
  length bs = length vs ->
  (forall i v, vs !! i = Some v -> value_ok t' (length (values t) + i)%nat v) ->
  Forall in_range bs ->
  (forall rho, model t' rho -> forall i v b, vs !! i = Some v -> bs !! i = Some b ->
     bounded (ty v) b (rho (length (values t) + i)%nat)) ->
  step t t'.
Proof.
  intros Hwf t' Hlen Hval Hrange Hbound.
  assert (extends t t') as He by (split; simpl; by eexists). split; [done|].
  pose proof (wf_length t Hwf) as Hl. split; simpl.
  - rewrite !length_app. lia.
  - intros id v Hv. apply lookup_app_Some in Hv as [Hv|[Hge Hv]].
    + eapply value_ok_extends; [done..|]. by apply wf_value.
    + replace id with (length (values t) + (id - length (values t)))%nat by lia. by apply Hval.
  - intros id b Hb. apply lookup_app_Some in Hb as [Hb|[Hge Hb]]; [by eapply wf_range|].
    exact (Forall_lookup_1 _ _ _ _ Hrange Hb).
  - intros rho Hm id v b Hv Hb. apply lookup_app_Some in Hv as [Hv|[Hge Hv]].
    + apply lookup_app_Some in Hb as [Hb|[Hge Hb]].
      * eapply wf_bounds; [exact Hwf|by eapply model_extends|done|done].
      * apply lookup_lt_Some in Hv. lia.
    + apply lookup_app_Some in Hb as [Hb|[Hge' Hb]]; [apply lookup_lt_Some in Hb; lia|].
      replace id with (length (values t) + (id - length (values t)))%nat by lia.
      eapply Hbound; [done|done|]. by rewrite <- Hl.
Qed.

(** The full carrier bounds every value. *)
Definition full_bounds (ty : Ty) : BitBounds :=
  mkBounds (cbits ty) (Z.min (sat8 (cbits ty + 1)) (cbits ty)).

Lemma full_bounded ty l : lit_ok (carrier ty) l -> bounded ty (full_bounds ty) l.
Proof.
  intros Hok. pose proof (ok_fits _ _ Hok) as Hf. pose proof (bits_pos (carrier ty)).
  split; [done|]. apply sfits_fallback; done || lia.
Qed.

Lemma full_in_range ty : in_range (full_bounds ty).
Proof. pose proof (bits_pos (carrier ty)). unfold in_range, full_bounds, sat8; simpl. lia. Qed.

(** One value that is not an expression with further results. *)
Lemma push_value_step t v b int : wf t -> definable t v ->
  for_value v (values t) (bounds t) = Some b ->
  match definition v with
  | DLiteral _ | DParameter _ _ | DResult (Effect _) _ => True
  | DExpression e => admissible t (ty v) e /\ length (result_types e (ty v)) = 1%nat
  | DResult (Evaluate _) _ => False
  end ->
  step t (mkTable (values t ++ [v]) (bounds t ++ [b]) int).
Proof.
  intros Hwf Hd Hb Hok. destruct (for_value_defined t v Hwf Hd) as (b' & Hb' & Hr).
  rewrite Hb in Hb'. simplify_eq.
  set (t' := mkTable (values t ++ [v]) (bounds t ++ [b']) int).
  assert (extends t t') as He by (split; simpl; by eexists).
  assert (values t' !! length (values t) = Some v) as Hnew by by apply list_lookup_middle.
  assert (bounds t' !! length (values t) = Some b') as Hnewb.
  { rewrite <- (wf_length t Hwf). by apply list_lookup_middle. }
  apply wf_append; [done|done| |by constructor|].
  - intros [|i] v' Hv'; [|done]. simplify_eq/=. rewrite Nat.add_0_r.
    unfold value_ok, definable in *.
    destruct (definition v') as [l|e| |[|] ]; try done.
    destruct Hok as [Ha Hlen]. split_and!.
    + eapply Forall_impl; [by eapply typed_inputs, Ha|]. intros i [tyi Hi]. by eapply type_at_lt.
    + by eapply admissible_extends.
    + intros c ty' Hc. apply lookup_lt_Some in Hc. lia.
  - intros rho Hm [|i] v' b Hv' Hb''; [|done]. simplify_eq/=. rewrite Nat.add_0_r.
    pose proof (m_ok t' rho Hm _ _ Hnew) as Hlit.
    destruct (determined t' rho (length (values t)) v') as [l|] eqn:Hdet; [|by eapply (m_free t' rho Hm)].
    rewrite (m_determined t' rho Hm _ _ _ Hnew Hdet) in Hlit |- *.
    pose proof (model_extends _ _ _ Hwf He Hm) as Hmt.
    unfold determined, definable in *.
    destruct v' as [vty [l'|e| |[|p] c] ]; cbn [definition ty] in *; try done.
    + simplify_eq. unfold for_value, unsigned_bits in Hb. cbn [definition Values.ty mbind option_bind] in Hb.
      simplify_eq. split; cbn [unsigned signed].
      * apply unsigned_bits_of_fits, Hlit.
      * unfold scalar. destruct (is_scalar vty) eqn:Hs; [by apply signed_literal_fits|].
        apply sfits_fallback.
        -- pose proof (bits_pos (carrier vty)). lia.
        -- apply (unsigned_literal_range l), Hlit.
        -- apply unsigned_bits_of_fits, Hlit.
        -- by apply ok_fits.
    + destruct Hok as [[Ht Hp] _]. rewrite (eval_extends t) with (ty0 := vty) in Hdet by done.
      eapply for_value_sound; eauto.
Qed.

(** ** push, intern and literal *)

Lemma wf_interned t int : wf t -> wf (mkTable (values t) (bounds t) int).
Proof.
  intros [Hl Hv Hr Hb].
  assert (forall rho, model (mkTable (values t) (bounds t) int) rho <-> model t rho) as Hm.
  { intros rho. split; intros [H1 H2 H3]; split; done. }
  split; try done.
  - intros id v H. pose proof (Hv id v H) as Hok. unfold value_ok in *.
    destruct (definition v) as [|e| |[|] ]; try done. destruct Hok as (Hin & [Ht Hp] & Hres).
    split_and!; try done. split; [done|]. intros rho Hmr. by apply Hp, Hm.
  - intros rho Hmr. by apply Hb, Hm.
Qed.

Lemma step_interned t t' int : step t t' -> step t (mkTable (values t') (bounds t') int).
Proof. intros [He Hwf]. split; [exact He|]. by apply wf_interned. Qed.

Definition pushable (t : ValueTable) (v : Value) : Prop :=
  match definition v with
  | DLiteral l => lit_ok (carrier (ty v)) l
  | DExpression e => admissible t (ty v) e
  | DParameter _ _ | DResult (Effect _) _ => True
  | DResult (Evaluate _) _ => False
  end.

Lemma pushable_definable t v : pushable t v -> definable t v.
Proof. unfold pushable, definable. destruct (definition v) as [|e| |[|] ]; try done. by intros []. Qed.

Lemma multiply_step t s x y int : wf t -> admissible t I64 (EMultiplyWide s x y) ->
  let vs := [mkValue I64 (DExpression (EMultiplyWide s x y));
             mkValue I64 (DResult (Evaluate (length (values t))) 1)] in
  step t (mkTable (values t ++ vs) (bounds t ++ [full_bounds I64; full_bounds I64]) int).
Proof.
  intros Hwf Ha vs. set (t' := mkTable _ _ int).
  assert (extends t t') as He by (split; simpl; by eexists).
  assert (forall i v, vs !! i = Some v -> values t' !! (length (values t) + i)%nat = Some v) as Hnew.
  { intros i v Hv. simpl. by rewrite lookup_app_r, Nat.add_sub' by lia. }
  apply wf_append; [done|done| |by repeat constructor; apply full_in_range|].
  - intros [|[|i] ] v Hv; try done; simplify_eq/=; unfold value_ok; cbn [definition ty].
    + rewrite Nat.add_0_r. split_and!.
      * eapply Forall_impl; [by eapply typed_inputs, Ha|]. intros i [tyi Hi]. by eapply type_at_lt.
      * by eapply admissible_extends.
      * intros [|c] ty' Hc; [|by destruct c]. simplify_eq/=. by apply (Hnew 1%nat).
    + exists 0%nat, (mkValue I64 (DExpression (EMultiplyWide s x y))), (EMultiplyWide s x y).
      split_and!; try done.
      specialize (Hnew 0%nat _ eq_refl). rewrite Nat.add_0_r in Hnew. exact Hnew.
  - intros rho Hm [|[|i] ] v b Hv Hb; try done; simplify_eq/=.
    + apply (full_bounded I64). by apply (m_ok t' rho Hm _ _ (Hnew 0%nat _ eq_refl)).
    + apply (full_bounded I64). by apply (m_ok t' rho Hm _ _ (Hnew 1%nat _ eq_refl)).
Qed.

Lemma multiply_cases d : (exists s x y, d = DExpression (EMultiplyWide s x y)) \/
  match d with DExpression (EMultiplyWide _ _ _) => False | _ => True end.
Proof. destruct d as [|[]| |]; eauto. Qed.

Lemma push_spec t v : wf t -> pushable t v ->
  wp (push v) (fun id t' => step t t' /\ values t' !! id = Some v) t.
Proof.
  intros Hwf Hp. pose proof (pushable_definable t v Hp) as Hd.
  destruct (for_value_defined t v Hwf Hd) as (b & Hb & _).
  assert ((values t ++ [v]) !! length (values t) = Some v) as Hnew by by apply list_lookup_middle.
  destruct (multiply_cases (definition v)) as [(s & x & y & Hdef)|Hne].
  - unfold pushable in Hp. rewrite Hdef in Hp. destruct Hp as [Ht Hprem].
    destruct (proj1 (typed_multiply _ _ _ _ _) Ht) as (_ & _ & Hty).
    destruct v as [vty vd]. cbn [definition ty] in *. subst vty vd.
    unfold for_value in Hb. cbn in Hb. simplify_eq.
    pose proof (multiply_step t s x y (interned t) Hwf (conj Ht Hprem)) as Hstep.
    cbv zeta in Hstep. match type of Hstep with step _ ?t' => exists (length (values t)), t' end. split.
    + unfold push, push_with_bounds, push_one, push_results, push_plain, mret, T_ret, mbind, T_bind; cbn.
      by rewrite <- !app_assoc.
    + split; [exact Hstep|]. cbn [values]. by apply list_lookup_middle.
  - assert (step t (mkTable (values t ++ [v]) (bounds t ++ [b]) (interned t))) as Hstep.
    { apply push_value_step; try done. unfold pushable in Hp.
      destruct (definition v) as [|[]| |[|] ]; done. }
    eexists (length (values t)), _. split; [|split; [exact Hstep|done] ].
    unfold push. rewrite Hb. cbn [mbind option_bind]. unfold push_with_bounds, push_one.
    unfold mbind, T_bind, mret, T_ret. cbn [mbind option_bind].
    by destruct (definition v) as [|[]| |].
Qed.

Lemma find_interned_Some t v id : find_interned t v = Some id -> values t !! id = Some v.
Proof.
  unfold find_interned. intros (p & Hf & ->)%fmap_Some. destruct p as [i x].
  by apply list_find_Some in Hf as (_ & ? & _).
Qed.

Lemma intern_spec t v : wf t -> pushable t v ->
  wp (intern v) (fun id t' => step t t' /\ values t' !! id = Some v) t.
Proof.
  intros Hwf Hp. unfold wp, intern. destruct (find_interned t v) as [id|] eqn:Hf.
  - exists id, t. split; [done|]. split; [by apply step_refl | by apply find_interned_Some].
  - destruct (push_spec t v Hwf Hp) as (id & t' & Hpush & Hstep & Hv). rewrite Hpush.
    eexists _, _. split; [done|]. split; [by apply step_interned|exact Hv].
Qed.

(** [id] has type [ty], and its value is [P rho] whenever that is defined. *)
Definition returns (t : ValueTable) (id : nat) (ty : Ty) (P : Valuation -> option Literal) : Prop :=
  type_at t id = Some ty /\ forall rho, model t rho -> forall l, P rho = Some l -> rho id = l.

Lemma returns_extends t t' id ty P : wf t -> extends t t' -> returns t id ty P -> returns t' id ty P.
Proof.
  intros Hwf He [Ht HP]. split; [by eapply extends_type|].
  intros rho Hm. apply HP. by eapply model_extends.
Qed.

Lemma type_at_value t id v : values t !! id = Some v -> type_at t id = Some (ty v).
Proof. unfold type_at. by intros ->. Qed.

Lemma carrier_literal_spec t ty l : wf t -> lit_words l ->
  wp (carrier_literal ty l) (fun id t' => step t t' /\
    values t' !! id = Some (mkValue ty (DLiteral (lit_normalize l (carrier ty)))) /\
    returns t' id ty (fun _ => Some (lit_normalize l (carrier ty)))) t.
Proof.
  intros Hwf Hw. eapply wp_mono.
  - apply intern_spec; [done|]. unfold pushable; simpl. by apply normalized_ok.
  - intros id t' [Hstep Hv]. split_and!; [done|done|]. split; [by rewrite (type_at_value _ _ _ Hv)|].
    intros rho Hm l' Hl. simplify_eq. by apply (m_determined t' rho Hm _ _ _ Hv).
Qed.

Lemma literal_spec t ty l : wf t -> lit_words l ->
  wp (literal ty l) (fun id t' => step t t' /\
    values t' !! id = Some (mkValue ty (DLiteral (lit_normalize (lit_normalize l ty) (carrier ty)))) /\
    returns t' id ty (fun _ => Some (lit_normalize (lit_normalize l ty) (carrier ty)))) t.
Proof. intros. apply carrier_literal_spec; [done|]. by apply lit_normalize_words. Qed.

(** A scalar literal is the number it stores. *)
Lemma lit_normalize_fits ty z : is_scalar ty = true -> fits (bits ty) z -> lit_normalize (lit z) ty = lit z.
Proof. intros Hs Hf. rewrite lit_normalize_scalar by done. cbn [lit low]. by rewrite wrap_small. Qed.

Lemma scalar_literal_spec t ty z : wf t -> is_scalar ty = true -> fits (cbits ty) z ->
  wp (carrier_literal ty (lit z)) (fun id t' => step t t' /\
    values t' !! id = Some (mkValue ty (DLiteral (lit z))) /\
    returns t' id ty (fun _ => Some (lit z))) t.
Proof.
  intros Hwf Hs Hf. eapply wp_mono.
  - apply (carrier_literal_spec t ty (lit z)); [done|]. apply lit_words_lit.
    eapply fits_mono; [|exact Hf]. destruct (cbits_scalar ty Hs); lia.
  - intros id t'. by rewrite lit_normalize_fits by (rewrite ?carrier_scalar; done).
Qed.

Lemma small_literal_spec t ty z : wf t -> is_scalar ty = true -> fits (bits ty) z ->
  wp (literal ty (lit z)) (fun id t' => step t t' /\
    values t' !! id = Some (mkValue ty (DLiteral (lit z))) /\
    returns t' id ty (fun _ => Some (lit z))) t.
Proof.
  intros Hwf Hs Hf. unfold literal. rewrite lit_normalize_fits by done.
  apply scalar_literal_spec; [done..|]. eapply fits_mono; [apply bits_carrier|done].
Qed.

Lemma zero_literal_spec t ty : wf t ->
  wp (literal ty (lit 0)) (fun id t' => step t t' /\
    values t' !! id = Some (mkValue ty (DLiteral (lit 0))) /\
    returns t' id ty (fun _ => Some (lit 0))) t.
Proof.
  intros Hwf. destruct (is_scalar ty) eqn:Hs.
  - apply small_literal_spec; [done..|]. pose proof (bits_pos ty). apply fits_0. lia.
  - eapply wp_mono.
    + apply (literal_spec t ty (lit 0)); [done|]. apply lit_words_lit. by apply (bool_decide_unpack _).
    + intros id t'. by destruct ty.
Qed.

(** ** Representations *)

Lemma convert_input_ok t id v input : wf t -> values t !! id = Some v ->
  definition v = DExpression (EUnary Convert input) ->
  (input < id)%nat /\ exists ti, type_at t input = Some ti /\ convertible ti (ty v) = true.
Proof.
  intros Hwf Hv Hd. pose proof (wf_value t Hwf id v Hv) as Hok. unfold value_ok in Hok.
  rewrite Hd in Hok. destruct Hok as (Hin & [Ht _] & _). apply typed_unary in Ht.
  inversion_clear Hin. eauto.
Qed.

(** The value of a stored expression. *)
Lemma stored_value t rho id v e l : model t rho -> values t !! id = Some v ->
  definition v = DExpression e -> eval t rho (ty v) e 0 = Some l -> rho id = l.
Proof.
  intros Hm Hv Hd He. eapply (m_determined t rho Hm); [done|]. unfold determined. by rewrite Hd.
Qed.

Record represents (t : ValueTable) (x : nat) (tx : Ty) (r : nat) : Prop := {
  rep_le : (r <= x)%nat;
  rep_type : exists tr, type_at t r = Some tr /\ carrier tr = carrier tx;
  rep_value : forall rho, model t rho -> rho r = rho x;
  rep_literal : forall v l, values t !! x = Some v -> definition v = DLiteral l -> r = x;
}.

Lemma representation_loop_spec t : wf t -> forall fuel x tx, (x < fuel)%nat -> type_at t x = Some tx ->
  exists r, representation_loop fuel t x = Some r /\ represents t x tx r.
Proof.
  intros Hwf. induction fuel as [|fuel IH]; intros x tx Hlt Hx; [lia|].
  apply fmap_Some in Hx as (v & Hv & ->). cbn [representation_loop]. unfold value_at. rewrite Hv.
  cbn [mbind option_bind].
  assert (represents t x (ty v) x) as Hself.
  { split; [done| |done|done]. exists (ty v). split; [by apply type_at_value|done]. }
  destruct (definition v) as [|[op input| | | |]| |] eqn:Hd; try (by exists x).
  destruct op; try (by exists x).
  destruct (convert_input_ok t x v input Hwf Hv Hd) as (Hin & ti & Hti & Hc).
  rewrite Hti. cbn [mbind option_bind]. destruct (decide (carrier (ty v) = carrier ti)) as [Heq|]; [|by exists x].
  destruct (IH input ti ltac:(lia) Hti) as (r & Hr & [Hle Ht Hval _]). exists r. split; [done|]. split.
  - lia.
  - destruct Ht as (tr & ? & ?). exists tr. split; [done|congruence].
  - intros rho Hm. rewrite Hval by done. symmetry. eapply stored_value; [done..|].
    rewrite (ev_convert t rho Hm _ input ti) by done. by rewrite Heq, (rho_normalize t rho Hm input ti).
  - intros v' l Hv' Hl. rewrite Hv in Hv'. simplify_eq. by rewrite Hd in Hl.
Qed.

Lemma representation_spec t x tx : wf t -> type_at t x = Some tx ->
  exists r, representation t x = Some r /\ represents t x tx r.
Proof. intros Hwf Hx. apply representation_loop_spec; [done|lia|done]. Qed.

(** ** Results of expressions *)

Lemma expression_result_spec t id ty e c : wf t ->
  values t !! id = Some (mkValue ty (DExpression e)) -> (c < length (result_types e ty))%nat ->
  expression_result t id c = Some (id + c)%nat /\
  returns t (id + c) ty (fun rho => eval t rho ty e c).
Proof.
  intros Hwf Hv Hc. unfold expression_result, expression_results, value_at. rewrite Hv. cbn.
  split; [rewrite lookup_seq; eauto|].
  pose proof (wf_value t Hwf id _ Hv) as (_ & [Ht _] & Hres). cbn [Values.ty] in *.
  destruct c as [|c].
  - rewrite Nat.add_0_r. split; [by rewrite (type_at_value _ _ _ Hv)|].
    intros rho Hm l Hl. by eapply stored_value.
  - destruct e as [| | | |s x y]; simpl in Hc; try lia. destruct c as [|]; [|lia].
    apply typed_multiply in Ht as (_ & _ & ->).
    specialize (Hres 0%nat I64 eq_refl). split; [by rewrite (type_at_value _ _ _ Hres)|].
    intros rho Hm l Hl. eapply (m_determined t rho Hm); [exact Hres|]. unfold determined, definition_at.
    cbn [definition]. rewrite Hv. exact Hl.
Qed.

Lemma eval_component t rho ty e c : length (result_types e ty) = 1%nat -> eval t rho ty e c = eval t rho ty e 0.
Proof.
  intros Hlen. unfold eval. destruct (try_map (operand t rho) e) as [e'|] eqn:He; [|done]. simpl.
  destruct e; simpl in He; try discriminate Hlen;
    repeat (apply bind_Some in He as (? & ? & He)); by simplify_eq.
Qed.
