(* ===== verification/Valuations.v ===== *)
(** * Valuations of a table

    A choice of the values that no definition determines, within their bounds,
    extends to a valuation of the table, and to only one. Growing a table never
    excludes a valuation of the smaller one. A checked list of values gives a
    well-formed table by the operations of construction. *)

From S2P Require Import Prelude Bytes Types Floating Expr Evaluate Values Model Carrier Bounds Table.
Local Open Scope Z_scope.

(** Zero is within every bound. *)
Lemma zero_bounded ty b : 0 <= unsigned b -> 1 <= signed b -> bounded ty b (lit 0).
Proof.
  intros Hu Hs. split; rewrite u128_lit; [by apply fits_0|].
  pose proof (bits_pos (carrier ty)). unfold sfits. rewrite to_signed_small by (lia || (apply fits_0; lia)).
  pose proof (pow2_pos (bits (carrier ty) - 1) ltac:(lia)). rewrite (proj2 (Z.ltb_lt _ _)) by lia.
  pose proof (pow2_pos (signed b - 1) ltac:(lia)). lia.
Qed.

(** ** The first [n] values *)

Definition first_values (n : nat) (t : ValueTable) : ValueTable :=
  mkTable (take n (values t)) (take n (bounds t)) [].

Lemma first_values_extends n t : extends (first_values n t) t.
Proof. split; apply prefix_take. Qed.

Lemma first_lookup n t id v : values (first_values n t) !! id = Some v -> (id < n)%nat /\ values t !! id = Some v.
Proof. cbn [first_values values]. rewrite lookup_take_Some. tauto. Qed.

Lemma first_type n t id : (id < n)%nat -> type_at (first_values n t) id = type_at t id.
Proof. intros H. unfold type_at. cbn [first_values values]. by rewrite lookup_take_lt. Qed.

Lemma first_typed n t ty e : Forall (fun i => (i < n)%nat) (inputs e) -> typed t ty e ->
  typed (first_values n t) ty e.
Proof.
  intros Hin (tys & Htys & Hok). exists tys. split; [|done]. rewrite <- Htys.
  apply try_map_ext_inputs. eapply Forall_impl; [exact Hin|]. intros i Hi. by apply first_type.
Qed.

(** An expression reads only its inputs. *)
Lemma eval_ext t rho rho' ty e c : Forall (fun i => rho i = rho' i) (inputs e) ->
  eval t rho ty e c = eval t rho' ty e c.
Proof.
  intros H. unfold eval. f_equal. apply try_map_ext_inputs. eapply Forall_impl; [exact H|].
  intros i Hi. unfold operand. by rewrite Hi.
Qed.

(** What defines a value comes before it. *)
Lemma determined_before t rho rho' id v : wf t -> values t !! id = Some v ->
  (forall i, (i < id)%nat -> rho i = rho' i) -> determined t rho id v = determined t rho' id v.
Proof.
  intros Hwf Hv Heq. pose proof (wf_value t Hwf id v Hv) as Hok. unfold determined, value_ok in *.
  destruct (definition v) as [l|e| |[|p] c]; try done.
  - destruct Hok as (Hin & _ & _). apply eval_ext. eapply Forall_impl; [exact Hin|]. cbn. auto.
  - destruct Hok as (c' & pv & e & -> & -> & Hp & Hpd & _). unfold definition_at. rewrite Hp. cbn. rewrite Hpd.
    pose proof (wf_value t Hwf _ _ Hp) as Hok. unfold value_ok in Hok. rewrite Hpd in Hok.
    destruct Hok as (Hin & _ & _). apply eval_ext. eapply Forall_impl; [exact Hin|]. cbn. intros i Hi. apply Heq. lia.
Qed.

Lemma determined_first t rho id v n : wf t -> values t !! id = Some v -> (id < n)%nat ->
  determined (first_values n t) rho id v = determined t rho id v.
Proof.
  intros Hwf Hv Hn. pose proof (wf_value t Hwf id v Hv) as Hok. unfold determined, value_ok in *.
  destruct (definition v) as [l|e| |[|p] c]; try done.
  - destruct Hok as (Hin & [Ht _] & _). symmetry. eapply (eval_extends _ t); [apply first_values_extends|].
    apply first_typed; [|exact Ht]. eapply Forall_impl; [exact Hin|]. cbn. lia.
  - destruct Hok as (c' & pv & e & -> & -> & Hp & Hpd & _). unfold definition_at.
    cbn [first_values values]. rewrite lookup_take_lt, Hp by lia. cbn. rewrite Hpd.
    pose proof (wf_value t Hwf _ _ Hp) as Hok. unfold value_ok in Hok. rewrite Hpd in Hok.
    destruct Hok as (Hin & [Ht _] & _). symmetry. eapply (eval_extends _ t); [apply first_values_extends|].
    apply first_typed; [|exact Ht]. eapply Forall_impl; [exact Hin|]. cbn. lia.
Qed.

(** ** Evaluating a table *)

(** One more value: what its definition determines, else the choice of [env]. *)
Definition assign (t : ValueTable) (env rho : Valuation) (id : nat) : Literal :=
  match values t !! id with
  | Some v => default (env id) (determined t rho id v)
  | None => env id
  end.

Fixpoint assigned (t : ValueTable) (env : Valuation) (n : nat) : Valuation :=
  match n with
  | O => env
  | S n => let rho := assigned t env n in fun id => if Nat.eqb id n then assign t env rho n else rho id
  end.

(** The values of a table under [env]. *)
Definition denote (t : ValueTable) (env : Valuation) : Valuation := assigned t env (length (values t)).

Lemma assigned_above t env n id : (n <= id)%nat -> assigned t env n id = env id.
Proof.
  induction n as [|n IH]; intros H; cbn [assigned]; [done|].
  rewrite (proj2 (Nat.eqb_neq id n)) by lia. apply IH. lia.
Qed.

Lemma assigned_stable t env n m id : (id < n)%nat -> (n <= m)%nat -> assigned t env m id = assigned t env n id.
Proof.
  intros Hid Hnm. induction Hnm as [|m Hnm IH]; [done|]. cbn [assigned].
  rewrite (proj2 (Nat.eqb_neq id m)) by lia. exact IH.
Qed.

(** A choice within the bounds of every value. *)
Definition admits (t : ValueTable) (env : Valuation) : Prop := forall id v b,
  values t !! id = Some v -> bounds t !! id = Some b -> lit_ok (carrier (ty v)) (env id) /\ bounded (ty v) b (env id).

Lemma admits_zero t : wf t -> admits t (fun _ => lit 0).
Proof.
  intros Hwf id v b Hv Hb. destruct (wf_range t Hwf id b Hb) as [Hu Hs]. split.
  - split; [by split|]. by destruct (ty v).
  - apply zero_bounded; lia.
Qed.

Lemma assigned_determined t env n id v : wf t -> values t !! id = Some v -> (id < n)%nat ->
  (n <= length (values t))%nat ->
  assigned t env n id = default (env id) (determined t (assigned t env n) id v).
Proof.
  intros Hwf Hv Hid Hn. rewrite (assigned_stable t env (S id) n id) by lia. cbn [assigned].
  rewrite Nat.eqb_refl. unfold assign. rewrite Hv. f_equal. apply determined_before; [done|done|].
  intros i Hi. symmetry. by apply assigned_stable; lia.
Qed.

Lemma assigned_model t env n : wf t -> admits t env -> (n <= length (values t))%nat ->
  model (first_values n t) (assigned t env n).
Proof.
  intros Hwf Henv. induction n as [|n IH]; intros Hn.
  { split; intros id v; cbn; intros; done. }
  specialize (IH ltac:(lia)).
  assert (forall id v, values (first_values (S n) t) !! id = Some v -> (id < S n)%nat /\ values t !! id = Some v) as Hlook
    by apply first_lookup.
  assert (forall id v, values t !! id = Some v -> (id < S n)%nat ->
    determined (first_values (S n) t) (assigned t env (S n)) id v
    = determined t (assigned t env (S n)) id v) as Hdet by (intros; by apply determined_first).
  split.
  - intros id v [Hid Hv]%Hlook. rewrite (assigned_determined t env (S n) id v) by (done || lia).
    destruct (has_bounds t id (ty v) Hwf) as [b Hb]; [by apply type_at_value|].
    destruct (determined t (assigned t env (S n)) id v) as [l|] eqn:Hd; [|by apply (Henv id v b)].
    change (default (env id) (Some l)) with l. rewrite (determined_before t _ (assigned t env n)) in Hd; [|done|done|]; cycle 1.
    { intros i Hi. apply assigned_stable; lia. }
    pose proof (wf_value t Hwf id v Hv) as Hok. unfold determined, value_ok in *.
    destruct (definition v) as [l'|e| |[|p] c]; try done; [by simplify_eq| |].
    + destruct Hok as (Hin & [Ht _] & _).
      assert (typed (first_values n t) (ty v) e) as Ht'.
      { apply first_typed; [|done]. eapply Forall_impl; [exact Hin|]. cbn. lia. }
      eapply (eval_ok (first_values n t)); [exact IH|exact Ht'|].
      rewrite <- Hd. symmetry. eapply (eval_extends _ t); [apply first_values_extends|exact Ht'].
    + destruct Hok as (c' & pv & e & -> & -> & Hp & Hpd & Hres). unfold definition_at in Hd. rewrite Hp in Hd.
      cbn in Hd. rewrite Hpd in Hd. pose proof (wf_value t Hwf _ _ Hp) as Hok. unfold value_ok in Hok. rewrite Hpd in Hok.
      destruct Hok as (Hin & [Ht _] & _).
      assert (typed (first_values n t) (ty pv) e) as Ht'.
      { apply first_typed; [|done]. eapply Forall_impl; [exact Hin|]. cbn. lia. }
      destruct e as [| | | |s x y]; cbn in Hres; try done. destruct c' as [|]; [|done]. cbn in Hres.
      assert (ty pv = I64) as E by (by apply typed_multiply in Ht as (_ & _ & ->)). rewrite E in *.
      injection Hres as Hres. rewrite <- Hres in *. eapply (eval_ok (first_values n t)); [exact IH|exact Ht'|].
      rewrite <- Hd. symmetry. eapply (eval_extends _ t); [apply first_values_extends|exact Ht'].
  - intros id v l [Hid Hv]%Hlook Hd. rewrite Hdet in Hd by done.
    rewrite (assigned_determined t env (S n) id v) by (done || lia). by rewrite Hd.
  - intros id v b [Hid Hv]%Hlook Hb Hd. rewrite Hdet in Hd by done.
    rewrite (assigned_determined t env (S n) id v), Hd by (done || lia). cbn.
    apply (Henv id v b Hv). by eapply extends_bounds; [apply (first_values_extends (S n) t)|].
Qed.

(** ** Existence, uniqueness, extension *)

Lemma denote_model t env : wf t -> admits t env -> model t (denote t env).
Proof.
  intros Hwf Henv. pose proof (assigned_model t env _ Hwf Henv (le_n (length (values t)))) as Hm.
  fold (denote t env) in Hm. set (n := length (values t)) in *.
  assert (forall id v, values t !! id = Some v -> values (first_values n t) !! id = Some v /\ (id < n)%nat) as Hlook.
  { intros id v Hv. pose proof (lookup_lt_Some _ _ _ Hv). split; [|done]. cbn [first_values values].
    by rewrite lookup_take_lt. }
  split.
  - intros id v Hv. by apply (m_ok _ _ Hm), Hlook.
  - intros id v l Hv Hd. destruct (Hlook id v Hv) as [Hv' Hid].
    apply (m_determined _ _ Hm id v l Hv'). by rewrite determined_first.
  - intros id v b Hv Hb Hd. destruct (Hlook id v Hv) as [Hv' Hid].
    apply (m_free _ _ Hm id v b Hv').
    + cbn [first_values bounds]. by rewrite lookup_take_lt.
    + by rewrite determined_first.
Qed.

Lemma denote_value t env id v : wf t -> values t !! id = Some v ->
  denote t env id = default (env id) (determined t (denote t env) id v).
Proof. intros Hwf Hv. apply assigned_determined; [done|done|by eapply lookup_lt_Some|done]. Qed.

(** A valuation is what its undetermined values make it. *)
Lemma model_denote t env rho id : wf t -> model t rho ->
  (forall id v, values t !! id = Some v -> determined t rho id v = None -> rho id = env id) ->
  (id < length (values t))%nat -> rho id = denote t env id.
Proof.
  intros Hwf Hm Hfree. induction (lt_wf id) as [id _ IH]. intros Hid.
  destruct (lookup_lt_is_Some_2 (values t) id Hid) as [v Hv].
  rewrite (denote_value t env id v Hwf Hv).
  rewrite <- (determined_before t rho (denote t env) id v Hwf Hv) by (intros i Hi; apply IH; lia).
  destruct (determined t rho id v) as [l|] eqn:Hd; cbn.
  - by apply (m_determined t rho Hm id v).
  - by apply (Hfree id v).
Qed.

(** The choice that continues a valuation of a smaller table. *)
Definition continued (t : ValueTable) (rho : Valuation) (id : nat) : Literal :=
  if decide (id < length (values t))%nat then rho id else lit 0.

Lemma continued_admits t t' rho : wf t -> wf t' -> extends t t' -> model t rho -> admits t' (continued t rho).
Proof.
  intros Hwf Hwf' He Hm id v b Hv Hb. unfold continued. destruct (decide _) as [Hid|]; [|by apply (admits_zero t' Hwf' id v b)].
  destruct (lookup_lt_is_Some_2 (values t) id Hid) as [w Hw].
  pose proof (extends_values _ _ _ _ He Hw) as Hw'. rewrite Hv in Hw'. simplify_eq.
  destruct (has_bounds t id (ty w) Hwf) as [b' Hb']; [by apply type_at_value|].
  pose proof (extends_bounds _ _ _ _ He Hb') as Hb''. rewrite Hb in Hb''. simplify_eq.
  split; [by apply (m_ok t rho Hm)|by apply (wf_bounds t Hwf rho Hm id)].
Qed.

Lemma model_extend t t' rho : wf t -> wf t' -> extends t t' -> model t rho ->
  exists rho', model t' rho' /\ forall id, (id < length (values t))%nat -> rho' id = rho id.
Proof.
  intros Hwf Hwf' He Hm. pose proof (continued_admits t t' rho Hwf Hwf' He Hm) as Ha.
  exists (denote t' (continued t rho)). split; [by apply denote_model|].
  intros id. induction (lt_wf id) as [id _ IH]. intros Hid.
  destruct (lookup_lt_is_Some_2 (values t) id Hid) as [v Hv].
  rewrite (denote_value t' _ id v Hwf' (extends_values _ _ _ _ He Hv)).
  rewrite (determined_before t' _ rho id v Hwf' (extends_values _ _ _ _ He Hv)) by (intros i Hi; apply IH; lia).
  rewrite (determined_extends t t') by done.
  destruct (determined t rho id v) as [l|] eqn:Hd; cbn.
  - symmetry. by apply (m_determined t rho Hm id v).
  - unfold continued. by rewrite decide_True.
Qed.

(** ** Authored tables

    Tables built as construction does: parameters and results of operations are
    pushed, literals and expressions interned. *)

Definition author (v : Value) : T nat := match definition v with DParameter _ _ | DResult _ _ => push v | _ => intern v end.
Fixpoint author_all (l : list Value) (t : ValueTable) : option ValueTable :=
  match l with
  | [] => Some t
  | v :: l => match author v t with Some (_, t) => author_all l t | None => None end
  end.

(** Parameters, literals within one word, and typed operations without a premise. *)
Definition authorable (t : ValueTable) (v : Value) : bool :=
  match definition v with
  | DParameter _ _ => true
  | DLiteral l => is_scalar (ty v) && bool_decide (l = lit (low l)) && bool_decide (0 <= low l < 2 ^ cbits (ty v))
  | DExpression e =>
      match e with EBinary (Integer _) _ _ => false | _ => true end &&
      match try_map (type_at t) e with Some tys => type_ok (ty v) tys | None => false end
  | DResult (Effect _) _ => true
  | DResult (Evaluate _) _ => false
  end.
Fixpoint authorable_all (l : list Value) (t : ValueTable) : bool :=
  match l with
  | [] => true
  | v :: l => authorable t v && match author v t with Some (_, t) => authorable_all l t | None => false end
  end.

Lemma authorable_pushable t v : authorable t v = true -> pushable t v.
Proof.
  unfold authorable, pushable. destruct (definition v) as [l|e|b c|[] c]; try done.
  - intros [[Hs Hl]%andb_true_iff Hf]%andb_true_iff. apply bool_decide_eq_true in Hl, Hf. apply lit_ok_scalar; [by rewrite carrier_scalar|]. by split.
  - intros [He Ht]%andb_true_iff. split.
    + destruct (try_map (type_at t) e) as [tys|] eqn:Htys; [|done]. by exists tys.
    + intros rho _. by destruct e as [|[]| | |].
Qed.

Lemma author_all_wf l : forall t, wf t -> authorable_all l t = true -> exists t', author_all l t = Some t' /\ wf t'.
Proof.
  induction l as [|v l IH]; intros t Hwf H; [by exists t|]. cbn [authorable_all author_all] in *.
  apply andb_true_iff in H as [Hv%authorable_pushable H].
  assert (exists id t', author v t = Some (id, t') /\ wf t') as (id & t' & Ha & Hwf').
  { destruct (push_spec t v Hwf Hv) as (id & t1 & Hr & [_ H1] & _).
    destruct (intern_spec t v Hwf Hv) as (id2 & t2 & Hr2 & [_ H2] & _).
    unfold author. destruct (definition v); [exists id2, t2|exists id2, t2|exists id, t1|exists id, t1]; by split. }
  rewrite Ha in *. by apply IH.
Qed.

Lemma authored_wf l : authorable_all l empty_table = true -> wf (default empty_table (author_all l empty_table)).
Proof.
  intros H. destruct (author_all_wf l empty_table) as (t & -> & Hwf); [|done|done].
  split; cbn; [done|by intros id v|by intros id b|]. intros rho Hm id v b. by rewrite lookup_nil.
Qed.
