(* ===== verification/FoldBase.v ===== *)
(** * Specifications shared by the rewrites

    The contract of [fold_result], the depth of its recursion, and the rules
    that step through a table computation; and the recovery of a carrier from its
    logical bits, which the path facts rely on too. *)

From S2P Require Import Prelude Bytes Types Floating Expr Evaluate Values Fold Model Carrier Bounds Table.
Local Open Scope Z_scope.

(** ** Reading the table *)

Lemma wp_read_type t x tx Q : type_at t x = Some tx -> Q tx t -> wp (read_type x) Q t.
Proof. intros. by eapply wp_reads. Qed.

Lemma wp_read_bounds t x tx Q : wf t -> type_at t x = Some tx ->
  (forall b, bounds t !! x = Some b -> in_range b -> Q b t) -> wp (read_bounds x) Q t.
Proof.
  intros Hwf Hx HQ. destruct (input_range t x tx Hwf Hx) as (b & _ & Hb & _ & _ & Hr).
  by eapply wp_reads; [exact Hb|apply HQ].
Qed.

Lemma wp_read_definition t x tx Q : type_at t x = Some tx ->
  (forall d, values t !! x = Some (mkValue tx d) -> Q d t) -> wp (read_definition x) Q t.
Proof.
  intros (v & Hv & ->)%fmap_Some HQ. eapply wp_reads.
  - unfold definition_at. rewrite Hv. done.
  - apply HQ. by destruct v.
Qed.

(** A scalar literal, with what it says of the value. *)
Definition literal_fact (t : ValueTable) (x : nat) (s : option Z) : Prop :=
  forall z, s = Some z -> (forall rho, model t rho -> val rho x = z) /\
    exists tx, values t !! x = Some (mkValue tx (DLiteral (lit z))) /\ is_scalar tx = true /\
    fits (cbits tx) z.

Lemma scalar_literal_fact t x v : wf t -> values t !! x = Some v -> literal_fact t x (scalar_literal v).
Proof.
  intros Hwf Hv z Hz. split.
  - intros rho Hm. by eapply scalar_at_val.
  - pose proof (wf_value t Hwf x v Hv) as Hok. unfold value_ok, scalar_literal in *.
    destruct v as [tx [l| | |] ]; cbn [definition ty] in *; try done. unfold scalar in Hz.
    destruct (is_scalar tx) eqn:Hs; simplify_eq. exists tx.
    apply lit_ok_scalar in Hok as [Hf Hl]; [|by rewrite carrier_scalar].
    unfold lit_u64. rewrite <- Hl. done.
Qed.

Lemma wp_read_scalar t x tx Q : wf t -> type_at t x = Some tx ->
  (forall s, scalar_at t x = Some s -> literal_fact t x s -> Q s t) -> wp (read_scalar x) Q t.
Proof.
  intros Hwf (v & Hv & ->)%fmap_Some HQ. eapply wp_reads.
  - unfold scalar_at. rewrite Hv. done.
  - apply HQ; [unfold scalar_at; by rewrite Hv|by apply scalar_literal_fact].
Qed.

Lemma scalar_at_spec t x tx : wf t -> type_at t x = Some tx ->
  exists s, scalar_at t x = Some s /\ literal_fact t x s.
Proof.
  intros Hwf (v & Hv & ->)%fmap_Some. exists (scalar_literal v). split.
  - unfold scalar_at. by rewrite Hv.
  - by apply scalar_literal_fact.
Qed.

Lemma wp_read_representation t x tx Q : wf t -> type_at t x = Some tx ->
  (forall r, represents t x tx r -> Q r t) -> wp (read_representation x) Q t.
Proof.
  intros Hwf Hx HQ. destruct (representation_spec t x tx Hwf Hx) as (r & Hr & Hrep).
  by eapply wp_reads; [exact Hr|apply HQ].
Qed.

(** ** Contracts *)

(** [id] converts to [ty] without changing the value [P rho]. *)
Definition yields (t : ValueTable) (id : nat) (ty : Ty) (P : Valuation -> option Literal) : Prop :=
  exists tid, type_at t id = Some tid /\ convertible tid ty = true /\
    forall rho, model t rho -> forall l, P rho = Some l -> lit_normalize (rho id) (carrier ty) = l.

Lemma convertible_refl ty : convertible ty ty = true.
Proof. unfold convertible. by rewrite bool_decide_eq_true_2. Qed.
Lemma convertible_integer a b : is_integer a = true -> is_integer b = true -> convertible a b = true.
Proof. unfold convertible. intros -> ->. by rewrite orb_true_r. Qed.
Lemma convertible_vector a b : is_vector a = true -> is_vector b = true -> convertible a b = true.
Proof. unfold convertible. intros -> ->. by rewrite !orb_true_r. Qed.
Lemma is_vector_scalar ty : is_vector ty = negb (is_scalar ty).
Proof. done. Qed.
Lemma vector_of_carrier a b : carrier a = carrier b -> is_vector b = true -> is_vector a = true.
Proof. unfold is_vector. intros H. by rewrite <- carrier_scalar, <- H, carrier_scalar. Qed.

(** Same carrier, outside F64: every rewrite of a representation. *)
Lemma convertible_carrier a b : carrier a = carrier b -> b <> F64 -> convertible a b = true.
Proof. intros H Hb. destruct a, b; simpl in *; done. Qed.
Lemma convertible_same_carrier a b : carrier a = carrier b -> convertible a b = true.
Proof. intros H. destruct a, b; simpl in *; done. Qed.

Lemma convertible_to_integer a b : convertible a b = true -> is_integer b = true -> is_integer a = true.
Proof. by destruct a, b. Qed.

Lemma returns_yields t id ty P : returns t id ty P -> yields t id ty P.
Proof.
  intros [Ht HP]. exists ty. split_and!; [done|apply convertible_refl|].
  intros rho Hm l Hl. rewrite <- (HP rho Hm l Hl). by apply (rho_normalize t rho Hm).
Qed.

(** A value of the same carrier that equals the result. *)
Lemma yields_same t id tid ty P : type_at t id = Some tid -> carrier tid = carrier ty ->
  (forall rho, model t rho -> forall l, P rho = Some l -> rho id = l) -> yields t id ty P.
Proof.
  intros Ht Hc HP. exists tid. split_and!; [done|by apply convertible_same_carrier|].
  intros rho Hm l Hl. rewrite <- (HP rho Hm l Hl), <- Hc. by apply (rho_normalize t rho Hm).
Qed.

Lemma yields_weaken t id ty P P' : yields t id ty P ->
  (forall rho, model t rho -> forall l, P' rho = Some l -> P rho = Some l) -> yields t id ty P'.
Proof. intros (tid & Ht & Hc & HP) H. exists tid. split_and!; [done..|]. eauto. Qed.
Lemma returns_weaken t id ty P P' : returns t id ty P ->
  (forall rho, model t rho -> forall l, P' rho = Some l -> P rho = Some l) -> returns t id ty P'.
Proof. intros [Ht HP] H. split; [done|]. eauto. Qed.

(** An extension that returns [P]. *)
Definition delivers (t : ValueTable) (ty : Ty) (P : Valuation -> option Literal) (id : nat)
    (t' : ValueTable) : Prop := step t t' /\ returns t' id ty P.

(** An optional rewrite. *)
Definition rewritten (t : ValueTable) (ty : Ty) (P : Valuation -> option Literal) (o : option nat)
    (t' : ValueTable) : Prop :=
  step t t' /\ match o with Some id => yields t' id ty P | None => True end.

Lemma rewritten_none t ty P : wf t -> rewritten t ty P None t.
Proof. intros. split; [by apply step_refl|done]. Qed.

(** ** Depth of the recursion *)

Definition is_literal (t : ValueTable) (x : nat) : bool :=
  match definition_at t x with Some (DLiteral _) => true | _ => false end.
Definition weight (t : ValueTable) (x : nat) : nat := if is_literal t x then 0 else x.

Definition depth (t : ValueTable) (ty : Ty) (e : Expression nat) : nat :=
  match e with
  | EUnary (ZeroTest _) x => x + 2
  | EUnary (LowBits _) _ => 2
  | EUnary (SignExtend I32) _ => 1
  | EUnary (SignExtend _) _ => 2
  | EUnary (ExtractLane _) x => x + 2
  | EBinary (Bitwise And) _ _ => 2
  | EBinary (Bitwise Or) _ _ => 3
  | EBinary (Bitwise Xor) x y => Nat.max (weight t x) (weight t y) + 2
  | EBinary (Compare (CmpInteger _)) x y => Nat.max x y + 3
  | EBinary (Integer (DivUnsigned | RemUnsigned)) _ _ => if decide (ty = I64) then 2 else 1
  | EBinary (ReplaceLane _ _) x _ => x + 2
  | EBinary (Swizzle _) _ _ => 2
  | ETernary Select _ _ z => z + 3
  | ETernary Bitselect _ y _ => y + 3
  | ETernary (Shuffle _) _ _ _ => 3
  | EMultiplyWide _ _ _ => 2
  | _ => 1
  end%nat.

Definition result_count (e : Expression nat) (ty : Ty) : nat := length (result_types e ty).

Lemma result_count_0 e ty : (0 < result_count e ty)%nat.
Proof. destruct e; unfold result_count; simpl; lia. Qed.

(** ** Interned results *)

Lemma intern_result_spec t ty e c : wf t -> admissible t ty e -> (c < result_count e ty)%nat ->
  wp (intern_result ty e c) (delivers t ty (fun rho => eval t rho ty e c)) t.
Proof.
  intros Hwf Ha Hc. unfold intern_result. apply wp_bind.
  eapply wp_mono; [by apply intern_spec|]. intros id t1 [[He1 Hwf1] Hv].
  destruct (expression_result_spec t1 id ty e c Hwf1 Hv Hc) as [Hres Hret].
  apply wp_bind. eapply wp_reads; [exact Hres|]. apply wp_bind.
  assert (returns t1 (id + c) ty (fun rho => eval t rho ty e c)) as Hret'.
  { eapply returns_weaken; [exact Hret|]. intros rho _ l. simpl.
    by rewrite (eval_extends t t1) with (ty0 := ty) by (done || apply Ha). }
  eapply wp_read_bounds; [done|apply Hret|]. intros b Hb _.
  destruct (Z.eqb_spec (unsigned b) 0) as [H0|]; [|apply wp_ret; by split].
  eapply wp_mono; [by apply zero_literal_spec|]. intros id' t2 (Hstep2 & _ & Hret2).
  split; [by eapply step_trans|]. destruct Hret2 as [Ht2 Hval2]. split; [done|].
  intros rho Hm l Hl. rewrite (Hval2 rho Hm _ eq_refl).
  pose proof (model_extends _ _ _ Hwf1 (proj1 Hstep2) Hm) as Hm1.
  destruct Hret' as [Ht1 Hval1]. rewrite <- (Hval1 rho Hm1 l Hl).
  destruct (input_bounded _ _ _ _ _ Hwf1 Hm1 Ht1 Hb) as [Hf _]. rewrite H0 in Hf.
  symmetry. apply lit_u128_inj; [by eapply rho_words| by apply lit_words_lit, (bool_decide_unpack _)|].
  rewrite u128_lit. unfold fits in Hf. simpl in Hf. lia.
Qed.

(** The contract of [fold_result]. *)
Definition folds (rec : Ty -> Expression nat -> nat -> T nat) (ok : nat -> Prop) : Prop :=
  forall t ty e c, wf t -> admissible t ty e -> (c < result_count e ty)%nat -> ok (depth t ty e) ->
  wp (rec ty e c) (delivers t ty (fun rho => eval t rho ty e c)) t.

Section Folds.
Context (rec : Ty -> Expression nat -> nat -> T nat) (ok : nat -> Prop).
Context (ok_le : forall a b, (a <= b)%nat -> ok b -> ok a) (Hrec : folds rec ok).

Lemma fold_spec t ty e : wf t -> admissible t ty e -> ok (depth t ty e) ->
  wp (fold rec ty e) (delivers t ty (fun rho => eval t rho ty e 0)) t.
Proof using Hrec. intros. apply Hrec; try done. apply result_count_0. Qed.

(** A recursive fold after a prefix, against a property of the first table. *)
Lemma fold_after t0 t ty e P : step t0 t -> admissible t ty e -> ok (depth t ty e) ->
  (forall rho, model t rho -> forall l, P rho = Some l -> eval t rho ty e 0 = Some l) ->
  wp (fold rec ty e) (delivers t0 ty P) t.
Proof using Hrec.
  intros Hstep Ha Hok HP. eapply wp_mono; [apply fold_spec; [apply Hstep|done|done]|].
  intros id t' [Hstep' [Hty Hval]]. split; [by eapply step_trans|]. split; [done|].
  intros rho Hm l Hl. apply Hval; [done|]. apply HP; [|done].
  eapply model_extends; [apply Hstep|apply Hstep'|done].
Qed.

Lemma fold_convert t0 t ty x tx : step t0 t -> type_at t x = Some tx -> convertible tx ty = true ->
  ok 1%nat ->
  wp (fold rec ty (EUnary Convert x)) (delivers t0 ty (fun rho => Some (lit_normalize (rho x) (carrier ty)))) t.
Proof using Hrec.
  intros Hstep Hx Hc Hok. apply fold_after; [done| |done|].
  - split; [|done]. apply typed_unary. eauto.
  - intros rho Hm l Hl. by rewrite (ev_convert t rho Hm ty x tx).
Qed.
End Folds.

(** [Some <$> m]: a rewrite that always succeeds. *)
Lemma wp_some t t0 ty P (m : T nat) : wp m (delivers t0 ty P) t ->
  wp (Some <$> m) (rewritten t0 ty P) t.
Proof.
  intros H. apply wp_fmap. eapply wp_mono; [exact H|]. intros id t' [Hstep Hret].
  split; [done|]. by apply returns_yields.
Qed.

Lemma delivers_step t0 t ty P id t' : step t0 t -> delivers t ty P id t' -> delivers t0 ty P id t'.
Proof. intros Hs [Hs' Hr]. split; [by eapply step_trans|done]. Qed.

(** ** Recovering carriers from logical bits

    [carrier_bits] of body/values.rs restores the carrier of a value whose logical
    bits are known. *)

(** A value that fits [w] signed bits is the sign extension of its low [w] bits. *)
Lemma signed_low c w s z : 0 < w <= c -> s <= w -> sfits c s z -> fits c z ->
  wrap c (to_signed w z) = z.
Proof.
  intros Hw Hs Hz Hf. pose proof (sfits_mono _ _ _ _ Hs Hz) as [Hlo Hhi].
  assert (to_signed w z = to_signed c z) as ->.
  { rewrite <- (to_signed_wrap_range w (to_signed c z)) by (done || lia). apply to_signed_eq; [lia|].
    rewrite wrap_wrap. rewrite <- (wrap_idem_le w c (to_signed c z)), to_signed_mod, wrap_idem_le by lia. done. }
  rewrite to_signed_mod by lia. by apply wrap_small.
Qed.

(** The sign test of [carrier_bits]. *)
Lemma sign_clear w z : 0 < w -> Z.land (wrap w z) (Z.shiftl 1 (w - 1)) = 0 -> to_signed w z = wrap w z.
Proof.
  intros Hw H. unfold to_signed. cbv zeta. destruct (Z.ltb_spec (wrap w z) (2 ^ (w - 1))) as [|Hge]; [done|].
  exfalso. pose proof (has_bit (wrap w z) (w - 1) ltac:(lia)) as Hbit. unfold has in Hbit. rewrite H in Hbit. cbn in Hbit.
  pose proof (wrap_fits w z ltac:(lia)) as Hf.
  assert (fits (w - 1) (wrap w z)) as Hlow; [|unfold fits in Hlow; lia].
  apply fits_of_bits; [lia|]. intros i Hi. destruct (decide (i = w - 1)) as [->|]; [done|].
  apply (fits_testbit w); [done|lia].
Qed.

Lemma carrier_bits_sound t rho x tx logical b : wf t -> model t rho -> type_at t x = Some tx ->
  is_scalar tx = true -> wrap (bits tx) (val rho x) = wrap (bits tx) logical ->
  carrier_bits t x logical = Some (Some b) -> val rho x = b.
Proof.
  intros Hwf Hm Hx Hs Hlog Hb. destruct (input_range t x tx Hwf Hx) as (bd & v & Hbd & Hv & Htv & Hr).
  pose proof (input_bounded t rho x tx bd Hwf Hm Hx Hbd) as [_ Hsigned].
  pose proof (unsigned_val t rho x tx bd Hwf Hm Hx Hs Hbd) as Hunsigned.
  pose proof (val_fits t rho Hm x tx Hx Hs) as Hfit. pose proof (scalar_bits tx Hs) as Hbits.
  fold (vec rho x) in Hsigned. rewrite (vec_val t rho Hm x tx Hx Hs) in Hsigned.
  unfold carrier_bits, value_at, bounds_at in Hb. rewrite Hv, Hbd in Hb. cbn [mbind option_bind] in Hb.
  injection Hb as Hb. destruct (scalar_literal v) as [z|] eqn:Hz.
  { injection Hb as Hb. destruct (scalar_literal_fact t x v Hwf Hv z Hz) as [Hval _].
    rewrite (Hval rho Hm) in *. rewrite normalize_carrier in Hb by (by rewrite Htv). rewrite Htv in Hb.
    rewrite <- Hb. symmetry. by apply wrap_small. }
  rewrite Htv in Hb. destruct (_ && _) eqn:Hnone; [done|]. cbv zeta in Hb.
  assert (Z.land logical (mask tx) = wrap (bits tx) (val rho x)) as Hland.
  { rewrite mask_ones by done. by rewrite <- wrap_land by lia. }
  rewrite Hland, normalize_carrier in Hb by done. injection Hb as <-.
  pose proof (signed_val t rho x tx bd Hwf Hm Hx Hs Hbd) as Hsig. pose proof (bits_carrier tx) as Hwc.
  destruct (_ && negb _) eqn:Hext.
  - apply andb_true_iff in Hext as [Hext _]. apply andb_true_iff in Hext as [_ Hsw%Z.leb_le].
    rewrite wrap_carrier_64, signed_value_spec, to_signed_wrap by done.
    symmetry. by apply (signed_low (cbits tx) (bits tx) (signed bd)); [lia|..].
  - assert (wrap (cbits tx) (wrap (bits tx) (val rho x)) = wrap (bits tx) (val rho x)) as ->.
    { apply wrap_small. eapply fits_mono; [exact Hwc|]. apply wrap_fits. lia. }
    symmetry. destruct (decide (unsigned bd <= bits tx)); [by apply wrap_small, (fits_mono (unsigned bd))|].
    destruct (Z.ltb_spec (bits tx) 32) as [Hlt|Hge]; cycle 1.
    { apply wrap_small. assert (bits tx = cbits tx) as -> by (by destruct tx). done. }
    apply andb_false_iff in Hnone as [Hn%Z.ltb_ge|Hn%Z.ltb_ge]; [lia|].
    rewrite (proj2 (Z.leb_le _ _)) in Hext by lia. cbn [andb] in Hext. apply negb_false_iff, Z.eqb_eq in Hext.
    pose proof (sign_clear (bits tx) (val rho x) ltac:(lia) Hext) as Hclear.
    rewrite <- Hclear. rewrite <- (signed_low (cbits tx) (bits tx) (signed bd) (val rho x)) at 2 by (done || lia).
    rewrite Hclear. symmetry. apply wrap_small. eapply fits_mono; [exact Hwc|]. apply wrap_fits. lia.
Qed.
