(* ===== verification/FactsInfer.v ===== *)
(** * Inference of known bits

    [bits_of] visits a value's inputs with an explicit stack and derives its bits.
    It always finishes within its fuel, and what it derives holds of every
    valuation that satisfies the facts. *)

From S2P Require Import Prelude Bytes Types Floating Expr Evaluate Values Fold Model Carrier Bounds Table FoldBase Facts.
Local Open Scope Z_scope.

(** * The meaning of path facts

    When recorded bits, lane words, ranges and comparison outcomes hold of a
    valuation, the well-formedness of a fact state, and the lemmas on bits and
    lane words that inference and assumptions share. *)

(** ** Known bits *)

(** Bits of a [w]-bit encoding. *)
Record bits_ok (w : Z) (b : Bits) : Prop := {
  ok_mask : fits w (bmask b);
  ok_value : Z.land (bvalue b) (bmask b) = bvalue b;
}.

Definition says (b : Bits) (z : Z) : Prop := Z.land z (bmask b) = bvalue b.

Lemma says_testbit b z i : says b z -> Z.testbit (bvalue b) i = Z.testbit z i && Z.testbit (bmask b) i.
Proof. intros <-. apply Z.land_spec. Qed.

Lemma says_intro b z :
  (forall i, 0 <= i -> Z.testbit z i && Z.testbit (bmask b) i = Z.testbit (bvalue b) i) -> says b z.
Proof. intros H. apply Z.bits_inj'. intros i Hi. rewrite Z.land_spec. auto. Qed.

Lemma subset_testbit w b i : bits_ok w b -> Z.testbit (bvalue b) i = true -> Z.testbit (bmask b) i = true.
Proof. intros [_ <-]. rewrite Z.land_spec. by intros [_ ?]%andb_true_iff. Qed.

Lemma mask_above w b i : bits_ok w b -> w <= i -> Z.testbit (bmask b) i = false.
Proof. intros [H _]. by apply fits_testbit. Qed.

Lemma bits_ok_value w b : 0 <= w -> bits_ok w b -> fits w (bvalue b).
Proof. intros Hw [Hm <-]. by apply fits_land_r. Qed.

Lemma bits_ok_mono v w b : v <= w -> bits_ok v b -> bits_ok w b.
Proof. intros Hle [H1 H2]. split; [by eapply fits_mono|done]. Qed.

Lemma no_bits_ok w : 0 <= w -> bits_ok w no_bits.
Proof. split; [by apply fits_0|done]. Qed.
Lemma says_nothing z : says no_bits z.
Proof. apply Z.land_0_r. Qed.

Lemma common_ok w a b : 0 <= w -> bits_ok w a -> bits_ok w (common a b).
Proof.
  intros Hw [Ha Hs]. split; cbn [common bmask bvalue]; [apply fits_land_l; [done|by apply fits_land_l]|].
  bitwise.
Qed.
Lemma says_common_l a b z : says a z -> says (common a b) z.
Proof.
  intros Ha. apply says_intro. intros i Hi. cbn [common bmask bvalue]. autorewrite with testbit.
  rewrite (says_testbit a z i Ha). btauto.
Qed.
Lemma says_common_r w a b z : bits_ok w a -> w <= 64 -> says b z -> says (common a b) z.
Proof.
  intros Hok Hw Hb. apply says_intro. intros i Hi. cbn [common bmask bvalue].
  rewrite !Z.land_spec, testbit_bnot, Z.lxor_spec, (says_testbit b z i Hb) by lia.
  destruct (Z.ltb_spec i 64).
  - destruct (Z.testbit z i), (Z.testbit (bmask a) i), (Z.testbit (bmask b) i), (Z.testbit (bvalue a) i); done.
  - rewrite (mask_above w a i Hok) by lia. btauto.
Qed.

Lemma bits_union_ok w a b : 0 <= w -> bits_ok w a -> bits_ok w b -> bits_ok w (bits_union a b).
Proof.
  intros Hw Ha Hb. split; cbn [bits_union bmask bvalue]; [apply fits_lor; [done|apply Ha|apply Hb]|].
  apply Z.bits_inj'. intros i Hi. rewrite Z.land_spec, !Z.lor_spec.
  pose proof (subset_testbit w a i Ha). pose proof (subset_testbit w b i Hb).
  destruct (Z.testbit (bvalue a) i), (Z.testbit (bvalue b) i), (Z.testbit (bmask a) i), (Z.testbit (bmask b) i); naive_solver.
Qed.
Lemma says_union a b z : says a z -> says b z -> says (bits_union a b) z.
Proof.
  intros Ha Hb. apply says_intro. intros i Hi. cbn [bits_union bmask bvalue].
  rewrite !Z.lor_spec, (says_testbit a z i Ha), (says_testbit b z i Hb). btauto.
Qed.

Lemma restrict_ok_l w a m : 0 <= w -> bits_ok w a -> bits_ok w (restrict a m).
Proof.
  intros Hw [Ha Hs]. split; cbn [restrict bmask bvalue]; [by apply fits_land_l|].
  rewrite <- Hs at 2. bitwise.
Qed.
Lemma restrict_ok v w a m : 0 <= w -> bits_ok v a -> fits w m -> bits_ok w (restrict a m).
Proof.
  intros Hw [Ha Hs] Hm. split; cbn [restrict bmask bvalue]; [by apply fits_land_r|].
  rewrite <- Hs at 2. bitwise.
Qed.
Lemma says_restrict a m z : says a z -> says (restrict a m) z.
Proof.
  intros Ha. apply says_intro. intros i Hi. cbn [restrict bmask bvalue].
  rewrite !Z.land_spec, (says_testbit a z i Ha). btauto.
Qed.

(** Only the bits under the mask matter. *)
Lemma says_agree b z z' : Z.land z (bmask b) = Z.land z' (bmask b) -> says b z -> says b z'.
Proof. unfold says. congruence. Qed.
Lemma says_low w b z z' : 0 <= w -> bits_ok w b -> wrap w z = wrap w z' -> says b z -> says b z'.
Proof.
  intros Hw [Hm _] Heq. apply says_agree. rewrite (Z.land_comm z), (Z.land_comm z').
  rewrite <- (wrap_small w (bmask b) Hm), !land_wrap_l, !wrap_land_distr, Heq by done. done.
Qed.

Lemma says_conflict a b z : says a z -> says b z -> conflicts a b = false.
Proof.
  intros Ha Hb. unfold conflicts. apply negb_false_iff, Z.eqb_eq. bitwise.
  rewrite (says_testbit a z n Ha), (says_testbit b z n Hb). btauto.
Qed.

(** All of the bits are known. *)
Lemma says_all w b z : says b z -> Z.land (bmask b) (Z.ones w) = Z.ones w -> 0 <= w ->
  wrap w (bvalue b) = wrap w z.
Proof.
  intros Hb Hm Hw. rewrite <- Hb, !wrap_land by done. rewrite <- Z.land_assoc. by rewrite Hm.
Qed.

(** Single bits. *)
Lemma says_bit b z : says b z -> Z.land (bmask b) 1 <> 0 ->
  (Z.land (bvalue b) 1 =? 0) = negb (Z.testbit z 0).
Proof.
  intros Hb Hm. change 1 with (Z.shiftl 1 0) in *.
  pose proof (has_bit (bvalue b) 0 ltac:(lia)) as Hv. pose proof (has_bit (bmask b) 0 ltac:(lia)) as Hk.
  unfold has in *. rewrite (proj2 (Z.eqb_neq _ 0)) in Hk by done. cbn [negb] in Hk.
  rewrite (says_testbit b z 0 Hb), <- Hk, andb_true_r in Hv. rewrite <- Hv. by rewrite negb_involutive.
Qed.

Lemma land_1_bit z : (Z.land z 1 =? 0) = negb (Z.testbit z 0).
Proof.
  pose proof (has_bit z 0 ltac:(lia)) as H. unfold has in H. change (Z.shiftl 1 0) with 1 in H.
  by rewrite <- H, negb_involutive.
Qed.

Lemma truth_bits_ok truth w : 1 <= w -> bits_ok w (truth_bits truth).
Proof.
  intros Hw. split; [|by destruct truth]. apply (fits_mono 1); [done|by apply (bool_decide_unpack _)].
Qed.
Lemma says_truth truth z : Z.testbit z 0 = truth -> says (truth_bits truth) z.
Proof.
  intros <-. unfold says; cbn [truth_bits bmask bvalue]. change 1 with (Z.ones 1). rewrite <- wrap_land by lia.
  unfold wrap. change (2 ^ 1) with 2. symmetry. rewrite Z.bit0_mod. done.
Qed.
Lemma says_truth_inv truth z : says (truth_bits truth) z -> Z.testbit z 0 = truth.
Proof.
  intros H. pose proof (says_testbit _ z 0 H) as Hb. cbn [truth_bits bmask bvalue] in Hb.
  change (Z.testbit 1 0) with true in Hb. rewrite andb_true_r in Hb. rewrite <- Hb. by destruct truth.
Qed.

(** ** What construction promises

    Construction lowers a logical operation to carriers so that its operands are
    represented the way the operation reads them: sign-extended where it is
    signed, normalized where it tests truth. *)

Definition signed_exact (t : ValueTable) (x : nat) : bool :=
  match type_at t x, bounds_at t x with
  | Some tx, Some b => (32 <=? bits tx) || (signed b <=? bits tx)
  | _, _ => false
  end.
Definition unsigned_exact (t : ValueTable) (x : nat) : bool :=
  match type_at t x, bounds_at t x with
  | Some tx, Some b => unsigned b <=? bits tx
  | _, _ => false
  end.
(** A carrier that is zero exactly when its low bit is. *)
Definition truthful (t : ValueTable) (x : nat) : bool :=
  match bounds_at t x with Some b => (unsigned b <=? 1) || (signed b <=? 1) | None => false end.
Definition signed_operands (t : ValueTable) (x y : nat) : bool :=
  bool_decide (type_at t x = type_at t y) && signed_exact t x && signed_exact t y.

Definition promise (t : ValueTable) (ty : Ty) (e : Expression nat) : bool :=
  match e with
  | EUnary (ZeroTest _) x => negb (bool_decide (type_at t x = Some I1)) || truthful t x
  | EUnary (FloatConvert FromSignedInteger) x => signed_exact t x
  | EUnary (FloatConvert FromUnsignedInteger) x => unsigned_exact t x
  | EBinary (Compare (CmpInteger operator)) x y =>
      bool_decide (ty = I1) &&
      match operator with LtSigned | GeSigned => signed_operands t x y | _ => true end
  | EBinary (Integer (DivSigned | RemSigned)) x y => signed_operands t x y
  | EShift (ShScalar RightSigned) x _ => signed_exact t x
  | EShift (Rotate _) x _ => match type_at t x with Some tx => 32 <=? bits tx | None => false end
  | ETernary Select _ _ z => bool_decide (type_at t z = Some I1) && truthful t z
  | _ => true
  end.

(** The table also keeps the bounds of scalars within their carriers, as
    [for_value] computes them. *)
Record constructed (t : ValueTable) : Prop := {
  c_promises : Forall (fun v => match definition v with DExpression e => promise t (ty v) e = true | _ => True end) (values t);
  c_bounds : Forall (fun p => is_scalar (ty p.1) = true -> unsigned p.2 <= bits (carrier (ty p.1)))
               (zip (values t) (bounds t));
}.

(** ** Meaning *)

Definition holds (rho : Valuation) (id : nat) (b : Bits) : Prop := says b (val rho id).

Definition word_of (rho : Valuation) (w : VectorWord) : Z :=
  wrap 64 (Z.shiftr (vec rho (word_value w)) (half w * 64)).

Definition outcome (t : ValueTable) (rho : Valuation) (key : Comparison) (truth : bool) : Prop :=
  forall tl, type_at t (c_left key) = Some tl ->
    int_compare (carrier tl) (c_operator key) (val rho (c_left key)) (val rho (c_right key)) = truth.

Record base_sat (t : ValueTable) (rho : Valuation) (f : ScalarFacts) : Prop := {
  sat_known : forall id b, known f !! id = Some b -> holds rho id b;
  sat_lanes : forall words w b, lanes f = Some words -> words !! w = Some b -> says b (word_of rho w);
  sat_ranges : forall id r, ranges f !! id = Some r -> minimum r <= val rho id <= maximum r;
  sat_comparisons : forall key truth, comparisons f !! key = Some truth -> outcome t rho key truth;
}.

Definition cache_sat (rho : Valuation) (cache : gmap nat Bits) : Prop :=
  forall id b, cache !! id = Some b -> holds rho id b.

(** The facts hold of a valuation. *)
Definition sat (t : ValueTable) (rho : Valuation) (f : ScalarFacts) : Prop :=
  base_sat t rho f /\ cache_sat rho (computed f).

(** ** Well-formed facts *)

Definition scalar_at_type (t : ValueTable) (id : nat) (ty : Ty) : Prop :=
  type_at t id = Some ty /\ is_scalar ty = true.

Definition word_ok (t : ValueTable) (w : VectorWord) : Prop :=
  (half w = 0 \/ half w = 1) /\ exists tv, type_at t (word_value w) = Some tv /\ is_vector tv = true.

Definition key_ok (t : ValueTable) (key : Comparison) : Prop :=
  exists tl tr, type_at t (c_left key) = Some tl /\ type_at t (c_right key) = Some tr /\
    is_integer tl = true /\ carrier tr = carrier tl.

(** A tracked root is a settled predicate over two predicates. *)
Definition root_ok (t : ValueTable) (known : gmap nat Bits) (id : nat) : Prop :=
  exists b r operator x y, known !! id = Some b /\ Z.land (bmask b) 1 <> 0 /\
    type_at t id = Some I1 /\ expression_of t id = Some (Some r) /\
    er_expression r = EBinary (Bitwise operator) x y.

Record constraints_ok (t : ValueTable) (known : gmap nat Bits) (c : Constraints) : Prop := {
  c_roots : (length (roots c) <= MAX_CONSTRAINTS)%nat;
  c_active : 0 <= active c;
  c_index : forall index, Z.testbit (active c) index = true ->
    exists id, roots c !! Z.to_nat index = Some id /\ root_ok t known id;
  c_root : forall index id, roots c !! index = Some id -> exists r operator x y,
    type_at t id = Some I1 /\ expression_of t id = Some (Some r) /\
    er_expression r = EBinary (Bitwise operator) x y;
}.

Record base_ok (t : ValueTable) (f : ScalarFacts) : Prop := {
  known_ok : forall id b, known f !! id = Some b -> exists ty, scalar_at_type t id ty /\ bits_ok (bits ty) b;
  lanes_ok : forall words w b, lanes f = Some words -> words !! w = Some b -> word_ok t w /\ bits_ok 64 b;
  ranges_ok : forall id r, ranges f !! id = Some r -> 0 <= minimum r <= maximum r;
  comparisons_ok : forall key truth, comparisons f !! key = Some truth -> key_ok t key;
  facts_constraints_ok : constraints_ok t (known f) (constraints f);
}.

Definition cache_ok (t : ValueTable) (cache : gmap nat Bits) : Prop :=
  forall id b, cache !! id = Some b -> exists ty, type_at t id = Some ty /\
    if is_scalar ty then bits_ok (bits ty) b else b = no_bits.

Definition facts_ok (t : ValueTable) (f : ScalarFacts) : Prop := base_ok t f /\ cache_ok t (computed f).

Lemma no_facts_ok t : facts_ok t no_facts.
Proof.
  split; [split|]; cbn; try done.
  split; cbn; [unfold MAX_CONSTRAINTS; lia|done| |done]. intros index H. by rewrite Z.testbit_0_l in H.
Qed.
Lemma no_facts_sat t rho : sat t rho no_facts.
Proof. split; [split|]; by cbn. Qed.

(** ** Stored expressions *)

Section Stored.
#[local] Set Default Proof Using "All".
Context (t : ValueTable) (Hwf : wf t) (Hcon : constructed t).

Lemma stored_promise id v e : values t !! id = Some v -> definition v = DExpression e -> promise t (ty v) e = true.
Proof.
  intros Hv Hd. pose proof (c_promises t Hcon) as Hp. rewrite Forall_lookup in Hp. specialize (Hp id v Hv). cbn in Hp.
  by rewrite Hd in Hp.
Qed.

Lemma scalar_unsigned id ty b : type_at t id = Some ty -> is_scalar ty = true -> bounds t !! id = Some b ->
  0 <= unsigned b <= cbits ty.
Proof.
  intros Hty Hs Hb. split; [apply (wf_range t Hwf id b Hb)|]. apply fmap_Some in Hty as (v & Hv & ->).
  pose proof (c_bounds t Hcon) as Hall. rewrite Forall_lookup in Hall. apply (Hall id (v, b)); [|done].
  apply lookup_zip_with_Some. eauto.
Qed.

Record expression_at (id : nat) (ty : Ty) (r : ExpressionResult) : Prop := {
  at_typed : typed t ty (er_expression r);
  at_inputs : Forall (fun i => (i < id)%nat) (inputs (er_expression r));
  at_value : forall rho l, model t rho -> eval t rho ty (er_expression r) (er_component r) = Some l -> rho id = l;
  at_premise : forall rho, model t rho -> premise rho ty (er_expression r);
  at_promise : promise t ty (er_expression r) = true;
  at_component : (er_component r < length (result_types (er_expression r) ty))%nat;
}.

Lemma stored_at id v e : values t !! id = Some v -> definition v = DExpression e ->
  expression_at id (ty v) (mkResult id e 0).
Proof.
  intros Hv Hd. pose proof (wf_value t Hwf id v Hv) as Hok. unfold value_ok in Hok. rewrite Hd in Hok.
  destruct Hok as (Hin & [Ht Hp] & _). split; cbn; [done|done| |done|by eapply stored_promise|by destruct e; cbn; lia].
  intros rho l Hm He. by eapply stored_value.
Qed.

Lemma expression_of_spec id v : values t !! id = Some v ->
  exists r, expression_of t id = Some r /\ forall r', r = Some r' -> expression_at id (ty v) r'.
Proof.
  intros Hv. unfold expression_of, definition_at. rewrite Hv. cbn [fmap option_fmap option_map mbind option_bind].
  destruct (definition v) as [l|e|b c|[item|p] c] eqn:Hd; try (by eexists).
  - eexists. split; [done|]. intros r' [= <-]. by apply stored_at.
  - pose proof (wf_value t Hwf id v Hv) as Hok. unfold value_ok in Hok. rewrite Hd in Hok.
    destruct Hok as (c' & pv & e & -> & -> & Hp & Hpd & Hres). rewrite Hp. cbn. rewrite Hpd.
    eexists. split; [done|]. intros r' [= <-].
    destruct (stored_at p pv e Hp Hpd) as [Ht Hin Hval Hpre Hpro _]. cbn [er_expression er_component] in *.
    destruct e as [| | | |s x y]; cbn in Hres; try done. destruct c' as [|]; [|done]. cbn in Hres.
    assert (ty pv = I64) as E by (by apply typed_multiply in Ht as (_ & _ & ->)). rewrite E in *. injection Hres as Hres. rewrite <- Hres in *.
    split; cbn [er_expression er_component]; [done| | |done|done|cbn; lia].
    + eapply Forall_impl; [exact Hin|]. cbn. lia.
    + intros rho l Hm He. eapply (m_determined t rho Hm); [exact Hv|]. unfold determined. rewrite Hd.
      unfold definition_at. rewrite Hp. cbn. rewrite Hpd, <- Hres. exact He.
Qed.

Lemma input_type id ty r i : expression_at id ty r -> i ∈ inputs (er_expression r) -> exists ti, type_at t i = Some ti.
Proof.
  intros Hat Hi. pose proof (typed_inputs _ _ _ (at_typed _ _ _ Hat)) as Hall. rewrite Forall_forall in Hall. by apply Hall.
Qed.
End Stored.

(** ** Lane words *)

Section Lanes.
#[local] Set Default Proof Using "All".
Context (t : ValueTable) (Hwf : wf t).

Lemma word_new_spec x tx h : type_at t x = Some tx -> is_vector tx = true -> h = 0 \/ h = 1 ->
  exists w, word_new t x h = Some w /\ half w = h /\ word_ok t w /\
    forall rho, model t rho -> word_of rho w = wrap 64 (Z.shiftr (vec rho x) (h * 64)).
Proof.
  intros Hx Hv Hh. destruct (representation_spec t x tx Hwf Hx) as (r & Hr & [_ (tr & Htr & Hc) Hval _]).
  exists (mkWord r h). unfold word_new. rewrite Hr. split_and!; [done..| |].
  - split; [done|]. exists tr. split; [done|]. unfold is_vector in *. by rewrite <- carrier_scalar, Hc, carrier_scalar.
  - intros rho Hm. unfold word_of, vec; cbn [word_value half]. by rewrite (Hval rho Hm).
Qed.

Lemma word_bits_spec w words : word_ok t w ->
  (forall w b, words = Some w -> forall k, w !! k = Some b -> bits_ok 64 b) ->
  exists b, word_bits t w words = Some b /\ bits_ok 64 b /\
    forall rho, model t rho ->
      (forall m k b, words = Some m -> m !! k = Some b -> says b (word_of rho k)) -> says b (word_of rho w).
Proof.
  intros (Hh & tv & Htv & Hv) Hok. unfold word_bits, definition_at.
  apply fmap_Some in Htv as (v & Hval & ->). rewrite Hval. cbn [fmap option_fmap option_map mbind option_bind].
  assert (exists b, Some (default no_bits (words ≫= fun words => words !! w)) = Some b /\ bits_ok 64 b /\
    forall rho, model t rho ->
      (forall m k b, words = Some m -> m !! k = Some b -> says b (word_of rho k)) -> says b (word_of rho w)) as Hstored.
  { eexists. split; [done|]. destruct words as [m|]; cbn [mbind option_bind]; cbn.
    - destruct (m !! w) as [b|] eqn:Hb; cbn; [|by split; [apply no_bits_ok|intros; apply says_nothing]].
      split; [by eapply Hok|]. intros rho _ Hs. by eapply Hs.
    - split; [by apply no_bits_ok|intros; apply says_nothing]. }
  destruct (definition v) as [l| | |] eqn:Hd; try exact Hstored.
  eexists. split; [done|]. split.
  - split; cbn; [by apply fits_ones|]. rewrite <- wrap_land by lia. apply wrap_wrap.
  - intros rho Hm _. unfold says, word_of, vec; cbn [bmask bvalue].
    rewrite (m_determined t rho Hm _ v l) by (unfold determined; by rewrite ?Hd).
    rewrite <- wrap_land by lia. apply wrap_wrap.
Qed.

(** A lane within a 64-bit half of a vector. *)
Record observes (id : nat) (o : LaneObservation) : Prop := {
  obs_word : word_ok t (word o);
  obs_lane : exists lane, is_lane lane = true /\ lane_mask o = mask lane /\
    0 <= offset o /\ offset o + bits lane <= 64 /\
    forall rho, model t rho -> val rho id = wrap (bits lane) (Z.shiftr (word_of rho (word o)) (offset o));
}.

Lemma lane_within b lane v : b = 8 \/ b = 16 \/ b = 32 \/ b = 64 -> 0 <= lane -> (lane + 1) * b <= 128 ->
  (lane * b / 64 = 0 \/ lane * b / 64 = 1) /\ 0 <= (lane * b) mod 64 /\ (lane * b) mod 64 + b <= 64 /\
  wrap b (Z.shiftr (wrap 64 (Z.shiftr v (lane * b / 64 * 64))) ((lane * b) mod 64)) = wrap b (Z.shiftr v (lane * b)).
Proof.
  intros Hb Hl Hin.
  assert (lane * b / 64 * 64 + (lane * b) mod 64 = lane * b) as Hsum
    by (pose proof (Z.div_mod (lane * b) 64 ltac:(lia)); lia).
  assert ((lane * b) mod 64 + b <= 64) as Hfit.
  { clear Hsum. destruct Hb as [-> | [-> | [-> | ->]]]; Z.to_euclidean_division_equations; lia. }
  pose proof (Z.mod_pos_bound (lane * b) 64 ltac:(lia)).
  split; [clear Hsum; destruct Hb as [-> | [-> | [-> | ->]]]; Z.to_euclidean_division_equations; lia|].
  split; [lia|]. split; [lia|].
  set (q := lane * b / 64 * 64) in *. set (r := (lane * b) mod 64) in *.
  assert (0 <= q) by (subst q; assert (0 <= lane * b / 64) by (apply Z.div_pos; nia); lia).
  rewrite wrap_shiftr by lia. rewrite Z.shiftr_shiftr by lia. by rewrite Hsum.
Qed.

Lemma observation_of_spec id ty : scalar_at_type t id ty ->
  exists o, observation_of t id = Some o /\ forall o', o = Some o' -> observes id o'.
Proof.
  intros [Hty Hs]. destruct (representation_spec t id ty Hwf Hty) as (r & Hr & [_ (tr & Htr & Hc) Hval _]).
  unfold observation_of. rewrite Hr. cbn [mbind option_bind]. unfold value_at.
  apply fmap_Some in Htr as (v & Hv & ->). rewrite Hv. cbn [mbind option_bind].
  destruct (definition v) as [|[op x| | | |]| |] eqn:Hd; try (by eexists).
  pose proof (wf_value t Hwf r v Hv) as Hok. unfold value_ok in Hok. rewrite Hd in Hok.
  destruct Hok as (_ & [Ht _] & _). apply typed_unary in Ht as (tx & Hx & Ht). rewrite Hx. cbn [mbind option_bind].
  destruct op; try (by eexists).
  - (* ExtractLane *)
    cbn [unary_typed] in Ht. btyping. unfold lane_in_vector in *. btyping.
    assert (bits (Values.ty v) = 8 \/ bits (Values.ty v) = 16 \/ bits (Values.ty v) = 32 \/ bits (Values.ty v) = 64) as Hb
      by (destruct (Values.ty v); try done; cbn; auto).
    destruct (lane_within _ lane 0 Hb) as (Hh & Hoff0 & Hle & _); [lia..|].
    destruct (word_new_spec x tx _ Hx ltac:(done) Hh) as (w & -> & Hwh & Hwo & Hwv). cbn [mbind option_bind].
    eexists. split; [done|]. intros o' [= <-]. split; cbn [word offset lane_mask]; [done|].
    exists (Values.ty v). split_and!; [done..|lia|lia|]. intros rho Hm.
    rewrite (Hwv rho Hm). destruct (lane_within _ lane (vec rho x) Hb) as (_ & _ & _ & ->); [lia..|].
    unfold val. rewrite <- (Hval rho Hm).
    rewrite (stored_value t rho r v _ (lit (normalize (Values.ty v) (wrap 64 (Z.shiftr (vec rho x) (lane * bits (Values.ty v)))))) Hm Hv Hd).
    + cbn [low lit]. rewrite normalize_wrap by (by destruct (Values.ty v)). rewrite wrap_idem_le by lia. done.
    + by apply (ev_extract t rho Hm) with (tx := tx).
  - (* Reinterpret *)
    destruct (bool_decide_reflect (Values.ty v = I64)) as [E|]; [|by eexists].
    destruct (bool_decide_reflect (carrier tx = V128)) as [Ec|]; [|by eexists]. cbn [andb].
    destruct (word_new_spec x tx 0 Hx) as (w & Hw & Hwh & Hwo & Hwv); [by destruct tx|by left|].
    rewrite Z.mul_0_l. change (0 / 64) with 0. rewrite Hw. cbn [mbind option_bind].
    eexists. split; [done|]. intros o' [= <-]. split; cbn [word offset lane_mask]; [done|].
    exists I64. rewrite E. split_and!; [done..|]. intros rho Hm. rewrite (Hwv rho Hm). cbn [bits].
    rewrite Z.mul_0_l, !Z.shiftr_0_r, wrap_wrap. unfold val. rewrite <- (Hval rho Hm).
    rewrite (stored_value t rho r v _ (lit (wrap 64 (vec rho x))) Hm Hv Hd); [done|].
    rewrite (ev_reinterpret t rho Hm _ x tx) by done. by rewrite E.
Qed.

Lemma scalar_mask ty : is_scalar ty = true -> mask ty = Z.ones (bits ty).
Proof. apply mask_ones. Qed.

Lemma observation_read_spec f o id words : base_ok t f -> observes id o -> lanes f = Some words ->
  exists b, observation_read t o words = Some b /\ bits_ok 64 b /\
    forall rho, model t rho -> base_sat t rho f -> holds rho id b.
Proof.
  intros Hok [Hw (lane & Hl & Hmask & H0 & Hoff & Hval)] Hwords. unfold observation_read.
  destruct (word_bits_spec (word o) (Some words) Hw) as (b & -> & Hb & Hsays).
  { intros w b [= <-] k Hk. by eapply (lanes_ok t f Hok). }
  cbn [mbind option_bind]. eexists. split; [done|].
  assert (is_scalar lane = true) as Hs by (by destruct lane). pose proof (scalar_bits lane Hs).
  rewrite Hmask, (mask_ones lane Hs). split.
  - apply (bits_ok_mono (bits lane)); [lia|]. apply (restrict_ok 64); [lia| |by apply fits_ones; lia].
    destruct Hb as [Hm Hv]. split; cbn [bmask bvalue].
    + unfold fits in *. rewrite Z.shiftr_div_pow2 by done. pose proof (pow2_pos (offset o) H0).
      split; [apply Z.div_pos; lia|]. apply Z.div_lt_upper_bound; [done|]. nia.
    + rewrite <- Z.shiftr_land. by rewrite Hv.
  - intros rho Hm Hsat. unfold holds. rewrite (Hval rho Hm).
    specialize (Hsays rho Hm). assert (says b (word_of rho (word o))) as Hs'.
    { apply Hsays. intros m k b' [= <-] Hk. by eapply (sat_lanes t rho f Hsat). }
    apply says_intro. intros i Hi. cbn [restrict bmask bvalue].
    rewrite !Z.land_spec, testbit_wrap, !testbit_shiftr, testbit_ones, (says_testbit b _ _ Hs') by lia.
    destruct (Z.leb_spec 0 i); [|lia]. btauto.
Qed.

Lemma known_bits_spec f id ty : base_ok t f -> scalar_at_type t id ty ->
  exists b, known_bits t f id = Some b /\ bits_ok (bits ty) b /\
    forall rho, model t rho -> base_sat t rho f -> holds rho id b.
Proof.
  intros Hok Hty. pose proof (scalar_bits ty (proj2 Hty)). unfold known_bits.
  assert (bits_ok (bits ty) (default no_bits (known f !! id)) /\
    forall rho, base_sat t rho f -> holds rho id (default no_bits (known f !! id))) as [Hk Hks].
  { destruct (known f !! id) as [b|] eqn:Hb; cbn.
    - destruct (known_ok t f Hok id b Hb) as (ty' & [Hty' _] & Hb'). destruct Hty as [Hty _]. simplify_eq.
      split; [done|]. intros rho Hs. by apply (sat_known t rho f Hs).
    - split; [apply no_bits_ok; lia|intros; apply says_nothing]. }
  destruct (lanes f) as [words|] eqn:Hwords; [|eexists; split; [done|]; eauto].
  destruct (observation_of_spec id ty Hty) as (o & -> & Ho). cbn [mbind option_bind].
  destruct o as [o|]; [|eexists; split; [done|]; eauto].
  destruct (observation_read_spec f o id words Hok (Ho o eq_refl) Hwords) as (r & -> & Hr & Hrs).
  cbn [mbind option_bind]. rewrite (proj1 Hty). cbn [mbind option_bind]. rewrite (mask_ones ty (proj2 Hty)).
  eexists. split; [done|]. split.
  - apply (restrict_ok 64); [lia| |apply fits_ones; lia]. apply bits_union_ok; [lia| |done].
    eapply bits_ok_mono; [|exact Hk]. lia.
  - intros rho Hm Hs. apply says_restrict, says_union; [by apply Hks|by apply Hrs].
Qed.

End Lanes.

(** ** Ranges *)

Definition within (r : Range) (z : Z) : Prop := minimum r <= z <= maximum r.

Lemma intersect_within a b z : within a z -> within b z -> exists r, intersect a b = Some r /\ within r z.
Proof.
  intros [Ha1 Ha2] [Hb1 Hb2]. unfold intersect. cbv zeta. rewrite (proj2 (Z.leb_le _ _)) by lia.
  eexists. split; [done|]. split; cbn; lia.
Qed.
Lemma intersect_ok a b r : 0 <= minimum a -> intersect a b = Some r -> 0 <= minimum r <= maximum r.
Proof.
  intros Ha. unfold intersect. cbv zeta. destruct (Z.leb_spec (Z.max (minimum a) (minimum b)) (Z.min (maximum a) (maximum b))); [|done].
  intros [= <-]. cbn. lia.
Qed.

Lemma says_range w b z : 0 <= w <= 64 -> bits_ok w b -> says b z -> fits w z ->
  within (mkRange (bvalue b) (Z.lor (bvalue b) (Z.land (Z.ones w) (bnot 64 (bmask b))))) z.
Proof.
  intros Hw Hok Hs Hf.
  assert (z = Z.lor (bvalue b) (Z.land z (bnot 64 (bmask b)))) as Hz.
  { apply Z.bits_inj'. intros i Hi. rewrite Z.lor_spec, Z.land_spec, testbit_bnot, (says_testbit b z i Hs) by lia.
    destruct (Z.ltb_spec i 64); [|rewrite (fits_testbit w z i) by (done || lia)]; btauto. }
  assert (forall m, 0 <= m -> bvalue b <= Z.lor (bvalue b) m) as Hle.
  { intros m Hm. pose proof (bits_ok_value w b ltac:(lia) Hok) as [Hb _]. apply Z.ldiff_le; [apply Z.lor_nonneg; lia|].
    bitwise. }
  assert (fits 64 (bnot 64 (bmask b))) as Hn.
  { apply fits_bnot; [lia|]. eapply fits_mono; [|apply Hok]. lia. }
  split; cbn [minimum maximum].
  - rewrite Hz. apply Hle, Z.land_nonneg. right. apply Hn.
  - rewrite Hz at 1. apply Z.ldiff_le.
    + apply Z.lor_nonneg. split; [apply (bits_ok_value w b ltac:(lia) Hok)|]. apply Z.land_nonneg. right. apply Hn.
    + apply Z.bits_inj'. intros i Hi. rewrite Z.ldiff_spec, !Z.lor_spec, !Z.land_spec, testbit_ones, Z.testbit_0_l by lia.
      destruct (Z.leb_spec 0 i); [|lia]. destruct (Z.ltb_spec i w); [btauto|].
      rewrite (fits_testbit w z i) by done. btauto.
Qed.

Lemma range_spec t f id ty b : wf t -> base_ok t f -> scalar_at_type t id ty -> bits_ok (bits ty) b ->
  exists r, range t f id b = Some r /\
    (forall r', r = Some r' -> 0 <= minimum r' /\ forall bb, bounds t !! id = Some bb -> unsigned bb <= bits ty) /\
    forall rho r', model t rho -> base_sat t rho f -> holds rho id b -> r = Some r' -> within r' (val rho id).
Proof.
  intros Hwf Hok [Hty Hs] Hb. pose proof (scalar_bits ty Hs). unfold range, bounds_at, value_at.
  destruct (has_bounds t id ty Hwf Hty) as [bb Hbb]. rewrite Hbb.
  apply fmap_Some in Hty as (v & Hv & ->). rewrite Hv. cbn [mbind option_bind].
  destruct (Z.ltb_spec (bits (Values.ty v)) (unsigned bb)) as [|Hle]; [eexists; split; [done|]; by split|].
  rewrite (mask_ones _ Hs). set (logical := mkRange _ _). eexists. split; [done|]. split.
  - intros r' [= <-]. split; [|intros bb' Hbb'; by simplify_eq].
    assert (0 <= minimum logical) as H0 by (apply (bits_ok_value (bits (Values.ty v)) b ltac:(lia) Hb)).
    destruct (ranges f !! id ≫= intersect logical) as [r|] eqn:Hr; cbn; [|exact H0].
    apply bind_Some in Hr as (r0 & _ & Hr). by apply (intersect_ok logical r0 r).
  - intros rho r' Hm Hsat Hh [= <-].
    assert (within logical (val rho id)) as Hlog.
    { apply (says_range (bits (Values.ty v))); [lia|done|done|].
      eapply fits_mono; [exact Hle|]. by apply (unsigned_val t rho id (Values.ty v) bb Hwf Hm); [apply type_at_value| |]. }
    destruct (ranges f !! id) as [r|] eqn:Hr; cbn; [|done].
    destruct (intersect_within logical r (val rho id) Hlog) as (r' & Hi & Hw); [by apply (sat_ranges t rho f Hsat)|].
    rewrite Hi. done.
Qed.

Lemma range_compare_spec a b x y operator truth ty : within a x -> within b y ->
  range_compare operator a b = Some truth -> int_compare ty operator x y = truth.
Proof.
  intros [Ha1 Ha2] [Hb1 Hb2] H. destruct operator; cbn [range_compare int_compare] in *; try done;
    apply bind_Some in H as (e & He & H); simplify_eq;
    repeat match type of He with context [?x <? ?y] => destruct (Z.ltb_spec x y) end;
    repeat match type of He with context [?x <=? ?y] => destruct (Z.leb_spec x y) end;
    repeat match type of He with context [?x =? ?y] => destruct (Z.eqb_spec x y) end;
    cbn in He; simplify_eq;
    repeat match goal with |- context [?x <? ?y] => destruct (Z.ltb_spec x y) end;
    repeat match goal with |- context [?x <=? ?y] => destruct (Z.leb_spec x y) end;
    repeat match goal with |- context [?x =? ?y] => destruct (Z.eqb_spec x y) end; cbn; try done; lia.
Qed.

(** ** Logical evaluation of carriers

    [constant_result] at logical widths agrees with the carrier result on
    operands represented as construction promises. *)

Section Logical.
#[local] Set Default Proof Using "All".
Context (t : ValueTable) (Hwf : wf t) (rho : Valuation) (Hm : model t rho).

Definition typed_operand (x : nat) (tx : Ty) : TypedLiteral := mkTyped tx (rho x).

Lemma operand_scalar x tx : is_scalar tx = true -> t_scalar (typed_operand x tx) = Some (val rho x).
Proof. intros H. unfold t_scalar, scalar; cbn [t_ty t_value typed_operand]. by rewrite H. Qed.

Lemma wrap_logical ty b : is_scalar ty = true -> wrap (bits ty) (wrap (cbits ty) b) = wrap (bits ty) b.
Proof. intros Hs. apply wrap_idem_le. pose proof (scalar_bits ty Hs). pose proof (bits_carrier ty). lia. Qed.

Lemma signed_exact_value x tx : type_at t x = Some tx -> is_scalar tx = true -> signed_exact t x = true ->
  signed_value tx (val rho x) = signed_value (carrier tx) (val rho x).
Proof.
  intros Hx Hs H. unfold signed_exact in H. rewrite Hx in H. destruct (has_bounds t x tx Hwf Hx) as [b Hb].
  unfold bounds_at in H. rewrite Hb in H. pose proof (scalar_bits tx Hs). pose proof (bits_carrier tx).
  rewrite !signed_value_spec by (rewrite ?carrier_scalar; done).
  apply orb_true_iff in H as [H%Z.leb_le|H%Z.leb_le].
  - by assert (bits tx = cbits tx) as -> by (by destruct tx).
  - pose proof (sfits_mono _ _ _ _ H (signed_val t rho x tx b Hwf Hm Hx Hs Hb)) as Hf. unfold sfits in Hf.
    rewrite <- (to_signed_wrap_range (bits tx) (to_signed (cbits tx) (val rho x))) by (done || lia).
    apply to_signed_eq; [lia|]. rewrite wrap_wrap, <- (wrap_idem_le (bits tx) (cbits tx) (to_signed _ _)) by lia.
    by rewrite to_signed_mod, wrap_idem_le by lia.
Qed.

Lemma unsigned_exact_value x tx : type_at t x = Some tx -> is_scalar tx = true -> unsigned_exact t x = true ->
  normalize tx (val rho x) = normalize (carrier tx) (val rho x).
Proof.
  intros Hx Hs H. unfold unsigned_exact in H. rewrite Hx in H. destruct (has_bounds t x tx Hwf Hx) as [b Hb].
  unfold bounds_at in H. rewrite Hb in H. apply Z.leb_le in H.
  rewrite (normalize_wrap tx), normalize_carrier by done.
  pose proof (unsigned_val t rho x tx b Hwf Hm Hx Hs Hb) as Hf.
  rewrite !wrap_small; [done|by eapply val_fits|by eapply fits_mono].
Qed.

Lemma truthful_bit x tx : type_at t x = Some tx -> is_scalar tx = true -> truthful t x = true ->
  negb (val rho x =? 0) = Z.testbit (val rho x) 0.
Proof.
  intros Hx Hs H. unfold truthful in H. destruct (has_bounds t x tx Hwf Hx) as [b Hb].
  unfold bounds_at in H. rewrite Hb in H. apply orb_true_iff in H as [H%Z.leb_le|H%Z.leb_le].
  - pose proof (unsigned_val t rho x tx b Hwf Hm Hx Hs Hb) as Hf. apply (fits_mono _ 1) in Hf; [|done].
    unfold fits in Hf. change (2 ^ 1) with 2 in Hf. assert (val rho x = 0 \/ val rho x = 1) as [-> | ->] by lia; done.
  - pose proof (sfits_mono _ _ _ _ H (signed_val t rho x tx b Hwf Hm Hx Hs Hb)) as Hf. unfold sfits in Hf.
    change (2 ^ (1 - 1)) with 1 in Hf. pose proof (val_fits t rho Hm x tx Hx Hs) as Hv.
    assert (0 < cbits tx) by (destruct (cbits_scalar tx Hs); lia).
    assert (val rho x = wrap (cbits tx) (to_signed (cbits tx) (val rho x))) as Hw
      by (rewrite to_signed_mod by done; symmetry; by apply wrap_small).
    assert (to_signed (cbits tx) (val rho x) = 0 \/ to_signed (cbits tx) (val rho x) = -1) as [E|E] by lia;
      rewrite E in Hw; rewrite Hw; [by destruct tx|by destruct tx].
Qed.

Lemma signed_operands_spec x y tx ty : type_at t x = Some tx -> type_at t y = Some ty -> is_scalar tx = true ->
  signed_operands t x y = true ->
  signed_value tx (val rho x) = signed_value (carrier tx) (val rho x) /\
  signed_value tx (val rho y) = signed_value (carrier tx) (val rho y).
Proof.
  intros Hx Hy Hs H. unfold signed_operands in H. btyping. assert (ty = tx) as -> by congruence.
  split; by apply signed_exact_value.
Qed.

Lemma int_binary_logical op x y tx ty' b : type_at t x = Some tx -> type_at t y = Some ty' ->
  is_integer tx = true ->
  match op with DivSigned | RemSigned => signed_operands t x y | _ => true end = true ->
  int_binary tx op (val rho x) (val rho y) = Some b ->
  int_binary (carrier tx) op (val rho x) (val rho y) = Some b.
Proof.
  intros Hx Hy Hi Hp. pose proof (integer_scalar tx Hi) as Hs. destruct op; cbn [int_binary]; try done.
  - destruct (signed_operands_spec x y tx ty' Hx Hy Hs Hp) as [-> ->].
    destruct (bool_decide_reflect (carrier tx = I32)) as [Ec|Ec]; cbn [andb].
    + destruct (bool_decide_reflect (tx = I32)) as [->|Ne]; cbn [andb]; [done|].
      destruct (signed_operands_spec x y tx ty' Hx Hy Hs Hp) as [Hsx _].
      assert (signed_value (carrier tx) (val rho x) =? - 2 ^ 31 = false) as ->; [|done].
      rewrite <- Hsx, signed_value_spec by done. pose proof (to_signed_range (bits tx) (val rho x)) as Hr.
      apply Z.eqb_neq. destruct tx; try done; cbn [bits] in *; specialize (Hr ltac:(lia)); lia.
    + destruct (bool_decide_reflect (tx = I32)) as [->|Ne]; [done|]. done.
  - destruct (signed_operands_spec x y tx ty' Hx Hy Hs Hp) as [-> ->]. done.
Qed.

Lemma int_compare_logical op x y tx ty' : type_at t x = Some tx -> type_at t y = Some ty' ->
  is_integer tx = true ->
  match op with LtSigned | GeSigned => signed_operands t x y | _ => true end = true ->
  int_compare tx op (val rho x) (val rho y) = int_compare (carrier tx) op (val rho x) (val rho y).
Proof.
  intros Hx Hy Hi Hp. pose proof (integer_scalar tx Hi) as Hs. destruct op; cbn [int_compare]; try done;
    by destruct (signed_operands_spec x y tx ty' Hx Hy Hs Hp) as [-> ->].
Qed.

(** The literal both evaluations finish with. *)
Lemma finish_agree ty b : is_scalar ty = true ->
  exists l, Some (lit (normalize (carrier ty) b)) = Some l /\ wrap (bits ty) (low l) = normalize ty b.
Proof.
  intros Hs. eexists. split; [done|]. cbn [lit low]. rewrite normalize_carrier, (normalize_wrap ty) by done.
  by apply wrap_logical.
Qed.

Definition logical_ok (e : Expression nat) (ty : Ty) (c : nat) : Prop :=
  forall e' L z, try_map (operand t rho) e = Some e' -> constant_result e' ty c = Some L -> scalar L ty = Some z ->
  exists l, eval t rho ty e c = Some l /\ wrap (bits ty) (low l) = z.

Ltac logical_operands :=
  repeat match goal with
  | H : context [t_scalar (mkTyped ?tx (rho ?x))] |- _ =>
      rewrite (operand_scalar x tx : t_scalar (mkTyped tx (rho x)) = _) in H by (done || by apply integer_scalar)
  end; cbn [mbind option_bind] in *.

Ltac finished :=
  simplify_eq; match goal with H : scalar (lit _) _ = Some _ |- _ => unfold scalar in H end;
  repeat match goal with H : (if is_scalar ?ty then _ else _) = _, Hs : is_scalar ?ty = true |- _ => rewrite Hs in H end;
  cbn [lit lit_u64 low] in *; simplify_eq.

Lemma unary_logical op x tx ty c : type_at t x = Some tx -> is_scalar tx = true -> is_scalar ty = true ->
  unary_typed op tx ty = true -> promise t ty (EUnary op x) = true -> logical_ok (EUnary op x) ty c.
Proof.
  intros Hx Hsx Hs Ht Hp e' L z He HL Hz. cbn [try_map] in He. rewrite (operand_eq t rho Hm x tx Hx) in He.
  cbn [mbind option_bind] in He. simplify_eq. cbn [constant_result] in HL.
  destruct op; cbn [unary_typed] in Ht; unfold is_vector in Ht; rewrite ?Hsx, ?Hs in Ht; btyping; try done;
    rewrite (ev_unary t rho Hm ty _ x tx c Hx) by exact I;
    unfold eval_unary in *; cbn [t_ty] in *; rewrite ?carrier_scalar, ?Hsx, ?Hs in *; cbn [negb] in *;
    rewrite (t_scalar_carrier rho x tx Hsx); cbn [mbind option_bind];
    rewrite (operand_scalar x tx Hsx : t_scalar (mkTyped tx (rho x)) = _) in HL; cbn [mbind option_bind] in HL.
  - apply bind_Some in HL as (r & -> & HL). cbn [mbind option_bind]. finished. by apply finish_agree.
  - apply bind_Some in HL as (r & Hr & HL).
    assert (convert op (carrier tx) (val rho x) = Some r) as ->.
    { rewrite <- Hr. destruct op; cbn [convert promise] in *; try done.
      - by rewrite (signed_exact_value x tx).
      - by rewrite (unsigned_exact_value x tx). }
    cbn [mbind option_bind]. finished. by apply finish_agree.
  - finished. by apply finish_agree.
  - finished. by apply finish_agree.
  - finished. by apply finish_agree.
  - finished. by apply finish_agree.
  - finished. by apply finish_agree.
  - finished. by apply finish_agree.
Qed.

Lemma binary_logical op x y tx ty' ty c : type_at t x = Some tx -> type_at t y = Some ty' ->
  is_scalar tx = true -> is_scalar ty' = true -> is_scalar ty = true ->
  binary_typed op tx ty' ty = true -> promise t ty (EBinary op x y) = true -> logical_ok (EBinary op x y) ty c.
Proof.
  intros Hx Hy Hsx Hsy Hs Ht Hp e' L z He HL Hz. cbn [try_map] in He.
  rewrite (operand_eq t rho Hm x tx Hx), (operand_eq t rho Hm y ty' Hy) in He.
  cbn [mbind option_bind] in He. simplify_eq. cbn [constant_result] in HL.
  pose proof (operand_scalar x tx Hsx : t_scalar (mkTyped tx (rho x)) = _) as Ex.
  pose proof (operand_scalar y ty' Hsy : t_scalar (mkTyped ty' (rho y)) = _) as Ey.
  rewrite (ev_binary t rho Hm ty op x y tx ty' c Hx Hy).
  destruct op; cbn [binary_typed] in Ht; unfold is_vector in Ht; rewrite ?Hsx, ?Hsy, ?Hs in Ht; btyping; try done;
    cbn [eval_binary t_ty] in *.
  - (* Bitwise *)
    simplify_eq. eexists. split; [done|]. cbn [t_value] in *.
    unfold scalar, lit_u64 in Hz. rewrite Hs in Hz. simplify_eq.
    rewrite !lit_normalize_scalar by (rewrite ?carrier_scalar; done). cbn [lit low]. by apply wrap_logical.
  - (* Compare *)
    destruct op; btyping; cbn [eval_binary t_ty] in *; rewrite Ex, Ey in HL; cbn [mbind option_bind] in HL;
      rewrite !t_scalar_carrier by done; cbn [mbind option_bind]; finished.
    + cbn [promise] in Hp. apply andb_true_iff in Hp as [_ Hp].
      rewrite (int_compare_logical op x y tx ty' Hx Hy) by done. by apply finish_agree.
    + by apply finish_agree.
  - (* Integer *)
    destruct op; btyping; cbn [eval_binary t_ty] in *; rewrite Ex, Ey in HL; cbn [mbind option_bind] in HL;
      rewrite !t_scalar_carrier by done; cbn [mbind option_bind];
      apply bind_Some in HL as (r & Hr & HL);
      (assert (is_integer tx = true) as Hi by
        (first [congruence | rewrite <- carrier_integer; match goal with E : carrier tx = _ |- _ => rewrite E end;
                             by rewrite carrier_integer]));
      match type of Hr with int_binary _ ?o _ _ = _ => rewrite (int_binary_logical o x y tx ty' r Hx Hy Hi Hp Hr) end;
      cbn [mbind option_bind]; finished;
      by apply finish_agree.
  - (* BFloat *)
    rewrite Ex, Ey in HL; cbn [mbind option_bind] in HL; rewrite !t_scalar_carrier by done; cbn [mbind option_bind].
    apply bind_Some in HL as (r & -> & HL). cbn [mbind option_bind]. finished. by apply finish_agree.
Qed.

Lemma shift_logical op x y tx ty' ty c : type_at t x = Some tx -> type_at t y = Some ty' ->
  is_scalar tx = true -> is_scalar ty' = true -> is_scalar ty = true ->
  shift_typed op tx ty' ty = true -> promise t ty (EShift op x y) = true -> logical_ok (EShift op x y) ty c.
Proof.
  intros Hx Hy Hsx Hsy Hs Ht Hp e' L z He HL Hz. cbn [try_map] in He.
  rewrite (operand_eq t rho Hm x tx Hx), (operand_eq t rho Hm y ty' Hy) in He.
  cbn [mbind option_bind] in He. simplify_eq. cbn [constant_result] in HL.
  rewrite (ev_shift t rho Hm ty op x y tx ty' c Hx Hy).
  unfold shift_typed in Ht. unfold eval_shift in *. cbn [t_ty] in *.
  rewrite (operand_scalar y ty' Hsy : t_scalar (mkTyped ty' (rho y)) = _) in HL. cbn [mbind option_bind] in HL.
  rewrite (t_scalar_carrier rho y ty' Hsy). cbn [mbind option_bind].
  destruct op as [op|op|op lane]; unfold is_vector in Ht; rewrite ?Hsx in Ht; btyping; try done;
    rewrite (operand_scalar x tx Hsx : t_scalar (mkTyped tx (rho x)) = _) in HL; cbn [mbind option_bind] in HL;
    rewrite (t_scalar_carrier rho x tx Hsx); cbn [mbind option_bind].
  - assert (int_shift tx op (val rho x) (wrap 32 (val rho y)) = int_shift (carrier tx) op (val rho x) (wrap 32 (val rho y))) as E.
    { unfold int_shift. rewrite shift_count_carrier by done. destruct op; try done.
      by rewrite (signed_exact_value x tx Hx Hsx Hp). }
    rewrite E in HL. finished. by apply finish_agree.
  - cbn [promise] in Hp. rewrite Hx in Hp. apply Z.leb_le in Hp.
    assert (carrier tx = tx) as E by (by destruct tx). rewrite E. finished. by apply finish_agree.
Qed.

Lemma ternary_logical op x y w tx ty' tw ty c :
  type_at t x = Some tx -> type_at t y = Some ty' -> type_at t w = Some tw ->
  is_scalar tx = true -> is_scalar ty' = true -> is_scalar tw = true -> is_scalar ty = true ->
  ternary_typed op tx ty' tw ty = true -> logical_ok (ETernary op x y w) ty c.
Proof.
  intros Hx Hy Hw Hsx Hsy Hsw Hs Ht e' L z He HL Hz. cbn [try_map] in He.
  rewrite (operand_eq t rho Hm x tx Hx), (operand_eq t rho Hm y ty' Hy), (operand_eq t rho Hm w tw Hw) in He.
  cbn [mbind option_bind] in He. simplify_eq. cbn [constant_result] in HL.
  rewrite (ev_ternary t rho Hm ty op x y w tx ty' tw c Hx Hy Hw).
  destruct op; cbn [ternary_typed] in Ht; unfold is_vector in Ht; rewrite ?Hsx in Ht; btyping; try done.
  unfold eval_ternary in *.
  rewrite (operand_scalar w tw Hsw : t_scalar (mkTyped tw (rho w)) = _) in HL. rewrite (t_scalar_carrier rho w tw Hsw).
  cbn [mbind option_bind t_value] in *. simplify_eq. eexists. split; [done|].
  unfold scalar, lit_u64 in Hz. rewrite Hs in Hz. simplify_eq.
  rewrite !lit_normalize_scalar by (rewrite ?carrier_scalar; done). cbn [lit low]. by apply wrap_logical.
Qed.

(** Constants evaluated at logical widths are the logical bits of the carrier
    result. *)
Lemma expression_logical ty e c : typed t ty e -> promise t ty e = true -> is_scalar ty = true ->
  (forall i ti, i ∈ inputs e -> type_at t i = Some ti -> is_scalar ti = true) -> logical_ok e ty c.
Proof.
  intros Ht Hp Hs Hin. destruct e as [op x|op x y|op x y|op x y w|s x y]; cbn [inputs] in Hin.
  - apply typed_unary in Ht as (tx & Hx & Ht). apply unary_logical with (tx := tx); try done. apply (Hin x); [left|done].
  - apply typed_binary in Ht as (tx & ty' & Hx & Hy & Ht).
    apply binary_logical with (tx := tx) (ty' := ty'); try done; [apply (Hin x)|apply (Hin y)]; set_solver.
  - apply typed_shift in Ht as (tx & ty' & Hx & Hy & Ht).
    apply shift_logical with (tx := tx) (ty' := ty'); try done; [apply (Hin x)|apply (Hin y)]; set_solver.
  - apply typed_ternary in Ht as (tx & ty' & tw & Hx & Hy & Hw & Ht).
    apply ternary_logical with (tx := tx) (ty' := ty') (tw := tw); try done;
      [apply (Hin x)|apply (Hin y)|apply (Hin w)]; set_solver.
  - apply typed_multiply in Ht as (Hx & Hy & ->). intros e' L z He HL Hz.
    assert (eval t rho I64 (EMultiplyWide s x y) c = Some L) as Hev.
    { unfold eval. rewrite He. cbn [try_map] in He.
      rewrite (operand_eq t rho Hm x I64 Hx), (operand_eq t rho Hm y I64 Hy) in He. cbn [mbind option_bind] in He.
      injection He as <-. cbn [mbind option_bind]. unfold carrier_result, Expr.map.
      rewrite (carrier_operand t rho Hm x I64 Hx), (carrier_operand t rho Hm y I64 Hy). exact HL. }
    exists L. split; [done|]. unfold scalar in Hz. cbn in Hz. simplify_eq. unfold lit_u64.
    apply wrap_small. rewrite (ev_multiply t rho Hm s x y c Hx Hy) in Hev. simplify_eq. cbn [lit low]. by apply wrap_fits.
Qed.
End Logical.

(** ** Bits of an expression *)

Lemma bitwise_bits_ok op a b : bits_ok 64 a -> bits_ok 64 b -> bits_ok 64 (bitwise_bits op a b).
Proof.
  intros Ha Hb. pose proof (bits_ok_value 64 a ltac:(lia) Ha). pose proof (bits_ok_value 64 b ltac:(lia) Hb).
  destruct Ha as [Ha _], Hb as [Hb _].
  split; destruct op; cbn [bitwise_bits bmask bvalue];
    repeat first [apply fits_lor; [lia|..] | apply fits_land_l; [lia|] | assumption];
    apply Z.bits_inj'; intros i Hi; repeat rewrite ?Z.land_spec, ?Z.lor_spec; btauto.
Qed.

Lemma says_bitwise op a b x y : bits_ok 64 a -> bits_ok 64 b -> says a x -> says b y ->
  says (bitwise_bits op a b) (bit_fn op x y).
Proof.
  intros Ha Hb Hx Hy. apply says_intro. intros i Hi.
  pose proof (mask_above 64 a i Ha) as Ma. pose proof (mask_above 64 b i Hb) as Mb.
  destruct op; cbn [bitwise_bits bmask bvalue bit_fn];
    repeat rewrite ?Z.land_spec, ?Z.lor_spec, ?Z.lxor_spec, ?testbit_bnot by lia;
    rewrite (says_testbit a x i Hx), (says_testbit b y i Hy);
    (destruct (Z.ltb_spec i 64); [|rewrite Ma, Mb by done]);
    destruct (Z.testbit x i), (Z.testbit y i), (Z.testbit (bmask a) i), (Z.testbit (bmask b) i); done.
Qed.

(** Known zeros above a width. *)
Definition zeros_above (m n : Z) : Bits := mkBits (Z.land m (bnot 64 (low_mask n))) 0.

Lemma zeros_above_ok m n : fits 64 m -> bits_ok 64 (zeros_above m n).
Proof. intros Hm. split; cbn; [by apply fits_land_l|done]. Qed.
Lemma says_zeros_above w n z : 0 <= w <= 64 -> 0 <= n <= 64 -> fits n z -> says (zeros_above (Z.ones w) n) z.
Proof.
  intros Hw Hn Hz. apply says_intro. intros i Hi. cbn [zeros_above bmask bvalue].
  rewrite Z.land_spec, testbit_bnot, low_mask_ones, !testbit_ones, Z.testbit_0_l by lia.
  destruct (Z.leb_spec 0 i); [|lia]. destruct (Z.ltb_spec i w); [|btauto]. destruct (Z.ltb_spec i 64); [|lia].
  destruct (Z.ltb_spec i n); [btauto|]. by rewrite (fits_testbit n z i).
Qed.

(** Shifts of the known bits of a [w]-bit value. *)
Lemma fits_shifted w n z : 0 <= w -> 0 <= n -> fits w z -> fits w (Z.shiftr z n).
Proof.
  intros Hw Hn [H0 H1']. rewrite Z.shiftr_div_pow2 by done. pose proof (pow2_pos n Hn).
  split; [by apply Z.div_pos|]. apply Z.div_lt_upper_bound; [done|]. nia.
Qed.

Definition shl_bits (b : Bits) (n : Z) : Bits :=
  mkBits (Z.lor (wrap 64 (Z.shiftl (bmask b) n)) (low_mask n)) (wrap 64 (Z.shiftl (bvalue b) n)).
Definition shr_bits (w : Z) (b : Bits) (n : Z) : Bits :=
  mkBits (Z.lor (Z.shiftr (bmask b) n) (Z.land (low_mask w) (bnot 64 (low_mask (w - n))))) (Z.shiftr (bvalue b) n).

Lemma shl_bits_ok b n : 0 <= n < 64 -> bits_ok 64 b -> bits_ok 64 (shl_bits b n).
Proof.
  intros Hn Hb. split; cbn [shl_bits bmask bvalue].
  - apply fits_lor; [lia|by apply wrap_fits|]. rewrite low_mask_ones by lia. eapply fits_mono; [|apply fits_ones; lia]. lia.
  - apply Z.bits_inj'. intros i Hi. rewrite Z.land_spec, Z.lor_spec, !testbit_wrap, !testbit_shiftl by lia.
    pose proof (subset_testbit 64 b (i - n) Hb) as Hs.
    destruct (Z.testbit (bvalue b) (i - n)), (Z.testbit (bmask b) (i - n)); try btauto. naive_solver.
Qed.

Lemma says_shl w b n z : 0 <= w <= 64 -> 0 <= n < 64 -> says b z -> says (shl_bits b n) (wrap 64 (Z.shiftl z n)).
Proof.
  intros Hw Hn Hs. apply says_intro. intros i Hi. cbn [shl_bits bmask bvalue].
  rewrite Z.lor_spec, !testbit_wrap, !testbit_shiftl, low_mask_ones, testbit_ones, (says_testbit b z _ Hs) by lia.
  destruct (Z.leb_spec n i), (Z.ltb_spec i n), (Z.leb_spec 0 i); try lia; btauto.
Qed.

Lemma shr_bits_ok w b n : 0 <= w <= 64 -> 0 <= n <= w -> bits_ok 64 b -> bits_ok 64 (shr_bits w b n).
Proof.
  intros Hw Hn Hb. split; cbn [shr_bits bmask bvalue].
  - apply fits_lor; [lia|apply fits_shifted; [lia|lia|apply Hb]|]. apply fits_land_l; [lia|].
    rewrite low_mask_ones by lia. eapply fits_mono; [|apply fits_ones; lia]. lia.
  - apply Z.bits_inj'. intros i Hi. rewrite Z.land_spec, Z.lor_spec, !testbit_shiftr by lia.
    pose proof (subset_testbit 64 b (i + n) Hb) as Hs.
    destruct (Z.testbit (bvalue b) (i + n)), (Z.testbit (bmask b) (i + n)); try btauto. naive_solver.
Qed.

Lemma says_shr w b n z : 0 <= w <= 64 -> 0 <= n <= w -> fits w z -> says b z ->
  says (shr_bits w b n) (Z.shiftr z n).
Proof.
  intros Hw Hn Hf Hs. apply says_intro. intros i Hi. cbn [shr_bits bmask bvalue].
  rewrite Z.lor_spec, Z.land_spec, !testbit_shiftr, testbit_bnot, !low_mask_ones, !testbit_ones, (says_testbit b z _ Hs) by lia.
  destruct (Z.leb_spec 0 i); [|lia]. destruct (Z.ltb_spec i w), (Z.ltb_spec i (w - n)), (Z.ltb_spec i 64); try lia; cbn [andb orb xorb negb];
    try btauto; rewrite (fits_testbit w z (i + n)) by (done || lia); btauto.
Qed.

Section Infer.
#[local] Set Default Proof Using "All".
Context (t : ValueTable) (Hwf : wf t) (Hcon : constructed t).

Lemma says_restrict_wrap w b z : 0 <= w -> says b z -> says (restrict b (Z.ones w)) (wrap w z).
Proof.
  intros Hw Hz. apply says_intro. intros i Hi. cbn [restrict bmask bvalue].
  rewrite !Z.land_spec, testbit_wrap, testbit_ones, (says_testbit b z i Hz) by lia.
  destruct (Z.leb_spec 0 i); [btauto|lia].
Qed.

(** The physical bits of a shift's input. *)
Definition input_bits (v : Value) (bb : BitBounds) (b : Bits) : Bits :=
  let carrier_mask := low_mask (bits (carrier (ty v))) in
  match scalar_literal v with
  | Some value => mkBits carrier_mask value
  | None => bits_union b (mkBits (Z.land carrier_mask (bnot 64 (low_mask (unsigned bb)))) 0)
  end.

Lemma input_bits_spec x v bb b : values t !! x = Some v -> bounds t !! x = Some bb -> is_scalar (ty v) = true ->
  bits_ok 64 b -> bits_ok 64 (input_bits v bb b) /\
  forall rho, model t rho -> says b (val rho x) -> says (input_bits v bb b) (val rho x).
Proof.
  intros Hv Hbb Hs Hb. pose proof (type_at_value t x v Hv) as Hx.
  pose proof (scalar_unsigned t Hwf Hcon x (ty v) bb Hx Hs Hbb) as Hu.
  assert (0 <= cbits (ty v) <= 64) as Hw by (destruct (cbits_scalar (ty v) Hs); lia).
  unfold input_bits. destruct (scalar_literal v) as [z|] eqn:Hz.
  - destruct (scalar_literal_fact t x v Hwf Hv z Hz) as (Hval & tx & Hv' & _ & Hf). rewrite Hv in Hv'. simplify_eq.
    cbn [ty] in *. rewrite low_mask_ones by done. split.
    + split; cbn [bmask bvalue]; [eapply fits_mono; [|apply fits_ones]; lia|]. rewrite <- wrap_land by lia. by apply wrap_small.
    + intros rho Hm _. unfold says; cbn [bmask bvalue]. rewrite (Hval rho Hm), <- wrap_land by lia. by apply wrap_small.
  - rewrite (low_mask_ones (cbits _)) by done. split.
    + apply bits_union_ok; [lia|done|]. apply zeros_above_ok. eapply fits_mono; [|apply fits_ones]; lia.
    + intros rho Hm Hsb. apply says_union; [done|]. apply says_zeros_above; [done|lia|].
      by apply (unsigned_val t rho x (ty v)).
Qed.

Lemma shifted_spec x tx op b c : type_at t x = Some tx -> is_integer tx = true -> bits_ok 64 b ->
  exists r, shifted t x op b c = Some r /\ bits_ok 64 r /\
    forall rho vc, model t rho -> says b (val rho x) -> says c vc ->
      says r (wrap (cbits tx) (int_shift (carrier tx) op (val rho x) (wrap 32 vc))).
Proof.
  intros Hx Hi Hb. pose proof (integer_scalar tx Hi) as Hs. unfold shifted, value_at, bounds_at.
  destruct (has_bounds t x tx Hwf Hx) as [bb Hbb].
  destruct (proj1 (fmap_Some _ _ _) Hx) as (v & Hv & ->). rewrite Hv, Hbb. cbn [mbind option_bind].
  destruct (input_bits_spec x v bb b Hv Hbb Hs Hb) as [Hb' Hsays]. fold (input_bits v bb b).
  pose proof (cbits_integer (ty v) Hi) as Hw. set (w := cbits (ty v)) in *.
  destruct (Z.eqb_spec (Z.land (bmask c) (w - 1)) (w - 1)) as [Hk|]; cbn [negb];
    [|eexists; split; [done|]; split; [by apply no_bits_ok|intros; apply says_nothing]].
  set (n := Z.land (bvalue c) (w - 1)).
  assert (0 <= n <= w - 1) as Hn.
  { subst n. split; [apply Z.land_nonneg; right; lia|]. apply Z.ldiff_le; [lia|]. bitwise. }
  assert (forall vc, says c vc -> shift_count (carrier (ty v)) (wrap 32 vc) = n) as Hcount.
  { intros vc Hc. subst n. rewrite <- Hc, <- Z.land_assoc, Hk.
    assert (shift_count (carrier (ty v)) (wrap 32 vc) = Z.land (wrap 32 vc) (w - 1)) as ->
      by (unfold shift_count; by destruct (ty v)).
    apply Z.bits_inj'. intros i Hi'. rewrite !Z.land_spec, testbit_wrap by lia.
    destruct (Z.ltb_spec i 32); [done|]. rewrite (fits_testbit 32 (w - 1) i); [btauto|unfold fits; lia|done]. }
  eexists. split; [done|]. fold (shl_bits (input_bits v bb b) n) (shr_bits w (input_bits v bb b) n).
  rewrite (low_mask_ones w) by lia. split.
  - apply restrict_ok_l; [lia|]. destruct op; [apply shl_bits_ok; lia || done|apply shr_bits_ok; lia || done|by apply no_bits_ok].
  - intros rho vc Hm Hsb Hc. specialize (Hsays rho Hm Hsb).
    pose proof (val_fits t rho Hm x (ty v) Hx Hs) as Hfv.
    destruct op; cbn [int_shift]; rewrite (Hcount vc Hc).
    + apply says_restrict_wrap, (says_shl w); lia || done.
    + apply says_restrict_wrap, says_shr; lia || done.
    + unfold says; cbn [restrict no_bits bmask bvalue]. by rewrite Z.land_0_l, Z.land_0_r.
Qed.

Lemma cached_bits cache i ti : cache_ok t cache -> is_Some (cache !! i) -> type_at t i = Some ti ->
  exists b, cache !! i = Some b /\ bits_ok 64 b /\ (is_scalar ti = true -> bits_ok (bits ti) b) /\
    forall rho, cache_sat rho cache -> says b (val rho i).
Proof.
  intros Hok [b Hb] Hti. exists b. split; [done|].
  destruct (Hok i b Hb) as (ti' & Hti' & Hb'). simplify_eq. split_and!.
  - destruct (is_scalar ti) eqn:Hs; [|subst b; by apply no_bits_ok].
    eapply bits_ok_mono; [|exact Hb']. pose proof (scalar_bits ti Hs). lia.
  - intros Hs. by rewrite Hs in Hb'.
  - intros rho Hsat. by apply Hsat.
Qed.

Lemma says_union_restrict w a b z : says (restrict a w) z -> says b z -> says (restrict (bits_union a b) w) z.
Proof.
  intros Ha Hb. apply says_intro. intros i Hi. pose proof (says_testbit _ z i Ha) as Hai.
  cbn [restrict bits_union bmask bvalue] in *. rewrite !Z.land_spec in Hai.
  rewrite !Z.land_spec, !Z.lor_spec, (says_testbit b z i Hb).
  destruct (Z.testbit (bvalue a) i), (Z.testbit z i), (Z.testbit (bmask a) i), (Z.testbit w i), (Z.testbit (bmask b) i);
    cbn in *; done.
Qed.

(** What an inferred value says of the bits of the value's type. *)
Definition derives (t : ValueTable) (cache : gmap nat Bits) (id : nat) (ty : Ty) (b : Bits) : Prop :=
  bits_ok 64 b /\ forall rho, model t rho -> cache_sat rho cache -> says (restrict b (Z.ones (bits ty))) (val rho id).

Lemma derives_nothing cache id ty : derives t cache id ty no_bits.
Proof. split; [by apply no_bits_ok|]. intros rho _ _. unfold says; cbn. by rewrite Z.land_0_r. Qed.

Lemma expression_bits_unary cache id ty op x c : cache_ok t cache -> scalar_at_type t id ty ->
  typed t ty (EUnary op x) -> is_Some (cache !! x) ->
  (forall rho l, model t rho -> eval t rho ty (EUnary op x) c = Some l -> val rho id = low l) ->
  exists b, expression_bits t cache ty (EUnary op x) = Some b /\ derives t cache id ty b.
Proof.
  intros Hok [Hty Hs] Ht Hin Hev. apply typed_unary in Ht as (tx & Hx & Ht). cbn [expression_bits].
  destruct (cached_bits cache x tx Hok Hin Hx) as (b & -> & Hb64 & Hbx & Hsays). cbn [mbind option_bind].
  pose proof (scalar_bits ty Hs) as Hbits. pose proof (bits_carrier ty) as Hcar.
  destruct op; try (eexists; split; [done|]; apply derives_nothing); cbn [unary_typed] in Ht.
  - (* ZeroTest *)
    destruct (Z.eqb_spec (bvalue b) 0) as [|Hnz]; cbn [negb]; [eexists; split; [done|]; apply derives_nothing|].
    btyping. eexists. split; [done|]. split; [by apply (truth_bits_ok nonzero 64)|].
    intros rho Hm Hsat. specialize (Hsays rho Hsat). apply says_restrict.
    rewrite (Hev rho _ Hm (ev_zero_test t rho Hm ty nonzero x tx c Hx ltac:(done) ltac:(done))). cbn [lit low].
    apply (says_truth nonzero). rewrite (proj2 (Z.eqb_neq (val rho x) 0)); [by destruct nonzero|].
    intros E. apply Hnz. rewrite <- Hsays, E. apply Z.land_0_l.
  - (* Convert *)
    assert (is_scalar tx = true) as Hsx.
    { unfold convertible, is_vector in Ht. destruct (bool_decide_reflect (tx = ty)) as [->|]; [done|]. cbn in Ht.
      rewrite Hs, andb_false_r, orb_false_r in Ht. apply andb_true_iff in Ht as [Ht _]. by apply integer_scalar. }
    destruct (has_bounds t x tx Hwf Hx) as [bb Hbb]. unfold bounds_at. rewrite Hbb. cbn [mbind option_bind].
    pose proof (scalar_unsigned t Hwf Hcon x tx bb Hx Hsx Hbb) as Hu.
    assert (cbits tx <= 64) by (destruct (cbits_scalar tx Hsx); lia).
    rewrite (mask_ones ty Hs). fold (zeros_above (Z.ones (bits ty)) (unsigned bb)). eexists. split; [done|]. split.
    + apply bits_union_ok; [lia|done|]. apply zeros_above_ok. eapply fits_mono; [|apply fits_ones]; lia.
    + intros rho Hm Hsat. specialize (Hsays rho Hsat).
      rewrite (Hev rho _ Hm (ev_convert t rho Hm ty x tx c Hx Ht)).
      rewrite lit_normalize_scalar by (by rewrite carrier_scalar). cbn [lit low]. fold (val rho x).
      apply (says_low (bits ty) _ (wrap (bits ty) (val rho x))); [lia| | |].
      * apply (restrict_ok 64); [lia| |apply fits_ones; lia]. apply bits_union_ok; [lia|done|].
        apply zeros_above_ok. eapply fits_mono; [|apply fits_ones]; lia.
      * rewrite wrap_wrap. symmetry. apply wrap_idem_le; lia.
      * apply says_restrict_wrap; [lia|]. apply says_union; [done|]. apply says_zeros_above; [lia|lia|].
        by apply (unsigned_val t rho x tx).
  - (* LowBits *)
    btyping. eexists. split; [done|]. rewrite (mask_ones ty Hs).
    assert (0 <= count <= 64) as Hc by (destruct (cbits_integer ty ltac:(done)); lia).
    fold (zeros_above (Z.ones (bits ty)) count). split.
    + apply bits_union_ok; [lia|by apply restrict_ok_l|]. apply zeros_above_ok. eapply fits_mono; [|apply fits_ones]; lia.
    + intros rho Hm Hsat. specialize (Hsays rho Hsat). apply says_restrict.
      rewrite (Hev rho _ Hm (ev_low_bits t rho Hm ty count x tx c Hx ltac:(done) ltac:(done) ltac:(done) ltac:(lia))).
      cbn [lit low]. apply says_union.
      * rewrite low_mask_ones by lia. apply says_restrict_wrap; [lia|done].
      * apply says_zeros_above; [lia|lia|]. apply wrap_fits. lia.
Qed.

Lemma carrier_is_scalar tx ty : carrier tx = carrier ty -> is_scalar ty = true -> is_scalar tx = true.
Proof. intros H Hs. by rewrite <- carrier_scalar, H, carrier_scalar. Qed.

Lemma expression_bits_spec cache id ty r : cache_ok t cache -> scalar_at_type t id ty -> expression_at t id ty r ->
  (forall i, i ∈ inputs (er_expression r) -> is_Some (cache !! i)) ->
  exists b, expression_bits t cache ty (er_expression r) = Some b /\ derives t cache id ty b.
Proof.
  intros Hok [Hty Hs] [Ht _ Hval _ Hp _] Hin.
  assert (forall rho l, model t rho ->
    eval t rho ty (er_expression r) (er_component r) = Some l -> val rho id = low l) as Hev.
  { intros rho l Hm He. unfold val. by rewrite (Hval rho l Hm He). }
  clear Hval. destruct r as [p e c]; cbn [er_expression er_component] in *.
  destruct e as [op x|op x y|op x y|op x y w|s x y]; cbn [inputs] in Hin.
  - apply (expression_bits_unary cache id ty op x c); try done. apply Hin. left.
  - cbn [expression_bits]. destruct op; try (eexists; split; [done|]; apply derives_nothing).
    apply typed_binary in Ht as (tx & ty' & Hx & Hy & Ht). cbn [binary_typed] in Ht. btyping.
    destruct (cached_bits cache x tx Hok) as (a & -> & Ha64 & _ & Ha); [apply Hin; set_solver|done|].
    destruct (cached_bits cache y ty' Hok) as (b & -> & Hb64 & _ & Hb); [apply Hin; set_solver|done|].
    cbn [mbind option_bind]. eexists. split; [done|]. split; [by apply bitwise_bits_ok|].
    intros rho Hm Hsat. apply says_restrict.
    rewrite (Hev rho _ Hm (ev_bitwise_scalar t rho Hm ty op x y tx ty' c Hx Hy ltac:(done) ltac:(done) Hs)).
    cbn [lit low]. apply says_bitwise; auto.
  - cbn [expression_bits]. destruct op; try (eexists; split; [done|]; apply derives_nothing).
    apply typed_shift in Ht as (tx & ty' & Hx & Hy & Ht). unfold shift_typed in Ht. btyping.
    destruct (cached_bits cache x tx Hok) as (a & -> & Ha64 & _ & Ha); [apply Hin; set_solver|done|].
    destruct (cached_bits cache y ty' Hok) as (b & -> & Hb64 & _ & Hb); [apply Hin; set_solver|done|].
    cbn [mbind option_bind]. destruct (shifted_spec x tx op a b Hx ltac:(done) Ha64) as (r & -> & Hr & Hsays).
    eexists. split; [done|]. split; [done|]. intros rho Hm Hsat. apply says_restrict.
    rewrite (Hev rho _ Hm (ev_shift_scalar t rho Hm ty op x y tx ty' c Hx Hy ltac:(done) ltac:(done) ltac:(done))).
    cbn [lit low]. replace (carrier ty) with (carrier tx) by done. apply Hsays; auto.
  - cbn [expression_bits]. destruct op; try (eexists; split; [done|]; apply derives_nothing);
      apply typed_ternary in Ht as (tx & ty' & tw & Hx & Hy & Hw & Ht); cbn [ternary_typed] in Ht;
      unfold is_vector in Ht; rewrite ?Hs in Ht; btyping; try done.
    destruct (cached_bits cache x tx Hok) as (a & -> & Ha64 & Hax & Ha); [apply Hin; set_solver|done|].
    destruct (cached_bits cache y ty' Hok) as (b & -> & Hb64 & _ & Hb); [apply Hin; set_solver|done|].
    cbn [mbind option_bind]. eexists. split; [done|]. split; [by apply common_ok|].
    intros rho Hm Hsat. apply says_restrict.
    rewrite (Hev rho _ Hm (ev_select t rho Hm ty x y w tx ty' tw c Hx Hy Hw ltac:(done) ltac:(done) ltac:(done))).
    destruct (negb (val rho w =? 0)); [by apply says_common_l, Ha|eapply (says_common_r 64); [done|lia|by apply Hb] ].
  - eexists. split; [done|]. apply derives_nothing.
Qed.

(** *** Comparisons *)

Lemma canonical_spec op x y tx ty' : type_at t x = Some tx -> type_at t y = Some ty' ->
  is_integer tx = true -> carrier ty' = carrier tx ->
  exists key inverted, canonical t op x y = Some (key, inverted) /\ key_ok t key /\
    forall rho, model t rho -> forall truth,
      outcome t rho key truth <-> int_compare (carrier tx) op (val rho x) (val rho y) = xorb truth inverted.
Proof.
  intros Hx Hy Hi Hc.
  destruct (representation_spec t x tx Hwf Hx) as (l & Hl & [_ (tl & Htl & Hcl) Hvl _]).
  destruct (representation_spec t y ty' Hwf Hy) as (r & Hr & [_ (tr & Htr & Hcr) Hvr _]).
  assert (is_integer tl = true) as Hil by (rewrite <- carrier_integer, Hcl; by rewrite carrier_integer).
  assert (is_integer tr = true) as Hir by (rewrite <- carrier_integer, Hcr, Hc; by rewrite carrier_integer).
  unfold canonical. rewrite Hl, Hr.
  assert (forall rho, model t rho -> val rho l = val rho x /\ val rho r = val rho y) as Hval.
  { intros rho Hm. unfold val. by rewrite (Hvl rho Hm), (Hvr rho Hm). }
  assert (forall rho key op' truth, model t rho -> c_operator key = op' -> c_left key = l -> c_right key = r ->
    outcome t rho key truth <-> int_compare (carrier tx) op' (val rho x) (val rho y) = truth) as Hout.
  { intros rho key op' truth Hm <- Hkl Hkr. unfold outcome. rewrite Hkl, Hkr.
    destruct (Hval rho Hm) as [-> ->]. rewrite <- Hcl. split; [intros H; by apply H|intros H tl' Htl'; by simplify_eq]. }
  assert (key_ok t (mkComparison CEq r l)) as Hswap.
  { exists tr, tl. cbn. split_and!; [done..|congruence]. }
  assert (forall op', key_ok t (mkComparison op' l r)) as Hkey.
  { intros op'. exists tl, tr. cbn. split_and!; [done..|congruence]. }
  assert (forall rho truth, model t rho -> outcome t rho (mkComparison CEq r l) truth <->
    int_compare (carrier tx) CEq (val rho x) (val rho y) = truth) as Hswapped.
  { intros rho truth Hm. unfold outcome; cbn [c_left c_right c_operator int_compare].
    destruct (Hval rho Hm) as [-> ->]. rewrite (Z.eqb_sym (val rho y)).
    split; [intros H; by apply (H tr)|by intros]. }
  assert (forall b c d : bool, b = c <-> negb b = xorb c true) as Hneg by (by intros [] []).
  assert (forall b c : bool, b = c <-> b = xorb c false) as Hpos by (by intros [] []).
  destruct op; cbn [mbind option_bind]; try (destruct (bool_decide_reflect _); [done|]); cbn [andb];
    try (destruct (r <? l)%nat); eexists _, _; (split; [done|]; split; [done|]; intros rho Hm truth);
    first [rewrite Hswapped by done | rewrite Hout by done]; cbn [int_compare];
    rewrite ?(Z.leb_antisym (val rho x)), ?(Z.leb_antisym (signed_value _ (val rho x)));
    first [apply Hpos | apply (Hneg _ _ true)].
Qed.

Lemma comparisons_get_spec f op x y tx ty' : base_ok t f -> type_at t x = Some tx -> type_at t y = Some ty' ->
  is_integer tx = true -> carrier ty' = carrier tx ->
  exists o, comparisons_get t (comparisons f) op x y = Some o /\
    forall rho truth, model t rho -> base_sat t rho f -> o = Some truth ->
      int_compare (carrier tx) op (val rho x) (val rho y) = truth.
Proof.
  intros Hok Hx Hy Hi Hc. unfold comparisons_get.
  destruct (canonical_spec op x y tx ty' Hx Hy Hi Hc) as (key & inverted & -> & _ & Hout).
  cbn [mbind option_bind]. eexists. split; [done|]. intros rho truth Hm Hsat (b & Hb & ->)%fmap_Some.
  apply Hout; [done|]. by apply (sat_comparisons t rho f Hsat).
Qed.

Lemma expression_comparison_spec f cache id ty r : base_ok t f -> cache_ok t cache -> scalar_at_type t id ty ->
  expression_at t id ty r -> (forall i, i ∈ inputs (er_expression r) -> is_Some (cache !! i)) ->
  exists o, expression_comparison t f cache (er_expression r) = Some o /\
    forall rho truth, model t rho -> base_sat t rho f -> cache_sat rho cache -> o = Some truth ->
      val rho id = Z.b2z truth.
Proof.
  intros Hf Hok [Hty Hs] [Ht _ Hval _ Hp _] Hin.
  assert (forall rho l, model t rho ->
    eval t rho ty (er_expression r) (er_component r) = Some l -> val rho id = low l) as Hev.
  { intros rho l Hm He. unfold val. by rewrite (Hval rho l Hm He). }
  clear Hval. destruct r as [p e c]; cbn [er_expression er_component] in *.
  destruct e as [op x|op x y| | |]; cbn [inputs] in Hin; cbn [expression_comparison]; try (by eexists).
  - destruct op; try (by eexists). apply typed_unary in Ht as (tx & Hx & Ht). cbn [unary_typed] in Ht. btyping.
    assert (is_scalar tx = true) as Hsx by (by apply integer_scalar).
    destruct (cached_bits cache x tx Hok) as (b & -> & _ & Hb & Hsays); [apply Hin; left|done|]. cbn [mbind option_bind].
    destruct (range_spec t f x tx b Hwf Hf) as (o & -> & _ & Ho); [done|by apply Hb|]. cbn [mbind option_bind].
    eexists. split; [done|]. intros rho truth Hm Hsat Hc Htruth. apply bind_Some in Htruth as (a & -> & Htruth).
    rewrite (Hev rho _ Hm (ev_zero_test t rho Hm ty nonzero x tx c Hx ltac:(done) ltac:(done))). cbn [lit low]. f_equal.
    assert (within a (val rho x)) as Hw by (apply (Ho rho a Hm Hsat); [by apply Hsays|done]).
    pose proof (range_compare_spec a (mkRange 0 0) (val rho x) 0 _ truth I32 Hw ltac:(by split) Htruth) as Hcmp.
    destruct nonzero; cbn [int_compare] in Hcmp; rewrite <- Hcmp; by destruct (val rho x =? 0).
  - destruct op as [| [op|] | | | | | | | | |]; try (by eexists). apply typed_binary in Ht as (tx & ty' & Hx & Hy & Ht).
    cbn [binary_typed] in Ht. btyping.
    assert (is_scalar tx = true) as Hsx by (by apply integer_scalar).
    assert (is_scalar ty' = true) as Hsy by (by apply integer_scalar).
    destruct (cached_bits cache x tx Hok) as (a & -> & _ & Ha & Hsa); [apply Hin; set_solver|done|].
    destruct (cached_bits cache y ty' Hok) as (b & -> & _ & Hb & Hsb); [apply Hin; set_solver|done|].
    cbn [mbind option_bind].
    destruct (range_spec t f x tx a Hwf Hf) as (o & -> & _ & Ho); [done|by apply Ha|]. cbn [mbind option_bind].
    destruct o as [ra|]; [|by eexists].
    destruct (range_spec t f y ty' b Hwf Hf) as (o & -> & _ & Ho'); [done|by apply Hb|]. cbn [mbind option_bind].
    eexists. split; [done|]. intros rho truth Hm Hsat Hc Htruth. apply bind_Some in Htruth as (rb & -> & Htruth).
    rewrite (Hev rho _ Hm (ev_compare t rho Hm ty op x y tx ty' c Hx Hy ltac:(done) ltac:(done) ltac:(done))).
    cbn [lit low]. f_equal. apply (range_compare_spec ra rb); [|by apply (Ho' rho rb Hm Hsat); [apply Hsb|]|done].
    by apply (Ho rho ra Hm Hsat); [apply Hsa|].
Qed.

(** *** Constants *)

Lemma known_literal_operand cache x l rho : cache_ok t cache -> known_literal t cache x = Some l ->
  exists tx, type_at t x = Some tx /\ is_scalar tx = true /\
    (model t rho -> cache_sat rho cache -> operand t rho x = Some l).
Proof.
  intros Hok H. unfold known_literal in H.
  apply bind_Some in H as (b & Hb & H). apply bind_Some in H as (tx & Hx & H).
  destruct (is_scalar tx) eqn:Hs; cbn [negb] in H; [|done].
  destruct (Z.eqb_spec (Z.land (bmask b) (mask tx)) (mask tx)) as [Hk|]; cbn [negb] in H; [|done].
  apply bind_Some in H as (v & Hv & H). apply bind_Some in H as (z & -> & H). simplify_eq.
  exists tx. split_and!; [done..|]. intros Hm Hsat. pose proof (scalar_bits tx Hs).
  unfold operand. rewrite Hx. cbn [mbind option_bind]. do 2 f_equal.
  rewrite (proj2 (rho_scalar t rho Hm x tx Hx Hs)). f_equal.
  eapply (carrier_bits_sound t rho x tx); [done..| |exact Hv].
  rewrite (mask_ones tx Hs) in Hk. symmetry. apply says_all; [by apply Hsat|done|lia].
Qed.

Lemma expression_constant_spec cache id ty r z : cache_ok t cache -> scalar_at_type t id ty -> expression_at t id ty r ->
  expression_constant t cache ty (er_expression r) (er_component r) = Some z ->
  forall rho, model t rho -> cache_sat rho cache -> wrap (bits ty) (val rho id) = z.
Proof.
  intros Hok [Hty Hs] [Ht _ Hval _ Hp _] H rho Hm Hsat. unfold expression_constant in H.
  apply bind_Some in H as (consts & Hc & H). apply bind_Some in H as (L & HL & Hz).
  pose proof (try_map_Some _ _ _ Hc) as Hall.
  assert (forall i, i ∈ inputs (er_expression r) -> known_literal t cache i = operand t rho i /\
    exists ti, type_at t i = Some ti /\ is_scalar ti = true) as Hin.
  { intros i Hi. apply list_elem_of_lookup in Hi as [k Hk]. destruct (Forall2_lookup_l _ _ _ _ _ Hall Hk) as (l & _ & Hl).
    destruct (known_literal_operand cache i l rho Hok Hl) as (ti & Hti & Hsi & Hop). rewrite Hl, Hop by done. eauto. }
  assert (try_map (operand t rho) (er_expression r) = Some consts) as Hop.
  { rewrite <- Hc. apply try_map_ext_inputs. apply Forall_forall. intros i Hi. symmetry. by apply Hin. }
  destruct (expression_logical t Hwf rho Hm ty (er_expression r) (er_component r) Ht Hp Hs) with (e' := consts) (L := L) (z := z)
    as (l & He & Hl); [|done..|].
  { intros i ti Hi Hti. destruct (Hin i Hi) as (_ & ti' & Hti' & ?). by simplify_eq. }
  unfold val. by rewrite (Hval rho l Hm He).
Qed.

(** *** One inference *)

Lemma full_restrict_ok w z k : 0 <= w -> bits_ok w k -> bits_ok w (restrict (bits_union (mkBits (Z.ones w) z) k) (Z.ones w)).
Proof.
  intros Hw Hk. split; cbn [restrict bits_union bmask bvalue]; [apply fits_land_r; [done|by apply fits_ones]|].
  apply Z.bits_inj'. intros i Hi. rewrite !Z.land_spec, !Z.lor_spec. btauto.
Qed.

Lemma infer_spec f cache id ty r k : base_ok t f -> cache_ok t cache -> scalar_at_type t id ty ->
  expression_at t id ty r -> (forall i, i ∈ inputs (er_expression r) -> is_Some (cache !! i)) -> bits_ok (bits ty) k ->
  exists b, infer t f cache ty (er_expression r) (er_component r) k = Some b /\ bits_ok (bits ty) b /\
    forall rho, model t rho -> base_sat t rho f -> cache_sat rho cache -> holds rho id k -> holds rho id b.
Proof.
  intros Hf Hok Hid Hat Hin Hk. pose proof (scalar_bits ty (proj2 Hid)) as Hw. unfold infer.
  assert (is_Some (mapM (fun input => cache !! input) (inputs (er_expression r)))) as [bs ->].
  { apply mapM_is_Some. apply Forall_forall. intros i Hi. by apply Hin. }
  destruct (expression_bits_spec cache id ty r Hok Hid Hat Hin) as (b0 & -> & Hb0 & Hs0).
  destruct (expression_comparison_spec f cache id ty r Hf Hok Hid Hat Hin) as (o & -> & Hso). cbn [mbind option_bind].
  set (b1 := match o with Some truth => mkBits 1 (Z.b2z truth) | None => b0 end).
  assert (bits_ok 64 b1 /\ forall rho, model t rho -> base_sat t rho f -> cache_sat rho cache ->
    says (restrict b1 (Z.ones (bits ty))) (val rho id)) as [Hb1 Hs1].
  { subst b1. destruct o as [truth|]; [|split; [done|intros; by apply Hs0] ].
    split; [by apply (truth_bits_ok truth 64)|]. intros rho Hm Hsat Hc. apply says_restrict, (says_truth truth).
    rewrite (Hso rho truth Hm Hsat Hc eq_refl). by destruct truth. }
  rewrite (mask_ones ty (proj2 Hid)). eexists. split; [done|].
  destruct (expression_constant t cache ty (er_expression r) (er_component r)) as [z|] eqn:Hz.
  - split; [apply full_restrict_ok; [lia|done]|]. intros rho Hm _ Hc Hk'. apply says_union_restrict; [|done].
    unfold says; cbn [restrict bmask bvalue]. rewrite Z.land_diag, <- !wrap_land by lia.
    rewrite (expression_constant_spec cache id ty r z Hok Hid Hat Hz rho Hm Hc). symmetry. apply wrap_small.
    rewrite <- (expression_constant_spec cache id ty r z Hok Hid Hat Hz rho Hm Hc). apply wrap_fits. lia.
  - split.
    + apply (restrict_ok 64); [lia| |apply fits_ones; lia]. apply bits_union_ok; [lia|done|].
      eapply bits_ok_mono; [|exact Hk]. lia.
    + intros rho Hm Hsat Hc Hk'. apply says_union_restrict; [|done]. by apply Hs1.
Qed.

(** ** The loop *)

Section Loop.
Context (f : ScalarFacts) (Hf : base_ok t f).

(** The cache grows by sound entries. *)
Record grows (c c' : gmap nat Bits) : Prop := {
  grows_keeps : c ⊆ c';
  grows_ok : cache_ok t c';
  grows_sat : forall rho, model t rho -> base_sat t rho f -> cache_sat rho c -> cache_sat rho c';
}.

Lemma grows_refl c : cache_ok t c -> grows c c.
Proof. by split. Qed.
Lemma grows_trans a b c : grows a b -> grows b c -> grows a c.
Proof. intros [H1 H2 H3] [H4 H5 H6]. split; [by etrans|done|auto]. Qed.
Lemma grows_cached c c' i : grows c c' -> is_Some (c !! i) -> is_Some (c' !! i).
Proof. intros [H _ _] [b Hb]. exists b. by eapply lookup_weaken. Qed.

Lemma grows_insert c id ty b : cache_ok t c -> c !! id = None -> type_at t id = Some ty ->
  (if is_scalar ty then bits_ok (bits ty) b else b = no_bits) ->
  (forall rho, model t rho -> base_sat t rho f -> cache_sat rho c -> holds rho id b) -> grows c (<[id := b]> c).
Proof.
  intros Hok Hc Hty Hb Hs. split.
  - by apply insert_subseteq.
  - intros i b' [[<- <-]|[_ Hi]]%lookup_insert_Some; [by exists ty|by apply Hok].
  - intros rho Hm Hsat Hcs i b' [[<- <-]|[_ Hi]]%lookup_insert_Some; [by apply Hs|by apply Hcs].
Qed.

(** [n] rounds take the entries off the stack. *)
Record handles (c : gmap nat Bits) (entries : list (nat * bool)) (n : nat) (c' : gmap nat Bits) : Prop := {
  handles_run : forall rest, repeat_times (bits_step t f) n (c, entries ++ rest) = inl (c', rest);
  handles_grows : grows c c';
}.

Lemma handles_nil c : cache_ok t c -> handles c [] 0 c.
Proof. intros H. split; [done|by apply grows_refl]. Qed.
Lemma handles_app a e1 n b e2 m c : handles a e1 n b -> handles b e2 m c -> handles a (e1 ++ e2) (n + m) c.
Proof.
  intros [Hr1 Hg1] [Hr2 Hg2]. split; [|by eapply grows_trans]. intros rest.
  by rewrite repeat_times_add, <- app_assoc, Hr1, Hr2.
Qed.
Lemma handles_step c id ready c1 pushed n c2 : bits_visit t f c id ready = Some (c1, pushed) -> grows c c1 ->
  handles c1 pushed n c2 -> handles c [(id, ready)] (S n) c2.
Proof.
  intros Hv Hg [Hr Hg']. split; [|by eapply grows_trans]. intros rest. cbn [repeat_times app bits_step].
  by rewrite Hv, Hr.
Qed.
Lemma handles_insert c id ready ty b : bits_visit t f c id ready = Some (<[id := b]> c, []) -> cache_ok t c ->
  c !! id = None -> type_at t id = Some ty -> (if is_scalar ty then bits_ok (bits ty) b else b = no_bits) ->
  (forall rho, model t rho -> base_sat t rho f -> cache_sat rho c -> holds rho id b) ->
  handles c [(id, ready)] 1 (<[id := b]> c).
Proof.
  intros Hv Hok Hc Hty Hb Hs. assert (grows c (<[id := b]> c)) as Hg by (by eapply grows_insert).
  eapply handles_step; [done|done|]. apply handles_nil, Hg.
Qed.

(** What visiting one value achieves. *)
Definition visits (c : gmap nat Bits) (id : nat) (ready : bool) (bound : nat) : Prop :=
  exists n c', (n <= bound)%nat /\ handles c [(id, ready)] n c' /\ is_Some (c' !! id).

Lemma visits_inputs c l bound : cache_ok t c ->
  (forall i c, i ∈ l -> cache_ok t c -> visits c i false bound) ->
  exists n c', (n <= length l * bound)%nat /\ handles c ((fun i => (i, false)) <$> l) n c' /\
    forall i, i ∈ l -> is_Some (c' !! i).
Proof.
  revert c. induction l as [|i l IH]; intros c Hok Hl.
  - exists 0%nat, c. split_and!; [cbn; lia|by apply handles_nil|set_solver].
  - destruct (Hl i c) as (n & c1 & Hn & Hh & Hi); [left|done|].
    destruct (IH c1) as (m & c2 & Hm & Hh2 & Hall); [apply Hh|intros j c' Hj; apply Hl; by right|].
    exists (n + m)%nat, c2. split_and!; [cbn; lia|by apply (handles_app c [(i, false)] n c1)|].
    intros j [->|Hj]%elem_of_cons; [|by apply Hall]. eapply grows_cached; [apply Hh2|done].
Qed.

(** The last round of a value whose inputs are known. *)
Lemma visit_ready c id ty r k : cache_ok t c -> c !! id = None -> scalar_at_type t id ty -> expression_at t id ty r ->
  (forall i, i ∈ inputs (er_expression r) -> is_Some (c !! i)) -> bits_ok (bits ty) k ->
  (forall rho, model t rho -> base_sat t rho f -> holds rho id k) ->
  (exists b, infer t f c ty (er_expression r) (er_component r) k = Some b /\
    bits_visit t f c id true = Some (<[id := b]> c, [])) -> visits c id true 1.
Proof.
  intros Hok Hc Hid Hat Hin Hk Hks (b & Hb & Hv).
  destruct (infer_spec f c id ty r k Hf Hok Hid Hat Hin Hk) as (b' & Hb' & Hok' & Hs). rewrite Hb in Hb'. simplify_eq.
  exists 1%nat, (<[id := b']> c). split_and!; [done| |rewrite lookup_insert_eq; eauto].
  eapply handles_insert; [done|done|done|apply Hid|by rewrite (proj2 Hid)|]. intros rho Hm Hsat Hcs. apply Hs; auto.
Qed.
End Loop.
End Infer.
