(* ===== verification/FactsBits.v ===== *)
(** * Known bits of a value

    The loop of [bits_of] (facts/infer.rs) finishes within its fuel for every
    value, extends only the inference cache, and returns bits that hold of every
    valuation the facts hold of. *)

From S2P Require Import Prelude Bytes Types Floating Expr Evaluate Values Fold Model Carrier Bounds Table FoldBase Facts FactsInfer.
Local Open Scope Z_scope.

Lemma elem_of_rev_list {A} (x : A) l : x ∈ rev l <-> x ∈ l.
Proof. rewrite !list_elem_of_In. symmetry. apply in_rev. Qed.

Section Visit.
#[local] Set Default Proof Using "All".
Context (t : ValueTable) (Hwf : wf t) (Hcon : constructed t) (f : ScalarFacts) (Hf : base_ok t f).

Notation visits := (visits t f).
Notation handles := (handles t f).

Lemma visit_cached c id ready : cache_ok t c -> is_Some (c !! id) -> visits c id ready 1.
Proof.
  intros Hok Hc. exists 1%nat, c. split_and!; [done| |done].
  assert (grows t f c c) as Hg by (by apply grows_refl).
  eapply handles_step; [done..| |exact Hg|by apply handles_nil].
  unfold bits_visit. by destruct Hc as [b ->].
Qed.

Lemma visits_mono c id ready n m : (n <= m)%nat -> visits c id ready n -> visits c id ready m.
Proof. intros Hle (k & c' & Hk & H). exists k, c'. split; [lia|done]. Qed.

(** A round that defers the value behind other entries. *)
Lemma visit_defer c id ready entries later n c' m : cache_ok t c ->
  bits_visit t f c id ready = Some (c, entries ++ [(id, later)]) -> handles c entries n c' ->
  visits c' id later m -> visits c id ready (S (n + m)).
Proof.
  intros Hok Hv Hh (k & c2 & Hk & Hh2 & Hc2). exists (S (n + k)), c2. split_and!; [lia| |done].
  eapply handles_step; [done..|exact Hv|by apply grows_refl|by eapply handles_app].
Qed.

Lemma visit_insert c id ready ty b : cache_ok t c -> c !! id = None -> scalar_at_type t id ty ->
  bits_visit t f c id ready = Some (<[id := b]> c, []) -> bits_ok (bits ty) b ->
  (forall rho, model t rho -> base_sat t rho f -> cache_sat rho c -> holds rho id b) -> visits c id ready 1.
Proof.
  intros Hok Hc [Hty Hs] Hv Hb Hh. exists 1%nat, (<[id := b]> c). split_and!; [done| |rewrite lookup_insert_eq; eauto].
  eapply handles_insert; [done..| |done]. by rewrite Hs.
Qed.

(** *** Expressions *)

Section Expression.
Context (id : nat) (ty : Ty) (r : ExpressionResult) (k : Bits).
Context (Hid : scalar_at_type t id ty) (Hat : expression_at t id ty r) (Hk : bits_ok (bits ty) k).
Context (Hks : forall rho, model t rho -> base_sat t rho f -> holds rho id k).
Context (Hvisit : forall c ready, c !! id = None -> bits_visit t f c id ready = expression_visit t f c id ready ty r k).
Context (K : nat) (HK : (1 <= K)%nat).
Context (Hinput : forall i c, i ∈ inputs (er_expression r) -> cache_ok t c -> visits c i false K).

(** When neither a recorded outcome nor a known condition decides. *)
Definition expands (c : gmap nat Bits) : Prop := forall c' ready, c ⊆ c' -> c' !! id = None ->
  bits_visit t f c' id ready =
  if ready then b ← infer t f c' ty (er_expression r) (er_component r) k; Some (<[id := b]> c', [])
  else Some (c', rev ((fun input => (input, false)) <$> inputs (er_expression r)) ++ [(id, true)]).

Lemma inputs_length : (length (inputs (er_expression r)) <= 3)%nat.
Proof. destruct (er_expression r); cbn; lia. Qed.

Lemma visit_expand c : cache_ok t c -> c !! id = None -> expands c -> visits c id false (2 + 3 * K).
Proof.
  intros Hok Hc Hexp.
  destruct (visits_inputs t Hwf Hcon f Hf c (rev (inputs (er_expression r))) K Hok) as (n & c' & Hn & Hh & Hin).
  { intros i c' Hi. apply Hinput. by rewrite <- elem_of_rev_list. }
  rewrite length_rev in Hn. pose proof inputs_length as Hlen.
  apply (visits_mono _ _ _ (S (n + 1))); [nia|].
  eapply (visit_defer c id false _ true); [done| |exact Hh|].
  { rewrite (Hexp c false) by done. rewrite <- (map_rev (fun i => (i, false))). done. }
  destruct (c' !! id) as [b|] eqn:Hc'; [apply visit_cached; [apply Hh|by exists b]|].
  assert (forall i, i ∈ inputs (er_expression r) -> is_Some (c' !! i)) as Hin'
    by (intros i Hi; apply Hin; by rewrite elem_of_rev_list).
  destruct (infer_spec t Hwf Hcon f c' id ty r k Hf) as (b & Hb & _ & _); [apply Hh|done..|].
  eapply (visit_ready t Hwf Hcon f Hf); [apply Hh|done..|]. exists b. split; [done|].
  rewrite (Hexp c' true); [by rewrite Hb|apply Hh|done].
Qed.

Lemma visit_input c i : cache_ok t c -> c !! id = None -> i ∈ inputs (er_expression r) ->
  bits_visit t f c id false = Some (c, [(i, false); (id, false)]) -> forall m,
  (forall c', grows t f c c' -> is_Some (c' !! i) -> c' !! id = None -> visits c' id false m) ->
  (1 <= m)%nat -> visits c id false (1 + K + m).
Proof.
  intros Hok Hc Hi Hv m Hnext Hm. destruct (Hinput i c Hi Hok) as (n & c' & Hn & Hh & Hc').
  apply (visits_mono _ _ _ (S (n + m))); [lia|].
  eapply (visit_defer c id false [(i, false)] false); [done..|].
  destruct (c' !! id) as [b|] eqn:Hcid; [|apply Hnext; [apply Hh|done|done]].
  apply (visits_mono _ _ _ 1); [done|]. apply visit_cached; [apply Hh|by exists b].
Qed.

(** *** Selects *)

Lemma select_value x y z : er_expression r = ETernary Select x y z ->
  exists tx ty' tz, type_at t x = Some tx /\ type_at t y = Some ty' /\ type_at t z = Some tz /\
    forall c b rho, c !! z = Some b -> Z.land (bmask b) 1 <> 0 -> model t rho -> cache_sat rho c ->
      val rho id = val rho (if negb (Z.land (bvalue b) 1 =? 0) then x else y).
Proof.
  intros He. destruct Hat as [Ht _ Hval _ Hp _]. rewrite He in Ht, Hp. cbn [promise] in Hp.
  apply andb_true_iff in Hp as [Hz%bool_decide_eq_true Hp].
  apply typed_ternary in Ht as (tx & ty' & tw & Hx & Hy & Hw & Ht). cbn [ternary_typed] in Ht. btyping.
  exists tx, ty', tw. split_and!; [done..|]. intros c b rho Hb Hm1 Hm Hc. simplify_eq.
  rewrite (says_bit b (val rho z)), negb_involutive by (done || by apply (Hc z b)).
  rewrite <- (truthful_bit t Hwf rho Hm z I1 Hw eq_refl Hp). unfold val at 1.
  rewrite (Hval rho _ Hm ltac:(rewrite He; exact (ev_select t rho Hm ty x y z tx ty' I1 _ Hx Hy Hw ltac:(done) ltac:(done) eq_refl))).
  by destruct (negb (val rho z =? 0)).
Qed.

(** The chosen input's bits are the select's. *)
Lemma visit_chosen x y z c : er_expression r = ETernary Select x y z -> cache_ok t c -> c !! id = None ->
  forall b, c !! z = Some b -> Z.land (bmask b) 1 <> 0 ->
  is_Some (c !! (if negb (Z.land (bvalue b) 1 =? 0) then x else y)) -> visits c id false 1.
Proof.
  intros He Hok Hc b Hb Hm1 [bi Hbi]. pose proof (scalar_bits ty (proj2 Hid)) as Hw.
  apply (visit_insert c id false ty (restrict (bits_union bi k) (mask ty))); [done..| | |].
  - rewrite Hvisit by done. unfold expression_visit. rewrite He. cbn [mbind option_bind].
    rewrite Hb, (proj2 (Z.eqb_neq _ _) Hm1). cbn [negb]. by rewrite Hbi.
  - rewrite (mask_ones ty (proj2 Hid)). apply (restrict_ok 64); [lia| |apply fits_ones; lia].
    apply bits_union_ok; [lia| |eapply bits_ok_mono; [|exact Hk]; lia].
    destruct (Hok _ _ Hbi) as (ti & _ & Hi). destruct (is_scalar ti) eqn:Hs; [|subst bi; by apply no_bits_ok].
    eapply bits_ok_mono; [|exact Hi]. by apply scalar_bits.
  - intros rho Hm Hsat Hcs. apply says_restrict, says_union; [|by apply Hks].
    destruct (select_value x y z He) as (_ & _ & _ & _ & _ & _ & Hv). rewrite (Hv c b rho) by done. by apply Hcs.
Qed.

Lemma visit_select x y z c : er_expression r = ETernary Select x y z -> cache_ok t c -> c !! id = None ->
  is_Some (c !! z) -> visits c id false (2 + 3 * K).
Proof.
  intros He Hok Hc [b Hb]. destruct (decide (Z.land (bmask b) 1 = 0)) as [Hm1|Hm1].
  - apply visit_expand; [done..|]. intros c' ready Hsub Hc'. rewrite Hvisit by done.
    unfold expression_visit. rewrite He. cbn [mbind option_bind].
    by rewrite (lookup_weaken _ _ _ _ Hb Hsub), (proj2 (Z.eqb_eq _ _) Hm1).
  - set (i := if negb (Z.land (bvalue b) 1 =? 0) then x else y).
    destruct (c !! i) as [bi|] eqn:Hci.
    { eapply visits_mono; [|by eapply visit_chosen]. lia. }
    apply (visits_mono _ _ _ (1 + K + 1)); [lia|]. apply (visit_input c i); [done..| | | |done].
    + rewrite He. cbn [inputs]. subst i. destruct (negb _); set_solver.
    + rewrite Hvisit by done. unfold expression_visit. rewrite He. cbn [mbind option_bind].
      rewrite Hb, (proj2 (Z.eqb_neq _ _) Hm1). cbn [negb]. fold i. by rewrite Hci.
    + intros c' Hg Hi Hc'. eapply visit_chosen; [done|apply Hg|done| |done|done].
      eapply lookup_weaken; [done|apply Hg].
Qed.

(** *** Recorded comparisons *)

Lemma outcome_bits op x y truth : er_expression r = EBinary (Compare (CmpInteger op)) x y ->
  comparisons_get t (comparisons f) op x y = Some (Some truth) ->
  bits_ok (bits ty) (truth_bits truth) /\
  forall rho, model t rho -> base_sat t rho f -> holds rho id (truth_bits truth).
Proof.
  intros He Hg. destruct Hat as [Ht _ Hval _ Hp _]. rewrite He in Ht, Hp. cbn [promise] in Hp.
  apply andb_true_iff in Hp as [->%bool_decide_eq_true _]. split; [by apply truth_bits_ok|].
  apply typed_binary in Ht as (tx & ty' & Hx & Hy & Ht). cbn [binary_typed] in Ht. btyping.
  destruct (comparisons_get_spec t Hwf Hcon f op x y tx ty' Hf Hx Hy ltac:(done) ltac:(done)) as (o & Ho & Hs).
  rewrite Hg in Ho. simplify_eq. intros rho Hm Hsat. apply says_truth. unfold val.
  rewrite (Hval rho _ Hm ltac:(rewrite He; exact (ev_compare t rho Hm I1 op x y tx ty' _ Hx Hy ltac:(done) ltac:(done) ltac:(done)))).
  cbn [low lit]. rewrite (Hs rho truth Hm Hsat eq_refl). by destruct truth.
Qed.

Lemma comparison_total op x y : er_expression r = EBinary (Compare (CmpInteger op)) x y ->
  is_Some (comparisons_get t (comparisons f) op x y).
Proof.
  intros He. destruct Hat as [Ht _ _ _ _ _]. rewrite He in Ht.
  apply typed_binary in Ht as (tx & ty' & Hx & Hy & Ht). cbn [binary_typed] in Ht. btyping.
  destruct (comparisons_get_spec t Hwf Hcon f op x y tx ty' Hf Hx Hy ltac:(done) ltac:(done)) as (o & -> & _). eauto.
Qed.

Lemma visit_expanded c : cache_ok t c -> c !! id = None ->
  (forall c' ready, expression_visit t f c' id ready ty r k =
    if ready then b ← infer t f c' ty (er_expression r) (er_component r) k; Some (<[id := b]> c', [])
    else Some (c', rev ((fun input => (input, false)) <$> inputs (er_expression r)) ++ [(id, true)])) ->
  visits c id false (3 + 4 * K).
Proof.
  intros Hok Hc H. apply (visits_mono _ _ _ (2 + 3 * K)); [lia|]. apply visit_expand; [done..|].
  intros c' ready _ Hc'. by rewrite Hvisit.
Qed.

Lemma visit_expression c : cache_ok t c -> c !! id = None -> visits c id false (3 + 4 * K).
Proof.
  intros Hok Hc. destruct (er_expression r) as [op x|op x y|op x y|op x y z|s x y] eqn:He in |- *;
    [|destruct op as [|[o|]| | | | | | | | |] | |destruct op|];
    try (apply visit_expanded; [done..|]; intros; unfold expression_visit; by rewrite He).
  - destruct (comparison_total o x y He) as [[truth|] Hg].
    + destruct (outcome_bits o x y truth He Hg) as [Hb Hs].
      eapply visits_mono; [|apply (visit_insert c id false ty (truth_bits truth))]; [lia|done..| |done|by auto].
      rewrite Hvisit by done. unfold expression_visit. rewrite He, Hg. done.
    + apply visit_expanded; [done..|]. intros. unfold expression_visit. by rewrite He, Hg.
  - destruct (c !! z) as [b|] eqn:Hz; [eapply visits_mono; [|apply (visit_select x y z)]; [lia|done..|by exists b]|].
    apply (visits_mono _ _ _ (1 + K + (2 + 3 * K))); [lia|]. apply (visit_input c z); [done..| | | |lia].
    + rewrite He. cbn [inputs]. set_solver.
    + rewrite Hvisit by done. unfold expression_visit. rewrite He. cbn [mbind option_bind]. by rewrite Hz.
    + intros c' Hg Hz' Hc'. by apply (visit_select x y z); [|apply Hg| |].
Qed.

End Expression.

(** ** The loop *)

Lemma known_full id ty z : scalar_at_type t id ty -> fits (bits ty) z ->
  (forall rho, model t rho -> wrap (bits ty) (val rho id) = z) ->
  bits_ok (bits ty) (mkBits (mask ty) z) /\ forall rho, model t rho -> holds rho id (mkBits (mask ty) z).
Proof.
  intros [_ Hs] Hz Hval. pose proof (scalar_bits ty Hs). rewrite (mask_ones ty Hs).
  assert (wrap (bits ty) z = z) as Hw by by apply wrap_small. split.
  - split; cbn [bmask bvalue]; [apply fits_ones; lia|]. rewrite <- wrap_land by lia. done.
  - intros rho Hm. unfold holds, says; cbn [bmask bvalue]. rewrite <- wrap_land by lia. by apply Hval.
Qed.

Definition rounds (id : nat) : nat := 8 ^ S id.

Lemma visit_value id : forall c ty, type_at t id = Some ty -> cache_ok t c -> visits c id false (rounds id).
Proof.
  induction (lt_wf id) as [id _ IH]. intros c ty Hty Hok.
  assert (1 <= 8 ^ id)%nat as HK by (pose proof (Nat.pow_nonzero 8 id); lia).
  assert (rounds id = 8 * 8 ^ id)%nat as Hr by done.
  apply (visits_mono _ _ _ (3 + 4 * 8 ^ id)); [lia|].
  destruct (c !! id) as [b|] eqn:Hc; [apply (visits_mono _ _ _ 1); [lia|apply visit_cached; [done|by exists b] ]|].
  apply fmap_Some in Hty as (v & Hv & ->).
  destruct (is_scalar (Values.ty v)) eqn:Hs.
  2:{ apply (visits_mono _ _ _ 1); [lia|]. exists 1%nat, (<[id := no_bits]> c).
      split_and!; [done| |rewrite lookup_insert_eq; eauto].
      eapply handles_insert; [done..| |done|done|by apply type_at_value|by rewrite Hs|intros; apply says_nothing].
      unfold bits_visit, value_at. rewrite Hc, Hv. cbn [mbind option_bind]. by rewrite Hs. }
  assert (scalar_at_type t id (Values.ty v)) as Hid by (split; [by apply type_at_value|done]).
  destruct (known_bits_spec t Hwf f id _ Hf Hid) as (k & Hk & Hkok & Hks).
  destruct (expression_of_spec t Hwf Hcon id v Hv) as (r & Hr' & Hat).
  assert (forall c' ready, c' !! id = None -> bits_visit t f c' id ready =
    let insert b := Some (<[id := b]> c', []) in
    match scalar_literal v with
    | Some b => insert (mkBits (mask (Values.ty v)) (normalize (Values.ty v) b))
    | None =>
        if bmask k =? mask (Values.ty v) then insert k
        else match r with
             | None => insert k
             | Some result => expression_visit t f c' id ready (Values.ty v) result k
             end
    end) as Hvisit.
  { intros c' ready Hc'. unfold bits_visit, value_at. rewrite Hc', Hv. cbn [mbind option_bind].
    rewrite Hs, Hk. cbn [negb mbind option_bind]. by rewrite Hr'. }
  destruct (scalar_literal v) as [z|] eqn:Hz.
  - destruct (scalar_literal_fact t id v Hwf Hv z Hz) as (Hval & _).
    destruct (known_full id _ (normalize (Values.ty v) z) Hid) as [Hb Hh].
    + rewrite normalize_wrap by done. apply wrap_fits. pose proof (scalar_bits _ Hs). lia.
    + intros rho Hm. rewrite normalize_wrap by done. by rewrite (Hval rho Hm).
    + apply (visits_mono _ _ _ 1); [lia|]. eapply visit_insert; [done..|by rewrite Hvisit|done|by auto].
  - destruct (bmask k =? mask (Values.ty v)) eqn:Hm;
      [apply (visits_mono _ _ _ 1); [lia|]; eapply visit_insert; [done..|by rewrite Hvisit|done|by auto]|].
    destruct r as [r|];
      [|apply (visits_mono _ _ _ 1); [lia|]; eapply visit_insert; [done..|by rewrite Hvisit|done|by auto] ].
    apply (visit_expression id (Values.ty v) r k); try done; [by apply Hat|].
    intros i c' Hi Hok'. destruct (input_type t Hwf Hcon id _ r i (Hat r eq_refl) Hi) as [ti Hti].
    pose proof (at_inputs _ _ _ _ (Hat r eq_refl)) as Hlt. rewrite Forall_forall in Hlt. specialize (Hlt i Hi).
    apply (visits_mono _ _ _ (rounds i)); [|by apply (IH i Hlt c' ti)].
    unfold rounds. apply Nat.pow_le_mono_r; lia.
Qed.

Lemma visit_fuel_rounds id : (S (rounds id) <= Pos.to_nat (visit_fuel id))%nat.
Proof.
  unfold visit_fuel, rounds. rewrite Pos2Nat.inj_pow, SuccNat2Pos.id_succ.
  change (Pos.to_nat 8) with 8%nat.
  pose proof (Nat.pow_nonzero 8 (S id)). pose proof (Nat.pow_succ_r' 8 (S id)). lia.
Qed.

Lemma bits_loop id ty c : type_at t id = Some ty -> cache_ok t c ->
  exists c', repeat_until (bits_step t f) (visit_fuel id) (c, [(id, false)]) = inr (Some c') /\
    grows t f c c' /\ is_Some (c' !! id).
Proof.
  intros Hty Hok. destruct (visit_value id c ty Hty Hok) as (n & c' & Hn & [Hrun Hg] & Hc'). exists c'. split; [|done].
  rewrite repeat_until_times. apply (repeat_times_mono _ (n + 1)); [pose proof (visit_fuel_rounds id); lia|].
  specialize (Hrun []). rewrite app_nil_r in Hrun. by rewrite repeat_times_add, Hrun.
Qed.

End Visit.

(** ** [bits_of] *)

(** Only the inference cache of [f] may have grown, soundly. *)
Record inferred (t : ValueTable) (f f' : ScalarFacts) : Prop := {
  inf_base : f' = set_computed (computed f') f;
  inf_ok : facts_ok t f';
  inf_sat : forall rho, model t rho -> sat t rho f -> sat t rho f';
}.

Lemma inferred_refl t f : facts_ok t f -> inferred t f f.
Proof. by destruct f. Qed.
Lemma inferred_trans t a b c : inferred t a b -> inferred t b c -> inferred t a c.
Proof. intros [H1 _ H3] [H4 H5 H6]. split; [rewrite H4, H1; by destruct a|done|auto]. Qed.

Lemma base_sat_computed t rho c f : base_sat t rho (set_computed c f) <-> base_sat t rho f.
Proof. split; intros [H1 H2 H3 H4]; by split. Qed.
Lemma base_ok_computed t c f : base_ok t (set_computed c f) <-> base_ok t f.
Proof. split; intros [H1 H2 H3 H4 H5]; by split. Qed.

(** What [bits_of] returns for a value of type [ty]. *)
Definition bits_for (t : ValueTable) (f : ScalarFacts) (id : nat) (ty : Ty) (b : Bits) : Prop :=
  bits_ok 64 b /\ (is_scalar ty = true -> bits_ok (bits ty) b) /\ (is_scalar ty = false -> b = no_bits) /\
  forall rho, model t rho -> sat t rho f -> holds rho id b.

Lemma bits_for_64 ty b : (if is_scalar ty then bits_ok (bits ty) b else b = no_bits) ->
  bits_ok 64 b /\ (is_scalar ty = true -> bits_ok (bits ty) b) /\ (is_scalar ty = false -> b = no_bits).
Proof.
  destruct (is_scalar ty) eqn:Hs; intros H; [|subst b; split_and!; [by apply no_bits_ok|done..] ].
  split_and!; [|done..]. eapply bits_ok_mono; [|exact H]. by apply scalar_bits.
Qed.

Lemma bits_of_spec t f id ty : wf t -> constructed t -> facts_ok t f -> type_at t id = Some ty ->
  exists b f', bits_of t id f = Some (b, f') /\ inferred t f f' /\ bits_for t f id ty b.
Proof.
  intros Hwf Hcon Hok Hty. unfold bits_of. destruct (computed f !! id) as [b|] eqn:Hc.
  - exists b, f. split_and!; [done|by apply inferred_refl|]. destruct (proj2 Hok id b Hc) as (ty' & Hty' & Hb). simplify_eq.
    destruct (bits_for_64 ty b Hb) as (H64 & Hb' & Hn). split_and!; [done..|]. intros rho _ [_ Hs]. by apply Hs.
  - destruct (bits_loop t Hwf Hcon f (proj1 Hok) id ty (computed f) Hty (proj2 Hok)) as (c & -> & [Hk Hc' Hs] & [b Hb]).
    rewrite Hb. cbn [mbind option_bind]. exists b, (set_computed c f). split; [done|].
    destruct (Hc' id b Hb) as (ty' & Hty' & Hbok). simplify_eq.
    destruct (bits_for_64 ty b Hbok) as (H64 & Hb' & Hn). split.
    + split; [by destruct f|split; [by apply base_ok_computed, Hok|done]|].
      intros rho Hm [H1 H2]. split; [by apply base_sat_computed|by apply Hs].
    + split_and!; [done..|]. intros rho Hm [H1 H2]. by apply (Hs rho Hm H1 H2).
Qed.
