(* ===== verification/FactsPath.v ===== *)
(** * The facts of a path

    [assume], [assume_bits], constraint propagation and [with_assumptions]
    (facts/assume.rs, facts/constraints.rs, facts.rs) never panic, always finish,
    and add only what the observations imply. *)

From S2P Require Import Prelude Bytes Types Floating Expr Evaluate Values Fold Model Carrier Bounds Table FoldBase Facts FactsInfer FactsBits.
Local Open Scope Z_scope.

(** * Assumptions

    What a path learns from an assumed condition (facts/assume.rs, range.rs,
    comparisons.rs): every operation keeps the facts well formed and adds only
    what follows from the old facts and the assumption. *)

(** ** Learning *)

(** The truth of a predicate is recorded. *)
Definition settled (known : gmap nat Bits) (id : nat) : Prop :=
  exists b, known !! id = Some b /\ Z.land (bmask b) 1 <> 0.

(** Tracked roots and settled predicates are never forgotten. *)
Record extends (t : ValueTable) (f f' : ScalarFacts) : Prop := {
  ext_roots : roots (constraints f) `prefix_of` roots (constraints f');
  ext_settled : forall id, type_at t id = Some I1 -> settled (known f) id -> settled (known f') id;
}.

(** [f'] says no more than [f] and [P] together. *)
Record learns (t : ValueTable) (P : Valuation -> Prop) (f f' : ScalarFacts) : Prop := {
  l_ok : facts_ok t f';
  l_extends : extends t f f';
  l_sat : forall rho, model t rho -> sat t rho f -> P rho -> sat t rho f';
}.

(** A computation that cannot panic and learns only [P]. *)
Definition learning {A} (t : ValueTable) (P : Valuation -> Prop) (x : option (A * ScalarFacts))
    (f : ScalarFacts) (Q : A -> ScalarFacts -> Prop) : Prop :=
  exists a f', x = Some (a, f') /\ learns t P f f' /\ Q a f'.

Section Learns.
Context (t : ValueTable).

Lemma extends_refl f : extends t f f.
Proof. by split. Qed.
Lemma extends_trans a b c : extends t a b -> extends t b c -> extends t a c.
Proof. intros [H1 H2] [H3 H4]. split; [by etrans|auto]. Qed.

Lemma extends_same f f' : constraints f' = constraints f -> known f' = known f -> extends t f f'.
Proof. intros Hc Hk. split; by rewrite ?Hc, ?Hk. Qed.

Lemma learns_refl P f : facts_ok t f -> learns t P f f.
Proof. intros H. split; [done|apply extends_refl|auto]. Qed.
Lemma learns_trans P a b c : learns t P a b -> learns t P b c -> learns t P a c.
Proof. intros [H1 H2 H3] [H4 H5 H6]. split; [done|by eapply extends_trans|auto]. Qed.
Lemma learns_weaken (P P' : Valuation -> Prop) f f' : learns t P' f f' ->
  (forall rho, model t rho -> sat t rho f -> P rho -> P' rho) -> learns t P f f'.
Proof. intros [H1 H2 H3] H. split; [done|done|]. intros rho Hm Hs Hp. apply H3; auto. Qed.

Lemma inferred_learns P f f' : inferred t f f' -> learns t P f f'.
Proof.
  intros [H1 H2 H3]. split; [done| |auto]. rewrite H1. by destruct f.
Qed.

Lemma learns_sat P f f' rho : learns t P f f' -> model t rho -> sat t rho f -> P rho -> sat t rho f'.
Proof. intros H. apply H. Qed.

Lemma learning_ret {A} P (a : A) f (Q : A -> ScalarFacts -> Prop) : facts_ok t f -> Q a f -> learning t P (Some (a, f)) f Q.
Proof. intros Hok HQ. exists a, f. split_and!; [done|by apply learns_refl|done]. Qed.
Lemma learning_from {A} P (a : A) f g (Q : A -> ScalarFacts -> Prop) : learns t P f g -> Q a g -> learning t P (Some (a, g)) f Q.
Proof. intros Hl HQ. by exists a, g. Qed.
Lemma learning_after {A} P (x : option (A * ScalarFacts)) f g Q : learns t P f g -> learning t P x g Q -> learning t P x f Q.
Proof. intros Hl (a & h & -> & Hl' & HQ). exists a, h. split_and!; [done|by eapply learns_trans|done]. Qed.
Lemma learning_bind {A B} P (x : option (A * ScalarFacts)) (k : A * ScalarFacts -> option (B * ScalarFacts)) f Q R :
  learning t P x f Q -> (forall a g, learns t P f g -> Q a g -> learning t P (k (a, g)) g R) ->
  learning t P (x ≫= k) f R.
Proof. intros (a & g & -> & Hl & HQ) Hk. cbn [mbind option_bind]. eapply learning_after; [exact Hl|by apply Hk]. Qed.
Lemma learning_weaken {A} (P P' : Valuation -> Prop) (x : option (A * ScalarFacts)) f (Q Q' : A -> ScalarFacts -> Prop) :
  learning t P' x f Q' -> (forall rho, model t rho -> sat t rho f -> P rho -> P' rho) ->
  (forall a g, learns t P f g -> Q' a g -> Q a g) -> learning t P x f Q.
Proof.
  intros (a & g & -> & Hl & HQ) HP HQ'. exists a, g.
  assert (learns t P f g) by by eapply learns_weaken. split_and!; [done|done|by apply HQ'].
Qed.

(** What holds at the start may be used to the end. *)
Lemma learning_start {A} P (x : option (A * ScalarFacts)) f Q :
  learning t (fun rho => sat t rho f /\ P rho) x f Q -> learning t P x f Q.
Proof.
  intros (a & g & -> & Hl & HQ). exists a, g. split_and!; [done| |done]. by eapply learns_weaken.
Qed.

Lemma root_extends f f' id : extends t f f' -> root_ok t (known f) id -> root_ok t (known f') id.
Proof.
  intros Hext (b & r & op & x & y & Hb & Hm & Hty & He & Hr).
  destruct (ext_settled t f f' Hext id Hty) as (b' & Hb' & Hm'); [by exists b|].
  by exists b', r, op, x, y.
Qed.
End Learns.
#[export] Hint Resolve extends_refl learns_refl l_ok : facts.

(** ** Learning without assumption: [changed] *)

Section Steps.
#[local] Set Default Proof Using "All".
Context (t : ValueTable) (Hwf : wf t) (Hcon : constructed t).

Lemma cache_ok_filter (P : nat * Bits -> Prop) `{!forall x, Decision (P x)} c : cache_ok t c -> cache_ok t (filter P c).
Proof. intros Hc id b [Hb _]%map_lookup_filter_Some. by apply Hc. Qed.
Lemma cache_sat_filter (P : nat * Bits -> Prop) `{!forall x, Decision (P x)} rho c : cache_sat rho c -> cache_sat rho (filter P c).
Proof. intros Hc id b [Hb _]%map_lookup_filter_Some. by apply Hc. Qed.

Lemma constraints_changed_fields id c :
  roots (constraints_changed id c) = roots c /\ active (constraints_changed id c) = active c.
Proof. unfold constraints_changed. by destruct (active c =? 0). Qed.

Lemma constraints_ok_fields known c c' : roots c' = roots c -> active c' = active c ->
  constraints_ok t known c -> constraints_ok t known c'.
Proof. intros H1 H2 [Ha Hb Hc Hd]. split; by rewrite ?H1, ?H2. Qed.

Lemma changed_learns P id f : facts_ok t f -> learns t P f (changed id f).
Proof.
  intros [[H1 H2 H3 H4 H5] Hc]. destruct (constraints_changed_fields id (constraints f)) as [Hr Ha].
  split.
  - split; [split; try done; by eapply constraints_ok_fields|by apply cache_ok_filter].
  - split; [cbn [changed constraints set_constraints set_computed]; by rewrite Hr|done].
  - intros rho Hm [[S1 S2 S3 S4] S5] _. split; [by split|by apply cache_sat_filter].
Qed.

Lemma changed_known id f : known (changed id f) = known f.
Proof. done. Qed.

(** ** [record] *)

(** A record that changes one field of the base and keeps the rest. *)
Lemma set_known_learns id ty b f : facts_ok t f -> scalar_at_type t id ty -> bits_ok (bits ty) b ->
  (ty = I1 -> settled (known f) id -> Z.land (bmask b) 1 <> 0) ->
  learns t (fun rho => holds rho id b) f (set_known (<[id := b]> (known f)) f).
Proof.
  intros [[H1 H2 H3 H4 H5] Hc] Hid Hb Hset.
  assert (extends t f (set_known (<[id := b]> (known f)) f)) as Hext.
  { split; [done|]. intros i Hi (b' & Hb' & Hm). cbn [known set_known].
    destruct (decide (id = i)) as [<-|Hne]; [|exists b'; by rewrite lookup_insert_ne].
    exists b. rewrite lookup_insert_eq. split; [done|]. apply Hset; [|by exists b'].
    destruct Hid as [Hid _]. congruence. }
  split; [|done|].
  - split; [|done]. split; cbn [known lanes ranges comparisons constraints set_known]; try done.
    + intros i b' [[<- <-]|[_ Hi]]%lookup_insert_Some; [by exists ty|by apply H1].
    + destruct H5 as [Ha Hb' Hi Hr]. split; try done. intros index Hx. destruct (Hi index Hx) as (i & Hl & Hok).
      exists i. split; [done|]. by eapply (root_extends t f _ i Hext).
  - intros rho Hm [[S1 S2 S3 S4] S5] Hh. split; [|done]. split; try done.
    intros i b' Hl; cbn [known set_known] in Hl. apply lookup_insert_Some in Hl as [[<- <-]|[_ Hi] ]; [done|by apply S1].
Qed.

Lemma set_lanes_learns P words f : facts_ok t f ->
  (forall w b, words !! w = Some b -> word_ok t w /\ bits_ok 64 b) ->
  (forall rho, model t rho -> sat t rho f -> P rho -> forall w b, words !! w = Some b -> says b (word_of rho w)) ->
  learns t P f (set_lanes (Some words) f).
Proof.
  intros [[H1 H2 H3 H4 H5] Hc] Hok Hs. split; [split; [split; try done|done]|by apply extends_same|].
  - intros words' w b [= <-]. by apply Hok.
  - intros rho Hm Hsat Hp. pose proof (Hs rho Hm Hsat Hp). destruct Hsat as [[S1 S2 S3 S4] S5]. split; [|done]. split; try done.
    intros words' w b [= <-]. auto.
Qed.

(** Recording one word keeps what the words say. *)
Lemma lane_record_lookup words w b w' b' : lane_record words w b !! w' = Some b' ->
  words !! w' = Some b' \/ w' = w /\ (b' = default no_bits (words !! w) \/ b' = bits_union (default no_bits (words !! w)) b).
Proof.
  unfold lane_record. destruct (bmask b =? 0); [by left|]. intros [[<- <-]|[_ H]]%lookup_insert_Some; [|by left].
  right. split; [done|]. destruct (conflicts _ b); auto.
Qed.

Lemma lane_record_learns P words w b f : facts_ok t f -> word_ok t w -> bits_ok 64 b ->
  words = default ∅ (lanes f) ->
  (forall rho, model t rho -> sat t rho f -> P rho -> says b (word_of rho w)) ->
  learns t P f (set_lanes (Some (lane_record words w b)) f).
Proof.
  intros Hok Hw Hb -> Hs. set (words := default ∅ (lanes f)).
  assert (forall w b, words !! w = Some b -> word_ok t w /\ bits_ok 64 b) as Hwords.
  { intros w' b' H. subst words. destruct (lanes f) as [m|] eqn:Hl; cbn in H; [|by rewrite lookup_empty in H].
    by eapply (lanes_ok t f (proj1 Hok)). }
  assert (bits_ok 64 (default no_bits (words !! w))) as Hd.
  { destruct (words !! w) as [b'|] eqn:H; cbn; [by apply (Hwords w)|by apply no_bits_ok]. }
  assert (forall rho, sat t rho f -> forall w b, words !! w = Some b -> says b (word_of rho w)) as Hsat.
  { intros rho [Hb' _] w' b' H. subst words. destruct (lanes f) as [m|] eqn:Hl; cbn in H; [|by rewrite lookup_empty in H].
    by eapply (sat_lanes t rho f Hb'). }
  apply set_lanes_learns; [done| |].
  - intros w' b' [H|[-> [-> | ->] ] ]%lane_record_lookup; [by apply Hwords|by split|split; [done|by apply bits_union_ok] ].
  - intros rho Hm Hf Hp w' b' H%lane_record_lookup.
    assert (says (default no_bits (words !! w)) (word_of rho w)) as Hdef.
    { destruct (words !! w) as [b0|] eqn:H0; cbn; [by apply (Hsat rho Hf)|apply says_nothing]. }
    destruct H as [H|[-> [-> | ->] ] ]; [by apply (Hsat rho Hf)|done|apply says_union; auto].
Qed.

(** The bits of a lane, in their place in the word. *)
Definition placed (o : LaneObservation) (b : Bits) : Bits :=
  let b := restrict b (lane_mask o) in
  mkBits (wrap 64 (Z.shiftl (bmask b) (offset o))) (wrap 64 (Z.shiftl (bvalue b) (offset o))).

Lemma placed_spec id o b : observes t id o -> bits_ok 64 b ->
  bits_ok 64 (placed o b) /\
  forall rho, model t rho -> holds rho id b -> says (placed o b) (word_of rho (word o)).
Proof.
  intros [_ (lane & Hl & Hmask & H0 & Hoff & Hval)] Hb. assert (is_scalar lane = true) as Hs by by destruct lane.
  pose proof (scalar_bits lane Hs). unfold placed. cbv zeta. rewrite Hmask, (mask_ones lane Hs).
  split; [split|]; cbn [restrict bmask bvalue].
  - by apply wrap_fits.
  - apply Z.bits_inj'. intros i Hi. rewrite Z.land_spec, !testbit_wrap, !testbit_shiftl, !Z.land_spec by lia.
    pose proof (subset_testbit 64 b (i - offset o) Hb).
    destruct (Z.testbit (bvalue b) (i - offset o)), (Z.testbit (bmask b) (i - offset o)); try btauto. naive_solver.
  - intros rho Hm Hh. unfold holds in Hh. rewrite (Hval rho Hm) in Hh. apply says_intro. intros i Hi. cbn [bmask bvalue].
    rewrite !testbit_wrap, !testbit_shiftl, !Z.land_spec, testbit_ones by lia.
    destruct (Z.leb_spec (offset o) i) as [Hle|]; [|btauto]. rewrite (says_testbit b _ (i - offset o) Hh).
    rewrite testbit_wrap, testbit_shiftr by lia. replace (i - offset o + offset o) with i by lia.
    destruct (Z.ltb_spec i 64), (Z.leb_spec 0 (i - offset o)), (Z.ltb_spec (i - offset o) (bits lane)); try lia; cbn; btauto.
Qed.

Lemma record_spec id ty b f : facts_ok t f -> scalar_at_type t id ty -> bits_ok (bits ty) b ->
  (ty = I1 -> settled (known f) id -> Z.land (bmask b) 1 <> 0) ->
  learning t (fun rho => holds rho id b) (record t id b f) f
    (fun _ f' => observation_of t id = Some None -> known f' = <[id := b]> (known f)).
Proof.
  intros Hok Hid Hb Hset. destruct (observation_of_spec t Hwf id ty Hid) as (o & Ho & Hobs).
  assert (bits_ok 64 b) as Hb64 by (eapply bits_ok_mono; [|exact Hb]; apply scalar_bits, Hid).
  unfold record. destruct o as [o|].
  - destruct (placed_spec id o b (Hobs o eq_refl) Hb64) as [Hp Hs].
    eexists tt, _. split; [rewrite Ho; done|]. split; [|by rewrite Ho].
    eapply learns_trans; [|apply changed_learns]; [|eapply l_ok];
      (apply (lane_record_learns (fun rho => holds rho id b)); [done|apply Hobs, eq_refl|exact Hp|done|];
       intros rho Hm _ Hh; by apply Hs).
  - eexists tt, _. split; [rewrite Ho; done|]. split; [|done].
    eapply learns_trans; [|apply changed_learns]; [|eapply l_ok]; by eapply set_known_learns.
Qed.

(** ** Ranges *)

Lemma restrict_range_spec id ty r f : facts_ok t f -> type_at t id = Some ty -> 0 <= minimum r ->
  learning t (fun rho => within r (val rho id)) (restrict_range t id r f) f (fun _ _ => True).
Proof.
  intros Hok Hty H0. unfold learning, restrict_range.
  destruct (scalar_at_spec t id ty Hwf Hty) as (s & Hs & _).
  assert (learns t (fun rho => within r (val rho id)) f f) as Hr by by apply learns_refl.
  rewrite Hs. cbn [mbind option_bind]. destruct s as [z|]; [by exists tt, f|].
  destruct (Z.ltb_spec (maximum r) (minimum r)) as [|Hmx]; [by exists tt, f|].
  set (o := match ranges f !! id with None => Some r | Some previous => intersect previous r end).
  destruct o as [r'|] eqn:Ho; [|by exists tt, f].
  assert (0 <= minimum r' <= maximum r') as Hr'.
  { subst o. destruct (ranges f !! id) as [p|] eqn:Hp; [|simplify_eq; lia].
    apply (intersect_ok p r r'); [|done]. by apply (ranges_ok t f (proj1 Hok) id). }
  assert (learns t (fun rho => within r (val rho id)) f (set_ranges (<[id := r']> (ranges f)) f)) as Hl.
  { destruct Hok as [[H1 H2 H3 H4 H5] Hc]. split; [split; [split; try done|done]|by apply extends_same|].
    - intros i ri Hl; cbn [ranges set_ranges] in Hl. apply lookup_insert_Some in Hl as [[<- <-]|[_ Hi] ]; [done|by eapply H3].
    - intros rho Hm [[S1 S2 S3 S4] S5] Hw. split; [|done]. split; try done.
      intros i ri Hl; cbn [ranges set_ranges] in Hl. apply lookup_insert_Some in Hl as [[<- <-]|[_ Hi] ]; [|by apply S3].
      subst o. destruct (ranges f !! id) as [p|] eqn:Hp; [|by simplify_eq].
      destruct (intersect_within p r (val rho id)) as (r2 & Hi & Hw2); [by apply S3|done|]. by simplify_eq. }
  cbn [ranges]. eexists tt, _. split; [done|]. split; [|done].
  destruct (decide (ranges f !! id = Some r')); [done|]. eapply learns_trans; [exact Hl|]. apply changed_learns, Hl.
Qed.

Lemma bits_of_learning P id ty f : facts_ok t f -> type_at t id = Some ty ->
  learning t P (bits_of t id f) f (fun b f' => inferred t f f' /\ bits_for t f id ty b).
Proof.
  intros Hok Hty. destruct (bits_of_spec t f id ty Hwf Hcon Hok Hty) as (b & f' & -> & Hi & Hb).
  exists b, f'. split_and!; [done|by apply inferred_learns|done|done].
Qed.

(** A range, over the facts before and after inference. *)
Lemma range_learned f id ty b : facts_ok t f -> scalar_at_type t id ty -> bits_ok (bits ty) b ->
  exists r, range t f id b = Some r /\
    (forall r', r = Some r' -> 0 <= minimum r') /\
    forall rho r', model t rho -> sat t rho f -> holds rho id b -> r = Some r' ->
      within r' (val rho id) /\ val rho id <= mask ty.
Proof.
  intros Hok Hid Hb. destruct (range_spec t f id ty b Hwf (proj1 Hok) Hid Hb) as (r & Hr & Hmin & Hw).
  exists r. split_and!; [done|intros r' E; by apply (Hmin r' E)|]. intros rho r' Hm [Hs _] Hh E. split; [by eapply Hw|].
  destruct Hid as [Hty Hs']. destruct (has_bounds t id ty Hwf Hty) as [bb Hbb]. destruct (Hmin r' E) as [_ Hle].
  pose proof (unsigned_val t rho id ty bb Hwf Hm Hty Hs' Hbb) as Hf. apply (fits_mono _ (bits ty)) in Hf; [|by apply Hle].
  rewrite (mask_ones ty Hs'), Z.ones_equiv. destruct Hf. lia.
Qed.

Lemma assume_nonzero_spec id ty f : facts_ok t f -> scalar_at_type t id ty ->
  learning t (fun rho => val rho id <> 0) (assume_nonzero t id f) f (fun _ _ => True).
Proof.
  intros Hok Hid. apply learning_start. unfold assume_nonzero.
  eapply learning_bind; [by apply (bits_of_learning _ id ty), Hid|]. intros b g Hl [_ Hb]. cbn beta iota.
  destruct (range_learned g id ty b (l_ok _ _ _ _ Hl) Hid) as (r & -> & Hmin & Hw); [by apply Hb, Hid|].
  cbn [mbind option_bind]. destruct r as [r|]; [|apply learning_ret; [apply Hl|done] ].
  eapply learning_weaken; [apply (restrict_range_spec id ty); [apply Hl|apply Hid|done]| |done].
  intros rho Hm Hs [Hf Hnz]. destruct Hb as (_ & _ & _ & Hh).
  destruct (Hw rho r Hm Hs (Hh rho Hm Hf) eq_refl) as [[H1 H2] _]. split; cbn [minimum maximum]; [|done].
  destruct Hid as [Hty Hsc]. pose proof (val_fits t rho Hm id ty Hty Hsc) as [Hv _]. lia.
Qed.

Lemma assume_comparison_spec op x y tx ty' truth f : facts_ok t f -> scalar_at_type t x tx -> scalar_at_type t y ty' ->
  learning t (fun rho => int_compare (carrier tx) op (val rho x) (val rho y) = truth)
    (assume_comparison t op x y truth f) f (fun _ _ => True).
Proof.
  intros Hok Hx Hy. apply learning_start. unfold assume_comparison. set (lt := bool_decide (op = LtUnsigned)).
  destruct (match op with LtUnsigned | GeUnsigned => true | _ => false end) eqn:Hop; [|by apply learning_ret].
  cbn [negb]. set (P := fun rho => sat t rho f /\ _).
  assert (forall rho, P rho -> sat t rho f /\ (val rho x <? val rho y) = Bool.eqb truth lt) as HP.
  { intros rho [Hf H]. split; [done|]. subst lt. destruct op; try done; cbn [int_compare] in H; rewrite <- H.
    - by destruct (val rho x <? val rho y).
    - rewrite Z.leb_antisym. by destruct (val rho x <? val rho y). }
  clearbody P. clear Hop.
  eapply learning_bind; [by apply (bits_of_learning _ x tx), Hx|]. intros ba g Hg [_ Hba]. cbn beta iota.
  destruct (range_learned g x tx ba (l_ok _ _ _ _ Hg) Hx) as (a & -> & Hma & Hwa); [by apply Hba, Hx|].
  cbn [mbind option_bind].
  eapply learning_bind; [by apply (bits_of_learning _ y ty'), Hy; apply Hg|]. intros bb h Hh [_ Hbb]. cbn beta iota.
  destruct (range_learned h y ty' bb (l_ok _ _ _ _ Hh) Hy) as (b & -> & Hmb & Hwb); [by apply Hbb, Hy|].
  rewrite (proj1 Hx), (proj1 Hy). cbn [mbind option_bind].
  destruct a as [a|]; [|apply learning_ret; [apply Hh|done] ]. destruct b as [b|]; [|apply learning_ret; [apply Hh|done] ].
  assert (forall rho, model t rho -> P rho -> (within a (val rho x) /\ val rho x <= mask tx) /\
    (within b (val rho y) /\ val rho y <= mask ty') /\ (val rho x <? val rho y) = Bool.eqb truth lt) as Hall.
  { intros rho Hm Hp. destruct (HP rho Hp) as [Hf Hc].
    assert (sat t rho g) as Hsg by by apply Hg. assert (sat t rho h) as Hsh by by apply Hh.
    split_and!; [apply (Hwa rho a Hm Hsg)|apply (Hwa rho a Hm Hsg)|apply (Hwb rho b Hm Hsh)|apply (Hwb rho b Hm Hsh)|done]; try done;
      [by apply Hba|by apply Hba|by apply Hbb|by apply Hbb]. }
  clear HP Hwa Hwb Hba Hbb. specialize (Hma a eq_refl). specialize (Hmb b eq_refl). cbn in Hma, Hmb.
  assert (forall id ti r k, facts_ok t k -> scalar_at_type t id ti -> 0 <= minimum r ->
    (forall rho, model t rho -> P rho -> within r (val rho id)) ->
    learning t P (restrict_range t id r k) k (fun _ _ => True)) as Hstep.
  { intros id ti r k Hk Hi H0 Hr. eapply learning_weaken; [apply (restrict_range_spec id ti); [done|apply Hi|done]| |done].
    intros rho Hm _ Hp. by apply Hr. }
  assert (forall rho, model t rho -> 0 <= val rho x /\ 0 <= val rho y) as Hpos.
  { intros rho Hm. split; eapply val_fits; try done; [apply Hx|apply Hx|apply Hy|apply Hy]. }
  destruct (Bool.eqb truth lt); cbn [negb].
  - eapply learning_bind; [instantiate (1 := fun _ _ => True)|].
    + destruct (Z.leb_spec 1 (maximum b)); [|apply learning_ret; [apply Hh|done] ].
      apply (Hstep x tx); [apply Hh|done|done|]. intros rho Hm Hp. destruct (Hall rho Hm Hp) as ([[] ?] & [[] ?] & Hc%Z.ltb_lt).
      specialize (Hpos rho Hm). split; cbn [minimum maximum]; lia.
    + intros [] k Hk _. destruct (Z.ltb_spec (minimum a) (Z.ones 64)); [|apply learning_ret; [apply Hk|done] ].
      apply (Hstep y ty'); [apply Hk|done|cbn [minimum]; lia|]. intros rho Hm Hp. destruct (Hall rho Hm Hp) as ([[] ?] & [[] ?] & Hc%Z.ltb_lt).
      split; cbn [minimum maximum]; lia.
  - eapply learning_bind; [apply (Hstep x tx); [apply Hh|done|done|] |].
    + intros rho Hm Hp. destruct (Hall rho Hm Hp) as ([[] ?] & [[] ?] & Hc%Z.ltb_ge). split; cbn [minimum maximum]; lia.
    + intros [] k Hk _. apply (Hstep y ty'); [apply Hk|done|done|].
      intros rho Hm Hp. destruct (Hall rho Hm Hp) as ([[] ?] & [[] ?] & Hc%Z.ltb_ge).
      specialize (Hpos rho Hm). split; cbn [minimum maximum]; lia.
Qed.

(** ** Comparison outcomes *)

Lemma comparisons_assume_spec op x y tx ty' truth f : facts_ok t f -> type_at t x = Some tx -> type_at t y = Some ty' ->
  is_integer tx = true -> carrier ty' = carrier tx ->
  learning t (fun rho => int_compare (carrier tx) op (val rho x) (val rho y) = truth)
    (comparisons_assume t op x y truth f) f (fun _ _ => True).
Proof.
  intros Hok Hx Hy Hi Hc. unfold comparisons_assume.
  destruct (canonical_spec t Hwf Hcon op x y tx ty' Hx Hy Hi Hc) as (key & inverted & -> & Hkey & Hout).
  cbn [mbind option_bind]. destruct (comparisons f !! key) as [o|]; [by apply learning_ret|].
  apply learning_from; [|done]. destruct Hok as [[H1 H2 H3 H4 H5] Hcache].
  split; [split; [split; try done|done]|by apply extends_same|].
  - intros k o Hl; cbn [comparisons set_comparisons] in Hl.
    apply lookup_insert_Some in Hl as [[<- <-]|[_ Hl] ]; [done|by eapply H4].
  - intros rho Hm [[S1 S2 S3 S4] S5] Ht. split; [|done]. split; try done.
    intros k o Hl; cbn [comparisons set_comparisons] in Hl.
    apply lookup_insert_Some in Hl as [[<- <-]|[_ Hl] ]; [|by apply S4].
    apply (Hout rho Hm). rewrite Ht. by destruct truth, inverted.
Qed.

(** ** Tracked constraints *)

Lemma bitwise_stored id r op x y : expression_of t id = Some (Some r) -> er_expression r = EBinary op x y ->
  exists v, values t !! id = Some v /\ definition v = DExpression (EBinary op x y).
Proof.
  intros He Hr. unfold expression_of, definition_at in He.
  destruct (values t !! id) as [v|] eqn:Hv; [|done]. cbn [fmap option_fmap option_map mbind option_bind] in He.
  exists v. split; [done|]. destruct (definition v) as [l|e|b c|[item|p] c] eqn:Hd; simplify_eq; cbn in Hr; [by rewrite Hr|].
  pose proof (wf_value t Hwf id v Hv) as Hok. unfold value_ok in Hok. rewrite Hd in Hok.
  destruct Hok as (c' & pv & e & -> & -> & Hp & Hpd & Hres). rewrite Hp in He. cbn in He. rewrite Hpd in He.
  injection He as <-. cbn in Hr. subst e. by cbn in Hres.
Qed.

Lemma bitwise_not_observed id r op x y : expression_of t id = Some (Some r) -> er_expression r = EBinary op x y ->
  observation_of t id = Some None.
Proof.
  intros He Hr. destruct (bitwise_stored id r op x y He Hr) as (v & Hv & Hd).
  unfold observation_of, representation. cbn [representation_loop]. unfold value_at. rewrite Hv. cbn [mbind option_bind].
  rewrite Hd. cbn [mbind option_bind]. rewrite Hv. cbn [mbind option_bind]. by rewrite Hd.
Qed.

Lemma testbit_mark active index i : 0 <= i -> Z.testbit (Z.lor active (Z.shiftl 1 (Z.of_nat index))) i = true ->
  Z.testbit active i = true \/ i = Z.of_nat index.
Proof.
  intros Hi. rewrite Z.lor_spec, Z.shiftl_1_l, Z.pow2_bits_eqb by lia.
  intros [H|H%Z.eqb_eq]%orb_true_iff; auto.
Qed.

Lemma track_learns P f id rs index r op x y : facts_ok t f -> roots (constraints f) `prefix_of` rs ->
  (length rs <= MAX_CONSTRAINTS)%nat -> rs !! index = Some id -> root_ok t (known f) id ->
  (forall i id', rs !! i = Some id' -> id' = id \/ roots (constraints f) !! i = Some id') ->
  type_at t id = Some I1 -> expression_of t id = Some (Some r) -> er_expression r = EBinary (Bitwise op) x y ->
  forall from, learns t P f
    (set_constraints (mkConstraints rs (Z.lor (active (constraints f)) (Z.shiftl 1 (Z.of_nat index))) from) f).
Proof.
  intros [[H1 H2 H3 H4 [Ha Hb Hc Hd]] Hcache] Hpre Hlen Hidx Hroot Hold Hty He Hr from.
  split; [split; [split; try done|done]|by split|].
  - split; cbn [roots active revisit_from constraints set_constraints known]; [done| | |].
    + apply Z.lor_nonneg. split; [done|]. apply Z.shiftl_nonneg. lia.
    + intros i Hi. assert (0 <= i) as H0.
      { destruct (Z.leb_spec 0 i); [done|]. by rewrite Z.testbit_neg_r in Hi. }
      destruct (testbit_mark _ _ i H0 Hi) as [Hold'| ->].
      * destruct (Hc i Hold') as (id' & Hl & Hok'). exists id'. split; [|done]. by eapply prefix_lookup_Some.
      * exists id. by rewrite Nat2Z.id.
    + intros i id' Hl. destruct (Hold i id' Hl) as [-> |Hl']; [by exists r, op, x, y|by eapply Hd].
  - intros rho Hm [[S1 S2 S3 S4] S5] _. split; [by split|done].
Qed.

Lemma constraints_track_spec P f id ty b : facts_ok t f -> type_at t id = Some ty ->
  (ty = I1 -> Z.land (bmask b) 1 <> 0 -> observation_of t id = Some None -> settled (known f) id) ->
  exists c, constraints_track t id b (constraints f) = Some c /\ learns t P f (set_constraints c f).
Proof.
  intros Hok Hty Hset. assert (learns t P f (set_constraints (constraints f) f)) as Hskip
    by (replace (set_constraints (constraints f) f) with f by (by destruct f); by apply learns_refl).
  apply fmap_Some in Hty as (v & Hv & ->). unfold constraints_track, value_at. rewrite Hv. cbn [mbind option_bind].
  destruct (bool_decide_reflect (Values.ty v = I1)) as [HI|]; [|by eexists]. cbn [negb orb].
  destruct (Z.eqb_spec (Z.land (bmask b) 1) 0) as [|Hb]; [by eexists|].
  destruct (expression_of_spec t Hwf Hcon id v Hv) as (r & Hr & Hat). rewrite Hr. cbn [mbind option_bind].
  destruct r as [r|]; [|by eexists]. cbn [fmap option_fmap option_map].
  destruct (er_expression r) as [|[op| | | | | | | | | |] x y| | |] eqn:He; try (by eexists).
  destruct (_ || _); [by eexists|].
  assert (type_at t id = Some I1) as Hty by (rewrite <- HI; by apply type_at_value).
  assert (root_ok t (known f) id) as Hroot.
  { destruct (Hset HI Hb (bitwise_not_observed id r _ x y Hr He)) as (b' & Hb' & Hm'). by exists b', r, op, x, y. }
  destruct (list_find (eq id) (roots (constraints f))) as [[index id']|] eqn:Hf.
  - apply list_find_Some in Hf as (Hf & <- & _). eexists. split; [done|].
    apply (track_learns P f id _ index r op x y); try done; [|auto]. apply (c_roots _ _ _ (facts_constraints_ok _ _ (proj1 Hok))).
  - destruct (Nat.eqb_spec (length (roots (constraints f))) MAX_CONSTRAINTS) as [|Hlen]; [by eexists|].
    pose proof (c_roots _ _ _ (facts_constraints_ok _ _ (proj1 Hok))) as Hle.
    eexists. split; [done|]. apply (track_learns P f id _ _ r op x y); try done.
    + by apply prefix_app_r.
    + rewrite length_app. cbn. lia.
    + by rewrite lookup_app_r, Nat.sub_diag by lia.
    + intros i id' [Hl|[_ Hl]]%lookup_app_Some; [by right|]. apply list_lookup_singleton_Some in Hl as [_ Hl]. by left.
Qed.

(** ** Constants *)

(** A constant is the value's logical bits, or a literal's carrier. *)
Definition constant_of (id : nat) (ty : Ty) (rho : Valuation) (z : Z) : Prop :=
  z = wrap (bits ty) (val rho id) \/ z = val rho id.

Lemma inferred_constant_spec P id ty f : facts_ok t f -> type_at t id = Some ty ->
  learning t P (inferred_constant t id f) f (fun o g => inferred t f g /\
    forall z, o = Some z -> is_scalar ty = true /\
      forall rho, model t rho -> sat t rho f -> z = wrap (bits ty) (val rho id)).
Proof.
  intros Hok Hty. unfold inferred_constant. rewrite Hty. cbn [mbind option_bind].
  destruct (is_scalar ty) eqn:Hs; cbn [negb]; [|by apply learning_ret; [done|split; [by apply inferred_refl|]]].
  eapply learning_bind; [by apply (bits_of_learning _ id ty)|]. intros b g Hg (Hi & Hb). cbn beta iota.
  apply learning_ret; [apply Hg|]. split; [done|].
  destruct (Z.eqb_spec (Z.land (bmask b) (mask ty)) (mask ty)) as [Hk|]; [|done].
  intros z [= <-]. split; [done|]. intros rho Hm Hf. destruct Hb as (_ & _ & _ & Hh). specialize (Hh rho Hm Hf).
  pose proof (scalar_bits ty Hs). rewrite (mask_ones ty Hs) in *. rewrite <- wrap_land by lia. by apply says_all; [|done|lia].
Qed.

Lemma constant_spec P id ty f : facts_ok t f -> type_at t id = Some ty ->
  learning t P (constant t id f) f (fun o g => inferred t f g /\
    forall z, o = Some z -> is_scalar ty = true /\
      forall rho, model t rho -> sat t rho f -> constant_of id ty rho z).
Proof.
  intros Hok Hty. unfold constant, value_at. pose proof Hty as Hty'. apply fmap_Some in Hty as (v & Hv & ->).
  assert (inferred t f f) as Hi by by apply inferred_refl.
  rewrite Hv. cbn [mbind option_bind].
  destruct (is_scalar (Values.ty v)) eqn:Hs; cbn [negb]; [|by apply learning_ret].
  destruct (scalar_literal v) as [z|] eqn:Hz.
  - apply learning_ret; [done|]. split; [done|]. intros z' [= <-]. split; [done|]. intros rho Hm _. right.
    destruct (scalar_literal_fact t id v Hwf Hv z Hz) as [Hval _]. by rewrite Hval.
  - destruct (_ && _); [by apply learning_ret|].
    eapply learning_weaken; [by apply (inferred_constant_spec P id (Values.ty v))|done|].
    intros o g _ [Hg Ho]. split; [done|]. intros z E. destruct (Ho z E) as [_ H]. split; [done|].
    intros rho Hm Hf. left. by apply H.
Qed.

Lemma constant_bit id ty rho z : is_scalar ty = true -> constant_of id ty rho z -> Z.testbit z 0 = Z.testbit (val rho id) 0.
Proof.
  intros Hs H. pose proof (scalar_bits ty Hs). destruct H as [-> | ->]; [|done]. rewrite testbit_wrap by lia.
  by destruct (Z.ltb_spec 0 (bits ty)); [|lia].
Qed.

Lemma constant_truth id rho z : model t rho -> type_at t id = Some I1 -> truthful t id = true -> constant_of id I1 rho z ->
  negb (z =? 0) = Z.testbit (val rho id) 0.
Proof.
  intros Hm Hty Htr [-> | ->]; [|by apply (truthful_bit t Hwf rho Hm id I1)].
  unfold wrap; cbn [bits]. change (2 ^ 1) with 2. rewrite <- Z.bit0_mod. by destruct (Z.testbit (val rho id) 0).
Qed.

(** ** Expressions *)

Definition request_ok (id : nat) (q : nat * Bits) : Prop :=
  (q.1 < id)%nat /\ (exists ty, scalar_at_type t q.1 ty) /\ bits_ok 64 q.2.

(** What learning [b] about [id] says of its inputs. *)
Definition requests (f : ScalarFacts) (id : nat) (b : Bits) (l : list (nat * Bits)) : Prop :=
  (length l <= 4)%nat /\ Forall (request_ok id) l /\
  forall rho, model t rho -> sat t rho f -> holds rho id b -> Forall (fun q => holds rho q.1 q.2) l.

Lemma requests_nil f id b : requests f id b [].
Proof. split_and!; [cbn; lia|done|done]. Qed.

Section Input.
Context (id : nat) (ty : Ty) (r : ExpressionResult) (b : Bits) (f : ScalarFacts).
Context (Hid : scalar_at_type t id ty) (Hat : expression_at t id ty r).
Context (Hb : bits_ok (bits ty) b) (Hnz : bmask b <> 0) (Hf : facts_ok t f).

Notation P := (fun rho => holds rho id b).
Notation assumes := (learning t P (assume_expression t id b (er_expression r) f) f (fun l _ => requests f id b l)).

Lemma value_of rho l : model t rho -> eval t rho ty (er_expression r) (er_component r) = Some l -> val rho id = low l.
Proof. intros Hm He. unfold val. by rewrite (at_value _ _ _ _ Hat rho l Hm He). Qed.

Lemma input_request i ti b' : i ∈ inputs (er_expression r) -> scalar_at_type t i ti -> bits_ok 64 b' -> request_ok id (i, b').
Proof.
  intros Hi Hti Hb'. pose proof (at_inputs _ _ _ _ Hat) as Hlt. rewrite Forall_forall in Hlt.
  split_and!; [by apply Hlt|by exists ti|done].
Qed.

Lemma bits_ok_64 : bits_ok 64 b.
Proof. eapply bits_ok_mono; [|exact Hb]. apply scalar_bits, Hid. Qed.

Lemma predicate_bit : ty = I1 -> Z.land (bmask b) 1 <> 0.
Proof.
  intros E. destruct Hb as [[H0 H1] _]. rewrite E in H1. cbn [bits] in H1. change (2 ^ 1) with 2 in H1.
  assert (bmask b = 1) as -> by lia. done.
Qed.
Lemma predicate_truth : ty = I1 -> negb (bvalue b =? 0) = negb (Z.land (bvalue b) 1 =? 0).
Proof.
  intros E. assert (fits 1 (bvalue b)) as H.
  { apply bits_ok_value; [done|]. replace 1 with (bits ty) by (by rewrite E). exact Hb. }
  change 1 with (Z.ones 1) at 1. rewrite <- wrap_land by done. by rewrite wrap_small.
Qed.

Lemma assume_convert x : er_expression r = EUnary Convert x -> assumes.
Proof.
  intros He. rewrite He. destruct Hat as [Ht _ _ _ _ _]. rewrite He in Ht. apply typed_unary in Ht as (tx & Hx & Ht).
  cbn [unary_typed assume_expression] in *. rewrite Hx. cbn [mbind option_bind].
  pose proof (proj2 Hid) as Hs. pose proof (scalar_bits ty Hs) as Hw. pose proof (bits_carrier ty) as Hcar.
  assert (is_scalar tx = true) as Hsx.
  { unfold convertible, is_vector in Ht. destruct (bool_decide_reflect (tx = ty)) as [->|]; [done|]. cbn in Ht.
    rewrite Hs, andb_false_r, orb_false_r in Ht. apply andb_true_iff in Ht as [Ht _]. by apply integer_scalar. }
  apply learning_ret; [done|]. split_and!; [cbn; lia| |].
  - constructor; [|done]. apply (input_request x tx); [rewrite He; left|done|apply bits_ok_64].
  - intros rho Hm _ Hh. constructor; [|done]. unfold holds in *; cbn [fst snd].
    rewrite (value_of rho _ Hm ltac:(rewrite He; exact (ev_convert t rho Hm ty x tx _ Hx Ht))) in Hh.
    rewrite lit_normalize_scalar in Hh by (by rewrite carrier_scalar). cbn [lit low] in Hh. fold (val rho x) in Hh.
    eapply (says_low (bits ty)); [lia|exact Hb| |exact Hh]. apply wrap_idem_le; lia.
Qed.

Lemma assume_low_bits x n : er_expression r = EUnary (LowBits n) x -> assumes.
Proof.
  intros He. rewrite He. destruct Hat as [Ht _ _ _ _ _]. rewrite He in Ht. apply typed_unary in Ht as (tx & Hx & Ht).
  cbn [unary_typed assume_expression] in *. rewrite Hx. cbn [mbind option_bind]. btyping.
  assert (0 <= n <= 64) as Hn by (destruct (cbits_integer ty ltac:(done)); lia).
  apply learning_ret; [done|]. split_and!; [cbn; lia| |].
  - constructor; [|done]. apply (input_request x tx); [rewrite He; left|split; [done|by apply integer_scalar]|].
    apply restrict_ok_l; [lia|apply bits_ok_64].
  - intros rho Hm _ Hh. constructor; [|done]. unfold holds in *; cbn [fst snd].
    rewrite (value_of rho _ Hm ltac:(rewrite He; exact (ev_low_bits t rho Hm ty n x tx _ Hx ltac:(done) ltac:(done) ltac:(done) ltac:(lia)))) in Hh.
    cbn [lit low] in Hh. rewrite low_mask_ones by lia.
    apply (says_low n _ (wrap n (val rho x))); [lia| |apply wrap_wrap|by apply says_restrict].
    apply (restrict_ok 64); [lia|apply bits_ok_64|apply fits_ones; lia].
Qed.

Lemma assume_zero_test x nonzero : er_expression r = EUnary (ZeroTest nonzero) x -> assumes.
Proof.
  intros He. rewrite He. destruct Hat as [Ht _ _ _ Hp _]. rewrite He in Ht, Hp. apply typed_unary in Ht as (tx & Hx & Ht).
  cbn [unary_typed assume_expression promise] in *. rewrite Hx. cbn [mbind option_bind]. btyping.
  assert (scalar_at_type t x tx) as Hix by (split; [done|by apply integer_scalar]).
  pose proof (scalar_bits tx (proj2 Hix)) as Hwx.
  destruct (Z.eqb_spec (Z.land (bmask b) 1) 0) as [|Hm1]; [by apply learning_ret; [|apply requests_nil]|].
  destruct (has_bounds t x tx Hwf Hx) as [bb Hbb]. unfold bounds_at. rewrite Hbb. cbn [mbind option_bind].
  set (bit := negb (Z.land (bvalue b) 1 =? 0)).
  assert (forall rho, model t rho -> holds rho id b -> Bool.eqb (negb (val rho x =? 0)) nonzero = bit) as Hbit.
  { intros rho Hm Hh. unfold bit. rewrite (says_bit b (val rho id) Hh Hm1), negb_involutive.
    rewrite (value_of rho _ Hm ltac:(rewrite He; exact (ev_zero_test t rho Hm ty nonzero x tx _ Hx ltac:(done) ltac:(done)))).
    cbn [lit low]. by rewrite Z.b2z_bit0. }
  assert (fits (bits tx) (mask tx)) as Hmask by (rewrite (mask_ones tx (proj2 Hix)); apply fits_ones; lia).
  assert (x ∈ inputs (er_expression r)) as Hin by (rewrite He; left).
  destruct (Bool.eqb bit nonzero) eqn:Hz; cbn [negb].
  - destruct (bool_decide (tx = I1) || (unsigned bb <=? 1)) eqn:H1.
    + apply learning_ret; [done|]. split_and!; [cbn; lia| |].
      * constructor; [|done]. apply (input_request x tx); [done..|]. apply (bits_ok_mono (bits tx)); [lia|].
        split; cbn [bmask bvalue]; [done|]. rewrite (mask_ones tx (proj2 Hix)), <- wrap_land by lia. apply wrap_small.
        unfold fits. assert (2 ^ 1 <= 2 ^ bits tx) by (apply Z.pow_le_mono_r; lia). lia.
      * intros rho Hm _ Hh. constructor; [|done]. specialize (Hbit rho Hm Hh).
        assert (negb (val rho x =? 0) = true) as Hv by by destruct (negb (val rho x =? 0)), nonzero, bit.
        unfold holds, says; cbn [fst snd bmask bvalue]. rewrite (mask_ones tx (proj2 Hix)), <- wrap_land by lia.
        apply orb_true_iff in H1 as [E%bool_decide_eq_true|H1%Z.leb_le].
        -- subst tx. cbn [bits]. unfold wrap. change (2 ^ 1) with 2. rewrite <- Z.bit0_mod.
           rewrite bool_decide_eq_true_2 in Hp by done. cbn in Hp.
           by rewrite <- (truthful_bit t Hwf rho Hm x I1 Hx eq_refl Hp), Hv.
        -- pose proof (unsigned_val t rho x tx bb Hwf Hm Hx (proj2 Hix) Hbb) as Hu. apply (fits_mono _ 1) in Hu; [|done].
           unfold fits in Hu. change (2 ^ 1) with 2 in Hu. destruct (Z.eqb_spec (val rho x) 0); [done|].
           assert (val rho x = 1) as -> by lia. apply wrap_small. unfold fits.
           assert (2 ^ 1 <= 2 ^ bits tx) by (apply Z.pow_le_mono_r; lia). lia.
    + eapply learning_bind; [eapply learning_weaken; [by apply (assume_nonzero_spec x tx)| |]|].
      * intros rho Hm _ Hh. specialize (Hbit rho Hm Hh). intros E. rewrite E in Hbit. by destruct nonzero, bit.
      * intros a g _ HQ. exact HQ.
      * intros [] g Hg _. apply learning_ret; [apply Hg|]. apply requests_nil.
  - apply learning_ret; [done|]. split_and!; [cbn; lia| |].
    + constructor; [|done]. apply (input_request x tx); [done..|]. apply (bits_ok_mono (bits tx)); [lia|]. by split.
    + intros rho Hm _ Hh. constructor; [|done]. specialize (Hbit rho Hm Hh). unfold holds, says; cbn [fst snd bmask bvalue].
      destruct (Z.eqb_spec (val rho x) 0) as [->|]; [apply Z.land_0_l|]. by destruct nonzero, bit.
Qed.

Lemma assume_compare op x y : er_expression r = EBinary (Compare (CmpInteger op)) x y -> assumes.
Proof.
  intros He. apply learning_start. rewrite He. destruct Hat as [Ht _ _ _ Hp _]. rewrite He in Ht, Hp.
  apply typed_binary in Ht as (tx & ty' & Hx & Hy & Ht). cbn [binary_typed promise] in *. btyping.
  assert (carrier ty' = carrier tx) as Hc by done.
  assert (scalar_at_type t x tx) as Hix by (split; [done|by apply integer_scalar]).
  assert (scalar_at_type t y ty') as Hiy by (split; [done|by apply integer_scalar]).
  assert (Z.land (bmask b) 1 <> 0) as Hm1 by by apply predicate_bit.
  cbn [assume_expression]. set (truth := negb (bvalue b =? 0)).
  set (P := fun rho => sat t rho f /\ holds rho id b).
  assert (forall rho, model t rho -> P rho -> int_compare (carrier tx) op (val rho x) (val rho y) = truth) as Htruth.
  { intros rho Hm [_ Hh]. subst truth. rewrite predicate_truth by done.
    rewrite (says_bit b (val rho id) Hh Hm1), negb_involutive.
    rewrite (value_of rho _ Hm ltac:(rewrite He; exact (ev_compare t rho Hm ty op x y tx ty' _ Hx Hy ltac:(done) ltac:(done) ltac:(done)))).
    cbn [lit low]. by rewrite Z.b2z_bit0. }
  eapply learning_bind; [eapply (learning_weaken t P); [by apply (comparisons_assume_spec op x y tx ty' truth)|intros rho Hm _ Hp'; by apply Htruth|] |].
  { intros a g _ HQ. exact HQ. }
  intros first g Hg _. cbn beta iota.
  assert (learns t P g (match first with Some first => changed first g | None => g end)) as Hch
    by (destruct first; [apply changed_learns, Hg|apply learns_refl, Hg]).
  eapply learning_after; [exact Hch|]. revert Hch. generalize (match first with Some first => changed first g | None => g end).
  intros g' Hch. eapply learning_bind; [eapply (learning_weaken t P); [apply (assume_comparison_spec op x y tx ty' truth); [apply Hch|done..]|intros rho Hm _ Hp'; by apply Htruth|] |].
  { intros a k _ HQ. exact HQ. }
  intros [] k Hk _. cbn beta iota.
  destruct ((bool_decide (op = CEq) || bool_decide (op = CNe)) && negb (Z.land (bmask b) 1 =? 0)
    && Bool.eqb (negb (Z.land (bvalue b) 1 =? 0)) (bool_decide (op = CEq))) eqn:Heq;
    [|apply learning_ret; [apply Hk|apply requests_nil] ].
  apply andb_true_iff in Heq as [[Hop _]%andb_true_iff Heq%eqb_prop]. rewrite <- predicate_truth in Heq by done.
  assert (forall rho, model t rho -> P rho -> val rho x = val rho y) as Hxy.
  { intros rho Hm Hp'. specialize (Htruth rho Hm Hp'). subst truth. rewrite Heq in Htruth.
    destruct op; try done; cbn [int_compare] in Htruth; [by apply Z.eqb_eq in Htruth|].
    rewrite bool_decide_eq_false_2 in Htruth by done. apply negb_false_iff, Z.eqb_eq in Htruth. done. }
  eapply learning_bind; [apply (bits_of_learning P y ty'); [apply Hk|done]|]. intros br k1 Hk1 [_ Hbr]. cbn beta iota.
  eapply learning_bind; [apply (bits_of_learning P x tx); [apply Hk1|done]|]. intros bl k2 Hk2 [_ Hbl]. cbn beta iota.
  apply learning_ret; [apply Hk2|]. split_and!; [cbn; lia| |].
  - assert (x ∈ inputs (er_expression r) /\ y ∈ inputs (er_expression r)) as [Hix' Hiy'] by (rewrite He; cbn [inputs]; set_solver).
    constructor; [|constructor; [|done] ]; [apply (input_request x tx)|apply (input_request y ty')]; try done; [apply Hbr|apply Hbl].
  - intros rho Hm Hs Hh. assert (P rho) as Hp' by by split.
    assert (sat t rho k) as Hsk by (apply Hk, Hp'; [done|]; apply Hch, Hp'; [done|]; by apply Hg).
    assert (sat t rho k1) as Hsk1 by by apply Hk1.
    constructor; [|constructor; [|done] ]; unfold holds; cbn [fst snd].
    + rewrite (Hxy rho Hm Hp'). by apply Hbr.
    + rewrite <- (Hxy rho Hm Hp'). by apply Hbl.
Qed.

Lemma bitwise_inputs op x y : er_expression r = EBinary (Bitwise op) x y ->
  exists tx ty', scalar_at_type t x tx /\ scalar_at_type t y ty' /\
    x ∈ inputs (er_expression r) /\ y ∈ inputs (er_expression r) /\
    forall rho, model t rho -> val rho id = bit_fn op (val rho x) (val rho y).
Proof.
  intros He. destruct Hat as [Ht _ _ _ _ _]. rewrite He in Ht.
  apply typed_binary in Ht as (tx & ty' & Hx & Hy & Ht). cbn [binary_typed] in Ht. btyping.
  pose proof (proj2 Hid) as Hs. exists tx, ty'.
  split_and!; [split; [done|by eapply carrier_is_scalar]|split; [done|by eapply carrier_is_scalar]|rewrite He; set_solver..|].
  intros rho Hm. by rewrite (value_of rho _ Hm ltac:(rewrite He; exact (ev_bitwise_scalar t rho Hm ty op x y tx ty' _ Hx Hy ltac:(done) ltac:(done) Hs))).
Qed.

Lemma assume_or x y : er_expression r = EBinary (Bitwise Or) x y -> assumes.
Proof.
  intros He. destruct (bitwise_inputs Or x y He) as (tx & ty' & Hx & Hy & Hix & Hiy & Hv). rewrite He.
  cbn [assume_expression]. set (zeros := mkBits (Z.land (bmask b) (bnot 64 (bvalue b))) 0).
  assert (bits_ok 64 zeros) as Hz.
  { split; cbn [zeros bmask bvalue]; [apply fits_land_l; [lia|apply bits_ok_64]|done]. }
  apply learning_ret; [done|]. split_and!; [cbn; lia| |].
  - constructor; [|constructor; [|done] ]; [by apply (input_request x tx)|by apply (input_request y ty')].
  - intros rho Hm _ Hh. unfold holds in Hh. rewrite (Hv rho Hm) in Hh. cbn [bit_fn] in Hh.
    assert (forall i, 0 <= i -> Z.testbit (bmask zeros) i = true ->
      Z.testbit (val rho x) i = false /\ Z.testbit (val rho y) i = false) as Hbit.
    { intros i Hi. cbn [zeros bmask]. rewrite Z.land_spec, testbit_bnot, (says_testbit b _ i Hh), Z.lor_spec by lia.
      destruct (Z.ltb_spec i 64); [|by rewrite (mask_above 64 b i bits_ok_64) by lia].
      by destruct (Z.testbit (val rho x) i), (Z.testbit (val rho y) i), (Z.testbit (bmask b) i). }
    constructor; [|constructor; [|done] ]; apply says_intro; intros i Hi; cbn [fst snd]; change (bvalue zeros) with 0;
      rewrite Z.testbit_0_l; specialize (Hbit i Hi); destruct (Z.testbit (bmask zeros) i); [|by rewrite andb_false_r| |by rewrite andb_false_r];
      (destruct Hbit as [Ex Ey]; [done|by rewrite ?Ex, ?Ey]).
Qed.

Lemma assume_and x y : er_expression r = EBinary (Bitwise And) x y -> assumes.
Proof.
  intros He. apply learning_start. destruct (bitwise_inputs And x y He) as (tx & ty' & Hx & Hy & Hix & Hiy & Hv). rewrite He.
  cbn [assume_expression]. set (ones := mkBits (bvalue b) (bvalue b)). set (P := fun rho => sat t rho f /\ holds rho id b).
  assert (bits_ok 64 ones) as Ho.
  { split; cbn [ones bmask bvalue]; [apply bits_ok_value; [lia|apply bits_ok_64]|apply Z.land_diag]. }
  eapply learning_bind; [apply (bits_of_learning P y ty'); [done|apply Hy]|]. intros br k1 Hk1 [_ Hbr]. cbn beta iota.
  eapply learning_bind; [apply (bits_of_learning P x tx); [apply Hk1|apply Hx]|]. intros bl k2 Hk2 [_ Hbl]. cbn beta iota.
  apply learning_ret; [apply Hk2|]. split_and!; [cbn; lia| |].
  - assert (forall m, bits_ok 64 (restrict b m)) as Hr by (intros m; apply restrict_ok_l; [lia|apply bits_ok_64]).
    constructor; [by apply (input_request x tx)|]. constructor; [by apply (input_request y ty')|].
    constructor; [by apply (input_request x tx)|]. constructor; [by apply (input_request y ty')|done].
  - intros rho Hm Hs Hh. assert (sat t rho k1) as Hsk1 by by apply Hk1.
    assert (holds rho y br) as Hry by by apply Hbr. assert (holds rho x bl) as Hrx by by apply Hbl.
    unfold holds in Hh. rewrite (Hv rho Hm) in Hh. cbn [bit_fn] in Hh.
    assert (forall i, 0 <= i -> Z.testbit (bvalue b) i = Z.testbit (val rho x) i && Z.testbit (val rho y) i && Z.testbit (bmask b) i) as Hbit.
    { intros i Hi. by rewrite (says_testbit b _ i Hh), Z.land_spec. }
    assert (forall i, Z.testbit (bvalue br) i = Z.testbit (val rho y) i && Z.testbit (bmask br) i) as Ey by (intros; by apply says_testbit).
    assert (forall i, Z.testbit (bvalue bl) i = Z.testbit (val rho x) i && Z.testbit (bmask bl) i) as Ex by (intros; by apply says_testbit).
    repeat (constructor; [|]); [..|done]; apply says_intro; intros i Hi; cbn [fst snd ones restrict bmask bvalue];
      rewrite ?Z.land_spec, ?Ey, ?Ex, (Hbit i Hi); btauto.
Qed.

Lemma assume_select x y z : er_expression r = ETernary Select x y z -> assumes.
Proof.
  intros He. apply learning_start. destruct Hat as [Ht _ _ _ Hp _]. rewrite He in Ht, Hp. cbn [promise] in Hp.
  apply andb_true_iff in Hp as [Hz%bool_decide_eq_true Htr].
  apply typed_ternary in Ht as (tx & ty' & tw & Hx & Hy & Hw & Ht). cbn [ternary_typed] in Ht. btyping. simplify_eq.
  assert (forall rho, model t rho -> val rho id = val rho (if Z.testbit (val rho z) 0 then x else y)) as Hv.
  { intros rho Hm. rewrite (value_of rho _ Hm ltac:(rewrite He; exact (ev_select t rho Hm ty x y z tx ty' I1 _ Hx Hy Hw ltac:(done) ltac:(done) eq_refl))).
    rewrite (truthful_bit t Hwf rho Hm z I1 Hw eq_refl Htr). by destruct (Z.testbit (val rho z) 0). }
  assert (scalar_at_type t x tx) as Hix by (split; [done|]; eapply (carrier_is_scalar t Hwf Hcon _ ty); [done|apply Hid]).
  assert (scalar_at_type t y ty') as Hiy by (split; [done|]; eapply (carrier_is_scalar t Hwf Hcon _ ty); [done|apply Hid]).
  assert (x ∈ inputs (er_expression r) /\ y ∈ inputs (er_expression r) /\ z ∈ inputs (er_expression r)) as (Hinx & Hiny & Hinz)
    by (rewrite He; cbn [inputs]; set_solver).
  rewrite He. cbn [assume_expression]. set (P := fun rho => sat t rho f /\ holds rho id b).
  eapply learning_bind; [by apply (constant_spec P z I1)|]. intros c g Hg [_ Hc]. cbn beta iota.
  eapply (learning_bind t P _ _ _ (fun o _ => forall truth, o = Some truth ->
    forall rho, model t rho -> P rho -> Z.testbit (val rho z) 0 = truth)).
  - destruct c as [v|].
    + apply learning_ret; [apply Hg|]. intros truth [= <-] rho Hm [Hs _]. destruct (Hc v eq_refl) as [_ Hc'].
      by rewrite (constant_truth z rho v Hm Hw Htr (Hc' rho Hm Hs)).
    + eapply learning_bind; [apply (bits_of_learning P x tx); [apply Hg|done]|]. intros bt k1 Hk1 [_ Hbt]. cbn beta iota.
      destruct (conflicts bt b) eqn:Hconf.
      { apply learning_ret; [apply Hk1|]. intros truth [= <-] rho Hm HP. assert (sat t rho g) as Hsg by (apply Hg; [done|apply HP|done]).
        apply not_true_iff_false. intros E. destruct HP as [Hs Hh]. unfold holds in Hh. rewrite (Hv rho Hm), E in Hh.
        assert (holds rho x bt) as Hbt' by by apply Hbt.
        by rewrite (says_conflict bt b (val rho x)) in Hconf by done. }
      eapply learning_bind; [apply (bits_of_learning P y ty'); [apply Hk1|done]|]. intros bf k2 Hk2 [_ Hbf]. cbn beta iota.
      apply learning_ret; [apply Hk2|]. intros truth E rho Hm HP. destruct (conflicts bf b) eqn:Hconf2; simplify_eq.
      assert (sat t rho k1) as Hsk1 by (apply Hk1; [done|apply Hg; [done|apply HP|done]|done]).
      apply not_false_iff_true. intros E. destruct HP as [Hs Hh]. unfold holds in Hh. rewrite (Hv rho Hm), E in Hh.
      assert (holds rho y bf) as Hbf' by by apply Hbf.
      by rewrite (says_conflict bf b (val rho y)) in Hconf2 by done.
  - intros o k Hk Ho. cbn beta iota. apply learning_ret; [apply Hk|]. destruct o as [truth|]; [|apply requests_nil].
    split_and!; [cbn; lia| |].
    + constructor; [|constructor; [|done] ].
      * apply (input_request z I1); [done|done|]. by apply truth_bits_ok.
      * destruct truth; [apply (input_request x tx)|apply (input_request y ty')]; try done; apply bits_ok_64.
    + intros rho Hm Hs Hh. specialize (Ho truth eq_refl rho Hm (conj Hs Hh)).
      constructor; [|constructor; [|done] ]; [by apply says_truth|]. unfold holds in *; cbn [fst snd].
      rewrite (Hv rho Hm), Ho in Hh. by destruct truth.
Qed.

(** The inputs of an expression whose value is learned. *)
Lemma assume_expression_spec : assumes.
Proof.
  destruct (er_expression r) as [op x|op x y|op x y|op x y z|s x y] eqn:He in |- *;
    [destruct op|destruct op as [[]|[op|]| | | | | | | | |]| |destruct op|]; rewrite <- He;
    eauto using assume_convert, assume_low_bits, assume_zero_test, assume_compare, assume_or, assume_and, assume_select;
    rewrite He; cbn [assume_expression]; try (apply learning_ret; [done|apply requests_nil]);
    (destruct Hat as [Ht _ _ _ _ _]; rewrite He in Ht; apply typed_unary in Ht as (tx & -> & _); cbn [mbind option_bind];
     apply learning_ret; [done|apply requests_nil]).
Qed.

End Input.
End Steps.

Section Path.
#[local] Set Default Proof Using "All".
Context (t : ValueTable) (Hwf : wf t) (Hcon : constructed t).

(** ** One request *)

Lemma restricted_ok id ty b : scalar_at_type t id ty -> bits_ok 64 b -> bits_ok (bits ty) (restrict b (mask ty)).
Proof.
  intros [_ Hs] Hb. pose proof (scalar_bits ty Hs). rewrite (mask_ones ty Hs). apply (restrict_ok 64); [lia|done|apply fits_ones; lia].
Qed.

Lemma predicate_mask b : bits_ok 1 b -> bmask b <> 0 -> Z.land (bmask b) 1 <> 0.
Proof. intros [[H0 H1] _] Hnz. change (2 ^ 1) with 2 in H1. by assert (bmask b = 1) as -> by lia. Qed.

Lemma union_mask_nonzero w a b : bits_ok w a -> bits_ok w b -> bmask b <> 0 -> bmask (bits_union a b) <> 0.
Proof. intros _ _ H E. cbn [bits_union bmask] in E. by apply Z.lor_eq_0_iff in E as [_ ?]. Qed.

Lemma assume_visit_spec id ty b f : facts_ok t f -> scalar_at_type t id ty -> bits_ok 64 b ->
  learning t (fun rho => holds rho id b) (assume_visit t id b f) f (fun l _ => requests t f id b l).
Proof.
  intros Hok Hid Hb. apply learning_start. set (P := fun rho => sat t rho f /\ holds rho id b).
  pose proof (restricted_ok id ty b Hid Hb) as Hr. pose proof (proj1 Hid) as Hty. apply fmap_Some in Hty as (v & Hv & E).
  unfold assume_visit, value_at. rewrite Hv. cbn [mbind option_bind]. rewrite <- E. set (b1 := restrict b (mask ty)) in *.
  assert (forall k, facts_ok t k -> learning t P (Some ([], k)) k (fun l _ => requests t f id b l)) as Hnone
    by (intros k Hk; apply learning_ret; [done|by apply requests_nil]).
  destruct (Z.eqb_spec (bmask b1) 0) as [|Hnz]; [by apply Hnone|].
  destruct (known_bits_spec t Hwf f id ty (proj1 Hok) Hid) as (k & -> & _ & _). cbn [mbind option_bind].
  destruct (conflicts k b1 || negb (beyond (bmask b1) (bmask k))); [by apply Hnone|].
  eapply learning_bind; [apply (bits_of_learning t Hwf Hcon P id ty); [done|apply Hid]|]. intros previous g Hg [_ Hp]. cbn beta iota.
  destruct (conflicts previous b1 || negb (beyond (bmask b1) (bmask previous))); [apply Hnone, Hg|].
  set (b2 := bits_union previous b1).
  assert (bits_ok (bits ty) previous) as Hpok by (apply Hp, Hid).
  assert (bits_ok (bits ty) b2) as Hb2 by (apply bits_union_ok; [|done..]; pose proof (scalar_bits ty (proj2 Hid)); lia).
  assert (bmask b2 <> 0) as Hnz2 by by eapply union_mask_nonzero.
  assert (forall rho, model t rho -> P rho -> holds rho id b2) as Hh2.
  { intros rho Hm [Hs Hh]. apply says_union; [by apply Hp|by apply says_restrict]. }
  assert (ty = I1 -> Z.land (bmask b2) 1 <> 0) as Hbit by (intros ->; by apply predicate_mask).
  eapply learning_bind; [eapply (learning_weaken t P); [apply (record_spec t Hwf Hcon id ty b2 g); [apply Hg|done|done|]| |]|].
  { intros HI _. by apply Hbit. }
  { intros rho Hm _ HP. by apply Hh2. }
  { intros a h _ HQ. exact HQ. }
  intros [] h Hh Hrec. cbn beta iota.
  destruct (constraints_track_spec t Hwf Hcon P h id ty b2) as (c & -> & Hc); [apply Hh|apply Hid| |].
  { intros _ Hm1 Ho. exists b2. by rewrite (Hrec Ho), lookup_insert_eq. }
  cbn [mbind option_bind]. eapply learning_after; [exact Hc|].
  destruct (definition v) as [|e| |] eqn:Hd; try apply Hnone, Hc.
  pose proof (stored_at t Hwf Hcon id v e Hv Hd) as Hat. rewrite <- E in Hat.
  eapply (learning_weaken t P); [apply (assume_expression_spec t Hwf Hcon id ty (mkResult id e 0) b2); try done; apply Hc| |].
  - intros rho Hm _ HP. by apply Hh2.
  - intros l i _ (Hlen & Hreq & Hsat). split_and!; [done|done|]. intros rho Hm Hs Hh'.
    assert (P rho) as HP by by split. apply Hsat; [done| |by apply Hh2].
    apply Hc; [done| |done]. apply Hh; [done| |done]. by apply Hg.
Qed.

(** ** The loop of [assume] *)

(** [n] rounds serve the requests at the top of the stack. *)
Definition serves (f : ScalarFacts) (l : list (nat * Bits)) (n : nat) (g : ScalarFacts) : Prop :=
  (forall rest, repeat_times (assume_step t) n (f, l ++ rest) = inl (g, rest)) /\
  learns t (fun rho => Forall (fun q => holds rho q.1 q.2) l) f g.

Lemma serves_list id l f bound : facts_ok t f -> Forall (request_ok t id) l ->
  (forall q f, q ∈ l -> request_ok t id q -> facts_ok t f -> exists n g, (n <= bound)%nat /\ serves f [q] n g) ->
  exists n g, (n <= length l * bound)%nat /\ serves f l n g.
Proof.
  intros Hok Hl Hone. revert f Hok. induction l as [|q l IH]; intros f Hok.
  - exists 0%nat, f. split_and!; [cbn; lia|]. split; [done|by apply learns_refl].
  - apply Forall_cons in Hl as [Hq Hl].
    destruct (Hone q f) as (n & g & Hn & Hrun & Hg); [left|done|done|].
    destruct (IH Hl) with (f := g) as (m & h & Hm & Hrun2 & Hh); [intros q' f' Hin; apply Hone; by right|apply Hg|].
    exists (n + m)%nat, h. split_and!; [cbn; lia|]. split.
    + intros rest. rewrite repeat_times_add. specialize (Hrun (l ++ rest)). cbn [app] in *. by rewrite Hrun.
    + apply (learns_trans t _ f g h); (eapply learns_weaken; [eassumption|]); cbn beta;
        intros rho _ _ HF; apply Forall_cons in HF as [H1 H2]; [by repeat constructor|done].
Qed.

Lemma serve_request id : forall b f, facts_ok t f -> (exists ty, scalar_at_type t id ty) -> bits_ok 64 b ->
  exists n g, (n <= rounds id)%nat /\ serves f [(id, b)] n g.
Proof.
  induction (lt_wf id) as [id _ IH]. intros b f Hok [ty Hid] Hb.
  destruct (assume_visit_spec id ty b f Hok Hid Hb) as (l & g & Hv & Hg & Hlen & Hreq & Hsat).
  destruct (serves_list id (rev l) g (8 ^ id)) as (n & h & Hn & Hrun & Hh); [apply Hg|by apply Forall_rev| |].
  { intros [i bi] f' _ (Hlt & Hty & Hbi) Hf'. cbn [fst snd] in *.
    destruct (IH i Hlt bi f' Hf' Hty Hbi) as (n & h & Hn & Hs). exists n, h. split; [|done].
    etrans; [exact Hn|]. unfold rounds. apply Nat.pow_le_mono_r; lia. }
  exists (S n), h. rewrite length_rev in Hn. split; [|split].
  - unfold rounds. rewrite Nat.pow_succ_r'. pose proof (Nat.pow_nonzero 8 id). nia.
  - intros rest. cbn [app repeat_times assume_step]. by rewrite Hv, Hrun.
  - split; [apply Hh|eapply extends_trans; [apply Hg|apply Hh]|]. intros rho Hm Hs HF. apply Forall_cons in HF as [Hb' _].
    apply Hh; [done|by apply Hg|]. apply Forall_rev. by apply Hsat.
Qed.

Lemma serve_loop id ty b f : facts_ok t f -> scalar_at_type t id ty -> bits_ok 64 b ->
  exists g, repeat_until (assume_step t) (visit_fuel id) (f, [(id, b)]) = inr (Some g) /\
    learns t (fun rho => holds rho id b) f g.
Proof.
  intros Hok Hid Hb. destruct (serve_request id b f Hok) as (n & g & Hn & Hrun & Hg); [by exists ty|done|].
  exists g. split.
  - rewrite repeat_until_times. apply (repeat_times_mono _ (n + 1)); [pose proof (visit_fuel_rounds t Hwf Hcon f (proj1 Hok) id); lia|].
    specialize (Hrun []). cbn [app] in Hrun. by rewrite repeat_times_add, Hrun.
  - eapply learns_weaken; [exact Hg|]. intros rho _ _ Hh. by constructor.
Qed.

Lemma assume_spec id ty truth f : facts_ok t f -> scalar_at_type t id ty ->
  learning t (fun rho => Z.testbit (val rho id) 0 = truth) (assume t id truth f) f (fun _ _ => True).
Proof.
  intros Hok Hid. unfold assume.
  destruct (serve_loop id ty (truth_bits truth) f Hok Hid) as (g & -> & Hg); [by apply truth_bits_ok|].
  exists tt, g. split_and!; [done| |done]. eapply learns_weaken; [exact Hg|]. intros rho _ _ H. by apply says_truth.
Qed.

Lemma low_bit_known m : Z.land m 1 <> 0 <-> Z.testbit m 0 = true.
Proof. rewrite <- Z.eqb_neq, land_1_bit. by destruct (Z.testbit m 0). Qed.

(** Stored bits stay among the known ones. *)
Lemma known_bits_settled id ty f k : base_ok t f -> scalar_at_type t id ty -> known_bits t f id = Some k ->
  settled (known f) id -> Z.land (bmask k) 1 <> 0.
Proof.
  intros Hok [Hty Hs] Hk (b & Hb & Hm). unfold known_bits in Hk. rewrite Hb in Hk. change (default no_bits (Some b)) with b in Hk.
  destruct (lanes f) as [words|]; [|by simplify_eq].
  apply bind_Some in Hk as (o & _ & Hk). destruct o as [o|]; [|by simplify_eq].
  apply bind_Some in Hk as (r & _ & Hk). rewrite Hty in Hk. cbn [mbind option_bind] in Hk. simplify_eq.
  rewrite low_bit_known in *. cbn [restrict bits_union bmask]. pose proof (scalar_bits ty Hs).
  rewrite (mask_ones ty Hs), Z.land_spec, Z.lor_spec, testbit_ones, Hm by lia. cbn.
  by destruct (Z.ltb_spec 0 (bits ty)); [|lia].
Qed.

Lemma assume_bits_spec id ty m value f : facts_ok t f -> scalar_at_type t id ty -> fits (bits ty) m ->
  learning t (fun rho => holds rho id (mkBits m (Z.land value m))) (assume_bits t id m value f) f (fun _ _ => True).
Proof.
  intros Hok Hid Hm. unfold assume_bits. pose proof (scalar_bits ty (proj2 Hid)).
  destruct (known_bits_spec t Hwf f id ty (proj1 Hok) Hid) as (k & Hk & Hkok & Hks). rewrite Hk. cbn [mbind option_bind].
  set (b := mkBits m (Z.land value m)). assert (bits_ok (bits ty) b) as Hb.
  { split; [done|]. subst b; cbn. bitwise. }
  destruct (negb (conflicts k b) && beyond (bmask b) (bmask k)); [|by apply learning_ret].
  eapply learning_weaken; [apply (record_spec t Hwf Hcon id ty (bits_union k b) f); [done|done|apply bits_union_ok; [lia|done..]|]| |done].
  - intros _ Hset. rewrite low_bit_known. cbn [bits_union bmask].
    rewrite Z.lor_spec, (proj1 (low_bit_known _) (known_bits_settled id ty f k (proj1 Hok) Hid Hk Hset)). done.
  - intros rho Hm' [Hs _] Hh. by apply says_union; [apply Hks|].
Qed.

(** ** Propagation *)

Lemma clear_active_learns P index f : facts_ok t f -> learns t P f (clear_active index f).
Proof.
  intros [[H1 H2 H3 H4 [Ha Hb Hc Hd]] Hcache]. split; [split; [split; try done|done]|by split|].
  - split; cbn [roots active clear_active set_constraints constraints]; [done| | |done].
    + apply Z.land_nonneg. by left.
    + intros i Hi. rewrite Z.land_spec in Hi. apply andb_true_iff in Hi as [Hi _]. by apply Hc.
  - intros rho Hm [[S1 S2 S3 S4] S5] _. split; [by split|done].
Qed.

(** The truth function of a predicate. *)
Definition bit_bool (op : BitwiseOp) (a b : bool) : bool :=
  match op with And => a && b | Or => a || b | Xor => xorb a b end.

Lemma bit_fn_low op a b : Z.testbit (bit_fn op a b) 0 = bit_bool op (Z.testbit a 0) (Z.testbit b 0).
Proof. destruct op; cbn [bit_fn bit_bool]; [apply Z.land_spec|apply Z.lor_spec|apply Z.lxor_spec]. Qed.

Lemma constraint_infer_spec op a b truth : constraint_infer op (bit_bool op a b) b = Some truth -> a = truth.
Proof. destruct op, a, b, truth; cbn; done. Qed.
Lemma bit_bool_comm op a b : bit_bool op a b = bit_bool op b a.
Proof. by destruct op, a, b. Qed.

Lemma root_inputs id r op x y : type_at t id = Some I1 -> expression_of t id = Some (Some r) ->
  er_expression r = EBinary (Bitwise op) x y ->
  exists tx ty, scalar_at_type t x tx /\ scalar_at_type t y ty /\
    forall rho, model t rho ->
      Z.testbit (val rho id) 0 = bit_bool op (Z.testbit (val rho x) 0) (Z.testbit (val rho y) 0).
Proof.
  intros Hty He Hr. pose proof Hty as Hty'. apply fmap_Some in Hty' as (v & Hv & E).
  destruct (expression_of_spec t Hwf Hcon id v Hv) as (r' & Hr' & Hat). rewrite He in Hr'. simplify_eq.
  specialize (Hat r eq_refl). rewrite <- E in Hat.
  destruct (bitwise_inputs t Hwf Hcon id I1 r (truth_bits true) no_facts) with (op := op) (x := x) (y := y)
    as (tx & ty & Hx & Hy & _ & _ & Hval); try done; try (by apply truth_bits_ok); try apply no_facts_ok.
  exists tx, ty. split_and!; [done..|]. intros rho Hm. by rewrite (Hval rho Hm), bit_fn_low.
Qed.

(** One operand learns its bit from the other's. *)
Lemma infer_operand P op truth i ti (own other : option bool) f : facts_ok t f -> scalar_at_type t i ti ->
  (forall v, own = None -> other ≫= constraint_infer op truth = Some v ->
    forall rho, model t rho -> P rho -> Z.testbit (val rho i) 0 = v) ->
  learning t P (match own, other ≫= constraint_infer op truth with
                | None, Some truth => assume t i truth f
                | _, _ => Some (tt, f)
                end) f (fun _ _ => True).
Proof.
  intros Hf Hi Hv. destruct own; [by apply learning_ret|].
  destruct (other ≫= constraint_infer op truth) as [v|] eqn:E; [|by apply learning_ret].
  eapply learning_weaken; [by apply (assume_spec i ti v f)| |done]. intros rho Hm _ HP. by apply (Hv v).
Qed.

Lemma constant_low i ti (o : option Z) rho v : (forall z, o = Some z -> is_scalar ti = true /\ constant_of i ti rho z) ->
  (fun v : Z => negb (Z.land v 1 =? 0)) <$> o = Some v -> Z.testbit (val rho i) 0 = v.
Proof.
  intros Ho (z & -> & ->)%fmap_Some. destruct (Ho z eq_refl) as [Hs Hc].
  by rewrite <- (constant_bit t Hwf Hcon i ti rho z Hs Hc), land_1_bit, negb_involutive.
Qed.

Lemma check_constraint_spec P index id f : facts_ok t f -> root_ok t (known f) id ->
  learning t P (check_constraint t index id f) f (fun _ _ => True).
Proof.
  intros Hok (b & r & op & x & y & Hb & Hm1 & Hty & He & Hr). apply learning_start. unfold check_constraint.
  rewrite He. cbn [mbind option_bind fmap option_fmap option_map]. rewrite Hr, Hb. cbn [mbind option_bind].
  destruct (root_inputs id r op x y Hty He Hr) as (tx & ty & Hx & Hy & Hval).
  set (P' := fun rho => sat t rho f /\ P rho). set (truth := negb (Z.land (bvalue b) 1 =? 0)).
  assert (forall rho, model t rho -> P' rho ->
    truth = bit_bool op (Z.testbit (val rho x) 0) (Z.testbit (val rho y) 0)) as Htruth.
  { intros rho Hm [[Hs _] _]. rewrite <- (Hval rho Hm). subst truth. pose proof (sat_known t rho f Hs id b Hb) as Hh.
    by rewrite (says_bit b (val rho id) Hh Hm1), negb_involutive. }
  eapply learning_bind; [apply (constant_spec t Hwf Hcon P' x tx); [done|apply Hx]|]. intros a g Hg [_ Ha]. cbn beta iota.
  eapply learning_bind; [apply (constant_spec t Hwf Hcon P' y ty); [apply Hg|apply Hy]|]. intros c h Hh [_ Hc]. cbn beta iota.
  set (bit := fun v : Z => negb (Z.land v 1 =? 0)).
  assert (forall va rho, model t rho -> P' rho -> bit <$> a = Some va -> Z.testbit (val rho x) 0 = va) as Hbx.
  { intros va rho Hm [Hs _]. apply (constant_low x tx). intros z E. destruct (Ha z E) as [? H]. split; [done|by apply H]. }
  assert (forall va rho, model t rho -> P' rho -> bit <$> c = Some va -> Z.testbit (val rho y) 0 = va) as Hby.
  { intros va rho Hm HP. apply (constant_low y ty). intros z E. destruct (Hc z E) as [? H]. split; [done|].
    apply H; [done|]. apply Hg; [done|apply HP|done]. }
  assert (forall g', learns t P' h g' -> learning t P'
    ('(_, f) ← match bit <$> a, (bit <$> c) ≫= constraint_infer op truth with
               | None, Some truth => assume t x truth g'
               | _, _ => Some (tt, g')
               end;
     match bit <$> c, (bit <$> a) ≫= constraint_infer op truth with
     | None, Some truth => assume t y truth f
     | _, _ => Some (tt, f)
     end) g' (fun _ _ => True)) as Hboth.
  { intros g' Hg'. eapply learning_bind; [apply (infer_operand P' op truth x tx); [apply Hg'|done|]|].
    - intros v _ (vc & Hvc & Hv)%bind_Some rho Hm HP. rewrite (Htruth rho Hm HP) in Hv.
      rewrite <- (Hby vc rho Hm HP Hvc) in Hv. by apply constraint_infer_spec in Hv.
    - intros [] k Hk _. cbn beta iota. apply (infer_operand P' op truth y ty); [apply Hk|done|].
      intros v _ (va & Hva & Hv)%bind_Some rho Hm HP. rewrite (Htruth rho Hm HP), bit_bool_comm in Hv.
      rewrite <- (Hbx va rho Hm HP Hva) in Hv. by apply constraint_infer_spec in Hv. }
  pose proof (clear_active_learns P' index h ltac:(apply Hh)) as Hclear.
  destruct (bit <$> a) as [va|] eqn:Ea, (bit <$> c) as [vc|] eqn:Ec;
    try (eapply learning_after; [exact Hclear|]; by apply Hboth). by apply learning_ret; [apply Hh|].
Qed.

(** The pending roots of a pass. *)
Definition pending_ok (f : ScalarFacts) (pending : Z) : Prop :=
  0 <= pending /\ forall i, Z.testbit pending i = true ->
    exists id, roots (constraints f) !! Z.to_nat i = Some id /\ root_ok t (known f) id.

Lemma pending_extends f g pending : extends t f g -> pending_ok f pending -> pending_ok g pending.
Proof.
  intros Hext [H0 Hp]. split; [done|]. intros i Hi. destruct (Hp i Hi) as (id & Hl & Hr). exists id. split.
  - by eapply prefix_lookup_Some, ext_roots.
  - by eapply root_extends.
Qed.

Lemma pending_next f pending : 0 < pending -> pending_ok f pending -> pending_ok f (Z.land pending (pending - 1)).
Proof.
  intros Hnz [H0 Hp]. split; [apply Z.land_nonneg; by left|]. intros i Hi. rewrite Z.land_spec in Hi.
  apply andb_true_iff in Hi as [Hi _]. by apply Hp.
Qed.

Lemma propagate_pass_spec P from n : forall pending f, facts_ok t f -> pending_ok f pending ->
  learning t P (propagate_pass t n from pending n f) f (fun rest g => pending_ok g rest.1 /\
    (rest.2 <= n)%nat /\ (pending = 0 -> rest = (0, n) /\ g = f) /\ (pending <> 0 -> (0 < n)%nat -> (rest.2 < n)%nat)).
Proof.
  induction n as [|n IH]; intros pending f Hok Hp; cbn [propagate_pass].
  { apply learning_ret; [done|]. cbn. split_and!; [done|lia|by intros ->|lia]. }
  destruct (Z.eqb_spec pending 0) as [->|Hnz]; cbn [orb Nat.eqb].
  { apply learning_ret; [done|]. by split_and!. }
  assert (0 < pending) as Hpos by (destruct Hp; lia).
  destruct (proj2 Hp _ (trailing_zeros_set 64 pending Hpos)) as (id & -> & Hroot). cbn [mbind option_bind pred].
  eapply (learning_bind t P _ _ _ (fun _ _ => True)).
  { destruct (id <? from)%nat; [by apply learning_ret|by apply check_constraint_spec]. }
  intros [] g Hg _. cbn beta iota.
  eapply learning_weaken; [apply (IH (Z.land pending (pending - 1)) g)|done|]; [apply Hg|by eapply pending_extends, pending_next; [apply Hg|..]|].
  intros rest h _ (H1 & H2 & _). split_and!; [done|lia|done|lia].
Qed.

Lemma revisit_learns P f from : facts_ok t f ->
  learns t P f (set_constraints (mkConstraints (roots (constraints f)) (active (constraints f)) from) f).
Proof.
  intros [[H1 H2 H3 H4 H5] Hcache]. split; [split; [split; try done|done]|by split|].
  - by apply (constraints_ok_fields t Hwf Hcon (known f) (constraints f)).
  - intros rho Hm [[S1 S2 S3 S4] S5] _. split; [by split|done].
Qed.

Lemma active_pending f : facts_ok t f -> pending_ok f (active (constraints f)).
Proof.
  intros [Hb _]. destruct (facts_constraints_ok t f Hb) as [Ha H0 Hi Hr]. by split.
Qed.

(** Every pass uses up a check, or leaves nothing to revisit. *)
Lemma propagate_loop_spec P fuel : forall remaining f, facts_ok t f -> (remaining + 2 <= fuel)%nat ->
  learning t P (propagate_loop t fuel remaining f) f (fun _ _ => True).
Proof.
  induction fuel as [|fuel IH]; intros remaining f Hok Hfuel; [lia|]. cbn [propagate_loop].
  destruct (revisit_from (constraints f)) as [from|]; [|by apply learning_ret].
  destruct (Nat.eqb_spec remaining 0); [by apply learning_ret|].
  set (f1 := set_constraints _ f). assert (learns t P f f1) as Hf1 by by apply revisit_learns.
  eapply learning_after; [exact Hf1|].
  eapply learning_bind; [apply (propagate_pass_spec P from remaining (active (constraints f)) f1); [apply Hf1|]|].
  { eapply pending_extends, active_pending; [apply Hf1|done]. }
  intros [pending rest] g Hg (_ & Hle & Hidle & Hless). cbn [fst snd] in *. cbn beta iota.
  destruct (decide (active (constraints f) = 0)) as [Ha|Ha].
  - destruct (Hidle Ha) as [[= -> ->] ->]. cbn [Z.eqb]. destruct fuel as [|fuel]; [lia|]. apply learning_ret; [apply Hf1|done].
  - specialize (Hless Ha ltac:(lia)). set (g1 := if pending =? 0 then g else _).
    assert (learns t P g g1) as Hg1.
    { subst g1. destruct (pending =? 0); [apply learns_refl, Hg|apply revisit_learns, Hg]. }
    eapply learning_after; [exact Hg1|]. apply IH; [apply Hg1|lia].
Qed.

Lemma propagate_constraints_spec P f : facts_ok t f -> learning t P (propagate_constraints t f) f (fun _ _ => True).
Proof. intros Hok. apply propagate_loop_spec; [done|unfold MAX_CONSTRAINT_CHECKS; lia]. Qed.

(** ** Observations *)

Definition assumption_ok (o : Assumption) : Prop :=
  match o with
  | Truth condition _ => exists ty, scalar_at_type t condition ty
  | KnownBits value m _ => exists ty, scalar_at_type t value ty /\ fits (bits ty) m
  end.

(** The observation is made on every valuation of the path. *)
Definition observed (rho : Valuation) (o : Assumption) : Prop :=
  match o with
  | Truth condition truth => Z.testbit (val rho condition) 0 = truth
  | KnownBits value m b => Z.land (val rho value) m = Z.land b m
  end.

Lemma observe_spec o f : facts_ok t f -> assumption_ok o ->
  learning t (fun rho => observed rho o) (observe t o f) f (fun _ _ => True).
Proof.
  intros Hok Ho. destruct o as [c truth|v m b].
  - destruct Ho as [ty Hc]. by apply (assume_spec c ty).
  - destruct Ho as (ty & Hv & Hm). by apply (assume_bits_spec v ty).
Qed.

Lemma observe_all_spec l : forall f, facts_ok t f -> Forall assumption_ok l ->
  learning t (fun rho => Forall (observed rho) l) (observe_all t l f) f (fun _ _ => True).
Proof.
  induction l as [|o l IH]; intros f Hok Hl; [by apply learning_ret|]. apply Forall_cons in Hl as [Ho Hl].
  cbn [observe_all]. unfold mbind at 1, FM_bind. eapply learning_bind.
  - eapply learning_weaken; [by apply (observe_spec o f)| |].
    + intros rho _ _ HF. by apply Forall_cons in HF as [? _].
    + intros a g _ HQ. exact HQ.
  - intros [] g Hg _. cbn beta iota. eapply learning_weaken; [apply (IH g); [apply Hg|done]| |done].
    intros rho _ _ HF. by apply Forall_cons in HF as [_ ?].
Qed.

Lemma with_assumptions_spec l f : facts_ok t f -> Forall assumption_ok l ->
  learning t (fun rho => Forall (observed rho) l) (with_assumptions t l f) f (fun _ _ => True).
Proof.
  intros Hok Hl. unfold with_assumptions. unfold mbind at 1, FM_bind. eapply learning_bind; [by apply observe_all_spec|].
  intros [] g Hg _. apply propagate_constraints_spec, Hg.
Qed.

End Path.
