(* ===== verification/FactsUse.v ===== *)
(** * What the passes ask of path facts

    Exclusion of two blocks, identities of bitwise operations and constants proved
    across the alternatives of selects (facts.rs, facts/selects.rs). *)

From S2P Require Import Prelude Bytes Types Floating Expr Evaluate Values Fold Model Carrier Bounds Table FoldBase Facts FactsInfer FactsBits FactsPath.
Local Open Scope Z_scope.

(** * Joins and exclusions of paths

    What two paths share (facts/merge.rs), what a join keeps of its incoming
    edges, and when the facts of two blocks cannot both hold. *)

(** ** Common bits *)

Lemma common_all_from w acc l z : 0 <= w <= 64 -> bits_ok w acc -> Forall (bits_ok w) l ->
  (says acc z \/ exists b, b ∈ l /\ says b z) -> bits_ok w (foldl common acc l) /\ says (foldl common acc l) z.
Proof.
  intros Hw. revert acc. induction l as [|b l IH]; intros acc Hacc Hl Hz; cbn [foldl].
  - split; [done|]. destruct Hz as [Hz|(b & Hb & _)]; [done|set_solver].
  - apply Forall_cons in Hl as [Hb Hl]. apply IH; [apply common_ok; [lia|done]|done|].
    destruct Hz as [Hz|(b' & [->|Hin]%elem_of_cons & Hz)]; [by left; apply says_common_l|left; apply (says_common_r w); [done|lia|done]|eauto].
Qed.

Lemma common_all_ok w l : 0 <= w <= 64 -> Forall (bits_ok w) l -> bits_ok w (common_all l).
Proof.
  intros Hw Hl. destruct l as [|b l]; [apply no_bits_ok; lia|]. apply Forall_cons in Hl as [Hb Hl]. cbn [common_all].
  revert b Hb. induction l as [|b' l IH]; intros b Hb; [done|]. apply Forall_cons in Hl as [Hb' Hl]. cbn [foldl].
  apply IH; [done|]. apply common_ok; [lia|done].
Qed.

Lemma common_all_says w l b z : 0 <= w <= 64 -> Forall (bits_ok w) l -> b ∈ l -> says b z -> says (common_all l) z.
Proof.
  intros Hw Hl Hin Hz. destruct l as [|b0 l]; [set_solver|]. apply Forall_cons in Hl as [Hb Hl]. cbn [common_all].
  apply (common_all_from w); [done..|]. apply elem_of_cons in Hin as [->|Hin]; eauto.
Qed.

Section Join.
#[local] Set Default Proof Using "All".
Context (t : ValueTable) (Hwf : wf t) (Hcon : constructed t).

(** ** [retain_common] *)

Lemma retain_bits_lookup `{Countable K} (other own : gmap K Bits) key b : retain_bits other own !! key = Some b ->
  exists b0, own !! key = Some b0 /\ b = common b0 (default no_bits (other !! key)) /\ bmask b <> 0.
Proof.
  unfold retain_bits. rewrite map_lookup_imap. intros (b0 & Hb0 & Hb)%bind_Some. exists b0. split; [done|].
  cbv beta zeta in Hb. destruct (Z.eqb_spec (bmask (common b0 (default no_bits (other !! key)))) 0); [done|]. by simplify_eq.
Qed.

(** The active mask lists the roots that are still known. *)
Definition known_mask (known : gmap nat Bits) (rs : list nat) (l : list nat) (mask : Z) : Z :=
  foldl (fun mask index =>
    match rs !! index with
    | Some id => if bool_decide (is_Some (known !! id)) then Z.lor mask (Z.shiftl 1 (Z.of_nat index)) else mask
    | None => mask
    end) mask l.

Lemma known_mask_spec known rs l : forall mask, 0 <= mask -> 0 <= known_mask known rs l mask /\
  forall i, 0 <= i -> Z.testbit (known_mask known rs l mask) i = true ->
    Z.testbit mask i = true \/ exists id, rs !! Z.to_nat i = Some id /\ is_Some (known !! id).
Proof.
  induction l as [|index l IH]; intros mask Hm; [by auto|]. cbn [known_mask foldl].
  destruct (rs !! index) as [id|] eqn:Hl; [|by apply IH].
  destruct (bool_decide_reflect (is_Some (known !! id))) as [Hk|]; [|by apply IH].
  destruct (IH (Z.lor mask (Z.shiftl 1 (Z.of_nat index)))) as [H0 Hi].
  { apply Z.lor_nonneg. split; [done|]. apply Z.shiftl_nonneg. lia. }
  split; [exact H0|]. intros i Hi0 Ht. destruct (Hi i Hi0 Ht) as [Hor|]; [|by right].
  destruct (testbit_mark t Hwf Hcon _ _ i Hi0 Hor) as [|E]; [by left|]. right. exists id. by rewrite E, Nat2Z.id.
Qed.

Lemma retain_known_ok known known' c : constraints_ok t known c ->
  (forall id b, known' !! id = Some b -> type_at t id = Some I1 -> Z.land (bmask b) 1 <> 0) ->
  constraints_ok t known' (retain_known known' c).
Proof.
  intros [H1 H2 H3 H4] Hbit. unfold retain_known. destruct (roots c) as [|r0 rs] eqn:Hroots.
  - split; [by rewrite Hroots|done| |by rewrite Hroots]. intros i Hi. destruct (H3 i Hi) as (id & Hl & _).
    done.
  - rewrite <- Hroots in *. destruct (known_mask_spec known' (roots c) (seq 0 (length (roots c))) 0) as [Ha Hi]; [done|].
    split; cbn [roots active]; [by rewrite Hroots in *|exact Ha| |by rewrite Hroots in *].
    intros i Ht. assert (0 <= i) as H0 by (destruct (Z.leb_spec 0 i); [done|by rewrite Z.testbit_neg_r in Ht]).
    destruct (Hi i H0 Ht) as [Hz|(id & Hl & b & Hb)]; [by rewrite Z.testbit_0_l in Hz|].
    exists id. split; [done|]. destruct (H4 _ id Hl) as (r & op & x & y & Hty & He & Hr).
    exists b, r, op, x, y. split_and!; try done. by apply (Hbit id).
Qed.

(** The facts without what was inferred. *)
Lemma clone_ok f : facts_ok t f -> facts_ok t (facts_clone f).
Proof. intros [[H1 H2 H3 H4 H5] _]. split; [by split|done]. Qed.
Lemma clone_sat rho f : sat t rho f -> sat t rho (facts_clone f).
Proof. intros [[H1 H2 H3 H4] _]. split; [by split|done]. Qed.

Lemma default_known_ok f id ty : base_ok t f -> scalar_at_type t id ty -> bits_ok (bits ty) (default no_bits (known f !! id)).
Proof.
  intros Hok [Hty Hs]. pose proof (scalar_bits ty Hs). destruct (known f !! id) as [b|] eqn:Hb; cbn; [|apply no_bits_ok; lia].
  destruct (known_ok t f Hok id b Hb) as (ty' & [Hty' _] & Hb'). by simplify_eq.
Qed.

Definition shared_lanes (own other : option (gmap VectorWord Bits)) : option (gmap VectorWord Bits) :=
  match own, other with
  | Some own, Some other => let words := retain_bits other own in if bool_decide (words = ∅) then None else Some words
  | _, _ => None
  end.

Lemma shared_lanes_lookup own other words w b : shared_lanes own other = Some words -> words !! w = Some b ->
  exists mo mo' b0, own = Some mo /\ other = Some mo' /\ mo !! w = Some b0 /\ b = common b0 (default no_bits (mo' !! w)).
Proof.
  unfold shared_lanes. destruct own as [mo|], other as [mo'|]; try done. cbv zeta.
  destruct (bool_decide (retain_bits mo' mo = ∅)); [done|]. intros [= <-] Hb.
  destruct (retain_bits_lookup mo' mo w b Hb) as (b0 & H0 & -> & _). by exists mo, mo', b0.
Qed.

Lemma retain_common_ok other f : facts_ok t f -> facts_ok t other -> facts_ok t (retain_common other f).
Proof.
  intros [[H1 H2 H3 H4 H5] _] [Ho _]. split; [|done].
  assert (forall id b, retain_bits (known other) (known f) !! id = Some b ->
    exists ty, scalar_at_type t id ty /\ bits_ok (bits ty) b /\ bmask b <> 0) as Hknown.
  { intros id b (b0 & Hb0 & -> & Hnz)%retain_bits_lookup. destruct (H1 id b0 Hb0) as (ty & Hid & Hok).
    exists ty. split_and!; [done| |done]. apply common_ok; [|done]. pose proof (scalar_bits ty (proj2 Hid)). lia. }
  split; cbn [retain_common known lanes ranges comparisons constraints].
  - intros id b Hb. destruct (Hknown id b Hb) as (ty & ? & ? & _). by exists ty.
  - intros words w b Hw Hb. destruct (shared_lanes_lookup (lanes f) (lanes other) words w b Hw Hb) as (mo & mo' & b0 & Hm & _ & Hb0 & ->).
    destruct (H2 mo w b0 Hm Hb0) as [? ?]. split; [done|]. by apply common_ok.
  - intros id r Hr. unfold retain_ranges in Hr. rewrite map_lookup_imap in Hr.
    apply bind_Some in Hr as (r0 & Hr0 & (o & Ho' & ->)%fmap_Some). pose proof (H3 id r0 Hr0).
    pose proof (ranges_ok t other Ho id o Ho'). cbn [minimum maximum]. lia.
  - intros key truth Hk. unfold retain_outcomes in Hk. rewrite map_lookup_imap in Hk.
    apply bind_Some in Hk as (t0 & Ht0 & Hk). by eapply H4.
  - apply (retain_known_ok (known f)); [done|]. intros id b Hb Hty.
    destruct (Hknown id b Hb) as (ty & [Hty' _] & Hok & Hnz). simplify_eq. by apply (predicate_mask t Hwf Hcon).
Qed.

(** What either path satisfies, the shared facts satisfy. *)
Lemma retain_common_sat other f rho : facts_ok t f -> facts_ok t other -> sat t rho f \/ sat t rho other ->
  sat t rho (retain_common other f).
Proof.
  intros [Hf _] [Ho _] Hs. assert (base_sat t rho f \/ base_sat t rho other) as Hb by (destruct Hs as [[? _]|[? _]]; auto).
  clear Hs. split; [|done]. split; cbn [retain_common known lanes ranges comparisons].
  - intros id b (b0 & Hb0 & -> & _)%retain_bits_lookup. destruct (known_ok t f Hf id b0 Hb0) as (ty & Hid & Hok).
    pose proof (scalar_bits ty (proj2 Hid)). destruct Hb as [Hs|Hs].
    + apply says_common_l. by apply (sat_known t rho f Hs).
    + apply (says_common_r (bits ty)); [done|lia|]. destruct (known other !! id) as [b|] eqn:E; [|apply says_nothing].
      by apply (sat_known t rho other Hs).
  - intros words w b Hw Hl. destruct (shared_lanes_lookup (lanes f) (lanes other) words w b Hw Hl) as (mo & mo' & b0 & Hm & Hm' & Hb0 & ->).
    destruct Hb as [Hs|Hs]; [apply says_common_l; by eapply (sat_lanes t rho f Hs)|].
    apply (says_common_r 64); [by eapply (lanes_ok t f Hf)|done|]. destruct (mo' !! w) as [b|] eqn:E; [|apply says_nothing].
    by eapply (sat_lanes t rho other Hs).
  - intros id r Hr. unfold retain_ranges in Hr. rewrite map_lookup_imap in Hr.
    apply bind_Some in Hr as (r0 & Hr0 & (o & Ho' & ->)%fmap_Some). cbn [minimum maximum].
    destruct Hb as [Hs|Hs]; [pose proof (sat_ranges t rho f Hs id r0 Hr0)|pose proof (sat_ranges t rho other Hs id o Ho')]; lia.
  - intros key truth Hk. unfold retain_outcomes in Hk. rewrite map_lookup_imap in Hk.
    apply bind_Some in Hk as (t0 & Ht0 & Hk). cbn in Hk. case_bool_decide as E; [|done]. simplify_eq.
    destruct Hb as [Hs|Hs]; [by apply (sat_comparisons t rho f Hs)|by apply (sat_comparisons t rho other Hs)].
Qed.

(** ** Parameters *)

(** A parameter takes the logical value of an edge's argument. *)
Definition agrees (rho : Valuation) (p a : nat) : Prop :=
  match type_at t p with
  | Some tp => if is_scalar tp then wrap (bits tp) (val rho p) = wrap (bits tp) (val rho a) else wrap (bits tp) (vec rho p) = wrap (bits tp) (vec rho a)
  | None => False
  end.

Definition argument_ok (p a : nat) : Prop :=
  exists tp ta, type_at t p = Some tp /\ type_at t a = Some ta /\ is_scalar ta = is_scalar tp.

(** The arguments of one parameter, one for each edge; a valuation takes one of them. *)
Record merges (P : Valuation -> Prop) (p : nat) (l : list (ScalarFacts * nat)) : Prop := {
  merges_ok : forall g a, (g, a) ∈ l -> facts_ok t g /\ argument_ok p a;
  merges_takes : forall rho, model t rho -> P rho -> exists g a, (g, a) ∈ l /\ sat t rho g /\ agrees rho p a;
}.

(** A total map over the arguments. *)
Lemma mapM_arguments {B} (F : ScalarFacts * nat -> option B) (R : ScalarFacts * nat -> B -> Prop) l :
  (forall q, q ∈ l -> exists b, F q = Some b /\ R q b) ->
  exists bs, mapM F l = Some bs /\ Forall2 R l bs.
Proof.
  intros H. induction l as [|q l IH]; [by exists []|].
  destruct (H q) as (b & Hb & HR); [left|]. destruct IH as (bs & Hbs & HF); [intros q' Hq'; apply H; by right|].
  exists (b :: bs). cbn. rewrite Hb. cbn. rewrite Hbs. split; [done|by constructor].
Qed.

Lemma Forall2_elem_l {A B} (R : A -> B -> Prop) l k x : Forall2 R l k -> x ∈ l -> exists y, y ∈ k /\ R x y.
Proof.
  induction 1 as [|a b l k HR HF IH]; [by intros ?%not_elem_of_nil|].
  intros [->|Hx]%elem_of_cons; [exists b; split; [left|done]|]. destruct (IH Hx) as (y & ? & ?). exists y. split; [by right|done].
Qed.
Lemma Forall2_elem_r {A B} (R : A -> B -> Prop) l k y : Forall2 R l k -> y ∈ k -> exists x, x ∈ l /\ R x y.
Proof. intros HF Hy. apply (Forall2_elem_l (flip R) k l y); [by apply Forall2_flip|done]. Qed.

Lemma common_all_each (l : list (ScalarFacts * nat)) bs (R : ScalarFacts * nat -> Bits -> Prop) :
  Forall2 R l bs -> (forall q b, R q b -> bits_ok 64 b) ->
  bits_ok 64 (common_all bs) /\ forall q z, q ∈ l -> (forall b, R q b -> says b z) -> says (common_all bs) z.
Proof.
  intros HF Hok. assert (Forall (bits_ok 64) bs) as Hall.
  { apply Forall_forall. intros b Hb. destruct (Forall2_elem_r R l bs b HF Hb) as (q & _ & HR). by eapply Hok. }
  split; [by apply common_all_ok|]. intros q z Hq Hs.
  destruct (Forall2_elem_l R l bs q HF Hq) as (b & Hb & HR). by apply (common_all_says 64 bs b); [|done|done|apply Hs].
Qed.

Lemma merge_scalar_spec P p tp l f : facts_ok t f -> type_at t p = Some tp -> is_scalar tp = true -> merges P p l ->
  learning t P (merge_parameter t p l f) f (fun _ _ => True).
Proof.
  intros Hf Hp Hs [Hok Htakes]. unfold merge_parameter. rewrite Hp. cbn [mbind option_bind]. rewrite Hs. cbn [negb].
  unfold argument_bits.
  destruct (mapM_arguments (fun '(f, argument) => fst <$> bits_of t argument f)
    (fun q b => bits_ok 64 b /\ forall rho, model t rho -> sat t rho q.1 -> holds rho q.2 b) l) as (bs & -> & HF).
  { intros [g a] Hin. destruct (Hok g a Hin) as (Hg & tp' & ta & _ & Ha & _).
    destruct (bits_of_spec t g a ta Hwf Hcon Hg Ha) as (b & g' & Hb & _ & Hb').
    exists b. rewrite Hb. split_and!; [done|apply Hb'|apply Hb']. }
  cbn [mbind option_bind]. pose proof (scalar_bits tp Hs) as Hw. assert (scalar_at_type t p tp) as Hpt by done.
  destruct (common_all_each l bs _ HF) as [Hc Hs']; [by intros q b [? _]|].
  rewrite (mask_ones tp Hs). set (b := restrict (common_all bs) (Z.ones (bits tp))).
  destruct (Z.eqb_spec (bmask b) 0) as [|_]; [by apply learning_ret|].
  assert (bits_ok (bits tp) b) as Hb by (apply (restrict_ok 64); [lia|done|apply fits_ones; lia]).
  eapply learning_weaken; [apply (assume_bits_spec t Hwf Hcon p tp (bmask b) (bvalue b)); [done|done|apply Hb]| |done].
  intros rho Hm _ HP. destruct (Htakes rho Hm HP) as (g & a & Hin & Hg & Hag). unfold agrees in Hag. rewrite Hp, Hs in Hag.
  assert (says (common_all bs) (val rho a)) as Hsays.
  { apply (Hs' (g, a)); [done|]. intros b' [_ Hh]. by apply Hh. }
  unfold holds. rewrite (ok_value _ _ Hb). replace (mkBits (bmask b) (bvalue b)) with b by (by destruct b).
  apply (says_low (bits tp) _ (val rho a)); [lia|done|done|by apply says_restrict].
Qed.

(** A 64-bit half within the type. *)
Definition half_of (tp : Ty) (h : Z) : Prop := (h = 0 \/ h = 1) /\ h * 64 + 64 <= bits tp.

Lemma half_agrees w h x y : 0 <= h * 64 /\ h * 64 + 64 <= w -> wrap w x = wrap w y ->
  wrap 64 (Z.shiftr x (h * 64)) = wrap 64 (Z.shiftr y (h * 64)).
Proof. intros [H0 Hw] E. rewrite <- (wrap_shiftr 64 w x), <- (wrap_shiftr 64 w y), E by lia. done. Qed.

Lemma merge_word_spec P p tp h l f : facts_ok t f -> type_at t p = Some tp -> is_vector tp = true -> half_of tp h ->
  merges P p l -> learning t P (merge_word t p h l f) f (fun _ _ => True).
Proof.
  intros Hf Hp Hv [Hh Hw] [Hok Htakes]. unfold merge_word, argument_words.
  assert (forall rho w a, model t rho -> agrees rho p a -> word_of rho w = wrap 64 (Z.shiftr (vec rho a) (h * 64)) ->
    word_of rho w = wrap 64 (Z.shiftr (vec rho p) (h * 64))) as Hag.
  { intros rho w a Hm Ha ->. unfold agrees in Ha. rewrite Hp in Ha. unfold is_vector in Hv.
    destruct (is_scalar tp); [done|]. apply (half_agrees (bits tp)); [lia|done]. }
  destruct (mapM_arguments (fun '(f, argument) => w ← word_new t argument h; word_bits t w (lanes f))
    (fun q b => bits_ok 64 b /\ forall rho, model t rho -> sat t rho q.1 -> agrees rho p q.2 ->
      says b (wrap 64 (Z.shiftr (vec rho p) (h * 64)))) l) as (bs & -> & HF).
  { intros [g a] Hin. destruct (Hok g a Hin) as (Hg & tp' & ta & Hp' & Ha & Hst). simplify_eq. cbn [fst snd].
    assert (is_vector ta = true) as Hva by (unfold is_vector in *; by rewrite Hst).
    destruct (word_new_spec t Hwf a ta h Ha Hva Hh) as (w & -> & _ & Hwo & Hwv). cbn [mbind option_bind].
    destruct (word_bits_spec t Hwf w (lanes g) Hwo) as (b & Hb & Hbok & Hsays).
    { intros m Hl k b Hk. by eapply (lanes_ok t g (proj1 Hg)). }
    exists b. split_and!; [done|done|]. intros rho Hm [Hs _] Ha'. rewrite <- (Hag rho w a Hm Ha' (Hwv rho Hm)).
    apply Hsays; [done|]. intros m k b' Hl Hk. by eapply (sat_lanes t rho g Hs). }
  cbn [mbind option_bind]. destruct (common_all_each l bs _ HF) as [Hc Hs']; [by intros q b [? _]|].
  destruct (Z.eqb_spec (bmask (common_all bs)) 0) as [|_]; [by apply learning_ret|].
  destruct (word_new_spec t Hwf p tp h Hp Hv Hh) as (w & -> & _ & Hwo & Hwv). cbn [mbind option_bind].
  apply learning_from; [|done]. apply lane_record_learns; try done. intros rho Hm Hs HP.
  destruct (Htakes rho Hm HP) as (g & a & Hin & Hg & Ha). rewrite (Hwv rho Hm).
  apply (Hs' (g, a)); [done|]. intros b [_ Hh']. by apply Hh'.
Qed.

Lemma merge_words_spec P p tp l halves : forall f, facts_ok t f -> type_at t p = Some tp -> is_vector tp = true ->
  Forall (half_of tp) halves -> merges P p l ->
  learning t P (merge_words t p halves l f) f (fun _ _ => True).
Proof.
  induction halves as [|h halves IH]; intros f Hf Hp Hv Hh Hmg; [by apply learning_ret|].
  apply Forall_cons in Hh as [Hh Hhs]. cbn [merge_words]. unfold mbind at 1, FM_bind.
  eapply learning_bind; [by apply (merge_word_spec P p tp h)|]. intros recorded g Hg _. cbn beta iota.
  unfold mbind at 1, FM_bind. eapply learning_bind; [apply (IH g); try done; apply Hg|].
  intros more k Hk _. cbn beta iota. apply learning_ret; [apply Hk|done].
Qed.

Lemma merge_parameter_spec P p tp l f : facts_ok t f -> type_at t p = Some tp -> merges P p l ->
  learning t P (merge_parameter t p l f) f (fun _ _ => True).
Proof.
  intros Hf Hp Hmg. destruct (is_scalar tp) eqn:Hs; [by apply (merge_scalar_spec P p tp)|].
  assert (is_vector tp = true) as Hv by (unfold is_vector; by rewrite Hs).
  unfold merge_parameter. rewrite Hp. cbn [mbind option_bind]. rewrite Hs. cbn [negb].
  eapply learning_bind; [apply (merge_words_spec P p tp l); try done|].
  - clear - Hv. destruct tp; try done; cbn; repeat (constructor; [by split; auto|]); constructor.
  - intros recorded g Hg _. cbn beta iota. apply learning_from; [|done].
    destruct recorded; [by apply changed_learns, Hg|apply learns_refl, Hg].
Qed.

(** ** [join] *)

(** One edge: its facts, and the parameters agree with its arguments. *)
Definition enters (rho : Valuation) (parameters : list nat) (edge : ScalarFacts * list nat) : Prop :=
  sat t rho edge.1 /\ Forall2 (agrees rho) parameters edge.2.

Definition edge_ok (parameters : list nat) (edge : ScalarFacts * list nat) : Prop :=
  facts_ok t edge.1 /\ Forall2 argument_ok parameters edge.2.

Lemma component_arguments_spec P component parameters incoming p : parameters !! component = Some p ->
  Forall (edge_ok parameters) incoming ->
  (forall rho, model t rho -> P rho -> exists edge, edge ∈ incoming /\ enters rho parameters edge) ->
  exists l, component_arguments incoming component = Some l /\ merges P p l.
Proof.
  intros Hp Hall HP. rewrite Forall_forall in Hall. unfold component_arguments.
  assert (exists l, mapM (fun '(f, arguments) => argument ← arguments !! component; Some (f, argument)) incoming = Some l /\
    Forall2 (fun edge q => q.1 = edge.1 /\ edge.2 !! component = Some q.2) incoming l) as (l & -> & HF).
  { clear HP. induction incoming as [|[g args] incoming IH]; [by exists []|].
    destruct (Hall (g, args)) as [_ Hargs]; [left|]. cbn [fst snd] in *.
    destruct (Forall2_lookup_l _ _ _ _ _ Hargs Hp) as (a & Ha & _).
    destruct IH as (l & Hl & HF); [intros e He; apply Hall; by right|].
    exists ((g, a) :: l). cbn. rewrite Ha. cbn. rewrite Hl. split; [done|by constructor]. }
  exists l. split; [done|]. split.
  - intros g a Hin. destruct (Forall2_elem_r _ _ _ _ HF Hin) as ([g' args] & He & Hg & Ha). cbn [fst snd] in *. subst g'.
    destruct (Hall _ He) as [Hg Hargs]. cbn [fst snd] in *. split; [done|].
    destruct (Forall2_lookup_l _ _ _ _ _ Hargs Hp) as (a' & Ha' & Hok). by simplify_eq.
  - intros rho Hm Hrho. destruct (HP rho Hm Hrho) as (edge & He & Hs & Hag).
    destruct (Forall2_elem_l _ _ _ _ HF He) as ([g a] & Hin & Hg & Ha). cbn [fst snd] in *. subst g.
    exists edge.1, a. split_and!; [done|done|].
    destruct (Forall2_lookup_l _ _ _ _ _ Hag Hp) as (a' & Ha' & Hok). by simplify_eq.
Qed.

Lemma merge_parameters_spec P all incoming rest : forall component f, drop component all = rest -> facts_ok t f ->
  Forall (edge_ok all) incoming -> Forall (fun p => is_Some (type_at t p)) all ->
  (forall rho, model t rho -> P rho -> exists edge, edge ∈ incoming /\ enters rho all edge) ->
  learning t P (merge_parameters t rest component incoming f) f (fun _ _ => True).
Proof.
  induction rest as [|p rest IH]; intros component f Hd Hf Hall Hty HP; [by apply learning_ret|].
  assert (all !! component = Some p) as Hp by (by rewrite <- (Nat.add_0_r component), <- lookup_drop, Hd).
  cbn [merge_parameters]. destruct (component_arguments_spec P component all incoming p Hp Hall HP) as (l & -> & Hmg).
  cbn [mbind option_bind]. rewrite Forall_forall in Hty. destruct (Hty p) as [tp Htp]; [by eapply list_elem_of_lookup_2|].
  eapply learning_bind; [by apply (merge_parameter_spec P p tp)|]. intros [] g Hg _. cbn beta iota.
  apply IH; [|apply Hg|done|by rewrite Forall_forall|done].
  replace (S component) with (component + 1)%nat by lia. by rewrite <- drop_drop, Hd.
Qed.

Lemma retain_all rest : forall f, facts_ok t f -> Forall (fun e : ScalarFacts * list nat => facts_ok t e.1) rest ->
  facts_ok t (foldl (fun joined '(g, _) => retain_common g joined) f rest) /\
  forall rho, sat t rho f \/ (exists e, e ∈ rest /\ sat t rho e.1) ->
    sat t rho (foldl (fun joined '(g, _) => retain_common g joined) f rest).
Proof.
  induction rest as [|[g args] rest IH]; intros f Hf Hall; cbn [foldl].
  - split; [done|]. intros rho [H|(e & He & _)]; [done|by apply not_elem_of_nil in He].
  - apply Forall_cons in Hall as [Hg Hall]. cbn [fst] in Hg.
    destruct (IH (retain_common g f)) as [H1 H2]; [by apply retain_common_ok|done|]. split; [done|].
    intros rho Hs. apply H2. destruct Hs as [Hs|(e & [->|He]%elem_of_cons & Hs)].
    + left. apply retain_common_sat; auto.
    + left. apply retain_common_sat; auto.
    + right. by exists e.
Qed.

Lemma join_spec parameters incoming : Forall (fun p => is_Some (type_at t p)) parameters ->
  Forall (edge_ok parameters) incoming ->
  exists f, join t parameters incoming = Some f /\ facts_ok t f /\
    forall rho, model t rho -> (exists edge, edge ∈ incoming /\ enters rho parameters edge) -> sat t rho f.
Proof.
  intros Hty Hall. destruct incoming as [|[first args] rest].
  { exists no_facts. split_and!; [done|apply no_facts_ok|]. intros rho _ _. apply no_facts_sat. }
  cbn [join]. assert (Forall (fun e => facts_ok t e.1) ((first, args) :: rest)) as Hoks
    by (eapply Forall_impl; [exact Hall|]; by intros e [? _]).
  apply Forall_cons in Hoks as [Hfirst Hrest]. cbn [fst] in Hfirst.
  destruct (retain_all rest (facts_clone first)) as [Hk Hks]; [by apply clone_ok|done|].
  set (joined := foldl _ _ rest) in *. set (P := fun rho => exists edge, edge ∈ (first, args) :: rest /\ enters rho parameters edge).
  destruct (merge_parameters_spec P parameters ((first, args) :: rest) parameters 0 joined) as ([] & g & -> & Hg & _); try done.
  cbn [mbind option_bind]. destruct (propagate_constraints_spec t Hwf Hcon P g) as ([] & h & -> & Hh & _); [apply Hg|].
  cbn [mbind option_bind]. exists h. split_and!; [done|apply Hh|]. intros rho Hm HP.
  apply Hh; [done| |done]. apply Hg; [done| |done]. apply Hks.
  destruct HP as (edge & [->|He]%elem_of_cons & Hs & _); [left; by apply clone_sat|right; by exists edge].
Qed.

End Join.

Section Use.
#[local] Set Default Proof Using "All".
Context (t : ValueTable) (Hwf : wf t) (Hcon : constructed t).

(** ** Exclusion *)

Lemma any_conflict_spec P a entries : base_ok t a -> (forall id b, (id, b) ∈ entries -> known a !! id = Some b) ->
  forall f, facts_ok t f -> learning t P (any_conflict t entries f) f (fun found g => inferred t f g /\
    (found = true -> forall rho, model t rho -> base_sat t rho a -> sat t rho f -> False)).
Proof.
  intros Ha. induction entries as [|[id b] entries IH]; intros Hin f Hf; cbn [any_conflict].
  { apply learning_ret; [done|]. split; [by apply inferred_refl|done]. }
  assert (known a !! id = Some b) as Hb by (apply Hin; left).
  destruct (known_ok t a Ha id b Hb) as (ty & [Hty _] & _).
  unfold mbind at 1, FM_bind. eapply learning_bind; [by apply (bits_of_learning t Hwf Hcon P id ty)|].
  intros other g Hg [Hi Hother]. cbn beta iota. destruct (conflicts b other) eqn:Hc.
  - apply learning_ret; [apply Hg|]. split; [done|]. intros _ rho Hm Hs Hf'.
    assert (holds rho id other) as Ho by by apply Hother.
    by rewrite (says_conflict b other (val rho id)) in Hc by (done || by apply (sat_known t rho a Hs)).
  - eapply learning_weaken; [apply IH; [intros id' b' H; apply Hin; by right|apply Hg]|done|].
    intros found k _ [Hik Hfound]. split; [by eapply inferred_trans|]. intros E rho Hm Hs Hf'.
    eapply Hfound; try done. by apply Hi.
Qed.

Lemma lanes_conflict_spec words lb : (forall w b, words !! w = Some b -> word_ok t w /\ bits_ok 64 b) ->
  (forall m, lb = Some m -> forall w b, m !! w = Some b -> word_ok t w /\ bits_ok 64 b) ->
  exists found, lanes_conflict t words lb = Some found /\
    (found = true -> forall rho, model t rho -> (forall w b, words !! w = Some b -> says b (word_of rho w)) ->
      (forall m w b, lb = Some m -> m !! w = Some b -> says b (word_of rho w)) -> False).
Proof.
  intros Hw Hlb. unfold lanes_conflict.
  assert (exists rs, mapM (fun '(w, b) => other ← word_bits t w lb; Some (conflicts b other)) (map_to_list words) = Some rs /\
    (existsb id rs = true -> forall rho, model t rho -> (forall w b, words !! w = Some b -> says b (word_of rho w)) ->
      (forall m w b, lb = Some m -> m !! w = Some b -> says b (word_of rho w)) -> False)) as (rs & -> & Hrs).
  { assert (forall w b, (w, b) ∈ map_to_list words -> words !! w = Some b) as Hin by (intros w b; apply elem_of_map_to_list).
    revert Hin. generalize (map_to_list words). induction l as [|[w b] l IH]; intros Hin; [by exists []|].
    assert (words !! w = Some b) as Hb by (apply Hin; left).
    destruct (word_bits_spec t Hwf w lb) as (other & Ho & _ & Hsays); [by eapply Hw|intros m b' Hm k Hk; by eapply Hlb|].
    destruct IH as (rs & Hl & Hrs); [intros w' b' H; apply Hin; by right|].
    exists (conflicts b other :: rs). cbn. rewrite Ho. cbn. rewrite Hl. split; [done|].
    intros H rho Hm Hs1 Hs2. apply orb_true_iff in H as [H|H]; [|by eapply Hrs].
    assert (says other (word_of rho w)) as Hso by by apply Hsays.
    change (conflicts b other = true) in H. pose proof (says_conflict b other (word_of rho w) (Hs1 w b Hb) Hso). congruence. }
  eexists. split; [done|exact Hrs].
Qed.

(** Facts that conflict hold of no common valuation. *)
Lemma conflicts_with_spec a b entries : facts_ok t a -> facts_ok t b ->
  (forall id bits, (id, bits) ∈ entries -> known a !! id = Some bits) ->
  exists found b', conflicts_with t entries a b = Some (found, b') /\ inferred t b b' /\
    (found = true -> forall rho, model t rho -> sat t rho a -> sat t rho b -> False).
Proof.
  intros [Ha _] Hb Hin. unfold conflicts_with.
  destruct (any_conflict_spec (fun _ => True) a entries Ha Hin b Hb) as (found & g & -> & Hg & Hi & Hfound).
  cbn [mbind option_bind]. destruct found.
  - exists true, g. split_and!; [done|done|]. intros _ rho Hm [Hs _] Hs'. by eapply Hfound.
  - assert (lanes g = lanes b) as Hl by (rewrite (inf_base _ _ _ Hi); by destruct b).
    destruct (lanes a) as [words|] eqn:Hla; [|exists false, g; by split_and!].
    destruct (lanes_conflict_spec words (lanes g)) as (found & -> & Hconf).
    + intros w bb Hw. by eapply (lanes_ok t a Ha).
    + intros m Hm w bb Hw. eapply (lanes_ok t b (proj1 Hb)); [|done]. by rewrite <- Hl.
    + cbn [mbind option_bind]. exists found, g. split_and!; [done|done|]. intros E rho Hm [Hs _] [Hs' _].
      apply (Hconf E rho Hm); [intros w bb; by apply (sat_lanes t rho a Hs)|]. intros m w bb Hlm. apply (sat_lanes t rho b Hs').
      by rewrite <- Hl.
Qed.

(** ** Identities *)

(** Bits known to be zero: recorded, or above the unsigned width. *)
Definition zero_bits (m : Z) (b : Bits) (bb : BitBounds) : Z :=
  Z.lor (Z.land (bmask b) (bnot 64 (bvalue b))) (Z.land m (bnot 64 (low_mask (unsigned bb)))).

Lemma zero_bits_zero id ty b bb rho i : model t rho -> scalar_at_type t id ty -> bounds t !! id = Some bb ->
  bits_ok 64 b -> holds rho id b -> 0 <= i -> forall m, Z.testbit (zero_bits m b bb) i = true -> Z.testbit (val rho id) i = false.
Proof.
  intros Hm [Hty Hs] Hbb Hb Hh Hi m. unfold zero_bits.
  pose proof (scalar_unsigned t Hwf Hcon id ty bb Hty Hs Hbb) as Hu. assert (cbits ty <= 64) by (destruct (cbits_scalar ty Hs); lia).
  rewrite Z.lor_spec, !Z.land_spec, !testbit_bnot, low_mask_ones, testbit_ones, (says_testbit b _ i Hh) by lia.
  destruct (Z.ltb_spec i 64) as [Hlt|Hge].
  - intros [H1|H1]%orb_true_iff; [by destruct (Z.testbit (val rho id) i), (Z.testbit (bmask b) i)|].
    apply (fits_testbit (unsigned bb)); [by eapply unsigned_val|].
    destruct (Z.leb_spec 0 i); [|lia]. destruct (Z.ltb_spec i (unsigned bb)); [|lia].
    cbn in H1. by rewrite andb_false_r in H1.
  - intros _. apply (fits_testbit (cbits ty)); [by eapply val_fits|lia].
Qed.

Lemma covers m x y i : Z.land (Z.land m (bnot 64 x)) (bnot 64 y) = 0 -> 0 <= i < 64 -> Z.testbit m i = true ->
  Z.testbit x i = true \/ Z.testbit y i = true.
Proof.
  intros H Hi Hmi. assert (Z.testbit (Z.land (Z.land m (bnot 64 x)) (bnot 64 y)) i = false) as E by by rewrite H, Z.testbit_0_l.
  rewrite !Z.land_spec, !testbit_bnot, Hmi in E by lia. destruct (Z.ltb_spec i 64); [|lia].
  destruct (Z.testbit x i), (Z.testbit y i); cbn in E; auto. 
Qed.

Lemma carrier_ext ty x y : is_scalar ty = true -> fits (cbits ty) x -> fits (cbits ty) y ->
  (forall i, 0 <= i < 64 -> Z.testbit (mask (carrier ty)) i = true -> Z.testbit x i = Z.testbit y i) -> x = y.
Proof.
  intros Hs Hx Hy H. apply Z.bits_inj'. intros i Hi. assert (cbits ty <= 64) by (destruct (cbits_scalar ty Hs); lia).
  destruct (Z.ltb_spec i (cbits ty)) as [Hlt|Hge]; [|by rewrite (fits_testbit _ x i Hx), (fits_testbit _ y i Hy) by lia].
  apply H; [lia|]. rewrite (mask_ones (carrier ty)) by (by rewrite carrier_scalar). rewrite testbit_ones by lia.
  destruct (Z.leb_spec 0 i), (Z.ltb_spec i (bits (carrier ty))); try done; lia.
Qed.

(** The operand of an [And] whose other operand is all ones where it is not zero,
    or of an [Or] whose other operand is zero where it is not all ones. *)
Lemma or_absorbs a b i : (Z.testbit b i = false \/ Z.testbit a i = true) -> Z.testbit (Z.lor a b) i = Z.testbit a i.
Proof. rewrite Z.lor_spec. intros [-> | ->]; btauto. Qed.
Lemma and_absorbs a b i : (Z.testbit b i = true \/ Z.testbit a i = false) -> Z.testbit (Z.land a b) i = Z.testbit a i.
Proof. rewrite Z.land_spec. intros [-> | ->]; btauto. Qed.

Lemma bitwise_operands id ty r op x y : scalar_at_type t id ty -> expression_at t id ty r ->
  er_expression r = EBinary (Bitwise op) x y -> exists tx ty', scalar_at_type t x tx /\ scalar_at_type t y ty' /\
    (x < id)%nat /\ (y < id)%nat /\ carrier tx = carrier ty /\ carrier ty' = carrier ty /\
    forall rho, model t rho -> val rho id = bit_fn op (val rho x) (val rho y).
Proof.
  intros Hid [Ht Hin Hval _ _ _] He. rewrite He in Ht, Hin. pose proof (proj2 Hid) as Hs.
  apply typed_binary in Ht as (tx & ty' & Hx & Hy & Ht). cbn [binary_typed] in Ht. btyping.
  apply Forall_cons in Hin as [Hlx [Hly _]%Forall_cons]. exists tx, ty'.
  split_and!; try done; try (split; [done|by eapply (carrier_is_scalar t Hwf Hcon)]).
  intros rho Hm. unfold val at 1.
  by rewrite (Hval rho _ Hm ltac:(rewrite He; exact (ev_bitwise_scalar t rho Hm ty op x y tx ty' _ Hx Hy ltac:(done) ltac:(done) Hs))).
Qed.

Lemma or_identity ty x y : is_scalar ty = true -> fits (cbits ty) x -> fits (cbits ty) y ->
  (forall i, 0 <= i < 64 -> Z.testbit (mask (carrier ty)) i = true -> Z.testbit y i = false \/ Z.testbit x i = true) ->
  Z.lor x y = x.
Proof.
  intros Hs Hx Hy H. pose proof (bits_carrier ty). assert (0 <= cbits ty) by (destruct (cbits_scalar ty Hs); lia).
  apply (carrier_ext ty); [done|by apply fits_lor|done|]. intros i Hi Hm. by apply or_absorbs, H.
Qed.
Lemma and_identity ty x y : is_scalar ty = true -> fits (cbits ty) x -> fits (cbits ty) y ->
  (forall i, 0 <= i < 64 -> Z.testbit (mask (carrier ty)) i = true -> Z.testbit y i = true \/ Z.testbit x i = false) ->
  Z.land x y = x.
Proof.
  intros Hs Hx Hy H. pose proof (bits_carrier ty). assert (0 <= cbits ty) by (destruct (cbits_scalar ty Hs); lia).
  apply (carrier_ext ty); [done|by apply fits_land_l|done|]. intros i Hi Hm. by apply and_absorbs, H.
Qed.

Lemma says_one b z i : says b z -> Z.testbit (bvalue b) i = true -> Z.testbit z i = true.
Proof. intros Hs. rewrite (says_testbit b z i Hs). by intros [? _]%andb_true_iff. Qed.

Lemma bitwise_identity_spec id ty f : facts_ok t f -> type_at t id = Some ty ->
  exists o f', bitwise_identity t id f = Some (o, f') /\ inferred t f f' /\
    forall input, o = Some input -> (input < id)%nat /\
      forall rho, model t rho -> sat t rho f -> val rho id = val rho input.
Proof.
  intros Hok Hty. unfold bitwise_identity, value_at. apply fmap_Some in Hty as (v & Hv & ->).
  assert (exists o f', Some (@None nat, f) = Some (o, f') /\ inferred t f f' /\ forall input, o = Some input -> (input < id)%nat /\
      forall rho, model t rho -> sat t rho f -> val rho id = val rho input) as Hskip
    by (exists None, f; split_and!; [done|by apply inferred_refl|done]).
  rewrite Hv. cbn [mbind option_bind]. destruct (definition v) as [|[|[op| | | | | | | | | |] x y| | |]| |] eqn:Hd; try exact Hskip.
  destruct (is_scalar (Values.ty v)) eqn:Hs; cbn [negb orb]; [|exact Hskip].
  destruct (bool_decide_reflect (op = Xor)) as [|Hop]; [exact Hskip|].
  pose proof (stored_at t Hwf Hcon id v _ Hv Hd) as Hat.
  assert (scalar_at_type t id (Values.ty v)) as Hid by (split; [by apply type_at_value|done]).
  destruct (bitwise_operands id (Values.ty v) _ op x y Hid Hat eq_refl) as (tx & ty' & Hx & Hy & Hlx & Hly & Hcx & Hcy & Hval).
  destruct (bits_of_spec t f x tx Hwf Hcon Hok (proj1 Hx)) as (a & g & -> & Hg & (Ha64 & _ & _ & Hah)).
  cbn [mbind option_bind].
  destruct (bits_of_spec t g y ty' Hwf Hcon (inf_ok _ _ _ Hg) (proj1 Hy)) as (b & h & -> & Hh & (Hb64 & _ & _ & Hbh)).
  destruct (has_bounds t x tx Hwf (proj1 Hx)) as [bx Hbx]. destruct (has_bounds t y ty' Hwf (proj1 Hy)) as [by' Hby].
  unfold bounds_at. rewrite Hbx, Hby. cbn [mbind option_bind]. set (m := mask (carrier (Values.ty v))).
  fold (zero_bits m a bx). fold (zero_bits m b by').
  eexists _, h. split; [done|]. split; [by eapply inferred_trans|]. intros input Hinput.
  assert (forall rho, model t rho -> sat t rho f -> holds rho x a /\ holds rho y b) as Hholds.
  { intros rho Hm Hsat. split; [by apply Hah|]. apply Hbh; [done|]. by apply Hg. }
  assert (forall p q r o, (if Z.land (Z.land m (bnot 64 p)) (bnot 64 q) =? 0 then Some r else o) = Some input ->
    input = r /\ (forall i, 0 <= i < 64 -> Z.testbit m i = true -> Z.testbit p i = true \/ Z.testbit q i = true) \/ o = Some input) as Hcov.
  { intros p q r o. destruct (Z.eqb_spec (Z.land (Z.land m (bnot 64 p)) (bnot 64 q)) 0) as [E|]; [|by right].
    intros [= <-]. left. split; [done|]. intros i. by apply covers. }
  assert (forall rho, model t rho -> fits (cbits (Values.ty v)) (val rho x) /\ fits (cbits (Values.ty v)) (val rho y)) as Hfits.
  { intros rho Hm. rewrite <- Hcx at 1. rewrite <- Hcy. split; eapply val_fits; try done; [apply Hx|apply Hx|apply Hy|apply Hy]. }
  assert (forall i rho, model t rho -> sat t rho f -> 0 <= i -> Z.testbit (zero_bits m a bx) i = true -> Z.testbit (val rho x) i = false) as Hzx.
  { intros i rho Hm Hs' Hi. apply (zero_bits_zero x tx a bx rho i); try done. by destruct (Hholds rho Hm Hs'). }
  assert (forall i rho, model t rho -> sat t rho f -> 0 <= i -> Z.testbit (zero_bits m b by') i = true -> Z.testbit (val rho y) i = false) as Hzy.
  { intros i rho Hm Hs' Hi. apply (zero_bits_zero y ty' b by' rho i); try done. by destruct (Hholds rho Hm Hs'). }
  assert (forall i rho, model t rho -> sat t rho f -> Z.testbit (bvalue a) i = true -> Z.testbit (val rho x) i = true) as Hox.
  { intros i rho Hm Hsat. apply says_one. by destruct (Hholds rho Hm Hsat). }
  assert (forall i rho, model t rho -> sat t rho f -> Z.testbit (bvalue b) i = true -> Z.testbit (val rho y) i = true) as Hoy.
  { intros i rho Hm Hsat. apply says_one. by destruct (Hholds rho Hm Hsat). }
  destruct op; [| |done].
  - destruct (Hcov _ _ _ _ Hinput) as [[-> Hc]|Hinput2]; [|destruct (Hcov _ _ _ _ Hinput2) as [[-> Hc]|]; [|done] ].
    + split; [done|]. intros rho Hm Hs'. rewrite (Hval rho Hm). destruct (Hfits rho Hm). apply (and_identity (Values.ty v)); [done..|].
      intros i Hi Hmi. destruct (Hc i Hi Hmi); [left; first [by apply Hox|by apply Hoy]|right; apply Hzx; [done|done|lia|done]].
    + split; [done|]. intros rho Hm Hs'. rewrite (Hval rho Hm). cbn [bit_fn]. rewrite Z.land_comm. destruct (Hfits rho Hm).
      apply (and_identity (Values.ty v)); [done..|].
      intros i Hi Hmi. destruct (Hc i Hi Hmi); [left; first [by apply Hox|by apply Hoy]|right; apply Hzy; [done|done|lia|done]].
  - destruct (Hcov _ _ _ _ Hinput) as [[-> Hc]|Hinput2]; [|destruct (Hcov _ _ _ _ Hinput2) as [[-> Hc]|]; [|done] ].
    + split; [done|]. intros rho Hm Hs'. rewrite (Hval rho Hm). destruct (Hfits rho Hm). apply (or_identity (Values.ty v)); [done..|].
      intros i Hi Hmi. destruct (Hc i Hi Hmi); [left; apply Hzy; [done|done|lia|done]|right; first [by apply Hox|by apply Hoy] ].
    + split; [done|]. intros rho Hm Hs'. rewrite (Hval rho Hm). cbn [bit_fn]. rewrite Z.lor_comm. destruct (Hfits rho Hm).
      apply (or_identity (Values.ty v)); [done..|].
      intros i Hi Hmi. destruct (Hc i Hi Hmi); [left; apply Hzx; [done|done|lia|done]|right; first [by apply Hox|by apply Hoy] ].
Qed.

(** ** Select conditions *)

Definition predicate (e : nat * nat) : Prop := type_at t e.1 = Some I1.

Record searching (s : Discovery) : Prop := {
  s_pending : Forall (fun id => is_Some (type_at t id)) (pending s);
  s_visited : (length (visited s) <= MAX_VALUES)%nat;
  s_found : Forall predicate (found s);
}.

Lemma count_use_predicates condition l : type_at t condition = Some I1 -> Forall predicate l ->
  Forall predicate (count_use condition l).
Proof.
  intros Hc Hl. unfold count_use. destruct (list_find _ l) as [[index [id uses]]|] eqn:Hf.
  - apply list_find_Some in Hf as (Hi & E & _). cbn in E. subst id. apply Forall_insert; [done|exact Hc].
  - apply Forall_app. split; [done|]. by constructor.
Qed.

(** A round pops an entry, and expands at most [MAX_VALUES] values. *)
Definition search_measure (s : Discovery) : nat := length (pending s) + 3 * (MAX_VALUES - length (visited s)).

Lemma select_step_spec f s : searching s ->
  match select_step t f s with
  | inl s' => searching s' /\ (search_measure s' < search_measure s)%nat
  | inr None => False
  | inr (Some None) => True
  | inr (Some (Some l)) => Forall predicate l
  end.
Proof.
  intros [Hp Hv Hf]. unfold select_step, search_measure. destruct (pending s) as [|id rest] eqn:Hpend; [done|].
  apply Forall_cons in Hp as [[ty Hty] Hrest]. case_bool_decide; cbn [pending visited found length].
  { split; [by split|]. lia. }
  destruct (Nat.eqb_spec (length (visited s)) MAX_VALUES) as [|Hne]; [done|].
  apply fmap_Some in Hty as (v & Hval & ->). unfold value_at. rewrite Hval.
  destruct (expression_of_spec t Hwf Hcon id v Hval) as (r & -> & Hat).
  assert (forall ids found', (length ids <= 3)%nat -> Forall (fun id => is_Some (type_at t id)) ids -> Forall predicate found' ->
    searching (mkDiscovery (ids ++ rest) (visited s ++ [id]) found') /\
    (length (ids ++ rest) + 3 * (MAX_VALUES - length (visited s ++ [id])) < S (length rest) + 3 * (MAX_VALUES - length (visited s)))%nat) as Hgo.
  { intros ids found' Hlen Hids Hfound. rewrite !length_app. cbn [length]. split; [|lia].
    split; cbn [pending visited found]; [by apply Forall_app|rewrite length_app; cbn; lia|done]. }
  destruct (_ || _); [apply (Hgo []); [cbn; lia|done|done]|].
  destruct r as [r|]; cbn [fmap option_fmap option_map]; [|apply (Hgo []); [cbn; lia|done|done] ].
  specialize (Hat r eq_refl).
  assert (Forall (fun id => is_Some (type_at t id)) (inputs (er_expression r))) as Hin.
  { apply Forall_forall. intros i Hi. destruct (input_type t Hwf Hcon id _ r i Hat Hi) as [ti Hti]. by exists ti. }
  pose proof (at_promise _ _ _ _ Hat) as Hpro.
  destruct (er_expression r) as [op x|op x y|op x y|op x y z|sg x y] eqn:He in |- *; cbn [pending visited found];
    [..|destruct op|]; rewrite ?He in Hin; cbn [inputs] in Hin;
    try (apply Hgo; [cbn; lia|by apply Forall_rev|done]).
  rewrite He in Hpro. cbn [promise] in Hpro. apply andb_true_iff in Hpro as [Hz%bool_decide_eq_true _].
  apply Hgo; [cbn; lia| |by apply count_use_predicates]. repeat (apply Forall_cons in Hin as [? Hin]). by repeat constructor.
Qed.

Lemma select_loop_spec f n : forall s, searching s -> (search_measure s < n)%nat ->
  exists o, repeat_times (select_step t f) n s = inr (Some o) /\ forall l, o = Some l -> Forall predicate l.
Proof.
  induction n as [|n IH]; intros s Hs Hn; [lia|]. cbn [repeat_times].
  pose proof (select_step_spec f s Hs) as Hstep. destruct (select_step t f s) as [s'|[[l|]|] ].
  - destruct Hstep as [Hs' Hlt]. apply IH; [done|lia].
  - exists (Some l). split; [done|]. by intros l' [= <-].
  - by exists None.
  - done.
Qed.

Lemma insert_condition_elem (Q : nat * nat -> Prop) e l : Q e -> Forall Q l -> Forall Q (insert_condition e l).
Proof.
  intros He. induction 1 as [|x l Hx Hl IH]; cbn [insert_condition]; [by constructor|].
  destruct (before e x); by repeat constructor.
Qed.
Lemma sort_conditions_elem (Q : nat * nat -> Prop) l : Forall Q l -> Forall Q (sort_conditions l).
Proof. induction 1 as [|x l Hx Hl IH]; cbn; [done|]. by apply insert_condition_elem. Qed.

Lemma select_inputs_spec f root : is_Some (type_at t root) ->
  exists o, select_inputs t f root = Some o /\ forall l, o = Some l -> Forall (fun id => type_at t id = Some I1) l.
Proof.
  intros Hr. unfold select_inputs. rewrite repeat_until_times.
  destruct (select_loop_spec f (Pos.to_nat 128) (mkDiscovery [root] [] [])) as (o & -> & Ho).
  { split; cbn [pending visited found]; [by constructor|cbn; unfold MAX_VALUES; lia|done]. }
  { unfold search_measure, MAX_VALUES. cbn. lia. }
  destruct o as [l|]; [|by exists None]. eexists. split; [done|]. intros l' [= <-].
  apply Forall_fmap, sort_conditions_elem. apply Forall_forall. intros e [_ He]%list_elem_of_filter.
  specialize (Ho l eq_refl). rewrite Forall_forall in Ho. by apply Ho.
Qed.

(** ** Constants across selects *)

Lemma select_case (P : Valuation -> Prop) root ty condition rest truth remaining h :
  (forall remaining f, facts_ok t f -> exists o k f', prove_select_cases t root rest remaining f = Some ((o, k), f') /\
    inferred t f f' /\ forall z, o = Some z -> is_scalar ty = true /\
      forall rho, model t rho -> sat t rho f -> z = wrap (bits ty) (val rho root)) ->
  type_at t condition = Some I1 -> facts_ok t h -> (forall rho, P rho -> model t rho -> sat t rho h) ->
  exists o k, ('(_, g) ← with_assumptions t [Truth condition truth] (facts_clone h);
      fst <$> prove_select_cases t root rest remaining g) = Some (o, k) /\
    forall z, o = Some z -> is_scalar ty = true /\ forall rho, model t rho -> P rho ->
      Z.testbit (val rho condition) 0 = truth -> z = wrap (bits ty) (val rho root).
Proof.
  intros IH Hc Hok HP.
  destruct (with_assumptions_spec t Hwf Hcon [Truth condition truth] (facts_clone h)) as ([] & g & -> & Hg & _);
    [by apply clone_ok|by repeat (constructor; [by exists I1|])|].
  cbn [mbind option_bind]. destruct (IH remaining g) as (o & k & f' & -> & _ & Ho); [apply Hg|].
  exists o, k. split; [done|]. intros z E. destruct (Ho z E) as [Hs Hval]. split; [done|]. intros rho Hm Hrho Hbit.
  apply Hval; [done|]. apply Hg; [done|by apply clone_sat, HP|by repeat constructor].
Qed.

Lemma prove_select_cases_spec root ty conditions : type_at t root = Some ty ->
  Forall (fun id => type_at t id = Some I1) conditions -> forall remaining f, facts_ok t f ->
  exists o rest f', prove_select_cases t root conditions remaining f = Some ((o, rest), f') /\ inferred t f f' /\
    forall z, o = Some z -> is_scalar ty = true /\ forall rho, model t rho -> sat t rho f -> z = wrap (bits ty) (val rho root).
Proof.
  intros Hty Hc. induction Hc as [|condition rest Hcond Hrest IH]; intros remaining f Hf;
    (destruct remaining as [|remaining]; cbn [prove_select_cases];
     [exists None, O, f; split_and!; [done|by apply inferred_refl|done]|]);
    destruct (inferred_constant_spec t Hwf Hcon (fun _ => True) root ty f Hf Hty) as (value & g & -> & _ & Hg & Hv);
    cbn [mbind option_bind]; (destruct value as [z|]; [exists (Some z), remaining, g; by split_and!|]).
  { exists None, remaining, g. by split_and!. }
  pose proof (inf_ok _ _ _ Hg) as Hgok.
  destruct (inferred_constant_spec t Hwf Hcon (fun _ => True) condition I1 g Hgok Hcond) as (c & h & -> & _ & Hh & _).
  cbn [mbind option_bind]. assert (inferred t f h) as Hfh by by eapply inferred_trans. pose proof (inf_ok _ _ _ Hh) as Hhok.
  destruct c as [z|].
  { destruct (IH remaining h Hhok) as (o & k & f' & -> & Hf' & Ho). exists o, k, f'.
    split_and!; [done|by eapply inferred_trans|]. intros z' E. destruct (Ho z' E) as [Hs Hval]. split; [done|].
    intros rho Hm Hsat. apply Hval; [done|]. by apply Hfh. }
  assert (forall rho, sat t rho f -> model t rho -> sat t rho h) as HP by (intros rho Hs Hm; by apply Hfh).
  destruct (select_case (fun rho => sat t rho f) root ty condition rest false remaining h IH Hcond Hhok HP) as (a & k & -> & Ha).
  cbn [mbind option_bind]. destruct a as [za|]; [|exists None, k, h; by split_and!].
  destruct (select_case (fun rho => sat t rho f) root ty condition rest true k h IH Hcond Hhok HP) as (b & k' & -> & Hb).
  cbn [mbind option_bind]. destruct b as [zb|]; [|exists None, k', h; by split_and!].
  eexists _, k', h. split_and!; [done|done|]. intros z E. destruct (decide (Some za = Some zb)) as [E'|]; [|done].
  simplify_eq. destruct (Ha _ eq_refl) as [Hs Hva], (Hb _ eq_refl) as [_ Hvb]. split; [done|].
  intros rho Hm Hsat. destruct (Z.testbit (val rho condition) 0) eqn:Hbit; [by apply Hvb|by apply Hva].
Qed.

Lemma constant_across_selects_spec root ty f : facts_ok t f -> type_at t root = Some ty ->
  exists o f', constant_across_selects t root f = Some (o, f') /\ inferred t f f' /\
    forall z, o = Some z -> ty = I1 /\ forall rho, model t rho -> sat t rho f -> val rho root = z.
Proof.
  intros Hf Hty. unfold constant_across_selects. pose proof Hty as Hty'. apply fmap_Some in Hty' as (v & Hv & E).
  destruct (has_bounds t root ty Hwf Hty) as [bb Hbb]. unfold value_at, bounds_at. rewrite Hv, Hbb. cbn [mbind option_bind].
  rewrite <- E. assert (inferred t f f) as Hi by by apply inferred_refl.
  set (combination := match definition v with DExpression (EBinary (Bitwise _) _ _) => true | _ => false end).
  destruct (bool_decide_reflect (ty = I1)) as [->|]; cbn [negb orb]; [|by exists None, f].
  destruct (Z.ltb_spec 1 (unsigned bb)) as [|H1]; cbn [orb]; [by exists None, f|].
  destruct combination; cbn [negb]; [|by exists None, f].
  destruct (select_inputs_spec f root) as (conditions & -> & Hc); [by exists I1|]. cbn [mbind option_bind].
  destruct conditions as [conditions|]; [|by exists None, f]. specialize (Hc conditions eq_refl).
  assert (forall rho z, model t rho -> z = wrap 1 (val rho root) -> val rho root = z) as Hwhole.
  { intros rho z Hm ->. symmetry. apply wrap_small. eapply fits_mono; [exact H1|]. by apply (unsigned_val t rho root I1). }
  destruct (inferred_constant_spec t Hwf Hcon (fun _ => True) root I1 f Hf Hty) as (value & g & -> & _ & Hg & Hval).
  cbn [mbind option_bind]. destruct value as [z|].
  { exists (Some z), g. split_and!; [done|done|]. intros z' [= <-]. split; [done|]. intros rho Hm Hs.
    apply Hwhole; [done|]. by apply (Hval z eq_refl). }
  destruct conditions as [|c0 cs]; [by exists None, g|].
  destruct (prove_select_cases_spec root I1 (c0 :: cs) Hty Hc MAX_PROOF_STEPS g (inf_ok _ _ _ Hg)) as (o & k & h & -> & Hh & Ho).
  cbn [mbind option_bind fst]. exists o, h. split_and!; [done|by eapply inferred_trans|]. intros z Ez. split; [done|].
  intros rho Hm Hs. apply Hwhole; [done|]. destruct (Ho z Ez) as [_ Hz]. apply Hz; [done|]. by apply Hg.
Qed.

End Use.
