(* ===== verification/FactsTheorems.v ===== *)
(** * Path facts: the main statements

    What flow reduction and placement rely on of path facts. The witnesses run the
    definitions on a small table with two parameters, a comparison, selects on it
    and bitwise combinations. *)

From S2P Require Import Prelude Bytes Types Floating Expr Evaluate Values Fold Model Carrier Bounds Table FoldBase Facts FactsInfer FactsBits FactsPath FactsUse Valuations.
Local Open Scope Z_scope.

(** ** A sample table *)

Definition authored : list Value :=
  [mkValue I32 (DParameter 0 0); mkValue I32 (DParameter 0 1);
   mkValue I1 (DExpression (EBinary (Compare (CmpInteger CEq)) 0%nat 1%nat));
   mkValue I1 (DLiteral (lit 1)); mkValue I1 (DLiteral (lit 0));
   mkValue I1 (DExpression (ETernary Select 3%nat 4%nat 2%nat));
   mkValue I1 (DExpression (ETernary Select 4%nat 3%nat 2%nat));
   mkValue I1 (DExpression (EBinary (Bitwise And) 5%nat 6%nat));
   mkValue I32 (DExpression (EBinary (Bitwise Or) 0%nat 1%nat))].

Definition paths : ValueTable := default empty_table (author_all authored empty_table).

Lemma paths_wf : wf paths.
Proof. apply authored_wf. by vm_compute. Qed.

#[export] Instance promised_dec t (v : Value) :
  Decision (match definition v with DExpression e => promise t (ty v) e = true | _ => True end).
Proof. destruct (definition v); apply _. Defined.

Lemma paths_constructed : constructed paths.
Proof. split; apply (bool_decide_unpack _); by vm_compute. Qed.

(** The facts of a path with some observations. *)
Definition path (l : list Assumption) : ScalarFacts :=
  match with_assumptions paths l no_facts with Some (_, f) => f | None => no_facts end.

Lemma path_ok l : Forall (assumption_ok paths) l -> facts_ok paths (path l).
Proof.
  intros Hl. destruct (with_assumptions_spec paths paths_wf paths_constructed l no_facts) as ([] & f & Hf & Hok & _);
    [apply no_facts_ok|done|]. unfold path. rewrite Hf. apply Hok.
Qed.

(** [x = y] on a path. *)
Definition equal : Assumption := Truth 2 true.
Definition differ : Assumption := Truth 2 false.
(** [y] is zero, or a byte. *)
Definition zero : Assumption := KnownBits 1 (Z.ones 32) 0.
Definition byte (b : Z) : Assumption := KnownBits 1 255 b.

Lemma truth_ok truth : assumption_ok paths (Truth 2 truth).
Proof. exists I1. by vm_compute. Qed.
Lemma bits_ok_at m b : fits 32 m -> assumption_ok paths (KnownBits 1 m b).
Proof. intros H. exists I32. split; [by vm_compute|done]. Qed.
Lemma zero_ok : assumption_ok paths zero.
Proof. apply bits_ok_at. by apply (bool_decide_unpack _); vm_compute. Qed.

(** ** Inference *)

(** C5 Inference of known bits is total and sound: on facts that are well
    formed it visits any value of the table within its fuel, changes only the
    inference cache, keeps the facts well formed, and what it returns holds of
    every valuation of the table that the facts hold of. *)
Theorem bits_of_sound t f id ty : wf t -> constructed t -> facts_ok t f -> type_at t id = Some ty ->
  exists b f', bits_of t id f = Some (b, f') /\ f' = set_computed (computed f') f /\ facts_ok t f' /\
    forall rho, model t rho -> sat t rho f -> sat t rho f' /\ Z.land (val rho id) (bmask b) = bvalue b.
Proof.
  intros Hwf Hcon Hok Hty. destruct (bits_of_spec t f id ty Hwf Hcon Hok Hty) as (b & f' & Hb & [H1 H2 H3] & (_ & _ & _ & Hh)).
  exists b, f'. split_and!; [done..|]. intros rho Hm Hs. split; [by apply H3|by apply Hh].
Qed.

Lemma bits_of_sound_witness :
  let f := path [equal; byte 5] in
  exists b f', bits_of paths 8 f = Some (b, f') /\ f' = set_computed (computed f') f /\ facts_ok paths f' /\
    forall rho, model paths rho -> sat paths rho f -> sat paths rho f' /\ Z.land (val rho 8%nat) (bmask b) = bvalue b.
Proof.
  apply (bits_of_sound paths (path [equal; byte 5]) 8 I32); [apply paths_wf|apply paths_constructed| |by vm_compute].
  apply path_ok. constructor; [apply truth_ok|]. constructor; [|done]. apply bits_ok_at. by apply (bool_decide_unpack _); vm_compute.
Defined.

(** The low byte of [y] is known, of [x | y] only where it is set. *)
Example byte_bits : (fst <$> bits_of paths 8 (path [byte 5])) = Some (mkBits 5 5).
Proof. vm_compute. reflexivity. Qed.

(** ** Observations *)

(** C6 The facts of a path stay exact: adding observations to well-formed facts
    never panics, ends within the loops' bounds, and every valuation that
    satisfies the facts and the observations satisfies the result. Roots and
    settled predicates are kept. *)
Theorem with_assumptions_sound t l f : wf t -> constructed t -> facts_ok t f -> Forall (assumption_ok t) l ->
  exists f', with_assumptions t l f = Some (tt, f') /\ facts_ok t f' /\ FactsPath.extends t f f' /\
    forall rho, model t rho -> sat t rho f -> Forall (observed rho) l -> sat t rho f'.
Proof.
  intros Hwf Hcon Hok Hl. destruct (with_assumptions_spec t Hwf Hcon l f Hok Hl) as ([] & f' & Hf & [H1 H2 H3] & _).
  by exists f'.
Qed.

Lemma with_assumptions_sound_witness :
  exists f', with_assumptions paths [equal; zero] no_facts = Some (tt, f') /\ facts_ok paths f' /\
    FactsPath.extends paths no_facts f' /\
    forall rho, model paths rho -> sat paths rho no_facts -> Forall (observed rho) [equal; zero] -> sat paths rho f'.
Proof.
  apply (with_assumptions_sound paths [equal; zero] no_facts); [apply paths_wf|apply paths_constructed|apply no_facts_ok|].
  constructor; [apply truth_ok|]. constructor; [apply zero_ok|done].
Defined.

(** ** Joins *)

(** C7 A join keeps only what holds on every incoming edge: it is total, and a
    valuation that satisfies the facts of one edge, with the parameters taking
    that edge's arguments, satisfies the joined facts. *)
Theorem join_sound t parameters incoming : wf t -> constructed t ->
  Forall (fun p => is_Some (type_at t p)) parameters -> Forall (edge_ok t parameters) incoming ->
  exists f, join t parameters incoming = Some f /\ facts_ok t f /\
    forall rho edge, model t rho -> edge ∈ incoming -> enters t rho parameters edge -> sat t rho f.
Proof.
  intros Hwf Hcon Hty Hall. destruct (join_spec t Hwf Hcon parameters incoming Hty Hall) as (f & Hf & Hok & Hs).
  exists f. split_and!; [done..|]. intros rho edge Hm Hin He. apply Hs; [done|]. by exists edge.
Qed.

Lemma join_sound_witness :
  let incoming := [(path [zero], [1%nat]); (path [byte 0], [1%nat])] in
  exists f, join paths [0%nat] incoming = Some f /\ facts_ok paths f /\
    forall rho edge, model paths rho -> edge ∈ incoming -> enters paths rho [0%nat] edge -> sat paths rho f.
Proof.
  apply (join_sound paths [0%nat] [(path [zero], [1%nat]); (path [byte 0], [1%nat])]); [apply paths_wf|apply paths_constructed| |].
  - constructor; [|done]. exists I32. by vm_compute.
  - assert (Forall2 (argument_ok paths) [0%nat] [1%nat]) as Hargs
      by (constructor; [|done]; exists I32, I32; by vm_compute).
    constructor; [split; [apply path_ok; constructor; [apply zero_ok|done]|done] |].
    constructor; [split; [apply path_ok; constructor; [|done]|done] |done].
    apply bits_ok_at. by apply (bool_decide_unpack _); vm_compute.
Defined.

(** The parameter keeps the byte both arguments agree on. *)
Example join_byte : (fun f => known f !! 0%nat) <$> join paths [0%nat] [(path [zero], [1%nat]); (path [byte 0], [1%nat])] =
  Some (Some (mkBits 255 0)).
Proof. vm_compute. reflexivity. Qed.

(** ** Exclusion *)

(** Blocks whose facts conflict exclude each other: the test is total, and
    where it answers yes no valuation satisfies both sets of facts. The order in
    which the recorded bits are tried does not matter. *)
Theorem conflicting_paths_exclude t a b entries : wf t -> constructed t -> facts_ok t a -> facts_ok t b ->
  entries ≡ₚ map_to_list (known a) ->
  exists found b', conflicts_with t entries a b = Some (found, b') /\ facts_ok t b' /\
    (found = true -> forall rho, model t rho -> sat t rho a -> sat t rho b -> False).
Proof.
  intros Hwf Hcon Ha Hb Hp. destruct (conflicts_with_spec t Hwf Hcon a b entries Ha Hb) as (found & b' & Hc & [_ Hok _] & Hex).
  { intros id bits Hin. apply elem_of_map_to_list. by rewrite <- Hp. }
  by exists found, b'.
Qed.

Lemma conflicting_paths_exclude_witness :
  let a := path [equal] in let b := path [differ] in
  exists found b', conflicts_with paths (map_to_list (known a)) a b = Some (found, b') /\ facts_ok paths b' /\
    (found = true -> forall rho, model paths rho -> sat paths rho a -> sat paths rho b -> False).
Proof.
  apply (conflicting_paths_exclude paths (path [equal]) (path [differ])); [apply paths_wf|apply paths_constructed| | |done];
    (apply path_ok; constructor; [apply truth_ok|done]).
Defined.

Example equal_excludes_differ :
  fst <$> conflicts_with paths (map_to_list (known (path [equal]))) (path [equal]) (path [differ]) = Some true.
Proof. vm_compute. reflexivity. Qed.

(** ** Constants and identities *)

(** A predicate proved constant across the alternatives of the selects it
    combines has that carrier value on every valuation of the facts; the search
    is bounded and total. *)
Theorem constant_across_selects_sound t root ty f : wf t -> constructed t -> facts_ok t f -> type_at t root = Some ty ->
  exists o f', constant_across_selects t root f = Some (o, f') /\ facts_ok t f' /\
    forall z, o = Some z -> ty = I1 /\ forall rho, model t rho -> sat t rho f -> val rho root = z.
Proof.
  intros Hwf Hcon Hok Hty. destruct (constant_across_selects_spec t Hwf Hcon root ty f Hok Hty) as (o & f' & H & [_ Hf _] & Hz).
  by exists o, f'.
Qed.

Lemma constant_across_selects_sound_witness :
  exists o f', constant_across_selects paths 7 no_facts = Some (o, f') /\ facts_ok paths f' /\
    forall z, o = Some z -> I1 = I1 /\ forall rho, model paths rho -> sat paths rho no_facts -> val rho 7%nat = z.
Proof.
  apply (constant_across_selects_sound paths 7 I1 no_facts); [apply paths_wf|apply paths_constructed|apply no_facts_ok|by vm_compute].
Defined.

(** [c ? 1 : 0] and [c ? 0 : 1] are never both set. *)
Example complementary_selects : fst <$> constant_across_selects paths 7 no_facts = Some (Some 0).
Proof. vm_compute. reflexivity. Qed.

(** A bitwise operation reported to be one of its operands equals it on the
    whole carrier, upper bits included. *)
Theorem bitwise_identity_sound t id ty f : wf t -> constructed t -> facts_ok t f -> type_at t id = Some ty ->
  exists o f', bitwise_identity t id f = Some (o, f') /\ facts_ok t f' /\
    forall input, o = Some input -> (input < id)%nat /\
      forall rho, model t rho -> sat t rho f -> val rho id = val rho input.
Proof.
  intros Hwf Hcon Hok Hty. destruct (bitwise_identity_spec t Hwf Hcon id ty f Hok Hty) as (o & f' & H & [_ Hf _] & Hz).
  by exists o, f'.
Qed.

Lemma bitwise_identity_sound_witness :
  exists o f', bitwise_identity paths 8 (path [zero]) = Some (o, f') /\ facts_ok paths f' /\
    forall input, o = Some input -> (input < 8)%nat /\
      forall rho, model paths rho -> sat paths rho (path [zero]) -> val rho 8%nat = val rho input.
Proof.
  apply (bitwise_identity_sound paths 8 I32 (path [zero])); [apply paths_wf|apply paths_constructed| |by vm_compute].
  apply path_ok. constructor; [apply zero_ok|done].
Defined.

Example or_with_zero : fst <$> bitwise_identity paths 8 (path [zero]) = Some (Some 0%nat).
Proof. vm_compute. reflexivity. Qed.
