(* ===== verification/Graph.v ===== *)
(** * Function graphs

    crates/compiler/src/body.rs, body/operation.rs, body/producer.rs and the
    operation attributes of memory.rs and memory/atomic.rs: the blocks, effects and
    control edges of one function, beside its value table.

    A vector is a list and a handle ([BlockId], [EffectId], [Mem], [Func], [Table])
    its index; an index out of range is [None], the panic of the source. *)

From S2P Require Import Prelude Bytes Types Floating Expr Evaluate Values.
Local Open Scope Z_scope.

(** ** memory.rs, memory/atomic.rs *)

Record MemoryAccess := mkAccess { a_memory : nat; a_offset : Z; a_bytes : Z }.
Record Location := mkLocation { l_memory : nat; l_base : nat; l_offset : Z; l_bytes : Z }.
Definition access_at (a : MemoryAccess) (base : nat) : Location :=
  mkLocation (a_memory a) base (a_offset a) (a_bytes a).

Inductive AtomicUpdate : Set := UpdAdd | UpdSubtract | UpdAnd | UpdOr | UpdXor | UpdExchange.
Inductive AtomicKind : Set := AtomicLoad | AtomicStore | AtomicCompareExchange | AtomicUpdated (operator : AtomicUpdate).

(** ** body/operation.rs *)

Inductive OperationKind : Set :=
| OpLoad (access : MemoryAccess)
| OpStore (access : MemoryAccess)
| OpMemoryFill (memory : nat)
| OpMemoryCopy (destination_memory source_memory : nat)
| OpCall (target : nat)
| OpAtomic (access : MemoryAccess) (operator : AtomicKind)
| OpFence.

(** [Inputs] is a small vector: its variants differ in storage only. *)
Record Operation := mkOperation { kind : OperationKind; op_inputs : list nat }.

Definition op_load (access : MemoryAccess) (address : nat) : Operation := mkOperation (OpLoad access) [address].
Definition op_store (access : MemoryAccess) (address value : nat) : Operation :=
  mkOperation (OpStore access) [address; value].
Definition op_memory_fill (memory destination value bytes : nat) : Operation :=
  mkOperation (OpMemoryFill memory) [destination; value; bytes].
Definition op_memory_copy (destination_memory source_memory destination source bytes : nat) : Operation :=
  mkOperation (OpMemoryCopy destination_memory source_memory) [destination; source; bytes].
Definition op_call (target : nat) (arguments : list nat) : Operation := mkOperation (OpCall target) arguments.
Definition op_atomic_load (access : MemoryAccess) (address : nat) : Operation :=
  mkOperation (OpAtomic access AtomicLoad) [address].
Definition op_atomic_store (access : MemoryAccess) (address value : nat) : Operation :=
  mkOperation (OpAtomic access AtomicStore) [address; value].
Definition op_atomic_compare_exchange (access : MemoryAccess) (address expected replacement : nat) : Operation :=
  mkOperation (OpAtomic access AtomicCompareExchange) [address; expected; replacement].
Definition op_atomic_update (access : MemoryAccess) (operator : AtomicUpdate) (address value : nat) : Operation :=
  mkOperation (OpAtomic access (AtomicUpdated operator)) [address; value].
Definition op_fence : Operation := mkOperation OpFence [].

(** The closures that map inputs may panic: they are partial functions. *)
Definition op_map_inputs (map : nat -> option nat) (o : Operation) : option Operation :=
  inputs ← mapM map (op_inputs o); Some (mkOperation (kind o) inputs).

(** [None] is a panic, [Some None] an operation without a location. *)
Definition op_location (o : Operation) : option (option Location) :=
  match kind o with
  | OpLoad access | OpStore access | OpAtomic access _ =>
      address ← head (op_inputs o); Some (Some (access_at access address))
  | OpCall _ | OpFence | OpMemoryFill _ | OpMemoryCopy _ _ => Some None
  end.

Definition op_memories (o : Operation) : list nat :=
  match kind o with
  | OpLoad access | OpStore access | OpAtomic access _ => [a_memory access]
  | OpMemoryFill memory => [memory]
  | OpMemoryCopy destination_memory source_memory => [destination_memory; source_memory]
  | _ => []
  end.

(** ** body.rs *)

Record GraphEffect := mkEffect { results : list nat; operation : Operation; origin : nat }.

Record Edge := mkEdge { target : nat; arguments : list nat }.

Inductive Exit : Type :=
| Open
| Jump (edge : Edge)
| ExitIf (condition : nat) (taken otherwise : Edge)
| ExitSwitch (selector : nat) (cases : list (Z * Edge)) (default : Edge)
| Return (values : list nat)
| TailCall (callee : nat) (call_arguments : list nat)
| TailCallIndirect (table slot : nat) (call_arguments : list nat)
| Trap.

Record Block := mkBlock {
  parameters : list nat; items : list BlockItem; callees : list nat; exit : Exit; scope : nat }.

(** Wasm nesting of the graph's blocks. *)
Inductive Layout : Type :=
| LBlock (block : nat)
| LScope (preheader : nat) (body : list Layout) (after : nat)
| LIf (branch : nat) (taken otherwise : list Layout) (join : nat)
| LLoop (preheader header : nat) (body : list Layout) (after : nat)
| LSwitch (branch : nat) (cases : list (Z * list Layout)) (default : list Layout) (join : nat).

Definition layout_entry (l : Layout) : nat :=
  match l with
  | LBlock block => block
  | LScope preheader _ _ | LLoop preheader _ _ _ => preheader
  | LIf branch _ _ _ | LSwitch branch _ _ _ => branch
  end.

Record FunctionGraph := mkGraph {
  table : ValueTable;
  effects : list GraphEffect;
  blocks : list Block;
  layout : list Layout;
  entry : nat;
  memories : list nat;
}.

Definition graph_new : FunctionGraph := mkGraph empty_table [] [mkBlock [] [] [] Open 0] [] 0 [].

Fixpoint push_parameters (block component : nat) (types : list Ty) : T (list nat) :=
  match types with
  | [] => mret []
  | ty :: types =>
      push (mkValue ty (DParameter block component)) ≫= fun id =>
      push_parameters block (S component) types ≫= fun ids => mret (id :: ids)
  end.

Definition graph_block (scope : nat) (types : list Ty) (g : FunctionGraph) : option (nat * FunctionGraph) :=
  let block := length (blocks g) in
  '(parameters, table) ← push_parameters block 0 types (table g);
  Some (block, mkGraph table (effects g) (blocks g ++ [mkBlock parameters [] [] Open scope]) (layout g) (entry g) (memories g)).

(** *** Exits *)

Definition exit_edges (e : Exit) : list Edge :=
  match e with
  | Jump edge => [edge]
  | ExitIf _ taken otherwise => [taken; otherwise]
  | ExitSwitch _ cases default => (snd <$> cases) ++ [default]
  | _ => []
  end.

(** The sole executable edge when a conditional exit has a constant selector:
    [None] is a panic, [Some None] no such edge. *)
Definition case_index (cases : list (Z * Edge)) (bits : Z) : nat :=
  match list_find (fun c => c.1 = bits) cases with Some (index, _) => index | None => length cases end.

Definition constant_edge_index (t : ValueTable) (e : Exit) : option (option nat) :=
  match e with
  | ExitIf condition _ _ =>
      literal ← scalar_at t condition;
      Some (option_map (fun bits => if bits =? 0 then 1%nat else 0%nat) literal)
  | ExitSwitch selector cases _ =>
      literal ← scalar_at t selector;
      Some (option_map (case_index cases) literal)
  | _ => Some None
  end.

Definition exit_edge (e : Exit) (index : nat) : option Edge :=
  match e with
  | ExitIf _ taken otherwise => [taken; otherwise] !! index
  | ExitSwitch _ cases default => if Nat.eqb index (length cases) then Some default else snd <$> cases !! index
  | _ => None
  end.

Definition exit_inputs (e : Exit) : list nat :=
  match e with
  | Return arguments | TailCall _ arguments => arguments
  | TailCallIndirect _ slot arguments => arguments ++ [slot]
  | ExitIf condition _ _ => condition :: (exit_edges e ≫= arguments)
  | ExitSwitch selector _ _ => selector :: (exit_edges e ≫= arguments)
  | _ => exit_edges e ≫= arguments
  end.

(** [edges_mut]: an update of every edge, which may panic. *)
Definition exit_map_edges (f : Edge -> option Edge) (e : Exit) : option Exit :=
  match e with
  | Jump edge => edge ← f edge; Some (Jump edge)
  | ExitIf condition taken otherwise =>
      taken ← f taken; otherwise ← f otherwise; Some (ExitIf condition taken otherwise)
  | ExitSwitch selector cases default =>
      cases ← mapM (fun case => edge ← f (snd case); Some (fst case, edge)) cases;
      default ← f default;
      Some (ExitSwitch selector cases default)
  | _ => Some e
  end.

Definition edge_map (map : nat -> option nat) (e : Edge) : option Edge :=
  arguments ← mapM map (arguments e); Some (mkEdge (target e) arguments).

Definition exit_map_inputs (map : nat -> option nat) (e : Exit) : option Exit :=
  match e with
  | ExitIf condition _ _ =>
      e ← exit_map_edges (edge_map map) e;
      condition ← map condition;
      match e with ExitIf _ taken otherwise => Some (ExitIf condition taken otherwise) | _ => None end
  | ExitSwitch selector _ _ =>
      e ← exit_map_edges (edge_map map) e;
      selector ← map selector;
      match e with ExitSwitch _ cases default => Some (ExitSwitch selector cases default) | _ => None end
  | Return arguments => arguments ← mapM map arguments; Some (Return arguments)
  | TailCall callee arguments => arguments ← mapM map arguments; Some (TailCall callee arguments)
  | TailCallIndirect table slot arguments =>
      arguments ← mapM map arguments; slot ← map slot; Some (TailCallIndirect table slot arguments)
  | _ => exit_map_edges (edge_map map) e
  end.

(** *** Graph traversal *)

Definition outgoing (g : FunctionGraph) (block : nat) : option (list Edge) :=
  b ← blocks g !! block;
  index ← constant_edge_index (table g) (exit b);
  match index with
  | Some index => edge ← exit_edge (exit b) index; Some [edge]
  | None => Some (exit_edges (exit b))
  end.

Definition reachable_step (g : FunctionGraph) (s : list bool * list nat) : (list bool * list nat) + option (list bool) :=
  let '(seen, pending) := s in
  match pending with
  | [] => inr (Some seen)
  | block :: pending =>
      match seen !! block, outgoing g block with
      | Some true, _ => inl (seen, pending)
      | Some false, Some edges => inl (<[block := true]> seen, rev (target <$> edges) ++ pending)
      | _, _ => inr None
      end
  end.

(** Every block pushes its targets once, and every round pops one. *)
Definition block_degree (block : Block) : nat := length (exit_edges (exit block)).
Definition reachable_fuel (g : FunctionGraph) : nat := 2 + sum_list (block_degree <$> blocks g).

Definition reachable (g : FunctionGraph) : option (list bool) :=
  match repeat_times (reachable_step g) (reachable_fuel g) (replicate (length (blocks g)) false, [entry g]) with
  | inr seen => seen
  | inl _ => None
  end.

(** The functions and tables called by the reachable blocks, in order. *)
Inductive CallTarget : Set := CallFunction (target : nat) | CallTable (table : nat).

Definition block_call_targets (b : Block) : list CallTarget :=
  match exit b with
  | TailCall target _ => [CallFunction target]
  | TailCallIndirect table _ _ => [CallTable table]
  | _ => []
  end ++ (CallFunction <$> callees b).

Definition call_targets (g : FunctionGraph) : option (list CallTarget) :=
  seen ← reachable g;
  Some (zip (blocks g) seen ≫= fun '(b, live) => if live : bool then block_call_targets b else []).

(** ** body/producer.rs *)

Definition producer_of (g : FunctionGraph) (value : nat) : option (option BlockItem) :=
  d ← definition_at (table g) value;
  Some (match d with
        | DExpression _ => Some (Evaluate value)
        | DResult producer _ => Some producer
        | DLiteral _ | DParameter _ _ => None
        end).

Definition producer_inputs (g : FunctionGraph) (producer : BlockItem) : option (list nat) :=
  match producer with
  | Evaluate value =>
      d ← definition_at (table g) value;
      match d with DExpression e => Some (inputs e) | _ => None end
  | Effect effect => (fun e => op_inputs (operation e)) <$> effects g !! effect
  end.

Definition producer_results (g : FunctionGraph) (producer : BlockItem) : option (list nat) :=
  match producer with
  | Evaluate value => expression_results (table g) value
  | Effect effect => results <$> effects g !! effect
  end.
