(* ===== verification/Prune.v ===== *)
(** * Pruning and compaction of a function graph

    crates/compiler/src/body/prune.rs and its submodules, and the compaction of
    body/values.rs: the executions and parameters a function needs, the control
    that is left once constant exits are resolved, and the renumbering of what
    is retained. A panic of the source is [None]. *)

From S2P Require Import Prelude Bytes Types Floating Expr Evaluate Values Graph.

(** [retain] with a closure that may panic. *)
Fixpoint retain {A} (keep : A -> option bool) (l : list A) : option (list A) :=
  match l with
  | [] => Some []
  | x :: l => k ← keep x; l ← retain keep l; Some (if k : bool then x :: l else l)
  end.

(** ** prune/liveness.rs *)

Record Marking := mkMarking {
  live_values : list bool;
  live_calculations : list bool;
  live_effects : list bool;
  (** The stack, its top first. *)
  pending : list nat;
}.

(** [pending.extend]: the last value is on top. *)
Definition extend (ids : list nat) (m : Marking) : Marking :=
  mkMarking (live_values m) (live_calculations m) (live_effects m) (rev ids ++ pending m).

Definition exit_roots (e : Exit) : list nat :=
  match e with
  | Return values | TailCall _ values => values
  | TailCallIndirect _ _ _ => exit_inputs e
  | ExitIf condition _ _ => [condition]
  | ExitSwitch selector _ _ => [selector]
  | _ => []
  end.

Fixpoint push_incoming (pairs : list (nat * nat)) (incoming : list (list nat)) : option (list (list nat)) :=
  match pairs with
  | [] => Some incoming
  | (parameter, argument) :: pairs =>
      arguments ← incoming !! parameter;
      push_incoming pairs (<[parameter := arguments ++ [argument]]> incoming)
  end.

Fixpoint edges_incoming (g : FunctionGraph) (edges : list Edge) (incoming : list (list nat)) : option (list (list nat)) :=
  match edges with
  | [] => Some incoming
  | edge :: edges =>
      b ← blocks g !! target edge;
      incoming ← push_incoming (zip (parameters b) (arguments edge)) incoming;
      edges_incoming g edges incoming
  end.

Definition mark_effect (effect : nat) (m : Marking) : Marking :=
  mkMarking (live_values m) (live_calculations m) (<[effect := true]> (live_effects m)) (pending m).

Fixpoint item_roots (g : FunctionGraph) (observable : Operation -> bool) (items : list BlockItem) (m : Marking) : option Marking :=
  match items with
  | [] => Some m
  | Evaluate _ :: items => item_roots g observable items m
  | Effect effect :: items =>
      e ← effects g !! effect;
      item_roots g observable items
        (if observable (operation e) then extend (op_inputs (operation e)) (mark_effect effect m) else m)
  end.

Definition block_roots (g : FunctionGraph) (reachable : list bool) (observable : Operation -> bool)
    (id : nat) (b : Block) (s : Marking * list (list nat)) : option (Marking * list (list nat)) :=
  live ← reachable !! id;
  if live : bool then
    edges ← outgoing g id;
    incoming ← edges_incoming g edges s.2;
    m ← item_roots g observable (items b) (extend (exit_roots (exit b)) s.1);
    Some (m, incoming)
  else Some s.

Fixpoint graph_roots (g : FunctionGraph) (reachable : list bool) (observable : Operation -> bool)
    (id : nat) (bs : list Block) (s : Marking * list (list nat)) : option (Marking * list (list nat)) :=
  match bs with
  | [] => Some s
  | b :: bs => s ← block_roots g reachable observable id b s; graph_roots g reachable observable (S id) bs s
  end.

Definition marked (m : Marking) (producer : BlockItem) : option bool :=
  match producer with
  | Evaluate root => live_calculations m !! root
  | Effect effect => live_effects m !! effect
  end.

Definition mark_producer (producer : BlockItem) (m : Marking) : Marking :=
  match producer with
  | Evaluate root =>
      mkMarking (live_values m) (<[root := true]> (live_calculations m)) (live_effects m) (pending m)
  | Effect effect => mark_effect effect m
  end.

Definition mark_value (id : nat) (pending : list nat) (m : Marking) : Marking :=
  mkMarking (<[id := true]> (live_values m)) (live_calculations m) (live_effects m) pending.

(** What a value that was not live yet adds. *)
Definition mark_visit (g : FunctionGraph) (incoming : list (list nat)) (id : nat) (m : Marking) : option Marking :=
  producer ← producer_of g id;
  match producer with
  | Some producer =>
      live ← marked m producer;
      if live : bool then Some m
      else inputs ← producer_inputs g producer; Some (extend inputs (mark_producer producer m))
  | None =>
      d ← definition_at (table g) id;
      match d with
      | DParameter _ _ => arguments ← incoming !! id; Some (extend arguments m)
      | _ => Some m
      end
  end.

Definition mark_step (g : FunctionGraph) (incoming : list (list nat)) (m : Marking) : Marking + option Marking :=
  match pending m with
  | [] => inr (Some m)
  | id :: pending =>
      match live_values m !! id with
      | None => inr None
      | Some true => inl (mkMarking (live_values m) (live_calculations m) (live_effects m) pending)
      | Some false =>
          match mark_visit g incoming id (mark_value id pending m) with
          | Some m => inl m
          | None => inr None
          end
      end
  end.

(** Every value adds what it reads at most once, and every round pops one. *)
Definition mark_weight (g : FunctionGraph) (incoming : list (list nat)) (id : nat) : nat :=
  match producer_of g id with
  | Some (Some producer) => default 0 (length <$> producer_inputs g producer)
  | _ => default 0 (length <$> incoming !! id)
  end.

Definition mark_fuel (g : FunctionGraph) (incoming : list (list nat)) (m : Marking) : nat :=
  S (length (pending m) + sum_list (mark_weight g incoming <$> seq 0 (length (values (table g))))).

Definition liveness (g : FunctionGraph) (reachable : list bool) (observable : Operation -> bool) : option Marking :=
  let n := length (values (table g)) in
  '(m, incoming) ← graph_roots g reachable observable 0 (blocks g)
    (mkMarking (replicate n false) (replicate n false) (replicate (length (effects g)) false) [], replicate n []);
  match repeat_times (mark_step g incoming) (mark_fuel g incoming m) m with
  | inr m => m
  | inl _ => None
  end.

Definition keep_parameters (g : FunctionGraph) (m : Marking) : option (list (list bool)) :=
  mapM id (imap (fun id b =>
    mapM (fun parameter => if Nat.eqb id (entry g) then Some true else live_values m !! parameter) (parameters b))
    (blocks g)).

(** The flags of the target are read for every argument, so not without one. *)
Fixpoint trim_arguments (keep : list bool) (args : list nat) : option (list nat) :=
  match args, keep with
  | [], _ => Some []
  | _ :: _, [] => None
  | argument :: args, k :: keep => args ← trim_arguments keep args; Some (if k : bool then argument :: args else args)
  end.

Definition trim (keep : list (list bool)) (e : Edge) : option Edge :=
  match arguments e with
  | [] => Some e
  | args => flags ← keep !! target e; args ← trim_arguments flags args; Some (mkEdge (target e) args)
  end.

Definition trim_block (keep : list (list bool)) (m : Marking) (b : Block) : option Block :=
  items ← retain (marked m) (items b);
  exit ← exit_map_edges (trim keep) (exit b);
  Some (mkBlock (parameters b) items (callees b) exit (scope b)).

Definition retain_parameters (entry : nat) (m : Marking) (id : nat) (b : Block) : option Block :=
  if Nat.eqb id entry then Some b
  else
    parameters ← retain (fun parameter => live_values m !! parameter) (parameters b);
    Some (mkBlock parameters (items b) (callees b) (exit b) (scope b)).

Definition define (id : nat) (d : ValueDefinition) (t : ValueTable) : option ValueTable :=
  v ← values t !! id;
  Some (mkTable (<[id := mkValue (ty v) d]> (values t)) (bounds t) (interned t)).

Fixpoint renumber (block component : nat) (parameters : list nat) (t : ValueTable) : option ValueTable :=
  match parameters with
  | [] => Some t
  | parameter :: parameters =>
      t ← define parameter (DParameter block component) t; renumber block (S component) parameters t
  end.

Fixpoint renumber_blocks (entry id : nat) (bs : list Block) (t : ValueTable) : option ValueTable :=
  match bs with
  | [] => Some t
  | b :: bs =>
      t ← (if Nat.eqb id entry then Some t else renumber id 0 (parameters b) t);
      renumber_blocks entry (S id) bs t
  end.

Record Retained := mkRetained { r_values : list bool; r_effects : list bool }.

Definition prune (g : FunctionGraph) (reachable : list bool) (observable : Operation -> bool) : option (FunctionGraph * Retained) :=
  m ← liveness g reachable observable;
  keep ← keep_parameters g m;
  bs ← mapM (trim_block keep m) (blocks g);
  bs ← mapM id (imap (retain_parameters (entry g) m) bs);
  t ← renumber_blocks (entry g) 0 bs (table g);
  Some (mkGraph t (effects g) bs (layout g) (entry g) (memories g), mkRetained (live_values m) (live_effects m)).

(** ** prune/control.rs *)

Fixpoint push_sources (source : nat) (edges : list Edge) (incoming : list (list nat)) : option (list (list nat)) :=
  match edges with
  | [] => Some incoming
  | edge :: edges =>
      sources ← incoming !! target edge;
      push_sources source edges (<[target edge := sources ++ [source]]> incoming)
  end.

Fixpoint control_incoming (g : FunctionGraph) (source : nat) (reachable : list bool) (incoming : list (list nat)) : option (list (list nat)) :=
  match reachable with
  | [] => Some incoming
  | live :: reachable =>
      incoming ← (if live : bool then edges ← outgoing g source; push_sources source edges incoming else Some incoming);
      control_incoming g (S source) reachable incoming
  end.

(** [Control::scope] on the simplified body. *)
Definition control_scope (incoming : list (list nat)) (preheader : nat) (body : list Layout) (after : nat) : option (list Layout) :=
  let fallthrough := match last body with None => Some preheader | Some (LBlock block) => Some block | _ => None end in
  sources ← incoming !! after;
  Some (if existsb (fun source => negb (bool_decide (Some source = fallthrough))) sources
        then [LScope preheader body after]
        else LBlock preheader :: body).

Section Control.
Context (g : FunctionGraph) (reachable : list bool) (incoming : list (list nat)).

Definition branch_index (branch : nat) : option (option nat) :=
  b ← blocks g !! branch; constant_edge_index (table g) (exit b).

(** [Control::simplify]: what an item becomes. The alternatives of a switch
    are simplified where one is selected from them: a body that is not
    selected is not demanded. *)
Fixpoint simplify_item (item : Layout) : option (list Layout) :=
  let fix simplify (items : list Layout) : option (list Layout) :=
    match items with
    | [] => Some []
    | item :: items => first ← simplify_item item; rest ← simplify items; Some (first ++ rest)
    end in
  let fix simplify_cases (cases : list (Z * list Layout)) : list (Z * option (list Layout)) :=
    match cases with
    | [] => []
    | (key, body) :: cases => (key, simplify body) :: simplify_cases cases
    end in
  live ← reachable !! layout_entry item;
  if negb live then Some []
  else
    match item with
    | LBlock _ => Some [item]
    | LScope preheader body after => body ← simplify body; control_scope incoming preheader body after
    | LIf branch taken otherwise join =>
        index ← branch_index branch;
        match index with
        | Some index =>
            body ← (if Nat.eqb index 0 then simplify taken else simplify otherwise);
            control_scope incoming branch body join
        | None =>
            taken ← simplify taken; otherwise ← simplify otherwise;
            Some [LIf branch taken otherwise join]
        end
    | LSwitch branch cases default join =>
        index ← branch_index branch;
        match index with
        | Some index =>
            body ← match simplify_cases cases !! index with Some (_, body) => body | None => simplify default end;
            control_scope incoming branch body join
        | None =>
            cases ← mapM (fun '(key, body) => body ← body; Some (key, body)) (simplify_cases cases);
            default ← simplify default;
            Some [LSwitch branch cases default join]
        end
    | LLoop preheader header body after =>
        body ← simplify body; Some [LLoop preheader header body after]
    end.

Fixpoint simplify_layout (items : list Layout) : option (list Layout) :=
  match items with
  | [] => Some []
  | item :: items => first ← simplify_item item; rest ← simplify_layout items; Some (first ++ rest)
  end.
End Control.

Definition resolve_exit (t : ValueTable) (b : Block) : option Block :=
  index ← constant_edge_index t (exit b);
  match index with
  | Some index =>
      edge ← exit_edge (exit b) index;
      Some (mkBlock (parameters b) (items b) (callees b) (Jump edge) (scope b))
  | None => Some b
  end.

Definition control_simplify (g : FunctionGraph) (reachable : list bool) : option FunctionGraph :=
  incoming ← control_incoming g 0 reachable (replicate (length (blocks g)) []);
  layout ← simplify_layout g reachable incoming (layout g);
  bs ← mapM (resolve_exit (table g)) (blocks g);
  Some (mkGraph (table g) (effects g) bs layout (entry g) (memories g)).

(** ** prune/storage.rs *)

Record Remapping := mkRemapping { rm_values : list (option nat); rm_effects : list (option nat) }.

(** Stable-order indices of what is retained. *)
Fixpoint indices (next : nat) (retained : list bool) : list (option nat) :=
  match retained with
  | [] => []
  | true :: retained => Some next :: indices (S next) retained
  | false :: retained => None :: indices next retained
  end.

Definition remapping_new (values effects : list bool) : Remapping :=
  mkRemapping (indices 0 values) (indices 0 effects).

Definition remap_value (r : Remapping) (value : nat) : option nat := id ← rm_values r !! value; id.

Definition remap_producer (r : Remapping) (producer : BlockItem) : option BlockItem :=
  match producer with
  | Evaluate value => value ← remap_value r value; Some (Evaluate value)
  | Effect effect => id ← rm_effects r !! effect; effect ← id; Some (Effect effect)
  end.

(** [ValueTable::compact] *)
Definition remap_definition (r : Remapping) (d : ValueDefinition) : option ValueDefinition :=
  match d with
  | DExpression e => e ← try_map (remap_value r) e; Some (DExpression e)
  | DResult producer component => producer ← remap_producer r producer; Some (DResult producer component)
  | _ => Some d
  end.

Fixpoint compact_values (r : Remapping) (retained : list (option nat)) (vs : list Value) : option (list Value) :=
  match vs with
  | [] => Some []
  | v :: vs =>
      match retained with
      | [] => None
      | None :: retained => compact_values r retained vs
      | Some _ :: retained =>
          d ← remap_definition r (definition v);
          vs ← compact_values r retained vs;
          Some (mkValue (ty v) d :: vs)
      end
  end.

Fixpoint compact_bounds (retained : list (option nat)) (bs : list BitBounds) : option (list BitBounds) :=
  match bs with
  | [] => Some []
  | b :: bs =>
      match retained with
      | [] => None
      | None :: retained => compact_bounds retained bs
      | Some _ :: retained => bs ← compact_bounds retained bs; Some (b :: bs)
      end
  end.

Definition table_compact (r : Remapping) (t : ValueTable) : option ValueTable :=
  vs ← compact_values r (rm_values r) (values t);
  bs ← compact_bounds (rm_values r) (bounds t);
  Some (mkTable vs bs []).

Definition clear_unreachable (reachable : list bool) (id : nat) (b : Block) : option Block :=
  live ← reachable !! id;
  Some (if live : bool then b else mkBlock [] [] [] Trap (scope b)).

Fixpoint retain_all (ids : list nat) (retained : list bool) : option (list bool) :=
  match ids with
  | [] => Some retained
  | id :: ids => _ ← retained !! id; retain_all ids (<[id := true]> retained)
  end.

Fixpoint retain_items (g : FunctionGraph) (items : list BlockItem) (retained : list bool) : option (list bool) :=
  match items with
  | [] => Some retained
  | item :: items =>
      results ← producer_results g item; retained ← retain_all results retained; retain_items g items retained
  end.

Definition remap_effect (r : Remapping) (e : GraphEffect) : option GraphEffect :=
  operation ← op_map_inputs (remap_value r) (operation e);
  results ← mapM (remap_value r) (results e);
  Some (mkEffect results operation (origin e)).

Fixpoint compact_effects (r : Remapping) (id : nat) (es : list GraphEffect) : option (list GraphEffect) :=
  match es with
  | [] => Some []
  | e :: es =>
      kept ← rm_effects r !! id;
      match kept with
      | None => compact_effects r (S id) es
      | Some _ => e ← remap_effect r e; es ← compact_effects r (S id) es; Some (e :: es)
      end
  end.

(** The calls among the retained items, by the renumbered effects. *)
Fixpoint item_callees (es : list GraphEffect) (items : list BlockItem) : option (list nat) :=
  match items with
  | [] => Some []
  | Evaluate _ :: items => item_callees es items
  | Effect effect :: items =>
      e ← es !! effect;
      callees ← item_callees es items;
      Some (match kind (operation e) with OpCall target => target :: callees | _ => callees end)
  end.

Definition compact_block (r : Remapping) (es : list GraphEffect) (b : Block) : option Block :=
  parameters ← mapM (remap_value r) (parameters b);
  items ← mapM (remap_producer r) (items b);
  callees ← item_callees es items;
  exit ← exit_map_inputs (remap_value r) (exit b);
  Some (mkBlock parameters items callees exit (scope b)).

Definition storage_compact (g : FunctionGraph) (reachable : list bool) (retained : Retained) : option FunctionGraph :=
  bs ← mapM id (imap (clear_unreachable reachable) (blocks g));
  let g := mkGraph (table g) (effects g) bs (layout g) (entry g) (memories g) in
  b ← bs !! entry g;
  vs ← retain_all (parameters b) (r_values retained);
  vs ← retain_items g (mjoin (items <$> bs)) vs;
  let r := remapping_new vs (r_effects retained) in
  t ← table_compact r (table g);
  es ← compact_effects r 0 (effects g);
  bs ← mapM (compact_block r es) bs;
  Some (mkGraph t es bs (layout g) (entry g) (memories g)).

(** ** prune.rs *)

Definition prune_unused (g : FunctionGraph) (reachable : list bool) (observable : Operation -> bool) : option FunctionGraph :=
  fst <$> prune g reachable observable.

Definition compact (g : FunctionGraph) (observable : Operation -> bool) : option FunctionGraph :=
  live ← reachable g;
  g ← control_simplify g live;
  '(g, retained) ← prune g live observable;
  storage_compact g live retained.
