(* ===== verification/GraphRun.v ===== *)
(** * Running a function graph

    The graph is the source of a Wasm function. Its blocks run from the entry:
    the operations of a block in order, then its exit, which assigns the
    parameters of the block it enters. What an operation does to the world
    outside the function is a parameter.

    Before placement pure values are not scheduled: a value is what its
    definition makes of the parameters and results it is computed from. After
    placement a pure value is computed where an item evaluates it. *)

From S2P Require Import Prelude Bytes Types Floating Expr Evaluate Values Model Valuations Graph.
Local Open Scope Z_scope.

Inductive Outcome : Type :=
| Returned (values : list Literal)
| TailCalled (callee : nat) (arguments : list Literal)
| TailCalledIndirect (table : nat) (slot : Literal) (arguments : list Literal)
| Trapped
(** An operation trapped. *)
| Stopped (operation : OperationKind)
(** Still running after the given number of blocks. *)
| Unfinished.

(** [Local.set] of each value in turn. *)
Fixpoint assign_all (pairs : list (nat * Literal)) (rho : Valuation) : Valuation :=
  match pairs with
  | [] => rho
  | (id, l) :: pairs => assign_all pairs (fun i => if Nat.eqb i id then l else rho i)
  end.

Section Run.
Context {World : Type}.
(** [None] is a trap. *)
Context (run : OperationKind -> list Literal -> World -> option (list Literal * World)).
(** Whether items evaluate the pure values. *)
Context (placed : bool).

Definition read (t : ValueTable) (rho : Valuation) (id : nat) : Literal :=
  if placed then match definition_at t id with Some (DLiteral l) => l | _ => rho id end
  else denote t rho id.

(** A result keeps an arbitrary value where its expression has none. *)
Definition computed (t : ValueTable) (rho : Valuation) (id : nat) : Literal :=
  match values t !! id with
  | Some v => default (rho id) (determined t (read t rho) id v)
  | None => rho id
  end.

Definition run_item (g : FunctionGraph) (item : BlockItem) (rho : Valuation) (w : World)
    : option (Valuation * World + OperationKind) :=
  match item with
  | Evaluate producer =>
      if placed then
        ids ← expression_results (table g) producer;
        Some (inl (assign_all ((fun id => (id, computed (table g) rho id)) <$> ids) rho, w))
      else Some (inl (rho, w))
  | Effect effect =>
      e ← effects g !! effect;
      match run (kind (operation e)) (read (table g) rho <$> op_inputs (operation e)) w with
      | Some (ls, w) => Some (inl (assign_all (zip (results e) ls) rho, w))
      | None => Some (inr (kind (operation e)))
      end
  end.

Fixpoint run_items (g : FunctionGraph) (items : list BlockItem) (rho : Valuation) (w : World)
    : option (Valuation * World + OperationKind * World) :=
  match items with
  | [] => Some (inl (rho, w))
  | item :: items =>
      next ← run_item g item rho w;
      match next with
      | inl (rho, w) => run_items g items rho w
      | inr operation => Some (inr (operation, w))
      end
  end.

(** The scalar a conditional exit tests. *)
Definition tested (t : ValueTable) (rho : Valuation) (id : nat) : option Z :=
  ty ← type_at t id; scalar (read t rho id) ty.

Definition run_exit (t : ValueTable) (e : Exit) (rho : Valuation) : option (Edge + Outcome) :=
  match e with
  | Open => None
  | Jump edge => Some (inl edge)
  | ExitIf condition taken otherwise =>
      bits ← tested t rho condition; Some (inl (if bits =? 0 then otherwise else taken))
  | ExitSwitch selector cases default =>
      bits ← tested t rho selector;
      Some (inl match list_find (fun c => c.1 = bits) cases with Some (_, (_, edge)) => edge | None => default end)
  | Return values => Some (inr (Returned (read t rho <$> values)))
  | TailCall callee arguments => Some (inr (TailCalled callee (read t rho <$> arguments)))
  | TailCallIndirect table slot arguments =>
      Some (inr (TailCalledIndirect table (read t rho slot) (read t rho <$> arguments)))
  | Trap => Some (inr Trapped)
  end.

Definition enter (t : ValueTable) (b : Block) (e : Edge) (rho : Valuation) : Valuation :=
  assign_all (zip (parameters b) (read t rho <$> arguments e)) rho.

(** [fuel] blocks from [block]; [None] is a malformed graph. *)
Fixpoint execute (fuel : nat) (g : FunctionGraph) (block : nat) (rho : Valuation) (w : World)
    : option (Outcome * World) :=
  match fuel with
  | O => Some (Unfinished, w)
  | S fuel =>
      b ← blocks g !! block;
      after ← run_items g (items b) rho w;
      match after with
      | inr (operation, w) => Some (Stopped operation, w)
      | inl (rho, w) =>
          next ← run_exit (table g) (exit b) rho;
          match next with
          | inr outcome => Some (outcome, w)
          | inl edge =>
              b ← blocks g !! target edge;
              execute fuel g (target edge) (enter (table g) b edge rho) w
          end
      end
  end.

Definition execute_graph (fuel : nat) (g : FunctionGraph) : Valuation -> World -> option (Outcome * World) :=
  execute fuel g (entry g).
End Run.

(** ** Well-formed graphs *)

(** Handles name stored things, edges pass one argument for each parameter, and
    parameters and operation results are the values whose definitions say so. *)
Record graph_wf (g : FunctionGraph) : Prop := {
  gw_table : wf (table g);
  gw_entry : (entry g < length (blocks g))%nat;
  gw_parameters : forall block b component id, blocks g !! block = Some b ->
    parameters b !! component = Some id -> definition_at (table g) id = Some (DParameter block component);
  gw_results : forall effect e component id, effects g !! effect = Some e ->
    results e !! component = Some id -> definition_at (table g) id = Some (DResult (Effect effect) component);
  gw_produced : forall id effect component, definition_at (table g) id = Some (DResult (Effect effect) component) ->
    exists e, effects g !! effect = Some e;
  gw_inputs : forall effect e, effects g !! effect = Some e ->
    Forall (fun id => id < length (values (table g)))%nat (op_inputs (operation e));
  gw_items : forall block b item, blocks g !! block = Some b -> item ∈ items b ->
    match item with
    | Effect effect => exists e, effects g !! effect = Some e
    | Evaluate producer => exists e, definition_at (table g) producer = Some (DExpression e)
    end;
  gw_exit : forall block b, blocks g !! block = Some b ->
    Forall (fun id => id < length (values (table g)))%nat (exit_inputs (exit b));
  gw_edges : forall block b edge, blocks g !! block = Some b -> edge ∈ exit_edges (exit b) ->
    exists b', blocks g !! target edge = Some b' /\ length (arguments edge) = length (parameters b');
}.

Lemma definition_lt t id d : definition_at t id = Some d -> (id < length (values t))%nat.
Proof. intros (v & Hv & _)%fmap_Some. by eapply lookup_lt_Some. Qed.

Lemma definition_some t id : (id < length (values t))%nat -> exists v, values t !! id = Some v /\ definition_at t id = Some (definition v).
Proof. intros [v Hv]%lookup_lt_is_Some_2. exists v. unfold definition_at. by rewrite Hv. Qed.

Lemma scalar_some t id : (id < length (values t))%nat -> exists o, scalar_at t id = Some o.
Proof. intros [v Hv]%lookup_lt_is_Some_2. unfold scalar_at. rewrite Hv. cbn. eauto. Qed.

(** *** Exits of a well-formed graph *)

Lemma exit_edges_inputs e edge id : edge ∈ exit_edges e -> id ∈ arguments edge -> id ∈ exit_inputs e.
Proof.
  intros He Hid. assert (id ∈ exit_edges e ≫= arguments) by (apply list_elem_of_bind; by exists edge).
  destruct e; cbn [exit_inputs] in *; try done; try (by apply elem_of_nil in He); by apply list_elem_of_further.
Qed.

Lemma case_index_edge cases (default : Edge) bits :
  (if Nat.eqb (case_index cases bits) (length cases) then Some default else snd <$> cases !! case_index cases bits)
  = Some (match list_find (fun c => c.1 = bits) cases with Some (_, (_, edge)) => edge | None => default end).
Proof.
  unfold case_index. destruct (list_find _ cases) as [[i [k edge]]|] eqn:Hf; [|by rewrite Nat.eqb_refl].
  apply list_find_Some in Hf as (Hl & _ & _). pose proof (lookup_lt_Some _ _ _ Hl).
  rewrite (proj2 (Nat.eqb_neq _ _)) by lia. by rewrite Hl.
Qed.

Lemma outgoing_some g block b : graph_wf g -> blocks g !! block = Some b ->
  exists edges, outgoing g block = Some edges /\ forall e, e ∈ edges -> e ∈ exit_edges (exit b).
Proof.
  intros Hwf Hb. pose proof (gw_exit g Hwf block b Hb) as Hin. unfold outgoing. rewrite Hb. cbn [mbind option_bind].
  destruct (exit b) as [| |c x y|s cs d| | | |]; cbn [constant_edge_index exit_inputs] in *; try (by eexists).
  - apply Forall_cons in Hin as [Hc _]. destruct (scalar_some _ _ Hc) as [[bits|] ->]; cbn; [|by eexists].
    destruct (bits =? 0); cbn; (eexists; split; [done|]); set_solver.
  - apply Forall_cons in Hin as [Hc _]. destruct (scalar_some _ _ Hc) as [[bits|] ->]; cbn [option_map mbind option_bind]; [|by eexists].
    unfold exit_edge. rewrite case_index_edge. cbn. eexists. split; [done|].
    intros e ->%list_elem_of_singleton. destruct (list_find _ cs) as [[i [k edge]]|] eqn:Hf; [|set_solver].
    apply list_find_Some in Hf as (Hl & _ & _). apply elem_of_app. left. apply list_elem_of_fmap.
    exists (k, edge). split; [done|by eapply list_elem_of_lookup_2].
Qed.
