(* ===== verification/GraphCheck.v ===== *)
(** * Checking a graph

    The well-formedness of a concrete graph is decidable, beside that of its table. *)

From S2P Require Import Prelude Bytes Types Floating Expr Evaluate Values Model Graph GraphRun.
Local Open Scope Z_scope.

Definition in_table (g : FunctionGraph) (id : nat) : bool := Nat.ltb id (length (values (table g))).

Definition item_checked (g : FunctionGraph) (item : BlockItem) : bool :=
  match item with
  | Effect effect => Nat.ltb effect (length (effects g))
  | Evaluate p => match definition_at (table g) p with Some (DExpression _) => true | _ => false end
  end.

Definition edge_checked (g : FunctionGraph) (e : Edge) : bool :=
  match blocks g !! target e with Some b => Nat.eqb (length (arguments e)) (length (parameters b)) | None => false end.

Definition block_checked (g : FunctionGraph) (block : nat) (b : Block) : bool :=
  bool_decide (imap (fun c id => (definition_at (table g) id, c)) (parameters b)
    = imap (fun c id => (Some (DParameter block c), c)) (parameters b)) &&
  forallb (item_checked g) (items b) && forallb (in_table g) (exit_inputs (exit b)) && forallb (edge_checked g) (exit_edges (exit b)).

Definition effect_checked (g : FunctionGraph) (effect : nat) (e : GraphEffect) : bool :=
  bool_decide (imap (fun c id => (definition_at (table g) id, c)) (results e)
    = imap (fun c id => (Some (DResult (Effect effect) c), c)) (results e)) &&
  forallb (in_table g) (op_inputs (operation e)).

Definition value_checked (g : FunctionGraph) (v : Value) : bool :=
  match definition v with DResult (Effect effect) _ => Nat.ltb effect (length (effects g)) | _ => true end.

Definition graph_checked (g : FunctionGraph) : bool :=
  Nat.ltb (entry g) (length (blocks g)) && forallb id (imap (block_checked g) (blocks g)) &&
  forallb id (imap (effect_checked g) (effects g)) && forallb (value_checked g) (values (table g)).

Lemma forallb_imap {A} (f : nat -> A -> bool) l i x : forallb id (imap f l) = true -> l !! i = Some x -> f i x = true.
Proof.
  intros H Hx. rewrite forallb_forall in H. apply (H (f i x)), list_elem_of_In, (list_elem_of_lookup_2 _ i).
  by rewrite list_lookup_imap, Hx.
Qed.

Lemma imap_definitions (t : ValueTable) (d : nat -> ValueDefinition) (ids : list nat) c id :
  imap (fun c id => (definition_at t id, c)) ids = imap (fun c id => (Some (d c), c)) ids -> ids !! c = Some id ->
  definition_at t id = Some (d c).
Proof.
  intros H Hc. assert (imap (fun c id => (definition_at t id, c)) ids !! c = imap (fun c id => (Some (d c), c)) ids !! c) as E by (by rewrite H).
  rewrite !list_lookup_imap, Hc in E. by injection E.
Qed.

Lemma graph_checked_wf g : wf (table g) -> graph_checked g = true -> graph_wf g.
Proof.
  intros Hwf. unfold graph_checked. rewrite !andb_true_iff. intros [[[Hentry Hblocks] Heffects] Hvalues].
  assert (forall a b, blocks g !! a = Some b -> block_checked g a b = true) as Hb by (intros a b; by apply forallb_imap).
  assert (forall f e, effects g !! f = Some e -> effect_checked g f e = true) as He by (intros f e; by apply forallb_imap).
  unfold block_checked, effect_checked in *. rewrite forallb_forall in Hvalues. split.
  - done.
  - by apply Nat.ltb_lt.
  - intros a b c p Hab. specialize (Hb a b Hab). rewrite !andb_true_iff in Hb. destruct Hb as [[[Hp _] _] _].
    apply bool_decide_eq_true in Hp. by apply imap_definitions.
  - intros f e c p Hf. specialize (He f e Hf). apply andb_true_iff in He as [Hr _]. apply bool_decide_eq_true in Hr. by apply imap_definitions.
  - intros p f c (v & Hv & Hd)%fmap_Some. specialize (Hvalues v ltac:(by eapply list_elem_of_In, list_elem_of_lookup_2)).
    unfold value_checked in Hvalues. rewrite <- Hd in Hvalues. apply lookup_lt_is_Some_2. by apply Nat.ltb_lt.
  - intros f e Hf. specialize (He f e Hf). apply andb_true_iff in He as [_ Hi]. rewrite forallb_forall in Hi.
    apply Forall_forall. intros p Hp. by apply Nat.ltb_lt, Hi, list_elem_of_In.
  - intros a b item Hab Hin. specialize (Hb a b Hab). rewrite !andb_true_iff in Hb. destruct Hb as [[[_ Hi] _] _].
    rewrite forallb_forall in Hi. specialize (Hi item ltac:(by apply list_elem_of_In)). destruct item as [f|p]; cbn in Hi.
    + apply lookup_lt_is_Some_2. by apply Nat.ltb_lt.
    + destruct (definition_at (table g) p) as [[]|]; try done. by eexists.
  - intros a b Hab. specialize (Hb a b Hab). rewrite !andb_true_iff in Hb. destruct Hb as [[_ Hx] _]. rewrite forallb_forall in Hx.
    apply Forall_forall. intros p Hp. by apply Nat.ltb_lt, Hx, list_elem_of_In.
  - intros a b edge Hab Hin. specialize (Hb a b Hab). rewrite !andb_true_iff in Hb. destruct Hb as [_ He']. rewrite forallb_forall in He'.
    specialize (He' edge ltac:(by apply list_elem_of_In)). unfold edge_checked in He'. destruct (blocks g !! target edge) as [b'|]; [|done].
    exists b'. split; [done|by apply Nat.eqb_eq].
Qed.
