(* ===== verification/PruneLive.v ===== *)
(** * Liveness

    What the exits and the observable operations of reachable blocks use, and
    what computes it, as a rule induction; [liveness] is total on a well-formed
    graph and computes exactly that set. *)

From S2P Require Import Prelude Bytes Types Floating Expr Evaluate Values Model Valuations Graph Prune GraphRun.

(** * Reachable blocks and live values

    [reachable] marks the blocks that paths from the entry lead to, and
    [liveness] the least set of values and executions that holds what the exits
    and the observable operations of reachable blocks use and is closed under
    what computes it. Both terminate within their fuel. *)

(** ** Reachable blocks *)

(** An executable edge from one block to another. *)
Definition leads (g : FunctionGraph) (a b : nat) : Prop :=
  exists edges e, outgoing g a = Some edges /\ e ∈ edges /\ target e = b.

(** Exits test stored values and enter stored blocks. *)
Definition exits_ok (g : FunctionGraph) : Prop :=
  entry g < length (blocks g) /\
  forall block, block < length (blocks g) ->
    exists edges, outgoing g block = Some edges /\ Forall (fun e => target e < length (blocks g)) edges.

Lemma graph_exits_ok g : graph_wf g -> exits_ok g.
Proof.
  intros Hwf. split; [by apply gw_entry|]. intros block [b Hb]%lookup_lt_is_Some_2.
  destruct (outgoing_some g block b Hwf Hb) as (edges & He & Hin). exists edges. split; [done|].
  apply Forall_forall. intros e Hel. destruct (gw_edges g Hwf block b e Hb (Hin e Hel)) as (b' & Hb' & _).
  by eapply lookup_lt_Some.
Qed.

Lemma exit_edge_in e i edge : exit_edge e i = Some edge -> edge ∈ exit_edges e.
Proof.
  destruct e as [| |c a b|s cs d| | | |]; cbn; try done.
  - apply list_elem_of_lookup_2.
  - destruct (Nat.eqb i (length cs)).
    + intros [= ->]. set_solver.
    + intros (x & Hx & ->)%fmap_Some. apply elem_of_app. left.
      apply list_elem_of_fmap. exists x. split; [done|by eapply list_elem_of_lookup_2].
Qed.

Lemma outgoing_edges g a edges : outgoing g a = Some edges ->
  exists b, blocks g !! a = Some b /\ (forall e, e ∈ edges -> e ∈ exit_edges (exit b)) /\
    length edges <= block_degree b.
Proof.
  unfold outgoing, block_degree. intros H. apply bind_Some in H as (b & Hb & H). exists b. split; [done|].
  apply bind_Some in H as (index & Hi & H). destruct index as [i|]; [|by simplify_eq].
  apply bind_Some in H as (edge & He & [= <-]). apply exit_edge_in in He. split; [set_solver|].
  apply list_elem_of_lookup in He as (k & Hk). apply lookup_lt_Some in Hk. cbn. lia.
Qed.

Section Reachable.
Context (g : FunctionGraph).

Definition degree (block : nat) : nat := default 0 (block_degree <$> blocks g !! block).

(** Every successor of a block already seen was seen or is pending. *)
Record searching (s : list bool * list nat) : Prop := {
  se_length : length s.1 = length (blocks g);
  se_range : Forall (fun b => b < length (blocks g)) s.2;
  se_seen : forall b, s.1 !! b = Some true -> rtc (leads g) (entry g) b;
  se_pending : Forall (rtc (leads g) (entry g)) s.2;
  se_closed : forall a b, s.1 !! a = Some true -> leads g a b -> b ∈ s.2 \/ s.1 !! b = Some true;
  se_entry : entry g ∈ s.2 \/ s.1 !! entry g = Some true;
}.

Definition search_measure (s : list bool * list nat) : nat := length s.2 + unset_weight degree 0 s.1.

Definition found (seen : option (list bool)) : Prop :=
  exists l, seen = Some l /\ length l = length (blocks g) /\
    forall b, l !! b = Some true <-> rtc (leads g) (entry g) b.

Lemma search_done seen : searching (seen, []) -> found (Some seen).
Proof.
  intros [Hlen _ Hseen _ Hclosed Hentry]. exists seen. split_and!; [done|done|]. intros b. split; [apply Hseen|].
  intros Hr. revert b Hr. apply rtc_ind_r.
  - destruct Hentry as [H|H]; [by apply elem_of_nil in H|done].
  - intros y z _ Hyz Hy. destruct (Hclosed y z Hy Hyz) as [H|H]; [by apply elem_of_nil in H|done].
Qed.

Lemma search_step s : exits_ok g -> searching s ->
  match reachable_step g s with
  | inl s' => searching s' /\ search_measure s' < search_measure s
  | inr r => found r
  end.
Proof.
  intros [_ Hok] Hs. destruct s as [seen [|block pending]]; [by apply search_done|].
  destruct Hs as [Hlen Hrange Hseen Hpend Hclosed Hentry]. cbn [fst snd] in *. cbn [reachable_step].
  apply Forall_cons in Hrange as [Hb Hrange]. apply Forall_cons in Hpend as [Hrb Hpend].
  destruct (Hok block Hb) as (edges & He & Htargets).
  destruct (lookup_lt_is_Some_2 seen block ltac:(lia)) as [flag Hflag]. rewrite Hflag, He. destruct flag.
  - split; [|unfold search_measure; cbn; lia]. split; cbn [fst snd]; try done.
    + intros a b Ha Hab. destruct (Hclosed a b Ha Hab) as [[->|H]%elem_of_cons|H]; auto.
    + destruct Hentry as [[->|H]%elem_of_cons|H]; auto.
  - assert (forall b, <[block:=true]> seen !! b = Some true <-> b = block \/ seen !! b = Some true) as Hset.
    { intros b. destruct (decide (b = block)) as [->|].
      - rewrite list_lookup_insert_eq by lia. naive_solver.
      - rewrite list_lookup_insert_ne by done. naive_solver. }
    assert (forall b, b ∈ rev (target <$> edges) <-> leads g block b) as Hnew.
    { intros b. rewrite rev_reverse, elem_of_reverse, list_elem_of_fmap. unfold leads. split.
      - intros (e & -> & Hin). by exists edges, e.
      - intros (edges' & e & He' & Hin & Ht). simplify_eq. by exists e. }
    split; [split|]; cbn [fst snd].
    + by rewrite length_insert.
    + apply Forall_app. split; [|done]. rewrite rev_reverse. apply Forall_reverse, Forall_fmap. done.
    + intros b [->|H]%Hset; [done|by apply Hseen].
    + apply Forall_app. split; [|done]. apply Forall_forall. intros b Hin. apply Hnew in Hin.
      by eapply rtc_r.
    + intros a b [->|Ha]%Hset Hab; rewrite elem_of_app, Hset, Hnew; [by auto|].
      destruct (Hclosed a b Ha Hab) as [[->|H]%elem_of_cons|H]; auto.
    + rewrite elem_of_app, Hset. destruct Hentry as [[->|H]%elem_of_cons|H]; auto.
    + unfold search_measure. cbn [fst snd]. rewrite length_app, rev_reverse, length_reverse, length_fmap.
      rewrite (unset_weight_set degree seen block 0 Hflag). cbn.
      apply outgoing_edges in He as (b & Hlook & _ & Hd). unfold degree at 2. rewrite Hlook. cbn. lia.
Qed.

Lemma reachable_found : exits_ok g -> found (reachable g).
Proof.
  intros Hok. unfold reachable, reachable_fuel.
  edestruct (repeat_times_measure (reachable_step g) searching found search_measure) as (r & -> & Hr); [..|exact Hr].
  - intros s. by apply search_step.
  - destruct Hok as [He Hok]. split; cbn [fst snd].
    + apply length_replicate.
    + by apply Forall_singleton.
    + intros b [Hf _]%lookup_replicate. done.
    + apply Forall_singleton. by apply rtc_refl.
    + intros a b [Hf _]%lookup_replicate. done.
    + left. by apply list_elem_of_singleton.
  - unfold search_measure. cbn [fst snd length]. rewrite unset_weight_replicate.
    replace (degree <$> seq 0 (length (blocks g))) with (block_degree <$> blocks g); [lia|].
    apply list_eq. intros i. rewrite !list_lookup_fmap. unfold degree.
    destruct (blocks g !! i) as [b|] eqn:Hb.
    + rewrite lookup_seq_lt by (by eapply lookup_lt_Some). cbn. by rewrite Hb.
    + apply lookup_ge_None in Hb. by rewrite lookup_seq_ge.
Qed.
End Reachable.

Lemma exit_roots_inputs e id : id ∈ exit_roots e -> id ∈ exit_inputs e.
Proof. destruct e; cbn; try done; by (intros []%elem_of_nil || (intros ->%list_elem_of_singleton; left)). Qed.

Section Live.
Context (g : FunctionGraph) (live : list bool) (observable : Operation -> bool).

Definition exit_uses (n id : nat) : Prop :=
  exists a b, a < n /\ live !! a = Some true /\ blocks g !! a = Some b /\ id ∈ exit_roots (exit b).

Definition observes (n effect : nat) (e : GraphEffect) : Prop :=
  exists a b, a < n /\ live !! a = Some true /\ blocks g !! a = Some b /\ Effect effect ∈ items b /\
    effects g !! effect = Some e /\ observable (operation e) = true.

(** The pairs of a parameter and an argument of one edge. *)
Definition passes (edge : Edge) (parameter argument : nat) : Prop :=
  exists b, blocks g !! target edge = Some b /\ (parameter, argument) ∈ zip (parameters b) (arguments edge).

Definition flows (n parameter argument : nat) : Prop :=
  exists a edges edge, a < n /\ live !! a = Some true /\ outgoing g a = Some edges /\ edge ∈ edges /\
    passes edge parameter argument.

(** The least set of values and executions the function needs. *)
Inductive needed : nat + BlockItem -> Prop :=
| needed_exit id : exit_uses (length (blocks g)) id -> needed (inl id)
| needed_observed effect e : observes (length (blocks g)) effect e -> needed (inr (Effect effect))
| needed_producer id producer :
    needed (inl id) -> producer_of g id = Some (Some producer) -> needed (inr producer)
| needed_input producer ids id :
    needed (inr producer) -> producer_inputs g producer = Some ids -> id ∈ ids -> needed (inl id)
| needed_argument id block component argument :
    needed (inl id) -> definition_at (table g) id = Some (DParameter block component) ->
    flows (length (blocks g)) id argument -> needed (inl argument).

(** ** Incoming arguments *)

Lemma push_incoming_some pairs inc : Forall (fun p => p.1 < length inc) pairs ->
  exists inc', push_incoming pairs inc = Some inc' /\ length inc' = length inc /\
    forall p l', inc' !! p = Some l' -> exists l, inc !! p = Some l /\ forall y, y ∈ l' <-> y ∈ l \/ (p, y) ∈ pairs.
Proof.
  revert inc. induction pairs as [|[q y] pairs IH]; intros inc Hin; cbn [push_incoming].
  - exists inc. split_and!; [done|done|]. intros p l' Hl. exists l'. split; [done|]. set_solver.
  - apply Forall_cons in Hin as [Hq Hin]. cbn in Hq.
    destruct (lookup_lt_is_Some_2 inc q Hq) as [l Hl]. rewrite Hl. cbn [mbind option_bind].
    destruct (IH (<[q := l ++ [y]]> inc)) as (inc' & -> & Hlen & Hspec); [by rewrite length_insert|].
    rewrite length_insert in Hlen. exists inc'. split_and!; [done|done|]. intros p l' Hl'.
    destruct (Hspec p l' Hl') as (l0 & Hl0 & Hy). destruct (decide (p = q)) as [->|].
    + rewrite list_lookup_insert_eq in Hl0 by done. simplify_eq. exists l. split; [done|].
      intros z. rewrite Hy. set_solver.
    + rewrite list_lookup_insert_ne in Hl0 by done. exists l0. split; [done|].
      intros z. rewrite Hy. set_solver.
Qed.

Definition parameters_ok (n : nat) : Prop :=
  forall block b, blocks g !! block = Some b -> Forall (fun id => id < n) (parameters b).

Lemma edges_incoming_some edges inc : parameters_ok (length inc) ->
  Forall (fun e => target e < length (blocks g)) edges ->
  exists inc', edges_incoming g edges inc = Some inc' /\ length inc' = length inc /\
    forall p l', inc' !! p = Some l' -> exists l, inc !! p = Some l /\
      forall y, y ∈ l' <-> y ∈ l \/ exists e, e ∈ edges /\ passes e p y.
Proof.
  intros Hp. revert inc Hp. induction edges as [|e edges IH]; intros inc Hp Hin; cbn [edges_incoming].
  - exists inc. split_and!; [done|done|]. intros p l' Hl. exists l'. split; [done|]. set_solver.
  - apply Forall_cons in Hin as [[b Hb]%lookup_lt_is_Some_2 Hin]. rewrite Hb. cbn [mbind option_bind].
    destruct (push_incoming_some (zip (parameters b) (arguments e)) inc) as (inc1 & -> & Hlen & Hspec).
    { specialize (Hp _ _ Hb). apply Forall_forall. intros [p y] Hpy%elem_of_zip_l. exact (proj1 (Forall_forall _ _) Hp p Hpy). }
    cbn. destruct (IH inc1) as (inc' & -> & Hlen' & Hspec'); [by rewrite Hlen|done|].
    exists inc'. split_and!; [done|lia|]. intros p l' Hl'.
    destruct (Hspec' p l' Hl') as (l1 & Hl1 & Hy1). destruct (Hspec p l1 Hl1) as (l & Hl & Hy). exists l. split; [done|].
    intros y. rewrite Hy1, Hy. split.
    + intros [[H|H]|(e' & He' & H)]; [by left|right; exists e; split; [set_solver|by exists b]|right; exists e'; set_solver].
    + intros [H|(e' & [->|He']%elem_of_cons & H)]; [by auto|destruct H as (b' & Hb' & H); simplify_eq; by auto|right; by exists e'].
Qed.

(** ** Roots *)

Lemma item_roots_some its m : length (live_effects m) = length (effects g) ->
  (forall effect, Effect effect ∈ its -> exists e, effects g !! effect = Some e) ->
  exists m', item_roots g observable its m = Some m' /\
    live_values m' = live_values m /\ live_calculations m' = live_calculations m /\
    length (live_effects m') = length (effects g) /\
    (forall effect, live_effects m' !! effect = Some true <->
      live_effects m !! effect = Some true \/
      exists e, Effect effect ∈ its /\ effects g !! effect = Some e /\ observable (operation e) = true) /\
    (forall id, id ∈ pending m' <-> id ∈ pending m \/
      exists effect e, Effect effect ∈ its /\ effects g !! effect = Some e /\ observable (operation e) = true /\
        id ∈ op_inputs (operation e)).
Proof.
  revert m. induction its as [|[effect|p] its IH]; intros m Hlen Hits; cbn [item_roots].
  - exists m. split_and!; try done; set_solver.
  - destruct (Hits effect) as [e He]; [set_solver|]. rewrite He. cbn [mbind option_bind].
    destruct (observable (operation e)) eqn:Hobs.
    + destruct (IH (extend (op_inputs (operation e)) (mark_effect effect m))) as (m' & -> & Hv & Hc & Hl & He' & Hp).
      { cbn. by rewrite length_insert. } { intros f Hf. apply Hits. by right. }
      exists m'. split_and!; try done.
      * intros f. rewrite He'. cbn. pose proof (lookup_lt_Some _ _ _ He).
        destruct (decide (f = effect)) as [->|].
        -- rewrite list_lookup_insert_eq by lia. split; [|by auto]. intros _. right. exists e. split_and!; [left|done|done].
        -- rewrite list_lookup_insert_ne by done. split.
           ++ intros [H1|(e' & H1 & H2)]; [by left|right; exists e'; split; [by right|done]].
           ++ intros [H1|(e' & [H1|H1]%elem_of_cons & H2)]; [by left|congruence|right; by exists e'].
      * intros id. rewrite Hp. cbn [pending extend mark_effect]. rewrite elem_of_app, rev_reverse, elem_of_reverse. split.
        -- intros [[H1|H1]|(f & e' & H1 & H2)]; [right; exists effect, e; by split_and!; [left|..]|by left|].
           right. exists f, e'. split; [by right|done].
        -- intros [H1|(f & e' & [H1|H1]%elem_of_cons & H2 & H3 & H4)]; [by auto| |right; by exists f, e'].
           injection H1 as ->. simplify_eq. by auto.
    + destruct (IH m Hlen) as (m' & -> & Hv & Hc & Hl & He' & Hp); [intros f Hf; apply Hits; by right|].
      exists m'. split_and!; try done.
      * intros f. rewrite He'. split.
        -- intros [H1|(e' & H1 & H2)]; [by left|right; exists e'; split; [by right|done]].
        -- intros [H1|(e' & [H1|H1]%elem_of_cons & H2 & H3)]; [by left|simplify_eq; congruence|right; by exists e'].
      * intros id. rewrite Hp. split.
        -- intros [H1|(f & e' & H1 & H2)]; [by left|right; exists f, e'; split; [by right|done]].
        -- intros [H1|(f & e' & [H1|H1]%elem_of_cons & H2 & H3 & H4)]; [by left|simplify_eq; congruence|right; by exists f, e'].
  - destruct (IH m Hlen) as (m' & -> & Hv & Hc & Hl & He' & Hp); [intros f Hf; apply Hits; by right|].
    exists m'. split_and!; try done.
    + intros f. rewrite He'. split.
      * intros [H1|(e' & H1 & H2)]; [by left|right; exists e'; split; [by right|done]].
      * intros [H1|(e' & [H1|H1]%elem_of_cons & H2)]; [by left|done|right; by exists e'].
    + intros id. rewrite Hp. split.
      * intros [H1|(f & e' & H1 & H2)]; [by left|right; exists f, e'; split; [by right|done]].
      * intros [H1|(f & e' & [H1|H1]%elem_of_cons & H2)]; [by left|done|right; by exists f, e'].
Qed.

Notation size := (length (values (table g))).

(** What the blocks before [n] contributed. *)
Record roots (n : nat) (s : Marking * list (list nat)) : Prop := {
  ro_values : live_values s.1 = replicate size false;
  ro_calculations : live_calculations s.1 = replicate size false;
  ro_length : length (live_effects s.1) = length (effects g);
  ro_effects : forall effect, live_effects s.1 !! effect = Some true <-> exists e, observes n effect e;
  ro_pending : forall id, id ∈ pending s.1 <->
    exit_uses n id \/ exists effect e, observes n effect e /\ id ∈ op_inputs (operation e);
  ro_incoming_length : length s.2 = size;
  ro_incoming : forall p l, s.2 !! p = Some l -> forall y, y ∈ l <-> flows n p y;
}.

(** Skipping or adding the block [n]. *)
Lemma exit_uses_S n id : exit_uses (S n) id <-> exit_uses n id \/
  exists b, live !! n = Some true /\ blocks g !! n = Some b /\ id ∈ exit_roots (exit b).
Proof.
  unfold exit_uses. split.
  - intros (a & b & Ha & Hr). destruct (decide (a = n)) as [->|]; [right; by exists b|left; exists a, b; split; [lia|done]].
  - intros [(a & b & Ha & Hr)|(b & Hr)]; [exists a, b; split; [lia|done]|exists n, b; split; [lia|done]].
Qed.

Lemma observes_S n effect e : observes (S n) effect e <-> observes n effect e \/
  exists b, live !! n = Some true /\ blocks g !! n = Some b /\ Effect effect ∈ items b /\
    effects g !! effect = Some e /\ observable (operation e) = true.
Proof.
  unfold observes. split.
  - intros (a & b & Ha & Hr). destruct (decide (a = n)) as [->|]; [right; by exists b|left; exists a, b; split; [lia|done]].
  - intros [(a & b & Ha & Hr)|(b & Hr)]; [exists a, b; split; [lia|done]|exists n, b; split; [lia|done]].
Qed.

Lemma flows_S n p y : flows (S n) p y <-> flows n p y \/
  exists edges edge, live !! n = Some true /\ outgoing g n = Some edges /\ edge ∈ edges /\ passes edge p y.
Proof.
  unfold flows. split.
  - intros (a & es & e & Ha & Hr). destruct (decide (a = n)) as [->|]; [right; by exists es, e|left; exists a, es, e; split; [lia|done]].
  - intros [(a & es & e & Ha & Hr)|(es & e & Hr)]; [exists a, es, e; split; [lia|done]|exists n, es, e; split; [lia|done]].
Qed.

Lemma roots_skip n s : live !! n = Some false -> roots n s -> roots (S n) s.
Proof.
  intros Hn [Hv Hc Hl He Hp Hil Hi]. split; try done.
  - intros effect. rewrite He. split; intros (e & H); exists e; [apply observes_S; by left|].
    apply observes_S in H as [H|(b & H & _)]; [done|congruence].
  - intros id. rewrite Hp. split.
    + intros [H|(effect & e & H & Hin)]; [left; apply exit_uses_S; by left|right; exists effect, e; rewrite observes_S; by auto].
    + intros [H|(effect & e & H & Hin)].
      * apply exit_uses_S in H as [H|(b & H & _)]; [by left|congruence].
      * apply observes_S in H as [H|(b & H & _)]; [right; by exists effect, e|congruence].
  - intros p l Hpl y. rewrite (Hi p l Hpl), flows_S. split; [by auto|].
    intros [H|(es & e & H & _)]; [done|congruence].
Qed.

Context (Hwf : graph_wf g) (Hlive : length live = length (blocks g)).
#[local] Set Default Proof Using "All".

Lemma parameters_range : parameters_ok size.
Proof.
  intros block b Hb. apply Forall_forall. intros id (c & Hc)%list_elem_of_lookup.
  eapply definition_lt, gw_parameters; eauto.
Qed.

Lemma block_roots_some n b s : blocks g !! n = Some b -> roots n s ->
  exists s', block_roots g live observable n b s = Some s' /\ roots (S n) s'.
Proof.
  intros Hb Hs. pose proof (lookup_lt_Some _ _ _ Hb) as Hlt. unfold block_roots.
  destruct (lookup_lt_is_Some_2 live n ltac:(lia)) as [[|] Hn]; rewrite Hn; cbn [mbind option_bind];
    [|exists s; split; [done|by apply roots_skip]].
  destruct s as [m inc], Hs as [Hv Hc Hl He Hp Hil Hi]. cbn [fst snd] in *.
  destruct (outgoing_some g n b Hwf Hb) as (edges & Hedges & Hsub). rewrite Hedges. cbn [mbind option_bind].
  destruct (edges_incoming_some edges inc) as (inc' & -> & Hlen & Hspec).
  { rewrite Hil. apply parameters_range. }
  { apply Forall_forall. intros e Hel. destruct (gw_edges g Hwf n b e Hb (Hsub e Hel)) as (b' & Hb' & _).
    by eapply lookup_lt_Some. }
  cbn [mbind option_bind].
  destruct (item_roots_some (items b) (extend (exit_roots (exit b)) m)) as (m' & -> & Hv' & Hc' & Hl' & He' & Hp');
    [done|intros effect Hin; apply (gw_items g Hwf n b _ Hb Hin)|].
  cbn [mbind option_bind]. eexists. split; [done|]. split; cbn [fst snd]; rewrite ?Hv', ?Hc'; try done; [| |lia|].
  - intros effect. rewrite He'. cbn [live_effects extend]. rewrite He. split.
    + intros [(e & H)|(e & H)]; exists e; apply observes_S; [by left|right; by exists b].
    + intros (e & H). apply observes_S in H as [H|(b' & _ & Hb' & H)]; [left; by exists e|]. simplify_eq. right. by exists e.
  - intros id. rewrite Hp'. cbn [pending extend]. rewrite elem_of_app, rev_reverse, elem_of_reverse, Hp. split.
    + intros [[H|[H|(f & e & H & Hin)]]|(f & e & H1 & H2 & H3 & H4)].
      * left. apply exit_uses_S. right. by exists b.
      * left. apply exit_uses_S. by left.
      * right. exists f, e. split; [apply observes_S; by left|done].
      * right. exists f, e. split; [apply observes_S; right; by exists b|done].
    + intros [H|(f & e & H & Hin)].
      * apply exit_uses_S in H as [H|(b' & _ & Hb' & H)]; [by auto|]. simplify_eq. by auto.
      * apply observes_S in H as [H|(b' & _ & Hb' & H1 & H2 & H3)]; [left; right; right; by exists f, e|].
        simplify_eq. right. by exists f, e.
  - intros p l' Hl2 y. destruct (Hspec p l' Hl2) as (l & Hpl & Hy). rewrite Hy, (Hi p l Hpl), flows_S. split.
    + intros [H|(e & H)]; [by left|right; by exists edges, e].
    + intros [H|(es & e & _ & Hes & H)]; [by left|]. simplify_eq. right. by exists e.
Qed.

Lemma graph_roots_some bs n s : (forall i b, bs !! i = Some b -> blocks g !! (n + i) = Some b) -> roots n s ->
  exists s', graph_roots g live observable n bs s = Some s' /\ roots (n + length bs) s'.
Proof.
  revert n s. induction bs as [|b bs IH]; intros n s Hbs Hs; cbn [graph_roots].
  - exists s. by rewrite Nat.add_0_r.
  - destruct (block_roots_some n b s) as (s1 & -> & Hs1); [|done|].
    { specialize (Hbs 0 b eq_refl). by rewrite Nat.add_0_r in Hbs. }
    cbn [mbind option_bind]. destruct (IH (S n) s1) as (s' & -> & Hs'); [|done|].
    { intros i b' Hi. specialize (Hbs (S i) b' Hi). by rewrite Nat.add_succ_comm. }
    exists s'. split; [done|]. cbn [length]. by rewrite <- Nat.add_succ_comm.
Qed.

(** ** Marking *)

Lemma inputs_before id e : definition_at (table g) id = Some (DExpression e) -> Forall (fun i => i < size) (inputs e).
Proof.
  intros (v & Hv & Hd)%fmap_Some. pose proof (wf_value _ (gw_table g Hwf) id v Hv) as Hok. unfold value_ok in Hok.
  rewrite <- Hd in Hok. destruct Hok as (Hin & _). apply lookup_lt_Some in Hv.
  eapply Forall_impl; [exact Hin|]. cbn. lia.
Qed.

(** What is needed is stored. *)
Definition stored (x : nat + BlockItem) : Prop :=
  match x with
  | inl id => id < size
  | inr (Effect effect) => exists e, effects g !! effect = Some e
  | inr (Evaluate producer) => exists e, definition_at (table g) producer = Some (DExpression e)
  end.

Lemma producer_stored id producer : producer_of g id = Some (Some producer) -> stored (inr producer).
Proof.
  unfold producer_of. intros (d & Hd & H)%bind_Some. destruct d as [|e| |q c]; simplify_eq; [by exists e|].
  destruct producer as [effect|p]; cbn; [by eapply gw_produced|].
  pose proof Hd as (v & Hv & Hvd)%fmap_Some. pose proof (wf_value _ (gw_table g Hwf) id v Hv) as Hok. unfold value_ok in Hok.
  rewrite <- Hvd in Hok. destruct Hok as (c' & pv & e & -> & -> & Hp & Hpd & _). exists e.
  unfold definition_at. by rewrite Hp, <- Hpd.
Qed.

Lemma inputs_stored producer ids : stored (inr producer) -> producer_inputs g producer = Some ids ->
  Forall (fun id => id < size) ids.
Proof.
  destruct producer as [effect|p]; cbn.
  - intros [e He]. rewrite He. intros [= <-]. by eapply gw_inputs.
  - intros [e He]. rewrite He. intros [= <-]. by eapply inputs_before.
Qed.

Lemma needed_stored x : needed x -> stored x.
Proof.
  induction 1 as [id (a & b & _ & _ & Hb & Hin)|effect e (a & b & _ & _ & _ & _ & He & _)|id producer _ _ Hp
    |producer ids id _ IH Hids Hin|id block c y _ _ _ (a & edges & e & _ & _ & Ho & He & b & Hb & Hy)]; cbn.
  - by eapply (proj1 (Forall_forall _ _) (gw_exit g Hwf a b Hb)), exit_roots_inputs.
  - by exists e.
  - by eapply producer_stored.
  - by eapply (proj1 (Forall_forall _ _) (inputs_stored producer ids IH Hids)).
  - apply elem_of_zip_r in Hy. apply outgoing_edges in Ho as (b' & Hb' & Hsub & _).
    eapply (proj1 (Forall_forall _ _) (gw_exit g Hwf a b' Hb')), exit_edges_inputs; [by apply Hsub|done].
Qed.

Context (inc : list (list nat)) (Hinc : length inc = size).
Context (Hflows : forall p l, inc !! p = Some l -> forall y, y ∈ l <-> flows (length (blocks g)) p y).

Record marking (m : Marking) : Prop := {
  ma_values : length (live_values m) = size;
  ma_calculations : length (live_calculations m) = size;
  ma_effects : length (live_effects m) = length (effects g);
  ma_pending : forall id, id ∈ pending m -> needed (inl id);
  ma_live : forall id, live_values m !! id = Some true -> needed (inl id);
  ma_marked : forall producer, marked m producer = Some true -> needed (inr producer);
  ma_producer : forall id producer, live_values m !! id = Some true -> producer_of g id = Some (Some producer) ->
    marked m producer = Some true;
  ma_inputs : forall producer ids id, marked m producer = Some true -> producer_inputs g producer = Some ids ->
    id ∈ ids -> id ∈ pending m \/ live_values m !! id = Some true;
  ma_arguments : forall id block c argument, live_values m !! id = Some true ->
    definition_at (table g) id = Some (DParameter block c) -> flows (length (blocks g)) id argument ->
    argument ∈ pending m \/ live_values m !! argument = Some true;
  ma_exit : forall id, exit_uses (length (blocks g)) id -> id ∈ pending m \/ live_values m !! id = Some true;
  ma_observed : forall effect e, observes (length (blocks g)) effect e -> live_effects m !! effect = Some true;
}.

(** The marks are exactly what is needed. *)
Definition exact (o : option Marking) : Prop := exists m, o = Some m /\
  length (live_values m) = size /\ length (live_calculations m) = size /\
  length (live_effects m) = length (effects g) /\
  (forall id, live_values m !! id = Some true <-> needed (inl id)) /\
  (forall producer, marked m producer = Some true <-> needed (inr producer)).

Lemma marking_complete m x : marking m -> pending m = [] -> needed x ->
  match x with inl id => live_values m !! id = Some true | inr producer => marked m producer = Some true end.
Proof.
  intros [_ _ _ _ _ _ Hpr Hin Harg Hex Hobs] Hp. rewrite Hp in *.
  induction 1 as [id Hu|effect e Ho|id producer _ IH Hid|producer ids id _ IH Hids Hid|id block c y _ IH Hd Hf].
  - by destruct (Hex id Hu) as [[]%elem_of_nil|].
  - by eapply Hobs.
  - by eapply Hpr.
  - by destruct (Hin producer ids id IH Hids Hid) as [[]%elem_of_nil|].
  - by destruct (Harg id block c y IH Hd Hf) as [[]%elem_of_nil|].
Qed.

Lemma marking_done m : marking m -> pending m = [] -> exact (Some m).
Proof.
  intros Hm Hp. exists m. split_and!; [done|by apply ma_values|by apply ma_calculations|by apply ma_effects|..].
  - intros id. split; [by apply ma_live|by apply (marking_complete m (inl id))].
  - intros producer. split; [by apply ma_marked|by apply (marking_complete m (inr producer))].
Qed.

(** The pending value on top is already live. *)
Lemma marking_skip m id rest : marking m -> pending m = id :: rest -> live_values m !! id = Some true ->
  marking (mkMarking (live_values m) (live_calculations m) (live_effects m) rest).
Proof.
  intros [Hv Hc He Hpend Hl Hmk Hpr Hin Harg Hex Hobs] Hp Hid. rewrite Hp in *.
  assert (forall y, y ∈ id :: rest \/ live_values m !! y = Some true -> y ∈ rest \/ live_values m !! y = Some true) as Hsub.
  { intros y [[->|Hy]%elem_of_cons|Hy]; auto. }
  split; cbn [live_values live_calculations live_effects pending]; try done.
  - intros y Hy. apply Hpend. by right.
  - intros producer ids y H1 H2 H3. by eapply Hsub, Hin.
  - intros y block c argument H1 H2 H3. by eapply Hsub, Harg.
  - intros y Hy. by apply Hsub, Hex.
Qed.

(** The pending value on top becomes live and adds [ids], for [extra] perhaps. *)
Lemma marking_grow m id rest ids (extra : option BlockItem) m' :
  marking m -> pending m = id :: rest -> live_values m !! id = Some false ->
  live_values m' = <[id := true]> (live_values m) -> pending m' = rev ids ++ rest ->
  length (live_calculations m') = size -> length (live_effects m') = length (effects g) ->
  (forall producer, marked m' producer = Some true <-> marked m producer = Some true \/ extra = Some producer) ->
  Forall (fun y => needed (inl y)) ids ->
  (forall producer, extra = Some producer -> needed (inr producer) /\ producer_inputs g producer = Some ids) ->
  (forall producer, producer_of g id = Some (Some producer) -> marked m' producer = Some true) ->
  (forall block c y, definition_at (table g) id = Some (DParameter block c) -> flows (length (blocks g)) id y -> y ∈ ids) ->
  marking m'.
Proof.
  intros [Hv Hc He Hpend Hl Hmk Hpr Hin Harg Hex Hobs] Hp Hid Hv' Hp' Hc' He' Hmarks Hids Hextra Hprod Hargs.
  pose proof (lookup_lt_Some _ _ _ Hid) as Hlt.
  assert (forall y, live_values m' !! y = Some true <-> y = id \/ live_values m !! y = Some true) as Hset.
  { intros y. rewrite Hv'. destruct (decide (y = id)) as [->|].
    - rewrite list_lookup_insert_eq by lia. naive_solver.
    - rewrite list_lookup_insert_ne by done. naive_solver. }
  assert (forall y, y ∈ pending m' <-> y ∈ ids \/ y ∈ rest) as Hpen.
  { intros y. by rewrite Hp', elem_of_app, rev_reverse, elem_of_reverse. }
  rewrite Hp in *.
  assert (forall y, y ∈ id :: rest \/ live_values m !! y = Some true -> y ∈ pending m' \/ live_values m' !! y = Some true) as Hsub.
  { intros y H. rewrite Hpen, Hset. destruct H as [[->|H]%elem_of_cons|H]; auto. }
  rewrite Forall_forall in Hids. split.
  - rewrite Hv'. by rewrite length_insert.
  - done.
  - done.
  - intros y [H|H]%Hpen; [by apply Hids|apply Hpend; by right].
  - intros y [->|H]%Hset; [apply Hpend; by left|by apply Hl].
  - intros producer [H|H]%Hmarks; [by apply Hmk|by apply Hextra].
  - intros y producer [->|H]%Hset H2; [by apply Hprod|]. apply Hmarks. left. by eapply Hpr.
  - intros producer ids' y [H|H]%Hmarks H2 H3; [by eapply Hsub, Hin|].
    apply Hextra in H as [_ H]. simplify_eq. left. apply Hpen. by left.
  - intros y block c argument [->|H]%Hset H2 H3; [|by eapply Hsub, Harg].
    left. apply Hpen. left. by eapply Hargs.
  - intros y H. by apply Hsub, Hex.
  - intros effect e H. apply (Hmarks (Effect effect)). left. by eapply Hobs.
Qed.

Lemma marked_producer m producer p : marked m producer = Some false ->
  marked (mark_producer producer m) p = Some true <-> marked m p = Some true \/ Some producer = Some p.
Proof.
  destruct producer as [x|x], p as [y|y]; cbn; intros Hx; try (split; [by auto|by intros [H|H]]).
  all: pose proof (lookup_lt_Some _ _ _ Hx) as Hlt; destruct (decide (x = y)) as [->|].
  1, 3: rewrite list_lookup_insert_eq by done; split; [by auto|done].
  all: rewrite list_lookup_insert_ne by done; split; [by auto|]; by intros [H|H]; simplify_eq.
Qed.

Lemma lookup_marked m producer : (exists b, marked m producer = Some b) -> marked (mark_producer producer m) producer = Some true.
Proof.
  intros [b Hb]. destruct producer; cbn in *; rewrite list_lookup_insert_eq; try done; by eapply lookup_lt_Some.
Qed.

Lemma marked_some m producer : marking m -> stored (inr producer) -> exists b, marked m producer = Some b.
Proof.
  intros Hm Hs. destruct producer as [effect|p]; cbn in *.
  - destruct Hs as [e He%lookup_lt_Some]. apply lookup_lt_is_Some_2. by rewrite (ma_effects m Hm).
  - destruct Hs as [e He%definition_lt]. apply lookup_lt_is_Some_2. by rewrite (ma_calculations m Hm).
Qed.

(** Nothing produces the value on top: its arguments are added. *)
Lemma mark_plain m id rest ids : marking m -> pending m = id :: rest -> live_values m !! id = Some false ->
  producer_of g id = Some None -> Forall (fun y => needed (inl y)) ids ->
  (forall block c y, definition_at (table g) id = Some (DParameter block c) -> flows (length (blocks g)) id y -> y ∈ ids) ->
  marking (extend ids (mark_value id rest m)).
Proof.
  intros Hm Hp Hid Hpo Hids Harg.
  apply (marking_grow m id rest ids None); try done.
  - apply (ma_calculations m Hm).
  - apply (ma_effects m Hm).
  - intros p. destruct p; cbn; naive_solver.
  - intros p Hp'. congruence.
Qed.

Definition visit_producer (m : Marking) (producer : BlockItem) : option Marking :=
  live ← marked m producer;
  if live : bool then Some m
  else inputs ← producer_inputs g producer; Some (extend inputs (mark_producer producer m)).

Lemma mark_through m id rest producer : marking m -> pending m = id :: rest -> live_values m !! id = Some false ->
  producer_of g id = Some (Some producer) ->
  exists m' ids, visit_producer (mark_value id rest m) producer = Some m' /\ marking m' /\
    live_values m' = <[id := true]> (live_values m) /\ pending m' = rev ids ++ rest /\
    length ids <= default 0 (length <$> producer_inputs g producer).
Proof.
  intros Hm Hp Hid Hpo. pose proof (producer_stored id producer Hpo) as Hps.
  pose proof (ma_calculations m Hm) as Hc. pose proof (ma_effects m Hm) as He.
  assert (needed (inr producer)) as Hneed.
  { eapply needed_producer; [|exact Hpo]. apply (ma_pending m Hm). rewrite Hp. left. }
  assert (forall block c y, definition_at (table g) id = Some (DParameter block c) ->
    flows (length (blocks g)) id y -> False) as Hnp.
  { intros block c y Hd _. unfold producer_of in Hpo. by rewrite Hd in Hpo. }
  destruct (marked_some m producer Hm Hps) as [b Hb]. unfold visit_producer.
  replace (marked (mark_value id rest m) producer) with (marked m producer) by (by destruct producer).
  rewrite Hb. cbn [mbind option_bind]. destruct b.
  - exists (mark_value id rest m), []. split_and!; try done; [|cbn; lia].
    apply (marking_grow m id rest [] None); try done.
    + intros p. destruct p; cbn; naive_solver.
    + intros p Hp'. assert (p = producer) as -> by congruence. by destruct producer.
    + intros block c y Hd Hf. by destruct (Hnp block c y Hd Hf).
  - assert (exists ids, producer_inputs g producer = Some ids) as [ids Hids].
    { destruct producer as [f|p]; cbn in *; destruct Hps as [e Hpe]; rewrite Hpe; by eexists. }
    rewrite Hids. cbn [mbind option_bind]. eexists _, ids. split_and!; try done; [|by destruct producer..].
    apply (marking_grow m id rest ids (Some producer)); try done.
    1, 2: by destruct producer.
    1, 2: destruct producer; cbn; by rewrite ?length_insert.
    + intros p. rewrite <- (marked_producer m producer p Hb). by destruct producer, p.
    + apply Forall_forall. intros y Hy. by eapply needed_input.
    + intros p [= ->]. done.
    + intros p Hp'. assert (p = producer) as -> by congruence. cbn. apply (lookup_marked (mark_value id rest m) producer).
      exists false. by destruct producer.
    + intros block c y Hd Hf. by destruct (Hnp block c y Hd Hf).
Qed.

Lemma mark_visit_some m id rest : marking m -> pending m = id :: rest -> live_values m !! id = Some false ->
  exists m' ids, mark_visit g inc id (mark_value id rest m) = Some m' /\ marking m' /\
    live_values m' = <[id := true]> (live_values m) /\ pending m' = rev ids ++ rest /\
    length ids <= mark_weight g inc id.
Proof.
  intros Hm Hp Hid. pose proof (ma_pending m Hm id ltac:(rewrite Hp; left)) as Hneed.
  pose proof (needed_stored _ Hneed) as Hst. cbn in Hst. destruct (definition_some _ _ Hst) as (v & Hv & Hd).
  unfold mark_visit, mark_weight. destruct (producer_of g id) as [[producer|]|] eqn:Hpo; cbn [mbind option_bind].
  - by apply mark_through.
  - rewrite Hd. cbn [mbind option_bind]. unfold producer_of in Hpo. rewrite Hd in Hpo.
    destruct (definition v) as [l|e|block c|q c] eqn:Hdef; cbn in Hpo; try done.
    + exists (mark_value id rest m), []. split_and!; try done; [|cbn; lia].
      apply (mark_plain m id rest []); try done; [unfold producer_of; by rewrite Hd|].
      intros block c y Hd' _. congruence.
    + destruct (lookup_lt_is_Some_2 inc id ltac:(lia)) as [l Hl]. rewrite Hl. cbn [mbind option_bind].
      exists (extend l (mark_value id rest m)), l. split_and!; try done.
      apply mark_plain; try done; [unfold producer_of; by rewrite Hd|..].
      * apply Forall_forall. intros y Hy. eapply needed_argument; [exact Hneed|exact Hd|]. by apply (Hflows id l Hl).
      * intros block' c' y _ Hf. by apply (Hflows id l Hl).
  - unfold producer_of in Hpo. rewrite Hd in Hpo. by destruct (definition v).
Qed.

Definition marking_measure (m : Marking) : nat :=
  length (pending m) + unset_weight (mark_weight g inc) 0 (live_values m).

Lemma mark_step_marking m : marking m ->
  match mark_step g inc m with
  | inl m' => marking m' /\ marking_measure m' < marking_measure m
  | inr r => exact r
  end.
Proof.
  intros Hm. unfold mark_step. destruct (pending m) as [|id rest] eqn:Hp; [by apply marking_done|].
  pose proof (needed_stored _ (ma_pending m Hm id ltac:(rewrite Hp; left))) as Hid. cbn in Hid.
  destruct (lookup_lt_is_Some_2 (live_values m) id) as [b Hb]; [by rewrite (ma_values m Hm)|]. rewrite Hb. destruct b.
  - split; [by eapply marking_skip|]. unfold marking_measure. cbn. rewrite Hp. cbn. lia.
  - destruct (mark_visit_some m id rest Hm Hp Hb) as (m' & ids & -> & Hm' & Hv & Hpend & Hw). split; [done|].
    unfold marking_measure. rewrite Hv, Hpend, Hp, (unset_weight_set (mark_weight g inc) _ id 0 Hb).
    rewrite length_app, rev_reverse, length_reverse. cbn. lia.
Qed.
End Live.

(** [liveness] is total and marks exactly what is needed. *)
Lemma liveness_needed g live observable : graph_wf g -> length live = length (blocks g) ->
  exact g live observable (liveness g live observable).
Proof.
  intros Hwf Hlive. unfold liveness. set (n := length (values (table g))).
  destruct (graph_roots_some g live observable Hwf Hlive (blocks g) 0
    (mkMarking (replicate n false) (replicate n false) (replicate (length (effects g)) false) [], replicate n []))
    as ([m inc] & -> & Hs); [done|..]; cbn [mbind option_bind].
  - split; cbn [fst snd live_values live_calculations live_effects pending]; rewrite ?length_replicate; try done.
    + intros effect. split; [by intros [? _]%lookup_replicate|by intros (e & a & b & Ha & _); lia].
    + intros id. split; [by intros []%elem_of_nil|].
      intros [(a & b & Ha & _)|(f & e & (a & b & Ha & _) & _)]; lia.
    + intros p l [-> _]%lookup_replicate y. split; [by intros []%elem_of_nil|by intros (a & es & e & Ha & _); lia].
  - destruct Hs as [Hv Hc Hl He Hp Hil Hi]. cbn [fst snd] in *. fold n in Hv, Hc, Hil.
    edestruct (repeat_times_measure (mark_step g inc) (marking g live observable) (exact g live observable) (marking_measure g inc))
      as (r & Hr & Hex); [..|by rewrite Hr].
    + intros m'. by apply mark_step_marking.
    + assert (forall id, ~ live_values m !! id = Some true) as Hnv by (rewrite Hv; by intros id [? _]%lookup_replicate).
      assert (forall p, ~ live_calculations m !! p = Some true) as Hnc by (rewrite Hc; by intros id [? _]%lookup_replicate).
      split; rewrite ?Hv, ?Hc, ?length_replicate; try done.
      * intros id Hid. apply Hp in Hid as [H|(f & e & H & Hin)]; [by apply needed_exit|].
        eapply needed_input; [by eapply needed_observed|cbn; by destruct H as (a & b & _ & _ & _ & _ & -> & _)|done].
      * intros id [? _]%lookup_replicate. done.
      * intros [f|p] H; cbn in H; [|by destruct (Hnc p)]. apply He in H as (e & H). by eapply needed_observed.
      * intros id p [? _]%lookup_replicate. done.
      * intros [f|p] ids id H Hids Hid; cbn in H; [|by destruct (Hnc p)]. left. apply Hp. right.
        apply He in H as (e & H). exists f, e. split; [done|]. cbn in Hids.
        destruct H as (a & b & _ & _ & _ & _ & Hef & _). rewrite Hef in Hids. by injection Hids as <-.
      * intros id block c y [? _]%lookup_replicate. done.
      * intros id Hu. left. apply Hp. by left.
      * intros f e H. apply He. by exists e.
    + unfold marking_measure, mark_fuel. rewrite Hv, unset_weight_replicate. fold n. lia.
Qed.
