(* ===== verification/PruneShape.v ===== *)
(** * The shape of a pruned graph

    Pruning a well-formed graph never panics: every block keeps the items that
    are needed, every edge an argument for each parameter that is kept, the kept
    parameters are numbered afresh, and the result is well formed. *)

From S2P Require Import Prelude Bytes Types Floating Expr Evaluate Values Model Valuations Graph Prune GraphRun PruneLive.

(** * Pruning keeps the runs of a graph

    The pruned graph assigns what is needed the values the original assigns, and
    executes the same observable operations in the same order. *)

(** ** Lists *)

Lemma retain_filter {A} (keep : A -> option bool) l l' : retain keep l = Some l' -> l' = filter (fun x => keep x = Some true) l.
Proof.
  revert l'. induction l as [|x l IH]; intros l'; cbn [retain]; [by intros [= <-]|].
  intros (k & Hk & H)%bind_Some. apply bind_Some in H as (l1 & Hl & [= <-]). rewrite filter_cons, Hk, (IH l1 Hl).
  destruct k; by case_decide.
Qed.

Lemma retain_some {A} (keep : A -> option bool) l : Forall (fun x => exists b, keep x = Some b) l -> exists l', retain keep l = Some l'.
Proof.
  induction 1 as [|x l [k Hk] _ [l' IH]]; cbn [retain]; [by exists []|]. rewrite Hk. cbn. rewrite IH. by eexists.
Qed.

Lemma mapM_id_lookup {A} (l : list (option A)) l' i : mapM id l = Some l' -> l' !! i = mjoin (l !! i).
Proof.
  intros H%mapM_Some. destruct (l !! i) as [o|] eqn:Hi; cbn.
  - destruct (Forall2_lookup_l _ _ _ _ _ H Hi) as (x & Hx & Ho). cbn in Ho. by rewrite Hx.
  - apply lookup_ge_None. rewrite <- (Forall2_length _ _ _ H). by apply lookup_ge_None.
Qed.

Lemma mapM_id_some {A} (l : list (option A)) : (forall i o, l !! i = Some o -> is_Some o) -> exists l', mapM id l = Some l'.
Proof.
  intros H. apply mapM_is_Some_2, Forall_forall. intros o (i & Hi)%list_elem_of_lookup. by eapply H.
Qed.

(** ** Tables that differ in the places of parameters *)

Definition similar_value (v v' : Value) : Prop :=
  v' = v \/ ty v' = ty v /\ exists block c block' c', definition v = DParameter block c /\ definition v' = DParameter block' c'.

Definition similar (t t' : ValueTable) : Prop := Forall2 similar_value (values t) (values t').

#[export] Instance similar_value_preorder : PreOrder similar_value.
Proof.
  split; [by left|]. intros v1 v2 v3 [->|(Ht & b & c & b' & c' & H1 & H2)]; [done|].
  intros [->|(Ht' & b2 & c2 & b3 & c3 & H3 & H4)]; right; (split; [congruence|]); by eexists _, _, _, _.
Qed.

#[export] Instance similar_preorder : PreOrder similar.
Proof. unfold similar. split; [intros t; reflexivity|intros t1 t2 t3; apply transitivity]. Qed.

Lemma similar_lookup t t' id : similar t t' ->
  match values t !! id, values t' !! id with
  | Some v, Some v' => similar_value v v'
  | None, None => True
  | _, _ => False
  end.
Proof.
  intros H. destruct (values t !! id) as [v|] eqn:Hv.
  - destruct (Forall2_lookup_l _ _ _ _ _ H Hv) as (v' & -> & Hs). done.
  - apply lookup_ge_None in Hv. by rewrite (proj2 (lookup_ge_None _ _)) by (by rewrite <- (Forall2_length _ _ _ H)).
Qed.

Lemma similar_value_ty v v' : similar_value v v' -> ty v' = ty v.
Proof. by intros [->|[H _]]. Qed.

Lemma similar_type t t' id : similar t t' -> type_at t' id = type_at t id.
Proof.
  intros H%(similar_lookup t t' id). unfold type_at. destruct (values t !! id), (values t' !! id); try done.
  cbn. by rewrite (similar_value_ty _ _ H).
Qed.

Lemma similar_definition t t' id d : similar t t' -> (forall b c, d <> DParameter b c) ->
  definition_at t id = Some d -> definition_at t' id = Some d.
Proof.
  intros H%(similar_lookup t t' id) Hd. unfold definition_at. destruct (values t !! id) as [v|], (values t' !! id) as [v'|]; try done.
  cbn. intros [= <-]. destruct H as [->|(_ & b & c & b' & c' & Hv & _)]; [done|]. by destruct (Hd b c).
Qed.

Lemma similar_eval t t' rho ty e c : similar t t' -> eval t' rho ty e c = eval t rho ty e c.
Proof.
  intros H. unfold eval. f_equal. apply try_map_ext_inputs, Forall_forall. intros i _. unfold operand.
  by rewrite (similar_type t t').
Qed.

Lemma similar_determined t t' rho id v v' : similar t t' -> similar_value v v' -> determined t' rho id v' = determined t rho id v.
Proof.
  intros Hs [->|(_ & b & c & b' & c' & Hv & Hv')]; unfold determined; [|by rewrite Hv, Hv'].
  destruct (definition v) as [l|e| |[f|p] k]; try done; [by apply similar_eval|].
  pose proof (similar_lookup t t' p Hs) as H. unfold definition_at.
  destruct (values t !! p) as [w|], (values t' !! p) as [w'|]; try done. cbn.
  destruct H as [->|(_ & b & c & b' & c' & Hw & Hw')]; [|by rewrite Hw, Hw'].
  destruct (definition w); try done. by apply similar_eval.
Qed.

Lemma similar_assigned t t' env n id : similar t t' -> assigned t' env n id = assigned t env n id.
Proof.
  intros Hs. revert id. induction n as [|n IH]; intros id; cbn [assigned]; [done|].
  destruct (Nat.eqb id n); [|apply IH]. unfold assign. pose proof (similar_lookup t t' n Hs) as H.
  destruct (values t !! n) as [v|], (values t' !! n) as [v'|]; try done.
  rewrite (similar_determined t t' _ n v v' Hs H). f_equal.
  unfold determined. destruct (definition v) as [l|e| |[f|p] k]; try done.
  - apply eval_ext, Forall_forall. intros i _. apply IH.
  - destruct (definition_at t p) as [[]|]; try done. apply eval_ext, Forall_forall. intros i _. apply IH.
Qed.

Lemma similar_denote t t' env id : similar t t' -> denote t' env id = denote t env id.
Proof.
  intros Hs. unfold denote. rewrite <- (Forall2_length _ _ _ Hs). by apply similar_assigned.
Qed.

Lemma similar_results t t' p : similar t t' -> expression_results t p = expression_results t' p.
Proof.
  intros H%(similar_lookup t t' p). unfold expression_results, value_at.
  destruct (values t !! p) as [v|], (values t' !! p) as [v'|]; try done. cbn.
  destruct H as [->|(_ & b & c & b' & c' & -> & ->)]; done.
Qed.

(** ** Assignments that agree on what is needed *)

Section Agree.
Context (keeps : nat -> Prop).

Definition agree (rho rho' : Valuation) : Prop := forall id, keeps id -> rho' id = rho id.

Inductive pairs_agree : list (nat * Literal) -> list (nat * Literal) -> Prop :=
| pairs_nil : pairs_agree [] []
| pairs_both id l l' ps ps' : (keeps id -> l' = l) -> pairs_agree ps ps' -> pairs_agree ((id, l) :: ps) ((id, l') :: ps')
| pairs_skip id l ps ps' : ~ keeps id -> pairs_agree ps ps' -> pairs_agree ((id, l) :: ps) ps'.

Lemma assign_agree ps ps' rho rho' : pairs_agree ps ps' -> agree rho rho' -> agree (assign_all ps rho) (assign_all ps' rho').
Proof.
  intros Hp. revert rho rho'. induction Hp as [|id l l' ps ps' Hl _ IH|id l ps ps' Hn _ IH]; intros rho rho' Ha; cbn [assign_all]; [done|..].
  - apply IH. intros i Hi. destruct (Nat.eqb_spec i id) as [->|]; auto.
  - apply IH. intros i Hi. destruct (Nat.eqb_spec i id) as [->|]; [done|auto].
Qed.

Lemma assign_unneeded ps rho rho' : Forall (fun p => ~ keeps p.1) ps -> agree rho rho' -> agree (assign_all ps rho) rho'.
Proof.
  intros Hp Ha. change rho' with (assign_all [] rho'). apply assign_agree; [|done].
  induction Hp as [|[id l] ps Hn _ IH]; by constructor.
Qed.

Lemma pairs_same ids f f' : (forall id, id ∈ ids -> keeps id -> f' id = f id) ->
  pairs_agree ((fun id => (id, f id)) <$> ids) ((fun id => (id, f' id)) <$> ids).
Proof.
  induction ids as [|id ids IH]; intros H; [constructor|]. cbn. constructor; [apply H; left|].
  apply IH. intros i Hi. apply H. by right.
Qed.
End Agree.

(** ** Reads *)

Section Reads.
Context (placed : bool).

Lemma read_literal t rho id l : wf t -> definition_at t id = Some (DLiteral l) -> read placed t rho id = l.
Proof.
  intros Hwf Hd. unfold read. destruct placed; [by rewrite Hd|].
  pose proof Hd as (v & Hv & Hdv)%fmap_Some. rewrite (denote_value t rho id v Hwf Hv). unfold determined. by rewrite <- Hdv.
Qed.

(** A conditional exit takes an executable edge. *)
Lemma scalar_at_tested t rho id bits : wf t -> scalar_at t id = Some (Some bits) -> tested placed t rho id = Some bits.
Proof.
  intros Hwf (v & Hv & Hs)%fmap_Some. unfold tested, type_at. rewrite Hv. cbn.
  unfold scalar_literal in Hs. destruct (definition v) as [l| | |] eqn:Hd; try done.
  rewrite (read_literal t rho id l Hwf); [done|]. unfold definition_at. by rewrite Hv, <- Hd.
Qed.

Lemma run_exit_resolved t e rho i edge : wf t -> constant_edge_index t e = Some (Some i) -> exit_edge e i = Some edge ->
  run_exit placed t e rho = Some (inl edge).
Proof.
  intros Hwf Hi He. destruct e as [| |c x y|s cs d| | | |]; cbn [constant_edge_index run_exit] in *; try done.
  - apply bind_Some in Hi as ([bits|] & Hc & [= <-]). rewrite (scalar_at_tested t rho c bits Hwf Hc). cbn.
    destruct (bits =? 0)%Z; by injection He as <-.
  - apply bind_Some in Hi as ([bits|] & Hc & [= <-]). rewrite (scalar_at_tested t rho s bits Hwf Hc). cbn [mbind option_bind].
    unfold exit_edge in He. rewrite case_index_edge in He. by injection He as <-.
Qed.

Lemma run_exit_edge t e rho edge : run_exit placed t e rho = Some (inl edge) -> edge ∈ exit_edges e.
Proof.
  destruct e as [| |c x y|s cs d| | | |]; cbn; try done.
  - intros [= ->]. left.
  - intros (bits & _ & [= <-])%bind_Some. destruct (bits =? 0)%Z; set_solver.
  - intros (bits & _ & [= <-])%bind_Some. destruct (list_find _ cs) as [[i [k x]]|] eqn:Hf; [|set_solver].
    apply list_find_Some in Hf as (Hl & _ & _). apply elem_of_app. left. apply list_elem_of_fmap.
    exists (k, x). split; [done|by eapply list_elem_of_lookup_2].
Qed.

Lemma run_exit_outgoing g a b rho edge : graph_wf g -> blocks g !! a = Some b ->
  run_exit placed (table g) (exit b) rho = Some (inl edge) -> exists edges, outgoing g a = Some edges /\ edge ∈ edges.
Proof.
  intros Hwf Hb Hr. destruct (outgoing_some g a b Hwf Hb) as (edges & He & _). exists edges. split; [done|].
  unfold outgoing in He. rewrite Hb in He. cbn [mbind option_bind] in He.
  apply bind_Some in He as ([i|] & Hi & He).
  - apply bind_Some in He as (e & Hee & [= <-]). rewrite (run_exit_resolved _ _ _ i e) in Hr by (done || by apply gw_table).
    injection Hr as <-. left.
  - injection He as <-. by eapply run_exit_edge.
Qed.
End Reads.

Lemma find_mapped (f : Edge -> option Edge) (cs cs' : list (Z * Edge)) bits :
  mapM (fun case => edge ← f (snd case); Some (fst case, edge)) cs = Some cs' ->
  match list_find (fun c => c.1 = bits) cs, list_find (fun c => c.1 = bits) cs' with
  | Some (_, (_, e)), Some (_, (_, e')) => f e = Some e'
  | None, None => True
  | _, _ => False
  end.
Proof.
  revert cs'. induction cs as [|[k e] cs IH]; intros cs'; [by intros [= <-]|].
  cbn [mapM]. intros (c' & Hc & H)%bind_Some. apply bind_Some in H as (cs1 & Hcs & [= <-]).
  cbn in Hc. apply bind_Some in Hc as (e' & He & [= <-]). cbn [list_find fst].
  destruct (decide (k = bits)); [done|]. specialize (IH cs1 Hcs).
  destruct (list_find _ cs) as [[? [? ?]]|], (list_find _ cs1) as [[? [? ?]]|]; done.
Qed.

(** The results of an expression name it as their producer. *)
Lemma expression_results_producer g p id ids : graph_wf g -> expression_results (table g) p = Some ids -> id ∈ ids ->
  producer_of g id = Some (Some (Evaluate p)).
Proof.
  intros Hwf. unfold expression_results, value_at. intros (v & Hv & H)%bind_Some Hin. destruct (definition v) as [|e| |] eqn:Hd; try done.
  injection H as <-. apply elem_of_seq in Hin as [Hle Hlt].
  pose proof (wf_value _ (gw_table g Hwf) p v Hv) as Hok. unfold value_ok in Hok. rewrite Hd in Hok. destruct Hok as (_ & _ & Hres).
  unfold producer_of, definition_at. destruct (decide (id = p)) as [->|Hne]; [by rewrite Hv; cbn; rewrite Hd|].
  destruct (id - p) as [|c] eqn:Hc; [lia|].
  destruct (lookup_lt_is_Some_2 (result_types e (ty v)) (S c)) as [ty' Hty]; [lia|].
  specialize (Hres c ty' Hty). replace id with (p + S c) by lia. by rewrite Hres.
Qed.

(** ** The pruned graph *)

Section Pruned.
Context {World : Type} (run : OperationKind -> list Literal -> World -> option (list Literal * World)).
Context (placed : bool) (visible : OperationKind -> bool).
Notation observable := (fun o => visible (kind o)).
Context (Hrun : forall k ls w rs w', visible k = false -> run k ls w = Some (rs, w') -> w' = w).
Context (g : FunctionGraph) (live : list bool) (Hwf : graph_wf g) (Hlive : length live = length (blocks g)).
Context (Hclosed : forall a b, live !! a = Some true -> leads g a b -> live !! b = Some true).
Context (m : Marking).
Context (Hvalues : forall id, live_values m !! id = Some true <-> needed g live observable (inl id)).
Context (Hitems : forall producer, marked m producer = Some true <-> needed g live observable (inr producer)).
#[local] Set Default Proof Using "All".

Notation keeps := (fun id => needed g live observable (inl id)).
Notation agrees := (agree keeps).

Lemma inputs_needed id e : needed g live observable (inr (Evaluate id)) ->
  definition_at (table g) id = Some (DExpression e) -> Forall keeps (inputs e).
Proof.
  intros Hn Hd. apply Forall_forall. intros i Hi. eapply needed_input; [exact Hn|..|exact Hi]. cbn. by rewrite Hd.
Qed.

(** Its definition determines a needed value alike. *)
Lemma determined_agree t' id v v' rho rho' : similar (table g) t' -> values (table g) !! id = Some v -> similar_value v v' ->
  (forall p, producer_of g id = Some (Some (Evaluate p)) -> needed g live observable (inr (Evaluate p))) ->
  agrees rho rho' -> determined t' rho' id v' = determined (table g) rho id v.
Proof.
  intros Hs Hv Hsv Hp Ha. rewrite (similar_determined (table g) t' rho' id v v' Hs Hsv).
  assert (definition_at (table g) id = Some (definition v)) as Hd by (unfold definition_at; by rewrite Hv).
  unfold producer_of in Hp. rewrite Hd in Hp. unfold determined.
  destruct (definition v) as [l|e| |[f|p] c]; try done.
  - apply eval_ext. eapply Forall_impl; [exact (inputs_needed id e (Hp id eq_refl) Hd)|exact Ha].
  - destruct (definition_at (table g) p) as [[|e| |]|] eqn:Hpd; try done.
    apply eval_ext. eapply Forall_impl; [exact (inputs_needed p e (Hp p eq_refl) Hpd)|exact Ha].
Qed.

Lemma denote_agree rho rho' : agrees rho rho' -> agrees (denote (table g) rho) (denote (table g) rho').
Proof.
  intros Ha id. induction (lt_wf id) as [id _ IH]. intros Hn.
  destruct (definition_some _ _ (needed_stored g live observable Hwf Hlive _ Hn)) as (v & Hv & Hd).
  pose proof (gw_table g Hwf) as Ht. rewrite !(denote_value (table g) _ id v Ht Hv), (Ha id Hn). f_equal.
  pose proof (wf_value _ Ht id v Hv) as Hok. unfold determined, value_ok in *.
  assert (forall p e, needed g live observable (inr (Evaluate p)) -> p <= id ->
    definition_at (table g) p = Some (DExpression e) -> Forall (fun i => (i < p)%nat) (inputs e) ->
    Forall (fun i => denote (table g) rho' i = denote (table g) rho i) (inputs e)) as Hin.
  { intros p e Hpn Hle Hpd Hlt. pose proof (inputs_needed p e Hpn Hpd) as Hk. rewrite Forall_forall in *.
    intros i Hi. apply IH; [by specialize (Hlt i Hi); lia|by apply Hk]. }
  destruct (definition v) as [l|e| |[f|p] c] eqn:Hdef; try done.
  - destruct Hok as (Hlt & _ & _). apply eval_ext. apply (Hin id); try done.
    eapply needed_producer; [exact Hn|]. unfold producer_of. by rewrite Hd.
  - destruct Hok as (c' & pv & e & -> & -> & Hp & Hpd & _).
    assert (definition_at (table g) p = Some (DExpression e)) as Hpd' by (unfold definition_at; by rewrite Hp, <- Hpd).
    rewrite Hpd'. pose proof (wf_value _ Ht p pv Hp) as Hokp. unfold value_ok in Hokp. rewrite Hpd in Hokp.
    apply eval_ext. apply (Hin p); try done; [|lia|apply Hokp].
    eapply needed_producer; [exact Hn|]. unfold producer_of. by rewrite Hd.
Qed.

Lemma read_agree t' rho rho' : similar (table g) t' -> agrees rho rho' ->
  agrees (read placed (table g) rho) (read placed t' rho').
Proof.
  intros Hs Ha id Hn. unfold read. destruct placed.
  - destruct (definition_some _ _ (needed_stored g live observable Hwf Hlive _ Hn)) as (v & Hv & Hd).
    pose proof (similar_lookup _ _ id Hs) as H. unfold definition_at. rewrite Hv in *.
    destruct (values t' !! id) as [v'|]; [|done]. cbn.
    destruct H as [->|(_ & b & c & b' & c' & -> & ->)]; [|by apply Ha]. destruct (definition v); try done; by apply Ha.
  - rewrite (similar_denote (table g) t') by done. by apply denote_agree.
Qed.

Lemma reads_agree t' rho rho' ids : similar (table g) t' -> agrees rho rho' -> Forall keeps ids ->
  read placed t' rho' <$> ids = read placed (table g) rho <$> ids.
Proof.
  intros Hs Ha Hids. apply list_fmap_ext. intros i id Hi. apply read_agree; [done|done|].
  by eapply (proj1 (Forall_forall _ _) Hids), list_elem_of_lookup_2.
Qed.

(** *** Edges *)

(** Whether a block keeps a parameter. *)
Definition kept (block parameter : nat) : bool :=
  Nat.eqb block (entry g) || bool_decide (live_values m !! parameter = Some true).

Lemma unkept block parameter : kept block parameter = false -> ~ keeps parameter.
Proof. unfold kept. intros [_ H]%orb_false_iff H'%Hvalues. by apply bool_decide_eq_false in H. Qed.

Lemma trim_arguments_agree block ps args args' (f f' : nat -> Literal) :
  trim_arguments (kept block <$> ps) args = Some args' ->
  (forall p y, (p, y) ∈ zip ps args -> keeps p -> f' y = f y) ->
  pairs_agree keeps (zip ps (f <$> args)) (zip (filter (fun p => kept block p = true) ps) (f' <$> args')).
Proof.
  revert args args'. induction ps as [|p ps IH]; intros [|y args] args'; cbn [trim_arguments fmap list_fmap]; try done.
  - intros [= <-] _. constructor.
  - intros [= <-] _. destruct (filter _ (p :: ps)); constructor.
  - intros (args1 & Hargs & H)%bind_Some Hf. cbn [zip zip_with]. rewrite filter_cons.
    assert (pairs_agree keeps (zip ps (f <$> args)) (zip (filter (fun p => kept block p = true) ps) (f' <$> args1))) as Hrest.
    { apply IH; [done|]. intros q z Hin. apply Hf. by right. }
    destruct (kept block p) eqn:Hk; injection H as <-; cbn.
    + constructor; [|done]. intros Hp. apply (Hf p); [left|done].
    + constructor; [by apply (unkept block)|done].
Qed.

Context (g' : FunctionGraph) (keep : list (list bool)).
Context (Hkeep : forall a b, blocks g !! a = Some b -> keep !! a = Some (kept a <$> parameters b)).
Context (Htable : similar (table g) (table g')) (Heffects : effects g' = effects g) (Hentry : entry g' = entry g).
Context (Hblocks : forall a b, blocks g !! a = Some b -> exists b', blocks g' !! a = Some b' /\
  items b' = filter (fun i => marked m i = Some true) (items b) /\
  exit_map_edges (trim keep) (exit b) = Some (exit b') /\
  parameters b' = filter (fun p => kept a p = true) (parameters b)).

Lemma trim_target e e' : trim keep e = Some e' -> target e' = target e.
Proof.
  unfold trim. destruct (arguments e); [by intros [= <-]|].
  intros (fl & _ & H)%bind_Some. by apply bind_Some in H as (args & _ & [= <-]).
Qed.

Lemma enter_agree a b e e' b' rho rho' edges : live !! a = Some true -> outgoing g a = Some edges -> e ∈ edges ->
  trim keep e = Some e' -> blocks g !! target e = Some b -> blocks g' !! target e = Some b' ->
  agrees rho rho' -> agrees (enter placed (table g) b e rho) (enter placed (table g') b' e' rho').
Proof.
  intros Ha Ho He Htrim Hb Hb' Hag. destruct (Hblocks _ _ Hb) as (b1 & Hb1 & _ & _ & Hpar). simplify_eq.
  assert (forall p y, (p, y) ∈ zip (parameters b) (arguments e) -> keeps p ->
    read placed (table g') rho' y = read placed (table g) rho y) as Hread.
  { intros p y Hin Hp. apply read_agree; [done|done|].
    pose proof Hin as (c & Hc)%elem_of_zip_l%list_elem_of_lookup.
    eapply needed_argument; [exact Hp|by eapply gw_parameters|]. exists a, edges, e. split_and!; try done.
    - rewrite <- Hlive. by eapply lookup_lt_Some.
    - by exists b. }
  unfold enter. apply assign_agree; [|done]. rewrite Hpar. unfold trim in Htrim.
  destruct (arguments e) as [|y args] eqn:Hargs.
  - injection Htrim as <-. rewrite Hargs. destruct (parameters b), (filter _ _); constructor.
  - rewrite (Hkeep _ _ Hb) in Htrim. cbn [mbind option_bind] in Htrim.
    apply bind_Some in Htrim as (args' & Hargs' & [= <-]). cbn [arguments]. by apply (trim_arguments_agree (target e)).
Qed.

(** *** Items *)

Definition steps_agree (o o' : Valuation * World + OperationKind) : Prop :=
  match o with
  | inl (rho, w) => exists rho', o' = inl (rho', w) /\ agrees rho rho'
  | inr operation => o' = inr operation
  end.

(** The results of an execution that is not needed are not needed. *)
Lemma results_unneeded effect e (ls : list Literal) : effects g !! effect = Some e ->
  ~ needed g live observable (inr (Effect effect)) -> Forall (fun p : nat * Literal => ~ keeps p.1) (zip (results e) ls).
Proof.
  intros He Hn. apply Forall_forall. intros [id l] (c & Hc)%elem_of_zip_l%list_elem_of_lookup Hk. cbn in Hk.
  apply Hn. eapply needed_producer; [exact Hk|]. unfold producer_of. by rewrite (gw_results g Hwf effect e c id He Hc).
Qed.

Lemma run_item_needed item rho rho' w next : needed g live observable (inr item) ->
  run_item run placed g item rho w = Some next -> agrees rho rho' ->
  exists next', run_item run placed g' item rho' w = Some next' /\ steps_agree next next'.
Proof.
  intros Hn Hnext Ha. destruct item as [effect|p]; cbn [run_item] in *.
  - rewrite Heffects. apply bind_Some in Hnext as (e & He & H). rewrite He. cbn [mbind option_bind].
    rewrite (reads_agree (table g') rho rho' (op_inputs (operation e))); [|done|done|].
    2: { apply Forall_forall. intros id Hid. eapply needed_input; [exact Hn|cbn; by rewrite He|done]. }
    destruct (run _ _ w) as [[ls w']|]; injection H as <-; (eexists; split; [done|]); cbn; [|done].
    eexists. split; [done|]. apply assign_agree; [|done].
    clear. generalize (results e). induction ls as [|l ls IH]; intros [|id ids]; try constructor; [done|apply IH].
  - destruct placed eqn:Hplaced; [|injection Hnext as <-; eexists; split; [done|by exists rho']].
    apply bind_Some in Hnext as (ids & Hids & [= <-]). rewrite <- (similar_results (table g)), Hids by done. cbn.
    eexists. split; [done|]. eexists. split; [done|]. apply assign_agree; [|done]. apply pairs_same.
    intros id Hid Hk. unfold computed. pose proof (similar_lookup _ _ id Htable) as Hsv.
    destruct (values (table g) !! id) as [v|] eqn:Hv; [|by destruct (values (table g') !! id); [|apply Ha]].
    destruct (values (table g') !! id) as [v'|]; [|done]. rewrite (Ha id Hk). f_equal.
    apply determined_agree; [done|done|done|..].
    + intros q Hq. rewrite (expression_results_producer g p id ids Hwf Hids Hid) in Hq. by injection Hq as <-.
    + rewrite <- Hplaced. by apply read_agree.
Qed.

(** An execution that is not needed changes nothing needed, unless it traps. *)
Lemma run_item_unneeded a b item rho rho' w next : live !! a = Some true -> blocks g !! a = Some b -> item ∈ items b ->
  ~ needed g live observable (inr item) -> run_item run placed g item rho w = Some next -> agrees rho rho' ->
  match next with
  | inl (rho1, w1) => agrees rho1 rho' /\ w1 = w
  | inr operation => visible operation = false
  end.
Proof.
  intros Ha Hb Hin Hn Hnext Hag. destruct item as [effect|p]; cbn [run_item] in *.
  - apply bind_Some in Hnext as (e & He & H).
    assert (visible (kind (operation e)) = false) as Hobs.
    { apply not_true_iff_false. intros Hobs. apply Hn. apply (needed_observed _ _ _ effect e). exists a, b.
      split_and!; try done. rewrite <- Hlive. by eapply lookup_lt_Some. }
    destruct (run _ _ w) as [[ls w']|] eqn:Hr; injection H as <-; [|done].
    split; [|by eapply Hrun]. apply assign_unneeded; [|done]. by eapply results_unneeded.
  - destruct placed; [|by injection Hnext as <-].
    apply bind_Some in Hnext as (ids & Hids & [= <-]). split; [|done]. apply assign_unneeded; [|done].
    apply Forall_fmap, Forall_forall. intros id Hid Hk. apply Hn.
    by eapply needed_producer; [exact Hk|eapply expression_results_producer].
Qed.

Lemma run_items_agree a b its rho rho' w next : live !! a = Some true -> blocks g !! a = Some b ->
  (forall item, item ∈ its -> item ∈ items b) ->
  run_items run placed g its rho w = Some next -> agrees rho rho' ->
  (forall operation w', next = inr (operation, w') -> visible operation = true) ->
  exists next', run_items run placed g' (filter (fun i => marked m i = Some true) its) rho' w = Some next' /\
    match next with
    | inl (rho1, w1) => exists rho1', next' = inl (rho1', w1) /\ agrees rho1 rho1'
    | inr stop => next' = inr stop
    end.
Proof.
  intros Ha Hb. revert rho rho' w. induction its as [|item its IH]; intros rho rho' w Hsub Hnext Hag Hobs; cbn [run_items] in *.
  - injection Hnext as <-. eexists. split; [done|]. by exists rho'.
  - apply bind_Some in Hnext as (o & Ho & Hnext). rewrite filter_cons.
    assert (forall x, x ∈ its -> x ∈ items b) as Hsub' by (intros x Hx; apply Hsub; by right).
    destruct (decide (marked m item = Some true)) as [Hm|Hm].
    + apply Hitems in Hm. destruct (run_item_needed item rho rho' w o Hm Ho Hag) as (o' & Ho' & Hs).
      cbn [run_items]. rewrite Ho'. cbn [mbind option_bind]. destruct o as [[rho1 w1]|operation]; cbn in Hs.
      * destruct Hs as (rho1' & -> & Hag'). by apply (IH rho1).
      * subst o'. injection Hnext as <-. by eexists.
    + rewrite Hitems in Hm.
      pose proof (run_item_unneeded a b item rho rho' w o Ha Hb ltac:(apply Hsub; left) Hm Ho Hag) as Hs.
      destruct o as [[rho1 w1]|operation].
      * destruct Hs as [Hag' ->]. by apply (IH rho1).
      * injection Hnext as <-. by rewrite (Hobs operation w eq_refl) in Hs.
Qed.

(** *** Exits *)

Lemma tested_agree rho rho' id : agrees rho rho' -> keeps id ->
  tested placed (table g') rho' id = tested placed (table g) rho id.
Proof.
  intros Ha Hk. unfold tested. rewrite (similar_type (table g) (table g')) by done.
  by rewrite (read_agree (table g') rho rho' Htable Ha id Hk).
Qed.

Lemma run_exit_agree a b rho rho' e' next : live !! a = Some true -> blocks g !! a = Some b ->
  exit_map_edges (trim keep) (exit b) = Some e' -> agrees rho rho' ->
  run_exit placed (table g) (exit b) rho = Some next ->
  exists next', run_exit placed (table g') e' rho' = Some next' /\
    match next with
    | inl edge => exists edge', next' = inl edge' /\ trim keep edge = Some edge'
    | inr outcome => next' = inr outcome
    end.
Proof.
  intros Ha Hb He Hag Hnext.
  assert (Forall keeps (exit_roots (exit b))) as Hroots.
  { apply Forall_forall. intros id Hid. apply needed_exit. exists a, b. split_and!; try done.
    rewrite <- Hlive. by eapply lookup_lt_Some. }
  destruct (exit b) as [|edge|c x y|s cs d|vs|f vs|tb sl vs|]; cbn [exit_map_edges exit_roots exit_inputs run_exit] in *; try done.
  - apply bind_Some in He as (edge' & He & [= <-]). injection Hnext as <-. eexists. split; [done|]. by exists edge'.
  - apply bind_Some in He as (x' & Hx & He). apply bind_Some in He as (y' & Hy & [= <-]). cbn [run_exit].
    apply Forall_cons in Hroots as [Hc _]. rewrite (tested_agree rho rho') by done.
    apply bind_Some in Hnext as (bits & -> & [= <-]). eexists. split; [done|]. destruct (bits =? 0)%Z; by eexists.
  - apply bind_Some in He as (cs' & Hcs & He). apply bind_Some in He as (d' & Hd & [= <-]). cbn [run_exit].
    apply Forall_cons in Hroots as [Hc _]. rewrite (tested_agree rho rho') by done.
    apply bind_Some in Hnext as (bits & -> & [= <-]). eexists. split; [done|].
    pose proof (find_mapped (trim keep) cs cs' bits Hcs) as Hf.
    destruct (list_find _ cs) as [[? [? ?]]|], (list_find _ cs') as [[? [? ?]]|]; try done; by eexists.
  - injection He as <-. injection Hnext as <-. cbn. rewrite (reads_agree (table g') rho rho' vs) by done. by eexists.
  - injection He as <-. injection Hnext as <-. cbn. rewrite (reads_agree (table g') rho rho' vs) by done. by eexists.
  - injection He as <-. injection Hnext as <-. cbn. apply Forall_app in Hroots as [Hvs Hsl].
    rewrite (reads_agree (table g') rho rho' vs) by done. rewrite Forall_singleton in Hsl.
    rewrite (read_agree (table g') rho rho' Htable Hag sl Hsl). by eexists.
  - injection He as <-. injection Hnext as <-. by eexists.
Qed.

Lemma execute_agree fuel a rho rho' w o : live !! a = Some true -> agrees rho rho' ->
  execute run placed fuel g a rho w = Some o ->
  (forall operation, o.1 = Stopped operation -> visible operation = true) ->
  execute run placed fuel g' a rho' w = Some o.
Proof.
  revert a rho rho' w. induction fuel as [|fuel IH]; intros a rho rho' w Ha Hag Ho Hobs; cbn [execute] in *; [done|].
  apply bind_Some in Ho as (b & Hb & Ho). destruct (Hblocks a b Hb) as (b' & -> & Hits & Hex & _). cbn [mbind option_bind].
  apply bind_Some in Ho as (next & Hnext & Ho).
  destruct (run_items_agree a b (items b) rho rho' w next Ha Hb ltac:(done) Hnext Hag) as (next' & Hnext' & Hs).
  { intros operation w' ->. injection Ho as <-. by apply Hobs. }
  rewrite Hits, Hnext'. cbn [mbind option_bind]. destruct next as [[rho1 w1]|[operation w1]]; [|by subst next'].
  destruct Hs as (rho1' & -> & Hag1). apply bind_Some in Ho as (x & Hx & Ho).
  destruct (run_exit_agree a b rho1 rho1' (exit b') x Ha Hb Hex Hag1 Hx) as (x' & -> & Hxs). cbn [mbind option_bind].
  destruct x as [edge|outcome]; [|by subst x'].
  destruct Hxs as (edge' & -> & Htrim). apply bind_Some in Ho as (tb & Htb & Ho).
  rewrite (trim_target edge edge' Htrim). destruct (Hblocks _ tb Htb) as (tb' & Htb' & _). rewrite Htb'. cbn [mbind option_bind].
  destruct (run_exit_outgoing placed g a b rho1 edge Hwf Hb Hx) as (edges & Hout & Hin).
  eapply IH; [| |exact Ho|done].
  - apply (Hclosed a); [done|]. by exists edges, edge.
  - by eapply enter_agree.
Qed.
End Pruned.

(** ** Tables that differ in the places of parameters only *)

Lemma similar_determined_iff t t' rho id v' : similar t t' -> values t' !! id = Some v' ->
  exists v, values t !! id = Some v /\ similar_value v v' /\ determined t' rho id v' = determined t rho id v.
Proof.
  intros Hs Hv'. pose proof (similar_lookup t t' id Hs) as H. rewrite Hv' in H.
  destruct (values t !! id) as [v|]; [|done]. exists v. split_and!; [done|done|]. by apply similar_determined.
Qed.

Lemma similar_model t t' rho : similar t t' -> bounds t' = bounds t -> model t' rho -> model t rho.
Proof.
  intros Hs Hb Hm.
  assert (forall id v, values t !! id = Some v -> exists v', values t' !! id = Some v' /\ ty v' = ty v /\
    determined t' rho id v' = determined t rho id v) as Hlook.
  { intros id v Hv. pose proof (similar_lookup t t' id Hs) as H. rewrite Hv in H.
    destruct (values t' !! id) as [v'|]; [|done]. exists v'. split_and!; [done|by apply similar_value_ty|by apply similar_determined]. }
  split.
  - intros id v Hv. destruct (Hlook id v Hv) as (v' & Hv' & Ht & _). rewrite <- Ht. by apply (m_ok t' rho Hm).
  - intros id v l Hv Hd. destruct (Hlook id v Hv) as (v' & Hv' & Ht & Hdet). apply (m_determined t' rho Hm id v' l Hv'). by rewrite Hdet.
  - intros id v b Hv Hbo Hd. destruct (Hlook id v Hv) as (v' & Hv' & Ht & Hdet). rewrite <- Ht.
    apply (m_free t' rho Hm id v' b Hv'); [by rewrite Hb|by rewrite Hdet].
Qed.

Lemma similar_typed t t' ty e : similar t t' -> typed t ty e -> typed t' ty e.
Proof.
  intros Hs (tys & H & Hok). exists tys. split; [|done]. rewrite <- H. apply try_map_ext_inputs, Forall_forall.
  intros i _. by apply similar_type.
Qed.

Lemma similar_wf t t' : similar t t' -> bounds t' = bounds t -> wf t -> wf t'.
Proof.
  intros Hs Hb Hwf. split.
  - rewrite Hb, (wf_length t Hwf). by eapply Forall2_length.
  - intros id v' Hv'. destruct (similar_determined_iff t t' (fun _ => lit 0) id v' Hs Hv') as (v & Hv & Hsv & _).
    pose proof (wf_value t Hwf id v Hv) as Hok. unfold value_ok in *.
    destruct Hsv as [->|(_ & b & c & b' & c' & _ & ->)]; [|done]. destruct (definition v) as [l|e| |[|p] c]; try done.
    + destruct Hok as (Hin & [Ht Hp] & Hres). split_and!; [done| |].
      * split; [by eapply similar_typed|]. intros rho Hm. by eapply Hp, similar_model.
      * intros c ty' Hc. specialize (Hres c ty' Hc). pose proof (similar_lookup t t' (id + S c) Hs) as H. rewrite Hres in H.
        destruct (values t' !! (id + S c)) as [w|]; [|done]. destruct H as [->|(_ & x & y & x' & y' & Hw & _)]; [done|by cbn in Hw].
    + destruct Hok as (c' & pv & e & -> & Hid & Hp & Hpd & Hres). exists c', pv, e. split_and!; try done.
      pose proof (similar_lookup t t' p Hs) as H. rewrite Hp in H.
      destruct (values t' !! p) as [w|]; [|done]. destruct H as [->|(_ & x & y & x' & y' & Hw & _)]; [done|congruence].
  - intros id b Hbd. rewrite Hb in Hbd. by apply (wf_range t Hwf id).
  - intros rho Hm id v' b Hv' Hbd. rewrite Hb in Hbd.
    destruct (similar_determined_iff t t' rho id v' Hs Hv') as (v & Hv & Hsv & _). rewrite (similar_value_ty _ _ Hsv).
    apply (wf_bounds t Hwf rho (similar_model t t' rho Hs Hb Hm) id); done.
Qed.

(** ** Renumbering *)

Definition is_parameter (t : ValueTable) (id : nat) : Prop := exists block c, definition_at t id = Some (DParameter block c).

Lemma define_parameter id block c t : is_parameter t id ->
  exists t', define id (DParameter block c) t = Some t' /\ similar t t' /\ bounds t' = bounds t /\ interned t' = interned t /\
    definition_at t' id = Some (DParameter block c) /\ forall x, x <> id -> definition_at t' x = definition_at t x.
Proof.
  intros (b & k & (v & Hv & Hd)%fmap_Some). unfold define. rewrite Hv. cbn [mbind option_bind].
  eexists. split_and!; try done.
  - unfold similar. cbn [values]. apply Forall2_same_length_lookup. split; [by rewrite length_insert|].
    intros i x y Hx Hy. destruct (decide (i = id)) as [->|].
    + rewrite list_lookup_insert_eq in Hy by (by eapply lookup_lt_Some). simplify_eq. right. split; [done|]. by eexists _, _, _, _.
    + rewrite list_lookup_insert_ne in Hy by done. simplify_eq. by left.
  - unfold definition_at. cbn [values]. by rewrite list_lookup_insert_eq by (by eapply lookup_lt_Some).
  - intros x Hx. unfold definition_at. cbn [values]. by rewrite list_lookup_insert_ne.
Qed.

Lemma similar_parameter t t' id : similar t t' -> is_parameter t id -> is_parameter t' id.
Proof.
  intros Hs (b & c & (v & Hv & Hd)%fmap_Some). pose proof (similar_lookup t t' id Hs) as H. rewrite Hv in H.
  unfold is_parameter, definition_at. destruct (values t' !! id) as [v'|]; [|done]. cbn.
  destruct H as [->|(_ & x & y & x' & y' & _ & ->)]; [rewrite <- Hd|]; by eexists _, _.
Qed.

(** What renumbering some parameters leaves: the rest unchanged. *)
Record renumbered (t t' : ValueTable) (ids : nat -> Prop) : Prop := {
  rn_similar : similar t t';
  rn_bounds : bounds t' = bounds t;
  rn_interned : interned t' = interned t;
  rn_rest : forall id, ~ ids id -> definition_at t' id = definition_at t id;
}.

Lemma renumber_some block k ps t : Forall (is_parameter t) ps -> NoDup ps ->
  exists t', renumber block k ps t = Some t' /\ renumbered t t' (fun id => id ∈ ps) /\
    forall c id, ps !! c = Some id -> definition_at t' id = Some (DParameter block (k + c)).
Proof.
  revert k t. induction ps as [|p ps IH]; intros k t Hp Hnd; cbn [renumber].
  - exists t. split_and!; [done|by split|done].
  - apply Forall_cons in Hp as [Hp Hps]. apply NoDup_cons in Hnd as [Hnin Hnd].
    destruct (define_parameter p block k t Hp) as (t1 & -> & Hs & Hb & Hi & Hd & Hrest). cbn [mbind option_bind].
    destruct (IH (S k) t1) as (t' & -> & [Hs' Hb' Hi' Hrest'] & Hnew); [|done|].
    { eapply Forall_impl; [exact Hps|]. intros x. by apply similar_parameter. }
    exists t'. split_and!; [done| |].
    + split; [by etrans|by rewrite Hb'|by rewrite Hi'|]. intros id Hid. rewrite Hrest', Hrest; set_solver.
    + intros [|c] id; cbn; intros H.
      * injection H as ->. by rewrite Hrest', Nat.add_0_r.
      * rewrite (Hnew c id H). do 2 f_equal. lia.
Qed.

Lemma renumber_blocks_some entry start bs t :
  (forall i b, bs !! i = Some b -> Forall (is_parameter t) (parameters b) /\ NoDup (parameters b)) ->
  (forall i j b b' p, bs !! i = Some b -> bs !! j = Some b' -> p ∈ parameters b -> p ∈ parameters b' -> i = j) ->
  exists t', renumber_blocks entry start bs t = Some t' /\
    renumbered t t' (fun id => exists i b, bs !! i = Some b /\ start + i <> entry /\ id ∈ parameters b) /\
    forall i b c id, bs !! i = Some b -> start + i <> entry -> parameters b !! c = Some id ->
      definition_at t' id = Some (DParameter (start + i) c).
Proof.
  revert start t. induction bs as [|b bs IH]; intros start t Hok Hdis; cbn [renumber_blocks].
  - exists t. by split_and!; [|split|].
  - destruct (Hok 0 b eq_refl) as [Hp Hnd].
    assert (exists t1, (if Nat.eqb start entry then Some t else renumber start 0 (parameters b) t) = Some t1 /\
      renumbered t t1 (fun id => start <> entry /\ id ∈ parameters b) /\
      (start <> entry -> forall c id, parameters b !! c = Some id -> definition_at t1 id = Some (DParameter start c))) as (t1 & -> & [Hs Hb Hi Hrest] & Hnew).
    { destruct (Nat.eqb_spec start entry) as [->|Hne].
      - exists t. by split_and!; [|split|].
      - destruct (renumber_some start 0 (parameters b) t Hp Hnd) as (t1 & H1 & [Hs Hb Hi Hrest] & H3). exists t1.
        split_and!; [done| |done]. split; try done. intros id Hid. apply Hrest. naive_solver. }
    cbn [mbind option_bind]. destruct (IH (S start) t1) as (t' & -> & [Hs' Hb' Hi' Hrest'] & Hnew').
    + intros i b' Hib. destruct (Hok (S i) b' Hib) as [Hp' Hnd']. split; [|done].
      eapply Forall_impl; [exact Hp'|]. intros x. by apply similar_parameter.
    + intros i j b1 b2 p H1 H2 H3 H4. by injection (Hdis (S i) (S j) b1 b2 p H1 H2 H3 H4).
    + exists t'. split_and!; [done| |].
      * split; [by etrans|by rewrite Hb'|by rewrite Hi'|]. intros id Hid. rewrite Hrest', Hrest; [done|..].
        -- intros [Hne Hin]. apply Hid. exists 0, b. rewrite Nat.add_0_r. done.
        -- intros (i & b' & Hib & Hne & Hin). apply Hid. exists (S i), b'. rewrite <- Nat.add_succ_comm. done.
      * intros [|i] b' c id Hib Hne Hc; cbn in Hib.
        -- injection Hib as <-. rewrite Nat.add_0_r in *. rewrite Hrest'; [by apply Hnew|].
           intros (j & b2 & Hj & _ & Hin). apply list_elem_of_lookup_2 in Hc.
           by specialize (Hdis 0 (S j) b b2 id eq_refl Hj Hc Hin).
        -- rewrite <- Nat.add_succ_comm in *. by eapply Hnew'.
Qed.

(** ** The pruned blocks *)

Lemma mapM_fmap_some {A B} (f : A -> option B) (h : A -> B) l : (forall x, x ∈ l -> f x = Some (h x)) -> mapM f l = Some (h <$> l).
Proof.
  induction l as [|x l IH]; intros H; [done|]. cbn [mapM]. rewrite (H x) by left. cbn [mbind option_bind].
  rewrite IH; [done|]. intros y Hy. apply H. by right.
Qed.

Lemma trim_arguments_some keep args : length args <= length keep -> exists args', trim_arguments keep args = Some args'.
Proof.
  revert keep. induction args as [|y args IH]; intros [|k keep] Hl; cbn [trim_arguments length] in *; [by eexists..|lia|].
  destruct (IH keep ltac:(lia)) as [args' ->]. by eexists.
Qed.

Lemma trim_arguments_shape {A} (h : A -> bool) ps args args' : trim_arguments (h <$> ps) args = Some args' ->
  length args = length ps -> length args' = length (filter (fun p => h p = true) ps) /\ forall y, y ∈ args' -> y ∈ args.
Proof.
  revert args args'. induction ps as [|p ps IH]; intros [|y args] args'; cbn [trim_arguments fmap list_fmap length]; try done.
  - by intros [= <-].
  - intros (args1 & Ha & H)%bind_Some Hl. destruct (IH args args1 Ha ltac:(lia)) as [Hlen Hsub]. rewrite filter_cons.
    destruct (h p); injection H as <-; cbn [length]; (split; [by rewrite Hlen|]); set_solver.
Qed.

Lemma exit_map_edges_some f e : (forall edge, edge ∈ exit_edges e -> is_Some (f edge)) -> exists e', exit_map_edges f e = Some e'.
Proof.
  intros H. destruct e as [|x|c x y|s cs d|vs|g vs|tb sl vs|]; cbn in *; try by eexists.
  - destruct (H x) as [x' ->]; [left|]. by eexists.
  - destruct (H x) as [x' ->]; [left|]. cbn. destruct (H y) as [y' ->]; [right; left|]. by eexists.
  - assert (exists cs', mapM (fun case => edge ← f (snd case); Some (fst case, edge)) cs = Some cs') as [cs' ->].
    { apply mapM_is_Some_2, Forall_forall. intros [k x] Hx. cbn. destruct (H x) as [x' ->]; [|by eexists].
      apply elem_of_app. left. apply list_elem_of_fmap. by exists (k, x). }
    cbn. destruct (H d) as [d' ->]; [set_solver|]. by eexists.
Qed.

(** The edges of a mapped exit, and what else it reads. *)
Lemma exit_map_edges_edges f e e' edge' : exit_map_edges f e = Some e' -> edge' ∈ exit_edges e' ->
  exists edge, edge ∈ exit_edges e /\ f edge = Some edge'.
Proof.
  destruct e as [|x|c x y|s cs d|vs|g vs|tb sl vs|]; cbn; try (intros [= <-]; by intros []%elem_of_nil).
  - intros (x' & Hx & [= <-])%bind_Some Hin%list_elem_of_singleton. subst edge'. exists x. split; [left|done].
  - intros (x' & Hx & H)%bind_Some. apply bind_Some in H as (y' & Hy & [= <-]).
    cbn. rewrite elem_of_cons, list_elem_of_singleton. intros [->| ->]; [exists x|exists y]; set_solver.
  - intros (cs' & Hcs & H)%bind_Some. apply bind_Some in H as (d' & Hd & [= <-]). cbn.
    rewrite elem_of_app, list_elem_of_singleton, list_elem_of_fmap. intros [([k x'] & -> & Hx)| ->]; [|exists d; set_solver].
    apply mapM_Some in Hcs. apply list_elem_of_lookup in Hx as (i & Hi).
    destruct (Forall2_lookup_r _ _ _ _ _ Hcs Hi) as ([k0 x] & Hx & H). cbn in H. apply bind_Some in H as (x1 & Hx1 & [= <- <-]).
    exists x. split; [|done]. apply elem_of_app. left. apply list_elem_of_fmap. exists (k0, x). split; [done|by eapply list_elem_of_lookup_2].
Qed.

Lemma exit_map_edges_roots f e e' : exit_map_edges f e = Some e' -> exit_roots e' = exit_roots e.
Proof.
  destruct e as [|x|c x y|s cs d|vs|g vs|tb sl vs|]; cbn; try by intros [= <-].
  - by intros (x' & _ & [= <-])%bind_Some.
  - intros (x' & _ & H)%bind_Some. by apply bind_Some in H as (y' & _ & [= <-]).
  - intros (x' & _ & H)%bind_Some. by apply bind_Some in H as (y' & _ & [= <-]).
Qed.

(** The inputs of an exit are what it tests and the arguments of its edges. *)
Lemma exit_inputs_cases e id : id ∈ exit_inputs e <-> id ∈ exit_roots e \/ exists edge, edge ∈ exit_edges e /\ id ∈ arguments edge.
Proof.
  assert (id ∈ exit_edges e ≫= arguments <-> exists edge, edge ∈ exit_edges e /\ id ∈ arguments edge) as Hb.
  { rewrite list_elem_of_bind. naive_solver. }
  rewrite <- Hb. destruct e; cbn [exit_inputs exit_roots exit_edges]; rewrite ?elem_of_cons, ?elem_of_nil; cbn; rewrite ?elem_of_nil; tauto.
Qed.

Section Shape.
Context (g : FunctionGraph) (live : list bool) (observable : Operation -> bool).
Context (Hwf : graph_wf g) (Hlive : length live = length (blocks g)).

(** The graph that pruning by the marks [m] leaves. *)
Record pruned (m : Marking) (keep : list (list bool)) (g' : FunctionGraph) : Prop := {
  pr_exact : exact g live observable (Some m);
  pr_keep : forall a b, blocks g !! a = Some b -> keep !! a = Some (kept g m a <$> parameters b);
  pr_table : similar (table g) (table g');
  pr_bounds : bounds (table g') = bounds (table g);
  pr_effects : effects g' = effects g;
  pr_entry : entry g' = entry g;
  pr_length : length (blocks g') = length (blocks g);
  pr_blocks : forall a b, blocks g !! a = Some b -> exists b', blocks g' !! a = Some b' /\
    items b' = filter (fun i => marked m i = Some true) (items b) /\
    exit_map_edges (trim keep) (exit b) = Some (exit b') /\
    parameters b' = filter (fun p => kept g m a p = true) (parameters b);
  pr_parameters : forall a b' c p, blocks g' !! a = Some b' -> parameters b' !! c = Some p ->
    definition_at (table g') p = Some (DParameter a c);
}.

#[local] Set Default Proof Using "All".

Lemma parameters_nodup a b : blocks g !! a = Some b -> NoDup (parameters b).
Proof.
  intros Hb. apply NoDup_alt. intros i j p Hi Hj.
  pose proof (gw_parameters g Hwf a b i p Hb Hi) as H1. pose proof (gw_parameters g Hwf a b j p Hb Hj) as H2. congruence.
Qed.

Lemma parameters_own a b p : blocks g !! a = Some b -> p ∈ parameters b -> exists c, definition_at (table g) p = Some (DParameter a c).
Proof. intros Hb (c & Hc)%list_elem_of_lookup. exists c. by eapply gw_parameters. Qed.

Lemma keep_parameters_some m : exact g live observable (Some m) -> exists keep, keep_parameters g m = Some keep /\
  forall a b, blocks g !! a = Some b -> keep !! a = Some (kept g m a <$> parameters b).
Proof.
  intros (m' & [= <-] & Hv & _). unfold keep_parameters.
  assert (forall a b, blocks g !! a = Some b ->
    mapM (fun p => if Nat.eqb a (entry g) then Some true else live_values m !! p) (parameters b) = Some (kept g m a <$> parameters b)) as Hone.
  { intros a b Hb. apply mapM_fmap_some. intros p Hp. unfold kept. destruct (Nat.eqb a (entry g)); [done|]. cbn.
    destruct (parameters_own a b p Hb Hp) as [c Hc%definition_lt].
    destruct (lookup_lt_is_Some_2 (live_values m) p) as [[|] ->]; [by rewrite Hv|done..]. }
  destruct (mapM_id_some (imap (fun id b => mapM (fun p => if Nat.eqb id (entry g) then Some true else live_values m !! p) (parameters b)) (blocks g))) as [keep Hk].
  { intros i o. rewrite list_lookup_imap. intros (b & Hb & ->)%fmap_Some. cbv beta. rewrite (Hone i b Hb). by eexists. }
  exists keep. split; [exact Hk|]. intros a b Hb. rewrite (mapM_id_lookup _ _ a Hk), list_lookup_imap, Hb. cbn. by apply Hone.
Qed.

Lemma trim_some m keep a b edge : (forall a b, blocks g !! a = Some b -> keep !! a = Some (kept g m a <$> parameters b)) ->
  blocks g !! a = Some b -> edge ∈ exit_edges (exit b) ->
  exists edge' b1, trim keep edge = Some edge' /\ target edge' = target edge /\ blocks g !! target edge = Some b1 /\
    length (arguments edge') = length (filter (fun p => kept g m (target edge) p = true) (parameters b1)) /\
    forall y, y ∈ arguments edge' -> y ∈ arguments edge.
Proof.
  intros Hkeep Hb He. destruct (gw_edges g Hwf a b edge Hb He) as (b1 & Hb1 & Hlen). unfold trim.
  destruct (arguments edge) as [|y args] eqn:Hargs.
  - exists edge, b1. rewrite Hargs. split_and!; try done. by destruct (parameters b1).
  - rewrite (Hkeep _ _ Hb1). cbn [mbind option_bind].
    destruct (trim_arguments_some (kept g m (target edge) <$> parameters b1) (y :: args)) as [args' Ha]; [by rewrite length_fmap, Hlen|].
    rewrite Ha. cbn [mbind option_bind]. eexists _, b1. split_and!; try done; cbn [arguments];
      by eapply (trim_arguments_shape (kept g m (target edge))).
Qed.

Lemma trim_block_some m keep a b : exact g live observable (Some m) ->
  (forall a b, blocks g !! a = Some b -> keep !! a = Some (kept g m a <$> parameters b)) -> blocks g !! a = Some b ->
  exists e', trim_block keep m b = Some (mkBlock (parameters b) (filter (fun i => marked m i = Some true) (items b)) (callees b) e' (scope b)) /\
    exit_map_edges (trim keep) (exit b) = Some e'.
Proof.
  intros (m' & [= <-] & _ & Hc & He & _) Hkeep Hb. unfold trim_block.
  destruct (retain_some (marked m) (items b)) as [its Hits].
  { apply Forall_forall. intros item Hin. pose proof (gw_items g Hwf a b item Hb Hin) as Hst. destruct item; cbn in *.
    - destruct Hst as [x Hx%lookup_lt_Some]. apply lookup_lt_is_Some_2. by rewrite He.
    - destruct Hst as [x Hx%definition_lt]. apply lookup_lt_is_Some_2. by rewrite Hc. }
  rewrite Hits, (retain_filter _ _ _ Hits). cbn [mbind option_bind].
  destruct (exit_map_edges_some (trim keep) (exit b)) as [e' He'].
  { intros edge Hin. destruct (trim_some m keep a b edge Hkeep Hb Hin) as (edge' & b1 & -> & _). by eexists. }
  rewrite He'. by eexists.
Qed.

Lemma retain_parameters_some m a b : exact g live observable (Some m) ->
  (forall p, p ∈ parameters b -> p < length (values (table g))) ->
  retain_parameters (entry g) m a b =
    Some (mkBlock (filter (fun p => kept g m a p = true) (parameters b)) (items b) (callees b) (exit b) (scope b)).
Proof.
  intros (m' & [= <-] & Hv & _) Hp. unfold retain_parameters, kept. destruct (Nat.eqb a (entry g)) eqn:Ha.
  - replace (filter (fun p => true || bool_decide (live_values m !! p = Some true) = true) (parameters b)) with (parameters b); [by destruct b|].
    clear. induction (parameters b) as [|p ps IH]; [done|]. by rewrite filter_cons, <- IH.
  - destruct (retain_some (fun p => live_values m !! p) (parameters b)) as [ps Hps].
    { apply Forall_forall. intros p Hin. destruct (lookup_lt_is_Some_2 (live_values m) p) as [x Hx]; [rewrite Hv; by apply Hp|by exists x]. }
    rewrite Hps, (retain_filter _ _ _ Hps). cbn [mbind option_bind]. do 2 f_equal. apply list_filter_iff. intros p.
    cbn. by rewrite bool_decide_eq_true.
Qed.

Lemma prune_blocks_some m keep : exact g live observable (Some m) ->
  (forall a b, blocks g !! a = Some b -> keep !! a = Some (kept g m a <$> parameters b)) ->
  exists bs1 bs, mapM (trim_block keep m) (blocks g) = Some bs1 /\ mapM id (imap (retain_parameters (entry g) m) bs1) = Some bs /\
    length bs = length (blocks g) /\
    forall a b, blocks g !! a = Some b -> exists b', bs !! a = Some b' /\
      items b' = filter (fun i => marked m i = Some true) (items b) /\
      exit_map_edges (trim keep) (exit b) = Some (exit b') /\
      parameters b' = filter (fun p => kept g m a p = true) (parameters b).
Proof.
  intros Hm Hkeep.
  destruct (mapM_is_Some_2 (trim_block keep m) (blocks g)) as [bs1 Hbs1].
  { apply Forall_forall. intros b (a & Hb)%list_elem_of_lookup. destruct (trim_block_some m keep a b Hm Hkeep Hb) as (e' & Ht & _). by eexists. }
  pose proof (mapM_Some_1 _ _ _ Hbs1) as H1.
  assert (forall a b, blocks g !! a = Some b -> exists e', exit_map_edges (trim keep) (exit b) = Some e' /\
    bs1 !! a = Some (mkBlock (parameters b) (filter (fun i => marked m i = Some true) (items b)) (callees b) e' (scope b))) as Hone.
  { intros a b Hb. destruct (trim_block_some m keep a b Hm Hkeep Hb) as (e' & Ht & He). exists e'. split; [done|].
    destruct (Forall2_lookup_l _ _ _ _ _ H1 Hb) as (b1 & Hb1 & Ht'). congruence. }
  assert (forall a b1, bs1 !! a = Some b1 -> exists b', retain_parameters (entry g) m a b1 = Some b' /\
    b' = mkBlock (filter (fun p => kept g m a p = true) (parameters b1)) (items b1) (callees b1) (exit b1) (scope b1)) as Htwo.
  { intros a b1 Hb1. destruct (Forall2_lookup_r _ _ _ _ _ H1 Hb1) as (b & Hb & _). destruct (Hone a b Hb) as (e' & _ & H). simplify_eq.
    eexists. split; [|done]. apply retain_parameters_some; [done|]. intros p Hp.
    destruct (parameters_own a b p Hb Hp) as [c Hc]. by eapply definition_lt. }
  destruct (mapM_id_some (imap (retain_parameters (entry g) m) bs1)) as [bs Hbs].
  { intros i o. rewrite list_lookup_imap. intros (b1 & Hb1 & ->)%fmap_Some. destruct (Htwo i b1 Hb1) as (b' & -> & _). by eexists. }
  exists bs1, bs. split_and!; [done|done| |].
  - pose proof (Forall2_length _ _ _ (mapM_Some_1 _ _ _ Hbs)) as H2. rewrite length_imap in H2. rewrite (Forall2_length _ _ _ H1). done.
  - intros a b Hb. destruct (Hone a b Hb) as (e' & He & Hb1). destruct (Htwo a _ Hb1) as (b' & Hr & Hb'). exists b'.
    split; [rewrite (mapM_id_lookup _ _ a Hbs), list_lookup_imap, Hb1; exact Hr|by subst b'].
Qed.

Lemma prune_some : exists g' m keep, prune g live observable = Some (g', mkRetained (live_values m) (live_effects m)) /\ pruned m keep g'.
Proof.
  destruct (liveness_needed g live observable Hwf Hlive) as (m & Hm & Hex).
  assert (exact g live observable (Some m)) as Hexact by (by exists m).
  destruct (keep_parameters_some m Hexact) as (keep & Hk & Hkeep).
  destruct (prune_blocks_some m keep Hexact Hkeep) as (bs1 & bs & H1 & H2 & Hlen & Hbs).
  assert (forall a b', bs !! a = Some b' -> exists b, blocks g !! a = Some b /\ parameters b' = filter (fun p => kept g m a p = true) (parameters b)) as Hback.
  { intros a b' Hb'. destruct (lookup_lt_is_Some_2 (blocks g) a) as [b Hb]; [rewrite <- Hlen; by eapply lookup_lt_Some|].
    destruct (Hbs a b Hb) as (b1 & Hb1 & _ & _ & Hp). simplify_eq. by exists b. }
  destruct (renumber_blocks_some (entry g) 0 bs (table g)) as (t' & Ht & [Hs Hb Hi Hrest] & Hnew).
  { intros a b' Hb'. destruct (Hback a b' Hb') as (b & Hb & ->). split.
    - apply Forall_forall. intros p [_ Hp]%list_elem_of_filter. destruct (parameters_own a b p Hb Hp) as [c Hc]. by exists a, c.
    - by eapply NoDup_filter, parameters_nodup. }
  { intros i j b1 b2 p Hb1 Hb2. destruct (Hback i b1 Hb1) as (b & Hb & ->). destruct (Hback j b2 Hb2) as (b' & Hb' & ->).
    intros [_ Hp]%list_elem_of_filter [_ Hp']%list_elem_of_filter.
    destruct (parameters_own i b p Hb Hp) as [c Hc]. destruct (parameters_own j b' p Hb' Hp') as [c' Hc']. congruence. }
  eexists _, m, keep. split; [unfold prune; rewrite Hm; cbn [mbind option_bind]; rewrite Hk; cbn [mbind option_bind];
    rewrite H1; cbn [mbind option_bind]; rewrite H2; cbn [mbind option_bind]; by rewrite Ht|].
  split; cbn [table effects entry blocks]; try done. intros a b' c p Hb' Hp.
  destruct (decide (a = entry g)) as [->|Hne]; [|by apply (Hnew a b' c p)].
  destruct (Hback _ b' Hb') as (b & Hbb & Hpar). rewrite Hrest.
  - assert (filter (fun p => kept g m (entry g) p = true) (parameters b) = parameters b) as Hall.
    { clear. induction (parameters b) as [|q ps IH]; [done|]. rewrite filter_cons, IH. unfold kept. by rewrite Nat.eqb_refl. }
    rewrite Hpar, Hall in Hp. by eapply gw_parameters.
  - intros (i & b1 & Hb1 & Hne & Hin). destruct (Hback i b1 Hb1) as (b2 & Hb2 & Hpar2). rewrite Hpar2 in Hin.
    apply list_elem_of_filter in Hin as [_ Hin]. destruct (parameters_own i b2 p Hb2 Hin) as [c' Hc'].
    apply list_elem_of_lookup_2 in Hp. rewrite Hpar in Hp. apply list_elem_of_filter in Hp as [_ Hp].
    destruct (parameters_own _ b p Hbb Hp) as [c2 Hc2]. cbn in Hne. congruence.
Qed.

Lemma pruned_wf m keep g' : pruned m keep g' -> graph_wf g'.
Proof.
  intros [Hex Hkeep Hs Hb Heff Hent Hlen Hbs Hpar]. pose proof Hex as (m' & [= <-] & Hv & Hc & He & Hvals & Hitems).
  assert (forall a b', blocks g' !! a = Some b' -> exists b, blocks g !! a = Some b /\
    items b' = filter (fun i => marked m i = Some true) (items b) /\ exit_map_edges (trim keep) (exit b) = Some (exit b')) as Hback.
  { intros a b' Hb'. destruct (lookup_lt_is_Some_2 (blocks g) a) as [b Hbb]; [rewrite <- Hlen; by eapply lookup_lt_Some|].
    destruct (Hbs a b Hbb) as (b1 & Hb1 & Hi & Hx & _). simplify_eq. by exists b. }
  assert (length (values (table g')) = length (values (table g))) as Hsize by (symmetry; by eapply Forall2_length).
  split; rewrite ?Hsize, ?Heff.
  - by eapply similar_wf, gw_table.
  - rewrite Hent, Hlen. by apply gw_entry.
  - intros a b' c p Hb' Hp. by eapply Hpar.
  - intros effect e c p Hef Hp. eapply (similar_definition (table g)); [done|done|]. by eapply gw_results.
  - intros p effect c Hd. apply (gw_produced g Hwf p effect c).
    pose proof (similar_lookup _ _ p Hs) as H. unfold definition_at in *. destruct (values (table g') !! p) as [v'|]; [|done].
    destruct (values (table g) !! p) as [v|]; [|done]. cbn in *. destruct H as [->|(_ & x & y & x' & y' & _ & Hd')]; [done|congruence].
  - by apply gw_inputs.
  - intros a b' item Hb' Hin. destruct (Hback a b' Hb') as (b & Hbb & Hi & _). rewrite Hi in Hin.
    apply list_elem_of_filter in Hin as [_ Hin]. pose proof (gw_items g Hwf a b item Hbb Hin) as Hst.
    destruct item; [done|]. destruct Hst as [e Hde]. exists e. by apply (similar_definition (table g)).
  - intros a b' Hb'. destruct (Hback a b' Hb') as (b & Hbb & _ & Hx). pose proof (gw_exit g Hwf a b Hbb) as Hin.
    rewrite Forall_forall in *. intros id Hid. apply Hin, exit_inputs_cases. apply exit_inputs_cases in Hid as [Hid|(edge' & He' & Hid)].
    + left. by rewrite <- (exit_map_edges_roots _ _ _ Hx).
    + right. destruct (exit_map_edges_edges _ _ _ _ Hx He') as (edge & Hedge & Ht). exists edge. split; [done|].
      destruct (trim_some m keep a b edge Hkeep Hbb Hedge) as (edge1 & b1 & Ht1 & _ & _ & _ & Hsub). rewrite Ht in Ht1. simplify_eq. by apply Hsub.
  - intros a b' edge' Hb' He'. destruct (Hback a b' Hb') as (b & Hbb & _ & Hx).
    destruct (exit_map_edges_edges _ _ _ _ Hx He') as (edge & Hedge & Ht).
    destruct (trim_some m keep a b edge Hkeep Hbb Hedge) as (edge1 & b1 & Ht1 & Htar & Hb1 & Hl & _). rewrite Ht in Ht1. simplify_eq.
    destruct (Hbs _ b1 Hb1) as (b2 & Hb2 & _ & _ & Hp2). exists b2. rewrite Htar, Hp2. done.
Qed.
End Shape.
