(* ===== verification/PruneControl.v ===== *)
(** * Resolved control

    [control_simplify] never panics on a well-formed graph, keeps it well formed
    with the same executable edges, and the simplified graph runs as the
    original does. *)

From S2P Require Import Prelude Bytes Types Floating Expr Evaluate Values Model Valuations Graph Prune GraphRun PruneLive PruneShape.

(** ** Induction over layouts *)

Section LayoutInd.
Context (P : Layout -> Prop).
Context (HBlock : forall block, P (LBlock block)).
Context (HScope : forall preheader body after, Forall P body -> P (LScope preheader body after)).
Context (HIf : forall branch taken otherwise join, Forall P taken -> Forall P otherwise -> P (LIf branch taken otherwise join)).
Context (HLoop : forall preheader header body after, Forall P body -> P (LLoop preheader header body after)).
Context (HSwitch : forall branch cases default join, Forall (fun c => Forall P (snd c)) cases -> Forall P default ->
  P (LSwitch branch cases default join)).

Fixpoint layout_ind' (l : Layout) : P l :=
  let fix all (items : list Layout) : Forall P items :=
    match items with
    | [] => Forall_nil_2 P
    | item :: items => Forall_cons_2 P item items (layout_ind' item) (all items)
    end in
  match l with
  | LBlock block => HBlock block
  | LScope preheader body after => HScope preheader body after (all body)
  | LIf branch taken otherwise join => HIf branch taken otherwise join (all taken) (all otherwise)
  | LLoop preheader header body after => HLoop preheader header body after (all body)
  | LSwitch branch cases default join =>
      HSwitch branch cases default join
        ((fix all_cases (cases : list (Z * list Layout)) : Forall (fun c => Forall P (snd c)) cases :=
          match cases with
          | [] => Forall_nil_2 _
          | (key, body) :: cases => Forall_cons_2 (fun c => Forall P (snd c)) (key, body) cases (all body) (all_cases cases)
          end) cases)
        (all default)
  end.
End LayoutInd.

(** A layout names blocks below [n]. *)
Fixpoint layout_within (n : nat) (l : Layout) : bool :=
  match l with
  | LBlock block => block <? n
  | LScope preheader body after => (preheader <? n) && (after <? n) && forallb (layout_within n) body
  | LIf branch taken otherwise join =>
      (branch <? n) && (join <? n) && forallb (layout_within n) taken && forallb (layout_within n) otherwise
  | LLoop preheader header body after =>
      (preheader <? n) && (header <? n) && (after <? n) && forallb (layout_within n) body
  | LSwitch branch cases default join =>
      (branch <? n) && (join <? n) && forallb (fun c => forallb (layout_within n) (snd c)) cases && forallb (layout_within n) default
  end.

Lemma layout_entry_within n l : layout_within n l = true -> layout_entry l < n.
Proof. destruct l; cbn; intros H; repeat (apply andb_true_iff in H as [H ?]); by apply Nat.ltb_lt. Qed.

Lemma Forall_forallb {A} (p : A -> bool) (Q : A -> Prop) l : Forall (fun x => p x = true -> Q x) l -> forallb p l = true -> Forall Q l.
Proof. intros Hall H. rewrite Forall_forall in *. intros x Hx. apply Hall; [done|]. rewrite forallb_forall in H. apply H. by apply list_elem_of_In. Qed.

(** ** The items of a layout, one at a time *)

Section Items.
Context (g : FunctionGraph) (reachable : list bool) (incoming : list (list nat)).

Notation simplify_item := (simplify_item g reachable incoming).
Notation simplify_layout := (simplify_layout g reachable incoming).

Lemma simplify_item_eq item : simplify_item item = (live ← reachable !! layout_entry item;
  if negb live then Some []
  else
    match item with
    | LBlock _ => Some [item]
    | LScope preheader body after => body ← simplify_layout body; control_scope incoming preheader body after
    | LIf branch taken otherwise join =>
        index ← branch_index g branch;
        match index with
        | Some index =>
            body ← (if Nat.eqb index 0 then simplify_layout taken else simplify_layout otherwise);
            control_scope incoming branch body join
        | None =>
            taken ← simplify_layout taken; otherwise ← simplify_layout otherwise;
            Some [LIf branch taken otherwise join]
        end
    | LSwitch branch cases default join =>
        index ← branch_index g branch;
        match index with
        | Some index =>
            body ← match cases !! index with Some (_, body) => simplify_layout body | None => simplify_layout default end;
            control_scope incoming branch body join
        | None =>
            cases ← mapM (fun '(key, body) => body ← simplify_layout body; Some (key, body)) cases;
            default ← simplify_layout default;
            Some [LSwitch branch cases default join]
        end
    | LLoop preheader header body after => body ← simplify_layout body; Some [LLoop preheader header body after]
    end).
Proof.
  assert (forall items, (fix simplify (items : list Layout) : option (list Layout) :=
    match items with [] => Some [] | item :: items => first ← simplify_item item; rest ← simplify items; Some (first ++ rest) end) items
    = simplify_layout items) as Hl.
  { intros items. induction items as [|i items IH]; [done|]. cbn [Prune.simplify_layout]. by rewrite <- IH. }
  destruct item as [| | | |branch cases default join]; cbn [Prune.simplify_item]; rewrite ?Hl; try done.
  destruct (reachable !! _) as [[]|]; cbn; try done. destruct (branch_index g branch) as [[index|]|]; cbn; try done.
  - f_equal. clear -Hl. revert index. induction cases as [|[k b] cases IH]; intros [|index]; cbn; try done; apply Hl || apply IH.
  - f_equal. clear -Hl. induction cases as [|[k b] cases IH]; [done|]. cbn. rewrite Hl. destruct (simplify_layout b); [|done].
    cbn. by rewrite IH.
Qed.
End Items.

(** ** Control is resolved *)

Lemma push_sources_some source edges inc : Forall (fun e => target e < length inc) edges ->
  exists inc', push_sources source edges inc = Some inc' /\ length inc' = length inc /\
    forall t l', inc' !! t = Some l' -> exists l, inc !! t = Some l /\
      forall s, s ∈ l' <-> s ∈ l \/ s = source /\ exists e, e ∈ edges /\ target e = t.
Proof.
  revert inc. induction edges as [|e edges IH]; intros inc Hin; cbn [push_sources].
  - exists inc. split_and!; [done|done|]. intros t l Hl. exists l. split; [done|]. set_solver.
  - apply Forall_cons in Hin as [He Hin]. destruct (lookup_lt_is_Some_2 inc _ He) as [l Hl]. rewrite Hl. cbn [mbind option_bind].
    destruct (IH (<[target e := l ++ [source]]> inc)) as (inc' & -> & Hlen & Hspec); [by rewrite length_insert|].
    rewrite length_insert in Hlen. exists inc'. split_and!; [done|done|]. intros t l' Hl'.
    destruct (Hspec t l' Hl') as (l0 & Hl0 & Hs). destruct (decide (t = target e)) as [->|Hne].
    + rewrite list_lookup_insert_eq in Hl0 by done. simplify_eq. exists l. split; [done|]. intros s. rewrite Hs. set_solver.
    + rewrite list_lookup_insert_ne in Hl0 by done. exists l0. split; [done|]. intros s. rewrite Hs. set_solver.
Qed.

Section Resolve.
Context (g : FunctionGraph) (live : list bool).
Context (Hwf : graph_wf g) (Hlive : length live = length (blocks g)).

#[local] Set Default Proof Using "All".

Lemma outgoing_targets a edges : outgoing g a = Some edges -> Forall (fun e => target e < length (blocks g)) edges.
Proof.
  intros Ho. apply outgoing_edges in Ho as (b & Hb & Hsub & _). apply Forall_forall. intros e He.
  destruct (gw_edges g Hwf a b e Hb (Hsub e He)) as (b' & Hb' & _). by eapply lookup_lt_Some.
Qed.

Lemma control_incoming_some flags start inc : start + length flags = length (blocks g) -> length inc = length (blocks g) ->
  exists inc', control_incoming g start flags inc = Some inc' /\ length inc' = length (blocks g) /\
    forall t l', inc' !! t = Some l' -> exists l, inc !! t = Some l /\
      forall s, s ∈ l' <-> s ∈ l \/ exists i, s = start + i /\ flags !! i = Some true /\ leads g s t.
Proof.
  revert start inc. induction flags as [|flag flags IH]; intros start inc Hlen Hinc; cbn [control_incoming length] in *.
  - exists inc. split_and!; [done|done|]. intros t l Hl. exists l. split; [done|]. intros s. split; [by left|].
    intros [H|(i & _ & H & _)]; done.
  - assert (exists inc1, (if flag then edges ← outgoing g start; push_sources start edges inc else Some inc) = Some inc1 /\
      length inc1 = length (blocks g) /\ forall t l', inc1 !! t = Some l' -> exists l, inc !! t = Some l /\
        forall s, s ∈ l' <-> s ∈ l \/ s = start /\ flag = true /\ leads g start t) as (inc1 & -> & Hl1 & H1).
    { destruct flag.
      - destruct (lookup_lt_is_Some_2 (blocks g) start ltac:(lia)) as [b Hb].
        destruct (outgoing_some g start b Hwf Hb) as (edges & Ho & _). rewrite Ho. cbn [mbind option_bind].
        destruct (push_sources_some start edges inc) as (inc1 & -> & Hl1 & H1).
        { rewrite Hinc. by eapply outgoing_targets. }
        exists inc1. split_and!; [done|lia|]. intros t l' Hl'. destruct (H1 t l' Hl') as (l & Hl & Hs). exists l. split; [done|].
        intros s. rewrite Hs. unfold leads. split.
        + intros [H|(-> & e & He & Ht)]; [by left|right]. split_and!; [done|done|]. by exists edges, e.
        + intros [H|(-> & _ & edges' & e & Ho' & He & Ht)]; [by left|right]. simplify_eq. split; [done|]. by exists e.
      - exists inc. split_and!; [done|done|]. intros t l Hl. exists l. split; [done|]. intros s. split; [by left|]. by intros [H|(_ & ? & _)]. }
    cbn [mbind option_bind]. destruct (IH (S start) inc1) as (inc' & -> & Hl' & Hs'); [lia|done|].
    exists inc'. split_and!; [done|done|]. intros t l' Hlt. destruct (Hs' t l' Hlt) as (l1 & Hlk1 & Hx). destruct (H1 t l1 Hlk1) as (l & Hlk & Hy).
    exists l. split; [done|]. intros s. rewrite Hx, Hy. split.
    + intros [[H|(-> & -> & H)]|(i & -> & Hi & H)]; [by left|right; exists 0; by rewrite Nat.add_0_r|].
      right. exists (S i). by rewrite <- Nat.add_succ_comm.
    + intros [H|([|i] & -> & Hi & H)]; [by auto| |].
      * left. right. rewrite Nat.add_0_r in *. cbn in Hi. by injection Hi as ->.
      * right. exists i. rewrite <- Nat.add_succ_comm in *. done.
Qed.

Lemma constant_index_some a b : blocks g !! a = Some b -> exists index, constant_edge_index (table g) (exit b) = Some index /\
  forall i, index = Some i -> exists edge, exit_edge (exit b) i = Some edge /\ edge ∈ exit_edges (exit b) /\ outgoing g a = Some [edge].
Proof.
  intros Hb. destruct (outgoing_some g a b Hwf Hb) as (edges & Ho & Hsub). pose proof Ho as Ho'.
  unfold outgoing in Ho. rewrite Hb in Ho. cbn [mbind option_bind] in Ho.
  apply bind_Some in Ho as (index & -> & Ho). exists index. split; [done|]. intros i ->.
  apply bind_Some in Ho as (edge & He & [= <-]). exists edge. split_and!; [done|apply Hsub; left|done].
Qed.

Context (inc : list (list nat)) (Hinc : length inc = length (blocks g)).

Lemma branch_index_some branch : branch < length (blocks g) -> exists index, branch_index g branch = Some index.
Proof.
  intros [b Hb]%lookup_lt_is_Some_2. unfold branch_index. rewrite Hb. cbn [mbind option_bind].
  destruct (constant_index_some branch b Hb) as (index & -> & _). by eexists.
Qed.

Lemma control_scope_some preheader body after : after < length (blocks g) -> exists l, control_scope inc preheader body after = Some l.
Proof. intros H. unfold control_scope. destruct (lookup_lt_is_Some_2 inc after) as [l ->]; [by rewrite Hinc|]. by eexists. Qed.

Lemma simplify_layout_some items : Forall (fun l => exists l', simplify_item g live inc l = Some l') items ->
  exists items', simplify_layout g live inc items = Some items'.
Proof.
  induction 1 as [|item items [l Hl] _ [ls Hls]]; cbn [simplify_layout]; [by eexists|]. rewrite Hl. cbn [mbind option_bind]. rewrite Hls. by eexists.
Qed.

Lemma simplify_item_some item : layout_within (length (blocks g)) item = true -> exists l, simplify_item g live inc item = Some l.
Proof.
  induction item as [block|preheader body after IH|branch taken otherwise join IHt IHo|preheader header body after IH|branch cases default join IHc IHd]
    using layout_ind'; intros Hw; pose proof (layout_entry_within _ _ Hw) as Hentry; cbn [layout_entry] in Hentry;
    rewrite simplify_item_eq; cbn [layout_entry];
    (destruct (lookup_lt_is_Some_2 live _ ltac:(rewrite Hlive; exact Hentry)) as [flag ->]); cbn [mbind option_bind];
    (destruct flag; cbn [negb]; [|by eexists]); cbn [layout_within] in Hw; repeat (apply andb_true_iff in Hw as [Hw ?]).
  - by eexists.
  - destruct (simplify_layout_some body) as [l ->]; [by eapply Forall_forallb|]. cbn. apply control_scope_some. by apply Nat.ltb_lt.
  - destruct (branch_index_some branch Hentry) as [index ->]. cbn [mbind option_bind].
    destruct (simplify_layout_some taken) as [lt Hlt]; [by eapply Forall_forallb|].
    destruct (simplify_layout_some otherwise) as [lo Hlo]; [by eapply Forall_forallb|]. rewrite Hlt, Hlo.
    destruct index as [index|]; [|by eexists]. destruct (Nat.eqb index 0); cbn; apply control_scope_some; by apply Nat.ltb_lt.
  - destruct (simplify_layout_some body) as [l ->]; [by eapply Forall_forallb|]. by eexists.
  - destruct (branch_index_some branch Hentry) as [index ->]. cbn [mbind option_bind].
    destruct (simplify_layout_some default) as [ld Hld]; [by eapply Forall_forallb|].
    assert (Forall (fun c => exists l, simplify_layout g live inc (snd c) = Some l) cases) as Hcases.
    { eapply Forall_forallb; [|eassumption]. eapply Forall_impl; [exact IHc|]. intros [k b] Hb Hwb. cbn in *.
      apply simplify_layout_some. by eapply Forall_forallb. }
    rewrite Hld. destruct index as [index|].
    + assert (exists l, match cases !! index with Some (_, body) => simplify_layout g live inc body | None => Some ld end = Some l) as [l ->].
      { destruct (cases !! index) as [[k b]|] eqn:Hi; [|by eexists]. by apply (Forall_lookup_1 _ _ _ _ Hcases Hi). }
      cbn. apply control_scope_some. by apply Nat.ltb_lt.
    + destruct (mapM_is_Some_2 (fun '(key, body) => body ← simplify_layout g live inc body; Some (key, body)) cases) as [cs ->]; [|by eexists].
      eapply Forall_impl; [exact Hcases|]. intros [k b] [l Hl]. cbn in *. rewrite Hl. by eexists.
Qed.
End Resolve.

(** The graph whose constant exits are jumps. *)
Record resolved (g g' : FunctionGraph) : Prop := {
  rs_table : table g' = table g;
  rs_effects : effects g' = effects g;
  rs_entry : entry g' = entry g;
  rs_length : length (blocks g') = length (blocks g);
  rs_blocks : forall a b, blocks g !! a = Some b -> exists b', blocks g' !! a = Some b' /\
    parameters b' = parameters b /\ items b' = items b /\
    exists index, constant_edge_index (table g) (exit b) = Some index /\
      match index with
      | Some i => exists edge, exit_edge (exit b) i = Some edge /\ exit b' = Jump edge
      | None => exit b' = exit b
      end;
}.

Definition layout_ok (g : FunctionGraph) : Prop := forallb (layout_within (length (blocks g))) (layout g) = true.

Lemma control_simplify_some g live : graph_wf g -> length live = length (blocks g) -> layout_ok g ->
  exists g', control_simplify g live = Some g' /\ resolved g g'.
Proof.
  intros Hwf Hlive Hlay. unfold control_simplify.
  destruct (control_incoming_some g live Hwf Hlive live 0 (replicate (length (blocks g)) [])) as (inc & -> & Hinc & _);
    [done|by rewrite length_replicate|]. cbn [mbind option_bind].
  destruct (simplify_layout_some g live Hwf Hlive inc Hinc (layout g)) as [lay ->].
  { eapply Forall_forallb; [|exact Hlay]. apply Forall_forall. intros l _. by apply simplify_item_some. }
  cbn [mbind option_bind].
  assert (forall a b, blocks g !! a = Some b -> exists b', resolve_exit (table g) b = Some b' /\
    parameters b' = parameters b /\ items b' = items b /\
    exists index, constant_edge_index (table g) (exit b) = Some index /\
      match index with
      | Some i => exists edge, exit_edge (exit b) i = Some edge /\ exit b' = Jump edge
      | None => exit b' = exit b
      end) as Hone.
  { intros a b Hb. destruct (constant_index_some g live Hwf Hlive a b Hb) as (index & Hi & He). unfold resolve_exit.
    rewrite Hi. cbn [mbind option_bind]. destruct index as [i|].
    - destruct (He i eq_refl) as (edge & Hedge & _). rewrite Hedge. eexists. split_and!; [done|done|done|].
      exists (Some i). split; [done|]. by exists edge.
    - exists b. split_and!; try done. by exists None. }
  destruct (mapM_is_Some_2 (resolve_exit (table g)) (blocks g)) as [bs Hbs].
  { apply Forall_forall. intros b (a & Hb)%list_elem_of_lookup. destruct (Hone a b Hb) as (b' & Hb' & _). by exists b'. }
  rewrite Hbs. eexists. split; [done|]. pose proof (mapM_Some_1 _ _ _ Hbs) as H2.
  split; cbn [table effects entry blocks]; try done; [symmetry; by eapply Forall2_length|].
  intros a b Hb. destruct (Hone a b Hb) as (b' & Hr & H). destruct (Forall2_lookup_l _ _ _ _ _ H2 Hb) as (b1 & Hb1 & Hr1).
  rewrite Hr in Hr1. simplify_eq. by exists b1.
Qed.

Section Resolved.
Context (g g' : FunctionGraph) (Hwf : graph_wf g) (Hr : resolved g g').
#[local] Set Default Proof Using "All".

Lemma resolved_back a b' : blocks g' !! a = Some b' -> exists b, blocks g !! a = Some b.
Proof. intros H%lookup_lt_Some. rewrite (rs_length g g' Hr) in H. by apply lookup_lt_is_Some_2. Qed.

(** Every edge left is executable. *)
Lemma resolved_outgoing a b' : blocks g' !! a = Some b' ->
  outgoing g' a = outgoing g a /\ outgoing g a = Some (exit_edges (exit b')).
Proof.
  intros Hb'. destruct (resolved_back a b' Hb') as [b Hb]. unfold outgoing. rewrite (rs_table g g' Hr).
  destruct (rs_blocks g g' Hr a b Hb) as (b1 & Hb1 & _ & _ & index & Hi & He). simplify_eq.
  rewrite Hb', Hb. cbn [mbind option_bind]. rewrite Hi. cbn [mbind option_bind]. destruct index as [i|].
  - destruct He as (edge & Hedge & ->). cbn. by rewrite Hedge.
  - by rewrite He, Hi.
Qed.

Lemma resolved_edges a b b' edge : blocks g !! a = Some b -> blocks g' !! a = Some b' ->
  edge ∈ exit_edges (exit b') -> edge ∈ exit_edges (exit b).
Proof.
  intros Hb Hb'. destruct (rs_blocks g g' Hr a b Hb) as (b1 & Hb1 & _ & _ & index & Hi & He). simplify_eq.
  destruct index as [i|]; [|by rewrite He]. destruct He as (e & Hedge & ->). intros ->%list_elem_of_singleton.
  by eapply exit_edge_in.
Qed.

Lemma resolved_leads a b : leads g' a b <-> leads g a b.
Proof.
  unfold leads. destruct (blocks g' !! a) as [b'|] eqn:Hb'.
  - by rewrite (proj1 (resolved_outgoing a b' Hb')).
  - assert (blocks g !! a = None) as Hb.
    { apply lookup_ge_None in Hb'. apply lookup_ge_None. by rewrite <- (rs_length g g' Hr). }
    unfold outgoing. rewrite Hb, Hb'. cbn. naive_solver.
Qed.

Lemma resolved_wf : graph_wf g'.
Proof.
  pose proof (rs_table g g' Hr) as Ht. pose proof (rs_effects g g' Hr) as He.
  split; rewrite ?Ht, ?He.
  - by apply gw_table.
  - rewrite (rs_entry g g' Hr), (rs_length g g' Hr). by apply gw_entry.
  - intros a b' c p Hb' Hp. destruct (resolved_back a b' Hb') as [b Hb].
    destruct (rs_blocks g g' Hr a b Hb) as (b1 & Hb1 & Hpar & _). simplify_eq. rewrite Hpar in Hp. by eapply gw_parameters.
  - apply (gw_results g Hwf).
  - apply (gw_produced g Hwf).
  - apply (gw_inputs g Hwf).
  - intros a b' item Hb' Hin. destruct (resolved_back a b' Hb') as [b Hb].
    destruct (rs_blocks g g' Hr a b Hb) as (b1 & Hb1 & _ & Hit & _). simplify_eq. rewrite Hit in Hin. by eapply gw_items.
  - intros a b' Hb'. destruct (resolved_back a b' Hb') as [b Hb]. pose proof (gw_exit g Hwf a b Hb) as Hin.
    rewrite Forall_forall in *. intros id Hid. apply exit_inputs_cases in Hid as [Hid|(edge & Hedge & Hid)].
    + destruct (rs_blocks g g' Hr a b Hb) as (b1 & Hb1 & _ & _ & index & _ & Hx). simplify_eq.
      destruct index as [i|]; [destruct Hx as (e & _ & Hx); rewrite Hx in Hid; by apply elem_of_nil in Hid|].
      rewrite Hx in Hid. by apply Hin, exit_roots_inputs.
    + eapply Hin, exit_edges_inputs; [|exact Hid]. by eapply resolved_edges.
  - intros a b' edge Hb' Hedge. destruct (resolved_back a b' Hb') as [b Hb].
    destruct (gw_edges g Hwf a b edge Hb) as (t & Htb & Hlen); [by eapply resolved_edges|].
    destruct (rs_blocks g g' Hr _ t Htb) as (t' & Ht' & Hpar & _). exists t'. by rewrite Hpar.
Qed.

Context {World : Type} (run : OperationKind -> list Literal -> World -> option (list Literal * World)) (placed : bool).

Lemma resolved_items its rho w : run_items run placed g' its rho w = run_items run placed g its rho w.
Proof.
  revert rho w. induction its as [|item its IH]; intros rho w; cbn [run_items]; [done|].
  assert (run_item run placed g' item rho w = run_item run placed g item rho w) as ->.
  { destruct item; cbn [run_item]; by rewrite ?(rs_effects g g' Hr), ?(rs_table g g' Hr). }
  destruct (run_item run placed g item rho w) as [[[rho1 w1]|k]|]; cbn; [apply IH|done|done].
Qed.

Lemma resolved_execute fuel a rho w : execute run placed fuel g' a rho w = execute run placed fuel g a rho w.
Proof.
  revert a rho w. induction fuel as [|fuel IH]; intros a rho w; cbn [execute]; [done|].
  destruct (blocks g !! a) as [b|] eqn:Hb.
  - destruct (rs_blocks g g' Hr a b Hb) as (b' & Hb' & _ & Hit & index & Hi & He). rewrite Hb'. cbn [mbind option_bind].
    rewrite resolved_items, Hit, (rs_table g g' Hr). destruct (run_items run placed g (items b) rho w) as [[[rho1 w1]|[k w1]]|]; cbn [mbind option_bind]; try done.
    assert (run_exit placed (table g) (exit b') rho1 = run_exit placed (table g) (exit b) rho1) as ->.
    { destruct index as [i|]; [|by rewrite He]. destruct He as (edge & Hedge & ->). symmetry.
      by apply (run_exit_resolved placed (table g) (exit b) rho1 i edge (gw_table g Hwf)). }
    destruct (run_exit placed (table g) (exit b) rho1) as [[edge|o]|]; cbn [mbind option_bind]; try done.
    destruct (blocks g !! target edge) as [t|] eqn:Ht.
    + destruct (rs_blocks g g' Hr _ t Ht) as (t' & -> & Hpar & _). cbn [mbind option_bind]. unfold enter. rewrite Hpar. apply IH.
    + apply lookup_ge_None in Ht. rewrite <- (rs_length g g' Hr) in Ht. by rewrite (proj2 (lookup_ge_None _ _) Ht).
  - apply lookup_ge_None in Hb. rewrite <- (rs_length g g' Hr) in Hb. by rewrite (proj2 (lookup_ge_None _ _) Hb).
Qed.
End Resolved.
