(* ===== verification/PruneCompact.v ===== *)
(** * Compaction as a whole

    What pruning retains is closed where every needed execution is scheduled in
    a reachable block and no edge enters the entry block again, as placement
    leaves a graph: then [compact] is total. *)

From S2P Require Import Prelude Bytes Types Floating Expr Evaluate Values Model Carrier Bounds Table Valuations Graph Prune GraphRun PruneLive PruneShape PruneControl.

(** * Reclaimed storage

    Compaction renames the retained values and effects in order. The compacted
    graph runs as the pruned one does, on the renamed values. *)

(** ** Stable-order selection *)

Fixpoint select {A} (flags : list bool) (l : list A) : list A :=
  match flags, l with
  | flag :: flags, x :: l => if flag : bool then x :: select flags l else select flags l
  | _, _ => []
  end.

(** The flags set before [i]. *)
Fixpoint rank (flags : list bool) (i : nat) : nat :=
  match flags, i with
  | flag :: flags, S i => (if flag : bool then 1 else 0) + rank flags i
  | _, _ => 0
  end.

Lemma indices_lookup n flags i : indices n flags !! i = (fun flag : bool => if flag then Some (n + rank flags i) else None) <$> flags !! i.
Proof.
  revert n i. induction flags as [|flag flags IH]; intros n [|i]; cbn; try done.
  - destruct flag; cbn; by rewrite ?Nat.add_0_r.
  - destruct flag; cbn; rewrite IH; destruct (flags !! i) as [[|]|]; cbn; try done. by rewrite <- Nat.add_succ_comm.
Qed.

Lemma select_lookup {A} flags (l : list A) i x : flags !! i = Some true -> l !! i = Some x -> select flags l !! rank flags i = Some x.
Proof.
  revert flags i. induction l as [|y l IH]; intros [|flag flags] [|i]; cbn; try done.
  - by intros [= ->] [= ->].
  - intros Hf Hx. specialize (IH flags i Hf Hx). by destruct flag.
Qed.

Lemma select_back {A} flags (l : list A) k x : select flags l !! k = Some x ->
  exists i, flags !! i = Some true /\ l !! i = Some x /\ rank flags i = k.
Proof.
  revert flags k. induction l as [|y l IH]; intros [|[|] flags] k; cbn; try done.
  - destruct k as [|k]; cbn.
    + intros [= ->]. by exists 0.
    + intros H. destruct (IH flags k H) as (i & Hf & Hl & <-). by exists (S i).
  - intros H. destruct (IH flags k H) as (i & Hf & Hl & <-). by exists (S i).
Qed.

Lemma rank_lt flags i j : flags !! i = Some true -> i < j -> rank flags i < rank flags j.
Proof.
  revert i j. induction flags as [|flag flags IH]; intros [|i] [|j]; cbn; try done; try lia.
  - intros [= ->] _. lia.
  - intros Hf Hij. specialize (IH i j Hf ltac:(lia)). lia.
Qed.

Lemma rank_injective flags i j : flags !! i = Some true -> flags !! j = Some true -> rank flags i = rank flags j -> i = j.
Proof.
  intros Hi Hj Hr. destruct (lt_eq_lt_dec i j) as [[H| ->]|H]; [|done|].
  - pose proof (rank_lt flags i j Hi H). lia.
  - pose proof (rank_lt flags j i Hj H). lia.
Qed.

Lemma rank_next flags i : flags !! i = Some true -> rank flags (S i) = S (rank flags i).
Proof.
  revert i. induction flags as [|flag flags IH]; intros [|i]; cbn; try done.
  - intros [= ->]. by destruct flags.
  - intros Hf. specialize (IH i Hf). cbn in IH. rewrite IH. lia.
Qed.

(** ** Expressions over renamed values *)

Lemma try_map_renamed {A B C} (rename : A -> option B) (f : A -> option C) (f' : B -> option C) e e' :
  try_map rename e = Some e' -> Forall (fun i => forall k, rename i = Some k -> f' k = f i) (inputs e) ->
  try_map f' e' = try_map f e.
Proof.
  intros He Hf. destruct e; cbn [try_map inputs] in *;
    repeat match goal with
    | H : _ ≫= _ = Some _ |- _ => apply bind_Some in H as (? & ? & H)
    end; simplify_eq; cbn [try_map];
    repeat match goal with
    | H : Forall _ (_ :: _) |- _ => apply Forall_cons in H as [? ?]
    end;
    repeat match goal with
    | H : forall k, rename ?x = Some k -> _, E : rename ?x = Some ?y |- _ => specialize (H y E)
    end;
    repeat match goal with H : f' _ = f _ |- _ => rewrite H; clear H end; done.
Qed.

Lemma try_map_result_types {A B} (rename : A -> option B) e e' ty : try_map rename e = Some e' -> result_types e' ty = result_types e ty.
Proof. intros He. destruct e; cbn [try_map] in He; repeat (apply bind_Some in He as (? & ? & He)); by injection He as <-. Qed.

Lemma expression_results_seq t p v e : values t !! p = Some v -> definition v = DExpression e ->
  expression_results t p = Some (seq p (length (result_types e (ty v)))).
Proof. intros Hv Hd. unfold expression_results, value_at. rewrite Hv. cbn. by rewrite Hd. Qed.

(** ** Compaction of what is closed *)

Section Compact.
Context (g : FunctionGraph) (live vs es : list bool).
Context (Hwf : graph_wf g) (Hlive : length live = length (blocks g)).
Context (Hvs : length vs = length (values (table g))) (Hes : length es = length (effects g)).
#[local] Set Default Proof Using "All".

Notation r := (remapping_new vs es).
Notation retains := (fun id => vs !! id = Some true).

(** What retained values, effects and reachable blocks refer to is retained. *)
Record closed : Prop := {
  cl_value : forall id d, retains id -> definition_at (table g) id = Some d ->
    match d with
    | DExpression e => Forall retains (inputs e) /\ exists ids, expression_results (table g) id = Some ids /\ Forall retains ids
    | DResult (Evaluate p) _ => retains p
    | DResult (Effect effect) _ => es !! effect = Some true
    | _ => True
    end;
  cl_effect : forall effect e, es !! effect = Some true -> effects g !! effect = Some e ->
    Forall retains (op_inputs (operation e)) /\ Forall retains (results e);
  cl_parameters : forall a b, live !! a = Some true -> blocks g !! a = Some b -> Forall retains (parameters b);
  cl_items : forall a b item, live !! a = Some true -> blocks g !! a = Some b -> item ∈ items b ->
    match item with
    | Effect effect => es !! effect = Some true
    | Evaluate p => retains p
    end;
  cl_exit : forall a b, live !! a = Some true -> blocks g !! a = Some b -> Forall retains (exit_inputs (exit b));
}.

Lemma remap_value_eq id : remap_value r id = if bool_decide (vs !! id = Some true) then Some (rank vs id) else None.
Proof. unfold remap_value. cbn. rewrite indices_lookup. by destruct (vs !! id) as [[|]|]. Qed.

Lemma remap_value_some id k : remap_value r id = Some k <-> retains id /\ rank vs id = k.
Proof. rewrite remap_value_eq. case_bool_decide; naive_solver. Qed.

Lemma remap_retained id : retains id -> remap_value r id = Some (rank vs id).
Proof. intros H. by apply remap_value_some. Qed.

Lemma remap_inj id id' k : remap_value r id = Some k -> remap_value r id' = Some k -> id = id'.
Proof. intros [H1 H2]%remap_value_some [H3 H4]%remap_value_some. eapply rank_injective; eauto. congruence. Qed.

Lemma remap_values ids : Forall retains ids -> mapM (remap_value r) ids = Some (rank vs <$> ids).
Proof. intros H. apply mapM_fmap_some. intros id Hid. apply remap_retained. by eapply (proj1 (Forall_forall _ _) H). Qed.

Lemma remap_effect_some effect : es !! effect = Some true -> remap_producer r (Effect effect) = Some (Effect (rank es effect)).
Proof. intros H. cbn. by rewrite indices_lookup, H. Qed.

Definition remap_stored (v : Value) : option Value := d ← remap_definition r (definition v); Some (mkValue (ty v) d).

Lemma compact_values_select n flags l : length l <= length flags ->
  compact_values r (indices n flags) l = mapM remap_stored (select flags l).
Proof.
  clear. revert n flags. induction l as [|v l IH]; intros n [|flag flags] Hl; cbn in Hl;
    [done|by destruct flag|lia|].
  destruct flag; cbn; rewrite IH by lia; [|done]. unfold remap_stored. by destruct (remap_definition r (definition v)).
Qed.

Lemma compact_bounds_select n flags l : length l <= length flags -> compact_bounds (indices n flags) l = Some (select flags l).
Proof.
  clear. revert n flags. induction l as [|v l IH]; intros n [|flag flags] Hl; cbn in Hl;
    [done|by destruct flag|lia|].
  destruct flag; cbn; rewrite IH by lia; done.
Qed.

Lemma compact_effects_select start l : start + length l <= length es ->
  compact_effects r start l = mapM (remap_effect r) (select (drop start es) l).
Proof.
  clear. revert start. induction l as [|e l IH]; intros start Hl; cbn [compact_effects length] in *; [by destruct (drop start es)|].
  destruct (lookup_lt_is_Some_2 es start ltac:(lia)) as [flag Hf]. cbn [rm_effects remapping_new]. rewrite indices_lookup, Hf.
  rewrite (drop_S _ _ _ Hf). cbn. destruct flag; cbn; rewrite IH by lia; done.
Qed.

(** The compacted graph, through the renaming. *)
Record compacted (g' : FunctionGraph) : Prop := {
  co_value : forall id k, remap_value r id = Some k -> exists v d, values (table g) !! id = Some v /\
    values (table g') !! k = Some (mkValue (ty v) d) /\ remap_definition r (definition v) = Some d /\
    bounds (table g') !! k = bounds (table g) !! id;
  co_back : forall k v', values (table g') !! k = Some v' -> exists id, remap_value r id = Some k;
  co_length : length (bounds (table g')) = length (values (table g'));
  co_effect : forall effect e, es !! effect = Some true -> effects g !! effect = Some e ->
    exists e', effects g' !! rank es effect = Some e' /\ remap_effect r e = Some e';
  co_effect_back : forall k e', effects g' !! k = Some e' -> exists effect e,
    es !! effect = Some true /\ rank es effect = k /\ effects g !! effect = Some e;
  co_entry : entry g' = entry g;
  co_blocks_length : length (blocks g') = length (blocks g);
  co_cleared : forall a b, live !! a = Some false -> blocks g !! a = Some b -> blocks g' !! a = Some (mkBlock [] [] [] Trap (scope b));
  co_blocks : forall a b, live !! a = Some true -> blocks g !! a = Some b -> exists b', blocks g' !! a = Some b' /\
    mapM (remap_value r) (parameters b) = Some (parameters b') /\
    mapM (remap_producer r) (items b) = Some (items b') /\
    exit_map_inputs (remap_value r) (exit b) = Some (exit b');
}.

Lemma remap_definition_some id d : closed -> retains id -> definition_at (table g) id = Some d ->
  exists d', remap_definition r d = Some d'.
Proof.
  intros Hcl Hid Hd. pose proof (cl_value Hcl id d Hid Hd) as H. destruct d as [l|e|block c|[effect|p] c]; cbn [remap_definition].
  - by eexists.
  - destruct (try_map_is_Some (remap_value r) e) as [e' ->]; [|by eexists].
    eapply Forall_impl; [exact (proj1 H)|]. intros i Hi. cbn in Hi. rewrite (remap_retained i Hi). by eexists.
  - by eexists.
  - rewrite (remap_effect_some _ H). by eexists.
  - cbn [remap_producer]. rewrite (remap_retained p H). by eexists.
Qed.

Lemma remap_item_some a b item : closed -> live !! a = Some true -> blocks g !! a = Some b -> item ∈ items b ->
  exists item', remap_producer r item = Some item'.
Proof.
  intros Hcl Ha Hb Hin. pose proof (cl_items Hcl a b item Ha Hb Hin) as H. destruct item as [effect|p].
  - rewrite (remap_effect_some _ H). by eexists.
  - cbn. rewrite (remap_retained p H). by eexists.
Qed.

Lemma exit_map_inputs_some e : Forall retains (exit_inputs e) -> exists e', exit_map_inputs (remap_value r) e = Some e'.
Proof.
  intros H. rewrite Forall_forall in H.
  destruct (exit_map_edges_some (edge_map (remap_value r)) e) as [e1 He1].
  { intros edge Hin. unfold edge_map. rewrite remap_values; [by eexists|]. apply Forall_forall. intros id Hid.
    by eapply H, exit_edges_inputs. }
  destruct e as [|x|c x y|k cs d|l|f l|tb sl l|]; cbn [exit_map_inputs exit_inputs] in *; try by eexists.
  - rewrite He1. cbn [mbind option_bind]. rewrite (remap_retained c) by (apply H; left). cbn [mbind option_bind].
    cbn in He1. destruct (edge_map _ x); [|done]. cbn in He1. destruct (edge_map _ y); [|done]. injection He1 as <-. by eexists.
  - rewrite He1. cbn [mbind option_bind]. rewrite (remap_retained k) by (apply H; left). cbn [mbind option_bind].
    cbn in He1. destruct (mapM _ cs); [|done]. cbn in He1. destruct (edge_map _ d); [|done]. injection He1 as <-. by eexists.
  - rewrite remap_values; [by eexists|by apply Forall_forall].
  - rewrite remap_values; [by eexists|by apply Forall_forall].
  - rewrite remap_values, (remap_retained sl); [by eexists|apply H; set_solver|]. apply Forall_forall. set_solver.
Qed.

(** The blocks that compaction renames. *)
Definition cleared (bs : list Block) : Prop := length bs = length (blocks g) /\ forall a b, blocks g !! a = Some b ->
  bs !! a = Some (if bool_decide (live !! a = Some true) then b else mkBlock [] [] [] Trap (scope b)).

Lemma compact_block_some es' bs a b : closed -> cleared bs -> bs !! a = Some b ->
  (forall effect, es !! effect = Some true -> exists e', es' !! rank es effect = Some e') ->
  exists b', compact_block r es' b = Some b' /\ mapM (remap_value r) (parameters b) = Some (parameters b') /\
    mapM (remap_producer r) (items b) = Some (items b') /\ exit_map_inputs (remap_value r) (exit b) = Some (exit b').
Proof.
  intros Hcl [Hlen Hbs] Hb Hes'. destruct (lookup_lt_is_Some_2 (blocks g) a) as [b0 Hb0]; [rewrite <- Hlen; by eapply lookup_lt_Some|].
  rewrite (Hbs a b0 Hb0) in Hb. case_bool_decide as Ha; injection Hb as <-; [|by eexists].
  unfold compact_block. rewrite (remap_values _ (cl_parameters Hcl a b0 Ha Hb0)). cbn [mbind option_bind].
  destruct (mapM_is_Some_2 (remap_producer r) (items b0)) as [its Hits].
  { apply Forall_forall. intros item Hin. destruct (remap_item_some a b0 item Hcl Ha Hb0 Hin) as [item' Hi]. by exists item'. }
  rewrite Hits. cbn [mbind option_bind].
  assert (exists cs, item_callees es' its = Some cs) as [cs ->].
  { pose proof (mapM_Some_1 _ _ _ Hits) as H2. pose proof (cl_items Hcl a b0) as Hcit. clear -H2 Hcit Ha Hb0 Hes'.
    assert (forall x, x ∈ items b0 -> match x with Effect effect => es !! effect = Some true | _ => True end) as Hin.
    { intros x Hx. specialize (Hcit x Ha Hb0 Hx). by destruct x. }
    clear Hcit. induction H2 as [|item item' its its' Hr _ IH]; cbn [item_callees]; [by eexists|].
    destruct IH as [cs Hcs]; [intros x Hx; apply Hin; by right|]. destruct item' as [k|]; [|by exists cs].
    assert (exists effect, item = Effect effect) as [effect ->].
    { destruct item as [f|p]; [by eexists|]. cbn in Hr. by destruct (remap_value _ p). }
    specialize (Hin (Effect effect) ltac:(left)). cbn in Hin. cbn in Hr. rewrite indices_lookup, Hin in Hr. injection Hr as <-.
    destruct (Hes' effect Hin) as [e' He']. cbn. rewrite He', Hcs. by eexists. }
  cbn [mbind option_bind]. destruct (exit_map_inputs_some (exit b0) (cl_exit Hcl a b0 Ha Hb0)) as [e' He'].
  rewrite He'. eexists. by split_and!.
Qed.

Lemma compact_some bs : closed -> cleared bs -> exists g',
  (t ← table_compact r (table g); es' ← compact_effects r 0 (effects g); bs ← mapM (compact_block r es') bs;
   Some (mkGraph t es' bs (layout g) (entry g) (memories g))) = Some g' /\ compacted g'.
Proof.
  intros Hcl Hbs. unfold table_compact. cbn [rm_values remapping_new].
  rewrite compact_values_select, compact_bounds_select, compact_effects_select by (rewrite ?Hvs, ?Hes, ?(wf_length _ (gw_table g Hwf)); lia).
  rewrite drop_0.
  destruct (mapM_is_Some_2 remap_stored (select vs (values (table g)))) as [vals Hvals].
  { apply Forall_forall. intros v (k & Hk)%list_elem_of_lookup. apply select_back in Hk as (id & Hid & Hv & _).
    destruct (remap_definition_some id (definition v) Hcl Hid) as [d Hd]; [unfold definition_at; by rewrite Hv|].
    change (is_Some (remap_stored v)). unfold remap_stored. rewrite Hd. by eexists. }
  destruct (mapM_is_Some_2 (remap_effect r) (select es (effects g))) as [effs Heffs].
  { apply Forall_forall. intros e (k & Hk)%list_elem_of_lookup. apply select_back in Hk as (effect & Hef & He & _).
    destruct (cl_effect Hcl effect e Hef He) as [H1 H2]. change (is_Some (remap_effect r e)). unfold remap_effect, op_map_inputs.
    rewrite (remap_values _ H1). cbn [mbind option_bind]. rewrite (remap_values _ H2). by eexists. }
  rewrite Hvals, Heffs. cbn [mbind option_bind].
  pose proof (mapM_Some_1 _ _ _ Hvals) as Fvals. pose proof (mapM_Some_1 _ _ _ Heffs) as Feffs.
  assert (forall effect e, es !! effect = Some true -> effects g !! effect = Some e ->
    exists e', effs !! rank es effect = Some e' /\ remap_effect r e = Some e') as Heffect.
  { intros effect e Hef He. pose proof (select_lookup es _ effect e Hef He) as Hk.
    destruct (Forall2_lookup_l _ _ _ _ _ Feffs Hk) as (e' & He' & Hr). by exists e'. }
  assert (forall effect, es !! effect = Some true -> exists e', effs !! rank es effect = Some e') as Hex.
  { intros effect Hef. destruct (lookup_lt_is_Some_2 (effects g) effect) as [e He]; [rewrite <- Hes; by eapply lookup_lt_Some|].
    destruct (Heffect effect e Hef He) as (e' & H & _). by exists e'. }
  destruct (mapM_is_Some_2 (compact_block r effs) bs) as [bs' Hbs'].
  { apply Forall_forall. intros b (a & Hb)%list_elem_of_lookup.
    destruct (compact_block_some effs bs a b Hcl Hbs Hb Hex) as (b' & H & _). by exists b'. }
  rewrite Hbs'. cbn [mbind option_bind]. eexists. split; [done|]. split; cbn [table values bounds effects entry blocks]; try done.
  - intros id k [Hid <-]%remap_value_some. destruct (lookup_lt_is_Some_2 (values (table g)) id) as [v Hv]; [rewrite <- Hvs; by eapply lookup_lt_Some|].
    pose proof (select_lookup vs _ id v Hid Hv) as Hk. destruct (Forall2_lookup_l _ _ _ _ _ Fvals Hk) as (v' & Hv' & Hr).
    unfold remap_stored in Hr. apply bind_Some in Hr as (d & Hd & [= <-]). exists v, d. split_and!; try done.
    destruct (lookup_lt_is_Some_2 (bounds (table g)) id) as [b Hb]; [rewrite (wf_length _ (gw_table g Hwf)); by eapply lookup_lt_Some|].
    rewrite Hb. by apply select_lookup.
  - intros k v' Hv'. destruct (Forall2_lookup_r _ _ _ _ _ Fvals Hv') as (v & Hv & _). apply select_back in Hv as (id & Hid & _ & <-).
    exists id. by apply remap_retained.
  - rewrite <- (Forall2_length _ _ _ Fvals). pose proof (wf_length _ (gw_table g Hwf)) as Hl. clear -Hl.
    revert Hl. generalize (values (table g)). generalize (bounds (table g)). induction vs as [|flag flags IH]; intros [|b l1] [|v l2]; cbn; try done.
    intros [= Hl]. destruct flag; cbn; [f_equal|]; by apply IH.
  - intros k e' He'. destruct (Forall2_lookup_r _ _ _ _ _ Feffs He') as (e & He & _).
    apply select_back in He as (effect & Hef & He & Hk). by exists effect, e.
  - rewrite <- (Forall2_length _ _ _ (mapM_Some_1 _ _ _ Hbs')). apply Hbs.
  - intros a b Ha Hb. pose proof (proj2 Hbs a b Hb) as Hb1. rewrite bool_decide_eq_false_2 in Hb1 by congruence.
    destruct (Forall2_lookup_l _ _ _ _ _ (mapM_Some_1 _ _ _ Hbs') Hb1) as (b2 & Hb2 & Hc2). rewrite Hb2. by injection Hc2 as <-.
  - intros a b Ha Hb. pose proof (proj2 Hbs a b Hb) as Hb1. rewrite bool_decide_eq_true_2 in Hb1 by done.
    destruct (compact_block_some effs bs a b Hcl Hbs Hb1 Hex) as (b' & Hc & H1 & H2 & H3). exists b'.
    pose proof (mapM_Some_1 _ _ _ Hbs') as F. destruct (Forall2_lookup_l _ _ _ _ _ F Hb1) as (b2 & Hb2 & Hc2).
    rewrite Hc in Hc2. simplify_eq. done.
Qed.

(** *** The compacted table *)

Context (Hcl : closed) (g' : FunctionGraph) (Hco : compacted g').

Lemma renamed_value id k : remap_value r id = Some k -> exists v d, values (table g) !! id = Some v /\
  values (table g') !! k = Some (mkValue (ty v) d) /\ remap_definition r (definition v) = Some d.
Proof. intros H. destruct (co_value g' Hco id k H) as (v & d & H1 & H2 & H3 & _). by exists v, d. Qed.

Lemma renamed_type i j : remap_value r i = Some j -> type_at (table g') j = type_at (table g) i.
Proof. intros H. destruct (renamed_value i j H) as (v & d & Hv & Hv' & _). unfold type_at. by rewrite Hv, Hv'. Qed.

Lemma eval_renamed rho rho' ty e e' c : try_map (remap_value r) e = Some e' ->
  Forall (fun i => forall j, remap_value r i = Some j -> rho' j = rho i) (inputs e) ->
  eval (table g') rho' ty e' c = eval (table g) rho ty e c.
Proof.
  intros He Hin. unfold eval. f_equal. eapply try_map_renamed; [exact He|]. eapply Forall_impl; [exact Hin|].
  cbn. intros i Hi j Hj. unfold operand. by rewrite (renamed_type i j Hj), (Hi j Hj).
Qed.

Lemma renamed_expression p p' e : remap_value r p = Some p' -> definition_at (table g) p = Some (DExpression e) ->
  exists e', definition_at (table g') p' = Some (DExpression e') /\ try_map (remap_value r) e = Some e'.
Proof.
  intros Hp Hd. destruct (renamed_value p p' Hp) as (v & d & Hv & Hv' & Hr). unfold definition_at in *. rewrite Hv in Hd.
  injection Hd as Hd. rewrite Hd in Hr. cbn in Hr. apply bind_Some in Hr as (e' & He & [= <-]). exists e'. by rewrite Hv'.
Qed.

Lemma definition_inputs p e : definition_at (table g) p = Some (DExpression e) -> Forall (fun i => i < p) (inputs e).
Proof.
  intros (v & Hv & Hd)%fmap_Some. pose proof (wf_value _ (gw_table g Hwf) p v Hv) as Hok. unfold value_ok in Hok.
  rewrite <- Hd in Hok. apply Hok.
Qed.

(** Definitions determine a value as they did, from the values before it. *)
Lemma determined_renamed rho rho' id k v d : remap_value r id = Some k -> values (table g) !! id = Some v ->
  remap_definition r (definition v) = Some d ->
  (forall i j, i < id -> remap_value r i = Some j -> rho' j = rho i) ->
  determined (table g') rho' k (mkValue (ty v) d) = determined (table g) rho id v.
Proof.
  intros Hid Hv Hd Hrho. pose proof (wf_value _ (gw_table g Hwf) id v Hv) as Hok.
  assert (definition_at (table g) id = Some (definition v)) as Hdef by (unfold definition_at; by rewrite Hv).
  unfold determined, value_ok in *. destruct (definition v) as [l|e|block c|[effect|p] c] eqn:Hdv; cbn [remap_definition] in Hd; cbn [ty definition].
  - by injection Hd as <-.
  - apply bind_Some in Hd as (e' & He & [= <-]). eapply eval_renamed; [done|].
    eapply Forall_impl; [by eapply definition_inputs|]. cbn. intros i Hi j. by apply Hrho.
  - by injection Hd as <-.
  - apply bind_Some in Hd as (q & Hq & [= <-]). cbn in Hq. apply bind_Some in Hq as (x & _ & Hx).
    apply bind_Some in Hx as (y & _ & [= <-]). done.
  - apply bind_Some in Hd as (q & Hq & [= <-]). cbn in Hq. apply bind_Some in Hq as (p' & Hp' & [= <-]).
    destruct Hok as (c' & pv & e & -> & -> & Hp & Hpd & _).
    assert (definition_at (table g) p = Some (DExpression e)) as Hpdef by (unfold definition_at; by rewrite Hp, <- Hpd).
    destruct (renamed_expression p p' e Hp' Hpdef) as (e' & -> & He'). rewrite Hpdef. eapply eval_renamed; [done|].
    eapply Forall_impl; [by eapply definition_inputs|]. cbn. intros i Hi j. apply Hrho. lia.
Qed.

(** Every valuation of the compacted table is one of the table. *)
Definition lifted (rho' : Valuation) (id : nat) : Literal :=
  match remap_value r id with
  | Some k =>
      match values (table g') !! k with
      | Some v' => if determined (table g') rho' k v' then lit 0 else rho' k
      | None => lit 0
      end
  | None => lit 0
  end.

Lemma lifted_denote rho' id k : model (table g') rho' -> remap_value r id = Some k -> denote (table g) (lifted rho') id = rho' k.
Proof.
  intros Hm. revert k. induction (lt_wf id) as [id _ IH]. intros k Hk.
  destruct (renamed_value id k Hk) as (v & d & Hv & Hv' & Hd).
  rewrite (denote_value (table g) _ id v (gw_table g Hwf) Hv).
  assert (determined (table g') rho' k (mkValue (ty v) d) = determined (table g) (denote (table g) (lifted rho')) id v) as Hdet.
  { apply determined_renamed; try done. intros i j Hi Hj. symmetry. by apply IH. }
  rewrite <- Hdet. unfold lifted. rewrite Hk, Hv'. destruct (determined (table g') rho' k _) as [l|] eqn:E; [|done].
  cbn. symmetry. by apply (m_determined _ _ Hm k (mkValue (ty v) d)).
Qed.

Lemma lifted_model rho' : model (table g') rho' -> model (table g) (denote (table g) (lifted rho')).
Proof.
  intros Hm. apply denote_model; [by apply gw_table|]. intros id v b Hv Hb.
  pose proof (admits_zero (table g) (gw_table g Hwf) id v b Hv Hb) as Hz. unfold lifted.
  destruct (remap_value r id) as [k|] eqn:Hk; [|done]. destruct (co_value g' Hco id k Hk) as (v0 & d & Hv0 & Hv' & _ & Hb').
  simplify_eq. rewrite Hv'. destruct (determined _ rho' k _) as [l|] eqn:Hd; [done|]. rewrite Hb in Hb'. split.
  - exact (m_ok _ _ Hm k (mkValue (ty v) d) Hv').
  - exact (m_free _ _ Hm k (mkValue (ty v) d) b Hv' Hb' Hd).
Qed.

(** The results of a retained expression stay together. *)
Lemma rank_results p e ids c : definition_at (table g) p = Some (DExpression e) -> retains p ->
  expression_results (table g) p = Some ids -> c < length ids -> retains (p + c) /\ rank vs (p + c) = rank vs p + c.
Proof.
  intros Hd Hp Hids Hc. destruct (cl_value Hcl p _ Hp Hd) as (_ & ids' & Hids' & Hr). simplify_eq.
  assert (forall j, j < length ids -> retains (p + j)) as Hall.
  { intros j Hj. rewrite Forall_forall in Hr. apply Hr. unfold expression_results in Hids.
    apply bind_Some in Hids as (v & _ & H). destruct (definition v); try done. injection H as <-. rewrite length_seq in Hj.
    apply elem_of_seq. lia. }
  split; [by apply Hall|]. induction c as [|c IH]; [by rewrite !Nat.add_0_r|].
  rewrite !Nat.add_succ_r, rank_next by (apply Hall; lia). by rewrite IH by lia.
Qed.

Lemma compacted_value_ok k v' : values (table g') !! k = Some v' -> value_ok (table g') k v'.
Proof.
  intros Hv'. destruct (co_back g' Hco k v' Hv') as (id & Hid). destruct (renamed_value id k Hid) as (v & d & Hv & Hv1 & Hd). simplify_eq.
  apply remap_value_some in Hid as Hret. destruct Hret as [Hret Hk].
  pose proof (wf_value _ (gw_table g Hwf) id v Hv) as Hok.
  assert (definition_at (table g) id = Some (definition v)) as Hdef by (unfold definition_at; by rewrite Hv).
  unfold value_ok in *. destruct (definition v) as [l|e|block c|[effect|p] c] eqn:Hdv; cbn [remap_definition] in Hd; cbn [ty definition].
  - by injection Hd as <-.
  - apply bind_Some in Hd as (e' & He & [= <-]). destruct Hok as (Hin & [Ht Hprem] & Hres). split_and!.
    + pose proof (try_map_Some _ _ _ He) as H2. rewrite Forall_forall in *. intros j (n & Hj)%list_elem_of_lookup.
      destruct (Forall2_lookup_r _ _ _ _ _ H2 Hj) as (i & Hi & Hij). apply remap_value_some in Hij as [Hri <-].
      rewrite <- Hk. apply rank_lt; [done|]. apply Hin. by eapply list_elem_of_lookup_2.
    + split.
      * destruct Ht as (tys & Htys & Hto). exists tys. split; [|done]. rewrite <- Htys. eapply try_map_renamed; [exact He|].
        apply Forall_forall. intros i _ j. apply renamed_type.
      * intros rho' Hm. specialize (Hprem _ (lifted_model rho' Hm)). destruct e as [|op x y| | |]; cbn [try_map] in He;
          repeat (apply bind_Some in He as (? & ? & He)); injection He as <-; try done. cbn in *.
        destruct op as [| | | | |[]| | | | |]; try done; by erewrite lifted_denote in Hprem.
    + intros c ty' Hc. rewrite (try_map_result_types _ _ _ (ty v) He) in Hc. specialize (Hres c ty' Hc).
      pose proof (expression_results_seq (table g) id v e Hv Hdv) as Hids.
      destruct (rank_results id e _ (S c) Hdef Hret Hids) as [Hr Hrank]; [rewrite length_seq; by eapply lookup_lt_Some|].
      destruct (renamed_value (id + S c) (rank vs (id + S c)) (remap_retained _ Hr)) as (w & d & Hw & Hw' & Hd). simplify_eq.
      cbn in Hd. rewrite (remap_retained id Hret) in Hd. cbn in Hd. injection Hd as <-. by rewrite <- Hrank.
  - by injection Hd as <-.
  - apply bind_Some in Hd as (q & Hq & [= <-]). cbn in Hq. apply bind_Some in Hq as (x & _ & Hx).
    by apply bind_Some in Hx as (y & _ & [= <-]).
  - apply bind_Some in Hd as (q & Hq & [= <-]). cbn in Hq. apply bind_Some in Hq as (p' & Hp' & [= <-]).
    destruct Hok as (c' & pv & e & -> & Hidp & Hp & Hpd & Hres).
    assert (definition_at (table g) p = Some (DExpression e)) as Hpdef by (unfold definition_at; by rewrite Hp, <- Hpd).
    apply remap_value_some in Hp' as Hpr. destruct Hpr as [Hpr Hpk].
    destruct (renamed_value p p' Hp') as (pv0 & d & Hpv & Hpv' & Hd). assert (pv0 = pv) as -> by congruence. rewrite Hpd in Hd. cbn in Hd.
    apply bind_Some in Hd as (e' & He & [= <-]).
    pose proof (expression_results_seq (table g) p pv e Hp Hpd) as Hids.
    destruct (rank_results p e _ (S c') Hpdef Hpr Hids) as [_ Hrank]; [rewrite length_seq; by eapply lookup_lt_Some|].
    exists c', (mkValue (ty pv) (DExpression e')), e'. split_and!; try done; [by rewrite <- Hk, Hidp, Hrank, Hpk|].
    cbn [ty]. by rewrite (try_map_result_types _ _ _ _ He).
Qed.

Lemma compacted_table_wf : wf (table g').
Proof.
  assert (forall k b, bounds (table g') !! k = Some b -> exists id v d, remap_value r id = Some k /\ values (table g) !! id = Some v /\
    values (table g') !! k = Some (mkValue (ty v) d) /\ bounds (table g) !! id = Some b) as Hb.
  { intros k b Hkb. destruct (lookup_lt_is_Some_2 (values (table g')) k) as [v' Hv'].
    { rewrite <- (co_length g' Hco). by eapply lookup_lt_Some. }
    destruct (co_back g' Hco k v' Hv') as (id & Hid). destruct (co_value g' Hco id k Hid) as (v & d & Hv & Hv1 & _ & Hbb).
    rewrite Hkb in Hbb. by exists id, v, d. }
  split.
  - apply (co_length g' Hco).
  - apply compacted_value_ok.
  - intros k b Hk. destruct (Hb k b Hk) as (id & v & d & _ & _ & _ & Hbb). by apply (wf_range _ (gw_table g Hwf) id).
  - intros rho' Hm k v' b Hv' Hk. destruct (Hb k b Hk) as (id & v & d & Hid & Hv & Hv1 & Hbb). simplify_eq. cbn [ty].
    rewrite <- (lifted_denote rho' id k Hm Hid).
    by apply (wf_bounds _ (gw_table g Hwf) _ (lifted_model rho' Hm) id).
Qed.

(** *** Runs *)

Definition renamed (rho rho' : Valuation) : Prop := forall id k, remap_value r id = Some k -> rho' k = rho id.

Section Runs.
Context {World : Type} (run : OperationKind -> list Literal -> World -> option (list Literal * World)) (placed : bool).

Lemma read_renamed rho rho' : renamed rho rho' -> renamed (read placed (table g) rho) (read placed (table g') rho').
Proof.
  intros Hr. unfold read. destruct placed.
  - intros id k Hk. destruct (renamed_value id k Hk) as (v & d & Hv & Hv' & Hd). unfold definition_at. rewrite Hv, Hv'. cbn.
    destruct (definition v) as [l|e|block c|q c]; cbn [remap_definition] in Hd.
    + by injection Hd as <-.
    + apply bind_Some in Hd as (e' & _ & [= <-]). by apply Hr.
    + injection Hd as <-. by apply Hr.
    + apply bind_Some in Hd as (e' & _ & [= <-]). by apply Hr.
  - intros id. induction (lt_wf id) as [id _ IH]. intros k Hk. destruct (renamed_value id k Hk) as (v & d & Hv & Hv' & Hd).
    rewrite (denote_value _ _ id v (gw_table g Hwf) Hv), (denote_value _ _ k _ compacted_table_wf Hv').
    rewrite (determined_renamed (denote (table g) rho) (denote (table g') rho') id k v d Hk Hv Hd) by (intros i j Hi; by apply IH).
    by rewrite (Hr id k Hk).
Qed.

Lemma reads_renamed rho rho' ids ids' : renamed rho rho' -> mapM (remap_value r) ids = Some ids' ->
  read placed (table g') rho' <$> ids' = read placed (table g) rho <$> ids.
Proof.
  intros Hr Hids%mapM_Some_1. induction Hids as [|id k ids ids' Hk _ IH]; [done|]. cbn.
  by rewrite IH, (read_renamed rho rho' Hr id k Hk).
Qed.

Lemma assign_renamed ids ids' (ls : list Literal) rho rho' : mapM (remap_value r) ids = Some ids' -> renamed rho rho' ->
  renamed (assign_all (zip ids ls) rho) (assign_all (zip ids' ls) rho').
Proof.
  intros H%mapM_Some_1. revert ls rho rho'. induction H as [|id k ids ids' Hk _ IH]; intros [|l ls] rho rho' Hr; try done.
  cbn [zip zip_with assign_all]. apply IH. intros i j Hj. destruct (Nat.eqb_spec i id) as [->|Hne].
  - rewrite Hk in Hj. injection Hj as ->. by rewrite Nat.eqb_refl.
  - rewrite (proj2 (Nat.eqb_neq j k)); [by apply Hr|]. intros ->. apply Hne. by eapply remap_inj.
Qed.

Lemma computed_renamed rho rho' : renamed rho rho' -> renamed (computed placed (table g) rho) (computed placed (table g') rho').
Proof.
  intros Hr id k Hk. destruct (renamed_value id k Hk) as (v & d & Hv & Hv' & Hd). unfold computed. rewrite Hv, Hv'.
  rewrite (Hr id k Hk). f_equal. apply determined_renamed; try done. intros i j _. by apply read_renamed.
Qed.

Lemma results_renamed p p' ids : remap_value r p = Some p' -> expression_results (table g) p = Some ids ->
  exists ids', expression_results (table g') p' = Some ids' /\ mapM (remap_value r) ids = Some ids'.
Proof.
  intros Hp Hids. destruct (renamed_value p p' Hp) as (v & d & Hv & Hv' & Hd). apply remap_value_some in Hp as [Hp <-].
  pose proof Hids as Hids0. unfold expression_results, value_at in Hids. rewrite Hv in Hids. cbn in Hids. unfold expression_results, value_at.
  destruct (definition v) as [|e| |] eqn:Hdv; try done. injection Hids as <-.
  cbn in Hd. apply bind_Some in Hd as (e' & He & [= <-]). rewrite Hv'. cbn. eexists. split; [done|].
  assert (definition_at (table g) p = Some (DExpression e)) as Hdef by (unfold definition_at; by rewrite Hv, <- Hdv).
  rewrite (try_map_result_types _ _ _ (ty v) He).
  set (n := length (result_types e (ty v))) in *.
  assert (forall c, c < n -> retains (p + c) /\ rank vs (p + c) = rank vs p + c) as Hr.
  { intros c Hc. apply (rank_results p e (seq p n) c Hdef Hp Hids0). by rewrite length_seq. }
  rewrite remap_values.
  - f_equal. apply list_eq. intros c. rewrite list_lookup_fmap. destruct (decide (c < n)) as [Hc|Hc].
    + rewrite !lookup_seq_lt by done. cbn. by rewrite (proj2 (Hr c Hc)).
    + by rewrite !lookup_seq_ge by lia.
  - apply Forall_forall. intros i Hi%elem_of_seq. replace i with (p + (i - p)) by lia. apply Hr. lia.
Qed.

Definition steps_renamed (o o' : Valuation * World + OperationKind) : Prop :=
  match o with
  | inl (rho, w) => exists rho', o' = inl (rho', w) /\ renamed rho rho'
  | inr operation => o' = inr operation
  end.

Lemma run_item_renamed item item' rho rho' w next : remap_producer r item = Some item' -> renamed rho rho' ->
  run_item run placed g item rho w = Some next ->
  exists next', run_item run placed g' item' rho' w = Some next' /\ steps_renamed next next'.
Proof.
  intros Hitem Hr Hnext. destruct item as [effect|p]; cbn [run_item remap_producer] in *.
  - apply bind_Some in Hnext as (e & He & H). apply bind_Some in Hitem as (o & Ho & Hitem). apply bind_Some in Hitem as (k & -> & [= <-]).
    cbn [rm_effects remapping_new] in Ho. rewrite indices_lookup in Ho. destruct (es !! effect) as [[|]|] eqn:Hef; try done.
    injection Ho as <-. cbn [Nat.add]. destruct (co_effect g' Hco effect e Hef He) as (e' & He' & Hre). cbn [run_item]. rewrite He'. cbn [mbind option_bind].
    unfold remap_effect, op_map_inputs in Hre. apply bind_Some in Hre as (op & Hop & Hre). apply bind_Some in Hop as (ins & Hins & [= <-]).
    apply bind_Some in Hre as (res & Hres & [= <-]). cbn [operation kind op_inputs results].
    rewrite (reads_renamed rho rho' _ ins Hr Hins). destruct (run _ _ w) as [[ls w']|]; injection H as <-; (eexists; split; [done|]); cbn; [|done].
    eexists. split; [done|]. by apply assign_renamed.
  - apply bind_Some in Hitem as (p' & Hp & [= <-]). cbn [run_item]. destruct placed eqn:Hpl; [|injection Hnext as <-; eexists; split; [done|by exists rho']].
    apply bind_Some in Hnext as (ids & Hids & [= <-]). destruct (results_renamed p p' ids Hp Hids) as (ids' & -> & Hm). cbn [mbind option_bind].
    eexists. split; [done|]. eexists. split; [done|].
    pose proof (computed_renamed rho rho' Hr) as Hc. rewrite Hpl in Hc.
    assert (forall (f : nat -> Literal) l, (fun id => (id, f id)) <$> l = zip l (f <$> l)) as Hz.
    { intros f l. induction l as [|x l IH]; [done|]. cbn. by rewrite IH. }
    rewrite !Hz. replace (computed true (table g') rho' <$> ids') with (computed true (table g) rho <$> ids); [by apply assign_renamed|].
    apply mapM_Some_1 in Hm. clear -Hm Hc. induction Hm as [|id k ids ids' Hk _ IH]; [done|]. cbn. by rewrite IH, (Hc id k Hk).
Qed.

Lemma run_items_renamed its its' rho rho' w next : mapM (remap_producer r) its = Some its' -> renamed rho rho' ->
  run_items run placed g its rho w = Some next ->
  exists next', run_items run placed g' its' rho' w = Some next' /\
    match next with
    | inl (rho1, w1) => exists rho1', next' = inl (rho1', w1) /\ renamed rho1 rho1'
    | inr stop => next' = inr stop
    end.
Proof.
  intros H%mapM_Some_1. revert rho rho' w. induction H as [|item item' its its' Hi _ IH]; intros rho rho' w Hr Hnext; cbn [run_items] in *.
  - injection Hnext as <-. eexists. split; [done|]. by exists rho'.
  - apply bind_Some in Hnext as (o & Ho & Hnext). destruct (run_item_renamed item item' rho rho' w o Hi Hr Ho) as (o' & -> & Hs). cbn [mbind option_bind].
    destruct o as [[rho1 w1]|k]; cbn in Hs.
    + destruct Hs as (rho1' & -> & Hr1). by apply (IH rho1).
    + subst o'. injection Hnext as <-. by eexists.
Qed.

Lemma tested_renamed rho rho' id k : renamed rho rho' -> remap_value r id = Some k ->
  tested placed (table g') rho' k = tested placed (table g) rho id.
Proof. intros Hr Hk. unfold tested. by rewrite (renamed_type id k Hk), (read_renamed rho rho' Hr id k Hk). Qed.

Lemma run_exit_renamed e e' rho rho' next : exit_map_inputs (remap_value r) e = Some e' -> renamed rho rho' ->
  run_exit placed (table g) e rho = Some next ->
  exists next', run_exit placed (table g') e' rho' = Some next' /\
    match next with
    | inl edge => exists edge', next' = inl edge' /\ edge_map (remap_value r) edge = Some edge'
    | inr outcome => next' = inr outcome
    end.
Proof.
  intros He Hr Hnext. destruct e as [|edge|c x y|k cs d|l|f l|tb sl l|]; cbn [exit_map_inputs exit_map_edges run_exit] in *; try done.
  - apply bind_Some in He as (edge' & He & [= <-]). injection Hnext as <-. eexists. split; [done|]. by exists edge'.
  - apply bind_Some in He as (e1 & He1 & He). apply bind_Some in He1 as (x' & Hx & He1). apply bind_Some in He1 as (y' & Hy & [= <-]).
    apply bind_Some in He as (c' & Hc & [= <-]). cbn [run_exit]. rewrite (tested_renamed rho rho' c c' Hr Hc).
    apply bind_Some in Hnext as (bits & -> & [= <-]). eexists. split; [done|]. destruct (bits =? 0)%Z; by eexists.
  - apply bind_Some in He as (e1 & He1 & He). apply bind_Some in He1 as (cs' & Hcs & He1). apply bind_Some in He1 as (d' & Hd & [= <-]).
    apply bind_Some in He as (k' & Hk & [= <-]). cbn [run_exit]. rewrite (tested_renamed rho rho' k k' Hr Hk).
    apply bind_Some in Hnext as (bits & -> & [= <-]). eexists. split; [done|].
    pose proof (find_mapped (edge_map (remap_value r)) cs cs' bits Hcs) as Hf.
    destruct (list_find _ cs) as [[? [? ?]]|], (list_find _ cs') as [[? [? ?]]|]; try done; by eexists.
  - apply bind_Some in He as (l' & Hl & [= <-]). injection Hnext as <-. cbn [run_exit]. rewrite (reads_renamed rho rho' l l' Hr Hl). by eexists.
  - apply bind_Some in He as (l' & Hl & [= <-]). injection Hnext as <-. cbn [run_exit]. rewrite (reads_renamed rho rho' l l' Hr Hl). by eexists.
  - apply bind_Some in He as (l' & Hl & He). apply bind_Some in He as (sl' & Hsl & [= <-]). injection Hnext as <-. cbn [run_exit].
    rewrite (reads_renamed rho rho' l l' Hr Hl), (read_renamed rho rho' Hr sl sl' Hsl). by eexists.
  - injection He as <-. injection Hnext as <-. by eexists.
Qed.

Context (Hclosed : forall a b, live !! a = Some true -> leads g a b -> live !! b = Some true).

Lemma execute_renamed fuel a rho rho' w o : live !! a = Some true -> renamed rho rho' ->
  execute run placed fuel g a rho w = Some o -> execute run placed fuel g' a rho' w = Some o.
Proof.
  revert a rho rho' w. induction fuel as [|fuel IH]; intros a rho rho' w Ha Hr Ho; cbn [execute] in *; [done|].
  apply bind_Some in Ho as (b & Hb & Ho). destruct (co_blocks g' Hco a b Ha Hb) as (b' & -> & Hpar & Hits & Hex). cbn [mbind option_bind].
  apply bind_Some in Ho as (next & Hnext & Ho).
  destruct (run_items_renamed (items b) (items b') rho rho' w next Hits Hr Hnext) as (next' & -> & Hs). cbn [mbind option_bind].
  destruct next as [[rho1 w1]|[k w1]]; [|by subst next']. destruct Hs as (rho1' & -> & Hr1).
  apply bind_Some in Ho as (x & Hx & Ho). destruct (run_exit_renamed (exit b) (exit b') rho1 rho1' x Hex Hr1 Hx) as (x' & -> & Hxs). cbn [mbind option_bind].
  destruct x as [edge|outcome]; [|by subst x']. destruct Hxs as (edge' & -> & Hedge).
  apply bind_Some in Ho as (t & Ht & Ho). unfold edge_map in Hedge. apply bind_Some in Hedge as (args & Hargs & [= <-]). cbn [target arguments].
  destruct (run_exit_outgoing placed g a b rho1 edge Hwf Hb Hx) as (edges & Hout & Hin).
  assert (live !! target edge = Some true) as Hlt by (apply (Hclosed a); [done|by exists edges, edge]).
  destruct (co_blocks g' Hco _ t Hlt Ht) as (t' & -> & Hpt & _). cbn [mbind option_bind].
  eapply IH; [done| |exact Ho]. unfold enter. cbn [arguments]. rewrite (reads_renamed rho1 rho1' _ args Hr1 Hargs).
  by apply assign_renamed.
Qed.
End Runs.
End Compact.

(** Every execution that is needed is an item of a reachable block. *)
Record scheduled (g : FunctionGraph) (live : list bool) (observable : Operation -> bool) : Prop := {
  sc_items : forall producer, needed g live observable (inr producer) ->
    exists a b, live !! a = Some true /\ blocks g !! a = Some b /\ producer ∈ items b;
  sc_entry : forall a, live !! a = Some true -> ~ leads g a (entry g);
}.

(** ** Resolved control needs no more *)

Section ResolvedNeeds.
Context (g g' : FunctionGraph) (live : list bool) (observable : Operation -> bool) (Hwf : graph_wf g) (Hr : resolved g g').
#[local] Set Default Proof Using "All".

Lemma resolved_needed x : needed g' live observable x -> needed g live observable x.
Proof.
  pose proof (rs_table g g' Hr) as Ht. pose proof (rs_effects g g' Hr) as He. pose proof (rs_length g g' Hr) as Hlen.
  induction 1 as [id (a & b' & Ha & Hla & Hb' & Hin)|effect e (a & b' & Ha & Hla & Hb' & Hin & Hef & Hobs)|id producer _ IH Hp
    |producer ids id _ IH Hids Hin|id block c y _ IH Hd (a & edges & e & Ha & Hla & Ho & Hin & b' & Hb' & Hy)].
  - rewrite Hlen in Ha. destruct (resolved_back g g' Hwf Hr a b' Hb') as [b Hb].
    destruct (rs_blocks g g' Hr a b Hb) as (b1 & Hb1 & _ & _ & index & _ & Hx). simplify_eq.
    apply needed_exit. exists a, b. split_and!; try done. destruct index as [i|]; [|by rewrite <- Hx].
    destruct Hx as (edge & _ & Hx). rewrite Hx in Hin. by apply elem_of_nil in Hin.
  - rewrite Hlen in Ha. destruct (resolved_back g g' Hwf Hr a b' Hb') as [b Hb].
    destruct (rs_blocks g g' Hr a b Hb) as (b1 & Hb1 & _ & Hit & _). simplify_eq. rewrite Hit in Hin. rewrite He in Hef.
    eapply needed_observed. by exists a, b.
  - eapply needed_producer; [exact IH|]. unfold producer_of in *. by rewrite Ht in Hp.
  - eapply needed_input; [exact IH| |exact Hin]. destruct producer; cbn in *; by rewrite ?Ht, ?He in Hids.
  - rewrite Hlen in Ha. rewrite Ht in Hd. eapply needed_argument; [exact IH|exact Hd|].
    destruct (resolved_back g g' Hwf Hr _ b' Hb') as [b Hb]. destruct (rs_blocks g g' Hr _ b Hb) as (b1 & Hb1 & Hpar & _). simplify_eq.
    rewrite Hpar in Hy. exists a, edges, e. split_and!; try done; [|by exists b].
    destruct (blocks g' !! a) as [ba|] eqn:Hba; [by rewrite <- (proj1 (resolved_outgoing g g' Hwf Hr a ba Hba))|].
    apply outgoing_edges in Ho as (b2 & Hb2 & _). congruence.
Qed.

Lemma resolved_scheduled : scheduled g live observable -> scheduled g' live observable.
Proof.
  intros [Hi Hent]. split.
  - intros producer Hn%resolved_needed. destruct (Hi producer Hn) as (a & b & Ha & Hb & Hin).
    destruct (rs_blocks g g' Hr a b Hb) as (b' & Hb' & _ & Hit & _). exists a, b'. by rewrite Hit.
  - intros a Ha Hl. apply (Hent a Ha). rewrite <- (rs_entry g g' Hr). by apply (resolved_leads g g' Hwf Hr).
Qed.
End ResolvedNeeds.

(** ** Marks of what is stored *)

Lemma retain_all_some ids flags : Forall (fun id => id < length flags) ids -> exists flags', retain_all ids flags = Some flags' /\
  length flags' = length flags /\ forall i, flags' !! i = Some true <-> flags !! i = Some true \/ i ∈ ids.
Proof.
  revert flags. induction ids as [|id ids IH]; intros flags Hin; cbn [retain_all].
  - exists flags. split_and!; try done. set_solver.
  - apply Forall_cons in Hin as [Hid Hin]. destruct (lookup_lt_is_Some_2 flags id Hid) as [x ->]. cbn [mbind option_bind].
    destruct (IH (<[id := true]> flags)) as (flags' & -> & Hl & Hf); [by rewrite length_insert|]. rewrite length_insert in Hl.
    exists flags'. split_and!; try done. intros i. rewrite Hf. destruct (decide (i = id)) as [->|].
    + rewrite list_lookup_insert_eq by done. set_solver.
    + rewrite list_lookup_insert_ne by done. set_solver.
Qed.

Lemma retain_items_some g its flags :
  (forall item, item ∈ its -> exists ids, producer_results g item = Some ids /\ Forall (fun id => id < length flags) ids) ->
  exists flags', retain_items g its flags = Some flags' /\ length flags' = length flags /\
    forall i, flags' !! i = Some true <-> flags !! i = Some true \/ exists item ids, item ∈ its /\ producer_results g item = Some ids /\ i ∈ ids.
Proof.
  revert flags. induction its as [|item its IH]; intros flags Hin; cbn [retain_items].
  - exists flags. split_and!; try done. intros i. split; [by left|]. by intros [H|(item & ids & []%elem_of_nil & _)].
  - destruct (Hin item) as (ids & Hids & Hr); [left|]. rewrite Hids. cbn [mbind option_bind].
    destruct (retain_all_some ids flags Hr) as (f1 & -> & Hl1 & Hf1). cbn [mbind option_bind].
    destruct (IH f1) as (flags' & -> & Hl & Hf). { intros x Hx. rewrite Hl1. apply Hin. by right. }
    exists flags'. split_and!; [done|lia|]. intros i. rewrite Hf, Hf1. split.
    + intros [[H|H]|(x & ids' & Hx & H)]; [by left|right; exists item, ids; split; [left|done]|right; exists x, ids'; split; [by right|done]].
    + intros [H|(x & ids' & [->|Hx]%elem_of_cons & H1 & H2)]; [by auto| |right; by exists x, ids'].
      rewrite Hids in H1. injection H1 as <-. by auto.
Qed.

(** Results and parameters are stored. *)
Lemma results_stored g item ids : graph_wf g -> producer_results g item = Some ids -> Forall (fun id => id < length (values (table g))) ids.
Proof.
  intros Hwf Hids. apply Forall_forall. intros id Hin. destruct item as [effect|p]; cbn in Hids.
  - apply fmap_Some in Hids as (e & He & ->). apply list_elem_of_lookup in Hin as (c & Hc). by eapply definition_lt, gw_results.
  - pose proof (expression_results_producer g p id ids Hwf Hids Hin) as Hpo. unfold producer_of in Hpo.
    apply bind_Some in Hpo as (d & Hd & _). by eapply definition_lt.
Qed.

(** An argument that is kept becomes a parameter that is kept. *)
Lemma trim_arguments_parameter {A} (h : A -> bool) ps args args' y : trim_arguments (h <$> ps) args = Some args' -> y ∈ args' ->
  exists p, h p = true /\ (p, y) ∈ zip ps args.
Proof.
  revert args args'. induction ps as [|p ps IH]; intros [|x args] args'; cbn [trim_arguments fmap list_fmap]; try done.
  - intros [= <-]. by intros []%elem_of_nil.
  - intros [= <-]. by intros []%elem_of_nil.
  - intros (args1 & Ha & H)%bind_Some Hy. assert (y ∈ args1 -> exists q, h q = true /\ (q, y) ∈ zip (p :: ps) (x :: args)) as Hrest.
    { intros Hin. destruct (IH args args1 Ha Hin) as (q & Hq & Hz). exists q. split; [done|by right]. }
    destruct (h p) eqn:Hh; injection H as <-; [|by apply Hrest]. apply elem_of_cons in Hy as [->|Hy]; [|by apply Hrest].
    exists p. split; [done|left].
Qed.

Lemma trim_argument_parameter g m keep edge edge' t y :
  (forall a b, blocks g !! a = Some b -> keep !! a = Some (kept g m a <$> parameters b)) ->
  blocks g !! target edge = Some t -> trim keep edge = Some edge' -> y ∈ arguments edge' ->
  exists p, kept g m (target edge) p = true /\ (p, y) ∈ zip (parameters t) (arguments edge).
Proof.
  intros Hkeep Ht Htrim Hy. unfold trim in Htrim. destruct (arguments edge) as [|x args] eqn:Hargs.
  - injection Htrim as <-. rewrite Hargs in Hy. by apply elem_of_nil in Hy.
  - rewrite (Hkeep _ t Ht) in Htrim. cbn [mbind option_bind] in Htrim. apply bind_Some in Htrim as (args' & Ha & [= <-]).
    by eapply trim_arguments_parameter.
Qed.

(** ** What pruning retains is closed *)

Section Retained.
(** [g] after control, [g'] after pruning. *)
Context (g g' : FunctionGraph) (live : list bool) (observable : Operation -> bool).
Context (Hwf : graph_wf g) (Hlive : length live = length (blocks g)).
Context (Hresolved : forall a b, blocks g !! a = Some b -> outgoing g a = Some (exit_edges (exit b))).
Context (Hsched : scheduled g live observable) (Hentry : live !! entry g = Some true).
Context (m : Marking) (keep : list (list bool)) (Hp : pruned g live observable m keep g').
#[local] Set Default Proof Using "All".

(** The flags of [storage_compact]. *)
Context (vs : list bool) (Hvs : length vs = length (values (table g'))).
Context (Hretained : forall id, vs !! id = Some true <->
  live_values m !! id = Some true \/ (exists b, blocks g' !! entry g = Some b /\ id ∈ parameters b) \/
  exists a b item ids, live !! a = Some true /\ blocks g' !! a = Some b /\ item ∈ items b /\ producer_results g' item = Some ids /\ id ∈ ids).

Notation retains := (fun id => vs !! id = Some true).
Notation keeps id := (needed g live observable (inl id)).

Lemma exact_live id : live_values m !! id = Some true <-> keeps id.
Proof. destruct (pr_exact _ _ _ _ _ _ Hp) as (m' & [= <-] & _ & _ & _ & H & _). apply H. Qed.
Lemma exact_marked producer : marked m producer = Some true <-> needed g live observable (inr producer).
Proof. destruct (pr_exact _ _ _ _ _ _ Hp) as (m' & [= <-] & _ & _ & _ & _ & H). apply H. Qed.

Lemma needed_retained id : keeps id -> retains id.
Proof. intros H. apply Hretained. left. by apply exact_live. Qed.

Lemma pruned_back a b' : blocks g' !! a = Some b' -> exists b, blocks g !! a = Some b /\
  items b' = filter (fun i => marked m i = Some true) (items b) /\ exit_map_edges (trim keep) (exit b) = Some (exit b') /\
  parameters b' = filter (fun p => kept g m a p = true) (parameters b).
Proof.
  intros Hb'. destruct (lookup_lt_is_Some_2 (blocks g) a) as [b Hb]; [rewrite <- (pr_length _ _ _ _ _ _ Hp); by eapply lookup_lt_Some|].
  destruct (pr_blocks _ _ _ _ _ _ Hp a b Hb) as (b1 & Hb1 & H). simplify_eq. by exists b.
Qed.

Lemma pruned_results producer : producer_results g' producer = producer_results g producer.
Proof.
  destruct producer; cbn; [by rewrite (pr_effects _ _ _ _ _ _ Hp)|]. symmetry. apply similar_results, (pr_table _ _ _ _ _ _ Hp).
Qed.

Lemma pruned_definition id d : (forall b c, d <> DParameter b c) -> definition_at (table g') id = Some d -> definition_at (table g) id = Some d.
Proof.
  intros Hd H. pose proof (similar_lookup _ _ id (pr_table _ _ _ _ _ _ Hp)) as Hs. unfold definition_at in *.
  destruct (values (table g') !! id) as [v'|]; [|done]. destruct (values (table g) !! id) as [v|]; [|done]. cbn in *.
  injection H as <-. destruct Hs as [->|(_ & b & c & b' & c' & _ & Hv')]; [done|]. by destruct (Hd b' c').
Qed.

(** The results of a needed execution. *)
Lemma results_retained producer ids : needed g live observable (inr producer) -> producer_results g producer = Some ids -> Forall retains ids.
Proof.
  intros Hn Hids. destruct (sc_items _ _ _ Hsched producer Hn) as (a & b & Ha & Hb & Hin).
  destruct (pr_blocks _ _ _ _ _ _ Hp a b Hb) as (b' & Hb' & Hit & _). apply Forall_forall. intros id Hid. apply Hretained. right. right.
  exists a, b', producer, ids. split_and!; try done; [|by rewrite pruned_results].
  rewrite Hit. apply list_elem_of_filter. split; [by apply exact_marked|done].
Qed.

(** A retained value that something produces has a needed producer. *)
Lemma retained_producer id producer : retains id -> producer_of g id = Some (Some producer) -> needed g live observable (inr producer).
Proof.
  intros H Hpo. apply Hretained in H as [H|[(b & Hb & Hin)|(a & b' & item & ids & Ha & Hb' & Hin & Hids & Hid)]].
  - eapply needed_producer; [by apply exact_live|done].
  - destruct (pruned_back _ b Hb) as (b0 & Hb0 & _ & _ & Hpar). rewrite Hpar in Hin. apply list_elem_of_filter in Hin as [_ Hin].
    destruct (parameters_own g live observable Hwf Hlive _ b0 id Hb0 Hin) as [c Hc]. unfold producer_of in Hpo. by rewrite Hc in Hpo.
  - destruct (pruned_back a b' Hb') as (b & Hb & Hit & _). rewrite Hit in Hin. apply list_elem_of_filter in Hin as [Hm _].
    apply exact_marked in Hm. rewrite pruned_results in Hids. enough (item = producer) as <- by done.
    destruct item as [effect|p]; cbn in Hids.
    + apply fmap_Some in Hids as (e & He & ->). apply list_elem_of_lookup in Hid as (c & Hc).
      unfold producer_of in Hpo. rewrite (gw_results g Hwf effect e c id He Hc) in Hpo. by injection Hpo.
    + rewrite (expression_results_producer g p id ids Hwf Hids Hid) in Hpo. by injection Hpo.
Qed.

Lemma pruned_closed : closed g' live vs (live_effects m).
Proof.
  split.
  - intros id d Hid Hd. destruct d as [l|e|block c|[effect|p] c]; try done.
    + apply pruned_definition in Hd; [|done].
      assert (needed g live observable (inr (Evaluate id))) as Hn.
      { apply (retained_producer id); [done|]. unfold producer_of. by rewrite Hd. }
      split.
      * apply Forall_forall. intros i Hi. apply needed_retained. eapply needed_input; [exact Hn|cbn; by rewrite Hd|done].
      * pose proof Hd as (v & Hv & Hdv)%fmap_Some. pose proof (expression_results_seq _ id v e Hv (eq_sym Hdv)) as Hs.
        eexists. split; [|exact (results_retained (Evaluate id) _ Hn Hs)]. by rewrite <- Hs, (similar_results _ _ id (pr_table _ _ _ _ _ _ Hp)).
    + apply pruned_definition in Hd; [|done]. apply (exact_marked (Effect effect)), (retained_producer id); [done|].
      unfold producer_of. by rewrite Hd.
    + apply pruned_definition in Hd; [|done].
      assert (producer_of g id = Some (Some (Evaluate p))) as Hpo by (unfold producer_of; by rewrite Hd).
      pose proof (retained_producer id _ Hid Hpo) as Hn. pose proof (producer_stored g live observable Hwf Hlive id _ Hpo) as (e & He). cbn in He.
      pose proof He as (v & Hv & Hdv)%fmap_Some. pose proof (expression_results_seq _ p v e Hv (eq_sym Hdv)) as Hs.
      pose proof (results_retained (Evaluate p) _ Hn Hs) as Hall. rewrite Forall_forall in Hall. apply Hall, elem_of_seq. destruct e; cbn; lia.
  - intros effect e Hef He. rewrite (pr_effects _ _ _ _ _ _ Hp) in He. apply (exact_marked (Effect effect)) in Hef. split.
    + apply Forall_forall. intros i Hi. apply needed_retained. eapply needed_input; [exact Hef|cbn; by rewrite He|done].
    + apply (results_retained (Effect effect)); [done|]. cbn. by rewrite He.
  - intros a b' Ha Hb'. destruct (pruned_back a b' Hb') as (b & Hb & _ & _ & Hpar). apply Forall_forall. intros p Hin.
    destruct (decide (a = entry g)) as [->|Hne]; [apply Hretained; right; left; by exists b'|].
    rewrite Hpar in Hin. apply list_elem_of_filter in Hin as [Hk _]. unfold kept in Hk. rewrite (proj2 (Nat.eqb_neq _ _) Hne) in Hk.
    apply bool_decide_eq_true in Hk. apply Hretained. by left.
  - intros a b' item Ha Hb' Hin. pose proof Hin as Hin'. destruct (pruned_back a b' Hb') as (b & Hb & Hit & _). rewrite Hit in Hin.
    apply list_elem_of_filter in Hin as [Hm Hin]. destruct item as [effect|p]; [done|]. apply exact_marked in Hm.
    destruct (gw_items g Hwf a b _ Hb Hin) as [e He]. pose proof He as (v & Hv & Hdv)%fmap_Some.
    pose proof (results_retained (Evaluate p) _ Hm (expression_results_seq _ p v e Hv (eq_sym Hdv))) as Hall.
    rewrite Forall_forall in Hall. apply Hall, elem_of_seq. destruct e; cbn; lia.
  - intros a b' Ha Hb'. destruct (pruned_back a b' Hb') as (b & Hb & _ & Hx & _). apply Forall_forall. intros id Hid.
    apply exit_inputs_cases in Hid as [Hid|(edge' & He' & Hid)].
    + apply needed_retained, needed_exit. rewrite (exit_map_edges_roots _ _ _ Hx) in Hid. exists a, b. split_and!; try done.
      by eapply lookup_lt_Some.
    + destruct (exit_map_edges_edges _ _ _ _ Hx He') as (edge & Hedge & Ht).
      destruct (gw_edges g Hwf a b edge Hb Hedge) as (t & Hbt & Hl).
      destruct (trim_argument_parameter g m keep edge edge' t id) as (p & Hpk & Hpz); try done; [by apply (pr_keep _ _ _ _ _ _ Hp)|].
      assert (target edge <> entry g) as Hne.
      { intros Heq. apply (sc_entry _ _ _ Hsched a Ha). exists (exit_edges (exit b)), edge. by rewrite (Hresolved a b Hb). }
      unfold kept in Hpk. rewrite (proj2 (Nat.eqb_neq _ _) Hne) in Hpk. apply bool_decide_eq_true, exact_live in Hpk.
      pose proof Hpz as Hpz'. apply elem_of_zip_l, list_elem_of_lookup in Hpz' as (c & Hc).
      apply needed_retained. eapply needed_argument; [exact Hpk|by eapply gw_parameters|].
      exists a, (exit_edges (exit b)), edge. split_and!; try done; [by eapply lookup_lt_Some|by apply Hresolved|by exists t].
Qed.
End Retained.

(** ** Storage compaction is total and keeps a graph well formed *)

Lemma exit_map_inputs_edges f e e' edge' : exit_map_inputs f e = Some e' -> edge' ∈ exit_edges e' ->
  exists edge, edge ∈ exit_edges e /\ edge_map f edge = Some edge'.
Proof.
  destruct e as [|x|c x y|k cs d|l|g l|tb sl l|]; cbn [exit_map_inputs]; try apply exit_map_edges_edges.
  - intros (e1 & He1 & H)%bind_Some. apply bind_Some in H as (c' & _ & H). intros Hin.
    apply (exit_map_edges_edges _ _ e1); [done|]. by destruct e1; simplify_eq.
  - intros (e1 & He1 & H)%bind_Some. apply bind_Some in H as (c' & _ & H). intros Hin.
    apply (exit_map_edges_edges _ _ e1); [done|]. by destruct e1; simplify_eq.
  - intros (l' & _ & [= <-])%bind_Some. by intros []%elem_of_nil.
  - intros (l' & _ & [= <-])%bind_Some. by intros []%elem_of_nil.
  - intros (l' & _ & H)%bind_Some. apply bind_Some in H as (s' & _ & [= <-]). by intros []%elem_of_nil.
Qed.

Lemma exit_map_inputs_roots f e e' id' : exit_map_inputs f e = Some e' -> id' ∈ exit_roots e' ->
  exists id, f id = Some id'.
Proof.
  assert (forall l l', mapM f l = Some l' -> id' ∈ l' -> exists id, f id = Some id') as Hmap.
  { intros l l' H%mapM_Some_1 (i & Hi)%list_elem_of_lookup. destruct (Forall2_lookup_r _ _ _ _ _ H Hi) as (id & _ & Hid). by exists id. }
  destruct e as [|x|c x y|k cs d|l|g l|tb sl l|]; cbn [exit_map_inputs exit_map_edges].
  - intros [= <-]. by intros []%elem_of_nil.
  - intros (x' & _ & [= <-])%bind_Some. by intros []%elem_of_nil.
  - intros (e1 & _ & H)%bind_Some. apply bind_Some in H as (c' & Hc & H). destruct e1; simplify_eq. cbn.
    intros ->%list_elem_of_singleton. by exists c.
  - intros (e1 & _ & H)%bind_Some. apply bind_Some in H as (c' & Hc & H). destruct e1; simplify_eq. cbn.
    intros ->%list_elem_of_singleton. by exists k.
  - intros (l' & Hl & [= <-])%bind_Some. cbn. by eapply Hmap.
  - intros (l' & Hl & [= <-])%bind_Some. cbn. by eapply Hmap.
  - intros (l' & Hl & H)%bind_Some. apply bind_Some in H as (s' & Hs & [= <-]). cbn [exit_roots exit_inputs].
    rewrite elem_of_app, list_elem_of_singleton. intros [Hin| ->]; [by eapply Hmap|by exists sl].
  - intros [= <-]. by intros []%elem_of_nil.
Qed.

Lemma edge_map_argument f edge edge' id' : edge_map f edge = Some edge' -> id' ∈ arguments edge' -> exists id, f id = Some id'.
Proof.
  unfold edge_map. intros (l & H & [= <-])%bind_Some (i & Hi)%list_elem_of_lookup.
  destruct (Forall2_lookup_r _ _ _ _ _ (mapM_Some_1 _ _ _ H) Hi) as (id & _ & Hid). by exists id.
Qed.

Section CompactedGraph.
Context (g : FunctionGraph) (live vs es : list bool).
Context (Hwf : graph_wf g) (Hlive : length live = length (blocks g)).
Context (Hvs : length vs = length (values (table g))) (Hes : length es = length (effects g)).
Context (Hcl : closed g live vs es) (g' : FunctionGraph) (Hco : compacted g live vs es g').
(** Edges of reachable blocks enter reachable blocks. *)
Context (Hedges : forall a b edge, live !! a = Some true -> blocks g !! a = Some b -> edge ∈ exit_edges (exit b) -> live !! target edge = Some true).
#[local] Set Default Proof Using "All".

Notation r := (remapping_new vs es).
Notation in_table k := (k < length (values (table g'))).

Lemma renamed_stored id k : remap_value r id = Some k -> in_table k.
Proof.
  intros H. destruct (renamed_value g live vs es Hwf Hlive Hvs Hes Hcl g' Hco id k H) as (v & d & _ & Hk & _). by eapply lookup_lt_Some.
Qed.

Lemma compacted_block a b' : blocks g' !! a = Some b' ->
  b' = mkBlock [] [] [] Trap (scope b') \/ exists b, live !! a = Some true /\ blocks g !! a = Some b /\
    mapM (remap_value r) (parameters b) = Some (parameters b') /\ mapM (remap_producer r) (items b) = Some (items b') /\
    exit_map_inputs (remap_value r) (exit b) = Some (exit b').
Proof.
  intros Hb'. destruct (lookup_lt_is_Some_2 (blocks g) a) as [b Hb].
  { rewrite <- (co_blocks_length _ _ _ _ _ Hco). by eapply lookup_lt_Some. }
  destruct (lookup_lt_is_Some_2 live a) as [[|] Ha]; [rewrite Hlive; by eapply lookup_lt_Some|..].
  - destruct (co_blocks _ _ _ _ _ Hco a b Ha Hb) as (b1 & Hb1 & H). simplify_eq. right. by exists b.
  - pose proof (co_cleared _ _ _ _ _ Hco a b Ha Hb) as H. left. rewrite Hb' in H. by injection H as ->.
Qed.

Lemma renamed_definition id k d : remap_value r id = Some k -> definition_at (table g) id = Some d ->
  exists d', remap_definition r d = Some d' /\ definition_at (table g') k = Some d'.
Proof.
  intros Hid Hd. destruct (renamed_value g live vs es Hwf Hlive Hvs Hes Hcl g' Hco id k Hid) as (v & d' & Hv & Hk & Hr).
  unfold definition_at in *. rewrite Hv in Hd. injection Hd as <-. exists d'. by rewrite Hk.
Qed.

Lemma compacted_wf : graph_wf g'.
Proof.
  split.
  - by eapply (compacted_table_wf g live vs es).
  - rewrite (co_entry _ _ _ _ _ Hco), (co_blocks_length _ _ _ _ _ Hco). by apply gw_entry.
  - intros a b' c k Hb' Hk. destruct (compacted_block a b' Hb') as [Hb0|(b & Ha & Hb & Hpar & _)]; [by rewrite Hb0 in Hk|].
    destruct (Forall2_lookup_r _ _ _ _ _ (mapM_Some_1 _ _ _ Hpar) Hk) as (p & Hp & Hpk).
    destruct (renamed_definition p k _ Hpk (gw_parameters g Hwf a b c p Hb Hp)) as (d' & [= <-] & Hd). done.
  - intros k e' c x He' Hx. destruct (co_effect_back _ _ _ _ _ Hco k e' He') as (effect & e & Hef & <- & He).
    destruct (co_effect _ _ _ _ _ Hco effect e Hef He) as (e1 & He1 & Hr). simplify_eq.
    unfold remap_effect in Hr. apply bind_Some in Hr as (op & _ & Hr). apply bind_Some in Hr as (res & Hres & [= <-]). cbn in Hx.
    destruct (Forall2_lookup_r _ _ _ _ _ (mapM_Some_1 _ _ _ Hres) Hx) as (p & Hp & Hpx).
    destruct (renamed_definition p x _ Hpx (gw_results g Hwf effect e c p He Hp)) as (d' & Hd' & Hd). rewrite Hd.
    cbn [remap_definition] in Hd'. rewrite (remap_effect_some g live vs es Hwf Hlive Hvs Hes effect Hef) in Hd'. by injection Hd' as <-.
  - intros k f c Hd. pose proof Hd as (v' & Hv' & Hdv')%fmap_Some. destruct (co_back _ _ _ _ _ Hco k v' Hv') as (id & Hid).
    destruct (renamed_value g live vs es Hwf Hlive Hvs Hes Hcl g' Hco id k Hid) as (v & d & Hv & Hk & Hr). simplify_eq. cbn in Hdv'. subst d.
    apply (remap_value_some g live vs es Hwf Hlive Hvs Hes) in Hid as [Hret _].
    assert (definition_at (table g) id = Some (definition v)) as Hdef by (unfold definition_at; by rewrite Hv).
    pose proof (cl_value _ _ _ _ Hcl id _ Hret Hdef) as Hc. destruct (definition v) as [l|e|block c0|[effect|p] c0]; cbn [remap_definition] in Hr; try done.
    + by apply bind_Some in Hr as (e' & _ & ?).
    + rewrite (remap_effect_some g live vs es Hwf Hlive Hvs Hes effect Hc) in Hr. injection Hr as <- <-.
      destruct (gw_produced g Hwf id effect c0 Hdef) as (e & He). destruct (co_effect _ _ _ _ _ Hco effect e Hc He) as (e' & He' & _). by exists e'.
    + apply bind_Some in Hr as (q & Hq & Hr). cbn in Hq. apply bind_Some in Hq as (p' & _ & [= <-]). done.
  - intros k e' He'. destruct (co_effect_back _ _ _ _ _ Hco k e' He') as (effect & e & Hef & <- & He).
    destruct (co_effect _ _ _ _ _ Hco effect e Hef He) as (e1 & He1 & Hr). simplify_eq.
    unfold remap_effect, op_map_inputs in Hr. apply bind_Some in Hr as (op & Hop & Hr). apply bind_Some in Hop as (ins & Hins & [= <-]).
    apply bind_Some in Hr as (res & _ & [= <-]). cbn. apply Forall_forall. intros x (i & Hi)%list_elem_of_lookup.
    destruct (Forall2_lookup_r _ _ _ _ _ (mapM_Some_1 _ _ _ Hins) Hi) as (p & _ & Hpx). by eapply renamed_stored.
  - intros a b' item' Hb' Hin. destruct (compacted_block a b' Hb') as [Hb0|(b & Ha & Hb & _ & Hits & _)]; [rewrite Hb0 in Hin; by apply elem_of_nil in Hin|].
    apply list_elem_of_lookup in Hin as (i & Hi). destruct (Forall2_lookup_r _ _ _ _ _ (mapM_Some_1 _ _ _ Hits) Hi) as (item & Hit & Hr).
    apply list_elem_of_lookup_2 in Hit. pose proof (cl_items _ _ _ _ Hcl a b item Ha Hb Hit) as Hc. pose proof (gw_items g Hwf a b item Hb Hit) as Hst.
    destruct item as [effect|p].
    + rewrite (remap_effect_some g live vs es Hwf Hlive Hvs Hes effect Hc) in Hr. injection Hr as <-. destruct Hst as (e & He).
      destruct (co_effect _ _ _ _ _ Hco effect e Hc He) as (e' & He' & _). by exists e'.
    + cbn in Hr. apply bind_Some in Hr as (p' & Hp' & [= <-]). destruct Hst as (e & He).
      destruct (renamed_expression g live vs es Hwf Hlive Hvs Hes Hcl g' Hco p p' e Hp' He) as (e' & He' & _). by exists e'.
  - intros a b' Hb'. apply Forall_forall. intros id' Hid.
    destruct (compacted_block a b' Hb') as [Hb0|(b & Ha & Hb & _ & _ & Hx)]; [rewrite Hb0 in Hid; by apply elem_of_nil in Hid|].
    apply exit_inputs_cases in Hid as [Hid|(edge' & He' & Hid)].
    + destruct (exit_map_inputs_roots _ _ _ _ Hx Hid) as (id & H). by eapply renamed_stored.
    + destruct (exit_map_inputs_edges _ _ _ _ Hx He') as (edge & _ & Hm). destruct (edge_map_argument _ _ _ _ Hm Hid) as (id & H). by eapply renamed_stored.
  - intros a b' edge' Hb' He'. destruct (compacted_block a b' Hb') as [Hb0|(b & Ha & Hb & _ & _ & Hx)]; [rewrite Hb0 in He'; by apply elem_of_nil in He'|].
    destruct (exit_map_inputs_edges _ _ _ _ Hx He') as (edge & Hedge & Hm). unfold edge_map in Hm. apply bind_Some in Hm as (args & Hargs & [= <-]).
    cbn [target arguments]. destruct (gw_edges g Hwf a b edge Hb Hedge) as (t & Ht & Hlen).
    destruct (co_blocks _ _ _ _ _ Hco _ t (Hedges a b edge Ha Hb Hedge) Ht) as (t' & Ht' & Hpar & _). exists t'. split; [done|].
    by rewrite <- (Forall2_length _ _ _ (mapM_Some_1 _ _ _ Hargs)), <- (Forall2_length _ _ _ (mapM_Some_1 _ _ _ Hpar)).
Qed.
End CompactedGraph.

(** ** The graph that storage compaction leaves *)

Lemma clear_some g live : length live = length (blocks g) ->
  exists bs, mapM id (imap (clear_unreachable live) (blocks g)) = Some bs /\ cleared g live bs.
Proof.
  intros Hlive.
  assert (forall a b, blocks g !! a = Some b ->
    clear_unreachable live a b = Some (if bool_decide (live !! a = Some true) then b else mkBlock [] [] [] Trap (scope b))) as Hone.
  { intros a b Hb. unfold clear_unreachable. destruct (lookup_lt_is_Some_2 live a) as [flag Hf]; [rewrite Hlive; by eapply lookup_lt_Some|].
    rewrite Hf. cbn. destruct flag; [by rewrite bool_decide_eq_true_2|by rewrite bool_decide_eq_false_2]. }
  destruct (mapM_id_some (imap (clear_unreachable live) (blocks g))) as [bs Hbs].
  { intros i o. rewrite list_lookup_imap. intros (b & Hb & ->)%fmap_Some. cbv beta. rewrite (Hone i b Hb). by eexists. }
  exists bs. split; [done|split].
  - pose proof (Forall2_length _ _ _ (mapM_Some_1 _ _ _ Hbs)) as H. by rewrite length_imap in H.
  - intros a b Hb. rewrite (mapM_id_lookup _ _ a Hbs), list_lookup_imap, Hb. cbn. by apply Hone.
Qed.

Section Storage.
Context (g g' : FunctionGraph) (live : list bool) (observable : Operation -> bool).
Context (Hwf : graph_wf g) (Hlive : length live = length (blocks g)).
Context (Hresolved : forall a b, blocks g !! a = Some b -> outgoing g a = Some (exit_edges (exit b))).
Context (Hsched : scheduled g live observable) (Hentry : live !! entry g = Some true).
Context (m : Marking) (keep : list (list bool)) (Hp : pruned g live observable m keep g').
#[local] Set Default Proof Using "All".

Lemma pruned_targets a b' edge' : (forall a b, live !! a = Some true -> leads g a b -> live !! b = Some true) ->
  live !! a = Some true -> blocks g' !! a = Some b' -> edge' ∈ exit_edges (exit b') -> live !! target edge' = Some true.
Proof.
  intros Hclosed Ha Hb' Hin. destruct (lookup_lt_is_Some_2 (blocks g) a) as [b Hb]; [rewrite <- Hlive; by eapply lookup_lt_Some|].
  destruct (pr_blocks _ _ _ _ _ _ Hp a b Hb) as (b1 & Hb1 & _ & Hx & _). simplify_eq.
  destruct (exit_map_edges_edges _ _ _ _ Hx Hin) as (edge & Hedge & Ht).
  destruct (trim_some g live observable Hwf Hlive m keep a b edge (pr_keep _ _ _ _ _ _ Hp) Hb Hedge) as (e1 & t & Ht1 & Htar & _).
  rewrite Ht in Ht1. injection Ht1 as <-. rewrite Htar.
  apply (Hclosed a); [done|]. exists (exit_edges (exit b)), edge. by rewrite (Hresolved a b Hb).
Qed.

Lemma cleared_item bs item : cleared g' live bs -> item ∈ mjoin (items <$> bs) <->
  exists a b, live !! a = Some true /\ blocks g' !! a = Some b /\ item ∈ items b.
Proof.
  intros [Hlen Hbs]. rewrite list_elem_of_join. split.
  - intros (l & Hin & (b1 & -> & (a & Hb1)%list_elem_of_lookup)%list_elem_of_fmap).
    destruct (lookup_lt_is_Some_2 (blocks g') a) as [b Hb]; [rewrite <- Hlen; by eapply lookup_lt_Some|].
    rewrite (Hbs a b Hb) in Hb1. injection Hb1 as <-. case_bool_decide; [by exists a, b|by apply elem_of_nil in Hin].
  - intros (a & b & Ha & Hb & Hin). exists (items b). split; [done|]. apply list_elem_of_fmap. exists b. split; [done|].
    specialize (Hbs a b Hb). rewrite bool_decide_eq_true_2 in Hbs by done. by eapply list_elem_of_lookup_2.
Qed.

Lemma storage_compact_some : exists g2 vs,
  storage_compact g' live (mkRetained (live_values m) (live_effects m)) = Some g2 /\
  length vs = length (values (table g')) /\ length (live_effects m) = length (effects g') /\
  closed g' live vs (live_effects m) /\ compacted g' live vs (live_effects m) g2.
Proof.
  pose proof (pruned_wf g live observable Hwf Hlive m keep g' Hp) as Hwf'.
  assert (length live = length (blocks g')) as Hlive' by (by rewrite (pr_length _ _ _ _ _ _ Hp)).
  assert (length (values (table g')) = length (values (table g))) as Hsize by (symmetry; exact (Forall2_length _ _ _ (pr_table _ _ _ _ _ _ Hp))).
  destruct (pr_exact _ _ _ _ _ _ Hp) as (m' & [= <-] & Hlv & _ & Hle & _).
  unfold storage_compact. cbn [r_values r_effects]. destruct (clear_some g' live Hlive') as (bs & -> & Hbs). cbn [mbind option_bind]. cbv zeta. cbn [entry].
  destruct (lookup_lt_is_Some_2 (blocks g') (entry g')) as [b Hb]; [by apply gw_entry|].
  assert (bs !! entry g' = Some b) as ->.
  { rewrite (proj2 Hbs _ b Hb), (pr_entry _ _ _ _ _ _ Hp). by rewrite bool_decide_eq_true_2. }
  cbn [mbind option_bind].
  destruct (retain_all_some (parameters b) (live_values m)) as (f1 & -> & Hl1 & Hf1).
  { apply Forall_forall. intros p (c & Hc)%list_elem_of_lookup. rewrite Hlv, <- Hsize. by eapply definition_lt, gw_parameters. }
  cbn [mbind option_bind].
  destruct (retain_items_some (mkGraph (table g') (effects g') bs (layout g') (entry g') (memories g')) (mjoin (items <$> bs)) f1) as (vs & -> & Hl & Hf).
  { intros item Hin. apply (cleared_item bs item Hbs) in Hin as (a & b1 & Ha & Hb1 & Hin).
    assert (exists ids, producer_results g' item = Some ids) as [ids Hids].
    { pose proof (gw_items g' Hwf' a b1 item Hb1 Hin) as Hst. destruct item as [effect|p]; cbn.
      - destruct Hst as [e ->]. by eexists.
      - destruct Hst as [e (v & Hv & Hd)%fmap_Some]. eexists. by eapply expression_results_seq. }
    exists ids. split; [by destruct item|]. rewrite Hl1, Hlv, <- Hsize. by eapply results_stored. }
  cbn [mbind option_bind].
  assert (closed g' live vs (live_effects m)) as Hcl.
  { apply (pruned_closed g g' live observable Hwf Hlive Hresolved Hsched Hentry m keep Hp vs); [lia|].
    intros id. rewrite Hf, Hf1. rewrite (pr_entry _ _ _ _ _ _ Hp) in Hb. split.
    - intros [[H|H]|(item & ids & Hin & Hids & Hid)]; [by left|right; left; by exists b|].
      apply (cleared_item bs item Hbs) in Hin as (a & b1 & Ha & Hb1 & Hin). right. right. exists a, b1, item, ids.
      split_and!; try done; by destruct item.
    - intros [H|[(b1 & Hb1 & H)|(a & b1 & item & ids & Ha & Hb1 & Hin & Hids & Hid)]]; [by auto|simplify_eq; by auto|].
      right. exists item, ids. split_and!; [|by destruct item|done]. apply (cleared_item bs item Hbs). by exists a, b1. }
  destruct (compact_some g' live vs (live_effects m) Hwf' Hlive' ltac:(lia) ltac:(by rewrite (pr_effects _ _ _ _ _ _ Hp)) bs Hcl Hbs) as (g2 & Hg2 & Hco).
  exists g2, vs. split; [exact Hg2|]. split; [lia|]. by rewrite (pr_effects _ _ _ _ _ _ Hp).
Qed.
End Storage.
