(* ===== verification/PruneTheorems.v ===== *)
(** * Pruning and compaction: the main statements

    What placement relies on of reachability, liveness, pruning and compaction.
    The witnesses run the definitions on the graphs of body/prune/tests.rs. *)

From S2P Require Import Prelude Bytes Types Floating Expr Evaluate Values Model Valuations Graph Prune GraphRun GraphCheck PruneLive PruneShape PruneControl PruneCompact.
Local Open Scope Z_scope.

(** ** A sample graph: a loop that counts down, with a read nothing uses *)

Definition counted : list Value :=
  [mkValue I32 (DParameter 0 0); mkValue I32 (DParameter 1 0); mkValue I32 (DParameter 1 1);
   mkValue I32 (DLiteral (lit 1)); mkValue I32 (DResult (Effect 0) 0);
   mkValue I32 (DExpression (EBinary (Bitwise Xor) 1%nat 3%nat));
   mkValue I32 (DParameter 2 0)].

Definition counting : FunctionGraph :=
  mkGraph (default empty_table (author_all counted empty_table))
    [mkEffect [4%nat] (op_load (mkAccess 0 0 4) 1) 1; mkEffect [] (op_store (mkAccess 0 0 4) 1 5) 1]
    [mkBlock [0%nat] [] [] (Jump (mkEdge 1 [0; 3]%nat)) 0;
     mkBlock [1; 2]%nat [Effect 0; Evaluate 5; Effect 1] []
       (ExitIf 1 (mkEdge 1 [5; 4]%nat) (mkEdge 2 [1]%nat)) 0;
     mkBlock [6%nat] [] [] (Return [6%nat]) 0]
    [LLoop 0 1 [LBlock 1] 2; LBlock 2] 0 [0%nat].

Lemma counting_wf : graph_wf counting.
Proof. apply graph_checked_wf; [apply authored_wf; by vm_compute|by vm_compute]. Qed.

(** Loads may go, stores may not. *)
Definition stores (k : OperationKind) : bool := match k with OpLoad _ => false | _ => true end.

(** A memory of one word. *)
Definition one_word (k : OperationKind) (ls : list Literal) (w : Z) : option (list Literal * Z) :=
  match k, ls with
  | OpLoad _, [_] => Some ([lit w], w)
  | OpStore _, [_; l] => Some ([], low l)
  | _, _ => None
  end.

Lemma one_word_keeps k ls (w : Z) rs w' : stores k = false -> one_word k ls w = Some (rs, w') -> w' = w.
Proof. destruct k, ls as [|? [|]]; try done. by intros _ [= <- <-]. Qed.

Definition start (l : Literal) : Valuation := fun _ => l.

(** ** Reachability and liveness *)

(** C9 The search from the entry marks exactly the blocks that a path of executable
    edges leads to, and liveness exactly what is needed: the least set that holds
    what the exits and observable operations of those blocks use, with the producer
    of every value in it, the inputs of every producer, and the arguments that their
    executable edges pass to its parameters. Both are total within their fuel. *)
Theorem liveness_exact g observable : graph_wf g -> exists live m, reachable g = Some live /\ length live = length (blocks g) /\
  (forall block, live !! block = Some true <-> rtc (leads g) (entry g) block) /\
  liveness g live observable = Some m /\
  (forall id, live_values m !! id = Some true <-> needed g live observable (inl id)) /\
  (forall producer, marked m producer = Some true <-> needed g live observable (inr producer)).
Proof.
  intros Hwf. destruct (reachable_found g (graph_exits_ok g Hwf)) as (live & Hr & Hlen & Hiff).
  destruct (liveness_needed g live observable Hwf Hlen) as (m & Hm & _ & _ & _ & Hv & Hp). by exists live, m.
Qed.

Lemma liveness_exact_witness : exists live m, reachable counting = Some live /\ length live = length (blocks counting) /\
  (forall block, live !! block = Some true <-> rtc (leads counting) (entry counting) block) /\
  liveness counting live (fun o => stores (kind o)) = Some m /\
  (forall id, live_values m !! id = Some true <-> needed counting live (fun o => stores (kind o)) (inl id)) /\
  (forall producer, marked m producer = Some true <-> needed counting live (fun o => stores (kind o)) (inr producer)).
Proof. apply (liveness_exact counting). apply counting_wf. Defined.

Example counting_reachable : reachable counting = Some [true; true; true].
Proof. by vm_compute. Qed.

(** The read of the loop and the parameter it feeds are not needed. *)
Example counting_live : (fun m => (live_values m, live_effects m)) <$> liveness counting [true; true; true] (fun o => stores (kind o))
  = Some ([true; true; false; true; false; true; true], [false; true]).
Proof. by vm_compute. Qed.

(** ** Pruning *)

(** The blocks of a graph that are marked reachable. *)
Lemma reachable_closed g live : graph_wf g -> reachable g = Some live ->
  length live = length (blocks g) /\ live !! entry g = Some true /\
  forall a b, live !! a = Some true -> leads g a b -> live !! b = Some true.
Proof.
  intros Hwf Hr. destruct (reachable_found g (graph_exits_ok g Hwf)) as (seen & Hs & Hlen & Hiff). rewrite Hr in Hs. injection Hs as <-.
  split_and!; [done|by apply Hiff|]. intros a b Ha Hab. apply Hiff. eapply rtc_r; [by apply Hiff|done].
Qed.

(** A run that does not stop at an operation pruning may remove. *)
Definition clean {W} (visible : OperationKind -> bool) (o : Outcome * W) : Prop :=
  forall k, o.1 = Stopped k -> visible k = true.

(** C8 Pruning a well-formed graph never panics and leaves a well-formed graph that
    runs like it: after any number of blocks, with pure values computed where they
    are used or where items evaluate them, it has made the same observable
    operations and ended in the same outcome, if the operations it may remove keep
    the world and none of them trapped. *)
Theorem prune_unused_correct g live (visible : OperationKind -> bool) : graph_wf g -> reachable g = Some live ->
  exists g', prune_unused g live (fun o => visible (kind o)) = Some g' /\ graph_wf g' /\ entry g' = entry g /\
    forall World (run : OperationKind -> list Literal -> World -> option (list Literal * World)) placed,
      (forall k ls w rs w', visible k = false -> run k ls w = Some (rs, w') -> w' = w) ->
      forall fuel rho w o, execute_graph run placed fuel g rho w = Some o -> clean visible o ->
        execute_graph run placed fuel g' rho w = Some o.
Proof.
  intros Hwf Hr. destruct (reachable_closed g live Hwf Hr) as (Hlive & Hentry & Hclosed).
  destruct (prune_some g live (fun o => visible (kind o)) Hwf Hlive) as (g' & m & keep & Hprune & Hp). exists g'.
  split_and!; [unfold prune_unused; by rewrite Hprune|by eapply pruned_wf|by eapply pr_entry|].
  intros World run placed Hrun fuel rho w o Ho Hclean. destruct (pr_exact _ _ _ _ _ _ Hp) as (m' & [= <-] & _ & _ & _ & Hv & Hi).
  unfold execute_graph. rewrite (pr_entry _ _ _ _ _ _ Hp). destruct Hp as [_ Hkeep Ht _ He Hen _ Hb _].
  eapply (execute_agree run placed visible Hrun g live Hwf Hlive Hclosed m Hv Hi g' keep Hkeep Ht He Hen Hb fuel (entry g) rho rho w o); try done.
Qed.

Lemma prune_unused_correct_witness : exists g', prune_unused counting [true; true; true] (fun o => stores (kind o)) = Some g' /\
  execute_graph one_word true 10 g' (start (lit 1)) 7 = Some (Returned [lit 0], 1).
Proof.
  destruct (prune_unused_correct counting [true; true; true] stores counting_wf) as (g' & Hg & _ & _ & Hrun); [by vm_compute|].
  exists g'. split; [exact Hg|]. eapply Hrun; [apply one_word_keeps|by vm_compute|done].
Defined.

Example counting_pruned : (fun g => items <$> blocks g) <$> prune_unused counting [true; true; true] (fun o => stores (kind o))
  = Some [[]; [Evaluate 5%nat; Effect 1%nat]; []].
Proof. by vm_compute. Qed.

(** ** Compaction *)

Lemma entry_kept g m (ps : list nat) : filter (fun p => kept g m (entry g) p = true) ps = ps.
Proof. induction ps as [|p ps IH]; [done|]. rewrite filter_cons, IH. unfold kept. by rewrite Nat.eqb_refl. Qed.

(** C3 Compaction of a graph whose needed executions are scheduled in reachable
    blocks and whose entry block no edge enters is total, leaves a well-formed graph
    and renames the retained values in order: the compacted graph, started from the
    values of the retained ones, makes the same observable operations and ends in
    the same outcome after any number of blocks. *)
Theorem compact_correct g live (visible : OperationKind -> bool) : graph_wf g -> layout_ok g -> reachable g = Some live ->
  scheduled g live (fun o => visible (kind o)) ->
  exists g' retained, compact g (fun o => visible (kind o)) = Some g' /\ graph_wf g' /\ entry g' = entry g /\
    let rename id := if bool_decide (retained !! id = Some true) then Some (rank retained id) else None in
    (forall b, blocks g !! entry g = Some b -> exists b', blocks g' !! entry g = Some b' /\
      mapM rename (parameters b) = Some (parameters b')) /\
    forall World (run : OperationKind -> list Literal -> World -> option (list Literal * World)) placed,
      (forall k ls w rs w', visible k = false -> run k ls w = Some (rs, w') -> w' = w) ->
      forall fuel rho rho' w o, (forall id k, rename id = Some k -> rho' k = rho id) ->
        execute_graph run placed fuel g rho w = Some o -> clean visible o ->
        execute_graph run placed fuel g' rho' w = Some o.
Proof.
  intros Hwf Hlay Hr Hsched. destruct (reachable_closed g live Hwf Hr) as (Hlive & Hentry & Hclosed).
  set (observable := fun o => visible (kind o)) in *.
  destruct (control_simplify_some g live Hwf Hlive Hlay) as (g1 & Hg1 & Hres).
  pose proof (resolved_wf g g1 Hwf Hres) as Hwf1. pose proof (rs_entry _ _ Hres) as Hent1.
  assert (length live = length (blocks g1)) as Hlive1 by (by rewrite (rs_length _ _ Hres)).
  assert (live !! entry g1 = Some true) as Hentry1 by (by rewrite Hent1).
  assert (forall a b, live !! a = Some true -> leads g1 a b -> live !! b = Some true) as Hclosed1.
  { intros a b Ha Hab. apply (Hclosed a); [done|]. by apply (resolved_leads g g1 Hwf Hres). }
  assert (forall a b, blocks g1 !! a = Some b -> outgoing g1 a = Some (exit_edges (exit b))) as Hout.
  { intros a b Hb. destruct (resolved_outgoing g g1 Hwf Hres a b Hb) as [-> H]. done. }
  pose proof (resolved_scheduled g g1 live observable Hwf Hres Hsched) as Hsched1.
  destruct (prune_some g1 live observable Hwf1 Hlive1) as (g2 & m & keep & Hg2 & Hp).
  pose proof (pruned_wf g1 live observable Hwf1 Hlive1 m keep g2 Hp) as Hwf2. pose proof (pr_entry _ _ _ _ _ _ Hp) as Hent2.
  assert (length live = length (blocks g2)) as Hlive2 by (by rewrite (pr_length _ _ _ _ _ _ Hp)).
  destruct (storage_compact_some g1 g2 live observable Hwf1 Hlive1 Hout Hsched1 Hentry1 m keep Hp) as (g3 & vs & Hg3 & Hvs & Hes & Hcl & Hco).
  assert (forall a b edge, live !! a = Some true -> blocks g2 !! a = Some b -> edge ∈ exit_edges (exit b) -> live !! target edge = Some true) as Hedges2.
  { intros a b edge. by apply (pruned_targets g1 g2 live observable Hwf1 Hlive1 Hout Hsched1 Hentry1 m keep Hp). }
  exists g3, vs. split; [unfold compact; rewrite Hr; cbn [mbind option_bind]; rewrite Hg1; cbn [mbind option_bind]; by rewrite Hg2|].
  split; [by apply (compacted_wf g2 live vs (live_effects m) Hwf2 Hlive2 Hvs Hes Hcl g3 Hco)|].
  split; [by rewrite (co_entry _ _ _ _ _ Hco), Hent2|]. intros rename. split.
  - intros b Hb. destruct (rs_blocks _ _ Hres _ b Hb) as (b1 & Hb1 & Hpar1 & _).
    rewrite <- Hent1 in Hb1. destruct (pr_blocks _ _ _ _ _ _ Hp _ b1 Hb1) as (b2 & Hb2 & _ & _ & Hpar2).
    destruct (co_blocks _ _ _ _ _ Hco _ b2 Hentry1 Hb2) as (b3 & Hb3 & Hpar3 & _). exists b3. rewrite <- Hent1. split; [done|].
    rewrite (entry_kept g1 m) in Hpar2. rewrite <- Hpar1, <- Hpar2, <- Hpar3.
    apply mapM_ext. intros p. by rewrite (remap_value_eq g2 live vs (live_effects m) Hwf2 Hlive2 Hvs Hes).
  - intros World run placed Hrun fuel rho rho' w o Hren Ho Hclean.
    destruct (pr_exact _ _ _ _ _ _ Hp) as (m' & [= <-] & _ & _ & _ & Hv & Hi).
    unfold execute_graph in Ho. rewrite <- (resolved_execute g g1 Hwf Hres run placed) in Ho.
    assert (execute run placed fuel g2 (entry g1) rho w = Some o) as Ho2.
    { destruct Hp as [_ Hkeep Ht _ He Hen _ Hb _]. rewrite <- Hent1 in Ho.
      by apply (execute_agree run placed visible Hrun g1 live Hwf1 Hlive1 Hclosed1 m Hv Hi g2 keep Hkeep Ht He Hen Hb fuel (entry g1) rho rho w o). }
    unfold execute_graph. rewrite (co_entry _ _ _ _ _ Hco), Hent2.
    apply (execute_renamed g2 live vs (live_effects m) Hwf2 Hlive2 Hvs Hes Hcl g3 Hco run placed) with (rho := rho); try done.
    + intros a b Ha (edges & edge & Hedges & Hin & <-). apply outgoing_edges in Hedges as (b2 & Hb2 & Hsub & _).
      by apply (Hedges2 a b2 edge); [| |apply Hsub].
    + intros id k. rewrite (remap_value_eq g2 live vs (live_effects m) Hwf2 Hlive2 Hvs Hes). apply Hren.
Qed.

Lemma counting_scheduled : scheduled counting [true; true; true] (fun o => stores (kind o)).
Proof.
  destruct (liveness_needed counting [true; true; true] (fun o => stores (kind o)) counting_wf eq_refl) as (m & Hm & _ & _ & _ & _ & Hp).
  vm_compute in Hm. injection Hm as <-. split.
  - intros producer Hn%Hp. exists 1%nat, (mkBlock [1; 2]%nat [Effect 0; Evaluate 5; Effect 1] []
      (ExitIf 1 (mkEdge 1 [5; 4]%nat) (mkEdge 2 [1]%nat)) 0). split_and!; [done|done|]. cbn [items].
    destruct producer as [f|p]; cbn in Hn.
    + destruct f as [|[|f]]; try done. set_solver.
    + destruct p as [|[|[|[|[|[|[|p]]]]]]]; try done. set_solver.
  - intros a Ha (edges & e & He & Hin & Ht). destruct a as [|[|[|a]]]; try done; vm_compute in He; simplify_eq; set_solver.
Qed.

Lemma compact_correct_witness : exists g', compact counting (fun o => stores (kind o)) = Some g' /\
  execute_graph one_word true 10 g' (start (lit 1)) 7 = Some (Returned [lit 0], 1).
Proof.
  destruct (compact_correct counting [true; true; true] stores counting_wf) as (g' & vs & Hg & _ & _ & _ & Hrun);
    [by vm_compute|by vm_compute|apply counting_scheduled|].
  exists g'. split; [exact Hg|]. apply (Hrun Z one_word true one_word_keeps 10%nat (start (lit 1))); [done|by vm_compute|done].
Defined.

(** The read, its result and the parameter it fed are gone. *)
Example counting_compacted : (fun g => (length (values (table g)), length (effects g), exit <$> blocks g)) <$> compact counting (fun o => stores (kind o))
  = Some (5%nat, 1%nat, [Jump (mkEdge 1 [0]%nat); ExitIf 1 (mkEdge 1 [3]%nat) (mkEdge 2 [1]%nat); Return [4]%nat]).
Proof. by vm_compute. Qed.
