(* ===== verification/Effects.v ===== *)
(** * Memory footprints

    crates/compiler/src/place/effects.rs, effects/ranges.rs and
    effects/operations.rs: the bytes an operation may read or write, the summary
    of every function, and whether one operation keeps another from being moved
    across it. A panic of the source is [None]. *)

From S2P Require Import Prelude Bytes Types Floating Expr Evaluate Values Graph.
Local Open Scope Z_scope.

(** ** effects/ranges.rs *)

(** A half-open range of addresses relative to [r_base]; without a base they are
    absolute, without bytes they are not known. *)
Record MemoryRange := mkMemoryRange { r_memory : nat; r_base : option nat; r_bytes : option (Z * Z) }.

#[export] Instance MemoryRange_eq_dec : EqDecision MemoryRange.
Proof. solve_decision. Defined.

Definition range_new (memory base : nat) (offset : Z) (bytes : option Z) (g : FunctionGraph) : option MemoryRange :=
  base ← representation (table g) base;
  literal ← scalar_at (table g) base;
  let '(base, start) := match literal with
    | Some address => (None, address + offset)
    | None => (Some base, offset)
    end in
  Some (mkMemoryRange memory base (option_map (fun bytes => (start, start + bytes)) bytes)).

Definition from_span (memory base bytes : nat) (g : FunctionGraph) : option MemoryRange :=
  bytes ← representation (table g) bytes;
  bytes ← scalar_at (table g) bytes;
  range_new memory base 0 bytes g.

Definition from_location (location : Location) (g : FunctionGraph) : option MemoryRange :=
  range_new (l_memory location) (l_base location) (l_offset location) (Some (l_bytes location)) g.

Definition range_empty (bytes : option (Z * Z)) : bool :=
  match bytes with Some (start, stop) => negb (start <? stop) | None => false end.

Definition range_overlaps (a b : MemoryRange) : bool :=
  if negb (Nat.eqb (r_memory a) (r_memory b)) then false
  else if range_empty (r_bytes a) || range_empty (r_bytes b) then false
  else
    match r_bytes a, r_bytes b with
    | Some (a_start, a_end), Some (b_start, b_end) =>
        if bool_decide (r_base a = r_base b) then (a_start <? b_end) && (b_start <? a_end) else true
    | _, _ => true
    end.

(** A caller knows neither the local bases of its callee nor what they hold. *)
Definition for_caller (r : MemoryRange) : MemoryRange :=
  match r_base r with
  | Some _ => mkMemoryRange (r_memory r) None (if range_empty (r_bytes r) then r_bytes r else None)
  | None => r
  end.

(** ** effects.rs *)

(** [R] holds owned or borrowed ranges: a list. *)
Inductive Effects : Type :=
| Unknown
| Known (reads writes : list MemoryRange) (synchronizes : bool).

Definition must_execute (e : Effects) : bool :=
  match e with
  | Unknown => true
  | Known _ writes synchronizes => synchronizes || negb (bool_decide (writes = []))
  end.

Definition effects_block_read (writer reader : Effects) : bool :=
  match reader with
  | Unknown => true
  | Known reads _ _ =>
      match reads with
      | [] => false
      | _ =>
          match writer with
          | Unknown => true
          | Known _ writes synchronizes =>
              synchronizes || existsb (fun write => existsb (fun read => range_overlaps write read) reads) writes
          end
      end
  end.

(** ** effects/operations.rs *)

Definition direct (o : Operation) (g : FunctionGraph) : option Effects :=
  match kind o with
  | OpLoad _ =>
      location ← op_location o; location ← location;
      range ← from_location location g;
      Some (Known [range] [] false)
  | OpStore _ =>
      location ← op_location o; location ← location;
      range ← from_location location g;
      Some (Known [] [range] false)
  | OpMemoryFill memory =>
      match op_inputs o with
      | destination :: rest =>
          bytes ← last rest;
          range ← from_span memory destination bytes g;
          Some (Known [] [range] false)
      | [] => None
      end
  | OpMemoryCopy destination_memory source_memory =>
      match op_inputs o with
      | destination :: source :: bytes :: _ =>
          read ← from_span source_memory source bytes g;
          write ← from_span destination_memory destination bytes g;
          Some (Known [read] [write] false)
      | _ => None
      end
  | OpAtomic _ _ | OpFence => Some (Known [] [] true)
  | OpCall _ => None
  end.

Definition describe (o : Operation) (g : FunctionGraph) (summaries : list Effects) : option Effects :=
  match kind o with
  | OpCall target => summaries !! target
  | _ => direct o g
  end.

(** ** effects.rs: summaries *)

Definition observable (o : Operation) (summaries : list Effects) : option bool :=
  match kind o with
  | OpLoad _ => Some false
  | OpCall target => must_execute <$> summaries !! target
  | _ => Some true
  end.

Definition blocks_read (writer reader : Operation) (g : FunctionGraph) (summaries : list Effects) : option bool :=
  visible ← observable writer summaries;
  if negb visible then Some false
  else
    writer ← describe writer g summaries;
    reader ← describe reader g summaries;
    Some (effects_block_read writer reader).

Definition include_one (target : list MemoryRange) (r : MemoryRange) : list MemoryRange :=
  let r := for_caller r in if bool_decide (r ∈ target) then target else target ++ [r].

Definition include (target ranges : list MemoryRange) : list MemoryRange := foldl include_one target ranges.

Record Summary := mkSummary { s_reads : list MemoryRange; s_writes : list MemoryRange; s_callees : list nat; s_synchronizes : bool }.

Fixpoint summarize_items (g : FunctionGraph) (items : list BlockItem) (s : Summary) : option Summary :=
  match items with
  | [] => Some s
  | Evaluate _ :: items => summarize_items g items s
  | Effect effect :: items =>
      e ← effects g !! effect;
      match kind (operation e) with
      | OpCall target =>
          summarize_items g items (mkSummary (s_reads s) (s_writes s) (s_callees s ++ [target]) (s_synchronizes s))
      | _ =>
          d ← direct (operation e) g;
          match d with
          | Known reads writes synchronizes =>
              summarize_items g items (mkSummary (include (s_reads s) reads) (include (s_writes s) writes) (s_callees s)
                (s_synchronizes s || synchronizes))
          | Unknown => None
          end
      end
  end.

(** [inr tt] is the early return at an indirect tail call. *)
Fixpoint summarize_blocks (g : FunctionGraph) (reachable : list bool) (bs : list Block) (s : Summary) : option (Summary + unit) :=
  match bs with
  | [] => Some (inl s)
  | b :: bs =>
      match reachable with
      | [] => None
      | false :: reachable => summarize_blocks g reachable bs s
      | true :: reachable =>
          s ← summarize_items g (items b) s;
          match exit b with
          | TailCallIndirect _ _ _ => Some (inr tt)
          | TailCall target _ =>
              summarize_blocks g reachable bs (mkSummary (s_reads s) (s_writes s) (s_callees s ++ [target]) (s_synchronizes s))
          | _ => summarize_blocks g reachable bs s
          end
      end
  end.

(** [Some None] is an unresolved callee. *)
Fixpoint summarize_callees (summaries : list (option Effects)) (callees : list nat) (s : Summary) : option (option Effects) :=
  match callees with
  | [] => Some (Some (Known (s_reads s) (s_writes s) (s_synchronizes s)))
  | callee :: callees =>
      summary ← summaries !! callee;
      match summary with
      | None => Some None
      | Some Unknown => Some (Some Unknown)
      | Some (Known reads writes synchronizes) =>
          summarize_callees summaries callees
            (mkSummary (include (s_reads s) reads) (include (s_writes s) writes) [] (s_synchronizes s || synchronizes))
      end
  end.

Definition summarize (g : FunctionGraph) (summaries : list (option Effects)) : option (option Effects) :=
  seen ← reachable g;
  s ← summarize_blocks g seen (blocks g) (mkSummary [] [] [] false);
  match s with
  | inr _ => Some (Some Unknown)
  | inl s => summarize_callees summaries (s_callees s) s
  end.

(** The functions of a program, with the bodies of the built ones. *)
Definition Functions := list (option FunctionGraph).

Fixpoint infer_pass (functions : Functions) (id : nat) (summaries : list (option Effects)) (changed : bool)
    : option (list (option Effects) * bool) :=
  match functions with
  | [] => Some (summaries, changed)
  | function :: functions =>
      known ← summaries !! id;
      match known with
      | Some _ => infer_pass functions (S id) summaries changed
      | None =>
          g ← function;
          summary ← summarize g summaries;
          match summary with
          | Some summary => infer_pass functions (S id) (<[id := Some summary]> summaries) true
          | None => infer_pass functions (S id) summaries changed
          end
      end
  end.

Definition infer_step (functions : Functions) (summaries : list (option Effects)) : list (option Effects) + option (list (option Effects)) :=
  match infer_pass functions 0 summaries false with
  | Some (summaries, true) => inl summaries
  | Some (summaries, false) => inr (Some summaries)
  | None => inr None
  end.

(** Every round but the last resolves a function. *)
Definition effects_infer (functions : Functions) : option (list Effects) :=
  let start := (fun function : option FunctionGraph => match function with Some _ => None | None => Some Unknown end) <$> functions in
  match repeat_times (infer_step functions) (2 + length functions) start with
  | inr (Some summaries) => Some (default Unknown <$> summaries)
  | _ => None
  end.
