(* ===== verification/EffectsTheorems.v ===== *)
(** * Memory footprints: the main statements

    What placement relies on when it keeps, moves or removes operations by their
    footprints. The witness is a program with a callee of a known footprint, as in
    place/effects/tests.rs. *)

From S2P Require Import Prelude Bytes Types Floating Expr Evaluate Values Model Carrier Bounds Table Valuations Graph GraphRun Prune PruneLive Effects GraphCheck.
Local Open Scope Z_scope.

(** * Summaries cover what functions do

    [may_do] says which bytes a function may read or write and whether it may
    synchronize, through any calls. The inferred summaries allow all of it, and an
    operation that does not block a read leaves the bytes it reads alone. *)

(** ** What operations do *)

Inductive Access : Set :=
| Read (memory : nat) (address : Z)
| Write (memory : nat) (address : Z)
| Sync.

(** Bytes [from] to [from + bytes] of a memory. *)
Definition span_of (memory : nat) (from bytes : Z) (m : nat) (a : Z) : Prop := m = memory /\ from <= a < from + bytes.

(** The accesses of an operation that is not a call, at the address in its first
    input plus its offset, without wrapping. An atomic operation orders all others. *)
Definition performs (rho : Valuation) (o : Operation) (x : Access) : Prop :=
  match kind o, op_inputs o with
  | OpLoad access, address :: _ =>
      match x with Read m a => span_of (a_memory access) (low (rho address) + a_offset access) (a_bytes access) m a | _ => False end
  | OpStore access, address :: _ =>
      match x with Write m a => span_of (a_memory access) (low (rho address) + a_offset access) (a_bytes access) m a | _ => False end
  | OpMemoryFill memory, [destination; _; bytes] =>
      match x with Write m a => span_of memory (low (rho destination)) (low (rho bytes)) m a | _ => False end
  | OpMemoryCopy destination_memory source_memory, [destination; source; bytes] =>
      match x with
      | Read m a => span_of source_memory (low (rho source)) (low (rho bytes)) m a
      | Write m a => span_of destination_memory (low (rho destination)) (low (rho bytes)) m a
      | Sync => False
      end
  | OpAtomic _ _, _ | OpFence, _ => True
  | _, _ => False
  end.

Definition arity_ok (o : Operation) : Prop :=
  match kind o with
  | OpLoad _ => length (op_inputs o) = 1%nat
  | OpStore _ => length (op_inputs o) = 2%nat
  | OpMemoryFill _ | OpMemoryCopy _ _ => length (op_inputs o) = 3%nat
  | OpAtomic _ _ | OpCall _ | OpFence => True
  end.

(** ** Ranges *)

Definition base_address (rho : Valuation) (base : option nat) : Z := match base with Some b => low (rho b) | None => 0 end.

Definition in_range (rho : Valuation) (r : MemoryRange) (m : nat) (a : Z) : Prop :=
  m = r_memory r /\ match r_bytes r with
    | Some (start, stop) => base_address rho (r_base r) + start <= a < base_address rho (r_base r) + stop
    | None => True
    end.

Lemma range_overlaps_sound rho a b m x : range_overlaps a b = false -> in_range rho a m x -> in_range rho b m x -> False.
Proof.
  unfold range_overlaps, in_range, range_empty. intros H [-> Ha] [Hm Hb]. rewrite Hm, Nat.eqb_refl in H. cbn [negb] in H.
  destruct (r_bytes a) as [[s e]|], (r_bytes b) as [[s' e']|]; cbn in H; try done.
  - destruct (Z.ltb_spec s e), (Z.ltb_spec s' e'); cbn in H; try lia.
    case_bool_decide as Hbase; [|done]. rewrite Hbase in *. lia.
  - destruct (Z.ltb_spec s e); cbn in H; [done|lia].
  - destruct (Z.ltb_spec s' e'); cbn in H; [done|lia].
Qed.

Lemma for_caller_sound rho rho' r m a : in_range rho r m a -> in_range rho' (for_caller r) m a.
Proof.
  unfold for_caller, in_range, range_empty. intros [-> H]. destruct (r_base r) as [b|] eqn:Hb; cbn; rewrite ?Hb; split; try done.
  destruct (r_bytes r) as [[s e]|]; [|done]. cbn. destruct (Z.ltb_spec s e); [done|lia].
Qed.

Definition ownerless (l : list MemoryRange) : Prop := Forall (fun r => r_base r = None) l.

Lemma for_caller_ownerless r : r_base (for_caller r) = None.
Proof. unfold for_caller. destruct (r_base r) eqn:H; done. Qed.

(** Some range of the list has the byte. *)
Definition covers_byte (rho : Valuation) (l : list MemoryRange) (m : nat) (a : Z) : Prop := exists r, r ∈ l /\ in_range rho r m a.

Lemma include_sound rho rho' target ranges m a : covers_byte rho' target m a \/ covers_byte rho ranges m a ->
  covers_byte rho' (include target ranges) m a.
Proof.
  unfold include. revert target. induction ranges as [|r ranges IH]; intros target H; cbn [foldl].
  - destruct H as [H|(r & []%elem_of_nil & _)]. done.
  - apply IH. unfold include_one. destruct H as [(q & Hq & Hin)|(q & [->|Hq]%elem_of_cons & Hin)].
    + left. exists q. case_bool_decide; set_solver.
    + left. exists (for_caller r). split; [case_bool_decide; set_solver|by eapply for_caller_sound].
    + right. by exists q.
Qed.

(** *** The range of an access *)

Lemma scalar_at_low t rho id z : wf t -> model t rho -> scalar_at t id = Some (Some z) -> low (rho id) = z.
Proof.
  intros Hwf Hm (v & Hv & Hs)%fmap_Some. unfold scalar_literal in Hs. destruct (definition v) as [l| | |] eqn:Hd; try done.
  assert (rho id = l) as -> by (apply (m_determined t rho Hm id v l Hv); unfold determined; by rewrite Hd).
  unfold scalar in Hs. by destruct (is_scalar (ty v)); simplify_eq.
Qed.

Lemma representation_low t rho id r : wf t -> model t rho -> representation t id = Some r -> low (rho r) = low (rho id).
Proof.
  intros Hwf Hm Hr. destruct (type_at t id) as [tx|] eqn:Hx.
  - destruct (representation_spec t id tx Hwf Hx) as (r' & Hr' & Hrep). rewrite Hr in Hr'. injection Hr' as <-. by rewrite (rep_value _ _ _ _ Hrep).
  - unfold representation in Hr. cbn [representation_loop] in Hr. unfold type_at, value_at in *. by destruct (values t !! id).
Qed.

Lemma range_new_sound g rho memory base offset bytes r m a : wf (table g) -> model (table g) rho ->
  range_new memory base offset bytes g = Some r -> m = memory ->
  match bytes with Some n => low (rho base) + offset <= a < low (rho base) + offset + n | None => True end -> in_range rho r m a.
Proof.
  intros Hwf Hm Hr -> Ha. unfold range_new in Hr. apply bind_Some in Hr as (b & Hb & Hr). apply bind_Some in Hr as (lit & Hl & Hr).
  pose proof (representation_low _ rho base b Hwf Hm Hb) as Hlow. unfold in_range.
  destruct lit as [z|]; injection Hr as <-; cbn; (split; [done|]); destruct bytes as [n|]; cbn; try done.
  - rewrite (scalar_at_low _ rho b z Hwf Hm Hl) in Hlow. lia.
  - lia.
Qed.

Lemma from_span_sound g rho memory base bytes r m a : wf (table g) -> model (table g) rho ->
  from_span memory base bytes g = Some r -> span_of memory (low (rho base)) (low (rho bytes)) m a -> in_range rho r m a.
Proof.
  intros Hwf Hm Hr [-> Ha]. unfold from_span in Hr. apply bind_Some in Hr as (b & Hb & Hr). apply bind_Some in Hr as (n & Hn & Hr).
  pose proof (representation_low _ rho bytes b Hwf Hm Hb) as Hlow. eapply range_new_sound; [done|done|exact Hr|done|].
  destruct n as [n|]; [|done]. rewrite (scalar_at_low _ rho b n Hwf Hm Hn) in Hlow. lia.
Qed.

(** ** Effects *)

(** What a description permits: everything, once it synchronizes. *)
Definition allows (rho : Valuation) (e : Effects) (x : Access) : Prop :=
  match e with
  | Unknown => True
  | Known reads writes synchronizes =>
      synchronizes = true \/
      match x with Read m a => covers_byte rho reads m a | Write m a => covers_byte rho writes m a | Sync => False end
  end.

Lemma direct_sound g rho o e x : wf (table g) -> model (table g) rho -> direct o g = Some e -> performs rho o x -> allows rho e x.
Proof.
  intros Hwf Hm He Hx. unfold direct, performs in *.
  destruct (kind o) as [access|access|memory|dm sm|target|access k|] eqn:Hk; try done.
  - unfold op_location in He. rewrite Hk in He. destruct (op_inputs o) as [|address rest]; [done|]. cbn [head mbind option_bind] in He.
    apply bind_Some in He as (r & Hr & [= <-]). destruct x as [m a| |]; try done. destruct Hx as [-> Ha]. right.
    exists r. split; [left|]. eapply range_new_sound; [done|done|exact Hr|done|exact Ha].
  - unfold op_location in He. rewrite Hk in He. destruct (op_inputs o) as [|address rest]; [done|]. cbn [head mbind option_bind] in He.
    apply bind_Some in He as (r & Hr & [= <-]). destruct x as [|m a|]; try done. destruct Hx as [-> Ha]. right.
    exists r. split; [left|]. eapply range_new_sound; [done|done|exact Hr|done|exact Ha].
  - destruct (op_inputs o) as [|d [|v [|n [|]]]]; try done. cbn [last mbind option_bind] in He. apply bind_Some in He as (r & Hr & [= <-]).
    destruct x as [|m a|]; try done. right. exists r. split; [left|by eapply from_span_sound].
  - destruct (op_inputs o) as [|d [|s [|n [|]]]]; try done. apply bind_Some in He as (r & Hr & He). apply bind_Some in He as (w & Hw & [= <-]).
    destruct x as [m a|m a|]; try done; right; [exists r|exists w]; (split; [left|by eapply from_span_sound]).
  - injection He as <-. by left.
  - injection He as <-. by left.
Qed.

(** The summary being built permits. *)
Definition s_allows (rho : Valuation) (s : Summary) (x : Access) : Prop := allows rho (Known (s_reads s) (s_writes s) (s_synchronizes s)) x.

(** One summary permits what another does, and names its callees. *)
Definition grows_to (s s' : Summary) : Prop :=
  (forall rho x, s_allows rho s x -> s_allows rho s' x) /\ forall callee, callee ∈ s_callees s -> callee ∈ s_callees s'.

#[export] Instance grows_preorder : PreOrder grows_to.
Proof. split; [by split|]. intros s1 s2 s3 [H1 H2] [H3 H4]. split; eauto. Qed.

Definition absorb (s : Summary) (reads writes : list MemoryRange) (synchronizes : bool) (callees : list nat) : Summary :=
  mkSummary (include (s_reads s) reads) (include (s_writes s) writes) callees (s_synchronizes s || synchronizes).

Lemma absorb_allows rho rho' s reads writes synchronizes callees x :
  s_allows rho' s x \/ allows rho (Known reads writes synchronizes) x -> s_allows rho' (absorb s reads writes synchronizes callees) x.
Proof.
  unfold s_allows, allows, absorb. cbn. rewrite orb_true_iff. intros [[H|H]|[H|H]]; [by auto| |by auto|].
  - destruct x as [m a|m a|]; [right; apply (include_sound rho); by left|right; apply (include_sound rho); by left|done].
  - destruct x as [m a|m a|]; [right; eapply include_sound; by right|right; eapply include_sound; by right|done].
Qed.

(** ** Functions *)

(** A function that is not built may do anything, as may an indirect call. *)
Inductive may_do (functions : Functions) : nat -> Access -> Prop :=
| may_unbuilt f x : functions !! f = Some None -> may_do functions f x
| may_perform f g a b effect e rho x seen : functions !! f = Some (Some g) -> reachable g = Some seen -> seen !! a = Some true ->
    blocks g !! a = Some b -> Effect effect ∈ items b -> effects g !! effect = Some e ->
    model (table g) rho -> performs rho (operation e) x -> may_do functions f x
| may_call f g a b effect e target x seen : functions !! f = Some (Some g) -> reachable g = Some seen -> seen !! a = Some true ->
    blocks g !! a = Some b -> Effect effect ∈ items b -> effects g !! effect = Some e ->
    kind (operation e) = OpCall target -> may_do functions target x -> may_do functions f x
| may_tail_call f g a b target arguments x seen : functions !! f = Some (Some g) -> reachable g = Some seen -> seen !! a = Some true ->
    blocks g !! a = Some b -> exit b = TailCall target arguments -> may_do functions target x -> may_do functions f x
| may_tail_call_indirect f g a b table slot arguments x seen : functions !! f = Some (Some g) -> reachable g = Some seen ->
    seen !! a = Some true -> blocks g !! a = Some b -> exit b = TailCallIndirect table slot arguments -> may_do functions f x.

(** Bodies are well formed, operations have their inputs and calls name functions. *)
Record function_ok (n : nat) (g : FunctionGraph) : Prop := {
  fn_wf : graph_wf g;
  fn_arity : forall effect e, effects g !! effect = Some e -> arity_ok (operation e);
  fn_call : forall effect e target, effects g !! effect = Some e -> kind (operation e) = OpCall target -> (target < n)%nat;
  fn_tail : forall a b target arguments, blocks g !! a = Some b -> exit b = TailCall target arguments -> (target < n)%nat;
}.

Lemma representation_some t id : wf t -> (id < length (values t))%nat -> exists r, representation t id = Some r /\ (r < length (values t))%nat.
Proof.
  intros Hwf [v Hv]%lookup_lt_is_Some_2. destruct (representation_spec t id (ty v) Hwf) as (r & Hr & Hrep); [by apply type_at_value|].
  exists r. split; [done|]. apply lookup_lt_Some in Hv. pose proof (rep_le _ _ _ _ Hrep). lia.
Qed.

Lemma range_new_some g memory base offset bytes : wf (table g) -> (base < length (values (table g)))%nat ->
  exists r, range_new memory base offset bytes g = Some r.
Proof.
  intros Hwf Hb. unfold range_new. destruct (representation_some _ base Hwf Hb) as (r & -> & Hr). cbn [mbind option_bind].
  destruct (scalar_some _ _ Hr) as [o ->]. cbn [mbind option_bind]. destruct o; by eexists.
Qed.

Lemma from_span_some g memory base bytes : wf (table g) -> (base < length (values (table g)))%nat -> (bytes < length (values (table g)))%nat ->
  exists r, from_span memory base bytes g = Some r.
Proof.
  intros Hwf Hb Hn. unfold from_span. destruct (representation_some _ bytes Hwf Hn) as (r & -> & Hr). cbn [mbind option_bind].
  destruct (scalar_some _ _ Hr) as [o ->]. by apply range_new_some.
Qed.

Lemma direct_some g o : wf (table g) -> arity_ok o -> Forall (fun id => id < length (values (table g)))%nat (op_inputs o) ->
  (forall target, kind o <> OpCall target) -> exists reads writes synchronizes, direct o g = Some (Known reads writes synchronizes).
Proof.
  intros Hwf Ha Hin Hcall. unfold direct, arity_ok in *. destruct (kind o) as [access|access|memory|dm sm|target|access k|] eqn:Hk.
  - unfold op_location. rewrite Hk. destruct (op_inputs o) as [|address [|]]; try done. apply Forall_cons in Hin as [H _].
    cbn [head mbind option_bind]. unfold from_location. destruct (range_new_some g (l_memory (access_at access address)) address
      (l_offset (access_at access address)) (Some (l_bytes (access_at access address))) Hwf H) as [r Hr].
    cbn [l_base access_at] in *. rewrite Hr. by eexists _, _, _.
  - unfold op_location. rewrite Hk. destruct (op_inputs o) as [|address [|v [|]]]; try done. apply Forall_cons in Hin as [H _].
    cbn [head mbind option_bind]. unfold from_location. destruct (range_new_some g (l_memory (access_at access address)) address
      (l_offset (access_at access address)) (Some (l_bytes (access_at access address))) Hwf H) as [r Hr].
    cbn [l_base access_at] in *. rewrite Hr. by eexists _, _, _.
  - destruct (op_inputs o) as [|d [|v [|n [|]]]]; try done. rewrite !Forall_cons in Hin. destruct Hin as (Hd & _ & Hn & _).
    cbn [last mbind option_bind]. destruct (from_span_some g memory d n Hwf Hd Hn) as [r ->]. by eexists _, _, _.
  - destruct (op_inputs o) as [|d [|s [|n [|]]]]; try done. rewrite !Forall_cons in Hin. destruct Hin as (Hd & Hs & Hn & _).
    destruct (from_span_some g sm s n Hwf Hs Hn) as [r ->]. destruct (from_span_some g dm d n Hwf Hd Hn) as [w ->]. by eexists _, _, _.
  - by destruct (Hcall target).
  - by eexists _, _, _.
  - by eexists _, _, _.
Qed.

Section Summaries.
Context (n : nat) (g : FunctionGraph) (Hok : function_ok n g).
#[local] Set Default Proof Using "All".

(** The summary has the effect: its callee, or what it does. *)
Definition has_effect (s : Summary) (e : GraphEffect) : Prop :=
  match kind (operation e) with
  | OpCall target => target ∈ s_callees s
  | _ => forall rho rho' x, model (table g) rho -> performs rho (operation e) x -> s_allows rho' s x
  end.

Lemma has_effect_grows s s' e : grows_to s s' -> has_effect s e -> has_effect s' e.
Proof. intros [Ha Hc]. unfold has_effect. destruct (kind (operation e)); eauto. Qed.

Definition callees_in (s : Summary) : Prop := Forall (fun c => (c < n)%nat) (s_callees s).

Lemma summarize_items_some its s : (forall effect, Effect effect ∈ its -> exists e, effects g !! effect = Some e) -> callees_in s ->
  exists s', summarize_items g its s = Some s' /\ grows_to s s' /\ callees_in s' /\
    forall effect e, Effect effect ∈ its -> effects g !! effect = Some e -> has_effect s' e.
Proof.
  revert s. induction its as [|[effect|p] its IH]; intros s Hin Hcs; cbn [summarize_items].
  - exists s. split_and!; [done|done|done|]. by intros effect e []%elem_of_nil.
  - destruct (Hin effect ltac:(left)) as [e He]. rewrite He. cbn [mbind option_bind].
    assert (exists s1, grows_to s s1 /\ callees_in s1 /\ has_effect s1 e /\
      match kind (operation e) with
      | OpCall target => summarize_items g its (mkSummary (s_reads s) (s_writes s) (s_callees s ++ [target]) (s_synchronizes s))
      | _ =>
          d ← direct (operation e) g;
          match d with
          | Known reads writes synchronizes =>
              summarize_items g its (mkSummary (include (s_reads s) reads) (include (s_writes s) writes) (s_callees s)
                (s_synchronizes s || synchronizes))
          | Unknown => None
          end
      end = summarize_items g its s1) as (s1 & Hg & Hc1 & He1 & ->).
    { assert ((exists target, kind (operation e) = OpCall target) \/ forall target, kind (operation e) <> OpCall target) as [[target Hk]|Hn].
      { destruct (kind (operation e)); eauto; by right. }
      - exists (mkSummary (s_reads s) (s_writes s) (s_callees s ++ [target]) (s_synchronizes s)).
        unfold has_effect, callees_in. rewrite Hk. cbn. split_and!; [split; [done|set_solver]| |set_solver|done].
        apply Forall_app. split; [done|]. apply Forall_singleton. by eapply fn_call.
      - destruct (direct_some g (operation e)) as (r & w & y & Hd); [by apply (gw_table g), (fn_wf n g Hok)|by eapply fn_arity|
          by apply (gw_inputs g (fn_wf n g Hok) effect)|naive_solver|].
        exists (absorb s r w y (s_callees s)). split_and!.
        + split; [|done]. intros rho x Hx. apply (absorb_allows rho). by left.
        + done.
        + unfold has_effect. destruct (kind (operation e)) eqn:Hk; try (intros rho rho' x Hm Hp; apply (absorb_allows rho); right;
            eapply direct_sound; [by apply (gw_table g), (fn_wf n g Hok)|exact Hm|exact Hd|exact Hp]). naive_solver.
        + rewrite Hd. destruct (kind (operation e)) eqn:Hk; try done. naive_solver. }
    destruct (IH s1) as (s' & -> & Hg' & Hc' & Hall); [intros f Hf; apply Hin; by right|done|].
    exists s'. split_and!; [done|by etrans|done|]. intros f e' [Hf|Hf]%elem_of_cons He'; [|by eapply Hall].
    injection Hf as ->. simplify_eq. by eapply has_effect_grows.
  - destruct (IH s) as (s' & -> & Hg' & Hc' & Hall); [intros f Hf; apply Hin; by right|done|].
    exists s'. split_and!; [done|done|done|]. intros f e' [Hf|Hf]%elem_of_cons He'; [done|by eapply Hall].
Qed.

(** The summary has the block: its effects and its tail call. *)
Definition has_block (s : Summary) (b : Block) : Prop :=
  (forall effect e, Effect effect ∈ items b -> effects g !! effect = Some e -> has_effect s e) /\
  match exit b with TailCall target _ => target ∈ s_callees s | TailCallIndirect _ _ _ => False | _ => True end.

Lemma has_block_grows s s' b : grows_to s s' -> has_block s b -> has_block s' b.
Proof.
  intros Hg [He Hx]. split; [intros effect e H1 H2; eapply has_effect_grows; eauto|].
  destruct (exit b); try done. by apply Hg.
Qed.

Lemma summarize_blocks_some flags bs s : length flags = length bs ->
  (forall b, b ∈ bs -> exists a, blocks g !! a = Some b) -> callees_in s ->
  exists r, summarize_blocks g flags bs s = Some r /\
    forall s', r = inl s' -> grows_to s s' /\ callees_in s' /\ forall i b, bs !! i = Some b -> flags !! i = Some true -> has_block s' b.
Proof.
  revert flags s. induction bs as [|b bs IH]; intros [|flag flags] s Hlen Hbs Hcs; cbn [summarize_blocks]; try done.
  - eexists. split; [done|]. intros s' [= <-]. split_and!; done.
  - assert (forall b, b ∈ bs -> exists a, blocks g !! a = Some b) as Hbs' by (intros b' Hb'; apply Hbs; by right).
    injection Hlen as Hlen. destruct flag.
    2: { destruct (IH flags s Hlen Hbs' Hcs) as (r & -> & Hr). exists r. split; [done|]. intros s' Hs'.
      destruct (Hr s' Hs') as (H1 & H2 & H3). split_and!; [done|done|]. intros [|i] b' Hi Hf; [done|by eapply H3]. }
    destruct (Hbs b ltac:(left)) as [a Ha].
    destruct (summarize_items_some (items b) s) as (s1 & -> & Hg1 & Hc1 & He1); [intros effect Hin; exact (gw_items g (fn_wf n g Hok) a b _ Ha Hin)|done|].
    cbn [mbind option_bind].
    assert ((exists t sl l, exit b = TailCallIndirect t sl l) \/ ~ exists t sl l, exit b = TailCallIndirect t sl l) as [(t & sl & l & Hx)|Hni].
    { destruct (exit b); first [by left; eexists _, _, _|right; by intros (? & ? & ? & ?)]. }
    { rewrite Hx. eexists. split; [done|]. by intros s' ?. }
    assert (exists s2, grows_to s1 s2 /\ callees_in s2 /\ has_block s2 b /\
      match exit b with
      | TailCallIndirect _ _ _ => Some (inr tt)
      | TailCall target _ => summarize_blocks g flags bs (mkSummary (s_reads s1) (s_writes s1) (s_callees s1 ++ [target]) (s_synchronizes s1))
      | _ => summarize_blocks g flags bs s1
      end = summarize_blocks g flags bs s2) as (s2 & Hg2 & Hc2 & Hb2 & ->).
    { destruct (exit b) as [| | | | |target l| |] eqn:Hx;
        try (exists s1; split_and!; [done|done|split; [done|by rewrite Hx]|done]).
      - exists (mkSummary (s_reads s1) (s_writes s1) (s_callees s1 ++ [target]) (s_synchronizes s1)).
        assert (grows_to s1 (mkSummary (s_reads s1) (s_writes s1) (s_callees s1 ++ [target]) (s_synchronizes s1))) as Hg by (split; [done|set_solver]).
        split_and!; [done| |split; [intros effect e H1 H2; eapply has_effect_grows; eauto|rewrite Hx; set_solver]|done].
        apply Forall_app. split; [done|]. apply Forall_singleton. by eapply fn_tail.
      - naive_solver. }
    destruct (IH flags s2 Hlen Hbs' Hc2) as (r & -> & Hr). exists r. split; [done|]. intros s' Hs'.
    destruct (Hr s' Hs') as (H1 & H2 & H3). split_and!; [by etrans; [|etrans]|done|]. intros [|i] b' Hi Hf; [|by eapply H3].
    injection Hi as <-. by eapply has_block_grows.
Qed.
End Summaries.

(** ** Inference *)

(** Resolved summaries permit all their functions may do. *)
Definition permits (e : Effects) (functions : Functions) (f : nat) : Prop := forall rho x, may_do functions f x -> allows rho e x.

Definition sound (functions : Functions) (summaries : list (option Effects)) : Prop :=
  length summaries = length functions /\
  (forall f, functions !! f = Some None -> summaries !! f = Some (Some Unknown)) /\
  forall f e, summaries !! f = Some (Some e) -> permits e functions f.

Lemma summarize_callees_some functions summaries callees s : sound functions summaries ->
  Forall (fun c => (c < length functions)%nat) callees ->
  exists r, summarize_callees summaries callees s = Some r /\
    forall e, r = Some e -> (forall rho x, s_allows rho s x -> allows rho e x) /\ forall c, c ∈ callees -> permits e functions c.
Proof.
  intros Hs. revert s. induction callees as [|c callees IH]; intros s Hc; cbn [summarize_callees].
  - eexists. split; [done|]. intros e [= <-]. split; [done|]. by intros c []%elem_of_nil.
  - apply Forall_cons in Hc as [Hlt Hc]. destruct (lookup_lt_is_Some_2 summaries c) as [o Ho]; [by rewrite (proj1 Hs)|].
    rewrite Ho. cbn [mbind option_bind]. destruct o as [[|r w y]|].
    + eexists. split; [done|]. intros e [= <-]. split; [done|]. by intros c' _ rho x _.
    + destruct (IH (absorb s r w y []) Hc) as (res & Hres & Hall). exists res. split; [exact Hres|]. intros e He.
      destruct (Hall e He) as [H1 H2]. split.
      * intros rho x Hx. apply H1, (absorb_allows rho). by left.
      * intros c' [->|Hc']%elem_of_cons; [|by apply H2]. intros rho x Hx. apply H1, (absorb_allows rho). right.
        by apply (proj2 (proj2 Hs) c _ Ho).
    + by eexists.
Qed.

Lemma summarize_some functions summaries f g : sound functions summaries -> functions !! f = Some (Some g) ->
  function_ok (length functions) g ->
  exists r, summarize g summaries = Some r /\ forall e, r = Some e -> permits e functions f.
Proof.
  intros Hs Hf Hok. unfold summarize.
  destruct (reachable_found g (graph_exits_ok g (fn_wf _ g Hok))) as (seen & Hseen & Hlen & _). rewrite Hseen. cbn [mbind option_bind].
  destruct (summarize_blocks_some (length functions) g Hok seen (blocks g) (mkSummary [] [] [] false) Hlen) as (r & -> & Hr); [|apply Forall_nil_2|].
  { intros b (a & Hb)%list_elem_of_lookup. by exists a. }
  cbn [mbind option_bind]. destruct r as [s|[]].
  2: { eexists. split; [done|]. intros e [= <-]. by intros rho x _. }
  destruct (Hr s eq_refl) as (_ & Hc & Hblocks).
  destruct (summarize_callees_some functions summaries (s_callees s) s Hs Hc) as (r & Hres & Hall). exists r. split; [exact Hres|].
  intros e He rho x Hx. destruct (Hall e He) as [H1 H2].
  inversion Hx as [|? g0 a b effect ef rho0 ? seen0 Hf' Hr' Ha Hb Hin Hef Hm Hp|? g0 a b effect ef target ? seen0 Hf' Hr' Ha Hb Hin Hef Hk Ht
    |? g0 a b target l ? seen0 Hf' Hr' Ha Hb Hex Ht|? g0 a b tb sl l ? seen0 Hf' Hr' Ha Hb Hex]; subst; try congruence.
  all: rewrite Hf in Hf'; injection Hf' as <-; rewrite Hseen in Hr'; injection Hr' as <-; destruct (Hblocks a b Hb Ha) as [Hitems Hexit].
  - specialize (Hitems effect ef Hin Hef). unfold has_effect in Hitems.
    destruct (kind (operation ef)) eqn:Hk; try (apply H1; by eapply Hitems).
    unfold performs in Hp. by rewrite Hk in Hp.
  - specialize (Hitems effect ef Hin Hef). unfold has_effect in Hitems. rewrite Hk in Hitems. by apply (H2 target).
  - rewrite Hex in Hexit. by apply (H2 target).
  - by rewrite Hex in Hexit.
Qed.

(** The functions that are not resolved. *)
Fixpoint unresolved (summaries : list (option Effects)) : nat :=
  match summaries with [] => 0 | None :: l => S (unresolved l) | Some _ :: l => unresolved l end.

Lemma unresolved_insert summaries f e : summaries !! f = Some None -> unresolved summaries = S (unresolved (<[f := Some e]> summaries)).
Proof.
  revert f. induction summaries as [|o l IH]; intros [|f] H; cbn in *; try done.
  - by injection H as ->.
  - rewrite (IH f H). by destruct o.
Qed.

Lemma unresolved_length summaries : (unresolved summaries <= length summaries)%nat.
Proof. induction summaries as [|[]]; cbn; lia. Qed.

Lemma sound_insert functions summaries f e : sound functions summaries -> summaries !! f = Some None -> permits e functions f ->
  sound functions (<[f := Some e]> summaries).
Proof.
  intros (Hlen & Hun & Hs) Hf He. split_and!; [by rewrite length_insert| |].
  - intros h Hh. specialize (Hun h Hh). rewrite list_lookup_insert_ne; [done|congruence].
  - intros h eh. destruct (decide (h = f)) as [->|].
    + rewrite list_lookup_insert_eq by (by eapply lookup_lt_Some). by intros [= <-].
    + rewrite list_lookup_insert_ne by done. apply Hs.
Qed.

Definition functions_ok (functions : Functions) : Prop := forall f g, functions !! f = Some (Some g) -> function_ok (length functions) g.

Lemma infer_pass_some functions rest id summaries changed : functions_ok functions -> sound functions summaries ->
  (forall i function, rest !! i = Some function -> functions !! (id + i)%nat = Some function) ->
  exists summaries' changed', infer_pass rest id summaries changed = Some (summaries', changed') /\ sound functions summaries' /\
    (if changed' then changed = true \/ (unresolved summaries' < unresolved summaries)%nat else True) /\
    (unresolved summaries' <= unresolved summaries)%nat.
Proof.
  intros Hok. revert id summaries changed. induction rest as [|function rest IH]; intros id summaries changed Hs Hrest; cbn [infer_pass].
  - exists summaries, changed. split_and!; [done|done|destruct changed; auto|done].
  - assert (forall i function, rest !! i = Some function -> functions !! (S id + i)%nat = Some function) as Hrest'.
    { intros i fn Hi. rewrite <- (Hrest (S i) fn Hi). f_equal. lia. }
    pose proof (Hrest 0%nat function eq_refl) as Hf. rewrite Nat.add_0_r in Hf.
    destruct (lookup_lt_is_Some_2 summaries id) as [known Hk]; [rewrite (proj1 Hs); by eapply lookup_lt_Some|].
    rewrite Hk. cbn [mbind option_bind]. destruct known as [e|]; [by apply IH|].
    destruct function as [g|].
    2: { pose proof (proj1 (proj2 Hs) id Hf) as H. congruence. }
    cbn [mbind option_bind]. destruct (summarize_some functions summaries id g Hs Hf (Hok id g Hf)) as (r & -> & Hr). cbn [mbind option_bind].
    destruct r as [e|]; [|by apply IH].
    destruct (IH (S id) (<[id := Some e]> summaries) true) as (l & c & -> & Hsl & Hc & Hle); [apply sound_insert; [done|done|exact (Hr e eq_refl)]|exact Hrest'|].
    pose proof (unresolved_insert summaries id e Hk) as Hu. exists l, c. split_and!; [done|done| |lia].
    destruct c; [right; lia|done].
Qed.

Lemma effects_infer_some functions : functions_ok functions ->
  exists summaries, effects_infer functions = Some summaries /\ length summaries = length functions /\
    forall f e, summaries !! f = Some e -> permits e functions f.
Proof.
  intros Hok. unfold effects_infer.
  edestruct (repeat_times_measure (infer_step functions) (sound functions)
    (fun r => exists l, r = Some l /\ sound functions l) unresolved) as (r & -> & (l & -> & Hlen & _ & Hs)); [| | |].
  - intros s Hs. unfold infer_step. destruct (infer_pass_some functions functions 0 s false Hok Hs) as (l & c & -> & Hsl & Hc & Hle); [done|].
    destruct c; [|by exists l]. split; [done|]. destruct Hc as [?|?]; [done|lia].
  - split_and!; [by rewrite length_fmap| |].
    + intros f Hf. rewrite list_lookup_fmap. exact (f_equal (fmap _) Hf).
    + intros f e. rewrite list_lookup_fmap. intros (fn & _ & He)%fmap_Some. destruct fn; [done|]. injection He as ->. by intros rho x _.
  - pose proof (unresolved_length ((fun function : option FunctionGraph => match function with Some _ => None | None => Some Unknown end) <$> functions)) as H.
    rewrite length_fmap in H. lia.
  - eexists. split; [done|]. split; [by rewrite length_fmap|]. intros f e. rewrite list_lookup_fmap.
    intros (o & Ho & ->)%fmap_Some. destruct o as [e|]; [by apply Hs|]. by intros rho x _.
Qed.

(** What an operation of a body may do, through calls too. *)
Definition op_may (functions : Functions) (rho : Valuation) (o : Operation) (x : Access) : Prop :=
  match kind o with OpCall target => may_do functions target x | _ => performs rho o x end.

Section Operations.
Context (functions : Functions) (Hfns : functions_ok functions) (f : nat) (g : FunctionGraph) (Hf : functions !! f = Some (Some g)).
Context (summaries : list Effects) (Hlen : length summaries = length functions).
Context (Hpermits : forall f e, summaries !! f = Some e -> permits e functions f).
#[local] Set Default Proof Using "All".

Definition in_body (o : Operation) : Prop := exists effect e, effects g !! effect = Some e /\ operation e = o.

Lemma summary_of o target : in_body o -> kind o = OpCall target -> exists e, summaries !! target = Some e.
Proof.
  intros (effect & e & He & <-) Hk. apply lookup_lt_is_Some_2. rewrite Hlen. by eapply (fn_call _ _ (Hfns f g Hf)).
Qed.

Lemma describe_sound o : in_body o -> exists e, describe o g summaries = Some e /\
  forall rho x, model (table g) rho -> op_may functions rho o x -> allows rho e x.
Proof.
  intros Ho. pose proof (Hfns f g Hf) as Hok. unfold describe, op_may.
  assert ((exists target, kind o = OpCall target) \/ forall target, kind o <> OpCall target) as [[target Hk]|Hn].
  { destruct (kind o); eauto; by right. }
  - rewrite Hk. destruct (summary_of o target Ho Hk) as [e He]. exists e. split; [done|]. intros rho x _. by apply Hpermits.
  - destruct Ho as (effect & e & He & <-). destruct (direct_some g (operation e)) as (r & w & y & Hd);
      [apply (gw_table g), (fn_wf _ _ Hok)|by eapply fn_arity|by apply (gw_inputs g (fn_wf _ _ Hok) effect)|done|].
    exists (Known r w y). split; [destruct (kind (operation e)); by try destruct (Hn target)|].
    intros rho x Hm Hx. eapply direct_sound; [apply (gw_table g), (fn_wf _ _ Hok)|exact Hm|exact Hd|].
    destruct (kind (operation e)); try done. by destruct (Hn target).
Qed.

(** An operation that is not observable is described by its reads alone. *)
Lemma observable_reads o : in_body o -> exists visible, observable o summaries = Some visible /\
  (visible = false -> exists reads, describe o g summaries = Some (Known reads [] false)).
Proof.
  intros Ho. destruct (describe_sound o Ho) as (d & Hd & _). unfold observable, describe, direct in *.
  destruct (kind o) as [access|access|memory|dm sm|target|access k|] eqn:Hk; try (by exists true).
  - exists false. split; [done|]. intros _. destruct (op_location o) as [[l|]|]; try done. cbn [mbind option_bind] in *.
    destruct (from_location l g) as [r|]; [|done]. by exists [r].
  - destruct (summary_of o target Ho Hk) as [e He]. rewrite He. exists (must_execute e). split; [done|].
    destruct e as [|r [|w ws] [|]]; try done. by exists r.
Qed.

Lemma reads_only reads o : in_body o -> describe o g summaries = Some (Known reads [] false) ->
  forall rho x, model (table g) rho -> op_may functions rho o x -> exists m a, x = Read m a /\ covers_byte rho reads m a.
Proof.
  intros Ho Hd rho x Hm Hx. destruct (describe_sound o Ho) as (d & Hd' & Hallows). rewrite Hd in Hd'. injection Hd' as <-.
  destruct (Hallows rho x Hm Hx) as [?|H]; [done|]. destruct x as [m a|m a|]; [by exists m, a| |done].
  by destruct H as (q & []%elem_of_nil & _).
Qed.
End Operations.

(** ** A sample program: a callee that writes four bytes, an import, and a caller *)

Definition arity_checked (o : Operation) : bool :=
  match kind o with
  | OpLoad _ => Nat.eqb (length (op_inputs o)) 1
  | OpStore _ => Nat.eqb (length (op_inputs o)) 2
  | OpMemoryFill _ | OpMemoryCopy _ _ => Nat.eqb (length (op_inputs o)) 3
  | OpAtomic _ _ | OpCall _ | OpFence => true
  end.

Definition calls_checked (n : nat) (k : OperationKind) : bool := match k with OpCall target => Nat.ltb target n | _ => true end.

Definition function_checked (n : nat) (g : FunctionGraph) : bool :=
  graph_checked g && forallb (fun e => arity_checked (operation e) && calls_checked n (kind (operation e))) (effects g) &&
  forallb (fun b => match exit b with TailCall target _ => Nat.ltb target n | _ => true end) (blocks g).

Lemma function_checked_ok n g : wf (table g) -> function_checked n g = true -> function_ok n g.
Proof.
  intros Hwf. unfold function_checked. rewrite !andb_true_iff, !forallb_forall. intros [[Hg He] Hb].
  assert (forall effect e, effects g !! effect = Some e -> arity_checked (operation e) && calls_checked n (kind (operation e)) = true) as He'.
  { intros effect e Hx. by eapply He, list_elem_of_In, list_elem_of_lookup_2. }
  split.
  - by apply graph_checked_wf.
  - intros effect e [Ha _]%He'%andb_true_iff. unfold arity_checked, arity_ok in *. destruct (kind (operation e)); try done; by apply Nat.eqb_eq.
  - intros effect e target [_ Hc]%He'%andb_true_iff Hk. rewrite Hk in Hc. by apply Nat.ltb_lt.
  - intros a b target l Hx Hex. specialize (Hb b ltac:(by eapply list_elem_of_In, list_elem_of_lookup_2)). rewrite Hex in Hb. by apply Nat.ltb_lt.
Qed.

Definition callee_values : list Value := [mkValue I32 (DLiteral (lit 12)); mkValue I32 (DLiteral (lit 7))].
Definition callee : FunctionGraph :=
  mkGraph (default empty_table (author_all callee_values empty_table)) [mkEffect [] (op_store (mkAccess 0 0 4) 0 1) 0]
    [mkBlock [] [Effect 0] [] (Return []) 0] [LBlock 0] 0 [0%nat].

Definition caller_values : list Value := [mkValue I32 (DLiteral (lit 16)); mkValue I32 (DResult (Effect 1) 0)].
Definition caller : FunctionGraph :=
  mkGraph (default empty_table (author_all caller_values empty_table))
    [mkEffect [] (op_call 0 []) 0; mkEffect [1%nat] (op_load (mkAccess 0 0 4) 0) 0; mkEffect [] (op_call 1 []) 0]
    [mkBlock [] [Effect 0; Effect 1; Effect 2] [] (Return [1%nat]) 0] [LBlock 0] 0 [0%nat].

Definition sample_program : Functions := [Some callee; None; Some caller].

Lemma sample_program_ok : functions_ok sample_program.
Proof.
  intros [|[|[|f]]] g H; try done; injection H as <-; (apply function_checked_ok; [apply authored_wf; by vm_compute|by vm_compute]).
Qed.

(** ** Summaries *)

(** C14 Effect inference returns a summary for every function of a well-formed
    program, and the summary of a function allows every byte the function may read
    or write and every synchronization, directly or through any chain of calls and
    tail calls, whatever values its operations run on. *)
Theorem effects_infer_sound (functions : Functions) : functions_ok functions ->
  exists summaries, effects_infer functions = Some summaries /\ length summaries = length functions /\
    forall f e rho x, summaries !! f = Some e -> may_do functions f x -> allows rho e x.
Proof.
  intros Hok. destruct (effects_infer_some functions Hok) as (summaries & He & Hlen & Hall).
  exists summaries. split_and!; [done|done|]. intros f e rho x Hf. by apply Hall.
Qed.

Lemma effects_infer_sound_witness : exists summaries, effects_infer sample_program = Some summaries /\
  length summaries = length sample_program /\
  forall f e rho x, summaries !! f = Some e -> may_do sample_program f x -> allows rho e x.
Proof. apply (effects_infer_sound sample_program), sample_program_ok. Defined.

Example sample_summaries : effects_infer sample_program = Some [Known [] [mkMemoryRange 0 None (Some (12, 16))] false; Unknown; Unknown].
Proof. by vm_compute. Qed.

(** ** Blocking *)

(** C15 With inferred summaries, asking whether an operation of a body is observable,
    or blocks a read, never panics. An operation that is not observable only
    reads. If a writer does not block a reader that is not observable, then whatever
    values the body holds, no byte that the reader may read is one the writer may
    write, and the writer does not synchronize unless the reader reads nothing. *)
Theorem blocks_read_sound (functions : Functions) (f : nat) (g : FunctionGraph) (writer reader : Operation) :
  functions_ok functions -> functions !! f = Some (Some g) -> in_body g writer -> in_body g reader ->
  exists summaries visible blocks, effects_infer functions = Some summaries /\ observable reader summaries = Some visible /\
    blocks_read writer reader g summaries = Some blocks /\
    (visible = false -> forall rho, model (table g) rho -> (forall x, op_may functions rho reader x -> exists m a, x = Read m a) /\
      (blocks = false -> forall m a, op_may functions rho reader (Read m a) ->
        ~ op_may functions rho writer (Write m a) /\ ~ op_may functions rho writer Sync)).
Proof.
  intros Hfns Hf Hw Hr. destruct (effects_infer_some functions Hfns) as (summaries & Hs & Hlen & Hall).
  destruct (observable_reads functions Hfns f g Hf summaries Hlen Hall reader Hr) as (visible & Hvis & Hreads).
  destruct (observable_reads functions Hfns f g Hf summaries Hlen Hall writer Hw) as (seen & Hseen & Hwrites).
  destruct (describe_sound functions Hfns f g Hf summaries Hlen Hall reader Hr) as (re & Hre & _).
  destruct (describe_sound functions Hfns f g Hf summaries Hlen Hall writer Hw) as (we & Hwe & Hwallows).
  exists summaries, visible, (seen && effects_block_read we re).
  split_and!; [done|done|unfold blocks_read; rewrite Hseen, Hwe, Hre; by destruct seen|].
  intros -> rho Hm. destruct (Hreads eq_refl) as [reads Hrd]. rewrite Hre in Hrd. injection Hrd as ->.
  pose proof (reads_only functions Hfns f g Hf summaries Hlen Hall reads reader Hr Hre rho) as Honly.
  split; [intros x Hx; destruct (Honly x Hm Hx) as (m & a & -> & _); by exists m, a|]. intros Hb m a Hx.
  destruct (Honly _ Hm Hx) as (? & ? & [= <- <-] & r & Hr' & Hin).
  assert (forall x, op_may functions rho writer x -> match x with Write m' a' => m' <> m \/ a' <> a | Sync => False | Read _ _ => True end) as H.
  2: { split; intros Hy; specialize (H _ Hy); naive_solver. }
  intros x Hy. destruct seen.
  - pose proof (Hwallows rho x Hm Hy) as Ha. destruct we as [|ws wr [|]]; cbn in Hb; destruct reads as [|q reads]; try done; try by apply elem_of_nil in Hr'.
    destruct Ha as [?|Ha]; [done|]. destruct x as [| m' a'|]; [done| |done]. destruct Ha as (w & Hw' & Hin').
    destruct (decide (m' = m)) as [->|]; [|by left]. destruct (decide (a' = a)) as [->|]; [|by right]. exfalso.
    eapply range_overlaps_sound; [|exact Hin'|exact Hin]. exact (existsb_none _ _ r (existsb_none _ _ w Hb Hw') Hr').
  - destruct (Hwrites eq_refl) as [wr Hwr]. destruct (reads_only functions Hfns f g Hf summaries Hlen Hall wr writer Hw Hwr rho x Hm Hy) as (? & ? & -> & _). done.
Qed.

Lemma caller_model : model (table caller) (fun id => if Nat.eqb id 0 then lit 16 else lit 0).
Proof.
  split; intros [|[|id]] v; change (values (table caller)) with caller_values.
  1-3: intros Hv; vm_compute in Hv; simplify_eq; (split; [by split|done]).
  1-3: intros l Hv; vm_compute in Hv; simplify_eq; by intros [= <-].
  all: intros b Hv Hb; vm_compute in Hv, Hb; simplify_eq; intros Hd; try by vm_compute in Hd.
Qed.

(** The callee writes bytes 12 to 15, so the load of 16 to 19 can move past the call. *)
Lemma blocks_read_sound_witness : ~ may_do sample_program 0 (Write 0 17) /\ ~ may_do sample_program 0 Sync.
Proof.
  destruct (blocks_read_sound sample_program 2 caller (op_call 0 []) (op_load (mkAccess 0 0 4) 0)) as (summaries & visible & blocks & Hs & Hv & Hb & H).
  - apply sample_program_ok.
  - done.
  - by eexists 0%nat, _.
  - by eexists 1%nat, _.
  - vm_compute in Hs. injection Hs as <-. vm_compute in Hv. injection Hv as <-. vm_compute in Hb. injection Hb as <-.
    assert (exists rho, model (table caller) rho /\ low (rho 0%nat) = 16) as (rho & Hm & Hr).
    { exists (fun id => if Nat.eqb id 0 then lit 16 else lit 0). split; [apply caller_model|done]. }
    destruct (H eq_refl rho Hm) as [_ Hall]. apply (Hall eq_refl 0%nat 17).
    unfold op_may, performs, span_of. cbn. rewrite Hr. lia.
Defined.
