(* ===== verification/Dominance.v ===== *)
(** * Dominance

    crates/compiler/src/place/dominance.rs: immediate dominators by Cooper, Harvey
    and Kennedy's iteration in reverse postorder, the subtree intervals of the tree
    and its table of ancestors at powers of two. A vector is a list and a panic of
    the source is [None]. *)

From S2P Require Import Prelude.
Local Open Scope Z_scope.

(** The rank and the interval of an unreachable block. *)
Definition usize_max : Z := 2 ^ 64 - 1.

Record Dominators := mkDominators {
  parent : list (option nat); rank : list Z; interval : list (Z * Z); ancestors : list (list nat) }.

(** ** Depth-first search *)

(** Blocks seen, blocks left in postorder, and the path to the current block with the
    next successor of each of its blocks. *)
Definition Search := (list bool * list nat * list (nat * nat))%type.

Definition postorder_step (successors : list (list nat)) (s : Search) : Search + option (list nat) :=
  match s with
  | (seen, postorder, []) => inr (Some postorder)
  | (seen, postorder, (node, next) :: work) =>
      match successors !! node with
      | None => inr None
      | Some targets =>
          if Nat.eqb next (length targets) then inl (seen, postorder ++ [node], work)
          else
            let work := (node, S next) :: work in
            match targets !! next with
            | None => inr None
            | Some successor =>
                match seen !! successor with
                | None => inr None
                | Some true => inl (seen, postorder, work)
                | Some false => inl (<[successor := true]> seen, postorder, (successor, O) :: work)
                end
            end
      end
  end.

(** Every block is entered and left once, and every edge followed once. *)
Definition postorder_fuel (successors : list (list nat)) : nat := S (sum_list ((fun l => S (length l)) <$> successors)).

Definition postorder (root : nat) (successors : list (list nat)) : option (list nat) :=
  _ ← successors !! root;
  match repeat_times (postorder_step successors) (postorder_fuel successors)
    (<[root := true]> (replicate (length successors) false), [], [(root, O)]) with
  | inr found => found
  | inl _ => None
  end.

Fixpoint ranks_from (position : Z) (order : list nat) (ranks : list Z) : option (list Z) :=
  match order with
  | [] => Some ranks
  | node :: order => _ ← ranks !! node; ranks_from (position + 1) order (<[node := position]> ranks)
  end.

(** ** Queries *)

Definition encloses (d : Dominators) (a b : nat) : option bool :=
  x ← interval d !! a; y ← interval d !! b; Some ((x.1 <=? y.1) && (y.1 <? x.2)).

(** Climbing the parents of two blocks until they meet. *)
Definition climb_step (d : Dominators) (s : nat * nat) : (nat * nat) + option (option nat) :=
  let '(a, b) := s in
  if Nat.eqb a b then inr (Some (Some a))
  else
    match rank d !! a, rank d !! b with
    | Some x, Some y =>
        if y <? x then
          match parent d !! a with Some (Some a) => inl (a, b) | Some None => inr (Some None) | None => inr None end
        else
          match parent d !! b with Some (Some b) => inl (a, b) | Some None => inr (Some None) | None => inr None end
    | _, _ => inr None
    end.

(** Each step climbs to a lower rank. *)
Definition climb (d : Dominators) (a b : nat) : option (option nat) :=
  match repeat_times (climb_step d) (2 * length (parent d)) (a, b) with inr r => r | inl _ => None end.

Fixpoint lift (d : Dominators) (levels : list (list nat)) (a b : nat) : option nat :=
  match levels with
  | [] => Some a
  | level :: levels =>
      ancestor ← level !! a;
      above ← encloses d ancestor b;
      lift d levels (if above : bool then a else ancestor) b
  end.

(** The outer [None] is a panic, the inner one that of the source. *)
Definition common (d : Dominators) (a b : nat) : option (option nat) :=
  pa ← parent d !! a;
  match pa with
  | None => Some None
  | Some _ =>
      pb ← parent d !! b;
      match pb with
      | None => Some None
      | Some _ =>
          match ancestors d with
          | [] => climb d a b
          | levels =>
              ab ← encloses d a b;
              if ab : bool then Some (Some a)
              else
                ba ← encloses d b a;
                if ba : bool then Some (Some b)
                else a ← lift d (rev levels) a b; parent d !! a
          end
      end
  end.

Definition dominates (d : Dominators) (a b : nat) : option bool :=
  pa ← parent d !! a;
  match pa with
  | None => Some false
  | Some _ =>
      pb ← parent d !! b;
      match pb with None => Some false | Some _ => encloses d a b end
  end.

Definition preorder (d : Dominators) (block : nat) : option Z := fst <$> interval d !! block.

(** ** Iteration *)

Definition set_parent (node : nat) (p : option nat) (d : Dominators) : Dominators :=
  mkDominators (<[node := p]> (parent d)) (rank d) (interval d) (ancestors d).

(** The nearest common ancestor of the predecessors that have a parent. *)
Fixpoint common_predecessor (d : Dominators) (predecessors : list nat) (acc : option nat) : option (option nat) :=
  match predecessors with
  | [] => Some acc
  | predecessor :: predecessors =>
      p ← parent d !! predecessor;
      match p with
      | None => common_predecessor d predecessors acc
      | Some _ =>
          match acc with
          | None => common_predecessor d predecessors (Some predecessor)
          | Some previous =>
              c ← common d previous predecessor; c ← c;
              common_predecessor d predecessors (Some c)
          end
      end
  end.

Fixpoint dominance_pass (predecessors : list (list nat)) (nodes : list nat) (d : Dominators) (changed : bool)
    : option (Dominators * bool) :=
  match nodes with
  | [] => Some (d, changed)
  | node :: nodes =>
      incoming ← predecessors !! node;
      c ← common_predecessor d incoming None;
      p ← parent d !! node;
      if bool_decide (p = c) then dominance_pass predecessors nodes d changed
      else dominance_pass predecessors nodes (set_parent node c d) true
  end.

Definition dominance_step (predecessors : list (list nat)) (nodes : list nat) (d : Dominators) : Dominators + option Dominators :=
  match dominance_pass predecessors nodes d false with
  | Some (d, true) => inl d
  | Some (d, false) => inr (Some d)
  | None => inr None
  end.

(** ** Indexing the tree *)

Fixpoint children_from (node : nat) (parents : list (option nat)) (root : option nat) (children : list (list nat))
    : option (option nat * list (list nat)) :=
  match parents with
  | [] => Some (root, children)
  | None :: parents => children_from (S node) parents root children
  | Some p :: parents =>
      if Nat.eqb p node then children_from (S node) parents (Some node) children
      else l ← children !! p; children_from (S node) parents root (<[p := l ++ [node]]> children)
  end.

(** The top of the stack is its head. *)
Definition Walk := (list (Z * Z) * Z * list (nat * bool))%type.

Definition interval_step (children : list (list nat)) (s : Walk) : Walk + option (list (Z * Z)) :=
  match s with
  | (intervals, clock, []) => inr (Some intervals)
  | (intervals, clock, (node, leaving) :: work) =>
      match intervals !! node with
      | None => inr None
      | Some i =>
          if leaving : bool then inl (<[node := (i.1, clock)]> intervals, clock, work)
          else
            match children !! node with
            | None => inr None
            | Some l => inl (<[node := (clock, i.2)]> intervals, clock + 1, map (fun child => (child, false)) l ++ (node, true) :: work)
            end
      end
  end.

(** Every block is entered and left once. *)
Definition intervals_of (children : list (list nat)) (root : nat) (count : nat) : option (list (Z * Z)) :=
  match repeat_times (interval_step children) (S (2 * count)) (replicate count (usize_max, usize_max), 0, [(root, false)]) with
  | inr r => r
  | inl _ => None
  end.

Definition levels_step (count : nat) (levels : list (list nat)) : list (list nat) + option (list (list nat)) :=
  if 2 ^ Z.of_nat (length levels) <? Z.of_nat count then
    match last levels with
    | None => inr None
    | Some previous =>
        match mapM (fun p => previous !! p) previous with
        | Some next => inl (levels ++ [next])
        | None => inr None
        end
    end
  else inr (Some levels).

(** A level doubles the height it covers. *)
Definition levels_of (parents : list (option nat)) : option (list (list nat)) :=
  let count := length parents in
  match repeat_times (levels_step count) (S count) [imap (fun node p => default node p) parents] with
  | inr r => r
  | inl _ => None
  end.

Definition index (d : Dominators) : option Dominators :=
  let count := length (parent d) in
  '(root, children) ← children_from 0 (parent d) None (replicate count []);
  root ← root;
  intervals ← intervals_of children root count;
  levels ← levels_of (parent d);
  Some (mkDominators (parent d) (rank d) intervals levels).

(** Every round but the last lowers the rank of a parent. *)
Definition dominance_fuel (count : nat) : nat := 2 + count * count.

Definition dominators_new (root : nat) (successors predecessors : list (list nat)) : option Dominators :=
  postorder ← postorder root successors;
  let postorder := rev postorder in
  let count := length successors in
  rank ← ranks_from 0 postorder (replicate count usize_max);
  _ ← replicate count tt !! root;
  match postorder with
  | [] => None
  | _ :: nodes =>
      match repeat_times (dominance_step predecessors nodes) (dominance_fuel count)
        (mkDominators (<[root := Some root]> (replicate count None)) rank [] []) with
      | inr (Some d) => index d
      | _ => None
      end
  end.

(** The diamond of a loop: 0 to 1, 1 to 2 and 3, both to 4, 4 to 1 and 5; 6 is unreachable. *)
Example diamond : dominators_new 0 [[1]; [2; 3]; [4]; [4]; [1; 5]; []; [5]]%nat [[]; [0; 4]; [1]; [1]; [2; 3]; [4; 6]; []]%nat
  = Some (mkDominators [Some 0; Some 0; Some 1; Some 1; Some 1; Some 4; None]%nat [0; 1; 3; 2; 4; 5; usize_max]
      [(0, 6); (1, 6); (2, 3); (3, 4); (4, 6); (5, 6); (usize_max, usize_max)]
      [[0; 0; 1; 1; 1; 4; 6]; [0; 0; 0; 0; 0; 1; 6]; [0; 0; 0; 0; 0; 0; 6]]%nat).
Proof. by vm_compute. Qed.
