(* ===== verification/DominanceTree.v ===== *)
(** * Trees of provisional dominators

    What the iteration keeps true of the parents it changes in place, where one
    change moves a whole subtree: dominators stay ancestors, every parent is on the
    path of a fixed search tree, and between two blocks not yet revisited in a round
    no two parents cross. From these follow that parents only climb, which bounds the
    rounds, and that what is left are the immediate dominators. *)

From S2P Require Import Prelude Dominance.

(** * The search of dominance

    Depth-first search visits exactly the reachable blocks, and in reverse postorder
    every block but the root comes after one of its predecessors. *)

(** An edge of a graph given by lists of successors. *)
Definition edge (successors : list (list nat)) (a b : nat) : Prop := exists l, successors !! a = Some l /\ b ∈ l.

(** The blocks of a path from [root] to the last. *)
Inductive path_to (successors : list (list nat)) (root : nat) : list nat -> nat -> Prop :=
| path_root : path_to successors root [root] root
| path_edge l a b : path_to successors root l a -> edge successors a b -> path_to successors root (l ++ [b]) b.

Definition reaches (successors : list (list nat)) (root v : nat) : Prop := exists l, path_to successors root l v.

Definition targets_ok (successors : list (list nat)) : Prop :=
  forall a l b, successors !! a = Some l -> b ∈ l -> b < length successors.

Section Search.
Context (successors : list (list nat)) (root : nat) (Htargets : targets_ok successors) (Hroot : root < length successors).
#[local] Set Default Proof Using "All".

Lemma reaches_root : reaches successors root root.
Proof using Type. exists [root]. constructor. Qed.

Lemma reaches_edge a b : reaches successors root a -> edge successors a b -> reaches successors root b.
Proof using Type. intros [l Hl] Hab. exists (l ++ [b]). by econstructor. Qed.

(** A predecessor later in the list. *)
Definition later_predecessor (order : list nat) (v : nat) : Prop :=
  exists i j p, order !! i = Some v /\ order !! j = Some p /\ i < j /\ edge successors p v.

(** The blocks left, then the blocks entered: what becomes the postorder. *)
Definition order_of (s : Search) : list nat := s.1.2 ++ s.2.*1.

Record dfs_state (s : Search) : Prop := {
  ds_length : length s.1.1 = length successors;
  ds_nodup : NoDup (order_of s);
  ds_seen : forall v, s.1.1 !! v = Some true <-> v ∈ order_of s;
  ds_reach : forall v, v ∈ order_of s -> reaches successors root v;
  ds_later : forall v, v ∈ order_of s -> v = root \/ later_predecessor (order_of s) v;
  ds_last : last (order_of s) = Some root;
  ds_left : forall v w, v ∈ s.1.2 -> edge successors v w -> w ∈ order_of s;
  ds_entered : forall v next, (v, next) ∈ s.2 -> exists l, successors !! v = Some l /\ next <= length l /\
    forall w, w ∈ take next l -> w ∈ order_of s;
}.

Definition dfs_measure (s : Search) : nat :=
  sum_list ((fun e => S (length (default [] (successors !! e.1))) - e.2) <$> s.2)
  + unset_weight (fun v => S (length (default [] (successors !! v)))) 0 s.1.1.

Definition found (r : option (list nat)) : Prop :=
  exists l, r = Some l /\ NoDup l /\ last l = Some root /\ (forall v, v ∈ l <-> reaches successors root v) /\
    forall v, v ∈ l -> v = root \/ later_predecessor l v.

Lemma dfs_done seen order : dfs_state (seen, order, []) -> found (Some order).
Proof.
  intros [_ Hnd _ Hreach Hlater Hlast Hleft _]. unfold order_of in *. cbn in *. rewrite app_nil_r in *.
  exists order. split_and!; [done|done|done| |done]. intros v. split; [apply Hreach|].
  intros [l Hl]. induction Hl as [|l a b Hl IH Hab]; [|by eapply Hleft].
  apply last_Some in Hlast as [l ->]. set_solver.
Qed.

(** Inserting a block between the two parts of the order keeps what comes later. *)
Lemma lookup_between {A} (l1 l2 : list A) x i y : (l1 ++ l2) !! i = Some y ->
  (l1 ++ x :: l2) !! (if decide (i < length l1) then i else S i) = Some y.
Proof.
  intros H. case_decide.
  - rewrite lookup_app_l in * by done. done.
  - rewrite lookup_app_r in * by lia. by rewrite Nat.sub_succ_l by lia.
Qed.

Lemma later_between l1 l2 x v : later_predecessor (l1 ++ l2) v -> later_predecessor (l1 ++ x :: l2) v.
Proof.
  intros (i & j & p & Hi & Hj & Hij & He).
  exists (if decide (i < length l1) then i else S i), (if decide (j < length l1) then j else S j), p.
  split_and!; [by apply lookup_between|by apply lookup_between| |done]. repeat case_decide; lia.
Qed.

Lemma dfs_step s : dfs_state s ->
  match postorder_step successors s with
  | inl s' => dfs_state s' /\ dfs_measure s' < dfs_measure s
  | inr r => found r
  end.
Proof.
  destruct s as [[seen order] [|[node next] work]]; intros Hs; [by apply dfs_done in Hs|].
  destruct (ds_entered _ Hs node next ltac:(left)) as (l & Hl & Hnext & Htaken). cbn [postorder_step]. rewrite Hl.
  destruct Hs as [Hlen Hnd Hseen Hreach Hlater Hlast Hleft Hent]. unfold order_of in *. cbn in *.
  destruct (Nat.eqb_spec next (length l)) as [->|Hne].
  - assert ((order ++ [node]) ++ work.*1 = order ++ node :: work.*1) as Heq by (by rewrite <- app_assoc).
    split; [split|]; unfold order_of, dfs_measure; cbn; rewrite ?Heq; try done.
    + intros v w [Hv| ->%list_elem_of_singleton]%elem_of_app He; [by eapply Hleft|].
      destruct He as (l' & Hl' & Hw). simplify_eq. apply Htaken. by rewrite firstn_all.
    + intros v next Hin. apply Hent. by right.
    + rewrite Hl. cbn [from_option id]. lia.
  - destruct (lookup_lt_is_Some_2 l next ltac:(lia)) as [w Hw]. rewrite Hw.
    pose proof (Htargets node l w Hl ltac:(by eapply list_elem_of_lookup_2)) as Hlt.
    destruct (lookup_lt_is_Some_2 seen w ltac:(lia)) as [flag Hflag]. rewrite Hflag.
    assert (forall l' : list nat, (forall x, x ∈ order ++ node :: work.*1 -> x ∈ l') -> w ∈ l' ->
      forall v next', (v, next') ∈ (node, S next) :: work -> exists l, successors !! v = Some l /\ next' <= length l /\ forall w, w ∈ take next' l -> w ∈ l') as Hent'.
    { intros l' Hsub Hwl v next' [Heq|Hin]%elem_of_cons.
      - injection Heq as -> ->. exists l. split_and!; [done|lia|]. intros x. rewrite (take_S_r l next w Hw).
        intros [Hx| ->%list_elem_of_singleton]%elem_of_app; [by apply Hsub, Htaken|done].
      - destruct (Hent v next' ltac:(by right)) as (l0 & H1 & H2 & H3). exists l0. split_and!; [done|done|]. intros x Hx. by apply Hsub, H3. }
    destruct flag.
    + split; [split|]; unfold order_of, dfs_measure; cbn; try done.
      * apply Hent'; [done|]. by apply Hseen.
      * rewrite Hl. cbn [from_option id]. lia.
    + assert (w ∉ order ++ node :: work.*1) as Hnew by (intros Hin%Hseen; congruence).
      split; [split|]; unfold order_of, dfs_measure; cbn.
      * by rewrite length_insert.
      * rewrite <- Permutation_middle. by constructor.
      * intros v. rewrite elem_of_app, elem_of_cons. pose proof (Hseen v) as Hsv. rewrite elem_of_app in Hsv, Hnew. destruct (decide (v = w)) as [->|].
        -- rewrite list_lookup_insert_eq by lia. naive_solver.
        -- rewrite list_lookup_insert_ne by done. rewrite Hsv. naive_solver.
      * intros v. rewrite elem_of_app, elem_of_cons. intros [Hv|[->|Hv]]; [apply Hreach; set_solver| |apply Hreach; set_solver].
        apply (reaches_edge node); [apply Hreach; set_solver|]. exists l. split; [done|by eapply list_elem_of_lookup_2].
      * intros v Hv. destruct (decide (v = w)) as [->|].
        -- right. exists (length order), (S (length order)), node.
           rewrite !lookup_app_r by lia. rewrite Nat.sub_diag, Nat.sub_succ_l, Nat.sub_diag by lia.
           split_and!; [done|done|lia|]. exists l. split; [done|by eapply list_elem_of_lookup_2].
        -- destruct (Hlater v) as [->|H]; [set_solver|by left|right; by apply later_between].
      * rewrite last_app in *. cbn. destruct (last (node :: work.*1)) eqn:E; [|by apply last_None in E]. done.
      * intros v w' Hv He. specialize (Hleft v w' Hv He). set_solver.
      * intros v next' [Heq|Hin]%elem_of_cons.
        -- injection Heq as -> ->. destruct (lookup_lt_is_Some_2 successors w Hlt) as [l' Hl']. exists l'. split_and!; [done|lia|].
           rewrite take_0. by intros x []%elem_of_nil.
        -- revert v next' Hin. apply Hent'; [set_solver|set_solver].
      * rewrite Hl. cbn [from_option id]. pose proof (unset_weight_set (fun v => S (length (default [] (successors !! v)))) seen w 0 Hflag) as H.
        cbn in H. rewrite H. lia.
Qed.

Lemma postorder_found : found (postorder root successors).
Proof.
  destruct (lookup_lt_is_Some_2 successors root Hroot) as [l Hl]. unfold postorder. rewrite Hl. cbn [mbind option_bind].
  assert (dfs_state (<[root:=true]> (replicate (length successors) false), [], [(root, 0)])) as H0.
  { split; unfold order_of; cbn.
    - by rewrite length_insert, length_replicate.
    - apply NoDup_singleton.
    - intros v. rewrite list_elem_of_singleton. destruct (decide (v = root)) as [->|].
      + by rewrite list_lookup_insert_eq by (by rewrite length_replicate).
      + rewrite list_lookup_insert_ne by done. split; [|done]. by intros [? _]%lookup_replicate.
    - intros v ->%list_elem_of_singleton. apply reaches_root.
    - intros v ->%list_elem_of_singleton. by left.
    - done.
    - by intros v w []%elem_of_nil.
    - intros v next [= -> ->]%list_elem_of_singleton. exists l. split_and!; [done|lia|]. rewrite take_0. by intros x []%elem_of_nil. }
  edestruct (repeat_times_measure (postorder_step successors) dfs_state found dfs_measure) as (r & -> & Hr); [..|exact Hr].
  - intros s. by apply dfs_step.
  - exact H0.
  - unfold dfs_measure, postorder_fuel. cbn [fst snd fmap list_fmap sum_list foldr]. rewrite Hl. cbn [from_option id].
    assert ((replicate (length successors) false) !! root = Some false) as Hf by (by apply lookup_replicate).
    pose proof (unset_weight_set (fun v => S (length (default [] (successors !! v)))) _ root 0 Hf) as H. cbn in H. rewrite Hl in H. cbn in H.
    rewrite unset_weight_replicate in H.
    assert ((fun v => S (length (default [] (successors !! v)))) <$> seq 0 (length successors) = (fun l => S (length l)) <$> successors) as Heq.
    { apply list_eq. intros i. rewrite !list_lookup_fmap. destruct (successors !! i) as [t|] eqn:Ht.
      - rewrite (lookup_seq_lt _ _ _ (lookup_lt_Some _ _ _ Ht)). cbn. by rewrite Ht.
      - rewrite lookup_seq_ge by (by apply lookup_ge_None). done. }
    rewrite Heq in H. lia.
Qed.
End Search.

Local Open Scope Z_scope.

(** ** Chains of parents *)

Section Chains.
Context (root : nat) (rk : nat -> Z).
#[local] Set Default Proof Using "Type".

Definition Parents := nat -> option nat.

Definition up (f : Parents) (x y : nat) : Prop := f y = Some x /\ y <> root.
(** [x] is [y] or above it. *)
Definition above (f : Parents) : nat -> nat -> Prop := rtc (up f).

Definition climbs (f : Parents) : Prop := forall x y, up f x y -> rk x < rk y.

Lemma above_up f x y p : above f x y -> f y = Some p -> x <> y -> y <> root -> above f x p.
Proof.
  intros H Hp Hne Hr. apply rtc_inv_r in H as [->|(q & Hq & [Hy _])]; [done|]. by simplify_eq.
Qed.

Lemma above_parent f p y : f y = Some p -> y <> root -> above f p y.
Proof. intros. by apply rtc_once. Qed.

Lemma above_rank f x y : climbs f -> above f x y -> rk x <= rk y.
Proof. intros Hc. induction 1 as [|x y z Hxy _ IH]; [done|]. apply Hc in Hxy. lia. Qed.

Lemma above_strict f x y : climbs f -> above f x y -> x <> y -> rk x < rk y.
Proof.
  intros Hc H Hne. inversion H as [|a b c Hab Hbc]; subst; [done|]. apply Hc in Hab. pose proof (above_rank f b y Hc Hbc). lia.
Qed.

Lemma above_linear f x y v : above f x v -> above f y v -> above f x y \/ above f y x.
Proof.
  intros Hx. revert y. revert v Hx. apply (rtc_ind_r (fun v => forall y, above f y v -> above f x y \/ above f y x)).
  - intros y H. by right.
  - intros a b Hxa [Hb Hr] IH y Hy. destruct (decide (y = b)) as [->|Hne].
    + left. eapply rtc_r; [done|by split].
    + apply IH. by eapply above_up.
Qed.

Lemma above_ordered f x y v : climbs f -> above f x v -> above f y v -> rk x <= rk y -> above f x y.
Proof.
  intros Hc Hx Hy Hle. destruct (decide (x = y)) as [->|]; [done|].
  destruct (above_linear f x y v Hx Hy) as [H|H]; [done|]. pose proof (above_strict f y x Hc H ltac:(done)). lia.
Qed.

Lemma above_dec f x y : climbs f -> (forall v, 0 <= rk v) -> above f x y \/ ~ above f x y.
Proof.
  intros Hc Hpos. assert (forall n y, rk y < Z.of_nat n -> above f x y \/ ~ above f x y) as H.
  2: { apply (H (S (Z.to_nat (rk y)))). specialize (Hpos y). lia. }
  clear y. induction n as [|n IH]; intros y Hy; [specialize (Hpos y); lia|].
  destruct (decide (x = y)) as [->|Hne]; [by left|]. destruct (decide (y = root)) as [->|Hr].
  { right. intros H. apply rtc_inv_r in H as [?|(q & _ & [_ ?])]; done. }
  destruct (f y) as [p|] eqn:Hp.
  2: { right. intros H. apply rtc_inv_r in H as [?|(q & _ & [? _])]; congruence. }
  pose proof (Hc p y (conj Hp Hr)). destruct (IH p) as [H'|H']; [lia| |].
  - left. eapply rtc_r; [done|by split].
  - right. intros H1. apply H'. by eapply above_up.
Qed.

(** Two trees that agree but at [u] agree on chains that do not pass it. *)
Lemma above_change f f' x y u : climbs f -> (forall v, v <> u -> f' v = f v) -> above f x y ->
  (rk u <= rk x \/ ~ above f u y) -> above f' x y.
Proof.
  intros Hc Hsame H. revert y H. apply (rtc_ind_r (fun y => (rk u <= rk x \/ ~ above f u y) -> above f' x y)); [done|].
  intros a b Hxa [Hb Hr] IH Hu. eapply rtc_r.
  - apply IH. destruct Hu as [|Hu]; [by left|]. right. intros H. apply Hu. eapply rtc_r; [done|by split].
  - split; [|done]. rewrite Hsame; [done|]. intros ->. destruct Hu as [Hu|Hu]; [|by apply Hu].
    pose proof (above_rank f x a Hc Hxa). pose proof (Hc a u (conj Hb Hr)). lia.
Qed.
End Chains.

(** ** The graph and its ranks *)

Section Tree.
Context (successors : list (list nat)) (root : nat) (rk : nat -> Z) (tp : Parents).
Notation R := (reaches successors root).
Notation edge := (edge successors).
Notation above := (above root).

Context (rk_root : rk root = 0) (rk_pos : forall v, 0 <= rk v).
Context (rk_inj : forall a b, R a -> R b -> rk a = rk b -> a = b).
(** The tree of the search: every other block has a predecessor of lower rank. *)
Context (tp_ok : forall v p, tp v = Some p -> v <> root -> R v /\ R p /\ edge p v /\ rk p < rk v).
Context (tp_some : forall v, R v -> v <> root -> exists p, tp v = Some p).
#[local] Set Default Proof Using "All".

(** Every path from the root passes [d]. *)
Definition dom (d v : nat) : Prop := forall l, path_to successors root l v -> d ∈ l.

Lemma tp_climbs : climbs root rk tp.
Proof. intros x y [Hp Hr]. by apply (tp_ok y x). Qed.

Lemma tp_reaches x y : R y -> above tp x y -> R x.
Proof.
  intros HR H. revert HR. induction H as [|x z y [Hz Hr] H IH]; [done|]. intros HR. apply (tp_ok z x Hz Hr).
Qed.

Lemma root_lowest v : R v -> v <> root -> 0 < rk v.
Proof. intros Hv Hne. specialize (rk_pos v). destruct (decide (rk v = 0)) as [E|]; [|lia]. destruct Hne. apply rk_inj; [done|apply reaches_root|congruence]. Qed.

Lemma tree_path u v l : above tp u v -> path_to successors root l u ->
  exists l', path_to successors root (l ++ l') v /\ Forall (fun x => rk u <= rk x) l'.
Proof.
  intros H Hl. revert v H. apply (rtc_ind_r (fun v => exists l', path_to successors root (l ++ l') v /\ Forall (fun x => rk u <= rk x) l')).
  - exists []. by rewrite app_nil_r.
  - intros a b Hua [Hb Hr] (l' & Hp & Hall). exists (l' ++ [b]). rewrite app_assoc.
    destruct (tp_ok b a Hb Hr) as (_ & _ & He & Hlt). split; [by econstructor|]. apply Forall_app. split; [done|].
    apply Forall_singleton. pose proof (above_rank root rk tp u a tp_climbs Hua). lia.
Qed.

(** A dominator of a block of the search tree that ranks below [u], above it, dominates [u]. *)
Lemma dom_lower d u v : above tp u v -> rk d < rk u -> dom d v -> dom d u.
Proof.
  intros Huv Hlt Hd l Hl. destruct (tree_path u v l Huv Hl) as (l' & Hp & Hall). specialize (Hd _ Hp).
  apply elem_of_app in Hd as [|Hd]; [done|]. rewrite Forall_forall in Hall. specialize (Hall d Hd). lia.
Qed.

Lemma dom_edge d a b : edge a b -> d <> b -> dom d b -> dom d a.
Proof.
  intros Hab Hne Hd l Hl. specialize (Hd _ (path_edge _ _ _ _ _ Hl Hab)). set_solver.
Qed.

(** ** Provisional trees *)

Definition crossing (f : Parents) (y a : nat) : Prop :=
  y <> root /\ a <> root /\ exists py pa t, f y = Some py /\ f a = Some pa /\ tp a = Some t /\
    above tp y t /\ rk pa < rk y /\ rk py < rk pa.

(** The state of a round that has visited the blocks of rank below [k]. *)
Record provisional (f : Parents) (k : Z) : Prop := {
  pv_root : f root = Some root;
  pv_tree : forall v p, f v = Some p -> v <> root -> R v /\ is_Some (f p) /\ exists t, tp v = Some t /\ above tp p t;
  pv_visited : forall v, R v -> rk v < k -> is_Some (f v);
  pv_closed : forall v t, is_Some (f v) -> v <> root -> tp v = Some t -> is_Some (f t);
  pv_dom : forall d v, is_Some (f v) -> dom d v -> above f d v;
  pv_meet : forall v p x, f v = Some p -> v <> root ->
    (forall q, edge q v -> is_Some (f q) -> above f x q) -> above f x p;
  pv_cross : forall y a, crossing f y a -> rk y < k <= rk a;
}.

Section Provisional.
Context (f : Parents) (k : Z) (Hf : provisional f k).
#[local] Set Default Proof Using "All".

Lemma pv_reaches v : is_Some (f v) -> R v.
Proof. intros [p Hp]. destruct (decide (v = root)) as [->|]; [apply reaches_root|]. by apply (pv_tree f k Hf v p). Qed.

Lemma pv_climbs : climbs root rk f.
Proof.
  intros x y [Hy Hr]. destruct (pv_tree f k Hf y x Hy Hr) as (_ & _ & t & Ht & Habove).
  pose proof (above_rank root rk tp x t tp_climbs Habove). destruct (tp_ok y t Ht Hr) as (_ & _ & _ & ?). lia.
Qed.

Lemma pv_above_tree x v : above f x v -> above tp x v.
Proof.
  induction 1 as [|x y z [Hy Hr] _ IH]; [done|]. etrans; [|exact IH].
  destruct (pv_tree f k Hf y x Hy Hr) as (_ & _ & t & Ht & Habove). etrans; [exact Habove|]. by apply above_parent.
Qed.

Lemma pv_above_some x v : is_Some (f v) -> above f x v -> is_Some (f x).
Proof.
  intros Hv H. revert Hv. induction H as [|x y z [Hy Hr] _ IH]; [done|]. intros Hz.
  by destruct (pv_tree f k Hf y x Hy Hr) as (_ & ? & _).
Qed.

(** The last block of a chain that ranks at least [n]. *)
Lemma pv_last_above n z : is_Some (f z) -> n <= rk z -> exists y, above f y z /\ n <= rk y /\
  (y = root \/ exists p, f y = Some p /\ y <> root /\ rk p < n).
Proof.
  assert (forall m z, rk z < Z.of_nat m -> is_Some (f z) -> n <= rk z -> exists y, above f y z /\ n <= rk y /\
    (y = root \/ exists p, f y = Some p /\ y <> root /\ rk p < n)) as H.
  2: { apply (H (S (Z.to_nat (rk z)))). specialize (rk_pos z). lia. }
  clear z. induction m as [|m IH]; intros z Hm [p Hp] Hn; [specialize (rk_pos z); lia|].
  destruct (decide (z = root)) as [->|Hr]; [exists root; split_and!; [done|done|by left]|].
  destruct (Z.lt_ge_cases (rk p) n) as [Hlt|Hge].
  - exists z. split_and!; [done|done|]. right. by exists p.
  - pose proof (pv_climbs p z (conj Hp Hr)). destruct (IH p) as (y & Hy & Hny & Hlast); [lia|by apply (pv_tree f k Hf z p Hp Hr)|done|].
    exists y. split_and!; [|done|done]. etrans; [exact Hy|]. by apply above_parent.
Qed.

(** What is above [v] is above every block of the tree between them, if no parents cross there. *)
Lemma uncrossed u v z : is_Some (f v) -> is_Some (f z) -> above f u v -> above tp u z -> above tp z v ->
  (forall y a, crossing f y a -> rk u < rk y -> rk a <= rk v -> False) -> above f u z.
Proof.
  intros Hv Hz Huv Huz Hzv Hno. pose proof pv_climbs as Hc. pose proof tp_climbs as Htc.
  pose proof (above_rank root rk tp u z Htc Huz) as Hrk. pose proof (above_rank root rk tp z v Htc Hzv) as Hrv.
  destruct (pv_last_above (rk u) z Hz Hrk) as (y & Hyz & Hy & Hlast).
  assert (above tp y v) as Hyv by (etrans; [by apply pv_above_tree|done]).
  destruct (decide (y = u)) as [->|Hne]; [done|].
  assert (rk u < rk y) as Hlt.
  { pose proof (above_ordered root rk tp u y v Htc (pv_above_tree u v Huv) Hyv Hy) as H. by apply (above_strict root rk tp u y Htc). }
  destruct Hlast as [->|(py & Hpy & Hyr & Hpyu)]; [specialize (rk_pos u); lia|]. exfalso.
  destruct (pv_last_above (rk y) v Hv) as (a & Hav & Hya & Hlast).
  { apply (above_rank root rk tp y v Htc Hyv). }
  destruct Hlast as [->|(pa & Hpa & Har & Hpay)]; [specialize (rk_pos u); lia|].
  assert (above f u a) as Hua by (apply (above_ordered root rk f u a v Hc Huv Hav); lia).
  assert (above tp y a) as Hta by (by apply (above_ordered root rk tp y a v Htc Hyv (pv_above_tree a v Hav))).
  destruct (decide (y = a)) as [->|Hnya].
  { rewrite Hpy in Hpa. injection Hpa as <-. pose proof (above_up root f u a py Hua Hpy ltac:(done) Hyr) as H.
    pose proof (above_rank root rk f u py Hc H). lia. }
  assert (u <> a) as Hnua by (intros ->; lia).
  pose proof (above_rank root rk f u pa Hc (above_up root f u a pa Hua Hpa Hnua Har)).
  destruct (pv_tree f k Hf a pa Hpa Har) as (_ & _ & t & Ht & _).
  apply (Hno y a); [|done|by apply (above_rank root rk f a v Hc Hav)].
  split_and!; [done|done|]. exists py, pa, t. split_and!; [done|done|done| |done|lia]. by eapply above_up.
Qed.
End Provisional.

(** ** One change *)

Section Change.
Context (f : Parents) (k : Z) (Hf : provisional f k).
Context (u c : nat) (Hu : R u) (Hur : u <> root) (Hk : rk u = k).
Context (f' : Parents) (Hnew : f' u = Some c) (Hsame : forall v, v <> u -> f' v = f v).
(** The nearest common ancestor of the predecessors that have a parent. *)
Context (Hmeet : forall x, above f x c <-> forall p, edge p u -> is_Some (f p) -> above f x p).
#[local] Set Default Proof Using "All".

Local Notation Hc := (pv_climbs f k Hf).

Lemma search_parent : exists t, tp u = Some t /\ is_Some (f t) /\ above f c t /\ rk c < rk u.
Proof.
  destruct (tp_some u Hu Hur) as [t Ht]. destruct (tp_ok u t Ht Hur) as (_ & HRt & He & Hlt). exists t.
  assert (is_Some (f t)) as Hs by (apply (pv_visited f k Hf t HRt); lia).
  assert (above f c t) as Hct by (by apply Hmeet). pose proof (above_rank root rk f c t Hc Hct). split_and!; [done|done|done|lia].
Qed.

Lemma new_some : is_Some (f c).
Proof. destruct search_parent as (t & _ & Hs & Hct & _). by eapply pv_above_some. Qed.

Lemma new_not_below : ~ above f u c.
Proof. destruct search_parent as (_ & _ & _ & _ & Hlt). intros H. pose proof (above_rank root rk f u c Hc H). lia. Qed.

Lemma new_climbs : climbs root rk f'.
Proof.
  intros x y [Hy Hr]. destruct (decide (y = u)) as [->|Hne].
  - rewrite Hnew in Hy. injection Hy as <-. by destruct search_parent as (_ & _ & _ & _ & Hlt).
  - rewrite Hsame in Hy by done. by apply Hc.
Qed.

Lemma above_keeps x y : rk u <= rk x \/ ~ above f u y -> above f x y -> above f' x y.
Proof. intros H Hxy. by eapply (above_change root rk f f' x y u Hc Hsame). Qed.

Lemma above_kept x y : rk u <= rk x \/ ~ above f u y -> above f' x y -> above f x y.
Proof.
  intros H Hxy. eapply (above_change root rk f' f x y u new_climbs); [intros v Hv; by rewrite Hsame|done|].
  destruct H as [H|H]; [by left|]. right. intros Huy. apply H.
  eapply (above_change root rk f' f u y u new_climbs); [intros v Hv; by rewrite Hsame|done|by left].
Qed.

Lemma above_moves x y : rk x < rk u -> above f u y -> above f x c -> above f' x y.
Proof.
  intros Hlt Huy Hxc. transitivity u; [transitivity c|].
  - apply above_keeps; [right; apply new_not_below|done].
  - by apply above_parent.
  - apply above_keeps; [by left|done].
Qed.

Lemma above_moved x y : rk x < rk u -> above f u y -> above f' x y -> above f x c.
Proof.
  intros Hlt Huy Hxy. assert (above f' u y) as Huy' by (apply above_keeps; [by left|done]).
  pose proof (above_ordered root rk f' x u y new_climbs Hxy Huy' ltac:(lia)) as Hxu.
  assert (x <> u) by (intros ->; lia). apply above_kept; [right; apply new_not_below|]. by eapply above_up.
Qed.

(** Only chains through [u] lose ancestors. *)
Lemma above_shrinks x y : is_Some (f y) -> above f' x y -> above f x y.
Proof.
  intros Hy Hxy. destruct (above_dec root rk f u y Hc rk_pos) as [Huy|Huy]; [|by apply above_kept; [right|]].
  destruct (Z.le_gt_cases (rk u) (rk x)) as [Hle|Hlt]; [by apply above_kept; [left|]|].
  pose proof (above_moved x y Hlt Huy Hxy) as Hxc. transitivity u; [|done].
  destruct (pv_above_some f k Hf u y Hy Huy) as [p Hp].
  transitivity p; [|by apply above_parent]. apply (pv_meet f k Hf u p x Hp Hur). by apply Hmeet.
Qed.

(** A parent only climbs. *)
Lemma new_above_old p : f u = Some p -> above f c p.
Proof. intros Hp. apply (pv_meet f k Hf u p c Hp Hur). by apply Hmeet. Qed.

Lemma change_some v : is_Some (f' v) <-> v = u \/ is_Some (f v).
Proof.
  destruct (decide (v = u)) as [->|Hne]; [rewrite Hnew; split; [by left|by eexists]|]. rewrite Hsame by done. naive_solver.
Qed.

Lemma change_dom d v : is_Some (f' v) -> dom d v -> above f' d v.
Proof.
  intros Hv Hd. assert (dom d u -> d <> u -> above f d c) as Hdc.
  { intros Hdu Hne. apply Hmeet. intros p Hp Hs. apply (pv_dom f k Hf); [done|]. by eapply dom_edge. }
  destruct (decide (v = u)) as [->|Hne].
  - destruct (decide (d = u)) as [->|Hne]; [done|]. transitivity c; [|by apply above_parent].
    apply above_keeps; [right; apply new_not_below|by apply Hdc].
  - rewrite Hsame in Hv by done. pose proof (pv_dom f k Hf d v Hv Hd) as Hdv.
    destruct (above_dec root rk f u v Hc rk_pos) as [Huv|Huv]; [|by apply above_keeps; [right|]].
    destruct (Z.le_gt_cases (rk u) (rk d)) as [Hle|Hlt]; [by apply above_keeps; [left|]|].
    apply above_moves; [done|done|]. apply Hdc; [|intros ->; lia].
    eapply dom_lower; [by eapply pv_above_tree|done|done].
Qed.

Lemma change_meet v p x : f' v = Some p -> v <> root ->
  (forall q, edge q v -> is_Some (f' q) -> above f' x q) -> above f' x p.
Proof.
  intros Hp Hr Hall. assert (forall q, edge q v -> is_Some (f q) -> above f' x q /\ above f x q) as Hall'.
  { intros q Hq Hs. assert (above f' x q) as H by (apply Hall; [done|]; apply change_some; by right). split; [done|].
    by apply above_shrinks. }
  destruct (decide (v = u)) as [->|Hne].
  - rewrite Hnew in Hp. injection Hp as <-. apply above_keeps; [right; apply new_not_below|]. apply Hmeet. intros q Hq Hs. by apply Hall'.
  - rewrite Hsame in Hp by done. pose proof (pv_meet f k Hf v p x Hp Hr (fun q Hq Hs => proj2 (Hall' q Hq Hs))) as Hxp.
    destruct (pv_tree f k Hf v p Hp Hr) as (Hv & Hsp & t & Ht & Hpt).
    destruct (above_dec root rk f u p Hc rk_pos) as [Hup|Hup]; [|by apply above_keeps; [right|]].
    destruct (Z.le_gt_cases (rk u) (rk x)) as [Hle|Hlt]; [by apply above_keeps; [left|]|].
    apply above_moves; [done|done|]. destruct (tp_ok v t Ht Hr) as (_ & _ & He & _).
    assert (is_Some (f v)) as Hsv by (by eexists). pose proof (pv_closed f k Hf v t Hsv Hr Ht) as Hst.
    assert (above f u v) as Huv by (transitivity p; [done|by apply above_parent]).
    apply (above_moved x t); [done| |by apply Hall'].
    apply (uncrossed f k Hf u v t Hsv Hst Huv).
    + transitivity p; [by eapply pv_above_tree|done].
    + by apply above_parent.
    + intros y a Hya Hlt' _. apply (pv_cross f k Hf) in Hya. lia.
Qed.

Lemma change_crossing y a : crossing f' y a -> rk y < k + 1 <= rk a.
Proof.
  intros (Hyr & Har & py & pa & t & Hpy & Hpa & Ht & Hyt & Hlt & Hlt').
  destruct (tp_ok a t Ht Har) as (HRa & _ & _ & Hta). pose proof (above_rank root rk tp y t tp_climbs Hyt) as Hyrk.
  destruct (decide (a = u)) as [->|Hna].
  - exfalso. rewrite Hnew in Hpa. injection Hpa as <-. destruct search_parent as (t' & Ht' & Hst & Hct & _).
    rewrite Ht in Ht'. injection Ht' as <-. rewrite Hsame in Hpy by (intros ->; lia).
    assert (above f c y) as Hcy.
    { apply (uncrossed f k Hf c t y Hst); [by eexists|done| |done|].
      - apply (above_ordered root rk tp c y t tp_climbs); [by eapply pv_above_tree|done|lia].
      - intros y' a' Hya _ Hle. apply (pv_cross f k Hf) in Hya. lia. }
    pose proof (above_rank root rk f c py Hc (above_up root f c y py Hcy Hpy ltac:(intros ->; lia) Hyr)). lia.
  - destruct (decide (y = u)) as [->|Hny]; [lia|]. rewrite Hsame in Hpy, Hpa by done.
    assert (crossing f y a) as H by (split_and!; [done|done|]; by exists py, pa, t).
    apply (pv_cross f k Hf) in H. assert (rk a <> k) by (intros E; apply Hna, rk_inj; [done|done|lia]). lia.
Qed.

Lemma change_provisional : provisional f' (k + 1).
Proof.
  split.
  - rewrite Hsame by done. apply (pv_root f k Hf).
  - intros v p Hp Hr. destruct (decide (v = u)) as [->|Hne].
    + rewrite Hnew in Hp. injection Hp as <-. destruct search_parent as (t & Ht & _ & Hct & _). split_and!; [done| |].
      * apply change_some. right. apply new_some.
      * exists t. split; [done|by eapply pv_above_tree].
    + rewrite Hsame in Hp by done. destruct (pv_tree f k Hf v p Hp Hr) as (H1 & H2 & H3). split_and!; [done| |done].
      apply change_some. by right.
  - intros v Hv Hlt. apply change_some. destruct (decide (v = u)) as [->|Hne]; [by left|]. right.
    apply (pv_visited f k Hf v Hv). assert (rk v <> k) by (intros E; apply Hne, rk_inj; [done|done|lia]). lia.
  - intros v t Hv Hr Ht. apply change_some. right. destruct (decide (v = u)) as [->|Hne].
    + destruct search_parent as (t' & Ht' & Hs & _). by simplify_eq.
    + rewrite Hsame in Hv by done. by apply (pv_closed f k Hf v t).
  - apply change_dom.
  - apply change_meet.
  - apply change_crossing.
Qed.
End Change.

(** Visiting a block whose parent stays. *)
Lemma keep_provisional f k u c : provisional f k -> R u -> u <> root -> rk u = k -> f u = Some c ->
  (forall x, above f x c <-> forall p, edge p u -> is_Some (f p) -> above f x p) -> provisional f (k + 1).
Proof. intros Hf Hu Hr Hk Hc Hmeet. by apply (change_provisional f k Hf u c Hu Hr Hk f). Qed.

Lemma first_provisional f : f root = Some root -> (forall v, v <> root -> f v = None) -> provisional f 1.
Proof.
  intros Hroot Hother. split.
  - done.
  - intros v p Hp Hr. by rewrite Hother in Hp.
  - intros v Hv Hlt. destruct (decide (v = root)) as [->|Hne]; [by eexists|]. pose proof (root_lowest v Hv Hne). lia.
  - intros v t [p Hp] Hr. by rewrite Hother in Hp.
  - intros d v [p Hp] Hd. destruct (decide (v = root)) as [->|Hne]; [|by rewrite Hother in Hp].
    specialize (Hd [root] (path_root _ _)). apply list_elem_of_singleton in Hd as ->. done.
  - intros v p x Hp Hr. by rewrite Hother in Hp.
  - intros y a (Hyr & _ & py & _ & _ & Hpy & _). by rewrite Hother in Hpy.
Qed.

(** A round that has visited every block starts the next one. *)
Lemma round_provisional f k : provisional f k -> (forall v, R v -> rk v < k) -> provisional f 1.
Proof.
  intros Hf Hall. split; try apply Hf.
  - intros v Hv _. apply (pv_visited f k Hf v Hv). by apply Hall.
  - intros y a Hya. pose proof (pv_cross f k Hf y a Hya) as [_ Hle]. destruct Hya as (_ & Har & _ & _ & t & _ & _ & Ht & _).
    destruct (tp_ok a t Ht Har) as (HR & _). specialize (Hall a HR). lia.
Qed.

(** *** Where the rounds end *)

Lemma settled_dominators f k : provisional f k -> (forall v, R v -> is_Some (f v)) ->
  (forall v c x, R v -> v <> root -> f v = Some c -> above f x c -> forall p, edge p v -> R p -> above f x p) ->
  forall d v, R v -> above f d v <-> dom d v.
Proof.
  intros Hf Hall Hset d v Hv. split; [|intros Hd; by apply (pv_dom f k Hf), Hd; apply Hall].
  intros Hdv l Hl. revert Hdv. induction Hl as [|l a b Hl IH Hab]; intros Hdv.
  - apply rtc_inv_r in Hdv as [->|(q & _ & [_ ?])]; [by left|done].
  - destruct (decide (d = b)) as [->|Hne]; [apply elem_of_app; right; by left|].
    apply elem_of_app. left. assert (R a) as HRa by (by exists l). apply (IH HRa).
    destruct (decide (b = root)) as [->|Hr].
    { apply rtc_inv_r in Hdv as [?|(q & _ & [_ ?])]; done. }
    destruct (Hall b Hv) as [c Hc]. apply (Hset b c d Hv Hr Hc); [|done|done]. by eapply above_up.
Qed.
End Tree.
