(* ===== verification/DominanceIterate.v ===== *)
(** * The index of the tree

    Children, subtree intervals and ancestors at powers of two of a tree of parents,
    and the queries they answer. *)

From S2P Require Import Prelude Dominance DominanceTree.
Local Open Scope Z_scope.

(** * The iteration

    One visit of a block, one round and the rounds, on the vectors of the source:
    every visit keeps the provisional tree, every round but the last lowers the rank
    of some parent, and the last one leaves the tree of dominators. *)

(** The parents of a tree being built. *)
Definition parents_of (d : Dominators) : Parents := fun v => mjoin (parent d !! v).

Lemma parents_some d v p : parents_of d v = Some p <-> parent d !! v = Some (Some p).
Proof. unfold parents_of. destruct (parent d !! v) as [[]|]; cbn; naive_solver. Qed.

(** ** Ranks *)

Lemma ranks_from_some order position ranks : NoDup order -> Forall (fun v => v < length ranks)%nat order ->
  exists r, ranks_from position order ranks = Some r /\ length r = length ranks /\
    (forall i v, order !! i = Some v -> r !! v = Some (position + Z.of_nat i)) /\
    forall v, v ∉ order -> r !! v = ranks !! v.
Proof.
  revert position ranks. induction order as [|v order IH]; intros position ranks Hnd Hlt; cbn [ranks_from]; [by exists ranks|].
  apply NoDup_cons in Hnd as [Hv Hnd]. apply Forall_cons in Hlt as [Hvl Hlt].
  destruct (lookup_lt_is_Some_2 ranks v Hvl) as [z ->]. cbn [mbind option_bind].
  destruct (IH (position + 1) (<[v := position]> ranks)) as (r & Hr & Hlen & Hin & Hout); [done|by rewrite length_insert|].
  exists r. rewrite length_insert in Hlen. split_and!; [done|done| |].
  - intros [|i] w Hi; cbn in Hi.
    + injection Hi as <-. rewrite Hout by done. rewrite list_lookup_insert_eq by done. f_equal. lia.
    + rewrite (Hin i w Hi). f_equal. lia.
  - intros w Hw. rewrite not_elem_of_cons in Hw. rewrite Hout by apply Hw. by rewrite list_lookup_insert_ne by naive_solver.
Qed.

Section Iterate.
Context (successors predecessors : list (list nat)) (root : nat) (Htargets : targets_ok successors) (Hroot : (root < length successors)%nat).
Context (Hpreds : forall v, (v < length successors)%nat -> exists l, predecessors !! v = Some l /\ forall p, p ∈ l <-> edge successors p v).
Notation R := (reaches successors root).
Notation above := (above root).
Notation count := (length successors).

(** The reverse postorder and its ranks. *)
Context (order : list nat) (ranks : list Z).
Context (order_nodup : NoDup order) (order_head : head order = Some root) (order_reach : forall v, v ∈ order <-> R v).
Context (order_earlier : forall v, v ∈ order -> v = root \/ exists i j p, order !! i = Some v /\ order !! j = Some p /\ (j < i)%nat /\ edge successors p v).
Context (ranks_length : length ranks = count).
Context (ranks_order : forall i v, order !! i = Some v -> ranks !! v = Some (Z.of_nat i)).
Context (ranks_pos : Forall (fun z => 0 <= z) ranks).
#[local] Set Default Proof Using "All".

Definition rk (v : nat) : Z := default 0 (ranks !! v).

Lemma edge_lt a b : edge successors a b -> (a < count)%nat /\ (b < count)%nat.
Proof. intros (l & Hl & Hb). split; [by eapply lookup_lt_Some|by eapply Htargets]. Qed.

Lemma reaches_lt v : R v -> (v < count)%nat.
Proof. intros [l Hl]. destruct Hl as [|l a b _ He]; [exact Hroot|exact (proj2 (edge_lt a b He))]. Qed.

Lemma rk_at i v : order !! i = Some v -> rk v = Z.of_nat i.
Proof. intros H. unfold rk. by rewrite (ranks_order i v H). Qed.

Lemma order_at v : R v -> exists i, order !! i = Some v /\ rk v = Z.of_nat i.
Proof. intros [i Hi]%order_reach%list_elem_of_lookup. exists i. split; [done|by apply rk_at]. Qed.

Lemma rk_root : rk root = 0.
Proof. apply (rk_at 0). by rewrite <- head_lookup. Qed.

Lemma rk_pos v : 0 <= rk v.
Proof.
  unfold rk. destruct (ranks !! v) as [z|] eqn:Hz; cbn; [|done]. rewrite Forall_lookup in ranks_pos. by eapply ranks_pos.
Qed.

Lemma rk_inj a b : R a -> R b -> rk a = rk b -> a = b.
Proof.
  intros (i & Hi & Hri)%order_at (j & Hj & Hrj)%order_at H. assert (i = j) as -> by lia. congruence.
Qed.

Lemma order_length : (length order <= count)%nat.
Proof.
  assert (order ⊆+ seq 0 count) as H.
  { apply NoDup_submseteq; [done|]. intros v Hv%order_reach%reaches_lt. apply elem_of_seq. lia. }
  apply submseteq_length in H. by rewrite length_seq in H.
Qed.

Lemma rk_lt v : R v -> rk v < Z.of_nat (length order).
Proof. intros (i & Hi & ->)%order_at. apply lookup_lt_Some in Hi. lia. Qed.

Lemma rank_some v : R v -> ranks !! v = Some (rk v).
Proof. intros (i & Hi & ->)%order_at. by apply ranks_order. Qed.

(** The tree of the search. *)
Definition search_tree (v : nat) : option nat :=
  snd <$> list_find (fun p => v ∈ default [] (successors !! p) /\ rk p < rk v) order.

Lemma search_tree_ok v p : search_tree v = Some p -> v <> root -> R v /\ R p /\ edge successors p v /\ rk p < rk v.
Proof.
  intros ([i p'] & (Hp & (Hv & Hlt) & _)%list_find_Some & ->)%fmap_Some _. cbn.
  assert (R p') as HR by (by eapply order_reach, list_elem_of_lookup_2).
  assert (edge successors p' v) as He.
  { destruct (successors !! p') as [l|] eqn:Hl; cbn in Hv; [by exists l|by apply elem_of_nil in Hv]. }
  split_and!; [|done|done|done]. by eapply reaches_edge.
Qed.

Lemma search_tree_some v : R v -> v <> root -> exists p, search_tree v = Some p.
Proof.
  intros Hv Hr. destruct (order_earlier v) as [->|(i & j & p & Hi & Hj & Hlt & l & Hl & Hin)]; [by apply order_reach|done|].
  unfold search_tree. destruct (list_find _ order) as [[k q]|] eqn:E; [by exists q|]. exfalso.
  apply list_find_None in E. rewrite Forall_lookup in E. apply (E j p Hj). rewrite Hl. cbn. split; [done|].
  rewrite (rk_at i v Hi), (rk_at j p Hj). lia.
Qed.

Notation provisional := (provisional successors root rk search_tree).

(** ** The tree being built *)

Record building (d : Dominators) (k : Z) : Prop := {
  bd_length : length (parent d) = count;
  bd_rank : rank d = ranks;
  bd_ancestors : ancestors d = [];
  bd_provisional : provisional (parents_of d) k;
}.

Section Building.
Context (d : Dominators) (k : Z) (Hd : building d k).
#[local] Set Default Proof Using "All".
Notation f := (parents_of d).

Lemma bd_climbs : climbs root rk f.
Proof. eapply pv_climbs; [apply rk_root|apply rk_pos|apply rk_inj|apply search_tree_ok|apply search_tree_some|apply (bd_provisional d k Hd)]. Qed.

Lemma bd_reaches v : is_Some (f v) -> R v.
Proof. eapply pv_reaches; [apply rk_root|apply rk_pos|apply rk_inj|apply search_tree_ok|apply search_tree_some|apply (bd_provisional d k Hd)]. Qed.

Lemma bd_parent v p : f v = Some p -> v <> root -> is_Some (f p) /\ rk p < rk v.
Proof.
  intros Hp Hr. split; [|by apply bd_climbs; split]. by destruct (pv_tree _ _ _ _ _ _ (bd_provisional d k Hd) v p Hp Hr) as (_ & ? & _).
Qed.

(** A block that ranks above another is not the root. *)
Lemma above_meet a b p x : f a = Some p -> a <> root -> a <> b -> rk b <= rk a -> above f x p /\ above f x b <-> above f x a /\ above f x b.
Proof.
  intros Hp Hr Hne Hlt. split; intros [H1 H2]; (split; [|done]).
  - transitivity p; [done|]. by apply above_parent.
  - apply (above_up root f x a p H1 Hp); [|done]. intros ->.
    pose proof (above_strict root rk f a b bd_climbs H2 Hne). lia.
Qed.

Lemma climb_meet a b : is_Some (f a) -> is_Some (f b) ->
  exists c, climb d a b = Some (Some c) /\ is_Some (f c) /\ forall x, above f x c <-> above f x a /\ above f x b.
Proof.
  intros Ha Hb. unfold climb.
  edestruct (repeat_times_measure (climb_step d)
    (fun s => is_Some (f s.1) /\ is_Some (f s.2) /\ forall x, above f x s.1 /\ above f x s.2 <-> above f x a /\ above f x b)
    (fun r => exists c, r = Some (Some c) /\ is_Some (f c) /\ forall x, above f x c <-> above f x a /\ above f x b)
    (fun s => Z.to_nat (rk s.1 + rk s.2))) as (r & -> & Hr); [| | |exact Hr].
  - intros [a' b'] (Ha' & Hb' & Hall). cbn [fst snd] in *. cbn [climb_step].
    destruct (Nat.eqb_spec a' b') as [->|Hne]; [exists b'; naive_solver|].
    pose proof (bd_reaches a' Ha') as HRa. pose proof (bd_reaches b' Hb') as HRb.
    rewrite (bd_rank d k Hd), (rank_some a' HRa), (rank_some b' HRb).
    pose proof (rk_pos a'). pose proof (rk_pos b'). destruct Ha' as [pa Hpa]. destruct Hb' as [pb Hpb].
    destruct (Z.ltb_spec (rk b') (rk a')) as [Hlt|Hle].
    + assert (a' <> root) as Har by (intros ->; rewrite rk_root in *; lia). destruct (bd_parent a' pa Hpa Har) as [Hs Hlt'].
      rewrite (proj1 (parents_some d a' pa) Hpa). split; [|cbn; pose proof (rk_pos pa); lia].
      split_and!; [done|by eexists|]. intros x. cbn. rewrite (above_meet a' b' pa x Hpa Har Hne ltac:(lia)). apply Hall.
    + assert (rk a' <> rk b') as Hrne by (intros E; by apply Hne, rk_inj).
      assert (b' <> root) as Hbr by (intros ->; rewrite rk_root in *; lia). destruct (bd_parent b' pb Hpb Hbr) as [Hs Hlt'].
      rewrite (proj1 (parents_some d b' pb) Hpb). split; [|cbn; pose proof (rk_pos pb); lia].
      split_and!; [by eexists|done|]. intros x. cbn.
      pose proof (above_meet b' a' pb x Hpb Hbr ltac:(done) Hle) as Hm. specialize (Hall x). tauto.
  - split_and!; done.
  - cbn. rewrite (bd_length d k Hd). pose proof (rk_lt a (bd_reaches a Ha)). pose proof (rk_lt b (bd_reaches b Hb)).
    pose proof order_length. lia.
Qed.

Lemma common_meet a b : is_Some (f a) -> is_Some (f b) ->
  exists c, common d a b = Some (Some c) /\ is_Some (f c) /\ forall x, above f x c <-> above f x a /\ above f x b.
Proof.
  intros Ha Hb. destruct (climb_meet a b Ha Hb) as (c & Hc & Hall). exists c. split; [|done]. unfold common.
  destruct Ha as [pa ->%parents_some], Hb as [pb ->%parents_some]. by rewrite (bd_ancestors d k Hd).
Qed.

(** The nearest common ancestor of what was met and of the predecessors left. *)
Definition meets (c : nat) (acc : option nat) (l : list nat) : Prop :=
  is_Some (f c) /\ forall x, above f x c <-> (forall a, acc = Some a -> above f x a) /\ forall p, p ∈ l -> is_Some (f p) -> above f x p.

Lemma meets_cons c q acc p l : meets c (Some q) l -> is_Some (f p) ->
  (forall x, above f x q <-> (forall a, acc = Some a -> above f x a) /\ above f x p) -> meets c acc (p :: l).
Proof.
  intros [Hs Hm] Hp Hq. split; [done|]. intros x. rewrite Hm. split.
  - intros [H1 H2]. apply Hq in H1 as [Ha Hx]; [|done]. split; [done|]. intros r [->|Hr]%elem_of_cons Hsr; [done|by apply H2].
  - intros [H1 H2]. split; [intros a [= <-]; apply Hq; split; [done|]; apply H2; [left|done]|].
    intros r Hr. apply H2. by right.
Qed.

Lemma meets_skip c acc p l : meets c acc l -> f p = None -> meets c acc (p :: l).
Proof.
  intros [Hs Hm] Hp. split; [done|]. intros x. rewrite Hm. split; intros [H1 H2]; (split; [done|]).
  - intros r [->|Hr]%elem_of_cons [q Hq]; [congruence|]. apply H2; [done|by eexists].
  - intros r Hr. apply H2. by right.
Qed.

Lemma common_predecessor_some l acc : Forall (fun p => p < count)%nat l -> (forall a, acc = Some a -> is_Some (f a)) ->
  exists r, common_predecessor d l acc = Some r /\
    match r with Some c => meets c acc l | None => acc = None /\ forall p, p ∈ l -> f p = None end.
Proof.
  revert acc. induction l as [|p l IH]; intros acc Hl Hacc; cbn [common_predecessor].
  - exists acc. split; [done|]. destruct acc as [a|]; [|split; [done|]; by intros p []%elem_of_nil].
    split; [by apply Hacc|]. intros x. split; [|naive_solver]. intros H. split; [by intros ? [= <-]|]. by intros p []%elem_of_nil.
  - apply Forall_cons in Hl as [Hp Hl]. destruct (lookup_lt_is_Some_2 (parent d) p) as [o Ho]; [by rewrite (bd_length d k Hd)|].
    rewrite Ho. cbn [mbind option_bind]. destruct o as [q|].
    2: { assert (f p = None) as Hn by (unfold parents_of; by rewrite Ho).
      destruct (IH acc Hl Hacc) as (r & Hr & Hm). exists r. split; [done|]. destruct r as [c|]; [by apply meets_skip|].
      destruct Hm as [-> Hm]. split; [done|]. intros p' [->|H]%elem_of_cons; [done|by apply Hm]. }
    assert (is_Some (f p)) as Hsp by (exists q; by apply parents_some).
    destruct acc as [a|].
    + destruct (common_meet a p) as (c & -> & Hsc & Hc); [by apply Hacc|done|]. cbn [mbind option_bind].
      destruct (IH (Some c) Hl ltac:(by intros ? [= <-])) as (r & Hr & Hm). exists r. split; [done|]. destruct r as [c'|]; [|by destruct Hm].
      apply (meets_cons c' c); [done|done|]. intros x. rewrite Hc. split; intros [H1 H2]; (split; [|done]); [by intros ? [= <-]|by apply H1].
    + destruct (IH (Some p) Hl ltac:(by intros ? [= <-])) as (r & Hr & Hm). exists r. split; [done|]. destruct r as [c'|]; [|by destruct Hm].
      apply (meets_cons c' p); [done|done|]. intros x. split; [intros H; split; [done|exact H]|by intros [_ H]].
Qed.

(** Visiting the next block of the round. *)
Lemma visit u : R u -> u <> root -> rk u = k ->
  exists l c o, predecessors !! u = Some l /\ common_predecessor d l None = Some (Some c) /\ parent d !! u = Some o /\
    forall x, above f x c <-> forall p, edge successors p u -> is_Some (f p) -> above f x p.
Proof.
  intros Hu Hr Hk. pose proof (reaches_lt u Hu) as Hlt. destruct (Hpreds u Hlt) as (l & Hl & Hin).
  destruct (lookup_lt_is_Some_2 (parent d) u) as [o Ho]; [by rewrite (bd_length d k Hd)|].
  destruct (common_predecessor_some l None) as (r & Hcp & Hm); [|done|].
  { apply Forall_forall. intros p Hp%Hin. exact (proj1 (edge_lt p u Hp)). }
  destruct r as [c|].
  - exists l, c, o. split_and!; [done|done|done|]. intros x. destruct Hm as [_ Hm]. rewrite Hm. setoid_rewrite Hin. naive_solver.
  - exfalso. destruct Hm as [_ Hnone]. destruct (search_tree_some u Hu Hr) as [t Ht].
    destruct (search_tree_ok u t Ht Hr) as (_ & HRt & He & Hrk). specialize (Hnone t ltac:(by apply Hin)).
    pose proof (pv_visited _ _ _ _ _ _ (bd_provisional d k Hd) t HRt ltac:(lia)) as Hs. rewrite Hnone in Hs. by destruct Hs.
Qed.
End Building.

(** ** Rounds *)

Definition weight_of (o : option nat) : nat := match o with Some p => Z.to_nat (rk p) | None => count end.
Definition weight (d : Dominators) : nat := sum_list (weight_of <$> parent d).

Lemma weight_set d u o c : parent d !! u = Some o -> (weight_of (Some c) < weight_of o)%nat ->
  (weight (set_parent u (Some c) d) < weight d)%nat.
Proof.
  unfold weight. cbn [parent set_parent]. generalize (parent d) as l. intros l. revert u. induction l as [|x l IH]; intros [|u] H Hlt; try done.
  - cbn in H. injection H as ->. apply Nat.add_lt_mono_r. exact Hlt.
  - apply Nat.add_lt_mono_l. exact (IH u H Hlt).
Qed.

(** Every block of the list has the nearest common ancestor of its predecessors for a parent. *)
Definition settled (d : Dominators) (nodes : list nat) : Prop :=
  forall u c x p, u ∈ nodes -> parents_of d u = Some c -> above (parents_of d) x c -> edge successors p u -> is_Some (parents_of d p) ->
    above (parents_of d) x p.

Lemma set_parent_other d u o v : v <> u -> parents_of (set_parent u o d) v = parents_of d v.
Proof. intros Hne. unfold parents_of. cbn. by rewrite list_lookup_insert_ne. Qed.

Lemma set_parent_same d u o : (u < length (parent d))%nat -> parents_of (set_parent u o d) u = o.
Proof. intros Hlt. unfold parents_of. cbn. by rewrite list_lookup_insert_eq. Qed.

Lemma visit_step d k u : building d (Z.of_nat k) -> order !! k = Some u -> u <> root ->
  exists l c o, predecessors !! u = Some l /\ common_predecessor d l None = Some (Some c) /\ parent d !! u = Some o /\
    (if decide (o = Some c) then building d (Z.of_nat (S k)) /\ settled d [u]
     else building (set_parent u (Some c) d) (Z.of_nat (S k)) /\ (weight (set_parent u (Some c) d) < weight d)%nat).
Proof.
  intros Hd Hu Hr. assert (R u) as HRu by (by eapply order_reach, list_elem_of_lookup_2). pose proof (rk_at k u Hu) as Hk.
  destruct (visit d _ Hd u HRu Hr Hk) as (l & c & o & Hl & Hc & Ho & Hm). exists l, c, o. split_and!; [done|done|done|].
  pose proof (bd_provisional d _ Hd) as Hp. pose proof (reaches_lt u HRu) as Hlt. replace (Z.of_nat (S k)) with (Z.of_nat k + 1) by lia.
  case_decide as Heq.
  - subst o. assert (parents_of d u = Some c) as Hpu by (by apply parents_some). split.
    + split; try apply Hd. eapply keep_provisional; [apply rk_root|apply rk_pos|apply rk_inj|apply search_tree_ok|apply search_tree_some|exact Hp|done|done|done|exact Hpu|done].
    + intros v c' x p ->%list_elem_of_singleton Hc' Hx Hpe Hs. rewrite Hpu in Hc'. injection Hc' as <-. by apply Hm.
  - split.
    + split; cbn; [by rewrite length_insert; apply Hd|apply Hd|apply Hd|].
      eapply (change_provisional successors root rk search_tree rk_root rk_pos rk_inj search_tree_ok search_tree_some _ _ Hp u c HRu Hr Hk); [|intros v Hv; by apply set_parent_other|done].
      apply set_parent_same. by rewrite (bd_length d _ Hd).
    + apply (weight_set d u o); [done|]. assert (rk c < rk u /\ is_Some (parents_of d c)) as [Hrc Hsc].
      { destruct (search_tree_some u HRu Hr) as [t Ht]. destruct (search_tree_ok u t Ht Hr) as (_ & HRt & He & Hrt).
        assert (is_Some (parents_of d t)) as Hst by (apply (pv_visited _ _ _ _ _ _ Hp t HRt); lia).
        assert (above (parents_of d) c t) as Hct by (by apply Hm). pose proof (above_rank root rk _ c t (bd_climbs d _ Hd) Hct). split; [lia|].
        eapply (pv_above_some _ _ _ _ rk_root rk_pos rk_inj search_tree_ok search_tree_some); [exact Hp|exact Hst|exact Hct]. }
      destruct o as [q|]; cbn.
      * assert (above (parents_of d) c q) as Hcq.
        { apply (pv_meet _ _ _ _ _ _ Hp u q c); [by apply parents_some|done|]. by apply Hm. }
        pose proof (above_strict root rk _ c q (bd_climbs d _ Hd) Hcq ltac:(congruence)). pose proof (rk_pos c). lia.
      * pose proof (rk_lt c (bd_reaches d _ Hd c Hsc)). pose proof order_length. lia.
Qed.

Lemma pass_some nodes d k changed : building d (Z.of_nat k) -> (1 <= k)%nat -> drop k order = nodes ->
  exists d' k' changed', dominance_pass predecessors nodes d changed = Some (d', changed') /\
    building d' k' /\ (forall v, R v -> rk v < k') /\
    ((d' = d /\ changed' = changed /\ settled d nodes) \/ (changed' = true /\ (weight d' < weight d)%nat)).
Proof.
  revert d k changed. induction nodes as [|u nodes IH]; intros d k changed Hd Hk Hdrop; cbn [dominance_pass].
  - exists d, (Z.of_nat k), changed. split_and!; [done|done| |].
    + intros v Hv. pose proof (rk_lt v Hv). assert (length (drop k order) = 0%nat) as E by (by rewrite Hdrop). rewrite length_drop in E. lia.
    + left. split_and!; [done|done|]. by intros u c x p []%elem_of_nil.
  - assert (order !! k = Some u) as Hu by (rewrite <- (Nat.add_0_r k), <- lookup_drop, Hdrop; done).
    assert (drop (S k) order = nodes) as Hdrop' by (rewrite <- Nat.add_1_r, <- drop_drop, Hdrop; done).
    assert (u <> root) as Hr.
    { intros ->. pose proof (rk_at k root Hu) as E. rewrite rk_root in E. lia. }
    destruct (visit_step d k u Hd Hu Hr) as (l & c & o & -> & Hc & Ho & Hnext). cbn [mbind option_bind]. rewrite Hc. cbn [mbind option_bind].
    rewrite Ho. cbn [mbind option_bind]. case_decide as Heq; [rewrite bool_decide_true by done|rewrite bool_decide_false by done]; destruct Hnext as [Hd' Hnext].
    + destruct (IH d (S k) changed Hd' ltac:(lia) Hdrop') as (d' & k' & ch & Hpass & Hb & Hall & Hor).
      exists d', k', ch. split_and!; [exact Hpass|done|done|]. destruct Hor as [(-> & -> & Hs)|H]; [left|by right]. split_and!; [done|done|].
      intros v c' x p [->|Hv]%elem_of_cons; [apply Hnext; left|by apply Hs].
    + destruct (IH _ (S k) true Hd' ltac:(lia) Hdrop') as (d' & k' & ch & Hpass & Hb & Hall & Hor).
      exists d', k', ch. split_and!; [exact Hpass|done|done|]. right. destruct Hor as [(-> & -> & _)|[-> Hlt]]; split; try done. lia.
Qed.

(** The tree the rounds end with. *)
Definition finished (r : option Dominators) : Prop := exists d, r = Some d /\ building d 1 /\
  (forall v, R v -> is_Some (parents_of d v)) /\ forall a v, R v -> above (parents_of d) a v <-> dom successors root a v.

Lemma rounds_finish d : building d 1 -> parent d = <[root := Some root]> (replicate count None) ->
  exists r, repeat_times (dominance_step predecessors (tail order)) (dominance_fuel count) d = inr r /\ finished r.
Proof.
  intros Hd Hstart. apply (repeat_times_measure _ (fun d => building d 1) finished weight); [|done|].
  - clear d Hd Hstart. intros d Hd. unfold dominance_step.
    destruct (pass_some (tail order) d 1 false Hd ltac:(lia)) as (d' & k' & ch & -> & Hb & Hall & Hor).
    { destruct order; [done|]. done. }
    assert (building d' 1) as Hb'.
    { split; try apply Hb. eapply round_provisional; [apply rk_root|apply rk_pos|apply rk_inj|apply search_tree_ok|apply search_tree_some|apply Hb|done]. }
    destruct Hor as [(-> & -> & Hs)|[-> Hlt]]; [|done]. exists d. split_and!; [done|done| |].
    + intros v Hv. apply (pv_visited _ _ _ _ _ _ (bd_provisional d _ Hb) v Hv). by apply Hall.
    + intros a v Hv. eapply (settled_dominators successors root rk search_tree rk_root rk_pos rk_inj search_tree_ok search_tree_some _ _ (bd_provisional d _ Hb)); [| |done].
      * intros w Hw. apply (pv_visited _ _ _ _ _ _ (bd_provisional d _ Hb) w Hw). by apply Hall.
      * intros w c x Hw Hwr Hc Hx p Hp HRp. apply (Hs w c x p); try done.
        -- apply order_reach in Hw. destruct order as [|r' rest]; [done|]. cbn in order_head. injection order_head as ->.
           by apply elem_of_cons in Hw as [?|?].
        -- apply (pv_visited _ _ _ _ _ _ (bd_provisional d _ Hb) p HRp). by apply Hall.
  - unfold dominance_fuel, weight. rewrite Hstart.
    assert (forall l, Forall (fun o => weight_of o <= count)%nat l -> (sum_list (weight_of <$> l) <= length l * count)%nat) as H.
    { induction 1 as [|o l Ho Hl IH]; [done|]. exact (Nat.add_le_mono _ _ _ _ Ho IH). }
    specialize (H (<[root := Some root]> (replicate count None))). rewrite length_insert, length_replicate in H.
    assert (Forall (fun o => weight_of o <= count)%nat (<[root := Some root]> (replicate count None))) as Hi.
    { apply Forall_insert; [|cbn; rewrite rk_root; lia]. apply Forall_replicate. done. }
    specialize (H Hi). lia.
Qed.

Definition first_tree : Dominators := mkDominators (<[root := Some root]> (replicate count None)) ranks [] [].

Lemma first_building : building first_tree 1.
Proof.
  split; cbn; [by rewrite length_insert, length_replicate|done|done|].
  apply (first_provisional successors root rk search_tree rk_root rk_pos rk_inj search_tree_ok search_tree_some).
  - unfold parents_of. cbn. by rewrite list_lookup_insert_eq by (by rewrite length_replicate).
  - intros v Hv. unfold parents_of. cbn. rewrite list_lookup_insert_ne by done. destruct (_ !! v) as [o|] eqn:E; [|done].
    by apply lookup_replicate in E as [-> _].
Qed.

Lemma iterated : exists d, repeat_times (dominance_step predecessors (tail order)) (dominance_fuel count) first_tree = inr (Some d) /\
  length (parent d) = count /\ rank d = ranks /\ parents_of d root = Some root /\
  (forall v p, parents_of d v = Some p -> v <> root -> is_Some (parents_of d p) /\ rk p < rk v) /\
  (forall v, is_Some (parents_of d v) <-> R v) /\ (forall v, R v -> rk v < Z.of_nat count /\ ranks !! v = Some (rk v)) /\
  forall a v, R v -> above (parents_of d) a v <-> dom successors root a v.
Proof.
  destruct (rounds_finish first_tree first_building eq_refl) as (r & Hr & d & -> & Hd & Hall & Hdom). exists d. split_and!.
  - done.
  - apply (bd_length d 1 Hd).
  - apply (bd_rank d 1 Hd).
  - apply (pv_root _ _ _ _ _ _ (bd_provisional d 1 Hd)).
  - apply (bd_parent d 1 Hd).
  - intros v. split; [apply (bd_reaches d 1 Hd)|apply Hall].
  - intros v Hv. split; [|by apply rank_some]. pose proof (rk_lt v Hv). pose proof order_length. lia.
  - exact Hdom.
Qed.
End Iterate.

Lemma repeat_times_stop {S R} (step : S -> S + R) k s s' r : (forall m, repeat_times step (k + m) s = repeat_times step m s') ->
  step s' = inr r -> forall n, (k < n)%nat -> repeat_times step n s = inr r.
Proof.
  intros Hk Hr n Hn. replace n with (k + Datatypes.S (n - k - 1))%nat by lia. rewrite Hk. cbn. by rewrite Hr.
Qed.

Lemma common_indexed d a b pa pb : parent d !! a = Some (Some pa) -> parent d !! b = Some (Some pb) -> ancestors d <> [] ->
  common d a b = (ab ← encloses d a b;
    if ab : bool then Some (Some a)
    else ba ← encloses d b a; if ba : bool then Some (Some b) else a ← lift d (rev (ancestors d)) a b; parent d !! a).
Proof. intros Ha Hb Hne. unfold common. rewrite Ha, Hb. cbn [mbind option_bind]. by destruct (ancestors d). Qed.

Definition tree_of (ps : list (option nat)) : Parents := fun v => mjoin (ps !! v).

Section Index.
Context (ps : list (option nat)) (root : nat) (rk : nat -> Z).
Notation f := (tree_of ps).
Notation above := (above root f).
Context (rk_pos : forall v, 0 <= rk v) (f_root : f root = Some root).
Context (f_climbs : forall v p, f v = Some p -> v <> root -> is_Some (f p) /\ rk p < rk v).
Context (rk_lt : forall v, is_Some (f v) -> rk v < Z.of_nat (length ps)).
#[local] Set Default Proof Using "All".

Lemma ps_some v p : f v = Some p <-> ps !! v = Some (Some p).
Proof. unfold tree_of. destruct (ps !! v) as [[]|]; cbn; naive_solver. Qed.

Lemma ps_lt v : is_Some (f v) -> (v < length ps)%nat.
Proof. intros [p Hp%ps_some]. by eapply lookup_lt_Some. Qed.

Lemma ps_climbs : climbs root rk f.
Proof. intros x y [Hy Hr]. by apply (f_climbs y x). Qed.

Lemma parent_some v p : f v = Some p -> is_Some (f p).
Proof. intros Hp. destruct (decide (v = root)) as [->|Hr]; [|by apply (f_climbs v p)]. rewrite f_root in Hp. injection Hp as <-. by eexists. Qed.

Lemma root_above v : is_Some (f v) -> above root v.
Proof.
  assert (forall m v, rk v < Z.of_nat m -> is_Some (f v) -> above root v) as H.
  2: { apply (H (S (Z.to_nat (rk v)))). specialize (rk_pos v). lia. }
  induction m as [|m IH]; intros w Hw [p Hp]; [specialize (rk_pos w); lia|].
  destruct (decide (w = root)) as [->|Hr]; [done|]. destruct (f_climbs w p Hp Hr) as [Hs Hlt].
  transitivity p; [apply IH; [lia|done]|by apply above_parent].
Qed.

Lemma above_some x v : is_Some (f v) -> above x v -> is_Some (f x).
Proof.
  intros Hv H. revert Hv. induction H as [|x y z [Hy Hr] _ IH]; [done|]. intros Hz. by eapply parent_some.
Qed.

(** ** Children *)

Definition children_ok (children : list (list nat)) : Prop :=
  length children = length ps /\ forall p l, children !! p = Some l -> NoDup l /\ forall v, v ∈ l <-> f v = Some p /\ v <> root.

Lemma self_parent v p : f v = Some p -> p = v <-> v = root.
Proof.
  intros Hp. split; [|intros ->; congruence]. intros ->. destruct (decide (v = root)) as [|Hr]; [done|].
  destruct (f_climbs v v Hp Hr). lia.
Qed.

Lemma children_from_some rest node r children : length children = length ps ->
  (forall i, rest !! i = ps !! (node + i)%nat) -> r = (if decide (root < node)%nat then Some root else None) ->
  (forall p l, children !! p = Some l -> NoDup l /\ forall v, v ∈ l <-> (v < node)%nat /\ f v = Some p /\ v <> root) ->
  exists children', children_from node rest r children = Some (Some root, children') /\ children_ok children'.
Proof.
  revert node r children. induction rest as [|o rest IH]; intros node r children Hlen Hrest Hr Hch; cbn [children_from].
  - assert (forall v, is_Some (f v) -> (v < node)%nat) as Hall.
    { intros v Hv. apply ps_lt in Hv as Hlt. destruct (Nat.lt_ge_cases v node) as [|Hge]; [done|].
      specialize (Hrest (v - node)%nat). rewrite lookup_nil in Hrest. replace (node + (v - node))%nat with v in Hrest by lia.
      symmetry in Hrest. apply lookup_ge_None in Hrest. lia. }
    exists children. rewrite Hr, decide_True by (apply Hall; rewrite f_root; by eexists). split; [done|]. split; [done|].
    intros p l Hl. destruct (Hch p l Hl) as [Hnd Hin]. split; [done|]. intros v. rewrite Hin. split; [naive_solver|].
    intros [Hv Hvr]. split_and!; [apply Hall; by eexists|done|done].
  - pose proof (Hrest 0%nat) as Hnode. cbn in Hnode. rewrite Nat.add_0_r in Hnode. symmetry in Hnode.
    assert (forall i, rest !! i = ps !! (S node + i)%nat) as Hrest'.
    { intros i. rewrite Nat.add_succ_comm. exact (Hrest (S i)). }
    assert (f node = o) as Hf by (unfold tree_of; rewrite Hnode; by destruct o).
    destruct o as [p|].
    2: { apply IH; [done|done| |].
      - rewrite Hr. repeat case_decide; try done; [lia|]. assert (root = node) by lia. congruence.
      - intros p l Hl. destruct (Hch p l Hl) as [Hnd Hin]. split; [done|]. intros v. rewrite Hin. split; [naive_solver lia|].
        intros (Hv & Hp & Hvr). split_and!; [|done|done]. assert (v <> node) by congruence. lia. }
    pose proof (self_parent node p Hf) as Hself. destruct (Nat.eqb_spec p node) as [Heq|Hne].
    + assert (node = root) as -> by (by apply Hself). apply IH; [done|done| |].
      * rewrite decide_True by lia. done.
      * intros q l Hl. destruct (Hch q l Hl) as [Hnd Hin]. split; [done|]. intros v. rewrite Hin. split; [naive_solver lia|].
        intros (Hv & Hp & Hvr). split_and!; [lia|done|done].
    + assert (node <> root) as Hnr by (intros E; by apply Hne, Hself). pose proof (ps_lt p (parent_some node p Hf)) as Hplt.
      destruct (lookup_lt_is_Some_2 children p ltac:(lia)) as [l Hl]. rewrite Hl. cbn [mbind option_bind].
      apply IH; [by rewrite length_insert|done| |].
      * rewrite Hr. repeat case_decide; try done; lia.
      * intros q l' Hl'. destruct (decide (q = p)) as [->|Hqp].
        -- rewrite list_lookup_insert_eq in Hl' by lia. injection Hl' as <-. destruct (Hch p l Hl) as [Hnd Hin]. split.
           ++ apply NoDup_app. split_and!; [done| |apply NoDup_singleton]. intros v Hv%Hin ->%list_elem_of_singleton. lia.
           ++ intros v. rewrite elem_of_app, list_elem_of_singleton, Hin. split.
              ** intros [(? & ? & ?)| ->]; split_and!; try done; lia.
              ** intros (Hv & Hp & Hvr). destruct (decide (v = node)) as [->|]; [by right|left]. split_and!; [lia|done|done].
        -- rewrite list_lookup_insert_ne in Hl' by done. destruct (Hch q l' Hl') as [Hnd Hin]. split; [done|]. intros v. rewrite Hin.
           split; [naive_solver lia|]. intros (Hv & Hp & Hvr). split_and!; [|done|done]. assert (v <> node) by congruence. lia.
Qed.

Lemma children_found : exists children, children_from 0 ps None (replicate (length ps) []) = Some (Some root, children) /\ children_ok children.
Proof.
  apply children_from_some; [by rewrite length_replicate|done|done|].
  intros p l [-> _]%lookup_replicate. split; [apply NoDup_nil; done|]. intros v. split; [by intros []%elem_of_nil|lia].
Qed.

(** ** Intervals *)

(** The blocks of [l] are numbered from [c0] to [c1], a subtree within its root. *)
Definition numbered (intervals : list (Z * Z)) (l : list nat) (c0 c1 : Z) : Prop :=
  (forall a, a ∈ l -> exists i, intervals !! a = Some i /\ c0 <= i.1 < i.2 /\ i.2 <= c1) /\
  forall a b i j, a ∈ l -> b ∈ l -> intervals !! a = Some i -> intervals !! b = Some j -> above a b <-> i.1 <= j.1 < i.2.

Lemma numbered_same intervals intervals' l c0 c1 : (forall x, x ∈ l -> intervals' !! x = intervals !! x) ->
  numbered intervals l c0 c1 -> numbered intervals' l c0 c1.
Proof.
  intros Hsame [H1 H2]. split.
  - intros a Ha. rewrite Hsame by done. by apply H1.
  - intros a b i j Ha Hb. rewrite !Hsame by done. by apply H2.
Qed.

Lemma numbered_app intervals l1 l2 c0 c1 c2 : numbered intervals l1 c0 c1 -> numbered intervals l2 c1 c2 -> c0 <= c1 <= c2 ->
  (forall a b, a ∈ l1 -> b ∈ l2 -> ~ above a b /\ ~ above b a) -> numbered intervals (l1 ++ l2) c0 c2.
Proof.
  intros [H1 H2] [H3 H4] Hc Hcross. split.
  - intros a [Ha|Ha]%elem_of_app; [destruct (H1 a Ha) as (i & Hi & ?)|destruct (H3 a Ha) as (i & Hi & ?)]; exists i; (split; [done|lia]).
  - intros a b i j [Ha|Ha]%elem_of_app [Hb|Hb]%elem_of_app Hi Hj; [by apply H2| | |by apply H4].
    + destruct (H1 a Ha) as (i' & Hi' & ?), (H3 b Hb) as (j' & Hj' & ?). simplify_eq. destruct (Hcross a b Ha Hb). split; [done|lia].
    + destruct (H3 a Ha) as (i' & Hi' & ?), (H1 b Hb) as (j' & Hj' & ?). simplify_eq. destruct (Hcross b a Hb Ha). split; [done|lia].
Qed.

Section Walk.
Context (children : list (list nat)) (Hchildren : children_ok children).
#[local] Set Default Proof Using "All".

(** The walk of the subtrees of some blocks. *)
Definition walked (vs : list nat) : Prop := forall intervals clock work, length intervals = length ps ->
  exists l intervals', (forall m, repeat_times (interval_step children) (2 * length l + m) (intervals, clock, map (fun v => (v, false)) vs ++ work)
      = repeat_times (interval_step children) m (intervals', clock + Z.of_nat (length l), work)) /\
    length intervals' = length ps /\ NoDup l /\ (forall x, x ∈ l <-> exists v, v ∈ vs /\ above v x) /\
    (forall x, x ∉ l -> intervals' !! x = intervals !! x) /\ numbered intervals' l clock (clock + Z.of_nat (length l)).

Lemma siblings_apart p a b x y : f a = Some p -> f b = Some p -> a <> root -> b <> root -> a <> b -> above a x -> above b y ->
  ~ above x y.
Proof.
  intros Ha Hb Har Hbr Hne Hax Hby Hxy. assert (above a y) as Hay by (by transitivity x).
  destruct (above_linear root f a b y Hay Hby) as [H|H].
  - pose proof (above_rank root rk f a p ps_climbs (above_up root f a b p H Hb Hne Hbr)). destruct (f_climbs a p Ha Har). lia.
  - pose proof (above_rank root rk f b p ps_climbs (above_up root f b a p H Ha ltac:(done) Har)). destruct (f_climbs b p Hb Hbr). lia.
Qed.

Lemma walk_forest p vs : NoDup vs -> (forall v, v ∈ vs -> f v = Some p /\ v <> root /\ walked [v]) -> walked vs.
Proof.
  induction vs as [|v vs IH]; intros Hnd Hvs intervals clock work Hlen.
  - exists [], intervals. split_and!; [intros m; cbn; by rewrite Z.add_0_r|done|by apply NoDup_nil| |done|].
    + intros x. split; [by intros []%elem_of_nil|intros (v & []%elem_of_nil & _)].
    + split; [by intros a []%elem_of_nil|by intros a b i j []%elem_of_nil].
  - apply NoDup_cons in Hnd as [Hv Hnd]. destruct (Hvs v ltac:(left)) as (Hpv & Hvr & Hw).
    destruct (Hw intervals clock (map (fun v => (v, false)) vs ++ work) Hlen) as (l1 & i1 & Hs1 & Hl1 & Hn1 & Hin1 & Hout1 & Hnum1).
    destruct (IH Hnd (fun w Hw => Hvs w ltac:(by right)) i1 (clock + Z.of_nat (length l1)) work Hl1) as (l2 & i2 & Hs2 & Hl2 & Hn2 & Hin2 & Hout2 & Hnum2).
    assert (forall a b, a ∈ l1 -> b ∈ l2 -> ~ above a b /\ ~ above b a) as Hapart.
    { intros a b Ha Hb. apply Hin1 in Ha as (v' & ->%list_elem_of_singleton & Ha). apply Hin2 in Hb as (w & Hw' & Hb).
      destruct (Hvs w ltac:(by right)) as (Hpw & Hwr & _). assert (v <> w) by (intros ->; done).
      split; [by apply (siblings_apart p v w a b)|by apply (siblings_apart p w v b a)]. }
    assert (forall a, a ∈ l1 -> a ∉ l2) as Hdisj by (intros a Ha Hb; by destruct (Hapart a a Ha Hb)).
    exists (l1 ++ l2), i2. rewrite length_app, Nat2Z.inj_add, Z.add_assoc. split_and!.
    + intros m. replace (2 * (length l1 + length l2) + m)%nat with (2 * length l1 + (2 * length l2 + m))%nat by lia.
      cbn [map app] in *. rewrite Hs1. apply Hs2.
    + done.
    + by apply NoDup_app.
    + intros x. rewrite elem_of_app, Hin1, Hin2. setoid_rewrite elem_of_cons. setoid_rewrite elem_of_nil. naive_solver.
    + intros x Hx. rewrite elem_of_app in Hx. rewrite Hout2, Hout1 by naive_solver. done.
    + apply numbered_app with (clock + Z.of_nat (length l1)); [|done|lia|done].
      apply numbered_same with i1; [|done]. intros x Hx. by apply Hout2, Hdisj.
Qed.

Lemma walk_block v : is_Some (f v) -> walked [v].
Proof.
  assert (forall m v, is_Some (f v) -> Z.of_nat (length ps) - rk v < Z.of_nat m -> walked [v]) as H.
  2: { intros Hv. apply (H (S (length ps)) v Hv). specialize (rk_pos v). lia. }
  clear v. induction m as [|m IH]; intros v Hv Hm; [specialize (rk_lt v Hv); lia|].
  intros intervals clock work Hlen. pose proof (ps_lt v Hv) as Hlt. destruct Hchildren as [Hclen Hch].
  destruct (lookup_lt_is_Some_2 children v ltac:(lia)) as [vs Hvs]. destruct (Hch v vs Hvs) as [Hnd Hin].
  assert (walked vs) as Hw.
  { apply (walk_forest v); [done|]. intros w [Hw Hwr]%Hin. split_and!; [done|done|]. apply IH; [by eexists|].
    destruct (f_climbs w v Hw Hwr). lia. }
  destruct (lookup_lt_is_Some_2 intervals v ltac:(lia)) as [i Hi].
  destruct (Hw (<[v := (clock, i.2)]> intervals) (clock + 1) ((v, true) :: work)) as (l & i1 & Hs & Hl & Hn & Hinl & Hout & Hnum);
    [by rewrite length_insert|].
  assert (forall x, x ∈ l <-> above v x /\ x <> v) as Hbelow.
  { intros x. rewrite Hinl. split.
    - intros (w & [Hw' Hwr]%Hin & Hwx). assert (above v w) as Hvw by (by apply above_parent). split; [by transitivity w|].
      intros ->. pose proof (above_rank root rk f w v ps_climbs Hwx). destruct (f_climbs w v Hw' Hwr). lia.
    - intros [Hvx Hne]. apply rtc_inv in Hvx as [?|(w & [Hw' Hwr] & Hwx)]; [done|]. exists w. split; [by apply Hin|done]. }
  assert (v ∉ l) as Hvl by (intros [_ ?]%Hbelow; done).
  assert (i1 !! v = Some (clock, i.2)) as Hiv by (rewrite Hout by done; by rewrite list_lookup_insert_eq by lia).
  set (c1 := clock + 1 + Z.of_nat (length l)). exists (v :: l), (<[v := (clock, c1)]> i1).
  assert (clock + Z.of_nat (length (v :: l)) = c1) as Hc1 by (unfold c1; cbn [length]; lia). rewrite Hc1. split_and!.
  - intros k. cbn [length map app]. replace (2 * S (length l) + k)%nat with (S (2 * length l + S k))%nat by lia. cbn [repeat_times interval_step].
    rewrite Hi, Hvs. rewrite Hs. cbn [repeat_times interval_step]. rewrite Hiv. done.
  - by rewrite length_insert.
  - by constructor.
  - intros x. rewrite elem_of_cons, Hbelow. split.
    + intros [->|[Hx _]]; exists v; (split; [left|done]).
    + intros (w & ->%list_elem_of_singleton & Hx). destruct (decide (x = v)) as [->|]; [by left|by right].
  - intros x [Hx Hxl]%not_elem_of_cons. rewrite list_lookup_insert_ne by done. rewrite Hout by done. by rewrite list_lookup_insert_ne by done.
  - destruct Hnum as [Hn1 Hn2]. assert (<[v := (clock, c1)]> i1 !! v = Some (clock, c1)) as Hv' by (apply list_lookup_insert_eq; lia).
    assert (forall x, x ∈ l -> <[v := (clock, c1)]> i1 !! x = i1 !! x) as Hx' by (intros x Hx; apply list_lookup_insert_ne; by intros ->).
    split.
    + intros a [->|Ha]%elem_of_cons; [exists (clock, c1); split; [done|cbn; unfold c1; lia]|].
      rewrite Hx' by done. destruct (Hn1 a Ha) as (j & Hj & ?). exists j. split; [done|]. unfold c1. lia.
    + intros a b ia ib [->|Ha]%elem_of_cons [->|Hb]%elem_of_cons Hia Hib.
      * simplify_eq. cbn. split; [lia|done].
      * rewrite Hx' in Hib by done. destruct (Hn1 b Hb) as (j & Hj & ?). simplify_eq. cbn. split; [lia|]. intros _. by apply Hbelow.
      * rewrite Hx' in Hia by done. destruct (Hn1 a Ha) as (j & Hj & ?). simplify_eq. cbn. split; [|lia]. intros Hav. apply Hbelow in Ha as [Hva Hne].
        pose proof (above_strict root rk f v a ps_climbs Hva ltac:(done)). pose proof (above_rank root rk f a v ps_climbs Hav). lia.
      * rewrite !Hx' in * by done. by apply Hn2.
Qed.

Lemma intervals_found : exists intervals l, intervals_of children root (length ps) = Some intervals /\
  (forall v, v ∈ l <-> is_Some (f v)) /\ numbered intervals l 0 (Z.of_nat (length l)) /\ length intervals = length ps.
Proof.
  assert (is_Some (f root)) as Hr by (rewrite f_root; by eexists).
  destruct (walk_block root Hr (replicate (length ps) (usize_max, usize_max)) 0 []) as (l & i & Hs & Hlen & Hnd & Hin & _ & Hnum); [by rewrite length_replicate|].
  assert (forall v, v ∈ l <-> is_Some (f v)) as Hl.
  { intros v. rewrite Hin. split.
    - intros (w & ->%list_elem_of_singleton & Hv). apply rtc_inv_r in Hv as [->|(q & _ & [Hq _])]; [done|by eexists].
    - intros Hv. exists root. split; [left|by apply root_above]. }
  exists i, l. split_and!; [|done|done|done]. unfold intervals_of.
  erewrite (repeat_times_stop _ (2 * length l) _ _ _ Hs); [done|done|].
  assert (l ⊆+ seq 0 (length ps)) as Hsub.
  { apply NoDup_submseteq; [done|]. intros v Hv%Hl%ps_lt. apply elem_of_seq. lia. }
  apply submseteq_length in Hsub. rewrite length_seq in Hsub. lia.
Qed.
End Walk.

(** ** Ancestors at powers of two *)

(** The parent, which for the root and for a block without one is the block. *)
Definition parent_or_self (v : nat) : nat := default v (f v).
Notation lifted k := (Nat.iter k parent_or_self).

Lemma parent_or_self_eq v p : f v = Some p -> parent_or_self v = p.
Proof. intros Hp. unfold parent_or_self. by rewrite Hp. Qed.

Lemma parent_or_self_lt v : (v < length ps)%nat -> (parent_or_self v < length ps)%nat.
Proof. intros Hv. unfold parent_or_self. destruct (f v) as [p|] eqn:Hp; [|done]. by apply ps_lt, (parent_some v p). Qed.

Lemma parent_or_self_some v : is_Some (f v) -> is_Some (f (parent_or_self v)).
Proof. intros [p Hp]. unfold parent_or_self. rewrite Hp. by apply (parent_some v p). Qed.

Lemma lifted_lt k v : (v < length ps)%nat -> (lifted k v < length ps)%nat.
Proof. intros Hv. induction k; [done|]. by apply parent_or_self_lt. Qed.

Lemma lifted_some k v : is_Some (f v) -> is_Some (f (lifted k v)).
Proof. intros Hv. induction k; [done|]. by apply parent_or_self_some. Qed.

Lemma parent_above v : is_Some (f v) -> above (parent_or_self v) v.
Proof.
  intros [p Hp]. unfold parent_or_self. rewrite Hp. cbn. destruct (decide (v = root)) as [->|Hr]; [|by apply above_parent].
  rewrite f_root in Hp. by injection Hp as <-.
Qed.

Lemma lifted_above k v : is_Some (f v) -> above (lifted k v) v.
Proof. intros Hv. induction k as [|k IH]; [done|]. transitivity (lifted k v); [apply parent_above; by apply lifted_some|done]. Qed.

Lemma lifted_root k v : is_Some (f v) -> rk v <= Z.of_nat k -> lifted k v = root.
Proof.
  intros Hv Hk. assert (forall j, lifted j v = root \/ rk (lifted j v) <= rk v - Z.of_nat j) as H.
  { induction j as [|j IH]; [right; cbn; lia|]. change (lifted (S j) v) with (parent_or_self (lifted j v)). destruct (decide (lifted j v = root)) as [E|Hr].
    - left. rewrite E. by apply parent_or_self_eq.
    - destruct IH as [?|IH]; [done|]. destruct (lifted_some j v Hv) as [p Hp]. rewrite (parent_or_self_eq _ p Hp).
      destruct (f_climbs _ p Hp Hr) as [_ Hlt]. right. lia. }
  destruct (H k) as [?|Hle]; [done|]. destruct (decide (lifted k v = root)) as [|Hr]; [done|].
  destruct (lifted_some k v Hv) as [p Hp]. destruct (f_climbs _ p Hp Hr) as [_ Hlt]. pose proof (rk_pos p). lia.
Qed.

Definition level_ok (k : nat) (level : list nat) : Prop :=
  length level = length ps /\ forall v, (v < length ps)%nat -> level !! v = Some (lifted k v).

Definition levels_ok (levels : list (list nat)) : Prop :=
  levels <> [] /\ forall j level, levels !! j = Some level -> level_ok (2 ^ j) level.

Lemma next_level k level : level_ok k level -> exists next, mapM (fun p => level !! p) level = Some next /\ level_ok (k + k) next.
Proof.
  intros [Hlen Hat]. assert (Forall (fun p => is_Some (level !! p)) level) as Hall.
  { apply Forall_lookup. intros v p Hv. apply lookup_lt_is_Some_2. assert (v < length ps)%nat as Hlt by (rewrite <- Hlen; by eapply lookup_lt_Some).
    rewrite (Hat v Hlt) in Hv. injection Hv as <-. rewrite Hlen. by apply lifted_lt. }
  apply mapM_is_Some in Hall as [next Hnext]. exists next. split; [done|]. apply mapM_Some in Hnext. split.
  - rewrite <- Hlen. symmetry. by apply Forall2_length in Hnext.
  - intros v Hv. destruct (Forall2_lookup_l _ _ _ v _ Hnext (Hat v Hv)) as (q & Hq & Hlook). rewrite Hq. f_equal.
    rewrite (Hat _ (lifted_lt k v Hv)) in Hlook. injection Hlook as <-. by rewrite Nat.iter_add.
Qed.

Lemma levels_found : exists levels, levels_of ps = Some levels /\ levels_ok levels /\ Z.of_nat (length ps) <= 2 ^ Z.of_nat (length levels).
Proof.
  unfold levels_of. edestruct (repeat_times_measure (levels_step (length ps)) (fun levels => levels_ok levels)
    (fun r => exists levels, r = Some levels /\ levels_ok levels /\ Z.of_nat (length ps) <= 2 ^ Z.of_nat (length levels))
    (fun levels => length ps - length levels)%nat) as (r & -> & Hr); [| | |exact Hr].
  - intros levels [Hne Hok]. unfold levels_step. destruct (Z.ltb_spec (2 ^ Z.of_nat (length levels)) (Z.of_nat (length ps))) as [Hlt|Hge]; [|by exists levels].
    destruct (last levels) as [previous|] eqn:Hlast; [|by apply last_None in Hlast].
    assert (levels !! (length levels - 1)%nat = Some previous) as Hp.
    { rewrite last_lookup in Hlast. by replace (length levels - 1)%nat with (pred (length levels)) by lia. }
    destruct (next_level _ previous (Hok _ _ Hp)) as (next & -> & Hnext).
    assert (length levels <> 0)%nat as Hl by (by destruct levels).
    assert (2 ^ (length levels - 1) + 2 ^ (length levels - 1) = 2 ^ length levels)%nat as Hpow.
    { replace (length levels) with (S (length levels - 1)) at 3 by lia. cbn. lia. }
    rewrite Hpow in Hnext. split; [split|].
    + intros E. by apply app_nil in E as [].
    + intros j level [Hj|[Hlen Hj]]%lookup_app_Some; [by apply Hok|]. apply list_lookup_singleton_Some in Hj as [Hj <-].
      by replace j with (length levels) by lia.
    + rewrite length_app. cbn. pose proof (Z.pow_gt_lin_r 2 (Z.of_nat (length levels)) ltac:(lia) ltac:(lia)). lia.
  - split; [done|]. intros j level Hj. apply list_lookup_singleton_Some in Hj as [-> <-]. split; [by rewrite length_imap|].
    intros v Hv. rewrite list_lookup_imap. cbn. destruct (lookup_lt_is_Some_2 ps v Hv) as [o Ho]. unfold parent_or_self, tree_of. rewrite Ho. by destruct o.
  - cbn. lia.
Qed.

(** ** Queries *)

Section Queries.
Context (d : Dominators) (d_parent : parent d = ps).
Context (l : list nat) (l_some : forall v, v ∈ l <-> is_Some (f v)) (l_numbered : numbered (interval d) l 0 (Z.of_nat (length l))).
Context (d_levels : levels_ok (ancestors d)) (d_depth : Z.of_nat (length ps) <= 2 ^ Z.of_nat (length (ancestors d))).
#[local] Set Default Proof Using "All".

Lemma encloses_above a b : is_Some (f a) -> is_Some (f b) -> exists r, encloses d a b = Some r /\ (r = true <-> above a b).
Proof.
  intros Ha%l_some Hb%l_some. destruct l_numbered as [H1 H2]. destruct (H1 a Ha) as (i & Hi & _), (H1 b Hb) as (j & Hj & _).
  unfold encloses. rewrite Hi, Hj. cbn [mbind option_bind]. eexists. split; [done|]. rewrite (H2 a b i j Ha Hb Hi Hj). lia.
Qed.

Lemma dominates_above a b : (a < length ps)%nat -> (b < length ps)%nat ->
  exists r, dominates d a b = Some r /\ (r = true <-> is_Some (f a) /\ is_Some (f b) /\ above a b).
Proof.
  intros Ha Hb. unfold dominates. rewrite d_parent.
  destruct (lookup_lt_is_Some_2 ps a Ha) as [oa Hoa], (lookup_lt_is_Some_2 ps b Hb) as [ob Hob]. rewrite Hoa. cbn [mbind option_bind].
  assert (f a = oa) as Hfa by (unfold tree_of; rewrite Hoa; by destruct oa). assert (f b = ob) as Hfb by (unfold tree_of; rewrite Hob; by destruct ob).
  destruct oa as [pa|].
  2: { exists false. split; [done|]. rewrite Hfa. split; [done|]. intros ([? ?] & _); done. }
  rewrite Hob. cbn [mbind option_bind]. destruct ob as [pb|].
  2: { exists false. split; [done|]. rewrite Hfb. split; [done|]. intros (_ & [? ?] & _); done. }
  destruct (encloses_above a b) as (r & -> & Hr); [by eexists|by eexists|]. exists r. split; [done|]. rewrite Hr. split; [|naive_solver].
  intros H. split_and!; [by eexists|by eexists|done].
Qed.

Lemma lift_below j a b : (j <= length (ancestors d))%nat -> is_Some (f a) -> is_Some (f b) -> ~ above a b -> above (lifted (2 ^ j) a) b ->
  exists a', lift d (rev (take j (ancestors d))) a b = Some a' /\ above a' a /\ ~ above a' b /\ above (parent_or_self a') b.
Proof.
  revert a. induction j as [|j IH]; intros a Hj Ha Hb Hno Hyes.
  - rewrite take_0. by exists a.
  - destruct (lookup_lt_is_Some_2 (ancestors d) j ltac:(lia)) as [level Hlevel]. rewrite (take_S_r _ _ _ Hlevel), rev_app_distr. cbn [rev app lift].
    destruct (proj2 d_levels j level Hlevel) as [Hlen Hat]. rewrite (Hat a (ps_lt a Ha)). cbn [mbind option_bind].
    pose proof (lifted_some (2 ^ j) a Ha) as Hs. destruct (encloses_above (lifted (2 ^ j) a) b Hs Hb) as (r & -> & Hr). cbn [mbind option_bind].
    destruct r.
    + apply IH; [lia|done|done|done|by apply Hr].
    + destruct (IH (lifted (2 ^ j) a)) as (a' & Hl & Ha' & H); [lia|done|done|intros H; by apply Hr in H| |].
      * rewrite <- Nat.iter_add. by replace (2 ^ j + 2 ^ j)%nat with (2 ^ S j)%nat by (cbn; lia).
      * exists a'. split; [done|]. split; [|done]. transitivity (lifted (2 ^ j) a); [done|by apply lifted_above].
Qed.

Lemma common_above a b : is_Some (f a) -> is_Some (f b) ->
  exists c, common d a b = Some (Some c) /\ is_Some (f c) /\ forall x, above x c <-> above x a /\ above x b.
Proof.
  intros Ha Hb. pose proof Ha as [pa Hpa%ps_some]. pose proof Hb as [pb Hpb%ps_some].
  rewrite (common_indexed d a b pa pb) by (by rewrite ?d_parent || apply d_levels).
  destruct (encloses_above a b Ha Hb) as (ab & Hab & Hiab). destruct (encloses_above b a Hb Ha) as (ba & Hba & Hiba).
  rewrite Hab. cbn [mbind option_bind].
  destruct ab.
  { exists a. split_and!; [done|done|]. intros x. split; [|naive_solver]. intros H. split; [done|]. transitivity a; [done|by apply Hiab]. }
  rewrite Hba. cbn [mbind option_bind]. destruct ba.
  { exists b. split_and!; [done|done|]. intros x. split; [|naive_solver]. intros H. split; [|done]. transitivity b; [done|by apply Hiba]. }
  assert (~ above a b) as Hnab by (intros H%Hiab; done).
  destruct (lift_below (length (ancestors d)) a b) as (a' & Hl & Ha' & Hno & Hyes); [done|done|done|done| |].
  { rewrite lifted_root; [by apply root_above|done|]. pose proof (rk_lt a Ha). rewrite Nat2Z.inj_pow. lia. }
  rewrite firstn_all in Hl. rewrite Hl. cbn [mbind option_bind]. rewrite d_parent. destruct (above_some a' a Ha Ha') as [p Hp]. rewrite (proj1 (ps_some a' p) Hp).
  exists p. unfold parent_or_self in Hyes. rewrite Hp in Hyes. cbn in Hyes.
  assert (a' <> root) as Hr by (intros ->; by apply Hno, root_above). split_and!; [done|by eapply parent_some|].
  intros x. split.
  - intros Hx. split; [|by transitivity p]. transitivity a'; [|done]. transitivity p; [done|by apply above_parent].
  - intros [Hxa Hxb]. destruct (above_linear root f x a' a Hxa Ha') as [H|H].
    + apply (above_up root f x a' p H Hp); [|done]. by intros ->.
    + destruct Hno. by transitivity x.
Qed.

Lemma common_none a b : (a < length ps)%nat -> (b < length ps)%nat -> f a = None \/ f b = None -> common d a b = Some None.
Proof.
  intros Ha Hb H. unfold common. rewrite d_parent.
  destruct (lookup_lt_is_Some_2 ps a Ha) as [oa Hoa], (lookup_lt_is_Some_2 ps b Hb) as [ob Hob]. rewrite Hoa. cbn [mbind option_bind].
  unfold tree_of in H. rewrite Hoa, Hob in H. destruct oa; [|done]. rewrite Hob. cbn [mbind option_bind]. destruct ob; [|done]. by destruct H.
Qed.

(** The entry numbers of a subtree are consecutive. *)
Lemma preorder_contiguous a x y z i j k : is_Some (f a) -> is_Some (f x) -> is_Some (f y) -> is_Some (f z) -> above a x -> above a y ->
  preorder d x = Some i -> preorder d z = Some j -> preorder d y = Some k -> i <= j <= k -> above a z.
Proof.
  intros Ha%l_some Hx%l_some Hy%l_some Hz%l_some Hax Hay. unfold preorder. intros ([x1 x2] & Hix & ->)%fmap_Some ([z1 z2] & Hiz & ->)%fmap_Some ([y1 y2] & Hiy & ->)%fmap_Some Hle.
  destruct l_numbered as [H1 H2]. destruct (H1 a Ha) as (ia & Hia & _).
  apply (H2 a x _ _ Ha Hx Hia Hix) in Hax. apply (H2 a y _ _ Ha Hy Hia Hiy) in Hay. apply (H2 a z _ _ Ha Hz Hia Hiz). cbn in *. lia.
Qed.
End Queries.
End Index.
