(* ===== verification/DominanceTheorems.v ===== *)
(** * Dominance: the main statements

    The tree and the queries that placement asks of it, against paths from the root. *)

From S2P Require Import Prelude Dominance DominanceTree DominanceIterate.
Local Open Scope Z_scope.

Section Built.
Context (successors predecessors : list (list nat)) (root : nat) (Htargets : targets_ok successors) (Hroot : (root < length successors)%nat).
Context (Hpreds : forall v, (v < length successors)%nat -> exists l, predecessors !! v = Some l /\ forall p, p ∈ l <-> edge successors p v).
Notation R := (reaches successors root).
#[local] Set Default Proof Using "All".

(** What is known of the tree and its index. *)
Record dominator_tree (rk : nat -> Z) (d : Dominators) : Prop := {
  dt_length : length (parent d) = length successors;
  dt_root : tree_of (parent d) root = Some root;
  dt_climbs : forall v p, tree_of (parent d) v = Some p -> v <> root -> is_Some (tree_of (parent d) p) /\ rk p < rk v;
  dt_pos : forall v, 0 <= rk v;
  dt_lt : forall v, is_Some (tree_of (parent d) v) -> rk v < Z.of_nat (length (parent d));
  dt_rank : forall v, R v -> rank d !! v = Some (rk v);
  dt_reach : forall v, is_Some (tree_of (parent d) v) <-> R v;
  dt_dom : forall a v, R v -> above root (tree_of (parent d)) a v <-> dom successors root a v;
  dt_intervals : exists l, (forall v, v ∈ l <-> is_Some (tree_of (parent d) v)) /\ numbered (parent d) root (interval d) l 0 (Z.of_nat (length l));
  dt_levels : levels_ok (parent d) (ancestors d) /\ Z.of_nat (length (parent d)) <= 2 ^ Z.of_nat (length (ancestors d));
}.

Lemma index_some rk ps ranks i0 l0 : tree_of ps root = Some root ->
  (forall v p, tree_of ps v = Some p -> v <> root -> is_Some (tree_of ps p) /\ rk p < rk v) -> (forall v, 0 <= rk v) ->
  (forall v, is_Some (tree_of ps v) -> rk v < Z.of_nat (length ps)) ->
  exists d, index (mkDominators ps ranks i0 l0) = Some d /\ parent d = ps /\ rank d = ranks /\
    (exists l, (forall v, v ∈ l <-> is_Some (tree_of ps v)) /\ numbered ps root (interval d) l 0 (Z.of_nat (length l))) /\
    levels_ok ps (ancestors d) /\ Z.of_nat (length ps) <= 2 ^ Z.of_nat (length (ancestors d)).
Proof.
  intros H1 H2 H3 H4. unfold index. cbn [parent].
  destruct (children_found ps root rk H3 H1 H2 H4) as (children & -> & Hch). cbn [mbind option_bind].
  destruct (intervals_found ps root rk H3 H1 H2 H4 children Hch) as (intervals & l & -> & Hl & Hnum & _). cbn [mbind option_bind].
  destruct (levels_found ps root rk H3 H1 H2 H4) as (levels & -> & Hlv & Hdepth). cbn [mbind option_bind].
  eexists. split_and!; [done|done|done|by exists l|done|done].
Qed.

(** Reverse postorder. *)
Lemma order_found : exists post, postorder root successors = Some post /\ NoDup (rev post) /\ head (rev post) = Some root /\
  (forall v, v ∈ rev post <-> R v) /\
  forall v, v ∈ rev post -> v = root \/ exists i j p, rev post !! i = Some v /\ rev post !! j = Some p /\ (j < i)%nat /\ edge successors p v.
Proof.
  destruct (postorder_found successors root Htargets Hroot) as (post & Hpost & Hnd & Hlast & Hreach & Hlater).
  exists post. rewrite rev_reverse. split_and!; [done|by rewrite reverse_Permutation|by rewrite head_reverse| |].
  - intros v. by rewrite elem_of_reverse.
  - intros v Hv. rewrite elem_of_reverse in Hv. destruct (Hlater v Hv) as [?|(i & j & p & Hi & Hj & Hij & He)]; [by left|right].
    pose proof (lookup_lt_Some _ _ _ Hi). pose proof (lookup_lt_Some _ _ _ Hj).
    exists (length post - S i)%nat, (length post - S j)%nat, p. split_and!; [| |lia|done].
    + rewrite reverse_lookup by lia. by replace (length post - S (length post - S i))%nat with i by lia.
    + rewrite reverse_lookup by lia. by replace (length post - S (length post - S j))%nat with j by lia.
Qed.

Lemma reaches_in_range v : R v -> (v < length successors)%nat.
Proof. intros [l Hl]. destruct Hl as [|l a b _ (targets & Ht & Hb)]; [done|by eapply Htargets]. Qed.

Lemma ranks_found order : NoDup order -> (forall v, v ∈ order <-> R v) ->
  exists ranks, ranks_from 0 order (replicate (length successors) usize_max) = Some ranks /\ length ranks = length successors /\
    (forall i v, order !! i = Some v -> ranks !! v = Some (Z.of_nat i)) /\ Forall (fun z => 0 <= z) ranks.
Proof.
  intros Hnd Hreach. destruct (ranks_from_some order 0 (replicate (length successors) usize_max) Hnd) as (ranks & Hr & Hlen & Hin & Hout).
  { apply Forall_forall. intros v Hv%Hreach. rewrite length_replicate. by apply reaches_in_range. }
  rewrite length_replicate in Hlen. exists ranks. split_and!; [done|done|intros i v Hi; rewrite (Hin i v Hi); f_equal; lia|].
  apply Forall_lookup. intros v z Hz. destruct (decide (v ∈ order)) as [Hv|Hv].
  - apply list_elem_of_lookup in Hv as [i Hi]. rewrite (Hin i v Hi) in Hz. injection Hz as <-. lia.
  - rewrite (Hout v Hv) in Hz. by apply lookup_replicate in Hz as [-> _].
Qed.

Lemma dominators_built : exists rk d, dominators_new root successors predecessors = Some d /\ dominator_tree rk d.
Proof.
  destruct order_found as (post & Hpost & Hnd & Hhead & Hreach & Hearlier). unfold dominators_new. rewrite Hpost. cbn [mbind option_bind].
  destruct (ranks_found (rev post) Hnd Hreach) as (ranks & -> & Hrlen & Hranks & Hpos). cbn [mbind option_bind].
  destruct (lookup_lt_is_Some_2 (replicate (length successors) tt) root) as [[] ->]; [by rewrite length_replicate|]. cbn [mbind option_bind].
  destruct (rev post) as [|r nodes] eqn:Horder; [done|]. pose proof Hhead as [= ->].
  destruct (iterated successors predecessors root Htargets Hroot Hpreds (root :: nodes) ranks Hnd Hhead Hreach Hearlier Hrlen Hranks Hpos)
    as ([ps rks i0 l0] & Hrun & Hlen & Hrk & Hdr & Hpar & Hrch & Hlt & Hdom). cbn in Hlen, Hrk. subst rks.
  cbn [tail] in Hrun. unfold first_tree in Hrun. rewrite Hrun.
  pose proof (rk_pos successors predecessors root Htargets Hroot Hpreds (root :: nodes) ranks Hnd Hhead Hreach Hearlier Hrlen Hranks Hpos) as Hrkp.
  assert (forall v, is_Some (tree_of ps v) -> rk ranks v < Z.of_nat (length ps)) as Hlt'.
  { intros v Hv. rewrite Hlen. by apply Hlt, Hrch. }
  destruct (index_some (rk ranks) ps ranks i0 l0 Hdr Hpar Hrkp Hlt') as (d' & Hindex & Hp' & Hr' & Hi' & Hl').
  exists (rk ranks), d'. split; [exact Hindex|]. split; rewrite ?Hp', ?Hr'; try done. intros v Hv. by apply Hlt.
Qed.

Section Answers.
Context (rk : nat -> Z) (d : Dominators) (Hd : dominator_tree rk d).
#[local] Set Default Proof Using "All".
Notation ps := (parent d).
Notation n := (length successors).
Notation dom := (dom successors root).

Local Notation on_tree lemma := (lemma ps root rk (dt_pos rk d Hd) (dt_root rk d Hd) (dt_climbs rk d Hd) (dt_lt rk d Hd)) (only parsing).

Lemma dom_reaches a b : R b -> dom a b -> R a.
Proof.
  intros Hb Hab. apply (dt_reach rk d Hd), (on_tree above_some a b); [by apply (dt_reach rk d Hd)|by apply (dt_dom rk d Hd)].
Qed.

Lemma tree_dominates a b : (a < n)%nat -> (b < n)%nat -> exists r, dominates d a b = Some r /\ (r = true <-> R b /\ dom a b).
Proof.
  rewrite <- (dt_length rk d Hd). intros Ha Hb. destruct (dt_intervals rk d Hd) as (l & Hl & Hnum). destruct (dt_levels rk d Hd) as [Hlv Hdepth].
  destruct (on_tree dominates_above d eq_refl l Hl Hnum Hlv Hdepth a b Ha Hb) as (r & Hr & Hiff). exists r. split; [done|].
  rewrite Hiff, !(dt_reach rk d Hd). split.
  - intros (_ & HRb & Hab). split; [done|]. by apply (dt_dom rk d Hd).
  - intros [HRb Hab]. split_and!; [by eapply dom_reaches|done|by apply (dt_dom rk d Hd)].
Qed.

Lemma tree_parent v : R v -> v <> root -> exists p, ps !! v = Some (Some p) /\ p <> v /\ dom p v /\ forall x, dom x v -> x <> v -> dom x p.
Proof.
  intros Hv Hne. pose proof (proj2 (dt_reach rk d Hd v) Hv) as [p Hpv]. destruct (dt_climbs rk d Hd v p Hpv Hne) as [Hsp Hlt].
  apply (dt_reach rk d Hd) in Hsp as HRp. exists p. split_and!.
  - by apply (proj1 (parents_some d v p)).
  - intros ->. lia.
  - apply (dt_dom rk d Hd); [done|]. by apply above_parent.
  - intros x Hx Hxv. apply (dt_dom rk d Hd); [done|]. apply (dt_dom rk d Hd) in Hx; [|done]. by eapply above_up.
Qed.

Lemma tree_unreachable v : (v < n)%nat -> ~ R v -> ps !! v = Some None.
Proof.
  rewrite <- (dt_length rk d Hd). intros Hv Hnr. destruct (lookup_lt_is_Some_2 ps v Hv) as [[p|] Ho]; [|done].
  destruct Hnr. apply (dt_reach rk d Hd). exists p. unfold tree_of. by rewrite Ho.
Qed.

Lemma tree_rank a b : R b -> dom a b -> a <> b -> exists x y, rank d !! a = Some x /\ rank d !! b = Some y /\ x < y.
Proof.
  intros Hb Hab Hne. pose proof (dom_reaches a b Hb Hab) as Ha. exists (rk a), (rk b).
  split_and!; [by apply (dt_rank rk d Hd)|by apply (dt_rank rk d Hd)|]. apply (dt_dom rk d Hd) in Hab; [|done].
  by apply (above_strict root rk _ a b (on_tree ps_climbs)).
Qed.

Lemma tree_common a b : R a -> R b -> exists c, common d a b = Some (Some c) /\ R c /\ forall x, dom x c <-> dom x a /\ dom x b.
Proof.
  intros Ha Hb. destruct (dt_intervals rk d Hd) as (l & Hl & Hnum). destruct (dt_levels rk d Hd) as [Hlv Hdepth].
  destruct (on_tree common_above d eq_refl l Hl Hnum Hlv Hdepth a b) as (c & Hc & HRc & Hm); [by apply (dt_reach rk d Hd)|by apply (dt_reach rk d Hd)|].
  apply (dt_reach rk d Hd) in HRc. exists c. split_and!; [done|done|]. intros x. rewrite <- !(dt_dom rk d Hd) by done. apply Hm.
Qed.

Lemma tree_common_none a b : (a < n)%nat -> (b < n)%nat -> ~ R a \/ ~ R b -> common d a b = Some None.
Proof.
  intros Ha Hb H. destruct (dt_intervals rk d Hd) as (l & Hl & Hnum). destruct (dt_levels rk d Hd) as [Hlv Hdepth].
  apply (on_tree common_none d eq_refl l Hl Hnum Hlv Hdepth a b); [by rewrite (dt_length rk d Hd)|by rewrite (dt_length rk d Hd)|].
  destruct H as [H|H]; [left|right]; apply eq_None_not_Some; by intros Hs%(dt_reach rk d Hd).
Qed.

Lemma tree_contiguous a x y z i j k : R x -> R y -> R z -> dom a x -> dom a y ->
  preorder d x = Some i -> preorder d z = Some j -> preorder d y = Some k -> i <= j <= k -> dom a z.
Proof.
  intros Hx Hy Hz Hax Hay Hi Hj Hk Hle. destruct (dt_intervals rk d Hd) as (l & Hl & Hnum). destruct (dt_levels rk d Hd) as [Hlv Hdepth].
  pose proof (dom_reaches a x Hx Hax) as Ha. apply (dt_dom rk d Hd); [done|]. apply (dt_dom rk d Hd) in Hax, Hay; [|done|done].
  apply (dt_reach rk d Hd) in Ha, Hx, Hy, Hz.
  exact (on_tree preorder_contiguous d eq_refl l Hl Hnum Hlv Hdepth a x y z i j k Ha Hx Hy Hz Hax Hay Hi Hj Hk Hle).
Qed.
End Answers.
End Built.

(** Every block lists the sources of its edges. *)
Definition inverse_edges (successors predecessors : list (list nat)) : Prop :=
  forall v, (v < length successors)%nat -> exists l, predecessors !! v = Some l /\ forall p, p ∈ l <-> edge successors p v.

(** C10 For a graph given by its successor lists and the inverse predecessor lists,
    the construction terminates without a panic. [dominates a b] holds exactly when
    [b] is reachable and every path from the root to [b] passes [a]. The stored
    parent of a reachable block is its immediate dominator, of an unreachable one
    nothing, and a strict dominator has a lower rank. *)
Theorem dominators_correct (successors predecessors : list (list nat)) (root : nat) : targets_ok successors ->
  (root < length successors)%nat -> inverse_edges successors predecessors ->
  exists d, dominators_new root successors predecessors = Some d /\
    (forall a b, (a < length successors)%nat -> (b < length successors)%nat ->
      exists r, dominates d a b = Some r /\ (r = true <-> reaches successors root b /\ dom successors root a b)) /\
    parent d !! root = Some (Some root) /\
    (forall v, reaches successors root v -> v <> root -> exists p, parent d !! v = Some (Some p) /\ p <> v /\ dom successors root p v /\
      forall x, dom successors root x v -> x <> v -> dom successors root x p) /\
    (forall v, (v < length successors)%nat -> ~ reaches successors root v -> parent d !! v = Some None) /\
    (forall a b, reaches successors root b -> dom successors root a b -> a <> b ->
      exists x y, rank d !! a = Some x /\ rank d !! b = Some y /\ x < y).
Proof.
  intros Ht Hr Hp. destruct (dominators_built successors predecessors root Ht Hr Hp) as (rk & d & Hnew & Hd). exists d. split_and!.
  - exact Hnew.
  - exact (tree_dominates successors predecessors root Ht Hr Hp rk d Hd).
  - apply (proj1 (parents_some d root root)), (dt_root _ _ _ _ Hd).
  - exact (tree_parent successors predecessors root Ht Hr Hp rk d Hd).
  - exact (tree_unreachable successors predecessors root Ht Hr Hp rk d Hd).
  - exact (tree_rank successors predecessors root Ht Hr Hp rk d Hd).
Qed.

(** The diamond of Dominance.v: 4 is behind 1, whichever of 2 and 3 a path takes. *)
Definition diamond_successors : list (list nat) := [[1]; [2; 3]; [4]; [4]; [1; 5]; []; [5]]%nat.
Definition diamond_predecessors : list (list nat) := [[]; [0; 4]; [1]; [1]; [2; 3]; [4; 6]; []]%nat.

Lemma diamond_targets : targets_ok diamond_successors.
Proof.
  intros a l b Ha Hb. assert (forallb (forallb (fun b => Nat.ltb b 7)) diamond_successors = true) as H by done.
  rewrite forallb_forall in H. specialize (H l ltac:(by eapply list_elem_of_In, list_elem_of_lookup_2)). rewrite forallb_forall in H.
  apply Nat.ltb_lt, H. by apply list_elem_of_In.
Qed.

Definition inverse_checked (successors predecessors : list (list nat)) : bool :=
  forallb (fun v => match predecessors !! v with
    | Some l => forallb (fun p => bool_decide (v ∈ default [] (successors !! p))) l &&
        forallb (fun p => negb (bool_decide (v ∈ default [] (successors !! p))) || bool_decide (p ∈ l)) (seq 0 (length successors))
    | None => false
    end) (seq 0 (length successors)).

Lemma edge_default successors a b : edge successors a b <-> b ∈ default [] (successors !! a).
Proof. unfold edge. destruct (successors !! a) as [l|]; cbn; [|by split; [intros (? & ? & _)|intros []%elem_of_nil]]. naive_solver. Qed.

Lemma inverse_checked_ok successors predecessors : inverse_checked successors predecessors = true -> inverse_edges successors predecessors.
Proof.
  unfold inverse_checked. rewrite forallb_forall. intros H v Hv. specialize (H v ltac:(apply in_seq; lia)).
  destruct (predecessors !! v) as [l|]; [|done]. apply andb_true_iff in H as [H1 H2]. rewrite forallb_forall in H1, H2. exists l. split; [done|].
  intros p. rewrite edge_default. split.
  - intros Hp%list_elem_of_In. specialize (H1 p Hp). by apply bool_decide_eq_true in H1.
  - intros He. assert (In p (seq 0 (length successors))) as Hp.
    { apply in_seq. destruct (successors !! p) as [q|] eqn:Hq; cbn in He; [|by apply elem_of_nil in He]. apply lookup_lt_Some in Hq. lia. }
    specialize (H2 p Hp). rewrite bool_decide_true in H2 by done. by apply bool_decide_eq_true in H2.
Qed.

Lemma diamond_inverse : inverse_edges diamond_successors diamond_predecessors.
Proof. apply inverse_checked_ok. by vm_compute. Qed.

Lemma dominators_correct_witness : exists d, dominators_new 0 diamond_successors diamond_predecessors = Some d /\
  dominates d 1 4 = Some true /\ dominates d 2 4 = Some false /\ dom diamond_successors 0 1 4 /\ ~ dom diamond_successors 0 2 4.
Proof.
  destruct (dominators_correct diamond_successors diamond_predecessors 0 diamond_targets) as (d & Hd & Hdom & _); [cbn; lia|apply diamond_inverse|].
  vm_compute in Hd. injection Hd as <-.
  destruct (Hdom 1%nat 4%nat) as (r & Hr & H14); [cbn; lia|cbn; lia|]. vm_compute in Hr. injection Hr as <-.
  destruct (Hdom 2%nat 4%nat) as (r & Hr & H24); [cbn; lia|cbn; lia|]. vm_compute in Hr. injection Hr as <-.
  destruct (proj1 H14 eq_refl) as [Hreach H]. eexists. split_and!; [done|done|done|done|].
  intros H'. by pose proof (proj2 H24 (conj Hreach H')).
Defined.

(** C11 Of two reachable blocks [common] gives the block whose dominators are exactly
    those of both, the nearest one; of an unreachable block nothing. Blocks whose
    preorder lies between those of two blocks of a dominator subtree are in it. *)
Theorem common_nearest (successors predecessors : list (list nat)) (root : nat) : targets_ok successors ->
  (root < length successors)%nat -> inverse_edges successors predecessors ->
  exists d, dominators_new root successors predecessors = Some d /\
    (forall a b, reaches successors root a -> reaches successors root b ->
      exists c, common d a b = Some (Some c) /\ reaches successors root c /\
        forall x, dom successors root x c <-> dom successors root x a /\ dom successors root x b) /\
    (forall a b, (a < length successors)%nat -> (b < length successors)%nat ->
      ~ reaches successors root a \/ ~ reaches successors root b -> common d a b = Some None) /\
    (forall a x y z i j k, reaches successors root x -> reaches successors root y -> reaches successors root z ->
      dom successors root a x -> dom successors root a y -> preorder d x = Some i -> preorder d z = Some j -> preorder d y = Some k ->
      i <= j <= k -> dom successors root a z).
Proof.
  intros Ht Hr Hp. destruct (dominators_built successors predecessors root Ht Hr Hp) as (rk & d & Hnew & Hd). exists d. split_and!.
  - exact Hnew.
  - exact (tree_common successors predecessors root Ht Hr Hp rk d Hd).
  - exact (tree_common_none successors predecessors root Ht Hr Hp rk d Hd).
  - exact (tree_contiguous successors predecessors root Ht Hr Hp rk d Hd).
Qed.

Lemma common_nearest_witness : exists d, dominators_new 0 diamond_successors diamond_predecessors = Some d /\
  common d 2 3 = Some (Some 1%nat) /\ forall x, dom diamond_successors 0 x 1 <-> dom diamond_successors 0 x 2 /\ dom diamond_successors 0 x 3.
Proof.
  destruct (common_nearest diamond_successors diamond_predecessors 0 diamond_targets) as (d & Hd & Hcommon & _); [cbn; lia|apply diamond_inverse|].
  assert (forall v l, path_to diamond_successors 0 l v -> reaches diamond_successors 0 v) as Hreach by (intros v l Hl; by exists l).
  assert (path_to diamond_successors 0 [0; 1]%nat 1) as H1 by (apply (path_edge _ _ [0%nat] 0 1); [constructor|]; eexists; split; [reflexivity|set_solver]).
  destruct (Hcommon 2%nat 3%nat) as (c & Hc & _ & Hall).
  - apply (Hreach _ ([0; 1] ++ [2])%nat), (path_edge _ _ [0; 1]%nat 1 2); [done|]. eexists; split; [reflexivity|set_solver].
  - apply (Hreach _ ([0; 1] ++ [3])%nat), (path_edge _ _ [0; 1]%nat 1 3); [done|]. eexists; split; [reflexivity|set_solver].
  - vm_compute in Hd. injection Hd as <-. vm_compute in Hc. injection Hc as <-. eexists. split_and!; [done|done|exact Hall].
Defined.
