(* ===== verification/Vga.v ===== *)
(** * VGA registers and programming state

    crates/vga/src: registers/*.rs, svga.rs, state.rs and state/vga_core.rs: the
    register banks and their ports, the packed SVGA modes behind DISPI, adapter
    decoding, and the encodings that save and restore all of it. A byte is the [Z]
    it denotes. The arrays of a bank are lists: an index that the guest selects can
    pass their end, which is a panic, the outer [None] of an operation; the fixed
    indices of the decoders cannot, since a bank keeps its length. *)

From S2P Require Import Prelude Bytes.
Local Open Scope Z_scope.

(** At a fixed index below the length of the array. *)
Definition reg (values : list Z) (index : Z) : Z := nth (Z.to_nat index) values 0.
Definition set_reg (values : list Z) (index value : Z) : list Z := <[Z.to_nat index := value]> values.
(** At any index. *)
Definition index_reg (values : list Z) (index : Z) : option Z := values !! Z.to_nat index.
Definition update_reg (values : list Z) (index value : Z) : option (list Z) :=
  if (Z.to_nat index <? length values)%nat then Some (set_reg values index value) else None.
(** A subtraction that would be negative panics. *)
Definition checked_sub (a b : Z) : option Z := if b <=? a then Some (a - b) else None.
Definition set_regs (values : list Z) (table : list (Z * Z)) : list Z := foldl (fun values e => set_reg values e.1 e.2) values table.
Definition zeros (n : nat) : list Z := replicate n 0.

(** ** registers/sequencer.rs, registers/text_mode.rs *)

Record Sequencer := mkSequencer { seq_index : Z; seq_values : list Z }.
Definition SEQUENCER_REGISTERS : list (Z * Z) := [(0, 3); (1, 1); (2, 3); (3, 0); (4, 2)].
Definition sequencer_default : Sequencer := mkSequencer 0 (set_regs (zeros 5) SEQUENCER_REGISTERS).
Definition seq_select (index : Z) (s : Sequencer) : Sequencer := mkSequencer (Z.land index 7) (seq_values s).
Definition seq_read (s : Sequencer) : Z := default 255 (seq_values s !! Z.to_nat (seq_index s)).
Definition seq_mask (index : Z) : option Z :=
  if index =? 0 then Some 3 else if index =? 1 then Some 0x3d else if index =? 3 then Some 0x3f
  else if index =? 2 then Some 15 else if index =? 4 then Some 14 else None.
Definition seq_write (value : Z) (s : Sequencer) : option Sequencer :=
  match seq_mask (seq_index s) with
  | Some mask => mkSequencer (seq_index s) <$> update_reg (seq_values s) (seq_index s) (Z.land value mask)
  | None => Some s
  end.
Definition chain_four (s : Sequencer) : bool := has (reg (seq_values s) 4) 8.
Definition odd_even_writes (s : Sequencer) : bool := negb (has (reg (seq_values s) 4) 4).
Definition extended_memory (s : Sequencer) : bool := has (reg (seq_values s) 4) 2.
Definition write_planes (offset : Z) (s : Sequencer) : Z :=
  Z.land (reg (seq_values s) 2)
    (if chain_four s then Z.shiftl 1 (Z.land offset 3) else if odd_even_writes s then Z.shiftl 5 (Z.land offset 1) else 15).
Definition seq_reset_active (s : Sequencer) : bool := negb (reg (seq_values s) 0 =? 3).
Definition dots_per_character (s : Sequencer) : Z := if has (reg (seq_values s) 1) 1 then 8 else 9.
Definition seq_dot_clock_divisor (s : Sequencer) : Z := if has (reg (seq_values s) 1) 8 then 2 else 1.

(** ** registers/graphics.rs *)

Record Graphics := mkGraphics { gfx_index : Z; gfx_values : list Z }.
Definition GRAPHICS_REGISTERS : list (Z * Z) := [(0, 0); (1, 0); (2, 0); (3, 0); (4, 0); (5, 0x10); (6, 0x0e); (7, 15); (8, 255)].
Definition graphics_default : Graphics := mkGraphics 0 (set_regs (zeros 9) GRAPHICS_REGISTERS).
Definition gfx_select (index : Z) (g : Graphics) : Graphics := mkGraphics (Z.land index 15) (gfx_values g).
Definition gfx_read (g : Graphics) : option Z := if gfx_index g <=? 8 then index_reg (gfx_values g) (gfx_index g) else Some 255.
Definition gfx_mask (index : Z) : option Z :=
  if (index =? 0) || (index =? 1) || (index =? 2) || (index =? 6) || (index =? 7) then Some 15
  else if index =? 3 then Some 0x1f else if index =? 4 then Some 3 else if index =? 5 then Some 0x7b
  else if index =? 8 then Some 255 else None.
Definition gfx_write (value : Z) (g : Graphics) : option Graphics :=
  match gfx_mask (gfx_index g) with
  | Some mask => mkGraphics (gfx_index g) <$> update_reg (gfx_values g) (gfx_index g) (Z.land value mask)
  | None => Some g
  end.

Definition aperture (selector : Z) : Z * Z :=
  if selector =? 0 then (0xa0000, 0x20000) else if selector =? 1 then (0xa0000, 0x10000)
  else if selector =? 2 then (0xb0000, 0x8000) else (0xb8000, 0x8000).
Definition gfx_memory_offset (address : Z) (g : Graphics) : option Z :=
  let '(start, size) := aperture (Z.land (Z.shiftr (reg (gfx_values g) 6) 2) 3) in
  if (start <=? address) && (address - start <? size) then Some (address - start) else None.
Definition odd_even_reads (g : Graphics) : bool := has (reg (gfx_values g) 5) 0x10.
Definition chain_odd_even (g : Graphics) : bool := has (reg (gfx_values g) 6) 2.
Definition read_plane (g : Graphics) : Z := reg (gfx_values g) 4.
Definition compare_reads (g : Graphics) : bool := has (reg (gfx_values g) 5) 8.

Fixpoint compare_planes (g : Graphics) (plane : Z) (latches : list Z) (matches : Z) : Z :=
  match latches with
  | [] => matches
  | latch :: latches =>
      let matches :=
        if has (reg (gfx_values g) 7) (Z.shiftl 1 plane) then
          Z.land matches (bnot 8 (Z.lxor latch (if has (reg (gfx_values g) 2) (Z.shiftl 1 plane) then 255 else 0)))
        else matches in
      compare_planes g (plane + 1) latches matches
  end.
Definition gfx_compare (latches : list Z) (g : Graphics) : Z := compare_planes g 0 latches 255.

(** [u8::rotate_right] by less than eight. *)
Definition rotate_right8 (v n : Z) : Z := Z.lor (Z.shiftr v n) (wrap 8 (Z.shiftl v (8 - n))).

Definition write_plane (g : Graphics) (value mode rotated mask : Z) (plane : nat) (latch : Z) : Z :=
  let bit := Z.shiftl 1 (Z.of_nat plane) in
  let set_reset := if has (reg (gfx_values g) 0) bit then 255 else 0 in
  let source :=
    if mode =? 0 then if has (reg (gfx_values g) 1) bit then set_reset else rotated
    else if mode =? 2 then if has value bit then 255 else 0
    else set_reset in
  let function := Z.land (Z.shiftr (reg (gfx_values g) 3) 3) 3 in
  let combined :=
    if function =? 0 then source else if function =? 1 then Z.land source latch
    else if function =? 2 then Z.lor source latch else Z.lxor source latch in
  Z.lor (Z.land combined mask) (Z.land latch (bnot 8 mask)).

Definition write_data (value : Z) (latches : list Z) (g : Graphics) : list Z :=
  let mode := Z.land (reg (gfx_values g) 5) 3 in
  if mode =? 1 then latches
  else
    let rotated := rotate_right8 value (Z.land (reg (gfx_values g) 3) 7) in
    let mask := Z.land (reg (gfx_values g) 8) (if mode =? 3 then rotated else 255) in
    imap (write_plane g value mode rotated mask) latches.

(** ** registers/crtc.rs *)

Record Crtc := mkCrtc { crtc_index : Z; crtc_values : list Z; display_start : Z }.
Definition CRTC_REGISTERS : list (Z * Z) :=
  [(0, 0x5f); (1, 0x4f); (2, 0x50); (3, 0x82); (4, 0x54); (5, 0x80); (6, 0xbf); (7, 0x1f); (8, 0); (9, 0xc7); (0x10, 0x9c);
   (0x12, 0x8f); (0x13, 40); (0x14, 0x1f); (0x15, 0x96); (0x16, 0xb9); (0x17, 0xa3); (0x18, 255); (0x11, 0xae)].
Definition crtc_default : Crtc := mkCrtc 0 (set_regs (zeros 25) CRTC_REGISTERS) 0.
Definition crtc_reg (index : Z) (c : Crtc) : Z := reg (crtc_values c) index.
Definition set_crtc (index value : Z) (c : Crtc) : option Crtc :=
  values ← update_reg (crtc_values c) index value; Some (mkCrtc (crtc_index c) values (display_start c)).
Definition latch_display_start (c : Crtc) : Crtc :=
  mkCrtc (crtc_index c) (crtc_values c) (Z.lor (Z.shiftl (crtc_reg 12 c) 8) (crtc_reg 13 c)).
Definition crtc_select (index : Z) (c : Crtc) : Crtc := mkCrtc (Z.land index 0x1f) (crtc_values c) (display_start c).
Definition crtc_read (c : Crtc) : option Z := if crtc_index c <=? 0x18 then index_reg (crtc_values c) (crtc_index c) else Some 255.
Definition crtc_write (value : Z) (c : Crtc) : option Crtc :=
  let index := crtc_index c in
  if (index <=? 7) && has (crtc_reg 0x11 c) 0x80 then
    if index =? 7 then set_crtc 7 (Z.lor (Z.land (crtc_reg 7 c) (bnot 8 0x10)) (Z.land value 0x10)) c else Some c
  else if index =? 10 then set_crtc index (Z.land value 0x3f) c
  else if index =? 11 then set_crtc index (Z.land value 0x7f) c
  else if (index =? 8) || (index =? 0x14) then set_crtc index (Z.land value 0x7f) c
  else if index <=? 0x18 then set_crtc index value c
  else Some c.

Definition horizontal_total (c : Crtc) : Z := crtc_reg 0 c + 5.
Definition horizontal_display (c : Crtc) : Z := crtc_reg 1 c + 1.
Definition horizontal_display_skew (c : Crtc) : Z := Z.land (Z.shiftr (crtc_reg 3 c) 5) 3.
Definition vertical_total (c : Crtc) : Z :=
  crtc_reg 6 c + Z.shiftl (Z.land (crtc_reg 7 c) 1) 8 + Z.shiftl (Z.land (crtc_reg 7 c) 0x20) 4 + 2.
Definition vertical_display (c : Crtc) : Z :=
  crtc_reg 0x12 c + Z.shiftl (Z.land (crtc_reg 7 c) 2) 7 + Z.shiftl (Z.land (crtc_reg 7 c) 0x40) 3 + 1.
Definition vertical_retrace_start (c : Crtc) : Z :=
  Z.lor (Z.lor (crtc_reg 0x10 c) (Z.shiftl (Z.land (crtc_reg 7 c) 4) 6)) (Z.shiftl (Z.land (crtc_reg 7 c) 0x80) 2).
Definition vertical_retrace_end_low_bits (c : Crtc) : Z := Z.land (crtc_reg 0x11 c) 15.
Definition scanlines_per_vertical_count (c : Crtc) : Z := if has (crtc_reg 0x17 c) 4 then 2 else 1.
Definition sync_enabled (c : Crtc) : bool := has (crtc_reg 0x17 c) 0x80.

(** ** registers/attribute.rs *)

Record Attribute := mkAttribute { at_address : Z; at_data_next : bool; at_values : list Z }.
Definition ATTRIBUTE_PALETTE : list Z := [0; 1; 2; 3; 4; 5; 0x14; 7; 0x38; 0x39; 0x3a; 0x3b; 0x3c; 0x3d; 0x3e; 0x3f].
Definition ATTRIBUTE_REGISTERS : list (Z * Z) := [(0x10, 0x0c); (0x11, 0); (0x12, 15); (0x13, 0); (0x14, 0)].
Definition attribute_default : Attribute := mkAttribute 0x20 false (set_regs (ATTRIBUTE_PALETTE ++ zeros 5) ATTRIBUTE_REGISTERS).
Definition attr_read (a : Attribute) : option Z :=
  let index := Z.land (at_address a) 0x1f in if index <=? 0x14 then index_reg (at_values a) index else Some 255.
Definition reset_address (a : Attribute) : Attribute := mkAttribute (at_address a) false (at_values a).
Definition attr_mask (address : Z) : option Z :=
  let index := Z.land address 0x1f in
  if (index <=? 15) && negb (has address 0x20) then Some 0x3f
  else if index =? 0x10 then Some 0xef else if index =? 0x11 then Some 255
  else if (index =? 0x12) || (index =? 0x13) || (index =? 0x14) then Some 15 else None.
Definition attr_write (value : Z) (a : Attribute) : option Attribute :=
  if negb (at_data_next a) then Some (mkAttribute (Z.land value 0x3f) true (at_values a))
  else
    match attr_mask (at_address a) with
    | Some mask => mkAttribute (at_address a) false <$> update_reg (at_values a) (Z.land (at_address a) 0x1f) (Z.land value mask)
    | None => Some (mkAttribute (at_address a) false (at_values a))
    end.

(** ** registers/dac.rs

    [dac_colors] is the flattened table of 256 RGB triples. *)

Record Dac := mkDac { dac_mask : Z; dac_colors : list Z; dac_address : Z; dac_component : Z; dac_reading : bool }.
Definition dac_entry (index : Z) : list Z :=
  [Z.land (Z.shiftr index 2) 1 * 42 + Z.land (Z.shiftr index 5) 1 * 21;
   Z.land (Z.shiftr index 1) 1 * 42 + Z.land (Z.shiftr index 4) 1 * 21;
   Z.land index 1 * 42 + Z.land (Z.shiftr index 3) 1 * 21].
Definition DAC_PALETTE : list Z := concat (map (fun i => dac_entry (Z.of_nat i)) (seq 0 64)) ++ zeros 576.
Definition dac_default : Dac := mkDac 255 DAC_PALETTE 0 0 false.
Definition dac_to_state_bytes (d : Dac) : list Z :=
  [dac_mask d; dac_address d; wrap 8 (dac_component d); Z.b2z (dac_reading d)] ++ dac_colors d.
Definition dac_from_state_bytes (bytes : list Z) : option Dac :=
  if (3 <=? reg bytes 2) || (1 <? reg bytes 3) || existsb (fun value => 64 <=? value) (drop 4 bytes) then None
  else Some (mkDac (reg bytes 0) (drop 4 bytes) (reg bytes 1) (reg bytes 2) (negb (reg bytes 3 =? 0))).
Definition dac_select (address : Z) (reading : bool) (d : Dac) : Dac := mkDac (dac_mask d) (dac_colors d) address 0 reading.
Definition dac_current_address (d : Dac) : Z := wrap 8 (dac_address d + Z.b2z (dac_reading d)).
Definition dac_state (d : Dac) : Z := if dac_reading d then 3 else 0.
Definition dac_step (d : Dac) : Dac :=
  let component := dac_component d + 1 in
  if component =? 3 then mkDac (dac_mask d) (dac_colors d) (wrap 8 (dac_address d + 1)) 0 (dac_reading d)
  else mkDac (dac_mask d) (dac_colors d) (dac_address d) component (dac_reading d).
(** The place of a component, which a triple has three of. *)
Definition dac_place (d : Dac) : option Z := if dac_component d <? 3 then Some (3 * dac_address d + dac_component d) else None.
Definition dac_read (d : Dac) : option (Z * Dac) := place ← dac_place d; value ← index_reg (dac_colors d) place; Some (value, dac_step d).
Definition dac_write (value : Z) (d : Dac) : option Dac :=
  place ← dac_place d; colors ← update_reg (dac_colors d) place (Z.land value 63);
  Some (dac_step (mkDac (dac_mask d) colors (dac_address d) (dac_component d) (dac_reading d))).

(** ** registers/mod.rs *)

Record Registers := mkRegisters {
  crtc : Crtc; sequencer : Sequencer; graphics : Graphics; attribute : Attribute; dac : Dac; miscellaneous : Z; feature_control : Z }.
Definition registers_default : Registers :=
  mkRegisters crtc_default sequencer_default graphics_default attribute_default dac_default 0x43 0.
Definition with_crtc c (r : Registers) := mkRegisters c (sequencer r) (graphics r) (attribute r) (dac r) (miscellaneous r) (feature_control r).
Definition with_sequencer s (r : Registers) := mkRegisters (crtc r) s (graphics r) (attribute r) (dac r) (miscellaneous r) (feature_control r).
Definition with_graphics g (r : Registers) := mkRegisters (crtc r) (sequencer r) g (attribute r) (dac r) (miscellaneous r) (feature_control r).
Definition with_attribute a (r : Registers) := mkRegisters (crtc r) (sequencer r) (graphics r) a (dac r) (miscellaneous r) (feature_control r).
Definition with_dac d (r : Registers) := mkRegisters (crtc r) (sequencer r) (graphics r) (attribute r) d (miscellaneous r) (feature_control r).
Definition with_miscellaneous m (r : Registers) := mkRegisters (crtc r) (sequencer r) (graphics r) (attribute r) (dac r) m (feature_control r).
Definition with_feature_control f (r : Registers) := mkRegisters (crtc r) (sequencer r) (graphics r) (attribute r) (dac r) (miscellaneous r) f.

Definition status_port (r : Registers) : Z := if has (miscellaneous r) 1 then 0x3da else 0x3ba.
Definition crtc_ports (r : Registers) : Z * Z := if has (miscellaneous r) 1 then (0x3d4, 0x3d5) else (0x3b4, 0x3b5).
Definition oscillator_hz (r : Registers) : Z :=
  let select := Z.land (Z.shiftr (miscellaneous r) 2) 3 in if select =? 0 then 25175000 else if select =? 1 then 28322000 else 0.
Definition video_memory_enabled (r : Registers) : bool := has (miscellaneous r) 2.

Definition regs_read_port (port raster_status : Z) (r : Registers) : option (Z * Registers) :=
  let '(index, data) := crtc_ports r in
  let quiet value := Some (value, r) in
  if port =? 0x3c0 then quiet (at_address (attribute r))
  else if port =? 0x3c1 then value ← attr_read (attribute r); quiet value
  else if port =? 0x3c2 then quiet 0x10
  else if port =? 0x3cc then quiet (miscellaneous r)
  else if port =? 0x3c4 then quiet (seq_index (sequencer r))
  else if port =? 0x3c5 then quiet (seq_read (sequencer r))
  else if port =? 0x3ce then quiet (gfx_index (graphics r))
  else if port =? 0x3cf then value ← gfx_read (graphics r); quiet value
  else if port =? 0x3c6 then quiet (dac_mask (dac r))
  else if port =? 0x3c7 then quiet (dac_state (dac r))
  else if port =? 0x3c8 then quiet (dac_current_address (dac r))
  else if port =? 0x3c9 then '(value, d) ← dac_read (dac r); Some (value, with_dac d r)
  else if port =? 0x3ca then quiet (feature_control r)
  else if port =? status_port r then Some (raster_status, with_attribute (reset_address (attribute r)) r)
  else if port =? index then quiet (crtc_index (crtc r))
  else if port =? data then value ← crtc_read (crtc r); quiet value
  else quiet 255.

Definition set_dac_mask (value : Z) (d : Dac) : Dac := mkDac value (dac_colors d) (dac_address d) (dac_component d) (dac_reading d).

Definition regs_write_port (port value : Z) (r : Registers) : option Registers :=
  let '(index, data) := crtc_ports r in
  if port =? 0x3c0 then a ← attr_write value (attribute r); Some (with_attribute a r)
  else if port =? 0x3c2 then Some (with_miscellaneous value r)
  else if port =? 0x3c4 then Some (with_sequencer (seq_select value (sequencer r)) r)
  else if port =? 0x3c5 then s ← seq_write value (sequencer r); Some (with_sequencer s r)
  else if port =? 0x3ce then Some (with_graphics (gfx_select value (graphics r)) r)
  else if port =? 0x3cf then g ← gfx_write value (graphics r); Some (with_graphics g r)
  else if port =? 0x3c6 then Some (with_dac (set_dac_mask value (dac r)) r)
  else if port =? 0x3c7 then Some (with_dac (dac_select value true (dac r)) r)
  else if port =? 0x3c8 then Some (with_dac (dac_select value false (dac r)) r)
  else if port =? 0x3c9 then d ← dac_write value (dac r); Some (with_dac d r)
  else if port =? status_port r then Some (with_feature_control value r)
  else if port =? index then Some (with_crtc (crtc_select value (crtc r)) r)
  else if port =? data then c ← crtc_write value (crtc r); Some (with_crtc c r)
  else Some r.

(** ** svga.rs *)

Definition VIDEO_MEMORY_BYTES : Z := 4 * 1024 * 1024.

Inductive PixelFormat : Set := Indexed8 | Rgb565 | Bgrx8888.
Definition bits_per_pixel (f : PixelFormat) : Z := match f with Indexed8 => 8 | Rgb565 => 16 | Bgrx8888 => 32 end.
Definition bytes_per_pixel (f : PixelFormat) : Z := bits_per_pixel f / 8.
Inductive SvgaResolution : Set := R640x480 | R800x600 | R1024x768.
Definition resolution_size (r : SvgaResolution) : Z * Z :=
  match r with R640x480 => (640, 480) | R800x600 => (800, 600) | R1024x768 => (1024, 768) end.
Record SvgaMode := mkMode { resolution : SvgaResolution; format : PixelFormat }.

Definition resolution_of (width height : Z) : option SvgaResolution :=
  if (width =? 640) && (height =? 480) then Some R640x480
  else if (width =? 800) && (height =? 600) then Some R800x600
  else if (width =? 1024) && (height =? 768) then Some R1024x768 else None.
Definition format_of (bits_per_pixel : Z) : option PixelFormat :=
  if bits_per_pixel =? 8 then Some Indexed8 else if bits_per_pixel =? 16 then Some Rgb565
  else if bits_per_pixel =? 32 then Some Bgrx8888 else None.
Definition mode_from_registers (width height bits_per_pixel : Z) : option SvgaMode :=
  resolution ← resolution_of width height; format ← format_of bits_per_pixel; Some (mkMode resolution format).
Definition mode_size (m : SvgaMode) : Z * Z := resolution_size (resolution m).
Definition max_pitch (m : SvgaMode) : Z :=
  let pixel_bytes := bytes_per_pixel (format m) in VIDEO_MEMORY_BYTES / (mode_size m).2 / pixel_bytes * pixel_bytes.

Record SvgaLayout := mkLayout { mode : SvgaMode; pitch : Z; origin_x : Z; origin_y : Z }.
Definition layout_of (m : SvgaMode) : SvgaLayout := mkLayout m ((mode_size m).1 * bytes_per_pixel (format m)) 0 0.
Definition layout_size (l : SvgaLayout) : Z * Z := mode_size (mode l).
Definition layout_format (l : SvgaLayout) : PixelFormat := format (mode l).
Definition layout_display_start (l : SvgaLayout) : Z := origin_y l * pitch l + origin_x l * bytes_per_pixel (layout_format l).
Definition virtual_height (l : SvgaLayout) : Z := VIDEO_MEMORY_BYTES / pitch l.
Definition virtual_width (l : SvgaLayout) : Z := pitch l / bytes_per_pixel (layout_format l).

(** The inner [None] refuses a layout. *)
Definition with_origin (x y : Z) (l : SvgaLayout) : option (option SvgaLayout) :=
  right ← checked_sub (virtual_width l) (layout_size l).1;
  if x <=? right then
    bottom ← checked_sub (virtual_height l) (layout_size l).2;
    Some (if y <=? bottom then Some (mkLayout (mode l) (pitch l) x y) else None)
  else Some None.
Definition with_pitch (p : Z) (l : SvgaLayout) : option (option SvgaLayout) :=
  let pixel_bytes := bytes_per_pixel (layout_format l) in
  if negb (p mod pixel_bytes =? 0) || negb (((layout_size l).1 * pixel_bytes <=? p) && (p <=? max_pitch (mode l))) then Some None
  else with_origin (origin_x l) (origin_y l) (mkLayout (mode l) p (origin_x l) (origin_y l)).
Definition with_virtual_width (pixels : Z) (l : SvgaLayout) : option (option SvgaLayout) :=
  let bytes := pixels * bytes_per_pixel (layout_format l) in if bytes <? 2 ^ 32 then with_pitch bytes l else Some None.
Definition layout_memory_bytes (l : SvgaLayout) : Z :=
  layout_display_start l + ((layout_size l).2 - 1) * pitch l + (layout_size l).1 * bytes_per_pixel (layout_format l).

(** ** registers/dispi.rs *)

Definition BANK_BYTES : Z := 65536.
Definition BANK_START : Z := 0xa0000.
Definition NO_CLEAR_MEMORY : Z := 0x80.

Record ActiveMode := mkActive { layout : SvgaLayout; flags : Z }.
Record Dispi := mkDispi { dispi_index : Z; dispi_width : Z; dispi_height : Z; dispi_bits : Z; active : option ActiveMode; bank : Z }.
Definition dispi_default : Dispi := mkDispi 0 0 0 0 None 0.

Definition enabled (d : Dispi) : bool := match active d with Some _ => true | None => false end.
Definition display_layout (d : Dispi) : option SvgaLayout := layout <$> active d.
(** The mapping holds the first byte of the bank. *)
Definition bank_mapping (d : Dispi) : option Z := if enabled d then Some (bank d * BANK_BYTES) else None.
Definition bank_memory_offset (vram_start address : Z) : option Z :=
  if (BANK_START <=? address) && (address <=? BANK_START + BANK_BYTES - 1) then Some (vram_start + address - BANK_START) else None.

Definition dispi_to_state_bytes (d : Dispi) : list Z :=
  let l := display_layout d in
  let words := [dispi_index d; dispi_width d; dispi_height d; dispi_bits d; match active d with Some a => flags a | None => 0 end; bank d;
    match l with Some l => wrap 16 (pitch l) | None => 0 end; match l with Some l => wrap 16 (origin_x l) | None => 0 end;
    match l with Some l => wrap 16 (origin_y l) | None => 0 end] in
  concat (to_le_bytes 2 <$> words).

Definition state_word (bytes : list Z) (index : nat) : Z := from_le_bytes [nth (2 * index) bytes 0; nth (2 * index + 1) bytes 0].
(** The [?] of an operation that refuses: the rest runs on what it gives. *)
Definition accepted {A B} (x : option (option A)) (rest : A -> option (option B)) : option (option B) :=
  x ← x; match x with Some a => rest a | None => Some None end.
Definition dispi_from_state_bytes (bytes : list Z) : option (option Dispi) :=
  let word := state_word bytes in
  let index := word 0%nat in let width := word 1%nat in let height := word 2%nat in let bits := word 3%nat in
  let flags := word 4%nat in let bank := word 5%nat in let pitch := word 6%nat in let x := word 7%nat in let y := word 8%nat in
  if VIDEO_MEMORY_BYTES / BANK_BYTES <=? bank then Some None
  else
    accepted
      (if flags =? 0 then Some (if negb ((pitch =? 0) && (x =? 0) && (y =? 0)) then None else Some None)
       else if negb (Z.land flags (bnot 16 NO_CLEAR_MEMORY) =? 1) then Some None
       else
         accepted (Some (mode_from_registers width height bits)) (fun m =>
         accepted (with_pitch pitch (layout_of m)) (fun l =>
         accepted (with_origin x y l) (fun l => Some (Some (Some (mkActive l flags)))))))
      (fun active => Some (Some (mkDispi index width height bits active bank))).

Definition dispi_register (d : Dispi) : Z :=
  let index := dispi_index d in
  if index =? 0 then 0xb0c2 else if index =? 1 then dispi_width d else if index =? 2 then dispi_height d else if index =? 3 then dispi_bits d
  else if index =? 4 then match active d with Some a => flags a | None => 0 end
  else if index =? 5 then bank d
  else if index =? 6 then match display_layout d with Some l => wrap 16 (virtual_width l) | None => 0 end
  else if index =? 7 then match display_layout d with Some l => wrap 16 (virtual_height l) | None => 0 end
  else if index =? 8 then match display_layout d with Some l => wrap 16 (origin_x l) | None => 0 end
  else if index =? 9 then match display_layout d with Some l => wrap 16 (origin_y l) | None => 0 end
  else 0xffff.
Definition dispi_read_port (port bytes : Z) (d : Dispi) : Z :=
  if negb (bytes =? 2) then if bytes =? 1 then 255 else 2 ^ 32 - 1
  else if port =? 0x1ce then dispi_index d else if port =? 0x1cf then dispi_register d else 0xffff.

Definition set_active (a : option ActiveMode) (d : Dispi) : Dispi :=
  mkDispi (dispi_index d) (dispi_width d) (dispi_height d) (dispi_bits d) a (bank d).
Definition set_layout (next : option SvgaLayout) (a : ActiveMode) (d : Dispi) : Dispi :=
  match next with Some l => set_active (Some (mkActive l (flags a))) d | None => d end.

(** The flag asks the device to clear video memory. *)
Definition dispi_write_register (value : Z) (d : Dispi) : option (Dispi * bool) :=
  let done d := Some (d, false) in
  let index := dispi_index d in
  let enable := negb (enabled d) && (Z.land value (bnot 16 NO_CLEAR_MEMORY) =? 1) in
  if (index =? 1) && negb (enabled d) then done (mkDispi index value (dispi_height d) (dispi_bits d) (active d) (bank d))
  else if (index =? 2) && negb (enabled d) then done (mkDispi index (dispi_width d) value (dispi_bits d) (active d) (bank d))
  else if (index =? 3) && negb (enabled d) then done (mkDispi index (dispi_width d) (dispi_height d) value (active d) (bank d))
  else if (index =? 4) && (value =? 0) then done (set_active None d)
  else if (index =? 4) && enable then
    match mode_from_registers (dispi_width d) (dispi_height d) (dispi_bits d) with
    | None => done d
    | Some m =>
        Some (mkDispi index (dispi_width d) (dispi_height d) (dispi_bits d) (Some (mkActive (layout_of m) value)) 0, negb (has value NO_CLEAR_MEMORY))
    end
  else if (index =? 5) && (value <? VIDEO_MEMORY_BYTES / BANK_BYTES) then
    done (mkDispi index (dispi_width d) (dispi_height d) (dispi_bits d) (active d) value)
  else
    match active d with
    | None => done d
    | Some a =>
        let l := layout a in
        if index =? 6 then next ← with_virtual_width value l; done (set_layout next a d)
        else if index =? 8 then next ← with_origin value (origin_y l) l; done (set_layout next a d)
        else if index =? 9 then next ← with_origin (origin_x l) value l; done (set_layout next a d)
        else done d
    end.
Definition dispi_write_port (port bytes value : Z) (d : Dispi) : option (Dispi * bool) :=
  if negb (bytes =? 2) then Some (d, false)
  else
    let value := wrap 16 value in
    if port =? 0x1ce then Some (mkDispi value (dispi_width d) (dispi_height d) (dispi_bits d) (active d) (bank d), false)
    else dispi_write_register value d.

(** ** registers/setup.rs *)

Record Setup := mkSetup { control : Z; option_select : Z }.
Definition setup_default : Setup := mkSetup 8 1.
Definition setup_from_bytes (control option_select : Z) : option Setup :=
  if (Z.land control (bnot 8 0x18) =? 0) && (option_select <=? 1) then Some (mkSetup control option_select) else None.
Definition setup_enabled (s : Setup) : bool := (control s =? 8) && negb (option_select s =? 0).
Definition write_control (value : Z) (s : Setup) : Setup := mkSetup (Z.land value 0x18) (option_select s).
Definition read_option (s : Setup) : Z := if has (control s) 0x10 then option_select s else 255.
Definition write_option (value : Z) (s : Setup) : Setup :=
  if has (control s) 0x10 then mkSetup (control s) (Z.land value 1) else s.

(** ** state.rs, state/vga_core.rs *)

Definition COLOR_SELECT : Z := 0x14.
Record DacState := mkDacState { state_dac : Dac; state_color_select : Z }.
Definition dac_state_to_bytes (s : DacState) : list Z := dac_to_state_bytes (state_dac s) ++ [state_color_select s].
Definition dac_state_from_bytes (bytes : list Z) : option DacState :=
  if 15 <? reg bytes 772 then None else d ← dac_from_state_bytes (take 772 bytes); Some (mkDacState d (reg bytes 772)).

Record VgaCoreState := mkCore {
  core_crtc : Crtc; core_sequencer : Sequencer; core_graphics : Graphics; core_attribute : Attribute;
  core_miscellaneous : Z; core_feature_control : Z; core_setup : Setup; core_latches : list Z }.

Definition set_color_select (value : Z) (a : Attribute) : Attribute :=
  mkAttribute (at_address a) (at_data_next a) (set_reg (at_values a) COLOR_SELECT value).
Definition core_capture (r : Registers) (s : Setup) (latches : list Z) : VgaCoreState :=
  mkCore (crtc r) (sequencer r) (graphics r) (set_color_select 0 (attribute r)) (miscellaneous r) (feature_control r) s latches.
Definition core_to_bytes (c : VgaCoreState) : list Z :=
  [core_miscellaneous c; core_feature_control c; control (core_setup c); option_select (core_setup c); seq_index (core_sequencer c);
   gfx_index (core_graphics c); crtc_index (core_crtc c); at_address (core_attribute c); Z.b2z (at_data_next (core_attribute c))]
  ++ to_le_bytes 2 (display_start (core_crtc c)) ++ core_latches c ++ seq_values (core_sequencer c) ++ gfx_values (core_graphics c)
  ++ crtc_values (core_crtc c) ++ take 20 (at_values (core_attribute c)).

(** Registers restored one after the other through the write port. *)
Fixpoint restore_from {A} (write : Z -> Z -> A -> option A) (index : Z) (bytes : list Z) (a : A) : option A :=
  match bytes with [] => Some a | value :: bytes => a ← write index value a; restore_from write (index + 1) bytes a end.
Definition restore_sequencer (bytes : list Z) : option Sequencer :=
  restore_from (fun index value s => seq_write value (seq_select index s)) 0 bytes sequencer_default.
Definition restore_graphics (bytes : list Z) : option Graphics :=
  restore_from (fun index value g => gfx_write value (gfx_select index g)) 0 bytes graphics_default.
Definition restore_crtc (bytes : list Z) : option Crtc :=
  c ← set_crtc 0x11 (Z.land (crtc_reg 0x11 crtc_default) (bnot 8 0x80)) crtc_default;
  restore_from (fun index value c => crtc_write value (crtc_select index c)) 0 bytes c.
Definition restore_attribute (bytes : list Z) : option Attribute :=
  restore_from (fun index value a => a ← attr_write index (reset_address a); attr_write value a) 0 bytes attribute_default.

Definition slice (from until : nat) (bytes : list Z) : list Z := take (until - from) (drop from bytes).
Definition core_from_bytes (bytes : list Z) : option (option VgaCoreState) :=
  s ← restore_sequencer (slice 15 20 bytes);
  g ← restore_graphics (slice 20 29 bytes);
  c ← restore_crtc (slice 29 54 bytes);
  a ← restore_attribute (drop 54 bytes);
  a ← attr_write (reg bytes 7) (reset_address a);
  let s := seq_select (reg bytes 4) s in
  let g := gfx_select (reg bytes 5) g in
  let c := crtc_select (reg bytes 6) c in
  let c := mkCrtc (crtc_index c) (crtc_values c) (from_le_bytes (slice 9 11 bytes)) in
  let a := set_color_select 0 (if reg bytes 8 =? 0 then reset_address a else a) in
  Some (
    setup ← setup_from_bytes (reg bytes 2) (reg bytes 3);
    let state := mkCore c s g a (reg bytes 0) (reg bytes 1) setup (slice 11 15 bytes) in
    if decide (core_to_bytes state = bytes) then Some state else None).

Definition core_restore (c : VgaCoreState) (r : Registers) : Registers :=
  mkRegisters (core_crtc c) (core_sequencer c) (core_graphics c) (set_color_select (reg (at_values (attribute r)) COLOR_SELECT) (core_attribute c))
    (dac r) (core_miscellaneous c) (core_feature_control c).
Definition dac_restore (s : DacState) (r : Registers) : Registers :=
  with_attribute (set_color_select (state_color_select s) (attribute r)) (with_dac (state_dac s) r).
