(* ===== verification/VgaRaster.v ===== *)
(** * VGA raster timing

    crates/vga/src: timing.rs, timing/*.rs and raster.rs: dot clocks decoded from the
    registers, and a raster position advanced by elapsed time with an exact
    remainder. A [Duration] is its number of nanoseconds; [None] is a panic. *)

From S2P Require Import Prelude Vga.
Local Open Scope Z_scope.

(** ** timing.rs *)

Definition NANOS_PER_SECOND : Z := 1000000000.

Record Timing := mkTiming {
  t_oscillator_hz : Z; t_dot_clock_divisor : Z; t_dots_per_horizontal_count : Z;
  t_horizontal_total : Z; t_horizontal_display : Z; t_horizontal_display_skew : Z;
  t_vertical_total : Z; t_vertical_display : Z; t_scanlines_per_vertical_count : Z;
  t_vertical_retrace_start : Z; t_vertical_retrace_end : Z; t_wrapped_retrace_end : Z;
  t_reset_active : bool; t_sync_enabled : bool }.

#[export] Instance Timing_eq_dec : EqDecision Timing.
Proof. solve_decision. Defined.

Definition clock_running (t : Timing) : bool := negb (t_oscillator_hz t =? 0).
Definition frame_dots (t : Timing) : Z := t_horizontal_total t * t_vertical_total t * t_scanlines_per_vertical_count t.
Definition retrace_dot (t : Timing) : option Z :=
  if clock_running t && (t_vertical_retrace_start t <? t_vertical_total t)
  then Some (t_vertical_retrace_start t * t_scanlines_per_vertical_count t * t_horizontal_total t) else None.
Definition vertical_retrace_active (vertical_count : Z) (t : Timing) : bool :=
  let start := t_vertical_retrace_start t in
  if t_reset_active t || negb (t_sync_enabled t) || (t_vertical_total t <=? start) then false
  else ((start <=? vertical_count) && (vertical_count <? t_vertical_retrace_end t)) || (vertical_count <? t_wrapped_retrace_end t).
Definition retrace_pulse_dot (t : Timing) : option Z :=
  if vertical_retrace_active (t_vertical_retrace_start t) t then retrace_dot t else None.
Definition phase_denominator (t : Timing) : Z := NANOS_PER_SECOND * t_dot_clock_divisor t.

(** The dots elapsed and the remainder carried on. *)
Definition elapsed_dots (elapsed remainder : Z) (t : Timing) : Z * Z :=
  let numerator := elapsed * t_oscillator_hz t + remainder in
  (numerator / phase_denominator t, numerator mod phase_denominator t).
Definition rescale_remainder (remainder : Z) (old t : Timing) : Z := remainder * phase_denominator t / phase_denominator old.
Definition elapsed_for_dots (dots remainder : Z) (t : Timing) : Z :=
  wrap 64 ((dots * phase_denominator t + remainder) / t_oscillator_hz t).
(** [div_ceil]. *)
Definition remaining_for_dots (dots remainder : Z) (t : Timing) : Z :=
  wrap 64 ((dots * phase_denominator t - remainder + t_oscillator_hz t - 1) / t_oscillator_hz t).

(** ** timing/vga.rs, timing/svga.rs *)

Definition timing_vga (r : Registers) : Timing :=
  let c := crtc r in let s := sequencer r in
  let total := vertical_total c in
  let start := vertical_retrace_start c in
  let low := vertical_retrace_end_low_bits c in
  let first_end := start + (Z.land (wrap 64 (low - start - 1)) 15 + 1) in
  let dots := dots_per_character s in
  mkTiming (if seq_reset_active s then 0 else oscillator_hz r) (seq_dot_clock_divisor s) dots
    (horizontal_total c * dots) (horizontal_display c * dots) (horizontal_display_skew c * dots)
    total (vertical_display c) (scanlines_per_vertical_count c) start first_end
    (if (start <? total) && (total <=? first_end) then low else 0) (seq_reset_active s) (sync_enabled c).

Definition svga_raster (r : SvgaResolution) : Z * Z * Z * (Z * Z) :=
  match r with
  | R640x480 => (25175000, 800, 525, (490, 492))
  | R800x600 => (40000000, 1056, 628, (601, 605))
  | R1024x768 => (65000000, 1344, 806, (771, 777))
  end.
Definition timing_svga (l : SvgaLayout) : Timing :=
  let '(oscillator, horizontal, vertical, retrace) := svga_raster (resolution (mode l)) in
  mkTiming oscillator 1 1 horizontal (layout_size l).1 0 vertical (layout_size l).2 1 retrace.1 retrace.2 0 false true.

(** ** raster.rs *)

Record Raster := mkRaster { timing : Timing; updated : Z; dot : Z; dot_remainder : Z; retrace_count : Z }.

Definition raster_new (now : Z) (t : Timing) : Raster := mkRaster t now 0 0 0.

(** The latest retrace crossed, if any. *)
Definition update_to (now : Z) (r : Raster) : option (Raster * option Z) :=
  let t := timing r in
  let elapsed := Z.max 0 (now - updated r) in
  if negb (clock_running t) then Some (mkRaster t now (dot r) (dot_remainder r) (retrace_count r), None)
  else
    let '(dots, remainder) := elapsed_dots elapsed (dot_remainder r) t in
    let frame := frame_dots t in
    let dot' := (dot r + dots) mod frame in
    match retrace_dot t with
    | None => Some (mkRaster t now dot' remainder (retrace_count r), None)
    | Some boundary =>
        let since_previous_boundary := (dot r + frame - boundary) mod frame in
        let advanced := since_previous_boundary + dots in
        let frames := advanced / frame in
        if frames =? 0 then Some (mkRaster t now dot' remainder (retrace_count r), None)
        else if (2 ^ 64 <=? frames) || (2 ^ 64 <=? retrace_count r + frames) then None
        else
          let back := elapsed_for_dots (wrap 64 (advanced mod frame)) remainder t in
          if now <? back then None
          else Some (mkRaster t now dot' remainder (retrace_count r + frames), Some (now - back))
    end.

Definition set_timing (new : Timing) (r : Raster) : Raster * bool :=
  let old := timing r in
  if decide (old = new) then (r, false)
  else if t_reset_active old || t_reset_active new then (mkRaster new (updated r) 0 0 (retrace_count r), true)
  else
    let physical_line := dot r / t_horizontal_total old in
    let vertical_count := physical_line / t_scanlines_per_vertical_count old in
    let subline := physical_line mod t_scanlines_per_vertical_count old in
    let line := vertical_count * t_scanlines_per_vertical_count new
      + subline * t_scanlines_per_vertical_count new / t_scanlines_per_vertical_count old in
    let horizontal := dot r mod t_horizontal_total old in
    let horizontal := horizontal / t_dots_per_horizontal_count old * t_dots_per_horizontal_count new
      + Z.min (horizontal mod t_dots_per_horizontal_count old) (t_dots_per_horizontal_count new - 1) in
    (mkRaster new (updated r) ((line * t_horizontal_total new + horizontal mod t_horizontal_total new) mod frame_dots new)
      (rescale_remainder (dot_remainder r) old new) (retrace_count r), true).

Definition restart (t : Timing) (r : Raster) : Raster := mkRaster t (updated r) 0 0 (retrace_count r).

(** The largest [Duration]. *)
Definition MAX_NANOS : Z := 2 ^ 64 * NANOS_PER_SECOND - 1.

Definition next_dot_at (boundary : Z) (r : Raster) : option Z :=
  let total := frame_dots (timing r) in
  let dots := (boundary + total - dot r) mod total in
  let dots := if dots =? 0 then total else dots in
  let at_ := updated r + remaining_for_dots dots (dot_remainder r) (timing r) in
  if at_ <=? MAX_NANOS then Some at_ else None.
Definition next_retrace_at (r : Raster) : option Z := boundary ← retrace_dot (timing r); next_dot_at boundary r.
Definition next_retrace_pulse_at (r : Raster) : option Z := boundary ← retrace_pulse_dot (timing r); next_dot_at boundary r.

Definition in_retrace (r : Raster) : bool :=
  vertical_retrace_active (dot r / t_horizontal_total (timing r) / t_scanlines_per_vertical_count (timing r)) (timing r).
Definition input_status_1 (r : Raster) : Z :=
  let t := timing r in
  let horizontal := dot r mod t_horizontal_total t in
  let vertical := dot r / t_horizontal_total t / t_scanlines_per_vertical_count t in
  let disabled := t_reset_active t || (horizontal <? t_horizontal_display_skew t)
    || (t_horizontal_display_skew t + t_horizontal_display t <=? horizontal) || (t_vertical_display t <=? vertical) in
  Z.lor (if disabled then 1 else 0) (if in_retrace r then 8 else 0).

(** ** Positions in a frame *)

Definition timing_ok (t : Timing) : Prop :=
  0 <= t_oscillator_hz t < NANOS_PER_SECOND /\ 1 <= t_dot_clock_divisor t <= 2
  /\ 1 <= t_horizontal_total t /\ 1 <= t_scanlines_per_vertical_count t /\ 1 <= t_vertical_total t /\ frame_dots t < 2 ^ 32
  /\ 0 <= t_vertical_retrace_start t.
Definition raster_ok (r : Raster) : Prop :=
  timing_ok (timing r) /\ 0 <= dot r < frame_dots (timing r) /\ 0 <= dot_remainder r < phase_denominator (timing r)
  /\ 0 <= retrace_count r <= updated r.

Lemma frame_dots_pos t : timing_ok t -> 0 < frame_dots t < 2 ^ 32.
Proof. intros (_ & _ & ? & ? & ? & ? & _). unfold frame_dots in *. nia. Qed.
Lemma phase_denominator_pos t : timing_ok t -> NANOS_PER_SECOND <= phase_denominator t <= 2 * NANOS_PER_SECOND.
Proof. intros (_ & ? & _). unfold phase_denominator, NANOS_PER_SECOND. lia. Qed.
Lemma retrace_dot_bounds t b : timing_ok t -> retrace_dot t = Some b -> 0 <= b < frame_dots t /\ 0 < t_oscillator_hz t.
Proof.
  intros (? & _ & ? & ? & ? & _ & ?). unfold retrace_dot, clock_running, frame_dots. destruct (_ && _) eqn:E; [|done].
  apply andb_true_iff in E as [Ho Hs]. breflect. intros [= <-]. split; [|lia].
  assert (t_vertical_retrace_start t * t_scanlines_per_vertical_count t < t_vertical_total t * t_scanlines_per_vertical_count t) by nia. nia.
Qed.

(** Time elapsed becomes whole dots and a remainder, exactly. *)
Lemma elapsed_dots_spec e rem t : timing_ok t -> 0 <= e -> 0 <= rem < phase_denominator t ->
  let '(dots, rem') := elapsed_dots e rem t in
  dots * phase_denominator t + rem' = e * t_oscillator_hz t + rem /\ 0 <= rem' < phase_denominator t /\ 0 <= dots <= e.
Proof.
  intros Ht He Hr. pose proof (phase_denominator_pos t Ht) as Hd. destruct Ht as (Ho & _). unfold elapsed_dots.
  assert (0 < phase_denominator t) as Hd' by (unfold NANOS_PER_SECOND in *; lia). set (d := phase_denominator t) in *. set (n := e * t_oscillator_hz t + rem).
  pose proof (Z.div_mod n d ltac:(lia)). pose proof (Z.mod_pos_bound n d Hd'). split; [lia|]. split; [done|].
  assert (0 <= n) by (unfold n; nia). assert (n < (e + 1) * d) by (unfold n, NANOS_PER_SECOND in *; nia).
  split; [by apply Z.div_pos|]. assert (n / d < e + 1); [|lia]. apply Z.div_lt_upper_bound; lia.
Qed.

(** The dots since the previous retrace. *)
Definition since_retrace (b : Z) (r : Raster) : Z := (dot r + frame_dots (timing r) - b) mod frame_dots (timing r).
Lemma since_retrace_bounds b r : raster_ok r -> 0 <= since_retrace b r < frame_dots (timing r).
Proof. intros (Ht & _). apply Z.mod_pos_bound, (frame_dots_pos _ Ht). Qed.

(** Advancing a running raster, without the checks for overflow. *)
Definition advanced (now : Z) (r : Raster) : Raster * option Z :=
  let t := timing r in
  let '(dots, rem) := elapsed_dots (now - updated r) (dot_remainder r) t in
  let position := (dot r + dots) mod frame_dots t in
  match retrace_dot t with
  | None => (mkRaster t now position rem (retrace_count r), None)
  | Some b =>
      let n := since_retrace b r + dots in
      let frames := n / frame_dots t in
      (mkRaster t now position rem (retrace_count r + frames),
       if frames =? 0 then None else Some (now - (n mod frame_dots t * phase_denominator t + rem) / t_oscillator_hz t))
  end.

(** A retrace crossed lies between the two instants. *)
Lemma advanced_time now r b dots rem : raster_ok r -> updated r <= now -> retrace_dot (timing r) = Some b ->
  elapsed_dots (now - updated r) (dot_remainder r) (timing r) = (dots, rem) ->
  let n := since_retrace b r + dots in
  n / frame_dots (timing r) <> 0 ->
  0 <= (n mod frame_dots (timing r) * phase_denominator (timing r) + rem) / t_oscillator_hz (timing r) <= now - updated r.
Proof.
  intros Hok Hnow Hb He n Hn. pose proof (since_retrace_bounds b r Hok) as Hs. destruct Hok as (Ht & Hdot & Hrem & _).
  pose proof (retrace_dot_bounds _ _ Ht Hb) as [_ Ho]. pose proof (frame_dots_pos _ Ht) as Hf. pose proof (phase_denominator_pos _ Ht) as Hd.
  pose proof (elapsed_dots_spec (now - updated r) (dot_remainder r) (timing r) Ht ltac:(lia) Hrem) as Hspec. rewrite He in Hspec.
  destruct Hspec as (Hexact & Hr & Hdots). unfold NANOS_PER_SECOND in *.
  assert (0 <= n) by (unfold n; lia). pose proof (Z.div_mod n (frame_dots (timing r)) ltac:(lia)) as Hdm.
  pose proof (Z.mod_pos_bound n (frame_dots (timing r)) ltac:(lia)) as Hm. set (m := n mod frame_dots (timing r)) in *.
  assert (1 <= n / frame_dots (timing r)) by (pose proof (Z.div_pos n (frame_dots (timing r)) ltac:(lia) ltac:(lia)); lia).
  assert (m <= dots - 1) by (unfold n in *; nia).
  set (d := phase_denominator (timing r)) in *. set (o := t_oscillator_hz (timing r)) in *.
  split; [apply Z.div_pos; nia|]. apply Z.div_le_upper_bound; [lia|]. nia.
Qed.

Lemma update_to_advanced now r : raster_ok r -> updated r <= now < 2 ^ 63 -> clock_running (timing r) = true ->
  update_to now r = Some (advanced now r).
Proof.
  intros Hok Hnow Hrun. unfold update_to, advanced. rewrite Hrun, Z.max_r by lia. cbn [negb].
  destruct (elapsed_dots _ _ _) as [dots rem] eqn:He. destruct (retrace_dot (timing r)) as [b|] eqn:Hb; [|done].
  fold (since_retrace b r). pose proof (advanced_time now r b dots rem Hok ltac:(lia) Hb He) as Htime. cbn zeta in Htime.
  pose proof (since_retrace_bounds b r Hok) as Hs. destruct Hok as (Ht & Hdot & Hrem & Hcount).
  pose proof (elapsed_dots_spec (now - updated r) (dot_remainder r) (timing r) Ht ltac:(lia) Hrem) as Hspec. rewrite He in Hspec.
  destruct Hspec as (_ & Hr & Hdots). pose proof (frame_dots_pos _ Ht) as Hf. set (n := since_retrace b r + dots) in *.
  assert (0 <= n / frame_dots (timing r) <= dots) as Hframes.
  { split; [apply Z.div_pos; unfold n; lia|]. apply Z.lt_succ_r, Z.div_lt_upper_bound; [lia|]. unfold n. nia. }
  destruct (Z.eqb_spec (n / frame_dots (timing r)) 0) as [E|]; [by rewrite E, Z.add_0_r|].
  rewrite (proj2 (Z.leb_gt _ _)), (proj2 (Z.leb_gt (2 ^ 64) (_ + _))) by lia. cbn [orb].
  specialize (Htime ltac:(done)). unfold elapsed_for_dots.
  pose proof (Z.mod_pos_bound n (frame_dots (timing r)) ltac:(lia)).
  rewrite (wrap_small 64 (n mod _)) by (unfold fits; lia). rewrite wrap_small by (unfold fits; lia).
  by rewrite (proj2 (Z.ltb_ge _ _)) by lia.
Qed.

Lemma update_to_ok now r : raster_ok r -> updated r <= now < 2 ^ 63 ->
  exists r' retrace, update_to now r = Some (r', retrace) /\ raster_ok r' /\ timing r' = timing r /\ updated r' = now.
Proof.
  intros Hok Hnow. destruct (clock_running (timing r)) eqn:Hrun.
  - rewrite update_to_advanced by done. pose proof Hok as (Ht & Hdot & Hrem & Hcount). pose proof (frame_dots_pos _ Ht) as Hf. unfold advanced.
    pose proof (elapsed_dots_spec (now - updated r) (dot_remainder r) (timing r) Ht ltac:(lia) Hrem) as Hspec.
    destruct (elapsed_dots _ _ _) as [dots rem]. destruct Hspec as (_ & Hr & Hdots).
    assert (0 <= (dot r + dots) mod frame_dots (timing r) < frame_dots (timing r)) by (apply Z.mod_pos_bound; lia).
    destruct (retrace_dot _) as [b|]; (eexists _, _; split; [done|]); (split; [|done]);
      unfold raster_ok; cbn [timing updated dot dot_remainder retrace_count]; repeat (split; [done || lia|]); [|lia].
    pose proof (since_retrace_bounds b r Hok).
    assert (0 <= (since_retrace b r + dots) / frame_dots (timing r) <= dots); [|lia].
    split; [apply Z.div_pos; lia|]. apply Z.lt_succ_r, Z.div_lt_upper_bound; [lia|]. nia.
  - unfold update_to. rewrite Hrun. cbn [negb]. eexists _, _. split; [done|]. split; [|done].
    destruct Hok as (? & ? & ? & ?). unfold raster_ok. cbn. repeat (split; [done || lia|]). lia.
Qed.

Lemma clock_stopped now r : clock_running (timing r) = false ->
  update_to now r = Some (mkRaster (timing r) now (dot r) (dot_remainder r) (retrace_count r), None).
Proof. intros H. unfold update_to. by rewrite H. Qed.

(** Dots elapsed in two stages are the dots elapsed at once. *)
Lemma elapsed_dots_split t e1 e2 rem : timing_ok t -> 
  let '(dots1, rem1) := elapsed_dots e1 rem t in
  let '(dots2, rem2) := elapsed_dots e2 rem1 t in
  elapsed_dots (e1 + e2) rem t = (dots1 + dots2, rem2).
Proof.
  intros Ht. pose proof (phase_denominator_pos t Ht) as Hd. unfold NANOS_PER_SECOND in Hd. unfold elapsed_dots. set (d := phase_denominator t) in *.
  set (n := e1 * t_oscillator_hz t + rem). pose proof (Z.div_mod n d ltac:(lia)).
  replace ((e1 + e2) * t_oscillator_hz t + rem) with (e2 * t_oscillator_hz t + n mod d + (n / d) * d) by (unfold n in *; lia).
  rewrite Z.div_add, Z.mod_add by lia. f_equal. lia.
Qed.

Lemma since_retrace_advance b r r' dots : raster_ok r -> timing r' = timing r -> dot r' = (dot r + dots) mod frame_dots (timing r) ->
  since_retrace b r' = (since_retrace b r + dots) mod frame_dots (timing r).
Proof.
  intros (Ht & _) Hr Hd. pose proof (frame_dots_pos _ Ht). unfold since_retrace. rewrite Hr, Hd.
  rewrite <- Z.add_sub_assoc, Z.add_mod_idemp_l, <- (Z.add_sub_assoc (dot r)), Z.add_mod_idemp_l by lia. f_equal. lia.
Qed.

(** Advancing in two stages is advancing at once: no fraction of a dot is lost. *)
Lemma advanced_split t1 t2 r : raster_ok r -> updated r <= t1 <= t2 -> t2 < 2 ^ 63 -> 0 < t_oscillator_hz (timing r) ->
  let '(r1, e1) := advanced t1 r in let '(r2, e2) := advanced t2 r1 in
  advanced t2 r = (r2, match e2 with Some _ => e2 | None => e1 end).
Proof.
  intros Hok H12 H2 Ho. pose proof Hok as (Ht & Hdot & Hrem & _). pose proof (frame_dots_pos _ Ht) as Hf.
  pose proof (elapsed_dots_split (timing r) (t1 - updated r) (t2 - t1) (dot_remainder r) Ht) as Hsplit.
  pose proof (elapsed_dots_spec (t1 - updated r) (dot_remainder r) (timing r) Ht ltac:(lia) Hrem) as Hs1.
  unfold advanced. destruct (elapsed_dots (t1 - updated r) (dot_remainder r) (timing r)) as [dots1 rem1].
  destruct Hs1 as (_ & Hrem1 & Hd1).
  pose proof (elapsed_dots_spec (t2 - t1) rem1 (timing r) Ht ltac:(lia) Hrem1) as Hs2.
  destruct (elapsed_dots (t2 - t1) rem1 (timing r)) as [dots2 rem2] eqn:E2. destruct Hs2 as (Hexact & _ & Hd2).
  replace (t1 - updated r + (t2 - t1)) with (t2 - updated r) in Hsplit by lia. rewrite Hsplit.
  assert ((dot r + (dots1 + dots2)) mod frame_dots (timing r) = ((dot r + dots1) mod frame_dots (timing r) + dots2) mod frame_dots (timing r)) as Hdots.
  { rewrite Z.add_mod_idemp_l by lia. f_equal. lia. }
  destruct (retrace_dot (timing r)) as [b|] eqn:Hb; cbn [timing updated dot dot_remainder retrace_count]; rewrite E2, Hb; cbn [timing updated dot dot_remainder retrace_count];
    [|by rewrite Hdots].
  rewrite (since_retrace_advance b r (mkRaster _ _ _ _ _) dots1 Hok eq_refl eq_refl).
  set (f := frame_dots (timing r)) in *. set (n1 := since_retrace b r + dots1). rewrite Hdots.
  pose proof (Z.div_mod n1 f ltac:(lia)) as Hn1.
  replace (since_retrace b r + (dots1 + dots2)) with (n1 mod f + dots2 + (n1 / f) * f) by (unfold n1 in *; lia).
  rewrite Z.div_add, Z.mod_add by lia. set (n2 := n1 mod f + dots2).
  assert (0 <= n1 / f /\ 0 <= n2 / f) as [Hf1 Hf2].
  { pose proof (since_retrace_bounds b r Hok). assert (0 < f) as Hf0 by lia. pose proof (Z.mod_pos_bound n1 f Hf0).
    split; apply Z.div_pos; try done; [unfold n1|unfold n2]; lia. }
  replace (n2 / f + n1 / f) with (n1 / f + n2 / f) by lia. rewrite Z.add_assoc. f_equal.
  destruct (Z.eqb_spec (n2 / f) 0) as [E|]; [|by rewrite (proj2 (Z.eqb_neq (n1 / f + n2 / f) 0)) by lia].
  rewrite E, Z.add_0_r. destruct (n1 / f =? 0); [done|]. f_equal.
  replace (n2 mod f) with n2 by (pose proof (Z.div_mod n2 f ltac:(lia)); lia). unfold n2.
  replace ((n1 mod f + dots2) * phase_denominator (timing r) + rem2)
    with (n1 mod f * phase_denominator (timing r) + rem1 + (t2 - t1) * t_oscillator_hz (timing r)) by nia.
  rewrite Z.div_add by lia. lia.
Qed.

(** The dots until the next retrace complete the frame that began at the last one. *)
Definition until_retrace (b : Z) (r : Raster) : Z :=
  let dots := (b + frame_dots (timing r) - dot r) mod frame_dots (timing r) in if dots =? 0 then frame_dots (timing r) else dots.
Lemma until_retrace_spec b r : raster_ok r -> 0 < until_retrace b r <= frame_dots (timing r) /\ since_retrace b r + until_retrace b r = frame_dots (timing r).
Proof.
  intros (Ht & _). pose proof (frame_dots_pos _ Ht) as Hf. unfold until_retrace, since_retrace. set (f := frame_dots (timing r)) in *.
  assert (0 < f) as Hf0 by lia. set (x := dot r - b).
  replace (b + f - dot r) with (- x + 1 * f) by (unfold x; lia). replace (dot r + f - b) with (x + 1 * f) by (unfold x; lia).
  rewrite !Z.mod_add by lia. pose proof (Z.mod_pos_bound x f Hf0). destruct (Z.eqb_spec (- x mod f) 0) as [E|Hne].
  - split; [lia|]. apply Z.mod_opp_l_z in E; [|lia]. rewrite Z.opp_involutive in E. lia.
  - assert (x mod f <> 0) as Hx by (intros E; apply Hne; by apply Z.mod_opp_l_z; [lia|]).
    rewrite Z.mod_opp_l_nz in * by lia. lia.
Qed.

(** The deadline is the first instant at which those dots have elapsed. *)
Lemma deadline_spec dots rem t : timing_ok t -> 0 < t_oscillator_hz t -> 0 < dots <= frame_dots t -> 0 <= rem < phase_denominator t ->
  let d := remaining_for_dots dots rem t in
  0 <= d < 2 ^ 63 /\ (forall e, 0 <= e < d -> (elapsed_dots e rem t).1 < dots) /\
  (elapsed_dots d rem t).1 = dots /\ 0 <= (elapsed_dots d rem t).2 < t_oscillator_hz t.
Proof.
  intros Ht Ho Hdots Hrem d. pose proof (frame_dots_pos t Ht) as Hf. pose proof (phase_denominator_pos t Ht) as Hd. destruct Ht as (Hosc & _).
  unfold NANOS_PER_SECOND in *. set (o := t_oscillator_hz t) in *. set (den := phase_denominator t) in *.
  set (x := dots * den - rem). assert (0 < x <= dots * den) by (unfold x; nia).
  assert (d = (x + o - 1) / o) as Hdx.
  { unfold d, remaining_for_dots. fold o den x. apply wrap_small. split; [apply Z.div_pos; lia|].
    apply Z.div_lt_upper_bound; [lia|]. nia. }
  assert (x <= d * o < x + o) as Hx.
  { rewrite Hdx. pose proof (Z.div_mod (x + o - 1) o ltac:(lia)). pose proof (Z.mod_pos_bound (x + o - 1) o Ho). lia. }
  assert (0 <= d < 2 ^ 63) as Hd63 by (rewrite Hdx; split; [apply Z.div_pos; lia|apply Z.div_lt_upper_bound; nia]).
  split; [done|]. unfold elapsed_dots. fold o den. cbn [fst snd]. split.
  - intros e He. apply Z.div_lt_upper_bound; [lia|]. assert (e * o < x) by nia. unfold x in *. lia.
  - assert ((d * o + rem) / den = dots) as Hdiv by (symmetry; apply Z.div_unique_pos with (r := d * o + rem - dots * den); unfold x in *; lia).
    split; [done|]. pose proof (Z.div_mod (d * o + rem) den ltac:(lia)). unfold x in *. lia.
Qed.

(** What [next_retrace_at] promises: no retrace before its deadline, one exactly at it. *)
Lemma next_retrace_spec r b : raster_ok r -> updated r < 2 ^ 63 -> retrace_dot (timing r) = Some b ->
  let d := updated r + remaining_for_dots (until_retrace b r) (dot_remainder r) (timing r) in
  next_retrace_at r = Some d
  /\ (forall now, updated r <= now < d -> now < 2 ^ 63 -> exists r', update_to now r = Some (r', None))
  /\ (d < 2 ^ 63 -> exists r', update_to d r = Some (r', Some d) /\ retrace_count r' = retrace_count r + 1).
Proof.
  intros Hok Hu Hb d. pose proof Hok as (Ht & Hdot & Hrem & Hcount). pose proof (retrace_dot_bounds _ _ Ht Hb) as [_ Ho].
  destruct (until_retrace_spec b r Hok) as [Huntil Hsum]. pose proof (since_retrace_bounds b r Hok) as Hsince.
  destruct (deadline_spec (until_retrace b r) (dot_remainder r) (timing r) Ht Ho Huntil Hrem) as (Hd & Hbefore & Hat & Hleft).
  pose proof (frame_dots_pos _ Ht) as Hf.
  assert (clock_running (timing r) = true) as Hrun by (unfold clock_running; apply negb_true_iff, Z.eqb_neq; lia).
  split; [|split].
  - unfold next_retrace_at. rewrite Hb. cbn [mbind option_bind]. unfold next_dot_at. fold (until_retrace b r).
    change (updated r + _) with d. rewrite (proj2 (Z.leb_le _ _)); [done|]. unfold d, MAX_NANOS, NANOS_PER_SECOND in *. lia.
  - intros now Hnow H63. rewrite update_to_advanced by (done || lia). unfold advanced. rewrite Hb.
    pose proof (elapsed_dots_spec (now - updated r) (dot_remainder r) (timing r) Ht ltac:(lia) Hrem) as Hspec.
    specialize (Hbefore (now - updated r) ltac:(lia)). destruct (elapsed_dots _ _ _) as [dots rem]. cbn [fst] in Hbefore.
    destruct Hspec as (_ & _ & Hdots). rewrite Z.div_small by lia. by eexists.
  - intros H63. rewrite update_to_advanced by (done || lia). unfold advanced. rewrite Hb.
    replace (d - updated r) with (remaining_for_dots (until_retrace b r) (dot_remainder r) (timing r)) by lia.
    destruct (elapsed_dots _ _ _) as [dots rem]. cbn [fst snd] in Hat, Hleft. subst dots. rewrite Hsum.
    rewrite Z.div_same, Z.mod_same by lia. cbn [Z.eqb]. rewrite Z.mul_0_l, Z.add_0_l, (Z.div_small rem) by lia.
    rewrite Z.sub_0_r. by eexists.
Qed.

(** *** Reprogramming *)

Lemma restart_ok t r : timing_ok t -> raster_ok r -> raster_ok (restart t r).
Proof.
  intros Ht (_ & _ & _ & Hc). pose proof (frame_dots_pos _ Ht). pose proof (phase_denominator_pos _ Ht). unfold NANOS_PER_SECOND in *.
  unfold raster_ok, restart. cbn. repeat (split; [done || lia|]). lia.
Qed.
Lemma set_timing_ok t r : timing_ok t -> raster_ok r -> raster_ok (set_timing t r).1.
Proof.
  intros Ht Hok. unfold set_timing. case_decide; [done|]. case_match; [by apply restart_ok|]. destruct Hok as (Ht' & Hdot & Hrem & Hc).
  pose proof (frame_dots_pos _ Ht). pose proof (phase_denominator_pos _ Ht) as Hd. pose proof (phase_denominator_pos _ Ht') as Hd'.
  unfold NANOS_PER_SECOND in *. unfold raster_ok. cbn [fst timing dot dot_remainder retrace_count updated]. split; [done|].
  split; [apply Z.mod_pos_bound; lia|]. split; [|done]. unfold rescale_remainder.
  split; [apply Z.div_pos; nia|]. apply Z.div_lt_upper_bound; nia.
Qed.
