(* ===== verification/VgaMemory.v ===== *)
(** * VGA memory, captured inputs and uploads

    crates/vga/src: memory.rs, memory/*.rs, scanout.rs, scanout/vga.rs, snapshot.rs
    and renderer/memory.rs. A 64-KiB block of video memory is an [Arc]: the number
    of an allocation in a store of byte arrays, in which bytes not listed are zero.
    [Arc::make_mut] writes in place when nobody else holds the block and to a fresh
    allocation otherwise, so the operations that write take the block lists that
    captures and renderers retain. [None] is a panic: an index or a slice out of
    range, or an address past 32 bits. *)

From S2P Require Import Prelude Bytes Types Vga VgaRaster.
Local Open Scope Z_scope.

Definition BLOCK_BYTES : Z := 65536.
Definition BLOCKS : nat := 64.
Definition VGA_MEMORY_BYTES : Z := 4 * BLOCK_BYTES.

(** ** memory/pages.rs *)

Definition PAGE_BYTES : Z := 1024.

(** One u64 for each block. *)
Notation DirtyPages := (list Z) (only parsing).
Definition no_pages : DirtyPages := zeros BLOCKS.
Definition merge (pages other : DirtyPages) : DirtyPages := zip_with Z.lor pages other.
Definition mark (block : nat) (offset : Z) (pages : DirtyPages) : DirtyPages :=
  alter (fun mask => Z.lor mask (Z.shiftl 1 (offset / PAGE_BYTES))) block pages.
Definition mark_block (block : nat) (pages : DirtyPages) : DirtyPages := <[block := Z.ones 64]> pages.

(** Every round clears the lowest run of set bits, so 64 rounds are enough. *)
Fixpoint page_ranges (fuel : nat) (pages : Z) : list (Z * Z) :=
  match fuel with
  | O => []
  | S fuel =>
      if pages =? 0 then []
      else
        let start := trailing_zeros 64 pages in
        let stop := start + trailing_ones 64 (Z.shiftr pages start) in
        let pages := if stop =? 64 then 0 else Z.land pages (wrap 64 (Z.shiftl (Z.ones 64) stop)) in
        (start * PAGE_BYTES, stop * PAGE_BYTES) :: page_ranges fuel pages
  end.
Definition ranges (block : nat) (pages : DirtyPages) : list (Z * Z) := page_ranges 64 (nth block pages 0).

(** ** memory/storage.rs *)

Notation Block := (gmap Z Z) (only parsing).
Definition byte_in (bytes : Block) (offset : Z) : Z := default 0 (bytes !! offset).

Notation Arc := Z (only parsing).
Notation MemorySnapshot := (list Z) (only parsing).

Record Storage := mkStorage { heap : gmap Arc Block; allocated : Arc; blocks : list Arc; changed : DirtyPages }.

Definition location (address : Z) : nat * Z :=
  (Z.to_nat (address / (4 * BLOCK_BYTES) * 4 + Z.land address 3), address / 4 mod BLOCK_BYTES).

Definition arc_byte (h : gmap Arc Block) (arc : Arc) (offset : Z) : Z := byte_in (default ∅ (h !! arc)) offset.

(** One zeroed allocation fills every place. *)
Definition storage_on (h : gmap Arc Block) (allocated : Arc) : Storage :=
  mkStorage (<[allocated := ∅]> h) (allocated + 1) (replicate BLOCKS allocated) no_pages.
Definition storage_default : Storage := storage_on ∅ 0.
Definition storage_clear (s : Storage) : Storage :=
  let s := storage_on (heap s) (allocated s) in
  mkStorage (heap s) (allocated s) (blocks s) (foldr mark_block (changed s) (seq 0 BLOCKS)).

Definition storage_read (address : Z) (s : Storage) : option Z :=
  let '(block, offset) := location address in arc ← blocks s !! block; Some (arc_byte (heap s) arc offset).

(** A strong count above one: the block is at another place or retained. *)
Definition shared (retained : list MemorySnapshot) (block : nat) (arc : Arc) (s : Storage) : bool :=
  existsb (existsb (Z.eqb arc)) (delete block (blocks s) :: retained).

Definition storage_write (retained : list MemorySnapshot) (address value : Z) (s : Storage) : option Storage :=
  let '(block, offset) := location address in
  arc ← blocks s !! block;
  if arc_byte (heap s) arc offset =? value then Some s
  else
    let bytes := <[offset := value]> (default ∅ (heap s !! arc)) in
    let changed := mark block offset (changed s) in
    Some (if shared retained block arc s
          then mkStorage (<[allocated s := bytes]> (heap s)) (allocated s + 1) (<[block := allocated s]> (blocks s)) changed
          else mkStorage (<[arc := bytes]> (heap s)) (allocated s) (blocks s) changed).

(** Slicing past the last block panics. *)
Definition storage_snapshot (bytes : Z) (s : Storage) : option MemorySnapshot :=
  let count := Z.to_nat ((bytes + 4 * BLOCK_BYTES - 1) / (4 * BLOCK_BYTES) * 4) in
  if (count <=? length (blocks s))%nat then Some (take count (blocks s)) else None.
Definition clear_changes (s : Storage) : Storage := mkStorage (heap s) (allocated s) (blocks s) no_pages.

Definition snapshot_read (h : gmap Arc Block) (address : Z) (m : MemorySnapshot) : option Z :=
  let '(block, offset) := location address in arc ← m !! block; Some (arc_byte h arc offset).
Definition same_blocks (a b : MemorySnapshot) : bool := bool_decide (a = b).

(** ** memory/access.rs *)

Inductive VramAccess : Type := AccessDisabled | AccessVga (registers : Registers) | AccessSvgaBank (vram_start : Z).
Definition vram_access (s : Setup) (r : Registers) (d : Dispi) : VramAccess :=
  if negb (setup_enabled s) || negb (video_memory_enabled r) then AccessDisabled
  else match bank_mapping d with Some mapping => AccessSvgaBank mapping | None => AccessVga r end.

(** ** memory.rs *)

Record VideoMemory := mkVideoMemory { storage : Storage; latches : list Z }.
Definition video_memory_default : VideoMemory := mkVideoMemory storage_default (zeros 4).
Definition restore_latches (l : list Z) (m : VideoMemory) : VideoMemory := mkVideoMemory (storage m) l.
Definition clear_vram (m : VideoMemory) : VideoMemory := mkVideoMemory (storage_clear (storage m)) (latches m).

Definition vga_index (offset : Z) (r : Registers) : Z :=
  let address_bits := if extended_memory (sequencer r) then 16 else 14 in
  let offset :=
    if chain_four (sequencer r) then Z.lor (Z.land offset (bnot 32 3)) (Z.land (Z.shiftr offset 14) 3)
    else if chain_odd_even (graphics r) then Z.lor (Z.land offset (bnot 32 1)) (Z.land (Z.shiftr offset 16) 1)
    else offset in
  Z.land offset (Z.shiftl 1 address_bits - 1).

Definition read_vga_byte (address : Z) (r : Registers) (m : VideoMemory) : option (Z * VideoMemory) :=
  let g := graphics r in
  match gfx_memory_offset address g with
  | None => Some (255, m)
  | Some offset =>
      let index := vga_index offset r in
      latches ← mapM (fun plane => storage_read (index * 4 + Z.of_nat plane) (storage m)) (seq 0 4);
      let m := mkVideoMemory (storage m) latches in
      if compare_reads g then Some (gfx_compare latches g, m)
      else
        let plane :=
          if chain_four (sequencer r) then Z.land offset 3
          else if odd_even_reads g then Z.lor (Z.land (read_plane g) 2) (Z.land offset 1)
          else read_plane g in
        value ← latches !! Z.to_nat plane; Some (value, m)
  end.

Fixpoint write_selected (retained : list MemorySnapshot) (index planes plane : Z) (values : list Z) (s : Storage) : option Storage :=
  match values with
  | [] => Some s
  | value :: values =>
      s ← (if has planes (Z.shiftl 1 plane) then storage_write retained (index * 4 + plane) value s else Some s);
      write_selected retained index planes (plane + 1) values s
  end.
Definition write_vga_byte (retained : list MemorySnapshot) (address value : Z) (r : Registers) (m : VideoMemory) : option VideoMemory :=
  match gfx_memory_offset address (graphics r) with
  | None => Some m
  | Some offset =>
      let index := vga_index offset r in
      let planes := write_planes offset (sequencer r) in
      s ← write_selected retained index planes 0 (write_data value (latches m) (graphics r)) (storage m);
      Some (mkVideoMemory s (latches m))
  end.

Definition vram_read_byte (address : Z) (access : VramAccess) (m : VideoMemory) : option (Z * VideoMemory) :=
  match access with
  | AccessDisabled => Some (255, m)
  | AccessVga r => read_vga_byte address r m
  | AccessSvgaBank start =>
      match bank_memory_offset start address with
      | None => Some (255, m)
      | Some offset => value ← storage_read offset (storage m); Some (value, m)
      end
  end.
Definition vram_write_byte (retained : list MemorySnapshot) (address value : Z) (access : VramAccess) (m : VideoMemory) : option VideoMemory :=
  match access with
  | AccessDisabled => Some m
  | AccessVga r => write_vga_byte retained address value r m
  | AccessSvgaBank start =>
      match bank_memory_offset start address with
      | None => Some m
      | Some offset => s ← storage_write retained offset value (storage m); Some (mkVideoMemory s (latches m))
      end
  end.

Fixpoint vram_read_bytes (n : nat) (address : Z) (access : VramAccess) (m : VideoMemory) : option (list Z * VideoMemory) :=
  match n with
  | O => Some ([], m)
  | S n =>
      guard (address < 2 ^ 32);;
      '(byte, m) ← vram_read_byte address access m;
      '(bytes, m) ← vram_read_bytes n (address + 1) access m; Some (byte :: bytes, m)
  end.
(** The bytes of the transfer are a slice of eight. *)
Definition vram_read (address bytes : Z) (access : VramAccess) (m : VideoMemory) : option (Z * VideoMemory) :=
  guard (bytes <= 8);;
  '(value, m) ← vram_read_bytes (Z.to_nat bytes) address access m; Some (from_le_bytes value, m).
Fixpoint vram_write_bytes (retained : list MemorySnapshot) (address : Z) (bytes : list Z) (access : VramAccess) (m : VideoMemory) : option VideoMemory :=
  match bytes with
  | [] => Some m
  | byte :: bytes =>
      guard (address < 2 ^ 32);;
      m ← vram_write_byte retained address byte access m; vram_write_bytes retained (address + 1) bytes access m
  end.
Definition vram_write (retained : list MemorySnapshot) (address bytes value : Z) (access : VramAccess) (m : VideoMemory) : option VideoMemory :=
  guard (bytes <= 8);; vram_write_bytes retained address (to_le_bytes (Z.to_nat bytes) value) access m.

(** ** scanout/vga.rs *)

Record VgaDisplayState := mkDisplayState {
  ds_sequencer : list Z; ds_crtc : list Z; ds_graphics : list Z; ds_attributes : list Z; ds_miscellaneous : Z;
  ds_display_enabled : bool; ds_display_start : Z; ds_cursor_blink_on : bool; ds_attribute_blink_on : bool }.
Definition display_state_capture (r : Registers) (retrace_count : Z) : VgaDisplayState :=
  mkDisplayState (seq_values (sequencer r)) (crtc_values (crtc r)) (gfx_values (graphics r)) (at_values (attribute r)) (miscellaneous r)
    (has (at_address (attribute r)) 0x20) (display_start (crtc r)) (retrace_count / 8 mod 2 =? 0) (retrace_count / 16 mod 2 =? 0).

(** ** scanout.rs *)

Inductive Scanout : Type := ScanoutVga (state : VgaDisplayState) | ScanoutSvga (layout : SvgaLayout).
Definition memory_bytes (s : Scanout) : Z := match s with ScanoutVga _ => VGA_MEMORY_BYTES | ScanoutSvga l => layout_memory_bytes l end.

#[export] Instance VgaDisplayState_eq_dec : EqDecision VgaDisplayState.
Proof. solve_decision. Defined.
#[export] Instance PixelFormat_eq_dec : EqDecision PixelFormat.
Proof. solve_decision. Defined.
#[export] Instance SvgaResolution_eq_dec : EqDecision SvgaResolution.
Proof. solve_decision. Defined.
#[export] Instance SvgaMode_eq_dec : EqDecision SvgaMode.
Proof. solve_decision. Defined.
#[export] Instance SvgaLayout_eq_dec : EqDecision SvgaLayout.
Proof. solve_decision. Defined.
#[export] Instance Scanout_eq_dec : EqDecision Scanout.
Proof. solve_decision. Defined.

(** ** snapshot.rs *)

Record MemoryChanges := mkChanges { baseline : MemorySnapshot; pages : DirtyPages }.
(** [DacSnapshot]: the colors and the mask. *)
Record DisplaySnapshot := mkSnapshot { sn_dac : list Z * Z; sn_scanout : Scanout; sn_memory : MemorySnapshot; sn_changes : option MemoryChanges }.
Definition same_inputs (a b : DisplaySnapshot) : bool :=
  bool_decide (sn_scanout a = sn_scanout b) && bool_decide (sn_dac a = sn_dac b) && same_blocks (sn_memory a) (sn_memory b).

(** ** renderer/memory.rs *)

(** The device buffer; a fresh one is zeroed. *)
Record GpuMemory := mkGpuMemory { buffer : Z -> Z; previous : option MemorySnapshot }.
Definition gpu_memory_new : GpuMemory := mkGpuMemory (fun _ => 0) None.

(** [queue.write_buffer] copies the bytes at an offset. *)
Definition write_byte (w : Z * list Z) (address : Z) : option Z :=
  if w.1 <=? address then w.2 !! Z.to_nat (address - w.1) else None.
Definition write_buffer (buffer : Z -> Z) (w : Z * list Z) (address : Z) : Z := default (buffer address) (write_byte w address).

Fixpoint bytes_from (h : gmap Arc Block) (arc : Arc) (n : nat) (offset : Z) : list Z :=
  match n with O => [] | S n => arc_byte h arc offset :: bytes_from h arc n (offset + 1) end.
Definition block_bytes (h : gmap Arc Block) (arc : Arc) (range : Z * Z) : list Z := bytes_from h arc (Z.to_nat (range.2 - range.1)) range.1.
Definition block_writes (h : gmap Arc Block) (prev : option MemorySnapshot) (s : DisplaySnapshot) (block : nat) (arc : Arc) : list (Z * list Z) :=
  let previous := prev ≫= (fun memory => memory !! block) in
  if bool_decide (previous = Some arc) then []
  else
    let changes := changes ← sn_changes s;
      guard (is_Some previous /\ previous = baseline changes !! block);; Some changes in
    let base := Z.of_nat block * BLOCK_BYTES in
    match changes with
    | Some changes => (fun range : Z * Z => (base + range.1, block_bytes h arc range)) <$> ranges block (pages changes)
    | None => [(base, block_bytes h arc (0, BLOCK_BYTES))]
    end.
Definition write_blocks (h : gmap Arc Block) (previous : option MemorySnapshot) (s : DisplaySnapshot) : list (Z * list Z) :=
  concat (imap (block_writes h previous s) (sn_memory s)).
Definition upload (h : gmap Arc Block) (s : DisplaySnapshot) (g : GpuMemory) : GpuMemory * bool :=
  let writes := write_blocks h (previous g) s in
  (mkGpuMemory (foldl write_buffer (buffer g) writes) (Some (sn_memory s)), negb (bool_decide (writes = []))).
