(* ===== verification/VgaDevice.v ===== *)
(** * The VGA device and its captures

    crates/vga/src: scanout/vga.rs (geometry), capture.rs, retrace.rs, state.rs and
    lib.rs: the frame source, the device's handlers, and the transitions a device,
    its readers and its renderers make together. The clock's reading is an
    argument, and so are the block lists that others retain. [ArcSwapOption] is an
    atomic cell, whose [rcu] returns the value it replaced; an [Event] is the number
    of its notifications. [None] is a panic. *)

From S2P Require Import Prelude Bytes Types Vga VgaRaster VgaMemory.
Local Open Scope Z_scope.

(** ** registers/crtc.rs, scanout/vga.rs: geometry *)

(** Blanked counts, each range with its end excluded. *)
Definition vertical_blanking (values : list Z) : list (Z * Z) :=
  let c := mkCrtc 0 values 0 in
  let start := Z.lor (Z.lor (reg values 0x15) (Z.shiftl (Z.land (reg values 7) 8) 5)) (Z.shiftl (Z.land (reg values 9) 0x20) 4) in
  let total := vertical_total c in
  if total <=? start then [(0, 0); (0, 0)]
  else
    let end_low := Z.land (reg values 0x16) 0x7f in
    let stop := start + (Z.land (wrap 32 (end_low - (start + 1))) 0x7f + 1) + 1 in
    let head_end := if total <? stop then Z.min (end_low + 1) total else 0 in
    if start <? head_end then [(0, total); (0, 0)] else [(start + 1, Z.min stop total); (0, head_end)].

Definition scanline_step (physical_height : Z) (graphics : bool) (s : VgaDisplayState) : Z :=
  let c := ds_crtc s in
  let maximum_scan_line := reg c 9 in
  let row_height := Z.land maximum_scan_line 31 + 1 in
  let repeat := Z.shiftl 1 (Z.shiftr maximum_scan_line 7) in
  let repeat :=
    if graphics && (Z.land (reg c 0x17) 3 =? 3) && (Z.land (reg c 8) 31 mod row_height =? 0) then repeat * row_height else repeat in
  let scanlines_per_count := scanlines_per_vertical_count (mkCrtc 0 c 0) in
  let line_compare := Z.lor (Z.lor (reg c 0x18) (Z.shiftl (Z.land (reg c 7) 0x10) 4)) (Z.shiftl (Z.land (reg c 9) 0x40) 3) in
  let split_line := (line_compare + 1) * scanlines_per_count in
  let blanking_edges :=
    (fun count => count * scanlines_per_count)
      <$> concat ((fun range : Z * Z => [range.1; range.2]) <$> filter (fun range : Z * Z => range.1 < range.2) (vertical_blanking c)) in
  if forallb (fun line => line mod repeat =? 0) (filter (fun line => line <= physical_height) ([physical_height; split_line] ++ blanking_edges))
  then repeat else 1.

(** Euclid's loop; the second number falls with every round. *)
Fixpoint gcd_loop (fuel : nat) (a b : Z) : Z :=
  match fuel with O => a | S fuel => if b =? 0 then a else gcd_loop fuel b (a mod b) end.
Definition nominal_aspect (size : Z * Z) : Z * Z :=
  let width := size.2 * 4 in let height := size.1 * 3 in
  let divisor := gcd_loop (Z.to_nat (height + 1)) width height in (width / divisor, height / divisor).

Record DisplayGeometry := mkGeometry { size : Z * Z; pixel_aspect_ratio : Z * Z }.
Definition vga_geometry (s : VgaDisplayState) : DisplayGeometry * Z :=
  let dots_per_character := if has (reg (ds_sequencer s) 1) 1 then 8 else 9 in
  let attribute_mode := Z.land (reg (ds_attributes s) 0x10) 0x41 in
  let shift256 := has (reg (ds_graphics s) 5) 0x40 in
  let indexed256 := (attribute_mode =? 0x41) && shift256 in
  let graphics16 := (attribute_mode =? 1) && negb shift256 in
  let dots_per_pixel := if indexed256 then 2 else 1 in
  let c := mkCrtc 0 (ds_crtc s) 0 in
  let physical_height := vertical_display c * scanlines_per_vertical_count c in
  let step := scanline_step physical_height (indexed256 || graphics16) s in
  let size := ((horizontal_display c * dots_per_character + dots_per_pixel - 1) / dots_per_pixel, physical_height / step) in
  (mkGeometry size (nominal_aspect size), step).
Definition scanout_geometry (s : Scanout) : DisplayGeometry :=
  match s with ScanoutVga s => (vga_geometry s).1 | ScanoutSvga l => mkGeometry (layout_size l) (1, 1) end.

(** ** capture.rs *)

Record CapturedFrame := mkFrame { display : DisplaySnapshot; time : Z; sequence : Z }.
Record FrameSource := mkFrameSource { frame : option CapturedFrame; notified : Z; closed : bool }.
Definition frame_source_new : FrameSource := mkFrameSource None 0 false.

Definition with_changes (changes : option MemoryChanges) (s : DisplaySnapshot) : DisplaySnapshot :=
  mkSnapshot (sn_dac s) (sn_scanout s) (sn_memory s) changes.
Definition frame_with_changes (changes : option MemoryChanges) (f : CapturedFrame) : CapturedFrame :=
  mkFrame (with_changes changes (display f)) (time f) (sequence f).

Definition take_capture (s : FrameSource) : option CapturedFrame * FrameSource :=
  (frame s,
   mkFrameSource ((fun f => frame_with_changes (Some (mkChanges (sn_memory (display f)) no_pages)) f) <$> frame s) (notified s) (closed s)).

Inductive Poll (A : Type) : Type := Ready (a : A) | Pending.
Arguments Ready {A} a.
Arguments Pending {A}.

(** One round of [next_capture]; it waits for a notification when it is pending. *)
Definition next_capture (after : option Z) (s : FrameSource) : Poll (option CapturedFrame) :=
  let newer := f ← frame s; if default true ((fun sequence' => sequence' <? sequence f) <$> after) then Some f else None in
  match newer with
  | Some f => Ready (Some f)
  | None => if closed s then Ready None else Pending
  end.

(** Later captures have a memory baseline. *)
Definition publish (f : CapturedFrame) (s : FrameSource) : option FrameSource :=
  f ← match previous ← frame s; sn_changes (display previous) with
      | None => Some f
      | Some pending =>
          changes ← sn_changes (display f);
          Some (frame_with_changes (Some (mkChanges (baseline pending) (merge (pages changes) (pages pending)))) f)
      end;
  Some (mkFrameSource (Some f) (notified s + 1) (closed s)).
Definition close (s : FrameSource) : FrameSource := mkFrameSource (frame s) (notified s + 1) true.

(** The block lists a snapshot or a source holds. *)
Definition snapshot_lists (s : DisplaySnapshot) : list MemorySnapshot :=
  sn_memory s :: match sn_changes s with Some changes => [baseline changes] | None => [] end.
Definition frame_lists (f : option CapturedFrame) : list MemorySnapshot :=
  match f with Some f => snapshot_lists (display f) | None => [] end.

(** ** lib.rs *)

Record Vga := mkVga {
  memory : VideoMemory; registers : Registers; setup : Setup; dispi : Dispi; raster : Raster; programming_changed : Z; frames : FrameSource }.
Definition with_clock (now : Z) : Vga :=
  mkVga video_memory_default registers_default setup_default dispi_default (raster_new now (timing_vga registers_default)) 0 frame_source_new.
Definition with_memory m (v : Vga) := mkVga m (registers v) (setup v) (dispi v) (raster v) (programming_changed v) (frames v).
Definition with_registers r (v : Vga) := mkVga (memory v) r (setup v) (dispi v) (raster v) (programming_changed v) (frames v).
Definition with_setup s (v : Vga) := mkVga (memory v) (registers v) s (dispi v) (raster v) (programming_changed v) (frames v).
Definition with_dispi d (v : Vga) := mkVga (memory v) (registers v) (setup v) d (raster v) (programming_changed v) (frames v).
Definition with_raster r (v : Vga) := mkVga (memory v) (registers v) (setup v) (dispi v) r (programming_changed v) (frames v).
Definition with_frames f (v : Vga) := mkVga (memory v) (registers v) (setup v) (dispi v) (raster v) (programming_changed v) f.

Definition snapshot (v : Vga) : option DisplaySnapshot :=
  let scanout :=
    match display_layout (dispi v) with
    | Some l => ScanoutSvga l
    | None => ScanoutVga (display_state_capture (registers v) (retrace_count (raster v)))
    end in
  memory' ← storage_snapshot (memory_bytes scanout) (storage (memory v));
  Some (mkSnapshot (dac_colors (dac (registers v)), dac_mask (dac (registers v))) scanout memory'
    ((fun previous => mkChanges (sn_memory (display previous)) (changed (storage (memory v)))) <$> frame (frames v))).

(** [sync_to_clock] up to the publication, with the frame it publishes. *)
Definition sync_capture (now : Z) (v : Vga) : option (Vga * option CapturedFrame) :=
  '(r, retrace) ← update_to now (raster v);
  let v := with_raster r v in
  match retrace with
  | None => Some (v, None)
  | Some time =>
      let v := if enabled (dispi v) then v else with_registers (with_crtc (latch_display_start (crtc (registers v))) (registers v)) v in
      display' ← snapshot v;
      if default false ((fun previous => same_inputs display' (display previous)) <$> frame (frames v)) then Some (v, None)
      else
        let v := with_memory (mkVideoMemory (clear_changes (storage (memory v))) (latches (memory v))) v in
        Some (v, Some (mkFrame display' time (retrace_count (raster v))))
  end.
Definition sync_publish (f : option CapturedFrame) (v : Vga) : option Vga :=
  match f with None => Some v | Some f => source ← publish f (frames v); Some (with_frames source v) end.
Definition sync_to_clock (now : Z) (v : Vga) : option Vga := '(v, f) ← sync_capture now v; sync_publish f v.

Definition reconfigure (previous_layout : option SvgaLayout) (previous_status_port : Z) (was_enabled : bool) (v : Vga) : Vga :=
  let layout := display_layout (dispi v) in
  let timing := match layout with Some l => timing_svga l | None => timing_vga (registers v) end in
  let '(r, timing_changed) :=
    if bool_decide ((resolution ∘ mode <$> layout) = (resolution ∘ mode <$> previous_layout)) then set_timing timing (raster v)
    else (restart timing (raster v), true) in
  let changed := timing_changed || negb (bool_decide (layout = previous_layout))
    || negb (status_port (registers v) =? previous_status_port) || negb (Bool.eqb (setup_enabled (setup v)) was_enabled) in
  mkVga (memory v) (registers v) (setup v) (dispi v) r (programming_changed v + Z.b2z changed) (frames v).

Definition access_of (v : Vga) : VramAccess := vram_access (setup v) (registers v) (dispi v).
Definition read_mmio (address bytes : Z) (v : Vga) : option (Z * Vga) :=
  '(value, m) ← vram_read address bytes (access_of v) (memory v); Some (value, with_memory m v).

(** The writes of a handler, after its [sync_to_clock]. *)
Definition mmio_effect (retained : list MemorySnapshot) (address bytes value : Z) (v : Vga) : option Vga :=
  m ← vram_write (frame_lists (frame (frames v)) ++ retained) address bytes value (access_of v) (memory v); Some (with_memory m v).
Definition write_mmio (retained : list MemorySnapshot) (now address bytes value : Z) (v : Vga) : option Vga :=
  v ← sync_to_clock now v; mmio_effect retained address bytes value v.

Definition dispi_port (port : Z) : bool := (0x1ce <=? port) && (port <=? 0x1cf).

Fixpoint read_port_bytes (n : nat) (port : Z) (v : Vga) : option (list Z * Vga) :=
  match n with
  | O => Some ([], v)
  | S n =>
      '(byte, v) ←
        (if port =? 0x102 then Some (read_option (setup v), v)
         else if setup_enabled (setup v) then
           '(byte, r) ← regs_read_port port (input_status_1 (raster v)) (registers v); Some (byte, with_registers r v)
         else Some (255, v));
      '(bytes, v) ← read_port_bytes n (wrap 16 (port + 1)) v; Some (byte :: bytes, v)
  end.
(** The bytes are a slice of four, and [4 - bytes] of an absent adapter's word is a
    subtraction and a shift by less than 32. *)
Definition port_read_effect (port bytes : Z) (v : Vga) : option (Z * Vga) :=
  if dispi_port port then
    if setup_enabled (setup v) then Some (dispi_read_port port bytes (dispi v), v)
    else guard (1 <= bytes <= 4);; Some (Z.shiftr (2 ^ 32 - 1) ((4 - bytes) * 8), v)
  else guard (bytes <= 4);; '(value, v) ← read_port_bytes (Z.to_nat bytes) port v; Some (from_le_bytes value, v).
Definition read_port (now port bytes : Z) (v : Vga) : option (Z * Vga) := v ← sync_to_clock now v; port_read_effect port bytes v.

Fixpoint write_port_bytes (port : Z) (bytes : list Z) (v : Vga) : option Vga :=
  match bytes with
  | [] => Some v
  | byte :: bytes =>
      v ← (if port =? 0x46e8 then Some (with_setup (write_control byte (setup v)) v)
           else if port =? 0x102 then Some (with_setup (write_option byte (setup v)) v)
           else if setup_enabled (setup v) then r ← regs_write_port port byte (registers v); Some (with_registers r v)
           else Some v);
      write_port_bytes (wrap 16 (port + 1)) bytes v
  end.
Definition port_write_effect (port bytes value : Z) (v : Vga) : option Vga :=
  v' ←
    (if dispi_port port then
       if setup_enabled (setup v) then
         '(d, clear) ← dispi_write_port port bytes value (dispi v);
         let v := with_dispi d v in Some (if clear : bool then with_memory (clear_vram (memory v)) v else v)
       else Some v
     else guard (bytes <= 4);; write_port_bytes port (to_le_bytes (Z.to_nat bytes) value) v);
  Some (reconfigure (display_layout (dispi v)) (status_port (registers v)) (setup_enabled (setup v)) v').
Definition write_port (now port bytes value : Z) (v : Vga) : option Vga := v ← sync_to_clock now v; port_write_effect port bytes value v.

(** ** state.rs *)

Definition core_state (v : Vga) : VgaCoreState := core_capture (registers v) (setup v) (latches (memory v)).
Definition dac_state_of (v : Vga) : DacState := mkDacState (dac (registers v)) (reg (at_values (attribute (registers v))) COLOR_SELECT).
Definition core_restore_state (c : VgaCoreState) (v : Vga) : Vga :=
  with_memory (restore_latches (core_latches c) (memory v)) (with_setup (core_setup c) (with_registers (core_restore c (registers v)) v)).
Definition restore_effect (core : option VgaCoreState) (d : option DacState) (di : option Dispi) (v : Vga) : Vga :=
  let v' := match core with Some c => core_restore_state c v | None => v end in
  let v' := match d with Some d => with_registers (dac_restore d (registers v')) v' | None => v' end in
  let v' := match di with Some di => with_dispi di v' | None => v' end in
  reconfigure (display_layout (dispi v)) (status_port (registers v)) (setup_enabled (setup v)) v'.
Definition restore_state (now : Z) (core : option VgaCoreState) (d : option DacState) (di : option Dispi) (v : Vga) : option Vga :=
  match core, d, di with
  | None, None, None => Some v
  | _, _, _ => v ← sync_to_clock now v; Some (restore_effect core d di v)
  end.

(** ** retrace.rs: the deadline of a wait *)

Definition wait_for_retrace (now : Z) (v : Vga) : option (option (option Z) * Vga) :=
  if negb (setup_enabled (setup v)) then Some (None, v)
  else
    v ← sync_to_clock now v;
    Some (Some (if in_retrace (raster v) then Some now else next_retrace_pulse_at (raster v)), v).

(** ** The transitions of a device, its readers and its renderers

    The execution owner captures ([Capture]), publishes ([Publish]) and then makes
    a handler's accesses; a handler is the three in a row, and other threads read
    and render in between. States to restore come as the bytes firmware saved. *)
Record World := mkWorld { vga : Vga; pending : option CapturedFrame; captures : list DisplaySnapshot; renderers : list GpuMemory }.
Definition world_new (now : Z) : World := mkWorld (with_clock now) None [] [].

Definition retained (w : World) : list MemorySnapshot :=
  frame_lists (pending w) ++ concat (snapshot_lists <$> captures w) ++ omap previous (renderers w).

Inductive Action : Type :=
  | Capture (now : Z) | Publish
  | MmioRead (address bytes : Z) | MmioWrite (address bytes value : Z) | PortRead (port bytes : Z) | PortWrite (port bytes value : Z)
  | RestoreState (core dac dispi : option (list Z))
  | SnapshotNow | CurrentCapture | TakeCapture | Discard (capture : nat)
  | AttachDevice | DeviceLost (renderer : nat) | Upload (renderer capture : nat).

Definition world_with (v : Vga) (w : World) : World := mkWorld v (pending w) (captures w) (renderers w).
Definition add_capture (s : option DisplaySnapshot) (w : World) : World :=
  mkWorld (vga w) (pending w) (option_list s ++ captures w) (renderers w).

(** A class of state that is given and does not decode stops the restore. *)
Definition decode_class {A} (decode : list Z -> option (option A)) (bytes : option (list Z)) : option (option (option A)) :=
  match bytes with None => Some (Some None) | Some bytes => d ← decode bytes; Some (Some <$> (d : option A)) end.
Definition restore_action (core d di : option (list Z)) (v : Vga) : option Vga :=
  core ← decode_class core_from_bytes core;
  d ← decode_class (fun bytes => Some (dac_state_from_bytes bytes)) d;
  di ← decode_class dispi_from_state_bytes di;
  Some match core, d, di with Some core, Some d, Some di => restore_effect core d di v | _, _, _ => v end.

(** The execution owner makes no access of its own between a capture and its publication. *)
Definition exec (a : Action) (w : World) : option World :=
  let v := vga w in
  let owner (f : Vga -> option World) := if decide (is_Some (pending w)) then Some w else f v in
  match a with
  | Capture now => owner (fun v => '(v, f) ← sync_capture now v; Some (mkWorld v f (captures w) (renderers w)))
  | Publish => v ← sync_publish (pending w) v; Some (mkWorld v None (captures w) (renderers w))
  | MmioRead address bytes => owner (fun v => '(_, v) ← read_mmio address bytes v; Some (world_with v w))
  | MmioWrite address bytes value => owner (fun v => v ← mmio_effect (retained w) address bytes value v; Some (world_with v w))
  | PortRead port bytes => owner (fun v => '(_, v) ← port_read_effect port bytes v; Some (world_with v w))
  | PortWrite port bytes value => owner (fun v => v ← port_write_effect port bytes value v; Some (world_with v w))
  | RestoreState core d di => owner (fun v => v ← restore_action core d di v; Some (world_with v w))
  | SnapshotNow => owner (fun v => s ← snapshot v; Some (add_capture (Some s) w))
  | CurrentCapture => Some (add_capture (display <$> frame (frames v)) w)
  | TakeCapture =>
      let '(taken, source) := take_capture (frames v) in Some (add_capture (display <$> taken) (world_with (with_frames source v) w))
  | Discard capture => Some (mkWorld v (pending w) (delete capture (captures w)) (renderers w))
  | AttachDevice => Some (mkWorld v (pending w) (captures w) (gpu_memory_new :: renderers w))
  | DeviceLost renderer => Some (mkWorld v (pending w) (captures w) (delete renderer (renderers w)))
  | Upload renderer capture =>
      match captures w !! capture with
      | None => Some w
      | Some s =>
          let h := heap (storage (memory v)) in
          Some (mkWorld v (pending w) (captures w) (alter (fun g => (upload h s g).1) renderer (renderers w)))
      end
  end.
Fixpoint run (actions : list Action) (w : World) : option World :=
  match actions with [] => Some w | a :: actions => w ← exec a w; run actions w end.
