(* ===== verification/VgaState.v ===== *)
(** * The programming state of the VGA device

    The values a register bank, the DAC and DISPI can hold, that every access keeps
    them so, and that the saved encodings of such states decode to them. *)

From S2P Require Import Prelude Bytes Types Vga VgaRaster VgaMemory VgaDevice.
Local Open Scope Z_scope.

(** ** Masked registers *)

Definition masked (value mask : Z) : Prop := Z.land value mask = value.
Definition bank_ok (masks values : list Z) : Prop := Forall2 masked values masks.

Lemma land_masked v m : masked (Z.land v m) m.
Proof. unfold masked. by rewrite <- Z.land_assoc, Z.land_diag. Qed.
#[export] Hint Resolve land_masked : core.

Lemma masked_byte v : fits 8 v -> masked v 255.
Proof. intros. unfold masked. change 255 with (Z.ones 8). rewrite <- wrap_land by lia. by apply wrap_small. Qed.
Lemma masked_fits w v : 0 <= w -> masked v (Z.ones w) -> fits w v.
Proof. intros Hw H. rewrite <- H, <- wrap_land by done. by apply wrap_fits. Qed.

Lemma bank_set masks values i v : bank_ok masks values -> (forall m, masks !! i = Some m -> masked v m) ->
  bank_ok masks (<[i := v]> values).
Proof.
  intros H Hv. destruct (masks !! i) as [m|] eqn:Em.
  - rewrite <- (list_insert_id masks i m Em). apply Forall2_insert; [done|]. by apply Hv.
  - rewrite list_insert_ge; [done|]. rewrite (Forall2_length _ _ _ H). by apply lookup_ge_None.
Qed.
Lemma bank_length masks values : bank_ok masks values -> length values = length masks.
Proof. apply Forall2_length. Qed.
Lemma bank_reg masks values i m : bank_ok masks values -> masks !! Z.to_nat i = Some m -> masked (reg values i) m.
Proof.
  intros H Hm. destruct (Forall2_lookup_r _ _ _ _ _ H Hm) as (v & Hv & Hvm). unfold reg.
  by rewrite (nth_lookup_Some _ _ _ _ Hv).
Qed.

(** A write to a register of a bank has a place and keeps the masks. *)
Lemma bank_update masks values i m v : bank_ok masks values -> masks !! Z.to_nat i = Some m -> masked v m ->
  panics_only False (bank_ok masks) (update_reg values i v).
Proof.
  intros H Hm Hv. unfold update_reg. rewrite (Forall2_length _ _ _ H : length values = length masks).
  rewrite (proj2 (Nat.ltb_lt _ _) (lookup_lt_Some _ _ _ Hm)). cbn. unfold set_reg. apply bank_set; [done|]. intros m' Hm'. by simplify_eq.
Qed.
Lemma bank_index masks values i : bank_ok masks values -> (Z.to_nat i < length masks)%nat -> panics_only False (fun _ => True) (index_reg values i).
Proof.
  intros H Hi. unfold index_reg. rewrite <- (Forall2_length _ _ _ H) in Hi. by destruct (lookup_lt_is_Some_2 _ _ Hi) as [v ->].
Qed.

Definition CRTC_MASKS : list Z :=
  [255; 255; 255; 255; 255; 255; 255; 255; 0x7f; 255; 0x3f; 0x7f; 255; 255; 255; 255; 255; 255; 255; 255; 0x7f; 255; 255; 255; 255].
Definition SEQUENCER_MASKS : list Z := [3; 0x3d; 15; 0x3f; 14].
Definition GRAPHICS_MASKS : list Z := [15; 15; 15; 0x1f; 3; 0x7b; 15; 15; 255].
Definition ATTRIBUTE_MASKS : list Z := replicate 16 0x3f ++ [0xef; 255; 15; 15; 15].

Definition crtc_ok (c : Crtc) : Prop := masked (crtc_index c) 0x1f /\ bank_ok CRTC_MASKS (crtc_values c) /\ fits 16 (display_start c).
Definition sequencer_ok (s : Sequencer) : Prop := masked (seq_index s) 7 /\ bank_ok SEQUENCER_MASKS (seq_values s).
Definition graphics_ok (g : Graphics) : Prop := masked (gfx_index g) 15 /\ bank_ok GRAPHICS_MASKS (gfx_values g).
Definition attribute_ok (a : Attribute) : Prop := masked (at_address a) 0x3f /\ bank_ok ATTRIBUTE_MASKS (at_values a).
Definition dac_ok (d : Dac) : Prop :=
  fits 8 (dac_mask d) /\ fits 8 (dac_address d) /\ 0 <= dac_component d < 3 /\ length (dac_colors d) = 768%nat
  /\ Forall (fun value => 0 <= value < 64) (dac_colors d).
Definition registers_ok (r : Registers) : Prop :=
  crtc_ok (crtc r) /\ sequencer_ok (sequencer r) /\ graphics_ok (graphics r) /\ attribute_ok (attribute r) /\ dac_ok (dac r)
  /\ fits 8 (miscellaneous r) /\ fits 8 (feature_control r).
Definition setup_ok (s : Setup) : Prop := masked (control s) 0x18 /\ 0 <= option_select s <= 1.

#[export] Instance masked_dec v m : Decision (masked v m).
Proof. unfold masked. apply _. Defined.
#[export] Instance registers_ok_dec r : Decision (registers_ok r).
Proof. unfold registers_ok, crtc_ok, sequencer_ok, graphics_ok, attribute_ok, dac_ok, bank_ok, fits. apply _. Defined.
Lemma registers_default_ok : registers_ok registers_default.
Proof. apply (bool_decide_unpack _). by vm_compute. Qed.

(** ** The banks keep their masks *)

Lemma seq_select_ok i s : sequencer_ok s -> sequencer_ok (seq_select i s).
Proof. intros [_ H]. split; [apply land_masked|done]. Qed.
(** The mask that a write selects is the one of the register it selects. *)
Ltac mask_cases :=
  intros H; cases; simplify_eq;
  repeat match goal with H : _ || _ = true |- _ => apply orb_true_iff in H as [H|H] end;
  breflect; subst; reflexivity.
Lemma seq_mask_masks i m : seq_mask i = Some m -> SEQUENCER_MASKS !! Z.to_nat i = Some m.
Proof. unfold seq_mask. mask_cases. Qed.
Lemma gfx_mask_masks i m : gfx_mask i = Some m -> GRAPHICS_MASKS !! Z.to_nat i = Some m.
Proof. unfold gfx_mask. mask_cases. Qed.

(** A selected register is written within its bank. *)
Lemma update_bank {A} (ok : A -> Prop) (make : list Z -> A) masks values i m v : bank_ok masks values -> masks !! Z.to_nat i = Some m ->
  (forall values', bank_ok masks values' -> ok (make values')) ->
  panics_only False ok (make <$> update_reg values i (Z.land v m)).
Proof.
  intros H Hm Hok. destruct (never_panics_some _ _ (bank_update _ _ _ _ (Z.land v m) H Hm (land_masked v m))) as (values' & -> & Hv). by apply Hok.
Qed.
Lemma seq_write_ok v s : sequencer_ok s -> panics_only False sequencer_ok (seq_write v s).
Proof.
  intros [Hi H]. unfold seq_write. destruct (seq_mask (seq_index s)) as [m|] eqn:Em; [|by split].
  apply (update_bank _ _ SEQUENCER_MASKS); [done|by apply seq_mask_masks|by split].
Qed.

Lemma gfx_select_ok i g : graphics_ok g -> graphics_ok (gfx_select i g).
Proof. intros [_ H]. split; [apply land_masked|done]. Qed.
Lemma gfx_write_ok v g : graphics_ok g -> panics_only False graphics_ok (gfx_write v g).
Proof.
  intros [Hi H]. unfold gfx_write. destruct (gfx_mask (gfx_index g)) as [m|] eqn:Em; [|by split].
  apply (update_bank _ _ GRAPHICS_MASKS); [done|by apply gfx_mask_masks|by split].
Qed.
Lemma gfx_read_ok g : graphics_ok g -> panics_only False (fun _ => True) (gfx_read g).
Proof.
  intros [_ H]. unfold gfx_read. destruct (Z.leb_spec (gfx_index g) 8); [|done]. apply (bank_index GRAPHICS_MASKS); [done|]. cbn. lia.
Qed.

(** Small registers have few values. *)
Lemma masked_bounds v m : masked v m -> 0 <= m -> 0 <= v <= m.
Proof.
  unfold masked. intros <- Hm. split; [apply Z.land_nonneg; by right|].
  assert (Z.land (Z.land v m) (Z.ldiff m v) = 0) as Hz.
  { apply Z.bits_inj'. intros i Hi. rewrite !Z.land_spec, Z.ldiff_spec, Z.testbit_0_l. btauto. }
  assert (Z.land v m + Z.ldiff m v = m) as Hs.
  { rewrite <- lor_add by done. apply Z.bits_inj'. intros i Hi. rewrite Z.lor_spec, Z.land_spec, Z.ldiff_spec. btauto. }
  pose proof (proj2 (Z.ldiff_nonneg m v) (or_introl Hm)). lia.
Qed.

Definition crtc_mask (i : Z) : Z := if i =? 10 then 0x3f else if (i =? 11) || (i =? 8) || (i =? 0x14) then 0x7f else 255.

Lemma crtc_masks_lookup i : 0 <= i <= 24 -> CRTC_MASKS !! Z.to_nat i = Some (crtc_mask i).
Proof.
  intros Hi. unfold crtc_mask. assert (exists n, i = Z.of_nat n /\ (n < 25)%nat) as (n & -> & Hn) by (exists (Z.to_nat i); lia).
  rewrite Nat2Z.id. do 25 (destruct n as [|n]; [done|]). lia.
Qed.
Lemma set_crtc_ok i v c : crtc_ok c -> 0 <= i <= 24 -> masked v (crtc_mask i) -> panics_only False crtc_ok (set_crtc i v c).
Proof.
  intros (Hi & H & Hd) Hle Hv. unfold set_crtc.
  destruct (never_panics_some _ _ (bank_update _ _ _ _ v H (crtc_masks_lookup i Hle) Hv)) as (values' & -> & Hv'). by split.
Qed.

Lemma crtc_write_ok v c : fits 8 v -> crtc_ok c -> panics_only False crtc_ok (crtc_write v c).
Proof.
  intros Hv Hok. pose proof Hok as (Hi & H & Hd). pose proof (masked_bounds _ _ Hi ltac:(lia)) as Hb.
  pose proof (fun w i => set_crtc_ok i w c Hok) as Hset.
  assert (masked v 255) by (by apply masked_byte). unfold crtc_write, crtc_mask in *.
  destruct ((crtc_index c <=? 7) && has (crtc_reg 17 c) 128) eqn:?.
  - destruct (Z.eqb_spec (crtc_index c) 7) as [E|]; [|exact Hok]. apply Hset; [lia|]. cbn.
    assert (masked (crtc_reg 7 c) 255) as H7 by (by eapply (bank_reg CRTC_MASKS)).
    unfold masked in *. rewrite Z.land_lor_distr_l, <- !Z.land_assoc.
    rewrite (Z.land_comm _ 255), (Z.land_assoc _ 255), H7. done.
  - destruct (Z.eqb_spec (crtc_index c) 10) as [->|]; [apply Hset; [lia|apply land_masked]|].
    destruct (Z.eqb_spec (crtc_index c) 11) as [->|]; [apply Hset; [lia|apply land_masked]|].
    destruct ((crtc_index c =? 8) || (crtc_index c =? 20)) eqn:E; [apply orb_true_iff in E as [E|E]; breflect; rewrite E; (apply Hset; [lia|apply land_masked])|].
    destruct (Z.leb_spec (crtc_index c) 24); [|exact Hok]. apply Hset; [lia|].
    apply orb_false_iff in E as [? ?]. breflect. repeat (rewrite (proj2 (Z.eqb_neq _ _)) by done). done.
Qed.
Lemma crtc_read_ok c : crtc_ok c -> panics_only False (fun _ => True) (crtc_read c).
Proof.
  intros (_ & H & _). unfold crtc_read. destruct (Z.leb_spec (crtc_index c) 24); [|done]. apply (bank_index CRTC_MASKS); [done|]. cbn. lia.
Qed.
Lemma crtc_select_ok i c : crtc_ok c -> crtc_ok (crtc_select i c).
Proof. intros (_ & H & Hd). split; [apply land_masked|done]. Qed.
Lemma latch_ok c : crtc_ok c -> crtc_ok (latch_display_start c).
Proof.
  intros (Hi & H & _). split; [done|]. split; [done|]. cbn [display_start latch_display_start].
  assert (forall i, (i < 25)%nat -> fits 8 (crtc_reg (Z.of_nat i) c)) as Hr.
  { intros i Hlt. destruct (lookup_lt_is_Some_2 CRTC_MASKS i Hlt) as [m Hm].
    assert (masked (crtc_reg (Z.of_nat i) c) m) as Hmask by (eapply bank_reg; [done|by rewrite Nat2Z.id]).
    assert (m <= 255 /\ 0 <= m) as [? ?].
    { assert (Forall (fun m => m <= 255 /\ 0 <= m) CRTC_MASKS) as HF by (apply (bool_decide_unpack _); by vm_compute).
      eapply (Forall_lookup_1 _ _ _ _ HF Hm). }
    pose proof (masked_bounds _ _ Hmask ltac:(lia)). unfold fits. lia. }
  apply fits_lor; [lia| |].
  - pose proof (Hr 12%nat ltac:(lia)) as H12. change (Z.of_nat 12) with 12 in H12. unfold fits in *. rewrite Z.shiftl_mul_pow2 by lia. lia.
  - apply (fits_mono 8); [lia|]. apply (Hr 13%nat). lia.
Qed.

Lemma attr_mask_masks a m : attr_mask a = Some m -> ATTRIBUTE_MASKS !! Z.to_nat (Z.land a 0x1f) = Some m.
Proof.
  unfold attr_mask. intros H. pose proof (masked_bounds _ _ (land_masked a 0x1f) ltac:(lia)) as Hb.
  destruct ((Z.land a 31 <=? 15) && negb (has a 32)) eqn:E.
  - breflect. unfold ATTRIBUTE_MASKS. rewrite lookup_app_l by (cbn; lia). injection H as <-. apply lookup_replicate. split; [done|lia].
  - clear E Hb. revert H. generalize (Z.land a 31). intros i. mask_cases.
Qed.
Lemma attr_write_ok v a : attribute_ok a -> panics_only False attribute_ok (attr_write v a).
Proof.
  intros [Hi H]. unfold attr_write. destruct (at_data_next a); cbn [negb]; [|split; [apply land_masked|done]].
  destruct (attr_mask (at_address a)) as [m|] eqn:Em; [|by split].
  apply (update_bank _ _ ATTRIBUTE_MASKS); [done|by apply attr_mask_masks|by split].
Qed.
Lemma attr_read_ok a : attribute_ok a -> panics_only False (fun _ => True) (attr_read a).
Proof.
  intros [_ H]. unfold attr_read. destruct (Z.leb_spec (Z.land (at_address a) 31) 20); [|done].
  apply (bank_index ATTRIBUTE_MASKS); [done|]. change (length ATTRIBUTE_MASKS) with 21%nat. lia.
Qed.
Lemma reset_address_ok a : attribute_ok a -> attribute_ok (reset_address a).
Proof. done. Qed.
Lemma color_select_ok v a : masked v 15 -> attribute_ok a -> attribute_ok (set_color_select v a).
Proof. intros Hv [Hi H]. split; [done|]. apply bank_set; [done|]. intros m Hm. vm_compute in Hm. by simplify_eq. Qed.

(** ** The DAC *)

Lemma dac_step_ok d : dac_ok d -> dac_ok (dac_step d).
Proof.
  intros (Hm & Ha & Hc & Hl & Hv). unfold dac_step. destruct (Z.eqb_spec (dac_component d + 1) 3);
    repeat split; cbn [dac_mask dac_address dac_component dac_colors]; try done; try lia; try apply Hm; try apply Ha;
    by apply wrap_fits.
Qed.
Lemma dac_place_ok d : dac_ok d -> panics_only False (fun place => 0 <= place < 768) (dac_place d).
Proof.
  intros (_ & Ha & Hc & _). unfold dac_place. destruct (Z.ltb_spec (dac_component d) 3); cbn; unfold fits in *; lia.
Qed.
Lemma dac_read_ok d : dac_ok d -> panics_only False (fun p => dac_ok p.2) (dac_read d).
Proof.
  intros Hd. unfold dac_read. eapply panics_only_bind; [by apply dac_place_ok|]. intros place Hp. cbn beta in Hp. unfold index_reg.
  pose proof Hd as (_ & _ & _ & Hl & _). destruct (lookup_lt_is_Some_2 (dac_colors d) (Z.to_nat place)) as [v ->]; [lia|]. by apply dac_step_ok.
Qed.
Lemma dac_write_ok v d : dac_ok d -> panics_only False dac_ok (dac_write v d).
Proof.
  intros Hd. unfold dac_write. eapply panics_only_bind; [by apply dac_place_ok|]. intros place Hp. cbn beta in Hp. unfold update_reg.
  destruct Hd as (Hm & Ha & Hc & Hl & Hv). rewrite (proj2 (Nat.ltb_lt _ _)) by lia.
  apply dac_step_ok. repeat split; cbn; try done; try lia; try apply Hm; try apply Ha.
  - unfold set_reg. by rewrite length_insert.
  - apply Forall_insert; [done|]. pose proof (masked_bounds _ _ (land_masked v 63) ltac:(lia)). lia.
Qed.
Lemma dac_select_ok a reading d : fits 8 a -> dac_ok d -> dac_ok (dac_select a reading d).
Proof. intros Ha' (Hm & Ha & Hc & Hl & Hv). repeat split; cbn; try done; try lia; try apply Hm; apply Ha'. Qed.

(** ** Ports *)

(** A part of the registers that is updated, or only read. *)
Lemma update_part {A} (ok : A -> Prop) (x : option A) (f : A -> Registers) : panics_only False ok x -> (forall a, ok a -> registers_ok (f a)) ->
  panics_only False registers_ok (a ← x; Some (f a)).
Proof. intros Hx Hf. by eapply panics_only_bind. Qed.
Lemma read_part {A} (x : option A) r : panics_only False (fun _ => True) x -> registers_ok r ->
  panics_only False (fun p : A * Registers => registers_ok p.2) (a ← x; Some (a, r)).
Proof. intros Hx Hr. by eapply panics_only_bind. Qed.
Lemma with_dac_ok d r : registers_ok r -> dac_ok d -> registers_ok (with_dac d r).
Proof. by intros (? & ? & ? & ? & ? & ?). Qed.
Lemma regs_read_port_ok port status r : registers_ok r -> panics_only False (fun p => registers_ok p.2) (regs_read_port port status r).
Proof.
  intros Hok. pose proof Hok as (Hc & Hs & Hg & Ha & Hd & Hm & Hf). unfold regs_read_port. destruct (crtc_ports r) as [index data]. cbn zeta.
  repeat case_match; try exact Hok; try (by apply read_part; [eauto using attr_read_ok, gfx_read_ok, crtc_read_ok|]).
  eapply panics_only_bind; [by apply dac_read_ok|]. intros [value d] Hd'. by apply with_dac_ok.
Qed.

Lemma regs_write_port_ok port value r : fits 8 value -> registers_ok r -> panics_only False registers_ok (regs_write_port port value r).
Proof.
  intros Hv Hok. pose proof Hok as (Hc & Hs & Hg & Ha & Hd & Hm & Hf). unfold regs_write_port. destruct (crtc_ports r) as [index data].
  repeat case_match; try exact Hok;
    first [ eapply update_part; [eauto using attr_write_ok, seq_write_ok, gfx_write_ok, crtc_write_ok, dac_write_ok|]; intros a' Ha' | cbn -[registers_ok]];
    try (apply with_dac_ok; [done|]; first [done|by apply dac_select_ok|split; [done|apply Hd]]);
    unfold registers_ok; cbn; repeat match goal with |- _ /\ _ => split end; try done;
    try apply Hc; try apply Hs; try apply Hg; try apply Ha; try apply Hd; try apply Ha';
    eauto using seq_select_ok, gfx_select_ok, crtc_select_ok.
Qed.

(** ** DISPI *)

Definition layout_ok (l : SvgaLayout) : Prop :=
  pitch l mod bytes_per_pixel (layout_format l) = 0
  /\ (layout_size l).1 * bytes_per_pixel (layout_format l) <= pitch l <= max_pitch (mode l)
  /\ 0 <= origin_x l <= virtual_width l - (layout_size l).1 /\ 0 <= origin_y l <= virtual_height l - (layout_size l).2.
Definition dispi_ok (d : Dispi) : Prop :=
  fits 16 (dispi_index d) /\ fits 16 (dispi_width d) /\ fits 16 (dispi_height d) /\ fits 16 (dispi_bits d) /\ 0 <= bank d < 64
  /\ match active d with
     | None => True
     | Some a =>
         fits 16 (flags a) /\ Z.land (flags a) (bnot 16 NO_CLEAR_MEMORY) = 1
         /\ mode_from_registers (dispi_width d) (dispi_height d) (dispi_bits d) = Some (mode (layout a)) /\ layout_ok (layout a)
     end.

(** The modes have few sizes. *)
Ltac mode_cases m := destruct m as [[] []]; cbn.

Lemma pixel_bytes_pos f : 0 < bytes_per_pixel f.
Proof. by destruct f. Qed.

(** A pitch a mode accepts leaves room for its width and height. *)
Definition pitch_ok (m : SvgaMode) (p : Z) : Prop :=
  p mod bytes_per_pixel (format m) = 0 /\ (mode_size m).1 * bytes_per_pixel (format m) <= p <= max_pitch m.
Lemma pitch_ok_bounds m p : pitch_ok m p -> 640 <= p < 2 ^ 14.
Proof.
  intros [_ Hp]. assert (640 <= (mode_size m).1 * bytes_per_pixel (format m) /\ max_pitch m < 2 ^ 14); [|lia].
  destruct m as [[] []]; vm_compute; split; congruence.
Qed.
Lemma pitch_ok_width m p : pitch_ok m p -> (mode_size m).1 <= p / bytes_per_pixel (format m) < 2 ^ 14.
Proof.
  intros H. pose proof (pitch_ok_bounds _ _ H). destruct H as [_ [Hp _]]. pose proof (pixel_bytes_pos (format m)).
  split; [apply Z.div_le_lower_bound; lia|]. apply Z.div_lt_upper_bound; nia.
Qed.
Lemma pitch_ok_height m p : pitch_ok m p -> (mode_size m).2 <= VIDEO_MEMORY_BYTES / p < 2 ^ 14.
Proof.
  intros H. pose proof (pitch_ok_bounds _ _ H) as Hb. destruct H as [_ [_ Hp]].
  split; [|apply Z.div_lt_upper_bound; unfold VIDEO_MEMORY_BYTES; lia].
  apply Z.div_le_lower_bound; [lia|]. assert (max_pitch m * (mode_size m).2 <= VIDEO_MEMORY_BYTES /\ 0 <= (mode_size m).2); [|nia].
  destruct m as [[] []]; vm_compute; split; congruence.
Qed.
Lemma layout_pitch_ok l : layout_ok l -> pitch_ok (mode l) (pitch l).
Proof. intros (? & ? & ? & ?). by split. Qed.

Lemma layout_of_ok m : layout_ok (layout_of m).
Proof. destruct m as [[] []]; vm_compute; repeat split; congruence. Qed.

Lemma with_origin_spec x y l : pitch_ok (mode l) (pitch l) ->
  with_origin x y l =
    Some (if bool_decide (x <= virtual_width l - (layout_size l).1 /\ y <= virtual_height l - (layout_size l).2)
          then Some (mkLayout (mode l) (pitch l) x y) else None).
Proof.
  intros Hp. pose proof (pitch_ok_width _ _ Hp) as Hw. pose proof (pitch_ok_height _ _ Hp) as Hh.
  unfold with_origin, checked_sub, virtual_width, virtual_height, layout_size, layout_format in *.
  rewrite !(proj2 (Z.leb_le _ _)) by lia. cbn [mbind option_bind].
  destruct (Z.leb_spec x (pitch l / bytes_per_pixel (format (mode l)) - (mode_size (mode l)).1)); [|by rewrite bool_decide_false by lia].
  destruct (Z.leb_spec y (VIDEO_MEMORY_BYTES / pitch l - (mode_size (mode l)).2)); case_bool_decide; done || lia.
Qed.
(** A change of the layout returns, and what it accepts is a layout of the mode. *)
Definition accepts (m : SvgaMode) (next : option SvgaLayout) : Prop := forall l, next = Some l -> layout_ok l /\ mode l = m.
Lemma with_origin_ok x y l : pitch_ok (mode l) (pitch l) -> 0 <= x -> 0 <= y -> panics_only False (accepts (mode l)) (with_origin x y l).
Proof.
  intros Hp Hx Hy. rewrite with_origin_spec by done. case_bool_decide as Hb; [|done]. intros l' [= <-].
  destruct Hp. split; [|done]. unfold layout_ok, virtual_width, virtual_height, layout_size, layout_format in *. cbn in *. repeat split; try lia; done.
Qed.
Lemma with_pitch_ok p l : layout_ok l -> panics_only False (accepts (mode l)) (with_pitch p l).
Proof.
  intros Hl. unfold with_pitch. destruct (negb _ || negb _) eqn:E; [done|].
  breflect. unfold layout_ok in Hl. apply (with_origin_ok _ _ (mkLayout (mode l) p (origin_x l) (origin_y l))); cbn; try lia.
  split; unfold layout_format, layout_size in *; [by breflect|]. breflect. lia.
Qed.
Lemma with_virtual_width_ok n l : layout_ok l -> panics_only False (accepts (mode l)) (with_virtual_width n l).
Proof. intros Hl. unfold with_virtual_width. case_match; [|done]. by apply with_pitch_ok. Qed.

(** The display, and every byte the bank window reaches, lies in video memory. *)
Lemma layout_memory_fits l : layout_ok l -> 0 < layout_memory_bytes l <= VIDEO_MEMORY_BYTES.
Proof.
  intros Hl. pose proof (layout_pitch_ok _ Hl) as Hp. pose proof (pitch_ok_bounds _ _ Hp) as Hb.
  destruct Hl as (_ & _ & Hx & Hy). unfold layout_memory_bytes, layout_display_start, virtual_width, virtual_height in *.
  set (pb := bytes_per_pixel (layout_format l)) in *. assert (0 < pb) by apply pixel_bytes_pos.
  assert (0 < (layout_size l).1 /\ 0 < (layout_size l).2) as [Hw Hh] by (unfold layout_size; destruct (mode l) as [[] []]; by cbn).
  pose proof (Z.mul_div_le (pitch l) pb ltac:(lia)). pose proof (Z.mul_div_le VIDEO_MEMORY_BYTES (pitch l) ltac:(lia)).
  assert ((origin_x l + (layout_size l).1) * pb <= pitch l) by nia.
  assert ((origin_y l + (layout_size l).2) * pitch l <= VIDEO_MEMORY_BYTES) by nia.
  split; nia.
Qed.
Lemma bank_window_fits d start address offset : dispi_ok d -> bank_mapping d = Some start ->
  bank_memory_offset start address = Some offset -> 0 <= offset < VIDEO_MEMORY_BYTES.
Proof.
  intros (_ & _ & _ & _ & Hb & _). unfold bank_mapping, bank_memory_offset. destruct (enabled d); [|done]. intros [= <-].
  destruct (_ && _) eqn:E; [|done]. intros [= <-]. apply andb_true_iff in E as [? ?]. breflect.
  unfold BANK_BYTES, BANK_START, VIDEO_MEMORY_BYTES in *. lia.
Qed.

Lemma set_layout_ok next a d : dispi_ok d -> active d = Some a -> accepts (mode (layout a)) next -> dispi_ok (set_layout next a d).
Proof.
  intros Hok Ha Hn. unfold set_layout. destruct next as [l|]; [|done]. destruct (Hn l eq_refl) as [Hl Hm].
  destruct Hok as (? & ? & ? & ? & ? & Hact). rewrite Ha in Hact. destruct Hact as (? & ? & ? & ?).
  unfold dispi_ok, set_active. cbn. rewrite Hm. repeat (split; [done|]). done.
Qed.
Lemma change_layout_ok next a d : dispi_ok d -> active d = Some a -> panics_only False (accepts (mode (layout a))) next ->
  panics_only False (fun p : Dispi * bool => dispi_ok p.1) (next ← next; Some (set_layout next a d, false)).
Proof. intros Hok Ha Hn. eapply panics_only_bind; [exact Hn|]. intros l Hl. by apply set_layout_ok. Qed.

Lemma dispi_write_register_ok v d : fits 16 v -> dispi_ok d -> panics_only False (fun p => dispi_ok p.1) (dispi_write_register v d).
Proof.
  intros Hv Hok. pose proof Hok as (Hi & Hw & Hh & Hbits & Hb & Hact). unfold dispi_write_register, enabled.
  destruct (active d) as [a|] eqn:Ea; cbn [negb andb]; rewrite ?andb_false_r, ?andb_true_r.
  - destruct Hact as (? & ? & ? & Hl). destruct ((dispi_index d =? 4) && (v =? 0)); [unfold dispi_ok; cbn; by repeat (split; [done|])|].
    destruct ((dispi_index d =? 5) && (v <? VIDEO_MEMORY_BYTES / BANK_BYTES)) eqn:E5.
    { breflect. change (VIDEO_MEMORY_BYTES / BANK_BYTES) with 64 in *. unfold dispi_ok. cbn. rewrite ?Ea. unfold fits in *. repeat (split; [done || lia|]). done. }
    pose proof (layout_pitch_ok _ Hl) as Hp. pose proof Hl as (_ & _ & Hx & Hy). unfold fits in Hv.
    destruct (dispi_index d =? 6); [apply change_layout_ok; [done..|]; by apply with_virtual_width_ok|].
    destruct (dispi_index d =? 8); [apply change_layout_ok; [done..|]; apply with_origin_ok; [done|lia..]|].
    destruct (dispi_index d =? 9); [|exact Hok].
    apply change_layout_ok; [done..|]; apply with_origin_ok; [done|lia..].
  - repeat case_match; try exact Hok; breflect; unfold dispi_ok; cbn; rewrite ?Ea;
      change (VIDEO_MEMORY_BYTES / BANK_BYTES) with 64 in *; unfold fits in *; repeat (split; [done || lia|]); try done; try lia.
    apply layout_of_ok.
Qed.
Lemma dispi_write_port_ok port bytes v d : dispi_ok d -> panics_only False (fun p => dispi_ok p.1) (dispi_write_port port bytes v d).
Proof.
  intros Hok. unfold dispi_write_port. case_match; [done|]. assert (fits 16 (wrap 16 v)) by (by apply wrap_fits).
  case_match; [|by apply dispi_write_register_ok]. destruct Hok as (? & ? & ? & ? & ? & ?). by repeat (split; [done|]).
Qed.

(** ** Saved encodings *)

Lemma state_word_fits bytes i : bytes_ok bytes -> fits 16 (state_word bytes i).
Proof.
  intros Hb. assert (forall n, fits 8 (nth n bytes 0)) as Hn.
  { intros n. destruct (nth_in_or_default n bytes 0) as [Hin| ->]; [|done].
    eapply (Forall_forall (fits 8) bytes); [exact Hb|by apply list_elem_of_In]. }
  apply (from_le_bytes_fits _ 2); [|done]. apply Forall_cons_2; [apply Hn|]. apply Forall_cons_2; [apply Hn|constructor].
Qed.
Lemma accepted_ok {A B} (P : A -> Prop) (Q : B -> Prop) (x : option (option A)) (f : A -> option (option B)) :
  panics_only False (fun next => forall a, next = Some a -> P a) x -> (forall a, P a -> panics_only False (fun next => forall b, next = Some b -> Q b) (f a)) ->
  panics_only False (fun next => forall b, next = Some b -> Q b) (accepted x f).
Proof. intros Hx Hf. unfold accepted. eapply panics_only_bind; [exact Hx|]. intros [a|] Ha; [by apply Hf, Ha|done]. Qed.
Lemma dispi_from_ok bytes : bytes_ok bytes -> panics_only False (fun d => forall d', d = Some d' -> dispi_ok d') (dispi_from_state_bytes bytes).
Proof.
  intros Hb. pose proof (fun i => state_word_fits bytes i Hb) as Hw. unfold dispi_from_state_bytes.
  change (VIDEO_MEMORY_BYTES / BANK_BYTES) with 64. cbn zeta. case_match eqn:Ebank; [done|]. breflect.
  pose proof (Hw 5%nat) as [? _].
  apply (accepted_ok (fun active => match active with None => True | Some a => fits 16 (flags a)
    /\ Z.land (flags a) (bnot 16 NO_CLEAR_MEMORY) = 1
    /\ mode_from_registers (state_word bytes 1) (state_word bytes 2) (state_word bytes 3) = Some (mode (layout a)) /\ layout_ok (layout a) end)).
  - case_match; [by case_match; intros ? [= <-]|]. case_match; [done|]. breflect.
    apply (accepted_ok (fun m => mode_from_registers (state_word bytes 1) (state_word bytes 2) (state_word bytes 3) = Some m)); [by intros m|].
    intros m Hm. apply (accepted_ok (fun l => layout_ok l /\ mode l = m)); [exact (with_pitch_ok _ _ (layout_of_ok m))|]. intros l [Hl Hmode].
    apply (accepted_ok (fun l => layout_ok l /\ mode l = m)).
    + rewrite <- Hmode. apply with_origin_ok; [by apply layout_pitch_ok|apply Hw..].
    + intros l' [Hl' Hmode'] a [= <-]. cbn [flags layout]. split; [done|]. split; [done|]. split; [|done]. by rewrite Hmode'.
  - intros active Hact d [= <-]. unfold dispi_ok. cbn [dispi_index dispi_width dispi_height dispi_bits bank Vga.active].
    do 4 (split; [done|]). by split; [lia|].
Qed.

Lemma state_words_to words rest i : Forall (fits 16) words -> (i < length words)%nat ->
  state_word (concat (to_le_bytes 2 <$> words) ++ rest) i = nth i words 0.
Proof.
  intros Hw. revert i. induction Hw as [|w words Hfit _ IH]; intros i Hi; cbn in Hi; [lia|].
  destruct i as [|i].
  - unfold state_word. cbn [fmap list_fmap concat nth Nat.mul Nat.add app to_le_bytes seq].
    exact (from_to_le_bytes 2 w Hfit).
  - cbn [fmap list_fmap concat nth]. rewrite <- (IH i) by lia. unfold state_word.
    by rewrite Nat.mul_comm, !(Nat.mul_comm 2).
Qed.

Lemma with_pitch_id m p : pitch_ok m p -> with_pitch p (layout_of m) = Some (Some (mkLayout m p 0 0)).
Proof.
  intros Hp. pose proof Hp as [Hmod Hb]. unfold with_pitch, layout_format, layout_size. cbn [mode layout_of].
  rewrite (proj2 (Z.eqb_eq _ _) Hmod), (proj2 (Z.leb_le _ _) (proj1 Hb)), (proj2 (Z.leb_le _ _) (proj2 Hb)). cbn [negb orb andb].
  rewrite with_origin_spec by done. rewrite bool_decide_true; [done|]. unfold virtual_width, virtual_height, layout_size, layout_format. cbn.
  pose proof (pitch_ok_width _ _ Hp). pose proof (pitch_ok_height _ _ Hp). lia.
Qed.
Lemma with_origin_id l : layout_ok l -> with_origin (origin_x l) (origin_y l) (mkLayout (mode l) (pitch l) 0 0) = Some (Some l).
Proof.
  intros Hl. pose proof (layout_pitch_ok _ Hl). destruct Hl as (_ & _ & Hx & Hy). rewrite with_origin_spec by done.
  rewrite bool_decide_true; [by destruct l|]. split; [apply Hx|apply Hy].
Qed.

Lemma layout_words l : layout_ok l -> fits 16 (pitch l) /\ fits 16 (origin_x l) /\ fits 16 (origin_y l).
Proof.
  intros Hl. pose proof (layout_pitch_ok _ Hl) as Hp. pose proof (pitch_ok_bounds _ _ Hp). pose proof (pitch_ok_width _ _ Hp).
  pose proof (pitch_ok_height _ _ Hp). destruct Hl as (_ & _ & Hx & Hy). unfold virtual_width, virtual_height, layout_size, layout_format, fits in *.
  assert (0 <= (mode_size (mode l)).1 /\ 0 <= (mode_size (mode l)).2) as [? ?] by (split; by destruct (mode l) as [[] []]). lia.
Qed.

Lemma dispi_roundtrip d : dispi_ok d -> dispi_from_state_bytes (dispi_to_state_bytes d) = Some (Some d).
Proof.
  intros (Hi & Hw & Hh & Hb & Hbank & Hact). unfold dispi_to_state_bytes. set (words := [_; _; _; _; _; _; _; _; _]).
  assert (Forall (fits 16) words) as Hwords.
  { unfold words. repeat (apply Forall_cons_2); try done; try (by apply wrap_fits || (destruct (display_layout d); [by apply wrap_fits|done])).
    - destruct (active d); [apply Hact|done].
    - unfold fits. lia. }
  pose proof (fun i => state_words_to words [] i Hwords) as Hword. rewrite app_nil_r in Hword.
  unfold dispi_from_state_bytes. rewrite !Hword by (cbn; lia). unfold words. cbn [nth]. clear Hword Hwords words.
  change (VIDEO_MEMORY_BYTES / BANK_BYTES) with 64. rewrite (proj2 (Z.leb_gt _ _)) by lia. unfold display_layout.
  destruct d as [index width height bits [[l f]|] bank]; cbn in *; [|done]. destruct Hact as (Hf & Hflag & Hmode & Hl).
  pose proof (layout_words _ Hl) as (? & ? & ?). rewrite !wrap_small by done.
  destruct (Z.eqb_spec f 0) as [->|]; [done|]. rewrite Hflag. cbn. rewrite Hmode. cbn.
  rewrite (with_pitch_id _ _ (layout_pitch_ok _ Hl)). cbn. by rewrite (with_origin_id _ Hl).
Qed.

Lemma last_byte (l : list Z) v z n : length l = n -> Z.to_nat z = n -> reg (l ++ [v]) z = v /\ take n (l ++ [v]) = l.
Proof.
  intros Hl Hz. unfold reg. rewrite Hz. rewrite app_nth2, Hl, Nat.sub_diag by lia. split; [done|]. by rewrite take_app_le, take_ge by lia.
Qed.

Lemma dac_bytes_roundtrip d : dac_ok d -> dac_from_state_bytes (dac_to_state_bytes d) = Some d.
Proof.
  destruct d as [mask colors address component reading]. intros (Hm & Ha & Hc & Hl & Hv). cbn in *.
  unfold dac_from_state_bytes, dac_to_state_bytes. cbn [app drop dac_colors dac_mask dac_address dac_component dac_reading].
  change (reg (mask :: address :: wrap 8 component :: Z.b2z reading :: colors) 0) with mask.
  change (reg (mask :: address :: wrap 8 component :: Z.b2z reading :: colors) 1) with address.
  change (reg (mask :: address :: wrap 8 component :: Z.b2z reading :: colors) 2) with (wrap 8 component).
  change (reg (mask :: address :: wrap 8 component :: Z.b2z reading :: colors) 3) with (Z.b2z reading).
  rewrite wrap_small by (unfold fits; lia). rewrite (proj2 (Z.leb_gt _ _)) by lia.
  replace (1 <? Z.b2z reading) with false by (by destruct reading).
  rewrite drop_0. assert (existsb (fun value => 64 <=? value) colors = false) as ->.
  { clear -Hv. induction Hv as [|v vs Hb _ IH]; [done|]. cbn [existsb]. rewrite IH. by rewrite (proj2 (Z.leb_gt _ _)) by lia. }
  cbn. by destruct reading.
Qed.
Lemma dac_roundtrip s : dac_ok (state_dac s) -> 0 <= state_color_select s <= 15 ->
  dac_state_from_bytes (dac_state_to_bytes s) = Some s.
Proof.
  intros Hok Hcs. unfold dac_state_from_bytes, dac_state_to_bytes.
  destruct (last_byte (dac_to_state_bytes (state_dac s)) (state_color_select s) 772 772%nat) as [-> ->]; [|done|].
  { destruct Hok as (_ & _ & _ & Hl & _). unfold dac_to_state_bytes. cbn [app length]. by rewrite Hl. }
  rewrite (proj2 (Z.ltb_ge _ _)) by lia. rewrite dac_bytes_roundtrip by done. by destruct s.
Qed.

(** ** Banks restored through their ports *)

(** Writing registers [k] to [n - 1] in order leaves their masked values. *)
Lemma restore_bank {A} (write : Z -> Z -> A -> option A) (values : A -> list Z) (mask : nat -> Z) (ok : nat -> A -> Prop) n :
  (forall k v a, (k < n)%nat -> fits 8 v -> length (values a) = n -> ok k a ->
    panics_only False (fun a' => values a' = <[k := Z.land v (mask k)]> (values a) /\ ok (S k) a') (write (Z.of_nat k) v a)) ->
  forall bytes k a, bytes_ok bytes -> (k + length bytes <= n)%nat -> length (values a) = n -> ok k a ->
  panics_only False
    (fun a' => values a' = take k (values a) ++ imap (fun j v => Z.land v (mask (k + j)%nat)) bytes ++ drop (k + length bytes) (values a))
    (restore_from write (Z.of_nat k) bytes a).
Proof.
  intros Hw. induction bytes as [|v bytes IH]; intros k a Hb Hk Hl Hok; cbn [restore_from imap length] in *.
  - cbn. rewrite Nat.add_0_r. symmetry. apply take_drop.
  - apply Forall_cons_1 in Hb as [Hv8 Hb]. eapply panics_only_bind; [apply (Hw k v a); done || lia|]. intros a' [Hv Hok'].
    replace (Z.of_nat k + 1) with (Z.of_nat (S k)) by lia.
    eapply panics_only_mono; [done| |apply (IH (S k) a'); rewrite ?Hv, ?length_insert; done || lia]. intros a'' ->. rewrite Hv.
    rewrite drop_insert_lt, (take_S_r _ k (Z.land v (mask k))) by (rewrite ?list_lookup_insert_eq; done || lia).
    rewrite take_insert_ge, <- app_assoc by lia. cbn [app].
    replace (S k + length bytes)%nat with (k + S (length bytes))%nat by lia. do 2 f_equal; [f_equal; f_equal; lia|].
    f_equal. apply imap_ext. intros j x _. cbn. do 2 f_equal. lia.
Qed.

Lemma bank_masks masks values : bank_ok masks values -> imap (fun j v => Z.land v (nth j masks 0)) values = values.
Proof.
  intros H. transitivity (imap (fun _ v => v) values).
  - apply imap_ext. intros j v Hv. destruct (Forall2_lookup_l _ _ _ _ _ H Hv) as (m & Hm & Hvm).
    by rewrite (nth_lookup_Some _ _ _ _ Hm).
  - clear H. induction values as [|v values IH]; [done|]. rewrite imap_cons. f_equal. exact IH.
Qed.
Lemma bank_bytes masks values : Forall (fits 8) masks -> bank_ok masks values -> bytes_ok values.
Proof.
  intros Hm H. apply Forall_lookup. intros i v Hv. destruct (Forall2_lookup_l _ _ _ _ _ H Hv) as (m & Em & Hvm).
  pose proof (Forall_lookup_1 _ _ _ _ Hm Em) as [Hm0 Hm8]. pose proof (masked_bounds _ _ Hvm Hm0). unfold fits in *. lia.
Qed.
Ltac masks_fit := match goal with |- Forall (fits 8) _ => apply (bool_decide_unpack _); by vm_compute end.
(** The whole bank is restored. *)
Lemma restore_masked {A} (write : Z -> Z -> A -> option A) (values : A -> list Z) (ok : nat -> A -> Prop) masks bytes a :
  (forall k v a, (k < length masks)%nat -> fits 8 v -> length (values a) = length masks -> ok k a ->
    panics_only False (fun a' => values a' = <[k := Z.land v (nth k masks 0)]> (values a) /\ ok (S k) a') (write (Z.of_nat k) v a)) ->
  Forall (fits 8) masks -> bank_ok (take (length bytes) masks) bytes -> (length bytes <= length masks)%nat -> length (values a) = length masks -> ok O a ->
  panics_only False (fun a' => values a' = bytes ++ drop (length bytes) (values a)) (restore_from write 0 bytes a).
Proof.
  intros Hw Hm Hb Hlen Hl Hok. change 0 with (Z.of_nat 0).
  assert (bytes_ok bytes) as Hbytes by (eapply bank_bytes; [|exact Hb]; by apply Forall_take).
  eapply panics_only_mono; [done| |exact (restore_bank write values (fun j => nth j masks 0) ok (length masks) Hw bytes 0 a Hbytes Hlen Hl Hok)].
  intros a' ->. rewrite take_0. cbn [app Nat.add]. f_equal.
  etransitivity; [|exact (bank_masks _ _ Hb)]. apply imap_ext. intros j v Hv. f_equal. pose proof (lookup_lt_Some _ _ _ Hv).
  rewrite <- (take_drop (length bytes) masks) at 1. rewrite app_nth1; [done|]. rewrite length_take. lia.
Qed.

(** A selected register takes what its mask lets through. *)
Lemma updates_masked {A} (values : A -> list Z) (make : list Z -> A) old k v : (k < length old)%nat -> (forall l, values (make l) = l) ->
  panics_only False (fun a' => values a' = <[k := v]> old /\ True) (make <$> update_reg old (Z.of_nat k) v).
Proof. intros Hk Hmake. unfold update_reg, set_reg. rewrite Nat2Z.id, (proj2 (Nat.ltb_lt _ _)) by done. cbn. by rewrite Hmake. Qed.

Lemma restore_sequencer_values bytes : bank_ok SEQUENCER_MASKS bytes ->
  panics_only False (fun s => seq_values s = bytes) (restore_sequencer bytes).
Proof.
  intros Hb. pose proof (bank_length _ _ Hb) as Hl. unfold restore_sequencer.
  eapply panics_only_mono; [done| |eapply (restore_masked _ seq_values (fun _ _ => True) SEQUENCER_MASKS); rewrite ?Hl; try masks_fit; try done].
  - cbn beta. intros s ->. rewrite Hl. apply app_nil_r.
  - intros k v a Hk _ Hlen _. cbn in Hk. unfold seq_write, seq_select. cbn [seq_index seq_values].
    do 5 (destruct k as [|k]; [apply (updates_masked seq_values); [by rewrite Hlen|done]|]). lia.
Qed.
Lemma restore_graphics_values bytes : bank_ok GRAPHICS_MASKS bytes ->
  panics_only False (fun g => gfx_values g = bytes) (restore_graphics bytes).
Proof.
  intros Hb. pose proof (bank_length _ _ Hb) as Hl. unfold restore_graphics.
  eapply panics_only_mono; [done| |eapply (restore_masked _ gfx_values (fun _ _ => True) GRAPHICS_MASKS); rewrite ?Hl; try masks_fit; try done].
  - cbn beta. intros g ->. rewrite Hl. apply app_nil_r.
  - intros k v a Hk _ Hlen _. cbn in Hk. unfold gfx_write, gfx_select. cbn [gfx_index gfx_values].
    do 9 (destruct k as [|k]; [apply (updates_masked gfx_values); [by rewrite Hlen|done]|]). lia.
Qed.

Lemma crtc_write_select k v c : (k < 25)%nat -> length (crtc_values c) = 25%nat -> fits 8 v -> ((k <= 7)%nat -> has (crtc_reg 17 c) 128 = false) ->
  panics_only False (fun c' => crtc_values c' = <[k := Z.land v (nth k CRTC_MASKS 0)]> (crtc_values c)) (crtc_write v (crtc_select (Z.of_nat k) c)).
Proof.
  intros Hk Hlen Hv%masked_byte Hp. destruct c as [index values start]. unfold crtc_reg in *. cbn [crtc_values] in *.
  assert (forall i w, (i < 25)%nat -> panics_only False (fun c' => crtc_values c' = <[i := w]> values)
    (set_crtc (Z.of_nat i) w (mkCrtc (Z.of_nat i) values start))) as Hset.
  { intros i w Hi. unfold set_crtc, update_reg, set_reg. cbn [crtc_values]. by rewrite Nat2Z.id, (proj2 (Nat.ltb_lt _ _)) by lia. }
  unfold crtc_write, crtc_select, crtc_reg. cbn [crtc_index crtc_values].
  do 8 (destruct k as [|k]; [rewrite Hp by lia; cbn [nth CRTC_MASKS]; rewrite ?Hv; exact (Hset _ _ Hk)|]).
  do 17 (destruct k as [|k]; [cbn [nth CRTC_MASKS]; rewrite ?Hv; exact (Hset _ _ Hk)|]). lia.
Qed.
(** The protection bit is written after the registers it protects. *)
Lemma restore_crtc_values bytes : bank_ok CRTC_MASKS bytes -> panics_only False (fun c => crtc_values c = bytes) (restore_crtc bytes).
Proof.
  intros Hb. pose proof (bank_length _ _ Hb) as Hl. unfold restore_crtc.
  apply (panics_only_bind _ (fun c => length (crtc_values c) = 25%nat /\ has (crtc_reg 17 c) 128 = false)); [by vm_compute|]. intros c0 [Hl0 H0].
  eapply panics_only_mono; [done| |eapply (restore_masked _ crtc_values (fun k c => (k <= 17)%nat -> has (crtc_reg 17 c) 128 = false) CRTC_MASKS);
    rewrite ?Hl; try masks_fit; try done].
  - cbn beta. intros c ->. rewrite Hl, drop_ge by (by rewrite Hl0). apply app_nil_r.
  - clear. intros k v c Hk Hv Hlen Hok. change (length CRTC_MASKS) with 25%nat in *.
    eapply panics_only_mono; [done| |apply crtc_write_select; [done..|intros; apply Hok; lia]].
    cbn beta. intros c' Hc'. split; [done|].
    intros Hk'. specialize (Hok ltac:(lia)). unfold crtc_reg, reg in *. rewrite Hc'. by rewrite !nth_lookup, list_lookup_insert_ne in * by lia.
Qed.
Lemma restore_attribute_values bytes : bank_ok (take 20 ATTRIBUTE_MASKS) bytes ->
  panics_only False (fun a => at_values a = bytes ++ [0]) (restore_attribute bytes).
Proof.
  intros Hb. pose proof (bank_length _ _ Hb) as Hl. change (length (take 20 ATTRIBUTE_MASKS)) with 20%nat in Hl. unfold restore_attribute.
  eapply panics_only_mono; [done| |eapply (restore_masked _ at_values (fun _ _ => True) ATTRIBUTE_MASKS); rewrite ?Hl; try masks_fit; try done].
  - by cbn beta; intros a ->; rewrite Hl.
  - intros k v a Hk _ Hlen _. change (length ATTRIBUTE_MASKS) with 21%nat in *. unfold attr_write, reset_address.
    cbn [at_data_next at_address at_values negb mbind option_bind].
    do 21 (destruct k as [|k]; [apply (updates_masked at_values); [by rewrite Hlen|done]|]). lia.
  - change (length ATTRIBUTE_MASKS) with 21%nat. lia.
Qed.

(** ** The core state *)

Definition core_ok (c : VgaCoreState) : Prop :=
  crtc_ok (core_crtc c) /\ sequencer_ok (core_sequencer c) /\ graphics_ok (core_graphics c) /\ attribute_ok (core_attribute c)
  /\ setup_ok (core_setup c) /\ length (core_latches c) = 4%nat
  /\ fits 8 (core_miscellaneous c) /\ fits 8 (core_feature_control c) /\ reg (at_values (core_attribute c)) COLOR_SELECT = 0.

Lemma slice_middle (a b c : list Z) i j : length a = i -> (i + length b)%nat = j -> slice i j (a ++ b ++ c) = b.
Proof.
  intros <- <-. unfold slice. rewrite drop_app_length. replace (length a + length b - length a)%nat with (length b) by lia.
  by rewrite take_app_length.
Qed.

Lemma core_roundtrip c : core_ok c -> core_from_bytes (core_to_bytes c) = Some (Some c).
Proof.
  destruct c as [[ci cv start] [si sv] [gi gv] [aa an av] m f [control option] latches].
  intros ((Hci & Hc & Hd) & (Hsi & Hs) & (Hgi & Hg) & (Hai & Ha) & (Hcontrol & Hoption) & Hlatch & Hm & Hf & Hcs).
  cbn in Hcs. cbn [crtc_index crtc_values display_start seq_index seq_values gfx_index gfx_values at_address at_values Vga.control Vga.option_select
    core_crtc core_sequencer core_graphics core_attribute core_setup core_latches core_miscellaneous core_feature_control] in *.
  set (state := mkCore _ _ _ _ _ _ _ _). unfold core_from_bytes.
  set (bytes := core_to_bytes state).
  pose proof (bank_length _ _ Hc) as Lc. pose proof (bank_length _ _ Hs) as Ls. pose proof (bank_length _ _ Hg) as Lg.
  pose proof (bank_length _ _ Ha) as La. change (length ATTRIBUTE_MASKS) with 21%nat in La. cbn in Lc, Ls, Lg.
  set (head := [m; f; control; option; si; gi; ci; aa; Z.b2z an]).
  assert (bytes = head ++ to_le_bytes 2 start ++ latches ++ sv ++ gv ++ cv ++ take 20 av) as Hbytes by reflexivity.
  assert (length head = 9%nat) as Lh by reflexivity. assert (length (to_le_bytes 2 start) = 2%nat) as L2 by reflexivity.
  assert (slice 9 11 bytes = to_le_bytes 2 start) as ->.
  { rewrite Hbytes. apply slice_middle; [done|by rewrite L2]. }
  assert (slice 11 15 bytes = latches) as ->.
  { rewrite Hbytes, (app_assoc head). apply slice_middle; [by rewrite length_app, Lh, L2|by rewrite Hlatch]. }
  assert (slice 15 20 bytes = sv) as ->.
  { rewrite Hbytes, (app_assoc head), (app_assoc _ latches).
    apply slice_middle; [by rewrite !length_app, Lh, L2, Hlatch|by rewrite Ls]. }
  assert (slice 20 29 bytes = gv) as ->.
  { rewrite Hbytes, (app_assoc head), (app_assoc _ latches), (app_assoc _ sv).
    apply slice_middle; [by rewrite !length_app, Lh, L2, Hlatch, Ls|by rewrite Lg]. }
  assert (slice 29 54 bytes = cv) as ->.
  { rewrite Hbytes, (app_assoc head), (app_assoc _ latches), (app_assoc _ sv), (app_assoc _ gv).
    apply slice_middle; [by rewrite !length_app, Lh, L2, Hlatch, Ls, Lg|by rewrite Lc]. }
  assert (drop 54 bytes = take 20 av) as ->.
  { rewrite Hbytes, (app_assoc head), (app_assoc _ latches), (app_assoc _ sv), (app_assoc _ gv), (app_assoc _ cv).
    apply drop_app_length'. by rewrite !length_app, Lh, L2, Hlatch, Ls, Lg, Lc. }
  change (reg bytes 0) with m. change (reg bytes 1) with f. change (reg bytes 2) with control. change (reg bytes 3) with option.
  change (reg bytes 4) with si. change (reg bytes 5) with gi. change (reg bytes 6) with ci. change (reg bytes 7) with aa.
  change (reg bytes 8) with (Z.b2z an).
  assert (setup_from_bytes control option = Some (mkSetup control option)) as ->.
  { unfold setup_from_bytes. rewrite (proj2 (Z.leb_le option 1)) by lia. replace (Z.land control (bnot 8 24)) with 0; [done|].
    rewrite <- Hcontrol, <- Z.land_assoc. by rewrite Z.land_0_r. }
  destruct (never_panics_some _ _ (restore_sequencer_values sv Hs)) as ([x1 x2] & -> & Hs').
  destruct (never_panics_some _ _ (restore_graphics_values gv Hg)) as ([x3 x4] & -> & Hg').
  destruct (never_panics_some _ _ (restore_crtc_values cv Hc)) as ([x5 x6 x7] & -> & Hc').
  destruct (never_panics_some _ _ (restore_attribute_values (take 20 av) ltac:(by apply Forall2_take))) as ([x8 x9 x10] & -> & Ha').
  cbn in Hs', Hg', Hc', Ha'. subst. cbn [mbind option_bind]. unfold attr_write. cbn [at_data_next reset_address negb at_values mbind option_bind].
  replace (mkCore _ _ _ _ _ _ _ _) with state; [by rewrite decide_True|].
  unfold state, seq_select, gfx_select, crtc_select. cbn [crtc_values crtc_index seq_values gfx_values].
  rewrite Hsi, Hgi, Hci, Hai. rewrite from_to_le_bytes by done. f_equal.
  assert (av = set_reg (take 20 av ++ [0]) COLOR_SELECT 0) as Hset.
  { assert (av !! 20%nat = Some 0) as Hlast.
    { destruct (lookup_lt_is_Some_2 av 20 ltac:(lia)) as [x Hx]. unfold reg, COLOR_SELECT in Hcs.
      rewrite (nth_lookup_Some _ _ _ _ Hx) in Hcs. by rewrite Hx, Hcs. }
    rewrite <- (take_S_r av 20 0 Hlast), take_ge by lia. symmetry. by apply list_insert_id. }
  destruct an; cbn; unfold set_color_select; cbn; f_equal; exact Hset.
Qed.

(** ** Decoded states hold what a device could *)

Lemma nth_byte bytes i : bytes_ok bytes -> fits 8 (nth i bytes 0).
Proof.
  intros Hb. destruct (nth_in_or_default i bytes 0) as [Hin| ->]; [|done].
  eapply (Forall_forall (fits 8) bytes); [exact Hb|by apply list_elem_of_In].
Qed.
Lemma reg_byte bytes i : bytes_ok bytes -> fits 8 (reg bytes i).
Proof. apply nth_byte. Qed.

Lemma restore_from_ok {A} (write : Z -> Z -> A -> option A) (ok : A -> Prop) :
  (forall i v a, fits 8 v -> ok a -> panics_only False ok (write i v a)) ->
  forall bytes i a, bytes_ok bytes -> ok a -> panics_only False ok (restore_from write i bytes a).
Proof.
  intros Hw bytes i a Hb. revert i a. induction Hb as [|v bytes Hv _ IH]; intros i a Ha; cbn [restore_from]; [done|].
  eapply panics_only_bind; [by apply Hw|]. intros a' Ha'. by apply IH.
Qed.
Lemma slice_bytes from until bytes : bytes_ok bytes -> bytes_ok (slice from until bytes).
Proof. intros. unfold slice. by apply Forall_take, Forall_drop. Qed.

Lemma setup_from_ok control option s : fits 8 control -> 0 <= option -> setup_from_bytes control option = Some s -> setup_ok s.
Proof.
  intros Hc Ho. unfold setup_from_bytes. destruct (_ && _) eqn:E; [|done]. intros [= <-]. apply andb_true_iff in E as [Hz Hle]. breflect.
  split; cbn; [|lia]. unfold masked. apply Z.bits_inj'. intros i Hi. rewrite Z.land_spec.
  assert (Z.testbit (Z.land control (bnot 8 24)) i = false) as Hb by (rewrite Hz; apply Z.testbit_0_l).
  rewrite Z.land_spec, testbit_bnot in Hb by lia. destruct (Z.testbit control i) eqn:Ei; [|done]. cbn in *.
  destruct (Z.ltb_spec i 8); [by destruct (Z.testbit 24 i)|]. rewrite (fits_testbit 8 control) in Ei; [done|done|lia].
Qed.

Lemma core_from_ok bytes : bytes_ok bytes -> length bytes = 74%nat ->
  panics_only False (fun c => forall c', c = Some c' -> core_ok c' /\ bytes_ok (core_latches c')) (core_from_bytes bytes).
Proof.
  intros Hb Hlen. unfold core_from_bytes.
  pose proof registers_default_ok as (Hc & Hs & Hg & Ha & _). pose proof (slice_bytes 15 20 _ Hb). pose proof (slice_bytes 20 29 _ Hb).
  pose proof (slice_bytes 29 54 _ Hb). pose proof (slice_bytes 9 11 _ Hb). pose proof (slice_bytes 11 15 _ Hb).
  assert (bytes_ok (drop 54 bytes)) by (by apply Forall_drop).
  apply (panics_only_bind _ sequencer_ok).
  { apply (restore_from_ok _ sequencer_ok); [|done|done]. intros. by apply seq_write_ok, seq_select_ok. }
  intros s Hs'. apply (panics_only_bind _ graphics_ok).
  { apply (restore_from_ok _ graphics_ok); [|done|done]. intros. by apply gfx_write_ok, gfx_select_ok. }
  intros g Hg'. apply (panics_only_bind _ crtc_ok).
  { apply (panics_only_bind _ crtc_ok); [by apply set_crtc_ok|]. intros c0 Hc0.
    apply (restore_from_ok _ crtc_ok); [intros; by apply crtc_write_ok, crtc_select_ok|done|done]. }
  intros c Hc'. apply (panics_only_bind _ attribute_ok).
  { apply (restore_from_ok _ attribute_ok); [|done|done]. intros i v a Hv Ha'.
    apply (panics_only_bind _ attribute_ok); [by apply attr_write_ok, reset_address_ok|]. intros a' Ha''. by apply attr_write_ok. }
  intros a0 Ha0. apply (panics_only_bind _ attribute_ok); [by apply attr_write_ok, reset_address_ok|]. intros a Ha'.
  cbn zeta. cbn [panics_only]. intros state Hstate. apply bind_Some in Hstate as (setup & Hsetup & Hstate). case_decide; [|done]. injection Hstate as <-.
  unfold core_ok. cbn [core_crtc core_sequencer core_graphics core_attribute core_setup core_latches core_miscellaneous core_feature_control].
  split; [split|done]; [|split; [by apply seq_select_ok|split; [by apply gfx_select_ok|split]]].
  - destruct (crtc_select_ok (reg bytes 6) _ Hc') as (Hi & Hv & _). split; [done|]. split; [done|]. cbn [display_start].
    apply (from_le_bytes_fits _ 2); [done|]. unfold slice. rewrite length_take. lia.
  - apply color_select_ok; [done|]. case_match; [by apply reset_address_ok|done].
  - split; [by eapply setup_from_ok; [apply reg_byte| |exact Hsetup]; [done|apply reg_byte]|]. split.
    { unfold slice. rewrite length_take, length_drop. lia. }
    split; [by apply reg_byte|]. split; [by apply reg_byte|].
    unfold set_color_select. cbn [at_values]. unfold reg, set_reg. rewrite nth_lookup.
    match goal with |- default 0 (<[_ := _]> ?l !! _) = 0 => destruct (decide (Z.to_nat COLOR_SELECT < length l)%nat) end;
      [by rewrite list_lookup_insert_eq|by rewrite lookup_ge_None_2 by (rewrite length_insert; lia)].
Qed.

Lemma dac_from_ok bytes s : bytes_ok bytes -> length bytes = 773%nat -> dac_state_from_bytes bytes = Some s ->
  dac_ok (state_dac s) /\ 0 <= state_color_select s <= 15.
Proof.
  intros Hb Hlen. unfold dac_state_from_bytes. case_match eqn:Hcs; [done|]. intros H. apply bind_Some in H as (d & Hd & [= <-]). breflect.
  pose proof (reg_byte bytes 772 Hb) as [? _]. cbn [state_dac state_color_select]. split; [|lia].
  unfold dac_from_state_bytes in Hd. case_match eqn:E; [done|]. injection Hd as <-. breflect.
  assert (bytes_ok (take 772 bytes)) as Hb' by (by apply Forall_take). assert (length (take 772 bytes) = 772%nat) as Hl by (rewrite length_take; lia).
  pose proof (reg_byte (take 772 bytes) 2 Hb') as [? _].
  split; [by apply reg_byte|]. split; [by apply reg_byte|]. cbn [dac_component dac_colors]. split; [lia|]. split; [rewrite length_drop; lia|].
  apply Forall_forall. intros v Hv. match goal with H : existsb _ _ = false |- _ => pose proof (existsb_none _ _ v H Hv) as Hx end. cbn beta in Hx. breflect.
  assert (fits 8 v) as [? _]; [|lia]. eapply Forall_forall; [|exact Hv]. by apply Forall_drop.
Qed.

(** ** The device *)

Lemma write_control_ok v s : setup_ok s -> setup_ok (write_control v s).
Proof. intros [_ H]. split; [apply land_masked|done]. Qed.
Lemma write_option_ok v s : setup_ok s -> setup_ok (write_option v s).
Proof.
  intros Hs. unfold write_option. case_match; [|done]. destruct Hs. split; [done|]. cbn.
  apply masked_bounds; [apply land_masked|lia].
Qed.
