(* ===== verification/VgaFrames.v ===== *)
(** * Video memory, its captures and the renderers' copies

    How the storage evolves under the blocks that others retain, what the ranges of
    dirty pages cover, and the invariant that ties captured memory, the changes that
    accompany it and the renderers' buffers together. *)

From S2P Require Import Prelude Bytes Types Bounds Vga VgaRaster VgaMemory VgaDevice VgaState.
Local Open Scope Z_scope.

(** Arithmetic with quotients and remainders by constants. *)
Ltac divlia := Z.to_euclidean_division_equations; lia.

(** ** Storage *)

Definition storage_ok (s : Storage) : Prop :=
  length (blocks s) = BLOCKS /\ Forall (fun arc => arc < allocated s) (blocks s)
  /\ length (changed s) = BLOCKS /\ Forall (fits 64) (changed s) /\ forall arc offset, fits 8 (arc_byte (heap s) arc offset).

Definition in_page (pages : DirtyPages) (block : nat) (offset : Z) : bool := Z.testbit (nth block pages 0) (offset / PAGE_BYTES).
Definition in_block (offset : Z) : Prop := 0 <= offset < BLOCK_BYTES.

(** From [s] to [s'] the retained blocks keep their bytes, and a place that is not
    marked changed in [s'] was not in [s] either and holds the byte it held. *)
Definition evolves (held : list MemorySnapshot) (s s' : Storage) : Prop :=
  storage_ok s' /\ allocated s <= allocated s'
  /\ (forall arc offset, arc ∈ concat held -> arc < allocated s -> arc_byte (heap s') arc offset = arc_byte (heap s) arc offset)
  /\ (forall block arc arc' offset, blocks s !! block = Some arc -> blocks s' !! block = Some arc' -> in_block offset ->
      in_page (changed s') block offset = false ->
      in_page (changed s) block offset = false /\ arc_byte (heap s') arc' offset = arc_byte (heap s) arc offset).

Lemma evolves_refl held s : storage_ok s -> evolves held s s.
Proof. intros H. split; [done|]. split; [lia|]. split; [done|]. intros; by simplify_eq. Qed.
Lemma evolves_trans held s s' s'' : evolves held s s' -> evolves held s' s'' -> evolves held s s''.
Proof.
  intros (Hok & Ha & Hh & Hb) (Hok' & Ha' & Hh' & Hb'). split; [done|]. split; [lia|]. split.
  - intros arc o Hin Hlt. rewrite Hh' by (done || lia). by apply Hh.
  - intros block arc arc'' o Harc Harc'' Ho Hp.
    destruct (lookup_lt_is_Some_2 (blocks s') block) as [arc' Harc'].
    { rewrite (proj1 Hok), <- (proj1 Hok'). by eapply lookup_lt_Some. }
    destruct (Hb' _ _ _ _ Harc' Harc'' Ho Hp) as [Hp' ->]. by eapply Hb.
Qed.

Lemma arc_byte_insert h arc bytes other offset :
  arc_byte (<[arc := bytes]> h) other offset = if decide (other = arc) then byte_in bytes offset else arc_byte h other offset.
Proof. unfold arc_byte. case_decide; subst; [by rewrite (lookup_insert_eq h)|by rewrite (lookup_insert_ne h) by congruence]. Qed.
Lemma byte_in_insert bytes offset value other :
  byte_in (<[offset := value]> bytes) other = if decide (other = offset) then value else byte_in bytes other.
Proof. unfold byte_in. case_decide; subst; [by rewrite (lookup_insert_eq bytes)|by rewrite (lookup_insert_ne bytes) by congruence]. Qed.

Lemma location_ok address : 0 <= address < VIDEO_MEMORY_BYTES ->
  ((location address).1 < BLOCKS)%nat /\ in_block (location address).2.
Proof.
  intros H. unfold location, in_block, BLOCK_BYTES, VIDEO_MEMORY_BYTES, BLOCKS in *. cbn [fst snd].
  assert (0 <= Z.land address 3 <= 3) by (apply masked_bounds; [apply land_masked|lia]). divlia.
Qed.

Lemma length_mark block offset pages : length (mark block offset pages) = length pages.
Proof. apply length_alter. Qed.
Lemma mark_ok block offset pages : in_block offset -> Forall (fits 64) pages -> Forall (fits 64) (mark block offset pages).
Proof.
  intros Ho Hp. apply Forall_alter; [done|]. intros mask Hm Hfit. apply fits_lor; [lia|done|].
  unfold in_block, BLOCK_BYTES, PAGE_BYTES in *. rewrite Z.shiftl_1_l. unfold fits.
  split; [by apply Z.pow_nonneg|]. apply Z.pow_lt_mono_r; divlia.
Qed.
Lemma in_page_mark block offset pages other o : in_block offset -> in_block o -> (block < length pages)%nat ->
  in_page (mark block offset pages) other o = in_page pages other o || bool_decide (other = block /\ o / PAGE_BYTES = offset / PAGE_BYTES).
Proof.
  intros Ho Ho' Hl. unfold in_page, mark. rewrite !nth_lookup. destruct (decide (other = block)) as [->|Hne].
  - rewrite (list_lookup_alter_eq _ pages). destruct (lookup_lt_is_Some_2 pages block Hl) as [mask ->]. cbn.
    unfold in_block, BLOCK_BYTES, PAGE_BYTES in *. rewrite Z.lor_spec, Z.shiftl_1_l, Z.pow2_bits_eqb by divlia. f_equal.
    case_bool_decide; [apply Z.eqb_eq; lia|apply Z.eqb_neq; intuition congruence].
  - rewrite (list_lookup_alter_ne _ pages) by done. rewrite bool_decide_false by tauto. by rewrite orb_false_r.
Qed.

(** A byte written changes its block's page and nothing else that others hold. *)
Lemma shared_spec held block arc s : shared held block arc s = false ->
  arc ∉ concat held /\ forall other, other <> block -> blocks s !! other <> Some arc.
Proof.
  unfold shared. intros H. assert (forall l, l ∈ delete block (blocks s) :: held -> arc ∉ l) as Hl.
  { intros l Hl Hin. pose proof (existsb_none _ _ l H Hl) as Hn. cbn beta in Hn.
    pose proof (existsb_none _ _ arc Hn Hin) as Ha. by rewrite Z.eqb_refl in Ha. }
  split.
  - rewrite list_elem_of_In, in_concat. intros (l & Hin & Ha).
    apply (Hl l); [by apply list_elem_of_In; right|by apply list_elem_of_In].
  - intros other Hne Ho. apply (Hl (delete block (blocks s))); [by left|].
    destruct (decide (other < block)%nat).
    + apply (list_elem_of_lookup_2 _ other). by rewrite list_lookup_delete_lt by lia.
    + destruct other as [|other]; [lia|]. apply (list_elem_of_lookup_2 _ other). by rewrite list_lookup_delete_ge by lia.
Qed.

Lemma storage_read_ok address s : storage_ok s -> 0 <= address < VIDEO_MEMORY_BYTES ->
  exists value, storage_read address s = Some value /\ fits 8 value.
Proof.
  intros (Hb & _ & _ & _ & Hbytes) Ha. pose proof (location_ok _ Ha) as [Hl _]. unfold storage_read.
  destruct (location address) as [block offset]. cbn in Hl.
  destruct (lookup_lt_is_Some_2 (blocks s) block) as [arc ->]; [by rewrite Hb|]. cbn. by eexists.
Qed.

(** The new bytes go to an allocation nobody else uses. *)
Lemma storage_evolves held block offset value arc target allocated' s :
  storage_ok s -> (block < BLOCKS)%nat -> in_block offset -> fits 8 value -> blocks s !! block = Some arc ->
  allocated s <= allocated' -> target < allocated' ->
  (forall other, other ∈ concat held -> other < allocated s -> other <> target) ->
  (forall place other, place <> block -> blocks s !! place = Some other -> other <> target) ->
  evolves held s (mkStorage (<[target := <[offset := value]> (default ∅ (heap s !! arc))]> (heap s)) allocated'
    (<[block := target]> (blocks s)) (mark block offset (changed s))).
Proof.
  intros (Hb & Hlt & Hc & Hfit & Hbytes) Hl Ho Hv Harc Hle Ht Hheld Hplace.
  set (bytes := <[offset := value]> (default ∅ (heap s !! arc))).
  assert (forall o, byte_in bytes o = if decide (o = offset) then value else arc_byte (heap s) arc o) as Hnew
    by (intros o; apply byte_in_insert).
  split; [|split; [done|split]]; cbn [heap allocated blocks changed].
  - unfold storage_ok; cbn [heap allocated blocks changed]. rewrite length_insert, length_mark. split; [done|]. split.
    { apply Forall_insert; [|done]. eapply Forall_impl; [exact Hlt|]. cbn. intros. lia. }
    split; [done|]. split; [by apply mark_ok|]. intros arc' o. rewrite arc_byte_insert. case_decide; [|apply Hbytes].
    rewrite Hnew. by case_decide.
  - intros other o Hin Hother. rewrite arc_byte_insert. by rewrite decide_False by (by apply Hheld).
  - intros place arc1 arc2 o H1 H2 Hob Hp. rewrite in_page_mark in Hp by (rewrite ?Hc; done).
    apply orb_false_iff in Hp as [Hp Hd]. apply bool_decide_eq_false in Hd. split; [done|].
    destruct (decide (place = block)) as [->|Hne].
    + rewrite list_lookup_insert_eq in H2 by lia. simplify_eq. rewrite arc_byte_insert, decide_True, Hnew by done.
      rewrite decide_False; [done|]. intros ->. by apply Hd.
    + rewrite list_lookup_insert_ne in H2 by done. simplify_eq. rewrite arc_byte_insert.
      by rewrite decide_False by (by eapply Hplace).
Qed.

Lemma storage_write_ok held address value s : storage_ok s -> 0 <= address < VIDEO_MEMORY_BYTES -> fits 8 value ->
  exists s', storage_write held address value s = Some s' /\ evolves held s s'.
Proof.
  intros Hok Ha Hv. pose proof Hok as (Hb & Hlt & Hc & Hfit & Hbytes). pose proof (location_ok _ Ha) as [Hl Ho]. unfold storage_write.
  destruct (location address) as [block offset]. cbn in Hl, Ho.
  destruct (lookup_lt_is_Some_2 (blocks s) block) as [arc Harc]; [by rewrite Hb|]. rewrite Harc. cbn [mbind option_bind].
  pose proof (Forall_lookup_1 _ _ _ _ Hlt Harc) as Halt. cbn beta in Halt.
  destruct (_ =? value); [exists s; split; [done|by apply evolves_refl]|]. eexists. split; [reflexivity|].
  destruct (shared held block arc s) eqn:Hs.
  - apply storage_evolves; try done; try lia. intros place other _ Hp.
    pose proof (Forall_lookup_1 _ _ _ _ Hlt Hp). cbn beta in *. lia.
  - apply shared_spec in Hs as [Hheld Hplace]. rewrite <- (list_insert_id _ _ _ Harc) at 1.
    apply storage_evolves; try done; try lia.
    + intros other Hin _ ->. done.
    + intros place other Hne Hp ->. by eapply Hplace.
Qed.

Lemma nth_mark_all (n : nat) pages i : (n <= length pages)%nat -> (i < n)%nat -> nth i (foldr mark_block pages (seq 0 n)) 0 = Z.ones 64.
Proof.
  intros Hn Hi. assert (forall k m, (k + m <= length pages)%nat -> length (foldr mark_block pages (seq k m)) = length pages
    /\ forall i, (k <= i < k + m)%nat -> nth i (foldr mark_block pages (seq k m)) 0 = Z.ones 64) as H; [|by apply (H 0%nat n); lia].
  intros k m. revert k. induction m as [|m IH]; intros k Hk; cbn [seq foldr]; [split; [done|lia]|].
  destruct (IH (S k) ltac:(lia)) as [Hlen IHn]. unfold mark_block at 1 3. rewrite length_insert. split; [done|]. intros j Hj.
  rewrite nth_lookup. destruct (decide (j = k)) as [->|Hne]; [by rewrite list_lookup_insert_eq by lia|].
  rewrite list_lookup_insert_ne, <- nth_lookup by done. apply IHn. lia.
Qed.
Lemma length_mark_all l pages : length (foldr mark_block pages l) = length pages.
Proof. induction l as [|b l IH]; [done|]. cbn [foldr]. unfold mark_block at 1. by rewrite length_insert. Qed.

Lemma storage_clear_ok held s : storage_ok s -> evolves held s (storage_clear s).
Proof.
  intros (Hb & Hlt & Hc & Hfit & Hbytes). unfold storage_clear, storage_on. cbn [heap allocated blocks changed].
  assert (forall i, (i < BLOCKS)%nat -> nth i (foldr mark_block no_pages (seq 0 BLOCKS)) 0 = Z.ones 64) as Hall
    by (intros i Hi; by apply nth_mark_all).
  split; [|split; [cbn; lia|split]]; cbn [heap allocated blocks changed].
  - split; [done|]. cbn [heap allocated blocks changed]. split; [apply Forall_replicate; lia|]. rewrite length_mark_all. split; [done|]. split.
    + apply Forall_lookup. intros i mask Hi. assert (i < BLOCKS)%nat as Hlt'.
      { apply lookup_lt_Some in Hi. by rewrite length_mark_all in Hi. }
      apply (nth_lookup_Some _ _ 0) in Hi. rewrite <- Hi, Hall by done. by apply fits_ones.
    + intros arc o. rewrite arc_byte_insert. case_decide; [|apply Hbytes]. unfold byte_in. by rewrite lookup_empty.
  - intros arc o _ Hl. by rewrite arc_byte_insert, decide_False by lia.
  - intros place arc1 arc2 o H1 _ Ho Hp. apply lookup_lt_Some in H1. exfalso. unfold in_page in Hp. rewrite Hall in Hp by lia.
    unfold in_block, BLOCK_BYTES, PAGE_BYTES in *. rewrite Z.ones_spec_low in Hp; [done|divlia].
Qed.

(** ** Accesses *)

Definition memory_ok (m : VideoMemory) : Prop := storage_ok (storage m) /\ length (latches m) = 4%nat /\ bytes_ok (latches m).
Definition access_ok (a : VramAccess) : Prop :=
  match a with AccessDisabled => True | AccessVga r => registers_ok r | AccessSvgaBank start => exists bank, start = bank * BANK_BYTES /\ 0 <= bank < 64 end.

Lemma vga_index_bounds offset r : 0 <= vga_index offset r < BLOCK_BYTES.
Proof.
  unfold vga_index. set (o := if chain_four _ then _ else _). clearbody o. unfold BLOCK_BYTES.
  destruct (extended_memory _); [change (Z.shiftl 1 16 - 1) with (Z.ones 16)|change (Z.shiftl 1 14 - 1) with (Z.ones 14)];
    rewrite Z.land_ones by lia; divlia.
Qed.
Lemma plane_address_ok offset r plane : 0 <= plane < 4 -> 0 <= vga_index offset r * 4 + plane < VIDEO_MEMORY_BYTES.
Proof. pose proof (vga_index_bounds offset r). unfold BLOCK_BYTES, VIDEO_MEMORY_BYTES in *. lia. Qed.

Lemma latched_ok index s : storage_ok s -> (forall plane, 0 <= plane < 4 -> 0 <= index * 4 + plane < VIDEO_MEMORY_BYTES) ->
  exists latches, mapM (fun plane => storage_read (index * 4 + Z.of_nat plane) s) (seq 0 4) = Some latches /\ length latches = 4%nat /\ bytes_ok latches.
Proof.
  intros Hs Hi. destruct (storage_read_ok (index * 4 + Z.of_nat 0) s Hs ltac:(apply Hi; lia)) as (a & Ha & ?).
  destruct (storage_read_ok (index * 4 + Z.of_nat 1) s Hs ltac:(apply Hi; lia)) as (b & Hb & ?).
  destruct (storage_read_ok (index * 4 + Z.of_nat 2) s Hs ltac:(apply Hi; lia)) as (c & Hc & ?).
  destruct (storage_read_ok (index * 4 + Z.of_nat 3) s Hs ltac:(apply Hi; lia)) as (d & Hd & ?).
  exists [a; b; c; d]. cbn [seq mapM]. rewrite Ha. cbn [mbind option_bind]. rewrite Hb. cbn [mbind option_bind]. rewrite Hc. cbn [mbind option_bind].
  rewrite Hd. split; [done|]. split; [done|]. by repeat (apply Forall_cons_2; [done|]).
Qed.

Lemma read_plane_bound g offset : graphics_ok g -> 0 <= Z.lor (Z.land (read_plane g) 2) (Z.land offset 1) < 4 /\ 0 <= read_plane g < 4.
Proof.
  intros [_ Hg]. assert (0 <= read_plane g <= 3) as Hr.
  { apply masked_bounds; [|lia]. by apply (bank_reg GRAPHICS_MASKS). }
  split; [|lia]. assert (fits 2 (Z.lor (Z.land (read_plane g) 2) (Z.land offset 1))); [|done].
  apply fits_lor; [lia| |]; apply fits_land_r; done || lia.
Qed.

Lemma read_vga_byte_ok address r m : memory_ok m -> registers_ok r ->
  exists value latches', read_vga_byte address r m = Some (value, mkVideoMemory (storage m) latches') /\ memory_ok (mkVideoMemory (storage m) latches').
Proof.
  intros Hm (_ & _ & Hg & _). pose proof Hm as (Hs & Hl & Hb). unfold read_vga_byte.
  destruct (gfx_memory_offset _ _) as [offset|]; [|exists 255, (latches m); by destruct m].
  destruct (latched_ok (vga_index offset r) (storage m) Hs (plane_address_ok offset r)) as (latched & Hlatched & Hlen & Hbytes).
  rewrite Hlatched. cbn [mbind option_bind]. destruct (compare_reads _); [by eexists _, latched|].
  assert (forall plane, 0 <= plane < 4 -> exists value, latched !! Z.to_nat plane = Some value) as Hplane
    by (intros plane Hp; apply lookup_lt_is_Some_2; lia).
  pose proof (read_plane_bound (graphics r) offset Hg) as [? ?].
  assert (0 <= Z.land offset 3 < 4) by (assert (0 <= Z.land offset 3 <= 3) by (apply masked_bounds; [apply land_masked|lia]); lia).
  match goal with |- context [latched !! Z.to_nat ?p] => destruct (Hplane p) as [value ->]; [by repeat case_match|] end.
  by exists value, latched.
Qed.

Lemma write_data_ok v l g : graphics_ok g -> bytes_ok l -> bytes_ok (write_data v l g).
Proof.
  intros [_ Hg] Hl. unfold write_data. case_match; [done|]. apply Forall_lookup. intros i x. rewrite list_lookup_imap.
  destruct (l !! i) as [latch|] eqn:Ei; [|done]. intros [= <-]. pose proof (Forall_lookup_1 _ _ _ _ Hl Ei). unfold write_plane.
  assert (fits 8 (reg (gfx_values g) 8)) by (apply masked_fits; [lia|]; by apply (bank_reg GRAPHICS_MASKS)).
  apply fits_lor; [lia| |]; [apply fits_land_r; [lia|]; by apply fits_land_l|by apply fits_land_l].
Qed.

Lemma write_selected_ok held index planes values s : (forall plane, 0 <= plane < 4 -> 0 <= index * 4 + plane < VIDEO_MEMORY_BYTES) ->
  bytes_ok values -> storage_ok s -> forall plane, 0 <= plane -> plane + Z.of_nat (length values) <= 4 ->
  exists s', write_selected held index planes plane values s = Some s' /\ evolves held s s'.
Proof.
  intros Hi Hv. revert s. induction Hv as [|v values Hfit _ IH]; intros s Hs plane Hp Hlen; cbn [write_selected length] in *.
  - exists s. split; [done|]. by apply evolves_refl.
  - assert (exists s', (if has planes (Z.shiftl 1 plane) then storage_write held (index * 4 + plane) v s else Some s) = Some s'
      /\ evolves held s s') as (s' & -> & He).
    { case_match; [apply storage_write_ok; [done|apply Hi; lia|done]|]. exists s. split; [done|]. by apply evolves_refl. }
    cbn [mbind option_bind]. destruct (IH s' (proj1 He) (plane + 1)) as (s'' & -> & He'); [lia..|].
    exists s''. split; [done|]. by eapply evolves_trans.
Qed.
Lemma length_write_data v l g : length (write_data v l g) = length l.
Proof. unfold write_data. case_match; [done|]. apply length_imap. Qed.

Lemma write_vga_byte_ok held address value r m : memory_ok m -> registers_ok r ->
  exists s', write_vga_byte held address value r m = Some (mkVideoMemory s' (latches m)) /\ evolves held (storage m) s'.
Proof.
  intros (Hs & Hl & Hb) (_ & _ & Hg & _). unfold write_vga_byte.
  destruct (gfx_memory_offset _ _) as [offset|]; [|exists (storage m); split; [by destruct m|by apply evolves_refl]].
  destruct (write_selected_ok held (vga_index offset r) (write_planes offset (sequencer r)) (write_data value (latches m) (graphics r)) (storage m)
    (plane_address_ok offset r) (write_data_ok _ _ _ Hg Hb) Hs 0) as (s' & -> & He); [lia|rewrite length_write_data, Hl; lia|].
  by exists s'.
Qed.

Lemma vram_access_ok s r d : registers_ok r -> dispi_ok d -> access_ok (vram_access s r d).
Proof.
  intros Hr (_ & _ & _ & _ & Hb & _). unfold vram_access, bank_mapping. case_match; [done|].
  destruct (enabled d); cbn; [|done]. by exists (bank d).
Qed.
Lemma bank_offset_ok start address offset : access_ok (AccessSvgaBank start) -> bank_memory_offset start address = Some offset ->
  0 <= offset < VIDEO_MEMORY_BYTES.
Proof.
  intros (bank & -> & Hb). unfold bank_memory_offset. destruct (_ && _) eqn:E; [|done]. intros [= <-].
  apply andb_true_iff in E as [? ?]. breflect. unfold BANK_BYTES, BANK_START, VIDEO_MEMORY_BYTES in *. lia.
Qed.

Lemma vram_read_byte_ok address a m : access_ok a -> memory_ok m ->
  exists value latches', vram_read_byte address a m = Some (value, mkVideoMemory (storage m) latches') /\ memory_ok (mkVideoMemory (storage m) latches').
Proof.
  intros Ha Hm. assert (mkVideoMemory (storage m) (latches m) = m) as Hid by (by destruct m).
  destruct a as [|r|start]; cbn [vram_read_byte]; [by exists 255, (latches m); rewrite Hid|by apply read_vga_byte_ok|].
  destruct (bank_memory_offset start address) as [offset|] eqn:E; [|by exists 255, (latches m); rewrite Hid].
  destruct (storage_read_ok offset (storage m) (proj1 Hm) (bank_offset_ok _ _ _ Ha E)) as (value & -> & _).
  exists value, (latches m). by rewrite Hid.
Qed.
Lemma vram_write_byte_ok held address value a m : access_ok a -> memory_ok m -> fits 8 value ->
  exists s', vram_write_byte held address value a m = Some (mkVideoMemory s' (latches m)) /\ evolves held (storage m) s'.
Proof.
  intros Ha Hm Hv. pose proof (evolves_refl held _ (proj1 Hm)) as Hrefl.
  destruct a as [|r|start]; cbn [vram_write_byte]; [exists (storage m); by destruct m|by apply write_vga_byte_ok|].
  destruct (bank_memory_offset start address) as [offset|] eqn:E; [|exists (storage m); by destruct m].
  destruct (storage_write_ok held offset value (storage m) (proj1 Hm) (bank_offset_ok _ _ _ Ha E) Hv) as (s' & -> & He).
  by exists s'.
Qed.

(** A transfer whose bytes fit a register and whose addresses fit 32 bits. *)
Definition vram_legal (address bytes : Z) : Prop := 0 <= bytes <= 8 /\ address + bytes <= 2 ^ 32.
(** Memory in which a read has set the latches. *)
Definition latched_from (m m' : VideoMemory) : Prop := storage m' = storage m /\ memory_ok m'.

Lemma vram_read_bytes_ok n address a m : access_ok a -> memory_ok m ->
  panics_only (2 ^ 32 < address + Z.of_nat n) (fun p => latched_from m p.2) (vram_read_bytes n address a m).
Proof.
  intros Ha. revert address m. induction n as [|n IH]; intros address m Hm; cbn [vram_read_bytes]; [done|].
  apply panics_only_guard; [lia|]. intros Hlt. destruct (vram_read_byte_ok address a m Ha Hm) as (value & l & -> & Hm'). cbn [mbind option_bind].
  eapply panics_only_bind; [eapply panics_only_if; [exact (IH (address + 1) _ Hm')|lia]|]. by intros [? m'] [? ?].
Qed.
Lemma vram_read_ok address bytes a m : access_ok a -> memory_ok m ->
  panics_only (~ vram_legal address bytes) (fun p => latched_from m p.2) (vram_read address bytes a m).
Proof.
  intros Ha Hm. unfold vram_read, vram_legal. apply panics_only_guard; [lia|]. intros Hb.
  eapply panics_only_bind; [eapply panics_only_if; [exact (vram_read_bytes_ok (Z.to_nat bytes) address a m Ha Hm)|lia]|]. by intros [? m'].
Qed.
Lemma vram_write_bytes_ok held address bytes a m : bytes_ok bytes -> access_ok a -> memory_ok m ->
  panics_only (2 ^ 32 < address + Z.of_nat (length bytes)) (fun m' => latches m' = latches m /\ evolves held (storage m) (storage m'))
    (vram_write_bytes held address bytes a m).
Proof.
  intros Hb Ha. revert address m. induction Hb as [|b bytes Hb _ IH]; intros address m Hm; cbn [vram_write_bytes].
  - split; [done|]. by apply evolves_refl, Hm.
  - apply panics_only_guard; [cbn; lia|]. intros Hlt. destruct (vram_write_byte_ok held address b a m Ha Hm Hb) as (s' & -> & He).
    cbn [mbind option_bind]. assert (memory_ok (mkVideoMemory s' (latches m))) as Hm' by (split; [apply He|apply Hm]).
    eapply panics_only_mono; [| |exact (IH (address + 1) _ Hm')]; [cbn; lia|]. intros m' [Hl He']. split; [done|]. by eapply evolves_trans.
Qed.
Lemma vram_write_ok held address bytes value a m : access_ok a -> memory_ok m ->
  panics_only (~ vram_legal address bytes) (fun m' => latches m' = latches m /\ evolves held (storage m) (storage m'))
    (vram_write held address bytes value a m).
Proof.
  intros Ha Hm. unfold vram_write, vram_legal. apply panics_only_guard; [lia|]. intros Hb.
  eapply panics_only_if; [exact (vram_write_bytes_ok held address (to_le_bytes (Z.to_nat bytes) value) a m (to_le_bytes_ok _ _) Ha Hm)|].
  rewrite length_to_le_bytes. lia.
Qed.

(** ** Dirty pages *)

Lemma trailing_zeros_lt z : 0 < z -> fits 64 z -> 0 <= trailing_zeros 64 z < 64.
Proof.
  intros Hz Hf. split; [by apply trailing_zeros_nonneg|]. apply Z.nle_gt. intros Hge.
  pose proof (trailing_zeros_set 64 z Hz) as Hset. by rewrite (fits_testbit 64) in Hset.
Qed.

(** The lowest run of ones of [p]. *)
Lemma lowest_run p start stop : 0 < p -> fits 64 p -> start = trailing_zeros 64 p ->
  stop = start + trailing_ones 64 (Z.shiftr p start) ->
  0 <= start < stop /\ stop <= 64 /\ (forall i, 0 <= i < start -> Z.testbit p i = false)
  /\ (forall i, start <= i < stop -> Z.testbit p i = true).
Proof.
  intros Hp Hf -> ->. pose proof (trailing_zeros_lt p Hp Hf) as Hs. set (start := trailing_zeros 64 p) in *.
  assert (fits 64 (Z.shiftr p start)) as Hf'.
  { apply fits_of_bits; [lia|]. intros i Hi. rewrite Z.shiftr_spec by lia. by apply (fits_testbit 64); [|lia]. }
  assert (Z.testbit p start = true) as Hset by (by apply trailing_zeros_set).
  assert (0 < trailing_ones 64 (Z.shiftr p start) <= 64 - start) as Hrun; [split|].
  - apply Z.nle_gt. intros Hle. unfold trailing_ones in Hle.
    pose proof (trailing_zeros_nonneg 64 (bnot 64 (Z.shiftr p start)) ltac:(lia)) as Hge.
    assert (trailing_zeros 64 (bnot 64 (Z.shiftr p start)) = 0) as H0 by lia.
    pose proof (fits_bnot 64 _ ltac:(lia) Hf') as [Hb _]. destruct (Z.eq_dec (bnot 64 (Z.shiftr p start)) 0) as [Hz|Hz]; [by rewrite Hz in H0|].
    pose proof (trailing_zeros_set 64 _ (ltac:(lia) : 0 < bnot 64 (Z.shiftr p start))) as H. rewrite H0, testbit_bnot, Z.shiftr_spec in H by lia.
    by rewrite Z.add_0_l, Hset in H.
  - apply Z.nlt_ge. intros Hlt. pose proof (trailing_ones_testbit 64 (Z.shiftr p start) (64 - start) ltac:(lia) Hf') as H.
    destruct (decide (start = 0)) as [E|].
    + rewrite E in *. unfold trailing_ones in *. pose proof (fits_bnot 64 _ ltac:(lia) Hf') as Hb.
      destruct (Z.eq_dec (bnot 64 (Z.shiftr p 0)) 0) as [Hz|Hz]; [rewrite Hz in Hlt; cbn in Hlt; lia|].
      pose proof (trailing_zeros_lt (bnot 64 (Z.shiftr p 0)) ltac:(destruct Hb; lia) Hb). lia.
    + rewrite Z.shiftr_spec in H by lia. rewrite (fits_testbit 64 p) in H by (done || lia). discriminate H; lia.
  - split; [lia|]. split; [lia|]. split.
    + intros i Hi. apply (trailing_zeros_testbit 64); [lia|done].
    + intros i Hi. pose proof (trailing_ones_testbit 64 (Z.shiftr p start) (i - start) ltac:(lia) Hf' ltac:(lia) ltac:(lia)) as H.
      rewrite Z.shiftr_spec in H by lia. by replace (i - start + start) with i in H by lia.
Qed.

Definition range_has (offset : Z) (range : Z * Z) : Prop := range.1 <= offset < range.2.

(** The ranges hold the offsets of the set pages and stay within the block. *)
Lemma page_ranges_cover fuel p : fits 64 p -> (forall i, 0 <= i < 64 - Z.of_nat fuel -> Z.testbit p i = false) ->
  (forall offset, in_block offset -> Z.testbit p (offset / PAGE_BYTES) = true <-> Exists (range_has offset) (page_ranges fuel p))
  /\ Forall (fun range => 0 <= range.1 <= range.2 /\ range.2 <= BLOCK_BYTES) (page_ranges fuel p).
Proof.
  revert p. induction fuel as [|fuel IH]; intros p Hf Hlow; cbn [page_ranges].
  { split; [|constructor]. intros o Ho. rewrite Exists_nil. rewrite Hlow; [done|].
    unfold in_block, BLOCK_BYTES, PAGE_BYTES in *. divlia. }
  destruct (Z.eqb_spec p 0) as [->|Hp]; [split; [|constructor]; intros; by rewrite Z.testbit_0_l, Exists_nil|].
  assert (0 < p) as Hpos by (destruct Hf; lia).
  set (start := trailing_zeros 64 p). set (stop := start + trailing_ones 64 (Z.shiftr p start)).
  destruct (lowest_run p start stop Hpos Hf eq_refl eq_refl) as (Hs & Hstop & Hzero & Hone).
  set (rest := if stop =? 64 then 0 else Z.land p (wrap 64 (Z.shiftl (Z.ones 64) stop))).
  assert (fits 64 rest) as Hrest by (unfold rest; case_match; [done|by apply fits_land_l]).
  assert (forall i, 0 <= i < 64 -> Z.testbit rest i = Z.testbit p i && (stop <=? i)) as Hbits.
  { intros i Hi. unfold rest. destruct (Z.eqb_spec stop 64) as [E|].
    - rewrite Z.testbit_0_l, (proj2 (Z.leb_gt _ _)) by lia. by rewrite andb_false_r.
    - rewrite Z.land_spec, testbit_wrap, testbit_shiftl by lia. rewrite (proj2 (Z.ltb_lt i 64)) by lia.
      destruct (Z.leb_spec stop i); [|done]. rewrite Z.ones_spec_low by lia. done. }
  destruct (IH rest Hrest) as [Hcover Hin].
  { intros i Hi. rewrite Hbits by lia. destruct (Z.leb_spec stop i); [|by rewrite andb_false_r].
    rewrite andb_true_r. destruct (decide (i < start)); [apply Hzero; lia|].
    assert (start < 64 - Z.of_nat fuel) by lia. destruct (decide (start < 64 - Z.of_nat (S fuel))) as [Hlt|].
    - assert (Z.testbit p start = true) by (apply Hone; lia). rewrite Hlow in H1 by lia. done.
    - lia. }
  split.
  - intros o Ho. rewrite Exists_cons, <- Hcover by done. unfold in_block, BLOCK_BYTES, range_has, PAGE_BYTES in *. cbn [fst snd].
    rewrite Hbits by divlia. rewrite andb_true_iff, Z.leb_le. split.
    + intros Ht. destruct (decide (o / 1024 < stop)); [left|right; split; [done|lia]].
      destruct (decide (o / 1024 < start)); [|divlia]. rewrite Hzero in Ht; [done|divlia].
    + intros [Hr|[? _]]; [|done]. apply Hone. divlia.
  - constructor; [cbn; unfold PAGE_BYTES, BLOCK_BYTES; lia|done].
Qed.

(** Deciding whether bytes differ: [b] may differ from [a] in the pages only. *)
Definition agree (h : gmap Arc Block) (dirty : DirtyPages) (a b : MemorySnapshot) : Prop :=
  forall block x y offset, a !! block = Some x -> b !! block = Some y -> in_block offset ->
  in_page dirty block offset = false -> arc_byte h x offset = arc_byte h y offset.
Definition changes_ok (h : gmap Arc Block) (s : DisplaySnapshot) : Prop :=
  forall changes, sn_changes s = Some changes ->
  Forall (fits 64) (pages changes) /\ length (pages changes) = BLOCKS /\ agree h (pages changes) (sn_memory s) (baseline changes).

(** The renderer's buffer holds the memory it uploaded last. *)
Definition mirrors (h : gmap Arc Block) (g : GpuMemory) : Prop :=
  forall m block arc offset, previous g = Some m -> m !! block = Some arc -> in_block offset ->
  buffer g (Z.of_nat block * BLOCK_BYTES + offset) = arc_byte h arc offset.

Lemma write_buffers (f : Z -> Z) writes buffer address : (forall w b, w ∈ writes -> write_byte w address = Some b -> b = f address) ->
  (Exists (fun w => is_Some (write_byte w address)) writes -> foldl write_buffer buffer writes address = f address)
  /\ (~ Exists (fun w => is_Some (write_byte w address)) writes -> foldl write_buffer buffer writes address = buffer address).
Proof.
  revert buffer. induction writes as [|w writes IH]; intros buffer Hf; cbn [foldl].
  { split; [|done]. by rewrite Exists_nil. }
  destruct (IH (write_buffer buffer w)) as [Hin Hout]; [intros w' b Hw'; apply Hf; by right|].
  rewrite Exists_cons. split.
  - intros [[b Hb]|Hex]; [|by apply Hin]. destruct (decide (Exists (fun w => is_Some (write_byte w address)) writes)) as [|Hno]; [by apply Hin|].
    rewrite Hout by done. unfold write_buffer. rewrite Hb. apply (Hf w); [by left|done].
  - intros Hno. rewrite Hout by tauto. unfold write_buffer.
    destruct (write_byte w address) eqn:E; [|done]. exfalso. apply Hno. left. by eexists.
Qed.

Lemma bytes_from_lookup h arc n offset i : bytes_from h arc n offset !! i =
  if decide (i < n)%nat then Some (arc_byte h arc (offset + Z.of_nat i)) else None.
Proof.
  revert offset i. induction n as [|n IH]; intros offset [|i]; cbn [bytes_from]; try done; [by rewrite Z.add_0_r|].
  change ((_ :: ?l) !! S i) with (l !! i). rewrite IH. replace (offset + 1 + Z.of_nat i) with (offset + Z.of_nat (S i)) by lia.
  by repeat case_decide; try lia.
Qed.
Lemma block_bytes_lookup h arc range i : block_bytes h arc range !! i =
  if decide (Z.of_nat i < range.2 - range.1) then Some (arc_byte h arc (range.1 + Z.of_nat i)) else None.
Proof. unfold block_bytes. rewrite bytes_from_lookup. repeat case_decide; done || lia. Qed.

(** What a block's writes store: its bytes, in the ranges they were asked for. *)
Lemma block_write_byte h arc base range address : range.1 <= range.2 ->
  write_byte (base + range.1, block_bytes h arc range) address =
    if decide (range_has (address - base) range) then Some (arc_byte h arc (address - base)) else None.
Proof.
  intros Hr. unfold write_byte, range_has. cbn [fst snd]. destruct (Z.leb_spec (base + range.1) address).
  - rewrite block_bytes_lookup. rewrite Z2Nat.id by lia. replace (range.1 + (address - (base + range.1))) with (address - base) by lia.
    case_decide; case_decide; (done || lia).
  - by rewrite decide_False by lia.
Qed.

Definition block_ranges (prev : option MemorySnapshot) (s : DisplaySnapshot) (block : nat) (arc : Arc) : list (Z * Z) :=
  if bool_decide ((prev ≫= (fun memory => memory !! block)) = Some arc) then []
  else
    match changes ← sn_changes s;
      guard (is_Some (prev ≫= (fun memory => memory !! block)) /\ (prev ≫= (fun memory => memory !! block)) = baseline changes !! block);; Some changes with
    | Some changes => ranges block (pages changes)
    | None => [(0, BLOCK_BYTES)]
    end.
Lemma block_writes_ranges h prev s block arc :
  block_writes h prev s block arc = (fun range : Z * Z => (Z.of_nat block * BLOCK_BYTES + range.1, block_bytes h arc range)) <$> block_ranges prev s block arc.
Proof. unfold block_writes, block_ranges. repeat case_match; try done. cbn. by rewrite Z.add_0_r. Qed.

Lemma ranges_cover (dirty : DirtyPages) block : Forall (fits 64) dirty ->
  (forall offset, in_block offset -> in_page dirty block offset = true <-> Exists (range_has offset) (ranges block dirty))
  /\ Forall (fun range => 0 <= range.1 <= range.2 /\ range.2 <= BLOCK_BYTES) (ranges block dirty).
Proof.
  intros Hf. assert (fits 64 (nth block dirty 0)) as Hb.
  { destruct (nth_in_or_default block dirty 0) as [Hin| ->]; [|done].
    eapply (Forall_forall (fits 64) dirty); [exact Hf|by apply list_elem_of_In]. }
  apply (page_ranges_cover 64 _ Hb). lia.
Qed.

Lemma block_ranges_ok h prev s block arc : changes_ok h s ->
  Forall (fun range => 0 <= range.1 <= range.2 /\ range.2 <= BLOCK_BYTES) (block_ranges prev s block arc).
Proof.
  intros Hs. unfold block_ranges. case_bool_decide; [constructor|]. case_match eqn:E.
  - apply bind_Some in E as (changes & Hc & E). apply bind_Some in E as (? & _ & [= <-]).
    by apply ranges_cover, (Hs _ Hc).
  - repeat constructor; unfold BLOCK_BYTES; cbn; lia.
Qed.

(** A byte no range holds is in the buffer already. *)
Lemma unwritten_mirrors h g s block arc offset : mirrors h g -> changes_ok h s -> sn_memory s !! block = Some arc -> in_block offset ->
  ~ Exists (range_has offset) (block_ranges (previous g) s block arc) ->
  buffer g (Z.of_nat block * BLOCK_BYTES + offset) = arc_byte h arc offset.
Proof.
  intros Hg Hs Harc Ho Hno. unfold block_ranges in Hno. case_bool_decide as Hsame.
  { apply bind_Some in Hsame as (m & Hm & Hb). by apply (Hg m). }
  destruct (changes ← sn_changes s; _) as [changes|] eqn:E in Hno.
  - apply bind_Some in E as (changes' & Hc & E). apply bind_Some in E as ([Hsome Hbase] & _ & [= <-]).
    destruct (Hs _ Hc) as (Hfit & _ & Hagree). destruct (ranges_cover (pages changes') block Hfit) as [Hcover _].
    rewrite <- Hcover, not_true_iff_false in Hno by done.
    destruct Hsome as [x Hx]. rewrite Hx in Hbase. rewrite (Hagree block arc x offset Harc (eq_sym Hbase) Ho Hno).
    apply bind_Some in Hx as (m & Hm & Hb). by apply (Hg m).
  - exfalso. apply Hno. left. exact Ho.
Qed.

Lemma upload_mirrors h g s : mirrors h g -> changes_ok h s -> mirrors h (upload h s g).1.
Proof.
  intros Hg Hs m block arc offset Hm Harc Ho. cbn in Hm. injection Hm as <-. cbn [upload fst buffer].
  set (f address := arc_byte h (nth (Z.to_nat (address / BLOCK_BYTES)) (sn_memory s) 0) (address mod BLOCK_BYTES)).
  assert (forall b a o, sn_memory s !! b = Some a -> in_block o -> f (Z.of_nat b * BLOCK_BYTES + o) = arc_byte h a o) as Hf.
  { intros b a o Ha Hob. unfold f, in_block, BLOCK_BYTES in *.
    replace ((Z.of_nat b * 65536 + o) / 65536) with (Z.of_nat b) by divlia.
    replace ((Z.of_nat b * 65536 + o) mod 65536) with o by divlia. by rewrite Nat2Z.id, (nth_lookup_Some _ _ _ _ Ha). }
  assert (forall w, w ∈ write_blocks h (previous g) s -> exists b a range, sn_memory s !! b = Some a /\ range ∈ block_ranges (previous g) s b a
    /\ w = (Z.of_nat b * BLOCK_BYTES + range.1, block_bytes h a range)) as Hw.
  { intros w Hin. unfold write_blocks in Hin. apply list_elem_of_In, in_concat in Hin as (l & Hl & Hin).
    apply list_elem_of_In, list_elem_of_lookup in Hl as (b & Hl). rewrite list_lookup_imap in Hl.
    apply fmap_Some in Hl as (a & Ha & ->). rewrite block_writes_ranges in Hin.
    apply list_elem_of_In, list_elem_of_fmap in Hin as (range & -> & Hr). by exists b, a, range. }
  destruct (write_buffers f (write_blocks h (previous g) s) (buffer g) (Z.of_nat block * BLOCK_BYTES + offset)) as [Hin Hout].
  { intros w b Hwin Hb. destruct (Hw w Hwin) as (place & a & range & Ha & Hr & ->).
    pose proof (block_ranges_ok h (previous g) s place a Hs) as Hok. rewrite Forall_forall in Hok. specialize (Hok _ Hr).
    rewrite block_write_byte in Hb by lia. case_decide as Hd; [|done]. injection Hb as <-. unfold range_has in Hd.
    rewrite <- (Hf place a) by (done || (unfold in_block; lia)). f_equal. lia. }
  destruct (decide (Exists (fun w => is_Some (write_byte w (Z.of_nat block * BLOCK_BYTES + offset))) (write_blocks h (previous g) s))) as [He|Hno].
  - rewrite Hin by done. by apply Hf.
  - rewrite Hout by done. apply (unwritten_mirrors h g s); try done. intros Hex. apply Hno. apply Exists_exists in Hex as (range & Hr & Hrange).
    pose proof (block_ranges_ok h (previous g) s block arc Hs) as Hok. rewrite Forall_forall in Hok. specialize (Hok _ Hr).
    apply Exists_exists. exists (Z.of_nat block * BLOCK_BYTES + range.1, block_bytes h arc range). split.
    + unfold write_blocks. apply list_elem_of_In, in_concat. exists (block_writes h (previous g) s block arc). split.
      * apply list_elem_of_In, (list_elem_of_lookup_2 _ block). by rewrite list_lookup_imap, Harc.
      * rewrite block_writes_ranges. apply list_elem_of_In, list_elem_of_fmap. by exists range.
    + rewrite block_write_byte by lia. rewrite decide_True; [by eexists|]. unfold range_has in *. lia.
Qed.

(** ** The invariant *)

Definition vga_ok (v : Vga) : Prop := registers_ok (registers v) /\ dispi_ok (dispi v) /\ setup_ok (setup v) /\ memory_ok (memory v).

Definition store (v : Vga) : Storage := storage (memory v).
Definition lists_of (w : World) : list MemorySnapshot := frame_lists (frame (frames (vga w))) ++ retained w.
(** The pages that may differ from the last published memory. *)
Definition dirty (w : World) : DirtyPages :=
  match pending w with
  | Some p => match sn_changes (display p) with Some changes => pages changes | None => no_pages end
  | None => changed (store (vga w))
  end.
Definition pages_ok (p : DirtyPages) : Prop := Forall (fits 64) p /\ length p = BLOCKS.
Definition frame_ok (s : Storage) (d : DirtyPages) (f : CapturedFrame) : Prop :=
  agree (heap s) d (blocks s) (sn_memory (display f))
  /\ forall changes, sn_changes (display f) = Some changes ->
     pages_ok (pages changes) /\ agree (heap s) (merge (pages changes) d) (blocks s) (baseline changes).
Definition pending_ok (s : Storage) (previous : option CapturedFrame) (p : CapturedFrame) : Prop :=
  changed s = no_pages /\ (exists n, sn_memory (display p) = take n (blocks s))
  /\ match previous with
     | None => sn_changes (display p) = None
     | Some f => exists changes, sn_changes (display p) = Some changes /\ baseline changes = sn_memory (display f) /\ pages_ok (pages changes)
     end.

Record world_ok (w : World) : Prop := {
  ok_vga : vga_ok (vga w);
  ok_held : Forall (Forall (fun arc => arc < allocated (store (vga w)))) (lists_of w);
  ok_captures : Forall (changes_ok (heap (store (vga w)))) (captures w);
  ok_frame : forall f, frame (frames (vga w)) = Some f -> frame_ok (store (vga w)) (dirty w) f /\ changes_ok (heap (store (vga w))) (display f);
  ok_pending : forall p, pending w = Some p -> pending_ok (store (vga w)) (frame (frames (vga w))) p;
  ok_renderers : Forall (mirrors (heap (store (vga w)))) (renderers w) }.

(** *** Transfer along an evolution of the storage *)

Definition keeps (h h' : gmap Arc Block) (m : MemorySnapshot) : Prop := forall arc offset, arc ∈ m -> arc_byte h' arc offset = arc_byte h arc offset.

Lemma evolves_keeps held s s' m : evolves held s s' -> Forall (Forall (fun arc => arc < allocated s)) held -> m ∈ held ->
  keeps (heap s) (heap s') m.
Proof.
  intros (_ & _ & Hk & _) Hheld Hm arc o Ha. apply Hk.
  - apply list_elem_of_In, in_concat. exists m. split; by apply list_elem_of_In.
  - rewrite Forall_forall in Hheld. specialize (Hheld m Hm). rewrite Forall_forall in Hheld. by apply Hheld.
Qed.

Lemma agree_keeps h h' d a b : keeps h h' a -> keeps h h' b -> agree h d a b -> agree h' d a b.
Proof.
  intros Ha Hb H block x y o Hx Hy Ho Hd. rewrite (Ha x), (Hb y) by (by eapply list_elem_of_lookup_2). by eapply H.
Qed.
Lemma changes_keep h h' s : Forall (keeps h h') (snapshot_lists s) -> changes_ok h s -> changes_ok h' s.
Proof.
  intros Hk Hs changes Hc. destruct (Hs _ Hc) as (? & ? & Ha). unfold snapshot_lists in Hk. rewrite Hc in Hk.
  apply Forall_cons_1 in Hk as [Hm Hk]. apply Forall_cons_1 in Hk as [Hb _]. split; [done|]. split; [done|]. by eapply agree_keeps.
Qed.
Lemma mirrors_keep h h' g : (forall m, previous g = Some m -> keeps h h' m) -> mirrors h g -> mirrors h' g.
Proof. intros Hk Hg m block arc o Hm Ha Ho. rewrite (Hk m Hm) by (by eapply list_elem_of_lookup_2). by eapply Hg. Qed.

Lemma agree_prefix h d a b n : agree h d a b -> agree h d (take n a) b.
Proof. intros H block x y o Hx. apply H. by apply lookup_take_Some in Hx as [? _]. Qed.
Lemma agree_self_prefix h d a n : agree h d a (take n a).
Proof. intros block x y o Hx Hy. apply lookup_take_Some in Hy as [Hy _]. by simplify_eq. Qed.
Lemma agree_mono h d d' a b : (forall block o, in_block o -> in_page d' block o = false -> in_page d block o = false) -> agree h d a b -> agree h d' a b.
Proof. intros Hd H block x y o Hx Hy Ho Hp. eapply H; try done. by apply Hd. Qed.

Lemma in_page_merge a b block o : length a = length b -> in_page (merge a b) block o = in_page a block o || in_page b block o.
Proof.
  intros Hl. unfold in_page, merge. rewrite !nth_lookup, lookup_zip_with. destruct (a !! block) as [x|] eqn:Ea; cbn.
  - destruct (lookup_lt_is_Some_2 b block) as [y ->]; [rewrite <- Hl; by eapply lookup_lt_Some|]. cbn. by rewrite Z.lor_spec.
  - rewrite Z.testbit_0_l. apply lookup_ge_None in Ea. rewrite lookup_ge_None_2 by lia. cbn. by rewrite Z.testbit_0_l.
Qed.
Lemma merge_ok a b : pages_ok a -> pages_ok b -> pages_ok (merge a b).
Proof.
  intros [Ha La] [Hb Lb]. split; [|unfold merge; rewrite length_zip_with; lia]. unfold merge. clear La Lb. revert b Hb.
  induction Ha as [|x a Hx _ IH]; intros [|y b] Hb; cbn; try constructor.
  - apply Forall_cons_1 in Hb as [Hy _]. by apply fits_lor.
  - apply IH. by apply Forall_cons_1 in Hb as [_ ?].
Qed.
Lemma no_pages_ok : pages_ok no_pages.
Proof. split; [by apply Forall_replicate|done]. Qed.
Lemma in_no_pages block o : in_page no_pages block o = false.
Proof.
  unfold in_page, no_pages, zeros. rewrite nth_lookup. destruct (_ !! block) as [x|] eqn:E; cbn; [|apply Z.testbit_0_l].
  apply lookup_replicate in E as [-> _]. apply Z.testbit_0_l.
Qed.

(** Places not marked since agree still. *)
Lemma agree_evolves held s s' d m : evolves held s s' -> pages_ok d -> pages_ok (changed s) -> pages_ok (changed s') ->
  Forall (Forall (fun arc => arc < allocated s)) held -> m ∈ held -> length (blocks s) = BLOCKS ->
  agree (heap s) (merge d (changed s)) (blocks s) m -> agree (heap s') (merge d (changed s')) (blocks s') m.
Proof.
  intros He [_ Ld] [_ Lc] [_ Lc'] Hheld Hm Hb Ha block x' y o Hx' Hy Ho Hp. pose proof (evolves_keeps _ _ _ _ He Hheld Hm) as Hk.
  destruct He as (Hok' & _ & _ & He). rewrite in_page_merge in Hp by lia. apply orb_false_iff in Hp as [Hd Hc'].
  destruct (lookup_lt_is_Some_2 (blocks s) block) as [x Hx].
  { rewrite Hb, <- (proj1 Hok'). by eapply lookup_lt_Some. }
  destruct (He _ _ _ _ Hx Hx' Ho Hc') as [Hc ->]. rewrite (Hk y) by (by eapply list_elem_of_lookup_2).
  apply (Ha block); try done. rewrite in_page_merge by lia. by rewrite Hd, Hc.
Qed.

Lemma storage_pages_ok s : storage_ok s -> pages_ok (changed s).
Proof. intros (_ & _ & ? & ? & _). by split. Qed.

(** *** Steps of the execution owner that make no capture *)

Definition quiet (held : list MemorySnapshot) (v v' : Vga) : Prop :=
  vga_ok v' /\ evolves held (store v) (store v') /\ frames v' = frames v.

Lemma in_frame_lists f l : frame (frames (vga f)) = l -> forall m, m ∈ frame_lists l -> m ∈ lists_of f.
Proof. intros <- m Hm. unfold lists_of. apply elem_of_app. by left. Qed.
Lemma frame_memory_in f : sn_memory (display f) ∈ frame_lists (Some f).
Proof. by left. Qed.
Lemma frame_baseline_in f changes : sn_changes (display f) = Some changes -> baseline changes ∈ frame_lists (Some f).
Proof. intros H. unfold frame_lists, snapshot_lists. rewrite H. right. by left. Qed.

Lemma Forall_lists {A} (P : A -> Prop) (l : list A) : (forall x, x ∈ l -> P x) -> Forall P l.
Proof. intros. by apply Forall_forall. Qed.

Lemma in_captures w s m : s ∈ captures w -> m ∈ snapshot_lists s -> m ∈ lists_of w.
Proof.
  intros Hs Hm. unfold lists_of, retained. rewrite !elem_of_app. right. right. left.
  apply list_elem_of_In, in_concat. exists (snapshot_lists s). split; apply list_elem_of_In; [|done]. apply list_elem_of_fmap. by exists s.
Qed.
Lemma in_renderers w g m : g ∈ renderers w -> previous g = Some m -> m ∈ lists_of w.
Proof.
  intros Hg Hm. unfold lists_of, retained. rewrite !elem_of_app. right. right. right. apply list_elem_of_omap. by exists g.
Qed.

Lemma ok_storage w : world_ok w -> storage_ok (store (vga w)).
Proof. intros H. apply (ok_vga w H). Qed.

Lemma quiet_world w v' : world_ok w -> pending w = None -> quiet (lists_of w) (vga w) v' -> world_ok (world_with v' w).
Proof.
  intros Hw Hp (Hv' & He & Hf). pose proof (fun m => evolves_keeps _ _ _ m He (ok_held w Hw)) as Hk.
  assert (lists_of (world_with v' w) = lists_of w) as Hlists by (unfold lists_of, retained; cbn; by rewrite Hf).
  assert (Forall (Forall (fun arc => arc < allocated (store v'))) (lists_of w)) as Hheld'.
  { eapply Forall_impl; [apply (ok_held w Hw)|]. intros l Hl. eapply Forall_impl; [exact Hl|]. destruct He as (_ & ? & _). cbn. intros. lia. }
  pose proof (ok_storage w Hw) as Hstorage. pose proof (storage_pages_ok _ Hstorage) as Hpages.
  pose proof (storage_pages_ok _ (proj1 He)) as Hpages'.
  split; cbn [vga pending captures renderers world_with].
  - done.
  - by rewrite Hlists.
  - apply Forall_lists. intros s Hs. eapply changes_keep; [|by eapply Forall_forall; [apply (ok_captures w Hw)|]].
    apply Forall_lists. intros m Hm. apply Hk. by eapply in_captures.
  - intros f Hframe. rewrite Hf in Hframe. destruct (ok_frame w Hw f Hframe) as [[Hmem Hbase] Hch].
    pose proof (in_frame_lists w _ Hframe) as Hin. unfold dirty in *. cbn [pending world_with vga]. rewrite Hp in *. split; [split|].
    + apply (agree_mono _ (merge no_pages (changed (store v')))).
      { intros block o _ H. rewrite in_page_merge by (rewrite (proj2 Hpages'); done). by rewrite in_no_pages. }
      eapply (agree_evolves (lists_of w)); try done; [apply no_pages_ok|apply Hw|apply Hin, frame_memory_in|apply Hstorage|].
      apply (agree_mono _ (changed (store (vga w)))); [|done].
      intros block o _ H. rewrite in_page_merge in H by (by rewrite (proj2 Hpages)). by rewrite in_no_pages in H.
    + intros changes Hc. destruct (Hbase changes Hc) as [Hok Ha]. split; [done|].
      eapply (agree_evolves (lists_of w)); try done; [apply Hw|by eapply Hin, frame_baseline_in|apply Hstorage].
    + eapply changes_keep; [|exact Hch]. apply Forall_lists. intros m Hm. by apply Hk, Hin.
  - by rewrite Hp.
  - apply Forall_lists. intros g Hg. eapply mirrors_keep; [|by eapply Forall_forall; [apply (ok_renderers w Hw)|]].
    intros m Hm. apply Hk. by eapply in_renderers.
Qed.

Lemma quiet_same held v v' : vga_ok v -> vga_ok v' -> store v' = store v -> frames v' = frames v -> quiet held v v'.
Proof. intros Hv Hv' Hs Hf. split; [done|]. split; [|done]. rewrite Hs. apply evolves_refl, Hv. Qed.

Lemma reconfigure_ok layout port enabled v : vga_ok v -> vga_ok (reconfigure layout port enabled v).
Proof. unfold reconfigure, vga_ok. by case_match. Qed.
Lemma reconfigure_keeps layout port enabled v :
  store (reconfigure layout port enabled v) = store v /\ frames (reconfigure layout port enabled v) = frames v.
Proof. unfold reconfigure. by case_match. Qed.
Lemma quiet_reconfigure held v v' layout port enabled : quiet held v v' -> quiet held v (reconfigure layout port enabled v').
Proof.
  intros (Hv & He & Hf). destruct (reconfigure_keeps layout port enabled v') as [Hs Hf']. split; [by apply reconfigure_ok|].
  by rewrite Hs, Hf'.
Qed.

Lemma access_of_ok v : vga_ok v -> access_ok (access_of v).
Proof. intros (Hr & Hd & _). by apply vram_access_ok. Qed.

Lemma read_mmio_ok held address bytes v : vga_ok v ->
  panics_only (~ vram_legal address bytes) (fun p => quiet held v p.2) (read_mmio address bytes v).
Proof.
  intros Hv. unfold read_mmio. pose proof Hv as (? & ? & ? & Hmem).
  eapply panics_only_bind; [apply vram_read_ok; [by apply access_of_ok|apply Hmem]|]. intros [value m] [Hs Hm]. cbn in Hs, Hm.
  apply quiet_same; done.
Qed.
Lemma mmio_effect_ok others address bytes value v : vga_ok v ->
  panics_only (~ vram_legal address bytes) (quiet (frame_lists (frame (frames v)) ++ others) v) (mmio_effect others address bytes value v).
Proof.
  intros Hv. unfold mmio_effect. pose proof Hv as (? & ? & ? & Hs & Hl).
  eapply panics_only_bind; [apply vram_write_ok; [by apply access_of_ok|done]|]. intros m [Hm He]. split; [|done].
  repeat (split; [done|]). split; [apply He|]. cbn. by rewrite Hm.
Qed.

Lemma with_registers_ok r v : vga_ok v -> registers_ok r -> vga_ok (with_registers r v).
Proof. by intros (? & ? & ? & ?). Qed.
Lemma with_setup_ok s v : vga_ok v -> setup_ok s -> vga_ok (with_setup s v).
Proof. by intros (? & ? & ? & ?). Qed.
Lemma with_dispi_ok d v : vga_ok v -> dispi_ok d -> vga_ok (with_dispi d v).
Proof. by intros (? & ? & ? & ?). Qed.

(** Programming that leaves the memory and the captures alone. *)
Definition programs (v v' : Vga) : Prop := vga_ok v' /\ store v' = store v /\ frames v' = frames v.
Lemma programs_refl v : vga_ok v -> programs v v.
Proof. done. Qed.
Lemma programs_trans v v' v'' : programs v v' -> programs v' v'' -> programs v v''.
Proof. intros (_ & H1 & H2) (H3 & H4 & H5). split; [done|]. by rewrite H4, H5. Qed.
Lemma programs_quiet held v v' : vga_ok v -> programs v v' -> quiet held v v'.
Proof. intros Hv (? & ? & ?). by apply quiet_same. Qed.

Lemma read_port_bytes_ok n port v : vga_ok v -> panics_only False (fun p => programs v p.2) (read_port_bytes n port v).
Proof.
  revert port v. induction n as [|n IH]; intros port v Hv; cbn [read_port_bytes]; [done|].
  apply (panics_only_bind _ (fun p : Z * Vga => programs v p.2)).
  - repeat case_match; try done. eapply panics_only_bind; [by apply regs_read_port_ok, Hv|]. intros [byte r] Hr. split; [|done].
    by apply with_registers_ok.
  - intros [byte v'] Hv'. eapply panics_only_bind; [apply IH, Hv'|]. intros [bytes v''] Hv''. by eapply programs_trans.
Qed.
Lemma port_read_ok held port bytes v : vga_ok v -> panics_only (~ 1 <= bytes <= 4) (fun p => quiet held v p.2) (port_read_effect port bytes v).
Proof.
  intros Hv. unfold port_read_effect. case_match; [case_match; [by apply quiet_same|]; apply panics_only_guard; [lia|]; intros _; by apply quiet_same|].
  apply panics_only_guard; [lia|]. intros _.
  eapply panics_only_bind; [eapply panics_only_if; [exact (read_port_bytes_ok (Z.to_nat bytes) port v Hv)|done]|].
  intros [? v'] Hv'. by apply programs_quiet.
Qed.

Lemma write_port_bytes_ok port bytes v : bytes_ok bytes -> vga_ok v -> panics_only False (programs v) (write_port_bytes port bytes v).
Proof.
  intros Hb. revert port v. induction Hb as [|b bytes Hb _ IH]; intros port v Hv; cbn [write_port_bytes]; [done|].
  apply (panics_only_bind _ (programs v)).
  - pose proof Hv as (Hr & Hd & Hs & Hm). repeat case_match; try done.
    + split; [|done]. by apply with_setup_ok, write_control_ok.
    + split; [|done]. by apply with_setup_ok, write_option_ok.
    + eapply panics_only_bind; [by apply regs_write_port_ok|]. intros r Hr'. split; [|done]. by apply with_registers_ok.
  - intros v' Hv'. eapply panics_only_mono; [done| |apply IH, Hv']. intros v''. by apply programs_trans.
Qed.

Lemma clear_ok held v : vga_ok v -> quiet held v (with_memory (clear_vram (memory v)) v).
Proof.
  intros (Hr & Hd & Hs & Hm & Hl). pose proof (storage_clear_ok held _ Hm) as He. split; [|done].
  repeat (split; [done|]). split; [apply He|done].
Qed.
Lemma port_write_ok held port bytes value v : vga_ok v ->
  panics_only (~ 0 <= bytes <= 4) (quiet held v) (port_write_effect port bytes value v).
Proof.
  intros Hv. unfold port_write_effect. apply (panics_only_bind _ (quiet held v)); [|intros v' Hv'; by apply quiet_reconfigure].
  case_match; [case_match; [|by apply quiet_same]|].
  - eapply panics_only_bind; [eapply panics_only_if; [apply (dispi_write_port_ok port bytes value (dispi v)), Hv|done]|].
    intros [d clear] Hd. pose proof (with_dispi_ok d v Hv Hd) as Hv'.
    destruct clear; [exact (clear_ok held (with_dispi d v) Hv')|by apply quiet_same].
  - apply panics_only_guard; [lia|]. intros _.
    eapply panics_only_mono; [| |exact (write_port_bytes_ok port (to_le_bytes (Z.to_nat bytes) value) v (to_le_bytes_ok _ _) Hv)]; [done|].
    intros v' Hv'. by apply programs_quiet.
Qed.

(** The bytes a restore is given have the types of the saved encodings. *)
Definition encoding_ok (n : nat) (bytes : option (list Z)) : Prop := forall l, bytes = Some l -> bytes_ok l /\ length l = n.
Definition action_ok (a : Action) : Prop :=
  match a with RestoreState core d di => encoding_ok 74 core /\ encoding_ok 773 d /\ encoding_ok 18 di | _ => True end.

(** The transfers of a CPU: bytes of memory that fit a register, below 4 GiB, and
    one to four bytes of ports. *)
Definition legal (a : Action) : Prop :=
  match a with
  | MmioRead address bytes | MmioWrite address bytes _ => vram_legal address bytes
  | PortRead _ bytes | PortWrite _ bytes _ => 1 <= bytes <= 4
  | _ => True
  end.

Lemma restore_effect_ok held core d di v : vga_ok v ->
  (forall c, core = Some c -> core_ok c /\ bytes_ok (core_latches c)) ->
  (forall s, d = Some s -> dac_ok (state_dac s) /\ 0 <= state_color_select s <= 15) -> (forall s, di = Some s -> dispi_ok s) ->
  quiet held v (restore_effect core d di v).
Proof.
  intros Hv Hc Hd Hdi. unfold restore_effect. apply quiet_reconfigure.
  set (v1 := match core with Some c => core_restore_state c v | None => v end).
  set (v2 := match d with Some d => with_registers (dac_restore d (registers v1)) v1 | None => v1 end).
  assert (vga_ok v1 /\ store v1 = store v /\ frames v1 = frames v) as (H1 & Hs1 & Hf1).
  { unfold v1. destruct core as [c|]; [|done]. destruct (Hc c eq_refl) as [(? & ? & ? & Ha & Hset & Hl & ? & ? & _) Hb].
    destruct Hv as (Hr & Hdi' & _ & Hm). split; [|done]. split; [|split; [done|split; [done|by split; [apply Hm|]]]].
    pose proof Hr as (_ & _ & _ & [_ Ha'] & Hdac & _ & _). cbn.
    unfold core_restore, registers_ok. cbn [crtc sequencer graphics attribute dac miscellaneous feature_control].
    repeat (split; [done|]). split; [|done]. apply color_select_ok; [|done]. by apply (bank_reg ATTRIBUTE_MASKS). }
  assert (vga_ok v2 /\ store v2 = store v /\ frames v2 = frames v) as (H2 & Hs2 & Hf2).
  { unfold v2. destruct d as [s|]; [|done]. destruct (Hd s eq_refl) as [? Hcs]. split; [|done]. apply with_registers_ok; [done|].
    destruct H1 as ((? & ? & ? & ? & ? & ? & ?) & _). unfold dac_restore, registers_ok, with_attribute, with_dac. cbn.
    repeat (split; [done|]). split; [|done]. apply color_select_ok; [|done]. change 15 with (Z.ones 4). unfold masked.
    rewrite <- wrap_land by lia. apply wrap_small. unfold fits. lia. }
  destruct di as [s|]; [|by apply quiet_same]. apply quiet_same; try done. apply with_dispi_ok; [done|]. by apply Hdi.
Qed.
Lemma decode_class_ok {A} (ok : A -> Prop) (decode : list Z -> option (option A)) n bytes : encoding_ok n bytes ->
  (forall l, bytes_ok l -> length l = n -> panics_only False (fun d => forall d', d = Some d' -> ok d') (decode l)) ->
  panics_only False (fun d => forall d', d = Some (Some d') -> ok d') (decode_class decode bytes).
Proof.
  intros Hb Hd. unfold decode_class. destruct bytes as [l|]; [|done]. destruct (Hb l eq_refl) as [Hl Hn].
  eapply panics_only_bind; [by apply Hd|]. intros [d|] H d' E; [injection E as <-; by apply H|done].
Qed.
Lemma restore_action_ok held core d di v : vga_ok v -> action_ok (RestoreState core d di) ->
  panics_only False (quiet held v) (restore_action core d di v).
Proof.
  intros Hv (Hc & Hd & Hdi). unfold restore_action.
  eapply panics_only_bind; [exact (decode_class_ok _ _ 74 core Hc core_from_ok)|]. intros core' Hcore.
  eapply panics_only_bind; [exact (decode_class_ok (fun s => dac_ok (state_dac s) /\ 0 <= state_color_select s <= 15)
    (fun bytes => Some (dac_state_from_bytes bytes)) 773 d Hd (fun l Hl Hn s => dac_from_ok l s Hl Hn))|].
  intros d' Hd'. eapply panics_only_bind; [exact (decode_class_ok dispi_ok _ 18 di Hdi (fun l Hl _ => dispi_from_ok l Hl))|].
  intros di' Hdi'. cbn [panics_only]. repeat (case_match; [|by apply quiet_same]). subst.
  apply restore_effect_ok; [done|intros x ->..]; [by apply Hcore|by apply Hd'|by apply Hdi'].
Qed.

(** *** Captures *)

Lemma elem_lists_of w m : m ∈ lists_of w <->
  m ∈ frame_lists (frame (frames (vga w))) \/ m ∈ frame_lists (pending w)
  \/ (exists s, s ∈ captures w /\ m ∈ snapshot_lists s) \/ exists g, g ∈ renderers w /\ previous g = Some m.
Proof.
  unfold lists_of, retained. rewrite !elem_of_app, list_elem_of_omap. do 2 apply or_iff_compat_l. apply or_iff_compat_r.
  rewrite list_elem_of_In, in_concat. split.
  - intros (l & Hl & Hm). apply list_elem_of_In, list_elem_of_fmap in Hl as (s & -> & Hs). exists s. split; [done|by apply list_elem_of_In].
  - intros (s & Hs & Hm). exists (snapshot_lists s). split; apply list_elem_of_In; [|done]. apply list_elem_of_fmap. by exists s.
Qed.

Definition bounded (v : Vga) (m : MemorySnapshot) : Prop := Forall (fun arc => arc < allocated (store v)) m.
Lemma held_bounded w m : world_ok w -> m ∈ lists_of w -> bounded (vga w) m.
Proof. intros Hw Hm. exact (proj1 (Forall_forall _ _) (ok_held w Hw) m Hm). Qed.
Lemma prefix_bounded v n : storage_ok (store v) -> bounded v (take n (blocks (store v))).
Proof. intros (_ & H & _). by apply Forall_take. Qed.

Lemma dirty_ok w : world_ok w -> pages_ok (dirty w).
Proof.
  intros Hw. unfold dirty. destruct (pending w) as [p|] eqn:Ep; [|by apply storage_pages_ok, ok_storage].
  destruct (ok_pending w Hw p Ep) as (_ & _ & Hp). destruct (frame (frames (vga w))) as [f|].
  - by destruct Hp as (changes & -> & _ & ?).
  - rewrite Hp. apply no_pages_ok.
Qed.

Lemma snapshot_ok v : vga_ok v -> exists s n, snapshot v = Some s /\ sn_memory s = take n (blocks (store v))
  /\ sn_changes s = (fun f => mkChanges (sn_memory (display f)) (changed (store v))) <$> frame (frames v).
Proof.
  intros (Hr & Hd & _ & Hm & _). unfold snapshot, store. set (scanout := match display_layout _ with Some _ => _ | None => _ end).
  assert (0 <= memory_bytes scanout <= VIDEO_MEMORY_BYTES) as Hb.
  { unfold scanout, display_layout. destruct Hd as (_ & _ & _ & _ & _ & Ha). destruct (active (dispi v)) as [a|]; cbn.
    - pose proof (layout_memory_fits (layout a) ltac:(apply Ha)). lia.
    - unfold VGA_MEMORY_BYTES, BLOCK_BYTES, VIDEO_MEMORY_BYTES. lia. }
  unfold storage_snapshot. destruct Hm as (Hl & _). rewrite Hl.
  rewrite (proj2 (Nat.leb_le _ _)); [eexists _, _; done|]. unfold BLOCKS, BLOCK_BYTES, VIDEO_MEMORY_BYTES in *. divlia.
Qed.

(** A snapshot of a quiet device states its changes since the published frame. *)
Lemma snapshot_changes_ok w s : world_ok w -> pending w = None -> snapshot (vga w) = Some s ->
  changes_ok (heap (store (vga w))) s /\ forall m, m ∈ snapshot_lists s -> bounded (vga w) m.
Proof.
  intros Hw Hp Hs. destruct (snapshot_ok _ (ok_vga w Hw)) as (s' & n & Hs' & Hm & Hc). simplify_eq.
  destruct (frame (frames (vga w))) as [f|] eqn:Ef; cbn in Hc.
  - destruct (ok_frame w Hw f Ef) as [[Hmem _] _]. unfold dirty in Hmem. rewrite Hp in Hmem. split.
    + intros changes Hch. rewrite Hc in Hch. injection Hch as <-. cbn [pages baseline]. destruct (storage_pages_ok _ (ok_storage w Hw)).
      split; [done|]. split; [done|]. rewrite Hm. by apply agree_prefix.
    + unfold snapshot_lists. rewrite Hc, Hm. intros m [->|[->|[]%not_elem_of_nil]%elem_of_cons]%elem_of_cons; [by apply prefix_bounded, ok_storage|].
      apply held_bounded; [done|]. apply elem_lists_of. left. rewrite Ef. apply frame_memory_in.
  - split; [by intros changes; rewrite Hc|]. unfold snapshot_lists. rewrite Hc, Hm.
    intros m [->|[]%not_elem_of_nil]%elem_of_cons. by apply prefix_bounded, ok_storage.
Qed.

(** Readers, renderers and published hints change; the storage does not. *)
Lemma add_capture_ok w s : world_ok w -> (forall s', s = Some s' -> changes_ok (heap (store (vga w))) s' /\ forall m, m ∈ snapshot_lists s' -> bounded (vga w) m) ->
  world_ok (add_capture s w).
Proof.
  intros Hw Hs. split; cbn [add_capture vga pending captures renderers]; try apply Hw.
  - apply Forall_lists. intros m Hm. apply elem_lists_of in Hm as [Hm|[Hm|[(s' & Hs' & Hm)|Hm]]]; cbn in Hm, Hs' || idtac.
    + apply (held_bounded w); [done|]. apply elem_lists_of. by left.
    + apply (held_bounded w); [done|]. apply elem_lists_of. by right; left.
    + apply elem_of_app in Hs' as [Hs'|Hs'].
      * destruct s as [s''|]; [|by apply not_elem_of_nil in Hs']. apply list_elem_of_singleton in Hs' as ->. by apply (Hs s'').
      * apply (held_bounded w); [done|]. apply elem_lists_of. right; right; left. by exists s'.
    + apply (held_bounded w); [done|]. apply elem_lists_of. by right; right; right.
  - apply Forall_app. split; [|apply Hw]. destruct s as [s'|]; [|constructor]. constructor; [by apply Hs|constructor].
Qed.

Lemma clear_changes_ok s : storage_ok s -> storage_ok (clear_changes s).
Proof. intros (? & ? & _ & _ & ?). destruct no_pages_ok. by repeat (split; [done|]). Qed.

(** A capture about to be published starts a new interval of changes. *)
Lemma capture_world_ok w v p : world_ok w -> pending w = None -> snapshot v = Some (display p) ->
  vga_ok v -> store v = store (vga w) -> frames v = frames (vga w) ->
  world_ok (mkWorld (with_memory (mkVideoMemory (clear_changes (storage (memory v))) (latches (memory v))) v) (Some p) (captures w) (renderers w)).
Proof.
  intros Hw Hp Hsnap Hv Hs Hf. assert (world_ok (world_with v w)) as Hw' by (apply quiet_world; [done|done|]; apply quiet_same; [apply Hw|done..]).
  destruct (snapshot_ok v Hv) as (s & n & Hs' & Hm & Hc). rewrite Hsnap in Hs'. injection Hs' as <-.
  destruct (snapshot_changes_ok _ _ Hw' Hp Hsnap) as [Hch Hbounded]. cbn [vga world_with] in Hch, Hbounded.
  pose proof (storage_pages_ok _ (ok_storage _ Hw')) as Hpages. cbn [vga world_with] in Hpages.
  split; cbn [vga pending captures renderers].
  - destruct Hv as (? & ? & ? & ? & ?). repeat (split; [done|]). split; [by apply clear_changes_ok|done].
  - apply Forall_lists. intros m Hin. apply elem_lists_of in Hin as [Hin|[Hin|Hin]]; cbn in Hin.
    + apply (held_bounded _ _ Hw'). apply elem_lists_of. by left.
    + by apply Hbounded.
    + apply (held_bounded _ _ Hw'). apply elem_lists_of. by right; right.
  - exact (ok_captures _ Hw').
  - intros f Hframe. destruct (ok_frame _ Hw' f Hframe) as [[Hmem Hbase] Hchf]. cbn in Hframe. rewrite Hframe in Hc. cbn in Hc.
    unfold dirty in *. cbn [pending world_with vga] in *. rewrite Hp in *. rewrite Hc. by split.
  - intros p' [= <-]. split; [done|]. split; [by exists n|]. cbn. destruct (frame (frames v)) as [f|]; [|done]. by eexists.
  - exact (ok_renderers _ Hw').
Qed.

Lemma sync_capture_ok now w : world_ok w -> pending w = None ->
  match sync_capture now (vga w) with
  | None => update_to now (raster (vga w)) = None
  | Some (v, p) => world_ok (mkWorld v p (captures w) (renderers w)) /\ heap (store v) = heap (store (vga w))
  end.
Proof.
  intros Hw Hp. pose proof (ok_vga w Hw) as Hv. unfold sync_capture. destruct (update_to now _) as [[r retrace]|]; [|done]. cbn [mbind option_bind].
  assert (forall v, vga_ok v -> store v = store (vga w) -> frames v = frames (vga w) ->
    world_ok (mkWorld v None (captures w) (renderers w)) /\ heap (store v) = heap (store (vga w))) as Hsame.
  { intros v Hv' Hs Hf. split; [|by rewrite Hs]. rewrite <- Hp. apply (quiet_world w); [done|done|]. by apply quiet_same. }
  destruct retrace as [time|]; [|by apply Hsame].
  set (v1 := with_raster r (vga w)). set (v2 := if enabled (dispi v1) then v1 else _).
  assert (vga_ok v2 /\ store v2 = store (vga w) /\ frames v2 = frames (vga w)) as (Hv2 & Hs2 & Hf2).
  { unfold v2. case_match; [done|]. split; [|done]. apply with_registers_ok; [done|]. destruct Hv as ((? & ? & ? & ? & ? & ? & ?) & _).
    split; [by apply latch_ok|]. by repeat (split; [done|]). }
  destruct (snapshot_ok v2 Hv2) as (s & n & Hs & _ & _). rewrite Hs. cbn [mbind option_bind].
  destruct (default false _); [by apply Hsame|]. split; [by apply capture_world_ok|]. by rewrite <- Hs2.
Qed.

Lemma agree_merge_l h a b d x y : pages_ok a -> pages_ok b -> pages_ok d -> agree h (merge a b) x y -> agree h (merge (merge b a) d) x y.
Proof.
  intros Ha Hb Hd. apply agree_mono. intros block o _ H. pose proof (merge_ok _ _ Hb Ha) as Hba. destruct Ha as [_ Ha], Hb as [_ Hb], Hd as [_ Hd], Hba as [_ Hba].
  rewrite !in_page_merge in * by lia. apply orb_false_iff in H as [H _]. by rewrite orb_comm.
Qed.

Lemma publish_world_ok w p : world_ok w -> pending w = Some p ->
  exists v, sync_publish (Some p) (vga w) = Some v /\ world_ok (mkWorld v None (captures w) (renderers w)) /\ store v = store (vga w).
Proof.
  intros Hw Hp. pose proof (ok_pending w Hw p Hp) as (Hclean & (n & Hn) & Hprev). pose proof (dirty_ok w Hw) as Hdirty.
  (* The world with any frame whose memory is the pending one's. *)
  assert (forall f source, frame source = Some f -> sn_memory (display f) = sn_memory (display p) ->
    (forall m, m ∈ frame_lists (Some f) -> m ∈ lists_of w) ->
    (forall changes, sn_changes (display f) = Some changes ->
      pages_ok (pages changes) /\ agree (heap (store (vga w))) (pages changes) (blocks (store (vga w))) (baseline changes)) ->
    world_ok (mkWorld (with_frames source (vga w)) None (captures w) (renderers w))) as Hnew.
  { intros f source Hsource Hmem Hlists Hch. split; cbn [vga pending captures renderers]; try apply Hw.
    - apply Forall_lists. intros m Hin. apply (held_bounded w); [done|]. apply elem_lists_of in Hin as [Hin|[Hin|Hin]]; cbn in Hin.
      + rewrite Hsource in Hin. by apply Hlists.
      + by apply not_elem_of_nil in Hin.
      + apply elem_lists_of. by right; right.
    - cbn. intros f' Hf'. rewrite Hsource in Hf'. injection Hf' as <-. unfold dirty. cbn. split; [split|].
      + rewrite Hmem, Hn. apply agree_self_prefix.
      + intros changes Hc. destruct (Hch _ Hc) as [Hok Ha]. split; [done|]. apply (agree_mono _ (pages changes)); [|done].
        intros block o _ H. change (changed (store _)) with (changed (store (vga w))) in H. rewrite Hclean, in_page_merge in H by (by destruct Hok as [_ ->]).
        by apply orb_false_iff in H as [? _].
      + intros changes Hc. destruct (Hch _ Hc) as [[? ?] Ha]. split; [done|]. split; [done|]. rewrite Hmem, Hn. by apply agree_prefix.
    - done. }
  assert (forall m, m ∈ frame_lists (Some p) -> m ∈ lists_of w) as Hlists by (intros m Hm; apply elem_lists_of; right; left; by rewrite Hp).
  unfold sync_publish, publish. destruct (frame (frames (vga w))) as [f|] eqn:Ef; cbn [mbind option_bind].
  - destruct Hprev as (pc & Hpc & Hbase & Hpok). destruct (ok_frame w Hw f Ef) as [[Hmem Hfbase] _].
    assert (dirty w = pages pc) as Hd by (unfold dirty; by rewrite Hp, Hpc). rewrite Hd in *.
    destruct (sn_changes (display f)) as [fc|] eqn:Efc; cbn [mbind option_bind].
    + rewrite Hpc. cbn [mbind option_bind]. eexists. split; [done|]. split; [|done]. eapply Hnew; [done|done|..].
      * intros m [->|[->|[]%not_elem_of_nil]%elem_of_cons]%elem_of_cons; [apply Hlists; exact (frame_memory_in p)|].
        apply elem_lists_of. left. rewrite Ef. exact (frame_baseline_in f fc Efc).
      * intros changes [= <-]. cbn [pages baseline]. destruct (Hfbase fc eq_refl) as [Hfok Ha]. split; [by apply merge_ok|].
        apply (agree_mono _ (merge (pages fc) (pages pc))); [|done]. intros block o _ H. destruct Hpok as [_ L1], Hfok as [_ L2].
        rewrite in_page_merge in * by lia. by rewrite orb_comm.
    + eexists. split; [done|]. split; [|done]. eapply Hnew; [done|done|exact Hlists|]. intros changes Hc. rewrite Hpc in Hc. injection Hc as <-.
      split; [done|]. by rewrite Hbase.
  - eexists. split; [done|]. split; [|done]. eapply Hnew; [done|done|exact Hlists|]. intros changes Hc. by rewrite Hprev in Hc.
Qed.

Lemma take_world_ok w f : world_ok w -> frame (frames (vga w)) = Some f ->
  world_ok (world_with (with_frames (take_capture (frames (vga w))).2 (vga w)) w).
Proof.
  intros Hw Hf. pose proof (dirty_ok w Hw) as [_ Ld]. destruct (ok_frame w Hw f Hf) as [[Hmem _] _].
  split; cbn [vga pending captures renderers world_with]; try apply Hw.
  - apply Forall_lists. intros m Hin. apply (held_bounded w); [done|]. apply elem_lists_of in Hin as [Hin|Hin]; [|apply elem_lists_of; by right].
    apply elem_lists_of. left. cbn in Hin. rewrite Hf in *. cbn in Hin.
    apply elem_of_cons in Hin as [->|[->|[]%not_elem_of_nil]%elem_of_cons]; apply frame_memory_in.
  - intros f' Hf'. cbn in Hf'. rewrite Hf in Hf'. injection Hf' as <-.
    change (dirty (world_with _ w)) with (dirty w). split; [split; [done|]|].
    + intros changes [= <-]. split; [apply no_pages_ok|]. apply (agree_mono _ (dirty w)); [|done]. intros block o _ H.
      rewrite in_page_merge in H by (by rewrite Ld). cbn in H. by rewrite in_no_pages in H.
    + intros changes [= <-]. destruct no_pages_ok. split; [done|]. split; [done|]. cbn. intros block x y o Hx Hy. cbn in *. by simplify_eq.
  - intros p Hp. destruct (ok_pending w Hw p Hp) as (Hc & Hn & Hprev). split; [done|]. split; [done|]. cbn.
    rewrite Hf in *. done.
Qed.

Lemma fewer_ok w cs rs : world_ok w -> (forall s, s ∈ cs -> s ∈ captures w) -> (forall g, g ∈ rs -> g ∈ renderers w) ->
  world_ok (mkWorld (vga w) (pending w) cs rs).
Proof.
  intros Hw Hcs Hrs. split; cbn [vga pending captures renderers]; try apply Hw.
  - apply Forall_lists. intros m Hin. apply (held_bounded w); [done|].
    apply elem_lists_of in Hin as [Hin|[Hin|[(s & Hs & Hin)|(g & Hg & Hin)]]]; apply elem_lists_of; cbn in *; eauto 7.
  - apply Forall_lists. intros s Hs. eapply Forall_forall; [apply (ok_captures w Hw)|]. by apply Hcs.
  - apply Forall_lists. intros g Hg. eapply Forall_forall; [apply (ok_renderers w Hw)|]. by apply Hrs.
Qed.

Lemma renderers_ok w rs : world_ok w ->
  (forall g, g ∈ rs -> mirrors (heap (store (vga w))) g /\ forall m, previous g = Some m -> m ∈ lists_of w) ->
  world_ok (mkWorld (vga w) (pending w) (captures w) rs).
Proof.
  intros Hw Hrs. split; cbn [vga pending captures renderers]; try apply Hw.
  - apply Forall_lists. intros m Hin. apply (held_bounded w); [done|].
    apply elem_lists_of in Hin as [Hin|[Hin|[Hin|(g & Hg & Hin)]]]; cbn in *; [apply elem_lists_of; eauto..|].
    by apply (Hrs g).
  - apply Forall_lists. intros g Hg. by apply Hrs.
Qed.
Lemma upload_world_ok w k s : world_ok w -> s ∈ captures w ->
  world_ok (mkWorld (vga w) (pending w) (captures w) (alter (fun g => (upload (heap (store (vga w))) s g).1) k (renderers w))).
Proof.
  intros Hw Hs. assert (forall g, g ∈ renderers w -> mirrors (heap (store (vga w))) g) as Hmir
    by (intros g Hg; eapply Forall_forall; [apply (ok_renderers w Hw)|done]).
  assert (changes_ok (heap (store (vga w))) s) as Hch by (eapply Forall_forall; [apply (ok_captures w Hw)|done]).
  apply renderers_ok; [done|]. intros g Hg. apply list_elem_of_lookup in Hg as (i & Hi).
  destruct (decide (i = k)) as [->|Hne].
  - rewrite list_lookup_alter_eq in Hi. apply fmap_Some in Hi as (g' & Hg' & ->). apply list_elem_of_lookup_2 in Hg'.
    split; [by apply upload_mirrors; [apply Hmir|]|]. intros m [= <-]. apply (in_captures w s); [done|by left].
  - rewrite list_lookup_alter_ne in Hi by done. apply list_elem_of_lookup_2 in Hi. split; [by apply Hmir|].
    intros m Hm. by eapply in_renderers.
Qed.

Lemma frame_capture_ok w s' : world_ok w -> display <$> frame (frames (vga w)) = Some s' ->
  changes_ok (heap (store (vga w))) s' /\ forall m, m ∈ snapshot_lists s' -> bounded (vga w) m.
Proof.
  intros Hw (f & Hf & ->)%fmap_Some. split; [by apply (ok_frame w Hw f)|]. intros m Hm. apply (held_bounded w); [done|].
  apply elem_lists_of. left. by rewrite Hf.
Qed.

(** The world after an action, in which retained memory is what it was. *)
Definition follows (w w' : World) : Prop :=
  world_ok w' /\ forall m, m ∈ lists_of w -> keeps (heap (store (vga w))) (heap (store (vga w'))) m.
Lemma follows_same w w' : world_ok w' -> heap (store (vga w')) = heap (store (vga w)) -> follows w w'.
Proof. intros Hw Hh. split; [done|]. rewrite Hh. by intros m _ arc o _. Qed.
Lemma quiet_follows w v' : world_ok w -> pending w = None -> quiet (lists_of w) (vga w) v' -> follows w (world_with v' w).
Proof.
  intros Hw Hp Hq. split; [by apply quiet_world|]. intros m Hm. destruct Hq as (_ & He & _).
  eapply evolves_keeps; [exact He|apply (ok_held w Hw)|done].
Qed.

(** Every action keeps the invariant, and only a transfer that is not legal and the
    clock's arithmetic can fail. *)
Lemma exec_ok a w : action_ok a -> world_ok w ->
  panics_only (~ legal a \/ exists now, a = Capture now /\ update_to now (raster (vga w)) = None) (follows w) (exec a w).
Proof.
  intros Ha Hw. pose proof (ok_vga w Hw) as Hv.
  assert (forall E (r : option World), (pending w = None -> panics_only E (follows w) r) ->
    panics_only E (follows w) (if decide (is_Some (pending w)) then Some w else r)) as Howner.
  { intros E r Hr. case_decide as Hp; [by apply follows_same|]. apply Hr. by apply eq_None_not_Some. }
  destruct a as [now| |address bytes|address bytes value|port bytes|port bytes value|core d di| | | |k| |k|k c]; cbn [exec].
  - apply Howner. intros Hp. pose proof (sync_capture_ok now w Hw Hp) as H. destruct (sync_capture _ _) as [[v p]|]; [|by right; exists now].
    destruct H. by apply follows_same.
  - destruct (pending w) as [p|] eqn:Hp.
    + destruct (publish_world_ok w p Hw Hp) as (v & -> & H & Hs). apply follows_same; [exact H|]. cbn. by rewrite Hs.
    + cbn. rewrite <- Hp. apply follows_same; [|done]. by destruct w.
  - apply Howner. intros Hp. eapply panics_only_bind; [eapply panics_only_if; [by apply (read_mmio_ok (lists_of w))|by left]|].
    intros [value v] Hq. by apply quiet_follows.
  - apply Howner. intros Hp. eapply panics_only_bind; [eapply panics_only_if; [by apply (mmio_effect_ok (retained w))|by left]|].
    intros v Hq. by apply quiet_follows.
  - apply Howner. intros Hp. eapply panics_only_bind; [eapply panics_only_if; [by apply (port_read_ok (lists_of w))|by left]|].
    intros [value v] Hq. by apply quiet_follows.
  - apply Howner. intros Hp. eapply panics_only_bind; [eapply panics_only_if; [by apply (port_write_ok (lists_of w))|left; cbn; lia]|].
    intros v Hq. by apply quiet_follows.
  - apply Howner. intros Hp. eapply panics_only_bind; [eapply panics_only_if; [by apply (restore_action_ok (lists_of w))|done]|].
    intros v Hq. by apply quiet_follows.
  - apply Howner. intros Hp. destruct (snapshot_ok _ Hv) as (s & n & Hs & _). rewrite Hs. cbn. apply follows_same; [|done]. apply add_capture_ok; [done|].
    intros s' [= <-]. by apply snapshot_changes_ok.
  - apply follows_same; [|done]. apply add_capture_ok; [done|]. intros s' Hs'. exact (frame_capture_ok w s' Hw Hs').
  - unfold take_capture. apply follows_same; [|done]. apply (add_capture_ok (world_with _ w)).
    + destruct (frame (frames (vga w))) as [f|] eqn:Hf; [pose proof (take_world_ok w f Hw Hf) as H; unfold take_capture in H; by rewrite Hf in H|].
      cbn. destruct w as [[? ? ? ? ? ? [? ? ?]] ? ? ?]. cbn in *. by subst.
    + intros s' Hs'. exact (frame_capture_ok w s' Hw Hs').
  - apply follows_same; [|done]. apply fewer_ok; [done|by intros s ?%list_elem_of_delete_inv|done].
  - apply follows_same; [|done]. apply renderers_ok; [done|]. intros g [->|Hg]%elem_of_cons; [by split; [intros m block arc o|]|].
    split; [by eapply Forall_forall; [apply (ok_renderers w Hw)|]|]. intros m Hm. by eapply in_renderers.
  - apply follows_same; [|done]. apply fewer_ok; [done|done|by intros g ?%list_elem_of_delete_inv].
  - destruct (captures w !! c) as [s|] eqn:Hc; [|by apply follows_same]. apply follows_same; [|done]. apply upload_world_ok; [done|by eapply list_elem_of_lookup_2].
Qed.
