(* ===== verification/VgaTheorems.v ===== *)
(** * The VGA device: properties

    What the device, its captures and its renderers guarantee in every world the
    transitions reach, and the CPU's view of 256-color memory. *)

From S2P Require Import Prelude Bytes Types Bounds Vga VgaRaster VgaMemory VgaDevice VgaState VgaFrames.
Local Open Scope Z_scope.

(** ** Timing of every programmed state *)

Lemma land_fits w v m : 0 <= w -> fits w m -> fits w (Z.land v m).
Proof. apply fits_land_r. Qed.

Lemma crtc_reg_byte i c : crtc_ok c -> (i < 25)%nat -> fits 8 (crtc_reg (Z.of_nat i) c).
Proof.
  intros (_ & H & _) Hi. destruct (lookup_lt_is_Some_2 CRTC_MASKS i Hi) as [m Hm].
  assert (bytes_ok (crtc_values c)) as Hb by (eapply bank_bytes; [|exact H]; masks_fit). by apply reg_byte.
Qed.

Lemma timing_vga_ok r : registers_ok r -> timing_ok (timing_vga r).
Proof.
  intros (Hc & _). pose proof (fun i => crtc_reg_byte i (crtc r) Hc) as Hreg.
  pose proof (Hreg 0%nat ltac:(lia)) as H0. pose proof (Hreg 6%nat ltac:(lia)) as H6. pose proof (Hreg 16%nat ltac:(lia)) as H16.
  change (Z.of_nat 0) with 0 in H0. change (Z.of_nat 6) with 6 in H6. change (Z.of_nat 16) with 0x10 in H16.
  unfold timing_ok, timing_vga. cbn [t_oscillator_hz t_dot_clock_divisor t_horizontal_total t_scanlines_per_vertical_count t_vertical_total t_vertical_retrace_start].
  unfold frame_dots. cbn [t_horizontal_total t_scanlines_per_vertical_count t_vertical_total].
  assert (8 <= dots_per_character (sequencer r) <= 9) by (unfold dots_per_character; case_match; lia).
  assert (1 <= scanlines_per_vertical_count (crtc r) <= 2) by (unfold scanlines_per_vertical_count; case_match; lia).
  assert (1 <= seq_dot_clock_divisor (sequencer r) <= 2) by (unfold seq_dot_clock_divisor; case_match; lia).
  assert (5 <= horizontal_total (crtc r) <= 260) by (unfold horizontal_total, fits in *; lia).
  assert (2 <= vertical_total (crtc r) <= 2 ^ 14).
  { unfold vertical_total. rewrite !Z.shiftl_mul_pow2 by lia.
    assert (fits 1 (Z.land (crtc_reg 7 (crtc r)) 1)) by (apply land_fits; done || lia).
    assert (fits 6 (Z.land (crtc_reg 7 (crtc r)) 0x20)) by (apply land_fits; done || lia). unfold fits in *. lia. }
  assert (0 <= vertical_retrace_start (crtc r)).
  { unfold vertical_retrace_start. rewrite !Z.lor_nonneg, !Z.shiftl_nonneg, !Z.land_nonneg. unfold fits in *. lia. }
  assert (0 <= (if seq_reset_active (sequencer r) then 0 else oscillator_hz r) < NANOS_PER_SECOND).
  { unfold oscillator_hz, NANOS_PER_SECOND. cbn zeta. repeat case_match; lia. }
  assert (1 <= horizontal_total (crtc r) * dots_per_character (sequencer r) <= 2340) as Hline by nia.
  assert (1 <= horizontal_total (crtc r) * dots_per_character (sequencer r) * vertical_total (crtc r) <= 2340 * 2 ^ 14) as Hframe by nia.
  repeat (split; [done || lia|]). split; [|done]. nia.
Qed.






Definition on_time (from : Z) (v : Vga) : Prop := raster_ok (raster v) /\ updated (raster v) <= from.



(** ** Reached worlds *)

Lemma with_clock_ok now : vga_ok (with_clock now).
Proof.
  split; [apply registers_default_ok|]. split; [by repeat split|]. split; [by repeat split|]. split; [|by repeat constructor].
  assert (forall arc o, arc_byte (heap storage_default) arc o = 0) as Hzero.
  { intros arc o. unfold storage_default, storage_on. cbn [heap]. rewrite arc_byte_insert. by case_decide. }
  split; [done|]. split; [by apply Forall_replicate|]. split; [done|]. split; [by apply Forall_replicate|]. intros. by rewrite Hzero.
Qed.
Lemma world_new_ok now : world_ok (world_new now).
Proof. split; try done; [apply with_clock_ok|constructor..]. Qed.
Lemma world_new_on_time now : 0 <= now -> on_time now (vga (world_new now)).
Proof. intros. split; [|done]. split; [by apply timing_vga_ok, registers_default_ok|]. cbn. vm_compute (frame_dots _). vm_compute (phase_denominator _). lia. Qed.

Lemma world_run_ok actions w : Forall action_ok actions -> world_ok w ->
  match run actions w with Some w' => world_ok w' | None => True end.
Proof.
  intros Ha. revert w. induction Ha as [|a actions Ha _ IH]; intros w Hw; cbn [run]; [done|].
  pose proof (exec_ok a w Ha Hw) as He. destruct (exec a w) as [w'|]; [|done]. by apply (IH w'), He.
Qed.
Lemma reached_ok actions now w : Forall action_ok actions -> run actions (world_new now) = Some w -> world_ok w.
Proof. intros Ha Hr. pose proof (world_run_ok actions _ Ha (world_new_ok now)) as H. by rewrite Hr in H. Qed.

(** The place of an address in a renderer's buffer: blocks are stored whole. *)
Definition buffer_address (address : Z) : Z := let '(block, offset) := location address in Z.of_nat block * BLOCK_BYTES + offset.

(** C12 Whatever the guest, the readers and the renderers did before, in any order
    the threads allow, uploading a capture that somebody still holds leaves every
    captured byte of it in the renderer's buffer: the dirty pages that stand in for
    a full upload omit no byte that differs. *)
Theorem uploads_exact actions now w renderer capture g s : Forall action_ok actions -> run actions (world_new now) = Some w ->
  renderers w !! renderer = Some g -> captures w !! capture = Some s ->
  exists w' g', exec (Upload renderer capture) w = Some w' /\ renderers w' !! renderer = Some g' /\
    forall address value, 0 <= address < VIDEO_MEMORY_BYTES -> snapshot_read (heap (store (vga w))) address (sn_memory s) = Some value ->
    buffer g' (buffer_address address) = value.
Proof.
  intros Ha Hr Hg Hs. pose proof (reached_ok _ _ _ Ha Hr) as Hw. cbn [exec]. rewrite Hs. eexists _, _. split; [done|]. cbn [renderers].
  rewrite (list_lookup_alter_eq _ (renderers w)), Hg. split; [done|]. intros address value Hb Hv. pose proof (location_ok address Hb) as [_ Ho].
  unfold snapshot_read, buffer_address in *. destruct (location address) as [block offset]. apply bind_Some in Hv as (arc & Harc & [= <-]).
  assert (mirrors (heap (store (vga w))) (upload (heap (store (vga w))) s g).1) as Hm.
  { apply upload_mirrors; eapply Forall_forall; [apply (ok_renderers w Hw)|by eapply list_elem_of_lookup_2|apply (ok_captures w Hw)|by eapply list_elem_of_lookup_2]. }
  by apply (Hm (sn_memory s)).
Qed.

Definition discards (a : Action) : bool := match a with Discard _ => true | _ => false end.
Lemma exec_captures a w w' s : discards a = false -> exec a w = Some w' -> s ∈ captures w -> s ∈ captures w'.
Proof.
  intros Hd He Hs. destruct a; cbn [exec discards] in *; try case_decide; try discriminate Hd;
    try (injection He as <-; cbn; try (apply elem_of_app; right); exact Hs).
  - apply bind_Some in He as ([? ?] & _ & [= <-]). exact Hs.
  - apply bind_Some in He as (? & _ & [= <-]). exact Hs.
  - apply bind_Some in He as ([? ?] & _ & [= <-]). exact Hs.
  - apply bind_Some in He as (? & _ & [= <-]). exact Hs.
  - apply bind_Some in He as ([? ?] & _ & [= <-]). exact Hs.
  - apply bind_Some in He as (? & _ & [= <-]). exact Hs.
  - apply bind_Some in He as (? & _ & [= <-]). exact Hs.
  - apply bind_Some in He as (? & _ & [= <-]). cbn. by right.
  - case_match; injection He as <-; exact Hs.
Qed.

(** C17 A capture a reader keeps never changes: whatever follows, every byte of it
    reads as it did, though the guest writes on to the memory it shares. *)
Theorem captures_immutable before now w after w' s : Forall action_ok (before ++ after) -> run before (world_new now) = Some w ->
  run after w = Some w' -> forallb (negb ∘ discards) after = true -> s ∈ captures w ->
  s ∈ captures w' /\ forall address, snapshot_read (heap (store (vga w'))) address (sn_memory s) = snapshot_read (heap (store (vga w))) address (sn_memory s).
Proof.
  intros [Hb Ha]%Forall_app Hr. pose proof (reached_ok _ _ _ Hb Hr) as Hw. clear Hb Hr. revert w Hw.
  induction Ha as [|a after Ha _ IH]; intros w Hw Hrun Hkeep Hs; cbn [run forallb] in *; [by simplify_eq|].
  apply bind_Some in Hrun as (w1 & He & Hrun). apply andb_true_iff in Hkeep as [Hd Hkeep]. apply negb_true_iff in Hd.
  pose proof (exec_ok a w Ha Hw) as Hf. rewrite He in Hf. destruct Hf as [Hw1 Hkeeps].
  destruct (IH w1 Hw1 Hrun Hkeep (exec_captures _ _ _ _ Hd He Hs)) as [Hin Hsame]. split; [done|]. intros address. rewrite Hsame.
  unfold snapshot_read. destruct (location address) as [block offset]. destruct (sn_memory s !! block) as [arc|] eqn:Harc; [|done]. cbn. f_equal.
  apply (Hkeeps (sn_memory s)); [by apply (in_captures w s); [|left]|by eapply list_elem_of_lookup_2].
Qed.




(** A transfer that no CPU makes does panic: the slices of its bytes, the shift for
    an absent adapter, and the addresses past 32 bits. *)
Example read_of_nine_bytes : exec (MmioRead 0xa0000 9) (world_new 0) = None.
Proof. done. Qed.
Example read_past_the_addresses : exec (MmioRead 0xfffffffe 4) (world_new 0) = None.
Proof. done. Qed.
Example port_read_of_five_bytes : exec (PortRead 0x3c0 5) (world_new 0) = None.
Proof. done. Qed.
Example port_write_of_five_bytes : exec (PortWrite 0x3c0 5 0) (world_new 0) = None.
Proof. done. Qed.
Example absent_adapter_read_of_no_bytes : run [PortWrite 0x46e8 1 0; PortRead 0x1ce 0] (world_new 0) = None.
Proof. done. Qed.

(** C18 The three encodings of the programming state decode to the state they were
    made from, in every device the guest can program. *)
Theorem programming_roundtrip actions now w : Forall action_ok actions -> run actions (world_new now) = Some w ->
  core_from_bytes (core_to_bytes (core_state (vga w))) = Some (Some (core_state (vga w)))
  /\ dac_state_from_bytes (dac_state_to_bytes (dac_state_of (vga w))) = Some (dac_state_of (vga w))
  /\ dispi_from_state_bytes (dispi_to_state_bytes (dispi (vga w))) = Some (Some (dispi (vga w))).
Proof.
  intros Ha Hr. pose proof (reached_ok _ _ _ Ha Hr) as Hw. destruct (ok_vga w Hw) as ((Hc & Hs & Hg & Hat & Hd & Hm & Hf) & Hdi & Hset & _ & Hl & Hlb).
  split; [|split].
  - apply core_roundtrip. unfold core_ok, core_state, core_capture.
    cbn [core_crtc core_sequencer core_graphics core_attribute core_setup core_latches core_miscellaneous core_feature_control].
    repeat (split; [done|]). split; [by apply color_select_ok|]. repeat (split; [done|]).
    unfold set_color_select, reg, set_reg. cbn [at_values]. rewrite nth_lookup. destruct Hat as [_ Hat]. apply bank_length in Hat.
    change (length ATTRIBUTE_MASKS) with 21%nat in Hat. by rewrite list_lookup_insert_eq by (unfold COLOR_SELECT; lia).
  - apply dac_roundtrip; [done|]. cbn. apply masked_bounds; [|lia]. destruct Hat as [_ Hat]. by apply (bank_reg ATTRIBUTE_MASKS).
  - by apply dispi_roundtrip.
Qed.

(** C20 Advancing the raster in two steps is advancing it in one: the position, its
    fraction of a dot, the count of retraces and the time of the latest one are the
    same, so how often the device is serviced does not show. *)
Theorem update_to_compose r t1 t2 r1 e1 r2 e2 : raster_ok r -> updated r <= t1 <= t2 -> t2 < 2 ^ 63 ->
  update_to t1 r = Some (r1, e1) -> update_to t2 r1 = Some (r2, e2) ->
  update_to t2 r = Some (r2, match e2 with Some _ => e2 | None => e1 end).
Proof.
  intros Hok H12 H2 H1 Hr2. destruct (update_to_ok t1 r Hok ltac:(lia)) as (r1' & e1' & Hup & Hok1 & Ht & Hu).
  rewrite H1 in Hup. injection Hup as <- <-.
  destruct (clock_running (timing r)) eqn:Hrun.
  - assert (0 < t_oscillator_hz (timing r)) as Ho.
    { unfold clock_running in Hrun. breflect. destruct Hok as ((? & _) & _). lia. }
    rewrite update_to_advanced in H1 by (done || lia). rewrite (update_to_advanced t2 r1) in Hr2 by (rewrite ?Ht; done || lia).
    rewrite update_to_advanced by (done || lia). pose proof (advanced_split t1 t2 r Hok ltac:(lia) H2 Ho) as Hs.
    injection H1 as H1. injection Hr2 as Hr2. rewrite H1, Hr2 in Hs. by rewrite Hs.
  - rewrite clock_stopped in H1 by done. injection H1 as <- <-. rewrite clock_stopped in Hr2 by done. injection Hr2 as <- <-. by rewrite clock_stopped.
Qed.

(** C21 The deadline [next_retrace_at] gives is the instant of the next retrace: no
    earlier update reports one, and the update at the deadline reports exactly one,
    dated to the deadline. Without a deadline no update ever reports one. *)
Theorem next_retrace_exact r : raster_ok r -> updated r < 2 ^ 63 ->
  match next_retrace_at r with
  | Some deadline =>
      (forall now, updated r <= now < deadline -> now < 2 ^ 63 -> exists r', update_to now r = Some (r', None))
      /\ (deadline < 2 ^ 63 -> exists r', update_to deadline r = Some (r', Some deadline) /\ retrace_count r' = retrace_count r + 1)
  | None => forall now, updated r <= now < 2 ^ 63 -> exists r', update_to now r = Some (r', None)
  end.
Proof.
  intros Hok Hu. destruct (retrace_dot (timing r)) as [b|] eqn:Hb.
  - by destruct (next_retrace_spec r b Hok Hu Hb) as (-> & Hbefore & Hat).
  - unfold next_retrace_at. rewrite Hb. cbn [mbind option_bind]. intros now Hnow. unfold update_to. rewrite Hb.
    case_match; [by eexists|]. destruct (elapsed_dots _ _ _). by eexists.
Qed.

(** ** 256-color memory *)

(** The packed address the byte at [offset] of the 64-KiB aperture has. *)
Definition chained_address (offset : Z) (r : Registers) : Z := vga_index offset r * 4 + Z.land offset 3.

(** Chain-4 addressing as the 256-color mode programs it: extended memory, all
    planes enabled, the 64-KiB aperture, plain reads, and writes of the byte itself. *)
Definition chained (r : Registers) : bool :=
  chain_four (sequencer r) && extended_memory (sequencer r) && (reg (seq_values (sequencer r)) 2 =? 15)
  && (Z.land (Z.shiftr (reg (gfx_values (graphics r)) 6) 2) 3 =? 1) && negb (compare_reads (graphics r))
  && (reg (gfx_values (graphics r)) 1 =? 0) && (reg (gfx_values (graphics r)) 3 =? 0)
  && (Z.land (reg (gfx_values (graphics r)) 5) 3 =? 0) && (reg (gfx_values (graphics r)) 8 =? 255).

Lemma chained_index_bits offset r i : chained r = true -> 0 <= offset < BLOCK_BYTES -> 2 <= i ->
  Z.testbit (vga_index offset r) i = Z.testbit offset i.
Proof.
  unfold chained. rewrite !andb_true_iff. intros [[[[[[[[Hc He] _] _] _] _] _] _] _] Ho Hi.
  unfold vga_index. rewrite Hc, He. change (Z.shiftl 1 16 - 1) with (Z.ones 16).
  rewrite Z.land_spec, Z.lor_spec, !Z.land_spec, testbit_bnot, testbit_ones by lia. change 3 with (Z.ones 2). rewrite testbit_ones by lia.
  rewrite (proj2 (Z.ltb_ge i 2)), (proj2 (Z.leb_le 0 i)) by lia. rewrite !andb_false_r, orb_false_r. cbn [andb].
  destruct (Z.ltb_spec i 16).
  - rewrite (proj2 (Z.ltb_lt i 32)) by lia. btauto.
  - rewrite (fits_testbit 16 offset i); [done| |lia]. unfold fits. unfold BLOCK_BYTES in Ho. lia.
Qed.
Lemma chained_address_inj r a b : chained r = true -> 0 <= a < BLOCK_BYTES -> 0 <= b < BLOCK_BYTES ->
  chained_address a r = chained_address b r -> a = b.
Proof.
  intros Hr Ha Hb. unfold chained_address. change 3 with (Z.ones 2). rewrite !Z.land_ones by lia. intros H.
  assert (vga_index a r = vga_index b r /\ a mod 2 ^ 2 = b mod 2 ^ 2) as [Hi Hm] by divlia.
  apply Z.bits_inj'. intros i Hge. destruct (Z.lt_ge_cases i 2) as [Hlt|Hle].
  - rewrite <- (Z.mod_pow2_bits_low a 2 i), <- (Z.mod_pow2_bits_low b 2 i) by lia. by rewrite Hm.
  - by rewrite <- (chained_index_bits a r i), <- (chained_index_bits b r i), Hi by done.
Qed.

(** A byte written is read back, and no other address sees it. *)
Lemma location_inj a b : 0 <= a < VIDEO_MEMORY_BYTES -> 0 <= b < VIDEO_MEMORY_BYTES -> location a = location b -> a = b.
Proof.
  intros Ha Hb. unfold location. change 3 with (Z.ones 2). rewrite !Z.land_ones by lia. intros [= H1 H2].
  unfold BLOCK_BYTES, VIDEO_MEMORY_BYTES in *. divlia.
Qed.
Lemma written_byte s block offset value arc target place other o : blocks s !! block = Some arc -> (block < length (blocks s))%nat ->
  (forall place other, place <> block -> blocks s !! place = Some other -> other <> target) -> blocks s !! place = Some other ->
  (arc' ← <[block := target]> (blocks s) !! place;
    Some (arc_byte (<[target := <[offset := value]> (default ∅ (heap s !! arc))]> (heap s)) arc' o))
  = Some (if bool_decide ((place, o) = (block, offset)) then value else arc_byte (heap s) other o).
Proof.
  intros Harc Hl Hplace Hother. destruct (decide (place = block)) as [->|Hne].
  - rewrite list_lookup_insert_eq by done. cbn. rewrite arc_byte_insert, decide_True, byte_in_insert by done. simplify_eq.
    case_decide; case_bool_decide; try congruence; done.
  - rewrite list_lookup_insert_ne, Hother by done. cbn. rewrite arc_byte_insert, decide_False by (by eapply Hplace).
    by rewrite bool_decide_false by congruence.
Qed.
Lemma storage_read_write held address value s other : storage_ok s -> 0 <= address < VIDEO_MEMORY_BYTES -> 0 <= other < VIDEO_MEMORY_BYTES ->
  (s' ← storage_write held address value s; storage_read other s') = if other =? address then Some value else storage_read other s.
Proof.
  intros Hok Ha Ho. pose proof Hok as (Hb & Hlt & _). pose proof (location_ok _ Ha) as [Hl _]. pose proof (location_ok _ Ho) as [Hl' _].
  assert ((other =? address) = bool_decide (location other = location address)) as ->.
  { destruct (Z.eqb_spec other address) as [->|Hne]; [by rewrite bool_decide_true|]. rewrite bool_decide_false; [done|].
    intros E. apply Hne. by apply location_inj. }
  unfold storage_write, storage_read. destruct (location address) as [block offset], (location other) as [place o]. cbn [fst snd] in *.
  destruct (lookup_lt_is_Some_2 (blocks s) block) as [arc Harc]; [by rewrite Hb|]. rewrite Harc. cbn [mbind option_bind].
  destruct (lookup_lt_is_Some_2 (blocks s) place) as [arc' Harc']; [by rewrite Hb|]. pose proof (Forall_lookup_1 _ _ _ _ Hlt Harc) as Halt. cbn beta in Halt.
  destruct (Z.eqb_spec (arc_byte (heap s) arc offset) value) as [Hsame|_]; cbn [mbind option_bind].
  { rewrite Harc'. case_bool_decide as E; [|done]. injection E as -> ->. rewrite Harc in Harc'. injection Harc' as <-. cbn. by rewrite Hsame. }
  rewrite Harc'. cbn [mbind option_bind]. destruct (shared held block arc s) eqn:Hs; cbn [blocks heap].
  - rewrite (written_byte s block offset value arc (allocated s) place arc' o); try done; [by case_bool_decide|lia|].
    intros place' other' _ Hp. pose proof (Forall_lookup_1 _ _ _ _ Hlt Hp). cbn beta in *. lia.
  - apply shared_spec in Hs as [_ Hplace]. rewrite <- (list_insert_id _ _ _ Harc) at 1.
    rewrite (written_byte s block offset value arc arc place arc' o); try done; [by case_bool_decide|lia|].
    intros place' other' Hne Hp ->. by eapply Hplace.
Qed.

Lemma chained_spec r : chained r = true ->
  chain_four (sequencer r) = true /\ reg (seq_values (sequencer r)) 2 = 15
  /\ (forall a, 0 <= a < BLOCK_BYTES -> gfx_memory_offset (0xa0000 + a) (graphics r) = Some a) /\ compare_reads (graphics r) = false
  /\ (forall v l, fits 8 v -> length l = 4%nat -> bytes_ok l -> write_data v l (graphics r) = [v; v; v; v]).
Proof.
  unfold chained. rewrite !andb_true_iff. intros [[[[[[[[Hc _] Hmap] Haperture] Hcompare] Hset] Hrotate] Hmode] Hmask]. breflect.
  split; [done|]. split; [done|]. split; [|split; [done|]].
  - intros a Ha. unfold gfx_memory_offset. rewrite Haperture. cbn. unfold BLOCK_BYTES in Ha.
    rewrite (proj2 (Z.leb_le 655360 _)), (proj2 (Z.ltb_lt _ _)) by lia. cbn. f_equal. lia.
  - intros v l Hv Hl Hbytes. unfold write_data. rewrite Hmode, Hrotate. change (0 =? 1) with false. change (0 =? 3) with false. change (Z.land 0 7) with 0. cbn zeta iota.
    assert (rotate_right8 v 0 = v) as ->.
    { unfold rotate_right8. rewrite Z.shiftr_0_r. cbn [Z.sub Z.opp Z.add]. rewrite Z.shiftl_mul_pow2 by lia. unfold wrap.
      rewrite Z.mod_mul by done. apply Z.lor_0_r. }
    rewrite Hmask. assert (forall plane latch, fits 8 latch -> write_plane (graphics r) v 0 v (Z.land 255 255) plane latch = v) as Hplane.
    { intros plane latch Hlatch. unfold write_plane. rewrite Hset, Hrotate. cbn [has Z.land Z.eqb negb Z.shiftr Z.shiftl].
      change (bnot 8 255) with 0. rewrite Z.land_0_r, Z.lor_0_r. by apply masked_byte. }
    destruct l as [|l0 [|l1 [|l2 [|l3 [|]]]]]; try discriminate Hl. cbn [imap].
    repeat (apply Forall_cons_1 in Hbytes as [? Hbytes]). unfold imap. cbn. by rewrite !Hplane.
Qed.

Lemma chained_write held a v r m : chained r = true -> memory_ok m -> 0 <= a < BLOCK_BYTES -> fits 8 v ->
  write_vga_byte held (0xa0000 + a) v r m = (s ← storage_write held (chained_address a r) v (storage m); Some (mkVideoMemory s (latches m))).
Proof.
  intros Hr (_ & Hl & Hb) Ha Hv. destruct (chained_spec r Hr) as (Hc & Hmap & Hoffset & _ & Hdata). unfold write_vga_byte.
  rewrite Hoffset, Hdata by done. unfold write_planes, chained_address. rewrite Hc, Hmap.
  assert (0 <= Z.land a 3 <= 3) as Hp by (apply masked_bounds; [apply land_masked|lia]). generalize dependent (Z.land a 3). intros plane Hp.
  assert (plane = 0 \/ plane = 1 \/ plane = 2 \/ plane = 3) as [->|[->|[->| ->]]] by lia; cbn [write_selected mbind option_bind Z.add];
    repeat match goal with |- context [has ?x ?y] => let b := eval vm_compute in (has x y) in change (has x y) with b end; cbn [mbind option_bind];
    by destruct (storage_write _ _ _ _).
Qed.
Lemma chained_read a r m : chained r = true -> memory_ok m -> registers_ok r -> 0 <= a < BLOCK_BYTES ->
  fst <$> read_vga_byte (0xa0000 + a) r m = storage_read (chained_address a r) (storage m).
Proof.
  intros Hr (Hs & _ & _) Hok Ha. destruct (chained_spec r Hr) as (Hc & _ & Hoffset & Hcompare & _). unfold read_vga_byte.
  rewrite Hoffset by done. unfold chained_address.
  assert (0 <= Z.land a 3 <= 3) as Hp by (apply masked_bounds; [apply land_masked|lia]).
  destruct (latched_ok (vga_index a r) (storage m) Hs (plane_address_ok a r)) as (latched & Hlatched & Hlen & _).
  rewrite Hlatched. cbn [mbind option_bind]. rewrite Hcompare, Hc. generalize dependent (Z.land a 3). intros plane Hp.
  cbn [seq mapM] in Hlatched.
  apply bind_Some in Hlatched as (x0 & H0 & Hlatched). apply bind_Some in Hlatched as (t1 & Hlatched & [= <-]).
  apply bind_Some in Hlatched as (x1 & H1 & Hlatched). apply bind_Some in Hlatched as (t2 & Hlatched & [= <-]).
  apply bind_Some in Hlatched as (x2 & H2 & Hlatched). apply bind_Some in Hlatched as (t3 & Hlatched & [= <-]).
  apply bind_Some in Hlatched as (x3 & H3 & [= <-]).
  assert (plane = 0 \/ plane = 1 \/ plane = 2 \/ plane = 3) as [->|[->|[->| ->]]] by lia; cbn; symmetry; assumption.
Qed.

(** C19 In the 256-color mode the 64-KiB aperture is a linear array of bytes: a
    byte written is read back at its address and every other address reads as
    before, although each byte lives in one of four planes at a rotated index. *)
Theorem mode13_linear held a b v r m : chained r = true -> registers_ok r -> memory_ok m -> 0 <= a < BLOCK_BYTES -> 0 <= b < BLOCK_BYTES -> fits 8 v ->
  exists m' before, write_vga_byte held (0xa0000 + a) v r m = Some m' /\ fst <$> read_vga_byte (0xa0000 + b) r m = Some before
  /\ fst <$> read_vga_byte (0xa0000 + b) r m' = Some (if b =? a then v else before).
Proof.
  intros Hr Hok Hm Ha Hb Hv. assert (forall x, 0 <= x < BLOCK_BYTES -> 0 <= chained_address x r < VIDEO_MEMORY_BYTES) as Hin.
  { intros x Hx. apply plane_address_ok. assert (0 <= Z.land x 3 <= 3); [|lia]. apply masked_bounds; [apply land_masked|lia]. }
  destruct (storage_read_ok _ _ (proj1 Hm) (Hin b Hb)) as (before & Hbefore & _).
  destruct (storage_write_ok held _ v _ (proj1 Hm) (Hin a Ha) Hv) as (s' & Hs' & He).
  exists (mkVideoMemory s' (latches m)), before. split; [by rewrite chained_write, Hs'|]. split; [by rewrite chained_read|].
  rewrite chained_read by first [done | split; [apply He|apply Hm]]. pose proof (storage_read_write held _ v _ (chained_address b r) (proj1 Hm) (Hin a Ha) (Hin b Hb)) as H.
  rewrite Hs' in H. cbn [mbind option_bind storage] in *. rewrite H, Hbefore.
  destruct (Z.eqb_spec (chained_address b r) (chained_address a r)) as [E|Hne].
  - assert (b = a) as -> by (by apply (chained_address_inj r)). by rewrite Z.eqb_refl.
  - destruct (Z.eqb_spec b a) as [->|]; [done|]. done.
Qed.

(** ** Witnesses *)

(** A renderer follows two published frames; the second upload is of two pages. *)
Definition published (now : Z) : list Action := [Capture now; Publish].
Definition shown : list Action :=
  [AttachDevice; MmioWrite 0xb8000 1 65] ++ published 20000000 ++ [TakeCapture; Upload 0 0; MmioWrite 0xb8000 1 66]
  ++ published 40000000 ++ [MmioWrite 0xbc000 1 67] ++ published 60000000 ++ [TakeCapture].
Definition reads (w : World) (address value : Z) (s : DisplaySnapshot) : bool :=
  bool_decide (snapshot_read (heap (store (vga w))) address (sn_memory s) = Some value).

Lemma shown_ok : Forall action_ok shown.
Proof. by repeat constructor. Qed.
Lemma uploads_exact_witness : exists w w' g', run shown (world_new 0) = Some w /\ exec (Upload 0 0) w = Some w'
  /\ renderers w' !! 0%nat = Some g' /\ buffer g' (buffer_address 0) = 66.
Proof.
  assert (match run shown (world_new 0) with
          | Some w => match renderers w !! 0%nat, captures w !! 0%nat with Some _, Some s => reads w 0 66 s | _, _ => false end
          | None => false end = true) as Hc by (by vm_compute).
  destruct (run shown (world_new 0)) as [w|] eqn:Hr; [|discriminate Hc]. destruct (renderers w !! 0%nat) as [g|] eqn:Hg; [|discriminate Hc].
  destruct (captures w !! 0%nat) as [s|] eqn:Hs; [|discriminate Hc]. apply bool_decide_eq_true in Hc.
  destruct (uploads_exact shown 0 w 0 0 g s shown_ok Hr Hg Hs) as (w' & g' & He & Hg' & Hbytes).
  exists w, w', g'. split; [done|]. split; [exact He|]. split; [exact Hg'|].
  apply Hbytes; [unfold VIDEO_MEMORY_BYTES; lia|exact Hc].
Defined.

Definition kept : list Action := [MmioWrite 0xb8000 1 65] ++ published 20000000 ++ [CurrentCapture].
Lemma captures_immutable_witness : exists w w' s, run kept (world_new 0) = Some w /\ run [MmioWrite 0xb8000 1 66] w = Some w'
  /\ s ∈ captures w' /\ snapshot_read (heap (store (vga w'))) 0 (sn_memory s) = Some 65.
Proof.
  assert (match run kept (world_new 0) with
          | Some w => match captures w !! 0%nat, run [MmioWrite 0xb8000 1 66] w with Some s, Some _ => reads w 0 65 s | _, _ => false end
          | None => false end = true) as Hc by (by vm_compute).
  destruct (run kept (world_new 0)) as [w|] eqn:Hr; [|discriminate Hc]. destruct (captures w !! 0%nat) as [s|] eqn:Hs; [|discriminate Hc].
  destruct (run [MmioWrite 0xb8000 1 66] w) as [w'|] eqn:Hr'; [|discriminate Hc]. apply bool_decide_eq_true in Hc.
  assert (Forall action_ok (kept ++ [MmioWrite 0xb8000 1 66])) as Hok by (by repeat constructor).
  destruct (captures_immutable kept 0 w [MmioWrite 0xb8000 1 66] w' s Hok Hr Hr' eq_refl (list_elem_of_lookup_2 _ _ _ Hs)) as [Hin Hsame].
  exists w, w', s. split; [done|]. split; [exact Hr'|]. split; [exact Hin|]. rewrite Hsame. exact Hc.
Defined.

(** A packed mode is set, panned and banked, and a late service catches up. *)
Definition programmed : list Action :=
  [PortWrite 0x1ce 2 1; PortWrite 0x1cf 2 800; PortWrite 0x1ce 2 2; PortWrite 0x1cf 2 600; PortWrite 0x1ce 2 3; PortWrite 0x1cf 2 16;
   PortWrite 0x1ce 2 4; PortWrite 0x1cf 2 1; PortWrite 0x1ce 2 6; PortWrite 0x1cf 2 1000; PortWrite 0x1ce 2 5; PortWrite 0x1cf 2 63;
   MmioWrite 0xaffff 2 0x1234; PortWrite 0x3c8 1 7; PortWrite 0x3c9 1 0xff] ++ published 3600000000000 ++ [SnapshotNow].

Lemma programming_roundtrip_witness : exists w, run programmed (world_new 0) = Some w /\ enabled (dispi (vga w)) = true
  /\ dispi_from_state_bytes (dispi_to_state_bytes (dispi (vga w))) = Some (Some (dispi (vga w))).
Proof.
  assert (match run programmed (world_new 0) with Some w => enabled (dispi (vga w)) | None => false end = true) as Hc by (by vm_compute).
  destruct (run programmed (world_new 0)) as [w|] eqn:Hr; [|discriminate Hc]. exists w. split; [done|]. split; [done|].
  apply (programming_roundtrip programmed 0 w); [by repeat constructor|done].
Defined.

Definition text_raster : Raster := raster_new 0 (timing_vga registers_default).
Lemma text_raster_ok : raster_ok text_raster.
Proof. apply (world_new_on_time 0). lia. Qed.
Lemma update_to_compose_witness : exists r1 r2, update_to 10000000 text_raster = Some (r1, None)
  /\ update_to 40000000 r1 = Some (r2, Some 27360477) /\ update_to 40000000 text_raster = Some (r2, Some 27360477).
Proof.
  destruct (update_to 10000000 text_raster) as [[r1 e1]|] eqn:H1; [|by vm_compute in H1].
  assert (e1 = None) as -> by (vm_compute in H1; congruence). destruct (update_to 40000000 r1) as [[r2 e2]|] eqn:H2.
  - assert (e2 = Some 27360477) as -> by (vm_compute in H1; injection H1 as <-; vm_compute in H2; congruence).
    exists r1, r2. split; [done|]. split; [exact H2|].
    apply (update_to_compose text_raster 10000000 40000000 r1 None r2 (Some 27360477) text_raster_ok); [cbn; lia|lia|exact H1|exact H2].
  - exfalso. vm_compute in H1. injection H1 as <-. by vm_compute in H2.
Defined.
Lemma next_retrace_exact_witness : next_retrace_at text_raster = Some 13092354
  /\ (exists r', update_to 13092353 text_raster = Some (r', None)) /\ exists r', update_to 13092354 text_raster = Some (r', Some 13092354).
Proof.
  assert (next_retrace_at text_raster = Some 13092354) as E by (by vm_compute). split; [exact E|].
  pose proof (next_retrace_exact text_raster text_raster_ok ltac:(cbn; lia)) as H. rewrite E in H. destruct H as [Hbefore Hat].
  split; [apply Hbefore; [cbn|]; lia|]. destruct Hat as (r' & H & _); [lia|]. by exists r'.
Defined.

(** The registers of mode 13h. *)
Definition mode13 : Registers :=
  with_sequencer (mkSequencer 4 [3; 1; 15; 0; 14]) (with_graphics (mkGraphics 8 [0; 0; 0; 0; 0; 0x40; 5; 15; 255]) registers_default).
Lemma mode13_linear_witness : exists m', write_vga_byte [] 0xa0141 7 mode13 video_memory_default = Some m'
  /\ fst <$> read_vga_byte 0xa0141 mode13 m' = Some 7 /\ fst <$> read_vga_byte 0xa0142 mode13 m' = Some 0.
Proof.
  assert (registers_ok mode13) as Hok by (by apply (bool_decide_unpack _); vm_compute).
  assert (memory_ok video_memory_default) as Hm by apply (with_clock_ok 0).
  assert (fits 8 7) as H7 by (unfold fits; lia).
  assert (0 <= 0x141 < BLOCK_BYTES /\ 0 <= 0x142 < BLOCK_BYTES) as [Ha Hb] by (unfold BLOCK_BYTES; lia).
  destruct (mode13_linear [] 0x141 0x141 7 mode13 video_memory_default eq_refl Hok Hm Ha Ha H7) as (m' & x & Hw & _ & Hr).
  destruct (mode13_linear [] 0x141 0x142 7 mode13 video_memory_default eq_refl Hok Hm Ha Hb H7) as (m2 & y & Hw2 & Hy & Hr2).
  rewrite Hw in Hw2. injection Hw2 as <-. exists m'. split; [exact Hw|]. split; [exact Hr|].
  change 0xa0142 with (0xa0000 + 0x142). rewrite Hr2. change (0x142 =? 0x141) with false. cbn iota. rewrite <- Hy. by vm_compute.
Defined.
