(* ===== verification/FoldArith.v ===== *)
(** * Constant offsets, low bits and width changes

    Soundness of fold/arithmetic.rs and fold/bits.rs. *)

From S2P Require Import Prelude Bytes Types Floating Expr Evaluate Values Fold Model Carrier Bounds Table FoldBase.
Local Open Scope Z_scope.

Lemma wrap_masked n z : 0 <= n <= 64 -> Z.land (wrap 64 z) (low_mask n) = wrap n z.
Proof. intros. rewrite low_mask_wrap by done. apply wrap_idem_le. lia. Qed.

(** ** Chains of constant additions *)

Definition offset_fact (t : ValueTable) (x : nat) (tx : Ty) (o : option (nat * Z)) : Prop :=
  match o with
  | None => True
  | Some (base, k) =>
      (base < x)%nat /\ type_at t base = Some tx /\ is_integer tx = true /\
      forall rho, model t rho -> val rho x = wrap (cbits tx) (val rho base + k)
  end.

(** The operands of a stored expression. *)
Lemma stored_expression t x tx e : wf t -> values t !! x = Some (mkValue tx (DExpression e)) ->
  Forall (fun i => (i < x)%nat) (inputs e) /\ typed t tx e /\
  forall rho, model t rho -> premise rho tx e /\ forall l, eval t rho tx e 0 = Some l -> rho x = l.
Proof.
  intros Hwf Hv. pose proof (wf_value t Hwf x _ Hv) as (Hin & [Ht Hp] & _). split_and!; try done.
  intros rho Hm. split; [by apply Hp|]. intros l Hl. by eapply stored_value.
Qed.

Lemma constant_offset_spec t x tx : wf t -> type_at t x = Some tx ->
  exists o, constant_offset t x = Some o /\ offset_fact t x tx o.
Proof.
  intros Hwf (v & Hv & ->)%fmap_Some. unfold constant_offset, definition_at. rewrite Hv.
  cbn [fmap option_fmap option_map mbind option_bind].
  destruct v as [tx [|[|[| | | | |[]| | | | |] l r| | |]| |] ]; try (by exists None).
  cbn [definition ty]. destruct (stored_expression t x tx _ Hwf Hv) as (Hin & Ht & Hval).
  apply typed_binary in Ht as (tl & tr & Hl & Hr & Hok). cbn [binary_typed] in Hok. btyping. subst.
  destruct (scalar_at_spec t r tx Hwf Hr) as (s & Hs & Hlit). rewrite Hs. cbn [mbind option_bind].
  exists (option_map (fun offset => (l, offset)) s). split; [done|].
  destruct s as [k|]; [|done]. cbn. destruct (Hlit k eq_refl) as [Hk _].
  split_and!; [by inversion_clear Hin|done|done|]. intros rho Hm. destruct (Hval rho Hm) as [_ Hx].
  unfold val. rewrite (Hx (lit (wrap (cbits tx) (val rho l + k)))); [done|].
  rewrite (ev_integer t rho Hm _ _ l r tx tx) by done. cbn. rewrite wrap_carrier_64 by solve_scalar.
  by rewrite Hk.
Qed.

Lemma offset_loop_spec t n : wf t -> forall fuel x tx k, (x < fuel)%nat -> type_at t x = Some tx ->
  0 <= n <= 64 -> (is_integer tx = true -> n <= cbits tx) -> fits n k ->
  exists y k', offset_loop fuel t (low_mask n) x k = Some (y, k') /\ (y <= x)%nat /\
    type_at t y = Some tx /\ fits n k' /\
    forall rho, model t rho -> wrap n (val rho y + k') = wrap n (val rho x + k).
Proof.
  intros Hwf. induction fuel as [|fuel IH]; intros x tx k Hlt Hx Hn Hnc Hk; [lia|].
  cbn [offset_loop]. destruct (constant_offset_spec t x tx Hwf Hx) as (o & Ho & Hfact). rewrite Ho.
  cbn [mbind option_bind]. destruct o as [[base p]|]; [|by exists x, k].
  destruct Hfact as (Hbase & Htb & Hi & Hval). rewrite wrap_masked by done.
  destruct (IH base tx (wrap n (k + p)) ltac:(lia) Htb Hn Hnc ltac:(apply wrap_fits; lia))
    as (y & k' & Hrun & Hle & Hty & Hf & Heq).
  exists y, k'. split_and!; [done|lia|done|done|]. intros rho Hm. rewrite Heq by done.
  rewrite wrap_add_r, Hval by done. specialize (Hnc Hi).
  rewrite <- (wrap_add_l n (wrap (cbits tx) _)), wrap_idem_le, wrap_add_l by lia. f_equal. lia.
Qed.

(** [add_constant] adds modulo the observed width. *)
Lemma add_constant_spec t ty x k n : wf t -> type_at t x = Some ty -> is_integer ty = true ->
  0 <= n <= cbits ty ->
  wp (add_constant ty x k n) (fun id t' => step t t' /\ type_at t' id = Some ty /\
    forall rho, model t' rho -> wrap n (val rho id) = wrap n (val rho x + k)) t.
Proof.
  intros Hwf Hx Hi Hn. assert (0 <= n <= 64) as Hn64 by (destruct (cbits_integer ty Hi); lia).
  unfold add_constant. rewrite (low_mask_wrap n k) by done.
  destruct (offset_loop_spec t n Hwf (S x) x ty (wrap n k) ltac:(lia) Hx Hn64 ltac:(lia)
    ltac:(apply wrap_fits; lia)) as (y & k' & Hrun & _ & Hy & Hk' & Heq).
  apply wp_bind. eapply wp_reads; [exact Hrun|]. cbv beta iota.
  destruct (Z.eqb_spec k' 0) as [->|Hne].
  { apply wp_ret. split_and!; [by apply step_refl|done|]. intros rho Hm.
    specialize (Heq rho Hm). rewrite Z.add_0_r in Heq. by rewrite Heq, wrap_add_r. }
  apply wp_bind. eapply wp_read_scalar; [done..|]. intros [z|] _ Hlit.
  - rewrite wrap_masked by done. destruct (Hlit z eq_refl) as [Hz _].
    eapply wp_mono.
    + apply scalar_literal_spec; [done|solve_scalar|]. eapply (fits_mono n); [lia|]. apply wrap_fits; lia.
    + intros id t' (Hstep & _ & [Ht Hval]). split_and!; [done..|]. intros rho Hm.
      pose proof (model_extends _ _ _ Hwf (proj1 Hstep) Hm) as Hm0.
      unfold val at 1. rewrite (Hval rho Hm _ eq_refl). cbn [lit low].
      rewrite wrap_wrap, <- (Hz rho Hm0), Heq by done. by rewrite wrap_add_r.
  - apply wp_bind. eapply wp_mono.
    { apply (scalar_literal_spec t ty k'); [done|solve_scalar|]. by eapply (fits_mono n); [lia|]. }
    intros c t1 ([He1 Hwf1] & _ & [Hc Hcval]). cbv beta.
    pose proof (extends_type _ _ _ _ He1 Hy) as Hy1.
    eapply wp_mono.
    + apply intern_result_spec; [done| |apply result_count_0]. split; [|done]. apply typed_binary.
      exists ty, ty. cbn [binary_typed]. rewrite Hi, bool_decide_eq_true_2 by done. done.
    + intros id t2 [Hstep2 [Hid Hval]]. split_and!; [eapply step_trans; [by split|done]|done|].
      intros rho Hm. pose proof (model_extends _ _ _ Hwf1 (proj1 Hstep2) Hm) as Hm1.
      pose proof (model_extends _ _ _ Hwf He1 Hm1) as Hm0.
      unfold val at 1. rewrite (Hval rho Hm (lit (wrap (cbits ty) (val rho y + k')))).
      * cbn [lit low]. rewrite wrap_idem_le by lia. rewrite Heq by done. by rewrite wrap_add_r.
      * rewrite (ev_integer t1 rho Hm1 _ _ y c ty ty) by done. cbn. rewrite wrap_carrier_64 by solve_scalar.
        unfold val at 2. rewrite (Hcval rho Hm1 _ eq_refl). done.
Qed.

(** ** Masked bits *)

Definition masked_fact (t : ValueTable) (x : nat) (tx : Ty) (b : MaskedBits) : Prop :=
  (mb_input b <= x)%nat /\
  (exists tm, type_at t (mb_input b) = Some tm /\ carrier tm = carrier tx) /\
  fits (cbits tx) (mb_mask b) /\
  forall rho, model t rho -> val rho x = Z.land (val rho (mb_input b)) (mb_mask b).

Lemma land_full w z : 0 <= w -> fits w z -> Z.land z (Z.ones w) = z.
Proof. intros Hw Hf. rewrite <- wrap_land by done. by apply wrap_small. Qed.

Lemma carrier_mask ty : is_integer ty = true -> mask (carrier ty) = Z.ones (cbits ty).
Proof. intros. apply mask_ones. solve_scalar. Qed.

(** A literal operand of a binary operation. *)
Lemma literal_operand t x tx z : type_at t x = Some tx -> literal_fact t x (Some z) ->
  is_scalar tx = true /\ fits (cbits tx) z /\ forall rho, model t rho -> val rho x = z.
Proof.
  intros Hx Hlit. destruct (Hlit z eq_refl) as (Hz & tx' & Hv & Hs & Hf).
  rewrite (type_at_value _ _ _ Hv) in Hx. cbn [ty] in Hx. by simplify_eq.
Qed.

Lemma whole_fact t x tx : type_at t x = Some tx -> is_integer tx = true ->
  masked_fact t x tx (mkMasked x (mask (carrier tx))).
Proof.
  intros Hx Hi. assert (0 <= cbits tx) by (pose proof (bits_pos (carrier tx)); lia).
  rewrite carrier_mask by done. split_and!; [done|by exists tx|by apply fits_ones|].
  intros rho Hm. cbn. rewrite land_full; [done..|]. apply (val_fits t rho Hm); [done|solve_scalar].
Qed.

(** The last [representation] of [masked_bits]. *)
Lemma masked_represents t x tx y m r ty' : type_at t y = Some ty' -> carrier ty' = carrier tx ->
  (y <= x)%nat -> fits (cbits tx) m -> represents t y ty' r ->
  (forall rho, model t rho -> val rho x = Z.land (val rho y) m) ->
  masked_fact t x tx (mkMasked r m).
Proof.
  intros Hy Hc Hle Hm [Hrle (tr & Htr & Hcr) Hval _] Heq. split_and!; cbn; [lia| |done|].
  - exists tr. split; [done|congruence].
  - intros rho Hmod. unfold val at 2. rewrite Hval by done. by apply Heq.
Qed.

Lemma masked_bits_spec t x tx : wf t -> type_at t x = Some tx -> is_integer tx = true ->
  exists b, masked_bits t x = Some b /\ masked_fact t x tx b.
Proof.
  intros Hwf Hx Hi. unfold masked_bits.
  destruct (representation_spec t x tx Hwf Hx) as (r & Hr & [Hle (tr & Htr & Hcr) Hval _]). rewrite Hr.
  cbn [mbind option_bind]. apply fmap_Some in Htr as (v & Hv & ->).
  unfold value_at. rewrite Hv. cbn [mbind option_bind].
  assert (is_integer (ty v) = true) as Hiv by by eapply integer_of_carrier.
  assert (forall y m, (exists ty', type_at t y = Some ty' /\ carrier ty' = carrier (ty v)) ->
    (y <= r)%nat -> fits (cbits tx) m ->
    (forall rho, model t rho -> val rho r = Z.land (val rho y) m) ->
    exists b, (input ← representation t y; Some (mkMasked input m)) = Some b /\ masked_fact t x tx b) as Hfin.
  { intros y m (ty' & Hy & Hcy) Hyr Hm Heq.
    destruct (representation_spec t y ty' Hwf Hy) as (r' & Hr' & Hrep). rewrite Hr'.
    eexists. split; [done|]. eapply masked_represents; [done|congruence|lia|done|done|].
    intros rho Hmod. unfold val at 1. rewrite <- Hval by done. by apply Heq. }
  assert (exists b, (input ← representation t r; Some (mkMasked input (mask (carrier (ty v))))) = Some b /\
    masked_fact t x tx b) as Hwhole.
  { destruct (whole_fact t r (ty v) ltac:(by apply type_at_value) Hiv) as (_ & _ & Hf & Heq).
    apply Hfin; [by exists (ty v); rewrite type_at_value with (v := v)|done|by rewrite <- Hcr|exact Heq]. }
  destruct v as [tv d]. cbn [definition ty] in *.
  destruct d as [|[op y|op l r'| | |]| |]; try exact Hwhole.
  - destruct op; try exact Hwhole.
    destruct (stored_expression t r tv _ Hwf Hv) as (Hin & Ht & Hst). inversion_clear Hin as [|? ? Hyr _].
    apply typed_unary in Ht as (ti & Hti & Hok). cbn [unary_typed] in Hok. btyping.
    assert (carrier ti = carrier tv) as Hci by done.
    assert (0 <= count <= 64) by (destruct (cbits_integer tv Hiv); lia).
    apply Hfin; [by exists ti|lia| |].
    + rewrite low_mask_ones by done. rewrite <- Hcr. eapply fits_mono; [|apply fits_ones]; lia.
    + intros rho Hm. rewrite low_mask_wrap by done. destruct (Hst rho Hm) as [_ Hx'].
      unfold val at 1. by rewrite (Hx' _ (ev_low_bits t rho Hm tv count y ti 0 Hti ltac:(done) ltac:(done)
        Hci ltac:(lia))).
  - destruct op as [[]| | | | | | | | | |]; try exact Hwhole.
    destruct (stored_expression t r tv _ Hwf Hv) as (Hin & Ht & Hst).
    inversion_clear Hin as [|? ? Hl Hin']. inversion_clear Hin' as [|? ? Hr' _].
    apply typed_binary in Ht as (tl & tr' & Htl & Htr' & Hok). cbn [binary_typed] in Hok. btyping.
    assert (carrier tl = carrier tv) as Hcl by done. assert (carrier tr' = carrier tv) as Hcr' by done.
    assert (forall rho, model t rho -> val rho r = Z.land (val rho l) (val rho r')) as Hland.
    { intros rho Hm. destruct (Hst rho Hm) as [_ Hx']. unfold val at 1.
      by rewrite (Hx' _ (ev_bitwise_scalar t rho Hm tv And l r' tl tr' 0 Htl Htr' Hcl Hcr'
        ltac:(solve_scalar))). }
    destruct (scalar_at_spec t l tl Hwf Htl) as (a & Ha & Hla).
    destruct (scalar_at_spec t r' tr' Hwf Htr') as (b & Hb & Hlb). rewrite Ha, Hb. cbn [mbind option_bind].
    destruct b as [mb|]; [|destruct a as [ma|]; [|exact Hwhole] ].
    + destruct (literal_operand t r' tr' mb Htr' Hlb) as (_ & Hf & Heq).
      rewrite Hcr', Hcr in Hf.
      assert (exists b, (input ← representation t l; Some (mkMasked input mb)) = Some b /\
        masked_fact t x tx b) as Hgoal; [|by destruct a].
      apply Hfin; [by exists tl|lia|done|]. intros rho Hm. by rewrite Hland, Heq.
    + destruct (literal_operand t l tl ma Htl Hla) as (_ & Hf & Heq). rewrite Hcl, Hcr in Hf.
      apply Hfin; [by exists tr'|lia|done|]. intros rho Hm. by rewrite Hland, Heq, Z.land_comm.
Qed.

(** ** Low bits *)

Lemma wrap_land_mask n m z : 0 <= n <= 64 -> fits 64 m -> n <= trailing_ones 64 m ->
  wrap n (Z.land z m) = wrap n z.
Proof.
  intros Hn Hm Ht. apply Z.bits_inj'. intros i Hi. rewrite !testbit_wrap, Z.land_spec by lia.
  destruct (Z.ltb_spec i n); [|done]. rewrite (trailing_ones_testbit 64 m) by (done || lia). btauto.
Qed.

(** Bits outside the observed mask do not reach the result. *)
Lemma disjoint_low n m z : 0 <= n <= 64 -> Z.land m (low_mask n) = 0 -> wrap n (Z.land z m) = 0.
Proof.
  intros Hn H. rewrite low_mask_wrap in H by done. apply Z.bits_inj'. intros i Hi.
  rewrite testbit_wrap, Z.land_spec, Z.testbit_0_l by lia.
  assert (Z.testbit (wrap n m) i = false) as Hb by (by rewrite H, Z.testbit_0_l).
  rewrite testbit_wrap in Hb by lia. destruct (i <? n), (Z.testbit m i); try done; btauto.
Qed.

Definition low_fact (t : ValueTable) (n : Z) (x : nat) (tx : Ty) (k : Z) (b : LowBitsBase) : Prop :=
  match b with
  | LowLiteral z k' => forall rho, model t rho -> wrap n (z + k') = wrap n (val rho x + k)
  | LowBase y k' =>
      (exists ty', type_at t y = Some ty' /\ carrier ty' = carrier tx) /\ (y <= x)%nat /\ fits n k' /\
      forall rho, model t rho -> wrap n (val rho y + k') = wrap n (val rho x + k)
  end.

(** Moving to an operand with the same observed bits. *)
Lemma low_fact_move t n x tx k y ty' k' b : 0 <= n -> carrier ty' = carrier tx -> (y <= x)%nat ->
  (forall rho, model t rho -> wrap n (val rho y + k') = wrap n (val rho x + k)) ->
  low_fact t n y ty' k' b -> low_fact t n x tx k b.
Proof.
  intros Hn Hc Hle Heq Hb. destruct b as [z k''|b k'']; simpl in *.
  - intros rho Hm. by rewrite (Hb rho Hm), (Heq rho Hm).
  - destruct Hb as ((tb & Hb & Hcb) & Hle' & Hk & Heq'). split_and!; [|lia|done|].
    + exists tb. split; [done|congruence].
    + intros rho Hm. by rewrite (Heq' rho Hm), (Heq rho Hm).
Qed.

Lemma wrap_add_eq n a b k : wrap n a = wrap n b -> wrap n (a + k) = wrap n (b + k).
Proof. intros H. by rewrite <- (wrap_add_l n a), <- (wrap_add_l n b), H. Qed.

Lemma low_bits_loop_spec t n : wf t -> 0 <= n <= 64 -> forall fuel x tx k, (x < fuel)%nat ->
  type_at t x = Some tx -> is_integer tx = true -> n <= cbits tx -> fits n k ->
  exists b, low_bits_loop fuel t n x k = Some b /\ low_fact t n x tx k b.
Proof.
  intros Hwf Hn. induction fuel as [|fuel IH]; intros x tx k Hlt Hx Hi Hnc Hk; [lia|].
  pose proof Hx as Hx'. apply fmap_Some in Hx' as (v & Hv & ->). cbn [low_bits_loop].
  unfold value_at. rewrite Hv. cbn [mbind option_bind].
  (* The continuations: stop here, move to an operand, follow an offset. *)
  assert (exists b, Some (LowBase x k) = Some b /\ low_fact t n x (ty v) k b) as Hbreak.
  { eexists. split; [done|]. split_and!; [by exists (ty v)|done|done|done]. }
  assert (forall y ty', type_at t y = Some ty' -> carrier ty' = carrier (ty v) -> (y < x)%nat ->
    (forall rho, model t rho -> wrap n (val rho y) = wrap n (val rho x)) ->
    exists b, low_bits_loop fuel t n y k = Some b /\ low_fact t n x (ty v) k b) as Hmove.
  { intros y ty' Hy Hc Hyx Heq. destruct (IH y ty' k ltac:(lia) Hy) as (b & Hrun & Hb).
    - by eapply integer_of_carrier.
    - by rewrite Hc.
    - done.
    - exists b. split; [done|]. apply (low_fact_move t n x (ty v) k y ty' k); [lia|done|lia| |done].
      intros rho Hm. apply wrap_add_eq. by apply Heq. }
  set (otherwise := if bits (ty v) <? n then _ else _).
  assert (exists b, otherwise = Some b /\ low_fact t n x (ty v) k b) as Hother.
  { subst otherwise. destruct (bits (ty v) <? n); [done|].
    destruct (constant_offset_spec t x (ty v) Hwf Hx) as (o & Ho & Hfact). rewrite Ho. cbn [mbind option_bind].
    destruct o as [[y p]|]; [|done]. destruct Hfact as (Hyx & Hy & _ & Heq). rewrite wrap_masked by done.
    destruct (IH y (ty v) (wrap n (k + p)) ltac:(lia) Hy Hi Hnc ltac:(apply wrap_fits; lia)) as (b & Hrun & Hb).
    exists b. split; [done|]. apply (low_fact_move t n x (ty v) k y (ty v) (wrap n (k + p))); [lia|done|lia| |done].
    intros rho Hm. rewrite wrap_add_r, Heq by done.
    rewrite <- (wrap_add_l n (wrap (cbits (ty v)) _)), wrap_idem_le, wrap_add_l by lia. f_equal. lia. }
  clearbody otherwise.
  pose proof (scalar_literal_fact t x v Hwf Hv) as Hlit.
  destruct (scalar_literal v) as [z|] eqn:Hsl.
  { eexists. split; [done|]. intros rho Hm. destruct (Hlit z eq_refl) as [Hz _]. by rewrite Hz. }
  destruct v as [tv d]. cbn [definition ty] in *.
  destruct d as [|[op y|op l r| | |]| |]; try exact Hother.
  - destruct (stored_expression t x tv _ Hwf Hv) as (Hin & Ht & Hst). inversion_clear Hin as [|? ? Hyx _].
    apply typed_unary in Ht as (ti & Hti & Hok). destruct op; try exact Hother; cbn [unary_typed] in Hok.
    + rewrite Hti. cbn [mbind option_bind].
      destruct (_ && bool_decide (carrier tv = carrier ti)) eqn:Hg; [|exact Hother].
      apply andb_true_iff in Hg as [_ Hg%bool_decide_eq_true].
      eapply Hmove; [done|by rewrite Hg|done|]. intros rho Hm. destruct (Hst rho Hm) as [_ Hx'].
      unfold val. rewrite (Hx' _ (ev_convert t rho Hm tv y ti 0 Hti Hok)).
      by rewrite Hg, (rho_normalize t rho Hm y ti).
    + btyping. destruct (Z.leb_spec n count); [|exact Hother].
      eapply Hmove; [done|done|done|]. intros rho Hm. destruct (Hst rho Hm) as [_ Hx'].
      unfold val at 2. rewrite (Hx' _ (ev_low_bits t rho Hm tv count y ti 0 Hti ltac:(done) ltac:(done)
        ltac:(done) ltac:(done))). cbn [lit low]. by rewrite wrap_idem_le by lia.
  - destruct op as [bop| | | | | | | | | |]; try exact Hother.
    destruct (stored_expression t x tv _ Hwf Hv) as (Hin & Ht & Hst).
    inversion_clear Hin as [|? ? Hl Hin']. inversion_clear Hin' as [|? ? Hr _].
    apply typed_binary in Ht as (tl & tr & Htl & Htr & Hok). cbn [binary_typed] in Hok. btyping.
    assert (carrier tl = carrier tv) as Hcl by done. assert (carrier tr = carrier tv) as Hcr by done.
    assert (forall rho, model t rho -> val rho x = bit_fn bop (val rho l) (val rho r)) as Hval.
    { intros rho Hm. destruct (Hst rho Hm) as [_ Hx']. unfold val at 1.
      by rewrite (Hx' _ (ev_bitwise_scalar t rho Hm tv bop l r tl tr 0 Htl Htr Hcl Hcr
        ltac:(solve_scalar))). }
    assert (is_integer tl = true) as Hil by by eapply integer_of_carrier.
    assert (is_integer tr = true) as Hir by by eapply integer_of_carrier.
    assert (bop <> And -> exists b,
      (a ← masked_bits t l;
       if Z.land (mb_mask a) (low_mask n) =? 0 then low_bits_loop fuel t n r k
       else b ← masked_bits t r;
            if Z.land (mb_mask b) (low_mask n) =? 0 then low_bits_loop fuel t n l k
            else Some (LowBase x k)) = Some b /\ low_fact t n x tv k b) as Hor.
    { intros Hop. destruct (masked_bits_spec t l tl Hwf Htl Hil) as (a & Ha & _ & _ & _ & Hma).
      destruct (masked_bits_spec t r tr Hwf Htr Hir) as (b & Hb & _ & _ & _ & Hmb).
      rewrite Ha. cbn [mbind option_bind].
      assert (forall p q, wrap n p = 0 -> wrap n (bit_fn bop p q) = wrap n q) as Hzl.
      { intros p q Hp. apply Z.bits_inj'. intros i Hi0.
        assert (Z.testbit (wrap n p) i = false) as Hb' by (by rewrite Hp, Z.testbit_0_l).
        rewrite testbit_wrap in Hb' |- * by lia. rewrite testbit_wrap by lia.
        destruct (Z.ltb_spec i n); [|done]. cbn [andb] in *.
        destruct bop; [done|cbn [bit_fn]..]; rewrite ?Z.lor_spec, ?Z.lxor_spec, Hb'; btauto. }
      assert (forall p q, bit_fn bop p q = bit_fn bop q p) as Hcomm.
      { intros p q. destruct bop; simpl; [apply Z.land_comm|apply Z.lor_comm|apply Z.lxor_comm]. }
      destruct (Z.eqb_spec (Z.land (mb_mask a) (low_mask n)) 0) as [Hdis|].
      - eapply Hmove; [done..|]. intros rho Hm. rewrite Hval, Hzl; [done| |done].
        rewrite Hma by done. by apply disjoint_low.
      - rewrite Hb. cbn [mbind option_bind].
        destruct (Z.eqb_spec (Z.land (mb_mask b) (low_mask n)) 0) as [Hdis|]; [|exact Hbreak].
        eapply Hmove; [done..|]. intros rho Hm. rewrite Hval, Hcomm, Hzl; [done| |done].
        rewrite Hmb by done. by apply disjoint_low. }
    destruct bop; [|by apply Hor..].
    destruct (scalar_at_spec t l tl Hwf Htl) as (a & Ha & Hla).
    destruct (scalar_at_spec t r tr Hwf Htr) as (b & Hb & Hlb). rewrite Ha, Hb. cbn [mbind option_bind].
    destruct b as [mb|].
    + destruct (literal_operand t r tr mb Htr Hlb) as (Hs & Hf & Heq).
      assert (fits 64 mb) as Hf64 by (eapply fits_mono; [|exact Hf]; destruct (cbits_scalar tr Hs); lia).
      assert (exists b, (if trailing_ones 64 mb <? n then Some (LowBase x k) else low_bits_loop fuel t n l k)
        = Some b /\ low_fact t n x tv k b) as Hgoal; [|by destruct a].
      destruct (Z.ltb_spec (trailing_ones 64 mb) n); [exact Hbreak|].
      eapply Hmove; [done..|]. intros rho Hm. rewrite Hval by done. cbn [bit_fn].
      by rewrite Heq, wrap_land_mask.
    + destruct a as [ma|]; [|exact Hbreak].
      destruct (literal_operand t l tl ma Htl Hla) as (Hs & Hf & Heq).
      assert (fits 64 ma) as Hf64 by (eapply fits_mono; [|exact Hf]; destruct (cbits_scalar tl Hs); lia).
      destruct (Z.ltb_spec (trailing_ones 64 ma) n); [exact Hbreak|].
      eapply Hmove; [done..|]. intros rho Hm. rewrite Hval by done. cbn [bit_fn].
      by rewrite Heq, Z.land_comm, wrap_land_mask.
Qed.

(** ** fold_low_bits, normalize, convert and sign_extend *)

Lemma wrap_low w z : fits w z -> lit (wrap w z) = lit z.
Proof. intros. by rewrite wrap_small. Qed.

(** A logical literal is unchanged at a wider type. *)
Lemma lit_normalize_widen a b l : convertible a b = true -> bits a <= bits b -> lit_ok a l ->
  lit_normalize l (carrier b) = l.
Proof.
  intros Hc Hle Hok. unfold convertible in Hc.
  destruct (bool_decide_reflect (a = b)) as [->|]; [by apply (lit_ok_carrier b)|].
  destruct (is_integer a) eqn:Ha.
  - assert (is_integer b = true) as Hb.
    { destruct (is_integer b); [done|]. cbn in Hc. destruct a; done. }
    apply lit_ok_scalar in Hok as [Hf Hl]; [|solve_scalar]. rewrite Hl.
    apply lit_normalize_fits; [solve_scalar|]. eapply fits_mono; [|exact Hf].
    pose proof (bits_carrier b). lia.
  - cbn [andb orb] in Hc. apply andb_true_iff in Hc as [_ Hv]. by rewrite carrier_vector.
Qed.

Section Widths.
Context (rec : Ty -> Expression nat -> nat -> T nat) (ok : nat -> Prop).
Context (ok_le : forall a b, (a <= b)%nat -> ok b -> ok a) (Hrec : folds rec ok).
#[local] Set Default Proof Using "ok_le Hrec".

(** The value of low bits. *)
Definition low_value (n : Z) (x : nat) (rho : Valuation) : option Literal :=
  Some (lit (wrap n (val rho x))).

Lemma low_value_id t id tid x n : wf t -> type_at t id = Some tid -> is_integer tid = true ->
  (forall rho, model t rho -> fits n (val rho id)) ->
  (forall rho, model t rho -> wrap n (val rho id) = wrap n (val rho x)) ->
  forall rho, model t rho -> forall l, low_value n x rho = Some l -> rho id = l.
Proof.
  intros Hwf Hid Hi Hf Heq rho Hm l Hl. unfold low_value in Hl. simplify_eq.
  rewrite <- Heq, wrap_low by eauto. apply (rho_scalar t rho Hm id tid); [done|solve_scalar].
Qed.

Lemma bounded_low t x tx n b : wf t -> type_at t x = Some tx -> is_integer tx = true ->
  bounds t !! x = Some b -> unsigned b <= n -> forall rho, model t rho -> fits n (val rho x).
Proof.
  intros Hwf Hx Hi Hb Hn rho Hm. eapply fits_mono; [exact Hn|].
  by eapply unsigned_val; [| |done|solve_scalar|].
Qed.

Lemma fold_low_bits_spec t ty x tx n : wf t -> type_at t x = Some tx -> is_integer ty = true ->
  carrier tx = carrier ty -> 0 <= n <= cbits ty -> ok 1%nat ->
  wp (fold_low_bits rec ty x n) (fun id t' => step t t' /\ yields t' id ty (low_value n x)) t.
Proof.
  intros Hwf Hx Hi Hc Hn Hok. assert (is_integer tx = true) as Hix by by eapply integer_of_carrier.
  assert (0 <= n <= 64) as Hn64 by (destruct (cbits_integer ty Hi); lia).
  unfold fold_low_bits. destruct (Z.eqb_spec n 0) as [->|Hn0].
  { eapply wp_mono; [by apply zero_literal_spec|]. intros id t' (Hstep & _ & Hret).
    split; [done|]. apply returns_yields. eapply returns_weaken; [exact Hret|].
    intros rho _ l <-. unfold low_value, wrap. by rewrite Z.pow_0_r, Z.mod_1_r. }
  apply wp_bind. eapply wp_read_bounds; [done..|]. intros b Hb _.
  destruct (Z.leb_spec (unsigned b) n) as [Hle|_].
  { apply wp_ret. split; [by apply step_refl|]. eapply yields_same; [done|done|].
    eapply low_value_id; [done..| |done]. by eapply bounded_low. }
  destruct (low_bits_loop_spec t n Hwf Hn64 (S x) x tx 0 ltac:(lia) Hx Hix ltac:(rewrite Hc; lia)
    ltac:(apply fits_0; lia)) as (base & Hrun & Hfact).
  apply wp_bind. eapply wp_reads; [exact Hrun|]. destruct base as [z k|y k]; cbn [low_fact] in Hfact.
  { rewrite wrap_masked by done. eapply wp_mono.
    - apply scalar_literal_spec; [done|solve_scalar|]. eapply (fits_mono n); [lia|]. apply wrap_fits; lia.
    - intros id t' (Hstep & _ & Hret). split; [done|]. apply returns_yields.
      eapply returns_weaken; [exact Hret|]. intros rho Hm l <-.
      pose proof (model_extends _ _ _ Hwf (proj1 Hstep) Hm) as Hm0.
      unfold low_value. by rewrite (Hfact rho Hm0), Z.add_0_r. }
  destruct Hfact as ((tb & Hy & Hcb) & _ & Hk & Heq).
  assert (is_integer tb = true) as Hib by by eapply integer_of_carrier.
  apply wp_bind. eapply wp_read_type; [exact Hy|]. apply wp_bind.
  apply (wp_mono _ (delivers t ty (fun rho => Some (rho y)))).
  { destruct (decide (tb = ty)) as [->|].
    - apply wp_ret. split; [by apply step_refl|]. split; [done|]. intros rho _ l. by intros [= <-].
    - eapply wp_mono; [by eapply fold_convert; [|by apply step_refl|done|by apply convertible_integer|] |].
      intros id t' [Hstep Hret]. split; [done|]. eapply returns_weaken; [exact Hret|].
      intros rho Hm l <-. rewrite <- Hc, <- Hcb.
      by rewrite (rho_normalize t' rho Hm) by (by eapply extends_type; [apply Hstep|]). }
  intros y1 t1 [[He1 Hwf1] [Hy1 Hval1]]. apply wp_bind.
  eapply wp_mono; [by apply (add_constant_spec t1 ty y1 k n)|]. intros id t2 (Hstep2 & Hid & Hval2).
  assert (forall rho, model t2 rho -> wrap n (val rho id) = wrap n (val rho x)) as Hfinal.
  { intros rho Hm. rewrite Hval2 by done.
    pose proof (model_extends _ _ _ Hwf1 (proj1 Hstep2) Hm) as Hm1.
    pose proof (model_extends _ _ _ Hwf He1 Hm1) as Hm0.
    assert (val rho y1 = val rho y) as -> by (unfold val; by rewrite (Hval1 rho Hm1 _ eq_refl)).
    rewrite Heq by done. by rewrite Z.add_0_r. }
  assert (step t t2) as Hstep by (eapply step_trans; [by split|done]).
  apply wp_bind. eapply wp_read_bounds; [apply Hstep2|exact Hid|]. intros b' Hb' _.
  destruct (Z.leb_spec (unsigned b') n) as [Hle'|_].
  { apply wp_ret. split; [done|]. eapply yields_same; [done|done|].
    eapply low_value_id; [apply Hstep2|done|done| |done]. by eapply bounded_low; [apply Hstep2|..]. }
  eapply wp_mono.
  - apply intern_result_spec; [apply Hstep2| |apply result_count_0]. split; [|done].
    apply typed_unary. exists ty. split; [done|]. cbn [unary_typed].
    rewrite Hi. unfold same_carrier. rewrite bool_decide_eq_true_2 by done.
    destruct (Z.leb_spec 0 n), (Z.leb_spec n (cbits ty)); done || lia.
  - intros id' t3 [Hstep3 Hret]. split; [by eapply step_trans|]. apply returns_yields.
    eapply returns_weaken; [exact Hret|]. intros rho Hm l <-.
    pose proof (model_extends _ _ _ (proj2 Hstep2) (proj1 Hstep3) Hm) as Hm2.
    rewrite (ev_low_bits t2 rho Hm2 ty n id ty) by done. unfold low_value. by rewrite Hfinal.
Qed.

Lemma normalize_spec t x tx : wf t -> type_at t x = Some tx -> ok 2%nat ->
  wp (normalize_value rec x) (delivers t tx (fun rho => Some (lit_normalize (rho x) tx))) t.
Proof.
  intros Hwf Hx Hok. unfold normalize_value. apply wp_bind. eapply wp_read_type; [exact Hx|].
  assert (forall rho, model t rho -> lit_normalize (rho x) tx = rho x ->
    forall l, Some (lit_normalize (rho x) tx) = Some l -> rho x = l) as Hself
    by (intros rho _ E l [= <-]; done).
  destruct (decide (tx = V64)) as [->|Hne].
  - apply wp_bind. eapply wp_read_bounds; [done..|]. intros b Hb _.
    destruct (Z.leb_spec (unsigned b) 64) as [Hle|_].
    { apply wp_ret. split; [by apply step_refl|]. split; [done|]. intros rho Hm. apply Hself; [done|].
      destruct (input_bounded _ _ _ _ _ Hwf Hm Hx Hb) as [Hf _].
      apply (fits_mono _ 64) in Hf; [|done]. unfold lit_normalize. rewrite decide_True by done.
      rewrite <- (lit128_u128 (rho x)) at 2 by by eapply rho_words.
      rewrite lit128_small by done. f_equal. unfold lit_u128 in *.
      pose proof (rho_words t rho Hm x V64 Hx) as [Hl Hh].
      assert (high (rho x) = 0) as ->.
      { apply Z.bits_inj'. intros i Hi. rewrite Z.testbit_0_l.
        pose proof (fits_testbit 64 _ (i + 64) Hf ltac:(lia)) as Hb'.
        rewrite Z.lor_spec, testbit_shiftl in Hb' by lia. apply orb_false_iff in Hb' as [_ Hb'].
        destruct (Z.leb_spec 64 (i + 64)); [|lia]. cbn [andb] in Hb'.
        by replace (i + 64 - 64) with i in Hb' by lia. }
      by rewrite Z.shiftl_0_l, Z.lor_0_r. }
    apply wp_bind. eapply wp_mono.
    { apply (literal_spec t V64); [done|]. apply lit_words_lit. by apply (bool_decide_unpack _). }
    intros m t1 ([He1 Hwf1] & _ & [Hm1 Hmval]).
    pose proof (extends_type _ _ _ _ He1 Hx) as Hx1.
    apply (fold_after rec ok Hrec); [by split| |done|].
    + split; [|done]. apply typed_binary. by exists V64, V64.
    + intros rho Hmod l <-.
      destruct (ev_bitwise t1 rho Hmod V64 And x m V64 V64 0) as (r & -> & [Hw _] & Hl); [done..|].
      f_equal. apply lit_u128_inj; [done|apply lit_normalize_words; by eapply rho_words|].
      rewrite Hl. cbn [bit_fn]. unfold vec at 2. rewrite (Hmval rho Hmod _ eq_refl).
      cbn [carrier]. rewrite lit_normalize_V128. unfold lit_normalize. rewrite !decide_True by done.
      rewrite !u128_lit. cbn [low lit]. rewrite <- wrap_land by lia. unfold vec, lit_u128.
      pose proof (rho_words t1 rho Hmod x V64 Hx1) as [Hl' Hh].
      rewrite <- (wrap_small 64 (low (rho x))) at 2 by done.
      apply Z.bits_inj'. intros i Hi. rewrite !testbit_wrap, Z.lor_spec, testbit_shiftl by lia.
      destruct (Z.ltb_spec i 64), (Z.leb_spec 64 i); try lia; cbn [andb]; btauto.
  - destruct (is_integer tx) eqn:Hi; cbn [negb].
    + eapply wp_mono.
      * apply (fold_spec rec ok Hrec t tx (EUnary (LowBits (bits tx)) x)); [done| |done].
        split; [|done]. apply typed_unary. exists tx. split; [done|]. cbn [unary_typed].
        rewrite Hi. unfold same_carrier. rewrite bool_decide_eq_true_2 by done.
        pose proof (bits_pos tx). pose proof (bits_carrier tx).
        destruct (Z.leb_spec 0 (bits tx)), (Z.leb_spec (bits tx) (cbits tx)); done || lia.
      * intros id t' [Hstep Hret]. split; [done|]. eapply returns_weaken; [exact Hret|].
        intros rho Hm l <-. pose proof (model_extends _ _ _ Hwf (proj1 Hstep) Hm) as Hm0.
        pose proof (bits_pos tx). pose proof (bits_carrier tx).
        rewrite (ev_low_bits t rho Hm0 tx (bits tx) x tx) by (done || lia).
        by rewrite lit_normalize_scalar by solve_scalar.
    + apply wp_ret. split; [by apply step_refl|]. split; [done|]. intros rho Hm.
      apply Hself; [done|]. assert (carrier tx = tx) as Hc by by destruct tx.
      rewrite <- Hc at 1. by apply (rho_normalize t rho Hm).
Qed.

Lemma convert_spec t x tx ty : wf t -> type_at t x = Some tx -> convertible tx ty = true ->
  ok 1%nat -> (bits tx < bits ty -> ok 2%nat) ->
  wp (convert_value rec x ty) (delivers t ty (fun rho =>
    Some (if bits tx <? bits ty then lit_normalize (rho x) tx else lit_normalize (rho x) (carrier ty)))) t.
Proof.
  intros Hwf Hx Hc Hok Hok2. unfold convert_value. apply wp_bind. eapply wp_read_type; [exact Hx|].
  destruct (decide (tx = ty)) as [->|Hne].
  { apply wp_ret. split; [by apply step_refl|]. split; [done|]. intros rho Hm l [= <-].
    rewrite Z.ltb_irrefl. symmetry. by apply (rho_normalize t rho Hm). }
  destruct (Z.ltb_spec (bits tx) (bits ty)) as [Hlt|Hge].
  - apply wp_bind. eapply wp_mono; [by apply normalize_spec; eauto|].
    intros n t1 [Hstep1 [Hn Hval]].
    eapply wp_mono; [eapply (fold_convert rec ok Hrec t1 t1); [|done..]; apply step_refl, Hstep1|].
    intros id t2 [Hstep2 Hret]. split; [by eapply step_trans|].
    eapply returns_weaken; [exact Hret|]. intros rho Hm l <-. f_equal.
    assert (model t1 rho) as Hm1 by (eapply model_extends; [apply Hstep1|apply Hstep2|done]).
    rewrite (Hval rho Hm1 (lit_normalize (rho x) tx)) by done.
    apply (lit_normalize_widen tx); [done|lia|]. apply lit_normalize_ok.
    eapply (rho_words t rho); [|exact Hx]. by eapply model_extends; [|apply Hstep1|].
  - eapply wp_mono; [by eapply (fold_convert rec ok Hrec t t); [by apply step_refl|..]|].
    intros id t' [Hstep Hret]. split; [done|]. by eapply returns_weaken.
Qed.

(** Sign extension of a whole logical value to its carrier. *)
Lemma sign_extend_carrier_spec t x tx : wf t -> type_at t x = Some tx -> is_integer tx = true ->
  ok 2%nat ->
  wp (sign_extend_carrier rec x) (delivers t (carrier tx) (fun rho =>
    Some (lit (wrap (cbits tx) (to_signed (bits tx) (val rho x)))))) t.
Proof.
  intros Hwf Hx Hi Hok. unfold sign_extend_carrier, sign_extend. apply wp_bind.
  eapply wp_read_type; [exact Hx|]. destruct (decide (tx = carrier tx)) as [Heq|Hne].
  - apply wp_bind. eapply wp_read_type; [exact Hx|]. rewrite decide_True by done.
    apply wp_ret. split; [by apply step_refl|]. split; [by rewrite <- Heq|].
    intros rho Hm l [= <-]. rewrite <- Heq.
    destruct (rho_scalar t rho Hm x tx Hx ltac:(solve_scalar)) as [Hf ->]. cbn [lit val low].
    rewrite <- Heq in Hf. rewrite to_signed_mod by (pose proof (bits_pos tx); lia).
    f_equal. symmetry. by apply wrap_small.
  - eapply wp_mono.
    + apply (fold_spec rec ok Hrec t (carrier tx) (EUnary (SignExtend tx) x)); [done| |].
      * split; [|done]. apply typed_unary. exists tx. split; [done|]. cbn [unary_typed].
        rewrite carrier_integer, Hi. pose proof (bits_carrier tx).
        assert (bits tx <> cbits tx) by (destruct tx; simpl in *; done || lia).
        destruct (Z.ltb_spec (bits tx) (cbits tx)), (Z.leb_spec (bits tx) (cbits tx)); done || lia.
      * eapply ok_le; [|exact Hok]. destruct tx; simpl; lia.
    + intros id t' [Hstep Hret]. split; [done|]. eapply returns_weaken; [exact Hret|].
      intros rho Hm l <-. pose proof (model_extends _ _ _ Hwf (proj1 Hstep) Hm) as Hm0.
      rewrite (ev_sign_extend t rho Hm0 (carrier tx) tx x tx) by (by rewrite ?carrier_integer).
      by rewrite carrier_idemp.
Qed.

(** A value already sign extended from [n] bits keeps its integer. *)
Lemma sfits_extend v n s z : 0 < n <= v -> s <= n -> fits v z -> sfits v s z ->
  to_signed n z = to_signed v z.
Proof.
  intros Hn Hs Hz [HA HB].
  rewrite <- (to_signed_wrap_range n (to_signed v z)).
  - apply to_signed_eq; [lia|]. rewrite wrap_wrap. rewrite <- (wrap_idem_le n v (to_signed v z)) by lia.
    rewrite to_signed_mod by lia. by rewrite wrap_idem_le by lia.
  - lia.
  - assert (2 ^ (s - 1) <= 2 ^ (n - 1)); [|lia].
    destruct (decide (0 <= s - 1)); [apply Z.pow_le_mono_r; lia|].
    rewrite (Z.pow_neg_r 2 (s - 1)) by lia. apply Z.pow_nonneg. lia.
Qed.

Lemma fold_sign_extend_spec t ty it x : wf t -> typed t ty (EUnary (SignExtend it) x) ->
  (it <> I32 -> ok 1%nat) ->
  wp (fold_sign_extend rec ty it x) (rewritten t ty (fun rho => eval t rho ty (EUnary (SignExtend it) x) 0)) t.
Proof.
  intros Hwf Ht Hok. apply typed_unary in Ht as (tx & Hx & Ht). cbn [unary_typed] in Ht. btyping.
  assert (is_integer tx = true) as Hix by done. assert (is_integer ty = true) as Hi by done.
  pose proof (bits_pos it). pose proof (bits_carrier ty).
  unfold fold_sign_extend. apply wp_bind. eapply wp_read_bounds; [done..|]. intros b Hb _.
  destruct (Z.leb_spec (signed b) (bits it)) as [Hle|_]; cbn [andb]; [|by apply wp_ret, rewritten_none].
  assert (forall rho, model t rho -> to_signed (bits it) (val rho x) = to_signed (cbits tx) (val rho x)) as Hsig.
  { intros rho Hm. eapply sfits_extend; [|exact Hle| |].
    - lia.
    - apply (val_fits t rho Hm); [done|solve_scalar].
    - by eapply signed_val; [| |done|solve_scalar|]. }
  assert (forall rho, model t rho -> forall l, eval t rho ty (EUnary (SignExtend it) x) 0 = Some l ->
    l = lit (wrap (cbits ty) (to_signed (cbits tx) (val rho x)))) as Heval.
  { intros rho Hm l Hl. rewrite (ev_sign_extend t rho Hm ty it x tx) in Hl by done.
    rewrite Hsig in Hl by done. by simplify_eq. }
  destruct (bool_decide_reflect (ty = I64)) as [->|Hty]; cbn [negb].
  - destruct (bool_decide_reflect (it = I32)) as [->|Hit]; [by apply wp_ret, rewritten_none|].
    cbn [negb]. assert (bits it <= 32) as Hit32 by (destruct it; simpl in *; done || lia).
    apply wp_bind. eapply wp_mono.
    { eapply (fold_convert rec ok Hrec t t I32 x tx); [by apply step_refl|done|by apply convertible_integer|auto]. }
    intros alias t1 [Hstep1 [Ha Hval]]. apply wp_some.
    apply (fold_after rec ok Hrec); [done| | |].
    + split; [|done]. apply typed_unary. by exists I32.
    + eapply ok_le; [|by apply Hok]. simpl; lia.
    + intros rho Hm l Hl. rewrite (ev_sign_extend t1 rho Hm I64 I32 alias I32) by done.
      pose proof (model_extends _ _ _ Hwf (proj1 Hstep1) Hm) as Hm0.
      rewrite (Heval rho Hm0 l Hl). do 3 f_equal. unfold val at 1.
      rewrite (Hval rho Hm _ eq_refl). rewrite (convert_val t rho Hm0 x tx I32) by done.
      cbn [lit low cbits carrier bits]. rewrite to_signed_wrap.
      eapply sfits_extend; [|exact (Z.le_trans _ _ _ Hle Hit32)| |].
      * destruct (cbits_integer tx Hix); lia.
      * apply (val_fits t rho Hm0); [done|solve_scalar].
      * by eapply signed_val; [| |done|solve_scalar|].
  - apply wp_ret. split; [by apply step_refl|]. exists tx. split_and!; [done|by apply convertible_integer|].
    intros rho Hm l Hl. rewrite (Heval rho Hm l Hl). rewrite (convert_val t rho Hm x tx ty) by done.
    f_equal. rewrite <- (wrap_idem_le (cbits ty) (cbits tx) (to_signed _ _)).
    + rewrite to_signed_mod by (pose proof (bits_pos (carrier tx)); lia).
      by rewrite wrap_idem_le by (destruct (cbits_integer tx Hix), (cbits_integer ty Hi), ty; simpl in *; done || lia).
    + destruct (cbits_integer tx Hix), ty; simpl in *; done || lia.
Qed.
End Widths.
