(* ===== verification/FoldCompare.v ===== *)
(** * Arithmetic, comparisons, selections and shifts

    Soundness of fold/arithmetic.rs, comparisons.rs, select.rs and shifts.rs. *)

From S2P Require Import Prelude Bytes Types Floating Expr Evaluate Values Fold Model Carrier Bounds Table FoldBase FoldArith.
Local Open Scope Z_scope.

(** Two operands with one representation have one value. *)
Lemma represents_same t x y tx ty r rho : model t rho ->
  represents t x tx r -> represents t y ty r -> rho x = rho y.
Proof. intros Hm Hx Hy. rewrite <- (rep_value _ _ _ _ Hx), <- (rep_value _ _ _ _ Hy) by done. done. Qed.

Lemma represents_val t x tx r rho : model t rho -> represents t x tx r -> val rho r = val rho x.
Proof. intros Hm Hx. unfold val. by rewrite (rep_value _ _ _ _ Hx). Qed.
Lemma represents_vec t x tx r rho : model t rho -> represents t x tx r -> vec rho r = vec rho x.
Proof. intros Hm Hx. unfold vec. by rewrite (rep_value _ _ _ _ Hx). Qed.

(** The literal of a representation, as a fact about the operand. *)
Definition known (t : ValueTable) (x : nat) (s : option Z) : Prop :=
  forall z, s = Some z -> forall rho, model t rho -> val rho x = z.

Lemma represents_known t x tx r s : represents t x tx r -> literal_fact t r s -> known t x s.
Proof.
  intros Hrep Hlit z Hz rho Hm. destruct (Hlit z Hz) as [H _].
  rewrite <- (H rho Hm). symmetry. by eapply represents_val.
Qed.

(** Reading the literal of a representation. *)
Lemma wp_read_known t x tx r Q : wf t -> represents t x tx r ->
  (forall s, known t x s ->
    (forall z, s = Some z -> is_scalar tx = true -> fits (cbits tx) z) -> Q s t) ->
  wp (read_scalar r) Q t.
Proof.
  intros Hwf Hrep HQ. destruct (rep_type _ _ _ _ Hrep) as (tr & Htr & Hc).
  eapply wp_read_scalar; [done..|]. intros s _ Hlit. apply HQ; [by eapply represents_known|].
  intros z -> Hs. destruct (literal_operand t r tr z Htr Hlit) as (_ & Hf & _). by rewrite <- Hc.
Qed.

Ltac split_wp := repeat first [ apply wp_bind | eapply wp_read_type; [eassumption|] ].

(** Results of small literals. *)
Lemma some_literal t ty z P : wf t -> is_scalar ty = true -> fits (bits ty) z ->
  (forall rho, model t rho -> forall l, P rho = Some l -> l = lit z) ->
  wp (Some <$> literal ty (lit z)) (rewritten t ty P) t.
Proof.
  intros Hwf Hs Hf HP. apply wp_some. eapply wp_mono; [by apply small_literal_spec|].
  intros id t' (Hstep & _ & Hret). split; [done|]. eapply returns_weaken; [exact Hret|].
  intros rho Hm l Hl. rewrite (HP rho (model_extends _ _ _ Hwf (proj1 Hstep) Hm) l Hl). done.
Qed.

Lemma some_zero t ty P : wf t -> (forall rho, model t rho -> forall l, P rho = Some l -> l = lit 0) ->
  wp (Some <$> literal ty (lit 0)) (rewritten t ty P) t.
Proof.
  intros Hwf HP. apply wp_some. eapply wp_mono; [by apply zero_literal_spec|].
  intros id t' (Hstep & _ & Hret). split; [done|]. eapply returns_weaken; [exact Hret|].
  intros rho Hm l Hl. rewrite (HP rho (model_extends _ _ _ Hwf (proj1 Hstep) Hm) l Hl). done.
Qed.

Lemma b2z_fits ty b : is_scalar ty = true -> fits (bits ty) (Z.b2z b).
Proof.
  intros Hs. pose proof (scalar_bits ty Hs). eapply (fits_mono 1); [lia|].
  destruct b; by apply (bool_decide_unpack _).
Qed.

(** An operand of the result's carrier that equals the result. *)
Lemma rewritten_operand t ty P x tx : wf t -> type_at t x = Some tx -> carrier tx = carrier ty ->
  (forall rho, model t rho -> forall l, P rho = Some l -> rho x = l) -> rewritten t ty P (Some x) t.
Proof. intros Hwf Hx Hc HP. split; [by apply step_refl|]. by eapply yields_same. Qed.

(** ** fold/shifts.rs *)

Section Shifts.
Context (t : ValueTable) (Hwf : wf t).
#[local] Set Default Proof Using "All".

Lemma int_shift_zero ty op z n : is_integer ty = true -> fits (bits (carrier ty)) z ->
  shift_count (carrier ty) n = 0 ->
  wrap (cbits ty) (int_shift (carrier ty) op z n) = z.
Proof.
  intros Hi Hz Hn. unfold int_shift. rewrite Hn, Z.shiftl_0_r, !Z.shiftr_0_r.
  destruct op; rewrite ?wrap_carrier_64 by solve_scalar; try by apply wrap_small.
  rewrite signed_value_spec by solve_scalar.
  rewrite to_signed_mod by (pose proof (bits_pos (carrier ty)); lia). by apply wrap_small.
Qed.

Lemma int_shift_of_zero ty op n : is_integer ty = true ->
  wrap (cbits ty) (int_shift (carrier ty) op 0 n) = 0.
Proof.
  intros Hi. unfold int_shift. rewrite Z.shiftl_0_l, Z.shiftr_0_l. rewrite signed_value_spec by solve_scalar.
  assert (to_signed (cbits ty) 0 = 0) as ->
    by (destruct (cbits_integer ty Hi) as [-> | ->]; done).
  rewrite Z.shiftr_0_l. by destruct op.
Qed.

Lemma fold_shift_spec ty op x n : typed t ty (EShift (ShScalar op) x n) ->
  wp (reads (fun t => fold_shift t ty x n))
     (rewritten t ty (fun rho => eval t rho ty (EShift (ShScalar op) x n) 0)) t.
Proof.
  intros Ht. apply typed_shift in Ht as (tx & tn & Hx & Hn & Ht). unfold shift_typed in Ht. btyping.
  assert (carrier tx = carrier ty) as Hc by done. assert (is_integer ty = true) as Hi by done.
  assert (is_integer tx = true) as Hix by done.
  destruct (scalar_at_spec t n tn Hwf Hn) as (s & Hs & Hlit).
  destruct (input_range t x tx Hwf Hx) as (b & _ & Hb & _).
  eapply wp_reads. { unfold fold_shift, bounds_at. rewrite Hs, Hb. done. }
  destruct (_ || _) eqn:Hfold; [|by apply rewritten_none].
  eapply rewritten_operand; [done..|]. intros rho Hm l Hl.
  rewrite (ev_shift_scalar t rho Hm ty op x n tx tn) in Hl by done.
  apply (inj Some) in Hl as <-. destruct (rho_scalar t rho Hm x tx Hx ltac:(solve_scalar)) as [Hf Hrho].
  rewrite Hrho at 1. f_equal. rewrite Hc in Hf. symmetry.
  apply orb_true_iff in Hfold as [Hz|Hz].
  - destruct s as [z|]; [|done]. apply Z.eqb_eq in Hz. destruct (Hlit z eq_refl) as [Hnz _].
    apply int_shift_zero; [done..|]. rewrite Hnz by done. by rewrite shift_count_carrier.
  - apply Z.eqb_eq in Hz. pose proof (unsigned_val t rho x tx b Hwf Hm Hx ltac:(solve_scalar) Hb) as Hu.
    rewrite Hz in Hu. assert (val rho x = 0) as -> by (unfold fits in Hu; simpl in Hu; lia).
    by apply int_shift_of_zero.
Qed.

Lemma rotate_count_range ty n : is_integer ty = true ->
  0 <= rotate_count (carrier ty) n < cbits ty.
Proof.
  intros Hi. unfold rotate_count. destruct (cbits_integer ty Hi) as [-> | ->].
  - change (32 - 1) with (Z.ones 5). rewrite Z.land_ones by lia. apply Z.mod_pos_bound. lia.
  - change (64 - 1) with (Z.ones 6). rewrite Z.land_ones by lia. apply Z.mod_pos_bound. lia.
Qed.

Lemma rotate_count_shift ty n : is_integer ty = true -> rotate_count (carrier ty) n = shift_count ty n.
Proof. by destruct ty. Qed.

Lemma int_rotate_zero ty op n : is_integer ty = true ->
  wrap (cbits ty) (int_rotate (carrier ty) op 0 n) = 0.
Proof.
  intros Hi. unfold int_rotate. destruct (_ =? 0); [done|]. rewrite !Z.shiftl_0_l, !Z.shiftr_0_l.
  by destruct op.
Qed.

Lemma int_rotate_ones ty op n : is_integer ty = true ->
  wrap (cbits ty) (int_rotate (carrier ty) op (Z.ones (cbits ty)) n) = Z.ones (cbits ty).
Proof.
  intros Hi. unfold int_rotate. pose proof (rotate_count_range ty n Hi) as Hr.
  pose proof (bits_pos (carrier ty)). set (c := rotate_count (carrier ty) n) in *.
  assert (0 <= cbits ty <= 64) by (destruct (cbits_integer ty Hi); lia).
  destruct (Z.eqb_spec c 0); [apply wrap_small, fits_ones; lia|].
  apply Z.bits_inj'. intros i Hi0.
  destruct op; rewrite testbit_wrap, Z.lor_spec, testbit_wrap, testbit_shiftl, testbit_shiftr, !testbit_ones by lia;
    split_tests; cbn; done || lia.
Qed.

Lemma fold_rotate_spec ty op x n : typed t ty (EShift (Rotate op) x n) ->
  wp (reads (fun t => fold_rotate t ty x n))
     (rewritten t ty (fun rho => eval t rho ty (EShift (Rotate op) x n) 0)) t.
Proof.
  intros Ht. apply typed_shift in Ht as (tx & tn & Hx & Hn & Ht). unfold shift_typed in Ht. btyping.
  assert (carrier tx = carrier ty) as Hc by done. assert (is_integer ty = true) as Hi by done.
  assert (is_integer tx = true) as Hix by done.
  destruct (scalar_at_spec t n tn Hwf Hn) as (s & Hs & Hlit).
  destruct (scalar_at_spec t x tx Hwf Hx) as (sx & Hsx & Hlitx).
  destruct (input_range t x tx Hwf Hx) as (b & _ & Hb & _).
  eapply wp_reads. { unfold fold_rotate, fold_shift, bounds_at. rewrite Hs, Hb, Hsx. done. }
  assert (forall rho, model t rho -> forall l, eval t rho ty (EShift (Rotate op) x n) 0 = Some l ->
    wrap (cbits ty) (int_rotate (carrier ty) op (val rho x) (wrap 32 (val rho n))) = val rho x ->
    rho x = l) as Hgoal.
  { intros rho Hm l Hl Heq. rewrite (ev_rotate t rho Hm ty op x n tx tn) in Hl by done.
    apply (inj Some) in Hl as <-. rewrite Heq. apply (rho_scalar t rho Hm x tx Hx). solve_scalar. }
  destruct (_ || (unsigned b =? 0)) eqn:Hfold.
  - eapply rewritten_operand; [done..|]. intros rho Hm l Hl. apply Hgoal; [done..|].
    pose proof (val_fits t rho Hm x tx Hx ltac:(solve_scalar)) as Hf. rewrite Hc in Hf.
    apply orb_true_iff in Hfold as [Hz|Hz].
    + destruct s as [z|]; [|done]. apply Z.eqb_eq in Hz. destruct (Hlit z eq_refl) as [Hnz _].
      unfold int_rotate. rewrite rotate_count_shift, Hnz, Hz by done. cbn. by apply wrap_small.
    + apply Z.eqb_eq in Hz. pose proof (unsigned_val t rho x tx b Hwf Hm Hx ltac:(solve_scalar) Hb) as Hu.
      rewrite Hz in Hu. assert (val rho x = 0) as -> by (unfold fits in Hu; simpl in Hu; lia).
      by apply int_rotate_zero.
  - destruct sx as [z|]; [|by apply rewritten_none].
    destruct ((z =? 0) || (z =? mask (carrier ty))) eqn:Hid; [|by apply rewritten_none].
    eapply rewritten_operand; [done..|]. intros rho Hm l Hl. apply Hgoal; [done..|].
    destruct (Hlitx z eq_refl) as [Hz _]. rewrite Hz by done.
    apply orb_true_iff in Hid as [->%Z.eqb_eq | ->%Z.eqb_eq]; [by apply int_rotate_zero|].
    rewrite carrier_mask by done. by apply int_rotate_ones.
Qed.
End Shifts.

(** ** fold/arithmetic.rs *)

(** A product whose factors' widths fit one word, or with a 0/1 factor. *)
Lemma unsigned_product_small a b x y : fits a x -> fits b y -> fits 64 x -> fits 64 y ->
  a + b <= 64 \/ a <= 1 \/ b <= 1 -> 0 <= x * y < 2 ^ 64.
Proof.
  intros Ha Hb Hx Hy [H|[H|H]].
  - pose proof (fits_mul _ _ _ _ Ha Hb) as Hm. apply (fits_mono _ 64) in Hm; done.
  - apply (fits_mono _ 1) in Ha; [|done]. destruct Ha, Hy. nia.
  - apply (fits_mono _ 1) in Hb; [|done]. destruct Hb, Hx. nia.
Qed.

Lemma signed_one x : fits 1 x -> to_signed 64 x = x.
Proof. intros [H0 H1]. assert (x = 0 \/ x = 1) as [-> | ->] by lia; done. Qed.

Lemma signed_product_small a b ua ub x y : sfits 64 a x -> sfits 64 b y -> fits 64 x -> fits 64 y ->
  fits ua x -> fits ub y -> a + b <= 64 \/ ua <= 1 \/ ub <= 1 ->
  - 2 ^ 63 <= to_signed 64 x * to_signed 64 y < 2 ^ 63.
Proof.
  intros [HA HB] [HC HD] Hx Hy Hux Huy [H|[H|H]].
  - assert (0 < a) by (destruct (decide (0 < a)); [done|]; rewrite !Z.pow_neg_r in HA, HB by lia; lia).
    assert (0 < b) by (destruct (decide (0 < b)); [done|]; rewrite !Z.pow_neg_r in HC, HD by lia; lia).
    assert (2 ^ (a - 1) * 2 ^ (b - 1) <= 2 ^ 62) as Hp.
    { rewrite <- Z.pow_add_r by lia. apply Z.pow_le_mono_r; lia. }
    set (P := 2 ^ (a - 1)) in *. set (Q := 2 ^ (b - 1)) in *.
    assert (Z.abs (to_signed 64 x * to_signed 64 y) <= P * Q) as Habs; [|lia].
    rewrite Z.abs_mul. apply Z.mul_le_mono_nonneg; lia.
  - apply (fits_mono _ 1) in Hux; [|done]. rewrite (signed_one x Hux).
    pose proof (to_signed_range 64 y ltac:(lia)). destruct Hux. 
    assert (x = 0 \/ x = 1) as [-> | ->] by lia; lia.
  - apply (fits_mono _ 1) in Huy; [|done]. rewrite (signed_one y Huy).
    pose proof (to_signed_range 64 x ltac:(lia)). destruct Huy.
    assert (y = 0 \/ y = 1) as [-> | ->] by lia; lia.
Qed.

(** The two words of a small product. *)
Lemma wide_low (s : bool) x y : fits 64 x -> fits 64 y ->
  wrap 64 (Z.shiftr (if s then wrap 128 (to_signed 64 x * to_signed 64 y) else x * y) 0)
  = wrap 64 (x * y).
Proof.
  intros Hx Hy. rewrite Z.shiftr_0_r. destruct s; [|done]. rewrite wrap_idem_le by lia.
  rewrite <- wrap_mul_l, <- wrap_mul_r, !to_signed_mod by lia. by rewrite wrap_mul_l, wrap_mul_r.
Qed.

Lemma wide_high_unsigned x y : 0 <= x * y < 2 ^ 64 -> wrap 64 (Z.shiftr (x * y) 64) = 0.
Proof.
  intros H. rewrite Z.shiftr_div_pow2 by lia. rewrite Z.div_small by done. done.
Qed.

Lemma wide_high_signed p : - 2 ^ 63 <= p < 2 ^ 63 ->
  wrap 64 (Z.shiftr (wrap 128 p) 64) = wrap 64 (Z.shiftr (to_signed 64 (wrap 64 p)) 63).
Proof.
  intros Hp. rewrite to_signed_wrap_range by lia. rewrite !Z.shiftr_div_pow2 by lia. unfold wrap.
  destruct (decide (0 <= p)).
  - rewrite (Z.mod_small p) by lia. rewrite !Z.div_small by lia. done.
  - assert (p mod 2 ^ 128 = p + 2 ^ 128) as -> by (symmetry; apply (Z.mod_unique p _ (-1)); [left|]; lia).
    assert (p / 2 ^ 63 = -1) as -> by (symmetry; apply (Z.div_unique p _ _ (p + 2 ^ 63)); [left|]; lia).
    assert ((p + 2 ^ 128) / 2 ^ 64 = 2 ^ 64 - 1) as ->; [|done].
    symmetry. apply (Z.div_unique _ _ _ (p + 2 ^ 64)); [left|]; lia.
Qed.

Lemma mul_typed t x y : type_at t x = Some I64 -> type_at t y = Some I64 ->
  admissible t I64 (EBinary (Integer Mul) x y).
Proof. intros Hx Hy. split; [|done]. apply typed_binary. by exists I64, I64. Qed.

Section Arithmetic.
Context (rec : Ty -> Expression nat -> nat -> T nat) (ok : nat -> Prop).
Context (ok_le : forall a b, (a <= b)%nat -> ok b -> ok a) (Hrec : folds rec ok).
#[local] Set Default Proof Using "ok_le Hrec".

Lemma fold_multiply_wide_spec t s x y c : wf t -> typed t I64 (EMultiplyWide s x y) -> (c < 2)%nat ->
  ok 1%nat ->
  wp (fold_multiply_wide rec s x y c) (fun o t' => step t t' /\ match o with
    | Some id => returns t' id I64 (fun rho => eval t rho I64 (EMultiplyWide s x y) c)
    | None => True end) t.
Proof.
  intros Hwf Ht Hc Hok. apply typed_multiply in Ht as (Hx & Hy & _). unfold fold_multiply_wide.
  apply wp_bind. eapply wp_read_bounds; [done..|]. intros lb Hlb _.
  apply wp_bind. eapply wp_read_bounds; [done..|]. intros rb Hrb _.
  destruct (_ && (1 <? unsigned rb)) eqn:Hbig; [apply wp_ret; split; [by apply step_refl|done]|].
  assert ((if s then signed lb + signed rb else unsigned lb + unsigned rb) <= 64
          \/ unsigned lb <= 1 \/ unsigned rb <= 1) as Hsmall.
  { apply andb_false_iff in Hbig as [Hbig|Hbig]; [apply andb_false_iff in Hbig as [Hbig|Hbig] |];
      apply Z.ltb_ge in Hbig; auto. }
  assert (forall rho, model t rho ->
    fits 64 (val rho x) /\ fits 64 (val rho y) /\
    fits (unsigned lb) (val rho x) /\ fits (unsigned rb) (val rho y) /\
    sfits 64 (signed lb) (val rho x) /\ sfits 64 (signed rb) (val rho y)) as Hfacts.
  { intros rho Hm. split_and!.
    - by apply (val_fits t rho Hm x I64).
    - by apply (val_fits t rho Hm y I64).
    - by eapply (unsigned_val t rho x I64).
    - by eapply (unsigned_val t rho y I64).
    - by eapply (signed_val t rho x I64).
    - by eapply (signed_val t rho y I64). }
  destruct (Nat.eqb c 1 && negb s) eqn:Hz.
  { apply andb_true_iff in Hz as [->%Nat.eqb_eq Hs]. destruct s; [done|].
    apply wp_fmap. eapply wp_mono; [by apply zero_literal_spec|].
    intros id t' (Hstep & _ & Hret). split; [done|]. eapply returns_weaken; [exact Hret|].
    intros rho Hm l <-. pose proof (model_extends _ _ _ Hwf (proj1 Hstep) Hm) as Hm0.
    rewrite (ev_multiply t rho Hm0 false x y 1) by done. cbn [Z.of_nat Z.mul Pos.of_succ_nat Pos.mul].
    destruct (Hfacts rho Hm0) as (H1 & H2 & H3 & H4 & _).
    rewrite wide_high_unsigned; [done|]. by eapply unsigned_product_small. }
  apply wp_bind. eapply wp_mono.
  { apply (fold_spec rec ok Hrec t I64 (EBinary (Integer Mul) x y)); [done|by apply mul_typed|done]. }
  intros lo t1 [Hstep1 [Hlo Hval1]].
  assert (forall rho, model t1 rho -> val rho lo = wrap 64 (val rho x * val rho y)) as Hlowval.
  { intros rho Hm. pose proof (model_extends _ _ _ Hwf (proj1 Hstep1) Hm) as Hm0.
    unfold val at 1. rewrite (Hval1 rho Hm (lit (wrap 64 (val rho x * val rho y)))); [done|].
    rewrite (ev_integer t rho Hm0 I64 Mul x y I64 I64) by done. cbn. by rewrite wrap_wrap. }
  destruct (Nat.eqb_spec c 0) as [->|Hc0].
  { apply wp_ret. split; [done|]. split; [done|]. intros rho Hm l Hl.
    pose proof (model_extends _ _ _ Hwf (proj1 Hstep1) Hm) as Hm0.
    rewrite (ev_multiply t rho Hm0 s x y 0) in Hl by done. cbn [Z.of_nat Z.mul] in Hl.
    destruct (Hfacts rho Hm0) as (H1 & H2 & _). rewrite wide_low in Hl by done. simplify_eq.
    rewrite <- Hlowval by done. by apply (rho_scalar t1 rho Hm lo I64). }
  assert (c = 1%nat) as -> by lia. destruct s; [|done].
  apply wp_bind. eapply wp_mono; [by apply small_literal_spec; [apply Hstep1| |apply (bool_decide_unpack _)]|].
  intros count t2 (Hstep2 & _ & [Hcount Hcval]).
  apply wp_fmap. eapply wp_mono.
  - apply (fold_spec rec ok Hrec t2 I64 (EShift (ShScalar RightSigned) lo count)); [apply Hstep2| |done].
    split; [|done]. apply typed_shift. exists I64, I64.
    split_and!; [eapply extends_type; [apply Hstep2|done]|done|done].
  - intros id t3 [Hstep3 Hret]. split; [by eapply step_trans; [|eapply step_trans] |].
    eapply returns_weaken; [exact Hret|]. intros rho Hm l <-.
    pose proof (model_extends _ _ _ (proj2 Hstep2) (proj1 Hstep3) Hm) as Hm2.
    pose proof (model_extends _ _ _ (proj2 Hstep1) (proj1 Hstep2) Hm2) as Hm1.
    pose proof (model_extends _ _ _ Hwf (proj1 Hstep1) Hm1) as Hm0.
    rewrite (ev_shift_scalar t2 rho Hm2 I64 RightSigned lo count I64 I64)
      by (done || (eapply extends_type; [apply Hstep2|done])).
    rewrite (ev_multiply t rho Hm0 true x y 1) by done. cbn [Z.of_nat Z.mul Pos.of_succ_nat Pos.mul].
    destruct (Hfacts rho Hm0) as (H1 & H2 & H3 & H4 & H5 & H6).
    do 2 f_equal. cbn [cbits carrier bits int_shift]. rewrite (Hlowval rho Hm1).
    unfold val at 3. rewrite (Hcval rho Hm2 _ eq_refl). cbn [low lit].
    change (shift_count I64 (wrap 32 63)) with 63. rewrite signed_value_spec by done.
    rewrite wrap_wrap. cbn [bits].
    rewrite wide_high_signed by (by eapply signed_product_small).
    do 3 f_equal. rewrite <- wrap_mul_l, <- wrap_mul_r, <- (to_signed_mod 64 (val rho x)),
      <- (to_signed_mod 64 (val rho y)), wrap_mul_l, wrap_mul_r by lia. done.
Qed.

(** [add_constant] over the whole carrier. *)
Lemma add_constant_rewrites t ty x k P : wf t -> type_at t x = Some ty -> is_integer ty = true ->
  (forall rho, model t rho -> forall l, P rho = Some l -> l = lit (wrap (cbits ty) (val rho x + k))) ->
  wp (Some <$> add_constant ty x k (cbits ty)) (rewritten t ty P) t.
Proof using Type.
  intros Hwf Hx Hi HP. apply wp_some. eapply wp_mono.
  - apply add_constant_spec; [done..|]. pose proof (bits_pos (carrier ty)). lia.
  - intros id t' (Hstep & Hid & Hval). split; [done|]. split; [done|]. intros rho Hm l Hl.
    rewrite (HP rho (model_extends _ _ _ Hwf (proj1 Hstep) Hm) l Hl), <- Hval by done.
    destruct (rho_scalar t' rho Hm id ty Hid ltac:(solve_scalar)) as [Hf Hrho].
    by rewrite wrap_small.
Qed.

Lemma div_narrow op x y : op = DivUnsigned \/ op = RemUnsigned -> fits 32 x -> fits 32 y ->
  wrap 64 <$> int_binary I64 op x y = wrap 32 <$> int_binary I32 op x y.
Proof using Type.
  intros Hop Hx Hy. assert (forall q, fits 32 q -> wrap 64 q = wrap 32 q) as Hw.
  { intros q Hq. rewrite !wrap_small; try done. by eapply fits_mono; [|exact Hq]. }
  destruct Hop as [-> | ->]; cbn [int_binary].
  - destruct (checked_udiv x y) as [q|] eqn:Hq; [|done]. cbn. f_equal. apply Hw.
    eapply fits_div; [done|done|apply Hy].
  - destruct (checked_urem x y) as [q|] eqn:Hq; [|done]. cbn. f_equal. apply Hw.
    eapply fits_rem; [done|done|apply Hy].
Qed.

(** Unsigned division of short operands in i32. *)
Lemma fold_short_division t op x y lb rb : wf t -> op = DivUnsigned \/ op = RemUnsigned ->
  type_at t x = Some I64 -> type_at t y = Some I64 ->
  bounds t !! x = Some lb -> bounds t !! y = Some rb -> unsigned lb <= 32 -> unsigned rb <= 32 ->
  ok 1%nat ->
  wp (l ← convert_value rec x I32; r ← convert_value rec y I32;
      Some <$> fold rec I32 (EBinary (Integer op) l r))
     (rewritten t I64 (fun rho => eval t rho I64 (EBinary (Integer op) x y) 0)) t.
Proof.
  intros Hwf Hop Hx Hy Hlb Hrb Hl32 Hr32 Hok.
  assert (forall rho z b, model t rho -> type_at t z = Some I64 -> bounds t !! z = Some b ->
    unsigned b <= 32 -> fits 32 (val rho z) /\
    lit_normalize (rho z) (carrier I32) = lit (val rho z)) as Hshort.
  { intros rho z b Hm Hz Hb Hle.
    assert (fits 32 (val rho z)) as Hf by (eapply fits_mono; [exact Hle|]; by eapply (unsigned_val t rho z I64)).
    split; [done|]. rewrite (convert_val t rho Hm z I64 I32) by done. by rewrite wrap_small. }
  apply wp_bind. eapply wp_mono.
  { apply (convert_spec rec ok ok_le Hrec t x I64 I32); done. }
  intros l t1 [Hstep1 [Hl Hlval]]. pose proof (extends_type _ _ _ _ (proj1 Hstep1) Hy) as Hy1.
  apply wp_bind. eapply wp_mono.
  { apply (convert_spec rec ok ok_le Hrec t1 y I64 I32); [apply Hstep1|done..]. }
  intros r t2 [Hstep2 [Hr Hrval]]. cbn [bits Z.ltb Z.compare Pos.compare Pos.compare_cont] in *.
  assert (forall rho, model t2 rho -> val rho l = val rho x /\ val rho r = val rho y /\
    fits 32 (val rho x) /\ fits 32 (val rho y)) as Hvals.
  { intros rho Hm. pose proof (model_extends _ _ _ (proj2 Hstep1) (proj1 Hstep2) Hm) as Hm1.
    pose proof (model_extends _ _ _ Hwf (proj1 Hstep1) Hm1) as Hm0.
    destruct (Hshort rho x lb) as [Hfx Hx']; [done..|]. destruct (Hshort rho y rb) as [Hfy Hy']; [done..|].
    unfold val at 1 3. rewrite (Hlval rho Hm1 _ eq_refl), (Hrval rho Hm _ eq_refl), Hx', Hy'. done. }
  pose proof (extends_type _ _ _ _ (proj1 Hstep2) Hl) as Hl2.
  apply wp_fmap. eapply wp_mono.
  - apply (fold_spec rec ok Hrec t2 I32 (EBinary (Integer op) l r)); [apply Hstep2| |].
    + split; [apply typed_binary; exists I32, I32; by destruct Hop as [-> | ->]|].
      intros rho Hm. destruct (Hvals rho Hm) as (Hv & _ & Hf & _). unfold val in Hv.
      destruct Hop as [-> | ->]; cbn [premise]; rewrite Hv; done.
    + by destruct Hop as [-> | ->].
  - intros id t3 [Hstep3 [Hid Hval]]. split; [by eapply step_trans; [|eapply step_trans] |].
    exists I32. split_and!; [done|done|]. intros rho Hm v Hv.
    pose proof (model_extends _ _ _ (proj2 Hstep2) (proj1 Hstep3) Hm) as Hm2.
    pose proof (model_extends _ _ _ (proj2 Hstep1) (proj1 Hstep2) Hm2) as Hm1.
    pose proof (model_extends _ _ _ Hwf (proj1 Hstep1) Hm1) as Hm0.
    destruct (Hvals rho Hm2) as (Hvl & Hvr & Hfx & Hfy).
    rewrite (ev_integer t rho Hm0 I64 op x y I64 I64) in Hv by done.
    cbn [cbits carrier bits] in Hv.
    pose proof (div_narrow op _ _ Hop Hfx Hfy) as Hnarrow.
    destruct (int_binary I64 op (val rho x) (val rho y)) as [q|]; [|done].
    destruct (int_binary I32 op (val rho x) (val rho y)) as [q'|] eqn:Hq'; [|done].
    cbn in Hv, Hnarrow. simplify_eq. rewrite (Hval rho Hm (lit (wrap 32 q'))).
    + change (carrier I64) with I64. rewrite Hnarrow. apply lit_normalize_fits; [done|].
      eapply (fits_mono 32); [done|]. apply wrap_fits. lia.
    + rewrite (ev_integer t2 rho Hm2 I32 op l r I32 I32) by done. rewrite Hvl, Hvr.
      change (carrier I32) with I32. by rewrite Hq'.
Qed.

Lemma fold_binary_spec t ty op x y : wf t -> typed t ty (EBinary (Integer op) x y) ->
  (ty = I64 -> op = DivUnsigned \/ op = RemUnsigned -> ok 1%nat) ->
  wp (fold_binary rec ty op x y) (rewritten t ty (fun rho => eval t rho ty (EBinary (Integer op) x y) 0)) t.
Proof.
  intros Hwf Ht Hok. apply typed_binary in Ht as (tx & ty' & Hx & Hy & Ht).
  assert (is_integer ty = true /\ carrier tx = carrier ty /\ carrier ty' = carrier ty) as (Hi & Hcx & Hcy).
  { destruct op; cbn [binary_typed] in Ht; btyping; subst; done. }
  assert (is_integer tx = true) as Hix by by eapply integer_of_carrier.
  assert (is_integer ty' = true) as Hiy by by eapply integer_of_carrier.
  assert (forall rho, model t rho -> eval t rho ty (EBinary (Integer op) x y) 0
    = (fun b => lit (wrap (cbits ty) b)) <$> int_binary (carrier ty) op (val rho x) (val rho y)) as Heval.
  { intros rho Hm. by apply (ev_integer t rho Hm ty op x y tx ty'). }
  unfold fold_binary. apply wp_bind. eapply wp_read_representation; [done..|]. intros a Ha.
  apply wp_bind. eapply wp_read_representation; [done..|]. intros b Hb.
  apply wp_bind. eapply wp_read_known; [done..|]. intros p Hp _.
  apply wp_bind. eapply wp_read_known; [done..|]. intros q Hq _. cbv zeta.
  (* A constant operand of an addition or subtraction. *)
  assert (forall z k, type_at t z = Some ty ->
    (forall rho, model t rho -> exists v, int_binary (carrier ty) op (val rho x) (val rho y) = Some v /\
      wrap (cbits ty) v = wrap (cbits ty) (val rho z + k)) ->
    wp (Some <$> add_constant ty z k (cbits ty))
       (rewritten t ty (fun rho => eval t rho ty (EBinary (Integer op) x y) 0)) t) as Hconst.
  { intros z k Hz Heq. apply add_constant_rewrites; [done..|]. intros rho Hm l Hl.
    rewrite Heval in Hl by done. destruct (Heq rho Hm) as (v & Hv & Hw). rewrite Hv in Hl. cbn in Hl.
    rewrite <- Hw. by simplify_eq. }
  assert (op = Add \/ op = Sub -> tx = ty /\ ty' = ty) as Hstrict.
  { intros [-> | ->]; cbn [binary_typed] in Ht; by btyping. }
  assert (forall z tz, type_at t z = Some tz -> carrier tz = carrier ty ->
    (forall rho, model t rho -> forall v, int_binary (carrier ty) op (val rho x) (val rho y) = Some v ->
      wrap (cbits ty) v = val rho z) ->
    wp (mret (Some z)) (rewritten t ty (fun rho => eval t rho ty (EBinary (Integer op) x y) 0)) t) as Hoperand.
  { intros z tz Hz Hc Heq. apply wp_ret. eapply rewritten_operand; [done..|].
    intros rho Hm l Hl. rewrite Heval in Hl by done. apply fmap_Some in Hl as (v & Hv & ->).
    rewrite (Heq rho Hm v Hv). apply (rho_scalar t rho Hm z tz); [done|].
    rewrite <- carrier_scalar, Hc, carrier_scalar. solve_scalar. }
  assert ((forall rho, model t rho -> forall v, int_binary (carrier ty) op (val rho x) (val rho y) = Some v ->
      wrap (cbits ty) v = 0) ->
    wp (Some <$> literal ty (lit 0)) (rewritten t ty (fun rho => eval t rho ty (EBinary (Integer op) x y) 0)) t)
    as Hzero.
  { intros Heq. apply some_zero; [done|]. intros rho Hm l Hl. rewrite Heval in Hl by done.
    apply fmap_Some in Hl as (v & Hv & ->). by rewrite (Heq rho Hm v Hv). }
  assert (wp (mret None) (rewritten t ty (fun rho => eval t rho ty (EBinary (Integer op) x y) 0)) t) as Hnone
    by by apply wp_ret, rewritten_none.
  assert (forall z tz rho, model t rho -> type_at t z = Some tz -> carrier tz = carrier ty ->
    wrap (cbits ty) (val rho z) = val rho z) as Hself.
  { intros z tz rho Hm Hz Hc. apply wrap_small. rewrite <- Hc. apply (val_fits t rho Hm); [done|].
    rewrite <- carrier_scalar, Hc, carrier_scalar. solve_scalar. }
  destruct op.
  - destruct q as [k|]; [|destruct p as [k|]; [|done] ].
    + assert (wp (Some <$> add_constant ty x k (cbits ty))
        (rewritten t ty (fun rho => eval t rho ty (EBinary (Integer Add) x y) 0)) t); [|by destruct p].
      destruct (Hstrict ltac:(auto)) as [-> ->]. apply Hconst; [done|]. intros rho Hm.
      eexists. split; [done|]. rewrite wrap_carrier_64 by solve_scalar. by rewrite (Hq k eq_refl rho Hm).
    + destruct (Hstrict ltac:(auto)) as [-> ->]. apply Hconst; [done|]. intros rho Hm.
      eexists. split; [done|]. rewrite wrap_carrier_64 by solve_scalar.
      rewrite (Hp k eq_refl rho Hm). f_equal. lia.
  - destruct q as [k|].
    + destruct (Hstrict ltac:(auto)) as [-> ->]. apply Hconst; [done|]. intros rho Hm.
      eexists. split; [done|]. rewrite wrap_carrier_64 by solve_scalar. rewrite (Hq k eq_refl rho Hm).
      rewrite <- (wrap_add_r (cbits ty)), wrap_carrier_64, wrap_add_r by solve_scalar. done.
    + destruct (Nat.eqb_spec a b) as [<-|]; [|done]. apply Hzero. intros rho Hm v [= <-].
      rewrite wrap_carrier_64 by solve_scalar.
      assert (rho x = rho y) as Hxy by by eapply represents_same.
      unfold val. rewrite Hxy, Z.sub_diag. unfold wrap. by rewrite Z.mod_0_l by (apply Z.pow_nonzero; pose proof (bits_pos (carrier ty)); lia).
  - destruct (bool_decide_reflect (q = Some 1)) as [->|Hq1].
    { apply (Hoperand x tx); [done..|]. intros rho Hm v [= <-]. rewrite wrap_carrier_64 by solve_scalar.
      rewrite (Hq 1 eq_refl rho Hm), Z.mul_1_r. by eapply Hself. }
    destruct (bool_decide_reflect (p = Some 1)) as [->|Hp1].
    { apply (Hoperand y ty'); [done..|]. intros rho Hm v [= <-]. rewrite wrap_carrier_64 by solve_scalar.
      rewrite (Hp 1 eq_refl rho Hm), Z.mul_1_l. by eapply Hself. }
    destruct (bool_decide_reflect (q = Some 0)) as [->|].
    { apply Hzero. intros rho Hm v [= <-]. rewrite wrap_carrier_64 by solve_scalar.
      by rewrite (Hq 0 eq_refl rho Hm), Z.mul_0_r. }
    destruct (bool_decide_reflect (p = Some 0)) as [->|]; [|done].
    apply Hzero. intros rho Hm v [= <-]. rewrite wrap_carrier_64 by solve_scalar.
    by rewrite (Hp 0 eq_refl rho Hm).
  - apply wp_bind. eapply wp_read_bounds; [done..|]. intros lb Hlb _.
    apply wp_bind. eapply wp_read_bounds; [done..|]. intros rb Hrb _.
    destruct (_ && (unsigned rb <=? 32)) eqn:Hg; [|done]. btyping. subst ty.
    assert (tx = I64) as -> by by destruct tx. assert (ty' = I64) as -> by by destruct ty'.
    eapply fold_short_division; eauto.
  - done.
  - apply wp_bind. eapply wp_read_bounds; [done..|]. intros lb Hlb _.
    apply wp_bind. eapply wp_read_bounds; [done..|]. intros rb Hrb _.
    destruct (_ && (unsigned rb <=? 32)) eqn:Hg; [|done]. btyping. subst ty.
    assert (tx = I64) as -> by by destruct tx. assert (ty' = I64) as -> by by destruct ty'.
    eapply fold_short_division; eauto.
  - done.
Qed.
End Arithmetic.

(** ** fold/comparisons.rs *)

Lemma b2z_normalize ty b : is_scalar ty = true -> lit_normalize (lit (Z.b2z b)) (carrier ty) = lit (Z.b2z b).
Proof.
  intros Hs. apply lit_normalize_fits; [by rewrite carrier_scalar|]. apply b2z_fits. by rewrite carrier_scalar.
Qed.

Lemma eqb_truth b : Bool.eqb b true = b.
Proof. by destruct b. Qed.

Lemma fits_one z : fits 1 z -> z = Z.b2z (negb (z =? 0)).
Proof. intros [H0 H1]. assert (z = 0 \/ z = 1) as [-> | ->] by lia; done. Qed.

Lemma power_of_two_bit m z : is_power_of_two m = true -> 0 <= m -> Z.land z m = 0 \/ Z.land z m = m.
Proof.
  intros Hp Hm. unfold is_power_of_two in Hp. apply Z.eqb_eq in Hp. destruct m as [|p|]; [done| |done].
  simpl in Hp. assert (forall p, popcount_pos p = 1 -> exists k, 0 <= k /\ Zpos p = 2 ^ k) as Hpow.
  { clear. intros p. induction p as [p IH|p IH|]; simpl; intros H.
    - assert (forall q, 1 <= popcount_pos q) as Hge by (clear; intros q; induction q; simpl; lia).
      specialize (Hge p). lia.
    - destruct (IH H) as (k & Hk & E). exists (k + 1). split; [lia|].
      rewrite Pos2Z.inj_xO, E, Z.pow_add_r by lia. lia.
    - by exists 0. }
  destruct (Hpow p Hp) as (k & Hk & ->).
  assert (Z.land z (2 ^ k) = if Z.testbit z k then 2 ^ k else 0) as ->; [|destruct (Z.testbit z k); auto].
  apply Z.bits_inj'. intros i Hi. rewrite Z.land_spec, Z.pow2_bits_eqb by lia.
  destruct (Z.eqb_spec k i) as [->|].
  - destruct (Z.testbit z i); [by rewrite Z.pow2_bits_true|by rewrite Z.testbit_0_l].
  - rewrite andb_false_r. destruct (Z.testbit z k); [by rewrite Z.pow2_bits_false|by rewrite Z.testbit_0_l].
Qed.

(** A comparison whose candidates all agree. *)
Definition choice_fact (t : ValueTable) (input : nat) (c : ConstantComparison) (o : option bool) : Prop :=
  match o with
  | Some b => forall rho, model t rho -> cc_evaluate c (val rho input) = b
  | None => True
  end.

Lemma compare_choices_spec t : wf t -> forall fuel remaining input ti c, (remaining < fuel)%nat ->
  type_at t input = Some ti -> is_scalar ti = true ->
  exists o n, compare_choices fuel t input c remaining = Some (o, n) /\ (n <= remaining)%nat /\
    choice_fact t input c o.
Proof.
  intros Hwf. induction fuel as [|fuel IH]; intros remaining input ti c Hlt Hti Hs; [lia|].
  cbn [compare_choices]. destruct remaining as [|remaining]; [by exists None, 0%nat|].
  pose proof Hti as Hti'. apply fmap_Some in Hti' as (v & Hv & ->). unfold value_at. rewrite Hv.
  cbn [mbind option_bind]. pose proof (scalar_literal_fact t input v Hwf Hv) as Hlit.
  destruct (scalar_literal v) as [z|] eqn:Hsl.
  { exists (Some (cc_evaluate c z)), remaining. split_and!; [done|lia|]. intros rho Hm.
    destruct (Hlit z eq_refl) as [Hz _]. by rewrite Hz. }
  destruct (input_range t input (ty v) Hwf Hti) as (b & _ & Hb & _). unfold bounds_at. rewrite Hb.
  assert (exists o n, (if unsigned b <=? 1 then
      let zero := cc_evaluate c 0 in
      Some (if Bool.eqb zero (cc_evaluate c 1) then Some zero else None, remaining)
    else Some (None, remaining)) = Some (o, n) /\ (n <= S remaining)%nat /\ choice_fact t input c o) as Hother.
  { destruct (Z.leb_spec (unsigned b) 1) as [Hle|]; [|exists None, remaining; split_and!; done || lia].
    cbv zeta. eexists _, remaining. split_and!; [done|lia|].
    destruct (Bool.eqb (cc_evaluate c 0) (cc_evaluate c 1)) eqn:Heq; [|done].
    apply eqb_prop in Heq. intros rho Hm.
    pose proof (unsigned_val t rho input (ty v) b Hwf Hm Hti Hs Hb) as Hf.
    apply (fits_mono _ 1) in Hf; [|done].
    assert (val rho input = 0 \/ val rho input = 1) as [-> | ->] by (destruct Hf; lia); done. }
  destruct v as [tv d]. cbn [definition ty] in *.
  destruct d as [|[| | |op x y z|]| |]; try exact Hother. destruct op; try exact Hother.
  destruct (stored_expression t input tv _ Hwf Hv) as (Hin & Ht & Hst).
  apply typed_ternary in Ht as (tx & ty' & tz & Hx & Hy & Hz & Ht). cbn [ternary_typed] in Ht. btyping.
  assert (carrier tx = carrier tv) as Hcx by done. assert (carrier ty' = carrier tv) as Hcy by done.
  assert (is_scalar tx = true) as Hsx by by eapply scalar_of_carrier.
  assert (is_scalar ty' = true) as Hsy by by eapply scalar_of_carrier.
  assert (forall rho, model t rho -> val rho input = val rho x \/ val rho input = val rho y) as Hval.
  { intros rho Hm. destruct (Hst rho Hm) as [_ Hi]. unfold val.
    rewrite (Hi _ (ev_select t rho Hm tv x y z tx ty' tz 0 Hx Hy Hz Hcx Hcy ltac:(done))).
    destruct (negb _); auto. }
  destruct (IH remaining x tx c ltac:(lia) Hx Hsx) as (o1 & n1 & -> & Hn1 & Hc1). cbn [mbind option_bind].
  destruct o1 as [b1|]; [|exists None, n1; split_and!; done || lia].
  destruct (IH n1 y ty' c ltac:(lia) Hy Hsy) as (o2 & n2 & -> & Hn2 & Hc2). cbn [mbind option_bind].
  destruct o2 as [b2|]; [|exists None, n2; split_and!; done || lia].
  eexists _, n2. split_and!; [done|lia|]. destruct (Bool.eqb b1 b2) eqn:Heq; [|done].
  apply eqb_prop in Heq as ->. intros rho Hm. cbn in Hc1, Hc2.
  destruct (Hval rho Hm) as [-> | ->]; eauto.
Qed.

Lemma compare_constant_choices_spec t op x y tx ty' cty : wf t ->
  type_at t x = Some tx -> type_at t y = Some ty' -> is_scalar tx = true -> is_scalar ty' = true ->
  exists o, compare_constant_choices t op x y cty = Some o /\
    forall b, o = Some b -> forall rho, model t rho ->
      int_compare cty op (normalize cty (val rho x)) (normalize cty (val rho y)) = b.
Proof.
  intros Hwf Hx Hy Hsx Hsy. unfold compare_constant_choices.
  destruct (scalar_at_spec t x tx Hwf Hx) as (a & Ha & Hla).
  destruct (scalar_at_spec t y ty' Hwf Hy) as (b & Hb & Hlb). rewrite Ha, Hb. cbn [mbind option_bind].
  assert (forall z tz k first, type_at t z = Some tz -> is_scalar tz = true ->
    exists o, fst <$> compare_choices (S compare_budget) t z (mkComparison op cty k first) compare_budget
      = Some o /\ choice_fact t z (mkComparison op cty k first) o) as Hrun.
  { intros z tz k first Hz Hsz.
    destruct (compare_choices_spec t Hwf (S compare_budget) compare_budget z tz
      (mkComparison op cty k first) ltac:(lia) Hz Hsz) as (o & n & -> & _ & Ho). by exists o. }
  destruct b as [k|].
  - destruct (Hrun x tx k false Hx Hsx) as (o & Ho & Hfact). exists o.
    split; [by destruct a|]. intros b -> rho Hm. destruct (Hlb k eq_refl) as [Hk _].
    rewrite Hk by done. by apply (Hfact rho Hm).
  - destruct a as [k|]; [|by exists None]. destruct (Hrun y ty' k true Hy Hsy) as (o & Ho & Hfact).
    exists o. split; [done|]. intros b -> rho Hm. destruct (Hla k eq_refl) as [Hk _].
    rewrite Hk by done. by apply (Hfact rho Hm).
Qed.

Section Comparisons.
Context (rec : Ty -> Expression nat -> nat -> T nat) (ok : nat -> Prop).
Context (ok_le : forall a b, (a <= b)%nat -> ok b -> ok a) (Hrec : folds rec ok).
#[local] Set Default Proof Using "ok_le Hrec".

(** The truth of an operand, at any integer type. *)
Lemma some_zero_test t ty nz x tx P : wf t -> type_at t x = Some tx -> is_integer tx = true ->
  is_integer ty = true -> ok (x + 2)%nat ->
  (forall rho, model t rho -> forall l, P rho = Some l ->
    l = lit (Z.b2z (Bool.eqb (negb (val rho x =? 0)) nz))) ->
  wp (Some <$> fold rec I1 (EUnary (ZeroTest nz) x)) (rewritten t ty P) t.
Proof.
  intros Hwf Hx Hix Hi Hok HP. apply wp_fmap. eapply wp_mono.
  - apply (fold_spec rec ok Hrec t I1 (EUnary (ZeroTest nz) x)); [done| |done].
    split; [|done]. apply typed_unary. exists tx. split; [done|]. cbn. by rewrite Hix.
  - intros id t' [Hstep [Hid Hval]]. split; [done|]. exists I1.
    split_and!; [done|by apply convertible_integer|]. intros rho Hm l Hl.
    pose proof (model_extends _ _ _ Hwf (proj1 Hstep) Hm) as Hm0.
    rewrite (HP rho Hm0 l Hl), (Hval rho Hm _ (ev_zero_test t rho Hm0 I1 nz x tx 0 Hx Hix eq_refl)).
    apply b2z_normalize. solve_scalar.
Qed.

Lemma fold_zero_test_spec t ty nz x : wf t -> typed t ty (EUnary (ZeroTest nz) x) -> ok (x + 1)%nat ->
  wp (fold_zero_test rec x nz) (rewritten t ty (fun rho => eval t rho ty (EUnary (ZeroTest nz) x) 0)) t.
Proof.
  intros Hwf Ht Hok. apply typed_unary in Ht as (tx & Hx & Ht). cbn [unary_typed] in Ht. btyping.
  assert (is_integer tx = true) as Hix by done. assert (is_integer ty = true) as Hi by done.
  assert (forall rho, model t rho -> forall l, eval t rho ty (EUnary (ZeroTest nz) x) 0 = Some l ->
    l = lit (Z.b2z (Bool.eqb (negb (val rho x =? 0)) nz))) as Heval.
  { intros rho Hm l Hl. rewrite (ev_zero_test t rho Hm ty nz x tx) in Hl by done. by simplify_eq. }
  unfold fold_zero_test. apply wp_bind. eapply wp_read_bounds; [done..|]. intros b Hb _.
  destruct (nz && (unsigned b <=? 1)) eqn:Hone.
  { btyping. apply wp_ret. split; [by apply step_refl|]. exists tx.
    split_and!; [done|by apply convertible_integer|]. intros rho Hm l Hl. rewrite (Heval rho Hm l Hl).
    pose proof (unsigned_val t rho x tx b Hwf Hm Hx ltac:(solve_scalar) Hb) as Hf.
    apply (fits_mono _ 1) in Hf; [|done]. rewrite (convert_val t rho Hm x tx ty) by done.
    destruct nz; [|done]. rewrite eqb_truth, <- fits_one by done. f_equal. apply wrap_small.
    eapply fits_mono; [|exact Hf]. pose proof (bits_pos (carrier ty)). lia. }
  apply wp_bind. eapply wp_read_definition; [exact Hx|]. intros d Hd.
  destruct d as [|[op y| | | |]| |]; try by apply wp_ret, rewritten_none.
  destruct (stored_expression t x tx _ Hwf Hd) as (Hin & Hty & Hst). inversion_clear Hin as [|? ? Hyx _].
  apply typed_unary in Hty as (ti & Hti & Hoki).
  destruct op; try by apply wp_ret, rewritten_none; cbn [unary_typed] in Hoki; btyping.
  - cbn [unary_typed] in Hoki. btyping. apply (some_zero_test t ty _ y ti); [done..| |].
    { eapply ok_le; [|exact Hok]. lia. }
    intros rho Hm l Hl. rewrite (Heval rho Hm l Hl). do 2 f_equal.
    destruct (Hst rho Hm) as [_ Hxv].
    pose proof (Hxv _ (ev_zero_test t rho Hm tx nonzero y ti 0 Hti ltac:(done) Hix)) as Hxval.
    unfold val at 1. rewrite Hxval. cbn [lit low].
    destruct (val rho y =? 0), nonzero, nz; done.
  - cbn [unary_typed] in Hoki. apply wp_bind. eapply wp_read_bounds; [done|exact Hti|]. intros sb Hsb _.
    apply wp_bind. eapply wp_read_type; [exact Hx|].
    destruct (Z.leb_spec (unsigned sb) (cbits tx)) as [Hle|]; [|by apply wp_ret, rewritten_none].
    pose proof (convertible_to_integer ti tx Hoki Hix) as Hii.
    apply (some_zero_test t ty nz y ti); [done..| |].
    { eapply ok_le; [|exact Hok]. lia. }
    intros rho Hm l Hl. rewrite (Heval rho Hm l Hl). do 5 f_equal.
    destruct (Hst rho Hm) as [_ Hxv]. unfold val at 1. rewrite (Hxv _ (ev_convert t rho Hm tx y ti 0 Hti Hoki)).
    rewrite (convert_val t rho Hm y ti tx) by done. cbn [lit low]. apply wrap_small.
    eapply fits_mono; [exact Hle|]. by eapply unsigned_val; [| |done|solve_scalar|].
Qed.

(** A bit tested against its own mask. *)
Lemma fold_equality_spec t ty op x tx m P : wf t -> type_at t x = Some tx -> is_integer tx = true ->
  is_integer ty = true -> ok (x + 2)%nat -> op = CEq \/ op = CNe -> fits (cbits tx) m ->
  (forall rho, model t rho -> forall l, P rho = Some l ->
    l = lit (Z.b2z (int_compare (carrier tx) op (val rho x) m))) ->
  wp (fold_equality rec op x m) (rewritten t ty P) t.
Proof.
  intros Hwf Hx Hix Hi Hok Hop Hmf HP. unfold fold_equality.
  destruct (Z.eqb_spec m 0) as [->|Hm0].
  { eapply some_zero_test; [done..|]. intros rho Hm l Hl. rewrite (HP rho Hm l Hl).
    do 2 f_equal. destruct Hop as [-> | ->]; cbn [int_compare];
      [rewrite bool_decide_eq_false_2 by done|rewrite bool_decide_eq_true_2 by done];
      destruct (val rho x =? 0); done. }
  apply wp_bind. eapply wp_read_bounds; [done..|]. intros b Hb _. cbv zeta.
  apply wp_bind. eapply wp_read_representation; [done..|]. intros r Hr.
  destruct (rep_type _ _ _ _ Hr) as (tr & Htr & Hcr).
  apply wp_bind. eapply wp_read_definition; [exact Htr|]. intros d Hd.
  (* Either test shows that the operand is zero or the mask. *)
  assert (forall bit : bool, (bit = true -> forall rho, model t rho -> val rho x = 0 \/ val rho x = m) ->
    wp (if negb ((m =? 1) && (unsigned b <=? 1)) && negb bit then mret None
        else Some <$> fold rec I1 (EUnary (ZeroTest (bool_decide (op = CEq))) x)) (rewritten t ty P) t) as Hfin.
  { intros bit Hbit. destruct (negb _ && negb bit) eqn:Hg; [by apply wp_ret, rewritten_none|].
    eapply some_zero_test; [done..|]. intros rho Hm l Hl. rewrite (HP rho Hm l Hl).
    assert (val rho x = 0 \/ val rho x = m) as Hv.
    { apply andb_false_iff in Hg as [Hg|Hg]; apply negb_false_iff in Hg; [|by apply Hbit]. btyping.
      assert (m = 1) as -> by by apply Z.eqb_eq.
      pose proof (unsigned_val t rho x tx b Hwf Hm Hx ltac:(solve_scalar) Hb) as Hf.
      apply (fits_mono _ 1) in Hf; [|done]. destruct Hf. lia. }
    do 2 f_equal. destruct Hop as [-> | ->]; cbn [int_compare];
      [rewrite bool_decide_eq_true_2 by done|rewrite bool_decide_eq_false_2 by done];
      destruct Hv as [-> | ->]; destruct (Z.eqb_spec 0 m), (Z.eqb_spec m m), (Z.eqb_spec m 0); done || lia. }
  assert (wp (mret false) (fun masked_bit t' =>
    wp (if negb ((m =? 1) && (unsigned b <=? 1)) && negb masked_bit then mret None
        else Some <$> fold rec I1 (EUnary (ZeroTest (bool_decide (op = CEq))) x)) (rewritten t ty P) t') t) as Hno
    by by apply wp_ret, Hfin.
  apply wp_bind. destruct d as [|[|bop y z| | |]| |]; try exact Hno.
  destruct bop as [[]| | | | | | | | | |]; try exact Hno.
  destruct (is_power_of_two m) eqn:Hpow; [|exact Hno].
  destruct (stored_expression t r tr _ Hwf Hd) as (_ & Hty & Hst).
  apply typed_binary in Hty as (t1 & t2 & Hy & Hz & Hok2). cbn [binary_typed] in Hok2. btyping.
  apply wp_bind. eapply wp_read_scalar; [done|exact Hy|]. intros p _ Hp.
  apply wp_bind. eapply wp_read_scalar; [done|exact Hz|]. intros q _ Hq.
  apply wp_ret. apply Hfin. intros Hbit rho Hm. destruct (Hst rho Hm) as [_ Hrv].
  assert (val rho x = Z.land (val rho y) (val rho z)) as ->.
  { rewrite <- (represents_val t x tx r rho Hm Hr). unfold val at 1.
    rewrite (Hrv _ (ev_bitwise_scalar t rho Hm tr And y z t1 t2 0 Hy Hz ltac:(done) ltac:(done)
      ltac:(by rewrite <- carrier_scalar, Hcr, carrier_scalar; solve_scalar))). done. }
  apply orb_true_iff in Hbit as [Hbit|Hbit]; apply bool_decide_eq_true in Hbit.
  - destruct (Hp m Hbit) as [Hv _]. rewrite (Hv rho Hm), Z.land_comm.
    apply power_of_two_bit; [done|apply Hmf].
  - destruct (Hq m Hbit) as [Hv _]. rewrite (Hv rho Hm). apply power_of_two_bit; [done|apply Hmf].
Qed.

Lemma int_compare_same cty op x : int_compare cty op x x = is_ordered op.
Proof using Type.
  destruct op; cbn [int_compare is_ordered]; rewrite ?Z.eqb_refl, ?Z.ltb_irrefl, ?Z.leb_refl; done.
Qed.

Lemma int_compare_swap cty op x y : op = CEq \/ op = CNe -> int_compare cty op x y = int_compare cty op y x.
Proof using Type. intros [-> | ->]; cbn [int_compare]; by rewrite Z.eqb_sym. Qed.

Lemma fold_compare_spec t ty op x y : wf t -> typed t ty (EBinary (Compare (CmpInteger op)) x y) ->
  ok (Nat.max x y + 2)%nat ->
  wp (fold_compare rec op x y)
     (rewritten t ty (fun rho => eval t rho ty (EBinary (Compare (CmpInteger op)) x y) 0)) t.
Proof.
  intros Hwf Ht Hok. apply typed_binary in Ht as (tx & ty' & Hx & Hy & Ht). cbn [binary_typed] in Ht. btyping.
  assert (is_integer tx = true) as Hix by done. assert (is_integer ty' = true) as Hiy by done.
  assert (is_integer ty = true) as Hi by done. assert (carrier tx = carrier ty') as Hc by done.
  set (P := fun rho => eval t rho ty (EBinary (Compare (CmpInteger op)) x y) 0).
  assert (forall rho, model t rho -> forall l, P rho = Some l ->
    l = lit (Z.b2z (int_compare (carrier tx) op (val rho x) (val rho y)))) as Heval.
  { intros rho Hm l Hl. unfold P in Hl. rewrite (ev_compare t rho Hm ty op x y tx ty') in Hl by done.
    by simplify_eq. }
  clearbody P.
  assert (forall b, (forall rho, model t rho -> int_compare (carrier tx) op (val rho x) (val rho y) = b) ->
    wp (Some <$> literal I1 (lit (Z.b2z b))) (rewritten t ty P) t) as Hlit.
  { intros b Hb. apply wp_fmap. eapply wp_mono.
    - apply small_literal_spec; [done|done|by apply (b2z_fits I1)].
    - intros id t' (Hstep & _ & [Hid Hval]). split; [done|]. exists I1.
      split_and!; [done|by apply convertible_integer|]. intros rho Hm l Hl.
      pose proof (model_extends _ _ _ Hwf (proj1 Hstep) Hm) as Hm0.
      rewrite (Heval rho Hm0 l Hl), Hb, (Hval rho Hm _ eq_refl) by done. apply b2z_normalize. solve_scalar. }
  assert (wp (mret None) (rewritten t ty P) t) as Hnone by by apply wp_ret, rewritten_none.
  unfold fold_compare. apply wp_bind. eapply wp_read_representation; [done..|]. intros a Ha.
  apply wp_bind. eapply wp_read_representation; [done..|]. intros b Hb.
  destruct (rep_type _ _ _ _ Ha) as (ta & Hta & Hca). destruct (rep_type _ _ _ _ Hb) as (tb & Htb & Hcb).
  assert (is_scalar ta = true) as Hsa by (eapply scalar_of_carrier; [done|solve_scalar]).
  assert (is_scalar tb = true) as Hsb by (eapply scalar_of_carrier; [done|solve_scalar]).
  apply wp_bind. eapply wp_read_type; [exact Hta|].
  destruct (compare_constant_choices_spec t op a b ta tb (carrier ta) Hwf Hta Htb Hsa Hsb)
    as (o & Ho & Hchoice).
  apply wp_bind. eapply wp_reads; [exact Ho|]. destruct o as [r|].
  { apply Hlit. intros rho Hm. pose proof (Hchoice r eq_refl rho Hm) as Hr.
    rewrite !(normalize_carrier ta) in Hr by done.
    rewrite (represents_val t x tx a rho Hm Ha), (represents_val t y ty' b rho Hm Hb), Hca in Hr.
    pose proof (val_fits t rho Hm y ty' Hy ltac:(solve_scalar)) as Hfy. rewrite <- Hc in Hfy.
    rewrite !wrap_small in Hr; [done|done|]. apply (val_fits t rho Hm x tx Hx). solve_scalar. }
  destruct (Nat.eqb_spec a b) as [<-|Hab].
  { apply Hlit. intros rho Hm. unfold val. rewrite (represents_same t x y tx ty' a rho) by done.
    apply int_compare_same. }
  apply wp_bind. eapply wp_read_known; [done|exact Ha|]. intros p Hp Hpf.
  apply wp_bind. eapply wp_read_known; [done|exact Hb|]. intros q Hq Hqf. cbv zeta.
  destruct (_ && bool_decide (q = Some 0)) eqn:Hu0.
  { btyping. subst q. apply Hlit. intros rho Hm. rewrite (Hq 0 eq_refl rho Hm).
    pose proof (val_fits t rho Hm x tx Hx ltac:(solve_scalar)) as [Hpos _].
    destruct op; try done; cbn [int_compare].
    - rewrite bool_decide_eq_false_2 by done. by apply Z.ltb_ge.
    - rewrite bool_decide_eq_true_2 by done. by apply Z.leb_le. }
  destruct (_ && bool_decide (p = Some 0)) eqn:Hu1.
  { btyping. subst p. eapply some_zero_test; [done..| |].
    { eapply ok_le; [|exact Hok]. lia. }
    intros rho Hm l Hl. rewrite (Heval rho Hm l Hl), (Hp 0 eq_refl rho Hm). do 2 f_equal.
    pose proof (val_fits t rho Hm y ty' Hy ltac:(solve_scalar)) as [Hpos _].
    destruct op; try done; cbn [int_compare].
    - rewrite bool_decide_eq_true_2 by done. destruct (Z.ltb_spec 0 (val rho y)), (Z.eqb_spec (val rho y) 0); done || lia.
    - rewrite bool_decide_eq_false_2 by done. destruct (Z.leb_spec (val rho y) 0), (Z.eqb_spec (val rho y) 0); done || lia. }
  assert (op = CEq \/ op = CNe ->
    wp (match p, q with
        | _, Some m => fold_equality rec op x m
        | Some m, _ => fold_equality rec op y m
        | _, _ => mret None end) (rewritten t ty P) t) as Heq.
  { intros Hop. destruct q as [m|].
    - assert (wp (fold_equality rec op x m) (rewritten t ty P) t); [|by destruct p].
      eapply fold_equality_spec; [done|exact Hx|done|done| |done| |].
      + eapply ok_le; [|exact Hok]. lia.
      + rewrite Hc. by apply Hqf; [|solve_scalar].
      + intros rho Hm l Hl. rewrite (Heval rho Hm l Hl). by rewrite (Hq m eq_refl rho Hm).
    - destruct p as [m|]; [|done].
      eapply fold_equality_spec; [done|exact Hy|done|done| |done| |].
      + eapply ok_le; [|exact Hok]. lia.
      + rewrite <- Hc. by apply Hpf; [|solve_scalar].
      + intros rho Hm l Hl. rewrite (Heval rho Hm l Hl), <- Hc.
        rewrite int_compare_swap by done. by rewrite (Hp m eq_refl rho Hm). }
  destruct op; try done; apply Heq; auto.
Qed.

(** fold/select.rs *)
Lemma fold_select_spec t ty x y z : wf t -> typed t ty (ETernary Select x y z) -> ok (z + 2)%nat ->
  wp (fold_select rec z x y) (rewritten t ty (fun rho => eval t rho ty (ETernary Select x y z) 0)) t.
Proof.
  intros Hwf Ht Hok. apply typed_ternary in Ht as (tx & ty' & tz & Hx & Hy & Hz & Ht).
  cbn [ternary_typed] in Ht. btyping.
  assert (carrier tx = carrier ty) as Hcx by done. assert (carrier ty' = carrier ty) as Hcy by done.
  assert (is_integer tz = true) as Hiz by done.
  set (P := fun rho => eval t rho ty (ETernary Select x y z) 0).
  assert (forall rho, model t rho -> forall l, P rho = Some l ->
    l = if negb (val rho z =? 0) then rho x else rho y) as Heval.
  { intros rho Hm l Hl. unfold P in Hl. rewrite (ev_select t rho Hm ty x y z tx ty' tz) in Hl by done.
    by simplify_eq. }
  clearbody P. assert (wp (mret None) (rewritten t ty P) t) as Hnone by by apply wp_ret, rewritten_none.
  unfold fold_select. apply wp_bind. eapply wp_read_scalar; [done|exact Hz|]. intros c _ Hlc.
  destruct c as [c|].
  { destruct (Hlc c eq_refl) as [Hc _].
    assert (c <> 0 -> wp (mret (Some x)) (rewritten t ty P) t) as Htrue.
    { intros Hc0. apply wp_ret. eapply rewritten_operand; [done..|]. intros rho Hm l Hl.
      rewrite (Heval rho Hm l Hl), Hc by done. destruct (Z.eqb_spec c 0); done. }
    destruct c; [|by apply Htrue..]. apply wp_ret. eapply rewritten_operand; [done..|].
    intros rho Hm l Hl. by rewrite (Heval rho Hm l Hl), Hc. }
  apply wp_bind. eapply wp_read_representation; [done|exact Hx|]. intros a Ha.
  apply wp_bind. eapply wp_read_representation; [done|exact Hy|]. intros b Hb.
  destruct (Nat.eqb_spec a b) as [<-|_].
  { apply wp_ret. eapply rewritten_operand; [done..|]. intros rho Hm l Hl. rewrite (Heval rho Hm l Hl).
    rewrite (represents_same t x y tx ty' a rho) by done. by destruct (negb _). }
  apply wp_bind. eapply wp_read_type; [exact Hx|]. destruct (is_integer tx) eqn:Hix; [cbn [negb]|done].
  assert (is_integer ty = true) as Hi by by rewrite <- carrier_integer, <- Hcx, carrier_integer.
  apply wp_bind. eapply wp_read_scalar; [done|exact Hx|]. intros p _ Hp.
  apply wp_bind. eapply wp_read_scalar; [done|exact Hy|]. intros q _ Hq. cbv zeta.
  assert (forall rho w tw k, model t rho -> type_at t w = Some tw -> literal_fact t w (Some k) ->
    rho w = lit k) as Hlitv.
  { intros rho w tw k Hm Hw Hlw. destruct (literal_operand t w tw k Hw Hlw) as (Hs & _ & Hval).
    rewrite <- (Hval rho Hm). by apply (rho_scalar t rho Hm w tw). }
  destruct (_ && bool_decide (q = Some 0)) eqn:H10.
  { btyping. subst p q. eapply some_zero_test; [done..|]. intros rho Hm l Hl. rewrite (Heval rho Hm l Hl).
    rewrite (Hlitv rho x tx 1), (Hlitv rho y ty' 0) by done. by destruct (val rho z =? 0). }
  destruct (_ && bool_decide (q = Some 1)) eqn:H01; [|done].
  btyping. subst p q. eapply some_zero_test; [done..|]. intros rho Hm l Hl. rewrite (Heval rho Hm l Hl).
  rewrite (Hlitv rho x tx 0), (Hlitv rho y ty' 1) by done. by destruct (val rho z =? 0).
Qed.
End Comparisons.
