(* ===== verification/FoldBits.v ===== *)
(** * Bitwise rewrites

    Soundness of fold/bitwise.rs and of the rejoined bits of fold/bits.rs, on
    scalar and on vector carriers. *)

From S2P Require Import Prelude Bytes Types Floating Expr Evaluate Values Fold Model Carrier Bounds Table FoldBase FoldArith FoldCompare.
Local Open Scope Z_scope.

(** ** Rejoining the bits of one source *)

(** Bits moved down by [c] and back up keep their place, without the low [c]. *)
Lemma restored_shift w c s m : 0 <= c < w -> w <= 64 -> fits w s -> fits 64 m ->
  wrap w (Z.shiftl (Z.land (Z.shiftr s c) m) c) = Z.land s (wrap w (Z.shiftl m c)).
Proof.
  intros Hc Hw Hs Hm. apply Z.bits_inj'. intros i Hi.
  rewrite testbit_wrap, testbit_shiftl, Z.land_spec, testbit_shiftr, Z.land_spec, testbit_wrap, testbit_shiftl by lia.
  destruct (Z.ltb_spec i w), (Z.leb_spec c i); cbn [andb]; rewrite ?andb_false_r; try done.
  destruct (Z.leb_spec 0 (i - c)); [|lia]. cbn [andb]. by replace (i - c + c) with i by lia.
Qed.

Lemma restored_bits_spec t x tx : wf t -> type_at t x = Some tx -> is_integer tx = true ->
  exists b, restored_bits t x = Some b /\ masked_fact t x tx b.
Proof.
  intros Hwf Hx Hi. unfold restored_bits.
  destruct (masked_bits_spec t x tx Hwf Hx Hi) as (kept & -> & Hkept). cbn [mbind option_bind].
  pose proof Hkept as (Hkle & (tk & Htk & Hck) & Hkf & Hkval). pose proof Htk as Htk'.
  apply fmap_Some in Htk' as (v & Hv & ->). unfold definition_at. rewrite Hv.
  cbn [fmap option_fmap option_map mbind option_bind].
  assert (exists b, Some kept = Some b /\ masked_fact t x tx b) as Hk by eauto.
  destruct v as [tk d]. cbn [definition ty] in *.
  destruct d as [|[| |op value count| |]| |]; try exact Hk. destruct op as [[]| |]; try exact Hk.
  destruct (stored_expression t _ tk _ Hwf Hv) as (Hin & Hty & Hst).
  inversion_clear Hin as [|? ? Hvlt Hin']. apply typed_shift in Hty as (tv & tc & Htv & Htc & Hok).
  unfold shift_typed in Hok. btyping.
  assert (is_integer tk = true) as Hik by done. assert (carrier tv = carrier tk) as Hcv by done.
  assert (is_integer tv = true) as Hiv by done.
  rewrite Htk. cbn [mbind option_bind].
  destruct (scalar_at_spec t count tc Hwf Htc) as (s & -> & Hs). cbn [mbind option_bind].
  destruct s as [s|]; [|exact Hk]. cbv zeta. set (c := shift_count (carrier tk) (wrap 32 s)).
  destruct (masked_bits_spec t value tv Hwf Htv Hiv) as (sh & -> & (Hsle & (tsh & Htsh & Hcsh) & Hsf & Hsval)).
  cbn [mbind option_bind]. pose proof Htsh as Htsh'. apply fmap_Some in Htsh' as (v' & Hv' & ->). rewrite Hv'.
  cbn [fmap option_fmap option_map mbind option_bind].
  destruct v' as [tsh d]. cbn [definition ty] in *.
  destruct d as [|[| |op value' reverse| |]| |]; try exact Hk. destruct op as [[]| |]; try exact Hk.
  destruct (stored_expression t _ tsh _ Hwf Hv') as (Hin & Hty & Hst').
  inversion_clear Hin as [|? ? Hvlt' Hin'']. apply typed_shift in Hty as (tv' & tr & Htv' & Htr & Hok').
  unfold shift_typed in Hok'. btyping.
  assert (is_integer tsh = true) as Hish by done. assert (carrier tv' = carrier tsh) as Hcv' by done.
  assert (is_integer tv' = true) as Hiv' by done.
  destruct (scalar_at_spec t reverse tr Hwf Htr) as (s' & -> & Hs'). cbn [mbind option_bind].
  destruct s' as [s'|]; [|exact Hk]. rewrite Htsh. cbn [mbind option_bind].
  destruct (_ || _) eqn:Hg; [exact Hk|].
  apply orb_false_iff in Hg as [_ Hg]. apply negb_false_iff, Z.eqb_eq in Hg.
  destruct (masked_bits_spec t value' tv' Hwf Htv' Hiv') as (so & -> & (Hole & (tso & Htso & Hcso) & Hof & Hoval)).
  eexists. split; [done|]. split_and!; cbn [mb_input mb_mask].
  - lia.
  - exists tso. split; [done|congruence].
  - apply fits_land_l; [pose proof (bits_pos (carrier tx)); lia|done].
  - intros rho Hm.
    assert (0 <= cbits tk <= 64) as Hcb by (destruct (cbits_integer tk Hik); lia).
    assert (0 <= c < cbits tk) as Hc.
    { pose proof (shift_count_range (carrier tk) (wrap 32 s)) as Hr. fold c in Hr.
      destruct tk; simpl in *; try done; lia. }
    assert (fits (cbits tk) (val rho value')) as Hfv.
    { rewrite <- Hcv, <- Hcsh, <- Hcv'. apply (val_fits t rho Hm); [done|solve_scalar]. }
    destruct (Hs s eq_refl) as [Hcount _]. destruct (Hs' s' eq_refl) as [Hreverse _].
    destruct (Hst rho Hm) as [_ Hkv]. destruct (Hst' rho Hm) as [_ Hshv].
    pose proof (Hkv _ (ev_shift_scalar t rho Hm tk ShlLeft value count tv tc 0 Htv Htc Hik Hcv ltac:(done))) as Ek.
    pose proof (Hshv _ (ev_shift_scalar t rho Hm tsh RightUnsigned value' reverse tv' tr 0 Htv' Htr Hish Hcv'
      ltac:(done))) as Esh.
    rewrite Hcount in Ek by done. rewrite Hreverse in Esh by done. cbn [int_shift] in Ek, Esh.
    assert (val rho (mb_input kept) = wrap (cbits tk) (Z.shiftl (val rho value) c)) as Evk.
    { unfold val at 1. rewrite Ek. cbn [lit low]. by rewrite wrap_carrier_64 by solve_scalar. }
    assert (val rho (mb_input sh) = Z.shiftr (val rho value') c) as Evsh.
    { unfold val at 1. rewrite Esh. cbn [lit low]. rewrite Hcsh, Hcv, Hg. apply wrap_small.
      eapply fits_mono; [|apply (fits_shiftr (cbits tk)); [lia..|exact Hfv] ]. unfold sat8; lia. }
    rewrite Hkval, Evk, Hsval, Evsh by done. rewrite Hcv in Hsf.
    rewrite restored_shift by (done || lia || (eapply fits_mono; [|exact Hsf]; lia)).
    rewrite Hoval by done. rewrite carrier_mask by done. rewrite <- (wrap_land (cbits tk)) by lia.
    rewrite wrap_land_distr, wrap_idem_le by lia.
    assert (wrap (cbits tk) (mb_mask so) = mb_mask so) as ->.
    { apply wrap_small. rewrite <- Hcv, <- Hcsh, <- Hcv'. done. }
    apply Z.bits_inj'. intros i Hi0. rewrite !Z.land_spec. btauto.
Qed.

(** ** Masks *)

Lemma trailing_ones_range w m : 0 <= w -> fits w m -> 0 <= trailing_ones w m <= w.
Proof.
  intros Hw Hm. unfold trailing_ones. pose proof (fits_bnot w m Hw Hm) as Hb.
  split; [by apply trailing_zeros_nonneg|].
  destruct (bnot w m) as [|p|] eqn:E; simpl; [lia| |lia].
  destruct (decide (ctz_pos p <= w)); [done|]. exfalso.
  assert (Zpos p = 0) as H0; [|done]. apply Z.bits_inj'. intros i Hi. rewrite Z.testbit_0_l.
  destruct (decide (i < ctz_pos p)); [by apply ctz_testbit|]. apply (fits_testbit w); [done|lia].
Qed.

Lemma land_trailing w n m z : 0 <= w -> fits w m -> n <= trailing_ones w m -> fits n z -> fits w z ->
  Z.land z m = z.
Proof.
  intros Hw Hm Hn Hz Hzw. apply Z.bits_inj'. intros i Hi. rewrite Z.land_spec.
  destruct (decide (i < n)) as [Hlt|].
  - destruct (decide (i < w)); [by rewrite (trailing_ones_testbit w m), andb_true_r by (done || lia)|].
    by rewrite (fits_testbit w z) by (done || lia).
  - by rewrite (fits_testbit n z) by (done || lia).
Qed.

(** What a bitwise operation computes, on either kind of carrier. *)
Definition bit_result (P : Valuation -> option Literal) (t : ValueTable) (op : BitwiseOp) (x y : nat) : Prop :=
  forall rho, model t rho -> forall l, P rho = Some l ->
    lit_words l /\ lit_u128 l = bit_fn op (vec rho x) (vec rho y).

Lemma bit_result_eval t ty op x y tx ty' : type_at t x = Some tx -> type_at t y = Some ty' ->
  carrier tx = carrier ty -> carrier ty' = carrier ty ->
  bit_result (fun rho => eval t rho ty (EBinary (Bitwise op) x y) 0) t op x y.
Proof.
  intros Hx Hy Hcx Hcy rho Hm l Hl.
  destruct (ev_bitwise t rho Hm ty op x y tx ty' 0 Hx Hy Hcx Hcy) as (l' & Hl' & [Hw _] & Hv).
  rewrite Hl in Hl'. by simplify_eq.
Qed.

(** An operand with the bits of the result. *)
Lemma bit_operand t ty P op x y z tz : wf t -> bit_result P t op x y -> type_at t z = Some tz ->
  carrier tz = carrier ty ->
  (forall rho, model t rho -> bit_fn op (vec rho x) (vec rho y) = vec rho z) ->
  rewritten t ty P (Some z) t.
Proof.
  intros Hwf HP Hz Hc Heq. eapply rewritten_operand; [done..|]. intros rho Hm l Hl.
  destruct (HP rho Hm l Hl) as [Hw Hv]. rewrite Heq in Hv by done.
  apply lit_u128_inj; [by eapply rho_words|done|done].
Qed.

Lemma vec_known t x tx z rho : model t rho -> type_at t x = Some tx -> is_scalar tx = true ->
  val rho x = z -> vec rho x = z.
Proof. intros Hm Hx Hs <-. by apply (vec_val t rho Hm x tx). Qed.

(** ** Predicates that never agree *)

Definition complements (t : ValueTable) (x y : nat) : Prop :=
  forall rho, model t rho -> exists b, rho x = lit (Z.b2z b) /\ rho y = lit (Z.b2z (negb b)).

Lemma complementary_one_spec t x y tx ty' : wf t -> type_at t x = Some tx -> type_at t y = Some ty' ->
  exists b, complementary_one t x y = Some b /\ (b = true -> is_integer tx = true /\ complements t x y).
Proof.
  intros Hwf Hx Hy. unfold complementary_one. pose proof Hx as Hx'.
  apply fmap_Some in Hx' as (v & Hv & ->). unfold definition_at. rewrite Hv.
  cbn [fmap option_fmap option_map mbind option_bind].
  destruct v as [tx d]. cbn [definition ty] in *. assert (exists b, Some false = Some b /\
    (b = true -> is_integer tx = true /\ complements t x y)) as Hno by by exists false.
  destruct d as [|[op z| | | |]| |]; try exact Hno. destruct op; try exact Hno.
  destruct (stored_expression t x tx _ Hwf Hv) as (_ & Hty & Hst).
  apply typed_unary in Hty as (tz & Hz & Hok). cbn [unary_typed] in Hok. btyping.
  assert (is_integer tz = true) as Hiz by done. assert (is_integer tx = true) as Hix by done.
  destruct (representation_spec t z tz Hwf Hz) as (r & -> & Hr). cbn [mbind option_bind].
  pose proof Hy as Hy'. apply fmap_Some in Hy' as (w & Hw & ->). unfold definition_at. rewrite Hw.
  cbn [fmap option_fmap option_map mbind option_bind].
  assert (forall rho, model t rho -> rho x = lit (Z.b2z (Bool.eqb (negb (val rho z =? 0)) nonzero))) as Hxv.
  { intros rho Hm. destruct (Hst rho Hm) as [_ Hv'].
    by apply Hv', (ev_zero_test t rho Hm tx nonzero z tz). }
  destruct (input_range t y (ty w) Hwf Hy) as (bd & _ & Hbd & _).
  assert (exists b, (b0 ← bounds_at t y; Some (negb nonzero && Nat.eqb r y && (unsigned b0 <=? 1))) = Some b /\
    (b = true -> is_integer tx = true /\ complements t x y)) as Hother.
  { unfold bounds_at. rewrite Hbd. eexists. split; [done|]. intros Hg. btyping.
    destruct nonzero; [done|]. assert (r = y) as -> by by apply Nat.eqb_eq. split; [done|].
    intros rho Hm. rewrite Hxv by done. rewrite <- (represents_val t z tz y rho Hm Hr).
    assert (is_scalar (ty w) = true) as Hsw.
    { destruct (rep_type _ _ _ _ Hr) as (tr & Htr & Hc). rewrite Hy in Htr. simplify_eq.
      eapply scalar_of_carrier; [done|solve_scalar]. }
    destruct (rho_scalar t rho Hm y (ty w) Hy Hsw) as [_ ->].
    pose proof (unsigned_val t rho y (ty w) bd Hwf Hm Hy Hsw Hbd) as Hf.
    apply (fits_mono _ 1) in Hf; [|done]. exists (val rho y =? 0).
    assert (val rho y = 0 \/ val rho y = 1) as [-> | ->] by (destruct Hf; lia); done. }
  destruct w as [tw d]. cbn [definition ty] in *.
  destruct d as [|[op z'| | | |]| |]; try exact Hother. destruct op; try exact Hother.
  destruct (stored_expression t y tw _ Hwf Hw) as (_ & Hty' & Hst').
  apply typed_unary in Hty' as (tz' & Hz' & Hok'). cbn [unary_typed] in Hok'. btyping.
  destruct (representation_spec t z' tz' Hwf Hz') as (r' & -> & Hr'). cbn [mbind option_bind].
  destruct (Nat.eqb r r' && _) eqn:Hg; [|exact Hother].
  apply andb_true_iff in Hg as [->%Nat.eqb_eq Hg]. apply negb_true_iff in Hg.
  exists true. split; [done|]. intros _. split; [done|]. intros rho Hm.
  destruct (Hst' rho Hm) as [_ Hv']. rewrite Hxv by done.
  rewrite (Hv' _ (ev_zero_test t rho Hm tw nonzero0 z' tz' 0 Hz' ltac:(done) ltac:(done))).
  assert (val rho z = val rho z') as ->.
  { unfold val. by rewrite (represents_same t z z' tz tz' r' rho). }
  exists (Bool.eqb (negb (val rho z' =? 0)) nonzero). split; [done|]. do 2 f_equal.
  destruct (val rho z' =? 0), nonzero, nonzero0; done.
Qed.

Lemma complementary_predicates_spec t x y tx ty' : wf t -> type_at t x = Some tx ->
  type_at t y = Some ty' -> carrier tx = carrier ty' ->
  exists b, complementary_predicates t x y = Some b /\
    (b = true -> is_integer tx = true /\ forall rho, model t rho ->
      exists c, rho x = lit (Z.b2z c) /\ rho y = lit (Z.b2z (negb c))).
Proof.
  intros Hwf Hx Hy Hc. unfold complementary_predicates.
  destruct (representation_spec t x tx Hwf Hx) as (a & -> & Ha). cbn [mbind option_bind].
  destruct (representation_spec t y ty' Hwf Hy) as (b & -> & Hb). cbn [mbind option_bind].
  destruct (rep_type _ _ _ _ Ha) as (ta & Hta & Hca). destruct (rep_type _ _ _ _ Hb) as (tb & Htb & Hcb).
  destruct (complementary_one_spec t a b ta tb Hwf Hta Htb) as (c1 & -> & Hc1). cbn [mbind option_bind].
  destruct c1.
  - exists true. split; [done|]. intros _. destruct (Hc1 eq_refl) as [Hi Hcomp].
    split; [eapply integer_of_carrier; [symmetry; exact Hca|done] |]. intros rho Hm.
    rewrite <- (rep_value _ _ _ _ Ha rho Hm), <- (rep_value _ _ _ _ Hb rho Hm). by apply Hcomp.
  - destruct (complementary_one_spec t b a tb ta Hwf Htb Hta) as (c2 & -> & Hc2). exists c2.
    split; [done|]. intros ->. destruct (Hc2 eq_refl) as [Hi Hcomp].
    split; [eapply integer_of_carrier; [|exact Hi]; congruence|]. intros rho Hm.
    rewrite <- (rep_value _ _ _ _ Ha rho Hm), <- (rep_value _ _ _ _ Hb rho Hm).
    destruct (Hcomp rho Hm) as (c & -> & ->). exists (negb c). by rewrite negb_involutive.
Qed.

(** [x & (x & y)] and [x | (x | y)]. *)
Lemma absorbed_spec t op x y tx ty' other : wf t -> type_at t x = Some tx -> type_at t y = Some ty' ->
  represents t y ty' other -> op = And \/ op = Or ->
  exists b, absorbed t op x other = Some b /\
    (b = true -> forall rho, model t rho -> bit_fn op (vec rho x) (vec rho y) = vec rho x).
Proof.
  intros Hwf Hx Hy Ho Hop. unfold absorbed.
  destruct (representation_spec t x tx Hwf Hx) as (r & -> & Hr). cbn [mbind option_bind].
  destruct (rep_type _ _ _ _ Hr) as (tr & Htr & Hcr). pose proof Htr as Htr'.
  apply fmap_Some in Htr' as (v & Hv & ->). unfold definition_at. rewrite Hv.
  cbn [fmap option_fmap option_map mbind option_bind]. destruct v as [tr d]. cbn [definition ty] in *.
  assert (exists b, Some false = Some b /\ (b = true -> forall rho, model t rho ->
    bit_fn op (vec rho x) (vec rho y) = vec rho x)) as Hno by by exists false.
  destruct d as [|[|bop p q| | |]| |]; try exact Hno. destruct bop as [nested| | | | | | | | | |]; try exact Hno.
  destruct (stored_expression t r tr _ Hwf Hv) as (_ & Hty & Hst).
  apply typed_binary in Hty as (tp & tq & Hp & Hq & Hok). cbn [binary_typed] in Hok. btyping.
  destruct (representation_spec t p tp Hwf Hp) as (a & -> & Ha). cbn [mbind option_bind].
  destruct (representation_spec t q tq Hwf Hq) as (b & -> & Hb). cbn [mbind option_bind].
  eexists. split; [done|]. intros Hg. apply andb_true_iff in Hg as [->%bool_decide_eq_true Hg].
  intros rho Hm. destruct (Hst rho Hm) as [_ Hrv].
  destruct (ev_bitwise t rho Hm tr op p q tp tq 0 Hp Hq ltac:(done) ltac:(done)) as (l & Hl & _ & Hlv).
  pose proof (Hrv _ Hl) as Er.
  assert (vec rho x = bit_fn op (vec rho p) (vec rho q)) as Ex.
  { rewrite <- (represents_vec t x tx r rho Hm Hr). unfold vec at 1. by rewrite Er. }
  assert (vec rho y = vec rho p \/ vec rho y = vec rho q) as Ey.
  { apply orb_true_iff in Hg as [->%Nat.eqb_eq | ->%Nat.eqb_eq]; [left|right]; unfold vec;
      by erewrite represents_same. }
  rewrite Ex. apply Z.bits_inj'. intros i Hi. destruct Hop as [-> | ->], Ey as [-> | ->]; cbn [bit_fn];
    rewrite ?Z.land_spec, ?Z.lor_spec; btauto.
Qed.

(** ** fold_bitwise *)

Lemma bind_inv {A B} (m : T A) (f : A -> T B) t r :
  (m ≫= f) t = Some r -> exists a t1, m t = Some (a, t1) /\ f a t1 = Some r.
Proof. intros ([a t1] & Hm & Hf)%bind_Some. eauto. Qed.
Lemma fmap_inv {A B} (f : A -> B) (m : T A) t b t' :
  (f <$> m) t = Some (b, t') -> exists a, b = f a /\ m t = Some (a, t').
Proof. intros ([a t1] & Hm & Hf)%bind_Some. simplify_eq. eauto. Qed.
Lemma reads_inv {A} (f : ValueTable -> option A) t a t' :
  reads f t = Some (a, t') -> f t = Some a /\ t' = t.
Proof. intros (b & Hb & ?)%bind_Some. by simplify_eq. Qed.
Lemma ret_inv {A} (a b : A) t t' : (mret a : T A) t = Some (b, t') -> a = b /\ t' = t.
Proof. by intros [= -> ->]. Qed.

(** [m] leaves the table as it was when it finds nothing to rewrite. *)
Definition pure_none (m : T (option nat)) (t : ValueTable) : Prop :=
  forall t', m t = Some (None, t') -> t' = t.

Ltac pure_none :=
  let t' := fresh "t'" in let H := fresh "Hrun" in intros t' H; repeat first
    [ apply bind_inv in H as (? & ? & [_ ->]%reads_inv & H)
    | apply ret_inv in H as [? ->]
    | apply bind_inv in H as (? & ? & _ & H); apply fmap_inv in H as (? & H & _)
    | apply fmap_inv in H as (? & H & _)
    | done
    | case_match ].

(** A rewrite tried before the rest of a handler. *)
Lemma wp_else t ty P m (k : T (option nat)) : wp m (rewritten t ty P) t -> pure_none m t ->
  wp k (rewritten t ty P) t ->
  wp (o ← m; if o is Some id then mret (Some id) else k) (rewritten t ty P) t.
Proof.
  intros ([id|] & t1 & He & Hr) Hpure Hk; apply wp_bind.
  - exists (Some id), t1. split; [done|]. by apply wp_ret.
  - exists None, t1. split; [done|]. by rewrite (Hpure _ He).
Qed.

Lemma is_literal_value t x tx z : values t !! x = Some (mkValue tx (DLiteral z)) -> is_literal t x = true.
Proof. unfold is_literal, definition_at. by intros ->. Qed.

Section BitRewrites.
Context (rec : Ty -> Expression nat -> nat -> T nat) (ok : nat -> Prop).
Context (ok_le : forall a b, (a <= b)%nat -> ok b -> ok a) (Hrec : folds rec ok).
#[local] Set Default Proof Using "ok_le Hrec".

(** A fresh mask applied to a scalar. *)
Lemma fold_with_mask t ty op x tx m P : wf t -> type_at t x = Some tx -> is_integer ty = true ->
  carrier tx = carrier ty -> fits (cbits ty) m ->
  (forall t' y, step t t' -> is_literal t' y = true -> ok (depth t' ty (EBinary (Bitwise op) x y))) ->
  (forall rho, model t rho -> forall l, P rho = Some l -> l = lit (bit_fn op (val rho x) m)) ->
  wp (y ← carrier_literal ty (lit m); Some <$> fold rec ty (EBinary (Bitwise op) x y))
     (rewritten t ty P) t.
Proof using Hrec.
  intros Hwf Hx Hi Hc Hm Hok HP. apply wp_bind. eapply wp_mono.
  { apply (scalar_literal_spec t ty m); [done|solve_scalar|done]. }
  intros y t1 (Hstep & Hyv & [Hy Hval]). pose proof (extends_type _ _ _ _ (proj1 Hstep) Hx) as Hx1.
  apply wp_some. apply (fold_after rec ok Hrec); [done| | |].
  - split; [|done]. apply typed_binary. exists tx, ty. split_and!; [done..|]. cbn [binary_typed].
    unfold same_carrier. rewrite !bool_decide_eq_true_2 by done.
    rewrite bool_decide_eq_false_2; [done|]. by destruct ty.
  - apply Hok; [done|]. by eapply is_literal_value.
  - intros rho Hmod l Hl. pose proof (model_extends _ _ _ Hwf (proj1 Hstep) Hmod) as Hm0.
    rewrite (HP rho Hm0 l Hl), (ev_bitwise_scalar t1 rho Hmod ty op x y tx ty) by (done || solve_scalar).
    do 3 f_equal. unfold val. by rewrite (Hval rho Hmod _ eq_refl).
Qed.

Lemma rejoin_bits_spec t ty x y tx ty' P : wf t -> type_at t x = Some tx -> type_at t y = Some ty' ->
  is_integer ty = true -> carrier tx = carrier ty -> carrier ty' = carrier ty -> ok 2%nat ->
  (forall rho, model t rho -> forall l, P rho = Some l -> l = lit (Z.lor (val rho x) (val rho y))) ->
  wp (rejoin_bits rec ty x y) (rewritten t ty P) t.
Proof.
  intros Hwf Hx Hy Hi Hcx Hcy Hok HP. unfold rejoin_bits.
  assert (is_integer tx = true) as Hix by by eapply integer_of_carrier.
  assert (is_integer ty' = true) as Hiy by by eapply integer_of_carrier.
  destruct (restored_bits_spec t x tx Hwf Hx Hix) as (l & Hl & (_ & (tl & Htl & Hcl) & Hlf & Hlv)).
  destruct (restored_bits_spec t y ty' Hwf Hy Hiy) as (r & Hr & (_ & _ & Hrf & Hrv)).
  apply wp_bind. eapply wp_reads; [exact Hl|]. apply wp_bind. eapply wp_reads; [exact Hr|].
  destruct (Nat.eqb_spec (mb_input l) (mb_input r)) as [Heq|]; [cbn [negb]|by apply wp_ret, rewritten_none].
  eapply fold_with_mask; [done|exact Htl|done|congruence| |done|].
  - rewrite Hcx in Hlf. rewrite Hcy in Hrf. apply fits_lor; [pose proof (bits_pos (carrier ty)); lia|done..].
  - intros rho Hm v Hv. rewrite (HP rho Hm v Hv), Hlv, Hrv, Heq by done. cbn [bit_fn].
    f_equal. symmetry. apply Z.land_lor_distr_r.
Qed.

Lemma and_constant_spec t ty x tx m P : wf t -> type_at t x = Some tx -> is_integer ty = true ->
  carrier tx = carrier ty -> fits (cbits ty) m -> ok 1%nat ->
  (forall rho, model t rho -> forall l, P rho = Some l -> l = lit (Z.land (val rho x) m)) ->
  wp (and_constant rec ty x m) (rewritten t ty P) t.
Proof.
  intros Hwf Hx Hi Hc Hm Hok HP. assert (is_integer tx = true) as Hix by by eapply integer_of_carrier.
  assert (fits 64 m) as Hm64 by (eapply fits_mono; [|exact Hm]; destruct (cbits_integer ty Hi); lia).
  pose proof (trailing_ones_range 64 m ltac:(lia) Hm64) as Hr.
  unfold and_constant. apply wp_bind. eapply wp_read_bounds; [done..|]. intros b Hb _.
  destruct (Z.leb_spec (unsigned b) (trailing_ones 64 m)) as [Hle|_].
  { apply wp_ret. eapply rewritten_operand; [done..|]. intros rho Hmod l Hl. rewrite (HP rho Hmod l Hl).
    rewrite (land_trailing 64 (unsigned b)); try done.
    - apply (rho_scalar t rho Hmod x tx); [done|solve_scalar].
    - by eapply unsigned_val; [| |done|solve_scalar|].
    - apply (val_fits64 t rho Hmod x tx); [done|solve_scalar]. }
  destruct (Z.eqb_spec m (low_mask (trailing_ones 64 m))) as [Heq|_]; [|by apply wp_ret, rewritten_none].
  assert (trailing_ones 64 m <= cbits ty) as Hle.
  { rewrite low_mask_ones in Heq by lia. destruct (decide (trailing_ones 64 m <= cbits ty)); [done|].
    exfalso. pose proof (fits_testbit _ _ (cbits ty) Hm ltac:(lia)) as Hbit. rewrite Heq in Hbit at 1.
    rewrite testbit_ones in Hbit by lia. pose proof (bits_pos (carrier ty)).
    destruct (Z.leb_spec 0 (cbits ty)), (Z.ltb_spec (cbits ty) (trailing_ones 64 m)); done || lia. }
  apply wp_fmap. eapply wp_mono.
  { apply (fold_low_bits_spec rec ok ok_le Hrec t ty x tx (trailing_ones 64 m)); [done..|lia|done]. }
  intros id t' [Hstep Hy]. split; [done|]. eapply yields_weaken; [exact Hy|]. intros rho Hmod l Hl.
  pose proof (model_extends _ _ _ Hwf (proj1 Hstep) Hmod) as Hm0. rewrite (HP rho Hm0 l Hl).
  unfold low_value. rewrite Heq at 2. by rewrite low_mask_wrap by done.
Qed.

(** One round of XOR cancellation. *)
Lemma xor_step_spec t ty x y a b tx ty' P : wf t -> type_at t x = Some tx -> type_at t y = Some ty' ->
  carrier tx = carrier ty -> carrier ty' = carrier ty -> ty <> F64 ->
  represents t x tx a -> represents t y ty' b ->
  (is_literal t x = false -> ok (x + 1)%nat) -> bit_result P t Xor x y ->
  wp (xor_step rec ty a b) (rewritten t ty P) t.
Proof.
  intros Hwf Hx Hy Hcx Hcy HF Ha Hb Hok HP. unfold xor_step.
  destruct (rep_type _ _ _ _ Ha) as (ta & Hta & Hca). destruct (rep_type _ _ _ _ Hb) as (tb & Htb & Hcb).
  assert (wp (mret None) (rewritten t ty P) t) as Hnone by by apply wp_ret, rewritten_none.
  apply wp_bind. eapply wp_read_definition; [exact Hta|]. intros d Hd.
  destruct d as [|[|bop p q| | |]| |]; try exact Hnone.
  destruct bop as [[]| | | | | | | | | |]; try exact Hnone.
  destruct (stored_expression t a ta _ Hwf Hd) as (Hin & Hty & Hst).
  inversion_clear Hin as [|? ? Hpa Hin']. inversion_clear Hin' as [|? ? Hqa _].
  apply typed_binary in Hty as (tp & tq & Hp & Hq & Hokb). cbn [binary_typed] in Hokb. btyping.
  assert (carrier tp = carrier ta) as Hcp by done. assert (carrier tq = carrier ta) as Hcq by done.
  assert (forall rho, model t rho -> vec rho x = Z.lxor (vec rho p) (vec rho q)) as Hxv.
  { intros rho Hm. destruct (Hst rho Hm) as [_ Hv].
    destruct (ev_bitwise t rho Hm ta Xor p q tp tq 0 Hp Hq Hcp Hcq) as (l & Hl & _ & Hlv).
    rewrite <- (represents_vec t x tx a rho Hm Ha). unfold vec at 1. by rewrite (Hv _ Hl), Hlv. }
  apply wp_bind. eapply wp_read_representation; [done|exact Hp|]. intros a' Ha'.
  apply wp_bind. eapply wp_read_representation; [done|exact Hq|]. intros b' Hb'.
  destruct (Nat.eqb_spec b' b) as [->|_].
  { apply wp_ret. eapply (bit_operand t ty P Xor x y p tp); [done..|congruence|]. intros rho Hm.
    cbn [bit_fn]. rewrite Hxv by done. assert (vec rho y = vec rho q) as ->
      by (unfold vec; by rewrite (represents_same t y q ty' tq b rho)).
    by rewrite Z.lxor_assoc, Z.lxor_nilpotent, Z.lxor_0_r. }
  destruct (Nat.eqb_spec a' b) as [->|_].
  { apply wp_ret. eapply (bit_operand t ty P Xor x y q tq); [done..|congruence|]. intros rho Hm.
    cbn [bit_fn]. rewrite Hxv by done. assert (vec rho y = vec rho p) as ->
      by (unfold vec; by rewrite (represents_same t y p ty' tp b rho)).
    by rewrite (Z.lxor_comm (vec rho p)), Z.lxor_assoc, Z.lxor_nilpotent, Z.lxor_0_r. }
  apply wp_bind. eapply wp_read_scalar; [done|exact Htb|]. intros outer _ Houter.
  destruct outer as [outer|]; [|exact Hnone].
  destruct (literal_operand t b tb outer Htb Houter) as (Hsb & Hfo & Hov).
  assert (is_integer ty = true) as Hi.
  { assert (is_scalar ty = true) as Hs by (rewrite <- carrier_scalar, <- Hcy, <- Hcb, carrier_scalar; done).
    by destruct ty. }
  apply wp_bind. eapply wp_read_known; [done|exact Ha'|]. intros k1 Hk1 Hk1f.
  apply wp_bind. eapply wp_read_known; [done|exact Hb'|]. intros k2 Hk2 Hk2f. cbv zeta.
  assert (carrier ta = carrier ty) as Hcta by congruence.
  assert (is_integer ta = true) as Hia by by eapply integer_of_carrier.
  assert (is_integer tp = true) as Hip by by eapply integer_of_carrier.
  assert (is_integer tq = true) as Hiq by by eapply integer_of_carrier.
  assert (is_literal t x = false) as Hxl.
  { unfold is_literal, definition_at. destruct (values t !! x) as [v|] eqn:Hv; [|done]. cbn.
    destruct (definition v) as [l| | |] eqn:Hdv; try done.
    rewrite (rep_literal _ _ _ _ Ha v l Hv Hdv) in Hd. rewrite Hd in Hv. by simplify_eq/=. }
  pose proof (rep_le _ _ _ _ Ha) as Hale.
  assert (forall base tb' inner inner', (base < a)%nat -> type_at t base = Some tb' ->
    carrier tb' = carrier ta -> fits (cbits ty) inner ->
    (forall rho, model t rho -> val rho inner' = inner /\
      vec rho x = Z.lxor (vec rho base) (vec rho inner') /\ vec rho inner' = val rho inner' /\
      vec rho base = val rho base) ->
    wp (m ← carrier_literal ty (lit (Z.lxor inner outer));
        Some <$> fold rec ty (EBinary (Bitwise Xor) base m)) (rewritten t ty P) t) as Hmerge.
  { intros base tb' inner inner' Hlt Hbase Hcb' Hfi Hval.
    eapply fold_with_mask; [done|exact Hbase|done|congruence| | |].
    - apply fits_lxor; [pose proof (bits_pos (carrier ty)); lia|done|]. by rewrite Hcb, Hcy in Hfo.
    - intros t' m Hstep' Hml. eapply ok_le; [|by apply Hok]. cbn [depth]. unfold weight. rewrite Hml.
      destruct (is_literal t' base); lia.
    - intros rho Hm l Hl. destruct (HP rho Hm l Hl) as [Hw Hlv]. destruct (Hval rho Hm) as (E1 & E2 & E3 & E4).
      assert (vec rho y = outer) as Ey.
      { rewrite <- (represents_vec t y ty' b rho Hm Hb). by apply (vec_known t b tb outer rho); [..|apply Hov]. }
      cbn [bit_fn] in *. rewrite E2, E3, E4, E1, Ey in Hlv.
      rewrite <- (lit128_u128 l Hw), Hlv, Z.lxor_assoc. apply lit128_small.
      apply fits_lxor; [lia| |apply fits_lxor; [lia|..] ].
      + apply (val_fits64 t rho Hm base tb'); [done|]. eapply scalar_of_carrier; [exact Hcb'|solve_scalar].
      + eapply fits_mono; [|exact Hfi]. destruct (cbits_integer ty Hi); lia.
      + eapply fits_mono; [|exact Hfo]. destruct (cbits_scalar tb Hsb); lia. }
  destruct k2 as [k2|].
  - assert (wp (m ← carrier_literal ty (lit (Z.lxor k2 outer));
        Some <$> fold rec ty (EBinary (Bitwise Xor) p m)) (rewritten t ty P) t); [|by destruct k1].
    apply (Hmerge p tp k2 q); try done.
    + rewrite <- Hcta, <- Hcq. apply Hk2f; [done|solve_scalar].
    + intros rho Hm. split_and!; [by apply Hk2|by apply Hxv|by apply (vec_val t rho Hm q tq); [|solve_scalar]|].
      apply (vec_val t rho Hm p tp); [done|solve_scalar].
  - destruct k1 as [k1|]; [|exact Hnone].
    apply (Hmerge q tq k1 p); try done.
    + rewrite <- Hcta, <- Hcp. apply Hk1f; [done|solve_scalar].
    + intros rho Hm. split_and!; [by apply Hk1|rewrite Z.lxor_comm; by apply Hxv
        |by apply (vec_val t rho Hm p tp); [|solve_scalar]|].
      apply (vec_val t rho Hm q tq); [done|solve_scalar].
Qed.

Lemma bit_result_comm P t op x y : bit_result P t op x y -> bit_result P t op y x.
Proof using Type.
  intros HP rho Hm l Hl. destruct (HP rho Hm l Hl) as [Hw Hv]. split; [done|]. rewrite Hv.
  destruct op; cbn [bit_fn]; [apply Z.land_comm|apply Z.lor_comm|apply Z.lxor_comm].
Qed.

Lemma xor_step_pure t ty a b : pure_none (xor_step rec ty a b) t.
Proof using Type. unfold xor_step, read_definition, read_representation, read_scalar. pure_none. Qed.
Lemma and_constant_pure t ty x m : pure_none (and_constant rec ty x m) t.
Proof using Type. unfold and_constant, read_bounds. pure_none. Qed.
Lemma rejoin_bits_pure t ty x y : pure_none (rejoin_bits rec ty x y) t.
Proof using Type. unfold rejoin_bits. pure_none. Qed.

Lemma fold_xor_spec t ty x y a b tx ty' P : wf t -> type_at t x = Some tx -> type_at t y = Some ty' ->
  carrier tx = carrier ty -> carrier ty' = carrier ty -> ty <> F64 ->
  represents t x tx a -> represents t y ty' b -> ok (Nat.max (weight t x) (weight t y) + 1)%nat ->
  bit_result P t Xor x y ->
  wp (fold_xor rec ty a b) (rewritten t ty P) t.
Proof.
  intros Hwf Hx Hy Hcx Hcy HF Ha Hb Hok HP.
  assert (wp (xor_step rec ty b a) (rewritten t ty P) t) as Hsecond.
  { apply (xor_step_spec t ty y x b a ty' tx P); try done.
    - intros Hyl. eapply ok_le; [|exact Hok]. unfold weight. rewrite Hyl. lia.
    - by apply bit_result_comm. }
  apply (wp_else t ty P (xor_step rec ty a b)); [|apply xor_step_pure|done].
  apply (xor_step_spec t ty x y a b tx ty' P); try done.
  intros Hxl. eapply ok_le; [|exact Hok]. unfold weight. rewrite Hxl. lia.
Qed.

(** What is known of an operand whose representation is a literal. *)
Definition operand_known (t : ValueTable) (x : nat) (tx : Ty) (s : option Z) : Prop :=
  forall z, s = Some z -> is_scalar tx = true /\ fits (cbits tx) z /\
    forall rho, model t rho -> val rho x = z /\ vec rho x = z.

Lemma wp_operand t x tx a Q : wf t -> represents t x tx a -> type_at t x = Some tx ->
  (forall s, operand_known t x tx s -> Q s t) -> wp (read_scalar a) Q t.
Proof using Type.
  intros Hwf Ha Hx HQ. destruct (rep_type _ _ _ _ Ha) as (ta & Hta & Hca).
  eapply wp_read_scalar; [done|exact Hta|]. intros s _ Hs. apply HQ. intros z ->.
  destruct (literal_operand t a ta z Hta Hs) as (Hsa & Hf & Hv).
  assert (is_scalar tx = true) as Hsx by by eapply scalar_of_carrier.
  split; [done|]. split; [by rewrite <- Hca|]. intros rho Hm.
  assert (val rho x = z) as Hvx by (rewrite <- (represents_val t x tx a rho Hm Ha); by apply Hv).
  split; [done|]. by eapply vec_known.
Qed.

(** [Or] and [And] of equal or absorbed operands. *)
Definition and_or (operator : BitwiseOp) (left right a b : nat) : T (option nat) :=
  if Nat.eqb a b then mret (Some left)
  else
    first ← reads (fun t => absorbed t operator left b);
    if first : bool then mret (Some left)
    else
      second ← reads (fun t => absorbed t operator right a);
      mret (if second : bool then Some right else None).

Lemma and_or_spec t ty op x y a b tx ty' P : wf t -> type_at t x = Some tx -> type_at t y = Some ty' ->
  carrier tx = carrier ty -> carrier ty' = carrier ty ->
  represents t x tx a -> represents t y ty' b -> op = And \/ op = Or -> bit_result P t op x y ->
  wp (and_or op x y a b) (rewritten t ty P) t.
Proof using Type.
  intros Hwf Hx Hy Hcx Hcy Ha Hb Hop HP. unfold and_or. destruct (Nat.eqb_spec a b) as [->|_].
  { apply wp_ret. eapply (bit_operand t ty P op x y x tx); [done..|]. intros rho Hm.
    assert (vec rho y = vec rho x) as ->.
    { unfold vec. by rewrite (represents_same t y x ty' tx b rho Hm Hb Ha). }
    destruct Hop as [-> | ->]; cbn [bit_fn]; [apply Z.land_diag|apply Z.lor_diag]. }
  destruct (absorbed_spec t op x y tx ty' b Hwf Hx Hy Hb Hop) as (f1 & Hf1 & H1).
  apply wp_bind. eapply wp_reads; [exact Hf1|]. destruct f1.
  { apply wp_ret. eapply (bit_operand t ty P op x y x tx); [done..|]. by apply H1. }
  destruct (absorbed_spec t op y x ty' tx a Hwf Hy Hx Ha Hop) as (f2 & Hf2 & H2').
  apply wp_bind. eapply wp_reads; [exact Hf2|]. apply wp_ret.
  destruct f2; [|by apply rewritten_none].
  eapply (bit_operand t ty P op x y y ty'); [done..|]. intros rho Hm.
  specialize (H2' eq_refl rho Hm). destruct Hop as [-> | ->]; cbn [bit_fn] in *;
    [by rewrite Z.land_comm|by rewrite Z.lor_comm].
Qed.

(** A zero operand of [Or] or [Xor]. *)
Lemma zero_operand t ty op x y z tz P : wf t -> type_at t z = Some tz -> carrier tz = carrier ty ->
  bit_result P t op x y ->
  z = x /\ (forall rho, model t rho -> vec rho y = 0) \/
  z = y /\ (forall rho, model t rho -> vec rho x = 0) ->
  op <> And -> wp (mret (Some z)) (rewritten t ty P) t.
Proof using Type.
  intros Hwf Hz Hc HP Hcase Hop. apply wp_ret. eapply (bit_operand t ty P op x y z tz); [done..|].
  intros rho Hm. destruct Hcase as [(-> & Hv) | (-> & Hv)]; rewrite (Hv rho Hm);
    destruct op; cbn [bit_fn]; rewrite ?Z.lor_0_r, ?Z.lxor_0_r, ?Z.lor_0_l, ?Z.lxor_0_l; done.
Qed.

(** [x | mask] and [mask | y] keep the full operand. *)
Lemma full_operand t ty x y z tz P : wf t -> type_at t z = Some tz -> carrier tz = carrier ty ->
  is_scalar ty = true -> bit_result P t Or x y -> z = x \/ z = y ->
  (forall rho, model t rho -> vec rho z = mask (carrier ty) /\
     fits (cbits ty) (vec rho x) /\ fits (cbits ty) (vec rho y)) ->
  wp (mret (Some z)) (rewritten t ty P) t.
Proof using Type.
  intros Hwf Hz Hc Hs HP Hzxy Hval. apply wp_ret. eapply (bit_operand t ty P Or x y z tz); [done..|].
  intros rho Hm. destruct (Hval rho Hm) as (Hv & Hfx & Hfy). cbn [bit_fn].
  assert (0 <= cbits ty <= 64) as Hb by (destruct (cbits_scalar ty Hs); lia).
  assert (forall v, fits (cbits ty) v -> Z.lor v (mask (carrier ty)) = mask (carrier ty)) as Hfull.
  { intros v Hf. unfold mask. rewrite low_mask_ones by done. apply Z.bits_inj'. intros i Hi.
    rewrite Z.lor_spec, testbit_ones by lia. destruct (Z.ltb_spec i (cbits ty)).
    - rewrite (proj2 (Z.leb_le 0 i) Hi). apply orb_true_r.
    - rewrite (fits_testbit _ _ i Hf) by lia. by rewrite andb_false_r. }
  destruct Hzxy as [-> | ->]; rewrite Hv; [rewrite Z.lor_comm|]; by apply Hfull.
Qed.

(** The rules after masks and rejoined bits. *)
Definition bitwise_rest (ty : Ty) (operator : BitwiseOp) (left right a b : nat) (x y : option Z)
    : T (option nat) :=
  complementary ← reads (fun t => complementary_predicates t left right);
  if complementary : bool then
    Some <$> carrier_literal ty (lit (Z.b2z (negb (bool_decide (operator = And)))))
  else
    let full bits_ := bits_ =? mask (carrier ty) in
    match operator with
    | And => and_or operator left right a b
    | Or =>
        match x, y with
        | _, Some 0 => mret (Some left)
        | Some 0, _ => mret (Some right)
        | _, _ =>
            if from_option full false y then mret (Some right)
            else if from_option full false x then mret (Some left)
            else and_or operator left right a b
        end
    | Xor =>
        match x, y with
        | _, Some 0 => mret (Some left)
        | Some 0, _ => mret (Some right)
        | _, _ =>
            if Nat.eqb a b then Some <$> literal ty (lit 0) else fold_xor rec ty a b
        end
    end.

Lemma complementary_result t ty op x y tx ty' P : wf t -> type_at t x = Some tx ->
  type_at t y = Some ty' -> is_integer ty = true ->
  (forall rho, model t rho -> exists c, rho x = lit (Z.b2z c) /\ rho y = lit (Z.b2z (negb c))) ->
  bit_result P t op x y ->
  wp (Some <$> carrier_literal ty (lit (Z.b2z (negb (bool_decide (op = And)))))) (rewritten t ty P) t.
Proof using Type.
  intros Hwf Hx Hy Hi Hcomp HP. apply wp_some.
  eapply wp_mono; [apply (scalar_literal_spec t ty); [done|by apply integer_scalar|] |].
  - destruct (cbits_integer ty Hi) as [-> | ->]; by destruct op.
  - intros id t' (Hstep & _ & Hret). split; [done|]. eapply returns_weaken; [exact Hret|].
    intros rho Hm l Hl. pose proof (model_extends _ _ _ Hwf (proj1 Hstep) Hm) as Hm0.
    destruct (HP rho Hm0 l Hl) as [Hw Hv], (Hcomp rho Hm0) as (c & Ex & Ey).
    f_equal. rewrite <- (lit128_u128 l Hw), Hv. unfold vec. rewrite Ex, Ey, !u128_lit.
    by destruct op, c.
Qed.

Lemma bitwise_rest_spec t ty op x y a b p q tx ty' P : wf t -> type_at t x = Some tx ->
  type_at t y = Some ty' -> carrier tx = carrier ty -> carrier ty' = carrier ty -> ty <> F64 ->
  ok (depth t ty (EBinary (Bitwise op) x y) - 1)%nat -> bit_result P t op x y ->
  represents t x tx a -> represents t y ty' b ->
  (forall z, p = Some z -> is_scalar ty = true /\ forall rho, model t rho -> vec rho x = z) ->
  (forall z, q = Some z -> is_scalar ty = true /\ forall rho, model t rho -> vec rho y = z) ->
  wp (bitwise_rest ty op x y a b p q) (rewritten t ty P) t.
Proof.
  intros Hwf Hx Hy Hcx Hcy HF Hok HP Ha Hb Hp Hq. unfold bitwise_rest.
  destruct (complementary_predicates_spec t x y tx ty' Hwf Hx Hy) as (c & Hc & Hcomp); [congruence|].
  apply wp_bind. eapply wp_reads; [exact Hc|]. destruct c.
  { destruct (Hcomp eq_refl) as [Hi Hval]. apply (complementary_result t ty op x y tx ty' P); try done.
    by apply (integer_of_carrier ty tx). }
  clear Hc Hcomp. cbv zeta.
  assert (forall z, q = Some 0 -> z = x -> op <> And -> wp (mret (Some z)) (rewritten t ty P) t) as Hq0.
  { intros z Hz -> Hop. eapply (zero_operand t ty op x y x tx); try done. left. split; [done|].
    by apply Hq. }
  assert (forall z, p = Some 0 -> z = y -> op <> And -> wp (mret (Some z)) (rewritten t ty P) t) as Hp0.
  { intros z Hz -> Hop. eapply (zero_operand t ty op x y y ty'); try done. right. split; [done|].
    by apply Hp. }
  assert (op = And \/ op = Or -> wp (and_or op x y a b) (rewritten t ty P) t) as Hao
    by by intros; eapply and_or_spec.
  destruct op; [by apply Hao; left| |].
  - assert (wp (if from_option (fun z => z =? mask (carrier ty)) false q then mret (Some y)
            else if from_option (fun z => z =? mask (carrier ty)) false p then mret (Some x)
            else and_or Or x y a b) (rewritten t ty P) t) as Hrest; [|by repeat case_match; auto].
    assert (forall rho, model t rho -> fits (cbits ty) (vec rho x) /\ fits (cbits ty) (vec rho y)) as Hfits.
    { intros rho Hm. rewrite <- Hcx at 1. rewrite <- Hcy. split; by apply vec_fits with t. }
    destruct q as [z|]; cbn [from_option].
    + destruct (Z.eqb_spec z (mask (carrier ty))) as [->|].
      { destruct (Hq _ eq_refl) as [Hs Hv]. eapply (full_operand t ty x y y ty'); auto. }
      destruct p as [z'|]; cbn [from_option]; [|auto].
      destruct (Z.eqb_spec z' (mask (carrier ty))) as [->|]; [|auto].
      destruct (Hp _ eq_refl) as [Hs Hv]. eapply (full_operand t ty x y x tx); auto.
    + destruct p as [z'|]; cbn [from_option]; [|auto].
      destruct (Z.eqb_spec z' (mask (carrier ty))) as [->|]; [|auto].
      destruct (Hp _ eq_refl) as [Hs Hv]. eapply (full_operand t ty x y x tx); auto.
  - assert (wp (if Nat.eqb a b then Some <$> literal ty (lit 0) else fold_xor rec ty a b)
      (rewritten t ty P) t) as Hrest; [|by repeat case_match; auto].
    destruct (Nat.eqb_spec a b) as [->|_].
    + apply some_zero; [done|]. intros rho Hm l Hl. destruct (HP rho Hm l Hl) as [Hw Hv].
      assert (vec rho y = vec rho x) as Heq.
      { unfold vec. by rewrite (represents_same t y x ty' tx b rho Hm Hb Ha). }
      rewrite Heq in Hv. cbn [bit_fn] in Hv. rewrite Z.lxor_nilpotent in Hv.
      by rewrite <- (lit128_u128 l Hw), Hv.
    + apply (fold_xor_spec t ty x y a b tx ty' P); try done. eapply ok_le; [|exact Hok]. cbn [depth]. lia.
Qed.

Lemma fold_bitwise_spec t ty op x y tx ty' P : wf t -> type_at t x = Some tx -> type_at t y = Some ty' ->
  carrier tx = carrier ty -> carrier ty' = carrier ty -> ty <> F64 ->
  ok (depth t ty (EBinary (Bitwise op) x y) - 1)%nat -> bit_result P t op x y ->
  wp (fold_bitwise rec ty op x y) (rewritten t ty P) t.
Proof.
  intros Hwf Hx Hy Hcx Hcy HF Hok HP. unfold fold_bitwise.
  assert (is_scalar ty = true -> is_integer ty = true) as Hint by by destruct ty.
  assert (is_scalar tx = true -> is_scalar ty = true) as Hsx by by apply scalar_of_carrier.
  assert (is_scalar ty' = true -> is_scalar ty = true) as Hsy by by apply scalar_of_carrier.
  assert (wp (mret None) (rewritten t ty P) t) as Hnone by by apply wp_ret, rewritten_none.
  assert (forall rho, model t rho -> is_scalar ty = true ->
    vec rho x = val rho x /\ vec rho y = val rho y) as Hscalar.
  { intros rho Hm Hs. split; [eapply (vec_val t rho Hm x tx)|eapply (vec_val t rho Hm y ty')]; try done;
      by eapply scalar_of_carrier. }
  assert (is_scalar ty = true -> forall rho, model t rho -> forall l, P rho = Some l ->
    l = lit (bit_fn op (val rho x) (val rho y))) as Hlit.
  { intros Hs rho Hm l Hl. destruct (HP rho Hm l Hl) as [Hw Hv], (Hscalar rho Hm Hs) as [Ex Ey].
    rewrite Ex, Ey in Hv. rewrite <- (lit128_u128 l Hw), Hv. apply lit128_small.
    assert (fits 64 (val rho x)) by (apply (val_fits64 t rho Hm x tx); [done|by eapply scalar_of_carrier]).
    assert (fits 64 (val rho y)) by (apply (val_fits64 t rho Hm y ty'); [done|by eapply scalar_of_carrier]).
    by destruct op; cbn [bit_fn]; [apply fits_land_l|apply fits_lor|apply fits_lxor]. }
  apply wp_bind. eapply wp_read_representation; [done|exact Hx|]. intros a Ha.
  apply wp_bind. eapply wp_read_representation; [done|exact Hy|]. intros b Hb.
  apply wp_bind. eapply wp_operand; [done..|]. intros p Hp.
  apply wp_bind. eapply wp_operand; [done..|]. intros q Hq.
  assert (forall z, p = Some z -> is_scalar ty = true /\ forall rho, model t rho -> vec rho x = z) as Hpx.
  { intros z ->. destruct (Hp z eq_refl) as (? & ? & Hv). split; [auto|]. intros. by apply Hv. }
  assert (forall z, q = Some z -> is_scalar ty = true /\ forall rho, model t rho -> vec rho y = z) as Hqy.
  { intros z ->. destruct (Hq z eq_refl) as (? & ? & Hv). split; [auto|]. intros. by apply Hv. }
  apply wp_else.
  - destruct (decide (op = And)) as [->|]; [|done]. cbn [bit_fn] in *.
    assert (forall z, p = Some z -> wp (and_constant rec ty y z) (rewritten t ty P) t) as Hleft.
    { intros z ->. destruct (Hp z eq_refl) as (Hs & Hf & Hv). rewrite Hcx in Hf.
      apply (and_constant_spec t ty y ty' z P); try done; [auto|]. intros rho Hm l Hl.
      by rewrite (Hlit (Hsx Hs) rho Hm l Hl), (proj1 (Hv rho Hm)), Z.land_comm. }
    assert (forall z, q = Some z -> wp (and_constant rec ty x z) (rewritten t ty P) t) as Hright.
    { intros z ->. destruct (Hq z eq_refl) as (Hs & Hf & Hv). rewrite Hcy in Hf.
      apply (and_constant_spec t ty x tx z P); try done; [auto|]. intros rho Hm l Hl.
      by rewrite (Hlit (Hsy Hs) rho Hm l Hl), (proj1 (Hv rho Hm)). }
    destruct q as [z|]; [destruct p; by apply Hright|]. destruct p as [z|]; [by apply Hleft|done].
  - destruct (decide (op = And)), p, q; try apply and_constant_pure; pure_none.
  - apply wp_else; [| |].
    + destruct (bool_decide_reflect (op = Or)) as [->|]; [|done].
      destruct (is_integer ty) eqn:Hi; [|done]. cbn [andb].
      apply (rejoin_bits_spec t ty x y tx ty' P); try done. intros rho Hm.
      apply Hlit; [by apply integer_scalar|done].
    + destruct (bool_decide (op = Or) && is_integer ty); [apply rejoin_bits_pure|pure_none].
    + by eapply bitwise_rest_spec.
Qed.
End BitRewrites.
