(* ===== verification/Lanes.v ===== *)
(** * Bytes and lanes of vectors

    Bit-level laws of the byte arrays, the packed shuffle masks and the lane
    loops of Expr.v and Evaluate.v: what each byte and each lane of a vector
    result is. The rewrites on vectors are proved from them. *)

From S2P Require Import Prelude Bytes Types Floating Expr Evaluate Values Fold Model Carrier.
Local Open Scope Z_scope.

(** ** Packed shuffle masks *)

Definition indices_ok (indices : list Z) : Prop := length indices = 16%nat /\ Forall (fun i => 0 <= i < 32) indices.

Lemma testbit_pack indices : forall pos acc packed, 0 <= pos -> fits (pos * 5) acc ->
  Forall (fun i => 0 <= i < 32) indices -> pack_indices indices pos acc = Some packed ->
  forall i, 0 <= i -> Z.testbit packed i =
    if i <? pos * 5 then Z.testbit acc i
    else Z.testbit (default 0 (indices !! Z.to_nat ((i - pos * 5) / 5))) ((i - pos * 5) mod 5).
Proof.
  induction indices as [|x indices IH]; intros pos acc packed Hpos Hacc Hall Hp i Hi; cbn [pack_indices] in Hp.
  - simplify_eq. rewrite lookup_nil, Z.testbit_0_l. destruct (Z.ltb_spec i (pos * 5)); [done|].
    by apply (fits_testbit (pos * 5)).
  - inversion_clear Hall as [|? ? Hx Hall']. rewrite (proj2 (Z.ltb_lt _ _)) in Hp by lia.
    assert (fits 5 x) as Hfx by (split; [lia|]; change (2 ^ 5) with 32; lia).
    assert (forall j, 0 <= j -> Z.testbit (Z.lor acc (Z.shiftl x (pos * 5))) j =
      if j <? pos * 5 then Z.testbit acc j else Z.testbit x (j - pos * 5)) as Hbits.
    { intros j Hj. rewrite Z.lor_spec, testbit_shiftl by lia.
      destruct (Z.ltb_spec j (pos * 5)); [rewrite (proj2 (Z.leb_gt _ _)) by lia; apply orb_false_r|].
      rewrite (fits_testbit (pos * 5) acc j) by (done || lia). by rewrite (proj2 (Z.leb_le _ _)) by lia. }
    rewrite (IH (pos + 1) _ packed) by first [done | lia |
      (apply fits_of_bits; [lia|]; intros j Hj; rewrite Hbits by lia;
       destruct (Z.ltb_spec j (pos * 5)); [lia|]; apply (fits_testbit 5); [done|lia])].
    rewrite Hbits by done. destruct (Z.ltb_spec i ((pos + 1) * 5)), (Z.ltb_spec i (pos * 5)); try lia.
    + done.
    + by rewrite Z.div_small, Z.mod_small by lia.
    + replace (i - pos * 5) with (i - (pos + 1) * 5 + 1 * 5) by lia. rewrite Z.div_add, Z.mod_add by lia.
      pose proof (Z.div_pos (i - (pos + 1) * 5) 5 ltac:(lia) ltac:(lia)).
      by replace (Z.to_nat ((i - (pos + 1) * 5) / 5 + 1)) with (S (Z.to_nat ((i - (pos + 1) * 5) / 5))) by lia.
Qed.

Lemma pack_indices_total indices : forall pos acc, Forall (fun i => 0 <= i < 32) indices ->
  exists packed, pack_indices indices pos acc = Some packed.
Proof.
  induction indices as [|x indices IH]; intros pos acc Hall; cbn [pack_indices]; [eauto|].
  inversion_clear Hall. rewrite (proj2 (Z.ltb_lt _ _)) by lia. eauto.
Qed.

Lemma mask_new_total indices : indices_ok indices -> exists m, mask_new indices = Some m.
Proof.
  intros [_ H]. destruct (pack_indices_total indices 0 0 H) as (p & Hp).
  unfold mask_new. rewrite Hp. by eexists.
Qed.

Lemma mask_indices_new indices m : indices_ok indices -> mask_new indices = Some m -> mask_indices m = indices.
Proof.
  intros [Hlen Hall] (packed & Hp & Hm)%bind_Some. simplify_eq/=.
  pose proof (testbit_pack indices 0 0 packed ltac:(lia) ltac:(by apply fits_0) Hall Hp) as Hbits.
  assert (fits 80 packed) as Hf.
  { apply fits_of_bits; [lia|]. intros i Hi. rewrite Hbits by lia. cbn [Z.mul].
    rewrite (proj2 (Z.ltb_ge _ _)) by lia. rewrite Z.sub_0_r, lookup_ge_None_2; [apply Z.testbit_0_l|].
    rewrite Hlen. assert (16 <= i / 5) by (apply Z.div_le_lower_bound; lia). lia. }
  unfold mask_indices. cbn [mask_bytes]. rewrite (from_to_le_bytes 10) by done.
  apply list_eq. intros k. rewrite list_lookup_fmap. destruct (decide (k < 16)%nat) as [Hk|Hk].
  - rewrite lookup_seq_lt by done. cbn [fmap option_fmap option_map]. rewrite Nat.add_0_l.
    destruct (lookup_lt_is_Some_2 indices k ltac:(lia)) as [x Hx]. rewrite Hx. f_equal.
    pose proof (proj1 (Forall_lookup _ _) Hall k x Hx) as Hr. cbn beta in Hr.
    apply Z.bits_inj'. intros j Hj. change 31 with (Z.ones 5).
    rewrite Z.land_spec, testbit_ones, testbit_shiftr by lia. rewrite (proj2 (Z.leb_le 0 j) Hj). cbn [andb].
    rewrite Hbits by lia. cbn [Z.mul]. rewrite (proj2 (Z.ltb_ge (_ + _) 0)) by lia. rewrite Z.sub_0_r.
    destruct (Z.ltb_spec j 5) as [H5|H5].
    + replace (j + 5 * Z.of_nat k) with (j + Z.of_nat k * 5) by lia.
      rewrite Z.div_add, Z.mod_add, Z.div_small, Z.mod_small, Z.add_0_l, Nat2Z.id, Hx by lia. cbn. apply andb_true_r.
    + rewrite andb_false_r. symmetry. apply (fits_testbit 5); [|done]. split; [lia|]. change (2 ^ 5) with 32. lia.
  - rewrite !lookup_ge_None_2; [done|lia|]. rewrite length_seq. lia.
Qed.

Lemma mask_indices_ok m : indices_ok (mask_indices m).
Proof.
  split; [unfold mask_indices; by rewrite length_fmap, length_seq|].
  apply Forall_fmap, Forall_true. intros i. unfold compose. change 31 with (Z.ones 5).
  rewrite Z.land_ones by lia. apply Z.mod_pos_bound. lia.
Qed.

(** ** Lane loops *)

Lemma testbit_fold {A} (g : A -> Z) l : forall acc i,
  Z.testbit (foldl (fun acc x => Z.lor acc (g x)) acc l) i
  = Z.testbit acc i || existsb (fun x => Z.testbit (g x) i) l.
Proof.
  induction l as [|x l IH]; intros acc i; cbn [foldl existsb]; [by rewrite orb_false_r|].
  rewrite IH, Z.lor_spec. by rewrite orb_assoc.
Qed.

Lemma fold_zero {A} (g : A -> Z) l : (forall x, x ∈ l -> g x = 0) ->
  foldl (fun acc x => Z.lor acc (g x)) 0 l = 0.
Proof.
  intros Hg. apply Z.bits_inj'. intros i _. rewrite testbit_fold, Z.testbit_0_l. cbn [orb].
  induction l as [|x l IH]; [done|]. cbn [existsb]. rewrite Hg, Z.testbit_0_l by left. cbn [orb].
  apply IH. intros y Hy. apply Hg. by right.
Qed.

Lemma existsb_unique {A} (p : A -> bool) l x : x ∈ l -> (forall y, y ∈ l -> p y = true -> y = x) ->
  existsb p l = p x.
Proof.
  intros Hx Hu. destruct (p x) eqn:Hp.
  - apply existsb_exists. exists x. split; [by apply list_elem_of_In|done].
  - apply not_true_iff_false. intros (y & Hy & Hpy)%existsb_exists. apply list_elem_of_In in Hy.
    rewrite (Hu y Hy Hpy) in Hpy. congruence.
Qed.

Lemma elem_of_offsets w off : 0 < w -> off ∈ offsets w <-> exists k, off = k * w /\ 0 <= k < 128 / w.
Proof.
  intros Hw. unfold offsets. rewrite list_elem_of_fmap. split.
  - intros (i & -> & Hi). apply elem_of_seq in Hi. exists (Z.of_nat i). lia.
  - intros (k & -> & Hk). exists (Z.to_nat k). rewrite Z2Nat.id by lia. split; [done|].
    apply elem_of_seq. lia.
Qed.

Definition lane_width (w : Z) : Prop := w = 8 \/ w = 16 \/ w = 32 \/ w = 64.
Lemma lane_bits ty : is_lane ty = true -> lane_width (bits ty).
Proof. destruct ty; unfold lane_width; simpl; intros; try done; lia. Qed.
Lemma lane_scalar ty : is_lane ty = true -> is_scalar ty = true.
Proof. by destruct ty. Qed.
Lemma lane_integer ty : is_lane ty = true -> is_integer ty = true.
Proof. by destruct ty. Qed.

Lemma lane_width_pos w : lane_width w -> 0 < w <= 64 /\ 128 / w * w = 128.
Proof. by intros [-> |[-> |[-> | ->]]]. Qed.

(** The bits of a vector assembled lane by lane. *)
Lemma testbit_gather w f i : lane_width w -> (forall off, off ∈ offsets w -> fits w (f off)) ->
  0 <= i < 128 -> Z.testbit (gather f (offsets w)) i = Z.testbit (f (i / w * w)) (i mod w).
Proof.
  intros Hw Hf Hi. destruct (lane_width_pos w Hw) as [Hwp Hfull]. unfold gather.
  rewrite testbit_fold, Z.testbit_0_l. cbn [orb].
  pose proof (Z.div_mod i w ltac:(lia)). pose proof (Z.mod_pos_bound i w ltac:(lia)).
  pose proof (Z.div_pos i w ltac:(lia) ltac:(lia)).
  rewrite (existsb_unique _ _ (i / w * w)).
  - rewrite testbit_wrap, testbit_shiftl by nia. rewrite (proj2 (Z.ltb_lt _ _)) by lia.
    rewrite (proj2 (Z.leb_le _ _)) by nia. cbn [andb]. f_equal. lia.
  - apply elem_of_offsets; [lia|]. exists (i / w). split; [done|]. split; [done|].
    apply Z.div_lt_upper_bound; [lia|]. nia.
  - intros off Hoff Hbit. pose proof (Hf off Hoff) as Hfit.
    apply elem_of_offsets in Hoff as (k & -> & Hk); [|lia].
    rewrite testbit_wrap, testbit_shiftl in Hbit by nia. apply andb_true_iff in Hbit as [_ Hbit].
    apply andb_true_iff in Hbit as [Hle Hbit]. apply Z.leb_le in Hle.
    destruct (decide (i - k * w < w)) as [Hlt|Hge].
    + f_equal. apply (Z.div_unique i w k (i - k * w)); [left; lia|lia].
    + rewrite (fits_testbit w) in Hbit by (done || lia). done.
Qed.

Lemma gather_fits f w : fits 128 (gather f (offsets w)).
Proof.
  apply fits_of_bits; [lia|]. intros i Hi. unfold gather. rewrite testbit_fold, Z.testbit_0_l. cbn [orb].
  induction (offsets w) as [|off l IH]; [done|]. cbn [existsb]. rewrite IH, orb_false_r.
  rewrite testbit_wrap by lia. by destruct (Z.ltb_spec i 128); [lia|].
Qed.

Lemma lane_fits v off ty : is_lane ty = true -> fits (bits ty) (lane v off (mask ty)).
Proof.
  intros Ht. unfold lane. rewrite mask_ones by by apply lane_scalar.
  apply fits_land_r; [pose proof (bits_pos ty); lia|]. apply fits_ones. pose proof (bits_pos ty). lia.
Qed.

Lemma testbit_lane v off ty i : is_lane ty = true -> 0 <= off -> 0 <= i ->
  Z.testbit (lane v off (mask ty)) i = (i <? bits ty) && Z.testbit v (off + i).
Proof.
  intros Ht Hoff Hi. pose proof (scalar_bits ty (lane_scalar ty Ht)). unfold lane.
  rewrite mask_ones by by apply lane_scalar.
  rewrite Z.land_spec, testbit_wrap, testbit_shiftr, testbit_ones by lia.
  rewrite (proj2 (Z.leb_le 0 i) Hi). cbn [andb]. rewrite (Z.add_comm off i).
  destruct (Z.ltb_spec i 64), (Z.ltb_spec i (bits ty)); try lia; btauto.
Qed.

(** A vector is what its lanes say. *)
Lemma gather_lanes ty f v : is_lane ty = true -> fits 128 v ->
  (forall off, off ∈ offsets (bits ty) -> f off = lane v off (mask ty)) ->
  gather f (offsets (bits ty)) = v.
Proof.
  intros Ht Hv Hf. pose proof (lane_bits ty Ht) as Hw. destruct (lane_width_pos _ Hw) as [Hwp Hfull].
  apply Z.bits_inj'. intros i Hi. destruct (decide (i < 128)).
  - pose proof (Z.div_mod i (bits ty) ltac:(lia)). pose proof (Z.mod_pos_bound i (bits ty) ltac:(lia)).
    pose proof (Z.div_pos i (bits ty) ltac:(lia) ltac:(lia)).
    rewrite testbit_gather; [|done| |lia].
    + rewrite Hf, testbit_lane by first [done | nia | (apply elem_of_offsets; [lia|]; exists (i / bits ty);
        split; [done|]; split; [done|]; apply Z.div_lt_upper_bound; nia)].
      rewrite (proj2 (Z.ltb_lt _ _)) by lia. cbn [andb]. f_equal. lia.
    + intros off Hoff. rewrite Hf by done. by apply lane_fits.
  - rewrite (fits_testbit 128 _ i), (fits_testbit 128 v i); try done; try lia. apply gather_fits.
Qed.

Lemma gather_zero f w : (forall off, off ∈ offsets w -> f off = 0) -> gather f (offsets w) = 0.
Proof.
  intros Hf. apply fold_zero. intros off Hoff. by rewrite Hf, Z.shiftl_0_l.
Qed.

Lemma gather_ones ty f : is_lane ty = true -> (forall off, off ∈ offsets (bits ty) -> f off = mask ty) ->
  gather f (offsets (bits ty)) = Z.ones 128.
Proof.
  intros Ht Hf. apply (gather_lanes ty); [done|by apply fits_ones|]. intros off Hoff. rewrite Hf by done.
  destruct (lane_width_pos _ (lane_bits ty Ht)) as [Hwp Hfull].
  apply elem_of_offsets in Hoff as (k & -> & Hk); [|lia].
  apply Z.bits_inj'. intros i Hi. rewrite testbit_lane by (done || nia).
  rewrite mask_ones by by apply lane_scalar. rewrite !testbit_ones by lia.
  destruct (Z.ltb_spec i (bits ty)); [|by rewrite andb_false_r].
  rewrite (proj2 (Z.leb_le 0 i) Hi). cbn [andb]. symmetry. apply andb_true_iff.
  split; [apply Z.leb_le; nia|apply Z.ltb_lt; nia].
Qed.

Lemma lane_zero off m : lane 0 off m = 0.
Proof. unfold lane. by rewrite Z.shiftr_0_l. Qed.

(** The signed reading of a lane, written back. *)
Lemma lane_signed ty l : is_lane ty = true -> fits (bits ty) l ->
  Z.land (wrap 64 (signed_value ty l)) (mask ty) = l.
Proof.
  intros Ht Hl. pose proof (scalar_bits ty (lane_scalar ty Ht)).
  rewrite signed_value_spec, mask_ones by by apply lane_scalar. rewrite <- wrap_land by lia.
  rewrite wrap_idem_le by lia. unfold to_signed. rewrite (wrap_small (bits ty) l) by done. cbv zeta.
  destruct (l <? 2 ^ (bits ty - 1)); [by apply wrap_small|].
  unfold wrap. rewrite <- (Z.mod_add (l - 2 ^ bits ty) 1) by (apply Z.pow_nonzero; lia).
  replace (l - 2 ^ bits ty + 1 * 2 ^ bits ty) with l by lia. by apply wrap_small.
Qed.

Lemma land_mask_small ty l : is_lane ty = true -> fits (bits ty) l -> Z.land l (mask ty) = l.
Proof.
  intros Ht Hl. rewrite mask_ones by by apply lane_scalar. pose proof (bits_pos ty).
  rewrite <- wrap_land by lia. by apply wrap_small.
Qed.

(** The signed range of a lane. *)
Lemma signed_lane_range ty l : is_lane ty = true -> fits (bits ty) l ->
  - Z.shiftl 1 (bits ty - 1) <= signed_value ty l <= Z.shiftl 1 (bits ty - 1) - 1.
Proof.
  intros Ht Hl. pose proof (scalar_bits ty (lane_scalar ty Ht)).
  rewrite signed_value_spec, Z.shiftl_1_l by by apply lane_scalar. unfold to_signed.
  rewrite (wrap_small (bits ty) l) by done. cbv zeta. unfold fits in Hl.
  assert (2 ^ bits ty = 2 * 2 ^ (bits ty - 1)) as Hp.
  { rewrite <- Z.pow_succ_r by lia. f_equal. lia. }
  destruct (Z.ltb_spec l (2 ^ (bits ty - 1))); lia.
Qed.

(** ** Lane operations with a known operand *)

Lemma signed_value_0 ty : signed_value ty 0 = 0.
Proof. unfold signed_value. rewrite Z.shiftl_0_l. cbn. apply Z.shiftr_0_l. Qed.

(** Lane-wise operators; the others change the lane width. *)
Definition lanewise (op : LaneBinaryOp) : bool :=
  match op with WideningMulLow _ | WideningMulHigh _ | DotI16Signed => false | _ => true end.

Lemma vec_binary_lanewise op ty l r : lanewise op = true ->
  vec_binary op ty l r = gather (fun off =>
    Z.land (lane_binary op ty (lane l off (mask ty)) (lane r off (mask ty))) (mask ty)) (offsets (bits ty)).
Proof. by destruct op. Qed.

Lemma lane_operator_lane op ty : lane_operator_ok op ty = true -> is_lane ty = true.
Proof. unfold lane_operator_ok. by intros [? _]%andb_true_iff. Qed.

(** A lane-wise operation that keeps one of its operands in every lane. *)
Lemma vec_binary_keeps op ty l r v : lanewise op = true -> is_lane ty = true -> fits 128 v ->
  (forall off, off ∈ offsets (bits ty) ->
    Z.land (lane_binary op ty (lane l off (mask ty)) (lane r off (mask ty))) (mask ty) = lane v off (mask ty)) ->
  vec_binary op ty l r = v.
Proof.
  intros Hop Ht Hv H. rewrite vec_binary_lanewise by done. by apply gather_lanes.
Qed.

Lemma vec_binary_same op ty v : lane_operator_ok op ty = true -> fits 128 v ->
  match op with
  | LSub | SubSatSigned | SubSatUnsigned | GtSigned => vec_binary op ty v v = 0
  | LEq => vec_binary op ty v v = Z.ones 128
  | MinSigned | MinUnsigned | MaxSigned | MaxUnsigned | AverageUnsigned => vec_binary op ty v v = v
  | _ => True
  end.
Proof.
  intros Hop Hv. pose proof (lane_operator_lane op ty Hop) as Ht.
  assert (forall off, off ∈ offsets (bits ty) -> Z.land (lane v off (mask ty)) (mask ty) = lane v off (mask ty)) as Hself.
  { intros. by apply land_mask_small, lane_fits. }
  pose proof (lane_fits v) as Hfits. pose proof (bits_pos ty) as Hb.
  destruct op; try done; rewrite ?vec_binary_lanewise by done; cbn [lane_binary].
  - apply gather_zero. intros. by rewrite Z.sub_diag.
  - apply (gather_ones ty); [done|]. intros. rewrite Z.eqb_refl.
    rewrite mask_ones, Z.land_diag by by apply lane_scalar. done.
  - apply gather_zero. intros. by rewrite Z.ltb_irrefl.
  - apply gather_lanes; [done..|]. intros off _. rewrite Z.min_id. apply lane_signed; auto.
  - apply gather_lanes; [done..|]. intros. rewrite Z.min_id. auto.
  - apply gather_lanes; [done..|]. intros off _. rewrite Z.max_id. apply lane_signed; auto.
  - apply gather_lanes; [done..|]. intros. rewrite Z.max_id. auto.
  - apply gather_lanes; [done..|]. intros off Hoff.
    unfold lane_operator_ok in Hop. apply andb_true_iff in Hop as [_ Hop]. apply Z.leb_le in Hop.
    specialize (Hfits off ty Ht). assert (fits 16 (lane v off (mask ty))) as H16 by by eapply fits_mono.
    rewrite wrap_small by (unfold fits in *; change (2 ^ 64) with 18446744073709551616; change (2 ^ 16) with 65536 in *; lia).
    rewrite Z.shiftr_div_pow2 by lia. change (2 ^ 1) with 2.
    replace (lane v off (mask ty) + lane v off (mask ty) + 1) with (1 + lane v off (mask ty) * 2) by lia.
    rewrite Z.div_add by lia. cbn [Z.add]. change (1 / 2) with 0. rewrite Z.add_0_l. auto.
  - apply gather_zero. intros off _. rewrite Z.sub_diag. unfold clamp.
    replace (Z.max _ _) with 0 by (rewrite Z.shiftl_1_l; pose proof (pow2_pos (bits ty - 1) ltac:(lia)); lia).
    done.
  - apply gather_zero. intros off _. by rewrite Z.sub_diag.
Qed.

Lemma clamp_id lo hi z : lo <= z <= hi -> clamp lo hi z = z.
Proof. unfold clamp. lia. Qed.

Lemma vec_binary_zero op ty v : lane_operator_ok op ty = true -> fits 128 v ->
  match op with
  | LAdd | AddSatSigned | AddSatUnsigned => vec_binary op ty 0 v = v /\ vec_binary op ty v 0 = v
  | LSub | SubSatSigned | SubSatUnsigned => vec_binary op ty v 0 = v
  | _ => True
  end.
Proof.
  intros Hop Hv. pose proof (lane_operator_lane op ty Hop) as Ht.
  assert (forall off, fits (bits ty) (lane v off (mask ty))) as Hf by (intros; by apply lane_fits).
  assert (forall off, fits 64 (lane v off (mask ty))) as Hf64.
  { intros off. eapply fits_mono; [|apply Hf]. by apply scalar_bits, lane_scalar. }
  assert (forall off, lane v off (mask ty) <= mask ty) as Hle.
  { intros off. destruct (Hf off) as [_ Hlt]. pose proof (mask_ones ty (lane_scalar ty Ht)) as Hm.
    rewrite Z.ones_equiv in Hm. lia. }
  assert (forall off, Z.land (lane v off (mask ty)) (mask ty) = lane v off (mask ty)) as Hself.
  { intros. by apply land_mask_small. }
  assert (forall off, Z.land (wrap 64 (signed_value ty (lane v off (mask ty)))) (mask ty) = lane v off (mask ty)) as Hsigned.
  { intros. by apply lane_signed. }
  assert (forall off, - Z.shiftl 1 (bits ty - 1) <= signed_value ty (lane v off (mask ty))
    <= Z.shiftl 1 (bits ty - 1) - 1) as Hrange by (intros; by apply signed_lane_range).
  pose proof (fun off => proj1 (Hf off)) as Hpos. cbn beta in Hpos.
  destruct op; try done; try split; try (apply vec_binary_keeps; [done..|]; intros off _; cbn [lane_binary];
    rewrite lane_zero, ?signed_value_0, ?Z.add_0_l, ?Z.add_0_r, ?Z.sub_0_r);
    try (rewrite wrap_small by done); try (rewrite clamp_id by done); auto.
  - by rewrite Z.min_l by done.
  - by rewrite Z.min_l by done.
  - by rewrite Z.max_r by done.
Qed.

Lemma widening_mul_zero ty v s : widening_mul ty 0 v s = 0 /\ widening_mul ty v 0 s = 0.
Proof.
  unfold widening_mul. split; apply fold_zero; intros; rewrite lane_zero;
    destruct s; rewrite ?signed_value_0, ?Z.mul_0_l, ?Z.mul_0_r; by rewrite Z.shiftl_0_l.
Qed.

Lemma vec_multiply_zero op ty v :
  match op with
  | LMul | WideningMulLow _ | WideningMulHigh _ | DotI16Signed =>
      vec_binary op ty 0 v = 0 /\ vec_binary op ty v 0 = 0
  | _ => True
  end.
Proof.
  destruct op; try done; cbn [vec_binary]; rewrite ?Z.shiftr_0_l.
  - split; apply gather_zero; intros; cbn [lane_binary]; by rewrite lane_zero, ?Z.mul_0_l, ?Z.mul_0_r.
  - apply widening_mul_zero.
  - split; apply widening_mul_zero.
  - split; apply gather_zero; intros; cbv beta zeta; rewrite !Z.shiftr_0_l; change (wrap 64 0) with 0;
      by rewrite signed_value_0, ?Z.mul_0_l, ?Z.mul_0_r.
Qed.

Lemma lane_ones_lane ty ones off : is_lane ty = true -> lane_ones ty = Some ones -> off ∈ offsets (bits ty) ->
  lane ones off (mask ty) = 1.
Proof.
  intros Ht Hones Hoff.
  assert (forallb (fun off => lane ones off (mask ty) =? 1) (offsets (bits ty)) = true) as H.
  { destruct ty; try done; cbn in Hones; simplify_eq; by vm_compute. }
  rewrite forallb_forall in H. apply Z.eqb_eq, H. by apply list_elem_of_In.
Qed.

Lemma vec_multiply_ones ty ones v : lane_operator_ok LMul ty = true -> lane_ones ty = Some ones ->
  fits 128 v -> vec_binary LMul ty ones v = v /\ vec_binary LMul ty v ones = v.
Proof.
  intros Hop Hones Hv. pose proof (lane_operator_lane _ ty Hop) as Ht.
  assert (forall off, fits 64 (lane v off (mask ty))) as Hf64.
  { intros off. eapply fits_mono; [|by apply lane_fits]. by apply scalar_bits, lane_scalar. }
  split; (apply vec_binary_keeps; [done..|]; intros off Hoff; cbn [lane_binary];
    rewrite (lane_ones_lane ty ones off Ht Hones Hoff), ?Z.mul_1_l, ?Z.mul_1_r, wrap_small by done;
    by apply land_mask_small, lane_fits).
Qed.

Lemma vec_shift_identity op ty v count : is_lane ty = true -> fits 128 v ->
  count mod bits ty = 0 \/ v = 0 -> vec_shift op ty v count = v.
Proof.
  intros Ht Hv Hc. unfold vec_shift. apply gather_lanes; [done..|]. intros off _.
  pose proof (lane_fits v off ty Ht) as Hf. pose proof (lane_signed ty _ Ht Hf) as Hs.
  pose proof (land_mask_small ty _ Ht Hf) as Hself.
  assert (fits 64 (lane v off (mask ty))) by (eapply fits_mono; [|exact Hf]; by apply scalar_bits, lane_scalar).
  destruct Hc as [-> | ->].
  - destruct op; rewrite ?Z.shiftl_0_r, ?Z.shiftr_0_r, ?wrap_small by done; done.
  - rewrite lane_zero, signed_value_0. by destruct op; rewrite ?Z.shiftl_0_l, ?Z.shiftr_0_l.
Qed.

(** ** Single lanes *)

Definition extract (ty : Ty) (lane v : Z) : Z := normalize ty (wrap 64 (Z.shiftr v (lane * bits ty))).

Definition replace (ty : Ty) (lane v s : Z) : Z :=
  let shift := lane * bits ty in
  Z.lor (Z.ldiff v (wrap 128 (Z.shiftl (mask ty) shift))) (wrap 128 (Z.shiftl (normalize ty s) shift)).

Lemma testbit_extract ty lane v i : is_lane ty = true -> 0 <= lane -> 0 <= i ->
  Z.testbit (extract ty lane v) i = (i <? bits ty) && Z.testbit v (lane * bits ty + i).
Proof.
  intros Ht Hl Hi. pose proof (scalar_bits ty (lane_scalar ty Ht)). unfold extract.
  rewrite normalize_wrap, testbit_wrap, testbit_wrap, testbit_shiftr by (by apply lane_scalar) || nia.
  rewrite (proj2 (Z.leb_le 0 i) Hi). cbn [andb]. rewrite (Z.add_comm _ i).
  destruct (Z.ltb_spec i (bits ty)), (Z.ltb_spec i 64); try lia; btauto.
Qed.

Lemma testbit_replace ty lane v s i : is_lane ty = true -> lane_in_vector ty lane = true -> 0 <= i ->
  fits 128 v ->
  Z.testbit (replace ty lane v s) i =
    if (lane * bits ty <=? i) && (i <? (lane + 1) * bits ty) then Z.testbit s (i - lane * bits ty)
    else Z.testbit v i.
Proof.
  intros Ht Hl Hi Hv. pose proof (scalar_bits ty (lane_scalar ty Ht)).
  unfold lane_in_vector in Hl. apply andb_true_iff in Hl as [Hl0 Hl1].
  apply Z.leb_le in Hl0. apply Z.leb_le in Hl1. unfold replace.
  rewrite mask_ones, normalize_wrap by by apply lane_scalar.
  rewrite Z.lor_spec, Z.ldiff_spec, !testbit_wrap, !testbit_shiftl, testbit_ones, testbit_wrap by nia.
  destruct (Z.ltb_spec i 128).
  - cbn [andb]. destruct (Z.leb_spec (lane * bits ty) i); cbn [andb].
    + rewrite (proj2 (Z.leb_le 0 _)) by lia. cbn [andb].
      destruct (Z.ltb_spec (i - lane * bits ty) (bits ty)), (Z.ltb_spec i ((lane + 1) * bits ty)); try nia;
        cbn; rewrite ?andb_true_r, ?andb_false_r, ?orb_false_r; done.
    + by rewrite orb_false_r, andb_true_r.
  - cbn [andb]. rewrite (fits_testbit 128 v i) by done. cbn [andb orb].
    destruct (Z.leb_spec (lane * bits ty) i), (Z.ltb_spec i ((lane + 1) * bits ty)); cbn [andb]; try done. nia.
Qed.

Lemma replace_fits ty lane v s : is_lane ty = true -> lane_in_vector ty lane = true -> fits 128 v ->
  fits 128 (replace ty lane v s).
Proof.
  intros Ht Hl Hv. apply fits_of_bits; [lia|]. intros i Hi. rewrite testbit_replace by (done || lia).
  apply andb_true_iff in Hl as [_ Hl]. apply Z.leb_le in Hl.
  rewrite (proj2 (Z.ltb_ge i _)) by lia. rewrite andb_false_r. by apply (fits_testbit 128).
Qed.

Lemma extract_fits ty lane v : is_lane ty = true -> fits (bits ty) (extract ty lane v).
Proof.
  intros Ht. unfold extract. rewrite normalize_wrap by by apply lane_scalar.
  apply wrap_fits. pose proof (bits_pos ty). lia.
Qed.

Lemma lane_nonneg ty lane : lane_in_vector ty lane = true -> 0 <= lane.
Proof. intros [H _]%andb_true_iff. by apply Z.leb_le. Qed.

(** Reading the lane just written, or one that does not overlap it. *)
Lemma extract_replace ty lane v s : is_lane ty = true -> lane_in_vector ty lane = true -> fits 128 v ->
  extract ty lane (replace ty lane v s) = wrap (bits ty) s.
Proof.
  intros Ht Hl Hv. pose proof (lane_nonneg _ _ Hl). pose proof (bits_pos ty).
  apply Z.bits_inj'. intros i Hi. rewrite testbit_extract, testbit_wrap by (done || lia).
  destruct (Z.ltb_spec i (bits ty)); cbn [andb]; [|done].
  rewrite testbit_replace by (done || nia). rewrite (proj2 (Z.leb_le _ _)), (proj2 (Z.ltb_lt _ _)) by nia.
  cbn [andb]. f_equal. lia.
Qed.

Lemma extract_replace_disjoint ty lane ty' lane' v s : is_lane ty = true -> is_lane ty' = true ->
  0 <= lane -> lane_in_vector ty' lane' = true -> fits 128 v ->
  (lane * bits ty <? lane' * bits ty' + bits ty') && (lane' * bits ty' <? lane * bits ty + bits ty) = false ->
  extract ty lane (replace ty' lane' v s) = extract ty lane v.
Proof.
  intros Ht Ht' Hl Hl' Hv Hd. pose proof (bits_pos ty). apply Z.bits_inj'. intros i Hi.
  rewrite !testbit_extract by done. destruct (Z.ltb_spec i (bits ty)); cbn [andb]; [|done].
  rewrite testbit_replace by (done || nia).
  apply andb_false_iff in Hd as [Hd%Z.ltb_ge|Hd%Z.ltb_ge].
  - rewrite (proj2 (Z.ltb_ge _ ((lane' + 1) * _))) by lia. by rewrite andb_false_r.
  - by rewrite (proj2 (Z.leb_gt _ _)) by lia.
Qed.

(** Writing back the lane a vector already holds. *)
Lemma replace_extract ty lane v : is_lane ty = true -> lane_in_vector ty lane = true -> fits 128 v ->
  replace ty lane v (extract ty lane v) = v.
Proof.
  intros Ht Hl Hv. pose proof (lane_nonneg _ _ Hl). apply Z.bits_inj'. intros i Hi.
  rewrite testbit_replace by done. destruct (Z.leb_spec (lane * bits ty) i); [|done].
  destruct (Z.ltb_spec i ((lane + 1) * bits ty)); [|done]. cbn [andb].
  rewrite testbit_extract by (done || lia). rewrite (proj2 (Z.ltb_lt _ _)) by lia. cbn [andb]. f_equal. lia.
Qed.

Lemma replace_replace ty lane v s s' : is_lane ty = true -> lane_in_vector ty lane = true -> fits 128 v ->
  replace ty lane (replace ty lane v s) s' = replace ty lane v s'.
Proof.
  intros Ht Hl Hv. apply Z.bits_inj'. intros i Hi.
  rewrite !testbit_replace by first [done | by apply replace_fits].
  by destruct (_ && _).
Qed.

(** ** Shuffles *)

Definition pick (left right index : Z) : Z := byte_of (if index / 16 =? 0 then left else right) (Z.to_nat (index mod 16)).

Lemma shuffle_fits l r indices : (length indices <= 16)%nat -> fits 128 (shuffle l r indices).
Proof.
  intros H. apply (from_le_bytes_fits _ 16); [|by rewrite length_fmap].
  apply Forall_fmap, Forall_true. intros. apply byte_of_fits.
Qed.

Lemma byte_of_shuffle l r indices i x : indices !! i = Some x -> byte_of (shuffle l r indices) i = pick l r x.
Proof.
  intros H. unfold shuffle. rewrite byte_of_from_le_bytes.
  - by rewrite list_lookup_fmap, H.
  - apply Forall_fmap, Forall_true. intros. apply byte_of_fits.
Qed.

(** Two vectors of bytes selected one by one. *)
Lemma bytes_eq a bs : fits 128 a -> bytes_ok bs -> (length bs <= 16)%nat ->
  (forall i, (i < 16)%nat -> byte_of a i = default 0 (bs !! i)) -> a = from_le_bytes bs.
Proof.
  intros Ha Hbs Hlen H. apply bytes_ext; [done|by apply (from_le_bytes_fits _ 16)|].
  intros i Hi. rewrite byte_of_from_le_bytes by done. auto.
Qed.

(** A lane read from a shuffle whose bytes come from one lane of a source. *)
Lemma extract_shuffle ty lane l r indices first : is_lane ty = true -> lane_in_vector ty lane = true ->
  let width := bits ty / 8 in let offset := Z.to_nat (lane * width) in
  first mod width = 0 -> 0 <= first < 32 ->
  (forall i, (i < Z.to_nat width)%nat -> indices !! (offset + i)%nat = Some (first + Z.of_nat i)) ->
  extract ty lane (shuffle l r indices)
  = extract ty (first mod 16 / width) (if first <? 16 then l else r).
Proof.
  intros Ht Hl width offset Hmod Hr Hidx. pose proof (lane_nonneg _ _ Hl) as Hl0.
  assert (8 * width = bits ty /\ 0 < width /\ 16 mod width = 0 /\ 16 / width * width = 16) as (Hw & Hwp & H16 & H16').
  { subst width. by destruct ty. }
  apply Z.bits_inj'. intros i Hi.
  assert (first mod 16 / width * width = first mod 16) as Hdiv.
  { assert (first mod 16 mod width = 0) as Hm.
    { rewrite <- (Z.mod_mod_divide first 16 width) in Hmod; [done|].
      apply Z.mod_divide; lia. }
    pose proof (Z.div_mod (first mod 16) width ltac:(lia)). lia. }
  pose proof (Z.mod_pos_bound first 16 ltac:(lia)).
  pose proof (Z.div_pos (first mod 16) width ltac:(lia) ltac:(lia)).
  rewrite !testbit_extract by (done || lia). destruct (Z.ltb_spec i (bits ty)) as [Hib|]; cbn [andb]; [|done].
  pose proof (Z.div_pos i 8 Hi ltac:(lia)). assert (i / 8 < width) as Hiw by (apply Z.div_lt_upper_bound; lia).
  pose proof (Z.div_mod i 8 ltac:(lia)) as Hi8. pose proof (Z.mod_pos_bound i 8 ltac:(lia)).
  specialize (Hidx (Z.to_nat (i / 8)) ltac:(lia)). rewrite Z2Nat.id in Hidx by lia.
  assert ((lane * bits ty + i) / 8 = lane * width + i / 8 /\ (lane * bits ty + i) mod 8 = i mod 8) as [E1 E2].
  { rewrite <- Hw. replace (lane * (8 * width) + i) with (i + lane * width * 8) by lia.
    rewrite Z.div_add, Z.mod_add by lia. lia. }
  rewrite testbit_byte, E1, E2 by nia.
  rewrite (byte_of_shuffle l r indices _ (first + i / 8)).
  2: { rewrite <- Hidx. f_equal. subst offset. rewrite Z2Nat.inj_add by nia. done. }
  unfold pick. rewrite testbit_byte_of by lia. rewrite (proj2 (Z.ltb_lt _ _)) by lia. cbn [andb].
  assert (first mod 16 + width <= 16) as Hfit.
  { assert (first mod 16 / width < 16 / width) by (apply Z.div_lt_upper_bound; lia). nia. }
  assert ((first + i / 8) / 16 = first / 16 /\ (first + i / 8) mod 16 = first mod 16 + i / 8) as [E3 E4].
  { pose proof (Z.div_mod first 16 ltac:(lia)). split.
    - symmetry. apply (Z.div_unique _ 16 _ (first mod 16 + i / 8)); [left|]; lia.
    - symmetry. apply (Z.mod_unique _ 16 (first / 16)); [left|]; lia. }
  rewrite E3, E4, Z2Nat.id by lia.
  assert ((first / 16 =? 0) = (first <? 16)) as ->.
  { destruct (Z.ltb_spec first 16); [by rewrite Z.div_small by lia|].
    apply Z.eqb_neq. assert (1 <= first / 16) by (apply Z.div_le_lower_bound; lia). lia. }
  f_equal. rewrite <- Hw. nia.
Qed.
