(* ===== verification/FoldLanes.v ===== *)
(** * Vector rewrites

    Soundness of fold/vector.rs, fold/lanes.rs and fold/layout.rs: lane
    operations with known or equal operands, single lanes, byte shuffles,
    swizzles and bit selection. *)

From S2P Require Import Prelude Bytes Types Floating Expr Evaluate Values Fold Model Carrier Lanes Bounds Table FoldBase FoldArith FoldCompare FoldBits.
Local Open Scope Z_scope.

(** ** Carrier equations of the vector operators *)

Section VectorEquations.
#[local] Set Default Proof Using "All".
Context (t : ValueTable) (rho : Valuation) (Hm : model t rho).

Ltac carry := cbn [eval_binary eval_unary eval_shift eval_ternary]; unfold t_u128; cbn [t_value];
  rewrite ?lit_normalize_V128; try done.

Lemma ev_lanewise ty op lane_type x y tx ty' c : type_at t x = Some tx -> type_at t y = Some ty' ->
  is_vector ty = true ->
  eval t rho ty (EBinary (Vector op lane_type) x y) c
  = Some (lit128 (vec_binary op lane_type (vec rho x) (vec rho y))).
Proof. intros Hx Hy Hv. rewrite (ev_binary t rho Hm _ _ x y tx ty'), (carrier_vector ty) by done. carry. Qed.

Lemma ev_shuffle_immediate ty m x y tx ty' c : type_at t x = Some tx -> type_at t y = Some ty' ->
  is_vector ty = true ->
  eval t rho ty (EBinary (ShuffleImmediate m) x y) c
  = Some (lit128 (shuffle (vec rho x) (vec rho y) (mask_indices m))).
Proof. intros Hx Hy Hv. rewrite (ev_binary t rho Hm _ _ x y tx ty'), (carrier_vector ty) by done. carry. Qed.

Definition swizzled (width input indices : Z) : Z :=
  from_le_bytes ((fun index => if index <? width then byte_of input (Z.to_nat index) else 0)
                 <$> to_le_bytes 16 indices).

Lemma ev_swizzle ty input_type x y tx ty' c : type_at t x = Some tx -> type_at t y = Some ty' ->
  is_vector ty = true ->
  eval t rho ty (EBinary (Swizzle input_type) x y) c
  = Some (lit128 (swizzled (bits input_type / 8) (vec rho x) (vec rho y))).
Proof. intros Hx Hy Hv. rewrite (ev_binary t rho Hm _ _ x y tx ty'), (carrier_vector ty) by done. carry. Qed.

Lemma ev_replace ty lane_type l x y tx ty' c : type_at t x = Some tx -> type_at t y = Some ty' ->
  is_vector ty = true -> is_scalar ty' = true ->
  eval t rho ty (EBinary (ReplaceLane lane_type l) x y) c
  = Some (lit128 (replace lane_type l (vec rho x) (val rho y))).
Proof.
  intros Hx Hy Hv Hs. rewrite (ev_binary t rho Hm _ _ x y tx ty'), (carrier_vector ty) by done.
  cbn [eval_binary]. rewrite (t_scalar_carrier rho y ty') by done. cbn [mbind option_bind]. carry.
Qed.

Definition shuffled (width first second indices : Z) : Z :=
  from_le_bytes ((fun index =>
    if index <? width then byte_of first (Z.to_nat index)
    else if index <? width * 2 then byte_of second (Z.to_nat (index - width)) else 0)
    <$> to_le_bytes 16 indices).

Lemma ev_shuffle_bytes ty input_type x y z tx ty' tz c :
  type_at t x = Some tx -> type_at t y = Some ty' -> type_at t z = Some tz -> is_vector ty = true ->
  eval t rho ty (ETernary (Shuffle input_type) x y z) c
  = Some (lit128 (shuffled (bits input_type / 8) (vec rho x) (vec rho y) (vec rho z))).
Proof.
  intros Hx Hy Hz Hv. rewrite (ev_ternary t rho Hm _ _ x y z tx ty' tz), (carrier_vector ty) by done. carry.
Qed.

Lemma ev_bitselect ty x y z tx ty' tz c :
  type_at t x = Some tx -> type_at t y = Some ty' -> type_at t z = Some tz -> is_vector ty = true ->
  eval t rho ty (ETernary Bitselect x y z) c
  = Some (lit128 (Z.lor (Z.land (vec rho x) (vec rho z)) (Z.ldiff (vec rho y) (vec rho z)))).
Proof.
  intros Hx Hy Hz Hv. rewrite (ev_ternary t rho Hm _ _ x y z tx ty' tz), (carrier_vector ty) by done. carry.
Qed.

Lemma ev_splat ty lane_type x tx c : type_at t x = Some tx -> is_scalar tx = true -> is_vector ty = true ->
  eval t rho ty (EUnary (Splat lane_type) x) c = Some (lit128 (eval_splat lane_type (val rho x))).
Proof.
  intros Hx Hs Hv. rewrite (ev_unary t rho Hm _ _ x tx), (carrier_vector ty) by done.
  cbn [eval_unary]. rewrite (t_scalar_carrier rho x tx) by done. cbn [mbind option_bind]. carry.
Qed.

Lemma ev_lane_shift ty op lane_type x y tx ty' c : type_at t x = Some tx -> type_at t y = Some ty' ->
  is_vector ty = true -> is_scalar ty' = true ->
  eval t rho ty (EShift (Lanes op lane_type) x y) c
  = Some (lit128 (vec_shift op lane_type (vec rho x) (wrap 32 (val rho y)))).
Proof.
  intros Hx Hy Hv Hs. rewrite (ev_shift t rho Hm _ _ x y tx ty'), (carrier_vector ty) by done.
  unfold eval_shift. rewrite (t_scalar_carrier rho y ty') by done. cbn [mbind option_bind]. carry.
Qed.
End VectorEquations.

(** ** Vector results *)

Definition vec_result (t : ValueTable) (P : Valuation -> option Literal) (f : Valuation -> Z) : Prop :=
  forall rho, model t rho -> forall l, P rho = Some l -> l = lit128 (f rho).

Lemma vec_operand t ty P f z tz : wf t -> vec_result t P f -> type_at t z = Some tz ->
  is_vector tz = true -> is_vector ty = true ->
  (forall rho, model t rho -> f rho = vec rho z) -> rewritten t ty P (Some z) t.
Proof.
  intros Hwf HP Hz Hvz Hv Heq. eapply rewritten_operand; [done..|by rewrite !carrier_vector|].
  intros rho Hm l Hl. rewrite (HP rho Hm l Hl), Heq by done. by apply (rho_lit128 t rho Hm z tz).
Qed.

Lemma vec_literal t ty P f v : wf t -> vec_result t P f -> is_vector ty = true -> fits 128 v ->
  (forall rho, model t rho -> f rho = v) -> wp (Some <$> carrier_literal ty (lit128 v)) (rewritten t ty P) t.
Proof.
  intros Hwf HP Hv Hf Heq. apply wp_some.
  eapply wp_mono; [apply (carrier_literal_spec t ty); [done|apply lit128_words]|].
  intros id t' (Hstep & _ & Hret). split; [done|]. eapply returns_weaken; [exact Hret|].
  intros rho Hm l Hl. pose proof (model_extends _ _ _ Hwf (proj1 Hstep) Hm) as Hm0.
  by rewrite (HP rho Hm0 l Hl), Heq, carrier_vector, lit_normalize_V128 by done.
Qed.

Lemma vec_zero t ty P f : wf t -> vec_result t P f -> (forall rho, model t rho -> f rho = 0) ->
  wp (Some <$> literal ty (lit 0)) (rewritten t ty P) t.
Proof.
  intros Hwf HP Hf. apply some_zero; [done|]. intros rho Hm l Hl. by rewrite (HP rho Hm l Hl), Hf.
Qed.

(** A literal operand. *)
Definition vector_fact (t : ValueTable) (x : nat) (s : option Z) : Prop :=
  forall v, s = Some v -> fits 128 v /\ forall rho, model t rho -> vec rho x = v.

Lemma vector_literal_spec t x tx a : wf t -> represents t x tx a ->
  exists s, vector_literal t a = Some s /\ vector_fact t x s.
Proof.
  intros Hwf Ha. destruct (rep_type _ _ _ _ Ha) as (ta & (v & Hv & ->)%fmap_Some & _).
  unfold vector_literal, definition_at. rewrite Hv. cbn [fmap option_fmap option_map mbind option_bind].
  eexists. split; [done|]. intros z Hz. destruct v as [ta d]. destruct d as [l| | |]; cbn in Hz; simplify_eq.
  pose proof (wf_value t Hwf a _ Hv) as Hok. unfold value_ok in Hok. cbn [definition ty] in Hok.
  split; [by apply lit_u128_fits, Hok|]. intros rho Hm. rewrite <- (represents_vec t x tx a rho Hm Ha).
  unfold vec. by rewrite (m_determined t rho Hm a _ l Hv eq_refl).
Qed.

Lemma represents_self t x tx : wf t -> type_at t x = Some tx -> represents t x tx x.
Proof. intros Hwf Hx. split; [done|by eexists|done|done]. Qed.

Lemma wp_vector_literal t x tx a Q : wf t -> represents t x tx a ->
  (forall s, vector_fact t x s -> Q s t) -> wp (reads (fun t => vector_literal t a)) Q t.
Proof.
  intros Hwf Ha HQ. destruct (vector_literal_spec t x tx a Hwf Ha) as (s & Hs & Hf).
  eapply wp_reads; [exact Hs|by apply HQ].
Qed.

(** ** Stored vector expressions *)

Lemma stored_vector t x tx e f : wf t -> values t !! x = Some (mkValue tx (DExpression e)) ->
  (forall rho, model t rho -> eval t rho tx e 0 = Some (lit128 (f rho)) /\ fits 128 (f rho)) ->
  forall rho, model t rho -> vec rho x = f rho.
Proof.
  intros Hwf Hv He rho Hm. destruct (stored_expression t x tx e Hwf Hv) as (_ & _ & Hst).
  destruct (Hst rho Hm) as [_ Hval], (He rho Hm) as [Hl Hf]. unfold vec. rewrite (Hval _ Hl).
  by apply u128_lit128.
Qed.

Lemma input_lt t x tx e i : wf t -> values t !! x = Some (mkValue tx (DExpression e)) -> i ∈ inputs e ->
  (i < x)%nat.
Proof.
  intros Hwf Hv Hi. destruct (stored_expression t x tx e Hwf Hv) as (Hin & _).
  rewrite Forall_forall in Hin. by apply Hin.
Qed.

(** ** fold_vector and fold_lane_shift *)

Section LaneRewrites.
#[local] Set Default Proof Using "All".
Context (t : ValueTable) (Hwf : wf t).

Lemma same_vector_spec ty op lane_type x y tx P :
  is_vector tx = true -> is_vector ty = true -> lane_operator_ok op lane_type = true ->
  type_at t x = Some tx -> (forall rho, model t rho -> vec rho y = vec rho x) ->
  vec_result t P (fun rho => vec_binary op lane_type (vec rho x) (vec rho y)) ->
  wp (match op with
      | LSub | SubSatSigned | SubSatUnsigned | GtSigned => Some <$> literal ty (lit 0)
      | LEq => Some <$> carrier_literal ty (lit128 (Z.ones 128))
      | MinSigned | MinUnsigned | MaxSigned | MaxUnsigned | AverageUnsigned => mret (Some x)
      | _ => mret None
      end) (rewritten t ty P) t.
Proof.
  intros Htx Hty Hop Hx Hyx HP.
  assert (forall rho, model t rho -> fits 128 (vec rho x)) as Hf
    by (intros rho Hm; by apply (vec_fits128 t rho Hm x tx)).
  pose proof (fun rho Hm => vec_binary_same op lane_type (vec rho x) Hop (Hf rho Hm)) as Hsame.
  assert (forall v : Valuation -> Z, (forall rho, model t rho ->
      vec_binary op lane_type (vec rho x) (vec rho x) = v rho) ->
    forall rho, model t rho -> vec_binary op lane_type (vec rho x) (vec rho y) = v rho) as Hval.
  { intros v Hv rho Hm. rewrite (Hyx rho Hm). by apply Hv. }
  assert (wp (mret None) (rewritten t ty P) t) as Hnone by by apply wp_ret, rewritten_none.
  destruct op; try exact Hnone; cbn beta iota in Hsame;
    first [ (eapply vec_zero; [done|exact HP|]; by apply (Hval (fun _ => 0)))
          | (eapply vec_literal; [done|exact HP|done|by apply fits_ones|]; by apply (Hval (fun _ => Z.ones 128)))
          | (apply wp_ret; eapply (vec_operand t ty P); [done|exact HP|exact Hx|done|done|];
             by apply (Hval (fun rho => vec rho x))) ].
Qed.

Lemma fold_vector_spec ty op lane_type x y : typed t ty (EBinary (Vector op lane_type) x y) ->
  wp (fold_vector ty op lane_type x y)
     (rewritten t ty (fun rho => eval t rho ty (EBinary (Vector op lane_type) x y) 0)) t.
Proof.
  intros Ht. apply typed_binary in Ht as (tx & ty' & Hx & Hy & Hok). cbn [binary_typed] in Hok. btyping.
  assert (is_vector tx = true /\ is_vector ty' = true /\ is_vector ty = true /\
    lane_operator_ok op lane_type = true) as (Hvx & Hvy & Hv & Hop) by done.
  pose proof (lane_operator_lane op lane_type Hop) as Hlane.
  set (P := fun rho => _).
  assert (vec_result t P (fun rho => vec_binary op lane_type (vec rho x) (vec rho y))) as HP.
  { intros rho Hm l Hl. subst P. cbn beta in Hl. rewrite (ev_lanewise t rho Hm ty op lane_type x y tx ty') in Hl by done.
    by simplify_eq. }
  assert (wp (mret None) (rewritten t ty P) t) as Hnone by by apply wp_ret, rewritten_none.
  assert (forall rho, model t rho -> fits 128 (vec rho x) /\ fits 128 (vec rho y)) as Hf.
  { intros rho Hm. split; by eapply (vec_fits128 t rho Hm). }
  unfold fold_vector.
  apply wp_bind. eapply wp_read_representation; [done|exact Hx|]. intros a Ha.
  apply wp_bind. eapply wp_read_representation; [done|exact Hy|]. intros b Hb.
  apply wp_else.
  - destruct (Nat.eqb_spec a b) as [->|_]; [|done].
    apply (same_vector_spec ty op lane_type x y tx P); try done.
    intros rho Hm. unfold vec. by rewrite (represents_same t y x ty' tx b rho Hm Hb Ha).
  - destruct (Nat.eqb a b), op; pure_none.
  - apply wp_bind. eapply (wp_vector_literal t x tx a); [done..|]. intros p Hp.
    apply wp_bind. eapply (wp_vector_literal t y ty' b); [done..|]. intros q Hq. cbv zeta.
    pose proof (fun rho Hm => vec_binary_zero op lane_type _ Hop (proj1 (Hf rho Hm))) as Hzx.
    pose proof (fun rho Hm => vec_binary_zero op lane_type _ Hop (proj2 (Hf rho Hm))) as Hzy.
    assert (forall rho, model t rho -> p = Some 0 -> vec rho x = 0) as Hp0 by (intros; by apply Hp).
    assert (forall rho, model t rho -> q = Some 0 -> vec rho y = 0) as Hq0 by (intros; by apply Hq).
    assert (forall z tz, type_at t z = Some tz -> is_vector tz = true ->
      (forall rho, model t rho -> vec_binary op lane_type (vec rho x) (vec rho y) = vec rho z) ->
      wp (mret (Some z)) (rewritten t ty P) t) as Hkeep.
    { intros z tz Hz Hvz Heq. apply wp_ret. eapply (vec_operand t ty P); [done|exact HP|exact Hz|done|done|done]. }
    assert ((forall rho, model t rho -> vec_binary op lane_type (vec rho x) (vec rho y) = 0) ->
      wp (Some <$> literal ty (lit 0)) (rewritten t ty P) t) as Hzero by by eapply vec_zero.
    assert (match op with LAdd | AddSatSigned | AddSatUnsigned => p = Some 0 | _ => False end ->
      wp (mret (Some y)) (rewritten t ty P) t) as Hleft.
    { intros Hc. apply (Hkeep y ty'); [done..|]. intros rho Hm. specialize (Hzy rho Hm).
      destruct op; try done; rewrite (Hp0 rho Hm Hc); apply Hzy. }
    assert (match op with
      | LAdd | AddSatSigned | AddSatUnsigned | LSub | SubSatSigned | SubSatUnsigned => q = Some 0
      | _ => False end -> wp (mret (Some x)) (rewritten t ty P) t) as Hright.
    { intros Hc. apply (Hkeep x tx); [done..|]. intros rho Hm. specialize (Hzx rho Hm).
      destruct op; try done; rewrite (Hq0 rho Hm Hc); apply Hzx. }
    assert (match op with LMul | WideningMulLow _ | WideningMulHigh _ | DotI16Signed => p = Some 0 \/ q = Some 0
      | _ => False end -> wp (Some <$> literal ty (lit 0)) (rewritten t ty P) t) as Hmul.
    { intros Hc. apply Hzero. intros rho Hm.
      pose proof (vec_multiply_zero op lane_type (vec rho x)) as Mx.
      pose proof (vec_multiply_zero op lane_type (vec rho y)) as My.
      destruct op; try done; destruct Hc as [Hc|Hc];
        rewrite ?(Hp0 rho Hm Hc), ?(Hq0 rho Hm Hc); solve [apply Mx | apply My]. }
    assert (lane_operator_ok LMul lane_type = true -> op = LMul ->
      wp (ones ← reads (fun _ => lane_ones lane_type);
          if bool_decide (p = Some ones) then mret (Some y)
          else if bool_decide (q = Some ones) then mret (Some x) else mret None) (rewritten t ty P) t) as Hones.
    { intros Hm ->. destruct (lane_ones lane_type) as [ones|] eqn:Ho; [|by destruct lane_type].
      apply wp_bind. eapply wp_reads; [reflexivity|].
      destruct (bool_decide_reflect (p = Some ones)) as [->|_].
      { apply (Hkeep y ty'); [done..|]. intros rho Hmod. rewrite (proj2 (Hp ones eq_refl) rho Hmod).
        apply (vec_multiply_ones lane_type); [done..|by apply Hf]. }
      destruct (bool_decide_reflect (q = Some ones)) as [->|_]; [|done].
      apply (Hkeep x tx); [done..|]. intros rho Hmod. rewrite (proj2 (Hq ones eq_refl) rho Hmod).
      apply (vec_multiply_ones lane_type); [done..|by apply Hf]. }
    destruct op; try exact Hnone; destruct (bool_decide_reflect (p = Some 0)) as [Hpz|_];
      try destruct (bool_decide_reflect (q = Some 0)) as [Hqz|_]; cbn [orb]; auto.
    rewrite bool_decide_eq_true_2 by done. cbn [andb].
    destruct (_ || _); [by apply Hones|done].
Qed.

Lemma fold_lane_shift_spec ty op lane_type x n : typed t ty (EShift (Lanes op lane_type) x n) ->
  wp (reads (fun t => fold_lane_shift t x n lane_type))
     (rewritten t ty (fun rho => eval t rho ty (EShift (Lanes op lane_type) x n) 0)) t.
Proof.
  intros Ht. apply typed_shift in Ht as (tx & tn & Hx & Hn & Ht). unfold shift_typed in Ht. btyping.
  assert (is_integer tn = true /\ is_vector tx = true /\ is_vector ty = true /\ is_lane lane_type = true)
    as (Hin & Hvx & Hv & Hlane) by done.
  destruct (representation_spec t x tx Hwf Hx) as (a & Ea & Ha).
  destruct (representation_spec t n tn Hwf Hn) as (b & Eb & Hb).
  destruct (rep_type _ _ _ _ Hb) as (tb & Htb & Hcb).
  destruct (scalar_at_spec t b tb Hwf Htb) as (c & Ec & Hc).
  destruct (vector_literal_spec t x tx a Hwf Ha) as (s & Es & Hs).
  eapply wp_reads. { unfold fold_lane_shift. rewrite Ea, Eb. cbn [mbind option_bind]. by rewrite Ec, Es. }
  destruct (_ || _) eqn:Hg; [|by apply rewritten_none].
  eapply (vec_operand t ty _ (fun rho => vec_shift op lane_type (vec rho x) (wrap 32 (val rho n)))); try done.
  - intros rho Hm l Hl. rewrite (ev_lane_shift t rho Hm ty op lane_type x n tx tn) in Hl by solve_scalar.
    by simplify_eq.
  - intros rho Hm. apply vec_shift_identity; [done|by apply (vec_fits128 t rho Hm x tx)|].
    apply orb_true_iff in Hg as [Hg|Hg].
    + right. apply bool_decide_eq_true in Hg as ->. by apply (Hs 0).
    + left. destruct c as [z|]; [|done]. apply Z.eqb_eq in Hg. destruct (Hc z eq_refl) as [Hval _].
      rewrite <- (represents_val t n tn b rho Hm Hb), Hval by done.
      rewrite <- Hg. unfold wrap. apply Z.mod_mod_divide.
      by destruct lane_type; try done; apply Z.mod_divide.
Qed.
End LaneRewrites.

(** ** Lane extraction *)

Definition extracts (t : ValueTable) (ty : Ty) (lane : Z) (start : nat) (found : ExtractBase) : Prop :=
  match found with
  | ExtractScalar r => exists tr, type_at t r = Some tr /\ carrier tr = carrier ty /\
      forall rho, model t rho -> extract ty lane (vec rho start) = wrap (bits ty) (val rho r)
  | ExtractFrom lane' source => (source < start)%nat /\ lane_in_vector ty lane' = true /\
      exists ts, type_at t source = Some ts /\ is_vector ts = true /\
      forall rho, model t rho -> extract ty lane (vec rho start) = extract ty lane' (vec rho source)
  | ExtractBase_ base => (base <= start)%nat /\
      exists tb, type_at t base = Some tb /\ is_vector tb = true /\
      forall rho, model t rho -> extract ty lane (vec rho start) = extract ty lane (vec rho base)
  end.

Lemma extracts_through t ty lane start start' found : (start' <= start)%nat ->
  (forall rho, model t rho -> extract ty lane (vec rho start) = extract ty lane (vec rho start')) ->
  extracts t ty lane start' found -> extracts t ty lane start found.
Proof.
  intros Hle Heq. destruct found as [r|lane' source|base]; cbn [extracts].
  - intros (tr & Htr & Hc & Hv). exists tr. split_and!; [done..|]. intros rho Hm. by rewrite Heq, Hv.
  - intros (Hlt & Hl & ts & Hts & Hvs & Hv). split; [lia|]. split; [done|]. exists ts.
    split_and!; [done..|]. intros rho Hm. by rewrite Heq, Hv.
  - intros (Hlt & tb & Htb & Hvb & Hv). split; [lia|]. exists tb. split_and!; [done..|].
    intros rho Hm. by rewrite Heq, Hv.
Qed.

Lemma extract_lane_loop_spec t ty lane : wf t -> is_lane ty = true -> lane_in_vector ty lane = true ->
  forall fuel base tb, (base < fuel)%nat -> type_at t base = Some tb -> is_vector tb = true ->
  exists found, extract_lane_loop fuel t ty lane base = Some found /\ extracts t ty lane base found.
Proof.
  intros Hwf Hty Hlane. induction fuel as [|fuel IH]; intros base tb Hfuel Hb Hvb; [lia|].
  cbn [extract_lane_loop]. pose proof Hb as (v & Hv & Etb)%fmap_Some. destruct v as [tv d].
  cbn [Values.ty] in Etb. subst tv. unfold definition_at. rewrite Hv. cbn [fmap option_fmap option_map mbind option_bind definition].
  assert (exists found, Some (ExtractBase_ base) = Some found /\ extracts t ty lane base found) as Hhere.
  { eexists. split; [done|]. split; [done|]. by exists tb. }
  destruct d as [|e| |]; try exact Hhere. destruct e as [|op l r| | |]; try exact Hhere.
  destruct (stored_expression t base tb _ Hwf Hv) as (Hin & Ht & _). cbn [inputs] in Hin.
  inversion_clear Hin as [|? ? Hlb Hin']. inversion_clear Hin' as [|? ? Hrb _].
  apply typed_binary in Ht as (tl & tr & Hl & Hr & Hok).
  destruct op; try exact Hhere; cbn [binary_typed] in Hok; btyping.
  - (* a shuffle *)
    assert (is_vector tl = true /\ is_vector tr = true) as [Hvl Hvr] by done.
    assert (forall rho, model t rho -> vec rho base = shuffle (vec rho l) (vec rho r) (mask_indices indices)) as Hval.
    { apply (stored_vector t base tb _ _ Hwf Hv). intros rho Hm.
      rewrite (ev_shuffle_immediate t rho Hm tb indices l r tl tr) by done. split; [done|].
      apply shuffle_fits. by rewrite (proj1 (mask_indices_ok indices)). }
    cbv zeta. set (offset := Z.to_nat (lane * (bits ty / 8))).
    destruct (mask_indices_ok indices) as [Hlen Hall].
    destruct (mask_indices indices !! offset) as [first|] eqn:Hfirst; cycle 1.
    { exfalso. apply lookup_ge_None in Hfirst. subst offset. pose proof (lane_nonneg _ _ Hlane).
      unfold lane_in_vector in Hlane. apply andb_true_iff in Hlane as [_ Hlane]. apply Z.leb_le in Hlane.
      assert (8 * (bits ty / 8) = bits ty /\ 0 < bits ty / 8) by (by destruct ty). nia. }
    cbn [mbind option_bind]. destruct (_ || _) eqn:Hg; [exact Hhere|].
    apply orb_false_iff in Hg as [Hg1 Hg2]. apply negb_false_iff, Z.eqb_eq in Hg1. apply negb_false_iff in Hg2.
    pose proof (proj1 (Forall_lookup _ _) Hall _ _ Hfirst) as Hrange. cbn beta in Hrange.
    assert (forall i, (i < Z.to_nat (bits ty / 8))%nat ->
      mask_indices indices !! (offset + i)%nat = Some (first + Z.of_nat i)) as Hidx.
    { intros i Hi. rewrite forallb_forall in Hg2. specialize (Hg2 i). rewrite bool_decide_eq_true in Hg2.
      apply Hg2, list_elem_of_In, elem_of_seq. lia. }
    eexists. split; [done|]. cbn [extracts].
    assert (forall rho, model t rho -> extract ty lane (vec rho base)
      = extract ty (first mod 16 / (bits ty / 8)) (if first <? 16 then vec rho l else vec rho r)) as Hex.
    { intros rho Hm. rewrite Hval by done. by apply extract_shuffle. }
    split; [by destruct (first <? 16)|]. split.
    { pose proof (Z.mod_pos_bound first 16 ltac:(lia)).
      assert (8 * (bits ty / 8) = bits ty /\ 0 < bits ty / 8 /\ 16 / (bits ty / 8) * (bits ty / 8) = 16)
        as (Hw8 & Hwp & Hw16) by (by destruct ty).
      assert (first mod 16 / (bits ty / 8) < 16 / (bits ty / 8)) by (apply Z.div_lt_upper_bound; lia).
      unfold lane_in_vector. apply andb_true_iff. split; [apply Z.leb_le, Z.div_pos; lia|]. apply Z.leb_le. nia. }
    destruct (first <? 16); eexists; (split; [done|]); done.
  - (* a replaced lane *)
    assert (is_vector tl = true /\ is_integer tr = true /\ is_lane lane_type = true /\
      carrier tr = carrier lane_type /\ lane_in_vector lane_type lane0 = true) as (Hvl & Hir & Hlt & Hcr & Hlv) by done.
    assert (forall rho, model t rho -> fits 128 (vec rho l)) as Hfl
      by (intros rho Hm; by apply (vec_fits128 t rho Hm l tl)).
    assert (forall rho, model t rho -> vec rho base = replace lane_type lane0 (vec rho l) (val rho r)) as Hval.
    { apply (stored_vector t base tb _ _ Hwf Hv). intros rho Hm.
      rewrite (ev_replace t rho Hm tb lane_type lane0 l r tl tr) by solve_scalar. split; [done|].
      apply replace_fits; auto. }
    cbv zeta. destruct (bool_decide (ty = lane_type) && (lane =? lane0)) eqn:Hsame.
    { apply andb_true_iff in Hsame as [<-%bool_decide_eq_true <-%Z.eqb_eq]. eexists. split; [done|].
      exists tr. split_and!; [done..|]. intros rho Hm. rewrite Hval by done. apply extract_replace; auto. }
    destruct ((lane * bits ty <? lane0 * bits lane_type + bits lane_type) && _) eqn:Hover; [exact Hhere|].
    destruct (representation_spec t l tl Hwf Hl) as (l' & -> & Hl'). cbn [mbind option_bind].
    destruct (rep_type _ _ _ _ Hl') as (tl' & Htl' & Hcl'). pose proof (rep_le _ _ _ _ Hl').
    destruct (IH l' tl') as (found & Hfound & Hex); [lia|done| |].
    { unfold is_vector in *. by rewrite <- carrier_scalar, Hcl', carrier_scalar. }
    exists found. split; [done|]. apply (extracts_through t ty lane base l'); [lia| |done]. intros rho Hm.
    rewrite Hval, (represents_vec t l tl l' rho Hm Hl') by done.
    apply extract_replace_disjoint; auto. by apply (lane_nonneg ty).
Qed.

(** ** Lane rewrites *)

Section LaneFolds.
Context (rec : Ty -> Expression nat -> nat -> T nat) (ok : nat -> Prop).
Context (ok_le : forall a b, (a <= b)%nat -> ok b -> ok a) (Hrec : folds rec ok).
#[local] Set Default Proof Using "ok_le Hrec".

Lemma wp_yields t ty P (m : T nat) : wp m (fun id t' => step t t' /\ yields t' id ty P) t ->
  wp (Some <$> m) (rewritten t ty P) t.
Proof using Type. intros H. by apply wp_fmap. Qed.

Lemma fold_extract_lane_spec t ty lane x : wf t -> typed t ty (EUnary (ExtractLane lane) x) ->
  ok (x + 1)%nat ->
  wp (fold_extract_lane rec ty lane x)
     (rewritten t ty (fun rho => eval t rho ty (EUnary (ExtractLane lane) x) 0)) t.
Proof.
  intros Hwf (tx & Hx & Hty)%typed_unary Hok. cbn [unary_typed] in Hty. btyping.
  assert (is_vector tx = true /\ is_lane ty = true /\ lane_in_vector ty lane = true) as (Hvx & Hlane & Hl) by done.
  unfold fold_extract_lane. apply wp_bind. eapply wp_read_representation; [done|exact Hx|]. intros a Ha.
  destruct (rep_type _ _ _ _ Ha) as (ta & Hta & Hca). pose proof (rep_le _ _ _ _ Ha) as Hle.
  assert (is_vector ta = true) as Hva by (unfold is_vector in *; by rewrite <- carrier_scalar, Hca, carrier_scalar).
  destruct (extract_lane_loop_spec t ty lane Hwf Hlane Hl (S a) a ta) as (found & Hfound & Hex); [lia|done..|].
  apply wp_bind. eapply wp_reads; [exact Hfound|].
  set (P := fun rho => _).
  assert (forall rho, model t rho -> forall l, P rho = Some l -> l = lit (extract ty lane (vec rho a))) as HP.
  { intros rho Hm l Hl'. subst P. cbn beta in Hl'. rewrite (ev_extract t rho Hm ty lane x tx) in Hl' by done.
    rewrite (represents_vec t x tx a rho Hm Ha). by simplify_eq. }
  assert (forall lane' source ts, type_at t source = Some ts -> is_vector ts = true ->
    lane_in_vector ty lane' = true -> (source < a)%nat ->
    (forall rho, model t rho -> extract ty lane (vec rho a) = extract ty lane' (vec rho source)) ->
    wp (Some <$> fold rec ty (EUnary (ExtractLane lane') source)) (rewritten t ty P) t) as Hfrom.
  { intros lane' source ts Hs Hvs Hl' Hlt Heq. apply wp_some. apply (fold_after rec ok Hrec); [by apply step_refl| | |].
    - split; [|done]. apply typed_unary. exists ts. split; [done|]. cbn [unary_typed]. by rewrite Hvs, Hlane, Hl'.
    - eapply ok_le; [|exact Hok]. cbn [depth]. lia.
    - intros rho Hm l Hl''. rewrite (ev_extract t rho Hm ty lane' source ts) by done.
      rewrite (HP rho Hm l Hl''), Heq by done. done. }
  destruct found as [r|lane' source|base]; cbn [extracts] in Hex.
  - destruct Hex as (tr & Htr & Hc & Hv). apply wp_yields. eapply wp_mono.
    { apply (fold_low_bits_spec rec ok ok_le Hrec t ty r tr (bits ty)); try done.
      - by apply lane_integer.
      - split; [pose proof (bits_pos ty); lia|apply bits_carrier].
      - eapply ok_le; [|exact Hok]. lia. }
    intros id t' [Hstep Hy]. split; [done|]. eapply yields_weaken; [exact Hy|]. intros rho Hm l Hl'.
    pose proof (model_extends _ _ _ Hwf (proj1 Hstep) Hm) as Hm0.
    rewrite (HP rho Hm0 l Hl'), Hv by done. done.
  - destruct Hex as (Hlt & Hl' & ts & Hts & Hvs & Hv). by apply (Hfrom lane' source ts).
  - destruct Hex as (Hle' & tb & Htb & Hvb & Hv).
    destruct (Nat.eqb_spec base a); [by apply wp_ret, rewritten_none|].
    apply (Hfrom lane base tb); try done. lia.
Qed.

Lemma fold_replace_lane_spec t ty lane_type lane x y : wf t ->
  typed t ty (EBinary (ReplaceLane lane_type lane) x y) -> ok (x + 1)%nat ->
  wp (fold_replace_lane rec ty lane_type lane x y)
     (rewritten t ty (fun rho => eval t rho ty (EBinary (ReplaceLane lane_type lane) x y) 0)) t.
Proof.
  intros Hwf (tx & ty' & Hx & Hy & Hty)%typed_binary Hok. cbn [binary_typed] in Hty. btyping.
  assert (is_vector tx = true /\ is_integer ty' = true /\ is_vector ty = true /\ is_lane lane_type = true /\
    carrier ty' = carrier lane_type /\ lane_in_vector lane_type lane = true)
    as (Hvx & Hiy & Hv & Hlane & Hcy & Hl) by done.
  set (P := fun rho => _).
  assert (vec_result t P (fun rho => replace lane_type lane (vec rho x) (val rho y))) as HP.
  { intros rho Hm l Hl'. subst P. cbn beta in Hl'.
    rewrite (ev_replace t rho Hm ty lane_type lane x y tx ty') in Hl' by solve_scalar. by simplify_eq. }
  assert (forall rho, model t rho -> fits 128 (vec rho x)) as Hfx by (intros rho Hm; by apply (vec_fits128 t rho Hm x tx)).
  unfold fold_replace_lane. apply wp_bind. eapply wp_read_representation; [done|exact Hy|]. intros s Hs.
  destruct (rep_type _ _ _ _ Hs) as (ts & Hts & Hcs). pose proof Hts as ([tv ds] & Hvs & Ets)%fmap_Some.
  cbn [Values.ty] in Ets. subst tv. apply wp_bind. eapply wp_reads; [exact Hvs|]. cbn [definition Values.ty].
  (* the lane read from the same vector *)
  apply wp_bind. eapply (wp_mono _ (fun (restored : bool) t' => t' = t /\ (restored = true ->
    forall rho, model t rho -> replace lane_type lane (vec rho x) (val rho y) = vec rho x))).
  { assert (wp (mret false) (fun (restored : bool) t' => t' = t /\ (restored = true ->
      forall rho, model t rho -> replace lane_type lane (vec rho x) (val rho y) = vec rho x)) t) as Hno
      by by apply wp_ret.
    destruct ds as [|[op z| | | |]| |]; try exact Hno. destruct op; try exact Hno.
    destruct (_ && _) eqn:Hsame; [|exact Hno].
    apply andb_true_iff in Hsame as [->%bool_decide_eq_true <-%Z.eqb_eq].
    destruct (stored_expression t s lane_type _ Hwf Hvs) as (_ & (tz & Hz & Hokz)%typed_unary & Hst).
    apply wp_bind. eapply wp_read_representation; [done|exact Hz|]. intros a Ha.
    apply wp_bind. eapply wp_read_representation; [done|exact Hx|]. intros b Hb.
    apply wp_ret. split; [done|]. intros ->%Nat.eqb_eq rho Hm. destruct (Hst rho Hm) as [_ Hval].
    specialize (Hval _ (ev_extract t rho Hm lane_type lane z tz 0 Hz)).
    assert (val rho y = extract lane_type lane (vec rho z)) as ->.
    { rewrite <- (represents_val t y ty' s rho Hm Hs). unfold val. by rewrite Hval. }
    assert (vec rho z = vec rho x) as ->.
    { unfold vec. by rewrite (represents_same t z x tz tx b rho Hm Ha Hb). }
    apply replace_extract; auto. }
  intros restored t' [-> Hrestored]. destruct restored.
  { apply wp_ret. eapply (vec_operand t ty P); [done|exact HP|exact Hx|done|done|by apply Hrestored]. }
  (* a lane replaced twice *)
  apply wp_bind. eapply wp_read_representation; [done|exact Hx|]. intros r Hr.
  destruct (rep_type _ _ _ _ Hr) as (tr & Htr & Hcr). pose proof (rep_le _ _ _ _ Hr) as Hle.
  apply wp_bind. eapply wp_read_definition; [exact Htr|]. intros d Hd.
  assert (wp (mret None) (rewritten t ty P) t) as Hnone by by apply wp_ret, rewritten_none.
  destruct d as [|[|op base w| | |]| |]; try exact Hnone. destruct op; try exact Hnone.
  destruct (_ && _) eqn:Hsame; [|exact Hnone].
  apply andb_true_iff in Hsame as [<-%bool_decide_eq_true <-%Z.eqb_eq].
  destruct (stored_expression t r tr _ Hwf Hd) as (Hin & (tb & tw & Htb & Htw & Hokr)%typed_binary & _).
  cbn [binary_typed] in Hokr. apply andb_true_iff in Hokr as [Hokr _].
  apply andb_true_iff in Hokr as [Hokr _]. apply andb_true_iff in Hokr as [Hokr _].
  apply andb_true_iff in Hokr as [Hokr Hvr]. apply andb_true_iff in Hokr as [Hvb Hiw].
  inversion_clear Hin as [|? ? Hbr _].
  assert (forall rho, model t rho -> vec rho r = replace lane_type lane (vec rho base) (val rho w)) as Hval.
  { apply (stored_vector t r tr _ _ Hwf Hd). intros rho Hm.
    rewrite (ev_replace t rho Hm tr lane_type lane base w tb tw) by solve_scalar. split; [done|].
    apply replace_fits; try done. by apply (vec_fits128 t rho Hm base tb). }
  apply wp_some. apply (fold_after rec ok Hrec); [by apply step_refl| | |].
  - split; [|done]. apply typed_binary. exists tb, ty'. split_and!; [done..|]. cbn [binary_typed].
    unfold same_carrier. by rewrite Hvb, Hiy, Hv, Hlane, Hcy, bool_decide_eq_true_2, Hl.
  - eapply ok_le; [|exact Hok]. cbn [depth]. lia.
  - intros rho Hm l Hl'. rewrite (ev_replace t rho Hm ty lane_type lane base y tb ty') by solve_scalar.
    rewrite (HP rho Hm l Hl'), <- (represents_vec t x tx r rho Hm Hr), Hval by done.
    rewrite replace_replace; try done. by apply (vec_fits128 t rho Hm base tb).
Qed.
End LaneFolds.

(** ** Shuffles *)

Lemma shuffle_eq l r indices v : length indices = 16%nat -> fits 128 v ->
  (forall i x, indices !! i = Some x -> pick l r x = byte_of v i) -> shuffle l r indices = v.
Proof.
  intros Hlen Hv H. apply bytes_ext; [apply shuffle_fits; lia|done|]. intros i Hi.
  destruct (lookup_lt_is_Some_2 indices i ltac:(lia)) as [x Hx].
  by rewrite (byte_of_shuffle l r indices i x Hx), (H i x Hx).
Qed.

Lemma shuffle_identity_spec t x y tx ty' indices : wf t -> type_at t x = Some tx -> type_at t y = Some ty' ->
  length indices = 16%nat ->
  exists o, shuffle_identity t indices 16 x y = Some o /\ (forall z, o = Some z -> (z = x \/ z = y) /\
    forall rho, model t rho -> shuffle (vec rho x) (vec rho y) indices = vec rho z).
Proof.
  intros Hwf Hx Hy Hlen. unfold shuffle_identity.
  destruct (representation_spec t x tx Hwf Hx) as (a & -> & Ha). cbn [mbind option_bind].
  destruct (representation_spec t y ty' Hwf Hy) as (b & -> & Hb). cbn [mbind option_bind]. cbv zeta.
  set (identity := fun half : Z => forallb (fun '(byte, index) =>
      (index <? 16 * 2) && (index mod 16 =? Z.of_nat byte) && ((index / 16 =? half) || Nat.eqb a b))
      (imap (fun byte index => (byte, index)) indices)).
  change (exists o, Some (if identity 0 then Some x else if identity 1 then Some y else None) = Some o /\
    (forall z, o = Some z -> (z = x \/ z = y) /\
      forall rho, model t rho -> shuffle (vec rho x) (vec rho y) indices = vec rho z)).
  assert (forall half z tz, identity half = true -> type_at t z = Some tz ->
    (half = 0 /\ z = x \/ half = 1 /\ z = y) ->
    forall rho, model t rho -> shuffle (vec rho x) (vec rho y) indices = vec rho z) as Hid.
  { intros half z tz Hall Hz Hcase rho Hm. subst identity. cbn beta in Hall. rewrite forallb_forall in Hall.
    apply shuffle_eq; [done|by apply (vec_fits128 t rho Hm z tz)|]. intros i index Hi.
    specialize (Hall (i, index)). cbn beta iota in Hall. rewrite !andb_true_iff in Hall.
    destruct Hall as [[Hlt Hmod] Hhalf].
    { apply list_elem_of_In, list_elem_of_lookup. exists i. by rewrite list_lookup_imap, Hi. }
    apply Z.ltb_lt in Hlt. apply Z.eqb_eq in Hmod. unfold pick. rewrite Hmod, Nat2Z.id.
    assert (Nat.eqb a b = true -> vec rho x = vec rho y) as Hsame.
    { intros ->%Nat.eqb_eq. unfold vec. by rewrite (represents_same t x y tx ty' b rho Hm Ha Hb). }
    apply orb_true_iff in Hhalf as [Hhalf%Z.eqb_eq|Hs].
    - destruct Hcase as [[-> ->] | [-> ->] ]; rewrite Hhalf; done.
    - specialize (Hsame Hs). destruct Hcase as [[-> ->] | [-> ->] ]; destruct (index / 16 =? 0); by rewrite ?Hsame. }
  eexists. split; [done|]. intros z Hz. destruct (identity 0) eqn:H0; [|destruct (identity 1) eqn:H1'; [|done] ].
  - simplify_eq. split; [by left|]. apply (Hid 0 z tx); auto.
  - simplify_eq. split; [by right|]. apply (Hid 1 z ty'); auto.
Qed.

(** Where the bytes of an operand come from. *)
Definition routes (t : ValueTable) (x : nat) (route : nat * nat * list Z) : Prop :=
  let '(a, b, inner) := route in
  (exists ta, type_at t a = Some ta /\ is_vector ta = true) /\
  (exists tb, type_at t b = Some tb /\ is_vector tb = true) /\ indices_ok inner /\
  forall rho, model t rho -> vec rho x = shuffle (vec rho a) (vec rho b) inner.

Lemma shuffle_identity_route v : fits 128 v -> shuffle v v (Z.of_nat <$> seq 0 16) = v.
Proof.
  intros Hv. apply shuffle_eq; [done|done|]. intros i x Hx. apply list_lookup_fmap_Some in Hx as (k & -> & Hk).
  apply lookup_seq in Hk as [-> Hk]. unfold pick. rewrite Z.mod_small, Nat2Z.id by lia. by destruct (_ =? 0).
Qed.

Lemma identity_indices_ok : indices_ok (Z.of_nat <$> seq 0 16).
Proof.
  split; [done|]. apply Forall_forall. intros x Hx. apply list_elem_of_fmap in Hx as (k & -> & Hk).
  apply elem_of_seq in Hk. lia.
Qed.

Lemma shuffle_operand_spec t x tx : wf t -> type_at t x = Some tx -> is_vector tx = true ->
  wp (shuffle_operand x) (fun r t' => t' = t /\ routes t x (snd r)) t.
Proof.
  intros Hwf Hx Hv. unfold shuffle_operand.
  apply wp_bind. eapply wp_read_representation; [done|exact Hx|]. intros a Ha.
  destruct (rep_type _ _ _ _ Ha) as (ta & Hta & Hca).
  assert (is_vector ta = true) as Hva by (unfold is_vector in *; by rewrite <- carrier_scalar, Hca, carrier_scalar).
  apply wp_bind. eapply wp_read_definition; [exact Hta|]. intros d Hd.
  assert (wp (mret (false, (a, a, Z.of_nat <$> seq 0 16))) (fun r t' => t' = t /\ routes t x (snd r)) t) as Hplain.
  { apply wp_ret. split; [done|]. cbn [snd routes]. split_and!; [by exists ta|by exists ta|apply identity_indices_ok|].
    intros rho Hm. rewrite <- (represents_vec t x tx a rho Hm Ha). symmetry.
    apply shuffle_identity_route. by apply (vec_fits128 t rho Hm a ta). }
  destruct d as [|[|op l r| | |]| |]; try exact Hplain. destruct op; try exact Hplain.
  destruct (stored_expression t a ta _ Hwf Hd) as (_ & (tl & tr & Hl & Hr & Hok)%typed_binary & _).
  cbn [binary_typed] in Hok. apply andb_true_iff in Hok as [Hok _]. apply andb_true_iff in Hok as [Hvl Hvr].
  apply wp_bind. eapply wp_read_representation; [done|exact Hl|]. intros l' Hl'.
  apply wp_bind. eapply wp_read_representation; [done|exact Hr|]. intros r' Hr'.
  destruct (rep_type _ _ _ _ Hl') as (tl' & Htl' & Hcl'). destruct (rep_type _ _ _ _ Hr') as (tr' & Htr' & Hcr').
  apply wp_ret. split; [done|]. cbn [snd routes].
  split_and!; [exists tl'; split; [done|]|exists tr'; split; [done|]|apply mask_indices_ok|];
    try (unfold is_vector in *; rewrite <- carrier_scalar, ?Hcl', ?Hcr', carrier_scalar; done).
  intros rho Hm. rewrite <- (represents_vec t x tx a rho Hm Ha), (represents_vec t l tl l' rho Hm Hl'),
    (represents_vec t r tr r' rho Hm Hr'). revert rho Hm. apply (stored_vector t a ta _ _ Hwf Hd).
  intros rho Hm. rewrite (ev_shuffle_immediate t rho Hm ta indices l r tl tr) by done.
  split; [done|]. apply shuffle_fits. by rewrite (proj1 (mask_indices_ok indices)).
Qed.

Definition slot_of (sources : option nat * option nat) (slot : Z) : option nat :=
  if slot =? 0 then fst sources else snd sources.

(** Slots are kept once assigned, the first before the second. *)
Definition slots_le (s s' : option nat * option nat) : Prop :=
  (forall slot x, slot_of s slot = Some x -> slot_of s' slot = Some x).

Lemma assign_slot_spec sources source slot sources' : assign_slot sources source = Some (slot, sources') ->
  (is_Some (snd sources) -> is_Some (fst sources)) ->
  (slot = 0 \/ slot = 1) /\ slot_of sources' slot = Some source /\ slots_le sources sources' /\
  is_Some (fst sources') /\
  (forall x, fst sources' = Some x \/ snd sources' = Some x -> x = source \/ fst sources = Some x \/ snd sources = Some x).
Proof.
  intros H Hinv. unfold assign_slot in H. destruct sources as [[a|] [b|] ]; cbn [fst snd] in *.
  - destruct (Nat.eqb_spec a source) as [->|]; [|destruct (Nat.eqb_spec b source) as [->|]; [|done] ]; simplify_eq.
    all: split_and!; [lia|done|by intros ? ?|by eexists|by cbn; naive_solver].
  - destruct (Nat.eqb_spec a source) as [->|]; simplify_eq.
    + split_and!; [lia|done|by intros ? ?|by eexists|by cbn; naive_solver].
    + split_and!; [lia|done| |by eexists|by cbn; naive_solver].
      intros slot x. unfold slot_of. cbn [fst snd]. by destruct (slot =? 0).
  - by destruct Hinv.
  - simplify_eq. split_and!; [lia|done| |by eexists|by cbn; naive_solver].
    intros slot x. unfold slot_of. cbn [fst snd]. by destruct (slot =? 0).
Qed.

(** The source and byte that an index of the outer shuffle selects. *)
Definition routed (first second : nat * nat * list Z) (sources : option nat * option nat) (index index' : Z) : Prop :=
  let '(a, b, inner) := if index / 16 =? 0 then first else second in
  exists byte slot, inner !! Z.to_nat (index mod 16) = Some byte /\ (slot = 0 \/ slot = 1) /\
    slot_of sources slot = Some (if byte / 16 =? 0 then a else b) /\ index' = slot * 16 + byte mod 16.

Definition route_sources (first second : nat * nat * list Z) (x : nat) : Prop :=
  let '(a, b, _) := first in let '(c, d, _) := second in x = a \/ x = b \/ x = c \/ x = d.

Lemma compose_routes_spec first second indices : length (snd first) = 16%nat -> length (snd second) = 16%nat ->
  forall sources, (is_Some (snd sources) -> is_Some (fst sources)) ->
  exists o, compose_routes first second indices sources = Some o /\
  forall indices' sources', o = Some (indices', sources') ->
    Forall2 (routed first second sources') indices indices' /\ slots_le sources sources' /\
    (indices <> [] -> is_Some (fst sources')) /\
    (forall x, fst sources' = Some x \/ snd sources' = Some x ->
      route_sources first second x \/ fst sources = Some x \/ snd sources = Some x).
Proof.
  intros Hf Hs. induction indices as [|index indices IH]; intros sources Hinv; cbn [compose_routes].
  - eexists. split; [done|]. intros indices' sources' [= <- <-]. split_and!; [by constructor|by intros ? ?|done|auto].
  - assert (exists a b inner, (if index / 16 =? 0 then first else second) = (a, b, inner) /\ length inner = 16%nat /\
      route_sources first second a /\ route_sources first second b) as (a & b & inner & Hroute & Hlen & Ha & Hb).
    { destruct first as [[a b] i1], second as [[c d] i2]. cbn [snd] in *. unfold route_sources.
      destruct (index / 16 =? 0); do 3 eexists; split_and!; naive_solver. }
    rewrite Hroute. pose proof (Z.mod_pos_bound index 16 ltac:(lia)).
    destruct (lookup_lt_is_Some_2 inner (Z.to_nat (index mod 16)) ltac:(lia)) as [byte Hbyte].
    rewrite Hbyte. cbn [mbind option_bind].
    destruct (assign_slot sources (if byte / 16 =? 0 then a else b)) as [[slot sources1]|] eqn:Hslot; cycle 1.
    { eexists. split; [done|]. done. }
    destruct (assign_slot_spec _ _ _ _ Hslot Hinv) as (Hs01 & Hof & Hle & Hfst & Hsrc).
    destruct (IH sources1 ltac:(done)) as (o & -> & Ho). cbn [mbind option_bind].
    eexists. split; [done|]. intros indices' sources' Heq. destruct o as [[rest ss]|]; [|done]. simplify_eq.
    destruct (Ho rest sources' eq_refl) as (Hall & Hle' & _ & Hsrc'). split_and!.
    + constructor; [|done]. unfold routed. rewrite Hroute. exists byte, slot. split_and!; auto.
    + intros sl x Hx. by apply Hle', Hle.
    + intros _. destruct Hfst as [x Hx]. exists x. by apply (Hle' 0).
    + intros x Hx. destruct (Hsrc' x Hx) as [?|Hx1]; [by left|].
      destruct (Hsrc x Hx1) as [->|?]; [left|by right]. by destruct (byte / 16 =? 0).
Qed.

(** The composed mask reads the same bytes. *)
Lemma composed_shuffle t first second x y f s indices indices' sources rho : model t rho ->
  routes t x f -> routes t y s -> length indices = 16%nat ->
  Forall2 (routed f s sources) indices indices' ->
  (forall z, slot_of sources 0 = Some z -> z = first) -> (forall z, slot_of sources 1 = Some z -> z = second) ->
  shuffle (vec rho first) (vec rho second) indices' = shuffle (vec rho x) (vec rho y) indices.
Proof.
  intros Hm Hx Hy Hlen Hall H0 H1'. apply shuffle_eq.
  - by rewrite <- (Forall2_length _ _ _ Hall).
  - apply shuffle_fits. lia.
  - intros i index' Hi'. destruct (Forall2_lookup_r _ _ _ _ _ Hall Hi') as (index & Hi & Hr).
    rewrite (byte_of_shuffle _ _ _ i index Hi). unfold routed in Hr. unfold pick at 2.
    pose proof (Z.mod_pos_bound index 16 ltac:(lia)).
    assert (exists a b inner, (if index / 16 =? 0 then f else s) = (a, b, inner) /\
      (if index / 16 =? 0 then vec rho x else vec rho y) = shuffle (vec rho a) (vec rho b) inner) as (a & b & inner & E & Hv).
    { destruct f as [[a b] i1], s as [[c d] i2]. destruct Hx as (_ & _ & _ & Hx), Hy as (_ & _ & _ & Hy).
      destruct (index / 16 =? 0); do 3 eexists; (split; [done|]); auto. }
    rewrite E in Hr. destruct Hr as (byte & slot & Hb & Hslot & Hof & ->).
    rewrite Hv, (byte_of_shuffle _ _ _ _ _ Hb). unfold pick.
    pose proof (Z.mod_pos_bound byte 16 ltac:(lia)).
    assert ((slot * 16 + byte mod 16) / 16 = slot /\ (slot * 16 + byte mod 16) mod 16 = byte mod 16) as [-> ->].
    { rewrite Z.add_comm, Z.div_add, Z.mod_add, Z.div_small, Z.mod_small by lia. lia. }
    destruct Hslot as [-> | ->]; cbn [Z.eqb].
    + rewrite <- (H0 _ Hof). by destruct (byte / 16 =? 0).
    + rewrite <- (H1' _ Hof). by destruct (byte / 16 =? 0).
Qed.

Lemma routed_range f s sources indices indices' : length indices = 16%nat ->
  Forall2 (routed f s sources) indices indices' -> indices_ok indices'.
Proof.
  intros Hlen Hall. split; [by rewrite <- (Forall2_length _ _ _ Hall)|].
  apply Forall_lookup. intros i index' Hi'. destruct (Forall2_lookup_r _ _ _ _ _ Hall Hi') as (index & Hi & Hr).
  unfold routed in Hr. destruct (if index / 16 =? 0 then f else s) as [[a b] inner].
  destruct Hr as (byte & slot & _ & Hslot & _ & ->). pose proof (Z.mod_pos_bound byte 16 ltac:(lia)).
  destruct Hslot as [-> | ->]; lia.
Qed.

Lemma identity_rewritten t ty P f x y z tx ty' : wf t -> vec_result t P f -> is_vector ty = true ->
  type_at t x = Some tx -> type_at t y = Some ty' -> is_vector tx = true -> is_vector ty' = true ->
  z = x \/ z = y -> (forall rho, model t rho -> f rho = vec rho z) -> wp (mret (Some z)) (rewritten t ty P) t.
Proof.
  intros Hwf HP Hv Hx Hy Hvx Hvy Hz Heq. apply wp_ret.
  destruct Hz as [-> | ->]; [eapply (vec_operand t ty P f x tx)|eapply (vec_operand t ty P f y ty')]; done.
Qed.

Lemma fold_shuffle_spec t ty m x y : wf t -> typed t ty (EBinary (ShuffleImmediate m) x y) ->
  wp (fold_shuffle ty m x y)
     (rewritten t ty (fun rho => eval t rho ty (EBinary (ShuffleImmediate m) x y) 0)) t.
Proof.
  intros Hwf (tx & ty' & Hx & Hy & Hok)%typed_binary. cbn [binary_typed] in Hok.
  apply andb_true_iff in Hok as [Hok Hv]. apply andb_true_iff in Hok as [Hvx Hvy].
  set (P := fun rho => _). destruct (mask_indices_ok m) as [Hlen Hall].
  assert (vec_result t P (fun rho => shuffle (vec rho x) (vec rho y) (mask_indices m))) as HP.
  { intros rho Hm l Hl. subst P. cbn beta in Hl.
    rewrite (ev_shuffle_immediate t rho Hm ty m x y tx ty') in Hl by done. by simplify_eq. }
  unfold fold_shuffle. cbv zeta.
  destruct (shuffle_identity_spec t x y tx ty' (mask_indices m) Hwf Hx Hy Hlen) as (o & Ho & Hid).
  apply wp_bind. eapply wp_reads; [exact Ho|]. destruct o as [z|].
  { destruct (Hid z eq_refl) as [Hz Heq]. by apply (identity_rewritten t ty P _ x y z tx ty' Hwf HP). }
  apply wp_bind. eapply wp_mono; [by apply (shuffle_operand_spec t x tx)|]. intros [cl f] t' [-> Hf].
  apply wp_bind. eapply wp_mono; [by apply (shuffle_operand_spec t y ty')|]. intros [cr s] t' [-> Hs].
  cbn [snd] in Hf, Hs. destruct (negb _); [by apply wp_ret, rewritten_none|].
  assert (length (snd f) = 16%nat /\ length (snd s) = 16%nat) as [Hlf Hls].
  { destruct f as [[a b] i1], s as [[c d] i2]. split; [apply Hf|apply Hs]. }
  destruct (compose_routes_spec f s (mask_indices m) Hlf Hls (None, None)) as (o & Hc & Hcomp); [by intros []|].
  apply wp_bind. eapply wp_reads; [exact Hc|]. destruct o as [[indices' [fst' snd'] ]|]; [|by apply wp_ret, rewritten_none].
  destruct (Hcomp indices' (fst', snd') eq_refl) as (Hrouted & _ & Hfirst & Hsrc). cbn [fst snd] in *.
  destruct Hfirst as [first ->]; [intros E; by rewrite E in Hlen|]. apply wp_bind. eapply wp_reads; [done|].
  set (second := default first snd').
  assert (forall z, z = first \/ z = second -> exists tz, type_at t z = Some tz /\ is_vector tz = true) as Htypes.
  { intros z Hz. assert (route_sources f s z) as Hr.
    { destruct (Hsrc z) as [?|[?|?] ]; [|done..]. subst second. destruct Hz as [-> | ->]; [by left|].
      destruct snd'; cbn; auto. }
    destruct f as [[a b] i1], s as [[c d] i2]. destruct Hf as (? & ? & _), Hs as (? & ? & _).
    cbn [route_sources] in Hr. destruct Hr as [-> |[-> |[-> | ->]]]; done. }
  destruct (Htypes first) as (t1 & Ht1 & Hv1); [by left|]. destruct (Htypes second) as (t2 & Ht2 & Hv2); [by right|].
  pose proof (routed_range _ _ _ _ _ Hlen Hrouted) as Hok'.
  assert (forall rho, model t rho -> shuffle (vec rho x) (vec rho y) (mask_indices m)
    = shuffle (vec rho first) (vec rho second) indices') as Heq.
  { intros rho Hm. symmetry. eapply (composed_shuffle t first second x y f s); try done; unfold slot_of; cbn [Z.eqb fst snd].
    - by intros z [= ->].
    - intros z ->. done. }
  assert (vec_result t P (fun rho => shuffle (vec rho first) (vec rho second) indices')) as HP'.
  { intros rho Hm l Hl. by rewrite (HP rho Hm l Hl), Heq. }
  destruct (shuffle_identity_spec t first second t1 t2 indices' Hwf Ht1 Ht2 (proj1 Hok')) as (o & Ho' & Hid').
  apply wp_bind. eapply wp_reads; [exact Ho'|]. destruct o as [z|].
  { destruct (Hid' z eq_refl) as [Hz Hzeq]. by apply (identity_rewritten t ty P _ first second z t1 t2 Hwf HP'). }
  destruct (mask_new_total indices' Hok') as (m' & Hm'). apply wp_bind. eapply wp_reads; [exact Hm'|].
  apply wp_some. eapply wp_mono; [apply intern_result_spec; [done| |by apply result_count_0]|].
  - split; [|done]. apply typed_binary. exists t1, t2. split_and!; [done..|]. cbn [binary_typed]. by rewrite Hv1, Hv2, Hv.
  - intros id t' [Hstep Hret]. split; [done|]. eapply returns_weaken; [exact Hret|]. intros rho Hmod l Hl.
    pose proof (model_extends _ _ _ Hwf (proj1 Hstep) Hmod) as Hm0.
    cbn beta. rewrite (ev_shuffle_immediate t rho Hm0 ty m' first second t1 t2) by done.
    by rewrite (mask_indices_new indices' m' Hok' Hm'), (HP' rho Hm0 l Hl).
Qed.
