(* ===== verification/FoldLayout.v ===== *)
(** * Byte layout rewrites

    Soundness of fold/layout.rs: byte shuffles and swizzles with literal
    selectors, and bit selection that writes one lane. *)

From S2P Require Import Prelude Bytes Types Floating Expr Evaluate Values Fold Model Carrier Lanes Bounds Table FoldBase FoldArith FoldCompare FoldBits FoldLanes.
Local Open Scope Z_scope.

Lemma rewritten_vector t0 t ty P id : is_vector ty = true -> delivers t0 V128 P id t ->
  rewritten t0 ty P (Some id) t.
Proof.
  intros Hv [Hstep [Ht HP]]. split; [done|]. exists V128. split_and!; [done|by apply convertible_vector|].
  intros rho Hm l Hl. rewrite carrier_vector, lit_normalize_V128 by done. by apply HP.
Qed.

Lemma vector_zero_literal t ty P f : wf t -> vec_result t P f -> is_vector ty = true ->
  (forall rho, model t rho -> f rho = 0) -> wp (Some <$> literal V128 (lit 0)) (rewritten t ty P) t.
Proof.
  intros Hwf HP Hv Hf. apply wp_fmap. eapply wp_mono; [by apply (zero_literal_spec t V128)|].
  intros id t' (Hstep & _ & Hret). apply rewritten_vector; [done|]. split; [done|].
  eapply returns_weaken; [exact Hret|]. intros rho Hm l Hl.
  pose proof (model_extends _ _ _ Hwf (proj1 Hstep) Hm) as Hm0. by rewrite (HP rho Hm0 l Hl), Hf.
Qed.

(** A vector literal stays as it is. *)
Lemma vector_literal_delivers t v : wf t -> fits 128 v ->
  wp (literal V128 (lit128 v)) (fun id t' => step t t' /\ type_at t' id = Some V128 /\
    forall rho, model t' rho -> vec rho id = v) t.
Proof.
  intros Hwf Hv. eapply wp_mono; [apply (literal_spec t V128); [done|apply lit128_words]|].
  intros id t' (Hstep & _ & [Ht Hval]). split_and!; [done|done|]. intros rho Hm. unfold vec.
  rewrite (Hval rho Hm _ eq_refl). cbn [carrier]. rewrite !lit_normalize_V128. by apply u128_lit128.
Qed.

Lemma indices_ok_map (f : Z -> Z) bs : length bs = 16%nat -> (forall b, b ∈ bs -> 0 <= f b < 32) -> indices_ok (f <$> bs).
Proof.
  intros Hlen H. split; [by rewrite length_fmap|]. apply Forall_fmap, Forall_forall. auto.
Qed.

Lemma byte_range v n (b : Z) : b ∈ to_le_bytes n v -> 0 <= b < 256.
Proof.
  intros Hb. pose proof (to_le_bytes_ok n v) as H. unfold bytes_ok in H. rewrite Forall_forall in H. by apply H.
Qed.

(** The upper half of a mask: [16 | index & 15]. *)
Lemma upper_index index : 16 <= Z.lor 16 (Z.land index 15) < 32 /\ Z.lor 16 (Z.land index 15) / 16 = 1.
Proof.
  change 15 with (Z.ones 4). rewrite Z.land_ones by lia. change (2 ^ 4) with 16.
  pose proof (Z.mod_pos_bound index 16 ltac:(lia)).
  assert (Z.lor 16 (index mod 16) = 16 + index mod 16) as ->.
  { apply lor_add. change 16 with (2 ^ 4). apply Z.bits_inj'. intros i Hi.
    rewrite Z.land_spec, Z.testbit_0_l. destruct (decide (i = 4)) as [->|].
    - rewrite Z.mod_pow2_bits_high by lia. apply andb_false_r.
    - by rewrite Z.pow2_bits_false. }
  split; [lia|]. replace (16 + index mod 16) with (index mod 16 + 1 * 16) by lia.
  rewrite Z.div_add, Z.div_small by lia. done.
Qed.

Lemma shuffled_bytes width a b sel i : (i < 16)%nat ->
  byte_of (shuffled width a b sel) i =
    let index := byte_of sel i in
    if index <? width then byte_of a (Z.to_nat index)
    else if index <? width * 2 then byte_of b (Z.to_nat (index - width)) else 0.
Proof.
  intros Hi. unfold shuffled. rewrite byte_of_from_le_bytes.
  - rewrite list_lookup_fmap, lookup_to_le_bytes by done. done.
  - apply Forall_fmap, Forall_true. intros x. cbn. repeat case_match; [apply byte_of_fits..|by apply fits_0].
Qed.

Lemma swizzled_bytes width a sel i : (i < 16)%nat ->
  byte_of (swizzled width a sel) i =
    if byte_of sel i <? width then byte_of a (Z.to_nat (byte_of sel i)) else 0.
Proof.
  intros Hi. unfold swizzled. rewrite byte_of_from_le_bytes.
  - rewrite list_lookup_fmap, lookup_to_le_bytes by done. done.
  - apply Forall_fmap, Forall_true. intros x. cbn. case_match; [apply byte_of_fits|by apply fits_0].
Qed.

Lemma shuffled_fits width a b sel : fits 128 (shuffled width a b sel).
Proof.
  apply (from_le_bytes_fits _ 16); [|by rewrite length_fmap, length_to_le_bytes].
  apply Forall_fmap, Forall_true. intros x. cbn. repeat case_match; [apply byte_of_fits..|by apply fits_0].
Qed.
Lemma swizzled_fits width a sel : fits 128 (swizzled width a sel).
Proof.
  apply (from_le_bytes_fits _ 16); [|by rewrite length_fmap, length_to_le_bytes].
  apply Forall_fmap, Forall_true. intros x. cbn. case_match; [apply byte_of_fits|by apply fits_0].
Qed.

(** A shuffle by a mapped selector, byte by byte. *)
Lemma mapped_shuffle l r f sel v : fits 128 v ->
  (forall i, (i < 16)%nat -> pick l r (f (byte_of sel i)) = byte_of v i) ->
  shuffle l r (f <$> to_le_bytes 16 sel) = v.
Proof.
  intros Hv H. apply shuffle_eq; [by rewrite length_fmap, length_to_le_bytes|done|].
  intros i x Hx. apply list_lookup_fmap_Some in Hx as (b & -> & Hb).
  pose proof (lookup_lt_Some _ _ _ Hb) as Hi. rewrite length_to_le_bytes in Hi.
  rewrite lookup_to_le_bytes in Hb by done. simplify_eq. auto.
Qed.

Lemma existsb_bytes p v i : (i < 16)%nat -> existsb p (to_le_bytes 16 v) = false -> p (byte_of v i) = false.
Proof.
  intros Hi H. apply not_true_iff_false. intros Hp. apply not_true_iff_false in H. apply H.
  apply existsb_exists. exists (byte_of v i). split; [|done].
  apply list_elem_of_In, list_elem_of_lookup. exists i. by apply lookup_to_le_bytes.
Qed.

Lemma vector_width ty : is_vector ty = true -> bits ty / 8 = 8 \/ bits ty / 8 = 16.
Proof. destruct ty; try done; [left|right]; done. Qed.

Section Layout.
Context (rec : Ty -> Expression nat -> nat -> T nat) (ok : nat -> Prop).
Context (ok_le : forall a b, (a <= b)%nat -> ok b -> ok a) (Hrec : folds rec ok).
#[local] Set Default Proof Using "ok_le Hrec".

(** The shuffle that replaces a literal selector. *)
Lemma fold_mask t0 t ty x y tx ty' indices m : step t0 t -> type_at t x = Some tx -> type_at t y = Some ty' ->
  is_vector tx = true -> is_vector ty' = true -> is_vector ty = true ->
  indices_ok indices -> mask_new indices = Some m -> ok 1%nat ->
  wp (fold rec ty (EBinary (ShuffleImmediate m) x y)) (fun id t' => step t0 t' /\ step t t' /\
    type_at t' id = Some ty /\ forall rho, model t' rho -> vec rho id = shuffle (vec rho x) (vec rho y) indices) t.
Proof.
  intros Hstep Hx Hy Hvx Hvy Hv Hidx Hm Hok.
  eapply wp_mono; [apply (fold_spec rec ok Hrec); [apply Hstep| |done]|].
  - split; [|done]. apply typed_binary. exists tx, ty'. split_and!; [done..|]. cbn [binary_typed]. by rewrite Hvx, Hvy, Hv.
  - intros id t' [Hstep' [Ht Hval]]. split; [by eapply step_trans|]. split; [done|]. split; [done|].
    intros rho Hmod. unfold vec at 1.
    rewrite (Hval rho Hmod (lit128 (shuffle (vec rho x) (vec rho y) indices))).
    + apply u128_lit128, shuffle_fits. by rewrite (proj1 Hidx).
    + pose proof (model_extends _ _ _ (proj2 Hstep) (proj1 Hstep') Hmod) as Hm0.
      rewrite (ev_shuffle_immediate t rho Hm0 ty m x y tx ty') by done. by rewrite (mask_indices_new indices m).
Qed.

Lemma rewritten_vec t t' ty P f id tid : wf t -> vec_result t P f -> step t t' -> type_at t' id = Some tid ->
  is_vector tid = true -> is_vector ty = true ->
  (forall rho, model t' rho -> f rho = vec rho id) -> rewritten t ty P (Some id) t'.
Proof using Type.
  intros Hwf HP Hstep Hid Hvid Hv Hf. split; [done|]. eapply yields_same; [exact Hid|by rewrite !carrier_vector|].
  intros rho Hm l Hl. pose proof (model_extends _ _ _ Hwf (proj1 Hstep) Hm) as Hm0.
  rewrite (HP rho Hm0 l Hl), Hf by done. by apply (rho_lit128 t' rho Hm id tid).
Qed.

Lemma fold_swizzle_spec t ty input_type x y : wf t -> typed t ty (EBinary (Swizzle input_type) x y) ->
  ok 1%nat ->
  wp (fold_swizzle rec ty input_type x y)
     (rewritten t ty (fun rho => eval t rho ty (EBinary (Swizzle input_type) x y) 0)) t.
Proof.
  intros Hwf (tx & ty' & Hx & Hy & Hty)%typed_binary Hok. cbn [binary_typed] in Hty. btyping.
  assert (is_vector tx = true /\ is_vector ty' = true /\ is_vector ty = true /\ is_vector input_type = true)
    as (Hvx & Hvy & Hv & Hvi) by done.
  set (P := fun rho => _). set (width := bits input_type / 8).
  assert (vec_result t P (fun rho => swizzled width (vec rho x) (vec rho y))) as HP.
  { intros rho Hm l Hl. subst P. cbn beta in Hl. rewrite (ev_swizzle t rho Hm ty input_type x y tx ty') in Hl by done.
    by simplify_eq. }
  assert (0 < width <= 16) as Hw by (subst width; destruct (vector_width input_type Hvi) as [-> | ->]; lia).
  assert (forall rho, model t rho -> fits 128 (vec rho x)) as Hfx by (intros rho Hm; by apply (vec_fits128 t rho Hm x tx)).
  unfold fold_swizzle. fold width.
  apply wp_bind. eapply (wp_vector_literal t x tx x); [done|by apply represents_self|]. intros p Hp.
  destruct (bool_decide_reflect (p = Some 0)) as [->|_].
  { apply wp_ret. eapply (vec_operand t ty P); [done|exact HP|exact Hx|done|done|]. intros rho Hm. cbn beta.
    rewrite (proj2 (Hp 0 eq_refl) rho Hm). apply bytes_ext; [apply swizzled_fits|by apply fits_0|].
    intros i Hi. rewrite swizzled_bytes by done. rewrite !byte_of_0. by destruct (_ <? _). }
  apply wp_bind. eapply (wp_vector_literal t y ty' y); [done|by apply represents_self|]. intros q Hq.
  destruct q as [sel|]; [|by apply wp_ret, rewritten_none]. destruct (Hq sel eq_refl) as [Hfs Hsel].
  cbv zeta. destruct (forallb _ _) eqn:Hall.
  { eapply vector_zero_literal; [done|exact HP|done|]. intros rho Hm. cbn beta. rewrite Hsel by done.
    apply bytes_ext; [apply swizzled_fits|by apply fits_0|]. intros i Hi. rewrite swizzled_bytes, byte_of_0 by done.
    rewrite forallb_forall in Hall. specialize (Hall (byte_of sel i)).
    rewrite (proj2 (Z.ltb_ge _ _)); [done|]. apply Z.leb_le, Hall.
    apply list_elem_of_In, list_elem_of_lookup. exists i. by apply lookup_to_le_bytes. }
  destruct (_ && _) eqn:Hid.
  { apply andb_true_iff in Hid as [Hw16%Z.eqb_eq Hidx%bool_decide_eq_true]. apply wp_ret.
    eapply (vec_operand t ty P); [done|exact HP|exact Hx|done|done|]. intros rho Hm. cbn beta. rewrite Hsel by done.
    apply bytes_ext; [apply swizzled_fits|auto|]. intros i Hi. rewrite swizzled_bytes by done.
    assert (byte_of sel i = Z.of_nat i) as ->.
    { pose proof (lookup_to_le_bytes 16 sel i Hi) as E. rewrite Hidx in E.
      rewrite list_lookup_fmap, lookup_seq_lt in E by done. by simplify_eq/=. }
    rewrite (proj2 (Z.ltb_lt _ _)), Nat2Z.id by lia. done. }
  (* the selector becomes a mask *)
  set (zero := existsb _ _). set (f := fun index => if index <? width then index else Z.lor 16 (Z.land index 15)).
  apply wp_bind.
  apply (wp_mono _ (fun second t' => step t t' /\ exists ts, type_at t' second = Some ts /\ is_vector ts = true /\
    (zero = true -> forall rho, model t' rho -> vec rho second = 0))).
  { destruct zero.
    - eapply wp_mono; [by apply (zero_literal_spec t V128)|]. intros id t' (Hstep & _ & [Ht Hval]).
      split; [done|]. exists V128. split_and!; [done..|]. intros _ rho Hm. unfold vec. by rewrite (Hval rho Hm _ eq_refl).
    - apply wp_ret. split; [by apply step_refl|]. by exists tx. }
  intros second t1 (Hstep & ts & Hs & Hvs & Hzero). pose proof (extends_type _ _ _ _ (proj1 Hstep) Hx) as Hx1.
  assert (indices_ok (f <$> to_le_bytes 16 sel)) as Hidx.
  { apply indices_ok_map; [apply length_to_le_bytes|]. intros b Hb%byte_range. subst f. cbn beta.
    destruct (Z.ltb_spec b width); [lia|]. pose proof (upper_index b). lia. }
  destruct (mask_new_total _ Hidx) as (m & Hm). apply wp_bind. eapply wp_reads; [exact Hm|].
  apply wp_fmap. eapply wp_mono; [by eapply (fold_mask t t1)|]. intros id t2 (Hstep2 & Hstep12 & Ht & Hval).
  eapply rewritten_vec; [done|exact HP|done|exact Ht|done|done|]. intros rho Hmod. rewrite Hval by done.
  pose proof (model_extends _ _ _ (proj2 Hstep) (proj1 Hstep12) Hmod) as Hm1.
  pose proof (model_extends _ _ _ Hwf (proj1 Hstep) Hm1) as Hm0.
  symmetry. apply mapped_shuffle; [apply swizzled_fits|]. intros i Hi. rewrite swizzled_bytes, Hsel by done.
  pose proof (byte_of_fits sel i) as Hb. subst f. cbn beta. destruct (Z.ltb_spec (byte_of sel i) width).
  - unfold pick. unfold fits in Hb. by rewrite Z.div_small, Z.mod_small by lia.
  - assert (zero = true) as Hz.
    { apply not_false_iff_true. intros Hz. apply (existsb_bytes _ sel i Hi) in Hz. cbn beta in Hz.
      apply Z.leb_gt in Hz. lia. }
    unfold pick. destruct (upper_index (byte_of sel i)) as [_ ->]. cbn [Z.eqb].
    by rewrite (Hzero Hz), byte_of_0.
Qed.

(** One source, or two that hold the same bytes, and possibly a zero byte. *)
Definition one_source_index (width index : Z) : Z :=
  if index <? width * 2 then index mod width else Z.lor 16 (Z.land index 15).
Definition two_source_index (width index : Z) : Z :=
  if index <? width then index else if index <? width * 2 then 16 + index - width else 0.

Lemma one_source_pick width a b input other sel i : width = 8 \/ width = 16 -> (i < 16)%nat ->
  let index := byte_of sel i in
  (index < width -> input = a) -> (width <= index < width * 2 -> input = b) ->
  (width * 2 <= index -> other = 0) ->
  pick input other (one_source_index width index)
  = if index <? width then byte_of a (Z.to_nat index)
    else if index <? width * 2 then byte_of b (Z.to_nat (index - width)) else 0.
Proof using Type.
  intros Hw Hi index Ha Hb Hz. pose proof (byte_of_fits sel i) as Hf. fold index in Hf. unfold fits in Hf.
  unfold one_source_index, pick.
  destruct (Z.ltb_spec index width) as [H1'|H1'], (Z.ltb_spec index (width * 2)) as [H2'|H2']; try lia.
  - rewrite (Z.mod_small index width), Z.div_small, Z.mod_small by lia. by rewrite Ha.
  - assert (index mod width = index - width) as ->.
    { symmetry. apply (Z.mod_unique _ _ 1); [left|]; lia. }
    rewrite Z.div_small, Z.mod_small by lia. by rewrite Hb by lia.
  - destruct (upper_index index) as [_ ->]. cbn [Z.eqb]. by rewrite Hz, byte_of_0.
Qed.

Lemma two_source_pick width a b sel i : width = 8 \/ width = 16 -> (i < 16)%nat ->
  let index := byte_of sel i in index < width * 2 ->
  pick a b (two_source_index width index)
  = if index <? width then byte_of a (Z.to_nat index)
    else if index <? width * 2 then byte_of b (Z.to_nat (index - width)) else 0.
Proof using Type.
  intros Hw Hi index Hlt. pose proof (byte_of_fits sel i) as Hf. fold index in Hf. unfold fits in Hf.
  unfold two_source_index, pick. rewrite (proj2 (Z.ltb_lt index (width * 2))) by lia.
  destruct (Z.ltb_spec index width).
  - by rewrite Z.div_small, Z.mod_small by lia.
  - assert ((16 + index - width) / 16 = 1 /\ (16 + index - width) mod 16 = index - width) as [-> ->].
    { replace (16 + index - width) with (index - width + 1 * 16) by lia.
      rewrite Z.div_add, Z.mod_add, Z.div_small, Z.mod_small by lia. lia. }
    done.
Qed.

Lemma source_index_range width b : width = 8 \/ width = 16 -> 0 <= b < 256 ->
  0 <= one_source_index width b < 32 /\ 0 <= two_source_index width b < 32.
Proof using Type.
  intros Hw Hb. unfold one_source_index, two_source_index.
  pose proof (upper_index b). pose proof (Z.mod_pos_bound b width ltac:(lia)).
  destruct (Z.ltb_spec b width), (Z.ltb_spec b (width * 2)); lia.
Qed.

(** Which selector bytes read the left source, the right source or neither. *)
Definition reads_left (width sel : Z) : bool := existsb (fun index => index <? width) (to_le_bytes 16 sel).
Definition reads_right (width sel : Z) : bool :=
  existsb (fun index => (width <=? index) && (index <? width * 2)) (to_le_bytes 16 sel).
Definition reads_zero (width sel : Z) : bool := existsb (fun index => width * 2 <=? index) (to_le_bytes 16 sel).

Lemma reads_cases width sel i : (i < 16)%nat -> let index := byte_of sel i in
  (index < width -> reads_left width sel = true) /\
  (width <= index < width * 2 -> reads_right width sel = true) /\
  (width * 2 <= index -> reads_zero width sel = true).
Proof using Type.
  intros Hi index. split_and!; intros H; apply not_false_iff_true; intros Hf;
    apply (existsb_bytes _ sel i Hi) in Hf; cbn beta in Hf; fold index in Hf; breflect.
  - lia.
  - apply andb_false_iff in Hf as [Hf|Hf]; breflect; lia.
  - lia.
Qed.

Lemma shuffled_zero width a b sel : reads_left width sel = false -> reads_right width sel = false ->
  shuffled width a b sel = 0.
Proof using Type.
  intros Hl Hr. apply bytes_ext; [apply shuffled_fits|by apply fits_0|]. intros i Hi.
  rewrite shuffled_bytes, byte_of_0 by done. cbv zeta.
  destruct (reads_cases width sel i Hi) as (H1' & H2' & _). cbv zeta in *.
  destruct (Z.ltb_spec (byte_of sel i) width); [exfalso; by rewrite H1' in Hl|].
  destruct (Z.ltb_spec (byte_of sel i) (width * 2)); [exfalso; by rewrite H2' in Hr by lia|done].
Qed.

(** The bytes kept when a selector reads both sources and zero. *)
Definition kept_bytes (width sel : Z) : Z :=
  from_le_bytes ((fun index => if index <? width * 2 then 255 else 0) <$> to_le_bytes 16 sel).

Lemma kept_fits width sel : fits 128 (kept_bytes width sel).
Proof using Type.
  apply (from_le_bytes_fits _ 16); [|by rewrite length_fmap, length_to_le_bytes].
  apply Forall_fmap, Forall_true. intros x. cbn. by case_match.
Qed.

Lemma byte_of_land a b i : byte_of (Z.land a b) i = Z.land (byte_of a i) (byte_of b i).
Proof using Type.
  apply Z.bits_inj'. intros j Hj. rewrite Z.land_spec, !testbit_byte_of, Z.land_spec by done. btauto.
Qed.

Lemma masked_shuffled width a b sel : width = 8 \/ width = 16 ->
  Z.land (shuffle a b (two_source_index width <$> to_le_bytes 16 sel)) (kept_bytes width sel)
  = shuffled width a b sel.
Proof using Type.
  intros Hw. apply bytes_ext; [|apply shuffled_fits|].
  - apply fits_land_r; [lia|apply kept_fits].
  - intros i Hi. rewrite byte_of_land, shuffled_bytes by done. cbv zeta.
    rewrite (byte_of_shuffle a b _ i (two_source_index width (byte_of sel i)))
      by (by rewrite list_lookup_fmap, lookup_to_le_bytes).
    unfold kept_bytes. rewrite byte_of_from_le_bytes, list_lookup_fmap, lookup_to_le_bytes by first
      [done | (apply Forall_fmap, Forall_true; intros x; cbn; by case_match)].
    cbn [fmap option_fmap option_map default from_option id].
    pose proof (byte_of_fits sel i) as Hf. unfold fits in Hf.
    destruct (Z.ltb_spec (byte_of sel i) (width * 2)) as [H2'|H2'].
    + rewrite two_source_pick by done. cbv zeta. rewrite (proj2 (Z.ltb_lt (byte_of sel i) (width * 2))) by lia.
      change 255 with (Z.ones 8). destruct (_ <? width); rewrite Z.land_ones by lia;
        apply Z.mod_small, byte_of_fits.
    + rewrite Z.land_0_r. rewrite (proj2 (Z.ltb_ge _ width)) by lia. done.
Qed.

(** The chosen sources, and what their shuffle is. *)
Definition layout_chosen (t : ValueTable) (width sel : Z) (x y : nat) (masked : bool)
    (choice : nat * nat * list Z) (t' : ValueTable) : Prop :=
  let '(first, second, routed) := choice in
  step t t' /\
  (exists t1, type_at t' first = Some t1 /\ is_vector t1 = true) /\
  (exists t2, type_at t' second = Some t2 /\ is_vector t2 = true) /\ indices_ok routed /\
  forall rho, model t' rho ->
    (if masked then Z.land (shuffle (vec rho first) (vec rho second) routed) (kept_bytes width sel)
     else shuffle (vec rho first) (vec rho second) routed)
    = shuffled width (vec rho x) (vec rho y) sel.

Lemma choose_layout t x y tx ty' width sel (same : bool) : wf t -> type_at t x = Some tx ->
  type_at t y = Some ty' -> is_vector tx = true -> is_vector ty' = true -> width = 8 \/ width = 16 ->
  (same = true -> forall rho, model t rho -> vec rho x = vec rho y) ->
  reads_left width sel = true \/ reads_right width sel = true ->
  wp (if negb (reads_left width sel) || negb (reads_right width sel) || same then
        let input := if reads_left width sel then x else y in
        other ← (if reads_zero width sel then literal V128 (lit 0) else mret input);
        mret (input, other, one_source_index width <$> to_le_bytes 16 sel)
      else mret (x, y, two_source_index width <$> to_le_bytes 16 sel))
     (layout_chosen t width sel x y
        (reads_zero width sel && reads_left width sel && reads_right width sel && negb same)) t.
Proof using Type.
  intros Hwf Hx Hy Hvx Hvy Hw Hsame Hreads.
  assert (forall g, g = one_source_index width \/ g = two_source_index width ->
    indices_ok (g <$> to_le_bytes 16 sel)) as Hidx.
  { intros g Hg. apply indices_ok_map; [apply length_to_le_bytes|]. intros b Hb%byte_range.
    destruct (source_index_range width b Hw Hb). by destruct Hg as [-> | ->]. }
  destruct (negb (reads_left width sel) || negb (reads_right width sel) || same) eqn:Hone.
  - assert (reads_zero width sel && reads_left width sel && reads_right width sel && negb same = false) as ->.
    { destruct (reads_left width sel), (reads_right width sel), same; try done; apply andb_false_r || btauto. }
    cbv zeta. set (input := if reads_left width sel then x else y).
    assert (exists ti, type_at t input = Some ti /\ is_vector ti = true) as (ti & Hi & Hvi).
    { subst input. destruct (reads_left width sel); eauto. }
    apply wp_bind. apply (wp_mono _ (fun other t' => step t t' /\ (exists ts, type_at t' other = Some ts /\
      is_vector ts = true) /\ (reads_zero width sel = true -> forall rho, model t' rho -> vec rho other = 0))).
    { destruct (reads_zero width sel).
      - eapply wp_mono; [by apply (zero_literal_spec t V128)|]. intros id t' (Hstep & _ & [Ht Hval]).
        split; [done|]. split; [by exists V128|]. intros _ rho Hm. unfold vec. by rewrite (Hval rho Hm _ eq_refl).
      - apply wp_ret. split; [by apply step_refl|]. split; [by exists ti|done]. }
    intros other t' (Hstep & Hother & Hzero). apply wp_ret. unfold layout_chosen. split; [done|].
    split; [exists ti; split; [by eapply extends_type; [apply Hstep|]|done]|]. split; [done|].
    split; [by apply Hidx; left|]. intros rho Hmod. pose proof (model_extends _ _ _ Hwf (proj1 Hstep) Hmod) as Hm0.
    apply mapped_shuffle; [apply shuffled_fits|]. intros i Hi'. rewrite shuffled_bytes by done.
    destruct (reads_cases width sel i Hi') as (C1 & C2 & C3). cbv zeta in *.
    apply one_source_pick; try done.
    + intros Hlt. subst input. by rewrite C1.
    + intros Hlt. subst input. specialize (C2 Hlt). destruct (reads_left width sel); [|done].
      rewrite C2 in Hone. cbn in Hone. subst same. by apply Hsame.
    + intros Hge. by apply Hzero; [apply C3|].
  - apply orb_false_iff in Hone as [Hone Hs]. apply orb_false_iff in Hone as [Hl Hr].
    apply negb_false_iff in Hl. apply negb_false_iff in Hr. rewrite Hl, Hr, Hs. cbn [negb]. rewrite !andb_true_r.
    apply wp_ret. unfold layout_chosen. split; [by apply step_refl|]. split; [by exists tx|]. split; [by exists ty'|].
    split; [by apply Hidx; right|]. intros rho Hm. destruct (reads_zero width sel) eqn:Hz.
    + by apply masked_shuffled.
    + apply mapped_shuffle; [apply shuffled_fits|]. intros i Hi'. rewrite shuffled_bytes by done.
      apply two_source_pick; [done..|]. apply (existsb_bytes _ sel i Hi') in Hz. cbn beta in Hz.
      by apply Z.leb_gt in Hz.
Qed.

Lemma fold_shuffle_bytes_spec t ty input_type x y z : wf t ->
  typed t ty (ETernary (Shuffle input_type) x y z) -> ok 2%nat ->
  wp (fold_shuffle_bytes rec ty input_type x y z)
     (rewritten t ty (fun rho => eval t rho ty (ETernary (Shuffle input_type) x y z) 0)) t.
Proof.
  intros Hwf (tx & ty' & tz & Hx & Hy & Hz & Hty)%typed_ternary Hok. cbn [ternary_typed] in Hty. btyping.
  assert (is_vector tx = true /\ is_vector ty' = true /\ is_vector tz = true /\ is_vector ty = true /\
    is_vector input_type = true) as (Hvx & Hvy & Hvz & Hv & Hvi) by done.
  set (P := fun rho => _). set (width := bits input_type / 8).
  assert (vec_result t P (fun rho => shuffled width (vec rho x) (vec rho y) (vec rho z))) as HP.
  { intros rho Hm l Hl. subst P. cbn beta in Hl.
    rewrite (ev_shuffle_bytes t rho Hm ty input_type x y z tx ty' tz) in Hl by done. by simplify_eq. }
  pose proof (vector_width input_type Hvi) as Hw. fold width in Hw.
  unfold fold_shuffle_bytes. fold width.
  apply wp_bind. eapply (wp_vector_literal t z tz z); [done|by apply represents_self|]. intros q Hq.
  destruct q as [sel|]; [|by apply wp_ret, rewritten_none]. destruct (Hq sel eq_refl) as [Hfs Hsel].
  assert (vec_result t P (fun rho => shuffled width (vec rho x) (vec rho y) sel)) as HP'.
  { intros rho Hm l Hl. by rewrite (HP rho Hm l Hl), Hsel. }
  cbv zeta. change (existsb (fun index => index <? width) (to_le_bytes 16 sel)) with (reads_left width sel).
  change (existsb (fun index => (width <=? index) && (index <? width * 2)) (to_le_bytes 16 sel))
    with (reads_right width sel).
  change (existsb (fun index => width * 2 <=? index) (to_le_bytes 16 sel)) with (reads_zero width sel).
  destruct (negb (reads_left width sel) && negb (reads_right width sel)) eqn:Hnone.
  { apply andb_true_iff in Hnone as [Hl Hr]. apply negb_true_iff in Hl. apply negb_true_iff in Hr.
    eapply vec_zero; [done|exact HP'|]. intros. by apply shuffled_zero. }
  apply wp_bind. eapply wp_read_representation; [done|exact Hx|]. intros a Ha.
  apply wp_bind. eapply wp_read_representation; [done|exact Hy|]. intros b Hb.
  apply wp_bind. eapply wp_mono.
  { apply (choose_layout t x y tx ty' width sel (Nat.eqb a b)); try done.
    - intros ->%Nat.eqb_eq rho Hm. unfold vec. by rewrite (represents_same t x y tx ty' b rho Hm Ha Hb).
    - destruct (reads_left width sel), (reads_right width sel); auto. }
  intros [[first second] routed] t1 (Hstep & (t1' & H1t & Hv1) & (t2' & H2t & Hv2) & Hidx & Hval).
  destruct (mask_new_total _ Hidx) as (m & Hm). apply wp_bind. eapply wp_reads; [exact Hm|].
  apply wp_bind. eapply wp_mono.
  { apply (fold_mask t t1 ty first second t1' t2' routed m); try done. eapply ok_le; [|exact Hok]. lia. }
  intros result t2 (Hstep2 & Hstep12 & Hres & Hrv).
  assert (forall rho, model t2 rho -> model t1 rho) as Hm12.
  { intros rho. eapply model_extends; [apply Hstep|apply Hstep12]. }
  destruct (reads_zero width sel && _ && _ && _) eqn:Hmasked; cycle 1.
  { apply wp_ret. eapply rewritten_vec; [done|exact HP'|done|exact Hres|done|done|]. intros rho Hmod.
    rewrite Hrv by done. cbn beta. by rewrite <- Hval by auto. }
  apply wp_bind. eapply wp_mono; [apply (vector_literal_delivers t2); [apply Hstep2|apply (kept_fits width sel)]|].
  intros k t3 (Hstep3 & Hk & Hkv). apply wp_fmap. pose proof (extends_type _ _ _ _ (proj1 Hstep3) Hres) as Hres3.
  eapply wp_mono; [apply (fold_spec rec ok Hrec); [apply Hstep3| |]|].
  - split; [|done]. apply typed_binary. exists ty, V128. split_and!; [done..|]. cbn [binary_typed].
    unfold same_carrier. rewrite (carrier_vector ty) by done. rewrite !bool_decide_eq_true_2 by done.
    rewrite bool_decide_eq_false_2; [done|]. by destruct ty.
  - done.
  - intros id t4 [Hstep4 [Ht4 Hval4]].
    assert (step t t4) as Hstep' by (eapply step_trans; [|exact Hstep4]; eapply step_trans; [exact Hstep2|exact Hstep3]).
    eapply rewritten_vec; [done|exact HP'|done|exact Ht4|done|done|]. intros rho Hmod. cbn beta.
    pose proof (model_extends _ _ _ (proj2 Hstep3) (proj1 Hstep4) Hmod) as Hm3.
    pose proof (model_extends _ _ _ (proj2 Hstep2) (proj1 Hstep3) Hm3) as Hm2.
    destruct (ev_bitwise t3 rho Hm3 ty And result k ty V128 0 Hres3 Hk) as (l & Hl & _ & Hlv);
      [done|by rewrite (carrier_vector ty)|].
    unfold vec at 3. rewrite (Hval4 rho Hmod l Hl), Hlv. cbn [bit_fn]. rewrite Hkv, Hrv by done.
    symmetry. apply (Hval rho); auto.
Qed.

(** ** Bit selection *)

(** The lane at [offset] of an aligned mask. *)
Lemma aligned_lane lane_type offset m : is_lane lane_type = true -> 0 <= offset -> m <> 0 ->
  offset mod bits lane_type = 0 -> m = wrap 128 (Z.shiftl (mask lane_type) offset) ->
  lane_in_vector lane_type (offset / bits lane_type) = true /\ offset / bits lane_type * bits lane_type = offset.
Proof using Type.
  intros Ht Ho Hnz Hmod Hm. destruct (lane_width_pos _ (lane_bits _ Ht)) as [Hwp Hfull].
  pose proof (Z.div_mod offset (bits lane_type) ltac:(lia)) as Hdiv.
  pose proof (Z.div_pos offset (bits lane_type) ltac:(lia) ltac:(lia)).
  assert (offset < 128) as Hlt.
  { destruct (decide (offset < 128)) as [|Hge]; [done|]. exfalso. apply Hnz. rewrite Hm.
    apply Z.bits_inj'. intros i Hi. rewrite testbit_wrap, testbit_shiftl, Z.testbit_0_l by lia.
    destruct (Z.ltb_spec i 128), (Z.leb_spec offset i); try done; lia. }
  assert (offset / bits lane_type < 128 / bits lane_type) by (apply Z.div_lt_upper_bound; lia).
  split; [|lia]. unfold lane_in_vector. apply andb_true_iff. split; apply Z.leb_le; nia.
Qed.

Lemma select_replace lane_type offset a b s : is_lane lane_type = true -> 0 <= offset ->
  lane_in_vector lane_type (offset / bits lane_type) = true ->
  offset / bits lane_type * bits lane_type = offset -> fits 128 a -> fits 128 b ->
  (forall i, 0 <= i < bits lane_type -> Z.testbit a (offset + i) = Z.testbit s i) ->
  let m := wrap 128 (Z.shiftl (mask lane_type) offset) in
  Z.lor (Z.land a m) (Z.ldiff b m) = replace lane_type (offset / bits lane_type) b s.
Proof using Type.
  intros Ht Ho Hl Heq Ha Hb Hbits m. pose proof (scalar_bits _ (lane_scalar _ Ht)).
  apply Z.bits_inj'. intros i Hi. rewrite testbit_replace by done. rewrite Heq.
  replace ((offset / bits lane_type + 1) * bits lane_type) with (offset + bits lane_type) by lia.
  unfold lane_in_vector in Hl. apply andb_true_iff in Hl as [_ Hl]. apply Z.leb_le in Hl.
  rewrite Z.lor_spec, Z.land_spec, Z.ldiff_spec. subst m.
  rewrite testbit_wrap, testbit_shiftl, mask_ones, testbit_ones by (lia || by apply lane_scalar).
  destruct (Z.leb_spec offset i); cbn [andb].
  - destruct (Z.ltb_spec i (offset + bits lane_type)); cbn [andb].
    + rewrite (proj2 (Z.ltb_lt i 128)), (proj2 (Z.leb_le 0 _)), (proj2 (Z.ltb_lt _ (bits _))) by lia.
      cbn [andb negb]. rewrite andb_true_r, andb_false_r, orb_false_r.
      rewrite <- (Hbits (i - offset)) by lia. f_equal. lia.
    + rewrite (proj2 (Z.ltb_ge (i - offset) _)) by lia. rewrite !andb_false_r. cbn. by rewrite andb_true_r.
  - rewrite andb_false_r. cbn. by rewrite andb_false_r, andb_true_r.
Qed.

(** The bits of a splat at an aligned offset. *)
Lemma splat_bits lane_type s offset i : is_lane lane_type = true ->
  lane_in_vector lane_type (offset / bits lane_type) = true ->
  offset / bits lane_type * bits lane_type = offset -> 0 <= i < bits lane_type ->
  Z.testbit (eval_splat lane_type s) (offset + i) = Z.testbit s i.
Proof using Type.
  intros Ht Hl Heq Hi. pose proof (lane_bits _ Ht) as Hw. pose proof (lane_nonneg _ _ Hl).
  unfold lane_in_vector in Hl. apply andb_true_iff in Hl as [_ Hl]. apply Z.leb_le in Hl.
  unfold eval_splat. rewrite testbit_gather; [|done| |nia].
  - assert ((offset + i) mod bits lane_type = i) as ->.
    { rewrite <- Heq. rewrite Z.add_comm, Z.mod_add, Z.mod_small by lia. done. }
    rewrite normalize_wrap, testbit_wrap by (lia || by apply lane_scalar). by rewrite (proj2 (Z.ltb_lt _ _)) by lia.
  - intros _ _. rewrite normalize_wrap by by apply lane_scalar. apply wrap_fits. lia.
Qed.

(** What a selected source says of the first operand. *)
Definition selects (t : ValueTable) (x : nat) (offset : Z) (selected : option (nat * Ty)) (t' : ValueTable) : Prop :=
  step t t' /\ match selected with
  | None => True
  | Some (input, lane_type) => is_lane lane_type = true /\
      (exists ti, type_at t' input = Some ti /\ is_integer ti = true /\ carrier ti = carrier lane_type) /\
      (lane_in_vector lane_type (offset / bits lane_type) = true ->
       offset / bits lane_type * bits lane_type = offset ->
       forall rho, model t' rho -> forall i, 0 <= i < bits lane_type ->
         Z.testbit (vec rho x) (offset + i) = Z.testbit (val rho input) i)
  end.

Lemma run_type_lane run lane_type : run_type run = Some lane_type -> is_lane lane_type = true.
Proof using Type. unfold run_type. intros H. by repeat case_match; simplify_eq. Qed.

Lemma select_source t x tx offset : wf t -> type_at t x = Some tx -> is_vector tx = true -> 0 <= offset ->
  forall run d, values t !! x = Some (mkValue tx d) ->
  wp (match d with
    | DExpression (EUnary (Splat lane_type) input) => mret (Some (input, lane_type))
    | DLiteral b =>
        match run_type run with
        | None => mret None
        | Some lane_type =>
            input ← literal lane_type (lit (wrap 64 (Z.shiftr (lit_u128 b) offset)));
            mret (Some (input, lane_type))
        end
    | _ => mret None
    end) (selects t x offset) t.
Proof using Type.
  intros Hwf Hx Hvx Ho run d Hd.
  assert (wp (mret None) (selects t x offset) t) as Hno by (apply wp_ret; split; [by apply step_refl|done]).
  destruct d as [b|[op z| | | |]| |]; try exact Hno.
  - destruct (run_type run) as [lane_type|] eqn:Hrun; [|exact Hno]. pose proof (run_type_lane _ _ Hrun) as Hl.
    set (v := wrap 64 (Z.shiftr (lit_u128 b) offset)).
    assert (fits 64 v) as Hv by by apply wrap_fits.
    apply wp_bind. eapply wp_mono; [apply (literal_spec t lane_type); [done|by apply lit_words_lit]|].
    intros id t' (Hstep & _ & [Ht Hval]). apply wp_ret. split; [done|]. split; [done|].
    split; [exists lane_type; split_and!; [done|by apply lane_integer|done]|].
    intros Hlane Heq rho Hm i Hi. pose proof (scalar_bits _ (lane_scalar _ Hl)) as Hb.
    assert (val rho id = wrap (bits lane_type) v) as ->.
    { unfold val. rewrite (Hval rho Hm _ eq_refl).
      rewrite !lit_normalize_scalar by (rewrite ?carrier_scalar; by apply lane_scalar). cbn [lit low].
      apply wrap_small. eapply fits_mono; [apply bits_carrier|]. apply wrap_fits. lia. }
    assert (vec rho x = lit_u128 b) as ->.
    { unfold vec. by rewrite (m_determined t rho (model_extends _ _ _ Hwf (proj1 Hstep) Hm) x _ b Hd eq_refl). }
    subst v. rewrite !testbit_wrap, testbit_shiftr by lia.
    rewrite (proj2 (Z.ltb_lt i (bits _))), (proj2 (Z.ltb_lt i 64)), (proj2 (Z.leb_le 0 i)) by lia.
    cbn [andb]. f_equal. lia.
  - destruct op; try exact Hno. apply wp_ret. split; [by apply step_refl|].
    destruct (stored_expression t x tx _ Hwf Hd) as (_ & (tz & Hz & Hok)%typed_unary & _).
    cbn [unary_typed] in Hok. btyping. split; [done|]. split; [exists tz; split_and!; done|].
    intros Hlane Heq rho Hm i Hi.
    assert (forall rho, model t rho -> vec rho x = eval_splat lane_type (val rho z)) as Hsplat.
    { apply (stored_vector t x tx _ _ Hwf Hd). intros rho' Hm'.
      rewrite (ev_splat t rho' Hm' tx lane_type z tz) by solve_scalar. split; [done|]. apply gather_fits. }
    rewrite Hsplat by done. by apply splat_bits.
Qed.

Lemma fold_select_bits_spec t ty x y z : wf t -> typed t ty (ETernary Bitselect x y z) -> ok (y + 2)%nat ->
  wp (fold_select_bits rec ty z x y)
     (rewritten t ty (fun rho => eval t rho ty (ETernary Bitselect x y z) 0)) t.
Proof.
  intros Hwf (tx & ty' & tz & Hx & Hy & Hz & Hty)%typed_ternary Hok. cbn [ternary_typed] in Hty. btyping.
  assert (is_vector tx = true /\ is_vector ty' = true /\ is_vector tz = true /\ is_vector ty = true)
    as (Hvx & Hvy & Hvz & Hv) by done.
  set (P := fun rho => _).
  assert (vec_result t P (fun rho => Z.lor (Z.land (vec rho x) (vec rho z)) (Z.ldiff (vec rho y) (vec rho z)))) as HP.
  { intros rho Hm l Hl. subst P. cbn beta in Hl.
    rewrite (ev_bitselect t rho Hm ty x y z tx ty' tz) in Hl by done. by simplify_eq. }
  assert (forall rho, model t rho -> fits 128 (vec rho x) /\ fits 128 (vec rho y)) as Hf.
  { intros rho Hm. split; by eapply (vec_fits128 t rho Hm). }
  unfold fold_select_bits. destruct (Nat.eqb_spec x y) as [->|_].
  { apply wp_ret. eapply (vec_operand t ty P); [done|exact HP|exact Hy|done|done|]. intros rho Hm. cbn beta.
    apply Z.bits_inj'. intros i _. rewrite Z.lor_spec, Z.land_spec, Z.ldiff_spec. btauto. }
  apply wp_bind. eapply (wp_vector_literal t z tz z); [done|by apply represents_self|]. intros q Hq.
  destruct q as [m|]; [|by apply wp_ret, rewritten_none]. destruct (Hq m eq_refl) as [Hfm Hmv].
  assert (vec_result t P (fun rho => Z.lor (Z.land (vec rho x) m) (Z.ldiff (vec rho y) m))) as HP'.
  { intros rho Hm l Hl. by rewrite (HP rho Hm l Hl), Hmv. }
  destruct (Z.eqb_spec m 0) as [->|Hm0].
  { apply wp_ret. eapply (vec_operand t ty P); [done|exact HP'|exact Hy|done|done|]. intros rho Hm. cbn beta.
    by rewrite Z.land_0_r, Z.ldiff_0_r. }
  destruct (Z.eqb_spec m (Z.ones 128)) as [->|_].
  { apply wp_ret. eapply (vec_operand t ty P); [done|exact HP'|exact Hx|done|done|]. intros rho Hm. cbn beta.
    destruct (Hf rho Hm) as [Hfx Hfy]. apply Z.bits_inj'. intros i Hi.
    rewrite Z.lor_spec, Z.land_spec, Z.ldiff_spec, testbit_ones by lia. rewrite (proj2 (Z.leb_le 0 i) Hi). cbn [andb].
    destruct (Z.ltb_spec i 128); [by rewrite andb_true_r, andb_false_r, orb_false_r|].
    by rewrite !(fits_testbit 128) by done. }
  cbv zeta. set (offset := trailing_zeros 128 m).
  assert (0 <= offset) as Ho by by apply trailing_zeros_nonneg.
  apply wp_bind. eapply wp_read_definition; [exact Hx|]. intros d Hd.
  apply wp_bind. eapply wp_mono; [by apply (select_source t x tx offset)|].
  intros selected t1 [Hstep Hsel]. destruct selected as [[input lane_type]|]; [|apply wp_ret; by split].
  destruct (_ || _) eqn:Hg; [apply wp_ret; by split|].
  apply orb_false_iff in Hg as [Hmod%negb_false_iff%Z.eqb_eq Heq%negb_false_iff%Z.eqb_eq].
  destruct Hsel as (Hlane & (ti & Hi & Hii & Hci) & Hbits).
  destruct (aligned_lane lane_type offset m Hlane Ho Hm0 Hmod Heq) as [Hl Hoff]. specialize (Hbits Hl Hoff).
  pose proof (extends_type _ _ _ _ (proj1 Hstep) Hy) as Hy1.
  apply wp_some. apply (fold_after rec ok Hrec); [done| |done|].
  - split; [|done]. apply typed_binary. exists ty', ti. split_and!; [done..|]. cbn [binary_typed].
    unfold same_carrier. by rewrite Hvy, Hii, Hv, Hlane, Hci, bool_decide_eq_true_2, Hl.
  - intros rho Hmod1 l Hl'. pose proof (model_extends _ _ _ Hwf (proj1 Hstep) Hmod1) as Hmod0.
    rewrite (ev_replace t1 rho Hmod1 ty lane_type (offset / bits lane_type) y input ty' ti) by solve_scalar.
    rewrite (HP' rho Hmod0 l Hl'). do 2 f_equal. destruct (Hf rho Hmod0) as [Hfx Hfy]. rewrite Heq. symmetry.
    apply select_replace; auto.
Qed.
End Layout.
