(* ===== verification/FoldSound.v ===== *)
(** * Soundness and termination of carrier folding

    [fold_result] over every rewrite: it terminates within its fuel, extends
    the table and returns a value equal to the carrier result of the expression
    for every valuation of the table. *)

From S2P Require Import Prelude Bytes Types Floating Expr Evaluate Values Fold Model Carrier Lanes Bounds Table FoldBase FoldArith FoldCompare FoldBits FoldLanes FoldLayout.
Local Open Scope Z_scope.

(** ** Literal operands *)

(** The table with every value that is not a literal replaced by zero: it has
    the types of [t] and a valuation. *)
Definition literal_value (v : Value) : Value :=
  mkValue (ty v) (DLiteral match definition v with DLiteral l => l | _ => lit 0 end).
Definition literal_table (t : ValueTable) : ValueTable :=
  mkTable (literal_value <$> values t) (bounds t) [].
Definition literal_valuation (t : ValueTable) (id : nat) : Literal :=
  match values t !! id with Some (mkValue _ (DLiteral l)) => l | _ => lit 0 end.

Lemma lit_0_ok ty : lit_ok ty (lit 0).
Proof. split; [by split|]. destruct ty; done. Qed.

Lemma literal_model t : wf t -> model (literal_table t) (literal_valuation t).
Proof.
  intros Hwf. split; cbn [literal_table values].
  - intros id v Hv. apply list_lookup_fmap_Some in Hv as (w & -> & Hw).
    unfold literal_valuation. rewrite Hw. cbn. pose proof (wf_value t Hwf id w Hw) as Hok.
    unfold value_ok in Hok. destruct w as [tw [l| | |] ]; cbn in *; try apply lit_0_ok. done.
  - intros id v l Hv Hd. apply list_lookup_fmap_Some in Hv as (w & -> & Hw).
    unfold literal_valuation. rewrite Hw. unfold determined in Hd. cbn in Hd. simplify_eq.
    by destruct w as [tw [l| | |] ].
  - intros id v b Hv _ Hd. apply list_lookup_fmap_Some in Hv as (w & -> & Hw). done.
Qed.

Lemma literal_type t id : type_at (literal_table t) id = type_at t id.
Proof. unfold type_at. cbn [literal_table values]. rewrite list_lookup_fmap. by destruct (values t !! id). Qed.

Lemma expr_literals_spec t ty e : wf t -> typed t ty e ->
  exists o, expr_literals t e = Some o /\ forall ls, o = Some ls -> forall rho,
    (forall id tid l, values t !! id = Some (mkValue tid (DLiteral l)) -> rho id = l) ->
    try_map (operand t rho) e = Some ls.
Proof.
  intros Hwf Ht. unfold expr_literals.
  destruct (try_map_is_Some (value_at t) e) as [vs Hvs].
  { eapply Forall_impl; [exact (typed_inputs t ty e Ht)|]. intros i (ti & (v & Hv & _)%fmap_Some). by exists v. }
  rewrite Hvs. cbn [mbind option_bind]. eexists. split; [done|]. intros ls Hls rho Hrho.
  eapply try_map_compose; [|exact Hvs|exact Hls]. intros id [tv [l| | |] ] w Hv Hw; simplify_eq/=.
  unfold operand, type_at. unfold value_at in Hv. rewrite Hv. cbn. f_equal. f_equal. by eapply Hrho.
Qed.

(** An expression of literals: its value, where it has one, is the carrier
    result and a literal of the result type. *)
Lemma literal_result t ty e c : wf t -> typed t ty e ->
  exists o, expr_literals t e = Some o /\ forall b, (o ≫= fun ls => carrier_result ls ty c) = Some b ->
    lit_ok (carrier ty) b /\ forall rho, model t rho -> eval t rho ty e c = Some b.
Proof.
  intros Hwf Ht. destruct (expr_literals_spec t ty e Hwf Ht) as (o & -> & Ho).
  eexists. split; [done|]. intros b (ls & -> & Hb)%bind_Some. specialize (Ho ls eq_refl). split.
  - assert (eval (literal_table t) (literal_valuation t) ty e c = Some b) as He.
    { unfold eval. rewrite (try_map_ext_inputs _ (operand t (literal_valuation t))).
      - rewrite Ho; [done|]. intros id tid l Hv. unfold literal_valuation. by rewrite Hv.
      - apply Forall_true. intros id. unfold operand. by rewrite literal_type. }
    eapply eval_ok; [by apply literal_model| |exact He].
    destruct Ht as (tys & Htys & Hok). exists tys. split; [|done]. rewrite <- Htys.
    apply try_map_ext_inputs, Forall_true. apply literal_type.
  - intros rho Hm. unfold eval. rewrite Ho; [done|]. intros id tid l Hv.
    by apply (m_determined t rho Hm id _ l Hv).
Qed.

(** ** Conversions *)

(** A conversion to a carrier that holds the original undoes itself. *)
Lemma normalize_through a b l : lit_ok (carrier a) l -> convertible a b = true ->
  bits (carrier a) <= bits (carrier b) -> lit_normalize (lit_normalize l (carrier b)) (carrier a) = l.
Proof.
  intros [Hw Hl] Hc Hb. unfold convertible in Hc. apply orb_true_iff in Hc as [Hc|Hc].
  - apply orb_true_iff in Hc as [->%bool_decide_eq_true|[Ha Hbi]%andb_true_iff]; [by rewrite !Hl|].
    rewrite <- Hl at 2. rewrite !lit_normalize_scalar by (rewrite carrier_scalar; by apply integer_scalar).
    cbn [lit low]. f_equal. apply wrap_idem_le. pose proof (bits_pos (carrier a)). lia.
  - apply andb_true_iff in Hc as [Ha Hb']. by rewrite !carrier_vector, !lit_normalize_V128.
Qed.

Section Sound.
Context (rec : Ty -> Expression nat -> nat -> T nat) (ok : nat -> Prop).
Context (ok_le : forall a b, (a <= b)%nat -> ok b -> ok a) (Hrec : folds rec ok).
#[local] Set Default Proof Using "ok_le Hrec".

Lemma rewrite_convert_spec t ty x : wf t -> typed t ty (EUnary Convert x) ->
  wp (rewrite_unary rec ty Convert x) (rewritten t ty (fun rho => eval t rho ty (EUnary Convert x) 0)) t.
Proof using Type.
  intros Hwf (tx & Hx & Hc)%typed_unary. cbn [unary_typed] in Hc. cbn [rewrite_unary].
  pose proof Hx as ([tv d] & Hv & Etv)%fmap_Some. cbn in Etv. subst tv.
  apply wp_bind. eapply wp_reads; [exact Hv|]. cbn [Values.ty definition].
  set (P := fun rho : Valuation => _).
  assert (forall rho, model t rho -> forall l, P rho = Some l -> l = lit_normalize (rho x) (carrier ty)) as HP.
  { intros rho Hm l Hl. subst P. cbn beta in Hl. rewrite (ev_convert t rho Hm ty x tx) in Hl by done. by simplify_eq. }
  destruct (decide (tx = ty)) as [->|_].
  { apply wp_ret. split; [by apply step_refl|]. exists ty. split_and!; [done|apply convertible_refl|].
    intros rho Hm l Hl. by rewrite (HP rho Hm l Hl). }
  assert (wp (mret None) (rewritten t ty P) t) as Hnone by by apply wp_ret, rewritten_none.
  destruct d as [|[op y| | | |]| |]; try exact Hnone. destruct op; try exact Hnone.
  destruct (stored_expression t x tx _ Hwf Hv) as (_ & (to & Hto & Hco)%typed_unary & Hst).
  cbn [unary_typed] in Hco. apply wp_bind. eapply wp_reads; [exact Hto|].
  destruct (_ && _) eqn:Hg; [|exact Hnone]. apply andb_true_iff in Hg as [->%bool_decide_eq_true Hb%Z.leb_le].
  apply wp_ret. split; [by apply step_refl|]. exists ty. split_and!; [done|apply convertible_refl|].
  intros rho Hm l Hl. rewrite (HP rho Hm l Hl). destruct (Hst rho Hm) as [_ Hval].
  rewrite (Hval _ (ev_convert t rho Hm tx y ty 0 Hto Hco)).
  rewrite normalize_through; [by apply (rho_normalize t rho Hm)|by apply (rho_ok t rho Hm)|done|done].
Qed.

Lemma rewrite_reinterpret_spec t ty x : wf t -> typed t ty (EUnary Reinterpret x) ->
  wp (rewrite_unary rec ty Reinterpret x) (rewritten t ty (fun rho => eval t rho ty (EUnary Reinterpret x) 0)) t.
Proof using Type.
  intros Hwf (tx & Hx & Hc)%typed_unary. cbn [rewrite_unary].
  pose proof Hx as ([tv d] & Hv & Etv)%fmap_Some. cbn in Etv. subst tv.
  set (P := fun rho : Valuation => _).
  assert (wp (mret None) (rewritten t ty P) t) as Hnone by by apply wp_ret, rewritten_none.
  apply wp_bind. eapply wp_reads.
  { unfold reinterpret_input, definition_at. rewrite Hv. done. }
  cbn [definition]. destruct d as [|[op y| | | |]| |]; try exact Hnone. destruct op; try exact Hnone.
  destruct (stored_expression t x tx _ Hwf Hv) as (_ & (to & Hto & Hco)%typed_unary & Hst).
  apply wp_bind. eapply wp_reads; [exact Hto|]. apply wp_bind. eapply wp_reads; [exact Hx|].
  destruct (_ && _) eqn:Hg; [|exact Hnone]. apply andb_true_iff in Hg as [->%bool_decide_eq_true Hb%Z.leb_le].
  apply wp_ret. eapply rewritten_operand; [done..|]. intros rho Hm l Hl. subst P. cbn beta in Hl.
  rewrite (ev_reinterpret t rho Hm ty x tx) in Hl by done. destruct (Hst rho Hm) as [_ Hval].
  specialize (Hval _ (ev_reinterpret t rho Hm tx y ty 0 Hto Hco)).
  assert (is_scalar ty = true) as Hs by (destruct tx, ty; done).
  destruct (rho_scalar t rho Hm y ty Hto Hs) as [_ Hy]. pose proof (val_fits64 t rho Hm y ty Hto Hs) as Hf.
  rewrite decide_False in Hl by (intros E; by rewrite E in Hs). simplify_eq. rewrite Hy at 1. f_equal.
  unfold vec. rewrite Hval. destruct (decide (tx = V64)) as [->|].
  - rewrite u128_lit128.
    + apply Z.bits_inj'. intros i Hi. rewrite testbit_wrap, Z.lor_spec, testbit_wrap, testbit_shiftl by lia.
      destruct (Z.ltb_spec i 64); cbn [andb].
      * rewrite (proj2 (Z.leb_gt 64 i)) by lia. by rewrite andb_false_r, orb_false_r.
      * by apply (fits_testbit 64).
    + apply fits_lor; [lia|by apply (fits_mono 64)|by apply wrap_fits].
  - rewrite u128_lit, (vec_val t rho Hm y ty) by done. rewrite wrap_wrap. symmetry. by apply wrap_small.
Qed.

Lemma rewrite_none t ty P : wf t -> wp (mret None) (rewritten t ty P) t.
Proof using Type. intros. by apply wp_ret, rewritten_none. Qed.

Lemma eval_single t rho ty e c : (c < result_count e ty)%nat -> length (result_types e ty) = 1%nat ->
  eval t rho ty e c = eval t rho ty e 0.
Proof using Type. intros Hc Hl. by apply eval_component. Qed.

Lemma rewrite_unary_spec t ty op x : wf t -> typed t ty (EUnary op x) ->
  (forall k, (k < depth t ty (EUnary op x))%nat -> ok k) ->
  wp (rewrite_unary rec ty op x) (rewritten t ty (fun rho => eval t rho ty (EUnary op x) 0)) t.
Proof.
  intros Hwf Ht Hok. destruct op; try by apply rewrite_none.
  - apply (fold_extract_lane_spec rec ok ok_le Hrec); [done|done|]. apply Hok. cbn [depth]. lia.
  - by apply rewrite_reinterpret_spec.
  - apply (fold_sign_extend_spec rec ok ok_le Hrec); [done|done|]. intros Hne. apply Hok.
    cbn [depth]. destruct input_type; try lia. done.
  - apply (fold_zero_test_spec rec ok ok_le Hrec); [done|done|]. apply Hok. cbn [depth]. lia.
  - by apply rewrite_convert_spec.
  - pose proof Ht as (tx & Hx & Hty)%typed_unary. cbn [unary_typed] in Hty. btyping.
    assert (is_integer tx = true /\ is_integer ty = true /\ carrier tx = carrier ty) as (Hix & Hi & Hc) by done.
    cbn [rewrite_unary]. apply wp_yields. eapply wp_mono.
    { apply (fold_low_bits_spec rec ok ok_le Hrec t ty x tx count); try done. apply Hok. cbn [depth]. lia. }
    intros id t' [Hstep Hy]. split; [done|]. eapply yields_weaken; [exact Hy|]. intros rho Hm l Hl.
    pose proof (model_extends _ _ _ Hwf (proj1 Hstep) Hm) as Hm0.
    by rewrite (ev_low_bits t rho Hm0 ty count x tx) in Hl by done.
Qed.

Lemma rewrite_binary_spec t ty op x y c : wf t -> typed t ty (EBinary op x y) ->
  (forall k, (k < depth t ty (EBinary op x y))%nat -> ok k) ->
  wp (rewrite rec ty (EBinary op x y) c) (rewritten t ty (fun rho => eval t rho ty (EBinary op x y) 0)) t.
Proof.
  intros Hwf Ht Hok. cbn [rewrite]. destruct op as [op|op|m|it|lt l|op|op|op f|op f|op lt|s rl];
    try by apply rewrite_none.
  - pose proof Ht as (tx & ty' & Hx & Hy & Hty)%typed_binary. cbn [binary_typed] in Hty. btyping.
    assert (carrier tx = carrier ty /\ carrier ty' = carrier ty /\ ty <> F64) as (Hcx & Hcy & HF) by done.
    apply (fold_bitwise_spec rec ok ok_le Hrec t ty op x y tx ty'); try done.
    + apply Hok. destruct op; cbn [depth]; lia.
    + intros rho Hm l Hl. destruct (ev_bitwise t rho Hm ty op x y tx ty' 0 Hx Hy Hcx Hcy) as (l' & Hl' & Hok' & Hv).
      cbn beta in Hl. rewrite Hl' in Hl. simplify_eq. split; [apply Hok'|done].
  - destruct op; [|by apply rewrite_none].
    apply (fold_compare_spec rec ok ok_le Hrec); [done|done|]. apply Hok. cbn [depth]. lia.
  - by apply fold_shuffle_spec.
  - apply (fold_swizzle_spec rec ok ok_le Hrec); [done|done|]. apply Hok. cbn [depth]. lia.
  - apply (fold_replace_lane_spec rec ok ok_le Hrec); [done|done|]. apply Hok. cbn [depth]. lia.
  - apply (fold_binary_spec rec ok ok_le Hrec); [done|done|]. intros -> [-> | ->]; apply Hok; cbn [depth];
      rewrite decide_True by done; lia.
  - by apply fold_vector_spec.
Qed.

Lemma rewrite_shift_spec t ty op x y c : wf t -> typed t ty (EShift op x y) ->
  wp (rewrite rec ty (EShift op x y) c) (rewritten t ty (fun rho => eval t rho ty (EShift op x y) 0)) t.
Proof using Type.
  intros Hwf Ht. cbn [rewrite]. destruct op.
  - by apply fold_shift_spec.
  - by apply fold_rotate_spec.
  - by apply fold_lane_shift_spec.
Qed.

Lemma rewrite_ternary_spec t ty op x y z c : wf t -> typed t ty (ETernary op x y z) ->
  (forall k, (k < depth t ty (ETernary op x y z))%nat -> ok k) ->
  wp (rewrite rec ty (ETernary op x y z) c) (rewritten t ty (fun rho => eval t rho ty (ETernary op x y z) 0)) t.
Proof.
  intros Hwf Ht Hok. cbn [rewrite]. destruct op.
  - apply (fold_select_spec rec ok ok_le Hrec); [done|done|]. apply Hok. cbn [depth]. lia.
  - apply (fold_select_bits_spec rec ok ok_le Hrec); [done|done|]. apply Hok. cbn [depth]. lia.
  - apply (fold_shuffle_bytes_spec rec ok ok_le Hrec); [done|done|]. apply Hok. cbn [depth]. lia.
Qed.

(** A rewritten result: a value that converts to the result type; a component
    after the first already has it. *)
Definition settled (t : ValueTable) (ty : Ty) (e : Expression nat) (c : nat) (o : option nat)
    (t' : ValueTable) : Prop :=
  step t t' /\ match o with
  | Some id => exists tid, type_at t' id = Some tid /\ convertible tid ty = true /\ (tid = ty \/ c = 0%nat) /\
      forall rho, model t' rho -> forall l, eval t rho ty e c = Some l -> lit_normalize (rho id) (carrier ty) = l
  | None => True end.

Lemma rewritten_settled t ty e m : wp m (rewritten t ty (fun rho => eval t rho ty e 0)) t ->
  wp m (settled t ty e 0) t.
Proof using Type.
  intros H. eapply wp_mono; [exact H|]. intros o t' [Hstep Ho]. split; [done|]. destruct o as [id|]; [|done].
  destruct Ho as (tid & Hid & Hc & Hval). exists tid. split_and!; auto.
Qed.

Lemma rewrite_spec t ty e c : wf t -> typed t ty e -> (c < result_count e ty)%nat ->
  (forall k, (k < depth t ty e)%nat -> ok k) -> wp (rewrite rec ty e c) (settled t ty e c) t.
Proof.
  intros Hwf Ht Hc Hok. destruct e as [op x|op x y|op x y|op x y z|s x y].
  1-4: assert (c = 0%nat) as -> by (unfold result_count in Hc; cbn in Hc; lia); apply rewritten_settled.
  - by apply rewrite_unary_spec.
  - by apply rewrite_binary_spec.
  - by apply rewrite_shift_spec.
  - by apply rewrite_ternary_spec.
  - assert (ty = I64) as ->.
    { destruct Ht as (tys & Htys & Hty). cbn [try_map] in Htys. apply bind_Some in Htys as (? & _ & Htys).
      apply bind_Some in Htys as (? & _ & Htys). simplify_eq. cbn [type_ok] in Hty.
      apply andb_true_iff in Hty as [_ Hty]. by apply bool_decide_eq_true in Hty. }
    eapply wp_mono; [apply (fold_multiply_wide_spec rec ok ok_le Hrec t s x y c)|]; [done|done|exact Hc| |].
    { apply Hok. cbn [depth]. lia. }
    intros [id|] t' [Hstep Hret]; (split; [done|]); [|done]. destruct Hret as [Hid Hval].
    exists I64. split_and!; [done|done|by left|]. intros rho Hm l Hl. rewrite <- (Hval rho Hm l Hl).
    apply (rho_normalize t' rho Hm id I64 Hid).
Qed.

(** One level of the recursion. *)
Lemma fold_body_spec t ty e c : wf t -> admissible t ty e -> (c < result_count e ty)%nat ->
  (forall k, (k < depth t ty e)%nat -> ok k) ->
  wp (fold_body rec ty e c) (delivers t ty (fun rho => eval t rho ty e c)) t.
Proof.
  intros Hwf Ha Hc Hok. pose proof (proj1 Ha) as Ht. unfold fold_body.
  destruct (literal_result t ty e c Hwf Ht) as (o & Ho & Hlit).
  apply wp_bind. eapply wp_reads; [exact Ho|].
  destruct (o ≫= fun ls => carrier_result ls ty c) as [b|] eqn:Hb.
  { destruct (Hlit b eq_refl) as [[Hw Hn] Heval]. eapply wp_mono; [by apply carrier_literal_spec|].
    intros id t' (Hstep & _ & Hret). split; [done|]. rewrite Hn in Hret. eapply returns_weaken; [exact Hret|].
    intros rho Hm l Hl. pose proof (model_extends _ _ _ Hwf (proj1 Hstep) Hm) as Hm0.
    rewrite (Heval rho Hm0) in Hl. done. }
  apply wp_bind. eapply wp_mono; [by apply rewrite_spec|]. intros r t1 [Hstep Hr].
  destruct r as [id|]; cycle 1.
  { eapply wp_mono; [apply (intern_result_spec t1 ty e c); [apply Hstep| |done]|].
    - by apply (admissible_extends t t1 ty e Hwf (proj1 Hstep)).
    - intros id t2 [Hstep2 Hret]. split; [by eapply step_trans|]. eapply returns_weaken; [exact Hret|].
      intros rho Hm l Hl. cbn beta. by rewrite (eval_extends t t1 rho ty ty e c (proj1 Hstep) Ht). }
  destruct Hr as (tid & Hid & Hconv & Hcase & Hval). apply wp_bind. eapply wp_reads; [exact Hid|].
  destruct (decide (tid = ty)) as [->|Hne].
  { apply wp_ret. split; [done|]. split; [done|]. intros rho Hm l Hl. rewrite <- (Hval rho Hm l Hl).
    symmetry. by apply (rho_normalize t1 rho Hm id ty). }
  destruct Hcase as [-> | ->]; [done|].
  eapply wp_mono; [apply (intern_result_spec t1 ty (EUnary Convert id) 0); [apply Hstep| |by apply result_count_0]|].
  - split; [|done]. apply typed_unary. by exists tid.
  - intros id' t2 [Hstep2 Hret]. split; [by eapply step_trans|]. eapply returns_weaken; [exact Hret|].
    intros rho Hm l Hl. pose proof (model_extends _ _ _ (proj2 Hstep) (proj1 Hstep2) Hm) as Hm1.
    cbn beta. rewrite (ev_convert t1 rho Hm1 ty id tid) by done. f_equal. by apply Hval.
Qed.
End Sound.

(** ** The whole recursion *)

Lemma fold_result_folds fuel : folds (fold_result fuel) (fun d => (d <= fuel)%nat).
Proof.
  induction fuel as [|fuel IH]; intros t ty e c Hwf Ha Hc Hd.
  - exfalso. assert (1 <= depth t ty e)%nat; [|lia].
    destruct e as [op|op| |op|]; cbn [depth]; try lia; destruct op; cbn [depth]; try lia; repeat case_match; lia.
  - cbn [fold_result]. eapply fold_body_spec; [|exact IH|done..|].
    + intros a b ? ?. cbn beta in *. lia.
    + intros k Hk. cbn beta. lia.
Qed.

Lemma depth_fuel t ty e : typed t ty e -> (depth t ty e <= fold_fuel t)%nat.
Proof.
  intros Ht. pose proof (typed_inputs t ty e Ht) as Hin. unfold fold_fuel.
  assert (Forall (fun i => (i < length (values t))%nat) (inputs e)) as Hlt.
  { eapply Forall_impl; [exact Hin|]. intros i [ti Hi]. by eapply type_at_lt. }
  assert (forall x, (weight t x <= x)%nat) as Hweight by (intros x; unfold weight; case_match; lia).
  destruct e as [op x|op x y|op x y|op x y z|s x y]; cbn [inputs] in Hlt;
    repeat match goal with H : Forall _ (_ :: _) |- _ => inversion_clear H end;
    cbn [depth]; try lia; destruct op; try lia; repeat case_match; try lia.
  pose proof (Hweight x). pose proof (Hweight y). lia.
Qed.

(** [fold_carrier] returns, extends the table and keeps the carrier result. *)
Lemma fold_carrier_spec t ty e c : wf t -> admissible t ty e -> (c < result_count e ty)%nat ->
  wp (fold_carrier ty e c) (delivers t ty (fun rho => eval t rho ty e c)) t.
Proof.
  intros Hwf Ha Hc. unfold fold_carrier. apply (fold_result_folds (fold_fuel t)); try done.
  by apply depth_fuel, Ha.
Qed.
