(* ===== verification/Theorems.v ===== *)
(** * Value tables and folding: the main statements

    What the compiler relies on of its value table and of carrier folding. The
    witnesses run the definitions on a small table with two parameters. *)

From S2P Require Import Prelude Bytes Types Floating Expr Evaluate Values Fold Model Carrier Lanes Bounds Table Valuations FoldBase FoldArith FoldCompare FoldBits FoldLanes FoldLayout FoldSound.
Local Open Scope Z_scope.

(** ** A sample table *)

Definition parameter (ty : Ty) (n : nat) : Value := mkValue ty (DParameter 0 n).
Definition xor_value : Value := mkValue I32 (DExpression (EBinary (Bitwise Xor) 0%nat 1%nat)).

(** Two parameters and their exclusive or. *)
Definition sample : ValueTable :=
  match (push (parameter I32 0) ≫= fun _ => push (parameter I32 1) ≫= fun _ => intern xor_value) empty_table with
  | Some (_, t) => t
  | None => empty_table
  end.

Lemma bind_run {A B} (m : T A) (f : A -> T B) t a t' : m t = Some (a, t') -> (m ≫= f) t = f a t'.
Proof. intros H. unfold mbind, T_bind. by rewrite H. Qed.

Lemma empty_wf : wf empty_table.
Proof.
  split; cbn; [done|by intros id v|by intros id b|].
  intros rho Hm id v b. by rewrite lookup_nil.
Qed.

Lemma xor_admissible t : type_at t 0 = Some I32 -> type_at t 1 = Some I32 ->
  admissible t I32 (EBinary (Bitwise Xor) 0%nat 1%nat).
Proof. intros H0 H1'. split; [|done]. apply typed_binary. by exists I32, I32. Qed.

Lemma sample_wf : wf sample.
Proof.
  destruct (push_spec empty_table (parameter I32 0) empty_wf I) as (id & t1 & Hr1 & [_ Hwf1] & Hv1).
  destruct (push_spec t1 (parameter I32 1) Hwf1 I) as (id2 & t2 & Hr2 & [He2 Hwf2] & Hv2).
  assert (type_at t2 0 = Some I32 /\ type_at t2 1 = Some I32) as [H0 H1'].
  { vm_compute in Hr1. simplify_eq. vm_compute in Hr2. simplify_eq. done. }
  destruct (intern_spec t2 xor_value Hwf2 (xor_admissible t2 H0 H1')) as (id3 & t3 & Hr3 & [_ Hwf3] & _).
  assert (sample = t3) as ->; [|done]. unfold sample.
  by rewrite (bind_run _ _ _ _ _ Hr1), (bind_run _ _ _ _ _ Hr2), Hr3.
Qed.

Definition sample_xor : Expression nat := EBinary (Bitwise Xor) 2%nat 1%nat.
Lemma sample_xor_admissible : admissible sample I32 sample_xor.
Proof. split; [|done]. by exists (EBinary (Bitwise Xor) I32 I32). Qed.

(** ** Folding *)

(** C1 Carrier folding is total and correct: on a well-formed table it returns
    within its fuel, extends the table to a well-formed one, excludes no
    valuation, and returns a value of the requested type that equals the
    expression's carrier result under every valuation. *)
Theorem fold_carrier_correct t ty e c : wf t -> admissible t ty e -> (c < length (result_types e ty))%nat ->
  exists id t', fold_carrier ty e c t = Some (id, t') /\ extends t t' /\ wf t' /\ type_at t' id = Some ty /\
    (forall rho, model t rho -> exists rho', model t' rho' /\
      forall i, (i < length (values t))%nat -> rho' i = rho i) /\
    (forall rho, model t' rho -> forall l, eval t rho ty e c = Some l -> rho id = l).
Proof.
  intros Hwf Ha Hc. destruct (fold_carrier_spec t ty e c Hwf Ha Hc) as (id & t' & Hrun & [He Hwf'] & [Ht Hval]).
  exists id, t'. split_and!; [done..| |done]. intros rho Hm. by apply (model_extend t t').
Qed.

Lemma fold_carrier_correct_witness : exists id t',
  fold_carrier I32 sample_xor 0 sample = Some (id, t') /\ extends sample t' /\ wf t' /\
  type_at t' id = Some I32 /\
  (forall rho, model sample rho -> exists rho', model t' rho' /\
    forall i, (i < length (values sample))%nat -> rho' i = rho i) /\
  (forall rho, model t' rho -> forall l, eval sample rho I32 sample_xor 0 = Some l -> rho id = l).
Proof. apply (fold_carrier_correct sample I32 sample_xor 0); [apply sample_wf|apply sample_xor_admissible|cbn; lia]. Defined.

(** [(x ^ y) ^ y] folds to [x] itself. *)
Example sample_fold : fold_carrier I32 sample_xor 0 sample = Some (0%nat, sample).
Proof. vm_compute. reflexivity. Qed.

(** ** Valuations *)

(** A choice of the undetermined values within their bounds extends to a
    valuation of the table, and any two valuations that agree on what the
    definitions leave open agree on every value. *)
Theorem valuation_determined t env : wf t -> admits t env ->
  model t (denote t env) /\
  forall rho, model t rho ->
    (forall id v, values t !! id = Some v -> determined t rho id v = None -> rho id = env id) ->
    forall id, (id < length (values t))%nat -> rho id = denote t env id.
Proof.
  intros Hwf Henv. split; [by apply denote_model|]. intros rho Hm Hfree id Hid. by apply model_denote.
Qed.

Lemma valuation_determined_witness :
  model sample (denote sample (fun _ => lit 0)) /\
  forall rho, model sample rho ->
    (forall id v, values sample !! id = Some v -> determined sample rho id v = None -> rho id = lit 0) ->
    forall id, (id < length (values sample))%nat -> rho id = denote sample (fun _ => lit 0) id.
Proof. apply (valuation_determined sample); [apply sample_wf|apply admits_zero, sample_wf]. Defined.

(** ** Bounds *)

(** C2 The bounds computed for an expression hold: every value its operands can
    take gives a carrier result of at most [unsigned] significant bits that, read
    as a signed carrier, fits [signed] bits. *)
Theorem for_value_bounds t rho ty e l b : wf t -> model t rho -> admissible t ty e ->
  eval t rho ty e 0 = Some l ->
  for_value (mkValue ty (DExpression e)) (values t) (bounds t) = Some b ->
  0 <= lit_u128 l < 2 ^ unsigned b /\
  - 2 ^ (signed b - 1) <= to_signed (bits (carrier ty)) (lit_u128 l) < 2 ^ (signed b - 1).
Proof.
  intros Hwf Hm [Ht Hp] He Hb. exact (for_value_sound t rho Hwf Hm ty e l b Ht (Hp rho Hm) He Hb).
Qed.

Lemma for_value_bounds_witness :
  let rho := denote sample (fun _ => lit 0) in
  0 <= lit_u128 (lit 0) < 2 ^ 32 /\ - 2 ^ (32 - 1) <= to_signed 32 (lit_u128 (lit 0)) < 2 ^ (32 - 1).
Proof.
  intros rho.
  apply (for_value_bounds sample rho I32 sample_xor (lit 0) (mkBounds 32 32)); [apply sample_wf| |apply sample_xor_admissible| |].
  - apply denote_model; [apply sample_wf|apply admits_zero, sample_wf].
  - vm_compute. reflexivity.
  - vm_compute. reflexivity.
Defined.

(** ** Interning *)

Lemma push_results_prefix producer : forall types component t r t',
  push_results producer component types t = Some (r, t') -> values t `prefix_of` values t'.
Proof.
  induction types as [|ty types IH]; intros component t r t' H; cbn [push_results] in H.
  - by apply ret_inv in H as [_ ->].
  - apply bind_inv in H as (i & t1 & H1' & H). apply IH in H. etrans; [|exact H].
    unfold push_plain in H1'. apply bind_Some in H1' as (b & _ & H1'). unfold push_one in H1'. simplify_eq.
    by apply prefix_app_r.
Qed.

Lemma push_stores v t id t' : push v t = Some (id, t') ->
  id = length (values t) /\ values t' !! id = Some v /\ values t `prefix_of` values t'.
Proof.
  intros (b & _ & H)%bind_Some. unfold push_with_bounds in H. apply bind_inv in H as (i & t1 & H1' & H).
  unfold push_one in H1'. injection H1' as <- <-.
  assert (values t' !! length (values t) = Some v /\ values t `prefix_of` values t' <->
    (values t ++ [v]) `prefix_of` values t') as Hiff.
  { split.
    - intros [Hv [k Hk]]. rewrite Hk in Hv |- *. rewrite lookup_app_r, Nat.sub_diag in Hv by done.
      destruct k as [|w k]; [done|]. cbn in Hv. simplify_eq. exists k. by rewrite <- app_assoc.
    - intros [k Hk]. rewrite Hk, <- app_assoc. split; [|by apply prefix_app_r].
      rewrite lookup_app_r, Nat.sub_diag by done. done. }
  assert (id = length (values t) /\ (values t ++ [v]) `prefix_of` values t') as [-> Hp]; [|by apply Hiff in Hp].
  destruct (definition v) as [l|e|b' c|item c]; try (by apply ret_inv in H as [<- ->]).
  apply bind_inv in H as (u & t2 & H2' & H). apply ret_inv in H as [<- ->].
  split; [done|]. by apply push_results_prefix in H2'.
Qed.

Lemma intern_stores v t id t' : intern v t = Some (id, t') ->
  values t' !! id = Some v /\ values t `prefix_of` values t' /\ find_interned t' v = Some id.
Proof.
  unfold intern. destruct (find_interned t v) as [i|] eqn:Hf.
  - intros [= <- <-]. split_and!; [by apply find_interned_Some|done|done].
  - intros ([i t1] & Hpush & H)%bind_Some. simplify_eq. destruct (push_stores _ _ _ _ Hpush) as (-> & Hv & Hp).
    split_and!; [done|done|]. unfold find_interned. cbn [interned values list_find].
    by rewrite decide_True.
Qed.

(** C13 Interning is hash-consing: interning a value again returns the same id
    and leaves the table as it is, and two values share an id only when they
    are equal. *)
Theorem intern_canonical v w t id t' id' t'' : intern v t = Some (id, t') -> intern w t' = Some (id', t'') ->
  intern v t' = Some (id, t') /\ (id = id' <-> v = w).
Proof.
  intros Hv Hw. destruct (intern_stores v t id t' Hv) as (Hvid & _ & Hf).
  destruct (intern_stores w t' id' t'' Hw) as (Hwid & Hp & _).
  assert (intern v t' = Some (id, t')) as Hagain by (unfold intern; by rewrite Hf).
  split; [done|]. split.
  - intros <-. pose proof (prefix_lookup_Some _ _ _ _ Hvid Hp) as H. congruence.
  - intros <-. congruence.
Qed.

Definition literal_of_int (z : Z) : Value := mkValue I32 (DLiteral (lit z)).
Lemma intern_canonical_witness : exists t' t'',
  intern (literal_of_int 7) sample = Some (3%nat, t') /\ intern (literal_of_int 8) t' = Some (4%nat, t'') /\
  intern (literal_of_int 7) t' = Some (3%nat, t') /\ (3%nat = 4%nat <-> literal_of_int 7 = literal_of_int 8).
Proof.
  eexists _, _. split; [vm_compute; reflexivity|]. split; [vm_compute; reflexivity|].
  eapply (intern_canonical (literal_of_int 7) (literal_of_int 8) sample); vm_compute; reflexivity.
Defined.

(** ** Representations and results *)

Lemma representation_stops t : forall fuel x r, representation_loop fuel t x = Some r ->
  forall tr input ti, values t !! r = Some (mkValue tr (DExpression (EUnary Convert input))) ->
    type_at t input = Some ti -> carrier tr <> carrier ti.
Proof.
  induction fuel as [|fuel IH]; intros x r H tr input ti Hv Hti; [done|]. cbn [representation_loop] in H.
  apply bind_Some in H as ([tv d] & Hx & H). cbn [definition Values.ty] in H. unfold value_at in Hx.
  destruct d as [|[op y| | | |]| |]; try (simplify_eq; done).
  destruct op; try (simplify_eq; done).
  apply bind_Some in H as (source & Hsource & H). destruct (decide _) as [|Hne]; [by eapply IH|].
  simplify_eq. congruence.
Qed.

(** The representation of a value exists, does not come after it, has its
    carrier and its carrier bits under every valuation, and is not itself a
    conversion within one carrier. *)
Theorem representation_canonical t x tx : wf t -> type_at t x = Some tx ->
  exists r, representation t x = Some r /\ (r <= x)%nat /\
    (exists tr, type_at t r = Some tr /\ carrier tr = carrier tx) /\
    (forall rho, model t rho -> rho r = rho x) /\
    forall tr input ti, values t !! r = Some (mkValue tr (DExpression (EUnary Convert input))) ->
      type_at t input = Some ti -> carrier tr <> carrier ti.
Proof.
  intros Hwf Hx. destruct (representation_spec t x tx Hwf Hx) as (r & Hr & Hrep).
  exists r. split_and!; [done|apply Hrep|apply Hrep|apply Hrep|].
  intros tr input ti Hv Hti. by eapply representation_stops.
Qed.

Lemma representation_canonical_witness : exists r, representation sample 2 = Some r /\ (r <= 2)%nat /\
    (exists tr, type_at sample r = Some tr /\ carrier tr = carrier I32) /\
    (forall rho, model sample rho -> rho r = rho 2%nat) /\
    forall tr input ti, values sample !! r = Some (mkValue tr (DExpression (EUnary Convert input))) ->
      type_at sample input = Some ti -> carrier tr <> carrier ti.
Proof. apply (representation_canonical sample 2 I32); [apply sample_wf|by vm_compute]. Defined.

(** Every result of a stored expression can be recovered from its id, and
    holds that component of the expression under every valuation. *)
Theorem results_roundtrip t producer e ty c ty' : wf t ->
  values t !! producer = Some (mkValue ty (DExpression e)) -> result_types e ty !! c = Some ty' ->
  exists id, expression_result t producer c = Some id /\ type_at t id = Some ty' /\
    expression_of t id = Some (Some (mkResult producer e c)) /\
    forall rho, model t rho -> forall l, eval t rho ty' e c = Some l -> rho id = l.
Proof.
  intros Hwf Hv Hc. pose proof (lookup_lt_Some _ _ _ Hc) as Hlt.
  destruct (expression_result_spec t producer ty e c Hwf Hv Hlt) as [Hres Hret].
  exists (producer + c)%nat. split; [done|].
  pose proof (wf_value t Hwf producer _ Hv) as (_ & [Ht _] & Hrest). cbn [Values.ty definition] in *.
  assert (ty' = ty) as ->.
  { destruct e as [| | | |s x y]; cbn [result_types] in Hc; try (by apply list_lookup_singleton_Some in Hc as [_ <-]).
    apply typed_multiply in Ht as (_ & _ & ->). by destruct c as [|[|c] ]; cbn in Hc; simplify_eq. }
  split; [apply Hret|]. split; [|apply Hret]. unfold expression_of, definition_at. destruct c as [|c].
  - by rewrite Nat.add_0_r, Hv.
  - rewrite (Hrest c ty Hc). cbn. by rewrite Hv.
Qed.

Lemma results_roundtrip_witness : exists id, expression_result sample 2 0 = Some id /\
  type_at sample id = Some I32 /\
  expression_of sample id = Some (Some (mkResult 2 (EBinary (Bitwise Xor) 0%nat 1%nat) 0)) /\
  forall rho, model sample rho -> forall l,
    eval sample rho I32 (EBinary (Bitwise Xor) 0%nat 1%nat) 0 = Some l -> rho id = l.
Proof. apply (results_roundtrip sample 2 _ I32 0 I32); [apply sample_wf|by vm_compute|done]. Defined.

(** C4 Carrier bits recovered from bounds are right: when a value's logical bits
    are known, [carrier_bits] either declines or gives exactly its carrier. *)
Theorem carrier_bits_exact t rho x tx logical b : wf t -> model t rho -> type_at t x = Some tx ->
  is_scalar tx = true -> wrap (bits tx) (val rho x) = wrap (bits tx) logical ->
  carrier_bits t x logical = Some (Some b) -> val rho x = b.
Proof. by apply carrier_bits_sound. Qed.

Lemma carrier_bits_exact_witness :
  let rho := denote sample (fun _ => lit 0) in
  carrier_bits sample 2 0 = Some (Some 0) /\ val rho 2%nat = 0.
Proof.
  intros rho. split; [vm_compute; reflexivity|].
  apply (carrier_bits_exact sample rho 2%nat I32 0 0); [apply sample_wf| |vm_compute; reflexivity..].
  apply denote_model; [apply sample_wf|apply admits_zero, sample_wf].
Defined.

(** ** Shuffle masks *)

(** Sixteen five-bit indices survive packing into ten bytes. *)
Theorem shuffle_mask_roundtrip indices m : length indices = 16%nat -> Forall (fun i => 0 <= i < 32) indices ->
  mask_new indices = Some m -> mask_indices m = indices /\ length (mask_bytes m) = 10%nat.
Proof.
  intros Hlen Hall Hm. split; [by apply mask_indices_new|].
  unfold mask_new in Hm. apply bind_Some in Hm as (packed & _ & Hm). simplify_eq. apply length_to_le_bytes.
Qed.

Definition reversed_indices : list Z := (fun i => 31 - Z.of_nat i) <$> seq 0 16.
Lemma shuffle_mask_roundtrip_witness : exists m, mask_new reversed_indices = Some m /\
  mask_indices m = reversed_indices /\ length (mask_bytes m) = 10%nat.
Proof.
  eexists. split; [vm_compute; reflexivity|].
  apply shuffle_mask_roundtrip; [reflexivity| |vm_compute; reflexivity].
  apply (bool_decide_unpack _). vm_compute. exact I.
Defined.

(** ** Integer operations *)

(** Arithmetic on [w]-bit integers; [None] is a WebAssembly trap. *)
Definition int_reference (ty : Ty) (operator : BinaryOp) (l r : Z) : option Z :=
  let w := bits ty in
  let s := to_signed w in
  match operator with
  | Add => Some (wrap w (l + r))
  | Sub => Some (wrap w (l - r))
  | Mul => Some (wrap w (l * r))
  | DivUnsigned => if r =? 0 then None else Some (l / r)
  | RemUnsigned => if r =? 0 then None else Some (l mod r)
  | DivSigned =>
      if (r =? 0) || ((32 <=? w) && (s l =? - 2 ^ (w - 1)) && (s r =? -1)) then None
      else Some (wrap w (Z.quot (s l) (s r)))
  | RemSigned => if r =? 0 then None else Some (wrap w (Z.rem (s l) (s r)))
  end.

Lemma to_signed_zero w z : 0 < w -> fits w z -> (to_signed w z =? 0) = (z =? 0).
Proof.
  intros Hw [H0 H1']. rewrite to_signed_small by done. pose proof (pow2_half w Hw). pose proof (pow2_pos (w - 1) ltac:(lia)).
  destruct (Z.ltb_spec z (2 ^ (w - 1))); destruct (Z.eqb_spec z 0); try apply Z.eqb_eq; try apply Z.eqb_neq; lia.
Qed.

(** Integer literal arithmetic at every logical width is modular two's
    complement arithmetic, and is left to the machine exactly where WebAssembly
    traps: a zero divisor, or the one signed quotient that overflows a 32- or
    64-bit result. *)
Theorem int_binary_reference ty op l r : is_integer ty = true -> fits (bits ty) l -> fits (bits ty) r ->
  normalize ty <$> int_binary ty op l r = int_reference ty op l r.
Proof.
  intros Hi Hl Hr. pose proof (integer_scalar ty Hi) as Hs. pose proof (scalar_bits ty Hs) as Hb.
  assert (forall z, normalize ty (wrap 64 z) = wrap (bits ty) z) as Hn.
  { intros z. rewrite normalize_wrap by done. apply wrap_idem_le. lia. }
  assert (forall z, fits (bits ty) z -> normalize ty z = z) as Hid.
  { intros z Hz. rewrite normalize_wrap by done. by apply wrap_small. }
  pose proof (to_signed_zero (bits ty) r ltac:(lia) Hr) as Hz.
  pose proof (to_signed_range (bits ty) l ltac:(lia)) as Hrl.
  unfold int_binary, int_reference, checked_udiv, checked_urem, checked_sdiv, checked_srem, i64_overflows. cbv zeta.
  rewrite !signed_value_spec by done. destruct op; cbn [fmap option_fmap option_map]; rewrite ?Hn; try done.
  - destruct (Z.eqb_spec r 0); cbn [fmap option_fmap option_map]; [done|]. f_equal. apply Hid.
    unfold fits in *. pose proof (Z.div_pos l r ltac:(lia) ltac:(lia)).
    pose proof (Z.div_le_upper_bound l r l ltac:(lia) ltac:(nia)). lia.
  - rewrite Hz. set (a := to_signed (bits ty) l) in *. set (b := to_signed (bits ty) r) in *.
    destruct ty; try done; cbn [bits] in *; rewrite ?bool_decide_eq_false_2, ?bool_decide_eq_true_2 by done;
      cbn [andb Z.leb Z.compare Pos.compare Pos.compare_cont];
      repeat (match goal with |- context [a =? ?k] => destruct (Z.eqb_spec a k) end);
      destruct (r =? 0), (b =? -1); cbn [andb orb fmap option_fmap option_map]; rewrite ?Hn; try done; lia.
  - destruct (Z.eqb_spec r 0); cbn [fmap option_fmap option_map]; [done|]. f_equal. apply Hid.
    unfold fits in *. pose proof (Z.mod_pos_bound l r ltac:(lia)). lia.
  - set (a := to_signed (bits ty) l) in *. set (b := to_signed (bits ty) r) in *.
    destruct (Z.eqb_spec b (-1)) as [Hb1|].
    + rewrite <- Hz, Hb1. cbn [Z.eqb orb]. rewrite andb_true_r.
      destruct (a =? - 2 ^ 63) eqn:Ha; cbn [fmap option_fmap option_map].
      * f_equal. rewrite Hid by (apply fits_0; lia). change (-1) with (- (1)).
        by rewrite Z.rem_opp_r', Z.rem_1_r.
      * by rewrite Hn.
    + rewrite !andb_false_r, Hz, orb_false_r.
      destruct (r =? 0); cbn [fmap option_fmap option_map]; by rewrite ?Hn.
Qed.

Lemma int_binary_reference_witness : normalize I8 <$> int_binary I8 DivSigned 128 255 = Some 128.
Proof. apply (int_binary_reference I8 DivSigned 128 255); [reflexivity| |]; by apply (bool_decide_unpack _). Defined.

(** Rotations move bit [i] by the count, modulo the logical width, and the
    opposite rotation by the same count restores the value. *)
Theorem rotate_bits ty op v count i : is_integer ty = true -> fits (bits ty) v -> 0 <= i < bits ty ->
  Z.testbit (int_rotate ty op v count) i
  = Z.testbit v (match op with RotLeft => i - count | RotRight => i + count end mod bits ty).
Proof.
  intros Hi Hv Hrange. pose proof (scalar_bits ty (integer_scalar ty Hi)) as Hb.
  unfold int_rotate. cbv zeta. rewrite rotate_count_mod by done.
  pose proof (Z.mod_pos_bound count (bits ty) ltac:(lia)) as Hc. set (k := count mod bits ty) in *.
  assert (forall z, (z - count) mod bits ty = (z - k) mod bits ty /\ (z + count) mod bits ty = (z + k) mod bits ty) as Hmod.
  { intros z. subst k. by rewrite Zminus_mod_idemp_r, Zplus_mod_idemp_r. }
  destruct (Hmod i) as [Hm1 Hm2].
  destruct (Z.eqb_spec k 0) as [Hk0|Hk0].
  { destruct op; rewrite ?Hm1, ?Hm2, Hk0, ?Z.sub_0_r, ?Z.add_0_r, Z.mod_small by done; done. }
  destruct op; rewrite ?Hm1, ?Hm2, Z.lor_spec, testbit_wrap, testbit_shiftl, testbit_shiftr by lia;
    rewrite (proj2 (Z.leb_le 0 i)), (proj2 (Z.ltb_lt i 64)) by lia; cbn [andb].
  - destruct (Z.leb_spec k i); cbn [andb].
    + rewrite (Z.mod_small (i - k)) by lia. rewrite (fits_testbit (bits ty) v (i + _)) by (done || lia).
      by rewrite orb_false_r.
    + cbn [orb]. f_equal. apply (Z.mod_unique _ _ (-1)); [left|]; lia.
  - destruct (Z.leb_spec (bits ty - k) i); cbn [andb].
    + rewrite (fits_testbit (bits ty) v (i + k)) by (done || lia). cbn [orb]. f_equal.
      apply (Z.mod_unique _ _ 1); [left|]; lia.
    + rewrite orb_false_r. by rewrite (Z.mod_small (i + k)) by lia.
Qed.

Lemma rotate_bits_witness :
  Z.testbit (int_rotate I8 RotLeft 0x81 3) 2 = Z.testbit 0x81 ((2 - 3) mod bits I8).
Proof. apply (rotate_bits I8 RotLeft 0x81 3 2); [reflexivity| |cbn; lia]. by apply (bool_decide_unpack _). Defined.

(** ** Vector lanes *)

(** A lane-wise vector operation acts on each lane alone: the lane of its
    result is the scalar operation on the operands' lanes, at the lane's width. *)
Theorem vec_binary_lanes op lane_type l r off : lanewise op = true -> is_lane lane_type = true ->
  off ∈ offsets (bits lane_type) ->
  lane (vec_binary op lane_type l r) off (mask lane_type)
  = normalize lane_type (lane_binary op lane_type (lane l off (mask lane_type)) (lane r off (mask lane_type))).
Proof.
  intros Hop Ht Hoff. destruct (lane_width_pos _ (lane_bits _ Ht)) as [Hw Hfull].
  rewrite vec_binary_lanewise by done. pose proof Hoff as (k & -> & Hk)%elem_of_offsets; [|lia].
  apply Z.bits_inj'. intros i Hi. rewrite testbit_lane by (done || nia). unfold normalize.
  destruct (Z.ltb_spec i (bits lane_type)) as [Hlt|Hge]; cbn [andb].
  - assert ((k * bits lane_type + i) / bits lane_type = k /\ (k * bits lane_type + i) mod bits lane_type = i) as [E1 E2].
    { split; symmetry.
      - apply (Z.div_unique _ _ k i); [left|]; lia.
      - apply (Z.mod_unique _ _ k); [left|]; lia. }
    rewrite testbit_gather; [by rewrite E1, E2|by apply lane_bits| |nia].
    intros off _. rewrite mask_ones by by apply lane_scalar. apply fits_land_r; [lia|]. apply fits_ones. lia.
  - symmetry. rewrite mask_ones by by apply lane_scalar. rewrite Z.land_spec, testbit_ones by lia.
    rewrite (proj2 (Z.ltb_ge i _)) by lia. by rewrite !andb_false_r.
Qed.

Lemma vec_binary_lanes_witness :
  lane (vec_binary LSub I16 5 0x70000) 16 (mask I16)
  = normalize I16 (lane_binary LSub I16 (lane 5 16 (mask I16)) (lane 0x70000 16 (mask I16))).
Proof.
  apply (vec_binary_lanes LSub I16 5 0x70000 16); [reflexivity..|]. apply elem_of_offsets; [cbn; lia|]. exists 1. split; [reflexivity|]. split; [lia|reflexivity].
Defined.

(** ** Floating-point encodings *)

(** The three fields of an encoding. *)
Lemma encoding_fields f b : fits (format_bits f) b ->
  let e := Z.land (Z.shiftr b (fraction f)) (Z.ones (exponent_bits f)) in
  let m := Z.land b (Z.ones (fraction f)) in
  b = e * 2 ^ fraction f + m + Z.b2z (Z.testbit b (format_bits f - 1)) * 2 ^ (format_bits f - 1) /\
  0 <= e <= Z.ones (exponent_bits f) /\ 0 <= m < 2 ^ fraction f.
Proof.
  intros Hb. cbv zeta.
  assert (0 < fraction f /\ 0 < exponent_bits f /\ fraction f + exponent_bits f = format_bits f - 1) as (Hf & He & Hsum)
    by by destruct f.
  rewrite !Z.land_ones, Z.shiftr_div_pow2 by lia.
  pose proof (pow2_pos (fraction f) ltac:(lia)). pose proof (pow2_pos (exponent_bits f) ltac:(lia)).
  pose proof (Z.mod_pos_bound b (2 ^ fraction f) ltac:(lia)).
  pose proof (Z.mod_pos_bound (b / 2 ^ fraction f) (2 ^ exponent_bits f) ltac:(lia)).
  rewrite Z.ones_equiv. split; [|lia].
  assert (2 ^ (format_bits f - 1) = 2 ^ fraction f * 2 ^ exponent_bits f) as Hp
    by (rewrite <- Z.pow_add_r by lia; f_equal; lia).
  assert (b / 2 ^ fraction f / 2 ^ exponent_bits f = Z.b2z (Z.testbit b (format_bits f - 1))) as Hsign.
  { rewrite Z.div_div by lia. rewrite <- Hp. rewrite <- Z.shiftr_div_pow2 by lia.
    assert (0 <= Z.shiftr b (format_bits f - 1) < 2) as Hlt.
    { rewrite Z.shiftr_div_pow2, Hp by lia. destruct Hb as [Hb0 Hb1].
      assert (2 ^ format_bits f = 2 * 2 ^ (format_bits f - 1)) as Hh by (apply pow2_half; lia).
      split; [apply Z.div_pos; nia|]. apply Z.div_lt_upper_bound; nia. }
    rewrite <- (Z.add_0_l (format_bits f - 1)) at 2. rewrite <- Z.shiftr_spec by lia.
    destruct (decide (Z.shiftr b (format_bits f - 1) = 0)) as [->|]; [done|].
    by replace (Z.shiftr b (format_bits f - 1)) with 1 by lia. }
  pose proof (Z.div_mod b (2 ^ fraction f) ltac:(lia)). pose proof (Z.div_mod (b / 2 ^ fraction f) (2 ^ exponent_bits f) ltac:(lia)).
  rewrite Hp, <- Hsign. nia.
Qed.

(** Encoding the value of an encoding gives the encoding back, zeros,
    subnormals, normals and infinities alike; only a NaN loses its payload. *)
Theorem float_bits_roundtrip f b : fits (format_bits f) b -> is_nan (from_bits f b) = false ->
  to_bits f (from_bits f b) = b.
Proof.
  intros Hb Hnan. destruct (encoding_fields f b Hb) as (Heq & He & Hm). cbv zeta in *. unfold from_bits in *. cbv zeta in *.
  set (s := Z.testbit b (format_bits f - 1)) in *.
  set (e := Z.land (Z.shiftr b (fraction f)) (Z.ones (exponent_bits f))) in *.
  set (m := Z.land b (Z.ones (fraction f))) in *.
  assert (forall magnitude, magnitude = e * 2 ^ fraction f + m ->
    wrap (format_bits f) (magnitude + Z.b2z s * 2 ^ (format_bits f - 1)) = b) as Hsigned.
  { intros ? ->. rewrite <- Heq. by apply wrap_small. }
  destruct (Z.eqb_spec e (Z.ones (exponent_bits f))) as [Hinf|_].
  { destruct (Z.eqb_spec m 0) as [Hm0|]; [|done]. cbn [to_bits]. apply Hsigned. lia. }
  destruct (Z.eqb_spec e 0) as [He0|He0]; unfold finite.
  - destruct m as [|p|p] eqn:Em; cbn [to_bits]; [apply Hsigned; lia| |lia].
    rewrite (proj2 (Z.ltb_lt _ _)) by lia. apply Hsigned. lia.
  - destruct (m + 2 ^ fraction f) as [|p|p] eqn:Em; [lia| |lia]. cbn [to_bits].
    rewrite (proj2 (Z.ltb_ge _ _)) by lia. apply Hsigned. rewrite <- Em. lia.
Qed.

Lemma float_bits_roundtrip_witness : to_bits Binary64 (from_bits Binary64 0x3ff8000000000000) = 0x3ff8000000000000.
Proof.
  apply float_bits_roundtrip; [by apply (bool_decide_unpack _)|vm_compute; reflexivity].
Defined.
